(* ===== verification/_CoqProject ===== *)
-Q . S2P
Prelude.v
PyDict.v
PyStr.v
ModelTypes.v
NodeIds.v
Profiles.v
Mapper.v
Builder.v
BuilderLemmas.v
BuilderSpec.v
BuilderClosed.v
OpcuaValue.v
SubQueue.v
Async.v
SubResolve.v
SubRuntime.v
SubRegistry.v
SubPool.v
SubAdmission.v
SubBehaviour.v
ModelAccess.v
ModelAccessSpec.v
ModelTools.v
ModelToolsSpec.v
NodeLookup.v
Json.v
Repr.v
Schemas.v
SchemasSpec.v
OpcuaReads.v
OpcuaReadsSpec.v
UaValues.v
AddressSpace.v
AddressSpaceSpec.v
MetadataCache.v
TypeHierarchies.v
TypeHierarchiesSpec.v
Values.v
ValuesSpec.v
ObjectHelpers.v
ObjectHelpersSpec.v
OpcuaWrites.v
OpcuaWritesSpec.v
Writes.v
WritesSpec.v
SubApp.v
SubRoutes.v
SubRoutesSpec.v
Urls.v
HttpCaching.v
HttpCachingSpec.v
PyClasses.v
ObjectSchema.v
ObjectSchemaRuns.v
ObjectSchemaSpec.v
TypeContext.v
TypeContextSpec.v
TypeBuild.v
TypeBuildSpec.v
ModelQuery.v
ModelQuerySpec.v
ModelMetrics.v
ModelCache.v
McpPaths.v
McpPages.v
McpContainer.v
McpJson.v
McpJsonSpec.v
McpTools.v
Prompts.v
McpInvoke.v
McpCompact.v
McpCatalogs.v
McpStreams.v
McpStreamsSpec.v
McpServer.v
McpInvokeSpec.v
McpCatalogsSpec.v
McpServerSpec.v
