(* ===== verification/Prelude.v ===== *)
(** * The i3X server over OPC UA: a verification library

    The program ([src/i3x_server/], Python) serves the i3X API for an OPC UA server. It browses the server's address
    space, classifies what it finds and builds one model of elements and relationships; the REST and MCP interfaces
    answer queries on that model, read values and histories through the OPC UA client, and keep subscriptions whose
    updates come from monitored items of the server or from polling. The library translates the core of it into Gallina,
    definition by definition under the names of the code, and proves what makes each part correct.

    ** Parts

    The names in brackets are those of files, each with a module of that name. Some files have a second module: [UaValues] has
    [ObjectTypes], [PyClasses] has [PyClassHints], [Prompts] has [McpGuides], and [ModelMetrics], [ModelCache], [MetadataCache]
    and [McpContainer] have their own specifications.

    Foundations.
    - [Prelude]: lists, options, outcomes, stable sorting; the notations and tactics of the library.
    - [PyDict], [PyStr]: dictionaries with insertion order and strings, with the methods that the code uses.
    - [Async]: coroutines as trees of atomic sections and awaits: [run] against one environment, [wp] against all that
      keep a contract, [pool_step] for interleavings, with a rely/guarantee rule.
    - [ModelTypes]: the data that the parts exchange ([domain/ports/opcua.py], [schemas/i3x.py], [schemas/state.py]).

    Building the model.
    - [NodeIds] ([domain/utils.py]): spellings of node ids, their canonical form, namespaces.
    - [Profiles], [Mapper] ([model/semantic_profiles.py], [model/mapper.py]): which profiles apply to a node, the class of
      a reference, the mapping of a node.
    - [Builder] ([model/builder.py]): the whole build. [BuilderLemmas] computes its stages in terms of the classified
      edges; [BuilderSpec] states what every built model satisfies: the parent of an element is the source of a best
      candidate, the tables of parents and children agree, relationships come in inverse pairs and stand for exactly the
      classified references, and a build fails in two ways only. [BuilderClosed]: every element id that a model holds
      is that of one of its nodes.

    Queries on the model.
    - [ModelAccess], [ModelAccessSpec] ([mcp/model_access.py]): the index over the model and every indexed call. The
      search by trigrams answers what a scan answers, pages partition, browse paths round-trip, composition walks are
      exact and answers do not depend on the cache.
    - [ModelTools], [ModelToolsSpec] ([mcp/model_tools.py]): search, context, subtree summaries, shortest relationship
      paths. [NodeLookup]: on a built model ([Builder]) a batch translation ([ModelTools]) of node ids ([NodeIds]) finds
      exactly the nodes that the model has, in every spelling.

    Talking to the server ([infrastructure/opcua/client.py]).
    - [OpcuaValue], [UaValues] ([schemas/opcua_value.py]): values of the server, their canonical form, their JSON form.
    - [OpcuaReads], [OpcuaReadsSpec]: the reads of the client, with their batches, splits, retries and continuation
      points. Against every server that keeps the contract in the statement they return everything that was asked for, in
      order, and they end. [holds] is the Hoare logic of these programs that the files below share.
    - [AddressSpace], [AddressSpaceSpec]: [browse_tree] on top of these reads: against a server with a finite address
      space it ends, with one complete description of each reachable node that can be read.
    - [MetadataCache], [MetadataCacheSpec]: the cache of the server's metadata as a state machine: entries with a time to
      live, loads that are shared, and what connects, reconnects and disconnects do to them.
    - [TypeHierarchies], [TypeHierarchiesSpec]: the supertypes of types and the names of reference types, over caches.
    - [OpcuaWrites], [OpcuaWritesSpec] (with [history_utils.py]): access rights, writes with verification, the conversion
      of historical values to the type and shape of a node, updates of histories.

    The REST interface ([api/v1/], [application/]).
    - [Json], [Schemas], [SchemasSpec] ([schemas/objecttype_schema.py]): JSON values; definitions of schemas, their
      merging, expansion and collection.
    - [PyClasses], [PyClassHints], [ObjectSchema], [ObjectSchemaRuns], [ObjectSchemaSpec] (the rest of that file): the classes of
      data types as [Universe], what their annotations, fields and defaults say, the functions that make schemas of them, of
      values and of members and register definitions on the way, and the schema of an object type with its ancestors.
      The functions call each other along the references between classes, which may be cyclic: [step] is one call over the
      calls it makes, [run_job] ties them, and [ObjectSchemaRuns.run_ends] shows for all of them at once that they end.
    - [Repr], [HttpCaching], [HttpCachingSpec] ([http_caching.py], [model/revision.py]): revisions as digests of the [repr]
      of what was used, entity tags, the middleware that answers 304, and the revision of a model.
    - [ObjectTypes], [TypeContext], [TypeContextSpec] ([objecttype_helpers.py]): the shared context of object types: its
      tokens, its cache, stale contexts and the rebuild behind them, as programs of [Async].
    - [TypeBuild], [TypeBuildSpec] (the same file): how such a context is made of the types of the server, of the structures in
      their schemas, and of one item for every id that is left in the model; whatever the server answers, it ends, and the
      objects of [ObjectHelpers] find their types in it, but for those whose type is the null id.
    - [ModelQuery], [ModelQuerySpec] ([application/services/model_query.py] and the routes of types): namespaces, object
      types and relationship types, the service of one request and the routes on it.
    - [ModelMetrics], [ModelMetricsSpec] ([model_routes.py] and [monolithic.py]): what the diagnostics count.
    - [ModelCache], [ModelCacheSpec] ([application/dependencies.py], [bootstrap/app_factory.py]): the model that all requests
      share: its lock, the preload and the periodic refresh, interleaved.
    - [Values], [ValuesSpec] ([object_value.py] and the routes of values): from the elements of a request over the
      composition walk and the reads of the client to one result or error per element.
    - [ObjectHelpers], [ObjectHelpersSpec] ([object_helpers.py], [object_routes.py]): objects, type ids, related objects.
    - [Writes], [WritesSpec]: updates of values and histories: checked, made at most once, reported as they went.

    Subscriptions ([infrastructure/subscriptions/service.py]).
    - [SubQueue]: the record of one subscription and its bounded queue of updates.
    - [SubResolve]: which nodes the registered elements stand for.
    - [SubRuntime]: the shared state and every coroutine of the service, as programs of [Async].
    - [SubRegistry]: the registry of monitored nodes agrees with the subscriptions after every operation.
    - [SubPool], [SubAdmission]: the same service with operations interleaved at every await: what stays invariant, that
      every limit that covers the answers of the server is kept, and two leaks that do happen.
    - [SubBehaviour]: what each operation answers and changes.
    - [SubApp] ([application/services/]): the application service and its event stream, on top of [SubRuntime].
      [SubRoutes], [SubRoutesSpec] ([api/v1/subscription_routes.py]): the REST routes, the frames of a stream, and whose
      subscriptions a client reaches.

    The MCP interface ([mcp/], [prompts/], [api/mcp/monolithic.py]).
    - [Urls], [McpPaths]: splitting and normalising of URLs as Python does it; the path of a request, with the parameters of
      the caller filled in. [McpPages]: pages of every kind of answer.
    - [McpContainer], [McpContainerSpec]: calls within the process; the values below a container.
    - [McpJson], [McpJsonSpec]: the schemas of the tools on the model, the checks of their arguments, and the JSON around
      [ModelTools] and [ModelAccess].
    - [McpTools]: the tools from the OpenAPI document. [McpInvoke], [McpInvokeSpec]: a call of a tool, from its arguments to the
      page of its answer.
    - [Prompts], [McpGuides], [McpCompact], [McpCatalogs], [McpCatalogsSpec]: prompts and their templates, what the server lists
      and lets clients read, and answers without what a model does not need.
    - [McpStreams], [McpStreamsSpec]: sessions and event streams as a state machine over shared objects, and the board of
      messages that it implements.
    - [McpServer], [McpServerSpec]: JSON-RPC over HTTP and the helper routes, as programs of [Async] over the models and the
      transport.

    ** Groups of theorems

    Invariants of states and built models ([pending_consecutive_bounded], [registry_exact], [interleaved_invariants],
    [relationships_exact], [parents_exact], [references_closed], [metadata_served]); exact behaviour of operations (the
    [_exact] theorems, [history_complete], [browse_complete], [stream_ordered]); equivalence with a plain definition
    ([search_is_scan], [cache_transparent], [dedupe_meaning], [metrics_exact], [schema_admits], [resources_readable],
    [model_revision_exact]); refinement of an abstract specification ([node_id_translation], [streams_deliver],
    [object_types_revalidated]); round
    trips ([browse_path_roundtrip], [written_back], [mcp_pages_complete], [revalidation_exact]); termination
    ([resolve_terminates], [expansion_resolves], [data_type_schema_made], [browse_tree_exact], [hierarchies_exact]); bounds and types
    ([admission_limits], [historical_value_fits], [arguments_decode]); safety of what is sent and served
    ([no_silent_loss], [updates_safe], [history_updates_safe], [request_target_exact], [mcp_never_writes],
    [context_served], [model_built_once],
    [object_type_schema_closed], [types_listed]); errors ([build_failures], [jsonrpc_answers]).

    ** Conventions

    A Python exception is an [outcome] or [exc] value; [for] loops that can leave early return one. Awaits of third-party
    code are calls whose answers are arbitrary or restricted by a contract that the theorem names. [asyncio.gather] runs
    its parts one after another. Where a loop has no structural measure it takes fuel: [SubResolve] computes it from the
    model and has a value for a traversal that does not return; the worklists of [ModelAccess] and [ModelTools] take the
    number of elements, and their theorems prove that it is enough; the splits of [OpcuaReads] take the length of the
    batch, and its rounds over continuation points take a number that has to cover the pages of the longest answer; the
    schemas of [ObjectSchema] take a number that is computed from the keys that classes and values can be registered under,
    and their theorems prove that it is enough for every set of classes. That
    fuel runs out is a value of its own ([NotFinished], [None]), so no theorem takes it for an answer.

    ** Not modelled

    Logging, measured durations, and cancellation of tasks; rounding of floats (timestamps and intervals are integers or
    rationals) and the limit of 4300 digits on [int()]; text outside ASCII in case conversion and character classes; the
    digests (SHA-1 and SHA-256 are parameters); validation against JSON schemas, FastAPI, pydantic and asyncua; semaphores
    that only bound concurrency; sleeps and timeouts of the event loop. These are other people's code or effects that no
    statement depends on. Of the classes that asyncua generates at run time only what reflection on them shows is given
    ([Universe]), with the answers of [eval] and [import]. Of the program itself: the connection, which is supervised
    around calls of asyncua, and the settings and the wiring of the application, which declare what the modelled parts are
    called with. *)

From Stdlib Require Export ZArith QArith.
From stdpp Require Export base gmap sets list strings sorting.
From stdpp Require Import options.

#[global] Open Scope Z_scope.
#[global] Open Scope list_scope.

(** The scope of the development's own notations. *)
Declare Scope i3x_scope.
Delimit Scope i3x_scope with i3x.
#[global] Open Scope i3x_scope.

(** * Errors *)

(** What [i3x_http_error] puts in the HTTPException: status, the caller's code, message. *)
Record http_error := HttpError {
  he_status : Z;
  he_code : string;
  he_message : string;
}.

(** An operation that returns or raises. *)
Inductive outcome (E A : Type) :=
| Ok (a : A)
| Err (e : E).
Arguments Ok {E A} a.
Arguments Err {E A} e.

#[export] Instance outcome_ret {E} : MRet (outcome E) := fun A a => Ok a.
#[export] Instance outcome_bind {E} : MBind (outcome E) :=
  fun A B f m => match m with Ok a => f a | Err e => Err e end.
#[export] Instance outcome_fmap {E} : FMap (outcome E) :=
  fun A B f m => match m with Ok a => Ok (f a) | Err e => Err e end.

Definition is_ok {E A} (m : outcome E A) : bool :=
  match m with Ok _ => true | Err _ => false end.

(** * Tactics *)

(** Case analysis on the scrutinee of the first match of the goal. *)
Ltac case_goal :=
  match goal with
  | |- context [match ?x with _ => _ end] => destruct x eqn:?
  end.

(** The same in a hypothesis. *)
Ltac case_hyp H :=
  match type of H with
  | context [match ?x with _ => _ end] => destruct x eqn:?
  end.

Ltac bool_hyps :=
  repeat match goal with
  | H : bool_decide _ = true |- _ => apply bool_decide_eq_true_1 in H
  | H : bool_decide _ = false |- _ => apply bool_decide_eq_false_1 in H
  | H : (_ && _)%bool = true |- _ => apply andb_true_iff in H; destruct H
  | H : (_ || _)%bool = false |- _ => apply orb_false_iff in H; destruct H
  | H : negb _ = true |- _ => apply negb_true_iff in H
  | H : negb _ = false |- _ => apply negb_false_iff in H
  end.

Create HintDb i3x.

(** * Lists *)

(** The Standard Library's [map] and [filter], through stdpp's membership. *)
Lemma elem_of_map {A B} (f : A -> B) (l : list A) (y : B) : y ∈ map f l <-> exists x, y = f x /\ x ∈ l.
Proof. apply list_elem_of_fmap. Qed.

Lemma omap_map {A B C} (f : B -> option C) (g : A -> B) (l : list A) : omap f (map g l) = omap (fun x => f (g x)) l.
Proof. induction l as [|x l IH]; [done|]. cbn [map omap list_omap]. change (list_omap _ _ ?h ?k) with (omap (M := list) h k). by rewrite IH. Qed.

Lemma omap_ext_in {A B} (f g : A -> option B) (l : list A) : (forall x, x ∈ l -> f x = g x) -> omap f l = omap g l.
Proof.
  induction l as [|x l IH]; intros H; [done|]. cbn [omap list_omap]. change (list_omap _ _ ?h ?k) with (omap (M := list) h k).
  rewrite (H x) by (by left). rewrite IH by (intros y Hy; apply H; by right). done.
Qed.

Lemma map_omap {A B C} (f : B -> C) (g : A -> option B) (l : list A) : map f (omap g l) = omap (fun x => f <$> g x) l.
Proof.
  induction l as [|x l IH]; [done|]. cbn [omap list_omap]. change (list_omap _ _ ?h ?k) with (omap (M := list) h k). rewrite <-IH. by destruct (g x).
Qed.

Lemma elem_of_filter_list {A} (p : A -> bool) (l : list A) (x : A) : x ∈ List.filter p l <-> x ∈ l /\ p x = true.
Proof. by rewrite !list_elem_of_In, List.filter_In. Qed.

(** * Stable sorting by a boolean preorder (Python's [sorted]) *)

Section Sorting.
Context {A : Type} (leb : A -> A -> bool).

Fixpoint insert_sorted (x : A) (l : list A) : list A :=
  match l with
  | [] => [x]
  | y :: l' => if leb x y then x :: y :: l' else y :: insert_sorted x l'
  end.

(** Equal keys keep their order: an element is put before the equal ones that followed it. *)
Fixpoint py_sorted (l : list A) : list A :=
  match l with
  | [] => []
  | x :: l' => insert_sorted x (py_sorted l')
  end.

Lemma insert_sorted_perm x l : insert_sorted x l ≡ₚ x :: l.
Proof.
  induction l as [|y l IH]; simpl; [done|].
  destruct (leb x y); [done|]. rewrite IH. apply Permutation_swap.
Qed.

Lemma py_sorted_perm l : py_sorted l ≡ₚ l.
Proof.
  induction l as [|x l IH]; simpl; [done|].
  rewrite insert_sorted_perm. by constructor.
Qed.

Lemma elem_of_py_sorted x l : x ∈ py_sorted l <-> x ∈ l.
Proof. by rewrite py_sorted_perm. Qed.

Context (leb_total : forall x y, leb x y = true \/ leb y x = true).
Context (leb_trans : forall x y z, leb x y = true -> leb y z = true -> leb x z = true).

Lemma insert_sorted_sorted x l :
  StronglySorted (fun a b => leb a b = true) l ->
  StronglySorted (fun a b => leb a b = true) (insert_sorted x l).
Proof using leb_total leb_trans.
  induction 1 as [|y l Hs IH Hf]; simpl.
  - repeat constructor.
  - destruct (leb x y) eqn:E.
    + constructor; [by constructor|]. constructor; [done|].
      eapply Forall_impl; [exact Hf|]. intros z Hz; simpl in *; eauto.
    + constructor; [done|]. rewrite Forall_forall. intros z Hz.
      rewrite insert_sorted_perm in Hz. apply elem_of_cons in Hz as [->|Hz].
      * destruct (leb_total x y); congruence.
      * by eapply Forall_forall in Hf.
Qed.

Lemma py_sorted_sorted l : StronglySorted (fun a b => leb a b = true) (py_sorted l).
Proof using leb_total leb_trans.
  induction l as [|x l IH]; simpl; [constructor|]. by apply insert_sorted_sorted.
Qed.

(** Sorting is stable: the elements of one class keep their order. *)
Lemma insert_sorted_stable k x l :
  List.filter (fun y => leb k y && leb y k)%bool (insert_sorted x l) =
  List.filter (fun y => leb k y && leb y k)%bool (x :: l).
Proof using leb_trans.
  induction l as [|y l IH]; [done|]. cbn [insert_sorted]. destruct (leb x y) eqn:E; [done|].
  cbn [List.filter] in *. rewrite IH.
  destruct (leb k x && leb x k)%bool eqn:Ex, (leb k y && leb y k)%bool eqn:Ey; try done.
  apply andb_true_iff in Ex as [_ Ex], Ey as [Ey _]. exfalso.
  assert (leb x y = true) by eauto. congruence.
Qed.

Lemma py_sorted_stable k l :
  List.filter (fun y => leb k y && leb y k)%bool (py_sorted l) =
  List.filter (fun y => leb k y && leb y k)%bool l.
Proof using leb_trans.
  induction l as [|x l IH]; [done|]. cbn [py_sorted]. rewrite insert_sorted_stable. cbn [List.filter]. by rewrite IH.
Qed.

(** The head of the sorted list is minimal. *)
Lemma py_sorted_head x l l' :
  py_sorted l = x :: l' -> x ∈ l /\ forall y, y ∈ l -> leb x y = true.
Proof using leb_total leb_trans.
  intros H. pose proof (py_sorted_sorted l) as Hs. rewrite H in Hs.
  assert (Hin : forall y, y ∈ l <-> y ∈ x :: l') by (intros y; by rewrite <-H, elem_of_py_sorted).
  split; [apply Hin; constructor|]. intros y Hy. apply Hin in Hy.
  inversion_clear Hs as [|? ? Hs' Hf].
  apply elem_of_cons in Hy as [->|Hy].
  - destruct (leb_total x x); done.
  - by eapply Forall_forall in Hf.
Qed.
End Sorting.

(** * Batches *)

Fixpoint chunks {A} (fuel : nat) (size : nat) (values : list A) : list (list A) :=
  match fuel, values with
  | S fuel', _ :: _ => take size values :: chunks fuel' size (drop size values)
  | _, _ => []
  end.

(** [[values[idx : idx + size] for idx in range(0, len(values), size)]], for a positive size. *)
Definition chunked {A} (size : nat) (values : list A) : list (list A) := chunks (length values) size values.

Lemma concat_chunks {A} fuel size (l : list A) : (0 < size)%nat -> (length l <= fuel)%nat -> List.concat (chunks fuel size l) = l.
Proof.
  intros Hs. revert l. induction fuel as [|fuel IH]; intros [|x l] Hl; cbn in *; try done; [lia|].
  rewrite IH; [apply take_drop|]. rewrite length_drop. cbn. lia.
Qed.

Lemma concat_chunked {A} size (l : list A) : (0 < size)%nat -> List.concat (chunked size l) = l.
Proof. intros Hs. by apply concat_chunks. Qed.

Lemma elem_of_chunk {A} size (l : list A) batch x : (0 < size)%nat -> batch ∈ chunked size l -> x ∈ batch -> x ∈ l.
Proof.
  intros Hs Hb Hx. rewrite <-(concat_chunked size l Hs). apply list_elem_of_In, in_concat. exists batch. by split; apply list_elem_of_In.
Qed.

Lemma chunks_lengths {A} fuel size (l : list A) : Forall (fun c => (length c <= length l)%nat) (chunks fuel size l).
Proof.
  revert l. induction fuel as [|fuel IH]; intros [|x l]; cbn [chunks]; try by constructor.
  constructor; [rewrite length_take; lia|]. eapply Forall_impl; [apply IH|]. intros c Hc. rewrite length_drop in Hc. lia.
Qed.

Lemma chunks_sizes {A} fuel size (l : list A) : Forall (fun c => (length c <= size)%nat) (chunks fuel size l).
Proof.
  revert l. induction fuel as [|fuel IH]; intros [|x l]; cbn [chunks]; try by constructor.
  constructor; [rewrite length_take; lia|apply IH].
Qed.
