(* ===== verification/PyDict.v ===== *)
(** Python dictionaries: finite maps that remember insertion order.

    The program iterates over its dictionaries ([values()], [items()], [next(iter(d))]) and so
    depends on the order in which keys were first inserted, which [gmap] does not keep.
    Assignment to a present key keeps its place; a new key goes to the end; deletion forgets
    the place. [dict_equiv] is Python's [==] on dictionaries, which ignores the order. *)

From S2P Require Export Prelude.

Record dict (K V : Type) := Dict { dict_items : list (K * V) }.
Arguments Dict {K V} _.
Arguments dict_items {K V} _.

Section Ops.
Context {K V : Type} `{EqDecision K}.
Implicit Types (d : dict K V) (k : K) (v : V).

Fixpoint items_lookup (k : K) (l : list (K * V)) : option V :=
  match l with
  | [] => None
  | (k', v) :: l' => if bool_decide (k' = k) then Some v else items_lookup k l'
  end.

Fixpoint items_insert (k : K) (v : V) (l : list (K * V)) : list (K * V) :=
  match l with
  | [] => [(k, v)]
  | (k', v') :: l' => if bool_decide (k' = k) then (k, v) :: l' else (k', v') :: items_insert k v l'
  end.

#[export] Instance dict_lookup : Lookup K V (dict K V) := fun k d => items_lookup k (dict_items d).
#[export] Instance dict_insert : Insert K V (dict K V) := fun k v d => Dict (items_insert k v (dict_items d)).

(** [{k: v for k, v in d.items() if p(k)}]. *)
Definition dict_filter_keys (p : K -> bool) (d : dict K V) : dict K V :=
  Dict (List.filter (fun kv => p kv.1) (dict_items d)).

Definition key_neqb (k k' : K) : bool := negb (bool_decide (k' = k)).

#[export] Instance dict_delete : Delete K (dict K V) := fun k d => dict_filter_keys (key_neqb k) d.
#[export] Instance dict_empty : Empty (dict K V) := Dict [].

Definition dict_keys (d : dict K V) : list K := (dict_items d).*1.
Definition dict_values (d : dict K V) : list V := (dict_items d).*2.
Definition dict_len (d : dict K V) : nat := length (dict_items d).
Definition dict_mem (k : K) (d : dict K V) : bool := bool_decide (is_Some (d !! k)).
Definition dict_get_default (x : V) (k : K) (d : dict K V) : V := default x (d !! k).

(** [d.setdefault(k, v)], as the updated dictionary. *)
Definition dict_setdefault (k : K) (v : V) (d : dict K V) : dict K V :=
  match d !! k with Some _ => d | None => <[k := v]> d end.

(** [d.pop(k, None)]. *)
Definition dict_pop (k : K) (d : dict K V) : option V * dict K V := (d !! k, delete k d).

(** A comprehension [{k: v for ...}] or successive assignments, left to right. *)
Definition dict_update_list (l : list (K * V)) (d : dict K V) : dict K V :=
  fold_left (fun acc p => <[p.1 := p.2]> acc) l d.
Definition dict_of_list (l : list (K * V)) : dict K V := dict_update_list l ∅.
Definition dict_update (d' d : dict K V) : dict K V := dict_update_list (dict_items d') d.

(** No key twice: what every dictionary built by these operations satisfies. *)
Definition dict_wf (d : dict K V) : Prop := NoDup (dict_keys d).
End Ops.

(** [d.setdefault(k, []).append(x)]. *)
Definition dict_push {K A} `{EqDecision K} (k : K) (x : A) (d : dict K (list A)) : dict K (list A) :=
  <[k := default [] (d !! k) ++ [x]]> d.

Definition dict_map {K A B} (f : A -> B) (d : dict K A) : dict K B :=
  Dict (map (fun p => (p.1, f p.2)) (dict_items d)).

(** Python's [==]: the same keys with the same values, in any order. *)
Definition dict_equiv {K V} `{EqDecision K} (d1 d2 : dict K V) : Prop := forall k, d1 !! k = d2 !! k.
#[export] Instance dict_equiv_equiv {K V} `{EqDecision K} : Equiv (dict K V) := dict_equiv.

#[export] Instance dict_eq_dec {K V} `{EqDecision K, EqDecision V} : EqDecision (dict K V).
Proof.
  intros [l1] [l2]. destruct (decide (l1 = l2)); [left|right]; congruence.
Defined.

Section Theory.
Context {K V : Type} `{EqDecision K}.
Implicit Types (d : dict K V) (k : K) (v : V) (l : list (K * V)).

#[export] Instance dict_equivalence : Equivalence (≡@{dict K V}).
Proof.
  split.
  - by intros d k.
  - intros d1 d2 H k. symmetry. apply H.
  - intros d1 d2 d3 H1 H2 k. etrans; [apply H1|apply H2].
Qed.

Lemma lookup_empty_dict k : (∅ : dict K V) !! k = None.
Proof. done. Qed.

Lemma items_lookup_insert l k k' v :
  items_lookup k' (items_insert k v l) = if bool_decide (k = k') then Some v else items_lookup k' l.
Proof.
  induction l as [|[k1 v1] l IH]; simpl; [done|].
  destruct (decide (k1 = k)) as [->|Hk].
  - rewrite (bool_decide_true (k = k)) by done; simpl. repeat case_bool_decide; congruence.
  - rewrite (bool_decide_false (k1 = k)) by done; simpl. rewrite IH.
    repeat case_bool_decide; congruence.
Qed.

Lemma dict_lookup_insert d k k' v :
  (<[k := v]> d) !! k' = if bool_decide (k = k') then Some v else d !! k'.
Proof. apply items_lookup_insert. Qed.

Lemma dict_lookup_insert_eq d k v : (<[k := v]> d) !! k = Some v.
Proof. rewrite dict_lookup_insert. by rewrite bool_decide_true. Qed.

Lemma dict_lookup_insert_ne d k k' v : k ≠ k' -> (<[k := v]> d) !! k' = d !! k'.
Proof. intros. rewrite dict_lookup_insert. by rewrite bool_decide_false. Qed.

Lemma items_lookup_filter (p : K -> bool) l k :
  items_lookup k (List.filter (fun q => p q.1) l) = if p k then items_lookup k l else None.
Proof.
  induction l as [|[k1 v1] l IH]; simpl; [by destruct (p k)|].
  destruct (p k1) eqn:E; simpl; rewrite IH; case_bool_decide; subst; by rewrite ?E.
Qed.

Lemma dict_lookup_delete d k k' :
  (delete k d) !! k' = if bool_decide (k = k') then None else d !! k'.
Proof.
  etrans; [apply (items_lookup_filter (key_neqb k))|].
  unfold key_neqb. repeat case_bool_decide; simpl; by subst.
Qed.

Lemma dict_lookup_delete_eq d k : (delete k d) !! k = None.
Proof. rewrite dict_lookup_delete. by rewrite bool_decide_true. Qed.

Lemma dict_lookup_delete_ne d k k' : k ≠ k' -> (delete k d) !! k' = d !! k'.
Proof. intros. rewrite dict_lookup_delete. by rewrite bool_decide_false. Qed.

Lemma dict_lookup_filter_keys (p : K -> bool) d k :
  dict_filter_keys p d !! k = if p k then d !! k else None.
Proof. apply items_lookup_filter. Qed.

Lemma dict_mem_true k d : dict_mem k d = true <-> is_Some (d !! k).
Proof. apply bool_decide_eq_true. Qed.

Lemma dict_mem_false k d : dict_mem k d = false <-> d !! k = None.
Proof. unfold dict_mem. rewrite bool_decide_eq_false. symmetry. apply eq_None_not_Some. Qed.

Lemma elem_of_dict_keys k d : k ∈ dict_keys d <-> is_Some (d !! k).
Proof.
  unfold dict_keys, lookup, dict_lookup. destruct d as [l]; simpl.
  induction l as [|[k1 v1] l IH]; simpl.
  - rewrite elem_of_nil. split; [done|by intros []].
  - rewrite elem_of_cons, IH. case_bool_decide as Hk; subst; split; intros; eauto.
    destruct_or!; subst; done || auto.
Qed.

Lemma dict_lookup_items d k v : d !! k = Some v -> (k, v) ∈ dict_items d.
Proof.
  unfold lookup, dict_lookup. destruct d as [l]; simpl.
  induction l as [|[k1 v1] l IH]; simpl; [done|].
  case_bool_decide; intros; simplify_eq; rewrite elem_of_cons; auto.
Qed.

Lemma dict_items_lookup d k v : dict_wf d -> (k, v) ∈ dict_items d -> d !! k = Some v.
Proof.
  unfold dict_wf, dict_keys, lookup, dict_lookup. destruct d as [l]; simpl.
  induction l as [|[k1 v1] l IH]; simpl; [by rewrite elem_of_nil|].
  intros [Hn Hd]%NoDup_cons [?|Hin]%elem_of_cons; simplify_eq.
  - by rewrite bool_decide_true.
  - rewrite bool_decide_false; [by apply IH|]. intros ->.
    apply Hn. apply list_elem_of_fmap. by exists (k, v).
Qed.

(** Equal dictionaries have the same items, in whatever order. *)
Lemma dict_equiv_items d d' : dict_wf d -> dict_wf d' -> d ≡ d' <-> dict_items d ≡ₚ dict_items d'.
Proof.
  intros Hd Hd'. assert (Hnd : forall e : dict K V, dict_wf e -> NoDup (dict_items e)) by (intros e; apply NoDup_fmap_1). split.
  - intros H. apply NoDup_Permutation; [by apply Hnd..|]. intros [k v].
    split; intros Hk%dict_items_lookup; [|done| |done]; apply dict_lookup_items; [by rewrite <-(H k)|by rewrite (H k)].
  - intros H k. apply option_eq. intros v.
    split; intros Hk%dict_lookup_items; [rewrite H in Hk|rewrite <-H in Hk]; by apply dict_items_lookup.
Qed.

Lemma dict_lookup_values d k v : d !! k = Some v -> v ∈ dict_values d.
Proof.
  intros H%dict_lookup_items. apply list_elem_of_fmap. by exists (k, v).
Qed.

Lemma elem_of_dict_values d v :
  dict_wf d -> v ∈ dict_values d <-> exists k, d !! k = Some v.
Proof.
  intros Hwf. split.
  - intros ([k v'] & -> & Hin)%list_elem_of_fmap. exists k. by apply dict_items_lookup.
  - intros [k H]. by eapply dict_lookup_values.
Qed.

Lemma items_insert_keys l k v :
  (items_insert k v l).*1 = if bool_decide (k ∈ l.*1) then l.*1 else l.*1 ++ [k].
Proof.
  induction l as [|[k1 v1] l IH]; csimpl; [done|].
  destruct (decide (k1 = k)) as [->|Hk].
  - rewrite (bool_decide_true (k = k)) by done; csimpl. by rewrite bool_decide_true by constructor.
  - rewrite (bool_decide_false (k1 = k)) by done; csimpl; rewrite IH.
    repeat case_bool_decide; simpl; try done; set_solver.
Qed.

Lemma dict_keys_insert d k v :
  dict_keys (<[k := v]> d) = if bool_decide (k ∈ dict_keys d) then dict_keys d else dict_keys d ++ [k].
Proof. apply items_insert_keys. Qed.

Lemma dict_wf_empty : dict_wf (∅ : dict K V).
Proof. constructor. Qed.

Lemma dict_wf_insert d k v : dict_wf d -> dict_wf (<[k := v]> d).
Proof.
  unfold dict_wf. rewrite dict_keys_insert. case_bool_decide; [done|].
  intros. apply NoDup_app; split_and!; [done|set_solver|apply NoDup_singleton].
Qed.

Lemma dict_keys_filter (p : K -> bool) d :
  dict_keys (dict_filter_keys p d) = List.filter p (dict_keys d).
Proof.
  destruct d as [l]. unfold dict_keys, dict_filter_keys; simpl.
  induction l as [|[k1 v1] l IH]; csimpl; [done|]. destruct (p k1); csimpl; by rewrite IH.
Qed.

Lemma NoDup_list_filter {A} (p : A -> bool) (l : list A) : NoDup l -> NoDup (List.filter p l).
Proof. rewrite !NoDup_ListNoDup. apply List.NoDup_filter. Qed.

Lemma dict_wf_filter_keys (p : K -> bool) d : dict_wf d -> dict_wf (dict_filter_keys p d).
Proof. unfold dict_wf. rewrite dict_keys_filter. apply NoDup_list_filter. Qed.

Lemma dict_delete_filter k d : delete k d = dict_filter_keys (key_neqb k) d.
Proof. done. Qed.

Lemma dict_wf_delete d k : dict_wf d -> dict_wf (delete k d).
Proof. rewrite dict_delete_filter. apply dict_wf_filter_keys. Qed.

Lemma dict_wf_setdefault d k v : dict_wf d -> dict_wf (dict_setdefault k v d).
Proof. unfold dict_setdefault. intros. case_goal; [done|]. by apply dict_wf_insert. Qed.

Lemma dict_lookup_setdefault d k k' v :
  dict_setdefault k v d !! k' =
  if bool_decide (k = k') then Some (default v (d !! k)) else d !! k'.
Proof.
  unfold dict_setdefault. destruct (d !! k) eqn:E.
  - case_bool_decide; by subst.
  - rewrite dict_lookup_insert. done.
Qed.

Lemma dict_wf_update_list l d : dict_wf d -> dict_wf (dict_update_list l d).
Proof.
  revert d. induction l as [|[k v] l IH]; intros d Hwf; simpl; [done|].
  apply IH. by apply dict_wf_insert.
Qed.

Lemma dict_wf_of_list l : dict_wf (dict_of_list l : dict K V).
Proof. apply dict_wf_update_list, dict_wf_empty. Qed.

(** The last assignment to a key wins. *)
Lemma dict_lookup_update_list l d k :
  dict_update_list l d !! k =
  match items_lookup k (reverse l) with Some v => Some v | None => d !! k end.
Proof.
  revert d. induction l as [|[k1 v1] l IH]; intros d; simpl; [done|].
  rewrite IH, dict_lookup_insert, reverse_cons.
  assert (Happ : forall l1 l2, items_lookup k (l1 ++ l2) =
    match items_lookup k l1 with Some v => Some v | None => items_lookup k l2 end).
  { intros l1 l2. induction l1 as [|[k2 v2] l1 IH1]; simpl; [done|]. case_bool_decide; done. }
  rewrite Happ. simpl. destruct (items_lookup k (reverse l)); [done|]. case_bool_decide; done.
Qed.

Lemma items_lookup_elem l k : is_Some (items_lookup k l) <-> k ∈ l.*1.
Proof. symmetry. apply (elem_of_dict_keys k (Dict l)). Qed.

Lemma dict_lookup_of_list_is_Some l k : is_Some ((dict_of_list l : dict K V) !! k) <-> k ∈ l.*1.
Proof.
  unfold dict_of_list. rewrite dict_lookup_update_list.
  rewrite <-(elem_of_reverse k (l.*1)), <-fmap_reverse, <-items_lookup_elem.
  destruct (items_lookup k (reverse l)) eqn:E; [naive_solver|]. by rewrite lookup_empty_dict.
Qed.

Lemma items_lookup_Some_elem l k v : items_lookup k l = Some v -> (k, v) ∈ l.
Proof. apply (dict_lookup_items (Dict l)). Qed.

Lemma dict_lookup_of_list_Some l k v : (dict_of_list l : dict K V) !! k = Some v -> (k, v) ∈ l.
Proof.
  unfold dict_of_list. rewrite dict_lookup_update_list.
  destruct (items_lookup k (reverse l)) eqn:E; [|by rewrite lookup_empty_dict].
  intros ?; simplify_eq. apply items_lookup_Some_elem in E. by apply elem_of_reverse.
Qed.

Lemma items_lookup_reverse l k : NoDup (l.*1) -> items_lookup k (reverse l) = items_lookup k l.
Proof.
  intros Hnd. destruct (items_lookup k (reverse l)) as [v|] eqn:E.
  - apply items_lookup_Some_elem, (proj1 (elem_of_reverse _ _)) in E. symmetry. by apply (dict_items_lookup (Dict l)).
  - destruct (items_lookup k l) as [v|] eqn:E'; [|done]. exfalso. eapply eq_None_not_Some; [exact E|].
    apply items_lookup_elem. rewrite fmap_reverse, elem_of_reverse. apply items_lookup_elem. by exists v.
Qed.

(** [d.update(d')]. *)
Lemma dict_lookup_update d' d k : dict_wf d' -> dict_update d' d !! k = match d' !! k with Some v => Some v | None => d !! k end.
Proof. intros Hwf. unfold dict_update. by rewrite dict_lookup_update_list, items_lookup_reverse. Qed.

Lemma dict_len_delete_le d k : (dict_len (delete k d) <= dict_len d)%nat.
Proof.
  unfold dict_len. destruct d as [l]; simpl. rewrite List.filter_length_le. lia.
Qed.

Lemma dict_len_insert d k v :
  dict_len (<[k := v]> d) = if bool_decide (k ∈ dict_keys d) then dict_len d else S (dict_len d).
Proof.
  unfold dict_len. rewrite <-(length_fmap fst). change ((dict_items (<[k:=v]> d)).*1) with (dict_keys (<[k:=v]> d)).
  rewrite dict_keys_insert. case_bool_decide; unfold dict_keys; rewrite ?length_app, length_fmap; simpl; lia.
Qed.

Lemma dict_len_insert_le d k v : (dict_len (<[k := v]> d) <= S (dict_len d))%nat.
Proof. rewrite dict_len_insert. case_bool_decide; lia. Qed.

#[export] Instance dict_insert_proper k v : Proper ((≡@{dict K V}) ==> (≡)) (insert k v).
Proof. intros d1 d2 H k'. rewrite !dict_lookup_insert. by rewrite (H k'). Qed.

#[export] Instance dict_delete_proper k : Proper ((≡@{dict K V}) ==> (≡)) (delete k).
Proof. intros d1 d2 H k'. rewrite !dict_lookup_delete. by rewrite (H k'). Qed.

#[export] Instance dict_lookup_proper k : Proper ((≡@{dict K V}) ==> (=)) (lookup k).
Proof. intros d1 d2 H. apply H. Qed.

#[export] Instance dict_mem_proper k : Proper ((≡@{dict K V}) ==> (=)) (dict_mem k).
Proof. intros d1 d2 H. unfold dict_mem. by rewrite (H k). Qed.

Lemma dict_insert_delete d k v : <[k := v]> (delete k d) ≡ <[k := v]> d.
Proof.
  intros k'. rewrite !dict_lookup_insert, dict_lookup_delete. by case_bool_decide.
Qed.
End Theory.

Lemma dict_lookup_tabulate {K A} `{EqDecision K} (f : K -> A) (l : list K) k :
  (dict_of_list (map (fun x => (x, f x)) l) : dict K A) !! k = if bool_decide (k ∈ l) then Some (f k) else None.
Proof.
  destruct (dict_of_list _ !! k) as [v|] eqn:E.
  - apply dict_lookup_of_list_Some, elem_of_map in E as (x & [= -> ->] & Hx). by rewrite bool_decide_true.
  - rewrite bool_decide_false; [done|]. intros Hk. eapply eq_None_not_Some; [exact E|].
    apply dict_lookup_of_list_is_Some, list_elem_of_fmap. exists (k, f k). split; [done|]. apply elem_of_map. by exists k.
Qed.

Lemma dict_lookup_tabulate_some {K A} `{EqDecision K} (f : K -> option A) (l : list K) k :
  (dict_of_list (omap (fun x => (x,.) <$> f x) l) : dict K A) !! k = if bool_decide (k ∈ l) then f k else None.
Proof.
  destruct (dict_of_list _ !! k) as [v|] eqn:E.
  - apply dict_lookup_of_list_Some, list_elem_of_omap in E as (x & Hx & Hf). destruct (f x) eqn:Ef; [|done]. injection Hf as -> ->.
    by rewrite bool_decide_true.
  - case_bool_decide as Hk; [|done]. destruct (f k) as [v|] eqn:Ef; [|done]. exfalso. eapply eq_None_not_Some; [exact E|].
    apply dict_lookup_of_list_is_Some, list_elem_of_fmap. exists (k, v). split; [done|]. apply list_elem_of_omap. exists k. by rewrite Ef.
Qed.

Lemma dict_lookup_push {K A} `{EqDecision K} (k k' : K) (x : A) (d : dict K (list A)) :
  dict_push k x d !! k' = if bool_decide (k = k') then Some (default [] (d !! k) ++ [x]) else d !! k'.
Proof. apply dict_lookup_insert. Qed.

Lemma dict_lookup_map {K A B} `{EqDecision K} (f : A -> B) (d : dict K A) k :
  dict_map f d !! k = f <$> d !! k.
Proof.
  destruct d as [l]. unfold dict_map, lookup, dict_lookup; simpl.
  induction l as [|[k1 v1] l IH]; simpl; [done|]. by case_bool_decide.
Qed.

Lemma dict_keys_map {K A B} (f : A -> B) (d : dict K A) : dict_keys (dict_map f d) = dict_keys d.
Proof.
  destruct d as [l]. unfold dict_map, dict_keys; simpl.
  induction l as [|[k1 v1] l IH]; csimpl; [done|]. by rewrite IH.
Qed.

(** [list(dict.fromkeys(l))]. *)
Definition unique_ids {K} `{EqDecision K} (l : list K) : list K := dict_keys (dict_of_list (map (fun x => (x, tt)) l)).

Lemma elem_of_unique_ids {K} `{EqDecision K} (l : list K) n : n ∈ unique_ids l <-> n ∈ l.
Proof.
  unfold unique_ids. rewrite elem_of_dict_keys, dict_lookup_of_list_is_Some, list_elem_of_fmap. split.
  - intros (p & -> & Hp). apply list_elem_of_fmap in Hp as (x & -> & Hx). done.
  - intros H. exists (n, tt). split; [done|]. apply list_elem_of_fmap. by exists n.
Qed.

Lemma NoDup_unique_ids {K} `{EqDecision K} (l : list K) : NoDup (unique_ids l).
Proof. apply dict_wf_of_list. Qed.

(** What the items whose keys are not in [seen] weigh together. *)
Section Unseen.
Context {K V} `{EqDecision K} (weight : V -> nat).

Definition unseen_weight (seen : list K) (items : list (K * V)) : nat :=
  sum_list_with (fun p => if bool_decide (p.1 ∈ seen) then 0%nat else weight p.2) items.

Lemma unseen_weight_ext a b items : (forall n, n ∈ a <-> n ∈ b) -> unseen_weight a items = unseen_weight b items.
Proof. intros H. unfold unseen_weight. induction items as [|p items IH]; [done|]. cbn. by rewrite IH, (bool_decide_ext _ _ (H p.1)). Qed.

Lemma unseen_weight_seen seen n items : (unseen_weight (n :: seen) items <= unseen_weight seen items)%nat.
Proof.
  induction items as [|p items IH]; [done|]. cbn. unfold unseen_weight in IH. repeat case_bool_decide; try lia. set_solver.
Qed.

Lemma unseen_weight_take seen n v items : (n, v) ∈ items -> n ∉ seen ->
  (unseen_weight (n :: seen) items + weight v <= unseen_weight seen items)%nat.
Proof.
  intros Hi Hn. induction items as [|p items IH]; [by apply elem_of_nil in Hi|]. apply elem_of_cons in Hi as [<-|Hi]; [clear IH|specialize (IH Hi)]; cbn.
  - pose proof (unseen_weight_seen seen n items). unfold unseen_weight in *. rewrite bool_decide_true, bool_decide_false by (done || by left). lia.
  - unfold unseen_weight in *. repeat case_bool_decide; try lia. set_solver.
Qed.

Lemma unseen_weight_all items : unseen_weight [] items = sum_list_with (fun p => weight p.2) items.
Proof. done. Qed.
End Unseen.

#[export] Hint Resolve dict_wf_empty dict_wf_insert dict_wf_delete dict_wf_filter_keys
  dict_wf_update_list dict_wf_of_list dict_wf_setdefault : i3x.
Create Rewrite HintDb dict.
#[export] Hint Rewrite @lookup_empty_dict @dict_lookup_insert @dict_lookup_delete @dict_lookup_filter_keys
  @dict_lookup_push @dict_lookup_map @dict_lookup_setdefault : dict.

(** Looks up through insertions and deletions and splits on the key tests. *)
Ltac dict_simpl :=
  repeat first
    [ progress autorewrite with dict in *
    | progress simplify_eq
    | case_bool_decide ].
