(* ===== verification/PyStr.v ===== *)
(** Python strings, on their list of characters.

    A character is an 8-bit [ascii] read as a code point; the character classes and the case
    mappings are CPython's on the ASCII range, and a character above 127 is no letter, digit or
    blank. [str.lower] and [str.casefold] coincide there, and code-point order is [string_leb]. *)

From Stdlib Require Export Ascii String.
From Stdlib Require OrdersEx.
From S2P Require Export Prelude.

#[global] Open Scope string_scope.
#[global] Open Scope list_scope.
#[global] Open Scope Z_scope.

Abbreviation chars := String.list_ascii_of_string.
Abbreviation of_chars := String.string_of_list_ascii.

(** The empty Python string. *)
Abbreviation ε := EmptyString.

(** ** Character classes *)

Definition code (c : ascii) : Z := Z.of_N (N_of_ascii c).
Definition between (lo hi x : Z) : bool := ((lo <=? x) && (x <=? hi))%bool.

Definition is_space (c : ascii) : bool :=
  let x := code c in (between 9 13 x || between 28 32 x)%bool.
Definition is_digit (c : ascii) : bool := between 48 57 (code c).
Definition is_upper (c : ascii) : bool := between 65 90 (code c).
Definition is_lower (c : ascii) : bool := between 97 122 (code c).
Definition is_alnum (c : ascii) : bool := (is_digit c || is_upper c || is_lower c)%bool.

Definition chr (x : Z) : ascii := ascii_of_N (Z.to_N x).
Definition lower_char (c : ascii) : ascii := if is_upper c then chr (code c + 32) else c.
Definition upper_char (c : ascii) : ascii := if is_lower c then chr (code c - 32) else c.

Definition ceqb (a b : ascii) : bool := bool_decide (a = b).

(** ** Lists of characters *)

Fixpoint drop_while {A} (p : A -> bool) (l : list A) : list A :=
  match l with
  | [] => []
  | x :: l' => if p x then drop_while p l' else l
  end.

Fixpoint take_while {A} (p : A -> bool) (l : list A) : list A :=
  match l with
  | [] => []
  | x :: l' => if p x then x :: take_while p l' else []
  end.

Definition rdrop_while {A} (p : A -> bool) (l : list A) : list A := reverse (drop_while p (reverse l)).

(** [s.partition(c)] for a one-character separator: the part before the first [c], whether
    there is one, and the part after it. *)
Fixpoint partition_at (c : ascii) (l : list ascii) : list ascii * bool * list ascii :=
  match l with
  | [] => ([], false, [])
  | x :: l' =>
      if ceqb x c then ([], true, l')
      else let '(a, found, b) := partition_at c l' in (x :: a, found, b)
  end.

Fixpoint starts_with (p l : list ascii) : bool :=
  match p, l with
  | [], _ => true
  | x :: p', y :: l' => (ceqb x y && starts_with p' l')%bool
  | _ :: _, [] => false
  end.

(** [sub in s]. *)
Fixpoint contains (p l : list ascii) : bool :=
  (starts_with p l || match l with [] => false | _ :: l' => contains p l' end)%bool.

(** The part after the last [c]: [s.rsplit(c, 1)[-1]], the whole string when there is no [c]. *)
Definition after_last (c : ascii) (l : list ascii) : list ascii :=
  reverse (take_while (fun x => negb (ceqb x c)) (reverse l)).

(** [s.split(c)]. *)
Fixpoint split_at (c : ascii) (l : list ascii) : list (list ascii) :=
  match l with
  | [] => [[]]
  | x :: l' =>
      if ceqb x c then [] :: split_at c l'
      else match split_at c l' with
           | w :: ws => (x :: w) :: ws
           | [] => [[x]]
           end
  end.

(** ** Strings *)

Definition startswith (p s : string) : bool := starts_with (chars p) (chars s).
Definition str_in (p s : string) : bool := contains (chars p) (chars s).
Definition lower (s : string) : string := of_chars (map lower_char (chars s)).
Definition casefold (s : string) : string := lower s.
Definition strip (s : string) : string := of_chars (rdrop_while is_space (drop_while is_space (chars s))).
Definition strip_chars (cs : list ascii) (s : string) : string :=
  let p := fun c => existsb (ceqb c) cs in of_chars (rdrop_while p (drop_while p (chars s))).
Definition rstrip_char (c : ascii) (s : string) : string := of_chars (rdrop_while (ceqb c) (chars s)).
Definition str_split (c : ascii) (s : string) : list string := map of_chars (split_at c (chars s)).
Definition str_drop (n : nat) (s : string) : string := of_chars (drop n (chars s)).
Definition truthy (s : string) : bool := negb (bool_decide (s = ε)).
Definition truthy_opt (o : option string) : bool := match o with Some s => truthy s | None => false end.

(** [a or b] on optional strings. *)
Definition or_opt (a b : option string) : option string := if truthy_opt a then a else b.
Definition or_str (a b : string) : string := if truthy a then a else b.

Fixpoint join (sep : string) (l : list string) : string :=
  match l with
  | [] => ε
  | [x] => x
  | x :: l' => x +:+ sep +:+ join sep l'
  end.

(** Code-point order, the order [sorted] uses on strings. *)
Definition string_leb (a b : string) : bool := String.leb a b.

(** ** Numbers *)

Definition digit_val (c : ascii) : option Z :=
  let x := code c in
  if between 48 57 x then Some (x - 48)
  else if between 97 122 x then Some (x - 87)
  else if between 65 90 x then Some (x - 55)
  else None.

Definition digit_char (d : Z) : ascii := if d <? 10 then chr (48 + d) else chr (87 + d).

(** The digits of [int(s, base)]; one underscore may stand between two digits. [need] holds
    where a digit must come next. *)
Fixpoint parse_digits (base acc : Z) (need : bool) (l : list ascii) : option Z :=
  match l with
  | [] => if need then None else Some acc
  | c :: l' =>
      if ceqb c "_"%char then (if need then None else parse_digits base acc true l')
      else match digit_val c with
           | Some d => if d <? base then parse_digits base (acc * base + d) false l' else None
           | None => None
           end
  end.

Definition skip_hex_prefix (base : Z) (l : list ascii) : list ascii :=
  match l with
  | c1 :: c2 :: l' =>
      if ((base =? 16) && ceqb c1 "0"%char && (ceqb c2 "x"%char || ceqb c2 "X"%char))%bool
      then match l' with c3 :: l'' => if ceqb c3 "_"%char then l'' else l' | [] => [] end
      else l
  | _ => l
  end.

(** [int(s, base)] for bases 10 and 16; [None] is the ValueError. *)
Definition py_int (base : Z) (s : string) : option Z :=
  let l := rdrop_while is_space (drop_while is_space (chars s)) in
  match l with
  | c :: l' =>
      if ceqb c "-"%char then Z.opp <$> parse_digits base 0 true (skip_hex_prefix base l')
      else if ceqb c "+"%char then parse_digits base 0 true (skip_hex_prefix base l')
      else parse_digits base 0 true (skip_hex_prefix base l)
  | [] => None
  end.

(** [int(s)] on a nonempty run of decimal digits. *)
Definition digits_value (l : list ascii) : Z :=
  fold_left (fun acc c => acc * 10 + (code c - 48)) l 0.

Fixpoint to_digits_fuel (fuel : nat) (base n : Z) (acc : list ascii) : list ascii :=
  match fuel with
  | O => acc
  | S fuel' =>
      let acc' := digit_char (n mod base) :: acc in
      if n <? base then acc' else to_digits_fuel fuel' base (n / base) acc'
  end.

(** The numeral of [n >= 0]: [n + 1] digits are always enough. *)
Definition to_digits (base n : Z) : list ascii :=
  to_digits_fuel (S (Z.to_nat (Z.log2 n))) base n [].

(** [str(n)] of a natural number. *)
Definition str_of_int (n : Z) : string := of_chars (to_digits 10 n).

(** ** Lemmas *)

Lemma chars_of_chars l : chars (of_chars l) = l.
Proof. apply String.list_ascii_of_string_of_list_ascii. Qed.

Lemma of_chars_chars s : of_chars (chars s) = s.
Proof. apply String.string_of_list_ascii_of_string. Qed.

Lemma chars_app a b : chars (a +:+ b) = chars a ++ chars b.
Proof. induction a as [|c a IH]; [done|]. change (c :: chars (a +:+ b) = c :: chars a ++ chars b). by rewrite IH. Qed.

Lemma of_chars_inj l l' : of_chars l = of_chars l' -> l = l'.
Proof. intros H. by rewrite <-(chars_of_chars l), H, chars_of_chars. Qed.

Lemma drop_while_id {A} (p : A -> bool) l : match l with [] => True | x :: _ => p x = false end -> drop_while p l = l.
Proof. destruct l; simpl; [done|]. by intros ->. Qed.

Lemma rdrop_while_snoc_false {A} (p : A -> bool) l x : p x = false -> rdrop_while p (l ++ [x]) = l ++ [x].
Proof.
  intros Hx. unfold rdrop_while. rewrite reverse_snoc, drop_while_id by done.
  by rewrite reverse_cons, reverse_involutive.
Qed.

Lemma drop_while_app_false {A} (p : A -> bool) l x l' :
  p x = false -> drop_while p (l ++ x :: l') = drop_while p l ++ x :: l'.
Proof. intros Hx. induction l as [|y l IH]; simpl; [by rewrite Hx|]. by destruct (p y). Qed.

(** Stripping on the right stops at a kept element. *)
Lemma rdrop_while_app_false {A} (p : A -> bool) l x l' :
  p x = false -> rdrop_while p (l ++ x :: l') = l ++ x :: rdrop_while p l'.
Proof.
  intros Hx. unfold rdrop_while. rewrite reverse_app, reverse_cons, <-app_assoc. simpl.
  rewrite drop_while_app_false by done. rewrite reverse_app, reverse_cons, reverse_involutive, <-app_assoc. done.
Qed.

Lemma rdrop_while_last {A} (p : A -> bool) l l' x : rdrop_while p l = l' ++ [x] -> p x = false.
Proof.
  unfold rdrop_while. intros H. apply (f_equal reverse) in H. rewrite reverse_involutive, reverse_snoc in H.
  induction (reverse l) as [|y r IH]; simpl in *; [done|]. destruct (p y) eqn:E; [auto|]. by injection H as -> _.
Qed.

Lemma take_while_all {A} (p : A -> bool) l : forallb p l = true -> take_while p l = l.
Proof. induction l as [|x l IH]; simpl; [done|]. intros [-> H]%andb_true_iff. by rewrite IH. Qed.

Lemma take_while_app_stop {A} (p : A -> bool) l x l' :
  forallb p l = true -> p x = false -> take_while p (l ++ x :: l') = l.
Proof. induction l as [|y l IH]; simpl; [by intros _ ->|]. intros [-> H]%andb_true_iff Hx. by rewrite IH. Qed.

Lemma take_while_forallb {A} (p : A -> bool) l : forallb p (take_while p l) = true.
Proof. induction l as [|x l IH]; simpl; [done|]. destruct (p x) eqn:E; simpl; [by rewrite E|done]. Qed.

Lemma partition_at_app c a b :
  c ∉ a -> partition_at c (a ++ c :: b) = (a, true, b).
Proof.
  induction a as [|x a IH]; intros Hc.
  - simpl. unfold ceqb. by rewrite bool_decide_true.
  - simpl. unfold ceqb. rewrite bool_decide_false by (intros ->; apply Hc; constructor).
    rewrite IH; [done|]. intros ?; apply Hc; by constructor.
Qed.

Lemma partition_at_found c l a b : partition_at c l = (a, true, b) -> l = a ++ c :: b /\ c ∉ a.
Proof.
  revert a. induction l as [|x l IH]; intros a; simpl; [done|]. unfold ceqb. case_bool_decide.
  - intros [= <- <-]. subst. split; [done|apply not_elem_of_nil].
  - destruct (partition_at c l) as [[a' f] b'] eqn:E. intros [= <- -> <-].
    destruct (IH a' eq_refl) as [-> Hn]. split; [done|]. rewrite elem_of_cons. naive_solver.
Qed.

(** ** Code-point order *)

Lemma string_compare_ot a b : String.compare a b = OrdersEx.String_as_OT.compare a b.
Proof. revert b. induction a as [|x a IH]; intros [|y b]; simpl; try done; by rewrite IH. Qed.

Lemma string_leb_spec a b : string_leb a b = true <-> a = b \/ OrdersEx.String_as_OT.lt a b.
Proof.
  unfold string_leb, String.leb. rewrite string_compare_ot. pose proof (OrdersEx.String_as_OT.compare_spec a b) as Hs.
  pose proof OrdersEx.String_as_OT.lt_strorder as [Hirr _].
  destruct (OrdersEx.String_as_OT.compare a b); inversion_clear Hs as [E|E|E]; [naive_solver..|].
  split; [done|]. intros [->|Hl]; exfalso; [by apply (Hirr b)|].
  apply (Hirr a). pose proof OrdersEx.String_as_OT.lt_strorder as [_ Htr]. by eapply Htr.
Qed.

Lemma string_leb_trans a b c : string_leb a b = true -> string_leb b c = true -> string_leb a c = true.
Proof.
  rewrite !string_leb_spec. pose proof OrdersEx.String_as_OT.lt_strorder as [_ Htr].
  intros [->|H1] [->|H2]; auto. right. by eapply Htr.
Qed.

Lemma string_leb_antisym a b : string_leb a b = true -> string_leb b a = true -> a = b.
Proof.
  pose proof OrdersEx.String_as_OT.lt_strorder as [Hirr Htr].
  intros [->|H1]%string_leb_spec [E|H2]%string_leb_spec; auto. exfalso. apply (Hirr a). by eapply Htr.
Qed.

Lemma string_leb_total a b : string_leb a b = true \/ string_leb b a = true.
Proof.
  pose proof (proj2 (string_leb_spec a b)) as Hab. pose proof (proj2 (string_leb_spec b a)) as Hba.
  pose proof (OrdersEx.String_as_OT.compare_spec a b) as Hs. inversion_clear Hs; auto.
Qed.

(** ** Numerals *)

Definition dval (c : ascii) : Z := default 0 (digit_val c).
Definition digits_step (base acc : Z) (c : ascii) : Z := acc * base + dval c.

Lemma digit_char_spec base d :
  2 <= base <= 16 -> 0 <= d < base ->
  digit_val (digit_char d) = Some d /\ is_space (digit_char d) = false /\ (base = 10 -> is_digit (digit_char d) = true).
Proof.
  intros Hb Hd.
  assert (forall z, z ∈ seqZ 0 16 ->
    (bool_decide (digit_val (digit_char z) = Some z) && negb (is_space (digit_char z)) &&
     (negb (z <? 10) || is_digit (digit_char z)))%bool = true) as Hall.
  { intros z Hz. assert (forallb (fun z => (bool_decide (digit_val (digit_char z) = Some z) && negb (is_space (digit_char z)) &&
     (negb (z <? 10) || is_digit (digit_char z)))%bool) (seqZ 0 16) = true) as Hf by (vm_compute; reflexivity).
    rewrite List.forallb_forall in Hf. apply Hf. by apply list_elem_of_In. }
  specialize (Hall d). rewrite elem_of_seqZ in Hall. specialize (Hall ltac:(lia)).
  apply andb_true_iff in Hall as [[Ha Hs]%andb_true_iff Hdig]. bool_hyps. split_and!; [done|done|].
  intros ->. rewrite (proj2 (Z.ltb_lt d 10)) in Hdig by lia. done.
Qed.

Definition base_digit (base : Z) (c : ascii) : Prop := exists d, 0 <= d < base /\ c = digit_char d.

Lemma to_digits_fuel_value base fuel n acc :
  2 <= base <= 16 -> 0 <= n < 2 ^ Z.of_nat fuel ->
  fold_left (digits_step base) (to_digits_fuel fuel base n acc) 0 = fold_left (digits_step base) acc n.
Proof.
  intros Hb. revert n acc. induction fuel as [|fuel IH]; intros n acc Hn.
  { change (0 <= n < 1) in Hn. assert (n = 0) as -> by lia. done. }
  assert (0 <= n mod base < base) as Hmod by (apply Z.mod_pos_bound; lia).
  assert (dval (digit_char (n mod base)) = n mod base) as Hv.
  { unfold dval. by rewrite (proj1 (digit_char_spec base _ Hb Hmod)). }
  cbn [to_digits_fuel]. destruct (Z.ltb_spec n base).
  - cbn [fold_left]. unfold digits_step at 2. rewrite Hv, Z.mod_small by lia. f_equal; lia.
  - rewrite IH.
    + cbn [fold_left]. unfold digits_step at 2. rewrite Hv. f_equal; pose proof (Z.div_mod n base); lia.
    + split; [apply Z.div_pos; lia|]. apply Z.div_lt_upper_bound; [lia|].
      rewrite Nat2Z.inj_succ, Z.pow_succ_r in Hn by lia. nia.
Qed.

Lemma to_digits_fuel_chars base fuel n acc :
  2 <= base <= 16 -> 0 <= n -> Forall (base_digit base) acc -> Forall (base_digit base) (to_digits_fuel fuel base n acc).
Proof.
  intros Hb. revert n acc. induction fuel as [|fuel IH]; intros n acc Hn Hacc; [done|]. cbn [to_digits_fuel].
  assert (base_digit base (digit_char (n mod base))).
  { exists (n mod base). split; [apply Z.mod_pos_bound; lia|done]. }
  destruct (n <? base); [by constructor|]. apply IH; [apply Z.div_pos; lia|by constructor].
Qed.

Lemma to_digits_fuel_length base fuel n acc (k : nat) :
  2 <= base -> 0 <= n < base ^ Z.of_nat (S k) ->
  (length (to_digits_fuel fuel base n acc) <= S k + length acc)%nat.
Proof.
  intros Hb. revert n acc k. induction fuel as [|fuel IH]; intros n acc k Hn; simpl; [lia|].
  destruct (Z.ltb_spec n base); simpl; [lia|]. destruct k as [|k].
  - rewrite Z.pow_1_r in Hn. lia.
  - etrans; [apply (IH _ _ k)|simpl; lia]. split; [apply Z.div_pos; lia|]. apply Z.div_lt_upper_bound; [lia|].
    rewrite (Nat2Z.inj_succ (S k)), Z.pow_succ_r in Hn by lia. lia.
Qed.

Lemma to_digits_fuel_nonempty base fuel n acc : to_digits_fuel (S fuel) base n acc ≠ [].
Proof.
  revert n acc. induction fuel as [|fuel IH]; intros n acc; simpl; [by case_match|].
  destruct (n <? base); [done|]. apply IH.
Qed.

Lemma to_digits_value base n :
  2 <= base <= 16 -> 0 <= n -> fold_left (digits_step base) (to_digits base n) 0 = n.
Proof.
  intros Hb Hn. unfold to_digits. rewrite to_digits_fuel_value; [done|done|].
  split; [done|]. destruct (decide (n = 0)) as [->|]; [done|].
  rewrite Nat2Z.inj_succ, Z2Nat.id by apply Z.log2_nonneg. apply Z.log2_spec. lia.
Qed.

Lemma to_digits_chars base n : 2 <= base <= 16 -> 0 <= n -> Forall (base_digit base) (to_digits base n).
Proof. intros. by apply to_digits_fuel_chars. Qed.

Lemma base_digits_value10 l : Forall (base_digit 10) l -> digits_value l = fold_left (digits_step 10) l 0.
Proof.
  unfold digits_value. generalize 0 as a. induction l as [|c l IH]; intros a Hl; simpl; [done|].
  apply Forall_cons in Hl as [[d [Hd ->]] Hl]. rewrite IH by done. f_equal. unfold digits_step, dval.
  destruct (digit_char_spec 10 d ltac:(lia) Hd) as (Hv & _ & Hdig). rewrite Hv. simpl.
  specialize (Hdig eq_refl). unfold digit_val, is_digit in *. rewrite Hdig in Hv. injection Hv as Hv. lia.
Qed.

Lemma base_digits_is_digit l : Forall (base_digit 10) l -> forallb is_digit l = true.
Proof.
  induction 1 as [|c l [d [Hd ->]] Hl IH]; simpl; [done|]. rewrite IH, andb_true_r.
  by apply (digit_char_spec 10 d ltac:(lia) Hd).
Qed.

(** The decimal numeral of a natural number reads back as that number. *)
Lemma digits_value_to_digits n :
  0 <= n -> digits_value (to_digits 10 n) = n /\ forallb is_digit (to_digits 10 n) = true /\ to_digits 10 n ≠ [].
Proof.
  intros Hn. pose proof (to_digits_chars 10 n ltac:(lia) Hn) as Hc. split_and!.
  - rewrite base_digits_value10 by done. by apply to_digits_value.
  - by apply base_digits_is_digit.
  - apply to_digits_fuel_nonempty.
Qed.

Lemma digits_value_nonneg l : forallb is_digit l = true -> 0 <= digits_value l.
Proof.
  unfold digits_value. intros Hl. assert (forall a, 0 <= a -> 0 <= fold_left (fun acc c => acc * 10 + (code c - 48)) l a) as Hg;
    [|by apply Hg]. induction l as [|c l IH]; intros a Ha; simpl in *; [done|].
  apply andb_true_iff in Hl as [Hc Hl]. apply IH; [done|]. unfold is_digit, between in Hc.
  apply andb_true_iff in Hc as [Hlo%Z.leb_le _]. lia.
Qed.

Lemma parse_digits_spec base l acc :
  2 <= base <= 16 -> Forall (base_digit base) l -> l ≠ [] ->
  parse_digits base acc true l = Some (fold_left (digits_step base) l acc).
Proof.
  intros Hb Hl Hne.
  assert (forall need acc, (need = true -> l ≠ []) ->
            parse_digits base acc need l = Some (fold_left (digits_step base) l acc)) as Hg; [|by apply Hg].
  clear acc Hne. induction Hl as [|c l [d [Hd ->]] Hl IH]; intros need acc Hneed; simpl; [destruct need; [by destruct Hneed|done]|].
  destruct (digit_char_spec base d Hb Hd) as (Hv & _ & _).
  assert (ceqb (digit_char d) "_"%char = false) as ->.
  { unfold ceqb. apply bool_decide_eq_false_2. intros E. rewrite E in Hv. vm_compute in Hv. discriminate. }
  rewrite Hv, (proj2 (Z.ltb_lt _ _)) by lia. rewrite IH by done.
  replace (digits_step base acc (digit_char d)) with (acc * base + d) by (unfold digits_step, dval; by rewrite Hv). done.
Qed.

(** ** Prefixes *)

Lemma starts_with_spec p l : starts_with p l = true <-> exists r, l = p ++ r.
Proof.
  revert l. induction p as [|x p IH]; intros l; cbn.
  - split; [intros _; by exists l|done].
  - destruct l as [|y l]; [split; [done|by intros [r E]]|]. rewrite andb_true_iff, IH. unfold ceqb. rewrite bool_decide_eq_true. split.
    + intros [-> [r ->]]. by exists r.
    + intros [r E]. injection E as -> ->. split; [done|by exists r].
Qed.

Lemma startswith_spec p s : startswith p s = true <-> exists r, s = p +:+ r.
Proof.
  unfold startswith. rewrite starts_with_spec. split.
  - intros [r E]. exists (of_chars r). by rewrite <-(of_chars_chars (p +:+ of_chars r)), chars_app, chars_of_chars, <-E, of_chars_chars.
  - intros [r ->]. exists (chars r). apply chars_app.
Qed.

Lemma chars_length s : length (chars s) = String.length s.
Proof. induction s as [|c s IH]; cbn; [done|]. by f_equal. Qed.

Lemma str_drop_app p s : str_drop (String.length p) (p +:+ s) = s.
Proof. unfold str_drop. by rewrite chars_app, <-chars_length, drop_app_length, of_chars_chars. Qed.

(** Nothing to drop. *)
Lemma drop_while_none {A} (p : A -> bool) l : Forall (fun c => p c = false) l -> drop_while p l = l.
Proof. intros Hl. apply drop_while_id. destruct Hl; done. Qed.

Lemma rdrop_while_none {A} (p : A -> bool) l : Forall (fun c => p c = false) l -> rdrop_while p l = l.
Proof. intros Hl. unfold rdrop_while. rewrite drop_while_none by by rewrite Forall_reverse. apply reverse_involutive. Qed.

Lemma strip_none s : Forall (fun c => is_space c = false) (chars s) -> strip s = s.
Proof. intros H. unfold strip. by rewrite drop_while_none, rdrop_while_none, of_chars_chars. Qed.
