(* ===== verification/ModelTypes.v ===== *)
(** The data-transfer objects of [domain/ports/opcua.py] and the model of [schemas/i3x.py] and
    [schemas/state.py]: what the builder reads, what it builds and what every query works on. *)

From S2P Require Export PyDict PyStr.

(** ** What the OPC UA client returns *)

Record OpcUaReferenceInfo := {
  ri_target_node_id : string;
  ri_reference_type_id : string;
  ri_reference_browse_name : string;
}.

Record OpcUaTypeDefinitionInfo := {
  ti_node_id : string;
  ti_browse_name : string;
  ti_namespace_uri : option string;
}.

Record OpcUaNodeInfo := {
  ni_node_id : string;
  ni_parent_node_id : option string;
  ni_browse_name : string;
  ni_display_name : string;
  ni_node_class : string;
  ni_data_type : option string;
  ni_type_definition_id : option string;
  ni_event_notifier : bool;
  ni_outgoing_references : list OpcUaReferenceInfo;
  ni_description : option string;
  ni_access_level : option Z;
  ni_user_access_level : option Z;
  ni_executable : option bool;
  ni_user_executable : option bool;
}.

Record OpcUaNamespaceInfo := {
  nsi_uri : string;
  nsi_display_name : string;
  nsi_namespace_version : option string;
  nsi_server_uri : option string;
}.

Record OpcUaSubscriptionCapabilities := {
  max_monitored_items_per_call : option Z;
  max_subscriptions : option Z;
  max_monitored_items : option Z;
  max_subscriptions_per_session : option Z;
  max_monitored_items_per_subscription : option Z;
}.

(** ** The i3X model *)

Inductive NodeKind := asset | property | action | eventSource.
Inductive SemanticRole :=
  | role_asset | role_group | role_component | role_datapoint | role_property | role_unknown.
Inductive MappingConfidence := conf_high | conf_medium | conf_low.

#[export] Instance NodeKind_eq_dec : EqDecision NodeKind.
Proof. solve_decision. Defined.
#[export] Instance SemanticRole_eq_dec : EqDecision SemanticRole.
Proof. solve_decision. Defined.
#[export] Instance MappingConfidence_eq_dec : EqDecision MappingConfidence.
Proof. solve_decision. Defined.

(** The literal of a kind, as it appears in ids and responses. *)
Definition kind_str (k : NodeKind) : string :=
  match k with
  | asset => "asset" | property => "property" | action => "action" | eventSource => "eventSource"
  end.

(** The values the builder puts in a node's metadata. *)
Inductive meta_value :=
  | MNone
  | MStr (s : string)
  | MInt (z : Z)
  | MBool (b : bool)
  | MStrs (l : list string).

#[export] Instance meta_value_eq_dec : EqDecision meta_value.
Proof. solve_decision. Defined.

Definition meta_of_opt (o : option string) : meta_value :=
  match o with Some s => MStr s | None => MNone end.

(** [isinstance(v, str)]. *)
Definition meta_str (v : option meta_value) : option string :=
  match v with Some (MStr s) => Some s | _ => None end.

Record ModelNode := {
  n_id : string;
  n_name : string;
  n_kind : NodeKind;
  n_type : option string;
  n_children : list string;
  n_source_node_id : string;
  n_source_type_id : option string;
  n_parent_id : option string;
  n_is_composition : bool;
  n_semantic_role : SemanticRole;
  n_mapping_confidence : MappingConfidence;
  n_relationships : dict string (list string);
  n_metadata : dict string meta_value;
}.

Record BuildResult := {
  nodes_by_id : dict string ModelNode;
  root_ids : list string;
  children_by_id : dict string (list string);
  instances_by_type_id : dict string (list string);
  property_to_node : dict string string;
  action_to_method : dict string (string * string);
  parent_by_id : dict string string;
  node_id_by_name : dict string string;
  node_id_by_type : dict string string;
  hierarchy_children_by_id : dict string (list string);
  composition_children_by_id : dict string (list string);
  graph_related_by_id : dict string (list (string * string));
  relationships_by_id : dict string (dict string (list string));
  hierarchy_parent_by_id : dict string string;
  composition_parent_by_id : dict string string;
  graph_relationship_names : gset string;
  graph_relationship_namespace_by_id : dict string string;
  graph_relationship_display_name_by_id : dict string string;
  semantic_role_by_id : dict string SemanticRole;
  mapping_confidence_by_id : dict string MappingConfidence;
  parent_id_by_id : dict string (option string);
  applied_profile_ids_by_id : dict string (list string);
  namespace_uri_by_id : dict string (option string);
  element_id_by_node_id : dict string string;
  element_id_by_expanded_node_id : dict string string;
  namespace_uri_by_index : dict Z string;
}.

(** ** Small models, for examples *)

Definition simple_node (id name : string) (kind : NodeKind) (source : string) : ModelNode :=
  {| n_id := id; n_name := name; n_kind := kind; n_type := None; n_children := [];
     n_source_node_id := source; n_source_type_id := None; n_parent_id := None;
     n_is_composition := false; n_semantic_role := role_unknown; n_mapping_confidence := conf_low;
     n_relationships := ∅; n_metadata := ∅ |}.

(** The model with these nodes and children lists on two planes, and nothing else. *)
Definition two_plane_model (nodes : list ModelNode) (roots : list string)
    (children composition : list (string * list string)) : BuildResult :=
  {| nodes_by_id := dict_of_list (map (fun n => (n_id n, n)) nodes);
     root_ids := roots; children_by_id := dict_of_list children; instances_by_type_id := ∅;
     property_to_node := ∅; action_to_method := ∅; parent_by_id := ∅; node_id_by_name := ∅;
     node_id_by_type := ∅; hierarchy_children_by_id := dict_of_list children;
     composition_children_by_id := dict_of_list composition; graph_related_by_id := ∅; relationships_by_id := ∅;
     hierarchy_parent_by_id := ∅; composition_parent_by_id := ∅; graph_relationship_names := ∅;
     graph_relationship_namespace_by_id := ∅; graph_relationship_display_name_by_id := ∅;
     semantic_role_by_id := ∅; mapping_confidence_by_id := ∅; parent_id_by_id := ∅;
     applied_profile_ids_by_id := ∅; namespace_uri_by_id := ∅; element_id_by_node_id := ∅;
     element_id_by_expanded_node_id := ∅; namespace_uri_by_index := ∅ |}.

Definition small_model (nodes : list ModelNode) (roots : list string) (children : list (string * list string)) : BuildResult :=
  two_plane_model nodes roots children [].

(** The nodes of a model are found by their own id, each once. *)
Definition model_nodes_ok (model : BuildResult) : Prop :=
  dict_wf (nodes_by_id model) /\ forall id n, nodes_by_id model !! id = Some n -> n_id n = id.

(** Decides [model_nodes_ok] on a concrete model. *)
Lemma model_nodes_ok_check model :
  (bool_decide (NoDup (dict_keys (nodes_by_id model))) &&
   forallb (fun p => bool_decide (n_id p.2 = p.1)) (dict_items (nodes_by_id model)))%bool = true -> model_nodes_ok model.
Proof.
  intros [Hn Hf]%andb_true_iff. split; [by apply bool_decide_eq_true in Hn|]. intros id n Hid%dict_lookup_items.
  rewrite List.forallb_forall in Hf. apply list_elem_of_In, Hf in Hid. by apply bool_decide_eq_true in Hid.
Qed.
