(* ===== verification/NodeIds.v ===== *)
(** OPC UA node ids and namespaces ([domain/utils.py]): indexed ([ns=2;i=5]) and expanded
    ([nsu=uri;i=5]) forms, and the canonical form used as a lookup key.

    Regular expressions are written out as the functions they match. Numerals have fewer than
    the 4300 digits above which CPython refuses to convert. *)

From S2P Require Export ModelTypes.

Module NodeIds.

Definition semicolon : ascii := ";"%char.
Definition slash : ascii := "/"%char.

(** [^...(.{min,})$]: the text up to a line end that may only stand at the very end. *)
Definition match_line (min : nat) (l : list ascii) : option (list ascii) :=
  let newline := chr 10 in
  let body := take_while (fun c => negb (ceqb c newline)) l in
  let rest := drop (length body) l in
  if (bool_decide (rest = [] \/ rest = [newline]) && Nat.leb min (length body))%bool then Some body else None.

(** [([isgb])=(.{min,})$]. *)
Definition match_identifier (min : nat) (l : list ascii) : option (ascii * list ascii) :=
  match l with
  | k :: e :: l' =>
      if (bool_decide (k ∈ ["i"; "s"; "g"; "b"]%char) && ceqb e "="%char)%bool
      then body ← match_line min l'; Some (k, body)
      else None
  | _ => None
  end.

(** [ns=(\d+)] at the start: the digits and what follows them. *)
Definition match_ns (l : list ascii) : option (list ascii * list ascii) :=
  if starts_with (chars "ns=") l then
    let l' := drop 3 l in
    let digits := take_while is_digit l' in
    match digits with [] => None | _ => Some (digits, drop (length digits) l') end
  else None.

(** [(?:ns=(\d+);)?]: the index, if the prefix is there, and the rest. *)
Definition match_index_prefix (l : list ascii) : option (list ascii) * list ascii :=
  match match_ns l with
  | Some (digits, c :: rest) => if ceqb c semicolon then (Some digits, rest) else (None, l)
  | _ => (None, l)
  end.

(** [re.search(r"ns=(\d+)", s)]: the leftmost match. *)
Fixpoint search_ns (l : list ascii) : option (list ascii) :=
  match match_ns l with
  | Some (digits, _) => Some digits
  | None => match l with [] => None | _ :: l' => search_ns l' end
  end.

Definition index_of (digits : option (list ascii)) : Z :=
  match digits with Some d => digits_value d | None => 0 end.

(** ** Namespaces *)

Definition normalize_namespace_uri (uri : string) : string := lower (rstrip_char slash (strip uri)).

Fixpoint canonical_namespace_uri (uri : string) (infos : list OpcUaNamespaceInfo) : string :=
  match infos with
  | [] => uri
  | item :: infos' =>
      if bool_decide (normalize_namespace_uri (nsi_uri item) = normalize_namespace_uri uri)
      then nsi_uri item else canonical_namespace_uri uri infos'
  end.

Definition namespace_uri_for_node_id (node_id : string) (infos : list OpcUaNamespaceInfo) : string :=
  let index := index_of (search_ns (chars node_id)) in
  match infos !! Z.to_nat index with Some info => nsi_uri info | None => ε end.

Definition namespace_infos_by_uri (infos : list OpcUaNamespaceInfo) : dict string OpcUaNamespaceInfo :=
  dict_of_list (map (fun item => (nsi_uri item, item)) infos).

Definition UA_NAMESPACE : string := "http://opcfoundation.org/UA/".

(** ** Expanded form *)

Definition expanded_node_id (node_id : string) (infos : list OpcUaNamespaceInfo) : string :=
  if startswith "nsu=" node_id then node_id
  else
    let '(digits, rest) := match_index_prefix (chars node_id) in
    match match_identifier 1 rest with
    | None => node_id
    | Some (kind, body) =>
        let identifier := of_chars (kind :: "="%char :: body) in
        let index := index_of digits in
        if index =? 0 then "nsu=http://opcfoundation.org/UA/;" +:+ identifier
        else match infos !! Z.to_nat index with
             | None => node_id
             | Some info =>
                 if truthy (nsi_uri info) then "nsu=" +:+ nsi_uri info +:+ ";" +:+ identifier else node_id
             end
    end.

(** ** Canonical form *)

(** [s.replace(p, "")] for a nonempty [p]. *)
Fixpoint remove_sub (p : list ascii) (skip : nat) (l : list ascii) : list ascii :=
  match l with
  | [] => []
  | c :: l' =>
      match skip with
      | S k => remove_sub p k l'
      | O => if starts_with p l then remove_sub p (length p - 1) l' else c :: remove_sub p 0 l'
      end
  end.

Definition pad_zeros (n : nat) (l : list ascii) : list ascii := replicate (n - length l) "0"%char ++ l.

Definition dash : ascii := "-"%char.

(** [str(UUID(int=n))]. *)
Definition uuid_str (n : Z) : list ascii :=
  let h := pad_zeros 32 (to_digits 16 n) in
  take 8 h ++ [dash] ++ take 4 (drop 8 h) ++ [dash] ++ take 4 (drop 12 h) ++ [dash] ++
  take 4 (drop 16 h) ++ [dash] ++ drop 20 h.

(** [UUID(s).int], [None] for the ValueError. *)
Definition parse_uuid (s : list ascii) : option Z :=
  let s := remove_sub (chars "uuid:") 0 (remove_sub (chars "urn:") 0 s) in
  let braces := fun c => (ceqb c "{"%char || ceqb c "}"%char)%bool in
  let hex := List.filter (fun c => negb (ceqb c dash)) (rdrop_while braces (drop_while braces s)) in
  if bool_decide (length hex = 32%nat) then
    n ← py_int 16 (of_chars hex);
    if ((0 <=? n) && (n <? 2 ^ 128))%bool then Some n else None
  else None.

Definition normalize_node_identifier (kind : ascii) (identifier : list ascii) : option (list ascii) :=
  if ceqb kind "i"%char then
    if (forallb is_digit identifier && negb (bool_decide (identifier = [])))%bool
    then let n := digits_value identifier in if n <=? 4294967295 then Some (to_digits 10 n) else None
    else None
  else if ceqb kind "g"%char then
    let braces := fun c => (ceqb c "{"%char || ceqb c "}"%char)%bool in
    uuid_str <$> parse_uuid (rdrop_while braces (drop_while braces identifier))
  else Some identifier.

Definition canonical_node_id (node_id : string) (namespace_uri_by_index : dict Z string) : option string :=
  let normalized := chars (strip node_id) in
  if starts_with (chars "nsu=") normalized then
    let '(uri, separator, identifier_text) := partition_at semicolon (drop 4 normalized) in
    match match_identifier 0 identifier_text with
    | Some (kind, identifier) =>
        if (separator && negb (bool_decide (uri = [])))%bool then
          id ← normalize_node_identifier kind identifier;
          Some (of_chars (chars "nsu=" ++ uri ++ [semicolon] ++ kind :: "="%char :: id))
        else None
    | None => None
    end
  else
    let '(digits, rest) := match_index_prefix normalized in
    match match_identifier 0 rest with
    | None => None
    | Some (kind, identifier) =>
        let index := index_of digits in
        id ← normalize_node_identifier kind identifier;
        let uri := if index =? 0 then UA_NAMESPACE else default ε (namespace_uri_by_index !! index) in
        Some (if truthy uri
              then of_chars (chars "nsu=" ++ chars uri ++ [semicolon] ++ kind :: "="%char :: id)
              else of_chars (chars "ns=" ++ to_digits 10 index ++ [semicolon] ++ kind :: "="%char :: id))
    end.

Definition namespace_uri_from_expanded_node_id (node_id : string) : option string :=
  if startswith "nsu=" node_id then
    let '(uri, separator, _) := partition_at semicolon (drop 4 (chars node_id)) in
    if (separator && negb (bool_decide (uri = [])))%bool then Some (of_chars uri) else None
  else None.

(** [re.IGNORECASE] matching of the three spellings of [i=0]. *)
Definition is_null_opcua_type_node_id (node_id : string) : bool :=
  let normalized := chars (lower (strip node_id)) in
  let zero := chars "i=0" in
  (if starts_with (chars "nsu=") normalized then
     let '(uri, separator, rest) := partition_at semicolon (drop 4 normalized) in
     (separator && negb (bool_decide (uri = [])) && bool_decide (rest = zero))%bool
   else
     match match_index_prefix normalized with
     | (Some _, rest) => bool_decide (rest = zero)
     | (None, _) => bool_decide (normalized = zero)
     end).

(** ** Display names *)

(** [s.split("//", 1)[-1]]. *)
Fixpoint after_first_slashes (l : list ascii) : option (list ascii) :=
  if starts_with (chars "//") l then Some (drop 2 l)
  else match l with [] => None | _ :: l' => after_first_slashes l' end.

(** [str.title]: a letter after a letter is lowered, any other one is capitalised. *)
Fixpoint title_from (after_letter : bool) (l : list ascii) : list ascii :=
  match l with
  | [] => []
  | c :: l' =>
      let letter := (is_upper c || is_lower c)%bool in
      (if after_letter then lower_char c else upper_char c) :: title_from letter l'
  end.

Definition title (l : list ascii) : list ascii := title_from false l.

Definition display_name_for_uri (uri : string) : string :=
  let path := default (chars uri) (after_first_slashes (chars uri)) in
  let tail := after_last slash path in
  let token := map (fun c => if (ceqb c dash || ceqb c "_"%char)%bool then " "%char else c) tail in
  match token with
  | _ :: _ => of_chars (if existsb is_digit token then map upper_char token else title token)
  | [] =>
      let host := take_while (fun c => negb (ceqb c "."%char)) (take_while (fun c => negb (ceqb c ":"%char)) path) in
      match host with [] => uri | _ => of_chars (title host) end
  end.

Example canonical_examples :
  canonical_node_id " ns=2;i=007 " (dict_of_list [(2, "urn:x")]) = Some "nsu=urn:x;i=7" /\
  canonical_node_id "ns=3;g={72962B91-FA75-4AE6-8D28-B404DC7DAF63}" ∅ = Some "ns=3;g=72962b91-fa75-4ae6-8d28-b404dc7daf63" /\
  canonical_node_id "i=85" ∅ = Some "nsu=http://opcfoundation.org/UA/;i=85" /\
  canonical_node_id "nsu=u;i=4294967296" ∅ = None /\
  display_name_for_uri "http://a.org/UA/My-types" = "My Types" /\
  display_name_for_uri "http://acme.org:80/" = "Acme" /\
  is_null_opcua_type_node_id " NS=4;I=0" = true.
Proof. vm_compute. split_and!; reflexivity. Qed.

(** ** Lemmas *)

Lemma rdrop_while_snoc_true {A} (p : A -> bool) l x : p x = true -> rdrop_while p (l ++ [x]) = rdrop_while p l.
Proof. intros Hx. unfold rdrop_while. rewrite reverse_snoc. simpl. by rewrite Hx. Qed.

Lemma take_while_drop {A} (p : A -> bool) l : take_while p l ++ drop (length (take_while p l)) l = l.
Proof. induction l as [|x l IH]; simpl; [done|]. destruct (p x); simpl; [by f_equal|done]. Qed.

Lemma starts_with_app p l : starts_with p (p ++ l) = true.
Proof. induction p as [|c p IH]; simpl; [done|]. by rewrite IH, andb_true_r; apply bool_decide_true. Qed.

(** [strip] of a text with a kept first character and a kept character inside. *)
Lemma strip_split a x rest :
  is_space x = false -> match a with [] => True | c :: _ => is_space c = false end ->
  chars (strip (of_chars (a ++ x :: rest))) = a ++ x :: rdrop_while is_space rest.
Proof.
  intros Hx Ha. unfold strip. rewrite !chars_of_chars, drop_while_id by (destruct a; simpl; done).
  by apply rdrop_while_app_false.
Qed.

Lemma digits_not_semicolon d rest :
  forallb is_digit d = true -> take_while is_digit (d ++ semicolon :: rest) = d.
Proof. intros Hd. by apply take_while_app_stop. Qed.

Lemma match_index_prefix_ns d rest :
  forallb is_digit d = true -> d ≠ [] ->
  match_index_prefix (chars "ns=" ++ d ++ semicolon :: rest) = (Some d, rest).
Proof.
  intros Hd Hne. unfold match_index_prefix, match_ns. rewrite starts_with_app.
  rewrite (drop_app_length (chars "ns=")), digits_not_semicolon by done. rewrite drop_app_length.
  destruct d; [done|]. unfold ceqb. by rewrite bool_decide_true.
Qed.

(** [canonical_node_id] on each of the three spellings. *)
Lemma canonical_nsu u rest m :
  semicolon ∉ u ->
  canonical_node_id (of_chars (chars "nsu=" ++ u ++ semicolon :: rest)) m =
  match match_identifier 0 (rdrop_while is_space rest) with
  | Some (kind, identifier) =>
      if negb (bool_decide (u = [])) then
        id ← normalize_node_identifier kind identifier;
        Some (of_chars (chars "nsu=" ++ u ++ [semicolon] ++ kind :: "="%char :: id))
      else None
  | None => None
  end.
Proof.
  intros Hu. unfold canonical_node_id. rewrite app_assoc, strip_split, <-app_assoc by done.
  rewrite starts_with_app, (drop_app_length (chars "nsu=")). by rewrite partition_at_app.
Qed.

Definition render_indexed (index : Z) (kind : ascii) (id : list ascii) (m : dict Z string) : string :=
  let uri := if index =? 0 then UA_NAMESPACE else default ε (m !! index) in
  if truthy uri
  then of_chars (chars "nsu=" ++ chars uri ++ [semicolon] ++ kind :: "="%char :: id)
  else of_chars (chars "ns=" ++ to_digits 10 index ++ [semicolon] ++ kind :: "="%char :: id).

Lemma canonical_ns d rest m :
  forallb is_digit d = true -> d ≠ [] ->
  canonical_node_id (of_chars (chars "ns=" ++ d ++ semicolon :: rest)) m =
  match match_identifier 0 (rdrop_while is_space rest) with
  | Some (kind, identifier) =>
      id ← normalize_node_identifier kind identifier; Some (render_indexed (digits_value d) kind id m)
  | None => None
  end.
Proof.
  intros Hd Hne. unfold canonical_node_id. rewrite app_assoc, strip_split, <-app_assoc by done.
  rewrite match_index_prefix_ns by done. done.
Qed.

Lemma canonical_bare k rest m :
  k ∈ ["i"; "s"; "g"; "b"]%char ->
  canonical_node_id (of_chars (k :: "="%char :: rest)) m =
  match match_identifier 0 (k :: "="%char :: rdrop_while is_space rest) with
  | Some (kind, identifier) =>
      id ← normalize_node_identifier kind identifier; Some (render_indexed 0 kind id m)
  | None => None
  end.
Proof.
  intros Hk. change (k :: "="%char :: rest) with ([k] ++ "="%char :: rest) at 1.
  assert (k = "i" \/ k = "s" \/ k = "g" \/ k = "b")%char as Hk' by set_solver. clear Hk.
  assert (is_space k = false) by by destruct Hk' as [-> | [-> | [-> | ->]]].
  unfold canonical_node_id. rewrite strip_split by done.
  by destruct Hk' as [-> | [-> | [-> | ->]]].
Qed.

(** ** Identifiers *)

Lemma base_digit_all (P : ascii -> bool) base c :
  forallb P (map digit_char (seqZ 0 16)) = true -> base <= 16 -> base_digit base c -> P c = true.
Proof.
  intros Hall Hb [d [Hd ->]]. rewrite List.forallb_forall in Hall. apply Hall.
  apply list_elem_of_In, list_elem_of_fmap. exists d. split; [done|]. apply elem_of_seqZ. lia.
Qed.

(** What stripping, searching and parsing have to know of a hexadecimal digit. *)
Definition plain_digit (c : ascii) : bool :=
  (negb (is_space c) && negb (ceqb c dash) && negb (ceqb c "{") && negb (ceqb c "}") && negb (ceqb c "u") &&
   negb (ceqb c "x") && negb (ceqb c "X") && negb (ceqb c "+") && negb (ceqb c (chr 10)))%char%bool.

Lemma hex_plain c : base_digit 16 c -> plain_digit c = true.
Proof. intros Hc. eapply base_digit_all; [|reflexivity|exact Hc]. vm_compute. reflexivity. Qed.

Lemma remove_sub_absent c p l : c ∉ l -> remove_sub (c :: p) 0 l = l.
Proof.
  induction l as [|x l IH]; intros Hc; [done|]. cbn [remove_sub starts_with]. unfold ceqb.
  rewrite bool_decide_false by (intros ->; apply Hc; constructor). simpl. rewrite IH; [done|].
  intros ?; apply Hc; by constructor.
Qed.

Lemma plain_neq c x : plain_digit c = true -> plain_digit x = false -> ceqb c x = false.
Proof. intros Hc Hx. unfold ceqb. apply bool_decide_eq_false_2. intros ->. by rewrite Hc in Hx. Qed.

Lemma to_digits_bound base n (k : nat) :
  2 <= base -> 0 <= n < base ^ Z.of_nat (S k) -> (length (to_digits base n) <= S k)%nat.
Proof.
  intros Hb Hn. unfold to_digits.
  pose proof (to_digits_fuel_length base (S (Z.to_nat (Z.log2 n))) n [] k Hb Hn) as Hl. simpl length in Hl at 2. lia.
Qed.

Definition hex32 (n : Z) : list ascii := pad_zeros 32 (to_digits 16 n).

Lemma hex32_length n : 0 <= n < 2 ^ 128 -> length (hex32 n) = 32%nat.
Proof.
  intros Hn. unfold hex32, pad_zeros. rewrite length_app, length_replicate.
  pose proof (to_digits_bound 16 n 31 ltac:(lia) ltac:(lia)). lia.
Qed.

Lemma hex32_digits n : 0 <= n -> Forall (base_digit 16) (hex32 n).
Proof.
  intros Hn. apply Forall_app. split; [|by apply to_digits_chars].
  apply Forall_replicate. exists 0. split; [lia|reflexivity].
Qed.

Lemma fold_zeros base k l : fold_left (digits_step base) (replicate k "0"%char ++ l) 0 = fold_left (digits_step base) l 0.
Proof. induction k as [|k IH]; simpl; [done|]. by unfold digits_step at 2. Qed.

Lemma hex32_value n : 0 <= n -> fold_left (digits_step 16) (hex32 n) 0 = n.
Proof. intros Hn. unfold hex32, pad_zeros. rewrite fold_zeros. apply to_digits_value; lia. Qed.

Lemma hex32_plain n : 0 <= n -> Forall (fun c => plain_digit c = true) (hex32 n).
Proof. intros Hn. eapply Forall_impl; [by apply hex32_digits|]. exact hex_plain. Qed.

Lemma py_int_hex l :
  Forall (base_digit 16) l -> l ≠ [] -> py_int 16 (of_chars l) = Some (fold_left (digits_step 16) l 0).
Proof.
  intros Hl Hne. assert (Forall (fun c => plain_digit c = true) l) as Hp by (eapply Forall_impl; [done|exact hex_plain]).
  assert (Forall (fun c => is_space c = false) l) as Hs.
  { eapply Forall_impl; [exact Hp|]. intros c Hc. unfold plain_digit in Hc. by destruct (is_space c). }
  unfold py_int. rewrite chars_of_chars, drop_while_none, rdrop_while_none by done.
  assert (forall x, plain_digit x = false -> Forall (fun c => ceqb c x = false) l) as Hno.
  { intros x Hx. eapply Forall_impl; [exact Hp|]. intros c Hc. by apply plain_neq. }
  pose proof (Hno "-"%char eq_refl) as Hm. pose proof (Hno "+"%char eq_refl) as Hpl.
  pose proof (Hno "x"%char eq_refl) as Hx. pose proof (Hno "X"%char eq_refl) as HX.
  destruct l as [|c l]; [done|]. rewrite (Forall_inv Hm), (Forall_inv Hpl).
  assert (skip_hex_prefix 16 (c :: l) = c :: l) as ->.
  { destruct l as [|c2 l]; [done|]. simpl. rewrite (Forall_inv (Forall_inv_tail Hx)), (Forall_inv (Forall_inv_tail HX)).
    by rewrite andb_false_r. }
  by apply parse_digits_spec.
Qed.

Lemma filter_keep (P : ascii -> bool) l : Forall (fun c => P c = true) l -> List.filter P l = l.
Proof. induction 1 as [|c l Hc Hl IH]; simpl; [done|]. by rewrite Hc, IH. Qed.

Lemma uuid_pieces {A} (h : list A) :
  take 8 h ++ take 4 (drop 8 h) ++ take 4 (drop 12 h) ++ take 4 (drop 16 h) ++ drop 20 h = h.
Proof.
  assert (forall j k, take k (drop j h) ++ drop (j + k) h = drop j h) as Hs by (intros; by rewrite <-drop_drop, take_drop).
  pose proof (Hs 16 4)%nat as E16. pose proof (Hs 12 4)%nat as E12. pose proof (Hs 8 4)%nat as E8. simpl in E16, E12, E8.
  rewrite E16, E12, E8. apply take_drop.
Qed.

Lemma uuid_str_chars n : 0 <= n -> Forall (fun c => plain_digit c = true \/ c = dash) (uuid_str n).
Proof.
  intros Hn. assert (Forall (fun c => plain_digit c = true \/ c = dash) (hex32 n)) as Hh.
  { eapply Forall_impl; [by apply hex32_plain|]. tauto. }
  unfold uuid_str. fold (hex32 n). cbv zeta.
  assert (Forall (fun c => plain_digit c = true \/ c = dash) [dash]) as Hd by (constructor; auto).
  repeat (apply Forall_app; split); auto using Forall_take, Forall_drop.
Qed.

Lemma parse_uuid_str n : 0 <= n < 2 ^ 128 -> parse_uuid (uuid_str n) = Some n.
Proof.
  intros Hn. pose proof (uuid_str_chars n ltac:(lia)) as Hc. unfold parse_uuid.
  assert ("u"%char ∉ uuid_str n) as Hu.
  { intros Hin. rewrite Forall_forall in Hc. destruct (Hc _ Hin) as [He|He]; vm_compute in He; discriminate. }
  rewrite (remove_sub_absent "u"%char (chars "rn:")), (remove_sub_absent "u"%char (chars "uid:")) by done.
  assert (Forall (fun c => (ceqb c "{"%char || ceqb c "}"%char)%bool = false) (uuid_str n)) as Hb.
  { eapply Forall_impl; [exact Hc|]. intros c [He| ->]; [|done]. by rewrite !plain_neq. }
  rewrite drop_while_none, rdrop_while_none by done.
  assert (List.filter (fun c => negb (ceqb c dash)) (uuid_str n) = hex32 n) as ->.
  { unfold uuid_str. fold (hex32 n). cbv zeta. rewrite !List.filter_app. cbn [List.filter].
    change (ceqb dash dash) with true. cbn [negb app].
    assert (Forall (fun c => negb (ceqb c dash) = true) (hex32 n)) as Hh.
    { eapply Forall_impl; [apply hex32_plain; lia|]. intros c He. by rewrite plain_neq. }
    rewrite !filter_keep by auto using Forall_take, Forall_drop. apply uuid_pieces. }
  rewrite bool_decide_true by by apply hex32_length.
  rewrite py_int_hex; [|apply hex32_digits; lia|intros E; pose proof (hex32_length n Hn); by rewrite E in *].
  simpl. rewrite hex32_value by lia. rewrite (proj2 (Z.leb_le _ _)), (proj2 (Z.ltb_lt _ _)) by lia. done.
Qed.

Lemma parse_uuid_range l n : parse_uuid l = Some n -> 0 <= n < 2 ^ 128.
Proof.
  unfold parse_uuid. case_bool_decide; [|done]. destruct (py_int _ _); simpl; [|done].
  destruct (_ && _)%bool eqn:E; [|done]. intros [= <-]. apply andb_true_iff in E as [?%Z.leb_le ?%Z.ltb_lt]. done.
Qed.

(** A normalised identifier is left alone by a second normalisation. *)
Lemma normalize_node_identifier_idem k i i' :
  normalize_node_identifier k i = Some i' -> normalize_node_identifier k i' = Some i'.
Proof.
  unfold normalize_node_identifier. destruct (ceqb k "i") eqn:Ei; [|destruct (ceqb k "g") eqn:Eg].
  - destruct (_ && _)%bool eqn:E; [|done]. apply andb_true_iff in E as [Hd _].
    pose proof (digits_value_nonneg i Hd) as Hn. destruct (Z.leb_spec (digits_value i) 4294967295); [|done].
    intros [= <-]. destruct (digits_value_to_digits _ Hn) as (-> & -> & Hne).
    rewrite bool_decide_false by done. simpl. by rewrite (proj2 (Z.leb_le _ _)).
  - destruct (parse_uuid _) as [n|] eqn:E; simpl; [|done]. intros [= <-]. apply parse_uuid_range in E.
    pose proof (uuid_str_chars n ltac:(lia)) as Hc.
    assert (Forall (fun c => (ceqb c "{"%char || ceqb c "}"%char)%bool = false) (uuid_str n)) as Hb.
    { eapply Forall_impl; [exact Hc|]. intros c [He| ->]; [|done]. by rewrite !plain_neq. }
    rewrite drop_while_none, rdrop_while_none, parse_uuid_str by done. done.
  - by intros [= <-].
Qed.

(** ** What a canonical form looks like *)

Definition newline : ascii := chr 10.

(** Text that neither [strip] nor a line match cuts. *)
Definition clean (l : list ascii) : Prop := rdrop_while is_space l = l /\ newline ∉ l.

Lemma plain_clean l : Forall (fun c => plain_digit c = true \/ c = dash) l -> clean l.
Proof.
  intros Hl. split.
  - apply rdrop_while_none. eapply Forall_impl; [exact Hl|]. intros c [Hc| ->]; [|done].
    unfold plain_digit in Hc. by destruct (is_space c).
  - intros Hin. rewrite Forall_forall in Hl. destruct (Hl _ Hin) as [He|He]; vm_compute in He; discriminate.
Qed.

Lemma rdrop_while_idem {A} (p : A -> bool) l : rdrop_while p (rdrop_while p l) = rdrop_while p l.
Proof.
  destruct (rdrop_while p l) as [|x r _] eqn:E using rev_ind; [done|].
  apply rdrop_while_snoc_false. by eapply rdrop_while_last.
Qed.

Lemma rdrop_while_suffix {A} (p : A -> bool) a r : rdrop_while p (a ++ r) = a ++ r -> rdrop_while p r = r.
Proof.
  destruct r as [|x r _] using rev_ind; [done|]. intros E. apply rdrop_while_snoc_false.
  rewrite app_assoc in E. by eapply rdrop_while_last.
Qed.

Lemma match_identifier_clean n r k body :
  rdrop_while is_space r = r -> match_identifier n r = Some (k, body) ->
  k ∈ ["i"; "s"; "g"; "b"]%char /\ r = k :: "="%char :: body /\ clean body.
Proof.
  intros Hr. destruct r as [|k' [|e r]]; simpl; [done..|].
  destruct (bool_decide _ && _)%bool eqn:E; [|done]. apply andb_true_iff in E as [Hk He].
  apply bool_decide_eq_true_1 in Hk, He. subst e. unfold match_line. fold newline.
  set (b := take_while _ r). destruct (_ && _)%bool eqn:E; [|done]. apply andb_true_iff in E as [E _].
  apply bool_decide_eq_true_1 in E. intros [= -> <-]. fold b.
  assert (r = b ++ drop (length b) r) as Hsplit.
  { symmetry. apply take_while_drop. }
  assert (newline ∉ b) as Hnl.
  { intros Hin. pose proof (take_while_forallb (fun c => negb (ceqb c newline)) r) as Hf. fold b in Hf.
    rewrite List.forallb_forall in Hf. apply list_elem_of_In, Hf in Hin. vm_compute in Hin. discriminate. }
  destruct E as [E|E]; rewrite E in Hsplit.
  - rewrite app_nil_r in Hsplit. rewrite Hsplit in Hr |- *. split_and!; [done..|]. split; [|done].
    by apply (rdrop_while_suffix _ [k; "="%char] b).
  - exfalso. apply (rdrop_while_suffix _ [k; "="%char] r) in Hr. rewrite Hsplit in Hr.
    apply rdrop_while_last in Hr. vm_compute in Hr. discriminate.
Qed.

Lemma match_identifier_render k body :
  k ∈ ["i"; "s"; "g"; "b"]%char -> newline ∉ body -> match_identifier 0 (k :: "="%char :: body) = Some (k, body).
Proof.
  intros Hk Hb. unfold match_identifier. rewrite bool_decide_true by done. simpl.
  unfold match_line. fold newline. rewrite take_while_all.
  - rewrite drop_all. rewrite bool_decide_true by auto. done.
  - apply List.forallb_forall. intros c Hc. apply negb_true_iff, bool_decide_eq_false_2. intros ->.
    by apply Hb, list_elem_of_In.
Qed.

Lemma normalize_node_identifier_clean k i i' : clean i -> normalize_node_identifier k i = Some i' -> clean i'.
Proof.
  intros Hi. unfold normalize_node_identifier. destruct (ceqb k "i") eqn:Ei; [|destruct (ceqb k "g") eqn:Eg].
  - destruct (_ && _)%bool eqn:E; [|done]. apply andb_true_iff in E as [Hd _].
    pose proof (digits_value_nonneg i Hd) as Hn. destruct (_ <=? _); [|done]. intros [= <-]. apply plain_clean.
    eapply Forall_impl; [by apply (to_digits_chars 10)|]. intros c Hc. left.
    eapply (base_digit_all plain_digit 10); [vm_compute; reflexivity|lia|done].
  - destruct (parse_uuid _) as [n|] eqn:E; simpl; [|done]. intros [= <-]. apply parse_uuid_range in E.
    apply plain_clean, uuid_str_chars. lia.
  - by intros [= <-].
Qed.

Lemma match_index_prefix_suffix l d rest :
  match_index_prefix l = (d, rest) -> exists a, l = a ++ rest.
Proof.
  unfold match_index_prefix, match_ns. destruct (starts_with _ l); [|intros [= _ <-]; by exists []].
  destruct (take_while is_digit (drop 3 l)) as [|c0 ds] eqn:E; [intros [= _ <-]; by exists []|].
  destruct (drop (length (c0 :: ds)) (drop 3 l)) as [|c r] eqn:E2; [intros [= _ <-]; by exists []|].
  destruct (ceqb c semicolon); [|intros [= _ <-]; by exists []]. intros [= _ <-].
  exists (take 3 l ++ take (length (c0 :: ds)) (drop 3 l) ++ [c]).
  rewrite <-!app_assoc. cbn [app]. by rewrite <-E2, !take_drop.
Qed.

(** The shape of every canonical form: an identifier that is normal and clean, behind either a
    namespace without semicolon or the numeral of an index that maps to no namespace. *)
Inductive canonical_form (m : dict Z string) : string -> Prop :=
  | canonical_expanded u k id :
      semicolon ∉ u -> u ≠ [] -> k ∈ ["i"; "s"; "g"; "b"]%char -> clean id ->
      normalize_node_identifier k id = Some id ->
      canonical_form m (of_chars (chars "nsu=" ++ u ++ [semicolon] ++ k :: "="%char :: id))
  | canonical_indexed n k id :
      0 < n -> truthy (default ε (m !! n)) = false -> k ∈ ["i"; "s"; "g"; "b"]%char -> clean id ->
      normalize_node_identifier k id = Some id ->
      canonical_form m (of_chars (chars "ns=" ++ to_digits 10 n ++ [semicolon] ++ k :: "="%char :: id)).

Lemma rdrop_identifier k l : rdrop_while is_space (k :: "="%char :: l) = k :: "="%char :: rdrop_while is_space l.
Proof. by apply (rdrop_while_app_false is_space [k]). Qed.

Lemma canonical_form_fixed m t : canonical_form m t -> canonical_node_id t m = Some t.
Proof.
  destruct 1 as [u k id Hu Hne Hk [Hr Hnl] Hn | n k id Hpos Hm Hk [Hr Hnl] Hn]; cbn [app].
  - rewrite canonical_nsu by done. rewrite rdrop_identifier, Hr, match_identifier_render by done. rewrite bool_decide_false by done. simpl. by rewrite Hn.
  - destruct (digits_value_to_digits n ltac:(lia)) as (Hv & Hd & Hne).
    rewrite canonical_ns by done. rewrite rdrop_identifier, Hr, match_identifier_render by done. rewrite Hv, Hn. simpl. unfold render_indexed.
    rewrite (proj2 (Z.eqb_neq n 0)) by lia. cbv zeta. by rewrite Hm.
Qed.

Lemma index_of_prefix_nonneg l : 0 <= index_of (match_index_prefix l).1.
Proof.
  unfold match_index_prefix, match_ns. destruct (starts_with _ l); [|done].
  pose proof (take_while_forallb is_digit (drop 3 l)) as Hd.
  destruct (take_while is_digit (drop 3 l)) as [|c0 ds]; [done|].
  destruct (drop _ _) as [|c r]; [done|]. destruct (ceqb c semicolon); [|done]. by apply digits_value_nonneg.
Qed.

Lemma strip_clean s : rdrop_while is_space (chars (strip s)) = chars (strip s).
Proof. unfold strip. rewrite chars_of_chars. apply rdrop_while_idem. Qed.

(** No namespace of the table holds the separator. *)
Definition separable (m : dict Z string) : Prop := forall i uri, m !! i = Some uri -> semicolon ∉ chars uri.

Lemma separable_items m :
  forallb (fun p => negb (existsb (ceqb semicolon) (chars p.2))) (dict_items m) = true -> separable m.
Proof.
  intros Hm i uri Hi Hin. apply dict_lookup_items in Hi. rewrite List.forallb_forall in Hm.
  apply list_elem_of_In, Hm in Hi. apply negb_true_iff in Hi. apply not_true_iff_false in Hi. apply Hi.
  apply List.existsb_exists. exists semicolon. split; [by apply list_elem_of_In|done].
Qed.

Lemma truthy_spec s : truthy s = true <-> s ≠ ε.
Proof. unfold truthy. rewrite negb_true_iff, bool_decide_eq_false. done. Qed.

Lemma render_indexed_form m n k id :
  separable m -> 0 <= n -> k ∈ ["i"; "s"; "g"; "b"]%char -> clean id -> normalize_node_identifier k id = Some id ->
  canonical_form m (render_indexed n k id m).
Proof.
  intros Hm Hn Hk Hc Hi. unfold render_indexed. cbv zeta. destruct (Z.eqb_spec n 0) as [->|].
  - rewrite (proj2 (truthy_spec UA_NAMESPACE)) by done. apply canonical_expanded; [|done..].
    refine (bool_decide_unpack _ _). vm_compute. exact I.
  - destruct (truthy (default ε (m !! n))) eqn:Ht; [|apply canonical_indexed; auto; lia].
    destruct (m !! n) as [uri|] eqn:E; [|done]. simpl in *. apply canonical_expanded; [by eapply Hm| |done..].
    apply truthy_spec in Ht. destruct uri; done.
Qed.

Lemma canonical_node_id_form s m t : separable m -> canonical_node_id s m = Some t -> canonical_form m t.
Proof.
  intros Hm. unfold canonical_node_id. pose proof (strip_clean s) as Hs. destruct (starts_with _ _) eqn:Hst.
  - destruct (partition_at _ _) as [[u sep] rest] eqn:Ep. destruct (match_identifier 0 rest) as [[k id]|] eqn:Ei; [|done].
    destruct sep; [|done]. destruct (bool_decide _) eqn:Eu; [done|]. simpl. apply bool_decide_eq_false_1 in Eu.
    destruct (normalize_node_identifier k id) as [id'|] eqn:En; [|done]. intros [= <-].
    apply partition_at_found in Ep as [Ed Hu].
    assert (rdrop_while is_space rest = rest) as Hr.
    { apply (rdrop_while_suffix _ (take 4 (chars (strip s)) ++ u ++ [semicolon])).
      rewrite <-!app_assoc. cbn [app]. by rewrite <-Ed, take_drop. }
    destruct (match_identifier_clean _ _ _ _ Hr Ei) as (Hk & _ & Hc).
    apply canonical_expanded; [done..| |]; eauto using normalize_node_identifier_clean, normalize_node_identifier_idem.
  - pose proof (index_of_prefix_nonneg (chars (strip s))) as Hn.
    destruct (match_index_prefix _) as [d rest] eqn:Ep. destruct (match_identifier 0 rest) as [[k id]|] eqn:Ei; [|done].
    destruct (normalize_node_identifier k id) as [id'|] eqn:En; [|done]. simpl. intros [= <-].
    apply match_index_prefix_suffix in Ep as [a Ea]. rewrite Ea in Hs. apply rdrop_while_suffix in Hs.
    destruct (match_identifier_clean _ _ _ _ Hs Ei) as (Hk & _ & Hc).
    apply render_indexed_form; eauto using normalize_node_identifier_clean, normalize_node_identifier_idem.
Qed.

(** The canonical form is a normal form: canonicalising it again changes nothing, whatever
    spelling (indexed, expanded, blanks, leading zeros, GUID braces and case) it came from. *)
Theorem canonical_node_id_idempotent s m t :
  separable m -> canonical_node_id s m = Some t -> canonical_node_id t m = Some t.
Proof. intros Hm H. eapply canonical_form_fixed, canonical_node_id_form; eauto. Qed.

Lemma canonical_node_id_idempotent_witness :
  canonical_node_id "nsu=urn:x;g=72962b91-fa75-4ae6-8d28-b404dc7daf63" (dict_of_list [(2, "urn:x")]) =
  Some "nsu=urn:x;g=72962b91-fa75-4ae6-8d28-b404dc7daf63".
Proof.
  assert (separable (dict_of_list [(2, "urn:x")])) as Hm by (apply separable_items; vm_compute; reflexivity).
  pose proof (canonical_node_id_idempotent " ns=02;g={72962B91FA754AE68D28B404DC7DAF63}"
    (dict_of_list [(2, "urn:x")]) _ Hm ltac:(vm_compute; reflexivity)) as H. exact H.
Defined.

(** ** Expansion *)

(** The namespace table of the builder: the URIs of the namespace array, by position. *)
Definition describes (m : dict Z string) (infos : list OpcUaNamespaceInfo) : Prop :=
  forall i : nat, default ε (m !! Z.of_nat i) = default ε (nsi_uri <$> infos !! i).

Lemma of_chars_app a b : of_chars (a ++ b) = of_chars a +:+ of_chars b.
Proof. induction a as [|c a IH]; simpl; [done|]. by rewrite IH. Qed.

Lemma nsu_text uri l :
  "nsu=" +:+ uri +:+ ";" +:+ of_chars l = of_chars (chars "nsu=" ++ chars uri ++ semicolon :: l).
Proof. rewrite !of_chars_app, (of_chars_chars uri). done. Qed.

Lemma match_index_prefix_some l d rest :
  match_index_prefix l = (Some d, rest) ->
  l = chars "ns=" ++ d ++ semicolon :: rest /\ forallb is_digit d = true /\ d ≠ [].
Proof.
  unfold match_index_prefix, match_ns. destruct (starts_with (chars "ns=") l) eqn:Hs; [|done].
  pose proof (take_while_forallb is_digit (drop 3 l)) as Hd.
  destruct (take_while is_digit (drop 3 l)) as [|c0 ds] eqn:E; [done|].
  destruct (drop (length (c0 :: ds)) (drop 3 l)) as [|c r] eqn:E2; [done|].
  unfold ceqb. case_bool_decide as Hc; [|done]. intros [= <- <-]. subst c. split_and!; [|done..].
  assert (drop 3 l = (c0 :: ds) ++ semicolon :: r) as Hl.
  { rewrite <-E2, <-E. symmetry. apply take_while_drop. }
  destruct l as [|a1 [|a2 [|a3 l]]]; simpl in Hs; try (by rewrite ?andb_false_r in Hs).
  unfold ceqb in Hs. rewrite !andb_true_iff, !bool_decide_eq_true in Hs. destruct Hs as (-> & -> & -> & _).
  simpl in Hl. rewrite drop_0 in Hl. by rewrite Hl.
Qed.

Lemma match_index_prefix_none l rest : match_index_prefix l = (None, rest) -> rest = l.
Proof.
  unfold match_index_prefix. destruct (match_ns l) as [[d [|c r]]|]; [by intros [= <-]| |by intros [= <-]].
  destruct (ceqb c semicolon); [done|by intros [= <-]].
Qed.

Lemma match_identifier_some n r k body :
  match_identifier n r = Some (k, body) ->
  k ∈ ["i"; "s"; "g"; "b"]%char /\ (r = k :: "="%char :: body \/ r = k :: "="%char :: body ++ [newline]).
Proof.
  destruct r as [|k' [|e r]]; simpl; [done..|].
  destruct (bool_decide _ && _)%bool eqn:E; [|done]. apply andb_true_iff in E as [Hk He].
  apply bool_decide_eq_true_1 in Hk, He. subst e. unfold match_line. fold newline.
  set (b := take_while _ r). destruct (_ && _)%bool eqn:E; [|done]. apply andb_true_iff in E as [E _].
  apply bool_decide_eq_true_1 in E. intros [= -> <-]. fold b. split; [done|].
  assert (r = b ++ drop (length b) r) as Hsplit.
  { symmetry. apply take_while_drop. }
  destruct E as [E|E]; rewrite E in Hsplit; [left|right]; by rewrite Hsplit, ?app_nil_r at 1.
Qed.

Lemma match_identifier_rdrop n r k body :
  match_identifier n r = Some (k, body) ->
  rdrop_while is_space r = rdrop_while is_space (k :: "="%char :: body).
Proof.
  intros [_ [->| ->]]%match_identifier_some; [done|].
  by apply (rdrop_while_snoc_true is_space (k :: "="%char :: body) newline).
Qed.

(** Expanding an identifier does not change the node it denotes. *)
Lemma expanded_same_namespace index k body rest m uri :
  semicolon ∉ chars uri -> truthy uri = true ->
  (if index =? 0 then UA_NAMESPACE else default ε (m !! index)) = uri ->
  match_identifier 1 rest = Some (k, body) ->
  canonical_node_id ("nsu=" +:+ uri +:+ ";" +:+ of_chars (k :: "="%char :: body)) m =
  match match_identifier 0 (rdrop_while is_space rest) with
  | Some (kind, identifier) =>
      id ← normalize_node_identifier kind identifier; Some (render_indexed index kind id m)
  | None => None
  end.
Proof.
  intros Hu Ht Hm Hi. rewrite nsu_text, canonical_nsu by done. rewrite (match_identifier_rdrop _ _ _ _ Hi).
  destruct (match_identifier 0 _) as [[k' id]|]; [|done].
  rewrite bool_decide_false by (intros E; apply truthy_spec in Ht; by destruct uri). simpl.
  destruct (normalize_node_identifier k' id) as [id'|]; [|done]. simpl. unfold render_indexed. cbv zeta.
  by rewrite Hm, Ht.
Qed.

Lemma expanded_same_key s m infos :
  separable m -> describes m infos ->
  canonical_node_id (expanded_node_id s infos) m = canonical_node_id s m.
Proof.
  intros Hsep Hd. unfold expanded_node_id. destruct (startswith "nsu=" s); [done|].
  destruct (match_index_prefix (chars s)) as [d rest] eqn:Ep.
  destruct (match_identifier 1 rest) as [[k body]|] eqn:Ei; [|done].
  assert (canonical_node_id s m =
          match match_identifier 0 (rdrop_while is_space rest) with
          | Some (kind, identifier) =>
              id ← normalize_node_identifier kind identifier; Some (render_indexed (index_of d) kind id m)
          | None => None
          end) as Hs.
  { rewrite <-(of_chars_chars s). destruct d as [d|].
    - apply match_index_prefix_some in Ep as (-> & Hdig & Hne). by rewrite canonical_ns.
    - apply match_index_prefix_none in Ep as <-.
      destruct (match_identifier_some _ _ _ _ Ei) as [Hk [Hr|Hr]]; rewrite Hr, canonical_bare by done;
        by rewrite rdrop_identifier. }
  pose proof (index_of_prefix_nonneg (chars s)) as Hn. rewrite Ep in Hn. simpl in Hn. cbv zeta.
  destruct (Z.eqb_spec (index_of d) 0) as [E0|E0].
  - rewrite Hs. apply (expanded_same_namespace _ _ _ _ _ UA_NAMESPACE); [|done| |done].
    + refine (bool_decide_unpack _ _). vm_compute. exact I.
    + by rewrite E0.
  - destruct (infos !! Z.to_nat (index_of d)) as [info|] eqn:El; [|done].
    destruct (truthy (nsi_uri info)) eqn:Ht; [|done]. rewrite Hs.
    assert (default ε (m !! index_of d) = nsi_uri info) as Hm.
    { specialize (Hd (Z.to_nat (index_of d))). by rewrite Z2Nat.id, El in Hd. }
    apply expanded_same_namespace; [|done| |done].
    + destruct (m !! index_of d) as [u|] eqn:Eu; simpl in Hm; subst; [by eapply Hsep|]. by rewrite <-Hm in Ht.
    + by rewrite (proj2 (Z.eqb_neq _ _)).
Qed.

(** [expanded_node_id] does not change the node an id denotes: the indexed and the expanded
    spelling have the same canonical form, so every table keyed by it finds the same entry. *)
Theorem expanded_node_id_same_key s m infos :
  separable m -> describes m infos ->
  canonical_node_id (expanded_node_id s infos) m = canonical_node_id s m.
Proof. apply expanded_same_key. Qed.

Lemma expanded_node_id_same_key_witness :
  canonical_node_id (expanded_node_id "ns=1;g={72962B91FA754AE68D28B404DC7DAF63}" [Build_OpcUaNamespaceInfo UA_NAMESPACE ε None None; Build_OpcUaNamespaceInfo "urn:x" ε None None])
    (dict_of_list [(0, UA_NAMESPACE); (1, "urn:x")]) =
  canonical_node_id "ns=1;g={72962B91FA754AE68D28B404DC7DAF63}" (dict_of_list [(0, UA_NAMESPACE); (1, "urn:x")]).
Proof.
  assert (separable (dict_of_list [(0, UA_NAMESPACE); (1, "urn:x")])) as Hm by (apply separable_items; vm_compute; reflexivity).
  assert (describes (dict_of_list [(0, UA_NAMESPACE); (1, "urn:x")])
    [Build_OpcUaNamespaceInfo UA_NAMESPACE ε None None; Build_OpcUaNamespaceInfo "urn:x" ε None None]) as Hd.
  { intros [|[|i]]; try (vm_compute; reflexivity). unfold lookup, dict_lookup. cbn.
    rewrite (bool_decide_false (0 = 1)) by done. cbn. rewrite !bool_decide_false by lia. done. }
  pose proof (expanded_node_id_same_key "ns=1;g={72962B91FA754AE68D28B404DC7DAF63}" _ _ Hm Hd) as H. exact H.
Defined.
End NodeIds.
