(* ===== verification/Profiles.v ===== *)
(** Semantic profiles ([model/semantic_profiles.py]): which profiles apply to a node, and what
    they say about its role, the confidence of its mapping and the references that lead to it.

    A set of tokens is a list, used only through membership. *)

From S2P Require Export NodeIds.

Module Profiles.

(** [ReferenceClass] of [model/mapper.py]; the profiles use its first three members. *)
Inductive ReferenceClass := hierarchy | composition | graph | type_meta | ignore.

#[export] Instance ReferenceClass_eq_dec : EqDecision ReferenceClass.
Proof. solve_decision. Defined.

Record ProfileOverride := {
  type_name : string;
  semantic_role : option SemanticRole;
  force_hierarchy : bool;
  force_composition : bool;
  confidence : option MappingConfidence;
}.

(** [__post_init__] raises unless this holds. *)
Definition override_ok (o : ProfileOverride) : bool := negb (force_hierarchy o && force_composition o).

Record SemanticProfile := {
  profile_id : string;
  priority : Z;
  namespace_uri_fragment : string;
  known_types : list string;
  hierarchy_references : list string;
  composition_references : list string;
  graph_references : list string;
  overrides : list ProfileOverride;
}.

(** [s.rsplit(c, 1)[-1]] is the whole string when [c] is absent, so the guard [c in s] adds nothing. *)
Definition normalize_token (value : option string) : string :=
  match value with
  | None => ε
  | Some s =>
      let lowered := chars (lower (strip s)) in
      of_chars (List.filter is_alnum
        (after_last ";"%char (after_last "/"%char (after_last ":"%char lowered))))
  end.

Abbreviation token s := (normalize_token (Some s)).

Definition mem (t : string) (l : list string) : bool := existsb (fun x => bool_decide (x = t)) l.

(** [bool(a & b)]. *)
Definition meets (a b : list string) : bool := existsb (fun t => mem t b) a.

Definition matches_type (p : SemanticProfile) (t : OpcUaTypeDefinitionInfo) : bool :=
  let fragment := namespace_uri_fragment p in
  let known_type_tokens := map (fun s => token s) (known_types p) in
  if (truthy fragment &&
      (negb (truthy_opt (ti_namespace_uri t)) ||
       negb (str_in (lower fragment) (lower (default ε (ti_namespace_uri t))))))%bool then false
  else negb (match known_type_tokens with [] => false | _ => true end && negb (mem (token (ti_browse_name t)) known_type_tokens)).

Definition matches_node (p : SemanticProfile) (type_definition_hierarchy : list OpcUaTypeDefinitionInfo) : bool :=
  if (negb (truthy (namespace_uri_fragment p)) && match known_types p with [] => true | _ => false end)%bool then true
  else existsb (matches_type p) type_definition_hierarchy.

Definition GENERIC_PROFILE : SemanticProfile :=
  {| profile_id := "generic"; priority := 10; namespace_uri_fragment := ε; known_types := [];
     hierarchy_references := ["Organizes"; "HasChild"; "HierarchicalReferences"];
     composition_references := ["HasComponent"; "HasOrderedComponent"; "HasProperty"; "PropertyOf"];
     graph_references := ["NonHierarchicalReferences"; "GeneratesEvent"; "HasEventSource"];
     overrides := [] |}.

Definition MACHINERY_PROFILE : SemanticProfile :=
  {| profile_id := "machinery"; priority := 100;
     namespace_uri_fragment := "http://opcfoundation.org/UA/Machinery";
     known_types := ["FunctionalGroupType"; "DataItemType"];
     hierarchy_references := ["Organizes"];
     composition_references := ["HasProperty"; "DataItemType"];
     graph_references := ["FlowsTo"];
     overrides :=
       [{| type_name := "FunctionalGroupType"; semantic_role := Some role_group; force_hierarchy := true;
           force_composition := false; confidence := Some conf_high |};
        {| type_name := "DataItemType"; semantic_role := Some role_datapoint; force_hierarchy := false;
           force_composition := true; confidence := Some conf_high |}] |}.

Definition load_default_profiles : list SemanticProfile := [MACHINERY_PROFILE; GENERIC_PROFILE].

Definition resolve_namespace_uri (node_id : string) (namespace_uri_by_index : dict Z string) : option string :=
  match dict_items namespace_uri_by_index with
  | [] => None
  | _ =>
      let prefix := (partition_at NodeIds.semicolon (chars node_id)).1.1 in
      if starts_with (chars "ns=") prefix then
        index ← py_int 10 (of_chars (drop 3 prefix)); namespace_uri_by_index !! index
      else if existsb (fun p => starts_with (chars p) prefix) ["i="; "s="; "g="; "b="] then namespace_uri_by_index !! 0
      else None
  end.

(** [sort(key=priority, reverse=True)] is stable. *)
Definition priority_geb (p q : SemanticProfile) : bool := priority q <=? priority p.

Definition active_profiles_for_node (type_definition_hierarchy : list OpcUaTypeDefinitionInfo)
    (available_profiles : option (list SemanticProfile)) : list SemanticProfile :=
  let profiles := match available_profiles with
                  | None | Some [] => load_default_profiles
                  | Some l => l
                  end in
  py_sorted priority_geb (List.filter (fun p => matches_node p type_definition_hierarchy) profiles).

(** A [ResolvedProfileSet] is an object without [__len__]: an empty one is still true. *)
Definition profiles_or_default (active : option (list SemanticProfile)) : list SemanticProfile :=
  default load_default_profiles active.

Definition node_tokens (node : OpcUaNodeInfo) : list string :=
  [normalize_token (ni_type_definition_id node); token (ni_browse_name node); token (ni_node_id node)].

Definition type_tokens (types : list OpcUaTypeDefinitionInfo) : list string :=
  map (fun t => token (ti_browse_name t)) types.

Definition resolve_semantic_role (node : OpcUaNodeInfo) (active : option (list SemanticProfile))
    (relationship_class : option ReferenceClass) (types : list OpcUaTypeDefinitionInfo) : SemanticRole :=
  let tokens := node_tokens node ++ type_tokens types in
  let candidates := List.concat (map overrides (profiles_or_default active)) in
  let given := omap (fun o => if mem (token (type_name o)) tokens then semantic_role o else None) candidates in
  match given with
  | role :: _ => role
  | [] =>
      if ni_event_notifier node then role_group
      else if bool_decide (ni_node_class node = "Variable") then role_datapoint
      else if bool_decide (ni_node_class node = "Method") then role_component
      else if bool_decide (relationship_class = Some composition) then role_property
      else role_asset
  end.

Definition resolve_mapping_confidence (node : OpcUaNodeInfo) (active : option (list SemanticProfile))
    (relationship_class : option ReferenceClass) (has_profile_override : bool) : MappingConfidence :=
  if has_profile_override then conf_high
  else if match active with Some l => negb (bool_decide (map profile_id l = ["generic"])) | None => false end then conf_high
  else if bool_decide (ni_node_class node = "Variable") then conf_medium
  else if bool_decide (relationship_class = Some graph) then conf_high
  else conf_medium.

Definition has_profile_override_for_node (node : OpcUaNodeInfo) (active : option (list SemanticProfile))
    (types : list OpcUaTypeDefinitionInfo) : bool :=
  let tokens := node_tokens node ++ type_tokens types in
  existsb (fun p => existsb (fun o => mem (token (type_name o)) tokens) (overrides p)) (profiles_or_default active).

Definition forced_class (o : ProfileOverride) : option ReferenceClass :=
  if force_hierarchy o then Some hierarchy else if force_composition o then Some composition else None.

Fixpoint first_some {A B} (f : A -> option B) (l : list A) : option B :=
  match l with
  | [] => None
  | x :: l' => match f x with Some y => Some y | None => first_some f l' end
  end.

Definition forced_relationship_class_for_node (node : OpcUaNodeInfo) (active : option (list SemanticProfile))
    (types : list OpcUaTypeDefinitionInfo) : option ReferenceClass :=
  let type_names := type_tokens types ++ node_tokens node in
  first_some (fun p =>
    first_some (fun n =>
      first_some (fun o => if bool_decide (token (type_name o) = n) then forced_class o else None) (overrides p))
      type_names)
    (profiles_or_default active).

(** Later profiles, and in one profile the later kinds, overwrite the earlier ones. *)
Definition reference_classification_overrides (active : option (list SemanticProfile)) : dict string ReferenceClass :=
  dict_of_list (List.concat (map (fun p =>
    map (fun s => (token s, hierarchy)) (hierarchy_references p) ++
    map (fun s => (token s, composition)) (composition_references p) ++
    map (fun s => (token s, graph)) (graph_references p)) (profiles_or_default active))).

Example token_examples :
  token " http://x.org/UA/;i=35 " = "i35" /\ token "2:Has_Component" = "hascomponent" /\
  map profile_id (active_profiles_for_node
    [{| ti_node_id := "i=58"; ti_browse_name := "1:DataItemType"; ti_namespace_uri := Some "http://opcfoundation.org/UA/MACHINERY/" |}] None)
  = ["machinery"; "generic"].
Proof. vm_compute. split_and!; reflexivity. Qed.

(** ** Lemmas: membership *)

Lemma mem_spec t l : mem t l = true <-> t ∈ l.
Proof.
  unfold mem. rewrite List.existsb_exists. split.
  - intros (x & Hx & E). apply bool_decide_eq_true_1 in E as ->. by apply list_elem_of_In.
  - intros Ht. exists t. split; [by apply list_elem_of_In|by apply bool_decide_true].
Qed.

Lemma mem_false t l : mem t l = false <-> t ∉ l.
Proof. by rewrite <-not_true_iff_false, mem_spec. Qed.

Lemma mem_cons t x l : mem t (x :: l) = (bool_decide (x = t) || mem t l)%bool.
Proof. done. Qed.

Lemma priority_geb_total p q : priority_geb p q = true \/ priority_geb q p = true.
Proof. unfold priority_geb. rewrite !Z.leb_le. lia. Qed.

Lemma priority_geb_trans p q r : priority_geb p q = true -> priority_geb q r = true -> priority_geb p r = true.
Proof. unfold priority_geb. rewrite !Z.leb_le. lia. Qed.

Definition same_priority (z : Z) (p : SemanticProfile) : bool := priority p =? z.

Lemma sorted_same_priority z l :
  List.filter (same_priority z) (py_sorted priority_geb l) = List.filter (same_priority z) l.
Proof.
  set (k := {| profile_id := ε; priority := z; namespace_uri_fragment := ε; known_types := [];
     hierarchy_references := []; composition_references := []; graph_references := []; overrides := [] |}).
  assert (forall l, List.filter (same_priority z) l = List.filter (fun p => priority_geb k p && priority_geb p k)%bool l) as Hf.
  { intros l'. apply List.filter_ext. intros p. unfold same_priority, priority_geb. simpl.
    destruct (Z.eqb_spec (priority p) z), (Z.leb_spec (priority p) z), (Z.leb_spec z (priority p)); simpl; (done || lia). }
  rewrite !Hf. apply py_sorted_stable, priority_geb_trans.
Qed.

(** The active profiles of a node are the available profiles (the built-in ones when none are
    given) that match its type hierarchy, each as often as it is available, from the highest
    priority to the lowest, those of one priority in the order in which they are available. *)
Theorem active_profiles_exact types available :
  let profiles := match available with None | Some [] => load_default_profiles | Some l => l end in
  let active := active_profiles_for_node types available in
  active ≡ₚ List.filter (fun p => matches_node p types) profiles /\
  StronglySorted (fun p q => priority q <= priority p) active /\
  (forall z, List.filter (same_priority z) active =
             List.filter (same_priority z) (List.filter (fun p => matches_node p types) profiles)) /\
  (available = None -> GENERIC_PROFILE ∈ active).
Proof.
  cbv zeta. unfold active_profiles_for_node.
  set (l := match available with None | Some [] => load_default_profiles | Some l => l end). split_and!.
  - apply py_sorted_perm.
  - pose proof (py_sorted_sorted priority_geb priority_geb_total priority_geb_trans
      (List.filter (fun p => matches_node p types) l)) as Hs.
    induction Hs as [|p q Hs IH Hf]; constructor; [done|]. eapply Forall_impl; [exact Hf|].
    intros r. unfold priority_geb. by rewrite Z.leb_le.
  - intros z. apply sorted_same_priority.
  - intros ->. apply elem_of_py_sorted, list_elem_of_In, List.filter_In. split; [|done]. simpl. auto.
Qed.

Lemma active_profiles_exact_witness :
  GENERIC_PROFILE ∈ active_profiles_for_node [] None.
Proof. pose proof (active_profiles_exact [] None) as (_ & _ & _ & H). exact (H eq_refl). Defined.
End Profiles.
