(* ===== verification/Mapper.v ===== *)
(** The classification of references and the mapping of one node ([model/mapper.py]). *)

From S2P Require Export Profiles.

Module Mapper.
Export Profiles.

(** ** Names and ids the classification knows *)

Definition HIERARCHY_REFERENCE_NAMES := ["organizes"; "haschild"; "hierarchicalreferences"].
Definition COMPOSITION_REFERENCE_NAMES := ["hascomponent"; "hasorderedcomponent"; "hasproperty"; "propertyof"].
Definition TYPE_META_REFERENCE_NAMES := ["hastypedefinition"; "hassubtype"].
Definition GRAPH_REFERENCE_NAMES := ["nonhierarchicalreferences"].
Definition HIERARCHY_REFERENCE_NODE_IDS := ["i35"; "i33"].
Definition COMPOSITION_REFERENCE_NODE_IDS := ["i47"; "i48"; "i46"].
Definition TYPE_META_REFERENCE_NODE_IDS := ["i40"; "i45"].
Definition GRAPH_REFERENCE_NODE_IDS := ["i31"; "i32"].

(** ** Classification *)

Definition classify_hierarchical_family (tokens : list string) (target_node_class : option string) : ReferenceClass :=
  let target_is_variable := bool_decide (target_node_class = Some "Variable") in
  let has_property_lineage := meets tokens ["hasproperty"; "propertyof"; "i46"] in
  let has_component_lineage := meets tokens ["hascomponent"; "hasorderedcomponent"; "i47"; "i48"] in
  if has_property_lineage then composition
  else if has_component_lineage then
    if (bool_decide (is_Some target_node_class) && negb target_is_variable)%bool then hierarchy else composition
  else hierarchy.

Fixpoint reference_class_from_profile_rules (tokens : list string) (profiles : list SemanticProfile)
    (target_node_class : option string) : option ReferenceClass :=
  match profiles with
  | [] => None
  | profile :: profiles' =>
      let hierarchy_tokens := map (fun s => token s) (hierarchy_references profile) in
      let composition_tokens := map (fun s => token s) (composition_references profile) in
      let graph_tokens := map (fun s => token s) (graph_references profile) in
      if meets tokens graph_tokens then Some graph
      else if (meets tokens hierarchy_tokens || meets tokens composition_tokens)%bool
      then Some (classify_hierarchical_family tokens target_node_class)
      else reference_class_from_profile_rules tokens profiles' target_node_class
  end.

(** The normalised lineage of a reference type. *)
Definition lineage_tokens (reference_type_node_id reference_browse_name : option string)
    (supertype_browse_names : list string) : list string :=
  List.filter truthy
    (normalize_token reference_type_node_id :: normalize_token reference_browse_name ::
     map (fun s => token s) supertype_browse_names).

Definition nonhierarchical_root (tokens : list string) : bool := meets tokens (GRAPH_REFERENCE_NAMES ++ ["i32"]).
Definition hierarchical_root (tokens : list string) : bool := meets tokens (HIERARCHY_REFERENCE_NAMES ++ ["i33"]).

Definition classify_tokens (tokens : list string) (target_node_class : option string) : ReferenceClass :=
  if meets tokens TYPE_META_REFERENCE_NAMES then type_meta
  else if meets tokens TYPE_META_REFERENCE_NODE_IDS then type_meta
  else if nonhierarchical_root tokens then graph
  else if hierarchical_root tokens then classify_hierarchical_family tokens target_node_class
  else if meets tokens TYPE_META_REFERENCE_NAMES then type_meta
  else if meets tokens COMPOSITION_REFERENCE_NAMES then classify_hierarchical_family tokens target_node_class
  else if meets tokens COMPOSITION_REFERENCE_NODE_IDS then classify_hierarchical_family tokens target_node_class
  else if meets tokens HIERARCHY_REFERENCE_NAMES then hierarchy
  else if meets tokens HIERARCHY_REFERENCE_NODE_IDS then hierarchy
  else if meets tokens GRAPH_REFERENCE_NAMES then graph
  else if meets tokens GRAPH_REFERENCE_NODE_IDS then graph
  else graph.

Definition classify_opcua_reference (reference_type_node_id reference_browse_name : option string)
    (supertype_browse_names : list string) (target_node_class : option string) : ReferenceClass :=
  classify_tokens (lineage_tokens reference_type_node_id reference_browse_name supertype_browse_names) target_node_class.

Definition class_confidence (c : ReferenceClass) : ReferenceClass * MappingConfidence :=
  (c, if bool_decide (c = composition) then conf_medium else conf_high).

Definition classify_opcua_reference_with_confidence (reference_type_node_id reference_browse_name : option string)
    (supertype_browse_names : list string) (target_node_class : option string) (profiles : list SemanticProfile)
    : ReferenceClass * MappingConfidence :=
  let tokens := lineage_tokens reference_type_node_id reference_browse_name supertype_browse_names in
  let base := classify_opcua_reference reference_type_node_id reference_browse_name supertype_browse_names target_node_class in
  if (nonhierarchical_root tokens && hierarchical_root tokens)%bool then class_confidence base
  else match reference_class_from_profile_rules tokens profiles target_node_class with
       | Some profile_class => class_confidence profile_class
       | None => class_confidence base
       end.

(** ** One node *)

Definition infer_kind (node : OpcUaNodeInfo) : NodeKind :=
  if ni_event_notifier node then eventSource
  else if bool_decide (ni_node_class node = "Object") then asset
  else if bool_decide (ni_node_class node = "Variable") then property
  else if bool_decide (ni_node_class node = "Method") then action
  else asset.

Definition map_type (node : OpcUaNodeInfo) (kind : NodeKind) : option string :=
  match kind with property => ni_data_type node | _ => None end.

Section Hashed.
(** [hashlib.sha1(s.encode()).hexdigest()]. *)
Context (sha1_hex : string -> string).

Definition stable_i3x_id (node_id : string) (kind : NodeKind) : string :=
  kind_str kind +:+ "-" +:+ of_chars (take 16 (chars (sha1_hex node_id))).

Definition map_node (node : OpcUaNodeInfo) (children : list string) (element_id parent_id : option string)
    (is_composition : bool) (role : SemanticRole) (mapping_confidence : MappingConfidence)
    (relationships : dict string (list string)) (metadata : dict string meta_value) : ModelNode :=
  let kind := infer_kind node in
  {| n_id := if truthy_opt element_id then default ε element_id else stable_i3x_id (ni_node_id node) kind;
     n_name := or_str (ni_display_name node) (ni_browse_name node);
     n_kind := kind;
     n_type := map_type node kind;
     n_children := children;
     n_source_node_id := ni_node_id node;
     n_source_type_id := ni_type_definition_id node;
     n_parent_id := parent_id;
     n_is_composition := is_composition;
     n_semantic_role := role;
     n_mapping_confidence := mapping_confidence;
     n_relationships := relationships;
     n_metadata := metadata |}.
End Hashed.

(** ** Lemmas *)

Lemma meets_spec a b : meets a b = true <-> exists t, t ∈ a /\ t ∈ b.
Proof.
  unfold meets. rewrite List.existsb_exists. setoid_rewrite mem_spec.
  setoid_rewrite <-list_elem_of_In. done.
Qed.

Lemma meets_ext a a' b : (forall t, t ∈ a <-> t ∈ a') -> meets a b = meets a' b.
Proof. intros Ha. apply eq_true_iff_eq. rewrite !meets_spec. by setoid_rewrite Ha. Qed.

Lemma meets_false a b : meets a b = false <-> forall t, t ∈ a -> t ∉ b.
Proof. rewrite <-not_true_iff_false, meets_spec. naive_solver. Qed.

(** The classification of a lineage reads it as a set. *)
Lemma classify_hierarchical_family_ext a a' c :
  (forall t, t ∈ a <-> t ∈ a') -> classify_hierarchical_family a c = classify_hierarchical_family a' c.
Proof. intros Ha. unfold classify_hierarchical_family. by rewrite !(meets_ext a a'). Qed.

Lemma classify_tokens_ext a a' c : (forall t, t ∈ a <-> t ∈ a') -> classify_tokens a c = classify_tokens a' c.
Proof.
  intros Ha. unfold classify_tokens, nonhierarchical_root, hierarchical_root.
  by rewrite !(meets_ext a a'), (classify_hierarchical_family_ext a a').
Qed.

Lemma profile_rules_ext a a' ps c :
  (forall t, t ∈ a <-> t ∈ a') -> reference_class_from_profile_rules a ps c = reference_class_from_profile_rules a' ps c.
Proof.
  intros Ha. induction ps as [|p ps IH]; simpl; [done|].
  by rewrite !(meets_ext a a'), (classify_hierarchical_family_ext a a'), IH.
Qed.

(** Under the generic profile, which applies to every node, a reference is classified as by the
    built-in rules alone, for every lineage that names no type-level reference, none of the two
    event references the profile adds, and the non-hierarchical root by its name. *)
Theorem generic_profile_agrees id name supers target :
  let tokens := lineage_tokens id name supers in
  meets tokens ["hastypedefinition"; "hassubtype"; "i40"; "i45"; "generatesevent"; "haseventsource"; "i32"] = false ->
  classify_opcua_reference_with_confidence id name supers target [GENERIC_PROFILE] =
  class_confidence (classify_opcua_reference id name supers target).
Proof.
  cbv zeta. unfold classify_opcua_reference_with_confidence, classify_opcua_reference.
  set (T := lineage_tokens id name supers). intros Hno. rewrite meets_false in Hno.
  destruct (_ && _)%bool eqn:Hroots; [done|]. cbn [reference_class_from_profile_rules].
  change (map (fun s => token s) (graph_references GENERIC_PROFILE)) with ["nonhierarchicalreferences"; "generatesevent"; "haseventsource"].
  change (map (fun s => token s) (hierarchy_references GENERIC_PROFILE)) with HIERARCHY_REFERENCE_NAMES.
  change (map (fun s => token s) (composition_references GENERIC_PROFILE)) with COMPOSITION_REFERENCE_NAMES.
  assert (forall l, (forall t, t ∈ l -> t ∈ ["hastypedefinition"; "hassubtype"; "i40"; "i45"; "generatesevent"; "haseventsource"; "i32"]) ->
            meets T l = false) as Hout.
  { intros l Hl. apply meets_false. intros t Ht Htl. exact (Hno t Ht (Hl t Htl)). }
  assert (meets T ["nonhierarchicalreferences"; "generatesevent"; "haseventsource"] = nonhierarchical_root T) as ->.
  { apply eq_true_iff_eq. unfold nonhierarchical_root. rewrite !meets_spec.
    split; intros (t & Ht & Hin); exists t; (split; [done|]); specialize (Hno t Ht); set_solver. }
  unfold classify_tokens. rewrite (Hout TYPE_META_REFERENCE_NAMES), (Hout TYPE_META_REFERENCE_NODE_IDS) by set_solver.
  destruct (nonhierarchical_root T); [done|]. unfold hierarchical_root.
  destruct (meets T HIERARCHY_REFERENCE_NAMES) eqn:Hh.
  - assert (meets T (HIERARCHY_REFERENCE_NAMES ++ ["i33"]) = true) as ->; [|done].
    apply meets_spec in Hh as (t & Ht & Hin). apply meets_spec. exists t. set_solver.
  - destruct (meets T COMPOSITION_REFERENCE_NAMES) eqn:Hc; [|done]. cbn [orb].
    by destruct (meets T (HIERARCHY_REFERENCE_NAMES ++ ["i33"])%list).
Qed.

Lemma generic_profile_agrees_witness :
  classify_opcua_reference_with_confidence (Some "ns=2;i=9999") (Some "VendorComposedBy") ["Aggregates"; "HasComponent"] (Some "Object") [GENERIC_PROFILE] =
  class_confidence (classify_opcua_reference (Some "ns=2;i=9999") (Some "VendorComposedBy") ["Aggregates"; "HasComponent"] (Some "Object")).
Proof.
  pose proof (generic_profile_agrees (Some "ns=2;i=9999") (Some "VendorComposedBy") ["Aggregates"; "HasComponent"] (Some "Object")
    ltac:(vm_compute; reflexivity)) as H. exact H.
Defined.

(** The profile rules hide the type-level classes: the built-in rules classify HasTypeDefinition
    and HasSubtype as type metadata, but once the supertypes of the reference are resolved the
    built-in profiles turn them into a graph and a hierarchy relationship. *)
Theorem type_level_references_reclassified target :
  let type_definition := classify_opcua_reference_with_confidence (Some "i=40") (Some "HasTypeDefinition")
    ["NonHierarchicalReferences"; "References"] target in
  let subtype := classify_opcua_reference_with_confidence (Some "i=45") (Some "HasSubtype")
    ["HasChild"; "HierarchicalReferences"; "References"] target in
  type_definition [] = (type_meta, conf_high) /\ type_definition load_default_profiles = (graph, conf_high) /\
  subtype [] = (type_meta, conf_high) /\ subtype load_default_profiles = (hierarchy, conf_high).
Proof. vm_compute. auto. Qed.
End Mapper.
