(* ===== verification/Builder.v ===== *)
(** The construction of the i3X model from a browsed address space ([model/builder.py]).

    The client is a record of its answers: browsing, namespaces, reference supertypes and type
    hierarchies. A Python set that is only iterated to fill a dictionary is a list without
    repetitions. Timing, logging and the revision hash are left out. *)

From S2P Require Export Mapper.

Module Builder.
Import NodeIds Mapper.

(** ** What the client answers *)

(** [None] is a client without the method, [Err] a call that raised. *)
Record OpcUaClient := {
  browse_tree : list OpcUaNodeInfo;
  get_namespace_infos : option (outcome unit (list OpcUaNamespaceInfo));
  resolve_reference_type_supertype_browse_names : option (string -> outcome unit (list string));
  resolve_type_definition_hierarchies : option (list string -> outcome unit (dict string (list OpcUaTypeDefinitionInfo)));
  resolve_type_definition_hierarchy : option (string -> outcome unit (list OpcUaTypeDefinitionInfo));
}.

(** What [build] knows before it maps the nodes. *)
Record Browsed := {
  by_source_node : dict string OpcUaNodeInfo;
  namespace_infos : list OpcUaNamespaceInfo;
  uri_by_index : dict Z string;
  child_sources_by_parent : dict string (list string);
  reference_supertypes_by_id : dict string (list string);
  type_definition_hierarchy_by_id : dict string (list OpcUaTypeDefinitionInfo);
}.

(** The [ValueError]s of [build]. *)
Inductive build_error :=
  | unresolved_reference_namespace (reference_type_id : string)
  | ambiguous_relationship_id (relationship_id : string).

Definition ok_or {E A} (x : A) (m : outcome E A) : A := match m with Ok a => a | Err _ => x end.

Definition index_namespaces (infos : list OpcUaNamespaceInfo) : dict Z string :=
  dict_of_list (List.filter (fun p => truthy p.2) (imap (fun i info => (Z.of_nat i, nsi_uri info)) infos)).

Definition index_children (nodes : list OpcUaNodeInfo) : dict string (list string) :=
  fold_left (fun acc node =>
    match ni_parent_node_id node with
    | Some parent => dict_push parent (ni_node_id node) acc
    | None => acc
    end) nodes ∅.

Definition reference_type_ids (nodes : list OpcUaNodeInfo) : list string :=
  remove_dups (List.filter truthy (List.concat (map (fun n => map ri_reference_type_id (ni_outgoing_references n)) nodes))).

Definition resolve_supertypes (client : OpcUaClient) (nodes : list OpcUaNodeInfo) : dict string (list string) :=
  match resolve_reference_type_supertype_browse_names client with
  | None => ∅
  | Some resolve =>
      fold_left (fun acc id => match resolve id with Ok names => <[id := names]> acc | Err _ => acc end)
        (reference_type_ids nodes) ∅
  end.

Definition type_definition_ids (nodes : list OpcUaNodeInfo) : list string :=
  remove_dups (omap (fun n => if truthy_opt (ni_type_definition_id n) then ni_type_definition_id n else None) nodes).

(** One type: from the batch answer if there is one, else from a call of its own. *)
Definition resolved_hierarchy (client : OpcUaClient) (batch : option (dict string (list OpcUaTypeDefinitionInfo)))
    (id : string) : option (list OpcUaTypeDefinitionInfo) :=
  match batch with
  | Some hierarchies => hierarchies !! id
  | None => resolve ← resolve_type_definition_hierarchy client; ok_or None (Some <$> resolve id)
  end.

Definition with_namespace (uris : dict Z string) (t : OpcUaTypeDefinitionInfo) : OpcUaTypeDefinitionInfo :=
  {| ti_node_id := ti_node_id t; ti_browse_name := ti_browse_name t;
     ti_namespace_uri := or_opt (ti_namespace_uri t) (resolve_namespace_uri (ti_node_id t) uris) |}.

Definition resolve_types (client : OpcUaClient) (nodes : list OpcUaNodeInfo) (uris : dict Z string)
    : dict string (list OpcUaTypeDefinitionInfo) :=
  let ids := type_definition_ids nodes in
  let batch := resolve ← resolve_type_definition_hierarchies client; ok_or None (Some <$> resolve (py_sorted string_leb ids)) in
  fold_left (fun acc id =>
    match resolved_hierarchy client batch id with
    | Some types => <[id := map (with_namespace uris) types]> acc
    | None => acc
    end) ids ∅.

Definition gather (client : OpcUaClient) : Browsed :=
  let nodes := browse_tree client in
  let infos := match get_namespace_infos client with Some answer => ok_or [] answer | None => [] end in
  let uris := index_namespaces infos in
  {| by_source_node := dict_of_list (map (fun n => (ni_node_id n, n)) nodes);
     namespace_infos := infos;
     uri_by_index := uris;
     child_sources_by_parent := index_children nodes;
     reference_supertypes_by_id := resolve_supertypes client nodes;
     type_definition_hierarchy_by_id := resolve_types client nodes uris |}.

(** ** Edges *)

Definition kind_for_node (node : OpcUaNodeInfo) : NodeKind :=
  if ni_event_notifier node then eventSource
  else if bool_decide (ni_node_class node = "Variable") then property
  else if bool_decide (ni_node_class node = "Method") then action
  else asset.

Definition hierarchy_relationship_priority (reference_name : string) : Z :=
  let normalized := strip (lower reference_name) in
  if bool_decide (normalized = "organizes") then 0
  else if bool_decide (normalized = "hascomponent") then 1
  else if bool_decide (normalized = "hasorderedcomponent") then 2
  else 99.

(** A classified reference of a node to another browsed node. *)
Record Edge := {
  e_source : string;
  e_parent_id : string;
  e_child_id : string;
  e_type : option string;
  e_name : string;
  e_class : ReferenceClass;
}.

(** Priority, source node and name of a reference that could make its source the parent. *)
Definition Candidate : Type := Z * string * string.

(** What one pass over the references collects. *)
Record Tables := {
  hierarchy_candidates : dict string (list Candidate);
  composition_candidates : dict string (list Candidate);
  graph_related_by_source : dict string (list (string * string * string));
  graph_namespaces_by_name : dict string (list string);
}.

Definition no_tables : Tables :=
  {| hierarchy_candidates := ∅; composition_candidates := ∅; graph_related_by_source := ∅; graph_namespaces_by_name := ∅ |}.

Definition I3X_NAMESPACE : string := "https://cesmii.org/i3x".

(** [s.add(x)]. *)
Definition set_add (x : string) (l : list string) : list string := if mem x l then l else l ++ [x].

Definition add_name (name namespace : string) (names : dict string (list string)) : dict string (list string) :=
  <[name := set_add namespace (default [] (names !! name))]> names.

Section Build.
(** [hashlib.sha1(...).hexdigest()], and what was browsed. *)
Context (sha1_hex : string -> string) (b : Browsed).

Definition identity_node_id (node : OpcUaNodeInfo) : string := expanded_node_id (ni_node_id node) (namespace_infos b).
Definition element_id (node : OpcUaNodeInfo) : string := stable_i3x_id sha1_hex (identity_node_id node) (kind_for_node node).

Definition types_of (node : OpcUaNodeInfo) : list OpcUaTypeDefinitionInfo :=
  default [] (type_definition_hierarchy_by_id b !! default ε (ni_type_definition_id node)).

Definition active_profiles (node : OpcUaNodeInfo) : list SemanticProfile := active_profiles_for_node (types_of node) None.

Definition child_sources (source_id : string) : list (string * OpcUaNodeInfo) :=
  omap (fun child => node ← by_source_node b !! child; Some (child, node))
    (default [] (child_sources_by_parent b !! source_id)).

(** Target, reference type and browse name; without references, one to each child. *)
Definition reference_entries (source_id : string) (node : OpcUaNodeInfo)
    : list (string * OpcUaNodeInfo * option string * string) :=
  match ni_outgoing_references node with
  | [] => map (fun '(child, child_node) =>
            (child, child_node, None, if bool_decide (ni_node_class child_node = "Variable") then "HasProperty" else "Organizes"))
            (child_sources source_id)
  | refs => omap (fun ref =>
              target ← by_source_node b !! ri_target_node_id ref;
              Some (ri_target_node_id ref, target, Some (ri_reference_type_id ref), ri_reference_browse_name ref)) refs
  end.

(** One entry per target and reference type: the first. *)
Fixpoint first_entries {A} (seen : list (string * option string)) (l : list (string * A * option string * string))
    : list (string * A * option string * string) :=
  match l with
  | [] => []
  | ((target, node), type_id, name) as entry :: l' =>
      if bool_decide ((target, type_id) ∈ seen) then first_entries seen l'
      else entry :: first_entries ((target, type_id) :: seen) l'
  end.

Definition edge_of (source_id : string) (node : OpcUaNodeInfo)
    (entry : string * OpcUaNodeInfo * option string * string) : Edge :=
  let '(target_source_id, child_node, reference_type_id, reference_browse_name) := entry in
  let relationship_class := (classify_opcua_reference_with_confidence reference_type_id (Some reference_browse_name)
    (match reference_type_id with
     | Some id => default [] (reference_supertypes_by_id b !! id)
     | None => []
     end)
    (Some (ni_node_class child_node)) (active_profiles node)).1 in
  let forced := forced_relationship_class_for_node child_node (Some (active_profiles child_node)) (types_of child_node) in
  {| e_source := source_id; e_parent_id := element_id node; e_child_id := element_id child_node;
     e_type := reference_type_id;
     e_name := or_str reference_browse_name
       (if bool_decide (ni_node_class child_node = "Variable") then "HasProperty" else "Organizes");
     e_class := default relationship_class forced |}.

Definition edges_of (source_id : string) (node : OpcUaNodeInfo) : list Edge :=
  map (edge_of source_id node) (first_entries [] (reference_entries source_id node)).

Definition reference_namespace (reference_type_id : option string) : outcome build_error string :=
  match reference_type_id with
  | None => Ok I3X_NAMESPACE
  | Some id =>
      match namespace_uri_from_expanded_node_id (expanded_node_id id (namespace_infos b)) with
      | Some uri => Ok uri
      | None => Err (unresolved_reference_namespace id)
      end
  end.

Definition candidate_of (e : Edge) : Candidate := (hierarchy_relationship_priority (e_name e), e_source e, e_name e).

Definition record_edge (t : Tables) (e : Edge) : outcome build_error Tables :=
  match e_class e with
  | hierarchy =>
      Ok {| hierarchy_candidates := dict_push (e_child_id e) (candidate_of e) (hierarchy_candidates t);
            composition_candidates := composition_candidates t;
            graph_related_by_source := graph_related_by_source t;
            graph_namespaces_by_name := graph_namespaces_by_name t |}
  | composition =>
      Ok {| hierarchy_candidates := hierarchy_candidates t;
            composition_candidates := dict_push (e_child_id e) (candidate_of e) (composition_candidates t);
            graph_related_by_source := graph_related_by_source t;
            graph_namespaces_by_name := graph_namespaces_by_name t |}
  | _ =>
      namespace ← reference_namespace (e_type e);
      Ok {| hierarchy_candidates := hierarchy_candidates t;
            composition_candidates := composition_candidates t;
            graph_related_by_source := dict_push (e_source e) (e_name e, namespace, e_child_id e) (graph_related_by_source t);
            graph_namespaces_by_name := add_name (e_name e) namespace (graph_namespaces_by_name t) |}
  end.

(** A loop whose body may raise. *)
Fixpoint foldM {E A B} (f : B -> A -> outcome E B) (l : list A) (acc : B) : outcome E B :=
  match l with
  | [] => Ok acc
  | x :: l' => acc' ← f acc x; foldM f l' acc'
  end.

Definition collect_tables : outcome build_error Tables :=
  foldM (fun t '(source_id, node) => foldM record_edge (edges_of source_id node) t) (dict_items (by_source_node b)) no_tables.

(** ** Parents *)

Definition candidate_leb (x y : Candidate) : bool :=
  let '(p, s, n) := x in let '(p', s', n') := y in
  if p =? p' then (if bool_decide (s = s') then string_leb n n' else string_leb s s') else p <=? p'.

(** [sorted(candidates, key=...)[0]]. *)
Definition select (candidates : list Candidate) : option Candidate := head (py_sorted candidate_leb candidates).

Definition mapped_id_by_source : dict string string := dict_map element_id (by_source_node b).

(** [mapped_id_by_source[source_id]] for the source of a candidate, which was browsed. *)
Definition mapped_id (source_id : string) : string := default ε (mapped_id_by_source !! source_id).

Record Parents := {
  hierarchy_parent : dict string string;
  composition_parent : dict string string;
  hierarchy_children : dict string (list string);
  composition_children : dict string (list string);
  graph_entries : dict string (list (string * string * string));
  parent_source : dict string string;
  relationship_namespaces : dict string (list string);
}.

Definition initial_parents (t : Tables) : Parents :=
  let nothing := dict_of_list (map (fun p => (p.2, [])) (dict_items mapped_id_by_source)) in
  {| hierarchy_parent := ∅; composition_parent := ∅; hierarchy_children := nothing; composition_children := nothing;
     graph_entries := dict_of_list (map (fun p => (p.2, default [] (graph_related_by_source t !! p.1))) (dict_items mapped_id_by_source));
     parent_source := ∅; relationship_namespaces := graph_namespaces_by_name t |}.

(** The candidates that lost: graph relationships of the child. *)
Definition organized_by (child : string) (selected : Candidate) (p : Parents) (c : Candidate) : Parents :=
  let '(priority, source, _) := c in
  let '(selected_priority, selected_source, _) := selected in
  if bool_decide (source = selected_source /\ priority = selected_priority) then p
  else {| hierarchy_parent := hierarchy_parent p; composition_parent := composition_parent p;
          hierarchy_children := hierarchy_children p; composition_children := composition_children p;
          graph_entries := dict_push child ("OrganizedBy", I3X_NAMESPACE, mapped_id source) (graph_entries p);
          parent_source := parent_source p;
          relationship_namespaces := add_name "OrganizedBy" I3X_NAMESPACE (relationship_namespaces p) |}.

Definition select_hierarchy_parent (p : Parents) (entry : string * list Candidate) : Parents :=
  let '(child, candidates) := entry in
  match select candidates with
  | None => p
  | Some ((_, source, _) as selected) =>
      let p' := {| hierarchy_parent := <[child := mapped_id source]> (hierarchy_parent p);
                   composition_parent := composition_parent p;
                   hierarchy_children := dict_push (mapped_id source) child (hierarchy_children p);
                   composition_children := composition_children p;
                   graph_entries := graph_entries p;
                   parent_source := <[child := source]> (parent_source p);
                   relationship_namespaces := relationship_namespaces p |} in
      if Nat.ltb 1 (length candidates) then fold_left (organized_by child selected) candidates p' else p'
  end.

Definition select_composition_parent (p : Parents) (entry : string * list Candidate) : Parents :=
  let '(child, candidates) := entry in
  match select candidates with
  | None => p
  | Some (_, source, _) =>
      {| hierarchy_parent := hierarchy_parent p;
         composition_parent := <[child := mapped_id source]> (composition_parent p);
         hierarchy_children := hierarchy_children p;
         composition_children := dict_push (mapped_id source) child (composition_children p);
         graph_entries := graph_entries p;
         parent_source := <[child := default source (parent_source p !! child)]> (parent_source p);
         relationship_namespaces := relationship_namespaces p |}
  end.

Definition select_parents (t : Tables) : Parents :=
  fold_left select_composition_parent (dict_items (composition_candidates t))
    (fold_left select_hierarchy_parent (dict_items (hierarchy_candidates t)) (initial_parents t)).
End Build.

(** ** Relationship ids *)

Record RelationshipIds := {
  id_of : dict (string * string) string;
  namespace_by_id : dict string string;
  display_name_by_id : dict string string;
}.

Definition no_ids : RelationshipIds := {| id_of := ∅; namespace_by_id := ∅; display_name_by_id := ∅ |}.

Definition qualify (name : string) (namespaces : list string) : bool :=
  (Nat.ltb 1 (length namespaces) || mem name ["HasParent"; "HasChildren"; "HasComponent"; "ComponentOf"] ||
   startswith "inverseOf_" name || str_in ":" name)%bool.

Definition assign_id (name : string) (qualified : bool) (ids : RelationshipIds) (namespace : string)
    : outcome build_error RelationshipIds :=
  let relationship_id := if qualified then namespace +:+ ":" +:+ name else name in
  if dict_mem relationship_id (namespace_by_id ids) then Err (ambiguous_relationship_id relationship_id)
  else Ok {| id_of := <[(name, namespace) := relationship_id]> (id_of ids);
             namespace_by_id := <[relationship_id := namespace]> (namespace_by_id ids);
             display_name_by_id := <[relationship_id := name]> (display_name_by_id ids) |}.

Definition assign_ids (names : dict string (list string)) : outcome build_error RelationshipIds :=
  foldM (fun ids '(name, namespaces) =>
      foldM (assign_id name (qualify name namespaces)) (py_sorted string_leb namespaces) ids)
    (py_sorted (fun x y => string_leb x.1 y.1) (dict_items names)) no_ids.

(** [graph_relationship_ids[(name, namespace_uri)]], which every entry has. *)
Definition relation_of (ids : RelationshipIds) (entry : string * string * string) : string * string :=
  let '(name, namespace, target) := entry in (default ε (id_of ids !! (name, namespace)), target).

(** ** Relationships *)

Abbreviation relationships := (dict string (dict string (list string))).

Definition append_relationship (r : relationships) (source relation target : string) : relationships :=
  let by_relationship := default ∅ (r !! source) in
  let targets := default [] (by_relationship !! relation) in
  <[source := <[relation := set_add target targets]> by_relationship]> r.

(** A relationship and its inverse. *)
Definition append_both (forward inverse : string) (r : relationships) (source target : string) : relationships :=
  append_relationship (append_relationship r source forward target) target inverse source.

Definition append_children (forward inverse : string) (r : relationships) (entry : string * list string) : relationships :=
  fold_left (fun r child => append_both forward inverse r entry.1 child) entry.2 r.

Definition append_graph (r : relationships) (entry : string * list (string * string)) : relationships :=
  fold_left (fun r '(relation, target) => append_both relation ("inverseOf_" +:+ relation) r entry.1 target) entry.2 r.

Definition build_relationships (sources : list string) (p : Parents) (graph_related : dict string (list (string * string)))
    : relationships :=
  let r0 := dict_of_list (map (fun id => (id, ∅)) sources) in
  let r1 := fold_left (append_children "HasChildren" "HasParent") (dict_items (hierarchy_children p)) r0 in
  let r2 := fold_left (append_children "HasComponent" "ComponentOf") (dict_items (composition_children p)) r1 in
  fold_left append_graph (dict_items graph_related) r2.

(** ** Nodes *)

(** The parts of the result that grow node by node. *)
Record Nodes := {
  s_nodes : dict string ModelNode;
  s_name : dict string string;
  s_type : dict string string;
  s_instances : dict string (list string);
  s_properties : dict string string;
  s_actions : dict string (string * string);
  s_roots : list string;
  s_roles : dict string SemanticRole;
  s_confidences : dict string MappingConfidence;
  s_profiles : dict string (list string);
  s_namespaces : dict string (option string);
  s_relationships : relationships;
}.

Definition no_nodes (r : relationships) : Nodes :=
  {| s_nodes := ∅; s_name := ∅; s_type := ∅; s_instances := ∅; s_properties := ∅; s_actions := ∅; s_roots := [];
     s_roles := ∅; s_confidences := ∅; s_profiles := ∅; s_namespaces := ∅; s_relationships := r |}.

Definition meta_if {A} (key : string) (f : A -> meta_value) (o : option A) : list (string * meta_value) :=
  match o with Some x => [(key, f x)] | None => [] end.

(** [user_access_level & 0x02]. *)
Definition writable (user_access_level : Z) : bool := negb (Z.land user_access_level 2 =? 0).

Definition node_metadata (node : OpcUaNodeInfo) (expanded : string) (namespace : option string) (profile_ids : list string)
    : dict string meta_value :=
  dict_of_list (
    [("uaNodeId", MStr (ni_node_id node)); ("expandedNodeId", MStr expanded);
     ("uaTypeNodeId", meta_of_opt (ni_type_definition_id node)); ("namespaceUri", meta_of_opt namespace);
     ("appliedProfileIds", MStrs profile_ids)] ++
    meta_if "description" MStr (ni_description node) ++
    meta_if "accessLevel" MInt (ni_access_level node) ++
    meta_if "userAccessLevel" MInt (ni_user_access_level node) ++
    meta_if "writable" (fun z => MBool (writable z)) (ni_user_access_level node) ++
    meta_if "executable" MBool (ni_executable node) ++
    meta_if "userExecutable" MBool (ni_user_executable node)).

Definition nonempty {A} (l : list A) : bool := match l with [] => false | _ => true end.

Section Result.
Context (sha1_hex : string -> string) (b : Browsed) (p : Parents) (graph_related : dict string (list (string * string))).

Definition resolved_parent (id : string) : option string :=
  match hierarchy_parent p !! id with
  | Some parent => Some parent
  | None => source ← parent_source p !! id; mapped_id_by_source sha1_hex b !! source
  end.

Definition relationship_plane (id : string) : option ReferenceClass :=
  if nonempty (default [] (composition_children p !! id)) then Some composition
  else if nonempty (default [] (hierarchy_children p !! id)) then Some hierarchy
  else if nonempty (default [] (graph_related !! id)) then Some graph
  else None.

Definition mapped_node (rels : relationships) (source_id : string) (node : OpcUaNodeInfo) : ModelNode :=
  let id := element_id sha1_hex b node in
  let active := active_profiles b node in
  let composed := nonempty (default [] (composition_children p !! id)) in
  let role := resolve_semantic_role node (Some active) (if composed then Some composition else None) (types_of b node) in
  let mapping_confidence := resolve_mapping_confidence node (Some active) (relationship_plane id)
    (has_profile_override_for_node node (Some active) (types_of b node)) in
  map_node sha1_hex node (map (fun c => element_id sha1_hex b c.2) (child_sources b source_id)) (Some id) (resolved_parent id)
    composed role mapping_confidence (default ∅ (rels !! id))
    (node_metadata node (identity_node_id b node) (resolve_namespace_uri (ni_node_id node) (uri_by_index b)) (map profile_id active)).

Definition add_node (st : Nodes) (entry : string * OpcUaNodeInfo) : Nodes :=
  let '(source_id, node) := entry in
  let mapped := mapped_node (s_relationships st) source_id node in
  let id := n_id mapped in
  {| s_nodes := <[id := mapped]> (s_nodes st);
     s_name := dict_setdefault (n_name mapped) id (s_name st);
     s_type := match n_type mapped with
               | Some t => if truthy t then dict_setdefault t id (s_type st) else s_type st
               | None => s_type st
               end;
     s_instances := match n_kind mapped, n_source_type_id mapped with
                    | (asset | eventSource), Some t => dict_push t id (s_instances st)
                    | _, _ => s_instances st
                    end;
     s_properties := match n_kind mapped with
                     | property => <[id := ni_node_id node]> (s_properties st)
                     | _ => s_properties st
                     end;
     s_actions := match n_kind mapped, ni_parent_node_id node with
                  | action, Some parent => <[id := (parent, ni_node_id node)]> (s_actions st)
                  | _, _ => s_actions st
                  end;
     s_roots := match resolved_parent (element_id sha1_hex b node) with None => s_roots st ++ [id] | Some _ => s_roots st end;
     s_roles := <[id := n_semantic_role mapped]> (s_roles st);
     s_confidences := <[id := n_mapping_confidence mapped]> (s_confidences st);
     s_profiles := <[id := map profile_id (active_profiles b node)]> (s_profiles st);
     s_namespaces := <[id := resolve_namespace_uri (ni_node_id node) (uri_by_index b)]> (s_namespaces st);
     s_relationships := <[id := n_relationships mapped]> (s_relationships st) |}.

(** The tables that find an element by the id of its node: as written, expanded and canonical. *)
Definition index_canonical (id : string) (node_id : string) (tables : dict string string * dict string string)
    : dict string string * dict string string :=
  match canonical_node_id node_id (uri_by_index b) with
  | Some c => if startswith "nsu=" c then (tables.1, dict_setdefault c id tables.2) else (dict_setdefault c id tables.1, tables.2)
  | None => tables
  end.

Definition index_node (tables : dict string string * dict string string) (node : ModelNode)
    : dict string string * dict string string :=
  let tables := match meta_str (n_metadata node !! "uaNodeId") with
                | Some ua => if truthy ua then index_canonical (n_id node) ua (dict_setdefault ua (n_id node) tables.1, tables.2) else tables
                | None => tables
                end in
  match meta_str (n_metadata node !! "expandedNodeId") with
  | Some expanded =>
      if truthy expanded then
        let by_expanded := dict_setdefault expanded (n_id node) tables.2 in
        (tables.1, match canonical_node_id expanded (uri_by_index b) with
                   | Some c => dict_setdefault c (n_id node) by_expanded
                   | None => by_expanded
                   end)
      else tables
  | None => tables
  end.

Definition build_result (ids : RelationshipIds) (st : Nodes) : BuildResult :=
  let tables := fold_left index_node (dict_values (s_nodes st)) (∅, ∅) in
  {| nodes_by_id := s_nodes st;
     root_ids := s_roots st;
     children_by_id := dict_map n_children (s_nodes st);
     instances_by_type_id := s_instances st;
     property_to_node := s_properties st;
     action_to_method := s_actions st;
     parent_by_id := hierarchy_parent p;
     node_id_by_name := s_name st;
     node_id_by_type := s_type st;
     hierarchy_children_by_id := hierarchy_children p;
     composition_children_by_id := composition_children p;
     graph_related_by_id := graph_related;
     relationships_by_id := s_relationships st;
     hierarchy_parent_by_id := hierarchy_parent p;
     composition_parent_by_id := composition_parent p;
     graph_relationship_names := list_to_set (dict_keys (namespace_by_id ids));
     graph_relationship_namespace_by_id := namespace_by_id ids;
     graph_relationship_display_name_by_id := display_name_by_id ids;
     semantic_role_by_id := s_roles st;
     mapping_confidence_by_id := s_confidences st;
     parent_id_by_id := dict_of_list (map (fun id => (id, resolved_parent id)) (dict_keys (s_nodes st)));
     applied_profile_ids_by_id := s_profiles st;
     namespace_uri_by_id := s_namespaces st;
     element_id_by_node_id := tables.1;
     element_id_by_expanded_node_id := tables.2;
     namespace_uri_by_index := uri_by_index b |}.
End Result.

(** ** The whole build *)

Definition build_browsed (sha1_hex : string -> string) (b : Browsed) : outcome build_error BuildResult :=
  t ← collect_tables sha1_hex b;
  let p := select_parents sha1_hex b t in
  ids ← assign_ids (relationship_namespaces p);
  let graph_related := dict_map (map (relation_of ids)) (graph_entries p) in
  let r := build_relationships (dict_values (mapped_id_by_source sha1_hex b)) p graph_related in
  Ok (build_result sha1_hex b p graph_related ids
        (fold_left (add_node sha1_hex b p graph_related) (dict_items (by_source_node b)) (no_nodes r))).

Definition build (sha1_hex : string -> string) (client : OpcUaClient) : outcome build_error BuildResult :=
  build_browsed sha1_hex (gather client).

(** ** An example *)

(** A stand-in for the digest: the text itself, without its namespace prefix. *)
Definition demo_hash (s : string) : string := of_chars (drop 4 (chars s)).

Definition demo_node (id : string) (parent : option string) (name class : string) (refs : list OpcUaReferenceInfo) : OpcUaNodeInfo :=
  {| ni_node_id := id; ni_parent_node_id := parent; ni_browse_name := name; ni_display_name := name; ni_node_class := class;
     ni_data_type := None; ni_type_definition_id := None; ni_event_notifier := false; ni_outgoing_references := refs;
     ni_description := None; ni_access_level := None; ni_user_access_level := None; ni_executable := None;
     ni_user_executable := None |}.

Definition demo_ref (target type name : string) : OpcUaReferenceInfo :=
  {| ri_target_node_id := target; ri_reference_type_id := type; ri_reference_browse_name := name |}.

Definition demo_infos : list OpcUaNamespaceInfo :=
  [Build_OpcUaNamespaceInfo UA_NAMESPACE ε None None; Build_OpcUaNamespaceInfo "urn:x" ε None None].

(** Two folders that share a machine with a value, and a graph reference from it. *)
Definition demo_client : OpcUaClient :=
  {| browse_tree :=
       [demo_node "ns=1;s=A" None "A" "Object" [demo_ref "ns=1;s=M" "i=35" "Organizes"];
        demo_node "ns=1;s=B" None "B" "Object" [demo_ref "ns=1;s=M" "i=47" "HasComponent"];
        demo_node "ns=1;s=M" (Some "ns=1;s=A") "M" "Object"
          [demo_ref "ns=1;s=T" "i=47" "HasComponent"; demo_ref "ns=1;s=B" "ns=1;i=9" "Feeds"];
        demo_node "ns=1;s=T" (Some "ns=1;s=M") "T" "Variable" []];
     get_namespace_infos := Some (Ok demo_infos);
     resolve_reference_type_supertype_browse_names := None;
     resolve_type_definition_hierarchies := None;
     resolve_type_definition_hierarchy := None |}.

Example build_demo :
  match build demo_hash demo_client with
  | Ok r =>
      hierarchy_parent_by_id r = Dict [("asset-urn:x;s=M", "asset-urn:x;s=A")] /\
      composition_parent_by_id r = Dict [("property-urn:x;s=T", "asset-urn:x;s=M")] /\
      root_ids r = ["asset-urn:x;s=A"; "asset-urn:x;s=B"] /\
      graph_related_by_id r !! "asset-urn:x;s=M" = Some [("Feeds", "asset-urn:x;s=B"); ("OrganizedBy", "asset-urn:x;s=B")] /\
      element_id_by_node_id r !! "ns=1;s=T" = Some "property-urn:x;s=T"
  | Err _ => False
  end.
Proof. vm_compute. split_and!; reflexivity. Qed.
End Builder.
