(* ===== verification/BuilderLemmas.v ===== *)
(** Lemmas on the construction of the model: what each stage of [Builder.v] computes, in terms of
    the classified edges between the browsed nodes. *)

From S2P Require Export Builder.

Module BuilderLemmas.
Import NodeIds Mapper Builder.

(** ** Lemmas: the edges *)

Section EdgeLemmas.
Context (sha1_hex : string -> string) (b : Browsed).

Definition all_edges : list Edge :=
  List.concat (map (fun '(source_id, node) => edges_of sha1_hex b source_id node) (dict_items (by_source_node b))).

Lemma foldM_app {E A B} (f : B -> A -> outcome E B) l l' acc :
  foldM f (l ++ l') acc = (acc' ← foldM f l acc; foldM f l' acc').
Proof. revert acc. induction l as [|x l IH]; intros acc; simpl; [done|]. destruct (f acc x); simpl; [apply IH|done]. Qed.

Lemma foldM_concat {E A B C} (f : B -> A -> outcome E B) (g : C -> list A) l acc :
  foldM (fun acc c => foldM f (g c) acc) l acc = foldM f (List.concat (map g l)) acc.
Proof.
  revert acc. induction l as [|c l IH]; intros acc; simpl; [done|]. rewrite foldM_app.
  destruct (foldM f (g c) acc); simpl; [apply IH|done].
Qed.

Lemma collect_tables_flat : collect_tables sha1_hex b = foldM (record_edge b) all_edges no_tables.
Proof.
  unfold collect_tables, all_edges.
  rewrite <-(foldM_concat (record_edge b) (fun '(source_id, node) => edges_of sha1_hex b source_id node)).
  generalize no_tables as t. induction (dict_items (by_source_node b)) as [|[s n] l IH]; intros t; simpl; [done|].
  destruct (foldM _ _ t); simpl; [apply IH|done].
Qed.

Definition edge_to (c : ReferenceClass) (child : string) (e : Edge) : bool :=
  (bool_decide (e_class e = c) && bool_decide (e_child_id e = child))%bool.

(** The entries of a dictionary of lists, absent ones being empty. *)
Abbreviation entries d k := (default [] (d !! k)).

Lemma entries_push {A} (d : dict string (list A)) k x k' :
  entries (dict_push k x d) k' = entries d k' ++ (if bool_decide (k = k') then [x] else []).
Proof.
  rewrite dict_lookup_push. case_bool_decide as E; [by subst|]. by rewrite app_nil_r.
Qed.

Lemma record_edge_hierarchy t e t' c :
  record_edge b t e = Ok t' ->
  entries (hierarchy_candidates t') c = entries (hierarchy_candidates t) c ++ map candidate_of (List.filter (edge_to hierarchy c) [e]) /\
  entries (composition_candidates t') c = entries (composition_candidates t) c ++ map candidate_of (List.filter (edge_to composition c) [e]).
Proof.
  unfold record_edge. intros H. simpl. unfold edge_to.
  destruct (e_class e) eqn:Ec; simpl in H;
    try (destruct (reference_namespace b (e_type e)); simpl in H; [|done]); injection H as <-; simpl;
    rewrite ?entries_push, ?app_nil_r; try done;
    split; try done; by case_bool_decide.
Qed.

Lemma record_edges_candidates es t t' c :
  foldM (record_edge b) es t = Ok t' ->
  entries (hierarchy_candidates t') c = entries (hierarchy_candidates t) c ++ map candidate_of (List.filter (edge_to hierarchy c) es) /\
  entries (composition_candidates t') c = entries (composition_candidates t) c ++ map candidate_of (List.filter (edge_to composition c) es).
Proof.
  revert t. induction es as [|e es IH]; intros t; simpl.
  - intros [= <-]. by rewrite !app_nil_r.
  - destruct (record_edge b t e) as [t1|] eqn:E; simpl; [|done]. intros [-> ->]%IH.
    destruct (record_edge_hierarchy _ _ _ c E) as [-> ->]. rewrite <-!app_assoc. simpl.
    by destruct (edge_to hierarchy c e), (edge_to composition c e).
Qed.

(** Every entry of the candidate tables has a candidate, and no key occurs twice. *)
Definition filled {A} (d : dict string (list A)) : Prop := dict_wf d /\ forall k l, d !! k = Some l -> l ≠ [].

Lemma filled_push {A} k (x : A) d : filled d -> filled (dict_push k x d).
Proof.
  intros [Hw Hf]. split; [by apply dict_wf_insert|]. intros k' l. rewrite dict_lookup_push.
  case_bool_decide; [intros [= <-]; by destruct (default [] _)|]. apply Hf.
Qed.

Lemma record_edges_filled es t t' :
  foldM (record_edge b) es t = Ok t' ->
  filled (hierarchy_candidates t) /\ filled (composition_candidates t) ->
  filled (hierarchy_candidates t') /\ filled (composition_candidates t').
Proof.
  revert t. induction es as [|e es IH]; intros t; simpl; [by intros [= <-]|].
  destruct (record_edge b t e) as [t1|] eqn:E; simpl; [|done]. intros Hes [Hh Hc]. apply (IH _ Hes).
  unfold record_edge in E. destruct (e_class e); simpl in E;
    try (destruct (reference_namespace b (e_type e)); simpl in E; [|done]); injection E as <-; simpl; auto using filled_push.
Qed.

Lemma collect_tables_spec t :
  collect_tables sha1_hex b = Ok t ->
  filled (hierarchy_candidates t) /\ filled (composition_candidates t) /\
  (forall c, entries (hierarchy_candidates t) c = map candidate_of (List.filter (edge_to hierarchy c) all_edges)) /\
  (forall c, entries (composition_candidates t) c = map candidate_of (List.filter (edge_to composition c) all_edges)).
Proof.
  rewrite collect_tables_flat. intros H.
  destruct (record_edges_filled _ _ _ H) as [Hh Hc].
  { split; (split; [apply dict_wf_empty|done]). }
  split_and!; [done|done|..]; intros c; apply (record_edges_candidates _ _ _ c H).
Qed.

Lemma all_edges_elem e :
  e ∈ all_edges -> exists s n, (s, n) ∈ dict_items (by_source_node b) /\ e ∈ edges_of sha1_hex b s n.
Proof.
  unfold all_edges. rewrite list_elem_of_In, List.in_concat. intros (l & Hl & He).
  apply List.in_map_iff in Hl as ([s n] & <- & Hin). exists s, n. by rewrite !list_elem_of_In.
Qed.
End EdgeLemmas.

(** ** Lemmas: the selection of parents *)

(** Both selections are folds of the same form over candidates with distinct children. *)
Section Selection.
Context {S V : Type} (f : S -> string * list Candidate -> S) (get : S -> dict string V) (chosen : list Candidate -> option V).

Definition choose (l : list (string * list Candidate)) (c : string) : option V := items_lookup c l ≫= chosen.

Lemma fold_parent l p c :
  (forall p c cs c', get (f p (c, cs)) !! c' =
     match chosen cs with
     | Some v => if bool_decide (c = c') then Some v else get p !! c'
     | None => get p !! c'
     end) ->
  NoDup l.*1 ->
  get (fold_left f l p) !! c = match choose l c with Some v => Some v | None => get p !! c end.
Proof.
  intros Hstep. revert p. induction l as [|[c0 cs] l IH]; intros p Hnd; [done|].
  cbn in Hnd. apply NoDup_cons in Hnd as [Hc0 Hnd]. cbn [fold_left]. rewrite IH by done.
  unfold choose in *. cbn [items_lookup]. rewrite Hstep. case_bool_decide as E.
  - subst c0. assert (items_lookup c l = None) as ->.
    { destruct (items_lookup c l) eqn:E; [|done]. exfalso. apply Hc0, items_lookup_elem. by eexists. }
    simpl. by destruct (chosen cs).
  - by destruct (items_lookup c l ≫= chosen), (chosen cs).
Qed.
End Selection.

Section Children.
Context {S : Type} (f : S -> string * list Candidate -> S) (get : S -> dict string (list string)) (chosen : list Candidate -> option string).

Definition chosen_children (l : list (string * list Candidate)) (parent : string) : list string :=
  omap (fun x => if bool_decide (chosen x.2 = Some parent) then Some x.1 else None) l.

Lemma fold_children l p parent :
  (forall p c cs, default [] (get (f p (c, cs)) !! parent) =
     default [] (get p !! parent) ++ (if bool_decide (chosen cs = Some parent) then [c] else [])) ->
  default [] (get (fold_left f l p) !! parent) = default [] (get p !! parent) ++ chosen_children l parent.
Proof.
  intros Hstep. revert p. induction l as [|[c0 cs] l IH]; intros p; cbn [fold_left]; [by rewrite app_nil_r|].
  rewrite IH, Hstep, <-app_assoc. unfold chosen_children. cbn. by destruct (bool_decide _).
Qed.

Lemma elem_of_chosen_children l parent c :
  NoDup l.*1 -> c ∈ chosen_children l parent <-> choose chosen l c = Some parent.
Proof.
  intros Hnd. unfold chosen_children, choose. rewrite list_elem_of_omap. split.
  - intros ([c0 cs] & Hin & Hc). cbn in Hc. case_bool_decide as E; [|done]. injection Hc as ->.
    pose proof (dict_items_lookup (Dict l) c cs Hnd Hin) as Hl. unfold lookup, dict_lookup in Hl. cbn in Hl. by rewrite Hl.
  - destruct (items_lookup c l) as [cs|] eqn:E; [|done]. cbn. intros Hc. exists (c, cs).
    split; [by apply items_lookup_Some_elem|]. cbn. by rewrite bool_decide_true.
Qed.

Lemma NoDup_chosen_children l parent : NoDup l.*1 -> NoDup (chosen_children l parent).
Proof.
  intros Hnd. unfold chosen_children. induction l as [|[c cs] l IH]; [constructor|]. cbn in *.
  apply NoDup_cons in Hnd as [Hc Hnd]. specialize (IH Hnd). case_bool_decide; [|done]. constructor; [|done].
  intros ([c' cs'] & Hin & E)%list_elem_of_omap. cbn in E. case_bool_decide; [|done]. injection E as ->.
  apply Hc. apply list_elem_of_fmap. by exists (c, cs').
Qed.
End Children.

Section ParentLemmas.
Context (sha1_hex : string -> string) (b : Browsed).

Lemma organized_by_keeps child sel l p :
  let p' := fold_left (organized_by sha1_hex b child sel) l p in
  hierarchy_parent p' = hierarchy_parent p /\ composition_parent p' = composition_parent p /\
  hierarchy_children p' = hierarchy_children p /\ composition_children p' = composition_children p /\
  parent_source p' = parent_source p.
Proof.
  cbv zeta. revert p. induction l as [|[[pr s] n] l IH]; intros p; cbn [fold_left]; [done|].
  destruct (IH (organized_by sha1_hex b child sel p (pr, s, n))) as (-> & -> & -> & -> & ->).
  destruct sel as [[pr' s'] n']. unfold organized_by. by destruct (bool_decide _).
Qed.

Definition chosen_source (cs : list Candidate) : option string := (fun c => c.1.2) <$> select cs.
Definition chosen_parent (cs : list Candidate) : option string := mapped_id sha1_hex b <$> chosen_source cs.

Lemma select_hierarchy_fields p c cs :
  let p' := select_hierarchy_parent sha1_hex b p (c, cs) in
  hierarchy_parent p' = match chosen_parent cs with Some v => <[c := v]> (hierarchy_parent p) | None => hierarchy_parent p end /\
  parent_source p' = match chosen_source cs with Some v => <[c := v]> (parent_source p) | None => parent_source p end /\
  hierarchy_children p' = match chosen_parent cs with Some v => dict_push v c (hierarchy_children p) | None => hierarchy_children p end /\
  composition_parent p' = composition_parent p /\ composition_children p' = composition_children p.
Proof.
  cbv zeta. unfold select_hierarchy_parent, chosen_parent, chosen_source. destruct (select cs) as [[[pr s] n]|]; [|done]. simpl.
  destruct (Nat.ltb 1 (length cs)); [|done]. by edestruct organized_by_keeps as (-> & -> & -> & -> & ->).
Qed.

Lemma select_composition_fields p c cs :
  let p' := select_composition_parent sha1_hex b p (c, cs) in
  composition_parent p' = match chosen_parent cs with Some v => <[c := v]> (composition_parent p) | None => composition_parent p end /\
  parent_source p' = match chosen_source cs with Some v => <[c := default v (parent_source p !! c)]> (parent_source p) | None => parent_source p end /\
  composition_children p' = match chosen_parent cs with Some v => dict_push v c (composition_children p) | None => composition_children p end /\
  hierarchy_parent p' = hierarchy_parent p /\ hierarchy_children p' = hierarchy_children p /\
  graph_entries p' = graph_entries p /\ relationship_namespaces p' = relationship_namespaces p.
Proof.
  cbv zeta. unfold select_composition_parent, chosen_parent, chosen_source. by destruct (select cs) as [[[pr s] n]|].
Qed.

Lemma push_if_chosen d cs c parent :
  default [] ((match chosen_parent cs with Some v => dict_push v c d | None => d end : dict string (list string)) !! parent) =
  default [] (d !! parent) ++ (if bool_decide (chosen_parent cs = Some parent) then [c] else []).
Proof.
  destruct (chosen_parent cs) as [v|]; [|by rewrite app_nil_r]. rewrite entries_push.
  destruct (decide (v = parent)); [subst; by rewrite !bool_decide_true|]. rewrite !bool_decide_false by congruence. done.
Qed.

Lemma insert_if_chosen {V} (d : dict string V) (o : option V) c c' :
  (match o with Some v => <[c := v]> d | None => d end) !! c' =
  match o with Some v => if bool_decide (c = c') then Some v else d !! c' | None => d !! c' end.
Proof. destruct o; [apply dict_lookup_insert|done]. Qed.

Lemma initial_children_empty l parent :
  default [] ((dict_of_list (map (fun p : string * string => (p.2, [] : list string)) l)) !! parent) = [].
Proof.
  destruct (_ !! parent) as [x|] eqn:E; [|done]. apply dict_lookup_of_list_Some in E.
  apply list_elem_of_fmap in E as (y & E & _). simpl in E. by simplify_eq.
Qed.

Lemma hierarchy_fold_keeps l p :
  let p' := fold_left (select_hierarchy_parent sha1_hex b) l p in
  composition_parent p' = composition_parent p /\ composition_children p' = composition_children p.
Proof.
  cbv zeta. revert p. induction l as [|[c cs] l IH]; intros p; cbn [fold_left]; [done|].
  destruct (IH (select_hierarchy_parent sha1_hex b p (c, cs))) as [-> ->].
  destruct (select_hierarchy_fields p c cs) as (_ & _ & _ & -> & ->). done.
Qed.

Lemma composition_fold_keeps l p :
  let p' := fold_left (select_composition_parent sha1_hex b) l p in
  hierarchy_parent p' = hierarchy_parent p /\ hierarchy_children p' = hierarchy_children p /\
  graph_entries p' = graph_entries p /\ relationship_namespaces p' = relationship_namespaces p.
Proof.
  cbv zeta. revert p. induction l as [|[c cs] l IH]; intros p; cbn [fold_left]; [done|].
  destruct (IH (select_composition_parent sha1_hex b p (c, cs))) as (-> & -> & -> & ->).
  by destruct (select_composition_fields p c cs) as (_ & _ & _ & -> & -> & -> & ->).
Qed.

Lemma composition_fold_source l p c :
  NoDup l.*1 ->
  parent_source (fold_left (select_composition_parent sha1_hex b) l p) !! c =
  match parent_source p !! c with Some s => Some s | None => choose chosen_source l c end.
Proof.
  revert p. induction l as [|[c0 cs] l IH]; intros p Hnd; cbn [fold_left]; [by destruct (_ !! c)|].
  cbn in Hnd. apply NoDup_cons in Hnd as [Hc0 Hnd]. rewrite IH by done.
  destruct (select_composition_fields p c0 cs) as (_ & -> & _). unfold choose. cbn [items_lookup].
  case_bool_decide as E.
  - subst c0. destruct (chosen_source cs) as [v|] eqn:Ec.
    + rewrite dict_lookup_insert_eq. simpl. rewrite Ec. by destruct (parent_source p !! c).
    + assert (items_lookup c l = None) as ->.
      { destruct (items_lookup c l) eqn:E; [|done]. exfalso. apply Hc0, items_lookup_elem. by eexists. }
      simpl. by rewrite Ec.
  - destruct (chosen_source cs); [|done]. by rewrite dict_lookup_insert_ne.
Qed.

(** What [select_parents] computes, in terms of the candidates. *)
Lemma select_parents_spec t :
  dict_wf (hierarchy_candidates t) -> dict_wf (composition_candidates t) ->
  let p := select_parents sha1_hex b t in
  (forall c, hierarchy_parent p !! c = hierarchy_candidates t !! c ≫= chosen_parent) /\
  (forall c, composition_parent p !! c = composition_candidates t !! c ≫= chosen_parent) /\
  (forall parent, default [] (hierarchy_children p !! parent) = chosen_children chosen_parent (dict_items (hierarchy_candidates t)) parent) /\
  (forall parent, default [] (composition_children p !! parent) = chosen_children chosen_parent (dict_items (composition_candidates t)) parent) /\
  (forall c, parent_source p !! c =
     match hierarchy_candidates t !! c ≫= chosen_source with
     | Some s => Some s
     | None => composition_candidates t !! c ≫= chosen_source
     end).
Proof.
  intros Hh Hc. cbv zeta. unfold select_parents. set (ph := fold_left (select_hierarchy_parent sha1_hex b) _ _).
  destruct (composition_fold_keeps (dict_items (composition_candidates t)) ph) as (-> & -> & _ & _).
  destruct (hierarchy_fold_keeps (dict_items (hierarchy_candidates t)) (initial_parents sha1_hex b t)) as [Hp Hch].
  fold ph in Hp, Hch. split_and!.
  - intros c. unfold ph. rewrite (fold_parent _ hierarchy_parent chosen_parent).
    + unfold choose. change (items_lookup c (dict_items (hierarchy_candidates t))) with (hierarchy_candidates t !! c).
      by destruct (_ ≫= _).
    + intros p c0 cs c'. destruct (select_hierarchy_fields p c0 cs) as (-> & _). apply insert_if_chosen.
    + done.
  - intros c. rewrite (fold_parent _ composition_parent chosen_parent).
    + rewrite Hp. unfold choose. change (items_lookup c (dict_items (composition_candidates t))) with (composition_candidates t !! c).
      by destruct (_ ≫= _).
    + intros p c0 cs c'. destruct (select_composition_fields p c0 cs) as (-> & _). apply insert_if_chosen.
    + done.
  - intros parent. unfold ph. rewrite (fold_children _ hierarchy_children chosen_parent).
    + unfold initial_parents. simpl. by rewrite initial_children_empty.
    + intros p c0 cs. destruct (select_hierarchy_fields p c0 cs) as (_ & _ & -> & _). apply push_if_chosen.
  - intros parent. rewrite (fold_children _ composition_children chosen_parent).
    + rewrite Hch. unfold initial_parents. simpl. by rewrite initial_children_empty.
    + intros p c0 cs. destruct (select_composition_fields p c0 cs) as (_ & _ & -> & _). apply push_if_chosen.
  - intros c. rewrite composition_fold_source by done. unfold ph. rewrite (fold_parent _ parent_source chosen_source).
    + unfold choose. change (items_lookup c (dict_items (hierarchy_candidates t))) with (hierarchy_candidates t !! c).
      by destruct (_ ≫= _).
    + intros p c0 cs c'. destruct (select_hierarchy_fields p c0 cs) as (_ & -> & _). apply insert_if_chosen.
    + done.
Qed.
End ParentLemmas.

(** ** Lemmas: candidates and their order *)

Lemma candidate_leb_total x y : candidate_leb x y = true \/ candidate_leb y x = true.
Proof.
  destruct x as [[p s] n], y as [[p' s'] n']. unfold candidate_leb. rewrite (Z.eqb_sym p' p).
  destruct (Z.eqb_spec p p'); [|rewrite !Z.leb_le; lia].
  destruct (decide (s = s')) as [->|]; [rewrite !bool_decide_true by done; apply string_leb_total|].
  rewrite !bool_decide_false by congruence. apply string_leb_total.
Qed.

Lemma candidate_leb_spec p s n p' s' n' :
  candidate_leb (p, s, n) (p', s', n') = true <->
  p < p' \/ (p = p' /\ ((s ≠ s' /\ string_leb s s' = true) \/ (s = s' /\ string_leb n n' = true))).
Proof.
  unfold candidate_leb. destruct (Z.eqb_spec p p'); [|rewrite Z.leb_le; intuition lia].
  case_bool_decide; intuition (try lia; try congruence).
Qed.

Lemma candidate_leb_trans x y z : candidate_leb x y = true -> candidate_leb y z = true -> candidate_leb x z = true.
Proof.
  destruct x as [[p s] n], y as [[p' s'] n'], z as [[p'' s''] n'']. rewrite !candidate_leb_spec.
  intros [Hp|[-> Hx]] [Hp'|[-> Hy]]; try (left; lia). right. split; [done|].
  destruct Hx as [[Hs Hl]|[-> Hn]], Hy as [[Hs' Hl']|[-> Hn']]; [|left; done..|right; split; [done|by eapply string_leb_trans]].
  left. split; [|by eapply string_leb_trans]. intros ->. apply Hs. by apply string_leb_antisym.
Qed.

Lemma select_none cs : select cs = None <-> cs = [].
Proof.
  unfold select. split; [|by intros ->]. intros H. pose proof (py_sorted_perm candidate_leb cs) as Hp.
  destruct (py_sorted candidate_leb cs); [|done]. by apply Permutation_nil_l in Hp.
Qed.

Lemma select_some cs c : select cs = Some c -> c ∈ cs /\ forall c', c' ∈ cs -> candidate_leb c c' = true.
Proof.
  unfold select. intros H. destruct (py_sorted candidate_leb cs) as [|x l] eqn:E; [done|]. injection H as ->.
  by apply (py_sorted_head _ candidate_leb_total candidate_leb_trans) in E.
Qed.

(** ** Lemmas: what was browsed *)

(** Nodes are found by their own id. *)
Definition browsed_ok (b : Browsed) : Prop :=
  dict_wf (by_source_node b) /\ forall s n, by_source_node b !! s = Some n -> ni_node_id n = s.

Lemma gather_ok client : browsed_ok (gather client).
Proof.
  split; [apply dict_wf_of_list|]. intros s n Hs. apply dict_lookup_of_list_Some in Hs.
  apply list_elem_of_fmap in Hs as (n' & E & _). by injection E as -> ->.
Qed.

Section Browsing.
Context (sha1_hex : string -> string) (b : Browsed) (Hb : browsed_ok b).

Lemma mapped_id_by_source_lookup s : mapped_id_by_source sha1_hex b !! s = element_id sha1_hex b <$> by_source_node b !! s.
Proof. apply dict_lookup_map. Qed.

Lemma edge_source e :
  e ∈ all_edges sha1_hex b ->
  exists n, by_source_node b !! e_source e = Some n /\ e_parent_id e = element_id sha1_hex b n /\
            mapped_id sha1_hex b (e_source e) = e_parent_id e.
Proof using Hb.
  intros (s & n & Hin & He)%all_edges_elem. apply (dict_items_lookup _ _ _ (proj1 Hb)) in Hin.
  unfold edges_of in He. apply list_elem_of_fmap in He as ([[[t c] ty] nm] & -> & _). cbn. exists n.
  split_and!; [done..|]. unfold mapped_id. by rewrite mapped_id_by_source_lookup, Hin.
Qed.

Lemma first_entries_subset {A} seen (l : list (string * A * option string * string)) x : x ∈ first_entries seen l -> x ∈ l.
Proof.
  revert seen. induction l as [|[[[t n] ty] nm] l IH]; intros seen; cbn [first_entries]; [done|].
  case_bool_decide; [intros Hx%IH; by constructor|]. intros [->|Hx%IH]%elem_of_cons; by constructor.
Qed.

Lemma child_sources_browsed s c n : (c, n) ∈ child_sources b s -> by_source_node b !! c = Some n.
Proof.
  unfold child_sources. intros (c' & _ & E)%list_elem_of_omap. destruct (by_source_node b !! c') eqn:El; [|done].
  cbn in E. by injection E as <- <-.
Qed.

Lemma edge_target e :
  e ∈ all_edges sha1_hex b -> exists s n, by_source_node b !! s = Some n /\ e_child_id e = element_id sha1_hex b n.
Proof.
  intros (s & n & Hin & He)%all_edges_elem.
  unfold edges_of in He. apply list_elem_of_fmap in He as ([[[t c] ty] nm] & -> & He). cbn.
  apply first_entries_subset in He. exists t, c. split; [|done]. unfold reference_entries in He.
  destruct (ni_outgoing_references n) as [|ref refs].
  - apply list_elem_of_fmap in He as ([c' n'] & E & Hc). injection E as -> -> _ _. by eapply child_sources_browsed.
  - apply list_elem_of_omap in He as (ref' & _ & E). destruct (by_source_node b !! ri_target_node_id ref') eqn:El; [|done].
    cbn in E. by injection E as <- <- _ _.
Qed.

(** The selected parent of a child is the source of a best edge to it. *)
Definition best_edge (edges : list Edge) (parent : option string) : Prop :=
  match parent with
  | Some p => exists e, e ∈ edges /\ p = e_parent_id e /\ forall e', e' ∈ edges -> candidate_leb (candidate_of e) (candidate_of e') = true
  | None => edges = []
  end.

Lemma chosen_parent_best cls child (cs : list Candidate) :
  let edges := List.filter (edge_to cls child) (all_edges sha1_hex b) in
  cs = map candidate_of edges -> best_edge edges (chosen_parent sha1_hex b cs).
Proof using Hb.
  cbv zeta. set (edges := List.filter _ _). intros ->. unfold chosen_parent, chosen_source.
  destruct (select (map candidate_of edges)) as [c|] eqn:E; cbn [fmap option_fmap option_map best_edge].
  - apply select_some in E as [Hin Hmin]. apply list_elem_of_fmap in Hin as (e & -> & He). exists e. split_and!; [done|..].
    + cbn. apply list_elem_of_In, List.filter_In in He as [He _]. apply list_elem_of_In, edge_source in He as (n & _ & _ & He). done.
    + intros e' He'. apply Hmin, list_elem_of_fmap. by exists e'.
  - apply select_none in E. by destruct edges.
Qed.

Lemma candidates_lookup (d : dict string (list Candidate)) c (F : option string) cs :
  filled d -> default [] (d !! c) = cs -> (d !! c ≫= chosen_parent sha1_hex b) = chosen_parent sha1_hex b cs.
Proof.
  intros [_ Hf] <-. destruct (d !! c); done.
Qed.
End Browsing.

(** ** The hierarchy of a result *)

Section Structure.
Context (sha1_hex : string -> string) (b : Browsed) (Hb : browsed_ok b).

Lemma build_browsed_inv r :
  build_browsed sha1_hex b = Ok r ->
  exists t ids, collect_tables sha1_hex b = Ok t /\
    let p := select_parents sha1_hex b t in
    assign_ids (relationship_namespaces p) = Ok ids /\
    let graph_related := dict_map (map (relation_of ids)) (graph_entries p) in
    r = build_result sha1_hex b p graph_related ids
          (fold_left (add_node sha1_hex b p graph_related) (dict_items (by_source_node b))
            (no_nodes (build_relationships (dict_values (mapped_id_by_source sha1_hex b)) p graph_related))).
Proof.
  unfold build_browsed. destruct (collect_tables sha1_hex b) as [t|]; cbn; [|done].
  destruct (assign_ids _) as [ids|] eqn:E; cbn; [|done]. intros [= <-]. by exists t, ids.
Qed.

Lemma result_parents r :
  build_browsed sha1_hex b = Ok r ->
  (forall c, best_edge (List.filter (edge_to hierarchy c) (all_edges sha1_hex b)) (hierarchy_parent_by_id r !! c)) /\
  (forall c, best_edge (List.filter (edge_to composition c) (all_edges sha1_hex b)) (composition_parent_by_id r !! c)).
Proof using Hb.
  intros (t & ids & Ht & _ & ->)%build_browsed_inv. cbn [build_result hierarchy_parent_by_id composition_parent_by_id].
  destruct (collect_tables_spec _ _ _ Ht) as ([Hhw Hhf] & [Hcw Hcf] & Hh & Hc).
  destruct (select_parents_spec sha1_hex b t Hhw Hcw) as (Hp & Hcp & _).
  split; intros c; rewrite ?Hp, ?Hcp.
  - specialize (Hh c). destruct (hierarchy_candidates t !! c) as [cs|] eqn:E; cbn in *; [by apply chosen_parent_best|].
    by destruct (List.filter _ _).
  - specialize (Hc c). destruct (composition_candidates t !! c) as [cs|] eqn:E; cbn in *; [by apply chosen_parent_best|].
    by destruct (List.filter _ _).
Qed.

Lemma result_children r :
  build_browsed sha1_hex b = Ok r ->
  (forall parent c, c ∈ default [] (hierarchy_children_by_id r !! parent) <-> hierarchy_parent_by_id r !! c = Some parent) /\
  (forall parent c, c ∈ default [] (composition_children_by_id r !! parent) <-> composition_parent_by_id r !! c = Some parent) /\
  (forall parent, NoDup (default [] (hierarchy_children_by_id r !! parent))) /\
  (forall parent, NoDup (default [] (composition_children_by_id r !! parent))).
Proof.
  intros (t & ids & Ht & _ & ->)%build_browsed_inv.
  cbn [build_result hierarchy_parent_by_id composition_parent_by_id hierarchy_children_by_id composition_children_by_id].
  destruct (collect_tables_spec _ _ _ Ht) as ([Hhw Hhf] & [Hcw Hcf] & _).
  destruct (select_parents_spec sha1_hex b t Hhw Hcw) as (Hp & Hcp & Hhc & Hcc & _).
  split_and!; intros; rewrite ?Hp, ?Hcp, ?Hhc, ?Hcc.
  - by apply elem_of_chosen_children.
  - by apply elem_of_chosen_children.
  - by apply NoDup_chosen_children.
  - by apply NoDup_chosen_children.
Qed.

Lemma resolved_parent_spec t c :
  collect_tables sha1_hex b = Ok t ->
  let p := select_parents sha1_hex b t in
  resolved_parent sha1_hex b p c =
  match hierarchy_parent p !! c with Some x => Some x | None => composition_parent p !! c end.
Proof using Hb.
  intros Ht. cbv zeta. unfold resolved_parent. destruct (collect_tables_spec _ _ _ Ht) as ([Hhw Hhf] & [Hcw Hcf] & Hh & Hc).
  destruct (select_parents_spec sha1_hex b t Hhw Hcw) as (Hp & Hcp & _ & _ & Hs). rewrite Hp, Hcp, Hs.
  unfold chosen_parent. destruct (hierarchy_candidates t !! c) as [cs|] eqn:Eh; cbn.
  { destruct (chosen_source cs) eqn:E; [done|]. cbn. unfold chosen_source in E. destruct (select cs) eqn:Es; [done|].
    apply select_none in Es. subst. by apply Hhf in Eh. }
  destruct (composition_candidates t !! c) as [cs|] eqn:Ec; [|done]. cbn. specialize (Hc c). rewrite Ec in Hc. cbn in Hc.
  unfold chosen_source. destruct (select cs) as [[[pr s] nm]|] eqn:Es; [|done]. cbn.
  apply select_some in Es as [Hin _]. subst cs. apply list_elem_of_fmap in Hin as (e & E & He). injection E as -> -> ->.
  apply list_elem_of_In, List.filter_In in He as [He _]. apply list_elem_of_In, (edge_source _ _ Hb) in He as (n & Hn & Hpid & Hm).
  rewrite mapped_id_by_source_lookup, Hn, Hm, Hpid. done.
Qed.
End Structure.

(** ** Lemmas: the nodes *)

Section NodeLemmas.
Context (sha1_hex : string -> string) (b : Browsed) (p : Parents) (graph_related : dict string (list (string * string))).
Abbreviation mapped rels s n := (mapped_node sha1_hex b p graph_related rels s n).
Abbreviation eid n := (element_id sha1_hex b n).

Lemma mapped_node_id rels s n : n_id (mapped rels s n) = eid n.
Proof.
  unfold mapped_node, map_node. cbn. replace (truthy (eid n)) with true; [done|]. symmetry. apply truthy_spec.
  unfold element_id, stable_i3x_id. by destruct (kind_for_node n).
Qed.

Lemma kind_for_node_infer n : kind_for_node n = infer_kind n.
Proof.
  unfold kind_for_node, infer_kind. destruct (ni_event_notifier n); [done|].
  destruct (decide (ni_node_class n = "Object")) as [->|]; [done|]. by rewrite (bool_decide_false (_ = "Object")).
Qed.

(** What the loop over the nodes has established after the entries [processed]. *)
Record nodes_inv (r0 : relationships) (processed : list (string * OpcUaNodeInfo)) (st : Nodes) : Prop := {
  inv_mapped : forall k m, s_nodes st !! k = Some m -> exists s n, (s, n) ∈ processed /\ k = eid n /\ m = mapped r0 s n;
  inv_present : forall s n, (s, n) ∈ processed -> is_Some (s_nodes st !! eid n);
  inv_roots : forall k, k ∈ s_roots st <-> (exists s n, (s, n) ∈ processed /\ k = eid n) /\ resolved_parent sha1_hex b p k = None;
  inv_relationships : forall k, default ∅ (s_relationships st !! k) = default ∅ (r0 !! k);
  inv_wf : dict_wf (s_nodes st);
}.

Lemma add_node_inv r0 processed st s n :
  nodes_inv r0 processed st -> nodes_inv r0 (processed ++ [(s, n)]) (add_node sha1_hex b p graph_related st (s, n)).
Proof.
  intros [Hm Hp Hr Hrel Hw].
  assert (mapped (s_relationships st) s n = mapped r0 s n) as E by (unfold mapped_node; by rewrite Hrel).
  unfold add_node. rewrite E. split; cbn [s_nodes s_roots s_relationships].
  - intros k m. rewrite mapped_node_id, dict_lookup_insert. case_bool_decide as Ek.
    + intros [= <-]. exists s, n. subst. split; [apply elem_of_app; right; by left|done].
    + intros (s' & n' & Hin & Hk)%Hm. exists s', n'. split; [apply elem_of_app; by left|done].
  - intros s' n' Hin. rewrite mapped_node_id, dict_lookup_insert. case_bool_decide as Ek; [done|].
    apply elem_of_app in Hin as [Hin|Hin]; [by eapply Hp|]. apply list_elem_of_singleton in Hin. by simplify_eq.
  - intros k. rewrite mapped_node_id. setoid_rewrite elem_of_app. setoid_rewrite list_elem_of_singleton.
    assert (k ∈ (match resolved_parent sha1_hex b p (eid n) with Some _ => s_roots st | None => s_roots st ++ [eid n] end) <->
            k ∈ s_roots st \/ (k = eid n /\ resolved_parent sha1_hex b p (eid n) = None)) as ->.
    { destruct (resolved_parent sha1_hex b p (eid n)); [naive_solver|]. rewrite elem_of_app, list_elem_of_singleton. naive_solver. }
    rewrite Hr. clear. split.
    + intros [[(s' & n' & Hin & ->) Hn]|[-> Hn]]; (split; [|done]); [exists s', n'|exists s, n]; auto.
    + intros [(s' & n' & [Hin|Hin] & ->) Hn]; [left; split; [by exists s', n'|done]|]. right. by simplify_eq.
  - intros k. rewrite mapped_node_id, dict_lookup_insert. case_bool_decide; [|apply Hrel]. subst. done.
  - by apply dict_wf_insert.
Qed.

Lemma add_nodes_inv r0 l :
  nodes_inv r0 l (fold_left (add_node sha1_hex b p graph_related) l (no_nodes r0)).
Proof.
  assert (forall processed st, nodes_inv r0 processed st ->
    nodes_inv r0 (processed ++ l) (fold_left (add_node sha1_hex b p graph_related) l st)) as Hg.
  { induction l as [|[s n] l IH]; intros processed st Hinv; cbn [fold_left]; [by rewrite app_nil_r|].
    specialize (IH (processed ++ [(s, n)]) _ (add_node_inv _ _ _ s n Hinv)). by rewrite <-app_assoc in IH. }
  apply (Hg [] (no_nodes r0)). split; cbn; try done.
  - intros s n Hin. by apply not_elem_of_nil in Hin.
  - intros k. split; [by intros ?%not_elem_of_nil|]. intros [(s & n & Hin & _) _]. by apply not_elem_of_nil in Hin.
  - apply dict_wf_empty.
Qed.
End NodeLemmas.

(** The nodes of a result, and where they come from. *)
Section ResultNodes.
Context (sha1_hex : string -> string) (b : Browsed) (Hb : browsed_ok b).

Lemma result_nodes r :
  build_browsed sha1_hex b = Ok r ->
  exists p graph_related r0 st,
    nodes_inv sha1_hex b p graph_related r0 (dict_items (by_source_node b)) st /\
    nodes_by_id r = s_nodes st /\ root_ids r = s_roots st /\ relationships_by_id r = s_relationships st /\
    graph_related_by_id r = graph_related /\
    parent_id_by_id r = dict_of_list (map (fun id => (id, resolved_parent sha1_hex b p id)) (dict_keys (s_nodes st))) /\
    r0 = build_relationships (dict_values (mapped_id_by_source sha1_hex b)) p graph_related /\
    hierarchy_children p = hierarchy_children_by_id r /\ composition_children p = composition_children_by_id r /\
    forall c, resolved_parent sha1_hex b p c =
      match hierarchy_parent_by_id r !! c with Some x => Some x | None => composition_parent_by_id r !! c end.
Proof using Hb.
  intros (t & ids & Ht & _ & ->)%build_browsed_inv. set (p := select_parents sha1_hex b t).
  exists p. eexists _, _, _. split; [apply add_nodes_inv|].
  split_and!; try reflexivity. intros c. by apply resolved_parent_spec.
Qed.

Lemma known_node r s n :
  build_browsed sha1_hex b = Ok r -> by_source_node b !! s = Some n -> is_Some (nodes_by_id r !! element_id sha1_hex b n).
Proof using Hb.
  intros (p & g & r0 & st & Hinv & -> & _)%result_nodes Hs. apply dict_lookup_items in Hs. by eapply inv_present.
Qed.

Lemma dict_lookup_of_keys {V} (f : string -> V) l k : k ∈ l -> (dict_of_list (map (fun id => (id, f id)) l)) !! k = Some (f k).
Proof.
  intros Hk. assert (is_Some ((dict_of_list (map (fun id => (id, f id)) l)) !! k)) as [v Hv].
  { apply dict_lookup_of_list_is_Some, list_elem_of_fmap. exists (k, f k). split; [done|]. apply list_elem_of_fmap. by exists k. }
  rewrite Hv. apply dict_lookup_of_list_Some, list_elem_of_fmap in Hv as (k' & E & _). by injection E as -> ->.
Qed.
End ResultNodes.

(** ** Lemmas: graph relationships *)

Definition graph_edge (e : Edge) : bool := match e_class e with hierarchy | composition => false | _ => true end.

Lemma set_add_spec x y l : y ∈ set_add x l <-> y = x \/ y ∈ l.
Proof.
  unfold set_add. destruct (mem x l) eqn:E; [apply mem_spec in E; naive_solver|].
  rewrite elem_of_app, list_elem_of_singleton. naive_solver.
Qed.

Lemma NoDup_set_add x l : NoDup l -> NoDup (set_add x l).
Proof.
  unfold set_add. destruct (mem x l) eqn:E; [done|]. intros Hl. apply NoDup_app. split_and!; [done| |apply NoDup_singleton].
  intros y Hy ->%list_elem_of_singleton. apply mem_spec in Hy. congruence.
Qed.

Lemma elem_of_add_name name ns names name' ns' :
  ns' ∈ default [] (add_name name ns names !! name') <-> (name' = name /\ ns' = ns) \/ ns' ∈ default [] (names !! name').
Proof.
  unfold add_name. rewrite dict_lookup_insert. case_bool_decide as E; [|naive_solver]. subst. cbn. rewrite set_add_spec. naive_solver.
Qed.

Section GraphLemmas.
Context (sha1_hex : string -> string) (b : Browsed).

(** What a graph reference contributes: its name, the namespace of its type, its target. *)
Definition graph_entry (e : Edge) : string * string * string :=
  (e_name e, ok_or ε (reference_namespace b (e_type e)), e_child_id e).

Definition graph_edge_from (s : string) (e : Edge) : bool := (graph_edge e && bool_decide (e_source e = s))%bool.

Lemma record_edges_graph es t t' :
  foldM (record_edge b) es t = Ok t' ->
  (forall e, e ∈ es -> graph_edge e = true -> is_ok (reference_namespace b (e_type e)) = true) /\
  (forall s, default [] (graph_related_by_source t' !! s) =
             default [] (graph_related_by_source t !! s) ++ map graph_entry (List.filter (graph_edge_from s) es)) /\
  (forall name ns, ns ∈ default [] (graph_namespaces_by_name t' !! name) <->
     ns ∈ default [] (graph_namespaces_by_name t !! name) \/
     exists e, e ∈ es /\ graph_edge e = true /\ (graph_entry e).1 = (name, ns)) /\
  (dict_wf (graph_namespaces_by_name t) -> dict_wf (graph_namespaces_by_name t')).
Proof.
  revert t. induction es as [|e es IH]; intros t; cbn [foldM].
  - intros [= <-]. split_and!; [by intros e ?%not_elem_of_nil|intros s; by rewrite app_nil_r| |done].
    intros name ns. split; [by left|]. intros [?|(e & ?%not_elem_of_nil & _)]; done.
  - destruct (record_edge b t e) as [t1|] eqn:E; cbn; [|done]. intros (Hok & Hs & Hn & Hw)%IH. clear IH.
    assert (graph_edge e = false -> graph_related_by_source t1 = graph_related_by_source t /\ graph_namespaces_by_name t1 = graph_namespaces_by_name t) as Hno.
    { unfold record_edge, graph_edge in *. destruct (e_class e); try done; by injection E as <-. }
    assert (graph_edge e = true -> is_ok (reference_namespace b (e_type e)) = true /\
              graph_related_by_source t1 = dict_push (e_source e) (graph_entry e) (graph_related_by_source t) /\
              graph_namespaces_by_name t1 = add_name (e_name e) (graph_entry e).1.2 (graph_namespaces_by_name t)) as Hyes.
    { unfold record_edge, graph_edge, graph_entry in *. destruct (e_class e); try done;
        destruct (reference_namespace b (e_type e)); try done; by injection E as <-. }
    destruct (graph_edge e) eqn:Eg.
    + destruct (Hyes eq_refl) as (Hok' & Es & En). rewrite Es in Hs. rewrite En in Hn, Hw. split_and!.
      * intros e' [->|Hin]%elem_of_cons; [done|by apply Hok].
      * intros s. rewrite Hs, entries_push, <-app_assoc. unfold graph_edge_from at 2. cbn [List.filter]. rewrite Eg. cbn [andb].
        by case_bool_decide.
      * intros name ns. rewrite Hn, elem_of_add_name. setoid_rewrite elem_of_cons. split.
        -- intros [[[-> ->]|H]|(e' & H & H')]; [right; exists e; auto|by left|right; exists e'; auto].
        -- intros [H|(e' & [->|H] & Hg & H')]; [auto| |right; by exists e'].
           left; left. unfold graph_entry in H' |- *. cbn in *. by injection H' as <- <-.
      * intros H. apply Hw. by apply dict_wf_insert.
    + destruct (Hno eq_refl) as [Es En]. rewrite Es in Hs. rewrite En in Hn, Hw. split_and!.
      * intros e' [->|Hin]%elem_of_cons; [congruence|by apply Hok].
      * intros s. rewrite Hs. cbn [List.filter]. unfold graph_edge_from at 2. by rewrite Eg.
      * intros name ns. rewrite Hn. setoid_rewrite elem_of_cons. split.
        -- intros [H|(e' & H & H')]; [by left|right; exists e'; auto].
        -- intros [H|(e' & [->|H] & Hg & H')]; [auto|congruence|right; by exists e'].
      * done.
Qed.

(** The candidates other than the selected one. *)
Definition loses (sel c : Candidate) : bool := negb (bool_decide (c.1.2 = sel.1.2 /\ c.1.1 = sel.1.1)).

Definition organized_entry (c : Candidate) : string * string * string := ("OrganizedBy", I3X_NAMESPACE, mapped_id sha1_hex b c.1.2).

Definition organized_entries (cs : list Candidate) : list (string * string * string) :=
  match select cs with Some sel => map organized_entry (List.filter (loses sel) cs) | None => [] end.

Lemma organized_by_graph child sel l p :
  let p' := fold_left (organized_by sha1_hex b child sel) l p in
  (forall k, default [] (graph_entries p' !! k) =
    default [] (graph_entries p !! k) ++ (if bool_decide (child = k) then map organized_entry (List.filter (loses sel) l) else [])) /\
  (forall name ns, ns ∈ default [] (relationship_namespaces p' !! name) <->
    ns ∈ default [] (relationship_namespaces p !! name) \/
    (List.filter (loses sel) l ≠ [] /\ name = "OrganizedBy" /\ ns = I3X_NAMESPACE)) /\
  (dict_wf (relationship_namespaces p) -> dict_wf (relationship_namespaces p')).
Proof.
  cbv zeta. revert p. induction l as [|c l IH]; intros p; cbn [fold_left].
  - split_and!; [intros k; cbn; case_bool_decide; by rewrite app_nil_r| |done]. intros name ns. cbn. naive_solver.
  - destruct (IH (organized_by sha1_hex b child sel p c)) as (Hg & Hn & Hw). clear IH.
    set (p1 := organized_by sha1_hex b child sel p c) in *.
    assert (graph_entries p1 = (if loses sel c then dict_push child (organized_entry c) (graph_entries p) else graph_entries p) /\
            relationship_namespaces p1 = (if loses sel c then add_name "OrganizedBy" I3X_NAMESPACE (relationship_namespaces p) else relationship_namespaces p)) as [Eg En].
    { unfold p1, organized_by, loses. destruct c as [[pr s] n], sel as [[pr' s'] n']. cbn. by destruct (bool_decide _). }
    clearbody p1. rewrite Eg in Hg. rewrite En in Hn, Hw. cbn [List.filter]. destruct (loses sel c); [|done]. split_and!.
    + intros k. rewrite Hg, entries_push, <-app_assoc. case_bool_decide; [done|]. by rewrite app_nil_l.
    + intros name ns. rewrite Hn, elem_of_add_name. naive_solver.
    + intros H. apply Hw. by apply dict_wf_insert.
Qed.
End GraphLemmas.

Section GraphSelection.
Context (sha1_hex : string -> string) (b : Browsed).
Abbreviation organized cs := (organized_entries sha1_hex b cs).

Lemma organized_entries_short cs : Nat.ltb 1 (length cs) = false -> organized cs = [].
Proof.
  unfold organized_entries. destruct cs as [|[[pr s] n] [|c cs]]; [done| |done]. intros _. cbn. unfold loses. cbn.
  by rewrite bool_decide_true.
Qed.

Lemma select_hierarchy_graph p c cs :
  let p' := select_hierarchy_parent sha1_hex b p (c, cs) in
  (forall k, default [] (graph_entries p' !! k) = default [] (graph_entries p !! k) ++ (if bool_decide (c = k) then organized cs else [])) /\
  (forall name ns, ns ∈ default [] (relationship_namespaces p' !! name) <->
    ns ∈ default [] (relationship_namespaces p !! name) \/ (organized cs ≠ [] /\ name = "OrganizedBy" /\ ns = I3X_NAMESPACE)) /\
  (dict_wf (relationship_namespaces p) -> dict_wf (relationship_namespaces p')).
Proof.
  cbv zeta. pose proof (organized_entries_short cs) as Hshort. unfold select_hierarchy_parent, organized_entries in *.
  destruct (select cs) as [[[pr s] n]|].
  - destruct (Nat.ltb 1 (length cs)).
    + edestruct (organized_by_graph sha1_hex b c (pr, s, n) cs) as (Hg & Hn & Hw). split_and!; [exact Hg| |exact Hw].
      intros name ns. rewrite Hn. cbn [relationship_namespaces]. destruct (List.filter (loses (pr, s, n)) cs); naive_solver.
    + rewrite Hshort by done. cbn. split_and!; [intros k; case_bool_decide; by rewrite app_nil_r| |done].
      intros name ns. naive_solver.
  - split_and!; [intros k; case_bool_decide; by rewrite app_nil_r| |done]. intros name ns. naive_solver.
Qed.

Lemma hierarchy_fold_graph l p :
  NoDup l.*1 ->
  let p' := fold_left (select_hierarchy_parent sha1_hex b) l p in
  (forall k, default [] (graph_entries p' !! k) = default [] (graph_entries p !! k) ++ default [] (organized_entries sha1_hex b <$> items_lookup k l)) /\
  (forall name ns, ns ∈ default [] (relationship_namespaces p' !! name) <->
    ns ∈ default [] (relationship_namespaces p !! name) \/
    (exists c cs, (c, cs) ∈ l /\ organized cs ≠ []) /\ name = "OrganizedBy" /\ ns = I3X_NAMESPACE) /\
  (dict_wf (relationship_namespaces p) -> dict_wf (relationship_namespaces p')).
Proof.
  cbv zeta. revert p. induction l as [|[c cs] l IH]; intros p Hnd; cbn [fold_left].
  - split_and!; [intros k; by rewrite app_nil_r| |done]. intros name ns. split; [by left|].
    intros [?|[(c & cs & Hin & _) _]]; [done|]. by apply not_elem_of_nil in Hin.
  - cbn in Hnd. apply NoDup_cons in Hnd as [Hc Hnd].
    destruct (select_hierarchy_graph p c cs) as (Hg1 & Hn1 & Hw1).
    destruct (IH (select_hierarchy_parent sha1_hex b p (c, cs)) Hnd) as (Hg & Hn & Hw). clear IH. split_and!.
    + intros k. rewrite Hg, Hg1, <-app_assoc. cbn [items_lookup]. case_bool_decide as E; [|done]. subst k.
      assert (items_lookup c l = None) as ->; [|by rewrite app_nil_r].
      destruct (items_lookup c l) eqn:E; [|done]. exfalso. apply Hc, items_lookup_elem. by eexists.
    + intros name ns. rewrite Hn, Hn1. setoid_rewrite elem_of_cons. split.
      * intros [[H|[H H']]|[(c' & cs' & H & H') H'']]; [by left|right; split; [exists c, cs; auto|done]|].
        right. split; [exists c', cs'; auto|done].
      * intros [H|[(c' & cs' & [H|H] & H') H'']]; [auto| |right; split; [by exists c', cs'|done]].
        injection H as -> ->. left; right. done.
    + auto.
Qed.

(** The graph entries and the names of the whole build. *)
Lemma select_parents_graph t :
  dict_wf (hierarchy_candidates t) ->
  let p := select_parents sha1_hex b t in
  (forall k, default [] (graph_entries p !! k) =
    default [] (graph_entries (initial_parents sha1_hex b t) !! k) ++ default [] (organized_entries sha1_hex b <$> hierarchy_candidates t !! k)) /\
  (forall name ns, ns ∈ default [] (relationship_namespaces p !! name) <->
    ns ∈ default [] (graph_namespaces_by_name t !! name) \/
    (exists c cs, hierarchy_candidates t !! c = Some cs /\ organized cs ≠ []) /\ name = "OrganizedBy" /\ ns = I3X_NAMESPACE) /\
  (dict_wf (graph_namespaces_by_name t) -> dict_wf (relationship_namespaces p)).
Proof.
  intros Hwf. cbv zeta. unfold select_parents.
  set (ph := fold_left (select_hierarchy_parent sha1_hex b) _ _).
  destruct (composition_fold_keeps sha1_hex b (dict_items (composition_candidates t)) ph) as (_ & _ & -> & ->).
  destruct (hierarchy_fold_graph (dict_items (hierarchy_candidates t)) (initial_parents sha1_hex b t) Hwf) as (Hg & Hn & Hw).
  fold ph in Hg, Hn, Hw. split_and!; [exact Hg| |exact Hw]. intros name ns. rewrite Hn. cbn [initial_parents relationship_namespaces].
  assert ((exists c cs, (c, cs) ∈ dict_items (hierarchy_candidates t) /\ organized cs ≠ []) <->
          (exists c cs, hierarchy_candidates t !! c = Some cs /\ organized cs ≠ [])) as ->; [|done].
  split; intros (c & cs & H & H'); exists c, cs; (split; [|done]); [by apply dict_items_lookup|by apply dict_lookup_items].
Qed.
End GraphSelection.

(** ** Lemmas: relationship ids *)

Section IdLemmas.
Context (names : dict string (list string)).

Definition relationship_id_of (name namespace : string) : string :=
  if qualify name (default [] (names !! name)) then namespace +:+ ":" +:+ name else name.

Record ids_inv (ids : RelationshipIds) : Prop := {
  ids_shape : forall name ns id, id_of ids !! (name, ns) = Some id -> id = relationship_id_of name ns;
  ids_back : forall name ns id, id_of ids !! (name, ns) = Some id -> namespace_by_id ids !! id = Some ns /\ display_name_by_id ids !! id = Some name;
  ids_onto : forall id ns, namespace_by_id ids !! id = Some ns -> exists name, id_of ids !! (name, ns) = Some id /\ ns ∈ default [] (names !! name);
}.

Lemma assign_id_inv ids ids' name ns :
  ns ∈ default [] (names !! name) ->
  assign_id name (qualify name (default [] (names !! name))) ids ns = Ok ids' ->
  ids_inv ids ->
  ids_inv ids' /\ is_Some (id_of ids' !! (name, ns)) /\ (forall k, is_Some (id_of ids !! k) -> is_Some (id_of ids' !! k)).
Proof.
  intros Hns H [Hs Hb Ho]. unfold assign_id in H. fold (relationship_id_of name ns) in H.
  destruct (dict_mem _ _) eqn:Em; [done|]. injection H as <-. apply dict_mem_false in Em.
  assert (forall name' ns' id, id_of ids !! (name', ns') = Some id -> (name, ns) ≠ (name', ns') /\ relationship_id_of name ns ≠ id) as Hfresh.
  { intros name' ns' id Hid. destruct (Hb _ _ _ Hid) as [Hnb _]. assert (relationship_id_of name ns ≠ id) as Hne by congruence.
    split; [|done]. intros [= <- <-]. by rewrite (Hs _ _ _ Hid) in Hne. }
  split_and!; [split|..]; cbn [id_of namespace_by_id display_name_by_id].
  - intros name' ns' id. rewrite dict_lookup_insert. case_bool_decide as E; [intros [= <-]; by injection E as <- <-|apply Hs].
  - intros name' ns' id. rewrite !dict_lookup_insert. case_bool_decide as E.
    + intros [= <-]. injection E as <- <-. by rewrite !bool_decide_true.
    + intros Hid. destruct (Hfresh _ _ _ Hid) as [_ Hne]. rewrite !bool_decide_false by done. by apply Hb.
  - intros id ns'. rewrite dict_lookup_insert. case_bool_decide as E.
    + intros [= <-]. subst id. exists name. rewrite dict_lookup_insert_eq. done.
    + intros Hid. destruct (Ho _ _ Hid) as (name' & Hid' & Hin). exists name'. split; [|done].
      rewrite dict_lookup_insert_ne; [done|]. by apply (Hfresh _ _ _ Hid').
  - rewrite dict_lookup_insert_eq. done.
  - intros k Hk. rewrite dict_lookup_insert. case_bool_decide; done.
Qed.

Lemma assign_name_inv name l ids ids' :
  (forall ns, ns ∈ l -> ns ∈ default [] (names !! name)) ->
  foldM (assign_id name (qualify name (default [] (names !! name)))) l ids = Ok ids' -> ids_inv ids ->
  ids_inv ids' /\ (forall ns, ns ∈ l -> is_Some (id_of ids' !! (name, ns))) /\ (forall k, is_Some (id_of ids !! k) -> is_Some (id_of ids' !! k)).
Proof.
  revert ids. induction l as [|ns l IH]; intros ids Hl; cbn [foldM].
  - intros [= <-] Hi. split_and!; [done| |done]. by intros ns ?%not_elem_of_nil.
  - destruct (assign_id _ _ ids ns) as [ids1|] eqn:E; cbn; [|done]. intros H Hi.
    destruct (assign_id_inv _ _ _ _ (Hl ns ltac:(by left)) E Hi) as (Hi1 & Hs & Hm).
    destruct (IH ids1 (fun ns' Hns' => Hl ns' ltac:(by right)) H Hi1) as (Hi' & Hs' & Hm'). split_and!; [done| |auto].
    intros ns' [->|Hin]%elem_of_cons; auto.
Qed.

Lemma assign_ids_inv ids :
  dict_wf names -> assign_ids names = Ok ids ->
  ids_inv ids /\ forall name ns, ns ∈ default [] (names !! name) -> is_Some (id_of ids !! (name, ns)).
Proof.
  intros Hw. unfold assign_ids. intros H.
  assert (forall l ids0, (forall name nss, (name, nss) ∈ l -> names !! name = Some nss) ->
    foldM (fun ids '(name, namespaces) => foldM (assign_id name (qualify name namespaces)) (py_sorted string_leb namespaces) ids) l ids0 = Ok ids ->
    ids_inv ids0 ->
    ids_inv ids /\ (forall name nss ns, (name, nss) ∈ l -> ns ∈ nss -> is_Some (id_of ids !! (name, ns))) /\
    (forall k, is_Some (id_of ids0 !! k) -> is_Some (id_of ids !! k))) as Hg.
  { intros l. induction l as [|[name nss] l IH]; intros ids0 Hl; cbn [foldM].
    - intros [= ->] Hi. split_and!; [done| |done]. by intros ? ? ? ?%not_elem_of_nil.
    - pose proof (Hl name nss ltac:(by left)) as Hnss.
      destruct (foldM _ (py_sorted string_leb nss) ids0) as [ids1|] eqn:E; cbn; [|done]. intros Hrest Hi.
      assert (nss = default [] (names !! name)) as Enss by by rewrite Hnss. rewrite Enss in E at 1.
      destruct (assign_name_inv name (py_sorted string_leb nss) ids0 ids1) as (Hi1 & Hs1 & Hm1); [|exact E|done|].
      { intros ns Hns%elem_of_py_sorted. by rewrite <-Enss. }
      destruct (IH ids1) as (Hi' & Hs' & Hm'); [intros; apply Hl; by right|done|done|]. split_and!; [done| |auto].
      intros name' nss' ns [[= -> ->]|Hin]%elem_of_cons Hns; [|by eapply Hs']. apply Hm', Hs1. by apply elem_of_py_sorted. }
  destruct (Hg _ _ ltac:(intros name nss Hin%elem_of_py_sorted; by apply dict_items_lookup) H) as (Hi & Hs & _).
  { split; cbn; done. }
  split; [done|]. intros name ns Hns. destruct (names !! name) as [nss|] eqn:E; [|by apply not_elem_of_nil in Hns].
  eapply Hs; [|exact Hns]. apply elem_of_py_sorted. by apply dict_lookup_items.
Qed.
End IdLemmas.

(** ** Lemmas: relationships *)

(** The target [t] is among the relationships [n] of [s]. *)
Definition related (r : relationships) (s n t : string) : Prop := t ∈ default [] (default ∅ (r !! s) !! n).

Definition no_repeats (r : relationships) : Prop := forall s n, NoDup (default [] (default ∅ (r !! s) !! n)).

Section RelationshipLemmas.
Implicit Types (r : relationships).

Lemma related_append r s n t s' n' t' :
  related (append_relationship r s n t) s' n' t' <-> related r s' n' t' \/ (s' = s /\ n' = n /\ t' = t).
Proof.
  unfold related, append_relationship. rewrite dict_lookup_insert. case_bool_decide as Es; [|intuition congruence]. subst s'. cbn.
  rewrite dict_lookup_insert. case_bool_decide as En; [|intuition congruence]. subst n'. cbn. rewrite set_add_spec. intuition.
Qed.

Lemma no_repeats_append r s n t : no_repeats r -> no_repeats (append_relationship r s n t).
Proof.
  intros Hr s' n'. unfold append_relationship. rewrite dict_lookup_insert. case_bool_decide as Es; [|apply Hr]. subst s'. cbn.
  rewrite dict_lookup_insert. case_bool_decide as En; [|apply Hr]. subst n'. cbn. apply NoDup_set_add, Hr.
Qed.

(** A fold that appends the pair [pair x] of a relationship and its inverse for every [x]. *)
Lemma related_append_both f i r s c s' n' t' :
  related (append_both f i r s c) s' n' t' <->
  related r s' n' t' \/ (s' = s /\ n' = f /\ t' = c) \/ (s' = c /\ n' = i /\ t' = s).
Proof. unfold append_both. rewrite !related_append. tauto. Qed.

Lemma related_append_children f i l r s' n' t' :
  related (fold_left (append_children f i) l r) s' n' t' <->
  related r s' n' t' \/
  (exists k cs c, (k, cs) ∈ l /\ c ∈ cs /\ ((s' = k /\ n' = f /\ t' = c) \/ (s' = c /\ n' = i /\ t' = k))).
Proof.
  revert r. induction l as [|[k cs] l IH]; intros r; cbn [fold_left].
  - split; [by left|]. intros [?|(k & cs & c & Hin & _)]; [done|]. by apply not_elem_of_nil in Hin.
  - rewrite IH.
    assert (related (append_children f i r (k, cs)) s' n' t' <->
      related r s' n' t' \/ exists c, c ∈ cs /\ ((s' = k /\ n' = f /\ t' = c) \/ (s' = c /\ n' = i /\ t' = k))) as ->.
    { unfold append_children. cbn. clear IH. revert r. induction cs as [|c cs IH]; intros r; cbn [fold_left].
      - split; [by left|]. intros [?|(c & Hin & _)]; [done|]. by apply not_elem_of_nil in Hin.
      - rewrite IH, related_append_both. setoid_rewrite elem_of_cons. naive_solver. }
    setoid_rewrite elem_of_cons. naive_solver.
Qed.

Lemma related_append_graph l r s' n' t' :
  related (fold_left append_graph l r) s' n' t' <->
  related r s' n' t' \/
  (exists k rs rel t, (k, rs) ∈ l /\ (rel, t) ∈ rs /\
    ((s' = k /\ n' = rel /\ t' = t) \/ (s' = t /\ n' = "inverseOf_" +:+ rel /\ t' = k))).
Proof.
  revert r. induction l as [|[k rs] l IH]; intros r; cbn [fold_left].
  - split; [by left|]. intros [?|(k & rs & rel & t & Hin & _)]; [done|]. by apply not_elem_of_nil in Hin.
  - rewrite IH.
    assert (related (append_graph r (k, rs)) s' n' t' <->
      related r s' n' t' \/ exists rel t, (rel, t) ∈ rs /\
        ((s' = k /\ n' = rel /\ t' = t) \/ (s' = t /\ n' = "inverseOf_" +:+ rel /\ t' = k))) as ->.
    { unfold append_graph. cbn [fst snd]. clear IH. revert r. induction rs as [|[rel t] rs IH]; intros r; cbn [fold_left].
      - split; [by left|]. intros [?|(rel & t & Hin & _)]; [done|]. by apply not_elem_of_nil in Hin.
      - rewrite IH, related_append_both. setoid_rewrite elem_of_cons. naive_solver. }
    setoid_rewrite elem_of_cons. naive_solver.
Qed.

(** What holds without relationships, and is kept by every one that is appended. *)
Lemma build_relationships_ind (P : relationships -> Prop) sources p g :
  P (dict_of_list (map (fun id => (id, ∅)) sources)) -> (forall r s n t, P r -> P (append_relationship r s n t)) -> P (build_relationships sources p g).
Proof.
  intros H0 Ha. unfold build_relationships.
  assert (forall f i l r, P r -> P (fold_left (append_children f i) l r)) as Hc.
  { intros f i l. induction l as [|[k cs] l IH]; intros r Hr; cbn [fold_left]; [done|]. apply IH. unfold append_children. cbn.
    revert r Hr. induction cs as [|c cs IHc]; intros r Hr; cbn [fold_left]; [done|]. apply IHc. by do 2 apply Ha. }
  assert (forall l r, P r -> P (fold_left append_graph l r)) as Hg.
  { intros l. induction l as [|[k rs] l IH]; intros r Hr; cbn [fold_left]; [done|]. apply IH. unfold append_graph. cbn [fst snd].
    revert r Hr. induction rs as [|[rel t] rs IHc]; intros r Hr; cbn [fold_left]; [done|]. apply IHc. by do 2 apply Ha. }
  auto.
Qed.

Lemma initial_relationships (sources : list string) s : default ∅ ((dict_of_list (map (fun id => (id, ∅)) sources) : relationships) !! s) = ∅.
Proof.
  destruct (_ !! s) as [d|] eqn:E; [|done]. apply dict_lookup_of_list_Some, list_elem_of_fmap in E as (x & E & _). by simplify_eq.
Qed.

Lemma no_repeats_build sources p g : no_repeats (build_relationships sources p g).
Proof.
  apply build_relationships_ind; [|intros; by apply no_repeats_append]. intros s n. rewrite initial_relationships. constructor.
Qed.

(** No relationship is listed twice for an element. *)
Lemma relationship_names_build sources p g s : dict_wf (default ∅ (build_relationships sources p g !! s)).
Proof.
  revert s. apply (build_relationships_ind (fun r => forall s, dict_wf (default ∅ (r !! s)))).
  - intros s. rewrite initial_relationships. apply dict_wf_empty.
  - intros r s n t Hr s'. unfold append_relationship. rewrite dict_lookup_insert. case_bool_decide; [subst s'|apply Hr]. by apply dict_wf_insert.
Qed.

Lemma related_initial sources s n t : ~ related (dict_of_list (map (fun id => (id, ∅)) sources)) s n t.
Proof.
  unfold related. rewrite initial_relationships. by intros ?%not_elem_of_nil.
Qed.

(** Which relationships are built, when no key occurs twice. *)
Lemma related_build sources p g s n t :
  dict_wf (hierarchy_children p) -> dict_wf (composition_children p) -> dict_wf g ->
  related (build_relationships sources p g) s n t <->
  (n = "HasChildren" /\ t ∈ default [] (hierarchy_children p !! s)) \/
  (n = "HasParent" /\ s ∈ default [] (hierarchy_children p !! t)) \/
  (n = "HasComponent" /\ t ∈ default [] (composition_children p !! s)) \/
  (n = "ComponentOf" /\ s ∈ default [] (composition_children p !! t)) \/
  ((n, t) ∈ default [] (g !! s)) \/
  (exists rel, n = "inverseOf_" +:+ rel /\ (rel, s) ∈ default [] (g !! t)).
Proof.
  intros Hh Hc Hg. unfold build_relationships. rewrite related_append_graph, !related_append_children.
  assert (forall {A} (d : dict string (list A)) k x, dict_wf d ->
    (exists l, (k, l) ∈ dict_items d /\ x ∈ l) <-> x ∈ default [] (d !! k)) as Hl.
  { intros A d k x Hw. split.
    - intros (l & Hin & Hx). apply (dict_items_lookup _ _ _ Hw) in Hin. by rewrite Hin.
    - destruct (d !! k) as [l|] eqn:E; [|by intros ?%not_elem_of_nil]. intros Hx. exists l. split; [by apply dict_lookup_items|done]. }
  rewrite <-!(Hl _ _ _ _ Hh), <-!(Hl _ _ _ _ Hc), <-!(Hl _ _ _ _ Hg). setoid_rewrite <-(Hl _ _ _ _ Hg).
  pose proof (related_initial sources s n t). clear Hl Hh Hc Hg. split.
  - intros [[[?|(k & cs & c & Hin & Hx & [(-> & -> & ->)|(-> & -> & ->)])]|(k & cs & c & Hin & Hx & [(-> & -> & ->)|(-> & -> & ->)])]
           |(k & cs & rel & c & Hin & Hx & [(-> & -> & ->)|(-> & -> & ->)])]; [done|..].
    + left. eauto. + right; left. eauto. + do 2 right; left. eauto. + do 3 right; left. eauto.
    + do 4 right; left. eauto. + do 5 right. eauto.
  - intros [(-> & l & Hin & Hx)|[(-> & l & Hin & Hx)|[(-> & l & Hin & Hx)|[(-> & l & Hin & Hx)|[(l & Hin & Hx)|(rel & -> & l & Hin & Hx)]]]]].
    + left; left; right. exists s, l, t. split_and!; auto 6. + left; left; right. exists t, l, s. split_and!; auto 6.
    + left; right. exists s, l, t. split_and!; auto 6. + left; right. exists t, l, s. split_and!; auto 6.
    + right. exists s, l, n, t. split_and!; auto 6. + right. exists t, l, rel, s. split_and!; auto 6.
Qed.
End RelationshipLemmas.

(** No key twice in the dictionaries the selection fills. *)
Definition parents_wf (p : Parents) : Prop :=
  dict_wf (hierarchy_children p) /\ dict_wf (composition_children p) /\ dict_wf (graph_entries p).

Lemma dict_wf_push {A} k (x : A) (d : dict string (list A)) : dict_wf d -> dict_wf (dict_push k x d).
Proof. apply dict_wf_insert. Qed.

Lemma select_parents_wf sha1_hex b t : parents_wf (select_parents sha1_hex b t).
Proof.
  unfold select_parents.
  assert (forall l p, parents_wf p -> parents_wf (fold_left (select_composition_parent sha1_hex b) l p)) as Hc.
  { intros l. induction l as [|[c cs] l IH]; intros p Hp; cbn [fold_left]; [done|]. apply IH. destruct Hp as (H1 & H2 & H3).
    unfold select_composition_parent. destruct (select cs) as [[[pr s] n]|]; [|done]. split_and!; cbn; auto using dict_wf_push. }
  assert (forall c sel l p, parents_wf p -> parents_wf (fold_left (organized_by sha1_hex b c sel) l p)) as Ho.
  { intros c sel l. induction l as [|x l IH]; intros p Hp; cbn [fold_left]; [done|]. apply IH. destruct Hp as (H1 & H2 & H3).
    unfold organized_by. destruct x as [[pr s] n], sel as [[pr' s'] n']. case_bool_decide; [done|].
    split_and!; cbn; auto using dict_wf_push. }
  assert (forall l p, parents_wf p -> parents_wf (fold_left (select_hierarchy_parent sha1_hex b) l p)) as Hh.
  { intros l. induction l as [|[c cs] l IH]; intros p Hp; cbn [fold_left]; [done|]. apply IH. destruct Hp as (H1 & H2 & H3).
    unfold select_hierarchy_parent. destruct (select cs) as [[[pr s] n]|]; [|done].
    destruct (Nat.ltb _ _); [apply Ho|]; (split_and!; cbn; auto using dict_wf_push). }
  apply Hc, Hh. split_and!; apply dict_wf_of_list.
Qed.

(** ** Lemmas: reserved names *)

Definition reserved : list string := ["HasParent"; "HasChildren"; "HasComponent"; "ComponentOf"].

Lemma relationship_id_chars ns name : chars (ns +:+ ":" +:+ name) = chars ns ++ ":"%char :: chars name.
Proof. by rewrite !chars_app. Qed.

Lemma starts_with_sep p a c r : c ∉ p -> starts_with p (a ++ c :: r) = starts_with p a.
Proof.
  revert a. induction p as [|x p IH]; intros a Hc; [done|]. destruct a as [|y a]; cbn.
  - unfold ceqb. rewrite bool_decide_false; [done|]. intros ->. apply Hc. by left.
  - rewrite IH; [done|]. intros ?. apply Hc. by right.
Qed.

Lemma relationship_id_reserved names name ns : relationship_id_of names name ns ∉ reserved.
Proof.
  unfold relationship_id_of. destruct (qualify _ _) eqn:E.
  - intros Hin. assert (":"%char ∈ chars (ns +:+ ":" +:+ name)) as Hc.
    { rewrite relationship_id_chars. apply elem_of_app. right. by left. }
    assert (Forall (fun s => ":"%char ∉ chars s) reserved) as Hf.
    { repeat constructor; refine (bool_decide_unpack _ _); vm_compute; exact I. }
    rewrite Forall_forall in Hf. by apply (Hf _ Hin).
  - unfold qualify in E. rewrite !orb_false_iff in E. destruct E as [[[_ E] _] _]. intros Hin%mem_spec. fold reserved in E. congruence.
Qed.

Lemma relationship_id_not_inverse names name ns :
  startswith "inverseOf_" ns = false -> startswith "inverseOf_" (relationship_id_of names name ns) = false.
Proof.
  intros Hns. unfold relationship_id_of. destruct (qualify _ _) eqn:E.
  - unfold startswith in *. rewrite relationship_id_chars, starts_with_sep; [done|]. refine (bool_decide_unpack _ _). vm_compute. exact I.
  - unfold qualify in E. rewrite !orb_false_iff in E. by destruct E as [[[_ _] E] _].
Qed.

Lemma inverse_startswith rel : startswith "inverseOf_" ("inverseOf_" +:+ rel) = true.
Proof. unfold startswith. rewrite chars_app. apply starts_with_app. Qed.

(** ** Lemmas: failures *)

(** Dictionaries of sets: no key and no element twice. *)
Definition names_ok (names : dict string (list string)) : Prop :=
  dict_wf names /\ forall k l, names !! k = Some l -> NoDup l.

Lemma names_ok_add name ns names : names_ok names -> names_ok (add_name name ns names).
Proof.
  intros [Hw Hn]. split; [by apply dict_wf_insert|]. intros k l. unfold add_name. rewrite dict_lookup_insert.
  case_bool_decide; [|apply Hn]. intros [= <-]. apply NoDup_set_add.
  destruct (names !! name) eqn:E; [by eapply Hn|constructor].
Qed.

Lemma names_ok_empty : names_ok ∅.
Proof. split; [apply dict_wf_empty|done]. Qed.

Lemma record_edges_names b es t t' :
  foldM (record_edge b) es t = Ok t' -> names_ok (graph_namespaces_by_name t) -> names_ok (graph_namespaces_by_name t').
Proof.
  revert t. induction es as [|e es IH]; intros t; cbn [foldM]; [by intros [= <-]|].
  destruct (record_edge b t e) as [t1|] eqn:E; cbn; [|done]. intros Hes Hn. apply (IH _ Hes).
  unfold record_edge in E. destruct (e_class e); cbn in E;
    try (destruct (reference_namespace b (e_type e)); cbn in E; [|done]); injection E as <-; cbn; auto using names_ok_add.
Qed.

Lemma record_edges_error b es t err :
  foldM (record_edge b) es t = Err err ->
  exists e id, e ∈ es /\ graph_edge e = true /\ e_type e = Some id /\ err = unresolved_reference_namespace id /\
    reference_namespace b (e_type e) = Err err.
Proof.
  revert t. induction es as [|e es IH]; intros t; cbn [foldM]; [done|].
  destruct (record_edge b t e) as [t1|err'] eqn:E; cbn.
  - intros (e' & id & Hin & H)%IH. exists e', id. split; [by right|done].
  - intros [= ->]. unfold record_edge in E.
    assert (graph_edge e = true /\ reference_namespace b (e_type e) = Err err) as [Hg Hr].
    { unfold graph_edge. destruct (e_class e); try done; (split; [done|]); unfold mbind, outcome_bind in E;
        destruct (reference_namespace b (e_type e)); congruence. }
    unfold reference_namespace in Hr. destruct (e_type e) as [id|] eqn:Et; [|done].
    destruct (namespace_uri_from_expanded_node_id _) eqn:En; [done|]. exists e, id.
    split_and!; [by left|done|done|by injection Hr as <-|]. rewrite Et. unfold reference_namespace. by rewrite En.
Qed.

Lemma select_parents_names sha1_hex b t :
  names_ok (graph_namespaces_by_name t) -> names_ok (relationship_namespaces (select_parents sha1_hex b t)).
Proof.
  intros Ht. unfold select_parents. set (ph := fold_left (select_hierarchy_parent sha1_hex b) _ _).
  destruct (composition_fold_keeps sha1_hex b (dict_items (composition_candidates t)) ph) as (_ & _ & _ & ->). subst ph.
  assert (forall c sel l p, names_ok (relationship_namespaces p) -> names_ok (relationship_namespaces (fold_left (organized_by sha1_hex b c sel) l p))) as Ho.
  { intros c sel l. induction l as [|x l IH]; intros p Hp; cbn [fold_left]; [done|]. apply IH.
    unfold organized_by. destruct x as [[pr s] n], sel as [[pr' s'] n']. case_bool_decide; [done|]. by apply names_ok_add. }
  assert (forall l p, names_ok (relationship_namespaces p) -> names_ok (relationship_namespaces (fold_left (select_hierarchy_parent sha1_hex b) l p))) as Hh.
  { intros l. induction l as [|[c cs] l IH]; intros p Hp; cbn [fold_left]; [done|]. apply IH.
    unfold select_hierarchy_parent. destruct (select cs) as [[[pr s] n]|]; [|done]. destruct (Nat.ltb _ _); [by apply Ho|done]. }
  by apply Hh.
Qed.

Section AssignErrors.
Context (names : dict string (list string)) (Hnames : names_ok names).

(** The pairs of names and namespaces, in the order in which they get their ids. *)
Definition pairs_of (l : list (string * list string)) : list (string * string) :=
  List.concat (map (fun x => map (pair x.1) (py_sorted string_leb x.2)) l).

Definition assign_pair (ids : RelationshipIds) (x : string * string) : outcome build_error RelationshipIds :=
  assign_id x.1 (qualify x.1 (default [] (names !! x.1))) ids x.2.

Lemma foldM_ext {E A B} (f g : B -> A -> outcome E B) l acc :
  (forall x acc, x ∈ l -> f acc x = g acc x) -> foldM f l acc = foldM g l acc.
Proof.
  revert acc. induction l as [|x l IH]; intros acc Hfg; cbn [foldM]; [done|].
  rewrite Hfg by by left. destruct (g acc x); cbn; [|done]. apply IH. intros. apply Hfg. by right.
Qed.

Lemma foldM_map {E A B C} (f : B -> A -> outcome E B) (g : C -> A) l acc :
  foldM f (map g l) acc = foldM (fun acc x => f acc (g x)) l acc.
Proof. revert acc. induction l as [|x l IH]; intros acc; cbn [foldM map]; [done|]. destruct (f acc (g x)); cbn; [apply IH|done]. Qed.

Lemma assign_ids_flat :
  assign_ids names = foldM assign_pair (pairs_of (py_sorted (fun x y => string_leb x.1 y.1) (dict_items names))) no_ids.
Proof using Hnames.
  unfold assign_ids, pairs_of. rewrite <-foldM_concat. apply foldM_ext. intros [name nss] ids Hin%elem_of_py_sorted.
  apply (dict_items_lookup _ _ _ (proj1 Hnames)) in Hin. rewrite foldM_map. apply foldM_ext. intros ns acc _. unfold assign_pair.
  cbn [fst snd]. by rewrite Hin.
Qed.

Lemma elem_of_pairs_of l name ns : (name, ns) ∈ pairs_of l <-> exists nss, (name, nss) ∈ l /\ ns ∈ nss.
Proof.
  unfold pairs_of. rewrite list_elem_of_In, List.in_concat. split.
  - intros (x & Hx & Hin). apply list_elem_of_In, elem_of_map in Hx as ([name' nss] & -> & Hx).
    apply list_elem_of_In, elem_of_map in Hin as (ns' & E & Hin). injection E as -> ->. exists nss.
    split; [done|]. by apply elem_of_py_sorted in Hin.
  - intros (nss & Hin & Hns). exists (map (pair name) (py_sorted string_leb nss)). rewrite <-!list_elem_of_In, !elem_of_map.
    split; [by exists (name, nss)|]. exists ns. split; [done|by apply elem_of_py_sorted].
Qed.

Lemma NoDup_pairs_of l : NoDup l.*1 -> (forall name nss, (name, nss) ∈ l -> NoDup nss) -> NoDup (pairs_of l).
Proof.
  induction l as [|[name nss] l IH]; intros Hnd Hl; [constructor|]. cbn in Hnd. apply NoDup_cons in Hnd as [Hn Hnd].
  unfold pairs_of. cbn [map List.concat]. fold (pairs_of l). apply NoDup_app. split_and!.
  - apply NoDup_fmap; [by intros ? ? [= ->]|]. rewrite py_sorted_perm. apply (Hl name). by left.
  - intros [name' ns] Hin (nss' & Hin' & _)%elem_of_pairs_of. apply elem_of_map in Hin as (? & E & _). cbn in E. injection E as -> _.
    apply Hn, list_elem_of_fmap. by exists (name, nss').
  - apply IH; [done|]. intros name' nss' Hin. apply (Hl name'). by right.
Qed.

Lemma assign_pairs_error l ids err done_pairs :
  foldM assign_pair l ids = Err err ->
  (forall x, x ∈ l -> x.2 ∈ default [] (names !! x.1)) ->
  NoDup (done_pairs ++ l) -> ids_inv names ids -> (forall k, is_Some (id_of ids !! k) -> k ∈ done_pairs) ->
  exists name ns name' ns', err = ambiguous_relationship_id (relationship_id_of names name ns) /\ (name, ns) ≠ (name', ns') /\
    (name, ns) ∈ l /\ (name', ns') ∈ done_pairs ++ l /\ relationship_id_of names name ns = relationship_id_of names name' ns'.
Proof.
  revert ids done_pairs. induction l as [|[name ns] l IH]; intros ids done_pairs; cbn [foldM]; [done|].
  destruct (assign_pair ids (name, ns)) as [ids1|err1] eqn:E; cbn; intros He Hl Hnd Hinv Hdone.
  - pose proof (assign_id_inv names _ _ _ _ (Hl (name, ns) ltac:(by left)) E Hinv) as (Hinv1 & _ & _).
    destruct (IH ids1 (done_pairs ++ [(name, ns)]) He) as (n1 & s1 & n2 & s2 & -> & Hne & Hin1 & Hin2 & Heq).
    + intros x Hx. apply Hl. by right.
    + by rewrite <-app_assoc.
    + done.
    + intros k Hk. apply elem_of_app. unfold assign_pair, assign_id in E. destruct (dict_mem _ _); [done|]. injection E as <-.
      cbn in Hk. rewrite dict_lookup_insert in Hk. case_bool_decide; [subst; right; by left|left; auto].
    + exists n1, s1, n2, s2. rewrite <-app_assoc in Hin2. split_and!; [done|done|by right|done|done].
  - injection He as <-. unfold assign_pair, assign_id in E. cbn [fst snd] in E. fold (relationship_id_of names name ns) in E.
    destruct (dict_mem _ _) eqn:Em; [|done]. injection E as <-. apply dict_mem_true in Em as [ns' Hns'].
    destruct (ids_onto _ _ Hinv _ _ Hns') as (name' & Hid & _). exists name, ns, name', ns'. split_and!; [done| |by left| |by apply (ids_shape _ _ Hinv)].
    + intros [= <- <-]. apply NoDup_app in Hnd as (_ & Hnd & _). eapply Hnd; [apply Hdone; by eexists|by left].
    + apply elem_of_app. left. apply Hdone. by eexists.
Qed.

Lemma assign_ids_error err :
  assign_ids names = Err err ->
  exists name ns name' ns', err = ambiguous_relationship_id (relationship_id_of names name ns) /\ (name, ns) ≠ (name', ns') /\
    ns ∈ default [] (names !! name) /\ ns' ∈ default [] (names !! name') /\ relationship_id_of names name ns = relationship_id_of names name' ns'.
Proof using Hnames.
  rewrite assign_ids_flat. set (l := py_sorted _ _). intros H.
  assert (forall name ns, (name, ns) ∈ pairs_of l -> ns ∈ default [] (names !! name)) as Hl.
  { intros name ns (nss & Hin & Hns)%elem_of_pairs_of. apply elem_of_py_sorted, (dict_items_lookup _ _ _ (proj1 Hnames)) in Hin. by rewrite Hin. }
  destruct (assign_pairs_error _ _ _ [] H) as (name & ns & name' & ns' & -> & Hne & H1 & H2 & Heq).
  - intros [name ns] Hin. by apply Hl.
  - apply NoDup_pairs_of.
    + assert (l.*1 ≡ₚ (dict_items names).*1) as -> by (apply fmap_Permutation, py_sorted_perm). apply Hnames.
    + intros name nss Hin%elem_of_py_sorted. apply (dict_items_lookup _ _ _ (proj1 Hnames)) in Hin. by eapply Hnames.
  - split; cbn; done.
  - cbn. intros k [? Hk]. done.
  - exists name, ns, name', ns'. split_and!; auto.
Qed.
End AssignErrors.

End BuilderLemmas.
