(* ===== verification/BuilderSpec.v ===== *)
(** What a built model satisfies, for every address space and every digest: its parents are the
    best candidates, its references stay inside the model, its relationships come in inverse pairs
    and stand for exactly the classified references. *)

From S2P Require Export BuilderLemmas.

Module BuilderSpec.
Import NodeIds Mapper Builder BuilderLemmas.

(** ** A built example *)

Definition no_model : BuildResult := small_model [] [] [].

Definition demo_result : BuildResult :=
  match build demo_hash demo_client with Ok r => r | Err _ => no_model end.

Lemma demo_builds : build demo_hash demo_client = Ok demo_result.
Proof. vm_compute. reflexivity. Qed.

Section Spec.
Context (sha1_hex : string -> string) (client : OpcUaClient).

Abbreviation browsed := (gather client).

(** The element ids of the browsed nodes. *)
Definition known (id : string) : Prop :=
  exists s n, by_source_node browsed !! s = Some n /\ id = element_id sha1_hex browsed n.

(** The classified references that could make their source the parent of [child]. *)
Definition edges_to (c : ReferenceClass) (child : string) : list Edge :=
  List.filter (edge_to c child) (all_edges sha1_hex browsed).

Lemma edges_to_spec c child e :
  e ∈ edges_to c child <-> e ∈ all_edges sha1_hex browsed /\ e_class e = c /\ e_child_id e = child.
Proof.
  unfold edges_to. rewrite list_elem_of_In, List.filter_In, <-list_elem_of_In. unfold edge_to.
  by rewrite andb_true_iff, !bool_decide_eq_true.
Qed.

Lemma edge_known e : e ∈ all_edges sha1_hex browsed -> known (e_parent_id e) /\ known (e_child_id e).
Proof.
  intros He. split.
  - destruct (edge_source _ _ (gather_ok client) _ He) as (n & Hn & -> & _). exists (e_source e), n. by split.
  - destruct (edge_target _ _ _ He) as (s & n & Hn & ->). exists s, n. by split.
Qed.

Lemma known_in_model r id : build sha1_hex client = Ok r -> known id -> is_Some (nodes_by_id r !! id).
Proof. intros Hr (s & n & Hn & ->). by eapply (known_node _ _ (gather_ok client)). Qed.
End Spec.

(** The parent of an element is the source of a best reference to it: among the hierarchical
    references (and, for the composition parent, the composition references) that lead to the
    element, one with the least priority number, node id and name; without one it has no parent. *)
Theorem selected_parent_best sha1_hex client r child :
  build sha1_hex client = Ok r ->
  best_edge (edges_to sha1_hex client hierarchy child) (hierarchy_parent_by_id r !! child) /\
  best_edge (edges_to sha1_hex client composition child) (composition_parent_by_id r !! child).
Proof. intros Hr. destruct (result_parents _ _ (gather_ok client) _ Hr) as [Hh Hc]. split; [apply Hh|apply Hc]. Qed.

Lemma selected_parent_best_witness :
  best_edge (edges_to demo_hash demo_client hierarchy "asset-urn:x;s=M") (Some "asset-urn:x;s=A").
Proof. pose proof (proj1 (selected_parent_best demo_hash demo_client _ "asset-urn:x;s=M" demo_builds)) as H. exact H. Defined.

(** The nodes of a built model are found by their own ids. *)
Lemma result_nodes_ok sha1_hex client r : build sha1_hex client = Ok r -> model_nodes_ok r.
Proof.
  intros Hr. destruct (result_nodes _ _ (gather_ok client) _ Hr) as (p & g & r0 & st & Hinv & Hn & _). unfold model_nodes_ok. rewrite Hn.
  split; [apply (inv_wf _ _ _ _ _ _ _ Hinv)|]. intros id n Hid. destruct (inv_mapped _ _ _ _ _ _ _ Hinv _ _ Hid) as (s & o & _ & -> & ->).
  apply mapped_node_id.
Qed.

(** C9. The children lists and the parents of a built model agree, without repetition, on both
    planes; every node carries the parent of the hierarchy or else of the composition, the parent
    table repeats it, and the roots are exactly the nodes without one. *)
Theorem parents_exact sha1_hex client r :
  build sha1_hex client = Ok r ->
  (forall parent c, c ∈ default [] (hierarchy_children_by_id r !! parent) <-> hierarchy_parent_by_id r !! c = Some parent) /\
  (forall parent c, c ∈ default [] (composition_children_by_id r !! parent) <-> composition_parent_by_id r !! c = Some parent) /\
  (forall parent, NoDup (default [] (hierarchy_children_by_id r !! parent)) /\ NoDup (default [] (composition_children_by_id r !! parent))) /\
  (forall id n, nodes_by_id r !! id = Some n ->
    n_id n = id /\
    n_parent_id n = match hierarchy_parent_by_id r !! id with Some p => Some p | None => composition_parent_by_id r !! id end /\
    parent_id_by_id r !! id = Some (n_parent_id n) /\
    (id ∈ root_ids r <-> n_parent_id n = None)).
Proof.
  intros Hr. pose proof (gather_ok client) as Hb. destruct (result_children _ _ _ Hr) as (Hh & Hc & Hnh & Hnc).
  destruct (result_nodes _ _ Hb _ Hr) as (p & g & r0 & st & Hinv & Hn & Hroots & _ & _ & Hpid & _ & _ & _ & Hres).
  split_and!; [done|done|by split|]. intros id n Hid. rewrite Hn in Hid.
  destruct (inv_mapped _ _ _ _ _ _ _ Hinv _ _ Hid) as (s & o & Hin & -> & ->).
  assert (n_parent_id (mapped_node sha1_hex (gather client) p g r0 s o) = resolved_parent sha1_hex (gather client) p (element_id sha1_hex (gather client) o)) as Ep by done.
  rewrite mapped_node_id, Ep, Hres. split_and!; [done|done| |].
  - rewrite Hpid, dict_lookup_of_keys, Hres; [done|]. apply elem_of_dict_keys. by eexists.
  - rewrite Hroots, (inv_roots _ _ _ _ _ _ _ Hinv), Hres. split; [by intros [_ ?]|]. intros ?. split; [by exists s, o|done].
Qed.

Lemma parents_exact_witness : "asset-urn:x;s=M" ∈ default [] (hierarchy_children_by_id demo_result !! "asset-urn:x;s=A").
Proof.
  pose proof (parents_exact demo_hash demo_client _ demo_builds) as (H & _). apply (H "asset-urn:x;s=A" "asset-urn:x;s=M").
  vm_compute. reflexivity.
Defined.
(** ** Graph relationships *)

(** A classified reference that loses against the selected hierarchical parent of its target. *)
Definition losing_edge (sha1_hex : string -> string) (client : OpcUaClient) (child : string) (e : Edge) : Prop :=
  e ∈ edges_to sha1_hex client hierarchy child /\
  exists sel, select (map candidate_of (edges_to sha1_hex client hierarchy child)) = Some sel /\ loses sel (candidate_of e) = true.

(** What stands behind a graph relationship [name] in [namespace] from [source] to [target]. *)
Inductive graph_reason (sha1_hex : string -> string) (client : OpcUaClient) (source target name namespace : string) : Prop :=
  | reason_reference e :
      e ∈ all_edges sha1_hex (gather client) -> graph_edge e = true ->
      e_parent_id e = source -> e_child_id e = target -> e_name e = name ->
      reference_namespace (gather client) (e_type e) = Ok namespace ->
      graph_reason sha1_hex client source target name namespace
  | reason_secondary_parent e :
      losing_edge sha1_hex client source e -> e_parent_id e = target ->
      name = "OrganizedBy" -> namespace = I3X_NAMESPACE ->
      graph_reason sha1_hex client source target name namespace.

Section Graph.
Context (sha1_hex : string -> string) (client : OpcUaClient).

Abbreviation browsed := (gather client).

(** The graph entries of an element before they get relationship ids. *)
Definition entries_of (t : Tables) (k : string) : list (string * string * string) :=
  default [] (graph_entries (initial_parents sha1_hex browsed t) !! k) ++
  default [] (organized_entries sha1_hex browsed <$> hierarchy_candidates t !! k).

Lemma graph_entry_elem t s x :
  collect_tables sha1_hex browsed = Ok t ->
  x ∈ default [] (graph_related_by_source t !! s) <->
  exists e, e ∈ all_edges sha1_hex browsed /\ graph_edge e = true /\ e_source e = s /\ x = graph_entry browsed e.
Proof.
  rewrite collect_tables_flat. intros (_ & Hs & _)%record_edges_graph. rewrite Hs. cbn [no_tables graph_related_by_source]. rewrite lookup_empty_dict, app_nil_l. rewrite elem_of_map.
  setoid_rewrite elem_of_filter_list. unfold graph_edge_from. setoid_rewrite andb_true_iff. setoid_rewrite bool_decide_eq_true. naive_solver.
Qed.

Lemma graph_edge_namespace t e :
  collect_tables sha1_hex browsed = Ok t -> e ∈ all_edges sha1_hex browsed -> graph_edge e = true ->
  reference_namespace browsed (e_type e) = Ok (graph_entry browsed e).1.2.
Proof.
  rewrite collect_tables_flat. intros (Hok & _)%record_edges_graph He Hg. specialize (Hok _ He Hg). unfold graph_entry. cbn.
  by destruct (reference_namespace browsed (e_type e)).
Qed.

Lemma initial_entries_elem t k x :
  x ∈ default [] (graph_entries (initial_parents sha1_hex browsed t) !! k) ->
  exists s n, by_source_node browsed !! s = Some n /\ k = element_id sha1_hex browsed n /\
    x ∈ default [] (graph_related_by_source t !! s).
Proof.
  unfold initial_parents. cbn [graph_entries]. intros Hx. destruct (_ !! k) as [l|] eqn:E; [|by apply not_elem_of_nil in Hx].
  apply dict_lookup_of_list_Some, list_elem_of_fmap in E as ([s id] & E & Hin). cbn in E. injection E as -> ->.
  cbn in Hx. apply list_elem_of_fmap in Hin as ([s' n] & E & Hin). cbn in E. injection E as -> ->. exists s', n.
  split_and!; [|done|done]. apply dict_items_lookup; [apply (gather_ok client)|done].
Qed.

(** Different nodes have different element ids. *)
Definition ids_distinct : Prop :=
  forall s n s' n', by_source_node browsed !! s = Some n -> by_source_node browsed !! s' = Some n' ->
    element_id sha1_hex browsed n = element_id sha1_hex browsed n' -> s = s'.

Lemma initial_entries_of_source t s n :
  ids_distinct -> by_source_node browsed !! s = Some n ->
  graph_entries (initial_parents sha1_hex browsed t) !! element_id sha1_hex browsed n = Some (default [] (graph_related_by_source t !! s)).
Proof.
  intros Hd Hs. unfold initial_parents. cbn [graph_entries].
  assert (is_Some ((dict_of_list (map (fun p => (p.2, default [] (graph_related_by_source t !! p.1)))
            (dict_items (mapped_id_by_source sha1_hex browsed)))) !! element_id sha1_hex browsed n)) as [l Hl].
  { apply dict_lookup_of_list_is_Some, list_elem_of_fmap. eexists (_, _). split; [done|]. apply list_elem_of_fmap.
    exists (s, element_id sha1_hex browsed n). split; [done|]. apply list_elem_of_fmap. exists (s, n).
    split; [done|]. by apply dict_lookup_items. }
  rewrite Hl. apply dict_lookup_of_list_Some, list_elem_of_fmap in Hl as ([s' id] & E & Hin). cbn in E. injection E as E ->.
  apply list_elem_of_fmap in Hin as ([s'' n'] & E' & Hin). cbn in E'. injection E' as -> ->.
  apply dict_items_lookup in Hin; [|apply (gather_ok client)]. by rewrite (Hd _ _ _ _ Hs Hin E).
Qed.

Lemma organized_elem t k x :
  collect_tables sha1_hex browsed = Ok t ->
  x ∈ default [] (organized_entries sha1_hex browsed <$> hierarchy_candidates t !! k) <->
  exists e, losing_edge sha1_hex client k e /\ x = ("OrganizedBy", I3X_NAMESPACE, e_parent_id e).
Proof.
  intros Ht. destruct (collect_tables_spec _ _ _ Ht) as (_ & _ & Hh & _). specialize (Hh k).
  fold (edges_to sha1_hex client hierarchy k) in Hh. unfold losing_edge. rewrite <-Hh.
  destruct (hierarchy_candidates t !! k) as [cs|]; cbn in *.
  2: { split; [by intros ?%not_elem_of_nil|]. by intros (e & [_ (sel & Hsel & _)] & _). }
  unfold organized_entries. destruct (select cs) as [sel|].
  2: { split; [by intros ?%not_elem_of_nil|]. by intros (e & [_ (sel & Hsel & _)] & _). }
  rewrite elem_of_map, Hh. split.
  - intros (c & -> & Hc). apply list_elem_of_In, List.filter_In in Hc as [Hc Hl]. apply list_elem_of_In, list_elem_of_fmap in Hc as (e & -> & He).
    exists e. split; [split; [done|by exists sel]|]. unfold organized_entry. cbn. f_equal.
    apply edges_to_spec in He as [He _]. by destruct (edge_source _ _ (gather_ok client) _ He) as (n & _ & _ & ->).
  - intros (e & [He (sel' & [= <-] & Hl)] & ->). exists (candidate_of e). split.
    + unfold organized_entry. cbn. f_equal. apply edges_to_spec in He as [He _].
      by destruct (edge_source _ _ (gather_ok client) _ He) as (n & _ & _ & ->).
    + apply list_elem_of_In, List.filter_In. split; [|done]. apply list_elem_of_In, list_elem_of_fmap. by exists e.
Qed.

Lemma entries_reason t k name ns target :
  collect_tables sha1_hex browsed = Ok t -> (name, ns, target) ∈ entries_of t k -> graph_reason sha1_hex client k target name ns.
Proof.
  intros Ht [Hx|Hx]%elem_of_app.
  - apply initial_entries_elem in Hx as (s & n & Hs & -> & Hx). apply (graph_entry_elem _ _ _ Ht) in Hx as (e & He & Hg & <- & E).
    pose proof (graph_edge_namespace _ _ Ht He Hg) as Hns. rewrite <-E in Hns. injection E as -> _ ->.
    destruct (edge_source _ _ (gather_ok client) _ He) as (n' & Hn' & Hp & _). rewrite Hs in Hn'. injection Hn' as <-.
    eapply reason_reference; eauto.
  - apply (organized_elem _ _ _ Ht) in Hx as (e & He & E). injection E as -> -> ->. by eapply reason_secondary_parent.
Qed.

Lemma reason_entries t k name ns target :
  collect_tables sha1_hex browsed = Ok t -> ids_distinct -> graph_reason sha1_hex client k target name ns -> (name, ns, target) ∈ entries_of t k.
Proof.
  intros Ht Hd [e He Hg <- <- <- Hns|e He <- -> ->]; apply elem_of_app.
  - left. destruct (edge_source _ _ (gather_ok client) _ He) as (n & Hn & Hp & _). rewrite Hp, (initial_entries_of_source _ _ _ Hd Hn).
    apply (graph_entry_elem _ _ _ Ht). exists e. split_and!; [done|done|done|]. unfold graph_entry. by rewrite Hns.
  - right. apply (organized_elem _ _ _ Ht). by exists e.
Qed.

(** The graph part of a result. *)
Lemma result_graph r :
  build sha1_hex client = Ok r ->
  exists t ids names,
    collect_tables sha1_hex browsed = Ok t /\ ids_inv names ids /\
    graph_relationship_namespace_by_id r = namespace_by_id ids /\
    graph_relationship_display_name_by_id r = display_name_by_id ids /\
    dict_wf (graph_related_by_id r) /\
    (forall k, default [] (graph_related_by_id r !! k) = map (relation_of ids) (entries_of t k)) /\
    (forall k name ns target, (name, ns, target) ∈ entries_of t k -> is_Some (id_of ids !! (name, ns))).
Proof.
  intros (t & ids & Ht & Hids & ->)%build_browsed_inv. set (p := select_parents sha1_hex browsed t) in *.
  destruct (collect_tables_spec _ _ _ Ht) as ([Hhw _] & _ & _ & _).
  pose proof Ht as Ht'. rewrite collect_tables_flat in Ht'. apply record_edges_graph in Ht' as (_ & Hs & Hn & Hw).
  destruct (select_parents_graph sha1_hex browsed t Hhw) as (Hg & Hns & Hwf). fold p in Hg, Hns, Hwf.
  assert (dict_wf (relationship_namespaces p)) as Hpw by (apply Hwf, Hw, dict_wf_empty).
  destruct (assign_ids_inv _ _ Hpw Hids) as [Hinv Hall].
  exists t, ids, (relationship_namespaces p). cbn [build_result graph_relationship_namespace_by_id graph_relationship_display_name_by_id graph_related_by_id].
  split_and!; [done..| | |].
  - unfold dict_wf. rewrite dict_keys_map. apply (select_parents_wf sha1_hex browsed t).
  - intros k. rewrite dict_lookup_map. unfold entries_of. rewrite <-Hg. by destruct (graph_entries p !! k).
  - intros k name ns target Hx. apply Hall, Hns. apply elem_of_app in Hx as [Hx|Hx].
    + left. apply initial_entries_elem in Hx as (s & n & _ & _ & Hx). apply (graph_entry_elem _ _ _ Ht) in Hx as (e & He & Hge & _ & E).
      apply Hn. right. exists e. split_and!; [done|done|]. by rewrite <-E.
    + right. pose proof Hx as Hx'. apply (organized_elem _ _ _ Ht) in Hx as (e & He & E). injection E as -> -> ->. split; [|done].
      exists k. destruct (hierarchy_candidates t !! k) as [cs|]; [|by apply not_elem_of_nil in Hx']. exists cs. split; [done|].
      cbn in Hx'. by intros E; rewrite E in Hx'; apply not_elem_of_nil in Hx'.
Qed.

(** The relationship of an entry carries its name and namespace. *)
Lemma relation_names t ids names k rel target :
  ids_inv names ids ->
  (forall k name ns target, (name, ns, target) ∈ entries_of t k -> is_Some (id_of ids !! (name, ns))) ->
  (rel, target) ∈ map (relation_of ids) (entries_of t k) <->
  exists name ns, namespace_by_id ids !! rel = Some ns /\ display_name_by_id ids !! rel = Some name /\ (name, ns, target) ∈ entries_of t k.
Proof.
  intros Hinv Hall. rewrite elem_of_map. split.
  - intros ([[name ns] tgt] & E & Hin). cbn in E. injection E as -> ->. destruct (Hall _ _ _ _ Hin) as [id Hid]. rewrite Hid. cbn.
    exists name, ns. by destruct (ids_back _ _ Hinv _ _ _ Hid) as [-> ->].
  - intros (name & ns & Hns & Hd & Hin). exists (name, ns, target). split; [|done]. cbn.
    destruct (ids_onto _ _ Hinv _ _ Hns) as (name' & Hid & _). destruct (ids_back _ _ Hinv _ _ _ Hid) as [_ Hd'].
    assert (name' = name) as -> by congruence. by rewrite Hid.
Qed.
End Graph.

(** The graph relationships of a built model stand for exactly the classified references that
    are neither hierarchical nor compositional, under the name and the namespace of their reference
    type, and for the secondary parents that lost the selection, when different nodes have
    different element ids. *)
Theorem graph_relationships_exact sha1_hex client r source target rel :
  build sha1_hex client = Ok r -> ids_distinct sha1_hex client ->
  (rel, target) ∈ default [] (graph_related_by_id r !! source) <->
  exists name namespace,
    graph_relationship_namespace_by_id r !! rel = Some namespace /\ graph_relationship_display_name_by_id r !! rel = Some name /\
    graph_reason sha1_hex client source target name namespace.
Proof.
  intros Hr Hd. destruct (result_graph _ _ _ Hr) as (t & ids & names & Ht & Hinv & -> & -> & _ & Hg & Hall).
  rewrite Hg, (relation_names _ _ _ _ _ _ _ _ Hinv Hall).
  split; intros (name & ns & Hns & Hdn & Hx); exists name, ns; (split_and!; [done|done|]);
    [by eapply entries_reason|by eapply reason_entries].
Qed.

Lemma demo_ids_distinct : ids_distinct demo_hash demo_client.
Proof.
  intros s n s' n' Hs Hs'. apply dict_lookup_items in Hs, Hs'.
  assert (forall x y, x ∈ dict_items (by_source_node (gather demo_client)) -> y ∈ dict_items (by_source_node (gather demo_client)) ->
    (negb (bool_decide (element_id demo_hash (gather demo_client) x.2 = element_id demo_hash (gather demo_client) y.2)) ||
     bool_decide (x.1 = y.1))%bool = true) as Hall.
  { intros x y Hx Hy. assert (forallb (fun x => forallb (fun y =>
      (negb (bool_decide (element_id demo_hash (gather demo_client) x.2 = element_id demo_hash (gather demo_client) y.2)) ||
       bool_decide (x.1 = y.1))%bool) (dict_items (by_source_node (gather demo_client)))) (dict_items (by_source_node (gather demo_client))) = true) as Hf
      by (vm_compute; reflexivity).
    rewrite List.forallb_forall in Hf. apply list_elem_of_In, Hf in Hx. rewrite List.forallb_forall in Hx.
    by apply list_elem_of_In, Hx in Hy. }
  specialize (Hall _ _ Hs Hs'). cbn [fst snd] in Hall. intros E. rewrite (bool_decide_true _ E) in Hall. cbn in Hall. by bool_hyps.
Qed.

Lemma graph_relationships_exact_witness :
  ("OrganizedBy", "asset-urn:x;s=B") ∈ default [] (graph_related_by_id demo_result !! "asset-urn:x;s=M") <->
  exists name namespace,
    graph_relationship_namespace_by_id demo_result !! "OrganizedBy" = Some namespace /\
    graph_relationship_display_name_by_id demo_result !! "OrganizedBy" = Some name /\
    graph_reason demo_hash demo_client "asset-urn:x;s=M" "asset-urn:x;s=B" name namespace.
Proof.
  pose proof (graph_relationships_exact demo_hash demo_client demo_result "asset-urn:x;s=M" "asset-urn:x;s=B" "OrganizedBy"
    demo_builds demo_ids_distinct) as H. exact H.
Defined.

Lemma best_edge_known sha1_hex client c child p :
  best_edge (edges_to sha1_hex client c child) (Some p) -> known sha1_hex client p /\ known sha1_hex client child.
Proof.
  intros (e & He & -> & _). apply edges_to_spec in He as (He & _ & <-). by apply edge_known.
Qed.

Lemma graph_reason_known sha1_hex client source target name ns :
  graph_reason sha1_hex client source target name ns -> known sha1_hex client source /\ known sha1_hex client target.
Proof.
  intros [e He _ <- <- _ _|e [He _] <- _ _]; [by apply edge_known|].
  apply edges_to_spec in He as (He & _ & <-). apply edge_known in He. tauto.
Qed.

Lemma result_closed sha1_hex client r :
  build sha1_hex client = Ok r ->
  let present id := is_Some (nodes_by_id r !! id) in
  (forall s n, by_source_node (gather client) !! s = Some n -> present (element_id sha1_hex (gather client) n)) /\
  (forall id, id ∈ root_ids r -> present id) /\
  (forall child parent, hierarchy_parent_by_id r !! child = Some parent -> present child /\ present parent) /\
  (forall child parent, composition_parent_by_id r !! child = Some parent -> present child /\ present parent) /\
  (forall source rel target, (rel, target) ∈ default [] (graph_related_by_id r !! source) -> present source /\ present target) /\
  (forall id n child, nodes_by_id r !! id = Some n -> child ∈ n_children n -> present child).
Proof.
  intros Hr. cbv zeta. pose proof (gather_ok client) as Hb.
  assert (forall id, known sha1_hex client id -> is_Some (nodes_by_id r !! id)) as Hk by (intros id; by apply known_in_model).
  destruct (result_parents _ _ Hb _ Hr) as [Hh Hc].
  destruct (result_nodes _ _ Hb _ Hr) as (p & g & r0 & st & Hinv & Hn & Hroots & _).
  split_and!.
  - intros s n Hs. by eapply known_node.
  - intros id Hid. rewrite Hroots in Hid. apply (inv_roots _ _ _ _ _ _ _ Hinv) in Hid as [(s & n & Hin & ->) _].
    eapply known_node; [done..|]. by apply dict_items_lookup; [apply Hb|].
  - intros child parent Hp. specialize (Hh child). rewrite Hp in Hh. apply best_edge_known in Hh as [? ?]. auto.
  - intros child parent Hp. specialize (Hc child). rewrite Hp in Hc. apply best_edge_known in Hc as [? ?]. auto.
  - intros source rel target Hin. destruct (result_graph _ _ _ Hr) as (t & ids & names & Ht & Hinv' & _ & _ & _ & Hg & Hall).
    rewrite Hg in Hin. apply (relation_names _ _ _ _ _ _ _ _ Hinv' Hall) in Hin as (name & ns & _ & _ & Hin).
    apply (entries_reason _ _ _ _ _ _ _ Ht), graph_reason_known in Hin as [? ?]. auto.
  - intros id n child Hid Hin. rewrite Hn in Hid. destruct (inv_mapped _ _ _ _ _ _ _ Hinv _ _ Hid) as (s & o & _ & _ & ->).
    cbn in Hin. apply elem_of_map in Hin as ([c nc] & -> & Hin). apply child_sources_browsed in Hin. by eapply known_node.
Qed.

Lemma reserved_not_inverse n rel : n ∈ reserved -> n ≠ "inverseOf_" +:+ rel.
Proof.
  unfold reserved. rewrite !elem_of_cons. intros [->|[->|[->|[->|Hn]]]]; [discriminate..|]. by apply not_elem_of_nil in Hn.
Qed.

(** The relationships of two forests and a graph. *)
Section Cases.
Context (H C : string -> string -> Prop) (G : string -> string -> string -> Prop).

Definition related_cases (s n t : string) : Prop :=
  (n = "HasChildren" /\ H s t) \/ (n = "HasParent" /\ H t s) \/ (n = "HasComponent" /\ C s t) \/ (n = "ComponentOf" /\ C t s) \/
  G s n t \/ (exists rel, n = "inverseOf_" +:+ rel /\ G t rel s).

Lemma related_cases_reserved s t :
  (forall n s t, n ∈ reserved -> ~ G s n t) ->
  (related_cases s "HasChildren" t <-> H s t) /\ (related_cases s "HasParent" t <-> H t s) /\
  (related_cases s "HasComponent" t <-> C s t) /\ (related_cases s "ComponentOf" t <-> C t s).
Proof.
  intros Hres. unfold related_cases.
  assert (forall n, n ∈ reserved -> (G s n t \/ (exists rel, n = "inverseOf_" +:+ rel /\ G t rel s)) <-> False) as Hno.
  { intros n Hn. split; [|done]. intros [Hx|(rel & Hx & _)]; [by eapply Hres|by apply (reserved_not_inverse _ rel) in Hn]. }
  rewrite !Hno by (unfold reserved; set_solver). intuition congruence.
Qed.

Lemma related_cases_graph s id t :
  (forall s n t, G s n t -> startswith "inverseOf_" n = false) -> id ∉ reserved -> startswith "inverseOf_" id = false ->
  (related_cases s id t <-> G s id t) /\ (related_cases s ("inverseOf_" +:+ id) t <-> G t id s).
Proof.
  intros Hg Hid Hi. unfold related_cases. split; (split; [|eauto 10]).
  - intros [[-> _]|[[-> _]|[[-> _]|[[-> _]|[Hx|(rel & -> & _)]]]]]; try done; try (exfalso; apply Hid; unfold reserved; set_solver).
  - intros [[E _]|[[E _]|[[E _]|[[E _]|[Hx|(rel & E & Hx)]]]]]; try discriminate E.
    + apply Hg in Hx. by rewrite inverse_startswith in Hx.
    + apply (inj (String.append "inverseOf_")) in E as ->. done.
Qed.
End Cases.

(** The relationships of a result, in terms of its children lists and graph relationships. *)
Lemma result_relationships sha1_hex client r :
  build sha1_hex client = Ok r ->
  (forall s n t, related (relationships_by_id r) s n t <->
     related_cases (fun x y => y ∈ default [] (hierarchy_children_by_id r !! x)) (fun x y => y ∈ default [] (composition_children_by_id r !! x))
       (fun x n y => (n, y) ∈ default [] (graph_related_by_id r !! x)) s n t) /\
  no_repeats (relationships_by_id r) /\
  (forall s, dict_wf (default ∅ (relationships_by_id r !! s))).
Proof.
  intros Hr. pose proof (gather_ok client) as Hb.
  destruct (result_nodes _ _ Hb _ Hr) as (p & g & r0 & st & Hinv & _ & _ & Hrel & Eg & _ & Er0 & Ehc & Ecc & _).
  destruct (result_graph _ _ _ Hr) as (t & ids & names & _ & _ & _ & _ & Hwg & _). rewrite Eg in Hwg |- *.
  assert (dict_wf (hierarchy_children p) /\ dict_wf (composition_children p)) as [Hw1 Hw2].
  { rewrite Ehc, Ecc. clear -Hr. apply build_browsed_inv in Hr as (t & ids & _ & _ & ->).
    destruct (select_parents_wf sha1_hex (gather client) t) as (? & ? & _). by split. }
  split_and!.
  - intros s n t'. unfold related at 1. rewrite Hrel, (inv_relationships _ _ _ _ _ _ _ Hinv), Er0, <-Ehc, <-Ecc.
    exact (related_build _ _ _ s n t' Hw1 Hw2 Hwg).
  - intros s n. rewrite Hrel, (inv_relationships _ _ _ _ _ _ _ Hinv), Er0. apply no_repeats_build.
  - intros s. rewrite Hrel, (inv_relationships _ _ _ _ _ _ _ Hinv), Er0. apply relationship_names_build.
Qed.

(** C8. The relationships of a built model are the two built-in pairs, read off the parents, and one
    pair per graph relationship; every relationship is listed with its inverse and no target twice.
    The names never clash as long as no namespace begins like an inverse. *)
Theorem relationships_exact sha1_hex client r :
  build sha1_hex client = Ok r ->
  (forall id ns, graph_relationship_namespace_by_id r !! id = Some ns -> startswith "inverseOf_" ns = false) ->
  let rel := related (relationships_by_id r) in
  (forall s t, (rel s "HasChildren" t <-> hierarchy_parent_by_id r !! t = Some s) /\
               (rel s "HasParent" t <-> hierarchy_parent_by_id r !! s = Some t) /\
               (rel s "HasComponent" t <-> composition_parent_by_id r !! t = Some s) /\
               (rel s "ComponentOf" t <-> composition_parent_by_id r !! s = Some t)) /\
  (forall id s t, is_Some (graph_relationship_namespace_by_id r !! id) ->
     (rel s id t <-> (id, t) ∈ default [] (graph_related_by_id r !! s)) /\
     (rel s ("inverseOf_" +:+ id) t <-> (id, s) ∈ default [] (graph_related_by_id r !! t))) /\
  no_repeats (relationships_by_id r).
Proof.
  intros Hr Hns. cbv zeta. destruct (result_children _ _ _ Hr) as (Hh & Hc & _).
  destruct (result_relationships _ _ _ Hr) as (Hrel & Hnr & _).
  destruct (result_graph _ _ _ Hr) as (t & ids & names & Ht & Hids & Ens & _ & _ & Hg & Hall).
  assert (forall id, is_Some (graph_relationship_namespace_by_id r !! id) -> id ∉ reserved /\ startswith "inverseOf_" id = false) as Hid.
  { intros id [ns Hid]. pose proof (Hns _ _ Hid) as Hn. rewrite Ens in Hid.
    destruct (ids_onto _ _ Hids _ _ Hid) as (name & Hname & _). rewrite (ids_shape _ _ Hids _ _ _ Hname).
    split; [apply relationship_id_reserved|by apply relationship_id_not_inverse]. }
  assert (forall k id tgt, (id, tgt) ∈ default [] (graph_related_by_id r !! k) -> id ∉ reserved /\ startswith "inverseOf_" id = false) as Hin.
  { intros k id tgt. rewrite Hg, (relation_names _ _ _ _ _ _ _ _ Hids Hall). intros (name & ns & Hx & _).
    apply Hid. rewrite Ens, Hx. by eexists. }
  split_and!; [| |done].
  - intros s t'. rewrite !Hrel, <-!Hh, <-!Hc. apply related_cases_reserved. intros n s' t'' Hn Hx. by apply (proj1 (Hin _ _ _ Hx)).
  - intros id s t' Hi. destruct (Hid _ Hi) as [Hnr' Hni]. rewrite !Hrel. apply related_cases_graph; [|done..].
    intros s' n t'' Hx. apply (Hin _ _ _ Hx).
Qed.

Lemma relationships_exact_witness :
  related (relationships_by_id demo_result) "asset-urn:x;s=B" "inverseOf_Feeds" "asset-urn:x;s=M".
Proof.
  assert (forall id ns, graph_relationship_namespace_by_id demo_result !! id = Some ns -> startswith "inverseOf_" ns = false) as Hns.
  { intros id ns Hid. apply dict_lookup_values in Hid.
    assert (forallb (fun ns => negb (startswith "inverseOf_" ns)) (dict_values (graph_relationship_namespace_by_id demo_result)) = true) as Hf
      by (vm_compute; reflexivity).
    rewrite List.forallb_forall in Hf. apply list_elem_of_In, Hf in Hid. by apply negb_true_iff in Hid. }
  pose proof (relationships_exact demo_hash demo_client _ demo_builds Hns) as (_ & H & _).
  apply (H "Feeds" "asset-urn:x;s=B" "asset-urn:x;s=M"); [vm_compute; by eexists|].
  refine (bool_decide_unpack _ _). vm_compute. exact I.
Defined.

(** ** Failures *)

(** A graph relationship of this name and namespace has to be built. *)
Definition needed (sha1_hex : string -> string) (client : OpcUaClient) (name namespace : string) : Prop :=
  (exists e, e ∈ all_edges sha1_hex (gather client) /\ graph_edge e = true /\ e_name e = name /\
     reference_namespace (gather client) (e_type e) = Ok namespace) \/
  ((exists child e, losing_edge sha1_hex client child e) /\ name = "OrganizedBy" /\ namespace = I3X_NAMESPACE).

Lemma names_needed sha1_hex client t name ns :
  collect_tables sha1_hex (gather client) = Ok t ->
  ns ∈ default [] (relationship_namespaces (select_parents sha1_hex (gather client) t) !! name) -> needed sha1_hex client name ns.
Proof.
  intros Ht. destruct (collect_tables_spec _ _ _ Ht) as ([Hhw _] & _ & Hh & _).
  destruct (select_parents_graph sha1_hex (gather client) t Hhw) as (_ & Hns & _). rewrite Hns.
  pose proof Ht as Ht'. rewrite collect_tables_flat in Ht'. apply record_edges_graph in Ht' as (_ & _ & Hn & _).
  intros [Hx|[(k & cs & Hk & Hne) H']].
  - left. rewrite Hn in Hx. destruct Hx as [Hx|(e & He & Hg & E)]; [by apply not_elem_of_nil in Hx|].
    exists e. pose proof (graph_edge_namespace _ _ _ _ Ht He Hg) as Hr. rewrite E in Hr. by injection E as <- _.
  - right. split; [|done]. destruct (organized_entries sha1_hex (gather client) cs) as [|x l] eqn:Eo; [done|].
    assert (x ∈ default [] (organized_entries sha1_hex (gather client) <$> hierarchy_candidates t !! k)) as Hx.
    { rewrite Hk. cbn. rewrite Eo. by left. }
    apply (organized_elem _ _ _ _ _ Ht) in Hx as (e & He & _). by exists k, e.
Qed.

(** A build fails in two ways only: a graph reference whose type has no known namespace, or two
    different graph relationships that would share one id. A model is built only when every graph
    reference has a namespace. *)
Theorem build_failures sha1_hex client :
  match build sha1_hex client with
  | Ok r => forall e, e ∈ all_edges sha1_hex (gather client) -> graph_edge e = true ->
              is_ok (reference_namespace (gather client) (e_type e)) = true
  | Err (unresolved_reference_namespace id) =>
      exists e, e ∈ all_edges sha1_hex (gather client) /\ graph_edge e = true /\ e_type e = Some id /\
        namespace_uri_from_expanded_node_id (expanded_node_id id (namespace_infos (gather client))) = None
  | Err (ambiguous_relationship_id id) =>
      exists t name ns name' ns', collect_tables sha1_hex (gather client) = Ok t /\
        let names := relationship_namespaces (select_parents sha1_hex (gather client) t) in
        (name, ns) ≠ (name', ns') /\ needed sha1_hex client name ns /\ needed sha1_hex client name' ns' /\
        relationship_id_of names name ns = id /\ relationship_id_of names name' ns' = id
  end.
Proof.
  unfold build, build_browsed. destruct (collect_tables sha1_hex (gather client)) as [t|err] eqn:Ht; cbn.
  - pose proof Ht as Ht'. rewrite collect_tables_flat in Ht'.
    assert (names_ok (relationship_namespaces (select_parents sha1_hex (gather client) t))) as Hok.
    { apply select_parents_names. eapply record_edges_names; [exact Ht'|apply names_ok_empty]. }
    destruct (assign_ids _) as [ids|err] eqn:Hids; cbn; [apply (proj1 (record_edges_graph _ _ _ _ Ht'))|].
    apply (assign_ids_error _ Hok) in Hids as (name & ns & name' & ns' & -> & Hne & H1 & H2 & Heq).
    exists t, name, ns, name', ns'. cbv zeta. split_and!; [done|done|by eapply names_needed..|reflexivity|by symmetry].
  - rewrite collect_tables_flat in Ht. apply record_edges_error in Ht as (e & id & He & Hg & Et & -> & Hr).
    exists e. split_and!; [done..|]. rewrite Et in Hr. unfold reference_namespace in Hr. by destruct (namespace_uri_from_expanded_node_id _).
Qed.

End BuilderSpec.
