(* ===== verification/BuilderClosed.v ===== *)
(** Every element id that a built model contains is the id of one of its nodes.

    [holds_id] lists the places that hold element ids, table by table: keys and values. The proof
    follows the construction: the ids of browsed nodes ([known]) are all that the parents, the
    relationships, the nodes and the indexes are made of. *)

From S2P Require Export BuilderSpec.

Module BuilderClosed.
Import NodeIds Mapper Builder BuilderLemmas BuilderSpec.

(** Where a built model holds an element id. *)
Inductive holds_id (r : BuildResult) : string -> Prop :=
  | ref_root id : id ∈ root_ids r -> holds_id r id
  | ref_child id l x : children_by_id r !! id = Some l -> x ∈ id :: l -> holds_id r x
  | ref_instance type_id l x : instances_by_type_id r !! type_id = Some l -> x ∈ l -> holds_id r x
  | ref_property id node_id : property_to_node r !! id = Some node_id -> holds_id r id
  | ref_action id method : action_to_method r !! id = Some method -> holds_id r id
  | ref_name name id : node_id_by_name r !! name = Some id -> holds_id r id
  | ref_type type id : node_id_by_type r !! type = Some id -> holds_id r id
  | ref_parent id p x : parent_by_id r !! id = Some p -> x ∈ [id; p] -> holds_id r x
  | ref_hierarchy_parent id p x : hierarchy_parent_by_id r !! id = Some p -> x ∈ [id; p] -> holds_id r x
  | ref_composition_parent id p x : composition_parent_by_id r !! id = Some p -> x ∈ [id; p] -> holds_id r x
  | ref_hierarchy_child id l x : hierarchy_children_by_id r !! id = Some l -> x ∈ id :: l -> holds_id r x
  | ref_composition_child id l x : composition_children_by_id r !! id = Some l -> x ∈ id :: l -> holds_id r x
  | ref_graph id l x : graph_related_by_id r !! id = Some l -> x ∈ id :: map snd l -> holds_id r x
  | ref_relationships id by_name : relationships_by_id r !! id = Some by_name -> holds_id r id
  | ref_relationship id by_name name l x :
      relationships_by_id r !! id = Some by_name -> by_name !! name = Some l -> x ∈ l -> holds_id r x
  | ref_role id v : semantic_role_by_id r !! id = Some v -> holds_id r id
  | ref_confidence id v : mapping_confidence_by_id r !! id = Some v -> holds_id r id
  | ref_profiles id v : applied_profile_ids_by_id r !! id = Some v -> holds_id r id
  | ref_namespace id v : namespace_uri_by_id r !! id = Some v -> holds_id r id
  | ref_parent_id id o x : parent_id_by_id r !! id = Some o -> x = id \/ o = Some x -> holds_id r x
  | ref_node_id node_id id : element_id_by_node_id r !! node_id = Some id -> holds_id r id
  | ref_expanded_node_id node_id id : element_id_by_expanded_node_id r !! node_id = Some id -> holds_id r id
  | ref_node id n x : nodes_by_id r !! id = Some n -> x ∈ n_id n :: n_children n \/ n_parent_id n = Some x -> holds_id r x
  | ref_node_relationship id n name l x :
      nodes_by_id r !! id = Some n -> n_relationships n !! name = Some l -> x ∈ l -> holds_id r x.

(** ** Dictionaries with keys and values of a kind *)

Definition keyed {A} (P : string -> Prop) (Q : A -> Prop) (d : dict string A) : Prop :=
  forall k v, d !! k = Some v -> P k /\ Q v.

Definition anything {A} (x : A) : Prop := True.

Lemma fold_left_ind {A B} (P : B -> Prop) (f : B -> A -> B) l acc :
  P acc -> (forall b x, x ∈ l -> P b -> P (f b x)) -> P (fold_left f l acc).
Proof.
  revert acc. induction l as [|x l IH]; intros acc H0 Hs; cbn [fold_left]; [done|].
  apply IH; [apply Hs; [by left|done]|]. intros b y Hy. apply Hs. by right.
Qed.

Section Keyed.
Context (P : string -> Prop).

Lemma keyed_empty {A} (Q : A -> Prop) : keyed P Q ∅.
Proof. done. Qed.

Lemma keyed_insert {A} (Q : A -> Prop) k v d : P k -> Q v -> keyed P Q d -> keyed P Q (<[k := v]> d).
Proof. intros Hk Hv Hd k' v'. rewrite dict_lookup_insert. case_bool_decide; [|apply Hd]. by intros [= <-]; subst. Qed.

Lemma keyed_setdefault {A} (Q : A -> Prop) k v d : P k -> Q v -> keyed P Q d -> keyed P Q (dict_setdefault k v d).
Proof. intros Hk Hv Hd. unfold dict_setdefault. destruct (d !! k); [done|]. by apply keyed_insert. Qed.

Lemma keyed_push {A} (Q : A -> Prop) k x (d : dict string (list A)) :
  P k -> Q x -> keyed P (Forall Q) d -> keyed P (Forall Q) (dict_push k x d).
Proof.
  intros Hk Hx Hd. apply (keyed_insert (Forall Q)); [done| |done]. apply Forall_app. split; [|by apply Forall_singleton].
  destruct (d !! k) as [l|] eqn:E; [|constructor]. by destruct (Hd _ _ E).
Qed.

Lemma keyed_of_list {A} (Q : A -> Prop) l : (forall k v, (k, v) ∈ l -> P k /\ Q v) -> keyed P Q (dict_of_list l).
Proof. intros Hl k v Hd%dict_lookup_of_list_Some. by apply Hl. Qed.

Lemma keyed_map {A B} (Q : A -> Prop) (R : B -> Prop) (f : A -> B) d :
  (forall v, Q v -> R (f v)) -> keyed P Q d -> keyed P R (dict_map f d).
Proof.
  intros Hf Hd k v. rewrite dict_lookup_map. destruct (d !! k) as [v0|] eqn:E; [|done]. intros [= <-].
  destruct (Hd _ _ E). auto.
Qed.
End Keyed.

Create HintDb keyed.
#[export] Hint Resolve keyed_insert keyed_setdefault keyed_push : keyed.

(** ** The construction *)

Section Closed.
Context (sha1_hex : string -> string) (client : OpcUaClient).
Abbreviation browsed := (gather client).
Abbreviation known := (known sha1_hex client).

(** A target of a relation, or a triple before it has its relation id. *)
Definition parents_known (p : Parents) : Prop :=
  keyed known known (hierarchy_parent p) /\ keyed known known (composition_parent p) /\
  keyed known (Forall known) (hierarchy_children p) /\ keyed known (Forall known) (composition_children p) /\
  keyed known (Forall (fun e : string * string * string => known e.2)) (graph_entries p).

Definition candidates_known (d : dict string (list Candidate)) : Prop :=
  keyed known (Forall (fun c : Candidate => known (mapped_id sha1_hex browsed c.1.2))) d.

Lemma tables_known t : collect_tables sha1_hex browsed = Ok t ->
  candidates_known (hierarchy_candidates t) /\ candidates_known (composition_candidates t) /\
  forall s, Forall (fun e : string * string * string => known e.2) (default [] (graph_related_by_source t !! s)).
Proof.
  intros Ht. destruct (collect_tables_spec _ _ _ Ht) as ([_ Hhf] & [_ Hcf] & Hh & Hc).
  assert (forall (cls : ReferenceClass) (d : dict string (list Candidate)),
    (forall k l, d !! k = Some l -> l ≠ []) ->
    (forall c, default [] (d !! c) = map candidate_of (List.filter (edge_to cls c) (all_edges sha1_hex browsed))) ->
    candidates_known d) as Hd.
  { intros cls d Hf He c cs E. specialize (He c). rewrite E in He. cbn in He.
    assert (forall x, x ∈ cs -> exists e, e ∈ all_edges sha1_hex browsed /\ e_child_id e = c /\ x = candidate_of e) as Hx.
    { intros x. rewrite He. intros (e & -> & [Hin Hto]%elem_of_filter_list)%elem_of_map. exists e. unfold edge_to in Hto. bool_hyps. done. }
    split.
    - destruct cs as [|x cs]; [by apply Hf in E|]. destruct (Hx x) as (e & Hin & <- & _); [by left|]. by apply edge_known.
    - apply Forall_forall. intros x (e & Hin & _ & ->)%Hx. cbn.
      destruct (edge_source _ _ (gather_ok client) _ Hin) as (n & _ & _ & ->). by apply edge_known. }
  split_and!; [by eapply Hd|by eapply Hd|]. intros s. apply Forall_forall. intros x Hx.
  apply (graph_entry_elem _ _ _ _ _ Ht) in Hx as (e & He & _ & _ & ->). by apply edge_known.
Qed.

Lemma parents_all_known t : collect_tables sha1_hex browsed = Ok t -> parents_known (select_parents sha1_hex browsed t).
Proof.
  intros Ht. destruct (tables_known t Ht) as (Hh & Hc & Hg).
  assert (forall (d : dict string (list Candidate)) c cs, dict_wf d -> candidates_known d -> (c, cs) ∈ dict_items d ->
    known c /\ forall pr s n, (pr, s, n) ∈ cs -> known (mapped_id sha1_hex browsed s)) as Hin.
  { intros d c cs Hw Hd Hcs%dict_items_lookup; [|done]. destruct (Hd _ _ Hcs) as [Hk Hf]. split; [done|].
    intros pr s n Hx. rewrite Forall_forall in Hf. exact (Hf _ Hx). }
  destruct (collect_tables_spec _ _ _ Ht) as ([Hhw _] & [Hcw _] & _ & _).
  unfold select_parents. apply fold_left_ind; [apply fold_left_ind|].
  - assert (forall s id, (s, id) ∈ dict_items (mapped_id_by_source sha1_hex browsed) -> known id) as Hm.
    { intros s id Hs. unfold mapped_id_by_source, dict_map in Hs. cbn [dict_items] in Hs.
      apply elem_of_map in Hs as ([s' n] & E & Hs). injection E as -> ->. exists s', n. split; [|done].
      by apply dict_items_lookup; [apply (gather_ok client)|]. }
    split_and!; try done; cbn; apply keyed_of_list; intros k v ([s id] & E & Hs)%elem_of_map; cbn in E; injection E as -> ->;
      (split; [by eapply Hm|]); [constructor..|apply Hg].
  - intros p [c cs] Hcs (H1 & H2 & H3 & H4 & H5). destruct (Hin _ _ _ Hhw Hh Hcs) as [Hk Hs]. unfold select_hierarchy_parent.
    destruct (select cs) as [[[pr s] nm]|] eqn:Es; [|done]. apply select_some in Es as [Hsel _]. specialize (Hs _ _ _ Hsel) as Hks.
    assert (forall p, parents_known p -> parents_known (fold_left (organized_by sha1_hex browsed c (pr, s, nm)) cs p)) as Ho.
    { intros p0 H0. apply fold_left_ind; [done|]. intros p1 [[pr' s'] nm'] Hx (G1 & G2 & G3 & G4 & G5). unfold organized_by.
      case_bool_decide; [done|]. specialize (Hs _ _ _ Hx). split_and!; cbn; auto with keyed. }
    destruct (Nat.ltb _ _); [apply Ho|]; split_and!; cbn; auto with keyed.
  - intros p [c cs] Hcs (H1 & H2 & H3 & H4 & H5). destruct (Hin _ _ _ Hcw Hc Hcs) as [Hk Hs]. unfold select_composition_parent.
    destruct (select cs) as [[[pr s] nm]|] eqn:Es; [|done]. apply select_some in Es as [Hsel _]. specialize (Hs _ _ _ Hsel) as Hks.
    split_and!; cbn; auto with keyed.
Qed.

(** Relationships between known elements only. *)
Definition relationships_known (r : relationships) : Prop :=
  keyed known (keyed anything (Forall known)) r.

Lemma append_known r s n t : known s -> known t -> relationships_known r -> relationships_known (append_relationship r s n t).
Proof.
  intros Hs Ht Hr. apply keyed_insert; [done| |done].
  assert (keyed anything (Forall known) (default ∅ (r !! s))) as Hd.
  { destruct (r !! s) as [d|] eqn:E; [|done]. by destruct (Hr _ _ E). }
  apply keyed_insert; [done| |done]. apply Forall_forall. intros x [->|Hx]%set_add_spec; [done|].
  destruct (default ∅ (r !! s) !! n) as [l|] eqn:E; [|by apply not_elem_of_nil in Hx].
  destruct (Hd _ _ E) as [_ Hl]. rewrite Forall_forall in Hl. by apply Hl.
Qed.

Lemma build_relationships_known sources p g :
  (forall id, id ∈ sources -> known id) -> parents_wf p -> parents_known p -> dict_wf g ->
  keyed known (Forall (fun e : string * string => known e.2)) g ->
  relationships_known (build_relationships sources p g).
Proof.
  intros Hsrc (Hw1 & Hw2 & _) (_ & _ & H3 & H4 & _) Hwg Hg. unfold build_relationships.
  assert (forall f i d r, dict_wf d -> keyed known (Forall known) d -> relationships_known r ->
    relationships_known (fold_left (append_children f i) (dict_items d) r)) as Hch.
  { intros f i d r Hw Hd Hr. apply fold_left_ind; [done|]. intros r1 [k cs] Hin Hr1. apply dict_items_lookup in Hin; [|done].
    destruct (Hd _ _ Hin) as [Hk Hf]. rewrite Forall_forall in Hf. unfold append_children. apply fold_left_ind; [done|].
    intros r2 c Hc Hr2. apply append_known; [by apply Hf|done|]. apply append_known; auto. }
  apply fold_left_ind; [apply Hch; [done..|]; apply Hch; [done..|]|].
  - apply keyed_of_list. intros k v (id & E & Hin)%elem_of_map. injection E as -> ->. split; [by apply Hsrc|done].
  - intros r1 [k rs] Hin Hr1. apply dict_items_lookup in Hin; [|done]. destruct (Hg _ _ Hin) as [Hk Hf].
    rewrite Forall_forall in Hf. unfold append_graph. apply fold_left_ind; [done|]. intros r2 [rel c] Hc Hr2.
    specialize (Hf _ Hc). apply append_known; [done|done|]. by apply append_known.
Qed.

(** ** The nodes and the indexes *)

Definition node_known (n : ModelNode) : Prop :=
  known (n_id n) /\ Forall known (n_children n) /\ (forall x, n_parent_id n = Some x -> known x) /\
  keyed anything (Forall known) (n_relationships n).

Record nodes_known (st : Nodes) : Prop := {
  nk_nodes : keyed known node_known (s_nodes st);
  nk_name : keyed anything known (s_name st);
  nk_type : keyed anything known (s_type st);
  nk_instances : keyed anything (Forall known) (s_instances st);
  nk_properties : keyed known anything (s_properties st);
  nk_actions : keyed known anything (s_actions st);
  nk_roots : Forall known (s_roots st);
  nk_roles : keyed known anything (s_roles st);
  nk_confidences : keyed known anything (s_confidences st);
  nk_profiles : keyed known anything (s_profiles st);
  nk_namespaces : keyed known anything (s_namespaces st);
  nk_relationships : relationships_known (s_relationships st);
}.

Lemma source_known s n : by_source_node browsed !! s = Some n -> known (element_id sha1_hex browsed n).
Proof. intros Hs. by exists s, n. Qed.

Lemma resolved_parent_known p id x :
  parents_known p -> resolved_parent sha1_hex browsed p id = Some x -> known x.
Proof.
  intros (Hp & _) Hx. unfold resolved_parent in Hx. destruct (hierarchy_parent p !! id) as [y|] eqn:E.
  - injection Hx as <-. by destruct (Hp _ _ E).
  - destruct (parent_source p !! id) as [s|]; cbn in Hx; [|done]. rewrite mapped_id_by_source_lookup in Hx.
    destruct (by_source_node browsed !! s) as [n|] eqn:Es; [|done]. injection Hx as <-. by eapply source_known.
Qed.

Lemma mapped_known p g r s n :
  parents_known p -> relationships_known r -> by_source_node browsed !! s = Some n ->
  node_known (mapped_node sha1_hex browsed p g r s n).
Proof.
  intros Hp Hr Hs. split_and!.
  - rewrite mapped_node_id. by eapply source_known.
  - apply Forall_forall. cbn. intros x ([c nc] & -> & Hin)%elem_of_map. apply child_sources_browsed in Hin. by eapply source_known.
  - cbn. intros x. by apply resolved_parent_known.
  - cbn. destruct (r !! _) as [d|] eqn:E; [|done]. by destruct (Hr _ _ E).
Qed.

Lemma add_node_known p g st s n :
  parents_known p -> by_source_node browsed !! s = Some n ->
  nodes_known st -> nodes_known (add_node sha1_hex browsed p g st (s, n)).
Proof.
  intros Hp Hs [H1 H2 H3 H4 H5 H6 H7 H8 H9 H10 H11 H12].
  pose proof (mapped_known p g (s_relationships st) s n Hp H12 Hs) as Hm.
  pose proof Hm as (Hid & _ & _ & Hrel). unfold add_node.
  set (m := mapped_node sha1_hex browsed p g (s_relationships st) s n) in *.
  split; cbn [s_nodes s_name s_type s_instances s_properties s_actions s_roots s_roles s_confidences s_profiles s_namespaces s_relationships];
    auto with keyed; repeat case_match; auto with keyed.
  all: try (apply keyed_insert; done); try (apply keyed_setdefault; done); try (by apply keyed_push).
  apply Forall_app. split; [done|]. by apply Forall_singleton.
Qed.

Definition indexed_known (tables : dict string string * dict string string) : Prop :=
  keyed anything known tables.1 /\ keyed anything known tables.2.

Lemma index_node_known tables n : known (n_id n) -> indexed_known tables -> indexed_known (index_node browsed tables n).
Proof.
  assert (forall node_id tables, known (n_id n) -> indexed_known tables ->
    indexed_known (index_canonical browsed (n_id n) node_id tables)) as Hc.
  { intros node_id tb Hn [H1 H2]. unfold index_canonical. repeat case_match; split; cbn; try done; by apply keyed_setdefault. }
  intros Hn Ht. unfold index_node.
  assert (indexed_known (match meta_str (n_metadata n !! "uaNodeId") with
                | Some ua => if truthy ua then index_canonical browsed (n_id n) ua (dict_setdefault ua (n_id n) tables.1, tables.2) else tables
                | None => tables end)) as [H1 H2].
  { repeat case_match; try done. apply Hc; [done|]. destruct Ht. split; cbn; [|done]. by apply keyed_setdefault. }
  repeat (case_match; try done); split; cbn; try done; repeat apply keyed_setdefault; done.
Qed.

Lemma build_known r : build sha1_hex client = Ok r -> forall id, holds_id r id -> known id.
Proof.
  intros (t & ids & Ht & _ & ->)%build_browsed_inv. set (p := select_parents sha1_hex browsed t).
  set (g := dict_map (map (relation_of ids)) (graph_entries p)).
  pose proof (parents_all_known t Ht) as Hp. fold p in Hp. pose proof (select_parents_wf sha1_hex browsed t) as Hw. fold p in Hw.
  assert (keyed known (Forall (fun e : string * string => known e.2)) g) as Hg.
  { eapply keyed_map; [|apply Hp]. intros l Hl. apply Forall_forall. intros [rel x] ([[nm ns] x'] & E & Hin)%elem_of_map.
    unfold relation_of in E. injection E as -> ->. rewrite Forall_forall in Hl. exact (Hl _ Hin). }
  set (st := fold_left _ _ _).
  assert (nodes_known st) as Hst.
  { apply fold_left_ind; [|intros st0 [s n] Hin; apply add_node_known; [done|]; apply dict_items_lookup; [apply (gather_ok client)|done]].
    split; try done. apply (build_relationships_known (dict_values (mapped_id_by_source sha1_hex browsed)) p g); [|done..| |done].
    - unfold dict_values, mapped_id_by_source, dict_map. cbn [dict_items]. intros id ([s x] & -> & Hin)%elem_of_map.
      apply elem_of_map in Hin as ([s' n] & E & Hin). cbn in E. injection E as -> ->. eapply source_known.
      apply dict_items_lookup; [apply (gather_ok client)|done].
    - unfold dict_wf, g. rewrite dict_keys_map. apply Hw. }
  assert (indexed_known (fold_left (index_node browsed) (dict_values (s_nodes st)) (∅, ∅))) as [Hi1 Hi2].
  { apply fold_left_ind; [done|]. intros tb n Hn. apply index_node_known.
    unfold dict_values in Hn. apply elem_of_map in Hn as ([k n'] & -> & Hin). cbn.
    assert (dict_wf (s_nodes st)) as Hws by apply (inv_wf _ _ _ _ _ _ _ (add_nodes_inv sha1_hex browsed p g _ _)).
    apply dict_items_lookup in Hin; [|done]. by destruct (nk_nodes _ Hst _ _ Hin) as [_ [? _]]. }
  assert (forall x l, Forall known l -> x ∈ l -> known x) as Hall by (intros x l Hl; rewrite Forall_forall in Hl; apply Hl).
  destruct Hp as (Hp1 & Hp2 & Hp3 & Hp4 & _). destruct Hst as [H1 H2 H3 H4 H5 H6 H7 H8 H9 H10 H11 H12].
  assert (forall x k y (d : dict string string), keyed known known d -> d !! k = Some y -> x ∈ [k; y] -> known x) as Hpair.
  { intros x k y d Hd [Hk Hy]%Hd. set_solver. }
  assert (forall x k l (d : dict string (list string)), keyed known (Forall known) d -> d !! k = Some l -> x ∈ k :: l -> known x) as Hlist.
  { intros x k l d Hd [Hk Hl]%Hd [->|Hx]%elem_of_cons; [done|by eapply Hall]. }
  intros id Href.
  destruct Href as [x Hx|k l x Hx Hin|k l x Hx Hin|x y Hx|x y Hx|k x Hx|k x Hx|k y x Hx Hin|k y x Hx Hin|k y x Hx Hin|k l x Hx Hin|k l x Hx Hin
    |k l x Hx Hin|x y Hx|k d name l x Hx Hl Hin|x y Hx|x y Hx|x y Hx|x y Hx|k o x Hx Hin|k x Hx|k x Hx|k n x Hx Hin|k n name l x Hx Hl Hin];
    cbn in Hx.
  - by eapply Hall.
  - rewrite dict_lookup_map in Hx. destruct (s_nodes st !! k) as [n|] eqn:E; [|done]. injection Hx as <-.
    destruct (H1 _ _ E) as [Hk (_ & Hc & _)]. apply elem_of_cons in Hin as [->|Hin]; [done|by eapply Hall].
  - apply H4 in Hx as [_ Hx]. by eapply Hall.
  - by apply H5 in Hx as [].
  - by apply H6 in Hx as [].
  - by apply H2 in Hx as [].
  - by apply H3 in Hx as [].
  - exact (Hpair _ _ _ _ Hp1 Hx Hin).
  - exact (Hpair _ _ _ _ Hp1 Hx Hin).
  - exact (Hpair _ _ _ _ Hp2 Hx Hin).
  - exact (Hlist _ _ _ _ Hp3 Hx Hin).
  - exact (Hlist _ _ _ _ Hp4 Hx Hin).
  - apply Hg in Hx as [Hk Hl]. apply elem_of_cons in Hin as [->|([rel y] & -> & Hin)%elem_of_map]; [done|].
    rewrite Forall_forall in Hl. exact (Hl _ Hin).
  - by apply H12 in Hx as [].
  - apply H12 in Hx as [_ Hx]. apply Hx in Hl as [_ Hl]. by eapply Hall.
  - by apply H8 in Hx as [].
  - by apply H9 in Hx as [].
  - by apply H10 in Hx as [].
  - by apply H11 in Hx as [].
  - apply dict_lookup_of_list_Some in Hx. apply elem_of_map in Hx as (k' & E & Hk). injection E as -> ->.
    destruct Hin as [->|Hin]; [|by eapply resolved_parent_known; [exact (parents_all_known t Ht)|]].
    apply elem_of_dict_keys in Hk as [n Hn]. by apply H1 in Hn as [].
  - by apply Hi1 in Hx as [].
  - by apply Hi2 in Hx as [].
  - apply H1 in Hx as [_ (Hid & Hc & Hpar & _)]. destruct Hin as [[->|Hin]%elem_of_cons|Hin]; [done|by eapply Hall|by apply Hpar].
  - apply H1 in Hx as [_ (_ & _ & _ & Hrel)]. apply Hrel in Hl as [_ Hl]. by eapply Hall.
Qed.
End Closed.

(** C10. A built model is closed: every browsed node is an element of it, and every element id
    that the model holds anywhere, as a key or as a value of any of its tables, as a root, or in
    a node (children, parent, relationships), is the id of one of its nodes ([holds_id] lists the
    places). *)
Theorem references_closed sha1_hex client r :
  build sha1_hex client = Ok r ->
  (forall s n, by_source_node (gather client) !! s = Some n ->
     is_Some (nodes_by_id r !! element_id sha1_hex (gather client) n)) /\
  (forall id, holds_id r id -> is_Some (nodes_by_id r !! id)).
Proof.
  intros Hr. split.
  - intros s n Hs. apply (known_in_model sha1_hex client r _ Hr). by exists s, n.
  - intros id Hid. by apply (known_in_model sha1_hex client r _ Hr), (build_known sha1_hex client r Hr).
Qed.

Lemma references_closed_witness : is_Some (nodes_by_id demo_result !! "property-urn:x;s=T").
Proof.
  pose proof (references_closed demo_hash demo_client _ demo_builds) as (_ & H). apply H.
  apply (ref_relationship _ "asset-urn:x;s=M" (default ∅ (relationships_by_id demo_result !! "asset-urn:x;s=M"))
           "HasComponent" ["property-urn:x;s=T"]); [vm_compute; reflexivity..|by left].
Defined.
End BuilderClosed.
