(* ===== verification/OpcuaValue.v ===== *)
(** OPC UA values as Python objects, and their canonical form ([schemas/opcua_value.py]).

    [normalize_opcua_value] rebuilds containers, and rebuilds a dataclass instance only when one
    of its fields came back as another object; [norm] therefore also tells whether its result is
    a new object. *)

From S2P Require Export PyStr.

(** What the subscription queue needs of the values it carries: [normalize_opcua_value], Python's [==] and
    [is None]. No law is assumed: [==] on OPC UA values is not reflexive (NaN). *)
Class PyValue (V : Type) := {
  normalize_opcua_value : V -> V;
  py_eqb : V -> V -> bool;
  py_is_none : V -> bool;
}.

Inductive pyfloat := FNum (q : Q) | FNaN | FInf (negative : bool).

(** [PData cls fields]: a dataclass instance; a field declared [init=False] carries the value
    that re-initialisation gives it ([dataclasses.replace] does not copy such a field). *)
Inductive pyval :=
  | PNone
  | PBool (b : bool)
  | PInt (z : Z)
  | PFloat (f : pyfloat)
  | PStr (s : string)
  | PBytes (l : list Z)
  | PList (l : list pyval)
  | PTuple (l : list pyval)
  | PDict (l : list (pyval * pyval))
  | PArgument (name : string) (value_rank : Z) (array_dimensions : option (list Z))
  | PData (cls : string) (fields : list (string * option pyval * pyval)).

(** ** Canonical form *)

(** The normalised value, and whether it is another object than the argument. *)
Fixpoint norm (v : pyval) : pyval * bool :=
  match v with
  | PArgument name rank dims =>
      if ((rank <=? 0) && bool_decide (is_Some dims))%bool then (PArgument name rank None, true)
      else (v, false)
  | PList l => (PList (map (fun x => (norm x).1) l), true)
  | PTuple l => (PTuple (map (fun x => (norm x).1) l), negb (bool_decide (l = [])))
  | PDict l => (PDict (map (fun p => (p.1, (norm p.2).1)) l), true)
  | PData cls fields =>
      let changed := existsb (fun f => match f.1.2 with None => (norm f.2).2 | Some _ => false end) fields in
      if changed
      then (PData cls (map (fun f => match f.1.2 with
                                     | None => (f.1, (norm f.2).1)
                                     | Some d => (f.1, d)
                                     end) fields), true)
      else (v, false)
  | _ => (v, false)
  end.

Definition normalize (v : pyval) : pyval := (norm v).1.

(** ** Python's [==] *)

Definition num_of (v : pyval) : option pyfloat :=
  match v with
  | PBool b => Some (FNum (if b then 1 else 0)%Q)
  | PInt z => Some (FNum (inject_Z z))
  | PFloat f => Some f
  | _ => None
  end.

Definition pyfloat_eqb (a b : pyfloat) : bool :=
  match a, b with
  | FNum p, FNum q => Qeq_bool p q
  | FInf p, FInf q => Bool.eqb p q
  | _, _ => false
  end.

Fixpoint list_eqb {A} (f : A -> A -> bool) (l1 l2 : list A) : bool :=
  match l1, l2 with
  | [], [] => true
  | x :: l1', y :: l2' => (f x y && list_eqb f l1' l2')%bool
  | _, _ => false
  end.

(** Two values read at different times are different objects, so no identity shortcut applies
    inside containers. Dictionaries compare by key, in any order. *)
Fixpoint pyval_eqb (a b : pyval) {struct a} : bool :=
  match num_of a, num_of b with
  | Some x, Some y => pyfloat_eqb x y
  | _, _ =>
    match a, b with
    | PNone, PNone => true
    | PStr s, PStr t => bool_decide (s = t)
    | PBytes l, PBytes m => bool_decide (l = m)
    | PList l, PList m | PTuple l, PTuple m =>
        (fix go (l m : list pyval) : bool :=
           match l, m with
           | [], [] => true
           | x :: l', y :: m' => (pyval_eqb x y && go l' m')%bool
           | _, _ => false
           end) l m
    | PDict l, PDict m =>
        (bool_decide (length l = length m) &&
         forallb (fun p => existsb (fun q => pyval_eqb p.1 q.1 && pyval_eqb p.2 q.2)%bool m) l)%bool
    | PArgument n r d, PArgument n' r' d' => bool_decide ((n, r, d) = (n', r', d'))
    | PData c fs, PData c' fs' =>
        (bool_decide (c = c') &&
         (fix go (l m : list (string * option pyval * pyval)) : bool :=
            match l, m with
            | [], [] => true
            | x :: l', y :: m' => (pyval_eqb x.2 y.2 && go l' m')%bool
            | _, _ => false
            end) fs fs')%bool
    | _, _ => false
    end
  end.

#[export] Instance pyval_PyValue : PyValue pyval := {|
  normalize_opcua_value := normalize;
  py_eqb := pyval_eqb;
  py_is_none := fun v => match v with PNone => true | _ => false end;
|}.

(** ** Well-formed values: what clients may rely on after normalisation *)

Fixpoint arguments_ok (v : pyval) : Prop :=
  match v with
  | PArgument _ rank dims => rank <= 0 -> dims = None
  | PList l | PTuple l => foldr and True (map arguments_ok l)
  | PDict l => foldr and True (map (fun p => arguments_ok p.2) l)
  | PData _ fields =>
      foldr and True (map (fun f => match f.1.2 with None => arguments_ok f.2 | Some _ => True end) fields)
  | _ => True
  end.

(** ** Induction over nested values *)

Definition is_nested (v : pyval) : bool :=
  match v with PList _ | PTuple _ | PDict _ | PData _ _ => true | _ => false end.

Section PyvalInd.
Context (P : pyval -> Prop).
Context (Hatom : forall v, is_nested v = false -> P v).
Context (Hlist : forall l, Forall P l -> P (PList l)).
Context (Htuple : forall l, Forall P l -> P (PTuple l)).
Context (Hdict : forall l, Forall (fun p => P p.2) l -> P (PDict l)).
Context (Hdata : forall c fs, Forall (fun f => P f.2) fs -> P (PData c fs)).

Fixpoint pyval_nested_ind (v : pyval) : P v :=
  match v as v0 return P v0 with
  | PList l => Hlist l ((fix go l : Forall P l :=
      match l with [] => Forall_nil_2 _ | x :: l' => Forall_cons_2 _ _ _ (pyval_nested_ind x) (go l') end) l)
  | PTuple l => Htuple l ((fix go l : Forall P l :=
      match l with [] => Forall_nil_2 _ | x :: l' => Forall_cons_2 _ _ _ (pyval_nested_ind x) (go l') end) l)
  | PDict l => Hdict l ((fix go l : Forall (fun p => P p.2) l :=
      match l with [] => Forall_nil_2 _ | x :: l' => Forall_cons_2 _ _ _ (pyval_nested_ind x.2) (go l') end) l)
  | PData c fs => Hdata c fs ((fix go l : Forall (fun f => P f.2) l :=
      match l with [] => Forall_nil_2 _ | x :: l' => Forall_cons_2 _ _ _ (pyval_nested_ind x.2) (go l') end) fs)
  | PNone => Hatom PNone eq_refl
  | PBool b => Hatom (PBool b) eq_refl
  | PInt z => Hatom (PInt z) eq_refl
  | PFloat f => Hatom (PFloat f) eq_refl
  | PStr s => Hatom (PStr s) eq_refl
  | PBytes l => Hatom (PBytes l) eq_refl
  | PArgument n r d => Hatom (PArgument n r d) eq_refl
  end.
End PyvalInd.

Lemma foldr_and_map {A} (f : A -> Prop) l : foldr and True (map f l) <-> Forall f l.
Proof. induction l; simpl; [by split|]. rewrite IHl, Forall_cons. done. Qed.

Lemma arguments_ok_normalize v : arguments_ok (normalize v).
Proof.
  unfold normalize. induction v as [v Hv|l IH|l IH|l IH|c fs IH] using pyval_nested_ind.
  - destruct v as [| | | | | | | | |n r d|]; try done; simpl; try done.
    case_goal; simpl; [done|]. intros Hr. destruct d; [|done].
    by rewrite (proj2 (Z.leb_le _ _) Hr), bool_decide_true in Heqb by eauto.
  - simpl. rewrite map_map, foldr_and_map. done.
  - simpl. rewrite map_map, foldr_and_map. done.
  - simpl. rewrite map_map, foldr_and_map. done.
  - simpl. case_goal; simpl.
    + rewrite map_map, foldr_and_map. eapply Forall_impl; [exact IH|].
      intros [[k d] x] Hx; simpl in *. by destruct d.
    + rewrite foldr_and_map. apply Forall_forall. intros [[k d] x] Hin. simpl.
      destruct d; [done|]. rewrite Forall_forall in IH. specialize (IH _ Hin). simpl in IH.
      assert (norm x = (x, false)) as E; [|by rewrite E in IH].
      assert (Hx : (norm x).2 = false).
      { destruct ((norm x).2) eqn:E; [|done]. rewrite <-Heqb. symmetry. apply existsb_exists.
        exists (k, None, x). split; [by apply list_elem_of_In|done]. }
      clear -Hx. destruct x; simpl in *; try done; repeat case_goal; simpl in *; try done.
      bool_hyps. by subst.
Qed.

(** A value reported unchanged is the argument itself. *)
Lemma norm_same v : (norm v).2 = false -> (norm v).1 = v.
Proof.
  destruct v; simpl; try done; repeat case_goal; simpl; try done.
  intros Hl. bool_hyps. by subst.
Qed.

Lemma map_id_Forall {A} (f : A -> A) l : Forall (fun x => f x = x) l -> map f l = l.
Proof. induction 1; simpl; congruence. Qed.

Lemma normalize_idem v : normalize (normalize v) = normalize v.
Proof.
  unfold normalize. induction v as [v Hv|l IH|l IH|l IH|c fs IH] using pyval_nested_ind.
  - destruct v as [| | | | | | | | |n r d|]; try done; simpl; try done.
    case_goal; simpl; [|by rewrite Heqb]. bool_hyps. by rewrite andb_false_r.
  - simpl. f_equal. rewrite map_map. by apply map_ext_Forall.
  - simpl. f_equal. rewrite map_map. by apply map_ext_Forall.
  - simpl. f_equal. rewrite map_map. apply map_ext_Forall.
    eapply Forall_impl; [exact IH|]. intros [k x] Hx; simpl in *. by rewrite Hx.
  - simpl. case_goal; simpl; [|by rewrite Heqb].
    case_goal; simpl; [|done]. f_equal. rewrite map_map. apply map_ext_Forall.
    eapply Forall_impl; [exact IH|]. intros [[k d] x] Hx; simpl in *. destruct d; simpl; [done|]. by rewrite Hx.
Qed.

(** Normalising a value twice is normalising it once, whatever containers, arguments and
    dataclass instances it nests; so a value read back from a queue normalises to itself. *)
Theorem normalize_idempotent v : normalize (normalize v) = normalize v.
Proof. apply normalize_idem. Qed.

(** After normalisation no argument, however deeply nested, declares a scalar (value rank
    [<= 0]) and array dimensions at once. *)
Theorem normalize_arguments_ok v : arguments_ok (normalize v).
Proof. apply arguments_ok_normalize. Qed.
