(* ===== verification/SubQueue.v ===== *)
(** The state of one subscription and its bounded update queue
    ([infrastructure/subscriptions/service.py]: [_SubscriptionState], [_append_update] and the
    parts of [sync], [handle_datachange], [activate_stream], [deactivate_stream],
    [updates_after] and [_to_detail] that work on one state object).

    The main invariant ([queue_ok]) says that the pending updates carry consecutive sequence
    numbers ending at the last one assigned. *)

From S2P Require Export ModelTypes OpcuaValue.

Module SubQueue.
Section SubQueue.
Context {V : Type} `{PyValue V}.

Record SubscriptionUpdate := {
  su_sequence_number : Z;
  su_element_id : string;
  su_node_id : string;
  su_value : V;
  su_quality : string;
  su_timestamp : string;
}.

Record SubscriptionSyncResult := {
  sr_updates : list SubscriptionUpdate;
  sr_queue_overflow : bool;
  sr_dropped_from_sequence : option Z;
  sr_dropped_to_sequence : option Z;
  sr_stream_active : bool;
}.

Record SubscriptionDetail := {
  sd_subscription_id : string;
  sd_client_id : option string;
  sd_display_name : option string;
  sd_monitored_objects : list (string * Z);
  sd_mode : string;
}.

Record SubscriptionState := {
  subscription_id : string;
  client_id : option string;
  display_name : option string;
  monitored_objects : dict string Z;
  monitored_node_ids : gset string;
  node_to_element_id : dict string string;
  handle_to_node_id : dict Z string;
  last_values_by_node_id : dict string V;
  updates : list SubscriptionUpdate;
  sequence_number : Z;
  mode : string;
  update_event : bool;
  active_stream_generation : Z;
  stream_connected : bool;
  dropped_from_sequence : option Z;
  dropped_to_sequence : option Z;
  last_activity_monotonic : Q;
  native_refresh_interval_seconds : option Q;
  native_timeout_count : Z;
}.

(** ** Field assignments *)

Definition set_monitored (mo : dict string Z) (nodes : gset string) (n2e : dict string string)
    (lv : dict string V) (st : SubscriptionState) : SubscriptionState :=
  Build_SubscriptionState (subscription_id st) (client_id st) (display_name st) mo nodes n2e
    (handle_to_node_id st) lv (updates st) (sequence_number st) (mode st) (update_event st)
    (active_stream_generation st) (stream_connected st) (dropped_from_sequence st)
    (dropped_to_sequence st) (last_activity_monotonic st) (native_refresh_interval_seconds st)
    (native_timeout_count st).

Definition set_queue (lv : dict string V) (us : list SubscriptionUpdate) (n : Z)
    (dfrom dto : option Z) (ev : bool) (st : SubscriptionState) : SubscriptionState :=
  Build_SubscriptionState (subscription_id st) (client_id st) (display_name st)
    (monitored_objects st) (monitored_node_ids st) (node_to_element_id st) (handle_to_node_id st)
    lv us n (mode st) ev (active_stream_generation st) (stream_connected st) dfrom dto
    (last_activity_monotonic st) (native_refresh_interval_seconds st) (native_timeout_count st).

Definition set_updates (us : list SubscriptionUpdate) (st : SubscriptionState) : SubscriptionState :=
  set_queue (last_values_by_node_id st) us (sequence_number st) (dropped_from_sequence st)
    (dropped_to_sequence st) (update_event st) st.

Definition set_dropped (dfrom dto : option Z) (st : SubscriptionState) : SubscriptionState :=
  set_queue (last_values_by_node_id st) (updates st) (sequence_number st) dfrom dto (update_event st) st.

Definition set_update_event (ev : bool) (st : SubscriptionState) : SubscriptionState :=
  set_queue (last_values_by_node_id st) (updates st) (sequence_number st) (dropped_from_sequence st)
    (dropped_to_sequence st) ev st.

Definition set_mode (m : string) (nri : option Q) (st : SubscriptionState) : SubscriptionState :=
  Build_SubscriptionState (subscription_id st) (client_id st) (display_name st)
    (monitored_objects st) (monitored_node_ids st) (node_to_element_id st) (handle_to_node_id st)
    (last_values_by_node_id st) (updates st) (sequence_number st) m (update_event st)
    (active_stream_generation st) (stream_connected st) (dropped_from_sequence st)
    (dropped_to_sequence st) (last_activity_monotonic st) nri (native_timeout_count st).

Definition set_stream (gen : Z) (connected : bool) (st : SubscriptionState) : SubscriptionState :=
  Build_SubscriptionState (subscription_id st) (client_id st) (display_name st)
    (monitored_objects st) (monitored_node_ids st) (node_to_element_id st) (handle_to_node_id st)
    (last_values_by_node_id st) (updates st) (sequence_number st) (mode st) (update_event st)
    gen connected (dropped_from_sequence st) (dropped_to_sequence st)
    (last_activity_monotonic st) (native_refresh_interval_seconds st) (native_timeout_count st).

Definition set_timers (last : Q) (timeouts : Z) (st : SubscriptionState) : SubscriptionState :=
  Build_SubscriptionState (subscription_id st) (client_id st) (display_name st)
    (monitored_objects st) (monitored_node_ids st) (node_to_element_id st) (handle_to_node_id st)
    (last_values_by_node_id st) (updates st) (sequence_number st) (mode st) (update_event st)
    (active_stream_generation st) (stream_connected st) (dropped_from_sequence st)
    (dropped_to_sequence st) last (native_refresh_interval_seconds st) timeouts.

(** [_touch]. *)
Definition touch (now : Q) (st : SubscriptionState) : SubscriptionState :=
  set_timers now (native_timeout_count st) st.

Definition set_native_timeout_count (n : Z) (st : SubscriptionState) : SubscriptionState :=
  set_timers (last_activity_monotonic st) n st.

(** The state [create_subscription] builds. *)
Definition new_subscription (sid : string) (cid dname : option string) (now : Q) : SubscriptionState :=
  Build_SubscriptionState sid cid dname ∅ ∅ ∅ ∅ ∅ [] 0 "idle" false 0 false None None now None 0.

(** ** Operations *)

(** The element id an update of [nid] is published under. *)
Definition element_id_of (nid : string) (st : SubscriptionState) : string :=
  let eid :=
    match node_to_element_id st !! nid with
    | Some e => e
    | None => default nid (node_to_element_id st !! lower nid)
    end in
  match dict_keys (monitored_objects st) with
  | [k] => if bool_decide (eid = nid) then k else eid
  | _ => eid
  end.

(** [_append_update]: [max_updates] is the queue bound, [ts] the wall clock. *)
Definition append_update (max_updates : Z) (ts : string) (nid : string) (v : V)
    (st : SubscriptionState) : SubscriptionState :=
  let value := normalize_opcua_value v in
  let unchanged :=
    match last_values_by_node_id st !! nid with
    | Some current => py_eqb current value
    | None => false
    end in
  if unchanged then st else
  let n := sequence_number st + 1 in
  let quality := if py_is_none value then "GoodNoData" else "Good" in
  let '(us, dfrom, dto) :=
    if max_updates <=? Z.of_nat (length (updates st)) then
      match updates st with
      | dropped :: rest =>
          (rest,
           match dropped_from_sequence st with
           | None => Some (su_sequence_number dropped)
           | Some f => Some f
           end,
           Some (su_sequence_number dropped))
      | [] => ([], dropped_from_sequence st, dropped_to_sequence st)
      end
    else (updates st, dropped_from_sequence st, dropped_to_sequence st) in
  let u := {| su_sequence_number := n; su_element_id := element_id_of nid st; su_node_id := nid;
              su_value := value; su_quality := quality; su_timestamp := ts |} in
  set_queue (<[nid := value]> (last_values_by_node_id st)) (us ++ [u]) n dfrom dto true st.

(** The updates with a sequence number above [after]. *)
Definition updates_above (after : Z) (st : SubscriptionState) : list SubscriptionUpdate :=
  List.filter (fun u => after <? su_sequence_number u) (updates st).

(** The acknowledgement part of [sync]. *)
Definition acknowledge (ack : option Z) (st : SubscriptionState) : SubscriptionState :=
  match ack with
  | None => st
  | Some a =>
      if a =? -1 then set_updates [] st
      else if ((0 <=? a) && (a <=? sequence_number st))%bool then set_updates (updates_above a st) st
      else st
  end.

(** The final part of [sync]: hand over what is pending and the dropped range, and forget the
    range. *)
Definition collect (st : SubscriptionState) : SubscriptionSyncResult * SubscriptionState :=
  ({| sr_updates := updates st;
      sr_queue_overflow := bool_decide (is_Some (dropped_from_sequence st));
      sr_dropped_from_sequence := dropped_from_sequence st;
      sr_dropped_to_sequence := dropped_to_sequence st;
      sr_stream_active := false |},
   set_dropped None None st).

(** Whether [sync] re-reads the monitored nodes before it answers. *)
Definition should_refresh (ack : option Z) (st : SubscriptionState) : bool :=
  (bool_decide (ack = None) && bool_decide (updates st = []) && negb (bool_decide (monitored_node_ids st = ∅)))%bool.

(** The node a notification is attributed to, [None] when it is discarded. *)
Definition resolve_datachange (nid : string) (handle : option Z) (st : SubscriptionState) : option string :=
  let resolved :=
    match handle with
    | Some h => default nid (handle_to_node_id st !! h)
    | None => nid
    end in
  if bool_decide (resolved ∈ monitored_node_ids st) then Some resolved
  else
    let mapped_element :=
      match node_to_element_id st !! resolved with
      | Some e => Some e
      | None => node_to_element_id st !! lower resolved
      end in
    if (bool_decide (mapped_element = None) && bool_decide (monitored_node_ids st = ∅))%bool then None
    else if bool_decide (size (monitored_node_ids st) = 1%nat) then head (elements (monitored_node_ids st))
    else match mapped_element with
         | None => None
         | Some _ => Some resolved
         end.

(** [handle_datachange] on one state. *)
Definition deliver (max_updates : Z) (ts nid : string) (v : V) (handle : option Z)
    (st : SubscriptionState) : SubscriptionState :=
  match resolve_datachange nid handle st with
  | None => st
  | Some r => set_native_timeout_count 0 (append_update max_updates ts r v st)
  end.

Definition activate (now : Q) (st : SubscriptionState) : SubscriptionState :=
  set_update_event true (touch now (set_stream (active_stream_generation st + 1) true st)).

Definition deactivate (now : Q) (generation : Z) (st : SubscriptionState) : SubscriptionState :=
  if active_stream_generation st =? generation
  then touch now (set_stream (active_stream_generation st) false st)
  else st.

(** [_to_detail]. *)
Definition to_detail (st : SubscriptionState) : SubscriptionDetail :=
  {| sd_subscription_id := subscription_id st;
     sd_client_id := client_id st;
     sd_display_name := display_name st;
     sd_monitored_objects := dict_items (monitored_objects st);
     sd_mode := mode st |}.

(** ** Invariant *)

Definition seqs (st : SubscriptionState) : list Z := map su_sequence_number (updates st).

Record queue_ok (max_updates : Z) (st : SubscriptionState) : Prop := {
  qo_seqs : seqs st = seqZ (sequence_number st - Z.of_nat (length (updates st)) + 1)
                           (Z.of_nat (length (updates st)));
  qo_len : Z.of_nat (length (updates st)) <= max_updates;
  qo_pos : Z.of_nat (length (updates st)) <= sequence_number st;
  qo_dropped :
    match dropped_from_sequence st, dropped_to_sequence st with
    | None, None => True
    | Some f, Some t => 1 <= f <= t /\ t <= sequence_number st - Z.of_nat (length (updates st))
    | _, _ => False
    end;
}.

(** ** Runs

    What happens to a queue over its life, with the history that an auditor of the deliveries would
    keep: the highest sequence number that the client acknowledged, the dropped ranges that a sync
    told it about, and those that were collected when a stream was opened: [begin_stream_session]
    collects through [sync], and the stream that follows sends the updates without the range. *)

Inductive collector := SyncRequest | StreamOpening.

Inductive queue_op :=
  | QDeliver (nid : string) (v : V) (handle : option Z) (ts : string)
  | QAppend (nid : string) (v : V) (ts : string)
  | QAcknowledge (ack : option Z)
  | QCollect (by_ : collector)
  | QActivate (now : Q)
  | QDeactivate (now : Q) (generation : Z)
  | QMonitor (mo : dict string Z) (nodes : gset string) (n2e : dict string string) (lv : dict string V)
  | QMode (m : string) (nri : option Q)
  | QTimers (last : Q) (timeouts : Z).

Record history := { h_acked : Z; h_reported : list (Z * Z); h_forgotten : list (Z * Z) }.

Definition no_history : history := {| h_acked := 0; h_reported := []; h_forgotten := [] |}.

Definition effective_ack (ack : option Z) (st : SubscriptionState) : Z :=
  match ack with
  | None => 0
  | Some a => if a =? -1 then sequence_number st
              else if ((0 <=? a) && (a <=? sequence_number st))%bool then a else 0
  end.

Definition reported_range (r : SubscriptionSyncResult) : list (Z * Z) :=
  match sr_dropped_from_sequence r, sr_dropped_to_sequence r with
  | Some f, Some t => [(f, t)]
  | _, _ => []
  end.

Definition queue_step (max_updates : Z) (hs : history * SubscriptionState) (op : queue_op) :
    history * SubscriptionState :=
  let '(h, st) := hs in
  match op with
  | QDeliver nid v handle ts => (h, deliver max_updates ts nid v handle st)
  | QAppend nid v ts => (h, append_update max_updates ts nid v st)
  | QAcknowledge ack =>
      ({| h_acked := Z.max (h_acked h) (effective_ack ack st); h_reported := h_reported h; h_forgotten := h_forgotten h |},
       acknowledge ack st)
  | QCollect by_ =>
      let '(r, st') := collect st in
      (match by_ with
       | SyncRequest => {| h_acked := h_acked h; h_reported := reported_range r ++ h_reported h; h_forgotten := h_forgotten h |}
       | StreamOpening => {| h_acked := h_acked h; h_reported := h_reported h; h_forgotten := reported_range r ++ h_forgotten h |}
       end, st')
  | QActivate now => (h, activate now st)
  | QDeactivate now g => (h, deactivate now g st)
  | QMonitor mo nodes n2e lv => (h, set_monitored mo nodes n2e lv st)
  | QMode m nri => (h, set_mode m nri st)
  | QTimers l n => (h, set_timers l n st)
  end.

Definition queue_run (max_updates : Z) (ops : list queue_op) (hs : history * SubscriptionState) :
    history * SubscriptionState :=
  fold_left (queue_step max_updates) ops hs.

Definition in_range (ranges : list (Z * Z)) (k : Z) : Prop := exists f t, (f, t) ∈ ranges /\ f <= k <= t.

(** A sequence number is accounted for when it is still pending, was acknowledged, lies in the
    dropped range that the next collect takes, or in one that a sync reported. *)
Definition accounted (h : history) (st : SubscriptionState) (k : Z) : Prop :=
  k ∈ seqs st \/ k <= h_acked h \/
  (exists f t, dropped_from_sequence st = Some f /\ dropped_to_sequence st = Some t /\ f <= k <= t) \/
  in_range (h_reported h) k.

(** Or it was in a range that the opening of a stream took. *)
Definition traced (h : history) (st : SubscriptionState) (k : Z) : Prop := accounted h st k \/ in_range (h_forgotten h) k.

Definition opens_stream (op : queue_op) : bool := match op with QCollect StreamOpening => true | _ => false end.

(** ** Lemmas *)

Lemma filter_seqZ a m n :
  List.filter (fun x => a <? x) (seqZ m n) = seqZ (Z.max m (a + 1)) (n - (Z.max m (a + 1) - m)).
Proof.
  destruct (decide (n <= 0)) as [|Hn].
  { rewrite !seqZ_nil by lia. done. }
  rewrite <-(Z2Nat.id n) by lia. generalize (Z.to_nat n) as k. clear. intros k.
  revert m. induction k as [|k IH]; intros m; [rewrite !seqZ_nil by lia; done|].
  rewrite seqZ_cons by lia. simpl. rewrite Nat2Z.inj_succ, Z.pred_succ, IH.
  destruct (Z.ltb_spec a m).
  - rewrite (Z.max_l m), (Z.max_l (Z.succ m)) by lia.
    rewrite (seqZ_cons m) by lia. f_equal. f_equal; lia.
  - rewrite (Z.max_r m) by lia. destruct (decide (a = m)) as [->|].
    + rewrite Z.max_l by lia. f_equal; lia.
    + rewrite Z.max_r by lia. f_equal; lia.
Qed.

Lemma seqs_filter (p : Z -> bool) (us : list SubscriptionUpdate) :
  map su_sequence_number (List.filter (fun u => p (su_sequence_number u)) us) =
  List.filter p (map su_sequence_number us).
Proof. induction us as [|u us IH]; simpl; [done|]. destruct (p _); simpl; by rewrite IH. Qed.

Lemma length_seqs st : length (seqs st) = length (updates st).
Proof. apply length_map. Qed.

(** Operations that touch neither the queue nor its counters. *)
Definition same_queue (st st' : SubscriptionState) : Prop :=
  updates st' = updates st /\ sequence_number st' = sequence_number st /\
  dropped_from_sequence st' = dropped_from_sequence st /\
  dropped_to_sequence st' = dropped_to_sequence st.

Lemma same_queue_ok max_updates st st' :
  same_queue st st' -> queue_ok max_updates st -> queue_ok max_updates st'.
Proof.
  intros (Hu & Hn & Hf & Ht) [H1 H2 H3 H4]. unfold seqs in *.
  split; unfold seqs; rewrite ?Hu, ?Hn, ?Hf, ?Ht; done.
Qed.

Lemma same_queue_deactivate now g st : same_queue st (deactivate now g st).
Proof. unfold deactivate. by case_goal. Qed.

Lemma same_queue_accounted h st st' k : same_queue st st' -> accounted h st k -> accounted h st' k.
Proof. intros (Hu & Hn & Hf & Ht). unfold accounted, seqs. by rewrite Hu, Hf, Ht. Qed.

(** One append: either nothing changes, or the next number is assigned to the new last update,
    and the queue loses at most its head, which is then recorded as dropped. *)
Lemma append_update_cases max_updates ts nid v st :
  append_update max_updates ts nid v st = st \/
  exists u us dfrom dto lv,
    append_update max_updates ts nid v st =
      set_queue lv (us ++ [u]) (sequence_number st + 1) dfrom dto true st /\
    su_sequence_number u = sequence_number st + 1 /\
    (us = updates st /\ dfrom = dropped_from_sequence st /\ dto = dropped_to_sequence st /\
     (Z.of_nat (length us) < max_updates \/ us = []) \/
     exists d, updates st = d :: us /\ dto = Some (su_sequence_number d) /\
       max_updates <= Z.of_nat (length (updates st)) /\
       dfrom = match dropped_from_sequence st with
               | None => Some (su_sequence_number d) | Some f => Some f end).
Proof.
  unfold append_update. case_goal; [by left|]. right.
  destruct (Z.leb_spec max_updates (Z.of_nat (length (updates st)))) as [Hle|Hle];
    [destruct (updates st) as [|d rest] eqn:Hup|].
  all: do 5 eexists; split_and!; [reflexivity|done|].
  - left. auto.
  - right. exists d. auto.
  - left. auto.
Qed.

Lemma seqZ_snoc m n : 0 <= n -> seqZ m (n + 1) = seqZ m n ++ [m + n].
Proof. intros. rewrite seqZ_app by lia. f_equal. Qed.

Lemma append_update_ok max_updates ts nid v st :
  1 <= max_updates -> queue_ok max_updates st -> queue_ok max_updates (append_update max_updates ts nid v st).
Proof.
  intros Hmax [H1 H2 H3 H4].
  destruct (append_update_cases max_updates ts nid v st)
    as [->|(u & us & dfrom & dto & lv & -> & Hu & Hcase)]; [by split|].
  unfold seqs in *. destruct Hcase as [(-> & -> & -> & Hlt)|(d & Hup & -> & Hle & ->)].
  - assert (Z.of_nat (length (updates st)) < max_updates) by (destruct Hlt as [|E]; [lia|rewrite E; simpl; lia]).
    split; unfold seqs; simpl; rewrite ?length_app; simpl; rewrite ?Nat2Z.inj_add; try lia.
    + rewrite map_app, H1. simpl. rewrite seqZ_snoc by lia. f_equal; f_equal; lia.
    + repeat case_match; try done; lia.
  - rewrite Hup in *. simpl in *. rewrite Nat2Z.inj_succ in *.
    rewrite seqZ_cons in H1 by lia. injection H1 as Hd H1.
    split; unfold seqs; simpl; rewrite ?length_app; simpl; rewrite ?Nat2Z.inj_add; try lia.
    + rewrite map_app, H1. simpl. rewrite seqZ_snoc by lia.
      rewrite Z.pred_succ. f_equal; f_equal; lia.
    + repeat case_match; try done; lia.
Qed.

Lemma updates_above_seqs a st :
  map su_sequence_number (updates_above a st) = List.filter (fun x => a <? x) (seqs st).
Proof. apply seqs_filter. Qed.

Lemma acknowledge_ok max_updates ack st :
  0 <= max_updates -> queue_ok max_updates st -> queue_ok max_updates (acknowledge ack st).
Proof.
  intros Hmax [H1 H2 H3 H4]. unfold acknowledge. destruct ack as [a|]; [|by split].
  case_goal.
  - split; unfold seqs; simpl; rewrite ?seqZ_nil by lia; try done; try lia.
    repeat case_match; try done; lia.
  - case_goal; [|by split]. bool_hyps.
    pose proof (updates_above_seqs a st) as Hs. rewrite H1, filter_seqZ in Hs.
    pose proof (f_equal length Hs) as Hl. rewrite length_map, length_seqZ in Hl.
    split; unfold seqs; simpl; rewrite ?Hs, ?Hl; try lia.
    + f_equal; lia.
    + repeat case_match; try done; lia.
Qed.

Lemma collect_ok max_updates st : queue_ok max_updates st -> queue_ok max_updates (collect st).2.
Proof. intros [H1 H2 H3 H4]. by split. Qed.

Lemma new_subscription_ok max_updates sid cid dname now :
  0 <= max_updates -> queue_ok max_updates (new_subscription sid cid dname now).
Proof. by split. Qed.

Lemma queue_step_ok max_updates op h st :
  1 <= max_updates -> queue_ok max_updates st -> queue_ok max_updates (queue_step max_updates (h, st) op).2.
Proof.
  intros Hmax Hok. destruct op; simpl.
  - unfold deliver. case_goal; [|done].
    eapply same_queue_ok; [|by apply append_update_ok]. done.
  - by apply append_update_ok.
  - by apply acknowledge_ok; [lia|].
  - by apply collect_ok.
  - by eapply same_queue_ok; [|exact Hok].
  - eapply same_queue_ok; [apply same_queue_deactivate|done].
  - by eapply same_queue_ok; [|exact Hok].
  - by eapply same_queue_ok; [|exact Hok].
  - by eapply same_queue_ok; [|exact Hok].
Qed.

Lemma queue_run_ok max_updates ops hs :
  1 <= max_updates -> queue_ok max_updates hs.2 -> queue_ok max_updates (queue_run max_updates ops hs).2.
Proof.
  intros Hmax. revert hs. induction ops as [|op ops IH]; intros [h st] Hok; simpl; [done|].
  apply IH. by apply queue_step_ok.
Qed.

Lemma append_accounted max_updates ts nid v h st k :
  1 <= max_updates -> queue_ok max_updates st ->
  (1 <= k <= sequence_number st -> accounted h st k) ->
  1 <= k <= sequence_number (append_update max_updates ts nid v st) -> accounted h (append_update max_updates ts nid v st) k.
Proof.
  intros Hmax Hok Hacc.
  destruct (append_update_cases max_updates ts nid v st)
    as [->|(u & us & dfrom & dto & lv & -> & Hu & Hcase)]; [by apply Hacc|].
  unfold accounted in *; unfold seqs in *; simpl. intros Hk. rewrite map_app; simpl.
  destruct (decide (k = sequence_number st + 1)) as [->|Hne].
  { left. rewrite Hu. set_solver. }
  destruct (Hacc ltac:(lia)) as [Hin|[Hack|[(f & t & Hf & Ht & Hft)|Hrep]]]; [| by auto | | by auto].
  - destruct Hcase as [(-> & _)|(d & Hup & -> & Hle & ->)]; [set_solver|].
    rewrite Hup in Hin. simpl in Hin. apply elem_of_cons in Hin as [->|Hin]; [|set_solver].
    right; right; left. destruct Hok as [H1 H2 H3 H4]. unfold seqs in H1. rewrite Hup in *. simpl in *.
    rewrite seqZ_cons in H1 by lia. injection H1 as Hd H1.
    destruct (dropped_from_sequence st) as [f|] eqn:Ef, (dropped_to_sequence st) as [t|] eqn:Et; try done.
    all: do 2 eexists; split_and!; [done|done|lia|lia].
  - destruct Hcase as [(-> & -> & -> & _)|(d & Hup & -> & Hle & ->)].
    + right; right; left. eauto.
    + right; right; left. destruct Hok as [H1 H2 H3 H4]. unfold seqs in H1. rewrite Hf, Ht, Hup in *. simpl in *.
      rewrite seqZ_cons in H1 by lia. injection H1 as Hd H1.
      do 2 eexists; split_and!; [done|done|lia|lia].
Qed.

Lemma append_traced max_updates ts nid v h st :
  1 <= max_updates -> queue_ok max_updates st -> (forall k, 1 <= k <= sequence_number st -> traced h st k) ->
  forall k, 1 <= k <= sequence_number (append_update max_updates ts nid v st) -> traced h (append_update max_updates ts nid v st) k.
Proof.
  intros Hmax Hok Hacc k Hk. destruct (decide (1 <= k <= sequence_number st)) as [Hold|Hnew].
  - destruct (Hacc k Hold) as [Ha|Hf]; [left|by right]. by apply append_accounted.
  - left. by apply append_accounted.
Qed.

Lemma acknowledge_accounted ack h st k : 1 <= k <= sequence_number st -> accounted h st k ->
  accounted {| h_acked := Z.max (h_acked h) (effective_ack ack st); h_reported := h_reported h; h_forgotten := h_forgotten h |}
    (acknowledge ack st) k.
Proof.
  intros Hk H0. unfold accounted in *; simpl.
  unfold acknowledge, effective_ack. destruct ack as [a|]; [|destruct_or!; auto; right; left; lia].
  case_goal; [right; left; lia|]. case_goal; [|destruct_or!; auto; right; left; lia].
  bool_hyps. simpl. destruct H0 as [Hin|[Hack|[Hd|Hr]]]; auto; [|right; left; lia].
  destruct (decide (k <= a)); [right; left; lia|]. left.
  unfold seqs; simpl. rewrite updates_above_seqs. apply list_elem_of_In, List.filter_In.
  split; [by apply list_elem_of_In|]. apply Z.ltb_lt; lia.
Qed.

Lemma acknowledge_sequence_number ack st : sequence_number (acknowledge ack st) = sequence_number st.
Proof. unfold acknowledge. by repeat case_goal. Qed.

Lemma same_queue_traced h st st' k : same_queue st st' -> traced h st k -> traced h st' k.
Proof. intros Hq [Ha|Hf]; [left|by right]. by eapply same_queue_accounted. Qed.

(** What is collected goes to the one or the other list. *)
Lemma collect_traced by_ h st k : traced h st k ->
  let '(h', st') := queue_step 1 (h, st) (QCollect by_) in traced h' st' k.
Proof.
  intros Hk. unfold traced, accounted, in_range in *; simpl. destruct by_; simpl.
  - destruct Hk as [[?|[?|[(f & t & Hf & Ht & Hft)|(f & t & Hin & Hft)]]]|?]; [auto|auto| | |auto]; left; right; right; right; exists f, t.
    + unfold reported_range; simpl. rewrite Hf, Ht. set_solver.
    + set_solver.
  - destruct Hk as [[?|[?|[(f & t & Hf & Ht & Hft)|?]]]|(f & t & Hin & Hft)]; [auto|auto| |auto 6|]; right; exists f, t.
    + unfold reported_range; simpl. rewrite Hf, Ht. set_solver.
    + set_solver.
Qed.

Lemma queue_step_traced max_updates op h st :
  1 <= max_updates -> queue_ok max_updates st ->
  (forall k, 1 <= k <= sequence_number st -> traced h st k) ->
  let '(h', st') := queue_step max_updates (h, st) op in
  forall k, 1 <= k <= sequence_number st' -> traced h' st' k.
Proof.
  intros Hmax Hok Hacc. destruct op; simpl.
  - unfold deliver. case_goal; [|done]. intros k Hk.
    apply same_queue_traced with (append_update max_updates ts s v st); [done|]. by apply append_traced.
  - by apply append_traced.
  - rewrite acknowledge_sequence_number. intros k Hk. destruct (Hacc k Hk) as [Ha|Hf]; [left|by right]. by apply acknowledge_accounted.
  - intros k Hk. by apply (collect_traced by_), Hacc.
  - done.
  - unfold deactivate. by case_goal.
  - done.
  - done.
  - done.
Qed.

Lemma queue_run_traced max_updates ops h st :
  1 <= max_updates -> queue_ok max_updates st ->
  (forall k, 1 <= k <= sequence_number st -> traced h st k) ->
  let '(h', st') := queue_run max_updates ops (h, st) in
  forall k, 1 <= k <= sequence_number st' -> traced h' st' k.
Proof.
  intros Hmax. revert h st. induction ops as [|op ops IH]; intros h st Hok Hacc; simpl; [done|].
  pose proof (queue_step_traced max_updates op h st Hmax Hok Hacc) as Hstep.
  pose proof (queue_step_ok max_updates op h st Hmax Hok) as Hok'. simpl in *.
  destruct (match op with QDeliver _ _ _ _ => _ | _ => _ end) as [h' st'].
  by apply IH.
Qed.

(** Only the opening of a stream forgets. *)
Lemma nothing_forgotten max_updates ops hs : forallb (fun op => negb (opens_stream op)) ops = true -> h_forgotten hs.1 = [] ->
  h_forgotten (queue_run max_updates ops hs).1 = [].
Proof.
  revert hs. induction ops as [|op ops IH]; intros [h st] Hops Hf; simpl in *; [done|]. apply andb_true_iff in Hops as [Hop Hops].
  apply IH; [done|]. by destruct op as [| | |[]| | | | |].
Qed.

(** C1. The pending updates of a subscription, after any sequence of deliveries, acknowledgements,
    syncs, stream changes and registrations, carry consecutive sequence numbers that end at the
    last number assigned, and never exceed the queue bound. *)
Theorem pending_consecutive_bounded max_updates ops sid cid dname now :
  1 <= max_updates ->
  let '(_, st) := queue_run max_updates ops (no_history, new_subscription sid cid dname now) in
  seqs st = seqZ (sequence_number st - Z.of_nat (length (updates st)) + 1) (Z.of_nat (length (updates st))) /\
  Z.of_nat (length (updates st)) <= Z.min max_updates (sequence_number st).
Proof.
  intros Hmax. pose proof (queue_run_ok max_updates ops (no_history, new_subscription sid cid dname now) Hmax) as Hok.
  destruct (queue_run _ _ _) as [h st]. destruct Hok as [Hs Hl Hp _]; [by apply new_subscription_ok; lia|].
  simpl in *. split; [done|lia].
Qed.

(** C2. What becomes of every update: its sequence number is still pending, was acknowledged by the client, lies in the dropped
    range that the next collect takes, was reported as dropped by a sync, or was dropped in a range that the opening of a
    stream took, which tells nobody. Where no stream was opened, no update is lost silently. *)
Theorem no_silent_loss max_updates ops sid cid dname now :
  1 <= max_updates ->
  let '(h, st) := queue_run max_updates ops (no_history, new_subscription sid cid dname now) in
  (forall k, 1 <= k <= sequence_number st -> accounted h st k \/ in_range (h_forgotten h) k) /\
  (forallb (fun op => negb (opens_stream op)) ops = true -> forall k, 1 <= k <= sequence_number st -> accounted h st k).
Proof.
  intros Hmax. pose proof (queue_run_traced max_updates ops no_history (new_subscription sid cid dname now) Hmax) as Htraced.
  pose proof (nothing_forgotten max_updates ops (no_history, new_subscription sid cid dname now)) as Hforgotten.
  destruct (queue_run _ _ _) as [h st]. assert (Hall : forall k, 1 <= k <= sequence_number st -> traced h st k).
  { apply Htraced; [by apply new_subscription_ok; lia|]. simpl. lia. }
  split; [exact Hall|]. intros Hops k Hk. destruct (Hall k Hk) as [|(f & t & Hin & _)]; [done|].
  simpl in Hforgotten. rewrite Hforgotten in Hin by done. by apply elem_of_nil in Hin.
Qed.
End SubQueue.
Arguments SubscriptionUpdate : clear implicits.
Arguments SubscriptionState : clear implicits.
Arguments SubscriptionSyncResult : clear implicits.

(** A queue of bound 2 that receives three values, is synced, acknowledged and fed again. *)
Definition demo_ops : list (queue_op (V := pyval)) :=
  [QMonitor (dict_of_list [("e", 1)]) {["n1"; "n2"]} ∅ ∅;
   QDeliver "n1" (PInt 1) None "t1"; QDeliver "n1" (PInt 1) None "t1"; QDeliver "n2" (PInt 5) None "t2";
   QDeliver "n1" (PInt 2) None "t3"; QCollect SyncRequest; QAcknowledge (Some 2); QAppend "n2" (PList []) "t4"].

Definition demo_run : history * SubscriptionState pyval :=
  queue_run 2 demo_ops (no_history, new_subscription "s" None None 0%Q).

Lemma pending_consecutive_bounded_witness :
  1 <= 2 /\ seqs demo_run.2 = [3; 4] /\
  let '(_, st) := demo_run in
  seqs st = seqZ (sequence_number st - Z.of_nat (length (updates st)) + 1) (Z.of_nat (length (updates st))) /\
  Z.of_nat (length (updates st)) <= Z.min 2 (sequence_number st).
Proof.
  split; [lia|]. split; [by vm_compute|].
  exact (pending_consecutive_bounded 2 demo_ops "s" None None 0%Q ltac:(lia)).
Defined.

(** Updates that are dropped before a stream is opened are accounted for by nothing. *)
Example opening_forgets :
  let '(h, st) := queue_run 1 [QMonitor (dict_of_list [("e", 1)]) {["n1"]} ∅ ∅; QDeliver "n1" (PInt 1) None "t1"; QDeliver "n1" (PInt 2) None "t2";
    QCollect StreamOpening] (no_history, new_subscription "s" None None 0%Q) in
  seqs st = [2] /\ h_acked h = 0 /\ dropped_from_sequence st = None /\ h_reported h = [] /\ h_forgotten h = [(1, 1)].
Proof. by vm_compute. Qed.

Lemma no_silent_loss_witness :
  1 <= 2 /\ sequence_number demo_run.2 = 4 /\
  let '(h, st) := demo_run in
  (forall k, 1 <= k <= sequence_number st -> accounted h st k \/ in_range (h_forgotten h) k) /\
  (forallb (fun op => negb (opens_stream op)) demo_ops = true -> forall k, 1 <= k <= sequence_number st -> accounted h st k).
Proof.
  split; [lia|]. split; [by vm_compute|].
  exact (no_silent_loss 2 demo_ops "s" None None 0%Q ltac:(lia)).
Defined.
End SubQueue.
