(* ===== verification/Async.v ===== *)
(** Cooperative coroutines over a shared state: the shape of an [async def] method.

    A program is a tree of its atomic sections and of its awaits. A section ([Sect]) is code
    that runs without suspension (the body of an [async with self._lock] block that does not
    await, or plain code between two awaits); an await ([Await]) hands control to the
    environment, which answers later, other tasks having run in between. [Acquire] and [Release]
    bracket the one lock that is held across awaits.

    The file gives programs three meanings and the rules to reason in each:
    - [run]: one task alone, against an environment given as a function (executable);
    - [wp]: one task alone, against every environment that keeps the contract of its calls;
    - [pool_step]: many tasks interleaved at every point between two nodes, with the
      rely/guarantee judgement [safe] and its soundness. *)

From S2P Require Export Prelude.

(** The outcome of an awaited call that may raise. *)
Inductive exc (A : Type) := Val (a : A) | Raise.
Arguments Val {A} a.
Arguments Raise {A}.

#[local] Set Default Proof Using "Type".

Section Async.
Context {S : Type} {C : Type -> Type}.

Inductive prog (A : Type) : Type :=
  | Ret (a : A)
  | Sect {X : Type} (f : S -> S * X) (k : X -> prog A)
  | Await {R : Type} (c : C R) (k : R -> prog A)
  | Acquire (k : prog A)
  | Release (k : prog A).
Arguments Ret {A} a.
Arguments Sect {A X} f k.
Arguments Await {A R} c k.
Arguments Acquire {A} k.
Arguments Release {A} k.

Fixpoint pbind {A B} (p : prog A) (g : A -> prog B) : prog B :=
  match p with
  | Ret a => g a
  | Sect f k => Sect f (fun x => pbind (k x) g)
  | Await c k => Await c (fun r => pbind (k r) g)
  | Acquire k => Acquire (pbind k g)
  | Release k => Release (pbind k g)
  end.

Definition sect {X} (f : S -> S * X) : prog X := Sect f Ret.
Definition update (f : S -> S) : prog unit := Sect (fun s => (f s, tt)) Ret.
Definition call {R} (c : C R) : prog R := Await c Ret.

(** [async with lock: p]; the lock is released however [p] ends. *)
Definition with_lock {A} (p : prog A) : prog A :=
  Acquire (pbind p (fun a => Release (Ret a))).

(** Sequencing when the first part may raise. *)
Definition ebind {A B} (p : prog (exc A)) (g : A -> prog (exc B)) : prog (exc B) :=
  pbind p (fun r => match r with Val a => g a | Raise => Ret Raise end).

(** [for x in l: f(x)], stopping at the first exception. *)
Fixpoint efor {A} (l : list A) (f : A -> prog (exc unit)) : prog (exc unit) :=
  match l with
  | [] => Ret (Val tt)
  | x :: l' => ebind (f x) (fun _ => efor l' f)
  end.

(** [for x in l: f(x)] for a body that cannot raise. *)
Fixpoint pfor {A} (l : list A) (f : A -> prog unit) : prog unit :=
  match l with
  | [] => Ret tt
  | x :: l' => pbind (f x) (fun _ => pfor l' f)
  end.

(** ** One task alone *)

Section Alone.
Context {W : Type} (env : forall R, C R -> W -> S -> W * S * R).

Fixpoint run {A} (p : prog A) (w : W) (s : S) : W * S * A :=
  match p with
  | Ret a => (w, s, a)
  | Sect f k => let '(s', x) := f s in run (k x) w s'
  | Await c k => let '(w', s', r) := env _ c w s in run (k r) w' s'
  | Acquire k => run k w s
  | Release k => run k w s
  end.

Lemma run_bind {A B} (p : prog A) (g : A -> prog B) w s :
  run (pbind p g) w s = let '(w', s', a) := run p w s in run (g a) w' s'.
Proof.
  revert w s. induction p as [a|X f k IH|R c k IH|k IH|k IH]; intros w s; simpl; try done.
  - destruct (f s) as [s' x]. apply IH.
  - destruct (env R c w s) as [[w' s'] r]. apply IH.
Qed.
End Alone.

(** ** The calls of a task *)

(** A call and its answer. *)
Record event := Event { ev_resp : Type; ev_call : C ev_resp; ev_answer : ev_resp }.

(** [p] can make the calls of [l], get these answers and return [a], whatever other tasks do to the shared state. *)
Fixpoint trace {A} (p : prog A) (l : list event) (a : A) : Prop :=
  match p with
  | Ret b => l = [] /\ a = b
  | Sect f k => exists s, trace (k (f s).2) l a
  | Await c k => exists r l', l = Event _ c r :: l' /\ trace (k r) l' a
  | Acquire k => trace k l a
  | Release k => trace k l a
  end.

(** The same where the shared state satisfies [Inv] whenever [p] has it. *)
Fixpoint trace_in (Inv : S -> Prop) {A} (p : prog A) (l : list event) (a : A) : Prop :=
  match p with
  | Ret b => l = [] /\ a = b
  | Sect f k => exists s, Inv s /\ trace_in Inv (k (f s).2) l a
  | Await c k => exists r l', l = Event _ c r :: l' /\ trace_in Inv (k r) l' a
  | Acquire k => trace_in Inv k l a
  | Release k => trace_in Inv k l a
  end.

(** Every call of [p] is one of [P]. *)
Fixpoint only {A} (P : forall R, C R -> Prop) (p : prog A) : Prop :=
  match p with
  | Ret _ => True
  | Sect f k => forall s, only P (k (f s).2)
  | Await c k => P _ c /\ forall r, only P (k r)
  | Acquire k => only P k
  | Release k => only P k
  end.

Lemma trace_bind {A B} (p : prog A) (g : A -> prog B) l b :
  trace (pbind p g) l b <-> exists l1 l2 a, l = l1 ++ l2 /\ trace p l1 a /\ trace (g a) l2 b.
Proof.
  revert l. induction p as [a|X f k IH|R c k IH|k IH|k IH]; intros l; cbn [pbind trace].
  - split; [intros H; by exists [], l, a|]. by intros (l1 & l2 & a' & -> & [-> ->] & H).
  - setoid_rewrite IH. split; [intros (s & l1 & l2 & a & -> & H & H'); exists l1, l2, a; by split_and!; [|exists s|]|].
    intros (l1 & l2 & a & -> & [s H] & H'). by exists s, l1, l2, a.
  - setoid_rewrite IH. split.
    + intros (r & l' & -> & l1 & l2 & a & -> & H & H'). exists (Event _ c r :: l1), l2, a. split_and!; [done| |done]. by exists r, l1.
    + intros (l1 & l2 & a & -> & (r & l' & -> & H) & H'). exists r, (l' ++ l2). split; [done|]. by exists l', l2, a.
  - apply IH.
  - apply IH.
Qed.

Lemma only_bind {A B} P (p : prog A) (g : A -> prog B) : only P p -> (forall a, only P (g a)) -> only P (pbind p g).
Proof. induction p as [a|X f k IH|R c k IH|k IH|k IH]; cbn; intros Hp Hg; try naive_solver. Qed.

Lemma only_trace {A} P (p : prog A) l a : only P p -> trace p l a -> Forall (fun e => P _ (ev_call e)) l.
Proof.
  revert l. induction p as [b|X f k IH|R c k IH|k IH|k IH]; intros l; cbn [only trace].
  - intros _ [-> _]. constructor.
  - intros Hp [s H]. by eapply IH.
  - intros [Hc Hp] (r & l' & -> & H). constructor; [done|]. by eapply IH.
  - apply IH.
  - apply IH.
Qed.

Lemma trace_in_trace Inv {A} (p : prog A) l a : trace_in Inv p l a -> trace p l a.
Proof. revert l. induction p as [b|X f k IH|R c k IH|k IH|k IH]; intros l; cbn [trace_in trace]; naive_solver. Qed.

Lemma trace_in_bind Inv {A B} (p : prog A) (g : A -> prog B) l b :
  trace_in Inv (pbind p g) l b <-> exists l1 l2 a, l = l1 ++ l2 /\ trace_in Inv p l1 a /\ trace_in Inv (g a) l2 b.
Proof.
  revert l. induction p as [a|X f k IH|R c k IH|k IH|k IH]; intros l; cbn [pbind trace_in].
  - split; [intros H; by exists [], l, a|]. by intros (l1 & l2 & a' & -> & [-> ->] & H).
  - setoid_rewrite IH. naive_solver.
  - setoid_rewrite IH. split.
    + intros (r & l' & -> & l1 & l2 & a & -> & H & H'). exists (Event _ c r :: l1), l2, a. split_and!; [done| |done]. by exists r, l1.
    + intros (l1 & l2 & a & -> & (r & l' & -> & H) & H'). exists r, (l' ++ l2). split; [done|]. by exists l', l2, a.
  - apply IH.
  - apply IH.
Qed.

Lemma trace_in_sect Inv {X A} (f : S -> S * X) (g : X -> prog A) l a :
  trace_in Inv (pbind (sect f) g) l a -> exists s, Inv s /\ trace_in Inv (g (f s).2) l a.
Proof. done. Qed.

(** A trace, for answers given as a function. *)
Fixpoint run_log {A} (answer : forall R, C R -> R) (s : S) (p : prog A) : list event * A :=
  match p with
  | Ret a => ([], a)
  | Sect f k => run_log answer s (k (f s).2)
  | Await c k => let la := run_log answer s (k (answer _ c)) in (Event _ c (answer _ c) :: la.1, la.2)
  | Acquire k => run_log answer s k
  | Release k => run_log answer s k
  end.

Lemma run_log_trace {A} answer s (p : prog A) : trace p (run_log answer s p).1 (run_log answer s p).2.
Proof. induction p as [a|X f k IH|R c k IH|k IH|k IH]; cbn [run_log trace]; eauto 10. Qed.

Lemma run_log_trace_in Inv {A} answer s (p : prog A) : Inv s -> trace_in Inv p (run_log answer s p).1 (run_log answer s p).2.
Proof. intros Hs. induction p as [a|X f k IH|R c k IH|k IH|k IH]; cbn [run_log trace_in]; eauto 10. Qed.

(** The contract of the calls: the answers an environment may give, and what it may do to the
    shared state while a task waits (advance its clocks). *)
Context (resp_ok : forall R, C R -> R -> Prop) (tick : S -> S -> Prop).

Fixpoint wp {A} (p : prog A) (Q : A -> S -> Prop) (s : S) : Prop :=
  match p with
  | Ret a => Q a s
  | Sect f k => let '(s', x) := f s in wp (k x) Q s'
  | Await c k => forall r s', resp_ok _ c r -> tick s s' -> wp (k r) Q s'
  | Acquire k => wp k Q s
  | Release k => wp k Q s
  end.

Lemma wp_mono {A} (p : prog A) (Q Q' : A -> S -> Prop) s :
  (forall a s', Q a s' -> Q' a s') -> wp p Q s -> wp p Q' s.
Proof.
  intros HQ. revert s. induction p as [a|X f k IH|R c k IH|k IH|k IH]; intros s; simpl; eauto.
  destruct (f s) as [s' x]. eauto.
Qed.

Lemma wp_bind {A B} (p : prog A) (g : A -> prog B) (Q : B -> S -> Prop) s :
  wp p (fun a s' => wp (g a) Q s') s -> wp (pbind p g) Q s.
Proof.
  revert s. induction p as [a|X f k IH|R c k IH|k IH|k IH]; intros s; simpl; eauto.
  destruct (f s) as [s' x]. eauto.
Qed.

Lemma wp_with_lock {A} (p : prog A) (Q : A -> S -> Prop) s : wp p Q s -> wp (with_lock p) Q s.
Proof. intros Hp. simpl. apply wp_bind. eapply wp_mono; [|exact Hp]. done. Qed.

Lemma wp_ebind {A B} (p : prog (exc A)) (g : A -> prog (exc B)) (Q : exc B -> S -> Prop) s :
  wp p (fun r s' => match r with Val a => wp (g a) Q s' | Raise => Q Raise s' end) s ->
  wp (ebind p g) Q s.
Proof. intros Hp. apply wp_bind. eapply wp_mono; [|exact Hp]. by intros []. Qed.

Lemma wp_sect_bind {X A} (f : S -> S * X) (g : X -> prog A) (Q : A -> S -> Prop) s :
  wp (g (f s).2) Q (f s).1 -> wp (pbind (sect f) g) Q s.
Proof. simpl. by destruct (f s). Qed.

Lemma wp_sect {X} (f : S -> S * X) (Q : X -> S -> Prop) s : Q (f s).2 (f s).1 -> wp (sect f) Q s.
Proof. simpl. by destruct (f s). Qed.

Lemma wp_update_bind {A} (f : S -> S) (g : unit -> prog A) (Q : A -> S -> Prop) s :
  wp (g tt) Q (f s) -> wp (pbind (update f) g) Q s.
Proof. done. Qed.

Lemma wp_call_bind {X A} (c : C X) (g : X -> prog A) (Q : A -> S -> Prop) s :
  (forall r s', resp_ok _ c r -> tick s s' -> wp (g r) Q s') -> wp (pbind (call c) g) Q s.
Proof. done. Qed.

Lemma wp_call_ebind {X A} (c : C (exc X)) (g : X -> prog (exc A)) (Q : exc A -> S -> Prop) s :
  (forall r s', resp_ok _ c (Val r) -> tick s s' -> wp (g r) Q s') ->
  (forall s', resp_ok _ c Raise -> tick s s' -> Q Raise s') -> wp (ebind (call c) g) Q s.
Proof. intros Hv Hr [x|] s' ? ?; simpl; auto. Qed.

(** Loop rule: [I] relates the elements still to do with the state. *)
Lemma wp_efor {A} (l : list A) (f : A -> prog (exc unit)) (I : list A -> S -> Prop) s :
  (forall x l' s, I (x :: l') s -> wp (f x) (fun r s' => r = Val tt /\ I l' s') s) ->
  I l s -> wp (efor l f) (fun r s' => r = Val tt /\ I [] s') s.
Proof.
  intros Hf. revert s. induction l as [|x l IH]; intros s HI; simpl; [done|].
  apply wp_ebind. eapply wp_mono; [|by apply Hf]. intros r s' [-> HI']. by apply IH.
Qed.

Lemma wp_pfor {A} (l : list A) (f : A -> prog unit) (I : list A -> S -> Prop) s :
  (forall x l' s, I (x :: l') s -> wp (f x) (fun _ s' => I l' s') s) ->
  I l s -> wp (pfor l f) (fun _ s' => I [] s') s.
Proof.
  intros Hf. revert s. induction l as [|x l IH]; intros s HI; simpl; [done|].
  apply wp_bind. eapply wp_mono; [|by apply Hf]. intros r s' HI'. by apply IH.
Qed.

(** [keeps R p]: every section of [p] moves the state along [R]. *)
Fixpoint keeps {A} (R : S -> S -> Prop) (p : prog A) : Prop :=
  match p with
  | Ret _ => True
  | Sect f k => (forall s, R s (f s).1) /\ forall x, keeps R (k x)
  | Await c k => forall r, resp_ok _ c r -> keeps R (k r)
  | Acquire k => keeps R k
  | Release k => keeps R k
  end.

Lemma keeps_bind {A B} R (p : prog A) (g : A -> prog B) :
  keeps R p -> (forall a, keeps R (g a)) -> keeps R (pbind p g).
Proof. intros Hp Hg. induction p; simpl in *; naive_solver. Qed.

Lemma keeps_ebind {A B} R (p : prog (exc A)) (g : A -> prog (exc B)) :
  keeps R p -> (forall a, keeps R (g a)) -> keeps R (ebind p g).
Proof. intros Hp Hg. apply keeps_bind; [done|]. by intros []. Qed.

Lemma keeps_with_lock {A} R (p : prog A) : keeps R p -> keeps R (with_lock p).
Proof. intros Hp. by apply keeps_bind. Qed.

Lemma keeps_pfor {A} R (l : list A) (f : A -> prog unit) : (forall x, keeps R (f x)) -> keeps R (pfor l f).
Proof. intros Hf. induction l; simpl; [done|]. by apply keeps_bind. Qed.

Lemma keeps_efor {A} R (l : list A) (f : A -> prog (exc unit)) : (forall x, keeps R (f x)) -> keeps R (efor l f).
Proof. intros Hf. induction l; simpl; [done|]. by apply keeps_ebind. Qed.

Lemma keeps_sect {X} R (f : S -> S * X) : (forall s, R s (f s).1) -> keeps R (sect f).
Proof. done. Qed.

Lemma keeps_update R (f : S -> S) : (forall s, R s (f s)) -> keeps R (update f).
Proof. done. Qed.

Lemma keeps_mono {A} (R R' : S -> S -> Prop) (p : prog A) :
  (forall s s', R s s' -> R' s s') -> keeps R p -> keeps R' p.
Proof using Type.
  intros HR. induction p as [a|X f k IH|X c k IH|k IH|k IH]; simpl; [done| | |exact IH|exact IH].
  - intros [Hf Hk]. split; [auto|]. intros x. apply IH, Hk.
  - intros Hk r Hr. by apply IH, Hk.
Qed.

Lemma keeps_sect_bind {X A} R (f : S -> S * X) (g : X -> prog A) :
  (forall s, R s (f s).1) -> (forall x, keeps R (g x)) -> keeps R (pbind (sect f) g).
Proof. done. Qed.

Lemma keeps_update_bind {A} R (f : S -> S) (g : unit -> prog A) :
  (forall s, R s (f s)) -> (forall x, keeps R (g x)) -> keeps R (pbind (update f) g).
Proof. done. Qed.

Lemma keeps_call_bind {X A} R (c : C X) (g : X -> prog A) :
  (forall r, resp_ok _ c r -> keeps R (g r)) -> keeps R (pbind (call c) g).
Proof. done. Qed.

Lemma keeps_call_ebind {X A} R (c : C (exc X)) (g : X -> prog (exc A)) :
  (forall r, resp_ok _ c (Val r) -> keeps R (g r)) -> keeps R (ebind (call c) g).
Proof. intros Hg [] Hr; simpl; [by apply Hg|done]. Qed.

Lemma keeps_wp {A} R (p : prog A) s :
  (forall s, R s s) -> (forall s1 s2 s3, R s1 s2 -> R s2 s3 -> R s1 s3) -> (forall s s', tick s s' -> R s s') ->
  keeps R p -> wp p (fun _ s' => R s s') s.
Proof.
  intros Hrefl Htrans Htick.
  assert (forall s0 s, R s0 s -> keeps R p -> wp p (fun _ s' => R s0 s') s) as H; [|by apply H].
  clear s. intros s0. induction p as [a|X f k IH|R' c k IH|k IH|k IH]; intros s Hs Hp; simpl in *; [done| | |by apply IH|by apply IH].
  - destruct Hp as [Hf Hk]. specialize (Hf s). destruct (f s) as [s' x]; simpl in *. apply IH; eauto.
  - intros r s' Hr Ht. apply IH; eauto.
Qed.

(** An environment function keeps the contract when each of its answers does. *)
Definition env_ok {W} (env : forall R, C R -> W -> S -> W * S * R) : Prop :=
  forall R (c : C R) w s, let '(_, s', r) := env R c w s in resp_ok R c r /\ tick s s'.

Lemma wp_run {A W} (env : forall R, C R -> W -> S -> W * S * R) (p : prog A) Q w s :
  env_ok env -> wp p Q s -> let '(_, s', a) := run env p w s in Q a s'.
Proof.
  intros Henv. revert w s.
  induction p as [a|X f k IH|R c k IH|k IH|k IH]; intros w s Hp; simpl in *; [done| | |by apply IH|by apply IH].
  - destruct (f s) as [s' x]. by apply IH.
  - pose proof (Henv R c w s) as He. destruct (env R c w s) as [[w' s'] r].
    destruct He. apply IH. by apply Hp.
Qed.

(** ** Many tasks *)

(** A pool: the shared state, the task that holds the lock, and the tasks. *)
Record pool := Pool {
  pl_state : S;
  pl_owner : option nat;
  pl_tasks : list (prog unit);
}.

Context (entry : prog unit -> Prop).

Inductive pool_step : pool -> pool -> Prop :=
  | step_spawn s o ts p :
      entry p -> pool_step (Pool s o ts) (Pool s o (ts ++ [p]))
  | step_tick s s' o ts :
      tick s s' -> pool_step (Pool s o ts) (Pool s' o ts)
  | step_sect s o ts i X (f : S -> S * X) k s' x :
      ts !! i = Some (Sect f k) -> f s = (s', x) ->
      pool_step (Pool s o ts) (Pool s' o (<[i := k x]> ts))
  | step_await s o ts i R (c : C R) k r :
      ts !! i = Some (Await c k) -> resp_ok R c r ->
      pool_step (Pool s o ts) (Pool s o (<[i := k r]> ts))
  | step_acquire s ts i k :
      ts !! i = Some (Acquire k) ->
      pool_step (Pool s None ts) (Pool s (Some i) (<[i := k]> ts))
  | step_release s ts i k :
      ts !! i = Some (Release k) ->
      pool_step (Pool s (Some i) ts) (Pool s None (<[i := k]> ts)).

Definition pool_steps : pool -> pool -> Prop := rtc pool_step.

(** ** Rely/guarantee

    [Inv] holds at every point; [quiet] is what a task that does not hold the lock guarantees,
    and so what the holder may rely on. [safe h P p Φ]: task [p], holding the lock iff [h], in a
    state satisfying [P], keeps [Inv] and its guarantee, and ends as [Φ] says. *)
Context (Inv : S -> Prop) (quiet : S -> S -> Prop).

Definition stable (h : bool) (P : S -> Prop) : Prop :=
  forall s s', Inv s -> Inv s' -> P s -> (h = true -> quiet s s') -> P s'.

Fixpoint safe {A} (h : bool) (P : S -> Prop) (p : prog A) (Φ : bool -> (S -> Prop) -> A -> Prop) : Prop :=
  match p with
  | Ret a => Φ h P a
  | Sect f k => exists Q,
      (forall s s' x, Inv s -> P s -> f s = (s', x) ->
         Inv s' /\ (h = false -> quiet s s') /\ Q x s') /\
      (forall x, stable h (Q x)) /\
      (forall x, safe h (Q x) (k x) Φ)
  | Await c k => forall r, resp_ok _ c r -> safe h P (k r) Φ
  | Acquire k => h = false /\ safe true (fun _ => True) k Φ
  | Release k => h = true /\ safe false (fun _ => True) k Φ
  end.

(** A whole task: starts and ends without the lock. *)
Definition safe_task (p : prog unit) : Prop :=
  safe false (fun _ => True) p (fun h _ _ => h = false).

Lemma safe_bind {A B} h P (p : prog A) (g : A -> prog B) Ψ Φ :
  safe h P p Ψ -> (forall h' P' a, Ψ h' P' a -> safe h' P' (g a) Φ) -> safe h P (pbind p g) Φ.
Proof.
  revert h P. induction p as [a|X f k IH|R c k IH|k IH|k IH]; intros h P Hp Hg; simpl in *; [by apply Hg|..].
  - destruct Hp as (Q & Hf & Hst & Hk). exists Q. split_and!; [done|done|]. intros x. by apply IH; [apply Hk|].
  - intros r Hr. by apply IH; [apply Hp|].
  - destruct Hp. by split; [|apply IH].
  - destruct Hp. by split; [|apply IH].
Qed.

(** A section that ends by handing on what it established. *)
Lemma safe_sect {A X} h P (f : S -> S * X) (k : X -> prog A) Φ (Q : X -> S -> Prop) :
  (forall s s' x, Inv s -> P s -> f s = (s', x) -> Inv s' /\ (h = false -> quiet s s') /\ Q x s') ->
  (forall x, stable h (Q x)) -> (forall x, safe h (Q x) (k x) Φ) -> safe h P (Sect f k) Φ.
Proof. intros. by exists Q. Qed.

Lemma stable_true h : stable h (fun _ => True).
Proof. done. Qed.

(** [calm p]: started without the lock in any state, [p] is safe and ends without the lock. *)
Definition calm {A} (p : prog A) : Prop := forall P, safe false P p (fun h _ _ => h = false).

(** A section any task may run at any time. *)
Definition calm_section {X} (f : S -> S * X) : Prop := forall s, Inv s -> Inv (f s).1 /\ quiet s (f s).1.

Lemma safe_mono {A} h P (p : prog A) (Φ Φ' : bool -> (S -> Prop) -> A -> Prop) :
  (forall h P a, Φ h P a -> Φ' h P a) -> safe h P p Φ -> safe h P p Φ'.
Proof.
  intros HΦ. revert h P. induction p as [a|X f k IH|R c k IH|k IH|k IH]; intros h P Hp; simpl in *; [by apply HΦ|..].
  - destruct Hp as (Q & ? & ? & ?). exists Q. split_and!; auto.
  - auto.
  - destruct Hp. auto.
  - destruct Hp. auto.
Qed.

Lemma calm_ret {A} (a : A) : calm (Ret a).
Proof. done. Qed.

Lemma calm_bind {A B} (p : prog A) (g : A -> prog B) : calm p -> (forall a, calm (g a)) -> calm (pbind p g).
Proof. intros Hp Hg P. eapply safe_bind; [apply Hp|]. intros h' P' a ->. apply Hg. Qed.

Lemma calm_ebind {A B} (p : prog (exc A)) (g : A -> prog (exc B)) :
  calm p -> (forall a, calm (g a)) -> calm (ebind p g).
Proof. intros Hp Hg. apply calm_bind; [done|]. by intros [a|]. Qed.

Lemma calm_sect_bind {X A} (f : S -> S * X) (g : X -> prog A) :
  calm_section f -> (forall x, calm (g x)) -> calm (pbind (sect f) g).
Proof.
  intros Hf Hg P. apply safe_sect with (Q := fun _ _ => True); [|done|intros x; apply Hg].
  intros s s' x HI _ E. specialize (Hf s HI). rewrite E in Hf. destruct Hf. by split_and!.
Qed.

Lemma calm_sect {X} (f : S -> S * X) : calm_section f -> calm (sect f).
Proof. intros Hf. exact (calm_sect_bind f Ret Hf calm_ret). Qed.

Lemma calm_update_bind {A} (f : S -> S) (g : unit -> prog A) :
  (forall s, Inv s -> Inv (f s) /\ quiet s (f s)) -> (forall x, calm (g x)) -> calm (pbind (update f) g).
Proof. intros Hf. by apply (calm_sect_bind (fun s => (f s, tt))). Qed.

Lemma calm_update (f : S -> S) : (forall s, Inv s -> Inv (f s) /\ quiet s (f s)) -> calm (update f).
Proof. intros Hf. by apply (calm_sect (fun s => (f s, tt))). Qed.

Lemma calm_call_bind {X A} (c : C X) (g : X -> prog A) :
  (forall r, resp_ok _ c r -> calm (g r)) -> calm (pbind (call c) g).
Proof. intros Hg P r Hr. by apply Hg. Qed.

Lemma calm_pfor {A} (l : list A) (f : A -> prog unit) : (forall x, calm (f x)) -> calm (pfor l f).
Proof. intros Hf. induction l; simpl; [done|]. by apply calm_bind. Qed.

Lemma calm_efor {A} (l : list A) (f : A -> prog (exc unit)) : (forall x, calm (f x)) -> calm (efor l f).
Proof. intros Hf. induction l; simpl; [done|]. by apply calm_ebind. Qed.

(** What runs under the lock may use what it established itself: the state only moves quietly
    while it waits. *)
Lemma calm_with_lock {A} (p : prog A) :
  safe true (fun _ => True) p (fun h _ _ => h = true) -> calm (with_lock p).
Proof.
  intros Hp P. split; [done|]. eapply safe_bind; [exact Hp|]. intros h' P' a ->. by split.
Qed.

(** Every task of the pool is safe under what it may assume of the state. *)
Definition pool_ok (pl : pool) : Prop :=
  Inv (pl_state pl) /\
  (forall i, pl_owner pl = Some i -> is_Some (pl_tasks pl !! i)) /\
  forall i p, pl_tasks pl !! i = Some p ->
    let h := bool_decide (pl_owner pl = Some i) in
    exists P, P (pl_state pl) /\ stable h P /\ safe h P p (fun h' _ _ => h' = false).

Context (entry_safe : forall p, entry p -> safe_task p).
Context (quiet_refl : forall s, quiet s s).
Context (tick_ok : forall s s', tick s s' -> Inv s -> Inv s' /\ quiet s s').

(** Replacing task [i]: the state moves from [s] to [s'], the lock from [o] to [o'], both
    only as task [i] may do it. *)
Lemma pool_ok_step s s' o o' ts i p' P' :
  pool_ok (Pool s o ts) -> is_Some (ts !! i) -> Inv s' ->
  (o' = o \/ o = None /\ o' = Some i \/ o = Some i /\ o' = None) ->
  (bool_decide (o = Some i) = false -> quiet s s') ->
  P' s' -> stable (bool_decide (o' = Some i)) P' ->
  safe (bool_decide (o' = Some i)) P' p' (fun h' _ _ => h' = false) ->
  pool_ok (Pool s' o' (<[i := p']> ts)).
Proof using tick_ok.
  intros (HI & Ho & Hts) Hi HI' Hoo Hq HP' Hst Hsafe. simpl in *. split_and!; simpl; [done| |].
  - intros j Hj. destruct (decide (i = j)) as [->|].
    + rewrite list_lookup_insert_eq; [by eauto|]. by apply lookup_lt_is_Some.
    + rewrite list_lookup_insert_ne by done. apply Ho. destruct_or!; naive_solver.
  - intros j q Hj. destruct (decide (i = j)) as [->|Hne].
    + rewrite list_lookup_insert_eq in Hj by (by apply lookup_lt_is_Some). simplify_eq. eauto.
    + rewrite list_lookup_insert_ne in Hj by done.
      destruct (Hts j q Hj) as (P & HP & HstP & HsP). exists P.
      assert (bool_decide (o' = Some j) = bool_decide (o = Some j)) as ->.
      { apply bool_decide_ext. destruct_or!; naive_solver. }
      split_and!; [|done|done]. apply HstP with s; try done. intros Hj'. apply Hq.
      apply bool_decide_eq_true_1 in Hj'. apply bool_decide_eq_false_2. congruence.
Qed.

Lemma pool_step_ok pl pl' : pool_step pl pl' -> pool_ok pl -> pool_ok pl'.
Proof using entry_safe tick_ok quiet_refl.
  destruct 1 as [s o ts p Hp|s s' o ts Ht|s o ts i X f k s' x Hi Hf|s o ts i R c k r Hi Hr
                |s ts i k Hi|s ts i k Hi]; intros Hok; pose proof Hok as (HI & Ho & Hts); simpl in *.
  - split_and!; simpl; [done| |].
    + intros i Hi. destruct (Ho i Hi) as [q Hq]. exists q. by apply lookup_app_l_Some.
    + intros i q Hq. apply lookup_app_Some in Hq as [Hq|[Hlen Hq]]; [eauto|].
      apply list_lookup_singleton_Some in Hq as [Hi <-].
      assert (bool_decide (o = Some i) = false) as ->.
      { apply bool_decide_eq_false_2. intros ->. destruct (Ho i eq_refl) as [q' Hq'].
        apply lookup_lt_Some in Hq'. lia. }
      exists (fun _ => True). split_and!; [done|done|by apply entry_safe].
  - destruct (tick_ok _ _ Ht HI) as [HI' Hq]. split_and!; simpl; [done|done|].
    intros i p Hp. destruct (Hts i p Hp) as (P & HP & Hst & Hs). exists P. split_and!; [|done|done].
    by apply Hst with s.
  - destruct (Hts i _ Hi) as (P & HP & Hst & Hs). simpl in Hs. destruct Hs as (Q & HfQ & HQ & Hk).
    destruct (HfQ s s' x HI HP Hf) as (HI' & Hq & HQx). eapply pool_ok_step; eauto.
  - destruct (Hts i _ Hi) as (P & HP & Hst & Hs). eapply pool_ok_step with (P' := P); eauto.
  - destruct (Hts i _ Hi) as (P & HP & Hst & Hs). simpl in Hs. destruct Hs as [_ Hs].
    apply (pool_ok_step s s None (Some i) ts i k (fun _ => True)); eauto;
      by rewrite ?bool_decide_eq_true_2.
  - destruct (Hts i _ Hi) as (P & HP & Hst & Hs). simpl in Hs. destruct Hs as [_ Hs].
    apply (pool_ok_step s s (Some i) None ts i k (fun _ => True)); eauto;
      by rewrite ?bool_decide_eq_false_2.
Qed.

(** Soundness: from a state satisfying [Inv] and no task, every reachable pool satisfies [Inv]. *)
Lemma pool_steps_inv s pl : Inv s -> pool_steps (Pool s None []) pl -> Inv (pl_state pl).
Proof using entry_safe tick_ok quiet_refl.
  intros HI Hsteps.
  assert (pool_ok (Pool s None [])) as Hok.
  { split_and!; [done|done|]. by intros i p ?. }
  assert (pool_ok pl) as Hpl; [|by destruct Hpl].
  induction Hsteps as [|pl1 pl2 pl3 Hstep _ IH]; [done|]. apply IH; by eapply pool_step_ok.
Qed.

(** A pool of tasks whose sections all move the state along [R] moves along [R]. *)
Lemma pool_steps_keeps (R : S -> S -> Prop) pl pl' :
  (forall s, R s s) -> (forall s1 s2 s3, R s1 s2 -> R s2 s3 -> R s1 s3) -> (forall s s', tick s s' -> R s s') ->
  (forall p, entry p -> keeps R p) ->
  Forall (keeps R) (pl_tasks pl) -> pool_steps pl pl' ->
  R (pl_state pl) (pl_state pl') /\ Forall (keeps R) (pl_tasks pl').
Proof.
  intros Hrefl Htrans Htick Hentry Hts Hsteps. induction Hsteps as [pl|pl1 pl2 pl3 Hstep _ IH]; [done|].
  assert (R (pl_state pl1) (pl_state pl2) /\ Forall (keeps R) (pl_tasks pl2)) as [H12 Hts2].
  { clear IH. destruct Hstep as [s o ts p Hp|s s' o ts Ht|s o ts i X f k s' x Hi Hf|s o ts i X c k r Hi Hr
                |s ts i k Hi|s ts i k Hi]; simpl in *.
    - split; [done|]. apply Forall_app. auto.
    - auto.
    - pose proof (Forall_lookup_1 _ _ _ _ Hts Hi) as [Hf1 Hk]. specialize (Hf1 s). rewrite Hf in Hf1.
      split; [done|]. by apply Forall_insert.
    - pose proof (Forall_lookup_1 _ _ _ _ Hts Hi) as Hk. split; [done|]. apply Forall_insert; [done|]. by apply Hk.
    - pose proof (Forall_lookup_1 _ _ _ _ Hts Hi) as Hk. split; [done|]. by apply Forall_insert.
    - pose proof (Forall_lookup_1 _ _ _ _ Hts Hi) as Hk. split; [done|]. by apply Forall_insert. }
  destruct (IH Hts2) as [H23 ?]. split; [|done]. by eapply Htrans.
Qed.

(** ** A scheduler

    [run_schedule] lets the tasks move in the given order, each to its next node, against an
    environment function; what it reaches is reachable. *)
Section Schedule.
Context {W : Type} (env : forall R, C R -> W -> S -> W * S * R).

Definition move (i : nat) (st : W * pool) : W * pool :=
  let '(w, Pool s o ts) := st in
  match ts !! i with
  | Some (Sect f k) => let '(s', x) := f s in (w, Pool s' o (<[i := k x]> ts))
  | Some (Await c k) => let '(w', s', r) := env _ c w s in (w', Pool s' o (<[i := k r]> ts))
  | Some (Acquire k) => match o with None => (w, Pool s (Some i) (<[i := k]> ts)) | Some _ => (w, Pool s o ts) end
  | Some (Release k) => if bool_decide (o = Some i) then (w, Pool s None (<[i := k]> ts)) else (w, Pool s o ts)
  | _ => (w, Pool s o ts)
  end.

Fixpoint run_schedule (l : list nat) (st : W * pool) : W * pool :=
  match l with [] => st | i :: l' => run_schedule l' (move i st) end.

Lemma move_steps i w pl : env_ok env -> pool_steps pl (move i (w, pl)).2.
Proof.
  intros Henv. destruct pl as [s o ts]. simpl. destruct (ts !! i) as [[a|X f k|X c k|k|k]|] eqn:E; try apply rtc_refl.
  - destruct (f s) as [s' x] eqn:Ef. apply rtc_once. by eapply step_sect.
  - pose proof (Henv X c w s) as He. destruct (env X c w s) as [[w' s'] r]. destruct He as [Hr Ht].
    eapply rtc_l; [by apply (step_tick s s')|]. apply rtc_once. by eapply step_await.
  - destruct o; [apply rtc_refl|]. apply rtc_once. by apply step_acquire.
  - case_bool_decide; [|apply rtc_refl]. subst. apply rtc_once. by apply step_release.
Qed.

Lemma run_schedule_steps l w pl : env_ok env -> pool_steps pl (run_schedule l (w, pl)).2.
Proof.
  intros Henv. revert w pl. induction l as [|i l IH]; intros w pl; [apply rtc_refl|]. cbn [run_schedule].
  pose proof (move_steps i w pl Henv) as H1. destruct (move i (w, pl)) as [w' pl'].
  etrans; [exact H1|apply IH].
Qed.
End Schedule.
End Async.

(** A program that is right against a contract is right against every stronger one. *)
Lemma wp_weaken {S : Type} {C : Type -> Type} {A} (resp_ok resp_ok' : forall R, C R -> R -> Prop) tick (p : prog (S := S) (C := C) A) (Q : A -> S -> Prop) s :
  (forall R (c : C R) r, resp_ok' R c r -> resp_ok R c r) -> wp resp_ok tick p Q s -> wp resp_ok' tick p Q s.
Proof.
  intros Hc. revert s. induction p as [a|X f k IH|R c k IH|k IH|k IH]; intros s; cbn [wp]; eauto.
  destruct (f s) as [s' x]. eauto.
Qed.

(** ** Programs that may raise *)

Definition obind {S : Type} {C : Type -> Type} {E A B} (p : prog (S := S) (C := C) (outcome E A)) (g : A -> prog (S := S) (C := C) (outcome E B)) :
    prog (S := S) (C := C) (outcome E B) :=
  pbind p (fun r => match r with Ok a => g a | Err e => Ret _ (Err e) end).

(** [try: p except Exception as exc: h]. *)
Definition catch {S : Type} {C : Type -> Type} {E A} (p : prog (S := S) (C := C) (outcome E A)) (h : E -> prog (S := S) (C := C) (outcome E A)) :
    prog (S := S) (C := C) (outcome E A) :=
  pbind p (fun r => match r with Ok a => Ret _ (Ok a) | Err e => h e end).

Arguments prog S C A : clear implicits.
Arguments Ret {S C A} a.
Arguments Sect {S C A X} f k.
Arguments Await {S C A R} c k.
Arguments Acquire {S C A} k.
Arguments Release {S C A} k.
Arguments event C : clear implicits.
Arguments Event {C ev_resp} ev_call ev_answer.
Arguments pool S C : clear implicits.
Arguments Pool {S C} _ _ _.

Declare Scope async_scope.
Delimit Scope async_scope with async.
Notation "x <- p ;; q" := (pbind p (fun x => q))
  (at level 80, p at next level, q at level 200, right associativity) : async_scope.
Notation "x <-? p ;; q" := (ebind p (fun x => q))
  (at level 80, p at next level, q at level 200, right associativity) : async_scope.

(** ** Programs by their results *)

Section Holds.
Context {S : Type} {C : Type -> Type} {E : Type} (resp_ok : forall R, C R -> R -> Prop).

(** What other tasks do to the shared state in the meantime does not matter. *)
Abbreviation holds p Q := (forall s, wp (S := S) resp_ok (fun _ _ => True) p (fun r _ => Q r) s).

Lemma holds_any {A} (p : prog S C A) : holds p (fun _ => True).
Proof.
  induction p as [a|X f k IH|R c k IH|k IH|k IH]; intros s; cbn; [done| |by intros; apply IH|by apply IH|by apply IH].
  destruct (f s). apply IH.
Qed.

Lemma holds_mono {A} (p : prog S C A) (Q Q' : A -> Prop) : holds p Q -> (forall a, Q a -> Q' a) -> holds p Q'.
Proof. intros Hp HQ s. eapply wp_mono; [|apply Hp]. auto. Qed.

Lemma holds_bind {A B} (p : prog S C A) (g : A -> prog S C B) (P : A -> Prop) (Q : B -> Prop) :
  holds p P -> (forall a, P a -> holds (g a) Q) -> holds (pbind p g) Q.
Proof. intros Hp Hg s. apply wp_bind. eapply wp_mono; [|apply Hp]. intros a s' Ha. by apply Hg. Qed.

Lemma holds_ret {A} (a : A) (Q : A -> Prop) : Q a -> holds (Ret a) Q.
Proof. by intros HQ s. Qed.

Lemma holds_ask {R} (c : C R) (Q : R -> Prop) : (forall r, resp_ok R c r -> Q r) -> holds (call c) Q.
Proof. intros HQ s r s' Hr _. by apply HQ. Qed.

(** A call whose answer does not matter to what follows. *)
Lemma holds_then {A B} (p : prog S C A) (q : prog S C B) (Q : B -> Prop) :
  holds q Q -> holds (pbind p (fun _ => q)) Q.
Proof. intros Hq. by eapply holds_bind; [apply holds_any|]. Qed.

Lemma holds_obind {A B} (p : prog S C (outcome E A)) (g : A -> prog S C (outcome E B))
    (P : outcome E A -> Prop) (Q : outcome E B -> Prop) :
  holds p P -> (forall a, P (Ok a) -> holds (g a) Q) -> (forall e, P (Err e) -> Q (Err e)) -> holds (obind p g) Q.
Proof. intros Hp Hok Herr. eapply holds_bind; [exact Hp|]. intros [a|e] HP; [by apply Hok|by apply holds_ret, Herr]. Qed.

Lemma holds_catch {A} (p : prog S C (outcome E A)) (h : E -> prog S C (outcome E A))
    (P Q : outcome E A -> Prop) :
  holds p P -> (forall a, P (Ok a) -> Q (Ok a)) -> (forall e, P (Err e) -> holds (h e) Q) -> holds (catch p h) Q.
Proof. intros Hp Hok Herr. eapply holds_bind; [exact Hp|]. intros [a|e] HP; [by apply holds_ret, Hok|by apply Herr]. Qed.
End Holds.

Abbreviation holds resp_ok p Q := (forall s, wp resp_ok (fun _ _ => True) p (fun r _ => Q r) s).
