(* ===== verification/SubResolve.v ===== *)
(** Which OPC UA nodes a subscription monitors: [_collect_property_source_mappings] and
    [_resolve_monitored_node_ids] of [infrastructure/subscriptions/service.py].

    The traversal keeps no set of visited nodes, so it may not return; [None] is a traversal
    that ran out of fuel. [collect_fuel] counts the queue entries of the traversal cut at
    [max_depth] levels, or, without a limit, at one level more than there are nodes. That is
    enough whenever a depth limit is set or the children lists have no cycle
    ([collect_terminates]); on a cycle without a limit no fuel is enough
    ([collect_cycle_diverges]). *)

From S2P Require Export ModelTypes.

Module SubResolve.

Definition children_of (model : BuildResult) (nid : string) : list string :=
  default [] (children_by_id model !! nid).

Definition is_property (n : ModelNode) : bool := bool_decide (n_kind n = property).

(** Whether the traversal goes below an entry at this depth. *)
Definition may_expand (limit depth : Z) : bool := ((limit =? 0) || (depth <? limit))%bool.

(** The [while queue] loop. *)
Fixpoint collect_loop (model : BuildResult) (limit : Z) (fuel : nat)
    (queue : list (string * Z)) (result : dict string string) : option (dict string string) :=
  match queue with
  | [] => Some result
  | (nid, depth) :: queue' =>
      match fuel with
      | O => None
      | S fuel' =>
          match nodes_by_id model !! nid with
          | None => collect_loop model limit fuel' queue' result
          | Some node =>
              if is_property node
              then collect_loop model limit fuel' queue' (<[n_source_node_id node := n_id node]> result)
              else if may_expand limit depth
              then collect_loop model limit fuel'
                     (queue' ++ map (fun c => (c, depth + 1)) (children_of model (n_id node))) result
              else collect_loop model limit fuel' queue' result
          end
      end
  end.

(** The number of entries the traversal from [nid] makes when it is cut [r] levels below. *)
Fixpoint weight (model : BuildResult) (r : nat) (nid : string) : nat :=
  S match nodes_by_id model !! nid with
    | None => 0
    | Some node =>
        if is_property node then 0
        else match r with
             | O => 0
             | S r' => sum_list (map (weight model r') (children_of model (n_id node)))
             end
    end.

Definition collect_fuel (model : BuildResult) (limit : Z) (root : string) : nat :=
  weight model (if limit =? 0 then S (dict_len (nodes_by_id model)) else Z.to_nat limit) root.

Definition collect_property_source_mappings (model : BuildResult) (root : ModelNode) (max_depth : Z) :
    option (dict string string) :=
  if is_property root then Some (<[n_source_node_id root := n_id root]> ∅)
  else
    let depth_limit := Z.max 0 max_depth in
    collect_loop model depth_limit (collect_fuel model depth_limit (n_id root)) [(n_id root, 0)] ∅.

(** Nodes by OPC UA id; the last node with a source id wins. *)
Definition source_index (model : BuildResult) : dict string ModelNode :=
  dict_of_list (map (fun n => (n_source_node_id n, n)) (dict_values (nodes_by_id model))).

Definition find_registered (model : BuildResult) (element_id : string) : option ModelNode :=
  match nodes_by_id model !! element_id with
  | Some n => Some n
  | None => source_index model !! element_id
  end.

(** The body of the loop over the registered objects. *)
Definition resolve_one (model : BuildResult) (acc : gset string * dict string string)
    (element : string * Z) : option (gset string * dict string string) :=
  let '(node_ids, node_to_element) := acc in
  let '(element_id, max_depth) := element in
  match find_registered model element_id with
  | None =>
      Some ({[element_id]} ∪ node_ids,
            <[lower element_id := element_id]> (<[element_id := element_id]> node_to_element))
  | Some node =>
      mappings ← collect_property_source_mappings model node max_depth;
      Some (list_to_set (dict_keys mappings) ∪ node_ids,
            dict_update_list (map (fun p => (lower p.1, p.2)) (dict_items mappings))
              (dict_update mappings node_to_element))
  end.

Fixpoint resolve_all (model : BuildResult) (acc : gset string * dict string string)
    (elements : list (string * Z)) : option (gset string * dict string string) :=
  match elements with
  | [] => Some acc
  | e :: elements' => acc' ← resolve_one model acc e; resolve_all model acc' elements'
  end.

Definition resolve_monitored_node_ids (monitored_objects : dict string Z) (model : BuildResult) :
    option (gset string * dict string string) :=
  resolve_all model (∅, ∅) (dict_items monitored_objects).

(** ** Specification *)

(** The entries the traversal appends after meeting [nid] at [depth]. *)
Definition successors (model : BuildResult) (limit : Z) (nid : string) (depth : Z) : list (string * Z) :=
  match nodes_by_id model !! nid with
  | Some node =>
      if is_property node then []
      else if may_expand limit depth
      then map (fun c => (c, depth + 1)) (children_of model (n_id node))
      else []
  | None => []
  end.

(** [reaches model limit starts nid d]: the traversal from [starts] meets [nid] at depth [d]. *)
Inductive reaches (model : BuildResult) (limit : Z) (starts : list (string * Z)) : string -> Z -> Prop :=
  | reach_start nid d : (nid, d) ∈ starts -> reaches model limit starts nid d
  | reach_child nid d c d' :
      reaches model limit starts nid d -> (c, d') ∈ successors model limit nid d ->
      reaches model limit starts c d'.

(** The properties a registered element stands for. *)
Definition in_scope (model : BuildResult) (root : ModelNode) (max_depth : Z) (p : ModelNode) : Prop :=
  is_property p = true /\
  (if is_property root then p = root
   else exists nid d, reaches model (Z.max 0 max_depth) [(n_id root, 0)] nid d /\
                 nodes_by_id model !! nid = Some p).

(** The nodes a registered element makes a subscription monitor. *)
Definition monitors (model : BuildResult) (element_id : string) (max_depth : Z) (nid : string) : Prop :=
  match find_registered model element_id with
  | None => nid = element_id
  | Some root => exists p, in_scope model root max_depth p /\ nid = n_source_node_id p
  end.

(** No node is its own descendant: some rank decreases from every node to its children. *)
Definition children_acyclic (model : BuildResult) : Prop :=
  exists rank : string -> nat, forall nid node c,
    nodes_by_id model !! nid = Some node -> is_property node = false ->
    c ∈ children_of model (n_id node) -> (rank c < rank nid)%nat.

(** ** Soundness and completeness of the traversal *)

(** What one round of the loop records. *)
Definition record_property (model : BuildResult) (nid : string) (result : dict string string) : dict string string :=
  match nodes_by_id model !! nid with
  | Some node => if is_property node then <[n_source_node_id node := n_id node]> result else result
  | None => result
  end.

Lemma collect_loop_step model limit fuel nid d queue result :
  collect_loop model limit (S fuel) ((nid, d) :: queue) result =
  collect_loop model limit fuel (queue ++ successors model limit nid d) (record_property model nid result).
Proof.
  simpl. unfold successors, record_property.
  destruct (nodes_by_id model !! nid) as [node|]; [|by rewrite app_nil_r].
  destruct (is_property node); [by rewrite app_nil_r|]. by destruct (may_expand limit d); [|rewrite app_nil_r].
Qed.

Lemma reaches_head model limit nid d queue n e :
  reaches model limit ((nid, d) :: queue) n e ->
  (n = nid /\ e = d) \/ reaches model limit (queue ++ successors model limit nid d) n e.
Proof.
  induction 1 as [n e [?|Hin]%elem_of_cons|n e c e' H IH Hc]; simplify_eq; [by left| |].
  - right. apply reach_start. set_solver.
  - right. destruct IH as [[-> ->]|IH]; [|by eapply reach_child]. apply reach_start. set_solver.
Qed.

Lemma reaches_nil model limit n e : ~ reaches model limit [] n e.
Proof. induction 1 as [? ? H|]; [by apply elem_of_nil in H|done]. Qed.

Section Loop.
Context (model : BuildResult) (limit : Z).

Definition mapping_sound (starts : list (string * Z)) (result : dict string string) : Prop :=
  forall s e, result !! s = Some e ->
  exists nid d p, reaches model limit starts nid d /\ nodes_by_id model !! nid = Some p /\
    is_property p = true /\ s = n_source_node_id p /\ e = n_id p.

Lemma collect_loop_sound starts fuel queue result result' :
  (forall nid d, (nid, d) ∈ queue -> reaches model limit starts nid d) ->
  mapping_sound starts result ->
  collect_loop model limit fuel queue result = Some result' -> mapping_sound starts result'.
Proof.
  revert queue result. induction fuel as [|fuel IH]; intros [|[nid d] queue] result Hq Hr;
    [intros; by simplify_eq/=|done|intros; by simplify_eq/=|].
  rewrite collect_loop_step. assert (reaches model limit starts nid d) as Hnid by (apply Hq; constructor).
  apply IH.
  - intros n e [?|?]%elem_of_app; [apply Hq; by constructor|by eapply reach_child].
  - unfold record_property. destruct (nodes_by_id model !! nid) as [node|] eqn:En; [|done].
    destruct (is_property node) eqn:Ep; [|done]. intros s e. rewrite dict_lookup_insert.
    case_bool_decide; [|apply Hr]. intros ?; simplify_eq. by exists nid, d, node.
Qed.

Lemma record_property_keeps nid result s :
  is_Some (result !! s) -> is_Some (record_property model nid result !! s).
Proof.
  intros. unfold record_property. repeat case_match; try done.
  rewrite dict_lookup_insert. case_bool_decide; eauto.
Qed.

Lemma collect_loop_keeps fuel queue result result' s :
  is_Some (result !! s) -> collect_loop model limit fuel queue result = Some result' -> is_Some (result' !! s).
Proof.
  revert queue result. induction fuel as [|fuel IH]; intros [|[nid d] queue] result Hs;
    [intros; by simplify_eq/=|done|intros; by simplify_eq/=|].
  rewrite collect_loop_step. apply IH. by apply record_property_keeps.
Qed.

Lemma collect_loop_complete fuel queue result result' n e p :
  collect_loop model limit fuel queue result = Some result' ->
  reaches model limit queue n e -> nodes_by_id model !! n = Some p -> is_property p = true ->
  is_Some (result' !! n_source_node_id p).
Proof.
  intros Hl Hr Hn Hp. revert queue result Hl Hr.
  induction fuel as [|fuel IH]; intros [|[nid d] queue] result Hl Hr; [by apply reaches_nil in Hr|done|by apply reaches_nil in Hr|].
  rewrite collect_loop_step in Hl. apply reaches_head in Hr as [[-> ->]|Hr]; [|by eapply IH].
  eapply collect_loop_keeps; [|exact Hl]. unfold record_property. rewrite Hn, Hp, dict_lookup_insert_eq. eauto.
Qed.
End Loop.

Lemma collect_mappings_spec model root max_depth mappings :
  collect_property_source_mappings model root max_depth = Some mappings ->
  forall s, s ∈ dict_keys mappings <-> exists p, in_scope model root max_depth p /\ s = n_source_node_id p.
Proof.
  unfold collect_property_source_mappings, in_scope. intros Hm s. rewrite elem_of_dict_keys.
  destruct (is_property root) eqn:Er.
  - simplify_eq. rewrite dict_lookup_insert, lookup_empty_dict. split.
    + case_bool_decide; [|by intros []]. intros _. exists root. done.
    + intros (p & (_ & ->) & ->). rewrite bool_decide_true by done. eauto.
  - split.
    + intros [e He]. eapply collect_loop_sound in Hm; [|by intros; apply reach_start|]; last first.
      { intros ? ?. by rewrite lookup_empty_dict. }
      destruct (Hm s e He) as (nid & d & p & ? & ? & ? & ? & ?). eauto 10.
    + intros (p & (Hp & nid & d & Hr & Hn) & ->). by eapply collect_loop_complete.
Qed.

Lemma resolve_all_spec model elements acc node_ids n2e :
  resolve_all model acc elements = Some (node_ids, n2e) ->
  forall nid, nid ∈ node_ids <->
    nid ∈ acc.1 \/ exists element_id max_depth, (element_id, max_depth) ∈ elements /\ monitors model element_id max_depth nid.
Proof.
  revert acc. induction elements as [|[eid md] elements IH]; intros acc Hres nid; simpl in Hres.
  - simplify_eq/=. split; [by left|]. intros [?|(? & ? & H & _)]; [done|]. by apply elem_of_nil in H.
  - destruct (resolve_one model acc (eid, md)) as [acc'|] eqn:E1; [|done]. simpl in Hres.
    rewrite (IH _ Hres nid).
    assert (nid ∈ acc'.1 <-> nid ∈ acc.1 \/ monitors model eid md nid) as ->.
    { unfold resolve_one, monitors in *. destruct acc as [ns m]. destruct (find_registered model eid) as [root|].
      - destruct (collect_property_source_mappings model root md) as [mp|] eqn:Em; [|done]. simplify_eq/=.
        pose proof (collect_mappings_spec _ _ _ _ Em nid). set_solver.
      - simplify_eq/=. set_solver. }
    split.
    + intros [[?|?]|(e & m & ? & ?)]; [by left| |]; right; do 2 eexists; (split; [|done]); set_solver.
    + intros [?|(e & m & [?|?]%elem_of_cons & ?)]; simplify_eq; eauto 10.
Qed.

(** ** Termination *)

Lemma sum_list_app (a b : list nat) : (sum_list (a ++ b) = sum_list a + sum_list b)%nat.
Proof. apply sum_list_with_app. Qed.

Section Fuel.
Context (model : BuildResult) (limit : Z).

(** The depth of the traversal below [nid] is at most [r]. *)
Fixpoint height_le (r : nat) (nid : string) : Prop :=
  match nodes_by_id model !! nid with
  | None => True
  | Some node =>
      is_property node = true \/
      match r with
      | O => children_of model (n_id node) = []
      | S r' => Forall (height_le r') (children_of model (n_id node))
      end
  end.

(** [r] levels are enough for an entry: by the depth limit or by the height of the model. *)
Definition enough (r : nat) (entry : string * Z) : Prop :=
  if limit =? 0 then height_le r entry.1 else limit - entry.2 <= Z.of_nat r.

Lemma collect_loop_fuel fuel (queue : list (nat * (string * Z))) result :
  0 <= limit -> Forall (fun x => enough x.1 x.2) queue ->
  (sum_list (map (fun x => weight model x.1 x.2.1) queue) <= fuel)%nat ->
  is_Some (collect_loop model limit fuel (map snd queue) result).
Proof.
  intros Hlim. revert queue result. induction fuel as [|fuel IH]; intros [|[r [nid d]] queue] result Henough Hfuel.
  - simpl. eauto.
  - destruct r; simpl in Hfuel; lia.
  - simpl. eauto.
  - apply Forall_cons in Henough as [H1 Hq]. simpl map. rewrite collect_loop_step.
    assert (exists l : list (nat * (string * Z)), successors model limit nid d = map snd l /\
      Forall (fun x => enough x.1 x.2) l /\ (S (sum_list (map (fun x => weight model x.1 x.2.1) l)) <= weight model r nid)%nat)
      as (l & -> & Hl & Hw).
    { unfold successors. destruct (nodes_by_id model !! nid) as [node|] eqn:En;
        [|exists []; split_and!; [done|constructor|destruct r; simpl; lia]].
      destruct (is_property node) eqn:Ep; [exists []; split_and!; [done|constructor|destruct r; simpl; lia]|].
      destruct (may_expand limit d) eqn:Ee; [|exists []; split_and!; [done|constructor|destruct r; simpl; lia]].
      destruct r as [|r].
      - assert (children_of model (n_id node) = []) as ->.
        { unfold enough in H1; simpl in H1. unfold may_expand in Ee. destruct (Z.eqb_spec limit 0).
          - rewrite En in H1. destruct H1 as [?|?]; [congruence|done].
          - simpl in Ee. apply Z.ltb_lt in Ee. lia. }
        exists []. split_and!; [done|constructor|simpl; lia].
      - exists (map (fun c => (r, (c, d + 1))) (children_of model (n_id node))). split_and!.
        + rewrite map_map. done.
        + apply Forall_fmap. unfold enough in *; simpl in *. destruct (limit =? 0).
          * rewrite En in H1. destruct H1 as [?|H1]; [congruence|]. done.
          * apply Forall_forall. intros c _. simpl. lia.
        + simpl. rewrite En, Ep, map_map. done. }
    rewrite <-map_app. apply IH.
    + by apply Forall_app.
    + rewrite map_app, sum_list_app. cbn [map sum_list fst snd foldr id] in Hfuel. lia.
Qed.
End Fuel.

(** In an acyclic model no path is longer than the number of nodes. *)
Lemma acyclic_height model nid :
  children_acyclic model -> height_le model (S (dict_len (nodes_by_id model))) nid.
Proof.
  intros [rank Hrank].
  set (below := fun nid => List.filter (fun k => Nat.ltb (rank k) (rank nid)) (dict_keys (nodes_by_id model))).
  assert (forall r n, (length (below n) < r)%nat -> height_le model r n) as Hh.
  { induction r as [|r IH]; intros n Hn; [lia|]. simpl.
    destruct (nodes_by_id model !! n) as [node|] eqn:En; [|done].
    destruct (is_property node) eqn:Ep; [by left|]. right. apply Forall_forall. intros c Hc.
    specialize (Hrank n node c En Ep Hc).
    destruct (nodes_by_id model !! c) as [cn|] eqn:Ec; [|by destruct r; simpl; rewrite Ec].
    apply IH. eapply Nat.lt_le_trans; [|apply Nat.lt_succ_r, Hn].
    assert (c ∈ dict_keys (nodes_by_id model)) as Hck by (apply elem_of_dict_keys; eauto).
    unfold below. clear -Hrank Hck. induction (dict_keys (nodes_by_id model)) as [|k l IHl]; [by apply elem_of_nil in Hck|].
    assert (length (List.filter (fun k => Nat.ltb (rank k) (rank c)) l) <=
            length (List.filter (fun k => Nat.ltb (rank k) (rank n)) l))%nat as Hle.
    { clear -Hrank. induction l as [|k l IH]; simpl; [done|].
      destruct (Nat.ltb_spec (rank k) (rank c)), (Nat.ltb_spec (rank k) (rank n)); simpl; lia. }
    apply elem_of_cons in Hck as [<-|Hck]; simpl.
    - rewrite Nat.ltb_irrefl. rewrite (proj2 (Nat.ltb_lt _ _) Hrank). simpl. lia.
    - specialize (IHl Hck). destruct (Nat.ltb_spec (rank k) (rank c)), (Nat.ltb_spec (rank k) (rank n)); simpl; lia. }
  apply Hh. apply Nat.lt_succ_r. unfold below, dict_len, dict_keys.
  rewrite <-(length_fmap fst). rewrite List.filter_length_le. done.
Qed.

Lemma collect_is_Some model root max_depth :
  0 < max_depth \/ children_acyclic model ->
  is_Some (collect_property_source_mappings model root max_depth).
Proof.
  intros Hor. unfold collect_property_source_mappings. destruct (is_property root); [eauto|].
  unfold collect_fuel. set (limit := Z.max 0 max_depth).
  set (r := if limit =? 0 then S (dict_len (nodes_by_id model)) else Z.to_nat limit).
  apply (collect_loop_fuel model limit _ [(r, (n_id root, 0))]); [lia| |simpl; lia].
  constructor; [|constructor]. unfold enough, r; simpl. destruct (Z.eqb_spec limit 0); [|lia].
  destruct Hor as [?|?]; [lia|]. by apply acyclic_height.
Qed.

Lemma resolve_all_is_Some model elements acc :
  (forall e d, (e, d) ∈ elements -> 0 < d \/ children_acyclic model) ->
  is_Some (resolve_all model acc elements).
Proof.
  revert acc. induction elements as [|[e d] elements IH]; intros [ns m] Hel; simpl; [eauto|].
  assert (is_Some (resolve_one model (ns, m) (e, d))) as [acc' E].
  { simpl. destruct (find_registered model e) as [root|]; [|eauto].
    destruct (collect_is_Some model root d) as [mp ->]; [by apply (Hel e); constructor|]. simpl. eauto. }
  simpl in E. rewrite E. simpl. apply IH. intros e' d' Hin. apply (Hel e'). by constructor.
Qed.

(** ** Divergence on a cycle *)

Lemma collect_loop_depth_bounded model limit fuel queue result result' :
  collect_loop model limit fuel queue result = Some result' ->
  exists B, forall n e, reaches model limit queue n e -> e <= B.
Proof.
  revert queue result. induction fuel as [|fuel IH]; intros [|[nid d] queue] result Hl; try done.
  1,2: by exists 0; intros n e ?%reaches_nil.
  rewrite collect_loop_step in Hl. apply IH in Hl as [B HB]. exists (Z.max B d).
  intros n e Hr. apply reaches_head in Hr as [[-> ->]|Hr]; [lia|]. specialize (HB n e Hr). lia.
Qed.

(** Without a depth limit the successors of a node do not depend on its depth. *)
Lemma successors_shift model nid d d' c e :
  (c, e) ∈ successors model 0 nid d -> e = d + 1 /\ (c, d' + 1) ∈ successors model 0 nid d'.
Proof.
  unfold successors, may_expand. repeat case_match; simpl; try by rewrite elem_of_nil.
  rewrite !list_elem_of_fmap. intros (x & ? & Hx); simplify_eq. split; [done|]. by exists x.
Qed.

Lemma reaches_shift model starts nid k d n e :
  reaches model 0 [(nid, d)] n e -> reaches model 0 starts nid k -> reaches model 0 starts n (e - d + k).
Proof.
  intros H Hk. induction H as [n e H|n e c e' H IH Hc].
  - apply list_elem_of_singleton in H; simplify_eq. by replace (d - d + k) with k by lia.
  - apply (successors_shift _ _ _ (e - d + k)) in Hc as [-> Hc].
    replace (e + 1 - d + k) with (e - d + k + 1) by lia. by eapply reach_child.
Qed.

Lemma reaches_cycle_unbounded model nid d B :
  reaches model 0 [(nid, 0)] nid d -> 0 < d -> exists e, B < e /\ reaches model 0 [(nid, 0)] nid e.
Proof.
  intros H Hd.
  assert (forall n : nat, reaches model 0 [(nid, 0)] nid (d * Z.of_nat n)) as Hn.
  { induction n as [|n IH]; [rewrite Z.mul_0_r; apply reach_start; constructor|].
    replace (d * Z.of_nat (S n)) with (d - 0 + d * Z.of_nat n) by lia. by eapply reaches_shift. }
  exists (d * Z.of_nat (S (Z.to_nat B))). split; [nia|apply Hn].
Qed.

Lemma collect_loop_cycle model fuel nid d result :
  reaches model 0 [(nid, 0)] nid d -> 0 < d -> collect_loop model 0 fuel [(nid, 0)] result = None.
Proof.
  intros H Hd. destruct (collect_loop model 0 fuel [(nid, 0)] result) eqn:E; [|done].
  apply collect_loop_depth_bounded in E as [B HB].
  destruct (reaches_cycle_unbounded model nid d B H Hd) as (e & He & Hr). specialize (HB _ _ Hr). lia.
Qed.

(** ** Properties *)

(** C6. When the resolution returns, the nodes to monitor are exactly the property nodes within
    the depth of each registered element, and the element ids that name no node of the model. *)
Theorem resolve_monitored_exact monitored_objects model node_ids node_to_element :
  resolve_monitored_node_ids monitored_objects model = Some (node_ids, node_to_element) ->
  forall nid, nid ∈ node_ids <->
    exists element_id max_depth,
      (element_id, max_depth) ∈ dict_items monitored_objects /\ monitors model element_id max_depth nid.
Proof. intros H nid. rewrite (resolve_all_spec _ _ _ _ _ H nid). set_solver. Qed.

(** C7. The resolution returns whenever every registration has a positive depth or the children
    lists of the model have no cycle. *)
Theorem resolve_terminates monitored_objects model :
  (forall e d, (e, d) ∈ dict_items monitored_objects -> 0 < d \/ children_acyclic model) ->
  is_Some (resolve_monitored_node_ids monitored_objects model).
Proof. apply resolve_all_is_Some. Qed.

(** On a node that is its own descendant the unlimited traversal never returns, whatever the
    number of rounds it is given. *)
Theorem collect_cycle_diverges model nid d :
  reaches model 0 [(nid, 0)] nid d -> 0 < d ->
  forall fuel result, collect_loop model 0 fuel [(nid, 0)] result = None.
Proof. intros. by eapply collect_loop_cycle. Qed.

(** A machine [m] with a part [p] (one property below it) and a property of its own; [loop] is
    its own child. *)
Definition demo_model : BuildResult :=
  small_model
    [simple_node "m" "Machine" asset "ns=1;i=1"; simple_node "p" "Part" asset "ns=1;i=2";
     simple_node "t" "Temp" property "ns=1;i=3"; simple_node "v" "Volt" property "ns=1;i=4";
     simple_node "loop" "Loop" asset "ns=1;i=9"]
    ["m"] [("m", ["p"; "t"]); ("p", ["v"]); ("loop", ["loop"])].

Definition demo_objects : dict string Z := dict_of_list [("m", 1); ("ns=1;i=2", 2); ("X", 3)].

Definition demo_resolved : gset string * dict string string :=
  default (∅, ∅) (resolve_monitored_node_ids demo_objects demo_model).

Lemma resolve_monitored_exact_witness :
  resolve_monitored_node_ids demo_objects demo_model = Some (demo_resolved.1, demo_resolved.2) /\
  elements demo_resolved.1 = ["ns=1;i=3"; "ns=1;i=4"; "X"] /\
  forall nid, nid ∈ demo_resolved.1 <->
    exists element_id max_depth,
      (element_id, max_depth) ∈ dict_items demo_objects /\ monitors demo_model element_id max_depth nid.
Proof.
  assert (resolve_monitored_node_ids demo_objects demo_model = Some (demo_resolved.1, demo_resolved.2)) as H
    by (vm_compute; reflexivity).
  split; [exact H|]. split; [vm_compute; reflexivity|].
  exact (resolve_monitored_exact demo_objects demo_model demo_resolved.1 demo_resolved.2 H).
Defined.

Lemma resolve_terminates_witness :
  (forall e d, (e, d) ∈ dict_items demo_objects -> 0 < d \/ children_acyclic demo_model) /\
  is_Some (resolve_monitored_node_ids demo_objects demo_model).
Proof.
  assert (forall e d, (e, d) ∈ dict_items demo_objects -> 0 < d \/ children_acyclic demo_model) as H.
  { intros e d Hin. left. vm_compute in Hin.
    repeat (apply elem_of_cons in Hin as [Hin|Hin]; [injection Hin as -> ->; lia|]).
    by apply elem_of_nil in Hin. }
  split; [exact H|]. exact (resolve_terminates demo_objects demo_model H).
Defined.

Lemma collect_cycle_diverges_witness :
  reaches demo_model 0 [("loop", 0)] "loop" 1 /\
  forall fuel result, collect_loop demo_model 0 fuel [("loop", 0)] result = None.
Proof.
  assert (reaches demo_model 0 [("loop", 0)] "loop" 1) as H.
  { apply reach_child with "loop" 0; [apply reach_start; constructor|vm_compute; constructor]. }
  split; [exact H|]. apply (collect_cycle_diverges demo_model "loop" 1 H). lia.
Defined.
End SubResolve.
