(* ===== verification/SubRuntime.v ===== *)
(** The subscription service ([infrastructure/subscriptions/service.py]): its shared state and
    every coroutine that works on it, as programs of [Async].

    A section of a program is an [async with self._lock] block, or code between two awaits,
    none of which suspends. The blocks under [self._lock] never await, with one exception: the
    undo branches of [_open_new_bin] and [_add_node_to_bin] call the server before they leave
    the block; here the call follows the section, so more interleavings are possible than in
    the code. [_native_bin_admission_lock] is held across awaits and is the lock of [Async];
    [_native_admission_semaphore] is only entered under that lock and never blocks, so it has no
    counterpart.

    Subscriptions are mutable objects that outlive their registration ([_release_all_nodes]
    works on an object that was just removed): [sv_detached] holds the removed ones. Node
    monitors are compared by identity ([live is not monitor]), so they live in a heap.

    Seconds are rationals: the rounding of floats is not modelled. *)

From Stdlib Require Export Qround Qminmax.
From S2P Require Export Async SubQueue SubResolve.

Module SubRuntime.
Import SubQueue SubResolve.

(** ** Objects of the OPC UA library, seen through [getattr] *)

(** Numbers are finite, and an attribute that is missing reads as [None]. *)
Inductive pyobj :=
  | ONone
  | OBool (b : bool)
  | OInt (z : Z)
  | OFloat (q : Q)
  | OObj (attrs : list (string * pyobj)).

Definition py_getattr (o : pyobj) (name : string) : pyobj :=
  match o with OObj attrs => default ONone (items_lookup name attrs) | _ => ONone end.

Fixpoint read_attr_chain (root : pyobj) (names : list string) : pyobj :=
  match names with
  | [] => root
  | name :: names' => match root with ONone => ONone | _ => read_attr_chain (py_getattr root name) names' end
  end.

Definition obj_truthy (o : pyobj) : bool :=
  match o with
  | ONone => false
  | OBool b => b
  | OInt z => negb (z =? 0)
  | OFloat q => negb (Qeq_bool q 0)
  | OObj _ => true
  end.

(** [a or b or ...]. *)
Fixpoint first_truthy (l : list pyobj) : pyobj :=
  match l with
  | [] => ONone
  | [o] => o
  | o :: l' => if obj_truthy o then o else first_truthy l'
  end.

(** [int(q)] truncates towards zero. *)
Definition trunc (q : Q) : Z := Z.quot (Qnum q) (Zpos (Qden q)).

(** [int(o)], [None] when it raises TypeError. *)
Definition int_of_obj (o : pyobj) : option Z :=
  match o with
  | OBool b => Some (if b then 1 else 0)
  | OInt z => Some z
  | OFloat q => Some (trunc q)
  | ONone | OObj _ => None
  end.

Definition positive_int_or_none (o : pyobj) : option Z :=
  match o with
  | OBool _ | ONone => None
  | _ => match int_of_obj o with
         | Some parsed => if parsed <=? 0 then None else Some parsed
         | None => None
         end
  end.

Definition positive_float_or_none (o : pyobj) : option Q :=
  match o with
  | OInt z => if z <=? 0 then None else Some (inject_Z z)
  | OFloat q => if Qle_bool q 0 then None else Some q
  | _ => None
  end.

Definition to_client_handle (o : pyobj) : option Z :=
  match o with
  | OBool _ | ONone => None
  | OInt z => Some z
  | OFloat q => Some (trunc q)
  | OObj _ => int_of_obj (py_getattr o "Value")
  end.

(** [_min_positive]. *)
Definition min_positive (values : list (option Z)) : option Z :=
  match List.filter (fun z => 0 <? z) (omap id values) with
  | [] => None
  | z :: l => Some (fold_left Z.min l z)
  end.

Definition DEFAULT_BIN_CAPACITY : Z := 1000.

(** A subscription object handed out by the client: its identity and its attributes. *)
Record ua_subscription := { ua_ref : string; ua_attrs : pyobj }.

Definition revised_candidates (o : pyobj) (camel snake : string) : list pyobj :=
  [read_attr_chain o [camel]; read_attr_chain o [snake]; read_attr_chain o ["data"; camel];
   read_attr_chain o ["result"; camel]; read_attr_chain o ["parameters"; camel]].

Definition extract_revised_subscription_parameters (ua : ua_subscription) : option Q * option Z :=
  (positive_float_or_none
     (first_truthy (revised_candidates (ua_attrs ua) "RevisedPublishingInterval" "revised_publishing_interval")),
   positive_int_or_none
     (first_truthy (revised_candidates (ua_attrs ua) "RevisedMaxKeepAliveCount" "revised_max_keepalive_count"))).

(** ** Configuration ([SubscriptionService.__init__]) *)

Record config := {
  interval_seconds : Q;
  max_updates_per_subscription : Z;
  ttl_seconds : Z;
  seed_initial_values : bool;
  native_timeout_refresh_mode : string;
  native_timeout_refresh_keepalives : Z;
  native_timeout_refresh_max_seconds : Q;
  native_backoff_seconds : Q;
}.

Definition make_config (interval : Q) (max_updates ttl : Z) (seed : bool) (refresh_mode : string)
    (keepalives : Z) (max_seconds backoff : Q) : config :=
  let normalized := lower (strip refresh_mode) in
  {| interval_seconds := Qmax (1 # 10) interval;
     max_updates_per_subscription := Z.max 1 max_updates;
     ttl_seconds := Z.max 1 ttl;
     seed_initial_values := seed;
     native_timeout_refresh_mode :=
       if bool_decide (normalized ∈ ["hybrid"; "strict"; "adaptive"]) then normalized else "hybrid";
     native_timeout_refresh_keepalives := Z.max 1 keepalives;
     native_timeout_refresh_max_seconds := Qmax (1 # 10) max_seconds;
     native_backoff_seconds := Qmax (1 # 10) backoff |}.

(** [_compute_native_refresh_interval_seconds]. *)
Definition compute_native_refresh_interval_seconds (cfg : config) (ua : ua_subscription) : Q :=
  match extract_revised_subscription_parameters ua with
  | (Some publishing_interval_ms, Some max_keepalive_count) =>
      let keepalive_period := (publishing_interval_ms / inject_Z 1000 * inject_Z max_keepalive_count)%Q in
      let target := (keepalive_period * inject_Z (native_timeout_refresh_keepalives cfg))%Q in
      Qmax (1 # 10) (Qmin (native_timeout_refresh_max_seconds cfg) target)
  | _ =>
      Qmax (1 # 10)
        (Qmin (native_timeout_refresh_max_seconds cfg)
           (interval_seconds cfg * inject_Z (native_timeout_refresh_keepalives cfg))%Q)
  end.

(** The queue bound of both notification queues. *)
Definition notification_queue_size (cfg : config) : Z := Z.max 1000 (max_updates_per_subscription cfg).

(** ** Monitors and bins *)

Record NodeMonitor := {
  nm_node_id : string;
  nm_mode : string;
  nm_subscriber_ids : gset string;
  nm_bin_id : option string;
  nm_native_refresh_interval_seconds : option Q;
}.

Record ManagedBin := {
  mb_bin_id : string;
  mb_ua_subscription : ua_subscription;
  mb_capacity : Z;
  mb_node_handles : dict string Z;
  mb_native_refresh_interval_seconds : option Q;
}.

Definition set_subscribers (ids : gset string) (m : NodeMonitor) : NodeMonitor :=
  {| nm_node_id := nm_node_id m; nm_mode := nm_mode m; nm_subscriber_ids := ids;
     nm_bin_id := nm_bin_id m; nm_native_refresh_interval_seconds := nm_native_refresh_interval_seconds m |}.

Definition set_runtime (mode : string) (bin_id : option string) (nri : option Q) (m : NodeMonitor) : NodeMonitor :=
  {| nm_node_id := nm_node_id m; nm_mode := mode; nm_subscriber_ids := nm_subscriber_ids m;
     nm_bin_id := bin_id; nm_native_refresh_interval_seconds := nri |}.

Definition set_handles (handles : dict string Z) (b : ManagedBin) : ManagedBin :=
  {| mb_bin_id := mb_bin_id b; mb_ua_subscription := mb_ua_subscription b; mb_capacity := mb_capacity b;
     mb_node_handles := handles; mb_native_refresh_interval_seconds := mb_native_refresh_interval_seconds b |}.

Definition bin_size (b : ManagedBin) : Z := Z.of_nat (dict_len (mb_node_handles b)).

Section Service.
Context {V : Type} `{PyValue V} (cfg : config).

(** ** The service *)

Record service := {
  sv_subscriptions : dict string (SubscriptionState V);
  sv_detached : gmap string (SubscriptionState V);
  sv_node_monitors : dict string nat;
  sv_monitor_heap : gmap nat NodeMonitor;
  sv_next_monitor : nat;
  sv_bins : dict string ManagedBin;
  sv_native_backoff_until : Q;
  sv_datachange_queue : list (string * string * V * option Z);
  sv_node_datachange_queue : list (string * V);
  sv_dropped_datachange_events : Z;
  sv_shutdown : bool;
  sv_now : Q;
  sv_utc : string;
}.

Definition new_service (now : Q) (utc : string) : service :=
  {| sv_subscriptions := ∅; sv_detached := ∅; sv_node_monitors := ∅; sv_monitor_heap := ∅;
     sv_next_monitor := 0%nat; sv_bins := ∅; sv_native_backoff_until := 0; sv_datachange_queue := [];
     sv_node_datachange_queue := []; sv_dropped_datachange_events := 0; sv_shutdown := false;
     sv_now := now; sv_utc := utc |}.

Definition with_subs (subs : dict string (SubscriptionState V)) (detached : gmap string (SubscriptionState V))
    (s : service) : service :=
  {| sv_subscriptions := subs; sv_detached := detached; sv_node_monitors := sv_node_monitors s;
     sv_monitor_heap := sv_monitor_heap s; sv_next_monitor := sv_next_monitor s; sv_bins := sv_bins s;
     sv_native_backoff_until := sv_native_backoff_until s; sv_datachange_queue := sv_datachange_queue s;
     sv_node_datachange_queue := sv_node_datachange_queue s;
     sv_dropped_datachange_events := sv_dropped_datachange_events s; sv_shutdown := sv_shutdown s;
     sv_now := sv_now s; sv_utc := sv_utc s |}.

Definition with_monitors (monitors : dict string nat) (heap : gmap nat NodeMonitor) (next : nat)
    (bins : dict string ManagedBin) (s : service) : service :=
  {| sv_subscriptions := sv_subscriptions s; sv_detached := sv_detached s; sv_node_monitors := monitors;
     sv_monitor_heap := heap; sv_next_monitor := next; sv_bins := bins;
     sv_native_backoff_until := sv_native_backoff_until s; sv_datachange_queue := sv_datachange_queue s;
     sv_node_datachange_queue := sv_node_datachange_queue s;
     sv_dropped_datachange_events := sv_dropped_datachange_events s; sv_shutdown := sv_shutdown s;
     sv_now := sv_now s; sv_utc := sv_utc s |}.

Definition with_queues (q : list (string * string * V * option Z)) (nq : list (string * V)) (dropped : Z)
    (s : service) : service :=
  {| sv_subscriptions := sv_subscriptions s; sv_detached := sv_detached s;
     sv_node_monitors := sv_node_monitors s; sv_monitor_heap := sv_monitor_heap s;
     sv_next_monitor := sv_next_monitor s; sv_bins := sv_bins s;
     sv_native_backoff_until := sv_native_backoff_until s; sv_datachange_queue := q;
     sv_node_datachange_queue := nq; sv_dropped_datachange_events := dropped;
     sv_shutdown := sv_shutdown s; sv_now := sv_now s; sv_utc := sv_utc s |}.

Definition with_flags (backoff : Q) (shutdown : bool) (now : Q) (utc : string) (s : service) : service :=
  {| sv_subscriptions := sv_subscriptions s; sv_detached := sv_detached s;
     sv_node_monitors := sv_node_monitors s; sv_monitor_heap := sv_monitor_heap s;
     sv_next_monitor := sv_next_monitor s; sv_bins := sv_bins s; sv_native_backoff_until := backoff;
     sv_datachange_queue := sv_datachange_queue s; sv_node_datachange_queue := sv_node_datachange_queue s;
     sv_dropped_datachange_events := sv_dropped_datachange_events s; sv_shutdown := shutdown;
     sv_now := now; sv_utc := utc |}.

Definition set_backoff_until (q : Q) (s : service) : service :=
  with_flags q (sv_shutdown s) (sv_now s) (sv_utc s) s.
Definition set_shutdown (s : service) : service :=
  with_flags (sv_native_backoff_until s) true (sv_now s) (sv_utc s) s.
Definition set_clock (now : Q) (utc : string) (s : service) : service :=
  with_flags (sv_native_backoff_until s) (sv_shutdown s) now utc s.

Definition set_subs (subs : dict string (SubscriptionState V)) (s : service) : service :=
  with_subs subs (sv_detached s) s.
Definition set_bins (bins : dict string ManagedBin) (s : service) : service :=
  with_monitors (sv_node_monitors s) (sv_monitor_heap s) (sv_next_monitor s) bins s.
Definition set_monitor (oid : nat) (m : NodeMonitor) (s : service) : service :=
  with_monitors (sv_node_monitors s) (<[oid := m]> (sv_monitor_heap s)) (sv_next_monitor s) (sv_bins s) s.

(** The monitor registered for a node, with its identity. *)
Definition live_monitor (nid : string) (s : service) : option (nat * NodeMonitor) :=
  match sv_node_monitors s !! nid with
  | Some oid => match sv_monitor_heap s !! oid with Some m => Some (oid, m) | None => None end
  | None => None
  end.

(** [live = self._node_monitors.get(node_id); live is monitor]. *)
Definition is_live (oid : nat) (nid : string) (s : service) : bool :=
  bool_decide (sv_node_monitors s !! nid = Some oid).

(** A subscription the caller may use. *)
Definition find_sub (client : option string) (sid : string) (s : service) : option (SubscriptionState V) :=
  match sv_subscriptions s !! sid with
  | None => None
  | Some st =>
      match client with
      | Some c => if bool_decide (client_id st = Some c) then Some st else None
      | None => Some st
      end
  end.

(** Assignment to a registered subscription. *)
Definition update_sub (sid : string) (f : SubscriptionState V -> SubscriptionState V) (s : service) : service :=
  match sv_subscriptions s !! sid with
  | Some st => set_subs (<[sid := f st]> (sv_subscriptions s)) s
  | None => s
  end.

(** A subscription object, registered or not, and assignment to it. *)
Definition sub_object (sid : string) (s : service) : option (SubscriptionState V) :=
  match sv_subscriptions s !! sid with Some st => Some st | None => sv_detached s !! sid end.

Definition update_object (sid : string) (f : SubscriptionState V -> SubscriptionState V) (s : service) : service :=
  match sv_subscriptions s !! sid with
  | Some st => set_subs (<[sid := f st]> (sv_subscriptions s)) s
  | None => with_subs (sv_subscriptions s) (alter f sid (sv_detached s)) s
  end.

(** [self._subscriptions.pop(sid)] of a registered subscription, then [update_event.set()]. *)
Definition detach (sid : string) (s : service) : service :=
  match sv_subscriptions s !! sid with
  | Some st => with_subs (delete sid (sv_subscriptions s))
                 (<[sid := set_update_event true st]> (sv_detached s)) s
  | None => s
  end.

Definition total_monitored (s : service) : Z :=
  foldr Z.add 0 (map bin_size (dict_values (sv_bins s))).

(** ** Calls *)

(** What [subscribe_data_changes] returns: one object per node, or a single object. *)
Inductive handles_answer := HList (l : list pyobj) | HScalar (o : pyobj).

(** [IterOrder s] is the order in which Python iterates over the set [s]; [RestoredHandles]
    reads the client's table of monitored items, by bin; [UuidFor used] draws a uuid;
    [WaitEvent] answers whether an event was set before the timeout. *)
Inductive ua_call : Type -> Type :=
  | GetCapabilities : ua_call (exc OpcUaSubscriptionCapabilities)
  | CreateSubscription (publishing_interval_ms : Q) (bin_id : string) : ua_call (exc ua_subscription)
  | SubscribeDataChanges (ua : ua_subscription) (nodes : list string) : ua_call (exc handles_answer)
  | UnsubscribeDataChanges (ua : ua_subscription) (handles : list Z) : ua_call (exc unit)
  | DeleteSubscription (ua : ua_subscription) : ua_call (exc unit)
  | ReadValues (nodes : list string) : ua_call (exc (list V))
  | UuidFor (used : gset string) : ua_call string
  | IterOrder (ids : gset string) : ua_call (list string)
  | RestoredHandles : ua_call (string -> list string -> option (dict string Z))
  | WaitEvent (sid : string) (timeout_seconds : Z) : ua_call bool.

Abbreviation prog := (prog service ua_call).
Local Open Scope async_scope.
Local Open Scope Z_scope.

(** ** Updates and notifications *)

Definition append_to (nid : string) (v : V) (s : service) (st : SubscriptionState V) : SubscriptionState V :=
  append_update (max_updates_per_subscription cfg) (sv_utc s) nid v st.

Definition handle_datachange (sid nid : string) (v : V) (handle : option Z) : prog unit :=
  update (fun s => update_sub sid (deliver (max_updates_per_subscription cfg) (sv_utc s) nid v handle) s).

Definition fanout_node_value (nid : string) (v : V) : prog unit :=
  ids <- sect (fun s => (s, match live_monitor nid s with
                            | Some (_, m) => nm_subscriber_ids m
                            | None => ∅
                            end));;
  subscriber_ids <- call (IterOrder ids);;
  pfor subscriber_ids (fun sid => handle_datachange sid nid v None).

(** [put_nowait] after the oldest entry made room. *)
Definition enqueue_bounded {A} (size : Z) (x : A) (q : list A) (dropped : Z) : list A * Z :=
  let '(q1, dropped1) :=
    if size <=? Z.of_nat (length q)
    then match q with [] => (q, dropped) | _ :: q' => (q', dropped + 1) end
    else (q, dropped) in
  if size <=? Z.of_nat (length q1) then (q1, dropped1 + 1) else (q1 ++ [x], dropped1).

Definition enqueue_datachange (sid nid : string) (v : V) (handle : option Z) (s : service) : service :=
  let '(q, d) := enqueue_bounded (notification_queue_size cfg) (sid, nid, v, handle)
                   (sv_datachange_queue s) (sv_dropped_datachange_events s) in
  with_queues q (sv_node_datachange_queue s) d s.

Definition enqueue_node_datachange (nid : string) (v : V) (s : service) : service :=
  let '(q, d) := enqueue_bounded (notification_queue_size cfg) (nid, v)
                   (sv_node_datachange_queue s) (sv_dropped_datachange_events s) in
  with_queues (sv_datachange_queue s) q d s.

(** One round of [_datachange_loop]; with an empty queue the loop waits. *)
Definition datachange_round : prog unit :=
  item <- sect (fun s => match sv_datachange_queue s with
                         | [] => (s, None)
                         | x :: q => (with_queues q (sv_node_datachange_queue s) (sv_dropped_datachange_events s) s, Some x)
                         end);;
  match item with
  | Some (sid, nid, v, handle) => handle_datachange sid nid v handle
  | None => Ret tt
  end.

Definition node_datachange_round : prog unit :=
  item <- sect (fun s => match sv_node_datachange_queue s with
                         | [] => (s, None)
                         | x :: q => (with_queues (sv_datachange_queue s) q (sv_dropped_datachange_events s) s, Some x)
                         end);;
  match item with
  | Some (nid, v) => fanout_node_value nid v
  | None => Ret tt
  end.

(** Where a notification goes ([schedule_datachange], [schedule_node_datachange]): the loop the
    service knows, whether it is closed, and the loop running in the calling thread. *)
Inductive schedule := EnqueueHere | EnqueueOn (loop : nat) | DropNotification.

Definition schedule_decision (event_loop : option nat) (closed : nat -> bool) (current : option nat) :
    option nat * schedule :=
  let target := match event_loop with Some l => if closed l then None else Some l | None => None end in
  match target, current with
  | None, Some c => (Some c, EnqueueHere)
  | Some l, Some c => if bool_decide (l = c) then (event_loop, EnqueueHere) else (event_loop, EnqueueOn l)
  | Some l, None => (event_loop, EnqueueOn l)
  | None, None => (event_loop, DropNotification)
  end.

(** [_remember_event_loop]. *)
Definition remember_event_loop (event_loop : option nat) (closed : nat -> bool) (running : option nat) : option nat :=
  match running with
  | None => event_loop
  | Some loop =>
      match event_loop with
      | None => Some loop
      | Some l => if closed l then Some loop else event_loop
      end
  end.

(** [_NodeDataChangeHandler.datachange_notification]: [nodeid] is [None] when the node has no
    readable id. *)
Definition node_datachange_notification (nodeid : option string) (v : V) : option (string * V) :=
  match nodeid with Some nid => Some (nid, v) | None => None end.

(** [_DataChangeHandler.datachange_notification]: falls back to [str(node)]. *)
Definition datachange_notification (sid : string) (nodeid : option string) (str_node : string) (v : V)
    (data : pyobj) : string * string * V * option Z :=
  let client_handle :=
    match py_getattr data "monitored_item" with
    | ONone => None
    | item => to_client_handle (py_getattr item "ClientHandle")
    end in
  (sid, default str_node nodeid, v, client_handle).

(** ** Reading values *)

Definition refresh_changed_values (sid : string) : prog unit :=
  node_ids <- sect (fun s => (s, match sv_subscriptions s !! sid with
                                 | Some st => if bool_decide (mode st = "idle") then []
                                              else py_sorted string_leb (elements (monitored_node_ids st))
                                 | None => []
                                 end));;
  match node_ids with
  | [] => Ret tt
  | _ =>
      values <- call (ReadValues node_ids);;
      match values with
      | Raise => Ret tt
      | Val values =>
          update (fun s => update_sub sid (fun st =>
            touch (sv_now s)
              (fold_left (fun st p => if bool_decide (p.1 ∈ monitored_node_ids st)
                                      then append_to p.1 p.2 s st else st)
                 (zip node_ids values) st)) s)
      end
  end.

Definition seed_initial_updates (sid : string) : prog unit :=
  if seed_initial_values cfg then refresh_changed_values sid else Ret tt.

(** One round of [_shared_polling_loop]. *)
Definition polling_round : prog unit :=
  node_ids <- sect (fun s =>
    (s, py_sorted string_leb
          (omap (fun p => match sv_monitor_heap s !! p.2 with
                          | Some m => if bool_decide (nm_mode m = "polling") then Some p.1 else None
                          | None => None
                          end) (dict_items (sv_node_monitors s)))));;
  match node_ids with
  | [] => Ret tt
  | _ =>
      values <- call (ReadValues node_ids);;
      match values with
      | Raise => Ret tt
      | Val values => pfor (zip node_ids values) (fun p => fanout_node_value p.1 p.2)
      end
  end.
(** ** Native bins *)

Definition used_bin_ids (s : service) : gset string := list_to_set (dict_keys (sv_bins s)).

Definition caps_allow (limit : option Z) (n : Z) : bool :=
  match limit with Some l => n <=? l | None => true end.

(** [_can_open_new_bin]. *)
Definition can_open_new_bin (caps : OpcUaSubscriptionCapabilities) (s : service) : bool :=
  let bin_count := Z.of_nat (dict_len (sv_bins s)) in
  (caps_allow (max_subscriptions caps) (bin_count + 1) &&
   caps_allow (max_subscriptions_per_session caps) (bin_count + 1) &&
   caps_allow (max_monitored_items caps) (total_monitored s + 1))%bool.

Definition subscribe_single_node (ua : ua_subscription) (nid : string) : prog (exc (option Z)) :=
  r <- call (SubscribeDataChanges ua [nid]);;
  match r with
  | Raise => Ret Raise
  | Val (HList l) => Ret (Val (match head l with Some h => to_client_handle h | None => None end))
  | Val (HScalar h) => Ret (Val (to_client_handle h))
  end.

(** The registration at the end of [_open_new_bin]; [false] when the monitor is gone. *)
Definition commit_new_bin (oid : nat) (nid bin_id : string) (ua : ua_subscription) (capacity handle : Z)
    (s : service) : service * bool :=
  if is_live oid nid s then
    let nri := Some (compute_native_refresh_interval_seconds cfg ua) in
    let b := {| mb_bin_id := bin_id; mb_ua_subscription := ua; mb_capacity := capacity;
                mb_node_handles := <[nid := handle]> ∅; mb_native_refresh_interval_seconds := nri |} in
    let s1 := set_bins (<[bin_id := b]> (sv_bins s)) s in
    (match sv_monitor_heap s !! oid with
     | Some m => set_monitor oid (set_runtime "native" (Some bin_id) nri m) s1
     | None => s1
     end, true)
  else (s, false).

Definition open_new_bin (oid : nat) (nid : string) (capacity : Z) : prog (exc bool) :=
  used <- sect (fun s => (s, used_bin_ids s));;
  uuid <- call (UuidFor used);;
  let bin_id := "bin-" +:+ uuid in
  created <- call (CreateSubscription (interval_seconds cfg * inject_Z 1000)%Q bin_id);;
  match created with
  | Raise => Ret Raise
  | Val ua =>
      handle <-? subscribe_single_node ua nid;;
      match handle with
      | None => _ <- call (DeleteSubscription ua);; Ret (Val false)
      | Some handle =>
          ok <- sect (commit_new_bin oid nid bin_id ua capacity handle);;
          if (ok : bool) then Ret (Val true)
          else _ <-? call (DeleteSubscription ua);; Ret (Val false)
      end
  end.

(** The registration at the end of [_add_node_to_bin]. *)
Definition commit_bin_node (oid : nat) (nid bin_id : string) (handle : Z) (s : service) : service * bool :=
  match is_live oid nid s, sv_bins s !! bin_id with
  | true, Some b =>
      let s1 := set_bins (<[bin_id := set_handles (<[nid := handle]> (mb_node_handles b)) b]> (sv_bins s)) s in
      (match sv_monitor_heap s !! oid with
       | Some m => set_monitor oid (set_runtime "native" (Some (mb_bin_id b)) (mb_native_refresh_interval_seconds b) m) s1
       | None => s1
       end, true)
  | _, _ => (s, false)
  end.

Definition add_node_to_bin (oid : nat) (nid bin_id : string) (ua : ua_subscription) : prog (exc bool) :=
  handle <-? subscribe_single_node ua nid;;
  match handle with
  | None => Ret (Val false)
  | Some handle =>
      ok <- sect (commit_bin_node oid nid bin_id handle);;
      if (ok : bool) then Ret (Val true)
      else _ <- call (UnsubscribeDataChanges ua [handle]);; Ret (Val false)
  end.

(** What the first block of [_acquire_native_bin_slot] decides. *)
Inductive slot := SlotRefused | SlotIn (bin_id : string) (ua : ua_subscription) | SlotNew.

Definition find_slot (caps : OpcUaSubscriptionCapabilities) (s : service) : slot :=
  if caps_allow (max_monitored_items caps) (total_monitored s + 1) then
    match List.find (fun b => bin_size b <? mb_capacity b) (dict_values (sv_bins s)) with
    | Some b => SlotIn (mb_bin_id b) (mb_ua_subscription b)
    | None => SlotNew
    end
  else SlotRefused.

Definition effective_capacity (caps : OpcUaSubscriptionCapabilities) : Z :=
  default DEFAULT_BIN_CAPACITY (min_positive [max_monitored_items_per_subscription caps]).

Definition acquire_native_bin_slot (oid : nat) (nid : string) (caps : OpcUaSubscriptionCapabilities) :
    prog (exc bool) :=
  with_lock (
    slot <- sect (fun s => (s, find_slot caps s));;
    match slot with
    | SlotRefused => Ret (Val false)
    | SlotIn bin_id ua => add_node_to_bin oid nid bin_id ua
    | SlotNew =>
        ok <- sect (fun s => (s, can_open_new_bin caps s));;
        if (ok : bool) then open_new_bin oid nid (effective_capacity caps) else Ret (Val false)
    end).

(** [_start_polling_node_monitor]. *)
Definition start_polling (oid : nat) (nid : string) (s : service) : service :=
  match is_live oid nid s, sv_monitor_heap s !! oid with
  | true, Some m => set_monitor oid (set_runtime "polling" None None m) s
  | _, _ => s
  end.

Definition start_node_monitor_runtime (oid : nat) (nid : string) : prog (exc unit) :=
  backing_off <- sect (fun s => (s, negb (Qle_bool (sv_native_backoff_until s) (sv_now s))));;
  if (backing_off : bool) then _ <- update (start_polling oid nid);; Ret (Val tt)
  else
    caps <-? call GetCapabilities;;
    acquired <- acquire_native_bin_slot oid nid caps;;
    match acquired with
    | Val true => Ret (Val tt)
    | Val false => _ <- update (start_polling oid nid);; Ret (Val tt)
    | Raise =>
        _ <- update (fun s => set_backoff_until (sv_now s + native_backoff_seconds cfg)%Q s);;
        _ <- update (start_polling oid nid);; Ret (Val tt)
    end.

(** The two blocks of [_stop_node_monitor_runtime]. *)
Definition reset_monitor (oid : nat) (s : service) : service * option string :=
  match sv_monitor_heap s !! oid with
  | Some m => (set_monitor oid (set_runtime "idle" None None m) s, nm_bin_id m)
  | None => (s, None)
  end.

Definition leave_bin (bin_id nid : string) (s : service) : service * option (ManagedBin * option Z * bool) :=
  match sv_bins s !! bin_id with
  | None => (s, None)
  | Some b =>
      let '(handle, handles) := dict_pop nid (mb_node_handles b) in
      let empty := bool_decide (dict_items handles = []) in
      (set_bins (if empty then delete bin_id (sv_bins s) else <[bin_id := set_handles handles b]> (sv_bins s)) s,
       Some (b, handle, empty))
  end.

Definition stop_node_monitor_runtime (oid : nat) (nid : string) : prog unit :=
  bin_id <- sect (reset_monitor oid);;
  match bin_id with
  | None => Ret tt
  | Some bin_id =>
      left <- sect (leave_bin bin_id nid);;
      match left with
      | None => Ret tt
      | Some (b, handle, empty) =>
          if (empty : bool) then _ <- call (DeleteSubscription (mb_ua_subscription b));; Ret tt
          else match handle with
               | Some h => _ <- call (UnsubscribeDataChanges (mb_ua_subscription b) [h]);; Ret tt
               | None => Ret tt
               end
      end
  end.

(** ** Reference counting of node monitors *)

(** The block of [_acquire_node_monitor]; the new monitor, if the node had none. *)
Definition add_subscriber (nid sid : string) (s : service) : service * option nat :=
  match sv_node_monitors s !! nid with
  | Some oid =>
      (match sv_monitor_heap s !! oid with
       | Some m => set_monitor oid (set_subscribers ({[sid]} ∪ nm_subscriber_ids m) m) s
       | None => s
       end, None)
  | None =>
      let oid := sv_next_monitor s in
      let m := {| nm_node_id := nid; nm_mode := "idle"; nm_subscriber_ids := {[sid]}; nm_bin_id := None;
                  nm_native_refresh_interval_seconds := None |} in
      (with_monitors (<[nid := oid]> (sv_node_monitors s)) (<[oid := m]> (sv_monitor_heap s)) (S oid) (sv_bins s) s,
       Some oid)
  end.

Definition acquire_node_monitor (nid sid : string) : prog (exc unit) :=
  fresh <- sect (add_subscriber nid sid);;
  match fresh with
  | None => Ret (Val tt)
  | Some oid => start_node_monitor_runtime oid nid
  end.

(** The block of [_release_node_monitor]; the monitor to stop, if it lost its last subscriber. *)
Definition drop_subscriber (nid sid : string) (s : service) : service * option nat :=
  match sv_node_monitors s !! nid with
  | None => (s, None)
  | Some oid =>
      match sv_monitor_heap s !! oid with
      | None => (s, None)
      | Some m =>
          let ids := nm_subscriber_ids m ∖ {[sid]} in
          let s1 := set_monitor oid (set_subscribers ids m) s in
          if bool_decide (ids = ∅)
          then (with_monitors (delete nid (sv_node_monitors s1)) (sv_monitor_heap s1) (sv_next_monitor s1) (sv_bins s1) s1,
                Some oid)
          else (s1, None)
      end
  end.

Definition release_node_monitor (nid sid : string) : prog unit :=
  stop <- sect (drop_subscriber nid sid);;
  match stop with
  | None => Ret tt
  | Some oid => stop_node_monitor_runtime oid nid
  end.

(** [_update_subscription_mode] on the service. *)
Definition all_native (s : service) (nodes : gset string) : bool :=
  forallb (fun nid => match live_monitor nid s with
                      | Some (_, m) => bool_decide (nm_mode m = "native")
                      | None => false
                      end) (elements nodes).

Definition native_intervals (s : service) (nodes : gset string) : list Q :=
  omap (fun nid => match live_monitor nid s with
                   | Some (_, m) => if bool_decide (nm_mode m = "native")
                                    then nm_native_refresh_interval_seconds m else None
                   | None => None
                   end) (elements nodes).

Definition min_interval (l : list Q) : option Q :=
  match l with [] => None | q :: l' => Some (fold_left Qmin l' q) end.

Definition computed_mode (s : service) (st : SubscriptionState V) : string * option Q :=
  if bool_decide (monitored_node_ids st = ∅) then ("idle", None)
  else if all_native s (monitored_node_ids st)
  then ("native", min_interval (native_intervals s (monitored_node_ids st)))
  else ("polling", None).

Definition update_subscription_mode (sid : string) : prog unit :=
  update (fun s => update_sub sid (fun st => let '(m, nri) := computed_mode s st in set_mode m nri st) s).

(** [_apply_monitored_node_diff]. *)
Definition apply_monitored_node_diff (sid : string) (previous new : gset string) : prog (exc unit) :=
  removed <- call (IterOrder (previous ∖ new));;
  _ <- pfor removed (fun nid => release_node_monitor nid sid);;
  added <- call (IterOrder (new ∖ previous));;
  _ <-? efor added (fun nid => acquire_node_monitor nid sid);;
  _ <- update_subscription_mode sid;;
  _ <- seed_initial_updates sid;;
  Ret (Val tt).

Definition monitored_of (sid : string) (s : service) : gset string :=
  match sub_object sid s with Some st => monitored_node_ids st | None => ∅ end.

(** [_release_all_nodes(state)], the state object being the one created for [sid]. *)
Definition release_all_nodes (sid : string) : prog unit :=
  nodes <- sect (fun s => (s, monitored_of sid s));;
  order <- call (IterOrder nodes);;
  _ <- pfor order (fun nid => release_node_monitor nid sid);;
  update (update_object sid (set_mode "idle" None)).

(** ** Client operations *)

Definition used_subscription_ids (s : service) : gset string :=
  list_to_set (dict_keys (sv_subscriptions s)) ∪ dom (sv_detached s).

Definition create_subscription (client name : option string) : prog SubscriptionDetail :=
  used <- sect (fun s => (s, used_subscription_ids s));;
  uuid <- call (UuidFor used);;
  let sid := "sub-" +:+ uuid in
  sect (fun s =>
    let st := new_subscription sid client name (sv_now s) in
    (set_subs (<[sid := st]> (sv_subscriptions s)) s, to_detail st)).

Definition list_subscriptions (client : option string) (ids : option (list string)) (s : service) :
    list SubscriptionDetail :=
  let values := dict_values (sv_subscriptions s) in
  let values := match client with
                | None => values
                | Some _ => List.filter (fun st => bool_decide (client_id st = client)) values
                end in
  let values := match ids with
                | None => values
                | Some ids => List.filter (fun st => bool_decide (subscription_id st ∈ ids)) values
                end in
  map to_detail values.

Definition get_subscription (sid : string) (s : service) : option SubscriptionDetail :=
  to_detail <$> sv_subscriptions s !! sid.

(** [SubscriptionDeleteResult]; the failure is always "404 Subscription not found". *)
Record delete_result := { dr_success : bool; dr_subscription_id : string }.

(** One id of [delete_subscriptions]: the result, and the id when it was removed. *)
Definition delete_one (client : option string) (acc : service * list delete_result * list string) (sid : string) :
    service * list delete_result * list string :=
  let '(s, results, removed) := acc in
  match find_sub client sid s with
  | None => (s, results ++ [{| dr_success := false; dr_subscription_id := sid |}], removed)
  | Some _ => (detach sid s, results ++ [{| dr_success := true; dr_subscription_id := sid |}], removed ++ [sid])
  end.

Definition delete_block (client : option string) (ids : list string) (s : service) :
    service * (list delete_result * list string) :=
  let '(s', results, removed) := fold_left (delete_one client) ids (s, [], []) in (s', (results, removed)).

Definition delete_subscriptions (client : option string) (ids : list string) : prog (list delete_result) :=
  res <- sect (delete_block client ids);;
  _ <- pfor res.2 release_all_nodes;;
  Ret res.1.

(** What the first block of [register_items] and [unregister_items] does once the registered
    objects are updated. The resolution runs inside the block: when it never returns, neither
    does the block, and the objects stay updated. *)
Inductive change := ChangeRefused | ChangeHangs | Changed (previous new : gset string).

Definition change_block (client : option string) (sid : string) (model : BuildResult)
    (edit : dict string Z -> dict string Z) (s : service) : service * change :=
  match find_sub client sid s with
  | None => (s, ChangeRefused)
  | Some st =>
      let objects := edit (monitored_objects st) in
      match resolve_monitored_node_ids objects model with
      | None =>
          (update_sub sid (set_monitored objects (monitored_node_ids st) (node_to_element_id st)
                             (last_values_by_node_id st)) s, ChangeHangs)
      | Some (node_ids, node_to_element) =>
          (update_sub sid (fun st =>
             touch (sv_now s)
               (set_monitored objects node_ids node_to_element
                  (dict_filter_keys (fun nid => bool_decide (nid ∈ node_ids)) (last_values_by_node_id st)) st)) s,
           Changed (monitored_node_ids st) node_ids)
      end
  end.

(** [None]: the call never returns. *)
Definition change_items (client : option string) (sid : string) (model : BuildResult)
    (edit : dict string Z -> dict string Z) : prog (option (exc bool)) :=
  r <- sect (change_block client sid model edit);;
  match r with
  | ChangeRefused => Ret (Some (Val false))
  | ChangeHangs => Ret None
  | Changed previous new =>
      done <- apply_monitored_node_diff sid previous new;;
      Ret (Some (match done with Val _ => Val true | Raise => Raise end))
  end.

Definition register_edit (element_ids : list string) (max_depth : Z) (objects : dict string Z) : dict string Z :=
  fold_left (fun d eid => <[eid := max_depth]> d) element_ids objects.

Definition unregister_edit (element_ids : list string) (objects : dict string Z) : dict string Z :=
  fold_left (fun d eid => delete eid d) element_ids objects.

Definition register_items (client : option string) (sid : string) (element_ids : list string) (max_depth : Z)
    (model : BuildResult) : prog (option (exc bool)) :=
  change_items client sid model (register_edit element_ids max_depth).

Definition unregister_items (client : option string) (sid : string) (element_ids : list string)
    (model : BuildResult) : prog (option (exc bool)) :=
  change_items client sid model (unregister_edit element_ids).

(** The first block of [sync]. *)
Inductive sync_start := SyncGone | SyncStreaming | SyncGo (refresh : bool).

Definition sync_block (client : option string) (sid : string) (ack : option Z) (allow_streaming : bool)
    (s : service) : service * sync_start :=
  match find_sub client sid s with
  | None => (s, SyncGone)
  | Some st =>
      if (stream_connected st && negb allow_streaming)%bool then (s, SyncStreaming)
      else
        let st' := acknowledge ack st in
        (update_sub sid (fun st => touch (sv_now s) (acknowledge ack st)) s, SyncGo (should_refresh ack st'))
  end.

Definition collect_block (client : option string) (sid : string) (s : service) :
    service * option (SubscriptionSyncResult V) :=
  match find_sub client sid s with
  | None => (s, None)
  | Some st =>
      let '(result, _) := collect st in
      (update_sub sid (fun st => touch (sv_now s) (collect st).2) s, Some result)
  end.

Definition streaming_result : SubscriptionSyncResult V :=
  {| sr_updates := []; sr_queue_overflow := false; sr_dropped_from_sequence := None;
     sr_dropped_to_sequence := None; sr_stream_active := true |}.

Definition sync (client : option string) (sid : string) (ack : option Z) (allow_streaming : bool) :
    prog (option (SubscriptionSyncResult V)) :=
  start <- sect (sync_block client sid ack allow_streaming);;
  match start with
  | SyncGone => Ret None
  | SyncStreaming => Ret (Some streaming_result)
  | SyncGo refresh =>
      _ <- (if (refresh : bool) then refresh_changed_values sid else Ret tt);;
      sect (collect_block client sid)
  end.

(** ** Streams *)

Definition activate_stream (client : option string) (sid : string) (s : service) : service * option Z :=
  match find_sub client sid s with
  | None => (s, None)
  | Some st => (update_sub sid (activate (sv_now s)) s, Some (active_stream_generation st + 1))
  end.

Definition deactivate_stream (sid : string) (generation : Z) (s : service) : service :=
  update_sub sid (deactivate (sv_now s) generation) s.

Definition has_active_stream (client : option string) (sid : string) (s : service) : option bool :=
  stream_connected <$> find_sub client sid s.

Definition is_stream_active (sid : string) (generation : Z) (s : service) : bool :=
  match sv_subscriptions s !! sid with
  | Some st => active_stream_generation st =? generation
  | None => false
  end.

Definition updates_after (sid : string) (after : Z) (s : service) : option (list (SubscriptionUpdate V)) :=
  updates_above after <$> sv_subscriptions s !! sid.

(** [max(1, ceil(interval / max(0.001, timeout)))]. *)
Definition refresh_timeout_threshold (interval : Q) (timeout_seconds : Z) : Z :=
  Z.max 1 (Qceiling (interval / Qmax (1 # 1000) (inject_Z timeout_seconds))%Q).

(** [refresh_interval_seconds or self._interval_seconds]. *)
Definition interval_or_default (nri : option Q) : Q :=
  match nri with
  | Some q => if Qeq_bool q 0 then interval_seconds cfg else q
  | None => interval_seconds cfg
  end.

Inductive wait_start := WaitGone | WaitReady (us : list (SubscriptionUpdate V)) | WaitFor (refresh : bool) (threshold : Z).

Definition wait_block (client : option string) (sid : string) (after timeout_seconds : Z) (s : service) :
    service * wait_start :=
  match find_sub client sid s with
  | None => (s, WaitGone)
  | Some st =>
      match updates_above after st with
      | [] =>
          let refresh := (bool_decide (mode st = "native") && negb (bool_decide (monitored_node_ids st = ∅)) &&
                          negb (bool_decide (native_timeout_refresh_mode cfg = "strict")))%bool in
          let threshold :=
            if (refresh && bool_decide (native_timeout_refresh_mode cfg = "adaptive"))%bool
            then refresh_timeout_threshold (interval_or_default (native_refresh_interval_seconds st)) timeout_seconds
            else 1 in
          (update_sub sid (fun st => set_update_event false (touch (sv_now s) st)) s, WaitFor refresh threshold)
      | current =>
          (update_sub sid (fun st => set_native_timeout_count 0 (touch (sv_now s) st)) s, WaitReady current)
      end
  end.

(** The block after a timeout: whether to re-read the nodes. *)
Definition timeout_block (client : option string) (sid : string) (refresh : bool) (threshold : Z) (s : service) :
    service * option bool :=
  match find_sub client sid s with
  | None => (s, None)
  | Some st =>
      if refresh then
        let count := native_timeout_count st + 1 in
        (update_sub sid (fun st => set_native_timeout_count (native_timeout_count st + 1) st) s,
         Some (if bool_decide (native_timeout_refresh_mode cfg = "adaptive") then threshold <=? count else true))
      else (s, Some false)
  end.

Definition reset_timeouts_block (client : option string) (sid : string) (s : service) : service * bool :=
  match find_sub client sid s with
  | None => (s, false)
  | Some _ => (update_sub sid (set_native_timeout_count 0) s, true)
  end.

Definition read_block (reset : bool) (client : option string) (sid : string) (after : Z) (s : service) :
    service * option (list (SubscriptionUpdate V)) :=
  match find_sub client sid s with
  | None => (s, None)
  | Some st =>
      (update_sub sid (fun st => touch (sv_now s) (if reset then set_native_timeout_count 0 st else st)) s,
       Some (updates_above after st))
  end.

Definition wait_for_updates (client : option string) (sid : string) (after timeout_seconds : Z) :
    prog (option (list (SubscriptionUpdate V))) :=
  start <- sect (wait_block client sid after timeout_seconds);;
  match start with
  | WaitGone => Ret None
  | WaitReady us => Ret (Some us)
  | WaitFor refresh threshold =>
      woken <- call (WaitEvent sid timeout_seconds);;
      shutdown <- sect (fun s => (s, sv_shutdown s));;
      if (shutdown : bool) then Ret None
      else if (woken : bool) then sect (read_block true client sid after)
      else
        execute <- sect (timeout_block client sid refresh threshold);;
        match execute with
        | None => Ret None
        | Some false => sect (read_block false client sid after)
        | Some true =>
            still <- sect (reset_timeouts_block client sid);;
            if (still : bool) then _ <- refresh_changed_values sid;; sect (read_block false client sid after)
            else Ret None
        end
  end.

(** ** Expiry, reconnection and shutdown *)

Definition is_stale (now : Q) (st : SubscriptionState V) : bool :=
  Qle_bool (inject_Z (ttl_seconds cfg)) (now - last_activity_monotonic st)%Q.

Definition expire_block (s : service) : service * list string :=
  let stale_ids := map subscription_id (List.filter (is_stale (sv_now s)) (dict_values (sv_subscriptions s))) in
  fold_left (fun '(s, removed) sid =>
               match sv_subscriptions s !! sid with
               | None => (s, removed)
               | Some _ => (detach sid s, removed ++ [sid])
               end) stale_ids (s, []).

Definition expire_subscriptions : prog unit :=
  removed <- sect expire_block;;
  pfor removed release_all_nodes.

(** The block of [_handle_client_reconnect] on one bin: the dead bins and the nodes to
    re-admit. *)
Definition reset_lost (bin_id : string) (acc : service * list string) (nid : string) : service * list string :=
  let '(s, lost) := acc in
  match live_monitor nid s with
  | Some (oid, m) =>
      if bool_decide (nm_bin_id m = Some bin_id)
      then (set_monitor oid (set_runtime "idle" None (nm_native_refresh_interval_seconds m) m) s, lost ++ [nid])
      else (s, lost)
  | None => (s, lost)
  end.

Definition resync_bin (restored : string -> list string -> option (dict string Z))
    (acc : service * list ManagedBin * list string) (entry : string * ManagedBin) :
    service * list ManagedBin * list string :=
  let '(s, dead, lost) := acc in
  let '(bin_id, b) := entry in
  let requested := dict_keys (mb_node_handles b) in
  let handles := restored bin_id requested in
  let missing := List.filter (fun nid => match handles with
                                         | None => true
                                         | Some h => negb (dict_mem nid h)
                                         end) requested in
  let '(s1, dead1) :=
    match handles with
    | Some h => if bool_decide (dict_items h = []) then (set_bins (delete bin_id (sv_bins s)) s, dead ++ [b])
                else (set_bins (<[bin_id := set_handles h b]> (sv_bins s)) s, dead)
    | None => (set_bins (delete bin_id (sv_bins s)) s, dead ++ [b])
    end in
  let '(s2, lost1) := fold_left (reset_lost bin_id) missing (s1, lost) in
  (s2, dead1, lost1).

Definition resync_block (restored : string -> list string -> option (dict string Z)) (s : service) :
    service * (list ManagedBin * list string) :=
  let '(s', dead, lost) := fold_left (resync_bin restored) (dict_items (sv_bins s)) (s, [], []) in
  (s', (dead, lost)).

Definition readmit (nid : string) : prog (exc unit) :=
  oid <- sect (fun s => (s, match live_monitor nid s with
                            | Some (oid, m) => if bool_decide (nm_mode m = "idle") then Some oid else None
                            | None => None
                            end));;
  match oid with
  | None => Ret (Val tt)
  | Some oid => start_node_monitor_runtime oid nid
  end.

Definition handle_client_reconnect : prog (exc unit) :=
  restored <- call RestoredHandles;;
  r <- sect (resync_block restored);;
  _ <- pfor r.1 (fun b => _ <- call (DeleteSubscription (mb_ua_subscription b));; Ret tt);;
  _ <-? efor (py_sorted string_leb r.2) readmit;;
  ids <- sect (fun s => (s, dict_keys (sv_subscriptions s)));;
  _ <- pfor ids update_subscription_mode;;
  Ret (Val tt).

Definition initiate_shutdown (s : service) : service :=
  set_subs (dict_map (set_update_event true) (sv_subscriptions s)) (set_shutdown s).

(** [self._subscriptions.clear()]: the objects live on. *)
Definition clear_subscriptions (s : service) : service :=
  with_subs ∅
    (foldr (fun sid m => match sv_subscriptions s !! sid with Some st => <[sid := st]> m | None => m end)
       (sv_detached s) (dict_keys (sv_subscriptions s))) s.

(** [close], up to the cancellation of the background tasks. *)
Definition close : prog unit :=
  _ <- update set_shutdown;;
  ids <- sect (fun s => (s, dict_keys (sv_subscriptions s)));;
  _ <- pfor ids (fun sid =>
         _ <- update (update_object sid (set_update_event true));;
         release_all_nodes sid);;
  update clear_subscriptions.
End Service.
End SubRuntime.
