(* ===== verification/SubRegistry.v ===== *)
(** The registry of node monitors is exact: outside a running operation, the subscribers
    recorded for a node are the subscriptions that monitor it.

    [registry_ok] is preserved by every operation of the service run to its end ([exec_ok]),
    whatever the server answers, so long as the answers keep the contract [ua_resp_ok]. While an
    operation runs, the registry lags behind the subscriptions; [reg_at mon] says that the
    subscribers agree with an explicit assignment [mon] of nodes to subscriptions. *)

From S2P Require Export SubRuntime.

Module SubRegistry.
Import SubQueue SubResolve SubRuntime.

(** ** The contract of the calls *)

Section Contract.
Context {V : Type} `{PyValue V}.
Implicit Types (s : service (V := V)) (st : SubscriptionState V).

(** The client answers with capabilities, turning read failures into absent limits; it keeps an
    answer until it reconnects, so that answers of one run may differ, and [caps_ok] says which
    ones the server gives; a set is iterated in some order, each element once; the client's table only
    answers for the nodes asked about; a uuid has not been used before. *)
Definition ua_resp_ok (caps_ok : OpcUaSubscriptionCapabilities -> Prop) (R : Type) (c : ua_call (V := V) R) : R -> Prop :=
  match c in ua_call R return R -> Prop with
  | GetCapabilities => fun r => exists caps, r = Val caps /\ caps_ok caps
  | IterOrder ids => fun l => NoDup l /\ forall x, x ∈ l <-> x ∈ ids
  | RestoredHandles => fun f => forall b l h, f b l = Some h -> dict_wf h /\ (forall k, k ∈ dict_keys h -> k ∈ l)
  | UuidFor used => fun u => ("sub-" +:+ u) ∉ used /\ ("bin-" +:+ u) ∉ used
  | CreateSubscription _ _ | SubscribeDataChanges _ _ | UnsubscribeDataChanges _ _ | DeleteSubscription _
  | ReadValues _ | WaitEvent _ _ => fun _ => True
  end.

(** While a task waits, the clocks advance. *)
Definition clock_tick (s s' : service (V := V)) : Prop :=
  exists now utc, (sv_now s <= now)%Q /\ s' = set_clock now utc s.

(** ** States *)

Definition subs_of (nid : string) (s : service (V := V)) : gset string :=
  match live_monitor nid s with Some (_, m) => nm_subscriber_ids m | None => ∅ end.

Definition mon_of (sid : string) (s : service (V := V)) : gset string :=
  match sv_subscriptions s !! sid with Some st => monitored_node_ids st | None => ∅ end.

(** Every registered monitor is an object of the heap, of its own node, with a subscriber. *)
Record monitors_wf (s : service (V := V)) : Prop := {
  mw_live nid oid : sv_node_monitors s !! nid = Some oid ->
    exists m, sv_monitor_heap s !! oid = Some m /\ nm_node_id m = nid /\ nm_subscriber_ids m ≠ ∅;
  mw_next oid : is_Some (sv_monitor_heap s !! oid) -> (oid < sv_next_monitor s)%nat;
}.

Definition reg_at (mon : string -> gset string) (s : service (V := V)) : Prop :=
  monitors_wf s /\ forall nid sid, sid ∈ subs_of nid s <-> nid ∈ mon sid.

Record subs_wf (s : service (V := V)) : Prop := {
  sw_dict : dict_wf (sv_subscriptions s);
  sw_ids sid st : sv_subscriptions s !! sid = Some st -> subscription_id st = sid;
}.

Definition registry_ok (s : service (V := V)) : Prop :=
  subs_wf s /\ reg_at (fun sid => mon_of sid s) s.

(** ** What sections that do not touch the registry preserve *)

Context (cfg : config) (caps_ok : OpcUaSubscriptionCapabilities -> Prop).

(** [max(1, max_updates_per_subscription)]. *)
Context (max_updates_pos : 1 <= max_updates_per_subscription cfg).

Abbreviation queue_ok := (queue_ok (max_updates_per_subscription cfg)).

(** Every queue is well formed, also that of a removed subscription. *)
Definition queues_ok (s : service (V := V)) : Prop :=
  (forall sid st, sv_subscriptions s !! sid = Some st -> queue_ok st) /\
  (forall sid st, sv_detached s !! sid = Some st -> queue_ok st).

Definition reg_same (s s' : service (V := V)) : Prop :=
  sv_node_monitors s' = sv_node_monitors s /\
  sv_next_monitor s' = sv_next_monitor s /\
  forall oid, (fun m => (nm_node_id m, nm_subscriber_ids m)) <$> sv_monitor_heap s' !! oid =
         (fun m => (nm_node_id m, nm_subscriber_ids m)) <$> sv_monitor_heap s !! oid.

Definition subs_same (s s' : service (V := V)) : Prop :=
  dict_keys (sv_subscriptions s') = dict_keys (sv_subscriptions s) /\
  (forall sid, (fun st => (subscription_id st, monitored_node_ids st)) <$> sv_subscriptions s' !! sid =
          (fun st => (subscription_id st, monitored_node_ids st)) <$> sv_subscriptions s !! sid) /\
  (forall sid, monitored_node_ids <$> sv_detached s' !! sid = monitored_node_ids <$> sv_detached s !! sid).

Definition gentle (s s' : service (V := V)) : Prop :=
  reg_same s s' /\ subs_same s s' /\ (queues_ok s -> queues_ok s').

Lemma gentle_refl s : gentle s s.
Proof. done. Qed.

Lemma reg_same_trans s1 s2 s3 : reg_same s1 s2 -> reg_same s2 s3 -> reg_same s1 s3.
Proof. intros (? & ? & Ha) (? & ? & Hb). split_and!; [congruence|congruence|]. intros oid. by rewrite Hb, Ha. Qed.

Lemma subs_same_trans s1 s2 s3 : subs_same s1 s2 -> subs_same s2 s3 -> subs_same s1 s3.
Proof.
  intros (? & Ha & Ha') (? & Hb & Hb'). split_and!; [congruence| |]; intros x; [by rewrite Hb, Ha|by rewrite Hb', Ha'].
Qed.

Lemma gentle_trans s1 s2 s3 : gentle s1 s2 -> gentle s2 s3 -> gentle s1 s3.
Proof.
  intros (?&?&Ha) (?&?&Hb). split_and!; [by eapply reg_same_trans|by eapply subs_same_trans|].
  intros Hq. by apply Hb, Ha.
Qed.

Lemma clock_tick_gentle s s' : clock_tick s s' -> gentle s s'.
Proof. intros (now & utc & _ & ->). done. Qed.

Lemma reg_same_live s s' nid :
  reg_same s s' ->
  (fun p => (p.1, nm_node_id p.2, nm_subscriber_ids p.2)) <$> live_monitor nid s' =
  (fun p => (p.1, nm_node_id p.2, nm_subscriber_ids p.2)) <$> live_monitor nid s.
Proof.
  intros (Hm & _ & Hh). unfold live_monitor. rewrite Hm. destruct (sv_node_monitors s !! nid) as [oid|]; [|done].
  specialize (Hh oid). destruct (sv_monitor_heap s' !! oid), (sv_monitor_heap s !! oid); simplify_eq/=; congruence.
Qed.

Lemma reg_same_subs_of s s' nid : reg_same s s' -> subs_of nid s' = subs_of nid s.
Proof.
  intros Hs. unfold subs_of. pose proof (reg_same_live s s' nid Hs) as H1.
  destruct (live_monitor nid s') as [[]|], (live_monitor nid s) as [[]|]; simplify_eq/=; congruence.
Qed.

Lemma reg_same_wf s s' : reg_same s s' -> monitors_wf s -> monitors_wf s'.
Proof.
  intros (Hm & Hn & Hh) [H1 H2]. split.
  - intros nid oid. rewrite Hm. intros Ho. destruct (H1 nid oid Ho) as (m & Hoid & ? & ?).
    specialize (Hh oid). rewrite Hoid in Hh. destruct (sv_monitor_heap s' !! oid) as [m'|] eqn:E; simplify_eq/=.
    exists m'. split_and!; congruence.
  - intros oid Ho. rewrite Hn. apply H2. specialize (Hh oid).
    destruct (sv_monitor_heap s !! oid); [eauto|]. destruct Ho as [m E]. by rewrite E in Hh.
Qed.

Lemma reg_at_same mon s s' : reg_same s s' -> reg_at mon s -> reg_at mon s'.
Proof.
  intros Hs [Hwf H1]. split; [by eapply reg_same_wf|]. intros nid sid. by rewrite (reg_same_subs_of s s').
Qed.

Lemma subs_same_mon_of s s' sid : subs_same s s' -> mon_of sid s' = mon_of sid s.
Proof.
  intros (_ & H1 & _). specialize (H1 sid). unfold mon_of.
  destruct (sv_subscriptions s' !! sid), (sv_subscriptions s !! sid); simplify_eq/=; congruence.
Qed.

Lemma subs_same_monitored_of s s' sid : subs_same s s' -> monitored_of sid s' = monitored_of sid s.
Proof.
  intros (_ & H1 & H2). specialize (H1 sid). specialize (H2 sid). unfold monitored_of, sub_object.
  destruct (sv_subscriptions s' !! sid), (sv_subscriptions s !! sid); simplify_eq/=; [congruence|].
  destruct (sv_detached s' !! sid), (sv_detached s !! sid); simplify_eq/=; congruence.
Qed.

Lemma subs_same_registered s s' sid :
  subs_same s s' -> is_Some (sv_subscriptions s' !! sid) <-> is_Some (sv_subscriptions s !! sid).
Proof. intros (Hk & _ & _). by rewrite <-!elem_of_dict_keys, Hk. Qed.

Lemma subs_same_wf s s' : subs_same s s' -> subs_wf s -> subs_wf s'.
Proof.
  intros (Hk & H1 & _) [Hd Hi]. split; [unfold dict_wf in *; congruence|].
  intros sid st Hst. specialize (H1 sid). rewrite Hst in H1.
  destruct (sv_subscriptions s !! sid) as [st0|] eqn:E; simplify_eq/=. rewrite <-(Hi sid st0 E). congruence.
Qed.

Lemma reg_at_ext mon mon' s : (forall sid, mon sid ≡ mon' sid) -> reg_at mon s -> reg_at mon' s.
Proof. intros Hm [Hwf H1]. split; [done|]. intros nid sid. by rewrite H1, Hm. Qed.

Lemma registry_ok_gentle s s' : gentle s s' -> registry_ok s -> registry_ok s'.
Proof.
  intros (Hr & Hs & _) [Hw Hreg]. split; [by eapply subs_same_wf|].
  eapply reg_at_ext; [|by eapply reg_at_same]. intros sid; simpl. by rewrite (subs_same_mon_of s s').
Qed.

(** ** Sections that leave the registry alone *)

Lemma gentle_set_runtime oid m mode bin_id nri s :
  sv_monitor_heap s !! oid = Some m -> gentle s (set_monitor oid (set_runtime mode bin_id nri m) s).
Proof.
  intros Hm. split; [|split; [done|intros Hq; exact Hq]]. split_and!; simpl; [done|done|]. intros oid'.
  destruct (decide (oid = oid')) as [<-|]; [by rewrite lookup_insert_eq, Hm|by rewrite lookup_insert_ne].
Qed.

Lemma gentle_set_bins bins s : gentle s (set_bins bins s).
Proof. done. Qed.

Lemma gentle_set_bins_runtime bins oid m mode bin_id nri s :
  sv_monitor_heap s !! oid = Some m ->
  gentle s (set_monitor oid (set_runtime mode bin_id nri m) (set_bins bins s)).
Proof. intros. eapply gentle_trans; [apply (gentle_set_bins bins)|]. by apply gentle_set_runtime. Qed.

(** An assignment to a subscription that does not change what it monitors. *)
Definition mild (f : SubscriptionState V -> SubscriptionState V) : Prop :=
  forall st, subscription_id (f st) = subscription_id st /\
        monitored_node_ids (f st) = monitored_node_ids st /\ (queue_ok st -> queue_ok (f st)).

Lemma queues_ok_insert s sid st :
  queue_ok st -> queues_ok s -> queues_ok (set_subs (<[sid := st]> (sv_subscriptions s)) s).
Proof.
  intros Hst [Hq Hd]. split; [|exact Hd]. intros sid' st'; simpl. rewrite dict_lookup_insert.
  case_bool_decide; [|apply Hq]. by intros [= <-].
Qed.

Lemma gentle_update_sub sid f s : mild f -> gentle s (update_sub sid f s).
Proof.
  intros Hf. unfold update_sub. destruct (sv_subscriptions s !! sid) as [st|] eqn:E; [|apply gentle_refl].
  split; [done|]. split; [split_and!; simpl; [| |done]|].
  - rewrite dict_keys_insert, bool_decide_true; [done|]. apply elem_of_dict_keys. eauto.
  - intros sid'. rewrite dict_lookup_insert. case_bool_decide; [subst|done].
    rewrite E. simpl. destruct (Hf st) as (Ha & Hb & _). by rewrite Ha, Hb.
  - intros Hq. apply queues_ok_insert; [|done]. apply Hf. exact (proj1 Hq _ _ E).
Qed.

Lemma gentle_update_object sid f s : mild f -> gentle s (update_object sid f s).
Proof.
  intros Hf. pose proof (gentle_update_sub sid f s Hf) as Hu. unfold update_sub, update_object in *.
  destruct (sv_subscriptions s !! sid) as [st|]; [done|]. split; [done|]. split; [split_and!; [done|done|]|].
  - intros sid'; simpl. destruct (decide (sid = sid')) as [<-|].
    + rewrite lookup_alter_eq. destruct (sv_detached s !! sid) as [st|]; [|done]. simpl. f_equal. apply Hf.
    + by rewrite lookup_alter_ne.
  - intros [Hq Hd]. split; [exact Hq|]. intros sid' st'; simpl. rewrite lookup_alter_Some.
    intros [(_ & st & Hst & ->)|[_ Hst]]; [apply Hf|]; by eapply Hd.
Qed.

Lemma mild_id f :
  (forall st, subscription_id (f st) = subscription_id st /\ monitored_node_ids (f st) = monitored_node_ids st /\
         same_queue st (f st)) -> mild f.
Proof. intros Hf st. destruct (Hf st) as (? & ? & ?). split_and!; [done|done|]. by eapply same_queue_ok. Qed.

Lemma mild_set_mode m nri : mild (set_mode m nri).
Proof. by apply mild_id. Qed.

Lemma mild_set_update_event ev : mild (set_update_event ev).
Proof. by apply mild_id. Qed.

Lemma mild_append ts nid v : mild (append_update (max_updates_per_subscription cfg) ts nid v).
Proof.
  intros st. split_and!; [| |by apply append_update_ok]; unfold append_update; (case_goal; [done|]);
    destruct (_ <=? _); by try destruct (updates st).
Qed.

Lemma mild_deliver ts nid v h : mild (deliver (max_updates_per_subscription cfg) ts nid v h).
Proof.
  intros st. unfold deliver. case_goal; [|done].
  destruct (mild_append ts s v st) as (? & ? & Hq). split_and!; [done|done|]. intros Hst.
  eapply same_queue_ok; [|by apply Hq]. done.
Qed.

Lemma mild_compose f g : mild f -> mild g -> mild (fun st => f (g st)).
Proof.
  intros Hf Hg st. destruct (Hf (g st)) as (Ha & Hb & Hc), (Hg st) as (Ha' & Hb' & Hc'). split_and!; [congruence|congruence|auto].
Qed.

Lemma mild_touch now : mild (touch now).
Proof. by apply mild_id. Qed.

Lemma mild_acknowledge ack : mild (acknowledge ack).
Proof.
  intros st. split_and!; [| |intros; apply acknowledge_ok; [lia|done]]; unfold acknowledge; by repeat case_goal.
Qed.

Lemma mild_collect : mild (fun st => (collect st).2).
Proof. intros st. split_and!; [done|done|apply collect_ok]. Qed.

Lemma mild_deactivate now g : mild (deactivate now g).
Proof. intros st. split_and!; [| |apply same_queue_ok, same_queue_deactivate]; unfold deactivate; by case_goal. Qed.

Lemma mild_refresh_fold s values :
  mild (fun st => fold_left (fun st p => if bool_decide (p.1 ∈ monitored_node_ids st)
                                      then append_to cfg p.1 p.2 s st else st) values st).
Proof.
  induction values as [|[nid v] values IH]; [done|]. intros st; simpl.
  destruct (IH (if bool_decide (nid ∈ monitored_node_ids st) then append_to cfg nid v s st else st)) as (Ha & Hb & Hc).
  rewrite Ha, Hb. pose proof (mild_append (sv_utc s) nid v st) as (? & ? & ?).
  case_bool_decide; [|done]. split_and!; [done|done|]. auto.
Qed.

Abbreviation keeps := (keeps (ua_resp_ok caps_ok) gentle).

Lemma keeps_call {R} (c : ua_call R) : keeps (call c).
Proof. done. Qed.

Lemma keeps_refresh sid : keeps (refresh_changed_values cfg sid).
Proof.
  split; [done|]. intros [|nid l]; [done|]. intros [values|] _; [|done]. split; [|done]. intros s.
  apply gentle_update_sub. apply (mild_compose (touch (sv_now s))); [apply mild_touch|]. apply mild_refresh_fold.
Qed.

Lemma keeps_seed sid : keeps (seed_initial_updates cfg sid).
Proof. unfold seed_initial_updates. case_goal; [apply keeps_refresh|done]. Qed.

Lemma keeps_handle_datachange sid nid v h : keeps (handle_datachange cfg sid nid v h).
Proof. apply keeps_update. intros s. apply gentle_update_sub, mild_deliver. Qed.

Lemma keeps_fanout nid v : keeps (fanout_node_value cfg nid v).
Proof.
  split; [done|]. intros ids l _. simpl. apply keeps_pfor. intros. apply keeps_handle_datachange.
Qed.

Lemma keeps_polling_round : keeps (polling_round cfg).
Proof.
  split; [done|]. intros [|nid l]; [done|]. intros [values|] _; [|done]. apply keeps_pfor.
  intros. apply keeps_fanout.
Qed.

Lemma keeps_datachange_round : keeps (datachange_round cfg).
Proof.
  split; [intros s; by destruct (sv_datachange_queue s)|]. intros [[[[sid nid] v] h]|]; [|done].
  apply keeps_handle_datachange.
Qed.

Lemma keeps_node_datachange_round : keeps (node_datachange_round cfg).
Proof.
  split; [intros s; by destruct (sv_node_datachange_queue s)|]. intros [[nid v]|]; [|done]. apply keeps_fanout.
Qed.

Lemma keeps_update_subscription_mode sid : keeps (update_subscription_mode sid).
Proof.
  apply keeps_update. intros s. apply gentle_update_sub. apply mild_id. intros st. by destruct (computed_mode s st).
Qed.

Lemma gentle_start_polling oid nid s : gentle s (start_polling oid nid s).
Proof.
  unfold start_polling. destruct (is_live oid nid s); [|apply gentle_refl].
  destruct (sv_monitor_heap s !! oid) eqn:E; [|apply gentle_refl]. by apply gentle_set_runtime.
Qed.

Lemma gentle_commit_new_bin oid nid bin_id ua capacity handle s :
  gentle s (commit_new_bin cfg oid nid bin_id ua capacity handle s).1.
Proof.
  unfold commit_new_bin. destruct (is_live oid nid s); [|apply gentle_refl]. simpl.
  destruct (sv_monitor_heap s !! oid) eqn:E; [by apply gentle_set_bins_runtime|apply gentle_set_bins].
Qed.

Lemma gentle_commit_bin_node oid nid bin_id handle s : gentle s (commit_bin_node oid nid bin_id handle s).1.
Proof.
  unfold commit_bin_node. destruct (is_live oid nid s); [|apply gentle_refl].
  destruct (sv_bins s !! bin_id) as [b|]; [|apply gentle_refl]. simpl.
  destruct (sv_monitor_heap s !! oid) eqn:E; [by apply gentle_set_bins_runtime|apply gentle_set_bins].
Qed.

Lemma gentle_reset_monitor oid s : gentle s (reset_monitor oid s).1.
Proof.
  unfold reset_monitor. destruct (sv_monitor_heap s !! oid) eqn:E; [by apply gentle_set_runtime|apply gentle_refl].
Qed.

Lemma gentle_leave_bin bin_id nid s : gentle s (leave_bin bin_id nid s).1.
Proof. unfold leave_bin. by destruct (sv_bins s !! bin_id). Qed.

Lemma keeps_subscribe_single ua nid : keeps (subscribe_single_node ua nid).
Proof. intros [[|]|] _; done. Qed.

Lemma keeps_open_new_bin oid nid capacity : keeps (open_new_bin cfg oid nid capacity).
Proof.
  split; [done|]. intros used uuid _ [ua|] _; [|done]. apply keeps_ebind; [apply keeps_subscribe_single|].
  intros [handle|]; [|by intros ? _]. split; [intros s; apply gentle_commit_new_bin|].
  intros []; [done|]. by intros [] _.
Qed.

Lemma keeps_add_node_to_bin oid nid bin_id ua : keeps (add_node_to_bin oid nid bin_id ua).
Proof.
  apply keeps_ebind; [apply keeps_subscribe_single|]. intros [handle|]; [|done].
  split; [intros s; apply gentle_commit_bin_node|]. intros []; [done|]. by intros ? _.
Qed.

Lemma keeps_acquire_slot oid nid caps : keeps (acquire_native_bin_slot cfg oid nid caps).
Proof.
  apply keeps_with_lock. split; [done|]. intros [|bin_id ua|]; [done|apply keeps_add_node_to_bin|].
  split; [done|]. intros []; [apply keeps_open_new_bin|done].
Qed.

Lemma keeps_start_runtime oid nid : keeps (start_node_monitor_runtime cfg oid nid).
Proof.
  apply keeps_sect_bind; [done|]. intros [].
  - apply keeps_update_bind; [|done]. intros s; apply gentle_start_polling.
  - apply keeps_call_ebind. intros caps _. apply keeps_bind; [apply keeps_acquire_slot|].
    intros [[]|]; [done| |]; (apply keeps_update_bind; [|intros _]).
    + intros s; apply gentle_start_polling.
    + done.
    + done.
    + apply keeps_update_bind; [|done]. intros s; apply gentle_start_polling.
Qed.

Lemma keeps_stop_runtime oid nid : keeps (stop_node_monitor_runtime oid nid).
Proof.
  split; [intros s; apply gentle_reset_monitor|]. intros [bin_id|]; [|done].
  split; [intros s; apply gentle_leave_bin|]. intros [[[b handle] []]|]; [done| |done]. by destruct handle.
Qed.

(** ** Sections that change the registry *)

Lemma live_monitor_Some nid s oid m :
  live_monitor nid s = Some (oid, m) <-> sv_node_monitors s !! nid = Some oid /\ sv_monitor_heap s !! oid = Some m.
Proof. unfold live_monitor. repeat case_match; naive_solver. Qed.

Lemma live_monitor_wf nid s : monitors_wf s -> is_Some (sv_node_monitors s !! nid) -> is_Some (live_monitor nid s).
Proof.
  intros [Hl _] [oid Ho]. destruct (Hl nid oid Ho) as (m & Hm & _). exists (oid, m). by apply live_monitor_Some.
Qed.

Lemma live_monitor_inj nid nid' s oid m m' :
  monitors_wf s -> live_monitor nid s = Some (oid, m) -> live_monitor nid' s = Some (oid, m') -> nid = nid'.
Proof.
  intros [Hl _] [H1 H2]%live_monitor_Some [H3 H4]%live_monitor_Some.
  destruct (Hl _ _ H1) as (? & ? & ? & _), (Hl _ _ H3) as (? & ? & ? & _). congruence.
Qed.

Lemma subs_of_set_subscribers nid nid' s oid m ids :
  monitors_wf s -> live_monitor nid s = Some (oid, m) ->
  subs_of nid' (set_monitor oid (set_subscribers ids m) s) = if bool_decide (nid' = nid) then ids else subs_of nid' s.
Proof.
  intros Hwf Hlive. unfold subs_of.
  destruct (live_monitor nid' s) as [[oid' m']|] eqn:E.
  - destruct (decide (oid' = oid)) as [->|Hne].
    + rewrite (live_monitor_inj nid' nid s oid m' m Hwf E Hlive) in *. rewrite bool_decide_true by done.
      apply live_monitor_Some in Hlive as [Hn Hh]. unfold live_monitor; simpl. by rewrite Hn, lookup_insert_eq.
    + rewrite bool_decide_false by (intros ->; congruence).
      apply live_monitor_Some in E as [Hn Hh]. unfold live_monitor; simpl. by rewrite Hn, lookup_insert_ne, Hh.
  - rewrite bool_decide_false by (intros ->; congruence). unfold live_monitor in *; simpl.
    destruct (sv_node_monitors s !! nid') as [oid'|] eqn:En; [|done].
    destruct (live_monitor_wf nid' s Hwf) as [? H']; [eauto|]. unfold live_monitor in H'. rewrite En in H'. congruence.
Qed.

Lemma monitors_wf_set_subscribers nid s oid m ids :
  monitors_wf s -> live_monitor nid s = Some (oid, m) -> ids ≠ ∅ ->
  monitors_wf (set_monitor oid (set_subscribers ids m) s).
Proof.
  intros Hwf Hlive Hids. pose proof Hwf as [Hl Hx]. apply live_monitor_Some in Hlive as [Hn Hh]. split; simpl.
  - intros nid' oid' Ho'. destruct (Hl nid' oid' Ho') as (m' & Hm' & Hid & Hne).
    destruct (decide (oid = oid')) as [->|].
    + rewrite lookup_insert_eq. exists (set_subscribers ids m). split_and!; [done| |done]. simplify_eq. done.
    + rewrite lookup_insert_ne by done. eauto.
  - intros oid'. destruct (decide (oid = oid')) as [->|]; [intros _; apply Hx; eauto|].
    rewrite lookup_insert_ne by done. apply Hx.
Qed.

Definition mon_add (sid nid : string) (mon : string -> gset string) : string -> gset string :=
  fun x => if bool_decide (x = sid) then {[nid]} ∪ mon x else mon x.
Definition mon_drop (sid nid : string) (mon : string -> gset string) : string -> gset string :=
  fun x => if bool_decide (x = sid) then mon x ∖ {[nid]} else mon x.

Lemma add_subscriber_spec nid sid mon s :
  reg_at mon s -> reg_at (mon_add sid nid mon) (add_subscriber nid sid s).1 /\ subs_same s (add_subscriber nid sid s).1.
Proof.
  intros [Hwf Hreg]. unfold add_subscriber.
  destruct (sv_node_monitors s !! nid) as [oid|] eqn:En; simpl.
  - destruct (live_monitor_wf nid s Hwf) as [[oid' m] Hlive]; [eauto|].
    pose proof Hlive as [Hn Hh]%live_monitor_Some. rewrite En in Hn. simplify_eq. rewrite Hh. split; [|done]. split.
    + eapply monitors_wf_set_subscribers; [done|done|]. set_solver.
    + intros nid' sid'. erewrite subs_of_set_subscribers by done. unfold mon_add.
      specialize (Hreg nid'). unfold subs_of in Hreg. repeat case_bool_decide; subst; rewrite ?Hlive in *; set_solver.
  - split; [|done].
    assert (forall nid', nid' ≠ nid -> subs_of nid' (with_monitors (<[nid:=sv_next_monitor s]> (sv_node_monitors s))
       (<[sv_next_monitor s := {| nm_node_id := nid; nm_mode := "idle"; nm_subscriber_ids := {[sid]}; nm_bin_id := None;
          nm_native_refresh_interval_seconds := None |}]> (sv_monitor_heap s)) (S (sv_next_monitor s)) (sv_bins s) s) = subs_of nid' s) as Hother.
    { intros nid' Hne. unfold subs_of, live_monitor; simpl. rewrite dict_lookup_insert_ne by done.
      destruct (sv_node_monitors s !! nid') as [oid'|] eqn:E'; [|done].
      destruct (mw_live s Hwf nid' oid' E') as (m' & Hm' & _).
      pose proof (mw_next s Hwf oid' ltac:(eauto)). by rewrite lookup_insert_ne by lia. }
    split.
    + split; simpl.
      * intros nid' oid'. rewrite dict_lookup_insert. case_bool_decide.
        -- intros ?; simplify_eq. rewrite lookup_insert_eq. eexists; split_and!; [done|done|simpl; set_solver].
        -- intros Ho'. destruct (mw_live s Hwf nid' oid' Ho') as (m' & Hm' & ?).
           pose proof (mw_next s Hwf oid' ltac:(eauto)). rewrite lookup_insert_ne by lia. eauto.
      * intros oid'. destruct (decide (oid' = sv_next_monitor s)) as [->|]; [lia|].
        rewrite lookup_insert_ne by done. intros Hoid. pose proof (mw_next s Hwf oid' Hoid). lia.
    + intros nid' sid'. destruct (decide (nid' = nid)) as [->|].
      * unfold subs_of, live_monitor; simpl. rewrite dict_lookup_insert_eq, lookup_insert_eq; simpl.
        specialize (Hreg nid sid'). unfold subs_of, live_monitor in Hreg. rewrite En in Hreg. unfold mon_add.
        case_bool_decide; set_solver.
      * rewrite Hother by done. specialize (Hreg nid' sid'). unfold mon_add. case_bool_decide; set_solver.
Qed.

Lemma drop_subscriber_spec nid sid mon s :
  reg_at mon s -> reg_at (mon_drop sid nid mon) (drop_subscriber nid sid s).1 /\ subs_same s (drop_subscriber nid sid s).1.
Proof.
  intros [Hwf Hreg]. unfold drop_subscriber.
  destruct (sv_node_monitors s !! nid) as [oid|] eqn:En; simpl; last first.
  { split; [|done]. split; [done|]. intros nid' sid'. specialize (Hreg nid' sid'). unfold mon_drop.
    case_bool_decide; [|done]. rewrite Hreg. destruct (decide (nid' = nid)) as [->|]; [|set_solver].
    unfold subs_of, live_monitor in Hreg. rewrite En in Hreg. set_solver. }
  destruct (live_monitor_wf nid s Hwf) as [[oid' m] Hlive]; [eauto|].
  pose proof Hlive as [Hn Hh]%live_monitor_Some. rewrite En in Hn. simplify_eq. rewrite Hh.
  case_bool_decide as Hempty; simpl; (split; [|done]).
  - split.
    + split; simpl.
      * intros nid' oid1. rewrite dict_lookup_delete. case_bool_decide as Hne; [done|]. intros Ho'.
        destruct (mw_live s Hwf nid' oid1 Ho') as (m' & Hm' & Hid & ?).
        rewrite lookup_insert_ne; [eauto|]. intros ->. destruct (mw_live s Hwf _ _ En) as (? & ? & ? & _). congruence.
      * intros oid1. destruct (decide (oid' = oid1)) as [->|]; [intros _; apply (mw_next s Hwf); eauto|].
        rewrite lookup_insert_ne by done. apply (mw_next s Hwf).
    + intros nid' sid'. unfold subs_of, live_monitor; simpl. rewrite dict_lookup_delete.
      specialize (Hreg nid' sid'). unfold mon_drop. case_bool_decide as Hne; simpl.
      * subst nid'. unfold subs_of in Hreg. rewrite Hlive in Hreg. case_bool_decide; set_solver.
      * unfold subs_of, live_monitor in Hreg. destruct (sv_node_monitors s !! nid') as [oid1|] eqn:E1;
          [|case_bool_decide; set_solver].
        rewrite lookup_insert_ne; [case_bool_decide; set_solver|]. intros ->.
        destruct (mw_live s Hwf _ _ En) as (? & ? & ? & _), (mw_live s Hwf _ _ E1) as (? & ? & ? & _). congruence.
  - split; [by eapply monitors_wf_set_subscribers|].
    intros nid' sid'. erewrite subs_of_set_subscribers by done. specialize (Hreg nid' sid'). unfold mon_drop.
    unfold subs_of in Hreg. repeat case_bool_decide; subst; rewrite ?Hlive in *; set_solver.
Qed.

(** ** Programs *)

Abbreviation prog := (prog (service (V := V)) (ua_call (V := V))).
Abbreviation wp := (wp (ua_resp_ok caps_ok) clock_tick).

Lemma wp_gentle {A} (p : prog A) (Q : A -> service -> Prop) s :
  keeps p -> (forall a s', gentle s s' -> Q a s') -> wp p Q s.
Proof.
  intros Hp HQ. eapply wp_mono; [exact HQ|].
  apply keeps_wp; [apply gentle_refl|apply gentle_trans|apply clock_tick_gentle|done].
Qed.

Lemma wp_release nid sid mon s :
  reg_at mon s ->
  wp (release_node_monitor nid sid) (fun _ s' => reg_at (mon_drop sid nid mon) s' /\ subs_same s s') s.
Proof.
  intros Hreg. destruct (drop_subscriber_spec nid sid mon s Hreg) as [Hd Hs].
  apply wp_sect_bind. destruct (drop_subscriber nid sid s) as [s1 [oid|]]; cbn [fst snd] in *; [|done].
  apply wp_gentle; [apply keeps_stop_runtime|]. intros _ s' (Hr & Hs' & _). split; [by eapply reg_at_same|].
  by eapply subs_same_trans.
Qed.

(** A started monitor never fails: the only call that may raise is the one that does not. *)
Lemma wp_start_runtime oid nid s :
  wp (start_node_monitor_runtime cfg oid nid) (fun r s' => r = Val tt /\ gentle s s') s.
Proof.
  apply wp_sect_bind; simpl. case_goal.
  { split; [done|]. apply gentle_start_polling. }
  apply wp_call_ebind; [|naive_solver]. intros caps s1 _ Ht. apply wp_bind. apply wp_gentle; [apply keeps_acquire_slot|].
  intros r s2 Hg2. assert (gentle s s2) as Hg by (eapply gentle_trans; [by apply clock_tick_gentle|done]).
  destruct r as [[]|]; simpl; (split; [done|]); [done| |].
  - eapply gentle_trans; [done|apply gentle_start_polling].
  - eapply gentle_trans; [done|]. eapply gentle_trans; [|apply gentle_start_polling]. done.
Qed.

Lemma wp_acquire nid sid mon s :
  reg_at mon s ->
  wp (acquire_node_monitor cfg nid sid)
    (fun r s' => r = Val tt /\ reg_at (mon_add sid nid mon) s' /\ subs_same s s') s.
Proof.
  intros Hreg. destruct (add_subscriber_spec nid sid mon s Hreg) as [Hd Hs].
  apply wp_sect_bind. destruct (add_subscriber nid sid s) as [s1 [oid|]]; cbn [fst snd] in *; [|done].
  eapply wp_mono; [|apply wp_start_runtime]. intros r s' (-> & Hr & Hs' & _). split_and!; [done|by eapply reg_at_same|].
  by eapply subs_same_trans.
Qed.

(** [mon_set sid nodes mon]: the subscription [sid] monitors [nodes]. *)
Definition mon_set (sid : string) (nodes : gset string) (mon : string -> gset string) : string -> gset string :=
  fun x => if bool_decide (x = sid) then nodes else mon x.

Lemma wp_release_list sid (l : list string) (from to : gset string) mon s :
  reg_at (mon_set sid from mon) s -> to ⊆ from -> from ⊆ to ∪ list_to_set l -> (forall x, x ∈ l -> x ∉ to) ->
  wp (pfor l (fun nid => release_node_monitor nid sid))
    (fun _ s' => reg_at (mon_set sid to mon) s' /\ subs_same s s') s.
Proof.
  intros Hreg Hto Hfrom Hl.
  eapply wp_mono; [|apply (wp_pfor _ _ _ _ (fun rest s' =>
      exists P, reg_at (mon_set sid P mon) s' /\ subs_same s s' /\
           to ⊆ P /\ P ⊆ to ∪ list_to_set rest /\ (forall x, x ∈ rest -> x ∉ to))); [|by exists from]].
  - intros _ s' (P & HP & Hs & ? & ? & _). split; [|done].
    eapply reg_at_ext; [|exact HP]. intros x. unfold mon_set. case_bool_decide; [set_solver|done].
  - clear Hreg Hfrom Hto Hl. intros nid rest s1 (P & HP & Hs & ? & ? & Hd).
    eapply wp_mono; [|apply wp_release; exact HP]. intros _ s2 [HP2 Hs2]. exists (P ∖ {[nid]}).
    specialize (Hd nid ltac:(constructor)) as Hnid. split_and!.
    + eapply reg_at_ext; [|exact HP2]. intros x. unfold mon_drop, mon_set. by case_bool_decide.
    + by eapply subs_same_trans.
    + set_solver.
    + set_solver.
    + intros x Hx. apply Hd. by constructor.
Qed.

Lemma wp_acquire_list sid (l : list string) (from to : gset string) mon s :
  reg_at (mon_set sid from mon) s -> from ⊆ to -> to ⊆ from ∪ list_to_set l -> (forall x, x ∈ l -> x ∈ to) ->
  wp (efor l (fun nid => acquire_node_monitor cfg nid sid))
    (fun r s' => r = Val tt /\ reg_at (mon_set sid to mon) s' /\ subs_same s s') s.
Proof.
  intros Hreg Hfrom Hto Hl.
  eapply wp_mono; [|apply (wp_efor _ _ _ _ (fun rest s' =>
      exists P, reg_at (mon_set sid P mon) s' /\ subs_same s s' /\
           P ⊆ to /\ to ⊆ P ∪ list_to_set rest /\ (forall x, x ∈ rest -> x ∈ to))); [|by exists from]].
  - intros r s' (-> & P & HP & Hs & ? & ? & _). split_and!; [done| |done].
    eapply reg_at_ext; [|exact HP]. intros x. unfold mon_set. case_bool_decide; [set_solver|done].
  - clear Hreg Hfrom Hto Hl. intros nid rest s1 (P & HP & Hs & ? & ? & Hd).
    eapply wp_mono; [|apply wp_acquire; exact HP]. intros r s2 (-> & HP2 & Hs2). split; [done|]. exists ({[nid]} ∪ P).
    specialize (Hd nid ltac:(constructor)) as Hnid. split_and!.
    + eapply reg_at_ext; [|exact HP2]. intros x. unfold mon_add, mon_set. by case_bool_decide.
    + by eapply subs_same_trans.
    + set_solver.
    + set_solver.
    + intros x Hx. apply Hd. by constructor.
Qed.

Lemma wp_release_all sid mon s :
  reg_at (mon_set sid (monitored_of sid s) mon) s ->
  wp (release_all_nodes sid) (fun _ s' => reg_at (mon_set sid ∅ mon) s' /\ subs_same s s') s.
Proof.
  intros Hreg. apply wp_sect_bind; cbn [fst snd]. apply wp_call_bind. intros order s1 [_ Horder] (Hr1 & Hs1 & _)%clock_tick_gentle.
  apply wp_bind. eapply wp_mono; [|eapply wp_release_list with (to := ∅)].
  - intros _ s2 [Hreg2 Hs2].
    pose proof (gentle_update_object sid (set_mode "idle" None) s2 (mild_set_mode _ _)) as (Hr3 & Hs3 & _).
    split; [by eapply reg_at_same|]. eapply subs_same_trans; [done|]. by eapply subs_same_trans.
  - by eapply reg_at_same.
  - apply empty_subseteq.
  - intros x Hx. apply elem_of_union_r, elem_of_list_to_set. by apply Horder.
  - intros x _. apply not_elem_of_empty.
Qed.

Lemma wp_release_all_list ids mon s :
  NoDup ids -> reg_at (fun x => if bool_decide (x ∈ ids) then monitored_of x s else mon x) s ->
  wp (pfor ids release_all_nodes)
    (fun _ s' => reg_at (fun x => if bool_decide (x ∈ ids) then ∅ else mon x) s' /\ subs_same s s') s.
Proof.
  intros Hnd Hreg.
  eapply wp_mono; [|apply (wp_pfor _ _ _ _ (fun rest s' => NoDup rest /\ rest ⊆ ids /\ subs_same s s' /\
     reg_at (fun x => if bool_decide (x ∈ rest) then monitored_of x s
                      else if bool_decide (x ∈ ids) then ∅ else mon x) s'))].
  - intros _ s' (_ & _ & Hs & Hreg'). split; [|done]. eapply reg_at_ext; [|exact Hreg']. done.
  - clear Hreg. intros sid rest s1 ([Hni Hnd1]%NoDup_cons & Hsub & Hs1 & Hreg1).
    eapply wp_mono; [|apply (wp_release_all sid (fun x => if bool_decide (x ∈ rest) then monitored_of x s
                      else if bool_decide (x ∈ ids) then ∅ else mon x))].
    + intros _ s2 [Hreg2 Hs2]. split_and!; [done|set_solver|by eapply subs_same_trans|].
      eapply reg_at_ext; [|exact Hreg2]. intros x. unfold mon_set. case_bool_decide as Hx; [subst|done].
      rewrite (bool_decide_false (sid ∈ rest)) by done. rewrite bool_decide_true by set_solver. done.
    + eapply reg_at_ext; [|exact Hreg1]. intros x. unfold mon_set. rewrite (subs_same_monitored_of s s1) by done.
      destruct (decide (x = sid)) as [->|Hx].
      * rewrite (bool_decide_true (sid = sid)) by done. rewrite bool_decide_true by constructor. done.
      * rewrite (bool_decide_false (x = sid)) by done.
        replace (bool_decide (x ∈ sid :: rest)) with (bool_decide (x ∈ rest)); [done|].
        apply bool_decide_ext. rewrite elem_of_cons. clear -Hx. naive_solver.
  - split_and!; [done|done|done|]. eapply reg_at_ext; [|exact Hreg]. intros x. simpl.
    case_bool_decide; [done|]. done.
Qed.

Lemma wp_apply_diff sid previous new mon s :
  reg_at (mon_set sid previous mon) s ->
  wp (apply_monitored_node_diff cfg sid previous new)
    (fun r s' => r = Val tt /\ reg_at (mon_set sid new mon) s' /\ subs_same s s') s.
Proof.
  intros Hreg. apply wp_call_bind. intros removed s1 [_ Hrem] (Hr1 & Hs1 & _)%clock_tick_gentle.
  apply wp_bind. eapply wp_mono; [|eapply wp_release_list with (from := previous) (to := previous ∩ new)];
    [|by eapply reg_at_same|set_solver| |]; last first.
  { intros x. rewrite Hrem. set_solver. }
  { intros x Hx. destruct (decide (x ∈ new)); [set_solver|].
    apply elem_of_union_r, elem_of_list_to_set, Hrem. set_solver. }
  intros _ s2 [Hreg2 Hs2]. apply wp_call_bind. intros added s3 [_ Hadd] (Hr3 & Hs3 & _)%clock_tick_gentle.
  apply wp_ebind. eapply wp_mono; [|eapply wp_acquire_list with (from := previous ∩ new) (to := new)];
    [|by eapply reg_at_same|set_solver| |]; last first.
  { intros x. rewrite Hadd. set_solver. }
  { intros x Hx. destruct (decide (x ∈ previous)); [set_solver|].
    apply elem_of_union_r, elem_of_list_to_set, Hadd. set_solver. }
  intros r s4 (-> & Hreg4 & Hs4). apply wp_bind. apply wp_gentle; [apply keeps_update_subscription_mode|].
  intros _ s5 (Hr5 & Hs5 & _). apply wp_bind. apply wp_gentle; [apply keeps_seed|]. intros _ s6 (Hr6 & Hs6 & _).
  split_and!; [done|by do 2 (eapply reg_at_same; [done|])|].
  repeat (eapply subs_same_trans; [done|]). done.
Qed.


(** ** Removal of subscriptions *)

(** [s'] is [s] with the subscriptions [removed] detached. *)
Record detached_from (s s' : service (V := V)) (removed : list string) : Prop := {
  df_nodup : NoDup removed;
  df_reg : reg_same s s';
  df_wf : subs_wf s';
  df_gone x : x ∈ removed -> sv_subscriptions s' !! x = None /\ monitored_of x s' = mon_of x s;
  df_same x : x ∉ removed -> sv_subscriptions s' !! x = sv_subscriptions s !! x;
}.

Lemma detached_from_nil s : subs_wf s -> detached_from s s [].
Proof. intros. split; try done; [constructor|]. intros x Hx. by apply elem_of_nil in Hx. Qed.

Lemma detached_from_snoc s s' removed sid st :
  detached_from s s' removed -> sv_subscriptions s' !! sid = Some st ->
  detached_from s (detach sid s') (removed ++ [sid]).
Proof.
  intros [Hnd Hreg [Hd Hi] Hgone Hsame] Hst.
  assert (sid ∉ removed) as Hnot by (intros Hin; apply Hgone in Hin as [? _]; congruence).
  unfold detach. rewrite Hst. split; simpl.
  - apply NoDup_app. split_and!; [done| |apply NoDup_singleton]. intros x Hx Hx2. apply list_elem_of_singleton in Hx2. by subst.
  - done.
  - split; simpl; [by apply dict_wf_delete|]. intros x st'. rewrite dict_lookup_delete. case_bool_decide; [done|apply Hi].
  - intros x [Hx|Hx]%elem_of_app; [|apply list_elem_of_singleton in Hx; subst x].
    + assert (sid ≠ x) by (by intros ->). destruct (Hgone x Hx) as [Hn Hm].
      rewrite dict_lookup_delete_ne by done. split; [done|]. rewrite <-Hm.
      unfold monitored_of, sub_object; simpl. rewrite dict_lookup_delete_ne by done. rewrite Hn.
      by rewrite lookup_insert_ne.
    + rewrite dict_lookup_delete_eq. split; [done|].
      unfold monitored_of, sub_object; simpl. rewrite dict_lookup_delete_eq, lookup_insert_eq.
      unfold mon_of. rewrite <-(Hsame sid Hnot), Hst. done.
  - intros x Hx. rewrite elem_of_app, list_elem_of_singleton in Hx.
    rewrite dict_lookup_delete_ne; [apply Hsame|]; clear -Hx; naive_solver.
Qed.

Lemma find_sub_Some client sid s st : find_sub client sid s = Some st -> sv_subscriptions s !! sid = Some st.
Proof. unfold find_sub. repeat case_match; naive_solver. Qed.

Lemma delete_block_detached client ids s :
  subs_wf s -> detached_from s (delete_block client ids s).1 (delete_block client ids s).2.2.
Proof.
  intros Hwf. unfold delete_block.
  assert (forall acc, detached_from s acc.1.1 acc.2 ->
            detached_from s (fold_left (delete_one client) ids acc).1.1 (fold_left (delete_one client) ids acc).2) as H1.
  { induction ids as [|sid ids IH]; intros [[s1 results] removed] Hacc; simpl; [done|]. apply IH.
    destruct (find_sub client sid s1) as [st|] eqn:E; simpl in *; [|done].
    apply find_sub_Some in E. by eapply detached_from_snoc. }
  specialize (H1 (s, [], []) (detached_from_nil s Hwf)). by destruct (fold_left _ _ _) as [[] ].
Qed.

Lemma expire_block_detached s :
  subs_wf s -> detached_from s (expire_block cfg s).1 (expire_block cfg s).2.
Proof.
  intros Hwf. unfold expire_block. generalize (map subscription_id (List.filter (is_stale cfg (sv_now s)) (dict_values (sv_subscriptions s)))) as ids.
  assert (forall ids acc, detached_from s acc.1 acc.2 ->
     let acc' := fold_left (fun '(s, removed) sid => match sv_subscriptions s !! sid with
               | None => (s, removed) | Some _ => (detach sid s, removed ++ [sid]) end) ids acc in
     detached_from s acc'.1 acc'.2) as H1.
  { induction ids as [|sid ids IH]; intros [s1 removed] Hacc; simpl; [done|]. apply IH.
    destruct (sv_subscriptions s1 !! sid) eqn:E; simpl in *; [|done]. by eapply detached_from_snoc. }
  intros ids. apply (H1 ids (s, [])). by apply detached_from_nil.
Qed.

Lemma wp_release_detached s s' removed :
  registry_ok s -> detached_from s s' removed ->
  wp (pfor removed release_all_nodes) (fun _ s2 => registry_ok s2 /\ subs_same s' s2) s'.
Proof.
  intros [_ Hreg] [Hnd Hr Hwf Hgone Hsame].
  eapply wp_mono; [|apply (wp_release_all_list removed (fun x => mon_of x s) s' Hnd)].
  - intros _ s2 [Hreg2 Hs2]. split; [|done]. split; [by eapply subs_same_wf|].
    eapply reg_at_ext; [|exact Hreg2]. intros x; simpl. rewrite (subs_same_mon_of s' s2) by done. unfold mon_of.
    case_bool_decide as Hx; [by rewrite (proj1 (Hgone x Hx))|by rewrite (Hsame x Hx)].
  - eapply reg_at_ext; [|by eapply reg_at_same]. intros x; simpl.
    case_bool_decide as Hx; [by rewrite (proj2 (Hgone x Hx))|done].
Qed.

(** ** Operations *)

(** [wp_keeps_registry p]: [p], run to its end, leaves the registry exact. *)
Definition restores {A} (p : prog A) : Prop := forall s, registry_ok s -> wp p (fun _ s' => registry_ok s') s.

Lemma restores_keeps {A} (p : prog A) : keeps p -> restores p.
Proof. intros Hp s Hok. apply wp_gentle; [done|]. intros _ s' Hg. by eapply registry_ok_gentle. Qed.

Lemma restores_delete client ids : restores (delete_subscriptions client ids).
Proof.
  intros s Hok. pose proof (delete_block_detached client ids s (proj1 Hok)) as Hdet.
  apply wp_sect_bind. destruct (delete_block client ids s) as [s' [results removed]]; cbn [fst snd] in *.
  apply wp_bind. eapply wp_mono; [|by eapply wp_release_detached]. intros _ s2 [? _]. done.
Qed.

Lemma restores_expire : restores (expire_subscriptions cfg).
Proof.
  intros s Hok. pose proof (expire_block_detached s (proj1 Hok)) as Hdet.
  apply wp_sect_bind. destruct (expire_block cfg s) as [s' removed]; cbn [fst snd] in *.
  eapply wp_mono; [|by eapply wp_release_detached]. intros _ s2 [? _]. done.
Qed.

Lemma restores_create client name : restores (create_subscription client name).
Proof.
  intros s Hok. apply wp_sect_bind; cbn [fst snd]. apply wp_call_bind. intros uuid s1 [Hfresh _] Ht.
  apply wp_sect; simpl.
  assert (gentle s s1) as Hg by (by apply clock_tick_gentle).
  assert (sv_subscriptions s1 !! ("sub-" +:+ uuid) = None) as Hnone.
  { apply eq_None_not_Some. intros Hs. apply (subs_same_registered s s1) in Hs; [|apply Hg].
    apply Hfresh. unfold used_subscription_ids. apply elem_of_union_l, elem_of_list_to_set. by apply elem_of_dict_keys. }
  eapply registry_ok_gentle in Hok; [|exact Hg]. destruct Hok as [[Hd Hi] Hreg]. split.
  - split; simpl; [by apply dict_wf_insert|]. intros x st. rewrite dict_lookup_insert. case_bool_decide; [|apply Hi].
    intros ?; simplify_eq/=. done.
  - eapply reg_at_ext; [|eapply reg_at_same; [|exact Hreg]; done]. intros x. unfold mon_of; simpl.
    rewrite dict_lookup_insert. case_bool_decide; [subst; by rewrite Hnone|done].
Qed.

Lemma change_block_spec client sid model edit s :
  let '(s', r) := change_block client sid model edit s in
  match r with
  | Changed previous new =>
      previous = mon_of sid s /\ reg_same s s' /\ (subs_wf s -> subs_wf s') /\
      forall x, mon_of x s' = mon_set sid new (fun x => mon_of x s) x
  | _ => gentle s s'
  end.
Proof.
  unfold change_block. destruct (find_sub client sid s) as [st|] eqn:E; [|apply gentle_refl].
  apply find_sub_Some in E.
  destruct (resolve_monitored_node_ids _ model) as [[node_ids n2e]|].
  - unfold update_sub. rewrite E. split_and!; [by unfold mon_of; rewrite E|done| |].
    + intros [Hd Hi]. split; simpl; [by apply dict_wf_insert|]. intros x st'. rewrite dict_lookup_insert.
      case_bool_decide; [|apply Hi]. intros ?; simplify_eq/=. by apply Hi.
    + intros x. unfold mon_of, mon_set; simpl. rewrite dict_lookup_insert. repeat case_bool_decide; by subst.
  - unfold update_sub. rewrite E. split; [done|]. split; [split_and!; simpl; [| |done]|].
    + rewrite dict_keys_insert, bool_decide_true; [done|]. apply elem_of_dict_keys. eauto.
    + intros x. rewrite dict_lookup_insert. case_bool_decide; [subst|done]. by rewrite E.
    + intros Hq. apply queues_ok_insert; [|done]. eapply same_queue_ok; [|exact (proj1 Hq _ _ E)]. done.
Qed.

Lemma restores_change client sid model edit : restores (change_items cfg client sid model edit).
Proof.
  intros s Hok. pose proof (change_block_spec client sid model edit s) as Hspec. apply wp_sect_bind.
  destruct (change_block client sid model edit s) as [s1 [| |previous new]]; cbn [fst snd] in *.
  - by eapply registry_ok_gentle.
  - by eapply registry_ok_gentle.
  - destruct Hspec as (-> & Hr & Hwf & Hmon). destruct Hok as [Hw Hreg]. apply wp_bind.
    eapply wp_mono; [|eapply (wp_apply_diff sid (mon_of sid s) new (fun x => mon_of x s))].
    + intros r s2 (-> & Hreg2 & Hs2). split; [by eapply subs_same_wf; [|apply Hwf]|].
      eapply reg_at_ext; [|exact Hreg2]. intros x; simpl. by rewrite (subs_same_mon_of s1 s2), Hmon.
    + eapply reg_at_ext; [|by eapply reg_at_same]. intros x. unfold mon_set. case_bool_decide; by subst.
Qed.

Lemma keeps_sync client sid ack allow : keeps (sync cfg client sid ack allow).
Proof.
  apply keeps_sect_bind.
  { intros s. unfold sync_block. destruct (find_sub client sid s); [|apply gentle_refl].
    destruct (_ && _)%bool; [apply gentle_refl|]. apply gentle_update_sub. apply (mild_compose (touch (sv_now s))); [apply mild_touch|apply mild_acknowledge]. }
  intros [| |refresh]; [done|done|]. apply keeps_bind; [destruct refresh; [apply keeps_refresh|done]|]. intros _.
  apply keeps_sect. intros s. unfold collect_block. destruct (find_sub client sid s); [|apply gentle_refl].
  apply gentle_update_sub. apply (mild_compose (touch (sv_now s))); [apply mild_touch|apply mild_collect].
Qed.

Lemma gentle_read_block reset client sid after s : gentle s (read_block reset client sid after s).1.
Proof.
  unfold read_block. destruct (find_sub client sid s); [|apply gentle_refl]. apply gentle_update_sub, mild_id.
  intros. by destruct reset.
Qed.

Lemma keeps_wait client sid after timeout : keeps (wait_for_updates cfg client sid after timeout).
Proof.
  apply keeps_sect_bind.
  { intros s. unfold wait_block. destruct (find_sub client sid s); [|apply gentle_refl].
    destruct (updates_above _ _); by apply gentle_update_sub, mild_id. }
  intros [|us|refresh threshold]; [done|done|]. apply keeps_call_bind. intros woken _.
  apply keeps_sect_bind; [done|]. intros []; [done|]. destruct woken.
  { apply keeps_sect. intros s. apply gentle_read_block. }
  apply keeps_sect_bind.
  { intros s. unfold timeout_block. destruct (find_sub client sid s); [|apply gentle_refl].
    destruct refresh; [|apply gentle_refl]. by apply gentle_update_sub, mild_id. }
  intros [[]|]; [|apply keeps_sect; intros s; apply gentle_read_block|done].
  apply keeps_sect_bind.
  { intros s. unfold reset_timeouts_block. destruct (find_sub client sid s); [|apply gentle_refl]. by apply gentle_update_sub, mild_id. }
  intros []; [|done]. apply keeps_bind; [apply keeps_refresh|]. intros _. apply keeps_sect. intros s. apply gentle_read_block.
Qed.

Lemma gentle_reset_lost bin_id nids acc :
  gentle acc.1 (fold_left (reset_lost bin_id) nids acc).1.
Proof.
  revert acc. induction nids as [|nid nids IH]; intros [s lost]; simpl; [apply gentle_refl|].
  eapply gentle_trans; [|apply IH]. destruct (live_monitor nid s) as [[oid m]|] eqn:E; [|apply gentle_refl].
  case_bool_decide; [|apply gentle_refl]. apply live_monitor_Some in E as [_ ?]. by apply gentle_set_runtime.
Qed.

Lemma gentle_resync_block restored s : gentle s (resync_block restored s).1.
Proof.
  unfold resync_block.
  assert (forall entries acc, gentle acc.1.1 (fold_left (resync_bin restored) entries acc).1.1) as H1.
  { induction entries as [|[bin_id b] entries IH]; intros [[s1 dead] lost]; simpl; [apply gentle_refl|].
    eapply gentle_trans; [|apply IH]. clear IH.
    set (p := match restored bin_id _ with Some _ => _ | None => _ end).
    assert (gentle s1 p.1) as Hp by (subst p; destruct (restored bin_id _); [case_bool_decide|]; apply gentle_set_bins).
    destruct p as [s2 dead2]; simpl in *. set (missing := List.filter _ _).
    pose proof (gentle_reset_lost bin_id missing (s2, lost)) as Hl.
    destruct (fold_left _ missing _) as [s3 lost3]; simpl in *. by eapply gentle_trans. }
  specialize (H1 (dict_items (sv_bins s)) (s, [], [])). by destruct (fold_left _ _ _) as [[] ?].
Qed.

Lemma keeps_reconnect : keeps (handle_client_reconnect cfg).
Proof.
  apply keeps_call_bind. intros restored _. apply keeps_sect_bind; [intros s; apply gentle_resync_block|].
  intros [dead lost]. apply keeps_bind; [apply keeps_pfor; intros b; by intros ? _|]. intros _.
  apply keeps_ebind.
  { apply keeps_efor. intros nid. apply keeps_sect_bind; [done|]. intros [oid|]; [apply keeps_start_runtime|done]. }
  intros _. apply keeps_sect_bind; [done|]. intros ids. apply keeps_bind; [|done].
  apply keeps_pfor. intros. apply keeps_update_subscription_mode.
Qed.

Lemma gentle_initiate_shutdown s : gentle s (initiate_shutdown s).
Proof.
  split; [done|]. split; [split_and!; simpl; [apply dict_keys_map| |done]|].
  - intros sid. rewrite dict_lookup_map. by destruct (sv_subscriptions s !! sid).
  - intros [Hq Hd]. split; [|done]. intros sid st; simpl. rewrite dict_lookup_map.
    destruct (sv_subscriptions s !! sid) as [st0|] eqn:E; [|done]. intros [= <-].
    apply mild_set_update_event. by eapply Hq.
Qed.

Lemma restores_close : restores close.
Proof.
  intros s0 Hok. apply wp_update_bind. apply wp_sect_bind; cbn [fst snd]. set (s := set_shutdown s0).
  assert (registry_ok s) as [Hw Hreg] by (by eapply registry_ok_gentle; [|exact Hok]).
  apply wp_bind. eapply wp_mono; [|apply (wp_pfor _ _ _ _ (fun rest s' => subs_same s s' /\
     NoDup rest /\ rest ⊆ dict_keys (sv_subscriptions s) /\
     reg_at (fun x => if bool_decide (x ∈ rest) then mon_of x s else ∅) s'))].
  - intros _ s1 (Hs & _ & _ & Hreg1). simpl. split; [by split; [apply dict_wf_empty|]|].
    eapply reg_at_ext; [|eapply reg_at_same; [|exact Hreg1]; done]. done.
  - intros sid rest s1 (Hs1 & [Hni Hnd]%NoDup_cons & Hsub & Hreg1). apply wp_update_bind.
    pose proof (gentle_update_object sid (set_update_event true) s1 (mild_set_update_event true)) as (Hr2 & Hs2 & _).
    set (s2 := update_object sid (set_update_event true) s1) in *.
    assert (subs_same s s2) as Hs12 by (by eapply subs_same_trans).
    eapply wp_mono; [|apply (wp_release_all sid (fun x => if bool_decide (x ∈ rest) then mon_of x s else ∅))].
    + intros _ s3 [Hreg3 Hs3]. split_and!; [by eapply subs_same_trans|done|set_solver|].
      eapply reg_at_ext; [|exact Hreg3]. intros x. unfold mon_set. case_bool_decide; [subst|done].
      by rewrite bool_decide_false.
    + eapply reg_at_ext; [|by eapply reg_at_same]. intros x. unfold mon_set.
      assert (is_Some (sv_subscriptions s2 !! sid)) as [st2 Hst2].
      { apply (subs_same_registered s s2); [done|]. apply elem_of_dict_keys, Hsub. constructor. }
      destruct (decide (x = sid)) as [->|Hx].
      * rewrite (bool_decide_true (sid = sid)), bool_decide_true by (done || constructor).
        rewrite <-(subs_same_mon_of s s2) by done. unfold mon_of, monitored_of, sub_object. by rewrite Hst2.
      * rewrite (bool_decide_false (x = sid)) by done.
        replace (bool_decide (x ∈ sid :: rest)) with (bool_decide (x ∈ rest)); [done|].
        apply bool_decide_ext. rewrite elem_of_cons. clear -Hx. naive_solver.
  - split_and!; [done|apply Hw|done|]. eapply reg_at_ext; [|exact Hreg]. intros x. simpl.
    case_bool_decide as Hx; [done|]. unfold mon_of. destruct (sv_subscriptions s !! x) eqn:E; [|done].
    destruct Hx. apply elem_of_dict_keys. eauto.
Qed.

(** Everything that can happen to the service. *)
Inductive operation :=
  | OpCreate (client name : option string)
  | OpDelete (client : option string) (ids : list string)
  | OpRegister (client : option string) (sid : string) (element_ids : list string) (max_depth : Z) (model : BuildResult)
  | OpUnregister (client : option string) (sid : string) (element_ids : list string) (model : BuildResult)
  | OpSync (client : option string) (sid : string) (ack : option Z) (allow_streaming : bool)
  | OpActivate (client : option string) (sid : string)
  | OpDeactivate (sid : string) (generation : Z)
  | OpWait (client : option string) (sid : string) (after timeout_seconds : Z)
  | OpExpire
  | OpReconnect
  | OpPoll
  | OpDatachangeRound
  | OpNodeDatachangeRound
  | OpNotify (sid nid : string) (v : V) (handle : option Z)
  | OpNotifyNode (nid : string) (v : V)
  | OpInitiateShutdown
  | OpClose.

Definition forget {A} (p : prog A) : prog unit := pbind p (fun _ => Ret tt).

Definition exec (o : operation) : prog unit :=
  match o with
  | OpCreate client name => forget (create_subscription client name)
  | OpDelete client ids => forget (delete_subscriptions client ids)
  | OpRegister client sid eids depth model => forget (register_items cfg client sid eids depth model)
  | OpUnregister client sid eids model => forget (unregister_items cfg client sid eids model)
  | OpSync client sid ack allow => forget (sync cfg client sid ack allow)
  | OpActivate client sid => forget (sect (activate_stream client sid))
  | OpDeactivate sid g => update (deactivate_stream sid g)
  | OpWait client sid after timeout => forget (wait_for_updates cfg client sid after timeout)
  | OpExpire => expire_subscriptions cfg
  | OpReconnect => forget (handle_client_reconnect cfg)
  | OpPoll => polling_round cfg
  | OpDatachangeRound => datachange_round cfg
  | OpNodeDatachangeRound => node_datachange_round cfg
  | OpNotify sid nid v h => update (enqueue_datachange cfg sid nid v h)
  | OpNotifyNode nid v => update (enqueue_node_datachange cfg nid v)
  | OpInitiateShutdown => update initiate_shutdown
  | OpClose => close
  end.

Lemma restores_forget {A} (p : prog A) : restores p -> restores (forget p).
Proof. intros Hp s Hok. apply wp_bind. by apply Hp. Qed.

Lemma gentle_enqueue sid nid v h s : gentle s (enqueue_datachange cfg sid nid v h s).
Proof. unfold enqueue_datachange. by destruct (enqueue_bounded _ _ _ _). Qed.

Lemma gentle_enqueue_node nid v s : gentle s (enqueue_node_datachange cfg nid v s).
Proof. unfold enqueue_node_datachange. by destruct (enqueue_bounded _ _ _ _). Qed.

Lemma restores_exec o : restores (exec o).
Proof.
  destruct o; cbn [exec]; try apply restores_forget.
  - apply restores_create.
  - apply restores_delete.
  - apply restores_change.
  - apply restores_change.
  - apply restores_keeps, keeps_sync.
  - apply restores_keeps, keeps_sect. intros s. unfold activate_stream.
    destruct (find_sub client sid s); [by apply gentle_update_sub, mild_id|apply gentle_refl].
  - apply restores_keeps, keeps_update. intros s. apply gentle_update_sub, mild_deactivate.
  - apply restores_keeps, keeps_wait.
  - apply restores_expire.
  - apply restores_keeps, keeps_reconnect.
  - apply restores_keeps, keeps_polling_round.
  - apply restores_keeps, keeps_datachange_round.
  - apply restores_keeps, keeps_node_datachange_round.
  - apply restores_keeps, keeps_update. intros s. apply gentle_enqueue.
  - apply restores_keeps, keeps_update. intros s. apply gentle_enqueue_node.
  - apply restores_keeps, keeps_update. intros s. apply gentle_initiate_shutdown.
  - apply restores_close.
Qed.

Lemma restores_operations ops : restores (pfor ops exec).
Proof.
  intros s Hok. apply (wp_pfor _ _ _ _ (fun _ s' => registry_ok s')); [|done].
  intros o _ s1 H1. by apply restores_exec.
Qed.

Lemma new_service_ok now utc : registry_ok (new_service now utc).
Proof.
  split; [by split; [apply dict_wf_empty|]|]. split; [split; simpl; [done|]|done].
  intros oid [m Hm]. by rewrite lookup_empty in Hm.
Qed.

(** C3. Whatever operations run one after the other on a new service, and whatever the OPC UA
    server answers, the subscribers recorded for a node are exactly the registered
    subscriptions that monitor it, and no node keeps a monitor without subscribers. *)
Theorem registry_exact {W} (env : forall R, ua_call R -> W -> service -> W * service * R) ops w now utc :
  env_ok (ua_resp_ok caps_ok) clock_tick env ->
  let '(_, s, _) := run env (pfor ops exec) w (new_service now utc) in
  (forall nid sid, sid ∈ subs_of nid s <-> nid ∈ mon_of sid s) /\
  (forall nid, is_Some (sv_node_monitors s !! nid) -> subs_of nid s ≠ ∅).
Proof.
  intros Henv.
  pose proof (wp_run _ _ env (pfor ops exec) (fun _ s' => registry_ok s') w (new_service now utc) Henv
                (restores_operations ops _ (new_service_ok now utc))) as H1.
  destruct (run env _ _ _) as [[w' s] []]. destruct H1 as [_ [Hwf Hreg]]. split; [done|].
  intros nid [oid Ho]. destruct (mw_live s Hwf nid oid Ho) as (m & Hm & _ & Hne).
  unfold subs_of, live_monitor. by rewrite Ho, Hm.
Qed.
End Contract.

(** ** A server for examples *)

Definition long_uuid (used : gset string) : string := foldr String.append "u" (elements used).

Lemma string_length_app (a b : string) : String.length (a +:+ b) = (String.length a + String.length b)%nat.
Proof.
  induction a as [|c a IH]; [done|].
  change (S (String.length (a +:+ b)) = S (String.length a + String.length b))%nat. by rewrite IH.
Qed.

Lemma long_uuid_fresh used prefix : prefix +:+ long_uuid used ∉ used.
Proof.
  intros Hin. apply elem_of_elements in Hin.
  assert (forall l x, x ∈ l -> (String.length x < String.length (foldr String.append "u" l))%nat) as Hlen.
  { induction l as [|y l IH]; intros x Hx; [by apply elem_of_nil in Hx|].
    cbn [foldr]. change (String.append y (foldr String.append "u" l)) with (y +:+ foldr String.append "u" l).
    rewrite string_length_app. apply elem_of_cons in Hx as [->|Hx].
    - assert (0 < String.length (foldr String.append "u" l))%nat; [|lia].
      clear. induction l as [|z l IH]; [simpl; lia|]. cbn [foldr].
      change (String.append z (foldr String.append "u" l)) with (z +:+ foldr String.append "u" l).
      rewrite string_length_app. lia.
    - specialize (IH x Hx). lia. }
  apply Hlen in Hin. rewrite string_length_app in Hin. unfold long_uuid in Hin. lia.
Qed.

Definition demo_caps : OpcUaSubscriptionCapabilities :=
  {| max_monitored_items_per_call := None; max_subscriptions := Some 2; max_monitored_items := Some 3;
     max_subscriptions_per_session := None; max_monitored_items_per_subscription := Some 2 |}.

(** Answers every call; the world counts the handles given out. *)
Definition demo_env (R : Type) (c : ua_call (V := pyval) R) (w : Z) (s : service (V := pyval)) :
    Z * service (V := pyval) * R :=
  match c in ua_call R return Z * service (V := pyval) * R with
  | GetCapabilities => (w, s, Val demo_caps)
  | CreateSubscription _ bin_id =>
      (w, s, Val {| ua_ref := bin_id; ua_attrs := OObj [("RevisedPublishingInterval", OFloat 500);
                                                        ("data", OObj [("RevisedMaxKeepAliveCount", OInt 4)])] |})
  | SubscribeDataChanges _ nodes => (w + 1, s, Val (HList (map (fun _ => OInt w) nodes)))
  | UnsubscribeDataChanges _ _ => (w, s, Val tt)
  | DeleteSubscription _ => (w, s, Val tt)
  | ReadValues nodes => (w, s, Val (map (fun nid => PStr nid) nodes))
  | UuidFor used => (w, s, long_uuid used)
  | IterOrder ids => (w, s, elements ids)
  | RestoredHandles => (w, s, fun _ _ => None)
  | WaitEvent _ _ => (w, s, false)
  end.

Lemma demo_env_ok : env_ok (ua_resp_ok (eq demo_caps)) clock_tick demo_env.
Proof.
  assert (forall s : service (V := pyval), clock_tick s s) as Ht.
  { intros s. exists (sv_now s), (sv_utc s). split; [apply Qle_refl|by destruct s]. }
  intros R c w s. destruct c; simpl; (split; [try done|done]).
  - by exists demo_caps.
  - split; apply long_uuid_fresh.
  - split; [apply NoDup_elements|]. intros x. apply elem_of_elements.
Qed.

Definition demo_config : config := make_config 1 100 60 true " Adaptive " 3 30 30.

Definition demo_operations : list (operation (V := pyval)) :=
  [OpCreate (Some "c") None; OpRegister (Some "c") "sub-u" ["m"; "X"] 0 demo_model;
   OpCreate None None; OpRegister None "sub-sub-uu" ["t"] 1 demo_model; OpPoll; OpNotifyNode "ns=1;i=3" (PInt 4);
   OpNodeDatachangeRound; OpUnregister (Some "c") "sub-u" ["X"] demo_model; OpReconnect;
   OpDelete None ["sub-sub-uu"; "none"]].

Definition demo_final : service (V := pyval) :=
  (run demo_env (pfor demo_operations (exec demo_config)) 1 (new_service 0 "t0")).1.2.

Lemma demo_config_ok : 1 <= max_updates_per_subscription demo_config.
Proof. vm_compute. discriminate. Qed.

Lemma registry_exact_witness :
  1 <= max_updates_per_subscription demo_config /\ env_ok (ua_resp_ok (eq demo_caps)) clock_tick demo_env /\
  map (fun nid => (nid, elements (subs_of nid demo_final))) (dict_keys (sv_node_monitors demo_final))
    = [("ns=1;i=3", ["sub-u"]); ("ns=1;i=4", ["sub-u"])] /\
  let '(_, s, _) := run demo_env (pfor demo_operations (exec demo_config)) 1 (new_service 0 "t0") in
  (forall nid sid, sid ∈ subs_of nid s <-> nid ∈ mon_of sid s) /\
  (forall nid, is_Some (sv_node_monitors s !! nid) -> subs_of nid s ≠ ∅).
Proof.
  split; [exact demo_config_ok|]. split; [exact demo_env_ok|]. split; [vm_compute; reflexivity|].
  pose proof (registry_exact demo_config (eq demo_caps) demo_config_ok demo_env demo_operations 1 0 "t0" demo_env_ok) as Hexact.
  exact Hexact.
Defined.
End SubRegistry.
