(* ===== verification/SubPool.v ===== *)
(** The subscription service under concurrency: any number of operations, each interleaved with
    the others at every await ([pool_step] of [Async] over [exec] of [SubRegistry]).

    - [steady]: what every section of every operation preserves, whatever runs in between;
    - the admission invariant: what [_native_bin_admission_lock] is for;
    - a schedule under which a deleted subscription stays a subscriber of a node. *)

From S2P Require Export SubRegistry.

Module SubPool.
Import SubQueue SubResolve SubRuntime SubRegistry.

Section Pool.
Context {V : Type} `{PyValue V}.
Implicit Types (s : service (V := V)) (st : SubscriptionState V).
Context (cfg : config) (caps_ok : OpcUaSubscriptionCapabilities -> Prop).
Context (max_updates_pos : 1 <= max_updates_per_subscription cfg).
Abbreviation prog := (prog (service (V := V)) (ua_call (V := V))).
Abbreviation keeps := (keeps (ua_resp_ok caps_ok)).
Abbreviation gentle := (gentle cfg).
Abbreviation queues_ok := (queues_ok cfg).

(** ** Invariants of every section *)

Definition steady s s' : Prop := (monitors_wf s -> monitors_wf s') /\ (queues_ok s -> queues_ok s').

Lemma steady_refl s : steady s s.
Proof. done. Qed.

Lemma steady_trans s1 s2 s3 : steady s1 s2 -> steady s2 s3 -> steady s1 s3.
Proof. intros [] []. split; auto. Qed.

Lemma gentle_steady s s' : gentle s s' -> steady s s'.
Proof. intros (Hr & _ & Hq). split; [by apply reg_same_wf|done]. Qed.

Lemma keeps_steady {A} (p : prog A) : keeps gentle p -> keeps steady p.
Proof. intros Hk. eapply keeps_mono; [|exact Hk]. intros s s'. apply gentle_steady. Qed.

(** The assignment of nodes to subscriptions that the monitors record. *)
Definition recorded s (sid : string) : gset string :=
  list_to_set (List.filter (fun nid => bool_decide (sid ∈ subs_of nid s)) (dict_keys (sv_node_monitors s))).

Lemma recorded_reg_at s : monitors_wf s -> reg_at (recorded s) s.
Proof.
  intros Hwf. split; [done|]. intros nid sid. unfold recorded. rewrite elem_of_list_to_set, list_elem_of_In, List.filter_In.
  rewrite bool_decide_eq_true, <-list_elem_of_In, elem_of_dict_keys. split; [|by intros []]. intros Hin. split; [|done].
  unfold subs_of, live_monitor in Hin. destruct (sv_node_monitors s !! nid); [eauto|set_solver].
Qed.

Lemma steady_add_subscriber nid sid s : steady s (add_subscriber nid sid s).1.
Proof.
  split.
  - intros Hwf. by destruct (add_subscriber_spec cfg max_updates_pos nid sid _ s (recorded_reg_at s Hwf)) as [[? _] _].
  - unfold add_subscriber. destruct (sv_node_monitors s !! nid) as [oid|]; simpl; [|done].
    by destruct (sv_monitor_heap s !! oid).
Qed.

Lemma steady_drop_subscriber nid sid s : steady s (drop_subscriber nid sid s).1.
Proof.
  split.
  - intros Hwf. by destruct (drop_subscriber_spec cfg max_updates_pos nid sid _ s (recorded_reg_at s Hwf)) as [[? _] _].
  - unfold drop_subscriber. destruct (sv_node_monitors s !! nid) as [oid|]; simpl; [|done].
    destruct (sv_monitor_heap s !! oid); simpl; [|done]. by case_bool_decide.
Qed.

Lemma keeps_release nid sid : keeps steady (release_node_monitor nid sid).
Proof.
  apply keeps_sect_bind; [intros s; apply steady_drop_subscriber|]. intros [oid|]; [|done].
  apply keeps_steady, keeps_stop_runtime.
Qed.

Lemma keeps_acquire nid sid : keeps steady (acquire_node_monitor cfg nid sid).
Proof.
  apply keeps_sect_bind; [intros s; apply steady_add_subscriber|]. intros [oid|]; [|done].
  apply keeps_steady, keeps_start_runtime.
Qed.

Lemma keeps_release_all sid : keeps steady (release_all_nodes sid).
Proof.
  apply keeps_sect_bind; [done|]. intros nodes. apply keeps_call_bind. intros order _.
  apply keeps_bind; [apply keeps_pfor; intros; apply keeps_release|]. intros _.
  apply keeps_update. intros s. apply gentle_steady, gentle_update_object, mild_set_mode. 
Qed.

Lemma keeps_apply_diff sid previous new : keeps steady (apply_monitored_node_diff cfg sid previous new).
Proof.
  apply keeps_call_bind. intros removed _. apply keeps_bind; [apply keeps_pfor; intros; apply keeps_release|]. intros _.
  apply keeps_call_bind. intros added _. apply keeps_ebind; [apply keeps_efor; intros; apply keeps_acquire|]. intros _.
  apply keeps_steady. apply keeps_bind; [by apply keeps_update_subscription_mode|]. intros _.
  apply keeps_bind; [by apply keeps_seed|done].
Qed.

Lemma steady_detach sid s : steady s (detach sid s).
Proof.
  unfold detach. destruct (sv_subscriptions s !! sid) as [st|] eqn:E; [|done]. split; [by apply reg_same_wf|].
  intros [Hq Hd]. split; intros sid' st'; simpl.
  - rewrite dict_lookup_delete. case_bool_decide; [done|apply Hq].
  - rewrite lookup_insert. case_decide; [|apply Hd]. intros [= <-]. eapply same_queue_ok; [|exact (Hq _ _ E)]. done.
Qed.

Lemma steady_delete_block client ids s : steady s (delete_block client ids s).1.
Proof.
  unfold delete_block.
  assert (forall acc, steady acc.1.1 (fold_left (delete_one client) ids acc).1.1) as H1.
  { induction ids as [|sid ids IH]; intros [[s1 results] removed]; simpl; [done|].
    eapply steady_trans; [|apply IH]. destruct (find_sub client sid s1); simpl; [apply steady_detach|done]. }
  specialize (H1 (s, [], [])). by destruct (fold_left _ _ _) as [[] ].
Qed.

Lemma steady_expire_block s : steady s (expire_block cfg s).1.
Proof.
  unfold expire_block. generalize (map subscription_id (List.filter (is_stale cfg (sv_now s)) (dict_values (sv_subscriptions s)))) as ids.
  intros ids.
  assert (forall acc, steady acc.1 (fold_left (fun '(s, removed) sid => match sv_subscriptions s !! sid with
     | None => (s, removed) | Some _ => (detach sid s, removed ++ [sid]) end) ids acc).1) as H1; [|by apply (H1 (s, []))].
  induction ids as [|sid ids IH]; intros [s1 removed]; simpl; [done|].
  destruct (sv_subscriptions s1 !! sid) as [st|] eqn:E.
  - eapply steady_trans; [|apply (IH (detach sid s1, removed ++ [sid]))]. apply steady_detach.
  - apply (IH (s1, removed)).
Qed.

Lemma steady_set_sub sid st s :
  (queues_ok s -> queue_ok (max_updates_per_subscription cfg) st) ->
  steady s (set_subs (<[sid := st]> (sv_subscriptions s)) s).
Proof. intros Hst. split; [by apply reg_same_wf|]. intros Hq. apply queues_ok_insert; auto. Qed.

Lemma steady_change_block client sid model edit s : steady s (change_block client sid model edit s).1.
Proof.
  unfold change_block. destruct (find_sub client sid s) as [st|] eqn:E; [|done]. apply find_sub_Some in E.
  destruct (resolve_monitored_node_ids _ _) as [[]|]; unfold update_sub; simpl; rewrite E; apply steady_set_sub;
    intros Hq; (eapply same_queue_ok; [|exact (proj1 Hq _ _ E)]); done.
Qed.

Lemma keeps_change client sid model edit : keeps steady (change_items cfg client sid model edit).
Proof.
  apply keeps_sect_bind; [intros s; apply steady_change_block|]. intros [| |]; [done|done|].
  apply keeps_bind; [apply keeps_apply_diff|done].
Qed.

Lemma keeps_create client name : keeps steady (create_subscription client name).
Proof.
  apply keeps_sect_bind; [done|]. intros used. apply keeps_call_bind. intros uuid _. apply keeps_sect.
  intros s. apply steady_set_sub. intros _. apply new_subscription_ok. lia.
Qed.

Lemma steady_clear s : steady s (clear_subscriptions s).
Proof.
  split; [by apply reg_same_wf|]. intros [Hq Hd]. split; [done|]. simpl. induction (dict_keys (sv_subscriptions s)) as [|k l IH]; simpl; [done|].
  destruct (sv_subscriptions s !! k) as [st0|] eqn:E; [|done]. intros sid st. rewrite lookup_insert.
  case_decide; [intros [= <-]; by apply (Hq k)|apply IH].
Qed.

Lemma keeps_close : keeps steady close.
Proof.
  apply keeps_update_bind; [intros s; split; [by apply reg_same_wf|done]|]. intros _.
  apply keeps_sect_bind; [done|]. intros ids.
  apply keeps_bind; [|intros _; apply keeps_update, steady_clear]. apply keeps_pfor. intros sid.
  apply keeps_update_bind; [|intros _; apply keeps_release_all].
  intros s. apply gentle_steady, gentle_update_object, mild_set_update_event.
Qed.

Lemma keeps_forget {A} (R : service -> service -> Prop) (p : prog A) : keeps R p -> keeps R (forget p).
Proof. intros Hp. by apply keeps_bind. Qed.

Lemma keeps_exec o : keeps steady (exec cfg o).
Proof.
  destruct o; cbn [exec]; try apply keeps_forget.
  - apply keeps_create.
  - apply keeps_sect_bind; [intros s; apply steady_delete_block|]. intros [results removed].
    apply keeps_bind; [apply keeps_pfor; intros; apply keeps_release_all|done].
  - apply keeps_change.
  - apply keeps_change.
  - by apply keeps_steady, keeps_sync.
  - apply keeps_sect. intros s. apply gentle_steady. unfold activate_stream.
    destruct (find_sub client sid s); [by apply gentle_update_sub, mild_id|apply gentle_refl].
  - apply keeps_update. intros s. apply gentle_steady, gentle_update_sub, mild_deactivate.
  - by apply keeps_steady, keeps_wait.
  - apply keeps_sect_bind; [intros s; apply steady_expire_block|]. intros removed.
    apply keeps_pfor. intros. apply keeps_release_all.
  - by apply keeps_steady, keeps_reconnect.
  - by apply keeps_steady, keeps_polling_round.
  - by apply keeps_steady, keeps_datachange_round.
  - by apply keeps_steady, keeps_node_datachange_round.
  - apply keeps_update. intros s. apply gentle_steady, gentle_enqueue.
  - apply keeps_update. intros s. apply gentle_steady, gentle_enqueue_node.
  - apply keeps_update. intros s. apply gentle_steady, gentle_initiate_shutdown.
  - apply keeps_close.
Qed.

(** Any operation may start at any time. *)
Definition is_operation (p : prog unit) : Prop := exists o, p = exec cfg o.

Abbreviation steps := (pool_steps (ua_resp_ok caps_ok) clock_tick is_operation).

(** Operations can be started all at once. *)
Lemma spawn_operations ops s ts :
  steps (Pool s None ts) (Pool s None (ts ++ map (exec cfg) ops)).
Proof.
  revert ts. induction ops as [|o ops IH]; intros ts; simpl; [by rewrite app_nil_r|].
  eapply rtc_l; [by apply (step_spawn _ _ _ s None ts (exec cfg o)); exists o|].
  replace (ts ++ exec cfg o :: map (exec cfg) ops) with ((ts ++ [exec cfg o]) ++ map (exec cfg) ops); [apply IH|].
  by rewrite <-app_assoc.
Qed.

(** C5. Under every interleaving of any operations: the queue of every subscription stays
    consecutive and bounded, and every registered node monitor has a subscriber. *)
Theorem interleaved_invariants now utc pl :
  steps (Pool (new_service now utc) None []) pl ->
  (forall sid st, sv_subscriptions (pl_state pl) !! sid = Some st ->
     seqs st = seqZ (sequence_number st - Z.of_nat (length (updates st)) + 1) (Z.of_nat (length (updates st))) /\
     Z.of_nat (length (updates st)) <= max_updates_per_subscription cfg) /\
  (forall nid, is_Some (sv_node_monitors (pl_state pl) !! nid) -> subs_of nid (pl_state pl) ≠ ∅).
Proof.
  intros Hsteps.
  assert (steady (new_service now utc) (pl_state pl)) as [Hwf Hq].
  { eapply (pool_steps_keeps (ua_resp_ok caps_ok) clock_tick is_operation steady (Pool (new_service now utc) None []));
      [apply steady_refl|apply steady_trans| | |constructor|exact Hsteps].
    - intros s s' Ht. by apply gentle_steady, clock_tick_gentle.
    - intros p [o ->]. apply keeps_exec. }
  destruct (new_service_ok (V := V) now utc) as [_ [Hw0 _]]. specialize (Hwf Hw0).
  destruct Hq as [Hq _]; [done|]. split.
  - intros sid st Hst. destruct (Hq sid st Hst). done.
  - intros nid [oid Ho]. destruct (mw_live _ Hwf nid oid Ho) as (m & Hm & _ & Hne).
    unfold subs_of, live_monitor. by rewrite Ho, Hm.
Qed.
End Pool.

(** ** A deleted subscription that stays a subscriber

    A registration of two nodes waits for the server to create the monitored item of the first
    one; the subscription is deleted meanwhile, completely; then the registration goes on and
    starts monitoring the second node. Tasks change only where the code awaits the server. *)

Definition race_operations : list (operation (V := pyval)) :=
  [OpCreate None None; OpRegister None "sub-u" ["m"] 0 demo_model; OpDelete None ["sub-u"]].

Definition race_schedule : list nat :=
  replicate 20 0%nat ++ replicate 12 1%nat ++ replicate 40 2%nat ++ replicate 80 1%nat.

Definition race_start : pool (service (V := pyval)) (ua_call (V := pyval)) :=
  Pool (new_service 0 "t0") None (map (exec demo_config) race_operations).

Definition race_end : pool (service (V := pyval)) (ua_call (V := pyval)) :=
  (run_schedule demo_env race_schedule (1, race_start)).2.

Definition is_done (p : prog (service (V := pyval)) (ua_call (V := pyval)) unit) : bool :=
  match p with Ret _ => true | _ => false end.

Lemma race_end_reachable :
  pool_steps (ua_resp_ok (eq demo_caps)) clock_tick (is_operation demo_config) (Pool (new_service 0 "t0") None []) race_end.
Proof.
  etrans; [apply (spawn_operations demo_config (eq demo_caps) race_operations)|].
  apply run_schedule_steps, demo_env_ok.
Qed.

(** Every operation ended, no subscription is registered, and yet a node is still monitored
    on the server for the subscription that was deleted: the registration that was under way
    went on after the deletion. *)
Theorem deleted_subscription_leaks :
  exists pl, pool_steps (ua_resp_ok (eq demo_caps)) clock_tick (is_operation demo_config)
               (Pool (new_service 0 "t0") None []) pl /\
    forallb is_done (pl_tasks pl) = true /\
    dict_items (sv_subscriptions (pl_state pl)) = [] /\
    "sub-u" ∈ subs_of "ns=1;i=4" (pl_state pl) /\
    match live_monitor "ns=1;i=4" (pl_state pl) with
    | Some (_, m) => nm_mode m = "native"
    | None => False
    end.
Proof.
  exists race_end. split; [apply race_end_reachable|].
  split; [vm_compute; reflexivity|]. split; [vm_compute; reflexivity|].
  split; [|vm_compute; reflexivity].
  apply (bool_decide_eq_true_1 _). vm_compute. reflexivity.
Qed.

Lemma interleaved_invariants_witness :
  1 <= max_updates_per_subscription demo_config /\
  pool_steps (ua_resp_ok (eq demo_caps)) clock_tick (is_operation demo_config) (Pool (new_service 0 "t0") None []) race_end /\
  dict_keys (sv_node_monitors (pl_state race_end)) = ["ns=1;i=4"] /\
  (forall sid st, sv_subscriptions (pl_state race_end) !! sid = Some st ->
     seqs st = seqZ (sequence_number st - Z.of_nat (length (updates st)) + 1) (Z.of_nat (length (updates st))) /\
     Z.of_nat (length (updates st)) <= max_updates_per_subscription demo_config) /\
  (forall nid, is_Some (sv_node_monitors (pl_state race_end) !! nid) -> subs_of nid (pl_state race_end) ≠ ∅).
Proof.
  split; [exact demo_config_ok|]. split; [exact race_end_reachable|]. split; [vm_compute; reflexivity|].
  pose proof (interleaved_invariants demo_config (eq demo_caps) demo_config_ok 0 "t0" race_end race_end_reachable) as Hinv.
  exact Hinv.
Defined.
End SubPool.
