(* ===== verification/SubAdmission.v ===== *)
(** What [_native_bin_admission_lock] guarantees: under every interleaving the bins of the
    subscription service keep to the limits the server advertised.

    The client reads the limits anew after it has reconnected, so that one run may meet several
    answers; the bins keep to every bound that covers all of them ([caps_within]).

    A task that holds the lock checks the limits, waits for the server, and then registers what
    it created; the check still holds because every other task can only shrink the bins
    ([quiet]). *)

From S2P Require Export SubPool.

Module SubAdmission.
Import SubQueue SubResolve SubRuntime SubRegistry SubPool.

(** ** Sums over bins *)

Definition sum_sizes (l : list (string * ManagedBin)) : Z := foldr Z.add 0 (map (fun p => bin_size p.2) l).

Definition size_at (o : option ManagedBin) : Z := match o with Some b => bin_size b | None => 0 end.

Lemma bin_size_nonneg b : 0 <= bin_size b.
Proof. unfold bin_size. lia. Qed.

Lemma sum_sizes_nonneg l : 0 <= sum_sizes l.
Proof.
  unfold sum_sizes. induction l as [|[k b] l IH]; simpl; [lia|]. pose proof (bin_size_nonneg b). lia.
Qed.

Lemma sum_sizes_insert k b l :
  sum_sizes (items_insert k b l) = sum_sizes l + bin_size b - size_at (items_lookup k l).
Proof.
  unfold sum_sizes. induction l as [|[k1 b1] l IH]; simpl; [lia|].
  destruct (decide (k1 = k)) as [->|Hne].
  - rewrite !bool_decide_true by done. simpl. lia.
  - rewrite !bool_decide_false by done. simpl. lia.
Qed.

Lemma sum_sizes_filter_absent k l :
  k ∉ l.*1 -> List.filter (fun p : string * ManagedBin => key_neqb k p.1) l = l.
Proof.
  induction l as [|[k1 b1] l IH]; csimpl; intros Hk; [done|]. unfold key_neqb.
  rewrite bool_decide_false by set_solver. simpl. f_equal. apply IH. set_solver.
Qed.

Lemma sum_sizes_delete k l :
  NoDup l.*1 ->
  sum_sizes (List.filter (fun p => key_neqb k p.1) l) = sum_sizes l - size_at (items_lookup k l).
Proof.
  induction l as [|[k1 b1] l IH]; csimpl; [intros; unfold sum_sizes; simpl; lia|]. intros [Hn Hnd]%NoDup_cons.
  unfold key_neqb at 1. destruct (decide (k1 = k)) as [->|Hne].
  - rewrite !bool_decide_true by done. simpl. rewrite sum_sizes_filter_absent by done.
    unfold sum_sizes; simpl. lia.
  - rewrite !bool_decide_false by done. simpl. specialize (IH Hnd). unfold sum_sizes in *; simpl. lia.
Qed.

Section Admission.
Context {V : Type} `{PyValue V}.
Implicit Types (s : service (V := V)) (st : SubscriptionState V).
Context (cfg : config) (caps_ok : OpcUaSubscriptionCapabilities -> Prop) (bound : OpcUaSubscriptionCapabilities).

Lemma total_monitored_sum s : total_monitored s = sum_sizes (dict_items (sv_bins s)).
Proof. unfold total_monitored, sum_sizes, dict_values. by rewrite map_map. Qed.

(** ** The invariant and what a task without the lock guarantees *)

(** What [caps] allows, [bound] allows. *)
Definition caps_within (caps : OpcUaSubscriptionCapabilities) : Prop := forall n,
  (caps_allow (max_monitored_items caps) n = true -> caps_allow (max_monitored_items bound) n = true) /\
  (caps_allow (max_subscriptions caps) n = true -> caps_allow (max_subscriptions bound) n = true) /\
  (caps_allow (max_subscriptions_per_session caps) n = true ->
   caps_allow (max_subscriptions_per_session bound) n = true).

Definition bin_ok (id : string) (b : ManagedBin) : Prop :=
  mb_bin_id b = id /\ dict_wf (mb_node_handles b) /\ 1 <= bin_size b <= mb_capacity b /\
  exists caps, caps_ok caps /\ mb_capacity b = effective_capacity caps.

Record bins_ok (s : service (V := V)) : Prop := {
  bo_wf : dict_wf (sv_bins s);
  bo_bin id b : sv_bins s !! id = Some b -> bin_ok id b;
  bo_total : caps_allow (max_monitored_items bound) (total_monitored s) = true;
  bo_count : caps_allow (max_subscriptions bound) (Z.of_nat (dict_len (sv_bins s))) = true;
  bo_session : caps_allow (max_subscriptions_per_session bound) (Z.of_nat (dict_len (sv_bins s))) = true;
}.

Definition quiet (s s' : service (V := V)) : Prop :=
  (forall id b', sv_bins s' !! id = Some b' ->
     exists b, sv_bins s !! id = Some b /\ bin_size b' <= bin_size b /\ mb_capacity b' = mb_capacity b) /\
  total_monitored s' <= total_monitored s /\
  (dict_len (sv_bins s') <= dict_len (sv_bins s))%nat.

Lemma quiet_refl s : quiet s s.
Proof. split_and!; [|done|done]. intros id b Hb. exists b. done. Qed.

Lemma quiet_trans s1 s2 s3 : quiet s1 s2 -> quiet s2 s3 -> quiet s1 s3.
Proof.
  intros (Ha & Hta & Hla) (Hb & Htb & Hlb). split_and!; [|lia|lia].
  intros id b3 E3. destruct (Hb id b3 E3) as (b2 & E2 & ? & ?). destruct (Ha id b2 E2) as (b1 & E1 & ? & ?).
  exists b1. split_and!; [done|lia|congruence].
Qed.

Lemma caps_allow_mono o n n' : n' <= n -> caps_allow o n = true -> caps_allow o n' = true.
Proof. intros Hn. destruct o; simpl; [|done]. rewrite !Z.leb_le. lia. Qed.

(** Sections that leave the bins alone. *)
Lemma same_bins_ok s s' : sv_bins s' = sv_bins s -> bins_ok s -> bins_ok s' /\ quiet s s'.
Proof.
  intros E Hok. assert (total_monitored s' = total_monitored s) as Et by (unfold total_monitored; by rewrite E). split.
  - destruct Hok. split; rewrite ?E, ?Et; done.
  - split_and!; rewrite ?Et, ?E; [|done|done]. intros id b Hb. exists b. done.
Qed.

Abbreviation prog := (prog (service (V := V)) (ua_call (V := V))).
Abbreviation calm := (calm (ua_resp_ok (V := V) caps_ok) bins_ok quiet).
Abbreviation calm_section := (calm_section bins_ok quiet).
Abbreviation safe := (safe (ua_resp_ok (V := V) caps_ok) bins_ok quiet).

(** Shrinking or removing one bin. *)
Lemma shrink_bin s id b handles :
  bins_ok s -> sv_bins s !! id = Some b -> dict_wf handles ->
  (dict_len handles <= dict_len (mb_node_handles b))%nat ->
  let s' := set_bins (if bool_decide (dict_items handles = []) then delete id (sv_bins s)
                      else <[id := set_handles handles b]> (sv_bins s)) s in
  bins_ok s' /\ quiet s s'.
Proof.
  intros Hok Hb Hwf Hlen. pose proof Hok as [Hd Hbin Ht Hc Hs].
  assert (items_lookup id (dict_items (sv_bins s)) = Some b) as Hl by exact Hb.
  destruct (Hbin id b Hb) as (Hid & _ & Hsz & Hcap).
  case_bool_decide as He.
  - assert (dict_len (delete id (sv_bins s)) <= dict_len (sv_bins s))%nat as Hle by apply dict_len_delete_le.
    assert (total_monitored (set_bins (delete id (sv_bins s)) s) <= total_monitored s) as Hle2.
    { rewrite !total_monitored_sum; simpl. rewrite sum_sizes_delete by exact Hd. rewrite Hl. simpl.
      pose proof (bin_size_nonneg b). lia. }
    split.
    + split; simpl; [by apply dict_wf_delete| |by eapply caps_allow_mono|eapply caps_allow_mono; [|done]; lia|
                     eapply caps_allow_mono; [|done]; lia].
      intros id' b'. rewrite dict_lookup_delete. case_bool_decide; [done|apply Hbin].
    + split_and!; [|done|done]. simpl. intros id' b'. rewrite dict_lookup_delete. case_bool_decide; [done|].
      intros Hb'. by exists b'.
  - assert (1 <= bin_size (set_handles handles b) <= bin_size b) as Hsz'.
    { unfold bin_size, dict_len in *; simpl. destruct (dict_items handles); [done|]. simpl in *. lia. }
    assert (dict_len (<[id := set_handles handles b]> (sv_bins s)) = dict_len (sv_bins s)) as Hle.
    { rewrite dict_len_insert, bool_decide_true; [done|]. apply elem_of_dict_keys. eauto. }
    assert (total_monitored (set_bins (<[id := set_handles handles b]> (sv_bins s)) s) <= total_monitored s) as Hle2.
    { rewrite !total_monitored_sum; simpl. rewrite sum_sizes_insert, Hl. simpl. lia. }
    split.
    + split; simpl; rewrite ?Hle; [by apply dict_wf_insert| |by eapply caps_allow_mono|done|done].
      intros id' b'. rewrite dict_lookup_insert. case_bool_decide; [|apply Hbin]. intros [= <-]. subst id'.
      split_and!; [done|done|lia|simpl; lia|done].
    + split_and!; [|done|simpl; by rewrite Hle]. simpl. intros id' b'. rewrite dict_lookup_insert.
      case_bool_decide; [|by exists b']. intros [= <-]. subst id'. exists b. split_and!; [done|lia|done].
Qed.

Lemma leave_bin_ok bin_id nid : calm_section (leave_bin (V := V) bin_id nid).
Proof.
  intros s Hok. unfold leave_bin. destruct (sv_bins s !! bin_id) as [b|] eqn:E; [|by apply same_bins_ok].
  destruct (bo_bin s Hok bin_id b E) as (_ & Hwf & _).
  exact (shrink_bin s bin_id b (delete nid (mb_node_handles b)) Hok E (dict_wf_delete _ _ Hwf) (dict_len_delete_le _ _)).
Qed.

Lemma reset_lost_bins bin_id nids (acc : service (V := V) * list string) :
  sv_bins (fold_left (reset_lost bin_id) nids acc).1 = sv_bins acc.1.
Proof.
  revert acc. induction nids as [|nid nids IH]; intros [s lost]; simpl; [done|]. rewrite IH. simpl.
  destruct (live_monitor nid s) as [[oid m]|]; [|done]. by case_bool_decide.
Qed.

Lemma NoDup_subset_length {A} (l1 l2 : list A) :
  NoDup l1 -> (forall x, x ∈ l1 -> x ∈ l2) -> (length l1 <= length l2)%nat.
Proof. intros Hnd Hsub. apply submseteq_length, NoDup_submseteq; done. Qed.

(** The bins after one step of the re-synchronisation. *)
Lemma resync_bin_bins restored acc bin_id b :
  (forall k l h, restored k l = Some h -> dict_wf h /\ (forall x, x ∈ dict_keys h -> x ∈ l)) ->
  exists handles, dict_wf handles /\ (dict_wf (mb_node_handles b) -> dict_len handles <= dict_len (mb_node_handles b))%nat /\
    sv_bins (resync_bin (V := V) restored acc (bin_id, b)).1.1 =
      (if bool_decide (dict_items handles = []) then delete bin_id (sv_bins acc.1.1)
       else <[bin_id := set_handles handles b]> (sv_bins acc.1.1)).
Proof.
  intros Hr. destruct acc as [[s dead] lost]. unfold resync_bin.
  set (missing := List.filter _ _).
  destruct (restored bin_id (dict_keys (mb_node_handles b))) as [h|] eqn:E.
  - destruct (Hr _ _ _ E) as [Hwf Hsub]. exists h. split_and!; [done| |].
    + intros Hb. unfold dict_len. rewrite <-(length_fmap fst (dict_items h)), <-(length_fmap fst (dict_items (mb_node_handles b))).
      by apply NoDup_subset_length.
    + case_bool_decide; simpl.
      * pose proof (reset_lost_bins bin_id missing (set_bins (delete bin_id (sv_bins s)) s, lost)) as Hl.
        by destruct (fold_left _ missing _) as [s3 l3].
      * pose proof (reset_lost_bins bin_id missing (set_bins (<[bin_id := set_handles h b]> (sv_bins s)) s, lost)) as Hl.
        by destruct (fold_left _ missing _) as [s3 l3].
  - exists ∅. split_and!; [apply dict_wf_empty|unfold dict_len; simpl; lia|]. simpl.
    pose proof (reset_lost_bins bin_id missing (set_bins (delete bin_id (sv_bins s)) s, lost)) as Hl.
    by destruct (fold_left _ missing _) as [s3 l3].
Qed.

Lemma resync_fold_ok restored entries acc :
  (forall k l h, restored k l = Some h -> dict_wf h /\ (forall x, x ∈ dict_keys h -> x ∈ l)) ->
  NoDup entries.*1 -> (forall id b, (id, b) ∈ entries -> sv_bins acc.1.1 !! id = Some b) ->
  bins_ok acc.1.1 ->
  bins_ok (fold_left (resync_bin (V := V) restored) entries acc).1.1 /\
  quiet acc.1.1 (fold_left (resync_bin restored) entries acc).1.1.
Proof.
  intros Hr. revert acc. induction entries as [|[id b] entries IH]; intros acc Hnd Hin Hok; [by split; [|apply quiet_refl]|].
  cbn [fold_left]. rewrite fmap_cons in Hnd. apply NoDup_cons in Hnd as [Hni Hnd].
  assert (sv_bins acc.1.1 !! id = Some b) as Hb by (apply Hin; constructor).
  destruct (resync_bin_bins restored acc id b Hr) as (handles & Hwf & Hlen & Hbins).
  destruct (bo_bin _ Hok id b Hb) as (_ & Hwfb & _).
  destruct (shrink_bin acc.1.1 id b handles Hok Hb Hwf (Hlen Hwfb)) as [Hok1 Hq1].
  set (acc' := resync_bin restored acc (id, b)) in *.
  assert (bins_ok acc'.1.1 /\ quiet acc.1.1 acc'.1.1) as [Hok2 Hq2].
  { match type of Hok1 with bins_ok ?s1 => destruct (same_bins_ok s1 acc'.1.1 Hbins Hok1) as [? ?] end. split; [done|]. by eapply quiet_trans. }
  destruct (IH acc' Hnd) as [Hok3 Hq3]; [|done|].
  - intros id' b' Hin'. rewrite Hbins. assert (id ≠ id') as Hne.
    { intros <-. apply Hni. apply list_elem_of_fmap. by exists (id, b'). }
    case_bool_decide; [rewrite dict_lookup_delete_ne by done|rewrite dict_lookup_insert_ne by done];
      apply Hin; by constructor.
  - split; [done|]. by eapply quiet_trans.
Qed.

Lemma resync_block_ok restored :
  (forall k l h, restored k l = Some h -> dict_wf h /\ (forall x, x ∈ dict_keys h -> x ∈ l)) ->
  calm_section (resync_block (V := V) restored).
Proof.
  intros Hr s Hok. unfold resync_block.
  destruct (resync_fold_ok restored (dict_items (sv_bins s)) (s, [], []) Hr) as [Hok' Hq'].
  - apply (bo_wf s Hok).
  - intros id b. apply dict_items_lookup, (bo_wf s Hok).
  - done.
  - by destruct (fold_left _ _ _) as [[s' dead] lost].
Qed.

(** ** What the holder of the lock does *)

Lemma effective_capacity_pos caps : 1 <= effective_capacity caps.
Proof.
  unfold effective_capacity, min_positive. simpl.
  destruct (max_monitored_items_per_subscription caps) as [z|]; simpl; [|done].
  destruct (Z.ltb_spec 0 z); simpl; [lia|done].
Qed.

Lemma commit_bin_node_ok oid nid bin_id handle s :
  bins_ok s -> caps_allow (max_monitored_items bound) (total_monitored s + 1) = true ->
  (forall b, sv_bins s !! bin_id = Some b -> bin_size b < mb_capacity b) ->
  bins_ok (commit_bin_node oid nid bin_id handle s).1.
Proof.
  intros Hok Htot Hroom. unfold commit_bin_node. destruct (is_live oid nid s); [|done].
  destruct (sv_bins s !! bin_id) as [b|] eqn:E; [|done]. specialize (Hroom b eq_refl).
  destruct (bo_bin s Hok bin_id b E) as (Hid & Hwf & Hsz & Hcap).
  set (b' := set_handles (<[nid := handle]> (mb_node_handles b)) b).
  assert (bins_ok (set_bins (<[bin_id := b']> (sv_bins s)) s)) as Hok'; last first.
  { simpl. destruct (sv_monitor_heap s !! oid); [|done]. by eapply same_bins_ok; [|exact Hok']. }
  assert (bin_size b <= bin_size b' <= bin_size b + 1) as Hsz'.
  { unfold bin_size; simpl. rewrite dict_len_insert. case_bool_decide; lia. }
  assert (dict_len (<[bin_id := b']> (sv_bins s)) = dict_len (sv_bins s)) as Hlen.
  { rewrite dict_len_insert, bool_decide_true; [done|]. apply elem_of_dict_keys. eauto. }
  pose proof Hok as [Hd Hbin Ht Hc Hs]. split; simpl; rewrite ?Hlen; [by apply dict_wf_insert| | |done|done].
  - intros id b1. rewrite dict_lookup_insert. case_bool_decide; [|apply Hbin]. intros [= <-]. subst id.
    split_and!; [done|by apply dict_wf_insert|lia|simpl; lia|done].
  - eapply caps_allow_mono; [|exact Htot]. rewrite !total_monitored_sum; simpl. rewrite sum_sizes_insert.
    assert (items_lookup bin_id (dict_items (sv_bins s)) = Some b) as -> by exact E. simpl. lia.
Qed.

Lemma commit_new_bin_ok caps oid nid bin_id ua handle s :
  caps_ok caps -> caps_within caps ->
  bins_ok s -> can_open_new_bin caps s = true ->
  bins_ok (commit_new_bin cfg oid nid bin_id ua (effective_capacity caps) handle s).1.
Proof.
  intros Hcaps Hw Hok Hopen. apply andb_true_iff in Hopen as [[Ho1 Ho2]%andb_true_iff Ho3].
  apply Hw in Ho1. apply Hw in Ho2. apply Hw in Ho3.
  unfold commit_new_bin. destruct (is_live oid nid s); [|done].
  set (b := Build_ManagedBin _ _ _ _ _).
  assert (bins_ok (set_bins (<[bin_id := b]> (sv_bins s)) s)) as Hok'; last first.
  { simpl. destruct (sv_monitor_heap s !! oid); [|done]. by eapply same_bins_ok; [|exact Hok']. }
  pose proof Hok as [Hd Hbin Ht Hc Hs].
  assert (dict_len (<[bin_id := b]> (sv_bins s)) <= S (dict_len (sv_bins s)))%nat as Hlen by apply dict_len_insert_le.
  split; simpl; [by apply dict_wf_insert| | |eapply caps_allow_mono; [|exact Ho1]; lia
                                             |eapply caps_allow_mono; [|exact Ho2]; lia].
  - intros id b1. rewrite dict_lookup_insert. case_bool_decide; [|apply Hbin]. intros [= <-]. subst id.
    pose proof (effective_capacity_pos caps). split_and!; [done|apply dict_wf_insert, dict_wf_empty|done|done|by exists caps].
  - eapply caps_allow_mono; [|exact Ho3]. rewrite !total_monitored_sum; simpl. rewrite sum_sizes_insert.
    assert (bin_size b = 1) as -> by done.
    assert (0 <= size_at (items_lookup bin_id (dict_items (sv_bins s)))).
    { destruct (items_lookup _ _) as [b0|]; simpl; [apply bin_size_nonneg|lia]. }
    lia.
Qed.

(** ** Every operation *)

Lemma calm_same {X} (f : service -> service * X) : (forall s, sv_bins (f s).1 = sv_bins s) -> calm_section f.
Proof. intros Hf s Hok. by apply same_bins_ok. Qed.

Lemma calm_same_update (f : service (V := V) -> service) :
  (forall s, sv_bins (f s) = sv_bins s) -> forall s, bins_ok s -> bins_ok (f s) /\ quiet s (f s).
Proof. intros Hf s Hok. by apply same_bins_ok. Qed.

Lemma sv_bins_update_sub sid f s : sv_bins (update_sub sid f s) = sv_bins s.
Proof. unfold update_sub. by destruct (sv_subscriptions s !! sid). Qed.

Lemma sv_bins_update_object sid f s : sv_bins (update_object sid f s) = sv_bins s.
Proof. unfold update_object. by destruct (sv_subscriptions s !! sid). Qed.

Lemma sv_bins_start_polling oid nid s : sv_bins (start_polling oid nid s) = sv_bins s.
Proof. unfold start_polling. by repeat case_match. Qed.

Lemma sv_bins_reset_monitor oid s : sv_bins (reset_monitor oid s).1 = sv_bins s.
Proof. unfold reset_monitor. by case_match. Qed.

Lemma sv_bins_add_subscriber nid sid s : sv_bins (add_subscriber nid sid s).1 = sv_bins s.
Proof. unfold add_subscriber. by repeat case_match. Qed.

Lemma sv_bins_drop_subscriber nid sid s : sv_bins (drop_subscriber nid sid s).1 = sv_bins s.
Proof. unfold drop_subscriber. by repeat (case_match; simpl). Qed.

Lemma sv_bins_detach sid s : sv_bins (detach sid s) = sv_bins s.
Proof. unfold detach. by case_match. Qed.

Lemma sv_bins_delete_block client ids s : sv_bins (delete_block client ids s).1 = sv_bins s.
Proof.
  unfold delete_block.
  assert (forall acc, sv_bins (V := V) (fold_left (delete_one client) ids acc).1.1 = sv_bins acc.1.1) as Hfold.
  { induction ids as [|sid ids IH]; intros [[s1 results] removed]; [done|]. cbn [fold_left]. rewrite IH. simpl.
    destruct (find_sub client sid s1); [apply sv_bins_detach|done]. }
  specialize (Hfold (s, [], [])). by destruct (fold_left _ _ _) as [[] ].
Qed.

Lemma sv_bins_expire_block s : sv_bins (expire_block cfg s).1 = sv_bins s.
Proof.
  unfold expire_block. generalize (map subscription_id (List.filter (is_stale cfg (sv_now s)) (dict_values (sv_subscriptions s)))) as ids.
  intros ids.
  assert (forall acc : service * list string, sv_bins (V := V) (fold_left (fun '(s, removed) sid => match sv_subscriptions s !! sid with
     | None => (s, removed) | Some _ => (detach sid s, removed ++ [sid]) end) ids acc).1 = sv_bins acc.1) as Hfold;
    [|by apply (Hfold (s, []))].
  induction ids as [|sid ids IH]; intros [s1 removed]; [done|]. cbn [fold_left]. rewrite IH.
  destruct (sv_subscriptions s1 !! sid); [apply sv_bins_detach|done].
Qed.

Lemma sv_bins_change_block client sid model edit s : sv_bins (change_block client sid model edit s).1 = sv_bins s.
Proof.
  unfold change_block. destruct (find_sub client sid s); [|done].
  destruct (resolve_monitored_node_ids _ _) as [[]|]; apply sv_bins_update_sub.
Qed.

Lemma sv_bins_blocks_sub s (st : option (SubscriptionState V)) {X} (f : SubscriptionState V -> service (V := V) * X) x :
  (forall st, sv_bins (f st).1 = sv_bins s) -> sv_bins (match st with Some st => f st | None => (s, x) end).1 = sv_bins s.
Proof. intros Hf. by destruct st. Qed.

Create HintDb bins.
Hint Resolve sv_bins_update_sub sv_bins_update_object sv_bins_start_polling sv_bins_reset_monitor
  sv_bins_add_subscriber sv_bins_drop_subscriber sv_bins_detach sv_bins_delete_block sv_bins_expire_block
  sv_bins_change_block : bins.

(** Splits a program into its sections; those that leave the bins alone are closed. *)
Ltac same_bins :=
  first [ by apply calm_same; intros ?; simpl; auto with bins
        | by apply calm_same_update; intros ?; simpl; auto with bins ].
Ltac walk :=
  repeat first
    [ apply calm_ret
    | apply calm_call_bind; intros ? ?
    | apply calm_update_bind; [try same_bins|intros ?]
    | apply calm_sect_bind; [try same_bins|intros ?]
    | apply calm_update; try same_bins
    | apply calm_sect; try same_bins
    | apply calm_pfor; intros ?
    | apply calm_efor; intros ? ].

Lemma calm_handle_datachange sid nid v h : calm (handle_datachange cfg sid nid v h).
Proof. unfold handle_datachange. walk. Qed.

Lemma calm_fanout nid v : calm (fanout_node_value cfg nid v).
Proof. unfold fanout_node_value. walk. Qed.

Lemma calm_refresh sid : calm (refresh_changed_values cfg sid).
Proof. unfold refresh_changed_values. walk. case_match; walk. case_match; walk. Qed.

Lemma calm_stop_runtime oid nid : calm (stop_node_monitor_runtime oid nid).
Proof.
  apply calm_sect_bind; [apply calm_same; apply sv_bins_reset_monitor|]. intros [bin_id|]; [|walk].
  apply calm_sect_bind; [apply leave_bin_ok|]. intros [[[b [handle|]] []]|]; walk.
Qed.

(** ** Under the lock *)

Lemma safe_subscribe {A} h P ua nid (g : option Z -> prog (exc A)) Φ :
  (forall handle, safe h P (g handle) Φ) -> Φ h P Raise -> safe h P (ebind (subscribe_single_node ua nid) g) Φ.
Proof. intros Hg Hr [[l|o]|] _; simpl; [apply Hg|apply Hg|done]. Qed.

Lemma safe_commit {X A} P (f : service -> service * X) (k : X -> prog A) Φ :
  (forall s, bins_ok s -> P s -> bins_ok (f s).1) -> (forall x, safe true (fun _ => True) (k x) Φ) ->
  safe true P (Sect f k) Φ.
Proof.
  intros Hf Hk. apply safe_sect with (Q := fun _ _ => True); [|by intros; apply stable_true|done].
  intros s s' x Hok HP E. specialize (Hf s Hok HP). rewrite E in Hf. done.
Qed.

Lemma can_open_quiet caps s s' : quiet s s' -> can_open_new_bin caps s = true -> can_open_new_bin caps s' = true.
Proof.
  intros (_ & Htq & Hlq) [[Ho1 Ho2]%andb_true_iff Ho3]%andb_true_iff.
  apply andb_true_iff. split; [apply andb_true_iff; split|];
    [eapply caps_allow_mono; [|exact Ho1]|eapply caps_allow_mono; [|exact Ho2]|eapply caps_allow_mono; [|exact Ho3]]; lia.
Qed.

Lemma safe_acquire_slot caps oid nid :
  caps_ok caps -> caps_within caps -> calm (acquire_native_bin_slot cfg oid nid caps).
Proof.
  intros Hcaps Hw. apply calm_with_lock.
  apply safe_sect with (Q := fun slot s =>
    match slot with
    | SlotIn bin_id _ => caps_allow (max_monitored_items bound) (total_monitored s + 1) = true /\
                         forall b, sv_bins s !! bin_id = Some b -> bin_size b < mb_capacity b
    | _ => True
    end).
  - intros s s' x Hok _ E. injection E as <- <-. split_and!; [done|done|]. unfold find_slot.
    destruct (caps_allow _ _) eqn:Et; [|done]. destruct (List.find _ _) as [b0|] eqn:Ef; [|done]. split; [by apply Hw|].
    apply List.find_some in Ef as [Hin Hroom]. apply list_elem_of_In in Hin.
    apply elem_of_dict_values in Hin as [id Hid]; [|apply (bo_wf s Hok)].
    destruct (bo_bin s Hok id b0 Hid) as (-> & _). rewrite Hid. intros b [= <-]. by apply Z.ltb_lt in Hroom.
  - intros [|bin_id ua|]; try done. intros s s' _ _ [Ht Hroom] Hq. destruct (Hq eq_refl) as (Hb & Htq & _). split.
    + eapply caps_allow_mono; [|done]. lia.
    + intros b' Hb'. destruct (Hb bin_id b' Hb') as (b & Hb0 & ? & ?). specialize (Hroom b Hb0). lia.
  - intros [|bin_id ua|]; [done| |].
    + apply safe_subscribe; [|done]. intros [handle|]; [|done].
      apply safe_commit; [|by intros []; [|intros ? _]].
      intros s Hok [Ht Hroom]. by apply commit_bin_node_ok.
    + apply safe_sect with (Q := fun ok s => (ok : bool) = true -> can_open_new_bin caps s = true).
      * intros s s' x Hok _ E. by injection E as <- <-.
      * intros ok s s' _ _ Hopen Hq Hok. apply (can_open_quiet caps s); [by apply Hq|auto].
      * intros []; [|done]. apply safe_sect with (Q := fun _ s => can_open_new_bin caps s = true).
        -- intros s s' x Hok Hopen E. injection E as <- <-. split_and!; [done|done|by apply Hopen].
        -- intros x s s' _ _ Hopen Hq. by apply (can_open_quiet caps s); [apply Hq|].
        -- intros used uuid _ [ua|] _; [|done]. apply safe_subscribe; [|done]. intros [handle|]; [|by intros ? _].
           apply safe_commit; [|by intros []; [|intros [] _]]. intros s Hok Hopen. by apply (commit_new_bin_ok caps).
Qed.

(** ** Operations *)

Context (answers_within : forall caps, caps_ok caps -> caps_within caps).

Lemma calm_start_runtime oid nid : calm (start_node_monitor_runtime cfg oid nid).
Proof.
  apply calm_sect_bind; [by apply calm_same|]. intros []; [walk|].
  apply calm_call_bind. intros r (caps & -> & Hcaps). apply calm_bind; [by apply safe_acquire_slot; [|apply answers_within]|].
  intros [[]|]; walk.
Qed.

Lemma calm_release nid sid : calm (release_node_monitor nid sid).
Proof.
  apply calm_sect_bind; [apply calm_same; apply sv_bins_drop_subscriber|].
  intros [oid|]; [apply calm_stop_runtime|apply calm_ret].
Qed.

Lemma calm_acquire nid sid : calm (acquire_node_monitor cfg nid sid).
Proof.
  apply calm_sect_bind; [apply calm_same; apply sv_bins_add_subscriber|].
  intros [oid|]; [apply calm_start_runtime|apply calm_ret].
Qed.

Lemma calm_update_mode sid : calm (update_subscription_mode sid).
Proof. apply calm_update, calm_same_update. intros s. apply sv_bins_update_sub. Qed.

Lemma calm_release_all sid : calm (release_all_nodes sid).
Proof.
  apply calm_sect_bind; [by apply calm_same|]. intros nodes. apply calm_call_bind. intros order _.
  apply calm_bind; [apply calm_pfor; intros; apply calm_release|]. intros _.
  apply calm_update, calm_same_update. intros s. apply sv_bins_update_object.
Qed.

Lemma calm_apply_diff sid previous new : calm (apply_monitored_node_diff cfg sid previous new).
Proof.
  apply calm_call_bind. intros removed _. apply calm_bind; [apply calm_pfor; intros; apply calm_release|]. intros _.
  apply calm_call_bind. intros added _. apply calm_ebind; [apply calm_efor; intros; apply calm_acquire|]. intros _.
  apply calm_bind; [apply calm_update_mode|]. intros _. apply calm_bind; [|intros; apply calm_ret].
  unfold seed_initial_updates. case_match; [apply calm_refresh|apply calm_ret].
Qed.

Lemma calm_change client sid model edit : calm (change_items cfg client sid model edit).
Proof.
  apply calm_sect_bind; [apply calm_same; intros s; apply sv_bins_change_block|].
  intros [| |previous new]; [apply calm_ret|apply calm_ret|]. apply calm_bind; [apply calm_apply_diff|intros; apply calm_ret].
Qed.

Lemma calm_readmit nid : calm (readmit cfg nid).
Proof. apply calm_sect_bind; [by apply calm_same|]. intros [oid|]; [apply calm_start_runtime|apply calm_ret]. Qed.

Lemma calm_reconnect : calm (handle_client_reconnect cfg).
Proof.
  apply calm_call_bind. intros restored Hr.
  apply calm_sect_bind; [by apply resync_block_ok|]. intros [dead lost].
  apply calm_bind; [apply calm_pfor; intros b; apply calm_call_bind; intros; apply calm_ret|]. intros _.
  apply calm_ebind; [apply calm_efor; intros; apply calm_readmit|]. intros _.
  apply calm_sect_bind; [by apply calm_same|]. intros ids.
  apply calm_bind; [apply calm_pfor; intros; apply calm_update_mode|intros; apply calm_ret].
Qed.

Lemma calm_sync client sid ack allow : calm (sync cfg client sid ack allow).
Proof.
  apply calm_sect_bind.
  - apply calm_same. intros s. unfold sync_block. repeat (case_match; simpl); auto with bins.
  - intros [| |refresh]; [apply calm_ret|apply calm_ret|].
    apply calm_bind; [destruct refresh; [apply calm_refresh|apply calm_ret]|]. intros _.
    apply calm_sect, calm_same. intros s. unfold collect_block. case_match; simpl; auto with bins.
Qed.

Lemma sv_bins_read_block reset client sid after s : sv_bins (read_block reset client sid after s).1 = sv_bins s.
Proof. unfold read_block. case_match; simpl; auto with bins. Qed.
Hint Resolve sv_bins_read_block : bins.

Lemma calm_read_block reset client sid after : calm (sect (read_block (V := V) reset client sid after)).
Proof. apply calm_sect, calm_same. intros s. apply sv_bins_read_block. Qed.

Lemma calm_wait client sid after timeout : calm (wait_for_updates cfg client sid after timeout).
Proof.
  apply calm_sect_bind.
  { apply calm_same. intros s. unfold wait_block. repeat (case_match; simpl); auto with bins. }
  intros [|us|refresh threshold]; [apply calm_ret|apply calm_ret|]. apply calm_call_bind. intros woken _.
  apply calm_sect_bind; [by apply calm_same|]. intros []; [apply calm_ret|]. destruct woken; [apply calm_read_block|].
  apply calm_sect_bind.
  { apply calm_same. intros s. unfold timeout_block. repeat (case_match; simpl); auto with bins. }
  intros [[]|]; [|apply calm_read_block|apply calm_ret]. apply calm_sect_bind.
  { apply calm_same. intros s. unfold reset_timeouts_block. repeat (case_match; simpl); auto with bins. }
  intros []; [|apply calm_ret]. apply calm_bind; [apply calm_refresh|intros _; apply calm_read_block].
Qed.

Lemma calm_close : calm (close (V := V)).
Proof.
  apply calm_update_bind; [by apply calm_same_update|]. intros _. apply calm_sect_bind; [by apply calm_same|]. intros ids.
  apply calm_bind; [|intros _; by apply calm_update, calm_same_update]. apply calm_pfor. intros sid.
  apply calm_update_bind; [apply calm_same_update; intros s; apply sv_bins_update_object|]. intros _. apply calm_release_all.
Qed.

Lemma calm_polling_round : calm (polling_round cfg).
Proof.
  apply calm_sect_bind; [by apply calm_same|]. intros [|nid l]; [apply calm_ret|]. apply calm_call_bind.
  intros [values|] _; [|apply calm_ret]. apply calm_pfor. intros. apply calm_fanout.
Qed.

Lemma calm_rounds : calm (datachange_round cfg) /\ calm (node_datachange_round cfg).
Proof.
  split; (apply calm_sect_bind; [apply calm_same; intros s; by case_match|]).
  - intros [[[[sid nid] v] h]|]; [apply calm_handle_datachange|apply calm_ret].
  - intros [[nid v]|]; [apply calm_fanout|apply calm_ret].
Qed.

Lemma calm_delete client ids : calm (delete_subscriptions client ids).
Proof.
  apply calm_sect_bind; [apply calm_same; intros s; apply sv_bins_delete_block|]. intros [results removed].
  apply calm_bind; [apply calm_pfor; intros; apply calm_release_all|intros; apply calm_ret].
Qed.

Lemma calm_forget {A} (p : prog A) : calm p -> calm (forget p).
Proof. intros Hp. apply calm_bind; [done|intros; apply calm_ret]. Qed.

Lemma calm_exec o : calm (exec cfg o).
Proof.
  destruct o; cbn [exec]; try apply calm_forget.
  - apply calm_sect_bind; [by apply calm_same|]. intros used. apply calm_call_bind. intros uuid _.
    by apply calm_sect, calm_same.
  - apply calm_delete.
  - apply calm_change.
  - apply calm_change.
  - apply calm_sync.
  - apply calm_sect, calm_same. intros s. unfold activate_stream. case_match; simpl; auto with bins.
  - apply calm_update, calm_same_update. intros s. apply sv_bins_update_sub.
  - apply calm_wait.
  - apply calm_sect_bind; [apply calm_same; intros s; apply sv_bins_expire_block|]. intros removed.
    apply calm_pfor. intros. apply calm_release_all.
  - apply calm_reconnect.
  - apply calm_polling_round.
  - apply calm_rounds.
  - apply calm_rounds.
  - apply calm_update, calm_same_update. intros s. unfold enqueue_datachange. by destruct (enqueue_bounded _ _ _ _).
  - apply calm_update, calm_same_update. intros s. unfold enqueue_node_datachange. by destruct (enqueue_bounded _ _ _ _).
  - by apply calm_update, calm_same_update.
  - apply calm_close.
Qed.

Lemma new_service_bins_ok now utc :
  caps_allow (max_monitored_items bound) 0 = true -> caps_allow (max_subscriptions bound) 0 = true ->
  caps_allow (max_subscriptions_per_session bound) 0 = true -> bins_ok (new_service now utc).
Proof. intros. split; try done. apply dict_wf_empty. Qed.

(** C4. Under every interleaving of any operations, reconnections included, the bins keep to the
    limits the server advertised: their monitored items and their number stay within every
    bound that covers each answer of the server in that run ([caps_within]; with one answer
    throughout, the advertised limits themselves), and every bin holds at least one item and at
    most the number per subscription of one of the answers. *)
Theorem admission_limits now utc pl :
  caps_allow (max_monitored_items bound) 0 = true -> caps_allow (max_subscriptions bound) 0 = true ->
  caps_allow (max_subscriptions_per_session bound) 0 = true ->
  pool_steps (ua_resp_ok caps_ok) clock_tick (is_operation cfg) (Pool (new_service now utc) None []) pl ->
  let s := pl_state pl in
  caps_allow (max_monitored_items bound) (total_monitored s) = true /\
  caps_allow (max_subscriptions bound) (Z.of_nat (dict_len (sv_bins s))) = true /\
  caps_allow (max_subscriptions_per_session bound) (Z.of_nat (dict_len (sv_bins s))) = true /\
  forall id b, sv_bins s !! id = Some b ->
    exists caps, caps_ok caps /\ 1 <= bin_size b <= effective_capacity caps.
Proof.
  intros H1 H2 H3 Hsteps.
  assert (bins_ok (pl_state pl)) as [_ Hbin ? ? ?].
  { assert (forall p : prog unit, is_operation cfg p ->
              safe_task (ua_resp_ok (V := V) caps_ok) bins_ok quiet p) as Hentry.
    { intros p [o ->]. apply calm_exec. }
    assert (forall s s', clock_tick s s' -> bins_ok s -> bins_ok s' /\ quiet s s') as Htick.
    { intros s s' (now' & utc' & _ & ->) Hok. by apply same_bins_ok. }
    exact (pool_steps_inv _ _ _ _ _ Hentry quiet_refl Htick _ _ (new_service_bins_ok now utc H1 H2 H3) Hsteps). }
  split_and!; try done. intros id b Hb. destruct (Hbin id b Hb) as (_ & _ & ? & caps & Hcaps & E). exists caps. by rewrite <-E.
Qed.
End Admission.

(** A server that advertises room for one item before a reconnection and for three after it. *)
Definition few_caps : OpcUaSubscriptionCapabilities :=
  {| max_monitored_items_per_call := None; max_subscriptions := Some 1; max_monitored_items := Some 1;
     max_subscriptions_per_session := None; max_monitored_items_per_subscription := Some 1 |}.

Definition renewed_caps (caps : OpcUaSubscriptionCapabilities) : Prop := caps = few_caps \/ caps = demo_caps.

Definition renewed_env (R : Type) (c : ua_call (V := pyval) R) (w : Z) (s : service (V := pyval)) :
    Z * service (V := pyval) * R :=
  match c in ua_call R return Z * service (V := pyval) * R with
  | GetCapabilities => (w, s, Val (if w <? 10 then few_caps else demo_caps))
  | RestoredHandles => (10, s, fun _ _ => None)
  | c => demo_env _ c w s
  end.

Lemma renewed_env_ok : env_ok (ua_resp_ok renewed_caps) clock_tick renewed_env.
Proof.
  intros R c w s. pose proof (demo_env_ok R c w s) as Hd. destruct c; try exact Hd.
  - split; [|exact (proj2 Hd)]. unfold renewed_caps. simpl. eexists. split; [reflexivity|]. destruct (w <? 10); auto.
Qed.

Definition renewal_operations : list (operation (V := pyval)) :=
  [OpCreate None None; OpRegister None "sub-u" ["m"] 0 demo_model; OpReconnect].

Definition renewal_end : pool (service (V := pyval)) (ua_call (V := pyval)) :=
  (run_schedule renewed_env (replicate 20 0%nat ++ replicate 80 1%nat ++ replicate 80 2%nat)
     (1, Pool (new_service 0 "t0") None (map (exec demo_config) renewal_operations))).2.

Lemma renewal_end_reachable :
  pool_steps (ua_resp_ok renewed_caps) clock_tick (is_operation demo_config) (Pool (new_service 0 "t0") None []) renewal_end.
Proof.
  etrans; [apply (spawn_operations demo_config renewed_caps renewal_operations)|].
  apply run_schedule_steps, renewed_env_ok.
Qed.
Lemma renewed_caps_within caps : renewed_caps caps -> caps_within demo_caps caps.
Proof.
  intros [-> | ->] n; split_and!; try done; simpl; rewrite !Z.leb_le; lia.
Qed.

Lemma admission_limits_witness :
  pool_steps (ua_resp_ok renewed_caps) clock_tick (is_operation demo_config) (Pool (new_service 0 "t0") None []) renewal_end /\
  map (fun p => (p.1, bin_size p.2, mb_capacity p.2)) (dict_items (sv_bins (pl_state renewal_end))) = [("bin-u", 1, 2)] /\
  caps_allow (max_monitored_items demo_caps) (total_monitored (pl_state renewal_end)) = true /\
  forall id b, sv_bins (pl_state renewal_end) !! id = Some b ->
    exists caps, renewed_caps caps /\ 1 <= bin_size b <= effective_capacity caps.
Proof.
  split; [exact renewal_end_reachable|]. split; [vm_compute; reflexivity|].
  destruct (admission_limits demo_config renewed_caps demo_caps renewed_caps_within 0 "t0" renewal_end
              eq_refl eq_refl eq_refl renewal_end_reachable) as (Htot & _ & _ & Hbins).
  exact (conj Htot Hbins).
Defined.
End SubAdmission.
