(* ===== verification/SubBehaviour.v ===== *)
(** The functional behaviour of the subscription service, operation by operation: deletion,
    expiry, delivery, synchronisation, streams and the refresh interval. *)

From S2P Require Export SubPool.

Module SubBehaviour.
Import SubQueue SubResolve SubRuntime SubRegistry SubPool.

Section Behaviour.
Context {V : Type} `{PyValue V}.
Implicit Types (s : service (V := V)) (st : SubscriptionState V).
Context (cfg : config).

(** ** Deletion *)

(** The reference answer: an id is deleted the first time it is named, if the caller owns it. *)
Fixpoint deletion_spec (owned : string -> bool) (seen : list string) (ids : list string) : list delete_result :=
  match ids with
  | [] => []
  | id :: ids' =>
      let ok := (owned id && negb (bool_decide (id ∈ seen)))%bool in
      {| dr_success := ok; dr_subscription_id := id |} ::
      deletion_spec owned (if ok then seen ++ [id] else seen) ids'
  end.

Definition owns (client : option string) s (sid : string) : bool := bool_decide (is_Some (find_sub client sid s)).

Lemma sv_subscriptions_detach sid s :
  is_Some (sv_subscriptions s !! sid) -> sv_subscriptions (detach sid s) = delete sid (sv_subscriptions s).
Proof. unfold detach. by intros [st ->]. Qed.

Lemma find_sub_removed client (removed : list string) s s' sid :
  (forall x, sv_subscriptions s' !! x = if bool_decide (x ∈ removed) then None else sv_subscriptions s !! x) ->
  find_sub client sid s' = if bool_decide (sid ∈ removed) then None else find_sub client sid s.
Proof. intros Hsame. unfold find_sub. rewrite Hsame. by case_bool_decide. Qed.

Lemma delete_one_spec client id s acc :
  (forall x, sv_subscriptions acc.1.1 !! x = if bool_decide (x ∈ acc.2) then None else sv_subscriptions s !! x) ->
  let ok := (owns client s id && negb (bool_decide (id ∈ acc.2)))%bool in
  let acc' := delete_one client acc id in
  acc'.1.2 = acc.1.2 ++ [{| dr_success := ok; dr_subscription_id := id |}] /\
  acc'.2 = (if ok then acc.2 ++ [id] else acc.2) /\
  (forall x, sv_subscriptions acc'.1.1 !! x = if bool_decide (x ∈ acc'.2) then None else sv_subscriptions s !! x).
Proof.
  destruct acc as [[s1 results] removed]. cbn [fst snd]. intros Hsame.
  pose proof (find_sub_removed client removed s s1 id Hsame) as Hf. unfold delete_one. rewrite Hf. unfold owns.
  destruct (decide (id ∈ removed)) as [Hin|Hni].
  { rewrite !(bool_decide_true (id ∈ removed)) by done. by rewrite andb_false_r. }
  rewrite !(bool_decide_false (id ∈ removed)) by done. rewrite andb_true_r.
  destruct (find_sub client id s) as [st|] eqn:E; [|done]. rewrite bool_decide_true by eauto. cbn [fst snd].
  split_and!; [done|done|]. intros y.
  assert (is_Some (sv_subscriptions s1 !! id)) as Hid.
  { rewrite Hsame, bool_decide_false by done. apply find_sub_Some in E. eauto. }
  rewrite sv_subscriptions_detach, dict_lookup_delete, Hsame by done.
  destruct (decide (id = y)) as [->|Hne].
  - rewrite (bool_decide_true (y = y)), bool_decide_true; [done| |done]. apply elem_of_app; right; constructor.
  - rewrite (bool_decide_false (id = y)) by done.
    replace (bool_decide (y ∈ removed ++ [id])) with (bool_decide (y ∈ removed)); [done|].
    apply bool_decide_ext. rewrite elem_of_app, list_elem_of_singleton. naive_solver.
Qed.

Lemma delete_fold_spec client ids s acc :
  (forall x, sv_subscriptions acc.1.1 !! x = if bool_decide (x ∈ acc.2) then None else sv_subscriptions s !! x) ->
  let acc' := fold_left (delete_one client) ids acc in
  acc'.1.2 = acc.1.2 ++ deletion_spec (owns client s) acc.2 ids /\
  (forall x, x ∈ acc'.2 <-> x ∈ acc.2 \/ (x ∈ ids /\ owns client s x = true)) /\
  (forall x, sv_subscriptions acc'.1.1 !! x = if bool_decide (x ∈ acc'.2) then None else sv_subscriptions s !! x).
Proof.
  revert acc. induction ids as [|id ids IH]; intros acc Hsame.
  { simpl. rewrite app_nil_r. split_and!; [done| |done]. intros x. rewrite elem_of_nil. naive_solver. }
  destruct (delete_one_spec client id s acc Hsame) as (Hres & Hrem & Hsame').
  destruct (IH (delete_one client acc id) Hsame') as (Ha & Hb & Hc). cbn zeta in *. split_and!; [| |exact Hc].
  - cbn [fold_left]. rewrite Ha, Hres, Hrem, <-app_assoc. cbn [deletion_spec app].
    by destruct (owns client s id), (bool_decide (id ∈ acc.2)).
  - intros x. cbn [fold_left]. rewrite Hb, Hrem, elem_of_cons. clear.
    destruct (owns client s id) eqn:Eo; simpl; [|intuition congruence].
    case_bool_decide; simpl; [intuition congruence|]. rewrite elem_of_app, list_elem_of_singleton. intuition congruence.
Qed.

(** [delete_subscriptions] answers for each id, in order, whether this occurrence removed a
    subscription the caller owns; it removes exactly those, and no other subscription is
    touched: a client never deletes another client's subscription. *)
Theorem delete_exact client ids s :
  let '(s', (results, removed)) := delete_block client ids s in
  results = deletion_spec (owns client s) [] ids /\
  (forall sid, sid ∈ removed <-> sid ∈ ids /\ owns client s sid = true) /\
  (forall sid, sv_subscriptions s' !! sid = if bool_decide (sid ∈ removed) then None else sv_subscriptions s !! sid).
Proof.
  unfold delete_block. pose proof (delete_fold_spec client ids s (s, [], [])) as Hspec. simpl in Hspec.
  destruct (fold_left _ _ _) as [[s' results] removed]. destruct Hspec as (Ha & Hb & Hc); [done|]. simpl in *.
  split_and!; [done| |done]. intros x. rewrite Hb. split; [intros [Hx|?]; [by apply elem_of_nil in Hx|done]|by right].
Qed.

(** ** Expiry *)

Lemma expire_fold_spec ids s acc :
  (forall x, sv_subscriptions acc.1 !! x = if bool_decide (x ∈ acc.2) then None else sv_subscriptions s !! x) ->
  let acc' := fold_left (fun '(s, removed) sid => match sv_subscriptions s !! sid with
     | None => (s, removed) | Some _ => (detach sid s, removed ++ [sid]) end) ids acc in
  forall x, sv_subscriptions acc'.1 !! x =
    if bool_decide (x ∈ acc.2 \/ x ∈ ids) then None else sv_subscriptions s !! x.
Proof.
  revert acc. induction ids as [|id ids IH]; intros [s1 removed] Hsame; cbn [fold_left fst snd] in *.
  { intros x. rewrite Hsame. repeat case_bool_decide; try done; set_solver. }
  destruct (sv_subscriptions s1 !! id) as [st|] eqn:E; cbn zeta; intros x.
  - rewrite (IH (detach id s1, removed ++ [id])).
    + simpl. repeat case_bool_decide; try done; set_solver.
    + simpl. intros y. rewrite sv_subscriptions_detach by eauto. rewrite dict_lookup_delete, Hsame.
      repeat case_bool_decide; try done; set_solver.
  - rewrite (IH (s1, removed)) by done. simpl. rewrite Hsame in E. destruct (decide (x = id)) as [->|].
    + repeat case_bool_decide; try done; set_solver.
    + repeat case_bool_decide; try done; set_solver.
Qed.

Lemma expire_block_spec s sid :
  subs_wf s ->
  sv_subscriptions (expire_block cfg s).1 !! sid =
    match sv_subscriptions s !! sid with
    | Some st => if is_stale cfg (sv_now s) st then None else Some st
    | None => None
    end.
Proof.
  intros [Hd Hi]. unfold expire_block. rewrite (expire_fold_spec _ s (s, [])) by done. simpl.
  set (stale := map subscription_id _).
  assert (sid ∈ stale <-> exists st, sv_subscriptions s !! sid = Some st /\ is_stale cfg (sv_now s) st = true) as Hst.
  { unfold stale. rewrite list_elem_of_In, in_map_iff. split.
    - intros (st & <- & Hin). apply List.filter_In in Hin as [Hin Hs]. apply list_elem_of_In in Hin.
      apply elem_of_dict_values in Hin as [k Hk]; [|done]. exists st. by rewrite (Hi k st Hk).
    - intros (st & Hk & Hs). exists st. split; [by apply Hi|]. apply List.filter_In. split; [|done].
      apply list_elem_of_In. by eapply dict_lookup_values. }
  destruct (sv_subscriptions s !! sid) as [st|] eqn:E.
  - destruct (is_stale cfg (sv_now s) st) eqn:Es.
    + rewrite bool_decide_true; [done|]. right. apply Hst. eauto.
    + rewrite bool_decide_false; [done|]. intros [Hx|Hx]; [by apply elem_of_nil in Hx|].
      apply Hst in Hx as (st' & ? & ?). congruence.
  - by case_bool_decide.
Qed.

(** Expiry removes exactly the subscriptions whose client has been silent for the TTL or
    longer, and leaves every other subscription as it is. *)
Theorem expire_exact s sid :
  subs_wf s ->
  sv_subscriptions (expire_block cfg s).1 !! sid =
    match sv_subscriptions s !! sid with
    | Some st => if is_stale cfg (sv_now s) st then None else Some st
    | None => None
    end.
Proof. apply expire_block_spec. Qed.

(** ** Who keeps a subscription alive *)

(** The activity of a subscription is as before, and no subscription appears. *)
Definition activity_kept s s' : Prop :=
  forall sid st', sv_subscriptions s' !! sid = Some st' ->
  exists st, sv_subscriptions s !! sid = Some st /\ last_activity_monotonic st' = last_activity_monotonic st.

Lemma activity_kept_refl s : activity_kept s s.
Proof. intros sid st. eauto. Qed.

Lemma activity_kept_trans s1 s2 s3 : activity_kept s1 s2 -> activity_kept s2 s3 -> activity_kept s1 s3.
Proof.
  intros Ha Hb sid st3 E3. destruct (Hb sid st3 E3) as (st2 & E2 & ?). destruct (Ha sid st2 E2) as (st1 & E1 & ?).
  exists st1. split; [done|congruence].
Qed.

Lemma activity_same_subs s s' : sv_subscriptions s' = sv_subscriptions s -> activity_kept s s'.
Proof. intros E sid st. rewrite E. eauto. Qed.

Lemma activity_update_sub sid f s :
  (forall st, last_activity_monotonic (f st) = last_activity_monotonic st) -> activity_kept s (update_sub sid f s).
Proof.
  intros Hf x st'. unfold update_sub. destruct (sv_subscriptions s !! sid) as [st|] eqn:E; [|eauto]. simpl.
  rewrite dict_lookup_insert. case_bool_decide; [|eauto]. subst. intros [= <-]. eauto.
Qed.

Lemma append_update_activity max ts nid v st :
  last_activity_monotonic (append_update max ts nid v st) = last_activity_monotonic st.
Proof. unfold append_update. case_goal; [done|]. destruct (max <=? _); [|done]. by destruct (updates st). Qed.

Context (caps_ok : OpcUaSubscriptionCapabilities -> Prop).
Abbreviation keeps := (keeps (ua_resp_ok (V := V) caps_ok) activity_kept).

Lemma keeps_handle_datachange_activity sid nid v h : keeps (handle_datachange cfg sid nid v h).
Proof.
  apply keeps_update. intros s. apply activity_update_sub. intros st. unfold deliver. case_goal; [|done].
  apply append_update_activity.
Qed.

Lemma keeps_fanout_activity nid v : keeps (fanout_node_value cfg nid v).
Proof.
  apply keeps_sect_bind; [intros s; apply activity_kept_refl|]. intros ids. apply keeps_call_bind. intros l _.
  apply keeps_pfor. intros. apply keeps_handle_datachange_activity.
Qed.

(** What the server sends: notifications and the answers of the polling loop. *)
Definition server_driven (o : operation (V := V)) : bool :=
  match o with
  | OpPoll | OpDatachangeRound | OpNodeDatachangeRound | OpNotify _ _ _ _ | OpNotifyNode _ _ => true
  | _ => false
  end.

Lemma keeps_server_driven o : server_driven o = true -> keeps (exec cfg o).
Proof.
  destruct o; try done; intros _; cbn [exec].
  - apply keeps_sect_bind; [intros s; apply activity_kept_refl|]. intros [|nid l]; [done|]. apply keeps_call_bind.
    intros [values|] _; [|done]. apply keeps_pfor. intros. apply keeps_fanout_activity.
  - apply keeps_sect_bind; [intros s; apply activity_same_subs; by case_match|].
    intros [[[[sid nid] v] h]|]; [apply keeps_handle_datachange_activity|done].
  - apply keeps_sect_bind; [intros s; apply activity_same_subs; by case_match|].
    intros [[nid v]|]; [apply keeps_fanout_activity|done].
  - apply keeps_update. intros s. apply activity_same_subs. unfold enqueue_datachange. by destruct (enqueue_bounded _ _ _ _).
  - apply keeps_update. intros s. apply activity_same_subs. unfold enqueue_node_datachange. by destruct (enqueue_bounded _ _ _ _).
Qed.

Definition is_server_operation (p : prog service (ua_call (V := V)) unit) : Prop :=
  exists o, server_driven o = true /\ p = exec cfg o.

(** Traffic from the server does not keep a subscription alive: after any interleaving of
    notifications, deliveries and polling rounds, a subscription whose client has been silent
    for the TTL is removed by the next expiry. *)
Theorem server_traffic_keeps_nothing_alive s pl sid st :
  subs_wf (pl_state pl) ->
  pool_steps (ua_resp_ok caps_ok) clock_tick is_server_operation (Pool s None []) pl ->
  sv_subscriptions s !! sid = Some st ->
  (inject_Z (ttl_seconds cfg) <= sv_now (pl_state pl) - last_activity_monotonic st)%Q ->
  sv_subscriptions (expire_block cfg (pl_state pl)).1 !! sid = None.
Proof.
  intros Hwf Hsteps Hst Hold. rewrite expire_block_spec by done.
  assert (activity_kept s (pl_state pl)) as Hact.
  { eapply (pool_steps_keeps (ua_resp_ok caps_ok) clock_tick is_server_operation activity_kept (Pool s None []));
      [apply activity_kept_refl|apply activity_kept_trans| | |constructor|exact Hsteps].
    - intros s1 s2 (now & utc & _ & ->). by apply activity_same_subs.
    - intros p (o & Ho & ->). by apply keeps_server_driven. }
  destruct (sv_subscriptions (pl_state pl) !! sid) as [st'|] eqn:E; [|done].
  destruct (Hact sid st' E) as (st0 & E0 & Hl). rewrite Hst in E0. injection E0 as <-.
  unfold is_stale. rewrite Hl. by rewrite (proj2 (Qle_bool_iff _ _) Hold).
Qed.

(** ** Delivery *)

Abbreviation wp := (wp (ua_resp_ok (V := V) caps_ok) clock_tick).

Definition delivered nid v st st' : Prop :=
  exists ts, st' = deliver (max_updates_per_subscription cfg) ts nid v None st.

(** A change of a node's value is delivered once to every subscription that monitors the
    node, and to no other subscription. *)
Theorem fanout_exact nid v s :
  wp (fanout_node_value cfg nid v) (fun _ s' =>
    forall sid, match sv_subscriptions s !! sid, sv_subscriptions s' !! sid with
           | Some st, Some st' => if bool_decide (sid ∈ subs_of nid s) then delivered nid v st st' else st' = st
           | None, None => True
           | _, _ => False
           end) s.
Proof.
  apply wp_sect_bind; cbn [fst snd]. apply wp_call_bind. intros order s1 [Hnd Horder] (now & utc & _ & ->).
  change (match live_monitor nid s with Some (_, m) => nm_subscriber_ids m | None => ∅ end) with (subs_of nid s) in Horder.
  eapply wp_mono; [|apply (wp_pfor _ _ _ _ (fun rest s' => NoDup rest /\ (forall x, x ∈ rest -> x ∈ subs_of nid s) /\
    forall sid, match sv_subscriptions s !! sid, sv_subscriptions s' !! sid with
           | Some st, Some st' => if bool_decide (sid ∈ subs_of nid s) then
               if bool_decide (sid ∈ rest) then st' = st else delivered nid v st st' else st' = st
           | None, None => True
           | _, _ => False
           end))].
  - intros _ s' (_ & _ & Hs) sid. specialize (Hs sid). by destruct (sv_subscriptions s !! sid), (sv_subscriptions s' !! sid).
  - intros sid rest s1 ([Hni Hnd1]%NoDup_cons & Hsub & Hs1). simpl. split_and!; [done|intros x Hx; apply Hsub; by constructor|].
    intros x. specialize (Hs1 x). unfold update_sub.
    destruct (sv_subscriptions s1 !! sid) as [st1|] eqn:E1.
    + simpl. rewrite dict_lookup_insert. destruct (decide (sid = x)) as [<-|Hne].
      * rewrite (bool_decide_true (sid = sid)) by done. rewrite E1 in Hs1.
        destruct (sv_subscriptions s !! sid) as [st|]; [|done].
        rewrite bool_decide_true in Hs1 |- * by (apply Hsub; constructor).
        rewrite bool_decide_true in Hs1 by constructor. subst st1. rewrite bool_decide_false by done. by eexists.
      * rewrite (bool_decide_false (sid = x)) by done.
        destruct (sv_subscriptions s !! x), (sv_subscriptions s1 !! x); try done. case_bool_decide; [|done].
        replace (bool_decide (x ∈ rest)) with (bool_decide (x ∈ sid :: rest)); [done|].
        apply bool_decide_ext. rewrite elem_of_cons. clear -Hne. naive_solver.
    + destruct (decide (sid = x)) as [<-|Hne].
      * rewrite E1 in Hs1 |- *. by destruct (sv_subscriptions s !! sid).
      * destruct (sv_subscriptions s !! x), (sv_subscriptions s1 !! x); try done. case_bool_decide; [|done].
        replace (bool_decide (x ∈ rest)) with (bool_decide (x ∈ sid :: rest)); [done|].
        apply bool_decide_ext. rewrite elem_of_cons. clear -Hne. naive_solver.
  - simpl. split_and!; [done|intros x; apply Horder|]. intros sid. destruct (sv_subscriptions s !! sid); [|done].
    case_bool_decide as Hin; [|done]. by rewrite bool_decide_true by (by apply Horder).
Qed.

(** ** Notification queues *)

Lemma enqueue_bounded_spec {A} size (x : A) q d :
  1 <= size -> Z.of_nat (length q) <= size ->
  enqueue_bounded size x q d =
    if Z.of_nat (length q) <? size then (q ++ [x], d) else (drop 1 q ++ [x], d + 1).
Proof.
  intros Hs Hq. unfold enqueue_bounded. destruct (Z.leb_spec size (Z.of_nat (length q))).
  - destruct q as [|y q]; simpl in *; [lia|]. rewrite (proj2 (Z.leb_gt _ _)) by lia.
    rewrite (proj2 (Z.ltb_ge _ _)) by lia. done.
  - rewrite (proj2 (Z.leb_gt _ _)) by lia. by rewrite (proj2 (Z.ltb_lt _ _)) by lia.
Qed.

(** However many notifications arrive before the loop runs, the queue holds exactly the
    latest ones, oldest first, as many as fit, and the counter says how many were dropped. *)
Theorem notification_queue_keeps_latest {A} (size : nat) (items : list A) :
  (1 <= size)%nat ->
  fold_left (fun qd x => enqueue_bounded (Z.of_nat size) x qd.1 qd.2) items ([], 0) =
    (drop (length items - size) items, Z.of_nat (length items - size)).
Proof.
  intros Hs. induction items as [|x items IH] using rev_ind; [done|].
  rewrite fold_left_app, IH. simpl. rewrite enqueue_bounded_spec by (rewrite ?length_drop; lia).
  rewrite length_drop, length_app. simpl. destruct (Z.ltb_spec (Z.of_nat (length items - (length items - size))) (Z.of_nat size)).
  - replace (length items + 1 - size)%nat with 0%nat by lia. replace (length items - size)%nat with 0%nat by lia. done.
  - rewrite drop_drop. replace (length items + 1 - size)%nat with (length items - size + 1)%nat by lia.
    rewrite drop_app_le by lia. f_equal. lia.
Qed.

(** ** Synchronisation and waiting *)

Lemma update_sub_lookup sid f s st :
  sv_subscriptions s !! sid = Some st -> sv_subscriptions (update_sub sid f s) !! sid = Some (f st).
Proof. intros E. unfold update_sub. rewrite E. simpl. apply dict_lookup_insert_eq. Qed.

Lemma find_sub_update client sid f s st :
  (forall st, client_id (f st) = client_id st) -> find_sub client sid s = Some st ->
  find_sub client sid (update_sub sid f s) = Some (f st).
Proof.
  intros Hf Hfind. pose proof (find_sub_Some _ _ _ _ Hfind) as E. unfold find_sub in *.
  rewrite (update_sub_lookup sid f s st E). rewrite E in Hfind. destruct client; [|done]. rewrite Hf.
  by case_bool_decide.
Qed.

Lemma acknowledge_client ack st : client_id (acknowledge ack st) = client_id st.
Proof. unfold acknowledge. by repeat case_goal. Qed.

(** A sync that acknowledges sequence number [a] returns the pending updates after [a], all
    of them and in order, keeps them pending, reports the dropped range if there is one, and
    forgets that range. *)
Theorem sync_acknowledged client sid a allow s st :
  find_sub client sid s = Some st -> 0 <= a <= sequence_number st ->
  stream_connected st = false \/ allow = true ->
  wp (sync cfg client sid (Some a) allow) (fun r s' =>
    r = Some {| sr_updates := updates_above a st;
                sr_queue_overflow := bool_decide (is_Some (dropped_from_sequence st));
                sr_dropped_from_sequence := dropped_from_sequence st;
                sr_dropped_to_sequence := dropped_to_sequence st;
                sr_stream_active := false |} /\
    exists st', sv_subscriptions s' !! sid = Some st' /\ updates st' = updates_above a st /\
           dropped_from_sequence st' = None /\ last_activity_monotonic st' = sv_now s') s.
Proof.
  intros Hfind Ha Hstream. apply wp_sect_bind. unfold sync_block at 1 2. rewrite Hfind.
  assert ((stream_connected st && negb allow)%bool = false) as -> by (destruct Hstream as [->| ->]; by rewrite ?andb_false_r).
  cbn [fst snd]. assert (should_refresh (Some a) (acknowledge (Some a) st) = false) as -> by done.
  set (f := fun st => touch (sv_now s) (acknowledge (Some a) st)).
  assert (find_sub client sid (update_sub sid f s) = Some (f st)) as Hf2.
  { apply find_sub_update; [|done]. intros st0. apply acknowledge_client. }
  pose proof (find_sub_Some _ _ _ _ Hf2) as E2. apply wp_sect. unfold collect_block. rewrite Hf2.
  assert (acknowledge (Some a) st = set_updates (updates_above a st) st) as Hack.
  { unfold acknowledge. rewrite (proj2 (Z.eqb_neq a (-1))) by lia.
    by rewrite (proj2 (Z.leb_le 0 a)), (proj2 (Z.leb_le a _)) by lia. }
  unfold f in *. rewrite Hack in *. split; [done|]. cbn [fst snd].
  eexists. split; [by apply update_sub_lookup|]. split_and!; [done|done|].
  unfold update_sub. by destruct (sv_subscriptions _ !! sid).
Qed.

(** What every branch of [wait_for_updates] may answer. *)
Definition only_later (after : Z) (r : option (list (SubscriptionUpdate V))) : Prop :=
  match r with Some us => forall u, u ∈ us -> after < su_sequence_number u | None => True end.

Lemma updates_above_later after st : only_later after (Some (updates_above after st)).
Proof. intros u Hu. apply list_elem_of_In, List.filter_In in Hu as [_ Hu]. by apply Z.ltb_lt. Qed.

Lemma wp_read_block reset client sid after s :
  wp (sect (read_block reset client sid after)) (fun r _ => only_later after r) s.
Proof.
  apply wp_sect. unfold read_block. destruct (find_sub client sid s); [|done]. apply updates_above_later.
Qed.

Lemma wp_true {A} (p : prog service (ua_call (V := V)) A) s : wp p (fun _ _ => True) s.
Proof.
  revert s. induction p as [a|X f k IH|R c k IH|k IH|k IH]; intros s; simpl; auto. by destruct (f s).
Qed.

(** A stream that waits for updates after a sequence number only ever gets later ones,
    whether they were there, arrived, or were read after the timeout. *)
Theorem wait_only_later client sid after timeout s :
  wp (wait_for_updates cfg client sid after timeout) (fun r _ => only_later after r) s.
Proof.
  apply wp_sect_bind. unfold wait_block at 1 2. destruct (find_sub client sid s) as [st|]; [|done].
  pose proof (updates_above_later after st) as Hready.
  destruct (updates_above after st) as [|u us] eqn:E; cbn [fst snd]; [|exact Hready].
  apply wp_call_bind. intros woken s1 _ _. apply wp_sect_bind; cbn [fst snd]. destruct (sv_shutdown s1); [done|].
  destruct woken; [apply wp_read_block|]. apply wp_sect_bind.
  destruct (timeout_block _ _ _ _ _ _) as [s2 [[]|]]; cbn [fst snd]; [|apply wp_read_block|done].
  apply wp_sect_bind. destruct (reset_timeouts_block _ _ _) as [s3 []]; cbn [fst snd]; [|done].
  apply wp_bind. eapply wp_mono; [|apply wp_true]. intros [] s4 _. apply wp_read_block.
Qed.

(** ** Streams *)

(** Activating a stream makes it the only active one: its generation is active, every other
    generation is not, and the end of an older stream does not disconnect it. *)
Theorem activate_supersedes client sid s s' generation :
  activate_stream client sid s = (s', Some generation) ->
  is_stream_active sid generation s' = true /\
  has_active_stream client sid s' = Some true /\
  forall g, g ≠ generation ->
    is_stream_active sid g s' = false /\ has_active_stream client sid (deactivate_stream sid g s') = Some true.
Proof.
  unfold activate_stream. destruct (find_sub client sid s) as [st|] eqn:E; [|done]. intros [= <- <-].
  assert (find_sub client sid (update_sub sid (activate (sv_now s)) s) = Some (activate (sv_now s) st)) as Hf
    by (by apply find_sub_update).
  pose proof (find_sub_Some _ _ _ _ Hf) as Hst. split_and!.
  - unfold is_stream_active. rewrite Hst. simpl. apply Z.eqb_refl.
  - unfold has_active_stream. by rewrite Hf.
  - intros g Hg. split.
    + unfold is_stream_active. rewrite Hst. simpl. by apply Z.eqb_neq.
    + unfold has_active_stream, deactivate_stream.
      erewrite find_sub_update; [| |exact Hf].
      * unfold deactivate. simpl. by rewrite (proj2 (Z.eqb_neq _ _)).
      * intros st0. unfold deactivate. by case_goal.
Qed.

(** ** The refresh interval *)

(** Whatever parameters the server revised, the interval for re-reading a silent bin is at
    least a tenth of a second and at most the configured maximum. *)
Theorem refresh_interval_bounds ua :
  (1 # 10 <= native_timeout_refresh_max_seconds cfg)%Q ->
  (1 # 10 <= compute_native_refresh_interval_seconds cfg ua <= native_timeout_refresh_max_seconds cfg)%Q.
Proof.
  intros Hmax. unfold compute_native_refresh_interval_seconds.
  assert (forall q, (1 # 10 <= Qmax (1 # 10) (Qmin (native_timeout_refresh_max_seconds cfg) q)
                     <= native_timeout_refresh_max_seconds cfg)%Q) as Hb.
  { intros q. split; [apply Q.le_max_l|]. apply Q.max_lub; [done|apply Q.le_min_l]. }
  destruct (extract_revised_subscription_parameters ua) as [[p|] [k|]]; apply Hb.
Qed.

(** ** The mode of a subscription after a registration *)

(** What the seeding after a registration leaves alone. *)
Definition mode_kept s s' : Prop :=
  sv_node_monitors s' = sv_node_monitors s /\ sv_monitor_heap s' = sv_monitor_heap s /\
  forall sid, (fun st => (mode st, native_refresh_interval_seconds st, monitored_node_ids st)) <$> sv_subscriptions s' !! sid =
         (fun st => (mode st, native_refresh_interval_seconds st, monitored_node_ids st)) <$> sv_subscriptions s !! sid.

Lemma mode_kept_trans s1 s2 s3 : mode_kept s1 s2 -> mode_kept s2 s3 -> mode_kept s1 s3.
Proof.
  intros (? & ? & Ha) (? & ? & Hb). split_and!; [congruence|congruence|]. intros sid. by rewrite Hb, Ha.
Qed.

Lemma append_update_mode max ts nid v st :
  (fun st => (mode st, native_refresh_interval_seconds st, monitored_node_ids st)) (append_update max ts nid v st) =
  (mode st, native_refresh_interval_seconds st, monitored_node_ids st).
Proof. unfold append_update. case_goal; [done|]. destruct (max <=? _); [|done]. by destruct (updates st). Qed.

Lemma keeps_seed_mode sid :
  Async.keeps (ua_resp_ok (V := V) caps_ok) mode_kept (seed_initial_updates cfg sid).
Proof.
  unfold seed_initial_updates. case_goal; [|done]. apply keeps_sect_bind; [done|]. intros [|nid l]; [done|].
  apply keeps_call_bind. intros [values|] _; [|done]. apply keeps_update. intros s. split_and!.
  - unfold update_sub. by case_match.
  - unfold update_sub. by case_match.
  - intros x. unfold update_sub. destruct (sv_subscriptions s !! sid) as [st|] eqn:E; [|done]. simpl.
    rewrite dict_lookup_insert. case_bool_decide; [subst|done]. rewrite E. simpl. apply (f_equal Some).
    change (match values with [] => [] | y :: tb => (nid, y) :: zip_with pair l tb end) with (zip (nid :: l) values).
    generalize (zip (nid :: l) values) as pairs. clear. intros pairs.
    assert (forall st, (fun st => (mode st, native_refresh_interval_seconds st, monitored_node_ids st))
       (fold_left (fun st p => if bool_decide (p.1 ∈ monitored_node_ids st) then append_to cfg p.1 p.2 s st else st) pairs st) =
       (mode st, native_refresh_interval_seconds st, monitored_node_ids st)) as Hfold; [|apply Hfold].
    induction pairs as [|[n v] pairs IH]; intros st0; cbn [fold_left]; [done|]. rewrite IH.
    case_bool_decide; [|done]. apply (append_update_mode (max_updates_per_subscription cfg) (sv_utc s) n v st0).
Qed.

(** When the reconciliation that ends a registration is done, the subscription's mode agrees
    with its monitors: idle without nodes, native with the shortest of their refresh intervals
    when every node is monitored natively, and polling otherwise. *)
Theorem reconciled_mode sid previous new s :
  wp (apply_monitored_node_diff cfg sid previous new) (fun r s' =>
    r = Val tt -> forall st, sv_subscriptions s' !! sid = Some st ->
      (mode st, native_refresh_interval_seconds st) = computed_mode s' st) s.
Proof.
  apply wp_call_bind. intros removed s1 _ _. apply wp_bind. eapply wp_mono; [|apply wp_true]. intros _ s2 _.
  apply wp_call_bind. intros added s3 _ _. apply wp_ebind. eapply wp_mono; [|apply wp_true]. intros [[]|] s4 _; [|done].
  apply wp_update_bind. apply wp_bind. eapply wp_mono; [|apply keeps_wp; [| | |apply keeps_seed_mode]]; last first.
  { intros s0 s5 (now & utc & _ & ->). done. }
  { apply mode_kept_trans. }
  { done. }
  intros _ s6 (Hm & Hh & Hsub) _ st Hst. specialize (Hsub sid). rewrite Hst in Hsub.
  assert (forall st1 st2, monitored_node_ids st1 = monitored_node_ids st2 -> computed_mode s6 st1 = computed_mode s4 st2) as Hc.
  { intros st1 st2 Hn. unfold computed_mode. rewrite Hn. unfold all_native, native_intervals, live_monitor.
    unfold update_sub in Hm, Hh. destruct (sv_subscriptions s4 !! sid); simpl in Hm, Hh; by rewrite Hm, Hh. }
  unfold update_sub in Hsub. destruct (sv_subscriptions s4 !! sid) as [st4|] eqn:E4; simpl in Hsub; [|by rewrite E4 in Hsub].
  rewrite dict_lookup_insert_eq in Hsub. simpl in Hsub. destruct (computed_mode s4 st4) as [m nri] eqn:Ec.
  injection Hsub as Hmode Hnri Hmon. rewrite (Hc st st4) by done. rewrite Ec. simpl in *. congruence.
Qed.
End Behaviour.

(** ** Examples *)

(** The service after the demonstration of [SubRegistry], and its subscription. *)
Definition demo_sub : SubscriptionState pyval :=
  default (new_subscription "?" None None 0%Q) (sv_subscriptions demo_final !! "sub-u").

Lemma demo_final_wf : subs_wf demo_final.
Proof.
  split.
  - apply (bool_decide_eq_true_1 (NoDup _)). vm_compute. reflexivity.
  - intros sid st Hst. apply dict_lookup_items in Hst. vm_compute in Hst.
    apply elem_of_cons in Hst as [Hst|Hst]; [|by apply elem_of_nil in Hst]. by injection Hst as -> ->.
Qed.

Lemma expire_exact_witness :
  subs_wf demo_final /\
  sv_subscriptions (expire_block demo_config demo_final).1 !! "sub-u" =
    match sv_subscriptions demo_final !! "sub-u" with
    | Some st => if is_stale demo_config (sv_now demo_final) st then None else Some st
    | None => None
    end.
Proof. split; [exact demo_final_wf|]. apply expire_exact. exact demo_final_wf. Defined.

(** The same service an hour later, with nothing but server traffic in between. *)
Definition demo_later : pool (service (V := pyval)) (ua_call (V := pyval)) :=
  Pool (set_clock 3600 "t1" demo_final) None [].

Lemma demo_later_wf : subs_wf (pl_state demo_later).
Proof. destruct demo_final_wf as [Hd Hi]. split; [exact Hd|exact Hi]. Qed.

Lemma demo_later_reachable :
  pool_steps (ua_resp_ok (eq demo_caps)) clock_tick (is_server_operation demo_config) (Pool demo_final None []) demo_later.
Proof.
  apply rtc_once, step_tick. exists 3600%Q, "t1". split; [|reflexivity].
  apply (proj1 (Qle_bool_iff _ _)). vm_compute. reflexivity.
Qed.

Lemma server_traffic_keeps_nothing_alive_witness :
  subs_wf (pl_state demo_later) /\
  pool_steps (ua_resp_ok (eq demo_caps)) clock_tick (is_server_operation demo_config) (Pool demo_final None []) demo_later /\
  sv_subscriptions demo_final !! "sub-u" = Some demo_sub /\
  (inject_Z (ttl_seconds demo_config) <= sv_now (pl_state demo_later) - last_activity_monotonic demo_sub)%Q /\
  sv_subscriptions (expire_block demo_config (pl_state demo_later)).1 !! "sub-u" = None.
Proof.
  assert (sv_subscriptions demo_final !! "sub-u" = Some demo_sub) as Hs by (vm_compute; reflexivity).
  assert (inject_Z (ttl_seconds demo_config) <= sv_now (pl_state demo_later) - last_activity_monotonic demo_sub)%Q as Ht
    by (apply (proj1 (Qle_bool_iff _ _)); vm_compute; reflexivity).
  split; [exact demo_later_wf|]. split; [exact demo_later_reachable|]. split; [exact Hs|]. split; [exact Ht|].
  exact (server_traffic_keeps_nothing_alive demo_config (eq demo_caps) demo_final demo_later "sub-u" demo_sub
           demo_later_wf demo_later_reachable Hs Ht).
Defined.

Lemma notification_queue_keeps_latest_witness :
  (1 <= 3)%nat /\
  fold_left (fun qd x => enqueue_bounded (Z.of_nat 3) x qd.1 qd.2) [1; 2; 3; 4; 5] ([], 0) = ([3; 4; 5], 2).
Proof. split; [lia|]. apply (notification_queue_keeps_latest 3 [1; 2; 3; 4; 5]). lia. Defined.

Lemma sync_acknowledged_witness :
  find_sub (Some "c") "sub-u" demo_final = Some demo_sub /\ 0 <= 1 <= sequence_number demo_sub /\
  map su_sequence_number (updates_above 1 demo_sub) = [2; 3; 4; 5] /\
  wp (ua_resp_ok (eq demo_caps)) clock_tick (sync demo_config (Some "c") "sub-u" (Some 1) false) (fun r s' =>
    r = Some {| sr_updates := updates_above 1 demo_sub;
                sr_queue_overflow := bool_decide (is_Some (dropped_from_sequence demo_sub));
                sr_dropped_from_sequence := dropped_from_sequence demo_sub;
                sr_dropped_to_sequence := dropped_to_sequence demo_sub;
                sr_stream_active := false |} /\
    exists st', sv_subscriptions s' !! "sub-u" = Some st' /\ updates st' = updates_above 1 demo_sub /\
           dropped_from_sequence st' = None /\ last_activity_monotonic st' = sv_now s') demo_final.
Proof.
  assert (find_sub (Some "c") "sub-u" demo_final = Some demo_sub) as Hs by (vm_compute; reflexivity).
  assert (0 <= 1 <= sequence_number demo_sub) as Ha by (vm_compute; split; discriminate).
  assert (stream_connected demo_sub = false \/ false = true) as Hc by (left; vm_compute; reflexivity).
  split; [exact Hs|]. split; [exact Ha|]. split; [vm_compute; reflexivity|].
  pose proof (sync_acknowledged demo_config (eq demo_caps) (Some "c") "sub-u" 1 false demo_final demo_sub Hs Ha Hc) as Hsync.
  exact Hsync.
Defined.

Definition demo_activated : service (V := pyval) := (activate_stream None "sub-u" demo_final).1.

Lemma activate_supersedes_witness :
  activate_stream None "sub-u" demo_final = (demo_activated, Some 1) /\
  is_stream_active "sub-u" 1 demo_activated = true /\
  has_active_stream None "sub-u" demo_activated = Some true /\
  forall g, g ≠ 1 ->
    is_stream_active "sub-u" g demo_activated = false /\
    has_active_stream None "sub-u" (deactivate_stream "sub-u" g demo_activated) = Some true.
Proof.
  assert (activate_stream None "sub-u" demo_final = (demo_activated, Some 1)) as Ha by (vm_compute; reflexivity).
  split; [exact Ha|]. exact (activate_supersedes None "sub-u" demo_final demo_activated 1 Ha).
Defined.

Definition demo_ua : ua_subscription :=
  {| ua_ref := "bin"; ua_attrs := OObj [("RevisedPublishingInterval", OFloat 500);
                                        ("data", OObj [("RevisedMaxKeepAliveCount", OInt 4)])] |}.

Lemma refresh_interval_bounds_witness :
  (1 # 10 <= native_timeout_refresh_max_seconds demo_config)%Q /\
  Qeq_bool (compute_native_refresh_interval_seconds demo_config demo_ua) 6 = true /\
  (1 # 10 <= compute_native_refresh_interval_seconds demo_config demo_ua
     <= native_timeout_refresh_max_seconds demo_config)%Q.
Proof.
  assert (1 # 10 <= native_timeout_refresh_max_seconds demo_config)%Q as Hm
    by (apply (proj1 (Qle_bool_iff _ _)); vm_compute; reflexivity).
  split; [exact Hm|]. split; [vm_compute; reflexivity|]. exact (refresh_interval_bounds demo_config demo_ua Hm).
Defined.

(** ** A server subscription that is never deleted

    A server that creates subscriptions but refuses every monitored item with an exception; the
    world is the list of subscriptions created and deleted. *)
Definition refusing_env (R : Type) (c : ua_call (V := pyval) R) (w : list (string * bool)) (s : service (V := pyval)) :
    list (string * bool) * service (V := pyval) * R :=
  match c in ua_call R return list (string * bool) * service (V := pyval) * R with
  | GetCapabilities => (w, s, Val demo_caps)
  | CreateSubscription _ bin_id => (w ++ [(bin_id, true)], s, Val {| ua_ref := bin_id; ua_attrs := ONone |})
  | SubscribeDataChanges _ _ => (w, s, Raise)
  | UnsubscribeDataChanges _ _ => (w, s, Val tt)
  | DeleteSubscription ua => (w ++ [(ua_ref ua, false)], s, Val tt)
  | ReadValues nodes => (w, s, Val (map (fun nid => PStr nid) nodes))
  | UuidFor used => (w, s, long_uuid used)
  | IterOrder ids => (w, s, elements ids)
  | RestoredHandles => (w, s, fun _ _ => None)
  | WaitEvent _ _ => (w, s, false)
  end.

(** When the monitored item of a new bin is refused with an exception, the server
    subscription created for the bin is never deleted, not even by [close]. *)
Theorem refused_item_leaks_subscription :
  let '(w, s, _) := run refusing_env
      (pfor [OpCreate None None; OpRegister None "sub-u" ["m"] 0 demo_model; OpDelete None ["sub-u"]; OpClose]
         (exec demo_config)) [] (new_service 0 "t0") in
  w = [("bin-u", true)] /\ dict_items (sv_bins s) = [] /\ dict_items (sv_subscriptions s) = [].
Proof. vm_compute. split_and!; reflexivity. Qed.
End SubBehaviour.
