(* ===== verification/ModelAccess.v ===== *)
(** Indexed lookups in the cached model ([mcp/model_access.py]): browse paths, instances of a
    type, children, composition properties and searches, page by page.

    The JSON schemas are checked by a third-party validator; arguments are typed values here, with
    the defaults of the schemas filled in by the caller. The index cached on the model object is a
    state that every call takes and returns. *)

From S2P Require Export Profiles.

Module ModelAccess.
Import NodeIds Profiles.

(** ** Results *)

Record Page := {
  pg_total : nat;
  pg_returned : nat;
  pg_offset : nat;
  pg_next : option nat;
  pg_items : list (string * string);
}.

Inductive Plane := plane_hierarchy | plane_composition | plane_graph.

#[export] Instance Plane_eq_dec : EqDecision Plane.
Proof. solve_decision. Defined.

Record PageArgs := { pa_offset : nat; pa_limit : nat }.

(** [arguments["segments"]] if it is there, else [arguments["path"]]. *)
Inductive PathArg := by_segments (segments : list string) | by_path (path : string).

Inductive ToolCall :=
  | getBrowsePath (elementId : string)
  | resolveBrowsePath (path : PathArg)
  | getInstancesOfType (typeElementId : string) (typeContextRevision : option string) (includeSubtypes : bool) (args : PageArgs)
  | getChildren (elementId : string) (plane : Plane) (args : PageArgs)
  | getCompositionProperties (elementIds : list string) (args : PageArgs)
  | findElementsByName (text : string) (args : PageArgs)
  | findElementsByNamespace (namespaceUri : string) (args : PageArgs)
  | findElementsByRole (semanticRole : SemanticRole) (args : PageArgs).

Inductive ToolResult :=
  | PathResult (path : string) (segments : list string)
  | ResolveResult (found : option (string * string * NodeKind))
  | PageResult (page : Page)
  | TypePageResult (page : Page) (typeContextRevision : string)
  | ItemsResult (items : list (string * Page)).

(** ** The context of object types ([api/v1/objecttype_helpers.py]) *)

(** The fields the lookups read; [otc_token] stands for the identity of the object. *)
Record ObjectTypeContext := {
  otc_token : nat;
  otc_namespace_infos : list OpcUaNamespaceInfo;
  otc_object_types : list (string * option string);
  otc_element_ids_by_node_id : dict string string;
  otc_items : list (string * string);
  otc_source_type_to_element_id : dict string string;
  otc_revision : string;
}.

Record ModelAccessIndex := {
  ix_revision : string;
  ordered_ids : list string;
  ix_namespaces : dict string (list string);
  ix_roles : dict SemanticRole (list string);
  name_grams : dict string (list string);
  children_by_plane : dict Plane (dict string (list string));
  path_children : option (dict (option string) (dict string (list string)));
  type_context_token : option nat;
  direct_instances : dict string (list string);
  subtype_instances : dict string (list string);
}.

Definition not_found (message : string) : http_error := HttpError 404 "Not Found" message.
Definition invalid_model (message : string) : http_error := HttpError 500 "Invalid Model" message.
Definition bad_request (message : string) : http_error := HttpError 400 "Bad Request" message.
Definition broken_chain : http_error := invalid_model "Canonical parent chain contains a cycle or missing element".

(** ** Order and pages *)

(** [s[i:i+3] for i in range(len(s) - 2)]. *)
Fixpoint grams_of (l : list ascii) : list (list ascii) :=
  match l with
  | a :: ((b :: c :: _) as l') => [a; b; c] :: grams_of l'
  | _ => []
  end.

Definition name_grams_of (name : string) : list string := map of_chars (grams_of (chars name)).

Section Model.
Context (model : BuildResult).

Abbreviation nodes := (nodes_by_id model).

Definition present (id : string) : bool := dict_mem id nodes.

(** [model.nodes_by_id[id].name]; the ids it is asked for are present. *)
Definition name_of (id : string) : string := default ε (n_name <$> nodes !! id).

Definition id_leb (a b : string) : bool :=
  let x := casefold (name_of a) in let y := casefold (name_of b) in
  if bool_decide (x = y) then string_leb a b else string_leb x y.

Definition sorted_ids (ids : list string) : list string := py_sorted id_leb (remove_dups ids).

Definition page (ordered : list string) (args : PageArgs) : Page :=
  let items := take (pa_limit args) (drop (pa_offset args) ordered) in
  let next := (pa_offset args + length items)%nat in
  {| pg_total := length ordered; pg_returned := length items; pg_offset := pa_offset args;
     pg_next := if Nat.ltb next (length ordered) then Some next else None;
     pg_items := map (fun id => (id, name_of id)) items |}.

(** ** The index *)

Definition namespace_of (id : string) (node : ModelNode) : option string :=
  let uri := mjoin (namespace_uri_by_id model !! id) in
  if truthy_opt uri then uri else meta_str (n_metadata node !! "namespaceUri").

Definition role_of (id : string) (node : ModelNode) : SemanticRole :=
  default (n_semantic_role node) (semantic_role_by_id model !! id).

Definition index_element (index : ModelAccessIndex) (id : string) : ModelAccessIndex :=
  match nodes !! id with
  | None => index
  | Some node =>
      {| ix_revision := ix_revision index; ordered_ids := ordered_ids index;
         ix_namespaces := match namespace_of id node with
                          | Some uri => dict_push uri id (ix_namespaces index)
                          | None => ix_namespaces index
                          end;
         ix_roles := dict_push (role_of id node) id (ix_roles index);
         name_grams := fold_left (fun acc gram => dict_push gram id acc)
                         (remove_dups (name_grams_of (casefold (n_name node)))) (name_grams index);
         children_by_plane := children_by_plane index; path_children := path_children index;
         type_context_token := type_context_token index; direct_instances := direct_instances index;
         subtype_instances := subtype_instances index |}
  end.

Definition index_planes (index : ModelAccessIndex) : ModelAccessIndex :=
  let children := dict_map (fun l => sorted_ids (List.filter present l)) in
  {| ix_revision := ix_revision index; ordered_ids := ordered_ids index;
     ix_namespaces := ix_namespaces index; ix_roles := ix_roles index; name_grams := name_grams index;
     children_by_plane :=
       dict_of_list [(plane_hierarchy, children (hierarchy_children_by_id model));
                     (plane_composition, children (composition_children_by_id model));
                     (plane_graph, dict_map (fun l => sorted_ids (List.filter present l.*2)) (graph_related_by_id model))];
     path_children := path_children index; type_context_token := type_context_token index;
     direct_instances := direct_instances index; subtype_instances := subtype_instances index |}.

Definition empty_index (revision : string) (ids : list string) : ModelAccessIndex :=
  {| ix_revision := revision; ordered_ids := ids; ix_namespaces := ∅; ix_roles := ∅; name_grams := ∅;
     children_by_plane := ∅; path_children := None; type_context_token := None; direct_instances := ∅;
     subtype_instances := ∅ |}.

Definition fresh_index (revision : string) : ModelAccessIndex :=
  let ids := sorted_ids (dict_keys nodes) in
  index_planes (fold_left index_element ids (empty_index revision ids)).

(** The cached index, when it is of this revision. *)
Definition index_of_model (revision : string) (cache : option ModelAccessIndex) : ModelAccessIndex :=
  match cache with
  | Some index => if bool_decide (ix_revision index = revision) then index else fresh_index revision
  | None => fresh_index revision
  end.

(** ** Paths *)

Definition require_element (id : string) : outcome http_error unit :=
  if present id then Ok tt else Err (not_found ("Model element not found: " +:+ id)).

(** [a or b or c or d]. *)
Definition parent (id : string) : option string :=
  or_opt (or_opt (or_opt (hierarchy_parent_by_id model !! id) (mjoin (parent_id_by_id model !! id)))
    (composition_parent_by_id model !! id)) (nodes !! id ≫= n_parent_id).

(** The chain from [current] upwards, to a root or to an element of [stop]; [None] is out of fuel. *)
Fixpoint climb (fuel : nat) (stop : string -> bool) (visited : list string) (current : option string)
    : option (outcome http_error (list string * option string)) :=
  match fuel with
  | O => None
  | S fuel' =>
      match current with
      | None => Some (Ok (visited, None))
      | Some id =>
          if stop id then Some (Ok (visited, Some id))
          else if (mem id visited || negb (present id))%bool then Some (Err broken_chain)
          else climb fuel' stop (id :: visited) (parent id)
      end
  end.

(** One step more than there are nodes: no node is visited twice. *)
Definition chain_fuel : nat := S (S (dict_len nodes)).

(** [_segments(model, id)]: the names from the root down. [visited] is the chain, last first. *)
Definition segments (id : string) : option (outcome http_error (list string)) :=
  r ← climb chain_fuel (fun _ => false) [] (Some id);
  Some (match r with Ok (chain, _) => Ok (map name_of chain) | Err e => Err e end).

(** [_segments(model, id, known)], with the segments it adds to [known]. *)
Definition segments_known (id : string) (known : dict string (list string))
    : option (outcome http_error (list string * dict string (list string))) :=
  r ← climb chain_fuel (fun x => dict_mem x known) [] (Some id);
  Some (match r with
        | Ok (chain, top) =>
            let start := default [] (top ≫= fun x => known !! x) in
            Ok (fold_left (fun '(segs, known) child =>
              let segs := segs ++ [name_of child] in (segs, <[child := segs]> known)) chain (start, known))
        | Err e => Err e
        end).

(** [_validate_parent_chains], with the parents of [parent]. *)
Fixpoint validate_chains (ids validated : list string) : option (outcome http_error unit) :=
  match ids with
  | [] => Some (Ok tt)
  | id :: ids' =>
      r ← climb chain_fuel (fun x => mem x validated) [] (Some id);
      match r with
      | Ok (chain, _) => validate_chains ids' (chain ++ validated)
      | Err e => Some (Err e)
      end
  end.

Definition add_path_child (acc : dict (option string) (dict string (list string))) (id : string)
    : dict (option string) (dict string (list string)) :=
  <[parent id := dict_push (name_of id) id (default ∅ (acc !! parent id))]> acc.

Definition build_path_children (ids : list string) : dict (option string) (dict string (list string)) :=
  fold_left add_path_child ids ∅.

Definition path_step (children : dict (option string) (dict string (list string))) (segment : string)
    (candidates : list (option string)) : list string :=
  List.concat (map (fun p => default [] (default ∅ (children !! p) !! segment)) candidates).

(** The elements at the end of the path. *)
Fixpoint path_matches (children : dict (option string) (dict string (list string))) (segs : list string)
    (candidates : list (option string)) (matches : list string) : list string :=
  match segs with
  | [] => matches
  | segment :: segs' =>
      match path_step children segment candidates with
      | [] => []
      | l => path_matches children segs' (map Some l) l
      end
  end.

Definition path_segments (arg : PathArg) : list string :=
  match arg with by_segments l => l | by_path p => str_split slash p end.

Definition set_path_children (c : dict (option string) (dict string (list string))) (index : ModelAccessIndex) : ModelAccessIndex :=
  {| ix_revision := ix_revision index; ordered_ids := ordered_ids index; ix_namespaces := ix_namespaces index;
     ix_roles := ix_roles index; name_grams := name_grams index; children_by_plane := children_by_plane index;
     path_children := Some c; type_context_token := type_context_token index;
     direct_instances := direct_instances index; subtype_instances := subtype_instances index |}.

(** The index with its path table, built and validated on first use. *)
Definition ensure_paths (index : ModelAccessIndex) : option (outcome http_error ModelAccessIndex) :=
  match path_children index with
  | Some _ => Some (Ok index)
  | None =>
      r ← validate_chains (dict_keys nodes) [];
      Some (_ ← r; Ok (set_path_children (build_path_children (ordered_ids index)) index))
  end.

Definition ambiguous_path : http_error := HttpError 409 "Ambiguous Path" "Browse path matches multiple elements; use an elementId".

Definition resolve_path (index : ModelAccessIndex) (arg : PathArg) : outcome http_error (option (string * string * NodeKind)) :=
  match path_matches (default ∅ (path_children index)) (path_segments arg) [None] [] with
  | [] => Ok None
  | [id] => Ok (node ← nodes !! id; Some (n_id node, n_name node, n_kind node))
  | _ => Err ambiguous_path
  end.

(** ** Composition *)

(** [pending.pop()] takes the last element; [pending] is kept in that order. *)
Fixpoint composition_walk (fuel : nat) (visited : list string) (pending : list string) (properties : list string)
    : option (list string) :=
  match fuel with
  | O => None
  | S fuel' =>
      match pending with
      | [] => Some properties
      | id :: pending' =>
          if mem id visited then composition_walk fuel' visited pending' properties
          else match nodes !! id with
               | None => composition_walk fuel' visited pending' properties
               | Some node =>
                   composition_walk fuel' (id :: visited) (reverse (default [] (composition_children_by_id model !! id)) ++ pending')
                     (if bool_decide (n_kind node = property) then id :: properties else properties)
               end
      end
  end.

(** Every entry of a children list is pushed at most once. *)
Definition composition_fuel : nat :=
  S (sum_list_with (fun p => length p.2) (dict_items (composition_children_by_id model)) +
     sum_list_with (fun p => length p.2) (dict_items (composition_children_by_id model)))%nat.

Definition composition_properties (root : string) : option (list string) :=
  composition_walk composition_fuel [root] (reverse (default [] (composition_children_by_id model !! root))) [].

Fixpoint check_roots (roots : list string) : outcome http_error unit :=
  match roots with
  | [] => Ok tt
  | root :: roots' =>
      _ ← require_element root;
      if bool_decide (n_kind <$> nodes !! root = Some property)
      then Err (bad_request "elementIds must identify objects, not properties")
      else check_roots roots'
  end.

Definition composition_pages (roots : list string) (args : PageArgs) : option (list (string * Page)) :=
  mapM (fun root => props ← composition_properties root; Some (root, page (sorted_ids props) args)) (sorted_ids roots).

(** ** Names *)

Definition shorter (a b : list string) : bool := Nat.leb (length a) (length b).

(** The ids that share every trigram of the text; all ids for a text too short to have one. *)
Definition name_candidates (index : ModelAccessIndex) (text : string) : list string :=
  match remove_dups (name_grams_of text) with
  | [] => ordered_ids index
  | grams =>
      match py_sorted shorter (map (fun gram => default [] (name_grams index !! gram)) grams) with
      | [] => []
      | bucket :: buckets => List.filter (fun id => forallb (mem id) buckets) bucket
      end
  end.

Definition name_matches (text id : string) : bool := str_in text (casefold (name_of id)).

Definition find_by_name (index : ModelAccessIndex) (text : string) : list string :=
  let text := casefold text in sorted_ids (List.filter (name_matches text) (name_candidates index text)).

(** ** Object types *)

Section Types.
Context (context : ObjectTypeContext).

Definition type_aliases : dict string string :=
  dict_update (otc_source_type_to_element_id context)
    (dict_update (otc_element_ids_by_node_id context)
      (dict_update_list (map (fun item => (item.2, item.1)) (otc_items context))
        (dict_of_list (map (fun item => (item.1, item.1)) (otc_items context))))).

Definition alias_of (source : string) : option string := or_opt (type_aliases !! source) (type_aliases !! lower source).

Definition type_id (source : string) : option string :=
  match alias_of source with
  | Some id => Some id
  | None => alias_of (expanded_node_id source (otc_namespace_infos context))
  end.

Definition type_parents : dict string string :=
  fold_left (fun acc info =>
    match type_id info.1, (if truthy_opt info.2 then type_id (default ε info.2) else None) with
    | Some child, Some parent => <[child := parent]> acc
    | _, _ => acc
    end) (otc_object_types context) ∅.

Definition is_instance (node : ModelNode) : bool :=
  match n_kind node with asset | eventSource => true | _ => false end.

(** [direct[key].add(id)] for a key that is there. *)
Definition add_instance (key : option string) (ids : list string) (acc : dict string (list string)) : dict string (list string) :=
  match key with
  | Some k => match acc !! k with
              | Some old => <[k := remove_dups (old ++ ids)]> acc
              | None => acc
              end
  | None => acc
  end.

Definition type_direct : dict string (list string) :=
  let direct := dict_of_list (map (fun item => (item.1, [])) (otc_items context)) in
  let direct := fold_left (fun acc p =>
    add_instance (type_id p.1) (List.filter (fun id => match nodes !! id with Some node => is_instance node | None => false end) p.2) acc)
    (dict_items (instances_by_type_id model)) direct in
  fold_left (fun acc node =>
    if is_instance node then
      add_instance (or_opt (type_id (default ε (n_source_type_id node))) (type_id (default ε (n_type node)))) [n_id node] acc
    else acc) (dict_values nodes) direct.

(** Every ancestor of a type, from the nearest; [None] is out of fuel, [Err] a cycle. *)
Fixpoint type_ancestors (fuel : nat) (visited : list string) (current : option string) : option (outcome http_error (list string)) :=
  match fuel with
  | O => None
  | S fuel' =>
      match current with
      | None => Some (Ok [])
      | Some p =>
          if mem p visited then Some (Err (invalid_model "Object type hierarchy contains a cycle"))
          else r ← type_ancestors fuel' (p :: visited) (type_parents !! p); Some (l ← r; Ok (p :: l))
      end
  end.

Definition type_fuel : nat := S (S (dict_len type_parents)).

Fixpoint type_expanded (l : list (string * list string)) (acc : dict string (list string))
    : option (outcome http_error (dict string (list string))) :=
  match l with
  | [] => Some (Ok acc)
  | (id, ids) :: l' =>
      r ← type_ancestors type_fuel [id] (type_parents !! id);
      match r with
      | Ok ancestors => type_expanded l' (fold_left (fun acc p => <[p := remove_dups (default [] (acc !! p) ++ ids)]> acc) ancestors acc)
      | Err e => Some (Err e)
      end
  end.

Definition ensure_types (index : ModelAccessIndex) : option (outcome http_error ModelAccessIndex) :=
  if bool_decide (type_context_token index = Some (otc_token context)) then Some (Ok index)
  else
    r ← type_expanded (dict_items type_direct) type_direct;
    Some (expanded ← r;
          Ok {| ix_revision := ix_revision index; ordered_ids := ordered_ids index; ix_namespaces := ix_namespaces index;
                ix_roles := ix_roles index; name_grams := name_grams index; children_by_plane := children_by_plane index;
                path_children := path_children index; type_context_token := Some (otc_token context);
                direct_instances := dict_map sorted_ids type_direct; subtype_instances := dict_map sorted_ids expanded |}).
End Types.

Definition no_context : http_error :=
  HttpError 503 "Service Unavailable" "Revision-matched cached object type context is unavailable".
Definition stale_context : http_error := HttpError 409 "Conflict" "Object type context changed; restart pagination from offset 0".

(** The checks of [getInstancesOfType] before the index is touched. *)
Definition check_type_call (context : option ObjectTypeContext) (requested : option string) (offset : nat) : outcome http_error ObjectTypeContext :=
  match context with
  | None => Err no_context
  | Some c =>
      if (Nat.ltb 0 offset && bool_decide (requested = None))%bool
      then Err (bad_request "typeContextRevision is required when offset is greater than 0")
      else if (negb (bool_decide (requested = None)) && negb (bool_decide (requested = Some (otc_revision c))))%bool
      then Err stale_context
      else Ok c
  end.

(** ** The call *)

(** What a call leaves cached, and what it answers or raises; [None] when it would not end. *)
Definition invoke_model_access_tool (revision : string) (cache : option ModelAccessIndex) (context : option ObjectTypeContext)
    (call : ToolCall) : option (option ModelAccessIndex * outcome http_error ToolResult) :=
  match call with
  | getBrowsePath id =>
      match require_element id with
      | Err e => Some (cache, Err e)
      | Ok _ =>
          r ← segments id;
          Some (cache, segs ← r; Ok (PathResult (join "/" segs) segs))
      end
  | _ =>
      let index := index_of_model revision cache in
      match call with
      | getBrowsePath _ => None
      | resolveBrowsePath arg =>
          r ← ensure_paths index;
          Some (match r with
                | Err e => (Some index, Err e)
                | Ok index => (Some index, found ← resolve_path index arg; Ok (ResolveResult found))
                end)
      | getInstancesOfType type_element_id requested include_subtypes args =>
          match check_type_call context requested (pa_offset args) with
          | Err e => Some (Some index, Err e)
          | Ok c =>
              r ← ensure_types c index;
              Some (match r with
                    | Err e => (Some index, Err e)
                    | Ok index =>
                        let instances := if include_subtypes then subtype_instances index else direct_instances index in
                        (Some index,
                         if dict_mem type_element_id (direct_instances index)
                         then Ok (TypePageResult (page (default [] (instances !! type_element_id)) args) (otc_revision c))
                         else Err (not_found ("Object type not found: " +:+ type_element_id)))
                    end)
          end
      | getChildren id plane args =>
          Some (Some index, _ ← require_element id;
                            Ok (PageResult (page (default [] (default ∅ (children_by_plane index !! plane) !! id)) args)))
      | getCompositionProperties roots args =>
          match check_roots roots with
          | Err e => Some (Some index, Err e)
          | Ok _ => items ← composition_pages roots args; Some (Some index, Ok (ItemsResult items))
          end
      | findElementsByName text args => Some (Some index, Ok (PageResult (page (find_by_name index text) args)))
      | findElementsByNamespace uri args => Some (Some index, Ok (PageResult (page (default [] (ix_namespaces index !! uri)) args)))
      | findElementsByRole role args => Some (Some index, Ok (PageResult (page (default [] (ix_roles index !! role)) args)))
      end
  end.
End Model.

(** ** An example *)

(** A plant with two lines that both hold a motor, each motor with its speed. *)
Definition child_of (n : ModelNode) (parent : string) : ModelNode :=
  {| n_id := n_id n; n_name := n_name n; n_kind := n_kind n; n_type := n_type n; n_children := n_children n;
     n_source_node_id := n_source_node_id n; n_source_type_id := n_source_type_id n; n_parent_id := Some parent;
     n_is_composition := n_is_composition n; n_semantic_role := n_semantic_role n;
     n_mapping_confidence := n_mapping_confidence n; n_relationships := n_relationships n; n_metadata := n_metadata n |}.

Definition plant : BuildResult :=
  small_model
    [simple_node "p" "Plant" asset "i=1"; child_of (simple_node "l1" "Line" asset "i=2") "p";
     child_of (simple_node "l2" "Line" asset "i=3") "p"; child_of (simple_node "m1" "Motor" asset "i=4") "l1";
     child_of (simple_node "m2" "Motor" asset "i=5") "l2"; child_of (simple_node "d" "Drive" asset "i=6") "l2"]
    ["p"] [("p", ["l1"; "l2"]); ("l1", ["m1"]); ("l2", ["m2"; "d"])].

Definition all_items : PageArgs := {| pa_offset := 0; pa_limit := 50 |}.

Example plant_paths :
  (segments plant "d" = Some (Ok ["Plant"; "Line"; "Drive"])) /\
  ((invoke_model_access_tool plant "r" None None (resolveBrowsePath (by_path "Plant/Line/Drive"))) ≫= (fun r => Some r.2)
     = Some (Ok (ResolveResult (Some ("d", "Drive", asset))))) /\
  ((invoke_model_access_tool plant "r" None None (resolveBrowsePath (by_path "Plant/Line/Motor"))) ≫= (fun r => Some r.2)
     = Some (Err ambiguous_path)) /\
  find_by_name plant (fresh_index plant "r") "OTOR" = ["m1"; "m2"].
Proof. vm_compute. split_and!; reflexivity. Qed.
End ModelAccess.
