(* ===== verification/ModelAccessSpec.v ===== *)
(** What the indexed lookups of [ModelAccess.v] answer, stated without the index. *)

From S2P Require Export ModelAccess.

Module ModelAccessSpec.
Import NodeIds Profiles ModelAccess.

(** ** Lemmas: substrings and trigrams *)

Lemma contains_spec p l : contains p l = true <-> exists a c, l = a ++ p ++ c.
Proof.
  induction l as [|x l IH]; cbn [contains]; rewrite orb_true_iff, starts_with_spec.
  - split; [intros [[r E]|]; [by exists [], r|done]|]. intros (a & c & E). left. exists c. destruct a; [done|discriminate].
  - rewrite IH. split.
    + intros [[r E]|(a & c & ->)]; [by exists [], r|by exists (x :: a), c].
    + intros ([|y a] & c & E); [left; by exists c|]. injection E as -> ->. right. by exists a, c.
Qed.

Lemma elem_of_grams g l : g ∈ grams_of l <-> length g = 3%nat /\ exists a c, l = a ++ g ++ c.
Proof.
  induction l as [|x l IH]; cbn [grams_of].
  - split; [by intros ?%not_elem_of_nil|]. intros [Hg (a & c & E)]. destruct a, g; discriminate.
  - assert ((exists a c, x :: l = a ++ g ++ c) <-> (exists r, x :: l = g ++ r) \/ exists a c, l = a ++ g ++ c) as ->.
    { split.
      - intros ([|y a] & c & E); [left; by exists c|]. injection E as -> ->. right. by exists a, c.
      - intros [[r E]|(a & c & ->)]; [by exists [], r|by exists (x :: a), c]. }
    destruct l as [|b [|c l]].
    + split; [by intros ?%not_elem_of_nil|]. intros [Hg [[r E]|(a & c & E)]].
      * apply (f_equal length) in E. rewrite length_app in E. simpl in E. lia.
      * destruct a, g; discriminate.
    + split; [by intros ?%not_elem_of_nil|]. intros [Hg [[r E]|(a & c & E)]]; apply (f_equal length) in E;
        rewrite !length_app in E; simpl in E; lia.
    + rewrite elem_of_cons, IH. split.
      * intros [->|[Hg He]]; [split; [done|left; by exists l]|split; [done|by right]].
      * intros [Hg [[r E]|He]]; [left|by right]. destruct g as [|g1 [|g2 [|g3 [|]]]]; try discriminate. by injection E as <- <- <- _.
Qed.

(** A text that occurs in a name shares its trigrams. *)
Lemma grams_shared text name g : str_in text name = true -> g ∈ name_grams_of text -> g ∈ name_grams_of name.
Proof.
  unfold str_in, name_grams_of. intros (a & c & E)%contains_spec (x & -> & Hx)%elem_of_map. apply elem_of_map. exists x. split; [done|].
  apply elem_of_grams in Hx as [Hl (a' & c' & E')]. apply elem_of_grams. split; [done|]. exists (a ++ a'), (c' ++ c).
  rewrite E, E'. by rewrite <-!app_assoc.
Qed.

(** ** Lemmas: the order of the elements *)

Section Order.
Context (model : BuildResult).
Abbreviation leb := (id_leb model).

Lemma id_leb_spec a c :
  leb a c = true <->
  (casefold (name_of model a) ≠ casefold (name_of model c) /\ string_leb (casefold (name_of model a)) (casefold (name_of model c)) = true) \/
  (casefold (name_of model a) = casefold (name_of model c) /\ string_leb a c = true).
Proof. unfold id_leb. case_bool_decide; intuition congruence. Qed.

Lemma id_leb_total a c : leb a c = true \/ leb c a = true.
Proof.
  rewrite !id_leb_spec. destruct (decide (casefold (name_of model a) = casefold (name_of model c))) as [E|E].
  - destruct (string_leb_total a c); auto.
  - destruct (string_leb_total (casefold (name_of model a)) (casefold (name_of model c))); auto.
Qed.

Lemma id_leb_trans a c d : leb a c = true -> leb c d = true -> leb a d = true.
Proof.
  rewrite !id_leb_spec. intros [[Hn Hl]|[E Hl]] [[Hn' Hl']|[E' Hl']].
  - left. split; [|by eapply string_leb_trans]. intros E. apply Hn. apply string_leb_antisym; [done|]. by rewrite E.
  - left. by rewrite <-E'.
  - left. by rewrite E.
  - right. split; [congruence|by eapply string_leb_trans].
Qed.

Lemma id_leb_antisym a c : leb a c = true -> leb c a = true -> a = c.
Proof.
  rewrite !id_leb_spec. intros [[Hn Hl]|[E Hl]] [[Hn' Hl']|[E' Hl']]; try congruence.
  - exfalso. apply Hn. by apply string_leb_antisym.
  - by apply string_leb_antisym.
Qed.

Lemma elem_of_sorted_ids l x : x ∈ sorted_ids model l <-> x ∈ l.
Proof. unfold sorted_ids. by rewrite elem_of_py_sorted, elem_of_remove_dups. Qed.

Lemma sorted_ids_sorted l : StronglySorted (fun a c => leb a c = true) (sorted_ids model l).
Proof. apply py_sorted_sorted; [apply id_leb_total|apply id_leb_trans]. Qed.

Lemma NoDup_sorted_ids l : NoDup (sorted_ids model l).
Proof. unfold sorted_ids. rewrite py_sorted_perm. apply NoDup_remove_dups. Qed.

(** A sorted list without repetitions is determined by its elements. *)
Lemma sorted_unique l l' :
  StronglySorted (fun a c => leb a c = true) l -> StronglySorted (fun a c => leb a c = true) l' ->
  NoDup l -> NoDup l' -> (forall x, x ∈ l <-> x ∈ l') -> l = l'.
Proof.
  intros Hs Hs' Hn Hn' He. eapply (StronglySorted_unique_strong (fun a c => leb a c = true)); [|done|done|by apply NoDup_Permutation].
  intros x y _ _. apply id_leb_antisym.
Qed.

Lemma sorted_ids_ext l l' : (forall x, x ∈ l <-> x ∈ l') -> sorted_ids model l = sorted_ids model l'.
Proof.
  intros He. apply sorted_unique; auto using sorted_ids_sorted, NoDup_sorted_ids. intros x. by rewrite !elem_of_sorted_ids.
Qed.

Lemma StronglySorted_filter {A} (R : A -> A -> Prop) (p : A -> bool) l : StronglySorted R l -> StronglySorted R (List.filter p l).
Proof.
  induction 1 as [|x l Hs IH Hf]; cbn; [constructor|]. destruct (p x); [|done]. constructor; [done|].
  rewrite Forall_forall in *. intros y Hy. apply elem_of_filter_list in Hy as [Hy _]. auto.
Qed.

Lemma sorted_ids_filter p l : sorted_ids model (List.filter p l) = List.filter p (sorted_ids model l).
Proof.
  apply sorted_unique; auto using sorted_ids_sorted, NoDup_sorted_ids, StronglySorted_filter, NoDup_list_filter.
  intros x. by rewrite elem_of_sorted_ids, !elem_of_filter_list, elem_of_sorted_ids.
Qed.
End Order.

(** ** Lemmas: the index *)

Section Index.
Context (model : BuildResult) (revision : string).
Abbreviation nodes := (nodes_by_id model).

(** Only the three tables change while the elements are indexed. *)
Lemma index_elements_keep ids index :
  let index' := fold_left (index_element model) ids index in
  ordered_ids index' = ordered_ids index /\ ix_revision index' = ix_revision index /\ path_children index' = path_children index.
Proof.
  cbv zeta. revert index. induction ids as [|id ids IH]; intros index; cbn [fold_left]; [done|].
  destruct (IH (index_element model index id)) as (-> & -> & ->). unfold index_element. by destruct (nodes !! id).
Qed.

Lemma fresh_index_ids : ordered_ids (fresh_index model revision) = sorted_ids model (dict_keys nodes).
Proof. unfold fresh_index, index_planes. cbn [ordered_ids]. by edestruct index_elements_keep as (-> & _). Qed.

Lemma fresh_index_revision : ix_revision (fresh_index model revision) = revision.
Proof. unfold fresh_index, index_planes. cbn [ix_revision]. by edestruct index_elements_keep as (_ & -> & _). Qed.

Lemma fresh_index_paths : path_children (fresh_index model revision) = None.
Proof. unfold fresh_index, index_planes. cbn [path_children]. by edestruct index_elements_keep as (_ & _ & ->). Qed.

Lemma elem_of_push_grams (grams : list string) (id : string) (acc : dict string (list string)) (g x : string) :
  x ∈ default [] (fold_left (fun acc gram => dict_push gram id acc) grams acc !! g) <->
  x ∈ default [] (acc !! g) \/ (g ∈ grams /\ x = id).
Proof.
  revert acc. induction grams as [|gram grams IH]; intros acc; cbn [fold_left].
  - split; [by left|]. intros [?|[?%not_elem_of_nil _]]; done.
  - rewrite IH, dict_lookup_push, elem_of_cons. case_bool_decide as E; cbn.
    + subst. rewrite elem_of_app, list_elem_of_singleton. intuition.
    + split; [intuition|]. intros [?|[[->|?] ->]]; [by left|done|by right].
Qed.

Lemma index_grams ids index g x :
  (forall id, id ∈ ids -> is_Some (nodes !! id)) ->
  x ∈ default [] (name_grams (fold_left (index_element model) ids index) !! g) <->
  x ∈ default [] (name_grams index !! g) \/ (x ∈ ids /\ g ∈ name_grams_of (casefold (name_of model x))).
Proof.
  revert index. induction ids as [|id ids IH]; intros index Hids; cbn [fold_left].
  - split; [by left|]. intros [?|[?%not_elem_of_nil _]]; done.
  - rewrite IH by (intros; apply Hids; by right). rewrite elem_of_cons.
    destruct (Hids id ltac:(by left)) as [node Hnode].
    assert (x ∈ default [] (name_grams (index_element model index id) !! g) <->
            x ∈ default [] (name_grams index !! g) \/ (x = id /\ g ∈ name_grams_of (casefold (name_of model id)))) as ->.
    { unfold index_element, name_of. rewrite Hnode. cbn. rewrite elem_of_push_grams, elem_of_remove_dups. intuition. }
    intuition congruence.
Qed.

Lemma fresh_index_grams g x :
  x ∈ default [] (name_grams (fresh_index model revision) !! g) <->
  is_Some (nodes !! x) /\ g ∈ name_grams_of (casefold (name_of model x)).
Proof.
  unfold fresh_index, index_planes. cbn [name_grams]. rewrite index_grams.
  - cbn. rewrite elem_of_sorted_ids, elem_of_dict_keys. split; [by intros [?%not_elem_of_nil|?]|by right].
  - intros id Hid. by rewrite elem_of_sorted_ids, elem_of_dict_keys in Hid.
Qed.

(** The trigrams leave out no element whose name holds the text. *)
Lemma name_candidates_complete text x :
  is_Some (nodes !! x) -> name_matches model text x = true -> x ∈ name_candidates (fresh_index model revision) text.
Proof.
  intros Hx Hm. unfold name_candidates. destruct (remove_dups (name_grams_of text)) as [|g grams] eqn:E.
  - rewrite fresh_index_ids. by rewrite elem_of_sorted_ids, elem_of_dict_keys.
  - assert (forall g', g' ∈ g :: grams -> x ∈ default [] (name_grams (fresh_index model revision) !! g')) as Hall.
    { intros g' Hg'. rewrite <-E, elem_of_remove_dups in Hg'. apply fresh_index_grams. split; [done|]. by eapply grams_shared. }
    set (buckets := map (fun gram => default [] (name_grams (fresh_index model revision) !! gram)) (g :: grams)).
    assert (forall l, l ∈ py_sorted shorter buckets -> x ∈ l) as Hb.
    { intros l Hl%elem_of_py_sorted. apply elem_of_map in Hl as (g' & -> & Hg'). auto. }
    pose proof (py_sorted_perm shorter buckets) as Hp.
    destruct (py_sorted shorter buckets) as [|bucket rest]; [by apply Permutation_nil_l in Hp|].
    apply elem_of_filter_list. split; [apply Hb; by left|]. apply List.forallb_forall. intros l Hl. apply mem_spec, Hb. right. by apply list_elem_of_In.
Qed.

Lemma name_candidates_sound text x : x ∈ name_candidates (fresh_index model revision) text -> is_Some (nodes !! x).
Proof.
  unfold name_candidates. destruct (remove_dups (name_grams_of text)) as [|g grams] eqn:E.
  - rewrite fresh_index_ids. by rewrite elem_of_sorted_ids, elem_of_dict_keys.
  - set (buckets := map (fun gram => default [] (name_grams (fresh_index model revision) !! gram)) (g :: grams)).
    assert (forall l, l ∈ py_sorted shorter buckets -> x ∈ l -> is_Some (nodes !! x)) as Hb.
    { intros l Hl%elem_of_py_sorted Hx. apply elem_of_map in Hl as (g' & -> & Hg'). by destruct (proj1 (fresh_index_grams _ _) Hx). }
    destruct (py_sorted shorter buckets) as [|bucket rest]; [by intros ?%not_elem_of_nil|].
    intros [Hx _]%elem_of_filter_list. apply (Hb bucket); [by left|done].
Qed.
End Index.

(** C11. The search by name through the trigram index finds exactly the elements whose name holds the
    text, whatever its case and length, in the order of all elements. *)
Theorem search_is_scan model revision text :
  find_by_name model (fresh_index model revision) text =
  List.filter (name_matches model (casefold text)) (sorted_ids model (dict_keys (nodes_by_id model))).
Proof.
  unfold find_by_name. rewrite <-sorted_ids_filter. apply sorted_ids_ext. intros x. rewrite !elem_of_filter_list, elem_of_dict_keys.
  split; intros [Hx Hm]; (split; [|done]); [by eapply name_candidates_sound|by apply name_candidates_complete].
Qed.
(** ** Pages *)

(** Asks for the first page and then for every [nextOffset]: the items of all pages. *)
Fixpoint walk_pages (fuel : nat) (model : BuildResult) (ordered : list string) (limit offset : nat) : option (list (string * string)) :=
  match fuel with
  | O => None
  | S fuel' =>
      let p := page model ordered {| pa_offset := offset; pa_limit := limit |} in
      match pg_next p with
      | None => Some (pg_items p)
      | Some next => rest ← walk_pages fuel' model ordered limit next; Some (pg_items p ++ rest)
      end
  end.

Lemma walk_pages_drop fuel model ordered limit offset :
  (1 <= limit)%nat -> (length ordered - offset < fuel)%nat ->
  walk_pages fuel model ordered limit offset = Some (map (fun id => (id, name_of model id)) (drop offset ordered)).
Proof.
  intros Hl. revert offset. induction fuel as [|fuel IH]; intros offset Hf; [lia|]. cbn [walk_pages page pg_next pg_items pa_offset pa_limit].
  rewrite length_take, length_drop. destruct (Nat.ltb_spec (offset + limit `min` (length ordered - offset)) (length ordered)).
  - rewrite IH by lia. cbn. rewrite <-map_app. replace (limit `min` (length ordered - offset))%nat with limit by lia.
    by rewrite <-drop_drop, take_drop.
  - by rewrite take_ge by (rewrite length_drop; lia).
Qed.

(** Following [nextOffset] from the first page terminates and lists every id of the answer
    exactly once and in order, whatever the page size. *)
Theorem pages_partition model ordered limit :
  (1 <= limit)%nat ->
  walk_pages (S (length ordered)) model ordered limit 0 = Some (map (fun id => (id, name_of model id)) ordered).
Proof. intros Hl. rewrite walk_pages_drop by lia. by rewrite drop_0. Qed.

Lemma pages_partition_witness :
  walk_pages 4 plant ["d"; "m1"; "m2"] 2 0 = Some [("d", "Drive"); ("m1", "Motor"); ("m2", "Motor")].
Proof. pose proof (pages_partition plant ["d"; "m1"; "m2"] 2 ltac:(lia)) as H. exact H. Defined.

(** ** Browse paths *)

(** The display names from a root down to an element. *)
Inductive path_of (model : BuildResult) : string -> list string -> Prop :=
  | path_root id : present model id = true -> parent model id = None -> path_of model id [name_of model id]
  | path_child id p segs :
      present model id = true -> parent model id = Some p -> path_of model p segs -> path_of model id (segs ++ [name_of model id]).

Section Paths.
Context (model : BuildResult).

Lemma path_of_unique id segs segs' : path_of model id segs -> path_of model id segs' -> segs = segs'.
Proof.
  intros H. revert segs'. induction H as [id Hp Hn|id p segs Hp Hn H IH]; intros segs' H'; inversion H'; subst; try congruence.
  assert (p0 = p) as -> by congruence. f_equal. eauto.
Qed.

Lemma path_of_present id segs : path_of model id segs -> present model id = true.
Proof. by destruct 1. Qed.

(** A climb never runs out of fuel. *)
Lemma climb_total fuel stop visited current :
  NoDup visited -> (forall v, v ∈ visited -> present model v = true) ->
  (dict_len (nodes_by_id model) + 2 <= fuel + length visited)%nat ->
  exists r, climb model fuel stop visited current = Some r.
Proof.
  revert visited current. induction fuel as [|fuel IH]; intros visited current Hnd Hin Hf.
  - exfalso. assert (length visited <= dict_len (nodes_by_id model))%nat; [|lia].
    assert (visited ⊆ dict_keys (nodes_by_id model)) as Hsub.
    { intros v Hv. apply elem_of_dict_keys, dict_mem_true. by apply Hin. }
    apply (NoDup_submseteq _ _ Hnd), submseteq_length in Hsub. unfold dict_len, dict_keys in *. by rewrite length_fmap in Hsub.
  - cbn [climb]. destruct current as [id|]; [|by eexists]. destruct (stop id); [by eexists|].
    destruct (mem id visited || negb (present model id))%bool eqn:E; [by eexists|]. apply orb_false_iff in E as [Em Ep].
    apply negb_false_iff in Ep. apply mem_false in Em. apply IH.
    + by constructor.
    + intros v [->|Hv]%elem_of_cons; auto.
    + simpl. lia.
Qed.

Lemma climb_chain_total stop id : exists r, climb model (chain_fuel model) stop [] (Some id) = Some r.
Proof. apply climb_total; [constructor|by intros v ?%not_elem_of_nil|unfold chain_fuel; simpl; lia]. Qed.

Lemma climb_sound fuel visited id chain top :
  climb model fuel (fun _ => false) visited (Some id) = Some (Ok (chain, top)) ->
  exists up, chain = up ++ visited /\ path_of model id (map (name_of model) up).
Proof.
  revert visited id. induction fuel as [|fuel IH]; intros visited id; cbn [climb]; [done|].
  destruct (mem id visited || negb (present model id))%bool eqn:E; [done|]. apply orb_false_iff in E as [_ Ep%negb_false_iff].
  destruct (parent model id) as [p|] eqn:Epar.
  - intros (up & -> & Hup)%IH. exists (up ++ [id]). rewrite <-app_assoc. split; [done|]. rewrite map_app. by eapply path_child.
  - destruct fuel as [|fuel]; cbn [climb]; [done|]. intros [= <- <-]. exists [id]. split; [done|]. by apply path_root.
Qed.

(** An element with a path is never reported as broken. *)
Lemma climb_not_broken fuel stop visited id segs e :
  path_of model id segs -> (forall v segs', v ∈ visited -> path_of model v segs' -> (length segs < length segs')%nat) ->
  climb model fuel stop visited (Some id) ≠ Some (Err e).
Proof.
  revert visited id segs. induction fuel as [|fuel IH]; intros visited id segs Hpath Hv; cbn [climb]; [done|].
  destruct (stop id); [done|].
  assert (mem id visited = false) as ->.
  { apply mem_false. intros Hin. specialize (Hv _ _ Hin Hpath). lia. }
  rewrite (path_of_present _ _ Hpath). cbn. destruct Hpath as [id Hp Hn|id p segs Hp Hn Hpath]; rewrite Hn.
  - destruct fuel; cbn; [done|]. done.
  - eapply IH; [exact Hpath|]. intros v segs' [->|Hin]%elem_of_cons Hsegs'.
    + assert (segs' = segs ++ [name_of model id]) as -> by (eapply path_of_unique; [exact Hsegs'|by eapply path_child]).
      rewrite length_app. simpl. lia.
    + specialize (Hv _ _ Hin Hsegs'). rewrite length_app in Hv. simpl in Hv. lia.
Qed.

Lemma climb_error fuel stop visited id e : climb model fuel stop visited (Some id) = Some (Err e) -> e = broken_chain.
Proof.
  revert visited id. induction fuel as [|fuel IH]; intros visited id; cbn [climb]; [done|].
  destruct (stop id); [done|]. destruct (_ || _)%bool; [by intros [= <-]|].
  destruct (parent model id) as [p|]; [apply IH|]. by destruct fuel; cbn.
Qed.

(** [_segments] answers, with the path of the element if it has one and with the error if not. *)
Lemma segments_spec id :
  (exists r, segments model id = Some r) /\
  (forall segs, segments model id = Some (Ok segs) <-> path_of model id segs) /\
  (forall e, segments model id = Some (Err e) -> e = broken_chain /\ forall segs, ~ path_of model id segs).
Proof.
  unfold segments. destruct (climb_chain_total (fun _ => false) id) as [r Hr]. rewrite Hr. cbn. split; [by eexists|].
  destruct r as [[chain top]|e].
  - destruct (climb_sound _ _ _ _ _ Hr) as (up & -> & Hup). rewrite app_nil_r. split; [|done]. intros segs. split.
    + by intros [= <-].
    + intros Hp. by rewrite (path_of_unique _ _ _ Hup Hp).
  - assert (forall segs, ~ path_of model id segs) as Hno.
    { intros segs Hp. eapply climb_not_broken; [exact Hp| |exact Hr]. by intros v segs' ?%not_elem_of_nil. }
    split; [intros segs; split; [done|by intros ?%Hno]|]. intros e' [= <-]. split; [by eapply climb_error|done].
Qed.

(** Validation reports an error only for an element without a path. *)
Lemma validate_chains_spec ids validated :
  exists r, validate_chains model ids validated = Some r /\
    match r with
    | Ok _ => True
    | Err e => e = broken_chain /\ exists id, id ∈ ids /\ forall segs, ~ path_of model id segs
    end.
Proof.
  revert validated. induction ids as [|id ids IH]; intros validated; cbn [validate_chains]; [by eexists|].
  destruct (climb_chain_total (fun x => mem x validated) id) as [r Hr]. rewrite Hr. cbn. destruct r as [[chain top]|e].
  - destruct (IH (chain ++ validated)) as (r & -> & H). exists r. split; [done|]. destruct r; [done|].
    destruct H as (-> & x & Hx & H). split; [done|]. exists x. split; [by right|done].
  - eexists. split; [done|]. split; [by eapply climb_error|]. exists id. split; [by left|]. intros segs Hp.
    eapply climb_not_broken; [exact Hp| |exact Hr]. by intros v segs' ?%not_elem_of_nil.
Qed.

(** ** Resolution of paths *)

Lemma path_children_spec ids p seg x :
  x ∈ default [] (default ∅ (build_path_children model ids !! p) !! seg) <-> x ∈ ids /\ parent model x = p /\ name_of model x = seg.
Proof.
  unfold build_path_children.
  assert (forall acc, x ∈ default [] (default ∅ (fold_left (add_path_child model) ids acc !! p) !! seg) <->
    x ∈ default [] (default ∅ (acc !! p) !! seg) \/ (x ∈ ids /\ parent model x = p /\ name_of model x = seg)) as Hg.
  { induction ids as [|id ids IH]; intros acc; cbn [fold_left].
    - split; [by left|]. intros [?|[?%not_elem_of_nil _]]; done.
    - rewrite IH, elem_of_cons.
      assert (x ∈ default [] (default ∅ (add_path_child model acc id !! p) !! seg) <->
        x ∈ default [] (default ∅ (acc !! p) !! seg) \/ (x = id /\ parent model id = p /\ name_of model id = seg)) as ->; [|intuition congruence].
      unfold add_path_child. rewrite dict_lookup_insert. case_bool_decide as Ep; [|intuition congruence]. subst p. cbn.
      rewrite dict_lookup_push. case_bool_decide as En; [|intuition congruence]. subst seg. cbn.
      rewrite elem_of_app, list_elem_of_singleton. intuition. }
  rewrite Hg. cbn. split; [|by right]. intros [?%not_elem_of_nil|?]; done.
Qed.

Lemma NoDup_path_children ids p seg :
  NoDup ids -> NoDup (default [] (default ∅ (build_path_children model ids !! p) !! seg)).
Proof.
  unfold build_path_children.
  assert (forall acc, NoDup ids -> NoDup (default [] (default ∅ (acc !! p) !! seg)) ->
    (forall x, x ∈ ids -> x ∉ default [] (default ∅ (acc !! p) !! seg)) ->
    NoDup (default [] (default ∅ (fold_left (add_path_child model) ids acc !! p) !! seg))) as Hg.
  { induction ids as [|id ids IH]; intros acc Hnd Hacc Hfresh; cbn [fold_left]; [done|]. apply NoDup_cons in Hnd as [Hid Hnd].
    assert (default [] (default ∅ (add_path_child model acc id !! p) !! seg) = default [] (default ∅ (acc !! p) !! seg) \/
            default [] (default ∅ (add_path_child model acc id !! p) !! seg) = default [] (default ∅ (acc !! p) !! seg) ++ [id]) as Hcase.
    { unfold add_path_child. rewrite dict_lookup_insert. case_bool_decide as Ep; [|by left]. subst p. cbn.
      rewrite dict_lookup_push. case_bool_decide as En; [|by left]. subst seg. by right. }
    apply IH; [done|destruct Hcase as [->| ->]; [done|]|intros x Hx; destruct Hcase as [->| ->]; [apply Hfresh; by right|]].
    - apply NoDup_app. split_and!; [done| |apply NoDup_singleton]. intros x Hx ->%list_elem_of_singleton. eapply Hfresh; [|exact Hx]. by left.
    - rewrite elem_of_app, list_elem_of_singleton. intros [Hx'| ->]; [|done]. eapply Hfresh; [|exact Hx']. by right. }
  intros Hnd. apply Hg; [done|constructor|]. intros x _. by apply not_elem_of_nil.
Qed.

(** [x] is reached from a parent along the names. *)
Fixpoint reaches (c : option string) (segs : list string) (x : string) : Prop :=
  match segs with
  | [] => False
  | seg :: segs' =>
      match segs' with
      | [] => present model x = true /\ parent model x = c /\ name_of model x = seg
      | _ => exists y, present model y = true /\ parent model y = c /\ name_of model y = seg /\ reaches (Some y) segs' x
      end
  end.

Lemma reaches_snoc c segs seg x :
  segs ≠ [] -> reaches c (segs ++ [seg]) x <->
  exists y, reaches c segs y /\ present model x = true /\ parent model x = Some y /\ name_of model x = seg.
Proof.
  revert c. induction segs as [|s segs IH]; intros c Hne; [done|]. destruct segs as [|s' segs].
  - cbn. split.
    + intros (y & Hy & Hc & Hs & Hx & Hp & Hn). exists y. by split_and!.
    + intros (y & (Hy & Hc & Hs) & Hx & Hp & Hn). exists y. by split_and!.
  - change ((s :: s' :: segs) ++ [seg]) with (s :: (s' :: segs) ++ [seg]).
    change (reaches c (s :: (s' :: segs) ++ [seg]) x) with
      (exists y, present model y = true /\ parent model y = c /\ name_of model y = s /\ reaches (Some y) ((s' :: segs) ++ [seg]) x).
    setoid_rewrite IH; [|done]. cbn [reaches]. split.
    + intros (y & Hy & Hc & Hs & z & Hz & Hx). exists z. split; [by exists y|done].
    + intros (z & (y & Hy & Hc & Hs & Hz) & Hx). exists y. split_and!; [done..|]. by exists z.
Qed.

Lemma reaches_path segs x : reaches None segs x <-> path_of model x segs.
Proof.
  split.
  - revert x. induction segs as [|seg segs IH] using rev_ind; intros x; [done|]. destruct segs as [|s segs].
    + intros (Hp & Hn & <-). by apply path_root.
    + intros (y & Hy & Hp & Hn & <-)%reaches_snoc; [|done]. eapply path_child; eauto.
  - induction 1 as [id Hp Hn|id p segs Hp Hn H IH]; [done|]. apply reaches_snoc; [by destruct segs|]. exists p. by split_and!.
Qed.

Section Matches.
Context (ids : list string) (Hids : forall x, x ∈ ids <-> present model x = true) (Hnd : NoDup ids).
Abbreviation children := (build_path_children model ids).

Lemma path_step_spec seg cands x :
  x ∈ path_step children seg cands <-> present model x = true /\ parent model x ∈ cands /\ name_of model x = seg.
Proof using Hids.
  unfold path_step. rewrite list_elem_of_In, List.in_concat. split.
  - intros (l & Hl & Hx). apply list_elem_of_In, elem_of_map in Hl as (p & -> & Hp). apply list_elem_of_In, path_children_spec in Hx as (Hx & <- & Hs).
    by rewrite <-Hids.
  - intros (Hx & Hp & Hs). eexists. rewrite <-!list_elem_of_In, elem_of_map. split; [by exists (parent model x)|].
    apply path_children_spec. by rewrite Hids.
Qed.

Lemma NoDup_path_step seg cands : NoDup cands -> NoDup (path_step children seg cands).
Proof using Hids Hnd.
  unfold path_step. induction 1 as [|c cands Hc Hcands IH]; cbn; [constructor|]. apply NoDup_app. split_and!; [by apply NoDup_path_children| |done].
  intros x Hx Hx'. apply path_children_spec in Hx as (_ & Hp & _).
  change (x ∈ path_step children seg cands) in Hx'. apply path_step_spec in Hx' as (_ & Hp' & _). by subst c.
Qed.

Lemma path_matches_spec segs cands matches x :
  segs ≠ [] -> x ∈ path_matches children segs cands matches <-> exists c, c ∈ cands /\ reaches c segs x.
Proof using Hids.
  revert cands matches. induction segs as [|seg segs IH]; intros cands matches Hne; [done|]. cbn [path_matches].
  pose proof (path_step_spec seg cands) as Hstep. destruct (path_step children seg cands) as [|m ms] eqn:E.
  - split; [by intros ?%not_elem_of_nil|]. intros (c & Hc & Hr). exfalso.
    destruct segs as [|s segs]; cbn in Hr.
    + destruct Hr as (Hp & Hn & Hs). apply (not_elem_of_nil x), Hstep. by subst.
    + destruct Hr as (y & Hp & Hn & Hs & _). apply (not_elem_of_nil y), Hstep. by subst.
  - destruct segs as [|s segs].
    + cbn [path_matches reaches]. rewrite Hstep. split; [intros (Hp & Hc & Hs); by exists (parent model x)|].
      intros (c & Hc & Hp & <- & Hs). done.
    + rewrite IH by done. split.
      * intros (c & Hc & Hr). apply elem_of_map in Hc as (y & -> & Hy). apply Hstep in Hy as (Hp & Hc & Hs).
        exists (parent model y). split; [done|]. by exists y.
      * intros (c & Hc & y & Hp & <- & Hs & Hr). exists (Some y). split; [|done]. apply elem_of_map. exists y. split; [done|]. by apply Hstep.
Qed.

Lemma NoDup_path_matches segs cands matches : NoDup cands -> NoDup matches -> NoDup (path_matches children segs cands matches).
Proof using Hids Hnd.
  revert cands matches. induction segs as [|seg segs IH]; intros cands matches Hc Hm; cbn [path_matches]; [done|].
  pose proof (NoDup_path_step seg cands Hc) as Hs. destruct (path_step children seg cands) as [|m ms]; [constructor|].
  apply IH; [|done]. apply (NoDup_fmap_2 Some). done.
Qed.
End Matches.
End Paths.

(** C12. [resolveBrowsePath] inverts [getBrowsePath]: a path resolves to the one element whose names
    from its root down are the path, to nothing if there is none, to a conflict if there are
    several, and fails otherwise only when some element has no path at all. It always answers. *)
Theorem browse_path_roundtrip model revision context segs :
  model_nodes_ok model -> segs ≠ [] ->
  exists cache answer,
    invoke_model_access_tool model revision None context (resolveBrowsePath (by_segments segs)) = Some (cache, answer) /\
    match answer with
    | Ok (ResolveResult (Some (id, _, _))) => forall x, segments model x = Some (Ok segs) <-> x = id
    | Ok (ResolveResult None) => forall x, segments model x ≠ Some (Ok segs)
    | Ok _ => False
    | Err e =>
        (e = ambiguous_path /\ exists x y, x ≠ y /\ segments model x = Some (Ok segs) /\ segments model y = Some (Ok segs)) \/
        (e = broken_chain /\ exists x, present model x = true /\ segments model x = Some (Err broken_chain))
    end.
Proof.
  intros [_ Hok] Hne. cbn [invoke_model_access_tool index_of_model].
  set (index := fresh_index model revision).
  destruct (validate_chains_spec model (dict_keys (nodes_by_id model)) []) as (r & Hr & Hspec).
  unfold ensure_paths. assert (path_children index = None) as -> by apply fresh_index_paths. rewrite Hr. cbn [mbind option_bind]. destruct r as [[]|e].
  - set (ids := ordered_ids index).
    assert (ids = sorted_ids model (dict_keys (nodes_by_id model))) as Eids by apply fresh_index_ids.
    assert (forall x, x ∈ ids <-> present model x = true) as Hids.
    { intros x. rewrite Eids, elem_of_sorted_ids, elem_of_dict_keys. unfold present. by rewrite dict_mem_true. }
    assert (NoDup ids) as Hnd by (rewrite Eids; apply NoDup_sorted_ids).
    pose proof (fun x => path_matches_spec model ids Hids segs [None] [] x Hne) as Hm.
    pose proof (NoDup_path_matches model ids Hids Hnd segs [None] [] ltac:(apply NoDup_singleton) ltac:(constructor)) as Hmn.
    assert (forall x, x ∈ path_matches (build_path_children model ids) segs [None] [] <-> segments model x = Some (Ok segs)) as Hx.
    { intros x. rewrite Hm. destruct (segments_spec model x) as (_ & Hs & _). rewrite Hs, <-reaches_path. split.
      - by intros (c & ->%list_elem_of_singleton & H). - intros H. exists None. split; [by left|done]. }
    eexists _, _. split; [reflexivity|]. unfold resolve_path. cbn [path_segments path_children set_path_children from_option id].
    destruct (path_matches (build_path_children model ids) segs [None] []) as [|x [|y l]] eqn:E; cbn [mbind outcome_bind].
    + intros x Hs. apply Hx in Hs. by apply not_elem_of_nil in Hs.
    + assert (x ∈ ids) as Hxi.
      { apply Hids, (path_of_present _ _ segs). destruct (segments_spec model x) as (_ & Hs & _). apply Hs, Hx. by left. }
      apply Hids, dict_mem_true in Hxi as [n Hn]. rewrite Hn. cbn [mbind option_bind]. rewrite (Hok _ _ Hn). intros z. rewrite <-Hx. apply list_elem_of_singleton.
    + left. split; [done|]. exists x, y. apply NoDup_cons in Hmn as [Hxy _].
      split_and!; [intros ->; apply Hxy; by left|apply Hx; by left|apply Hx; right; by left].
  - destruct Hspec as (-> & x & Hx & Hno). eexists _, _. split; [reflexivity|]. right. split; [done|]. exists x.
    split; [by apply dict_mem_true, elem_of_dict_keys|]. destruct (segments_spec model x) as ([r Hr'] & Hs & He).
    destruct r as [segs'|e]; [by apply Hs, Hno in Hr'|]. by destruct (He _ Hr') as [-> _].
Qed.

Lemma browse_path_roundtrip_witness : model_nodes_ok plant /\
  exists cache answer,
    invoke_model_access_tool plant "r" None None (resolveBrowsePath (by_segments ["Plant"; "Line"; "Motor"])) = Some (cache, answer).
Proof.
  assert (model_nodes_ok plant) as Hok by (apply model_nodes_ok_check; vm_compute; reflexivity). split; [exact Hok|].
  destruct (browse_path_roundtrip plant "r" None ["Plant"; "Line"; "Motor"] Hok ltac:(discriminate)) as (cache & answer & H & _).
  exists cache, answer. exact H.
Defined.

(** ** Composition *)

(** Below an element through elements of the model, on the composition plane. *)
Inductive composed (model : BuildResult) (root : string) : string -> Prop :=
  | composed_child id :
      id ∈ default [] (composition_children_by_id model !! root) -> present model id = true -> composed model root id
  | composed_below id parent :
      composed model root parent -> id ∈ default [] (composition_children_by_id model !! parent) -> present model id = true ->
      composed model root id.

Section Composition.
Context (model : BuildResult) (root : string).
Abbreviation children id := (default [] (composition_children_by_id model !! id)).

(** The entries of the children lists that can still be pushed. *)
Definition unvisited_weight (visited : list string) : nat :=
  sum_list_with (fun p : string * list string => if mem p.1 visited then 0%nat else length p.2) (dict_items (composition_children_by_id model)).

Lemma unvisited_weight_visit id visited :
  mem id visited = false -> (unvisited_weight (id :: visited) + length (children id) <= unvisited_weight visited)%nat.
Proof.
  intros Hid. unfold unvisited_weight. change (composition_children_by_id model !! id) with (items_lookup id (dict_items (composition_children_by_id model))).
  assert (forall l : list (string * list string),
    (sum_list_with (fun p => if mem p.1 (id :: visited) then 0 else length p.2) l <= sum_list_with (fun p => if mem p.1 visited then 0 else length p.2) l)%nat) as Hle.
  { induction l as [|[k cs] l IH]; cbn -[mem]; [done|]. rewrite mem_cons. destruct (bool_decide (id = k)), (mem k visited); cbn [orb]; lia. }
  induction (dict_items (composition_children_by_id model)) as [|[k cs] l IH]; cbn -[mem]; [lia|].
  rewrite mem_cons. destruct (decide (k = id)) as [->|Hne].
  - rewrite !bool_decide_true by done. rewrite Hid. cbn [orb]. specialize (Hle l). change (default [] (Some cs)) with cs. lia.
  - rewrite !bool_decide_false by congruence. cbn [orb]. destruct (mem k visited); lia.
Qed.

Lemma composition_walk_total fuel visited pending props :
  (length pending + unvisited_weight visited < fuel)%nat -> exists res, composition_walk model fuel visited pending props = Some res.
Proof.
  revert visited pending props. induction fuel as [|fuel IH]; intros visited pending props Hf; [lia|].
  cbn [composition_walk]. destruct pending as [|id pending]; [by eexists|]. simpl in Hf.
  destruct (mem id visited) eqn:Em; [apply IH; lia|]. destruct (nodes_by_id model !! id); [|apply IH; lia].
  apply IH. rewrite length_app, length_reverse. pose proof (unvisited_weight_visit id visited Em). lia.
Qed.

Record walk_inv (visited pending props : list string) : Prop := {
  wi_root : root ∈ visited;
  wi_visited : forall v, v ∈ visited -> v = root \/ composed model root v;
  wi_pending : forall x, x ∈ pending -> exists v, v ∈ visited /\ x ∈ children v;
  wi_closed : forall v c, v ∈ visited -> c ∈ children v -> present model c = true -> c ∈ visited \/ c ∈ pending;
  wi_props : forall id, id ∈ props <-> id ∈ visited /\ id ≠ root /\ n_kind <$> nodes_by_id model !! id = Some property;
}.

Lemma walk_inv_present visited pending props x :
  walk_inv visited (x :: pending) props -> present model x = true -> x = root \/ composed model root x.
Proof.
  intros [Hr Hv Hp Hc Hprops] Hx. destruct (Hp x ltac:(by left)) as (v & Hvis & Hin). right.
  destruct (Hv _ Hvis) as [->|Hcomp]; [by apply composed_child|by eapply composed_below].
Qed.

(** One popped element. *)
Lemma walk_inv_skip visited x pending props :
  walk_inv visited (x :: pending) props -> x ∈ visited \/ present model x = false -> walk_inv visited pending props.
Proof.
  intros [Hr Hv Hp Hc Hprops] Hx. split; auto.
  - intros y Hy. apply Hp. by right.
  - intros v c Hvis Hin Hpres. destruct (Hc _ _ Hvis Hin Hpres) as [?|[->|?]%elem_of_cons]; auto. destruct Hx; [auto|congruence].
Qed.

Lemma walk_inv_visit visited x pending props node :
  walk_inv visited (x :: pending) props -> x ∉ visited -> nodes_by_id model !! x = Some node ->
  walk_inv (x :: visited) (reverse (children x) ++ pending) (if bool_decide (n_kind node = property) then x :: props else props).
Proof.
  intros Hinv Hx Hnode. assert (present model x = true) as Hpres by (apply dict_mem_true; by eexists).
  pose proof (walk_inv_present _ _ _ _ Hinv Hpres) as Hcomp. destruct Hinv as [Hr Hv Hp Hc Hprops]. split.
  - by right.
  - intros v [->|Hvis]%elem_of_cons; auto.
  - intros y [Hy|Hy]%elem_of_app.
    + exists x. split; [by left|by apply elem_of_reverse].
    + destruct (Hp y ltac:(by right)) as (v & Hvis & Hin). exists v. split; [by right|done].
  - intros v c [->|Hvis]%elem_of_cons Hin Hcp.
    + right. apply elem_of_app. left. by apply elem_of_reverse.
    + destruct (Hc _ _ Hvis Hin Hcp) as [?|[->|?]%elem_of_cons]; [left; by right|left; by left|right; apply elem_of_app; by right].
  - intros id. assert (x ≠ root) as Hxr by congruence. case_bool_decide as Ek.
    + rewrite !elem_of_cons, Hprops. split.
      * intros [->|(? & ? & ?)]; [split_and!; [by left|done|by rewrite Hnode, <-Ek]|split_and!; [by right|done|done]].
      * intros ([->|Hid] & Hne & Hk); [by left|right; by split_and!].
    + rewrite Hprops, elem_of_cons. split; [intros (? & ? & ?); split_and!; [by right|done|done]|].
      intros ([->|Hid] & Hne & Hk); [|by split_and!]. rewrite Hnode in Hk. cbn in Hk. congruence.
Qed.

Lemma composition_walk_exact fuel visited pending props res :
  walk_inv visited pending props -> composition_walk model fuel visited pending props = Some res ->
  forall id, id ∈ res <-> id ≠ root /\ composed model root id /\ n_kind <$> nodes_by_id model !! id = Some property.
Proof.
  revert visited pending props. induction fuel as [|fuel IH]; intros visited pending props Hinv; cbn [composition_walk]; [done|].
  destruct pending as [|x pending].
  - intros [= <-] id. destruct Hinv as [Hr Hv Hp Hc Hprops]. rewrite Hprops.
    assert (forall y, composed model root y -> y ∈ visited) as Hreach.
    { intros y. induction 1 as [y Hin Hpres|y p _ Hpv Hin Hpres].
      - by destruct (Hc _ _ Hr Hin Hpres) as [?|?%not_elem_of_nil].
      - by destruct (Hc _ _ Hpv Hin Hpres) as [?|?%not_elem_of_nil]. }
    split; [intros (Hid & Hne & Hk); by destruct (Hv _ Hid)|]. intros (Hne & Hid & Hk). auto.
  - destruct (mem x visited) eqn:Em.
    + apply mem_spec in Em. apply IH. eapply walk_inv_skip; eauto.
    + apply mem_false in Em. destruct (nodes_by_id model !! x) as [node|] eqn:En.
      * apply IH. by apply walk_inv_visit.
      * apply IH. eapply walk_inv_skip; [exact Hinv|]. right. by apply dict_mem_false.
Qed.
End Composition.

(** The composition properties of an element are exactly the property elements below it on the
    composition plane, through any number of levels; the search ends even on cyclic models. *)
Theorem composition_properties_exact model root :
  exists props, composition_properties model root = Some props /\
    forall id, id ∈ sorted_ids model props <-> id ≠ root /\ composed model root id /\ n_kind <$> nodes_by_id model !! id = Some property.
Proof.
  unfold composition_properties. set (start := reverse _).
  assert (length start + unvisited_weight model [root] < composition_fuel model)%nat as Hf.
  { unfold start, composition_fuel. rewrite length_reverse.
    assert (forall id, length (default [] (composition_children_by_id model !! id)) <= unvisited_weight model [])%nat as Hlen.
    { intros id. pose proof (unvisited_weight_visit model id [] eq_refl). lia. }
    pose proof (unvisited_weight_visit model root [] eq_refl). specialize (Hlen root).
    assert (unvisited_weight model [] = sum_list_with (fun p => length p.2) (dict_items (composition_children_by_id model))) as E by done.
    lia. }
  destruct (composition_walk_total model _ _ _ [] Hf) as [res Hres]. rewrite Hres. exists res. split; [done|].
  intros id. rewrite elem_of_sorted_ids. eapply composition_walk_exact; [|exact Hres]. split.
  - by left.
  - intros v ->%list_elem_of_singleton. by left.
  - intros x Hx. exists root. split; [by left|]. by apply elem_of_reverse.
  - intros v c ->%list_elem_of_singleton Hin _. right. by apply elem_of_reverse.
  - intros x. split; [by intros ?%not_elem_of_nil|]. intros (->%list_elem_of_singleton & ? & _). done.
Qed.

(** ** The cached index *)

Section Cache.
(** A token identifies a context object. *)
Context (model : BuildResult) (revision : string) (registry : nat -> ObjectTypeContext) (Hregistry : forall t, otc_token (registry t) = t).

(** The index is the fresh one, except that its path table and its type tables may be filled in. *)
Record index_ok (index : ModelAccessIndex) : Prop := {
  ok_revision : ix_revision index = revision;
  ok_ids : ordered_ids index = ordered_ids (fresh_index model revision);
  ok_namespaces : ix_namespaces index = ix_namespaces (fresh_index model revision);
  ok_roles : ix_roles index = ix_roles (fresh_index model revision);
  ok_grams : name_grams index = name_grams (fresh_index model revision);
  ok_planes : children_by_plane index = children_by_plane (fresh_index model revision);
  ok_paths : forall c, path_children index = Some c ->
    validate_chains model (dict_keys (nodes_by_id model)) [] = Some (Ok tt) /\ c = build_path_children model (ordered_ids index);
  ok_types : forall t, type_context_token index = Some t ->
    direct_instances index = dict_map (sorted_ids model) (type_direct model (registry t)) /\
    exists expanded, type_expanded (registry t) (dict_items (type_direct model (registry t))) (type_direct model (registry t)) = Some (Ok expanded) /\
      subtype_instances index = dict_map (sorted_ids model) expanded;
}.

Definition cache_ok (cache : option ModelAccessIndex) : Prop :=
  forall index, cache = Some index -> ix_revision index = revision -> index_ok index.

Lemma fresh_index_ok : index_ok (fresh_index model revision).
Proof.
  split; try done; [apply fresh_index_revision|rewrite fresh_index_paths; done|].
  intros t. unfold fresh_index, index_planes. cbn [type_context_token].
  assert (forall ids index, type_context_token (fold_left (index_element model) ids index) = type_context_token index) as ->; [|done].
  intros ids. induction ids as [|id ids IH]; intros index; cbn [fold_left]; [done|]. rewrite IH. unfold index_element.
  by destruct (nodes_by_id model !! id).
Qed.

Lemma index_of_model_ok cache : cache_ok cache -> index_ok (index_of_model model revision cache).
Proof.
  intros Hc. unfold index_of_model. destruct cache as [index|]; [|apply fresh_index_ok].
  case_bool_decide; [by apply Hc|apply fresh_index_ok].
Qed.

(** The index after its path table was asked for: the same for every valid index. *)
Lemma ensure_paths_ok index :
  index_ok index ->
  exists r, validate_chains model (dict_keys (nodes_by_id model)) [] = Some r /\
    match r with
    | Err e => ensure_paths model index = Some (Err e)
    | Ok _ => exists index', ensure_paths model index = Some (Ok index') /\ index_ok index' /\
                path_children index' = Some (build_path_children model (ordered_ids (fresh_index model revision)))
    end.
Proof.
  intros Hi. destruct (validate_chains_spec model (dict_keys (nodes_by_id model)) []) as (r & Hr & _). exists r. split; [done|].
  unfold ensure_paths. destruct (path_children index) as [c|] eqn:Ep.
  - destruct (ok_paths _ Hi _ Ep) as [Hv ->]. rewrite Hv in Hr. injection Hr as <-. exists index.
    split_and!; [done|done|]. by rewrite Ep, (ok_ids _ Hi).
  - rewrite Hr. cbn. destruct r as [[]|e]; cbn; [|done]. eexists. split; [done|]. split.
    + destruct Hi. split; cbn; try done. by intros c [= <-].
    + cbn. by rewrite (ok_ids _ Hi).
Qed.

(** The same for the type tables. *)
Lemma ensure_types_ok t index :
  index_ok index ->
  match type_expanded (registry t) (dict_items (type_direct model (registry t))) (type_direct model (registry t)) with
  | None => ensure_types model (registry t) index = None
  | Some (Err e) => ensure_types model (registry t) index = Some (Err e)
  | Some (Ok expanded) => exists index', ensure_types model (registry t) index = Some (Ok index') /\ index_ok index' /\
      direct_instances index' = dict_map (sorted_ids model) (type_direct model (registry t)) /\
      subtype_instances index' = dict_map (sorted_ids model) expanded
  end.
Proof using Hregistry.
  intros Hi. unfold ensure_types. rewrite Hregistry. case_bool_decide as Et.
  - destruct (ok_types _ Hi _ Et) as (Hd & expanded & He & Hs). rewrite He. by exists index.
  - destruct (type_expanded _ _ _) as [[expanded|e]|] eqn:He; cbn; [|done..]. eexists. split; [done|]. split; [|done].
    destruct Hi. split; cbn; try done. intros t' [= <-]. split; [done|]. by exists expanded.
Qed.
End Cache.

Ltac simp := cbn [mbind option_bind outcome_bind fmap option_fmap option_map snd].

(** The cached index never shows: whatever earlier calls left in the cache, a call answers as it
    does on an empty cache, and leaves a cache of which the same holds. *)
Theorem cache_transparent model revision registry cache context call :
  (forall t, otc_token (registry t) = t) -> cache_ok model revision registry cache ->
  let run c := invoke_model_access_tool model revision c (registry <$> context) call in
  (forall c' answer, run cache = Some (c', answer) -> cache_ok model revision registry c') /\
  (snd <$> run cache) = (snd <$> run None).
Proof.
  intros Hreg Hc. cbv zeta. pose proof (index_of_model_ok _ _ _ _ Hc) as Hi.
  pose proof (fresh_index_ok model revision registry) as Hf.
  assert (forall index, index_ok model revision registry index -> cache_ok model revision registry (Some index)) as Hsome.
  { intros index Hx i [= <-] _. done. }
  destruct call as [id|arg|t rev sub args|id plane args|ids args|text args|uri args|role args]; cbn [invoke_model_access_tool];
    change (index_of_model model revision None) with (fresh_index model revision).
  - destruct (require_element model id); simp; [|by split; [intros c' ans [= <- <-]|]].
    destruct (segments model id) as [[?|?]|]; simp; (split; [intros c' ans Hx; simplify_eq; done|done]).
  - destruct (ensure_paths_ok _ _ _ _ Hi) as (r & Hr & Hx). destruct (ensure_paths_ok _ _ _ _ Hf) as (r' & Hr' & Hx').
    rewrite Hr in Hr'. injection Hr' as <-. destruct r as [[]|e].
    + destruct Hx as (i & -> & Hio & Hp), Hx' as (i' & -> & Hio' & Hp'). simp. split; [intros c' ans [= <- _]; auto|].
      unfold resolve_path. by rewrite Hp, Hp'.
    + rewrite Hx, Hx'. simp. split; [intros c' ans [= <- _]; auto|done].
  - destruct context as [tok|]; simp; [|simp; split; [intros c' ans [= <- _]; auto|done]].
    destruct (check_type_call (Some (registry tok)) rev (pa_offset args)) as [c|e] eqn:Ec; [|simp; split; [intros c' ans [= <- _]; auto|done]].
    assert (c = registry tok) as ->.
    { revert Ec. unfold check_type_call. destruct (_ && _)%bool; [done|]. destruct (_ && _)%bool; [done|]. by intros [= <-]. }
    pose proof (ensure_types_ok _ _ _ Hreg tok _ Hi) as Hx. pose proof (ensure_types_ok _ _ _ Hreg tok _ Hf) as Hx'.
    destruct (type_expanded _ _ _) as [[expanded|e]|]; [|rewrite Hx, Hx'; simp; split; [intros c' ans Hy; by simplify_eq; auto|done]..].
    destruct Hx as (i & -> & Hio & Hd & Hs), Hx' as (i' & -> & Hio' & Hd' & Hs'). simp. split; [intros c' ans [= <- _]; auto|].
    by rewrite Hd, Hs, Hd', Hs'.
  - simp. split; [intros c' ans [= <- _]; auto|]. by rewrite (ok_planes _ _ _ _ Hi).
  - destruct (check_roots model ids); simp; [|split; [intros c' ans [= <- _]; auto|done]].
    destruct (composition_pages model ids args); simp; (split; [intros c' ans Hy; by simplify_eq; auto|done]).
  - simp. split; [intros c' ans [= <- _]; auto|]. unfold find_by_name, name_candidates.
    by rewrite (ok_grams _ _ _ _ Hi), (ok_ids _ _ _ _ Hi).
  - simp. split; [intros c' ans [= <- _]; auto|]. by rewrite (ok_namespaces _ _ _ _ Hi).
  - simp. split; [intros c' ans [= <- _]; auto|]. by rewrite (ok_roles _ _ _ _ Hi).
Qed.

(** A registry of contexts without types, for the example. *)
Definition empty_context (token : nat) : ObjectTypeContext :=
  {| otc_token := token; otc_namespace_infos := []; otc_object_types := []; otc_element_ids_by_node_id := ∅; otc_items := [];
     otc_source_type_to_element_id := ∅; otc_revision := "1" |}.

Lemma cache_transparent_witness :
  (snd <$> invoke_model_access_tool plant "r" (Some (fresh_index plant "r")) (empty_context <$> None) (findElementsByName "motor" all_items)) =
  (snd <$> invoke_model_access_tool plant "r" None (empty_context <$> None) (findElementsByName "motor" all_items)).
Proof.
  assert (cache_ok plant "r" empty_context (Some (fresh_index plant "r"))) as Hc.
  { intros index [= <-] _. apply fresh_index_ok. }
  pose proof (cache_transparent plant "r" empty_context _ None (findElementsByName "motor" all_items) (fun t => eq_refl) Hc) as [_ H]. exact H.
Defined.

End ModelAccessSpec.
