(* ===== verification/ModelTools.v ===== *)
(** Queries on the cached model ([mcp/model_tools.py]): translation between element ids and node
    ids, the search over all fields, the context of an element, the summary of a subtree and the
    shortest relationship path.

    Arguments are typed, with the defaults of the schemas filled in by the caller; what
    [_validate_model_tool_arguments] requires of them is [bounds_ok]. *)

From S2P Require Export Profiles.

Module ModelTools.
Import NodeIds Profiles.

Definition MCP_MODEL_CONTEXT_MAX_ITEMS : nat := 500.
Definition MCP_MODEL_PATH_MAX_NODES : nat := 5000.
Definition MCP_ID_RESOLUTION_MAX_ITEMS : nat := 500.

Definition not_found_error (id : string) : http_error := HttpError 404 "Not Found" ("Model element not found: " +:+ id).
Definition bad_request_error (message : string) : http_error := HttpError 400 "Bad Request" message.

(** ** Validation *)

(** [1 <= len(values) <= 500]. *)
Definition batch_ok {A} (values : list A) : bool :=
  (negb (Nat.eqb (length values) 0) && negb (Nat.ltb MCP_ID_RESOLUTION_MAX_ITEMS (length values)))%bool.

(** Inclusive bounds of the integer arguments; [None] is no upper bound. *)
Definition argument_bounds : list (string * (Z * option Z)) :=
  [("limit", (1, Some 100)); ("offset", (0, None)); ("ancestorDepth", (0, Some 32));
   ("childLimit", (1, Some 500)); ("relationshipLimit", (1, Some 500)); ("maxDepth", (0, Some 32)); ("maxNodes", (1, Some 500))].

Definition bound_ok (field : string) (value : Z) : bool :=
  match items_lookup field argument_bounds with
  | Some (minimum, maximum) =>
      ((minimum <=? value) && match maximum with Some m => value <=? m | None => true end)%bool
  | None => true
  end.

(** The integer arguments of a call, by field. *)
Definition bounds_ok (arguments : list (string * Z)) : bool := forallb (fun a => bound_ok a.1 a.2) arguments.

(** ** Summaries *)

Record Summary := {
  su_id : string;
  su_name : string;
  su_kind : NodeKind;
  su_role : SemanticRole;
  su_confidence : MappingConfidence;
  su_type : string;
  su_namespace : option meta_value;
  su_profiles : list string;
  su_parent : option string;
  su_writable : option bool;
  su_executable : option bool;
}.

Inductive RelationshipPlane := hierarchy_plane | composition_plane | graph_plane.

#[export] Instance RelationshipPlane_eq_dec : EqDecision RelationshipPlane.
Proof. solve_decision. Defined.

Definition relationship_plane (relationship_type : string) : RelationshipPlane :=
  if mem relationship_type ["HasParent"; "HasChildren"] then hierarchy_plane
  else if mem relationship_type ["HasComponent"; "ComponentOf"] then composition_plane
  else graph_plane.

Definition meta_bool (v : option meta_value) : option bool := match v with Some (MBool b) => Some b | _ => None end.

Section Model.
Context (model : BuildResult).

(** [model.applied_profile_ids_by_id.get(id, metadata.get("appliedProfileIds", []))], when it is a list. *)
Definition profile_ids_of (node : ModelNode) : list string :=
  match applied_profile_ids_by_id model !! n_id node with
  | Some l => l
  | None => match n_metadata node !! "appliedProfileIds" with Some (MStrs l) => l | _ => [] end
  end.

Definition semantic_role_of (node : ModelNode) : SemanticRole := default (n_semantic_role node) (semantic_role_by_id model !! n_id node).
Definition confidence_of (node : ModelNode) : MappingConfidence :=
  default (n_mapping_confidence node) (mapping_confidence_by_id model !! n_id node).

(** [model.namespace_uri_by_id.get(id) or metadata.get("namespaceUri")]. *)
Definition namespace_value (node : ModelNode) : option meta_value :=
  let uri := mjoin (namespace_uri_by_id model !! n_id node) in
  if truthy_opt uri then MStr <$> uri else n_metadata node !! "namespaceUri".

Definition model_node_summary (node : ModelNode) : Summary :=
  {| su_id := n_id node; su_name := n_name node; su_kind := n_kind node;
     su_role := semantic_role_of node; su_confidence := confidence_of node;
     su_type := default (kind_str (n_kind node)) (or_opt (or_opt (n_type node) (n_source_type_id node)) (Some (kind_str (n_kind node))));
     su_namespace := namespace_value node; su_profiles := profile_ids_of node; su_parent := n_parent_id node;
     su_writable := meta_bool (n_metadata node !! "writable");
     su_executable := meta_bool (n_metadata node !! "userExecutable") |}.

Definition model_relationships (node : ModelNode) : dict string (list string) :=
  default (n_relationships node) (relationships_by_id model !! n_id node).

(** ** Translation of ids *)

Inductive ResolveError := malformed_id | invalid_node_id | element_not_found | node_id_unavailable | node_id_not_found.

Record ElementNode := { en_element : string; en_node : string; en_name : string; en_kind : NodeKind; en_expanded : option string }.

(** [None] is an argument that is not a string. *)
Definition resolve_element_id (element_id : option string) : outcome ResolveError ElementNode :=
  match element_id with
  | None => Err malformed_id
  | Some id =>
      if negb (truthy (strip id)) then Err malformed_id
      else match nodes_by_id model !! id with
           | None => Err element_not_found
           | Some node =>
               match meta_str (n_metadata node !! "uaNodeId") with
               | Some node_id =>
                   if truthy node_id then
                     Ok {| en_element := n_id node; en_node := node_id; en_name := n_name node; en_kind := n_kind node;
                           en_expanded := match meta_str (n_metadata node !! "expandedNodeId") with
                                          | Some e => if startswith "nsu=" e then Some e else None
                                          | None => None
                                          end |}
                   else Err node_id_unavailable
               | None => Err node_id_unavailable
               end
           end
  end.

Definition resolve_node_id (node_id : option string) : outcome ResolveError (string * string * NodeKind) :=
  match node_id with
  | None => Err malformed_id
  | Some id =>
      if negb (truthy (strip id)) then Err malformed_id
      else match canonical_node_id id (namespace_uri_by_index model) with
           | None => Err invalid_node_id
           | Some canonical =>
               let element := match element_id_by_expanded_node_id model !! canonical with
                              | Some e => Some e
                              | None => element_id_by_node_id model !! strip id
                              end in
               match element ≫= (fun e => nodes_by_id model !! e) with
               | Some node => Ok (n_id node, n_name node, n_kind node)
               | None => Err node_id_not_found
               end
           end
  end.

(** [success] is the conjunction of the items' success. *)
Definition resolve_element_ids_to_node_ids (ids : list (option string)) : bool * list (outcome ResolveError ElementNode) :=
  let items := map resolve_element_id ids in (forallb is_ok items, items).
Definition resolve_node_ids_to_element_ids (ids : list (option string)) : bool * list (outcome ResolveError (string * string * NodeKind)) :=
  let items := map resolve_node_id ids in (forallb is_ok items, items).

(** ** Search *)

Record SearchArgs := {
  sa_text : string;
  sa_kind : option NodeKind;
  sa_role : option SemanticRole;
  sa_namespace : option string;
  sa_type : option string;
  sa_confidence : option MappingConfidence;
  sa_profile : option string;
  sa_relationship : option string;
  sa_limit : nat;
  sa_offset : nat;
}.

Definition role_str (r : SemanticRole) : string :=
  match r with
  | role_asset => "asset" | role_group => "group" | role_component => "component" | role_datapoint => "datapoint"
  | role_property => "property" | role_unknown => "unknown"
  end.

Definition confidence_str (c : MappingConfidence) : string :=
  match c with conf_high => "high" | conf_medium => "medium" | conf_low => "low" end.

(** A filter that is absent lets everything through. *)
Definition passes {A} (filter : option A) (p : A -> bool) : bool := match filter with Some x => p x | None => true end.

(** [str(v or "")] and [str(v)] for the metadata values that are strings; other values are not texts. *)
Definition meta_text (v : option meta_value) : string := default ε (meta_str v).

Definition searchable (node : ModelNode) : list string :=
  [n_id node; n_name node; kind_str (n_kind node); default ε (n_type node); n_source_node_id node; default ε (n_source_type_id node);
   role_str (semantic_role_of node); confidence_str (confidence_of node); meta_text (namespace_value node);
   meta_text (n_metadata node !! "description"); join " " (profile_ids_of node); join " " (dict_keys (model_relationships node))].

Definition search_match (args : SearchArgs) (node : ModelNode) : bool :=
  let text := casefold (strip (sa_text args)) in
  (passes (sa_kind args) (fun k => bool_decide (n_kind node = k)) &&
   passes (sa_role args) (fun r => bool_decide (semantic_role_of node = r)) &&
   passes (sa_namespace args) (fun u => bool_decide (namespace_value node = Some (MStr u))) &&
   passes (sa_type args) (fun t => bool_decide (n_type node = Some t) || bool_decide (n_source_type_id node = Some t)) &&
   passes (sa_confidence args) (fun c => bool_decide (confidence_of node = c)) &&
   passes (sa_profile args) (fun p => mem p (profile_ids_of node)) &&
   passes (sa_relationship args) (fun r => dict_mem r (model_relationships node)) &&
   (negb (truthy text) || existsb (fun value => str_in text (casefold value)) (searchable node)))%bool.

Definition node_leb (a b : ModelNode) : bool :=
  let x := casefold (n_name a) in let y := casefold (n_name b) in
  if bool_decide (x = y) then string_leb (n_id a) (n_id b) else string_leb x y.

Record SearchResult := { sr_total : nat; sr_returned : nat; sr_offset : nat; sr_items : list Summary; sr_next : option nat }.

Definition search_model_elements (args : SearchArgs) : SearchResult :=
  let matched := py_sorted node_leb (List.filter (search_match args) (dict_values (nodes_by_id model))) in
  let items := take (sa_limit args) (drop (sa_offset args) matched) in
  let next := (sa_offset args + length items)%nat in
  {| sr_total := length matched; sr_returned := length items; sr_offset := sa_offset args;
     sr_items := map model_node_summary items;
     sr_next := if Nat.ltb next (length matched) then Some next else None |}.

(** ** Context of an element *)

Record Bounded (A : Type) := { bo_total : nat; bo_returned : nat; bo_truncated : bool; bo_items : list A }.
Arguments bo_total {A} _. Arguments bo_returned {A} _. Arguments bo_truncated {A} _. Arguments bo_items {A} _.

Definition bounded {A} (items : list A) (limit : nat) : Bounded A :=
  {| bo_total := length items; bo_returned := Nat.min (length items) limit; bo_truncated := Nat.ltb limit (length items);
     bo_items := take limit items |}.

Definition bounded_context_items (ids : list string) (limit : nat) : Bounded Summary :=
  bounded (map model_node_summary (omap (fun id => nodes_by_id model !! id) ids)) limit.

(** Up to [depth] ancestors on the hierarchy, nearest first, none twice. *)
Fixpoint context_ancestors (depth : nat) (visited : list string) (current : string) : list Summary :=
  match depth with
  | O => []
  | S depth' =>
      match hierarchy_parent_by_id model !! current with
      | None => []
      | Some parent_id =>
          match nodes_by_id model !! parent_id with
          | Some parent =>
              if mem parent_id visited then []
              else model_node_summary parent :: context_ancestors depth' (parent_id :: visited) parent_id
          | None => []
          end
      end
  end.

Record ContextArgs := {
  ca_element : string;
  ca_ancestor_depth : nat;
  ca_child_limit : nat;
  ca_relationship_limit : nat;
  ca_include_children : bool;
  ca_include_relationships : bool;
  ca_include_type : bool;
}.

Record Related := { re_type : string; re_plane : RelationshipPlane; re_target : string * option Summary }.

Record Source := {
  so_node : string;
  so_type : option string;
  so_description : option meta_value;
  so_namespace : option meta_value;
  so_profiles : list string;
  so_metadata : dict string meta_value;
}.

Record ElementContext := {
  ec_element : Summary;
  ec_ancestors : list Summary;
  ec_parents : list (string * RelationshipPlane * Summary);
  ec_children : option (Bounded Summary * Bounded Summary);
  ec_relationships : option (Bounded Related);
  ec_source : option Source;
}.

Definition context_parents (node : ModelNode) : list (string * RelationshipPlane * Summary) :=
  let entry type plane parent :=
    match parent ≫= (fun p => nodes_by_id model !! p) with Some p => [(type, plane, model_node_summary p)] | None => [] end in
  entry "HasParent" hierarchy_plane (hierarchy_parent_by_id model !! n_id node) ++
  entry "ComponentOf" composition_plane (composition_parent_by_id model !! n_id node).

Definition context_relationships (node : ModelNode) : list Related :=
  List.concat (map (fun '(type, targets) =>
      map (fun t => {| re_type := type; re_plane := relationship_plane type;
                       re_target := (t, model_node_summary <$> nodes_by_id model !! t) |}) targets)
    (py_sorted (fun x y => string_leb x.1 y.1) (dict_items (model_relationships node)))).

Definition get_element_context (args : ContextArgs) : outcome http_error ElementContext :=
  match nodes_by_id model !! ca_element args with
  | None => Err (not_found_error (ca_element args))
  | Some node =>
      Ok {| ec_element := model_node_summary node;
            ec_ancestors := context_ancestors (ca_ancestor_depth args) [ca_element args] (ca_element args);
            ec_parents := context_parents node;
            ec_children :=
              if ca_include_children args then
                Some (bounded_context_items (default [] (hierarchy_children_by_id model !! n_id node)) (ca_child_limit args),
                      bounded_context_items (default [] (composition_children_by_id model !! n_id node)) (ca_child_limit args))
              else None;
            ec_relationships :=
              if ca_include_relationships args then Some (bounded (context_relationships node) (ca_relationship_limit args)) else None;
            ec_source :=
              if ca_include_type args then
                Some {| so_node := n_source_node_id node; so_type := n_source_type_id node;
                        so_description := n_metadata node !! "description"; so_namespace := namespace_value node;
                        so_profiles := profile_ids_of node; so_metadata := n_metadata node |}
              else None |}
  end.

(** ** Summary of a subtree *)

Record SubtreeArgs := {
  st_root : string;
  st_max_depth : nat;
  st_max_nodes : nat;
  st_include_hierarchy : bool;
  st_include_composition : bool;
  st_include_properties : bool;
  st_include_actions : bool;
}.

Inductive Tree := Node (summary : Summary) (children : list (string * Tree)).

(** What [visit] shares between its calls: the included ids, the counts and the flag. *)
Record SubtreeState := {
  ss_included : list string;
  ss_kinds : dict NodeKind nat;
  ss_roles : dict SemanticRole nat;
  ss_truncated : bool;
}.

Definition subtree_child_edges (args : SubtreeArgs) (node : ModelNode) : list (string * string) :=
  (if st_include_hierarchy args then map (pair "HasChildren") (default [] (hierarchy_children_by_id model !! n_id node)) else []) ++
  (if st_include_composition args then map (pair "HasComponent") (default [] (composition_children_by_id model !! n_id node)) else []).

Definition count_one {K} `{EqDecision K} (k : K) (d : dict K nat) : dict K nat := <[k := S (default 0%nat (d !! k))]> d.

Definition enter (node : ModelNode) (st : SubtreeState) : SubtreeState :=
  {| ss_included := if mem (n_id node) (ss_included st) then ss_included st else n_id node :: ss_included st;
     ss_kinds := count_one (n_kind node) (ss_kinds st);
     ss_roles := count_one (semantic_role_of node) (ss_roles st);
     ss_truncated := ss_truncated st |}.

Definition mark_truncated (st : SubtreeState) : SubtreeState :=
  {| ss_included := ss_included st; ss_kinds := ss_kinds st; ss_roles := ss_roles st; ss_truncated := true |}.

Definition excluded (args : SubtreeArgs) (child : ModelNode) : bool :=
  ((bool_decide (n_kind child = property) && negb (st_include_properties args)) ||
   (bool_decide (n_kind child = action) && negb (st_include_actions args)))%bool.

(** [visit(node, depth, path)]; [below] is [max_depth - depth]. *)
Fixpoint visit (args : SubtreeArgs) (below : nat) (path : list string) (node : ModelNode) (st : SubtreeState) : Tree * SubtreeState :=
  let st := enter node st in
  match below with
  | O => (Node (model_node_summary node) [],
          match subtree_child_edges args node with [] => st | _ => mark_truncated st end)
  | S below' =>
      let fix children (edges : list (string * string)) (st : SubtreeState) : list (string * Tree) * SubtreeState :=
        match edges with
        | [] => ([], st)
        | (relationship_type, child_id) :: edges' =>
            match nodes_by_id model !! child_id with
            | None => children edges' st
            | Some child =>
                if mem child_id path then children edges' st
                else if excluded args child then children edges' st
                else if Nat.leb (st_max_nodes args) (length (ss_included st)) then ([], mark_truncated st)
                else
                  let '(tree, st) := visit args below' (child_id :: path) child st in
                  let '(trees, st) := children edges' st in
                  ((relationship_type, tree) :: trees, st)
            end
        end in
      let '(trees, st) := children (subtree_child_edges args node) st in
      (Node (model_node_summary node) trees, st)
  end.

Record SubtreeSummary := {
  sm_root : string;
  sm_total : nat;
  sm_truncated : bool;
  sm_tree : Tree;
  sm_by_kind : dict NodeKind nat;
  sm_by_role : dict SemanticRole nat;
}.

Definition summarize_subtree (args : SubtreeArgs) : outcome http_error SubtreeSummary :=
  match nodes_by_id model !! st_root args with
  | None => Err (not_found_error (st_root args))
  | Some root =>
      let '(tree, st) := visit args (st_max_depth args) [st_root args] root
        {| ss_included := []; ss_kinds := ∅; ss_roles := ∅; ss_truncated := false |} in
      Ok {| sm_root := st_root args; sm_total := length (ss_included st); sm_truncated := ss_truncated st; sm_tree := tree;
            sm_by_kind := ss_kinds st; sm_by_role := ss_roles st |}
  end.

(** ** Shortest relationship path *)

Inductive Direction := outgoing | incoming | either.

#[export] Instance Direction_eq_dec : EqDecision Direction.
Proof. solve_decision. Defined.

Record TraceArgs := {
  ta_source : string;
  ta_target : string;
  ta_planes : list RelationshipPlane;
  ta_direction : Direction;
  ta_max_depth : nat;
}.

(** Neighbour, relationship type, plane and the direction in which it is followed. *)
Definition Neighbor : Type := string * string * RelationshipPlane * Direction.

(** The relationships of the chosen planes between elements: source, type, plane, target. *)
Definition model_edges (args : TraceArgs) : list (string * string * RelationshipPlane * string) :=
  List.concat (map (fun '(source_id, source) =>
    List.concat (map (fun '(type, targets) =>
      if bool_decide (relationship_plane type ∈ ta_planes args)
      then map (fun t => (source_id, type, relationship_plane type, t)) (List.filter (fun t => dict_mem t (nodes_by_id model)) targets)
      else []) (dict_items (model_relationships source)))) (dict_items (nodes_by_id model))).

Definition plane_priority (p : RelationshipPlane) : Z :=
  match p with hierarchy_plane => 0 | composition_plane => 1 | graph_plane => 2 end.

Definition direction_str (d : Direction) : string :=
  match d with outgoing => "outgoing" | incoming => "incoming" | either => "either" end.

Definition neighbor_leb (x y : Neighbor) : bool :=
  let '(i, t, p, d) := x in let '(i', t', p', d') := y in
  if negb (bool_decide (i = i')) then string_leb i i'
  else if negb (plane_priority p =? plane_priority p') then plane_priority p <=? plane_priority p'
  else if negb (bool_decide (t = t')) then string_leb t t'
  else string_leb (direction_str d) (direction_str d').

Definition neighbors (args : TraceArgs) (id : string) : list Neighbor :=
  let edges := model_edges args in
  let forward := omap (fun '(s, t, p, x) => if bool_decide (s = id) then Some (x, t, p, outgoing) else None) edges in
  let backward := omap (fun '(s, t, p, x) => if bool_decide (x = id) then Some (s, t, p, incoming) else None) edges in
  py_sorted neighbor_leb (remove_dups
    ((match ta_direction args with incoming => [] | _ => forward end) ++
     (match ta_direction args with outgoing => [] | _ => backward end))).

Inductive PathItem :=
  | PathElement (element : option Summary)
  | PathRelationship (relationship_type : string) (plane : RelationshipPlane) (direction : Direction).

Definition path_element (id : string) : PathItem := PathElement (model_node_summary <$> nodes_by_id model !! id).

Definition QueueItem : Type := string * nat * list PathItem.

Record TraceResult := { tr_found : bool; tr_truncated : bool; tr_length : option nat; tr_path : list PathItem }.

Definition found_path (depth : nat) (path : list PathItem) : TraceResult :=
  {| tr_found := true; tr_truncated := false; tr_length := Some depth; tr_path := path |}.
Definition no_path (truncated : bool) : TraceResult :=
  {| tr_found := false; tr_truncated := truncated; tr_length := None; tr_path := [] |}.

(** What visiting the neighbours of one element comes to. *)
Inductive Expansion :=
  | target_found (path : list PathItem)
  | node_limit_reached
  | continue (visited : list string) (queue : list QueueItem).

Fixpoint expand (target : string) (depth : nat) (path : list PathItem) (adjacent : list Neighbor)
    (visited : list string) (queue : list QueueItem) : Expansion :=
  match adjacent with
  | [] => continue visited queue
  | (id, type, plane, direction) :: adjacent' =>
      if mem id visited then expand target depth path adjacent' visited queue
      else
        let visited := id :: visited in
        let next_path := path ++ [PathRelationship type plane direction; path_element id] in
        if bool_decide (id = target) then target_found next_path
        else
          let queue := queue ++ [(id, S depth, next_path)] in
          if Nat.leb MCP_MODEL_PATH_MAX_NODES (length visited) then node_limit_reached
          else expand target depth path adjacent' visited queue
  end.

Fixpoint trace_loop (fuel : nat) (args : TraceArgs) (visited : list string) (truncated : bool) (queue : list QueueItem) : option TraceResult :=
  match fuel with
  | O => None
  | S fuel' =>
      match queue with
      | [] => Some (no_path truncated)
      | (current, depth, path) :: queue' =>
          if bool_decide (current = ta_target args) then Some (found_path depth path)
          else
            let adjacent := neighbors args current in
            if Nat.leb (ta_max_depth args) depth then
              trace_loop fuel' args visited (truncated || existsb (fun n => negb (mem n.1.1.1 visited)) adjacent) queue'
            else match expand (ta_target args) depth path adjacent visited queue' with
                 | target_found path => Some (found_path (S depth) path)
                 | node_limit_reached => Some (no_path true)
                 | continue visited queue => trace_loop fuel' args visited truncated queue
                 end
      end
  end.

(** Every element enters the queue at most once. *)
Definition trace_fuel : nat := S (S (dict_len (nodes_by_id model))).

Definition trace_relationship_path (args : TraceArgs) : option (outcome http_error TraceResult) :=
  match nodes_by_id model !! ta_source args, nodes_by_id model !! ta_target args with
  | None, _ => Some (Err (not_found_error (ta_source args)))
  | Some _, None => Some (Err (not_found_error (ta_target args)))
  | Some _, Some _ =>
      r ← trace_loop trace_fuel args [ta_source args] false [(ta_source args, 0%nat, [path_element (ta_source args)])]; Some (Ok r)
  end.
End Model.
End ModelTools.
