(* ===== verification/ModelToolsSpec.v ===== *)
(** What the queries of [ModelTools.v] answer: shortest relationship paths, the search, and the
    translation of node ids on a built model. *)

From S2P Require Export ModelTools.

Module ModelToolsSpec.
Import NodeIds Profiles ModelTools.

(** ** Specification of the path search *)

Section Path.
Context (model : BuildResult) (args : TraceArgs).
Abbreviation nodes := (nodes_by_id model).
Abbreviation source := (ta_source args).
Abbreviation target := (ta_target args).

(** The relationship [type] of [x], on a chosen plane, names the element [y]. *)
Definition related_to (x type y : string) : Prop :=
  exists node targets, (x, node) ∈ dict_items nodes /\ (type, targets) ∈ dict_items (model_relationships model node) /\
    y ∈ targets /\ is_Some (nodes !! y) /\ relationship_plane type ∈ ta_planes args.

(** One step from [x] to [y], in a direction that the call allows. *)
Definition trace_step (x type : string) (d : Direction) (y : string) : Prop :=
  match d with
  | outgoing => ta_direction args ≠ incoming /\ related_to x type y
  | incoming => ta_direction args ≠ outgoing /\ related_to y type x
  | either => False
  end.

(** [path] leads from the source to [y] in [n] steps. *)
Inductive trail : list PathItem -> nat -> string -> Prop :=
  | trail_start : trail [path_element model source] 0 source
  | trail_step path n x type d y :
      trail path n x -> trace_step x type d y ->
      trail (path ++ [PathRelationship type (relationship_plane type) d; path_element model y]) (S n) y.

(** [y] is [n] steps away, and no fewer. *)
Definition distance (y : string) (n : nat) : Prop :=
  (exists path, trail path n y) /\ forall path m, trail path m y -> (n <= m)%nat.

(** ** Lemmas: neighbours *)

Lemma elem_of_model_edges x type p y :
  (x, type, p, y) ∈ model_edges model args <-> related_to x type y /\ p = relationship_plane type.
Proof.
  unfold model_edges, related_to. rewrite list_elem_of_In, List.in_concat. split.
  - intros (l & (q & <- & Hq)%List.in_map_iff & Hl). destruct q as [x' node]. apply List.in_concat in Hl as (l & (q & <- & Hr)%List.in_map_iff & Hl).
    destruct q as [type' targets]. case_bool_decide as Hp; [|done]. apply List.in_map_iff in Hl as (y' & E & Hy). injection E as -> -> <- ->.
    apply list_elem_of_In, elem_of_filter_list in Hy as [Hy Hm]. apply dict_mem_true in Hm.
    split; [|done]. exists node, targets. split_and!; [by apply list_elem_of_In|by apply list_elem_of_In|done|done|done].
  - intros [(node & targets & Hx & Ht & Hy & Hn & Hp) ->]. eexists. split; [apply List.in_map_iff; eexists; split; [reflexivity|by apply list_elem_of_In]|].
    cbn. apply List.in_concat. eexists. split; [apply List.in_map_iff; eexists; split; [reflexivity|by apply list_elem_of_In]|].
    cbn. rewrite bool_decide_true by done. apply List.in_map_iff. exists y. split; [done|].
    apply list_elem_of_In, elem_of_filter_list. by rewrite dict_mem_true.
Qed.

Lemma elem_of_neighbors x y type p d :
  (y, type, p, d) ∈ neighbors model args x <-> trace_step x type d y /\ p = relationship_plane type.
Proof.
  unfold neighbors. rewrite elem_of_py_sorted, elem_of_remove_dups, elem_of_app.
  assert (Hf : (y, type, p, d) ∈ omap (fun '(s, t, p, z) => if bool_decide (s = x) then Some (z, t, p, outgoing) else None) (model_edges model args)
    <-> d = outgoing /\ related_to x type y /\ p = relationship_plane type).
  { rewrite list_elem_of_omap. split.
    - intros ([[[s t] p'] z] & He & E). case_bool_decide; [|done]. injection E as <- <- <- <-. subst s. by apply elem_of_model_edges in He.
    - intros [-> He%elem_of_model_edges]. exists (x, type, p, y). by rewrite bool_decide_true. }
  assert (Hb : (y, type, p, d) ∈ omap (fun '(s, t, p, z) => if bool_decide (z = x) then Some (s, t, p, incoming) else None) (model_edges model args)
    <-> d = incoming /\ related_to y type x /\ p = relationship_plane type).
  { rewrite list_elem_of_omap. split.
    - intros ([[[s t] p'] z] & He & E). case_bool_decide; [|done]. injection E as <- <- <- <-. subst z. by apply elem_of_model_edges in He.
    - intros [-> He%elem_of_model_edges]. exists (y, type, p, x). by rewrite bool_decide_true. }
  unfold trace_step. destruct (ta_direction args), d; rewrite ?Hf, ?Hb, ?elem_of_nil; intuition congruence.
Qed.

(** The plane and its description follow from the step. *)
Lemma related_nodes x type y : related_to x type y -> is_Some (nodes !! x) /\ is_Some (nodes !! y).
Proof.
  intros (node & targets & Hx & _ & _ & Hy & _). split; [|done]. apply elem_of_dict_keys. unfold dict_keys.
  apply list_elem_of_fmap. by exists (x, node).
Qed.

Lemma trace_step_nodes x type d y : trace_step x type d y -> is_Some (nodes !! y).
Proof. destruct d; cbn; [intros [_ H]|intros [_ H]|done]; by apply related_nodes in H as [? ?]. Qed.

(** ** Lemmas: trails and distances *)

Lemma trail_nodes path n y : is_Some (nodes !! source) -> trail path n y -> is_Some (nodes !! y).
Proof. intros Hs [|? ? ? ? ? ? ? H]; [done|by eapply trace_step_nodes]. Qed.

Lemma distance_unique y n m : distance y n -> distance y m -> n = m.
Proof. intros [[p Hp] Hn] [[q Hq] Hm]. apply Hn in Hq. apply Hm in Hp. lia. Qed.

Lemma distance_source : distance source 0.
Proof. split; [eexists; constructor|lia]. Qed.

(** ** Lemmas: the queue and the visited elements *)

Definition entry_ids (queue : list QueueItem) : list string := map (fun q => q.1.1) queue.

(** An entry of the queue holds a shortest trail to its element. *)
Definition entry_ok (visited : list string) (q : QueueItem) : Prop :=
  q.1.1 ∈ visited /\ distance q.1.1 q.1.2 /\ trail q.2 q.1.2 q.1.1 /\ (q.1.2 <= ta_max_depth args)%nat.

(** An element that has left the queue: its neighbours are visited, unless the search stopped at it. *)
Definition explored (visited : list string) (truncated : bool) (x : string) : Prop :=
  exists n, distance x n /\
    ((n < ta_max_depth args)%nat \/ truncated = false -> forall type d y, trace_step x type d y -> y ∈ visited).

Record search_inv (visited : list string) (truncated : bool) (queue : list QueueItem) : Prop := {
  inv_nodup : NoDup visited;
  inv_known : forall x, x ∈ visited -> is_Some (nodes !! x);
  inv_source : source ∈ visited;
  inv_target : target ∉ visited;
  inv_queue : Forall (entry_ok visited) queue;
  inv_explored : forall x, x ∈ visited -> x ∈ entry_ids queue \/ explored visited truncated x;
  inv_sorted : StronglySorted (fun p q : QueueItem => (p.1.2 <= q.1.2 <= S p.1.2)%nat) queue;
}.

(** Whatever is near is visited, or behind an entry of the queue. *)
Lemma near_visited visited truncated queue path n y :
  search_inv visited truncated queue -> trail path n y -> (n <= ta_max_depth args)%nat ->
  y ∈ visited \/ exists q, q ∈ queue /\ (q.1.2 < n)%nat.
Proof.
  intros Hinv. induction 1 as [|path n x type d y Ht IH Hs]; intros Hn; [left; apply Hinv|].
  destruct IH as [Hx|(q & Hq & Hlt)]; [lia| |right; exists q; split; [done|lia]].
  destruct (inv_explored _ _ _ Hinv x Hx) as [Hin|(m & [Hm Hmin] & He)].
  - apply elem_of_map in Hin as (q & -> & Hq). right. exists q. split; [done|].
    pose proof (inv_queue _ _ _ Hinv) as Hf. rewrite Forall_forall in Hf. destruct (Hf q Hq) as (_ & [_ Hmin] & _).
    apply Hmin in Ht. lia.
  - left. eapply He; [|done]. left. apply Hmin in Ht. lia.
Qed.

(** What is new next to the head of the queue is one step further, and no nearer. *)
Lemma new_distance visited truncated x depth path queue type d y :
  search_inv visited truncated ((x, depth, path) :: queue) -> (depth < ta_max_depth args)%nat ->
  trace_step x type d y -> y ∉ visited -> distance y (S depth).
Proof.
  intros Hinv Hd Hs Hy. pose proof (inv_queue _ _ _ Hinv) as Hf. apply Forall_cons in Hf as [(_ & _ & Ht & _) Hf]. cbn in *.
  split; [eexists; by eapply trail_step|]. intros p m Hm. destruct (decide (S depth <= m)%nat) as [|Hlt]; [done|].
  destruct (near_visited _ _ _ p m y Hinv Hm) as [|(q & Hq & Hlt')]; [lia|done|].
  pose proof (inv_sorted _ _ _ Hinv) as Hso. inversion_clear Hso as [|? ? _ Hall]. rewrite Forall_forall in Hall.
  apply elem_of_cons in Hq as [->|Hq]; cbn in *; [lia|]. apply Hall in Hq. cbn in Hq. lia.
Qed.

Lemma visited_bound visited truncated queue : search_inv visited truncated queue -> (length visited <= dict_len nodes)%nat.
Proof.
  intros Hinv. unfold dict_len. rewrite <-(length_fmap fst). apply submseteq_length, NoDup_submseteq; [apply Hinv|].
  intros x Hx%(inv_known _ _ _ Hinv). by apply elem_of_dict_keys.
Qed.

(** ** Lemmas: one expansion *)

(** What expanding [x] puts in the queue. *)
Definition new_entry (x : string) (depth : nat) (path : list PathItem) (visited : list string) (q : QueueItem) : Prop :=
  exists type d, trace_step x type d q.1.1 /\ q.1.1 ∉ visited /\ q.1.2 = S depth /\
    q.2 = path ++ [PathRelationship type (relationship_plane type) d; path_element model q.1.1].

(** The outcomes of an expansion that must have visited [seen]. *)
Definition expansion_spec (x : string) (depth : nat) (path : list PathItem) (seen visited : list string)
    (queue : list QueueItem) (e : Expansion) : Prop :=
  match e with
  | target_found path' =>
      exists type d, trace_step x type d target /\ path' = path ++ [PathRelationship type (relationship_plane type) d; path_element model target]
  | node_limit_reached =>
      exists visited', NoDup visited' /\ (MCP_MODEL_PATH_MAX_NODES <= length visited')%nat /\
        forall y, y ∈ visited' -> y ∈ visited \/ is_Some (nodes !! y)
  | continue visited' queue' =>
      exists new, queue' = queue ++ new /\ visited' ≡ₚ entry_ids new ++ visited /\ NoDup visited' /\ target ∉ visited' /\
        Forall (new_entry x depth path visited) new /\ seen ⊆ visited'
  end.

Definition ids_of (adjacent : list Neighbor) : list string := map (fun n => n.1.1.1) adjacent.

Lemma expansion_seen x depth path seen seen' visited queue e :
  seen ⊆ seen' -> expansion_spec x depth path seen' visited queue e -> expansion_spec x depth path seen visited queue e.
Proof.
  intros Hs. destruct e as [p| |v q]; cbn; [done|done|]. intros (new & E & Hp & Hn & Ht & Hf & Hall). exists new.
  split_and!; try done. by intros y Hy%Hs%Hall.
Qed.

Lemma expand_spec x depth path adjacent visited new visited' queue :
  (forall n, n ∈ adjacent -> n ∈ neighbors model args x) ->
  visited' ≡ₚ entry_ids new ++ visited -> NoDup visited' -> target ∉ visited' -> Forall (new_entry x depth path visited) new ->
  expansion_spec x depth path (ids_of adjacent ++ visited') visited queue (expand model target depth path adjacent visited' (queue ++ new)).
Proof.
  revert new visited'. induction adjacent as [|[[[y type] p] d] adjacent IH]; intros new visited' Hadj Hp Hnd Ht Hnew; cbn [expand].
  { exists new. by split_and!. }
  assert (Hadj' : forall n, n ∈ adjacent -> n ∈ neighbors model args x) by (intros n Hn; apply Hadj; by right).
  destruct (elem_of_neighbors x y type p d) as [[Hs ->] _]; [apply Hadj; by left|].
  destruct (mem y visited') eqn:Em.
  { apply mem_spec in Em. eapply expansion_seen; [|by apply IH]. cbn. intros z [->|Hz]%elem_of_cons; [|done]. by apply elem_of_app; right. }
  apply mem_false in Em. case_bool_decide as E; [subst y; cbn; by exists type, d|].
  set (q := (y, S depth, path ++ [PathRelationship type (relationship_plane type) d; path_element model y]) : QueueItem).
  assert (Hn : new_entry x depth path visited q).
  { exists type, d. split_and!; try done. intros Hy. apply Em. rewrite Hp. apply elem_of_app. by right. }
  assert (Hp' : y :: visited' ≡ₚ entry_ids (new ++ [q]) ++ visited).
  { unfold entry_ids. rewrite List.map_app, Hp. cbn. fold (entry_ids new). rewrite <-app_assoc. by rewrite Permutation_middle. }
  assert (Hnd' : NoDup (y :: visited')) by by constructor.
  destruct (Nat.leb_spec MCP_MODEL_PATH_MAX_NODES (length (y :: visited'))) as [Hl|Hl].
  - exists (y :: visited'). split_and!; [done|done|]. intros z. rewrite Hp'. intros [Hz|Hz]%elem_of_app; [right|by left].
    apply elem_of_map in Hz as (r & -> & [Hr| ->%list_elem_of_singleton]%elem_of_app); [|by eapply trace_step_nodes].
    rewrite Forall_forall in Hnew. destruct (Hnew r Hr) as (? & ? & ? & _). by eapply trace_step_nodes.
  - rewrite <-app_assoc. eapply expansion_seen; [|apply IH; try done].
    + cbn. intros z. rewrite !elem_of_cons, !elem_of_app, elem_of_cons. intuition.
    + intros [Hy|Hy]%elem_of_cons; congruence.
    + apply Forall_app. by split; [|constructor].
Qed.

(** ** Lemmas: the loop *)

(** The answer to the search: a shortest trail, or none. *)
Definition trace_answer (r : TraceResult) : Prop :=
  if tr_found r then
    exists n, tr_length r = Some n /\ (n <= ta_max_depth args)%nat /\ trail (tr_path r) n target /\ distance target n
  else
    tr_length r = None /\ tr_path r = [] /\
    (tr_truncated r = false -> forall path n, ~ trail path n target) /\
    ((dict_len nodes < MCP_MODEL_PATH_MAX_NODES)%nat -> forall path n, (n <= ta_max_depth args)%nat -> ~ trail path n target).

Lemma explored_mono visited visited' truncated truncated' x :
  (forall y, y ∈ visited -> y ∈ visited') -> (truncated' = false -> truncated = false) ->
  explored visited truncated x -> explored visited' truncated' x.
Proof. intros Hv Ht (n & Hd & He). exists n. split; [done|]. intros Hn type d y Hs. eapply Hv, He; [|exact Hs]. destruct Hn; auto. Qed.

Lemma entry_ok_mono visited visited' q : (forall y, y ∈ visited -> y ∈ visited') -> entry_ok visited q -> entry_ok visited' q.
Proof. intros Hv [Hq H]. split; [by apply Hv|exact H]. Qed.

(** The queue is empty: nothing more is reached. *)
Lemma search_end visited truncated : search_inv visited truncated [] -> trace_answer (no_path truncated).
Proof.
  intros Hinv. cbn. split_and!; try done.
  - intros -> path n Ht. apply (inv_target _ _ _ Hinv). revert Ht. generalize target. intros y. induction 1 as [|path n x type d y Ht IH Hs]; [apply Hinv|].
    destruct (inv_explored _ _ _ Hinv x IH) as [[]%not_elem_of_nil|(m & _ & He)]. eapply He; [by right|done].
  - intros _ path n Hn Ht. destruct (near_visited _ _ _ _ _ _ Hinv Ht Hn) as [Hy|(q & []%not_elem_of_nil & _)]. by apply (inv_target _ _ _ Hinv) in Hy.
Qed.

(** An element at the depth limit is not expanded. *)
Lemma inv_limit visited truncated x depth path queue :
  search_inv visited truncated ((x, depth, path) :: queue) -> (ta_max_depth args <= depth)%nat ->
  search_inv visited (truncated || existsb (fun n : Neighbor => negb (mem n.1.1.1 visited)) (neighbors model args x)) queue.
Proof.
  intros [Hnd Hk Hs Ht Hq He Hso] Hd. apply Forall_cons in Hq as [(_ & Hdx & _) Hq]. inversion_clear Hso. split; try done.
  intros y Hy. destruct (He y Hy) as [[->|Hin]%elem_of_cons|Hx]; [right|by left|right].
  - exists depth. split; [done|]. intros [Hlt|Hf] type d z Hz; [cbn in *; lia|]. apply orb_false_iff in Hf as [_ Hf].
    destruct (mem z visited) eqn:Em; [by apply mem_spec|]. exfalso. apply not_true_iff_false in Hf. apply Hf, List.existsb_exists.
    exists (z, type, relationship_plane type, d). split; [by apply list_elem_of_In, elem_of_neighbors|]. cbn. by rewrite Em.
  - eapply explored_mono; [done| |exact Hx]. by intros [? _]%orb_false_iff.
Qed.

(** An element that is expanded. *)
Lemma inv_expand visited truncated x depth path queue new visited' :
  search_inv visited truncated ((x, depth, path) :: queue) -> (depth < ta_max_depth args)%nat ->
  visited' ≡ₚ entry_ids new ++ visited -> NoDup visited' -> target ∉ visited' ->
  Forall (new_entry x depth path visited) new -> ids_of (neighbors model args x) ++ visited ⊆ visited' ->
  search_inv visited' truncated (queue ++ new).
Proof.
  intros Hinv Hd Hp Hnd Ht Hnew Hall. pose proof Hinv as [_ Hk Hs _ Hq He Hso]. apply Forall_cons in Hq as [(_ & Hdx & Htx & _) Hq].
  assert (Hsub : forall y, y ∈ visited -> y ∈ visited') by (intros y Hy; apply Hall, elem_of_app; by right).
  inversion_clear Hso as [|? ? Hso' Hhd]. split; try done; [|by apply Hsub| | |].
  - intros y. rewrite Hp. intros [Hy|Hy]%elem_of_app; [|auto]. apply elem_of_map in Hy as (q & -> & Hy).
    rewrite Forall_forall in Hnew. destruct (Hnew q Hy) as (? & ? & ? & _). by eapply trace_step_nodes.
  - apply Forall_app. split; [eapply Forall_impl; [exact Hq|]; intros q; by apply entry_ok_mono|]. apply Forall_forall. intros q Hq'.
    rewrite Forall_forall in Hnew. destruct (Hnew q Hq') as (type & d & Hst & Hv & Ed & Ep). split; [|split_and!; rewrite ?Ed, ?Ep].
    + rewrite Hp. apply elem_of_app. left. apply elem_of_map. by exists q.
    + by eapply new_distance.
    + by eapply trail_step.
    + lia.
  - intros y Hy. rewrite Hp in Hy. apply elem_of_app in Hy as [Hy|Hy].
    + left. unfold entry_ids. rewrite List.map_app. apply elem_of_app. by right.
    + destruct (He y Hy) as [[->|Hin]%elem_of_cons|Hx]; [right|left|right].
      * exists depth. split; [done|]. intros _ type d z Hz. apply Hall, elem_of_app. left. apply elem_of_map.
        exists (z, type, relationship_plane type, d). split; [done|]. by apply elem_of_neighbors.
      * unfold entry_ids. rewrite List.map_app. apply elem_of_app. by left.
      * eapply explored_mono; [exact Hsub| |exact Hx]; done.
  - assert (Hsn : StronglySorted (fun p q : QueueItem => (p.1.2 <= q.1.2 <= S p.1.2)%nat) new).
    { clear -Hnew. induction Hnew as [|q l (t & d & _ & _ & E & _) Hf IH]; constructor; [done|]. eapply Forall_impl; [exact Hf|].
      intros r (t' & d' & _ & _ & E' & _). lia. }
    clear -Hso' Hhd Hsn Hnew. induction Hso' as [|q l Hl IH Hf]; [done|]. apply Forall_cons in Hhd as [Hq Hhd]. cbn. constructor; [auto|].
    apply Forall_app. split; [done|]. eapply Forall_impl; [exact Hnew|]. intros r (t' & d' & _ & _ & E' & _). cbn in *. lia.
Qed.

Lemma trace_loop_spec fuel visited truncated queue :
  search_inv visited truncated queue -> (dict_len nodes + length queue < fuel + length visited)%nat ->
  exists r, trace_loop model fuel args visited truncated queue = Some r /\ trace_answer r.
Proof.
  revert visited truncated queue. induction fuel as [|fuel IH]; intros visited truncated queue Hinv Hf; pose proof (visited_bound _ _ _ Hinv) as Hb; [lia|].
  cbn [trace_loop]. destruct queue as [|[[x depth] path] queue]; [eexists; split; [done|by eapply search_end]|]. cbn [length] in Hf.
  pose proof (inv_queue _ _ _ Hinv) as Hq. apply Forall_cons in Hq as [(Hx & Hdx & Htx & _) _].
  rewrite bool_decide_false by (intros ->; by apply (inv_target _ _ _ Hinv)).
  destruct (Nat.leb_spec (ta_max_depth args) depth) as [Hd|Hd]; [apply IH; [by eapply inv_limit|lia]|].
  pose proof (expand_spec x depth path (neighbors model args x) visited [] visited queue) as He. rewrite app_nil_r in He.
  specialize (He ltac:(done) ltac:(done) (inv_nodup _ _ _ Hinv) (inv_target _ _ _ Hinv) ltac:(by constructor)).
  destruct expand as [path'| |visited' queue']; cbn in He.
  - destruct He as (type & d & Hs & ->). eexists. split; [done|]. exists (S depth).
    split_and!; [done|lia|by eapply trail_step|]. by eapply new_distance; [..|apply Hinv].
  - destruct He as (visited' & Hnd & Hl & Hk). eexists. split; [done|]. cbn. split_and!; try done. intros Hlt. exfalso.
    assert (length visited' <= dict_len nodes)%nat; [|lia]. unfold dict_len. rewrite <-(length_fmap fst).
    apply submseteq_length, NoDup_submseteq; [done|]. intros y [Hy|Hy]%Hk; apply elem_of_dict_keys; [by apply (inv_known _ _ _ Hinv)|done].
  - destruct He as (new & -> & Hp & Hnd & Ht & Hnew & Hall). apply IH; [by eapply inv_expand|].
    rewrite Hp, !length_app. unfold entry_ids, QueueItem in *. rewrite List.length_map. lia.
Qed.

Lemma search_start : is_Some (nodes !! source) -> source ≠ target ->
  search_inv [source] false [(source, 0%nat, [path_element model source])].
Proof.
  intros Hs Hn. split.
  - apply NoDup_singleton.
  - by intros x ->%list_elem_of_singleton.
  - by left.
  - intros E%list_elem_of_singleton. congruence.
  - apply Forall_singleton. split_and!; [by left|apply distance_source|constructor|cbn; lia].
  - intros x ->%list_elem_of_singleton. left. by left.
  - repeat constructor.
Qed.
End Path.

Lemma trace_answers model args :
  exists answer, trace_relationship_path model args = Some answer /\
    match answer with
    | Err e =>
        (nodes_by_id model !! ta_source args = None /\ e = not_found_error (ta_source args)) \/
        (is_Some (nodes_by_id model !! ta_source args) /\ nodes_by_id model !! ta_target args = None /\ e = not_found_error (ta_target args))
    | Ok r => is_Some (nodes_by_id model !! ta_source args) /\ is_Some (nodes_by_id model !! ta_target args) /\ trace_answer model args r
    end.
Proof.
  unfold trace_relationship_path.
  destruct (nodes_by_id model !! ta_source args) as [s|] eqn:Es; [|eexists; split; [done|by left]].
  destruct (nodes_by_id model !! ta_target args) as [t|] eqn:Et; [|eexists; split; [done|by right]].
  destruct (decide (ta_source args = ta_target args)) as [E|E].
  - eexists. split; [cbn; by rewrite bool_decide_true by done|]. split_and!; try done. exists 0%nat. rewrite <-E.
    split_and!; [done|lia|constructor|apply distance_source].
  - destruct (trace_loop_spec model args (trace_fuel model) [ta_source args] false [(ta_source args, 0%nat, [path_element model (ta_source args)])])
      as (r & Hr & Ha); [by apply search_start; [rewrite Es|]|unfold trace_fuel; cbn; lia|].
    rewrite Hr. eexists. split; [done|]. by split_and!.
Qed.

(** C13. The search for a relationship path always answers. It refuses an element that the model does not have, the
    source first. Otherwise it finds a path along relationships of the chosen planes, in the chosen direction and within
    the depth limit, and no path to the target is shorter; or it finds none: then there is none within the depth limit,
    if the model has fewer than 5000 elements, and none at all if the answer is not marked as truncated. *)
Theorem trace_exact model args :
  exists answer, trace_relationship_path model args = Some answer /\
    match answer with
    | Err e =>
        (nodes_by_id model !! ta_source args = None /\ e = not_found_error (ta_source args)) \/
        (is_Some (nodes_by_id model !! ta_source args) /\ nodes_by_id model !! ta_target args = None /\ e = not_found_error (ta_target args))
    | Ok r => is_Some (nodes_by_id model !! ta_source args) /\ is_Some (nodes_by_id model !! ta_target args) /\ trace_answer model args r
    end.
Proof. apply trace_answers. Qed.

(** ** Specification of the subtree *)

Section Subtree.
Context (model : BuildResult) (args : SubtreeArgs).
Abbreviation nodes := (nodes_by_id model).

(** The nodes of a tree, once for every place. *)
Fixpoint tree_nodes (t : Tree) : list Summary :=
  match t with Node s children => s :: List.concat (map (fun c => tree_nodes c.2) children) end.

Definition tree_ids (t : Tree) : list string := map su_id (tree_nodes t).

(** The levels below the root. *)
Fixpoint tree_height (t : Tree) : nat :=
  match t with Node _ children => list_max (map (fun c => S (tree_height c.2)) children) end.

Definition places_with (p : Summary -> bool) (t : Tree) : nat := length (List.filter p (tree_nodes t)).

(** A child that the tree leaves out: unknown, on the path to it, or of a kind that is not asked for. *)
Definition left_out (path : list string) (child_id : string) : Prop :=
  match nodes !! child_id with None => True | Some child => child_id ∈ path \/ excluded args child = true end.

(** [t] is the subtree below [node], reached along [path]; if it is [cut], the last children of a node may be missing. *)
Inductive unfolds (cut : bool) : list string -> ModelNode -> Tree -> Prop :=
  | unfolds_node path node children :
      unfolds_children cut path (subtree_child_edges model args node) children ->
      unfolds cut path node (Node (model_node_summary model node) children)
with unfolds_children (cut : bool) : list string -> list (string * string) -> list (string * Tree) -> Prop :=
  | children_end path : unfolds_children cut path [] []
  | children_cut path edges : cut = true -> unfolds_children cut path edges []
  | children_skip path type child_id edges children :
      left_out path child_id -> unfolds_children cut path edges children ->
      unfolds_children cut path ((type, child_id) :: edges) children
  | children_take path type child_id child tree edges children :
      nodes !! child_id = Some child -> ~ left_out path child_id -> unfolds cut (child_id :: path) child tree ->
      unfolds_children cut path edges children ->
      unfolds_children cut path ((type, child_id) :: edges) ((type, tree) :: children).

(** ** Lemmas *)

(** The loop of [visit] over the children. *)
Definition visit_children (below : nat) (path : list string) : list (string * string) -> SubtreeState -> list (string * Tree) * SubtreeState :=
  fix children edges st :=
  match edges with
  | [] => ([], st)
  | (relationship_type, child_id) :: edges' =>
      match nodes !! child_id with
      | None => children edges' st
      | Some child =>
          if mem child_id path then children edges' st
          else if excluded args child then children edges' st
          else if Nat.leb (st_max_nodes args) (length (ss_included st)) then ([], mark_truncated st)
          else
            let '(tree, st) := visit model args below (child_id :: path) child st in
            let '(trees, st) := children edges' st in
            ((relationship_type, tree) :: trees, st)
      end
  end.

Lemma visit_step below path node st :
  visit model args (S below) path node st =
  let '(trees, st) := visit_children below path (subtree_child_edges model args node) (enter model node st) in
  (Node (model_node_summary model node) trees, st).
Proof. reflexivity. Qed.

Lemma visit_leaf path node st :
  visit model args 0 path node st =
  (Node (model_node_summary model node) [],
   match subtree_child_edges model args node with [] => enter model node st | _ => mark_truncated (enter model node st) end).
Proof. reflexivity. Qed.

(** How the shared state grows by the places [l]. *)
Record grows (l : list Summary) (st st' : SubtreeState) : Prop := {
  grows_included : forall x, x ∈ ss_included st' <-> x ∈ ss_included st \/ x ∈ map su_id l;
  grows_nodup : NoDup (ss_included st) -> NoDup (ss_included st');
  grows_kinds : forall k, default 0%nat (ss_kinds st' !! k) =
    (default 0%nat (ss_kinds st !! k) + length (List.filter (fun s => bool_decide (su_kind s = k)) l))%nat;
  grows_roles : forall r, default 0%nat (ss_roles st' !! r) =
    (default 0%nat (ss_roles st !! r) + length (List.filter (fun s => bool_decide (su_role s = r)) l))%nat;
  grows_truncated : ss_truncated st' = false -> ss_truncated st = false;
}.

Lemma grows_none st : grows [] st st.
Proof. split; cbn; intros; first [done|rewrite elem_of_nil; tauto|lia]. Qed.

Lemma grows_mark st : grows [] st (mark_truncated st).
Proof. split; cbn; intros; first [done|rewrite elem_of_nil; tauto|lia]. Qed.

Lemma grows_app l l' st st' st'' : grows l st st' -> grows l' st' st'' -> grows (l ++ l') st st''.
Proof.
  intros [Hi Hn Hk Hr Ht] [Hi' Hn' Hk' Hr' Ht']. split.
  - intros x. rewrite Hi', Hi, List.map_app, elem_of_app. tauto.
  - auto.
  - intros k. rewrite Hk', Hk, List.filter_app, length_app. lia.
  - intros r. rewrite Hr', Hr, List.filter_app, length_app. lia.
  - auto.
Qed.

Lemma count_one_lookup {K} `{EqDecision K} (k k' : K) (d : dict K nat) :
  default 0%nat (count_one k d !! k') = (default 0%nat (d !! k') + (if bool_decide (k = k') then 1 else 0))%nat.
Proof.
  unfold count_one. rewrite dict_lookup_insert. case_bool_decide as E; [subst k'; cbn; lia|lia].
Qed.

Lemma grows_enter node st : grows [model_node_summary model node] st (enter model node st).
Proof.
  split; cbn.
  - intros x. rewrite list_elem_of_singleton. destruct (mem (n_id node) (ss_included st)) eqn:E; [|rewrite elem_of_cons; tauto].
    apply mem_spec in E. split; [by left|]. intros [?| ->]; done.
  - intros Hn. destruct (mem (n_id node) (ss_included st)) eqn:E; [done|]. apply mem_false in E. by constructor.
  - intros k. rewrite count_one_lookup. by case_bool_decide.
  - intros r. rewrite count_one_lookup. by case_bool_decide.
  - done.
Qed.

(** What visiting [node] from [st] gives. *)
Definition visit_spec (below : nat) (path : list string) (node : ModelNode) (st : SubtreeState) (r : Tree * SubtreeState) : Prop :=
  grows (tree_nodes r.1) st r.2 /\ (tree_height r.1 <= below)%nat /\
  unfolds true path node r.1 /\ (ss_truncated r.2 = false -> unfolds false path node r.1) /\
  ((length (ss_included st) < st_max_nodes args)%nat -> (length (ss_included r.2) <= st_max_nodes args)%nat).

Definition children_spec (below : nat) (path : list string) (edges : list (string * string)) (st : SubtreeState)
    (r : list (string * Tree) * SubtreeState) : Prop :=
  grows (List.concat (map (fun c => tree_nodes c.2) r.1)) st r.2 /\
  Forall (fun c => (tree_height c.2 <= below)%nat) r.1 /\
  unfolds_children true path edges r.1 /\ (ss_truncated r.2 = false -> unfolds_children false path edges r.1) /\
  ((length (ss_included st) <= st_max_nodes args)%nat -> (length (ss_included r.2) <= st_max_nodes args)%nat).

Lemma visit_children_spec below path edges st :
  (forall path node st, visit_spec below path node st (visit model args below path node st)) ->
  children_spec below path edges st (visit_children below path edges st).
Proof.
  intros IH. revert st. induction edges as [|[type child_id] edges IHe]; intros st; cbn.
  { split_and!; try done; try by constructor. apply grows_none. }
  assert (Hskip : left_out path child_id ->
    children_spec below path ((type, child_id) :: edges) st (visit_children below path edges st)).
  { intros Hl. destruct (IHe st) as (Hg & Hh & Hu & Hf & Hn). split_and!; try done; [by apply children_skip|]. intros Ht. apply children_skip; auto. }
  destruct (nodes !! child_id) as [child|] eqn:En; [|by apply Hskip; unfold left_out; rewrite En].
  destruct (mem child_id path) eqn:Em; [apply Hskip; unfold left_out; rewrite En; left; by apply mem_spec|].
  destruct (excluded args child) eqn:Ex; [apply Hskip; unfold left_out; rewrite En; by right|].
  destruct (Nat.leb_spec (st_max_nodes args) (length (ss_included st))) as [Hl|Hl].
  { split_and!; try done; try by constructor. apply grows_mark. }
  assert (Hin : ~ left_out path child_id).
  { unfold left_out. rewrite En, Ex. intros [Hp%mem_spec|]; congruence. }
  destruct (visit model args below (child_id :: path) child st) as [tree st'] eqn:Ev.
  specialize (IH (child_id :: path) child st). rewrite Ev in IH. destruct IH as (Hg & Hh & Hu & Hf & Hn).
  fold (visit_children below path). destruct (visit_children below path edges st') as [trees st''] eqn:Ec.
  specialize (IHe st'). rewrite Ec in IHe. destruct IHe as (Hg' & Hh' & Hu' & Hf' & Hn'). cbn in *.
  split_and!; cbn; [by eapply grows_app|by constructor|by eapply children_take| |auto].
  intros Ht. eapply children_take; eauto. apply Hf. by apply (grows_truncated _ _ _ Hg').
Qed.

Lemma visit_spec_holds below path node st : visit_spec below path node st (visit model args below path node st).
Proof.
  revert path node st. induction below as [|below IH]; intros path node st.
  - rewrite visit_leaf. split_and!; cbn.
    + destruct (subtree_child_edges model args node); [apply grows_enter|].
      eapply (grows_app [_] []); [apply grows_enter|apply grows_mark].
    + done.
    + constructor. by apply children_cut.
    + destruct (subtree_child_edges model args node) eqn:E; [|done]. intros _. constructor. rewrite E. constructor.
    + destruct (subtree_child_edges model args node); cbn; destruct (mem _ _); cbn; lia.
  - rewrite visit_step. pose proof (visit_children_spec below path (subtree_child_edges model args node) (enter model node st) IH) as Hc.
    destruct (visit_children below path (subtree_child_edges model args node) (enter model node st)) as [trees st'].
    destruct Hc as (Hg & Hh & Hu & Hf & Hn). cbn in *. split_and!; cbn.
    + by eapply (grows_app [_]); [apply grows_enter|].
    + apply list_max_le. apply Forall_fmap. eapply Forall_impl; [exact Hh|]. cbn. lia.
    + by constructor.
    + intros Ht. constructor. auto.
    + intros Hl. apply Hn. unfold enter; cbn. destruct (mem _ _); cbn; lia.
Qed.
End Subtree.

(** C14. The summary of a subtree refuses an unknown root only. Its tree is the subtree below the root, down to the depth
    limit, without any part that would close a cycle or is not asked for; it is the whole subtree unless it is marked as
    truncated. The total counts the different elements of the tree and never exceeds the node limit; the counts by kind
    and by role count places, so that an element that is reached twice counts twice. *)
Theorem subtree_exact model args :
  match summarize_subtree model args with
  | Err e => nodes_by_id model !! st_root args = None /\ e = not_found_error (st_root args)
  | Ok r =>
      exists root, nodes_by_id model !! st_root args = Some root /\
      unfolds model args (sm_truncated r) [st_root args] root (sm_tree r) /\
      (tree_height (sm_tree r) <= st_max_depth args)%nat /\
      sm_total r = length (remove_dups (tree_ids (sm_tree r))) /\
      ((1 <= st_max_nodes args)%nat -> (sm_total r <= st_max_nodes args)%nat) /\
      (forall k, default 0%nat (sm_by_kind r !! k) = places_with (fun s => bool_decide (su_kind s = k)) (sm_tree r)) /\
      (forall k, default 0%nat (sm_by_role r !! k) = places_with (fun s => bool_decide (su_role s = k)) (sm_tree r))
  end.
Proof.
  unfold summarize_subtree. destruct (nodes_by_id model !! st_root args) as [root|] eqn:E; [|done].
  set (st := {| ss_included := []; ss_kinds := ∅; ss_roles := ∅; ss_truncated := false |}).
  pose proof (visit_spec_holds model args (st_max_depth args) [st_root args] root st) as H.
  destruct (visit model args (st_max_depth args) [st_root args] root st) as [tree st'].
  destruct H as ([Hi Hn Hk Hr Ht] & Hh & Hu & Hf & Hm). cbn in *. exists root. split_and!; auto.
  - destruct (ss_truncated st') eqn:Et; auto.
  - apply Permutation_length, NoDup_Permutation; [apply Hn; constructor|apply NoDup_remove_dups|].
    intros x. rewrite Hi, elem_of_remove_dups, elem_of_nil. unfold tree_ids. tauto.
Qed.

(** A chain of [n] steps in which every element is a child of the one above it on both planes. *)
Definition double_chain (n : nat) : BuildResult :=
  let name i := of_chars (replicate (S i) "n"%char) in
  let children := map (fun i => (name i, [name (S i)])) (seq 0 n) in
  two_plane_model (map (fun i => simple_node (name i) (name i) asset (name i)) (seq 0 (S n))) [name 0%nat] children children.

Definition whole_subtree (root : string) (max_depth max_nodes : nat) : SubtreeArgs :=
  {| st_root := root; st_max_depth := max_depth; st_max_nodes := max_nodes; st_include_hierarchy := true;
     st_include_composition := true; st_include_properties := true; st_include_actions := true |}.

(** The node limit bounds the elements of the answer, not its places: ten elements below the root of a chain that is
    linked on both planes fill a tree of 2047 places, although at most 20 nodes are asked for. *)
Example shared_children_unfold :
  match summarize_subtree (double_chain 10) (whole_subtree "n" 32 20) with
  | Ok r => sm_total r = 11%nat /\ sm_truncated r = false /\ length (tree_nodes (sm_tree r)) = 2047%nat /\ sm_by_kind r !! asset = Some 2047%nat
  | Err _ => False
  end.
Proof. vm_compute. by split_and!. Qed.
End ModelToolsSpec.
