(* ===== verification/NodeLookup.v ===== *)
(** The translation between node ids and element ids on a built model: what the lookup tables of
    [Builder.v] hold, and what the batch translations of [ModelTools.v] answer from them. *)

From S2P Require Export BuilderSpec ModelTools.

Module NodeLookup.
Import NodeIds Mapper Builder BuilderLemmas BuilderSpec ModelTools.

(** ** Lemmas: tables filled with [setdefault] *)

Definition fill (l : list (string * string)) (d : dict string string) : dict string string :=
  fold_left (fun d p => dict_setdefault p.1 p.2 d) l d.

Lemma fill_app l l' d : fill (l ++ l') d = fill l' (fill l d).
Proof. apply fold_left_app. Qed.

Lemma fill_sound l d k v : fill l d !! k = Some v -> d !! k = Some v \/ (k, v) ∈ l.
Proof.
  revert d. induction l as [|[k' v'] l IH]; intros d; [by left|]. intros [Hd|Hl]%IH; [|right; by right].
  cbn in Hd. rewrite dict_lookup_setdefault in Hd. case_bool_decide; [subst k'|by left].
  destruct (d !! k) as [w|] eqn:E; cbn in Hd; injection Hd as ->; [by left|right; by left].
Qed.

Lemma fill_keeps l d k : is_Some (d !! k) -> is_Some (fill l d !! k).
Proof.
  revert d. induction l as [|[k' v'] l IH]; intros d Hd; [done|]. apply IH. cbn. rewrite dict_lookup_setdefault. by case_bool_decide.
Qed.

Lemma fill_complete l d k v : (k, v) ∈ l -> is_Some (fill l d !! k).
Proof.
  revert d. induction l as [|[k' v'] l IH]; intros d; [by intros ?%not_elem_of_nil|]. intros [E|Hl]%elem_of_cons; [|by apply IH].
  injection E as <- <-. apply (fill_keeps l). cbn. rewrite dict_lookup_setdefault. by rewrite bool_decide_true.
Qed.

(** ** Lemmas: blanks *)

Lemma drop_while_head {A} (p : A -> bool) l : drop_while p l = [] \/ exists x l', drop_while p l = x :: l' /\ p x = false.
Proof. induction l as [|x l IH]; cbn; [by left|]. destruct (p x) eqn:E; [done|]. right. by exists x, l. Qed.

Lemma strip_strip s : strip (strip s) = strip s.
Proof.
  unfold strip. rewrite chars_of_chars. f_equal. destruct (drop_while_head is_space (chars s)) as [->|(x & l & -> & Hx)]; [done|].
  assert (Hc : forall r, rdrop_while is_space (x :: r) = x :: rdrop_while is_space r) by (intros r; by apply (rdrop_while_app_false is_space [])).
  rewrite Hc, drop_while_id, Hc, rdrop_while_idem by done. done.
Qed.

Lemma canonical_strip s m : canonical_node_id (strip s) m = canonical_node_id s m.
Proof. unfold canonical_node_id. by rewrite strip_strip. Qed.

(** ** Lemmas: the entries of a node *)

Section Tables.
Context (b : Browsed).
Abbreviation canonical id := (canonical_node_id id (uri_by_index b)).

(** The canonical form of an id, filed under its namespace or under its index. *)
Definition canonical_entry (expanded : bool) (node_id id : string) : list (string * string) :=
  match canonical node_id with
  | Some c => if Bool.eqb (startswith "nsu=" c) expanded then [(c, id)] else []
  | None => []
  end.

(** The id of a node in the address space, when it is a text that is not empty. *)
Definition text_of (field : string) (node : ModelNode) : list string :=
  match meta_str (n_metadata node !! field) with Some t => if truthy t then [t] else [] | None => [] end.

Definition indexed_entries (node : ModelNode) : list (string * string) :=
  List.concat (map (fun ua => (ua, n_id node) :: canonical_entry false ua (n_id node)) (text_of "uaNodeId" node)).

Definition expanded_entries (node : ModelNode) : list (string * string) :=
  List.concat (map (fun ua => canonical_entry true ua (n_id node)) (text_of "uaNodeId" node)) ++
  List.concat (map (fun e => (e, n_id node) :: match canonical e with Some c => [(c, n_id node)] | None => [] end) (text_of "expandedNodeId" node)).

Lemma index_canonical_fill id ua tables :
  index_canonical b id ua tables = (fill (canonical_entry false ua id) tables.1, fill (canonical_entry true ua id) tables.2).
Proof.
  unfold index_canonical, canonical_entry. destruct tables as [t1 t2]. destruct (canonical ua) as [c|]; [|done].
  by destruct (startswith "nsu=" c).
Qed.

Lemma index_node_fill node tables :
  index_node b tables node = (fill (indexed_entries node) tables.1, fill (expanded_entries node) tables.2).
Proof.
  unfold index_node, indexed_entries, expanded_entries, text_of. rewrite fill_app. destruct tables as [t1 t2].
  destruct (meta_str (n_metadata node !! "uaNodeId")) as [ua|]; [destruct (truthy ua)|]; rewrite ?index_canonical_fill;
    (destruct (meta_str (n_metadata node !! "expandedNodeId")) as [e|]; [destruct (truthy e)|]);
    cbn [map List.concat app fst snd]; try destruct (canonical e); by rewrite ?app_nil_r.
Qed.

Lemma index_nodes_fill l tables :
  fold_left (index_node b) l tables =
  (fill (List.concat (map indexed_entries l)) tables.1, fill (List.concat (map expanded_entries l)) tables.2).
Proof.
  revert tables. induction l as [|n l IH]; intros [t1 t2]; [done|]. cbn [fold_left map List.concat].
  by rewrite IH, index_node_fill, !fill_app.
Qed.

Lemma elem_of_indexed_entries node k id :
  (k, id) ∈ indexed_entries node <->
  id = n_id node /\ exists ua, ua ∈ text_of "uaNodeId" node /\ (k = ua \/ (canonical ua = Some k /\ startswith "nsu=" k = false)).
Proof.
  unfold indexed_entries, canonical_entry. rewrite list_elem_of_In, List.in_concat. setoid_rewrite List.in_map_iff. split.
  - intros (l & (ua & <- & Hua) & Hl). apply list_elem_of_In in Hua, Hl. apply elem_of_cons in Hl as [Hl|Hl].
    + injection Hl as -> ->. split; [done|]. exists ua. by split; [|left].
    + destruct (canonical ua) as [c|] eqn:E; [|by apply not_elem_of_nil in Hl].
      destruct (startswith "nsu=" c) eqn:Es; cbn in Hl; [by apply not_elem_of_nil in Hl|].
      apply list_elem_of_singleton in Hl. injection Hl as -> ->. split; [done|]. exists ua. split; [done|]. by right.
  - intros [-> (ua & Hua & Hk)]. eexists. split; [by exists ua; split; [reflexivity|apply list_elem_of_In]|]. apply list_elem_of_In.
    destruct Hk as [->|[E Es]]; [by left|]. right. rewrite E, Es. by left.
Qed.

Lemma elem_of_expanded_entries node k id :
  (k, id) ∈ expanded_entries node <->
  id = n_id node /\ ((exists ua, ua ∈ text_of "uaNodeId" node /\ canonical ua = Some k /\ startswith "nsu=" k = true) \/
    exists e, e ∈ text_of "expandedNodeId" node /\ (k = e \/ canonical e = Some k)).
Proof.
  unfold expanded_entries, canonical_entry. rewrite elem_of_app, !list_elem_of_In, !List.in_concat. setoid_rewrite List.in_map_iff. split.
  - intros [(l & (ua & <- & Hua) & Hl)|(l & (e & <- & He) & Hl)]; apply list_elem_of_In in Hl.
    + apply list_elem_of_In in Hua. destruct (canonical ua) as [c|] eqn:E; [|by apply not_elem_of_nil in Hl].
      destruct (startswith "nsu=" c) eqn:Es; cbn in Hl; [|by apply not_elem_of_nil in Hl].
      apply list_elem_of_singleton in Hl. injection Hl as -> ->. split; [done|]. left. by exists ua.
    + apply list_elem_of_In in He. apply elem_of_cons in Hl as [Hl|Hl].
      * injection Hl as -> ->. split; [done|]. right. exists e. by split; [|left].
      * destruct (canonical e) as [c|] eqn:E; [|by apply not_elem_of_nil in Hl].
        apply list_elem_of_singleton in Hl. injection Hl as -> ->. split; [done|]. right. exists e. split; [done|]. by right.
  - intros [-> [(ua & Hua & E & Es)|(e & He & Hk)]]; [left|right].
    + eexists. split; [by exists ua; split; [reflexivity|apply list_elem_of_In]|]. apply list_elem_of_In. rewrite E, Es. by left.
    + eexists. split; [by exists e; split; [reflexivity|apply list_elem_of_In]|]. apply list_elem_of_In.
      destruct Hk as [->|E]; [by left|]. right. rewrite E. by left.
Qed.
End Tables.

(** ** Lemmas: the tables of a built model *)

Lemma node_metadata_ids node expanded namespace ids :
  node_metadata node expanded namespace ids !! "uaNodeId" = Some (MStr (ni_node_id node)) /\
  node_metadata node expanded namespace ids !! "expandedNodeId" = Some (MStr expanded).
Proof.
  unfold node_metadata. destruct (ni_description node), (ni_access_level node), (ni_user_access_level node), (ni_executable node), (ni_user_executable node);
    split; reflexivity.
Qed.

Lemma describes_index_namespaces infos : describes (index_namespaces infos) infos.
Proof.
  intros i. unfold index_namespaces. destruct (infos !! i) as [info|] eqn:E; cbn.
  - destruct (truthy (nsi_uri info)) eqn:Et.
    + destruct (dict_of_list _ !! Z.of_nat i) as [uri|] eqn:El; cbn.
      * apply dict_lookup_of_list_Some, elem_of_filter_list in El as [El _]. apply elem_of_lookup_imap in El as (j & info' & Ep & Ej).
        injection Ep as Hj ->. apply Nat2Z.inj in Hj as ->. by simplify_eq.
      * exfalso. apply eq_None_not_Some in El. apply El, dict_lookup_of_list_is_Some, list_elem_of_fmap.
        exists (Z.of_nat i, nsi_uri info). split; [done|]. apply elem_of_filter_list. split; [|done].
        apply elem_of_lookup_imap. by exists i, info.
    + destruct (dict_of_list _ !! Z.of_nat i) as [uri|] eqn:El; cbn; [|unfold truthy in Et; apply negb_false_iff, bool_decide_eq_true in Et; done].
      apply dict_lookup_of_list_Some, elem_of_filter_list in El as [El Ht]. apply elem_of_lookup_imap in El as (j & info' & Ep & Ej).
      injection Ep as Hj ->. apply Nat2Z.inj in Hj as ->. simplify_eq. cbn in Ht. congruence.
  - destruct (dict_of_list _ !! Z.of_nat i) as [uri|] eqn:El; cbn; [|done].
    apply dict_lookup_of_list_Some, elem_of_filter_list in El as [El _]. apply elem_of_lookup_imap in El as (j & info' & Ep & Ej).
    injection Ep as Hj ->. apply Nat2Z.inj in Hj as ->. congruence.
Qed.

(** The ids of a node: as the server wrote it, and expanded. *)
Definition node_ids (infos : list OpcUaNamespaceInfo) (node : ModelNode) (ua : string) : Prop :=
  n_metadata node !! "uaNodeId" = Some (MStr ua) /\ n_metadata node !! "expandedNodeId" = Some (MStr (expanded_node_id ua infos)).

Lemma built_nodes sha1_hex client r id node :
  build sha1_hex client = Ok r -> nodes_by_id r !! id = Some node ->
  n_id node = id /\ exists ua, node_ids (namespace_infos (gather client)) node ua.
Proof.
  intros (p & g & r0 & st & Hinv & En & _)%(result_nodes _ _ (gather_ok client)) Hid. rewrite En in Hid.
  destruct (inv_mapped _ _ _ _ _ _ _ Hinv _ _ Hid) as (s & n & _ & -> & ->). split; [apply mapped_node_id|].
  exists (ni_node_id n). unfold node_ids, mapped_node, map_node. cbn [n_metadata]. apply node_metadata_ids.
Qed.

Lemma built_tables sha1_hex client r :
  build sha1_hex client = Ok r ->
  let b := gather client in
  namespace_uri_by_index r = uri_by_index b /\ describes (uri_by_index b) (namespace_infos b) /\ dict_wf (nodes_by_id r) /\
  element_id_by_node_id r = fill (List.concat (map (indexed_entries b) (dict_values (nodes_by_id r)))) ∅ /\
  element_id_by_expanded_node_id r = fill (List.concat (map (expanded_entries b) (dict_values (nodes_by_id r)))) ∅.
Proof.
  intros Hr b. assert (dict_wf (nodes_by_id r)) as Hw.
  { destruct (result_nodes _ _ (gather_ok client) _ Hr) as (p & g & r0 & st & Hinv & -> & _). apply Hinv. }
  destruct (build_browsed_inv _ _ _ Hr) as (t & ids & _ & _ & ->).
  split_and!; [done|apply describes_index_namespaces|done| |]; cbn [build_result element_id_by_node_id element_id_by_expanded_node_id nodes_by_id];
    by rewrite index_nodes_fill.
Qed.

Lemma elem_of_entries {A B} (f : A -> list B) (l : list A) (y : B) : y ∈ List.concat (map f l) <-> exists x, x ∈ l /\ y ∈ f x.
Proof.
  rewrite list_elem_of_In, List.in_concat. split.
  - intros (l' & (x & <- & Hx)%List.in_map_iff & Hy). exists x. by rewrite !list_elem_of_In.
  - intros (x & Hx & Hy). exists (f x). rewrite List.in_map_iff, <-list_elem_of_In. split; [|done]. exists x. by rewrite <-list_elem_of_In.
Qed.

Lemma elem_of_text_of field node t :
  t ∈ text_of field node <-> meta_str (n_metadata node !! field) = Some t /\ t ≠ ε.
Proof.
  unfold text_of. destruct (meta_str _) as [x|]; [|by split; [intros ?%not_elem_of_nil|intros [? _]]].
  destruct (truthy x) eqn:E.
  - apply truthy_spec in E. rewrite list_elem_of_singleton. split; [by intros ->|intros [[= ->] _]; done].
  - split; [by intros ?%not_elem_of_nil|]. intros [[= ->] Hne]. apply truthy_spec in Hne. congruence.
Qed.

Lemma canonical_nonempty t m c : canonical_node_id t m = Some c -> t ≠ ε.
Proof. by intros H ->. Qed.

(** ** Translation of a node id *)

(** The canonical form of the id under which a node is known to the server. *)
Definition canonical_of (r : BuildResult) (node : ModelNode) : option string :=
  ua ← meta_str (n_metadata node !! "uaNodeId"); canonical_node_id ua (namespace_uri_by_index r).

Section Built.
Context (sha1_hex : string -> string) (client : OpcUaClient) (r : BuildResult).
Context (Hr : build sha1_hex client = Ok r) (Hsep : separable (namespace_uri_by_index r)).
Abbreviation table := (namespace_uri_by_index r).

Lemma values_node node : node ∈ dict_values (nodes_by_id r) -> nodes_by_id r !! n_id node = Some node.
Proof using Hr.
  intros Hn. destruct (built_tables _ _ _ Hr) as (_ & _ & Hw & _). apply list_elem_of_fmap in Hn as ([id n] & -> & Hn).
  apply dict_items_lookup in Hn; [|done]. cbn. by destruct (built_nodes _ _ _ _ _ Hr Hn) as [-> _].
Qed.

Lemma expanded_table_sound c id :
  canonical_node_id c table = Some c -> element_id_by_expanded_node_id r !! c = Some id ->
  exists node, nodes_by_id r !! id = Some node /\ canonical_of r node = Some c.
Proof using Hr Hsep.
  intros Hc. destruct (built_tables _ _ _ Hr) as (Ht & Hd & _ & _ & ->). intros [?|Hin]%fill_sound; [done|].
  apply elem_of_entries in Hin as (node & Hn & Hin). apply values_node in Hn. apply elem_of_expanded_entries in Hin as [-> Hin].
  exists node. split; [done|]. unfold canonical_of. rewrite <-Ht in Hin.
  destruct (built_nodes _ _ _ _ _ Hr Hn) as [_ (ua & Hua & He)].
  destruct Hin as [(ua' & [-> _]%elem_of_text_of & E & _)|(e & [Hm _]%elem_of_text_of & Hk)]; [done|].
  rewrite Hua. cbn. rewrite He in Hm. cbn in Hm. injection Hm as <-. rewrite <-Ht in Hd. rewrite <-(expanded_same_key ua _ _ Hsep Hd).
  destruct Hk as [->|E]; done.
Qed.

Lemma indexed_table_sound t c id :
  canonical_node_id t table = Some c -> element_id_by_node_id r !! t = Some id ->
  exists node, nodes_by_id r !! id = Some node /\ canonical_of r node = Some c.
Proof using Hr Hsep.
  intros Hc. destruct (built_tables _ _ _ Hr) as (Ht & _ & _ & -> & _). intros [?|Hin]%fill_sound; [done|].
  apply elem_of_entries in Hin as (node & Hn & Hin). apply values_node in Hn. apply elem_of_indexed_entries in Hin as [-> Hin].
  exists node. split; [done|]. unfold canonical_of. rewrite <-Ht in Hin.
  destruct Hin as (ua & [-> _]%elem_of_text_of & [->|[E _]]); [done|]. cbn. rewrite E. f_equal.
  apply canonical_node_id_form, canonical_form_fixed in E; [|done]. congruence.
Qed.

(** Every node is filed under the canonical form of its id: the expanded id has the same one. *)
Lemma expanded_table_complete node c :
  nodes_by_id r !! n_id node = Some node -> canonical_of r node = Some c -> is_Some (element_id_by_expanded_node_id r !! c).
Proof using Hr Hsep.
  intros Hn Hc. destruct (built_tables _ _ _ Hr) as (Ht & Hd & _ & _ & ->). destruct (built_nodes _ _ _ _ _ Hr Hn) as [_ (ua & Hua & He)].
  unfold canonical_of in Hc. rewrite Hua in Hc. cbn in Hc. rewrite <-Ht in Hd. rewrite <-(expanded_same_key ua _ _ Hsep Hd) in Hc.
  apply (fill_complete _ _ _ (n_id node)), elem_of_entries. exists node. split; [by apply dict_lookup_values in Hn|].
  apply elem_of_expanded_entries. split; [done|]. right. eexists. split; [|right; rewrite <-Ht; exact Hc].
  apply elem_of_text_of. rewrite He. split; [done|by eapply canonical_nonempty].
Qed.
End Built.

(** C15. On a built model a node id is translated exactly when the model has the node it denotes, and to an element that
    stands for it: the element's own node id has the same canonical form, however the two are spelled. A text is refused
    as malformed only if it is blank, and as invalid only if it has no canonical form. *)
Theorem node_id_translation sha1_hex client r s :
  build sha1_hex client = Ok r -> separable (namespace_uri_by_index r) ->
  match resolve_node_id r (Some s) with
  | Ok (id, name, kind) =>
      exists node c, nodes_by_id r !! id = Some node /\ name = n_name node /\ kind = n_kind node /\
        canonical_node_id s (namespace_uri_by_index r) = Some c /\ canonical_of r node = Some c
  | Err malformed_id => strip s = ε
  | Err invalid_node_id => canonical_node_id s (namespace_uri_by_index r) = None
  | Err node_id_not_found =>
      forall node c, nodes_by_id r !! n_id node = Some node -> canonical_node_id s (namespace_uri_by_index r) = Some c ->
        canonical_of r node ≠ Some c
  | Err _ => False
  end.
Proof.
  intros Hr Hsep. unfold resolve_node_id. destruct (truthy (strip s)) eqn:Es; cbn [negb].
  2: { destruct (decide (strip s = ε)) as [|Hne]; [done|]. apply truthy_spec in Hne. congruence. }
  destruct (canonical_node_id s _) as [c|] eqn:Ec; [|done].
  pose proof (canonical_form_fixed _ _ (canonical_node_id_form _ _ _ Hsep Ec)) as Hc.
  assert (Hs : canonical_node_id (strip s) (namespace_uri_by_index r) = Some c) by by rewrite canonical_strip.
  destruct (element_id_by_expanded_node_id r !! c) as [id|] eqn:E1.
  { destruct (expanded_table_sound _ _ _ Hr Hsep _ _ Hc E1) as (node & Hn & Hk). cbn. rewrite Hn.
    exists node, c. destruct (built_nodes _ _ _ _ _ Hr Hn) as [-> _]. by split_and!. }
  destruct (element_id_by_node_id r !! strip s) as [id|] eqn:E2.
  { destruct (indexed_table_sound _ _ _ Hr Hsep _ _ _ Hs E2) as (node & Hn & Hk). cbn. rewrite Hn.
    exists node, c. destruct (built_nodes _ _ _ _ _ Hr Hn) as [-> _]. by split_and!. }
  cbn [mbind option_bind]. intros node c' Hn [= <-] Hk. destruct (expanded_table_complete _ _ _ Hr Hsep node c Hn Hk). congruence.
Qed.

Lemma demo_separable : separable (namespace_uri_by_index demo_result).
Proof. apply separable_items. vm_compute. reflexivity. Qed.

Lemma node_id_translation_witness :
  exists node c, nodes_by_id demo_result !! "property-urn:x;s=T" = Some node /\ "T" = n_name node /\ property = n_kind node /\
    canonical_node_id " ns=01;s=T" (namespace_uri_by_index demo_result) = Some c /\ canonical_of demo_result node = Some c.
Proof. pose proof (node_id_translation demo_hash demo_client demo_result " ns=01;s=T" demo_builds demo_separable) as H. exact H. Defined.

End NodeLookup.
