(* ===== verification/Json.v ===== *)
(** JSON values, and the texts that [json.dumps] makes of them.

    The program compares values and schemas by their texts ([_schema_fingerprint], [deduplicate_schema_fragments] in
    [schemas/objecttype_schema.py], [_json_equivalent] in [api/v1/monolithic.py]): the file proves that texts tell values
    apart, and describes what sorted keys leave out of the comparison. A float is the text that [repr] makes of it. *)

From S2P Require Export PyDict PyStr.

Module Json.

Inductive json :=
  | JNull
  | JBool (b : bool)
  | JInt (z : Z)
  | JFloat (text : string)
  | JStr (s : string)
  | JArr (l : list json)
  | JObj (l : list (string * json)).

(** Induction with the hypothesis for the elements of a container. *)
Section Induction.
Variable P : json -> Prop.
Hypothesis P_null : P JNull.
Hypothesis P_bool : forall b, P (JBool b).
Hypothesis P_int : forall z, P (JInt z).
Hypothesis P_float : forall t, P (JFloat t).
Hypothesis P_str : forall s, P (JStr s).
Hypothesis P_arr : forall l, Forall P l -> P (JArr l).
Hypothesis P_obj : forall l, Forall (fun p => P p.2) l -> P (JObj l).

Fixpoint json_rect' (v : json) : P v :=
  match v with
  | JNull => P_null
  | JBool b => P_bool b
  | JInt z => P_int z
  | JFloat t => P_float t
  | JStr s => P_str s
  | JArr l => P_arr l ((fix go l : Forall P l := match l with [] => Forall_nil_2 P | x :: l' => Forall_cons_2 P x l' (json_rect' x) (go l') end) l)
  | JObj l => P_obj l ((fix go l : Forall (fun p => P p.2) l :=
      match l with [] => Forall_nil_2 _ | x :: l' => Forall_cons_2 _ x l' (json_rect' x.2) (go l') end) l)
  end.
End Induction.

(** [bool(v)]. *)
Definition json_truthy (v : json) : bool :=
  match v with
  | JNull => false
  | JBool b => b
  | JInt z => negb (z =? 0)
  | JFloat t => negb (bool_decide (t ∈ ["0.0"; "-0.0"]))
  | JStr s => truthy s
  | JArr l => negb (Nat.eqb (length l) 0)
  | JObj l => negb (Nat.eqb (length l) 0)
  end.

(** ** Texts *)

Definition quote : ascii := chr 34.
Definition backslash : ascii := chr 92.

(** One character of a string, with [ensure_ascii]. *)
Definition escape_char (c : ascii) : list ascii :=
  let x := code c in
  if x =? 34 then [backslash; quote]
  else if x =? 92 then [backslash; backslash]
  else if x =? 10 then [backslash; "n"%char]
  else if x =? 13 then [backslash; "r"%char]
  else if x =? 9 then [backslash; "t"%char]
  else if x =? 8 then [backslash; "b"%char]
  else if x =? 12 then [backslash; "f"%char]
  else if between 32 126 x then [c]
  else [backslash; "u"%char; "0"%char; "0"%char; digit_char (x / 16); digit_char (x mod 16)].

Definition string_text (s : string) : list ascii := quote :: flat_map escape_char (chars s) ++ [quote].

Definition int_text (z : Z) : list ascii := if z <? 0 then "-"%char :: to_digits 10 (- z) else to_digits 10 z.

(** What stands between the elements, and after a key. *)
Record Separators := { item_separator : list ascii; key_separator : list ascii }.

Definition default_separators : Separators := {| item_separator := chars ", "; key_separator := chars ": " |}.
Definition compact_separators : Separators := {| item_separator := chars ","; key_separator := chars ":" |}.

Fixpoint dumps_chars (seps : Separators) (v : json) : list ascii :=
  match v with
  | JNull => chars "null"
  | JBool true => chars "true"
  | JBool false => chars "false"
  | JInt z => int_text z
  | JFloat t => chars t
  | JStr s => string_text s
  | JArr [] => chars "[]"
  | JArr (x :: l) => "["%char :: dumps_chars seps x ++ flat_map (fun y => item_separator seps ++ dumps_chars seps y) l ++ ["]"%char]
  | JObj [] => chars "{}"
  | JObj (p :: l) =>
      "{"%char :: string_text p.1 ++ key_separator seps ++ dumps_chars seps p.2 ++
        flat_map (fun q => item_separator seps ++ string_text q.1 ++ key_separator seps ++ dumps_chars seps q.2) l ++ ["}"%char]
  end.

(** [json.dumps(v, separators=seps)]. *)
Definition dumps (seps : Separators) (v : json) : string := of_chars (dumps_chars seps v).

(** ** Texts tell values apart *)

#[local] Arguments string_text : simpl never.

Definition delimiter (c : ascii) : bool := existsb (ceqb c) [","%char; "]"%char; "}"%char].

(** The characters of a number or a name. *)
Definition token_char (c : ascii) : bool := (is_alnum c || ceqb c "+"%char || ceqb c "-"%char || ceqb c "."%char)%bool.

(** The text of a float: a token that is neither an integer nor a name. *)
Definition float_text (t : string) : bool :=
  (forallb token_char (chars t) && existsb (fun c => negb (is_digit c || ceqb c "-"%char)) (chars t) &&
   negb (bool_decide (t ∈ ["null"; "true"; "false"])))%bool.

(** Every float of the value has the text of a float. *)
Fixpoint json_ok (v : json) : bool :=
  match v with
  | JFloat t => float_text t
  | JArr l => forallb json_ok l
  | JObj l => forallb (fun p => json_ok p.2) l
  | _ => true
  end.

(** What can follow a value. *)
Definition ends (r : list ascii) : Prop := match r with [] => True | c :: _ => delimiter c = true end.

Definition seps_ok (seps : Separators) : Prop := exists r r', item_separator seps = ","%char :: r /\ key_separator seps = ":"%char :: r'.

Lemma default_separators_ok : seps_ok default_separators.
Proof. by eexists _, _. Qed.

Lemma compact_separators_ok : seps_ok compact_separators.
Proof. by eexists _, _. Qed.

(** Decodes one escaped character. *)
Definition unescape (l : list ascii) : option (ascii * list ascii) :=
  match l with
  | [] => None
  | c :: l' =>
      if negb (ceqb c backslash) then Some (c, l')
      else match l' with
           | "u"%char :: _ :: _ :: h :: k :: r => Some (chr (dval h * 16 + dval k), r)
           | "n"%char :: r => Some (chr 10, r)
           | "r"%char :: r => Some (chr 13, r)
           | "t"%char :: r => Some (chr 9, r)
           | "b"%char :: r => Some (chr 8, r)
           | "f"%char :: r => Some (chr 12, r)
           | d :: r => Some (d, r)
           | [] => None
           end
  end.

Lemma unescape_escape c r : unescape (escape_char c ++ r) = Some (c, r).
Proof. destruct c as [[] [] [] [] [] [] [] []]; reflexivity. Qed.

Lemma escape_not_quote c : match escape_char c with d :: _ => d ≠ quote | [] => False end.
Proof. destruct c as [[] [] [] [] [] [] [] []]; vm_compute; discriminate. Qed.

Lemma escape_inj c c' r r' : escape_char c ++ r = escape_char c' ++ r' -> c = c' /\ r = r'.
Proof. intros H. pose proof (unescape_escape c r) as H1. rewrite H, unescape_escape in H1. by injection H1 as -> ->. Qed.

Lemma string_body_inj l l' r r' :
  flat_map escape_char l ++ quote :: r = flat_map escape_char l' ++ quote :: r' -> l = l' /\ r = r'.
Proof.
  revert l'. induction l as [|c l IH]; intros [|c' l'] H; cbn [flat_map] in H; rewrite <-?app_assoc in H.
  - by injection H as ->.
  - exfalso. pose proof (escape_not_quote c') as Hc. destruct (escape_char c'); [done|]. injection H as H _. by apply Hc.
  - exfalso. pose proof (escape_not_quote c) as Hc. destruct (escape_char c); [done|]. injection H as H _. by apply Hc.
  - apply escape_inj in H as [-> H]. by destruct (IH l' H) as [-> ->].
Qed.

Lemma string_text_inj s s' r r' : string_text s ++ r = string_text s' ++ r' -> s = s' /\ r = r'.
Proof.
  unfold string_text. cbn [app]. rewrite <-!app_assoc. intros [= H]. apply string_body_inj in H as [H ->]. split; [|done].
  by rewrite <-(of_chars_chars s), H, of_chars_chars.
Qed.
Lemma token_inj (t t' r r' : list ascii) :
  forallb token_char t = true -> forallb token_char t' = true -> ends r -> ends r' -> t ++ r = t' ++ r' -> t = t' /\ r = r'.
Proof.
  assert (Hd : forall c, token_char c = true -> delimiter c = true -> False) by (intros [[] [] [] [] [] [] [] []]; vm_compute; discriminate).
  revert t'. induction t as [|c t IH]; intros [|c' t'] Ht Ht' Hr Hr' H; cbn [app forallb] in *; bool_hyps; try done.
  - subst r. exfalso. by eapply Hd.
  - subst r'. exfalso. by eapply Hd.
  - injection H as -> H. by destruct (IH t') as [-> ->].
Qed.

Lemma int_text_token z : forallb token_char (int_text z) = true /\ int_text z ≠ [] /\
  existsb (fun c => negb (is_digit c || ceqb c "-"%char)) (int_text z) = false.
Proof.
  assert (Hdig : forall n, 0 <= n -> forallb token_char (to_digits 10 n) = true /\ existsb (fun c => negb (is_digit c || ceqb c "-"%char)) (to_digits 10 n) = false).
  { intros n Hn. destruct (digits_value_to_digits n Hn) as (_ & Hd & _). revert Hd. generalize (to_digits 10 n). intros l.
    induction l as [|c l IH]; [done|]. cbn [forallb existsb]. intros [Hc Hl]%andb_true_iff. destruct (IH Hl) as [-> ->].
    unfold token_char, is_alnum. by rewrite Hc. }
  unfold int_text. destruct (Z.ltb_spec z 0).
  - destruct (Hdig (- z)) as [H1 H2]; [lia|]. split_and!; [by cbn [forallb]; rewrite H1|done|by cbn [existsb]; rewrite H2].
  - destruct (Hdig z) as [H1 H2]; [lia|]. split_and!; [done| |done]. apply (digits_value_to_digits z). lia.
Qed.

(** The scalars, by their tokens. *)
Definition scalar (v : json) : bool := match v with JStr _ | JArr _ | JObj _ => false | _ => true end.

Lemma scalar_token seps v : scalar v = true -> json_ok v = true -> forallb token_char (dumps_chars seps v) = true /\ dumps_chars seps v ≠ [].
Proof.
  destruct v as [|[]|z|t| | |]; intros Hs Hok; try done; cbn [dumps_chars].
  - by destruct (int_text_token z) as (? & ? & _).
  - cbn [json_ok] in Hok. unfold float_text in Hok. apply andb_true_iff in Hok as [[Ht Hx]%andb_true_iff _]. split; [done|].
    intros E. by rewrite E in Hx.
Qed.

(** What a token reads as. *)
Definition read_token (t : list ascii) : json :=
  if bool_decide (t = chars "null") then JNull
  else if bool_decide (t = chars "true") then JBool true
  else if bool_decide (t = chars "false") then JBool false
  else if existsb (fun c => negb (is_digit c || ceqb c "-"%char)) t then JFloat (of_chars t)
  else match t with
       | "-"%char :: d => JInt (- digits_value d)
       | d => JInt (digits_value d)
       end.

Lemma read_int z : read_token (int_text z) = JInt z.
Proof.
  unfold read_token. destruct (int_text_token z) as (_ & _ & Hx).
  assert (Hn : forall t, existsb (fun c => negb (is_digit c || ceqb c "-"%char)) t = true -> bool_decide (int_text z = t) = false).
  { intros t Ht. apply bool_decide_eq_false. intros E. rewrite E in Hx. congruence. }
  rewrite !Hn, Hx by reflexivity. unfold int_text. destruct (Z.ltb_spec z 0).
  - destruct (digits_value_to_digits (- z)) as [-> _]; [lia|]. f_equal. lia.
  - destruct (digits_value_to_digits z) as (E & Hd & _); [lia|]. destruct (to_digits 10 z) as [|c d]; [cbn in E; by rewrite <-E|].
    cbn [forallb] in Hd. apply andb_true_iff in Hd as [Hd _].
    destruct c as [[] [] [] [] [] [] [] []]; try (vm_compute in Hd; discriminate); by rewrite E.
Qed.

Lemma read_float t : float_text t = true -> read_token (chars t) = JFloat t.
Proof.
  unfold float_text, read_token. intros [[_ ->]%andb_true_iff Hn%negb_true_iff%bool_decide_eq_false]%andb_true_iff.
  rewrite !bool_decide_false, of_chars_chars; [done|..];
    intros E; apply Hn; rewrite <-(of_chars_chars t), E, of_chars_chars; set_solver.
Qed.

Lemma read_scalar seps v : scalar v = true -> json_ok v = true -> read_token (dumps_chars seps v) = v.
Proof. destruct v as [|[]|z|t| | |]; intros Hs Hok; try done; [apply read_int|by apply read_float]. Qed.

Section Injective.
Context (seps : Separators) (Hseps : seps_ok seps).

(** Two texts that are equal, whatever ends them, are texts of one value. *)
Definition reads_back (v : json) : Prop :=
  forall v' r r', json_ok v = true -> json_ok v' = true -> ends r -> ends r' ->
  dumps_chars seps v ++ r = dumps_chars seps v' ++ r' -> v = v' /\ r = r'.

(** What a text begins with. *)
Definition head_ok (v : json) (c : ascii) : Prop :=
  match v with
  | JStr _ => c = quote
  | JArr _ => c = "["%char
  | JObj _ => c = "{"%char
  | _ => token_char c = true
  end.

Lemma text_head v : json_ok v = true -> exists c l, dumps_chars seps v = c :: l /\ head_ok v c.
Proof.
  intros Hok. destruct (scalar v) eqn:Hs.
  - destruct (scalar_token seps v Hs Hok) as [Ht Hne]. destruct (dumps_chars seps v) as [|c l]; [done|].
    exists c, l. split; [done|]. cbn [forallb] in Ht. bool_hyps. by destruct v as [|[]| | | | |].
  - destruct v as [| | | |s|[|x l]|[|p l]]; try done; by eexists _, _.
Qed.

(** The rest of a container. *)
Lemma items_inj {A} (text : A -> list ascii) (close : ascii) (ok : A -> bool) l l' r r' :
  delimiter close = true -> close ≠ ","%char ->
  Forall (fun x => forall x' r r', ok x = true -> ok x' = true -> ends r -> ends r' -> text x ++ r = text x' ++ r' -> x = x' /\ r = r') l ->
  forallb ok l = true -> forallb ok l' = true ->
  flat_map (fun y => item_separator seps ++ text y) l ++ close :: r = flat_map (fun y => item_separator seps ++ text y) l' ++ close :: r' ->
  l = l' /\ r = r'.
Proof using Hseps.
  intros Hclose Hcomma Hl. destruct Hseps as (sep & _ & Hsep & _). rewrite Hsep.
  assert (Hends : forall l r, ends (flat_map (fun y => ("," :: sep)%char ++ text y) l ++ close :: r)) by (by intros []).
  revert l'. induction Hl as [|x l Hx _ IH]; intros [|x' l'] Hok Hok' H; cbn [flat_map forallb] in *; rewrite <-?app_assoc in H; cbn [app] in H.
  - by injection H as ->.
  - injection H as H _. congruence.
  - injection H as H _. congruence.
  - apply andb_true_iff in Hok as [Hokx Hok], Hok' as [Hokx' Hok']. injection H as H. apply app_inv_head in H.
    apply Hx in H as [-> H]; [|done|done|apply Hends|apply Hends]. by destruct (IH l' Hok Hok' H) as [-> ->].
Qed.

Lemma head_not_close v c : head_ok v c -> delimiter c = false.
Proof.
  assert (Hd : forall c, token_char c = true -> delimiter c = false) by (intros [[] [] [] [] [] [] [] []]; vm_compute; congruence).
  destruct v; cbn [head_ok]; intros H; try (by apply Hd); by subst c.
Qed.

(** Values of different shapes have different heads. *)
Definition shape (v : json) : nat := match v with JStr _ => 1%nat | JArr _ => 2%nat | JObj _ => 3%nat | _ => 0%nat end.

Lemma head_shape v v' c : head_ok v c -> head_ok v' c -> shape v = shape v'.
Proof.
  assert (Hq : token_char quote = false) by done.
  destruct v, v'; cbn [head_ok shape]; intros H H'; try done; subst; try done; congruence.
Qed.

Lemma reads_shape v v' r r' : json_ok v = true -> json_ok v' = true -> dumps_chars seps v ++ r = dumps_chars seps v' ++ r' -> shape v = shape v'.
Proof.
  intros Hok Hok' H. destruct (text_head v Hok) as (c & l & E & Hc), (text_head v' Hok') as (c' & l' & E' & Hc').
  rewrite E, E' in H. injection H as -> _. by eapply head_shape.
Qed.

Lemma reads_back_scalar v : scalar v = true -> reads_back v.
Proof.
  intros Hs v' r r' Hok Hok' Hr Hr' H. pose proof (reads_shape _ _ _ _ Hok Hok' H) as Hsh.
  assert (Hs' : scalar v' = true) by (by destruct v, v').
  apply token_inj in H as [H ->]; [|by apply scalar_token..|done|done]. split; [|done].
  by rewrite <-(read_scalar seps v), H, read_scalar.
Qed.

Lemma reads_back_arr l : Forall reads_back l -> reads_back (JArr l).
Proof using Hseps.
  intros Hl v' r r' Hok Hok' Hr Hr' H. pose proof (reads_shape _ _ _ _ Hok Hok' H) as Hsh. destruct v' as [| | | | |l'|]; try done. clear Hsh.
  assert (Hends : forall (l : list json) r, ends (flat_map (fun y => item_separator seps ++ dumps_chars seps y) l ++ "]"%char :: r)).
  { destruct Hseps as (sep & _ & -> & _). by intros []. }
  destruct l as [|x l], l' as [|x' l']; cbn [dumps_chars json_ok forallb] in *.
  - split; [done|]. by injection H.
  - exfalso. apply andb_true_iff in Hok' as [Hx _]. destruct (text_head x' Hx) as (c & t & E & Hc). rewrite E in H. cbn in H.
    apply head_not_close in Hc. injection H as <- _. done.
  - exfalso. apply andb_true_iff in Hok as [Hx _]. destruct (text_head x Hx) as (c & t & E & Hc). rewrite E in H. cbn in H.
    apply head_not_close in Hc. injection H as -> _. done.
  - cbn [app] in H. rewrite <-!app_assoc in H. cbn [app] in H. injection H as H. apply Forall_cons in Hl as [Hx Hl].
    apply andb_true_iff in Hok as [Hokx Hok], Hok' as [Hokx' Hok'].
    apply Hx in H as [-> H]; [|done|done|apply Hends|apply Hends].
    apply (items_inj _ _ json_ok) in H as [-> ->]; try done.
Qed.

Lemma reads_back_obj l : Forall (fun p => reads_back p.2) l -> reads_back (JObj l).
Proof using Hseps.
  intros Hl v' r r' Hok Hok' Hr Hr' H. pose proof (reads_shape _ _ _ _ Hok Hok' H) as Hsh. destruct v' as [| | | | | |l']; try done. clear Hsh.
  set (text := fun q : string * json => string_text q.1 ++ key_separator seps ++ dumps_chars seps q.2).
  assert (Hends : forall (l : list (string * json)) r, ends (flat_map (fun y => item_separator seps ++ text y) l ++ "}"%char :: r)).
  { destruct Hseps as (sep & _ & -> & _). by intros []. }
  assert (Hmember : forall p p' r r', reads_back p.2 -> json_ok p.2 = true -> json_ok p'.2 = true -> ends r -> ends r' -> text p ++ r = text p' ++ r' -> p = p' /\ r = r').
  { intros [k x] [k' x'] r1 r1' Hx H1 H1' Hr1 Hr1' E. unfold text in E. cbn [fst snd] in *. rewrite <-!app_assoc in E.
    apply string_text_inj in E as [-> E]. apply app_inv_head in E. by apply Hx in E as [-> ->]. }
  destruct l as [|p l], l' as [|p' l']; cbn [dumps_chars json_ok forallb] in *.
  - split; [done|]. by injection H.
  - exfalso. cbn in H. injection H as H _. done.
  - exfalso. cbn in H. injection H as H _. done.
  - cbn [app] in H. rewrite <-!app_assoc in H. cbn [app] in H. apply (f_equal (@List.tl _)) in H. cbn [List.tl] in H. apply Forall_cons in Hl as [Hx Hl].
    apply andb_true_iff in Hok as [Hokx Hok], Hok' as [Hokx' Hok'].
    assert (E : text p ++ flat_map (fun q => item_separator seps ++ text q) l ++ "}"%char :: r =
                text p' ++ flat_map (fun q => item_separator seps ++ text q) l' ++ "}"%char :: r').
    { unfold text. rewrite <-!app_assoc. exact H. }
    apply Hmember in E as [-> E]; [|done|done|done|apply Hends|apply Hends].
    apply (items_inj _ _ (fun p => json_ok p.2)) in E as [-> ->]; try done.
    eapply Forall_impl; [exact Hl|]. intros q Hq q' r1 r1' H1 H1' Hr1 Hr1' E1. by apply Hmember in E1.
Qed.

Lemma reads_back_all v : reads_back v.
Proof using Hseps.
  induction v as [| | | | |l IH|l IH] using json_rect'; try (by apply reads_back_scalar).
  - intros v' r r' Hok Hok' Hr Hr' H. pose proof (reads_shape _ _ _ _ Hok Hok' H) as Hsh. destruct v'; try done.
    cbn [dumps_chars] in H. by apply string_text_inj in H as [-> ->].
  - by apply reads_back_arr.
  - by apply reads_back_obj.
Qed.

Lemma dumps_inj v v' : json_ok v = true -> json_ok v' = true -> dumps seps v = dumps seps v' -> v = v'.
Proof using Hseps.
  intros Hok Hok' H. unfold dumps in H. apply of_chars_inj in H.
  destruct (reads_back_all v v' [] [] Hok Hok') as [-> _]; [done|done| |done]. by rewrite H.
Qed.
End Injective.

(** The text of a value determines it. *)
Lemma dumps_eq seps v w : seps_ok seps -> json_ok v = true -> json_ok w = true -> dumps seps v = dumps seps w <-> v = w.
Proof. intros Hs Hv Hw. split; [by apply dumps_inj|by intros ->]. Qed.

(** ** Sorted keys *)

Definition key_leb (p q : string * json) : bool := string_leb p.1 q.1.

(** What [sort_keys=True] does at every level. *)
Fixpoint sort_keys (v : json) : json :=
  match v with
  | JArr l => JArr (map sort_keys l)
  | JObj l => JObj (py_sorted key_leb (map (fun p => (p.1, sort_keys p.2)) l))
  | v => v
  end.

(** Equality up to the order of keys. *)
#[export] Instance json_equiv : Equiv json := fun v w => sort_keys v = sort_keys w.

#[export] Instance json_equivalence : Equivalence (≡@{json}).
Proof. split; [by intros v|by intros v w|by intros u v w; unfold equiv, json_equiv; intros -> ->]. Qed.

(** A function that changes the values and leaves the keys. *)
Definition map_values (f : string -> json -> json) (l : list (string * json)) : list (string * json) := map (fun p => (p.1, f p.1 p.2)) l.

Lemma insert_map f p l : insert_sorted key_leb (p.1, f p.1 p.2) (map_values f l) = map_values f (insert_sorted key_leb p l).
Proof. induction l as [|q l IH]; [done|]. cbn. change (key_leb (p.1, _) (q.1, _)) with (key_leb p q). destruct (key_leb p q); [done|]. cbn. f_equal. apply IH. Qed.

Lemma sorted_map f l : py_sorted key_leb (map_values f l) = map_values f (py_sorted key_leb l).
Proof. induction l as [|p l IH]; [done|]. cbn. change (map _ l) with (map_values f l). rewrite IH. apply (insert_map f). Qed.

Lemma key_leb_total p q : key_leb p q = true \/ key_leb q p = true.
Proof. apply string_leb_total. Qed.

Lemma key_leb_trans p q r : key_leb p q = true -> key_leb q r = true -> key_leb p r = true.
Proof. apply string_leb_trans. Qed.

Lemma insert_head p l : (forall q, q ∈ l -> key_leb p q = true) -> insert_sorted key_leb p l = p :: l.
Proof. destruct l as [|q l]; [done|]. intros H. cbn. by rewrite H by left. Qed.

Lemma sorted_of_sorted l : StronglySorted (fun p q => key_leb p q = true) l -> py_sorted key_leb l = l.
Proof.
  induction 1 as [|p l _ IH Hp]; [done|]. cbn. rewrite IH. apply insert_head. intros q Hq. by eapply Forall_forall in Hp.
Qed.

Lemma sorted_sorted l : py_sorted key_leb (py_sorted key_leb l) = py_sorted key_leb l.
Proof. apply sorted_of_sorted, py_sorted_sorted; [apply key_leb_total|apply key_leb_trans]. Qed.

Lemma sort_keys_obj l : sort_keys (JObj l) = JObj (map_values (fun _ => sort_keys) (py_sorted key_leb l)).
Proof. cbn [sort_keys]. f_equal. apply (sorted_map (fun _ => sort_keys)). Qed.

Lemma map_values_compose f g l : map_values f (map_values g l) = map_values (fun k v => f k (g k v)) l.
Proof. unfold map_values. by rewrite List.map_map. Qed.

Lemma map_values_ext f g l : (forall p, p ∈ l -> f p.1 p.2 = g p.1 p.2) -> map_values f l = map_values g l.
Proof. intros H. apply List.map_ext_in. intros p Hp%list_elem_of_In. by rewrite H. Qed.

Lemma sort_keys_idem v : sort_keys (sort_keys v) = sort_keys v.
Proof.
  induction v as [| | | | |l IH|l IH] using json_rect'; try done.
  - cbn [sort_keys]. f_equal. rewrite List.map_map. apply List.map_ext_in. intros x Hx%list_elem_of_In. by eapply Forall_forall in IH.
  - rewrite !sort_keys_obj, sorted_map, sorted_sorted, map_values_compose. f_equal. apply map_values_ext. intros p Hp.
    apply elem_of_py_sorted in Hp. by eapply Forall_forall in IH.
Qed.

Lemma sort_keys_equiv v : sort_keys v ≡ v.
Proof. apply sort_keys_idem. Qed.

Lemma json_ok_sort v : json_ok (sort_keys v) = json_ok v.
Proof.
  induction v as [| | | | |l IH|l IH] using json_rect'; try done.
  - cbn [sort_keys json_ok]. induction IH as [|x l Hx _ IHl]; [done|]. cbn. by rewrite Hx, IHl.
  - cbn [sort_keys json_ok].
    transitivity (forallb (fun p => json_ok p.2) (map (fun p => (p.1, sort_keys p.2)) l)).
    + apply eq_bool_prop_intro. rewrite !Is_true_true, !List.forallb_forall. setoid_rewrite <-list_elem_of_In. by setoid_rewrite elem_of_py_sorted.
    + induction IH as [|x l Hx _ IHl]; [done|]. cbn. by rewrite Hx, IHl.
Qed.

#[export] Instance JArr_proper : Proper (Forall2 (≡) ==> (≡)) JArr.
Proof. intros l l' H. unfold equiv, json_equiv. cbn [sort_keys]. f_equal. induction H as [|x y l l' Hxy _ IH]; [done|]. cbn. by rewrite Hxy, IH. Qed.

(** The same members, in any order. *)
Lemma JObj_perm l l' : NoDup (l.*1) -> l ≡ₚ l' -> JObj l ≡ JObj l'.
Proof.
  intros Hnd Hp. unfold equiv, json_equiv. rewrite !sort_keys_obj. do 2 f_equal.
  apply (StronglySorted_unique_strong (fun p q => key_leb p q = true)).
  - intros p q Hp1 Hq1 Hpq Hqp. apply elem_of_py_sorted in Hp1. apply elem_of_py_sorted in Hq1. rewrite <-Hp in Hq1.
    assert (E : p.1 = q.1) by (by apply string_leb_antisym). apply list_elem_of_lookup in Hp1 as [i Hi], Hq1 as [j Hj].
    assert (i = j) as <-; [|congruence].
    eapply (NoDup_lookup (l.*1)); [done|by rewrite list_lookup_fmap, Hi|]. rewrite list_lookup_fmap, Hj. cbn. congruence.
  - apply py_sorted_sorted; [apply key_leb_total|apply key_leb_trans].
  - apply py_sorted_sorted; [apply key_leb_total|apply key_leb_trans].
  - by rewrite !py_sorted_perm.
Qed.

(** Objects that are equal have equal values at every key. *)
Lemma JObj_values l l' k v w : JObj l ≡ JObj l' -> NoDup (l'.*1) -> (k, v) ∈ l -> (k, w) ∈ l' -> v ≡ w.
Proof.
  unfold equiv at 1, json_equiv. cbn [sort_keys]. intros [= H] Hnd Hv Hw.
  assert (Hin : (k, sort_keys v) ∈ map (fun p => (p.1, sort_keys p.2)) l') by
    (rewrite <-(elem_of_py_sorted key_leb), <-H, elem_of_py_sorted; by apply (list_elem_of_fmap_2 (fun p => (p.1, sort_keys p.2)) l (k, v))).
  apply list_elem_of_fmap in Hin as ([k' w'] & [= <- E] & Hw'). cbn in E. unfold equiv, json_equiv. rewrite E. do 2 f_equal.
  apply list_elem_of_lookup in Hw as [i Hi], Hw' as [j Hj].
  assert (i = j) as <-; [|congruence]. eapply (NoDup_lookup (l'.*1)); [done|by rewrite list_lookup_fmap, Hi|by rewrite list_lookup_fmap, Hj].
Qed.

(** The same keys with equal values. *)
Lemma JObj_proper l l' : Forall2 (fun p q => p.1 = q.1 /\ p.2 ≡ q.2) l l' -> JObj l ≡ JObj l'.
Proof.
  intros H. unfold equiv, json_equiv. cbn [sort_keys]. f_equal. f_equal. induction H as [|p q l l' [Hk Hv] _ IH]; [done|].
  cbn. by rewrite Hk, Hv, IH.
Qed.

(** The text with sorted keys is the same exactly for values that are equal up to the order of keys. *)
Lemma dumps_sorted seps v w : seps_ok seps -> json_ok v = true -> json_ok w = true ->
  dumps seps (sort_keys v) = dumps seps (sort_keys w) <-> v ≡ w.
Proof. intros Hs Hv Hw. apply dumps_eq; [done|by rewrite json_ok_sort..]. Qed.

End Json.
