(* ===== verification/Repr.v ===== *)
(** [repr] of the values that the program digests: [None], booleans, integers, strings, and lists and tuples of such.

    As in [PyStr], a character is an 8-bit code point; those that CPython does not print are escaped. Texts tell values
    apart, also with something behind them, which is how the lines under a digest are told apart. *)

From S2P Require Export Json.

Module Repr.
Export Json.

Inductive pyval :=
  | PNone
  | PBool (b : bool)
  | PInt (z : Z)
  | PStr (s : string)
  | PList (l : list pyval)
  | PTuple (l : list pyval).

Section Induction.
Context (P : pyval -> Prop) (HNone : P PNone) (HBool : forall b, P (PBool b)) (HInt : forall z, P (PInt z)) (HStr : forall s, P (PStr s))
        (HList : forall l, Forall P l -> P (PList l)) (HTuple : forall l, Forall P l -> P (PTuple l)).

Fixpoint pyval_rect' (v : pyval) : P v :=
  match v with
  | PNone => HNone
  | PBool b => HBool b
  | PInt z => HInt z
  | PStr s => HStr s
  | PList l => HList l ((fix go (l : list pyval) : Forall P l :=
      match l with [] => Forall_nil_2 _ | x :: l' => Forall_cons_2 _ x l' (pyval_rect' x) (go l') end) l)
  | PTuple l => HTuple l ((fix go (l : list pyval) : Forall P l :=
      match l with [] => Forall_nil_2 _ | x :: l' => Forall_cons_2 _ x l' (pyval_rect' x) (go l') end) l)
  end.
End Induction.

(** ** Strings *)

Definition apostrophe : ascii := chr 39.

(** [str.isprintable] of one character. *)
Definition printable (x : Z) : bool := (between 32 126 x || (between 161 255 x && negb (x =? 173)))%bool.

(** One character between the quotes [q]. *)
Definition repr_char (q c : ascii) : list ascii :=
  let x := code c in
  if (ceqb c q || ceqb c backslash)%bool then [backslash; c]
  else if x =? 9 then [backslash; "t"%char]
  else if x =? 10 then [backslash; "n"%char]
  else if x =? 13 then [backslash; "r"%char]
  else if printable x then [c]
  else [backslash; "x"%char; digit_char (x / 16); digit_char (x mod 16)].

(** Double quotes only if the text has an apostrophe and no double quote. *)
Definition quote_for (l : list ascii) : ascii :=
  if (existsb (ceqb apostrophe) l && negb (existsb (ceqb quote) l))%bool then quote else apostrophe.

Definition repr_str (s : string) : list ascii :=
  let q := quote_for (chars s) in q :: flat_map (repr_char q) (chars s) ++ [q].

(** ** Values *)

Fixpoint repr_chars (v : pyval) : list ascii :=
  match v with
  | PNone => chars "None"
  | PBool true => chars "True"
  | PBool false => chars "False"
  | PInt z => int_text z
  | PStr s => repr_str s
  | PList [] => chars "[]"
  | PList (x :: l) => "["%char :: repr_chars x ++ flat_map (fun y => chars ", " ++ repr_chars y) l ++ ["]"%char]
  | PTuple [] => chars "()"
  | PTuple [x] => "("%char :: repr_chars x ++ chars ",)"
  | PTuple (x :: l) => "("%char :: repr_chars x ++ flat_map (fun y => chars ", " ++ repr_chars y) l ++ [")"%char]
  end.

Definition repr (v : pyval) : string := of_chars (repr_chars v).

Example reprs :
  map repr [PTuple [PStr "model"; PStr "a\b"]; PTuple [PStr "it's"]; PTuple []; PTuple [PNone; PBool true; PInt (-3)]; PList [PInt 1; PInt 2]] =
  ["('model', 'a\\b')"; of_chars ["("%char; quote; "i"%char; "t"%char; apostrophe; "s"%char; quote; ","%char; ")"%char]; "()"; "(None, True, -3)"; "[1, 2]"].
Proof. reflexivity. Qed.

(** ** Texts tell values apart *)

#[local] Arguments repr_str : simpl never.
#[local] Arguments int_text : simpl never.

Definition unrepr (l : list ascii) : option (ascii * list ascii) :=
  match l with
  | [] => None
  | c :: l' =>
      if negb (ceqb c backslash) then Some (c, l')
      else match l' with
           | "x"%char :: h :: k :: r => Some (chr (dval h * 16 + dval k), r)
           | "n"%char :: r => Some (chr 10, r)
           | "r"%char :: r => Some (chr 13, r)
           | "t"%char :: r => Some (chr 9, r)
           | d :: r => Some (d, r)
           | [] => None
           end
  end.

Definition is_quote (q : ascii) : Prop := q = quote \/ q = apostrophe.

Lemma unrepr_repr q c r : is_quote q -> unrepr (repr_char q c ++ r) = Some (c, r).
Proof. intros [-> | ->]; destruct c as [[] [] [] [] [] [] [] []]; reflexivity. Qed.

Lemma repr_char_not_quote q c : is_quote q -> match repr_char q c with d :: _ => d <> q | [] => False end.
Proof. intros [-> | ->]; destruct c as [[] [] [] [] [] [] [] []]; vm_compute; discriminate. Qed.

Lemma repr_char_lines q c : is_quote q -> chr 10 ∉ repr_char q c.
Proof. intros [-> | ->]; apply (bool_decide_unpack _); destruct c as [[] [] [] [] [] [] [] []]; vm_compute; exact I. Qed.

Lemma quote_for_quote l : is_quote (quote_for l).
Proof. unfold quote_for. destruct (_ && _)%bool; [by left|by right]. Qed.

Lemma repr_body_inj q l l' r r' :
  is_quote q -> flat_map (repr_char q) l ++ q :: r = flat_map (repr_char q) l' ++ q :: r' -> l = l' /\ r = r'.
Proof.
  intros Hq. revert l'. induction l as [|c l IH]; intros [|c' l'] H; cbn [flat_map] in H; rewrite <-?app_assoc in H.
  - by injection H as ->.
  - exfalso. pose proof (repr_char_not_quote q c' Hq) as Hc. destruct (repr_char q c'); [done|]. injection H as H _. by apply Hc.
  - exfalso. pose proof (repr_char_not_quote q c Hq) as Hc. destruct (repr_char q c); [done|]. injection H as H _. by apply Hc.
  - pose proof (unrepr_repr q c (flat_map (repr_char q) l ++ q :: r) Hq) as H1. rewrite H, unrepr_repr in H1 by done. injection H1 as -> H1.
    by destruct (IH l' (eq_sym H1)) as [-> ->].
Qed.

Lemma repr_str_inj s s' r r' : repr_str s ++ r = repr_str s' ++ r' -> s = s' /\ r = r'.
Proof.
  unfold repr_str. cbn [app]. rewrite <-!app_assoc. cbn [app]. intros [= Hq H]. rewrite <-Hq in H.
  apply repr_body_inj in H as [H ->]; [|apply quote_for_quote]. split; [|done]. by rewrite <-(of_chars_chars s), H, of_chars_chars.
Qed.

(** What can follow a value. *)
Definition ends (r : list ascii) : Prop := match r with [] => True | c :: _ => c ∈ [","%char; ")"%char; "]"%char; chr 10] end.

Lemma ends_token r : ends r -> match r with [] => True | c :: _ => token_char c = false end.
Proof. destruct r as [|c r]; [done|]. intros Hc. repeat apply elem_of_cons in Hc as [-> |Hc]; [done..|]. by apply elem_of_nil in Hc. Qed.

Lemma token_span_inj (t t' r r' : list ascii) :
  forallb token_char t = true -> forallb token_char t' = true -> ends r -> ends r' -> t ++ r = t' ++ r' -> t = t' /\ r = r'.
Proof.
  intros Ht Ht' Hr%ends_token Hr'%ends_token. revert t' Ht Ht'.
  induction t as [|c t IH]; intros [|c' t'] Ht Ht' H; cbn [app forallb] in *; bool_hyps; try done.
  - subst r. congruence.
  - subst r'. congruence.
  - injection H as -> H. by destruct (IH t') as [-> ->].
Qed.

Lemma int_text_inj z z' r r' : ends r -> ends r' -> int_text z ++ r = int_text z' ++ r' -> z = z' /\ r = r'.
Proof.
  intros Hr Hr' H. apply token_span_inj in H as [H ->]; try done; [|apply int_text_token..]. split; [|done].
  pose proof (read_int z) as Hz. rewrite H, read_int in Hz. by injection Hz.
Qed.

(** The constructor, from the first character. *)
Definition kind (l : list ascii) : nat :=
  match l with
  | [] => 0
  | c :: _ => if ceqb c "N"%char then 1 else if ceqb c "T"%char then 2 else if ceqb c "F"%char then 3 else if ceqb c "("%char then 4
              else if (ceqb c quote || ceqb c apostrophe)%bool then 5 else if (is_digit c || ceqb c "-"%char)%bool then 6 else if ceqb c "["%char then 7 else 8
  end.

Definition value_kind (v : pyval) : nat :=
  match v with PNone => 1 | PBool true => 2 | PBool false => 3 | PTuple _ => 4 | PStr _ => 5 | PInt _ => 6 | PList _ => 7 end.

Lemma kind_int z r : kind (int_text z ++ r) = 6%nat.
Proof.
  destruct (int_text_token z) as (Ht & Hne & Hd). destruct (int_text z) as [|c t]; [done|]. cbn [existsb forallb] in Hd, Ht.
  apply orb_false_iff in Hd as [Hd _]. apply negb_false_iff in Hd. cbn. rewrite Hd.
  destruct c as [[] [] [] [] [] [] [] []]; (discriminate Hd || reflexivity).
Qed.

Lemma kind_repr v r : kind (repr_chars v ++ r) = value_kind v.
Proof.
  destruct v as [|[]|z|s|[|x l]|[|x [|y l]]]; cbn [repr_chars app value_kind]; try done; [apply kind_int|].
  unfold repr_str. cbn. by destruct (quote_for_quote (chars s)) as [-> | ->].
Qed.

Definition injective_text (v : pyval) : Prop := forall w r r', ends r -> ends r' -> repr_chars v ++ r = repr_chars w ++ r' -> v = w /\ r = r'.

Definition more (l : list pyval) : list ascii := flat_map (fun y => chars ", " ++ repr_chars y) l.

Definition closes (c : ascii) : Prop := c = ")"%char \/ c = "]"%char.

Lemma ends_more l c r : closes c -> ends (more l ++ c :: r).
Proof. intros [-> | ->]; destruct l; cbn; set_solver. Qed.

Lemma more_inj c l l' r r' :
  closes c -> Forall injective_text l -> more l ++ c :: r = more l' ++ c :: r' -> l = l' /\ r = r'.
Proof.
  intros Hc Hl. revert l'. induction Hl as [|x l Hx Hl IH]; intros [|x' l'] H; cbn in H; try (by destruct Hc as [-> | ->]); [by injection H|].
  rewrite <-!app_assoc in H. injection H as H. apply Hx in H as [-> H]; [|by apply ends_more..]. by destruct (IH l' H) as [-> ->].
Qed.

Lemma tuple_chars x l r : repr_chars (PTuple (x :: l)) ++ r = "("%char :: repr_chars x ++ (match l with [] => [","%char] | _ => more l end) ++ ")"%char :: r.
Proof. destruct l as [|y l]; cbn [repr_chars app]; rewrite <-!app_assoc; done. Qed.

Lemma list_chars x l r : repr_chars (PList (x :: l)) ++ r = "["%char :: repr_chars x ++ more l ++ "]"%char :: r.
Proof. cbn [repr_chars app]. rewrite <-!app_assoc. done. Qed.

(** No value begins with a character that closes. *)
Lemma repr_not_closing v r c r' : closes c -> repr_chars v ++ r = c :: r' -> False.
Proof. intros Hc H. pose proof (kind_repr v r) as Hk. rewrite H in Hk. destruct Hc as [-> | ->], v as [|[]| | | |]; discriminate. Qed.

Lemma repr_chars_inj v : injective_text v.
Proof.
  induction v as [|b|z|s|l IH|l IH] using pyval_rect'; intros w r r' Hr Hr' H;
    (pose proof (kind_repr w r') as Hk; rewrite <-H, kind_repr in Hk).
  - destruct w as [|[]|z|s|l|l]; try done. cbn in H. by injection H.
  - destruct w as [|b'|z|s|l|l]; try by destruct b. destruct b, b'; try done; cbn in H; by injection H as ->.
  - destruct w as [|[]|z'|s|l|l]; try done. by apply int_text_inj in H as [-> ->].
  - destruct w as [|[]|z'|s'|l|l]; try done. by apply repr_str_inj in H as [-> ->].
  - destruct w as [|[]|z'|s'|l'|l']; try done. destruct l as [|x l], l' as [|x' l']; rewrite ?list_chars in H.
    + cbn in H. by injection H as ->.
    + cbn in H. injection H as H. symmetry in H. apply repr_not_closing in H; [done|by right].
    + cbn in H. injection H as H. apply repr_not_closing in H; [done|by right].
    + injection H as H. apply Forall_cons in IH as [Hx Hl]. apply Hx in H as [-> H]; [|apply ends_more; by right..].
      apply more_inj in H as [-> ->]; [done|by right|done].
  - destruct w as [|[]|z'|s'|l'|l']; try done. destruct l as [|x l], l' as [|x' l']; rewrite ?tuple_chars in H.
    + cbn in H. by injection H as ->.
    + cbn in H. injection H as H. symmetry in H. apply repr_not_closing in H; [done|by left].
    + cbn in H. injection H as H. apply repr_not_closing in H; [done|by left].
    + injection H as H. apply Forall_cons in IH as [Hx Hl].
      apply Hx in H as [-> H]; [|destruct l; [cbn; set_solver|apply ends_more; by left]|destruct l'; [cbn; set_solver|apply ends_more; by left]].
      destruct l as [|y l], l' as [|y' l']; try (cbn in H; discriminate); [by injection H as ->|].
      apply more_inj in H as [[= -> ->] ->]; [done|by left|done].
Qed.

Lemma more_lines l : Forall (fun v => chr 10 ∉ repr_chars v) l -> chr 10 ∉ more l.
Proof.
  intros Hl H. apply list_elem_of_In, in_flat_map in H as (v & Hv & H). apply list_elem_of_In, elem_of_app in H as [H|H].
  - revert H. apply (bool_decide_unpack _). by vm_compute.
  - apply list_elem_of_In in Hv. rewrite Forall_forall in Hl. by eapply Hl.
Qed.

(** No text of a value has a line break. *)
Lemma repr_lines v : chr 10 ∉ repr_chars v.
Proof.
  induction v as [|b|z|s|l IH|l IH] using pyval_rect'.
  - apply (bool_decide_unpack _). by vm_compute.
  - apply (bool_decide_unpack _). by destruct b; vm_compute.
  - cbn [repr_chars]. intros H. destruct (int_text_token z) as (Ht & _). rewrite forallb_forall in Ht. specialize (Ht _ (proj1 (list_elem_of_In _ _) H)). by vm_compute in Ht.
  - cbn [repr_chars]. unfold repr_str. pose proof (quote_for_quote (chars s)) as Hq. generalize dependent (quote_for (chars s)). intros q Hq.
    rewrite elem_of_cons, elem_of_app, list_elem_of_singleton. intros [H|[H|H]]; [by destruct Hq as [-> | ->]| |by destruct Hq as [-> | ->]].
    apply list_elem_of_In, in_flat_map in H as (c & _ & H). by apply list_elem_of_In, repr_char_lines in H.
  - destruct l as [|x l]; [by apply (bool_decide_unpack _); vm_compute|]. rewrite <-(app_nil_r (repr_chars _)), list_chars. apply Forall_cons in IH as [Hx Hl].
    rewrite elem_of_cons, !elem_of_app, list_elem_of_singleton. intros [H|[H|[H|H]]]; [done|done|by apply more_lines in H|done].
  - destruct l as [|x l]; [by apply (bool_decide_unpack _); vm_compute|]. rewrite <-(app_nil_r (repr_chars _)), tuple_chars. apply Forall_cons in IH as [Hx Hl].
    rewrite elem_of_cons, !elem_of_app, list_elem_of_singleton. intros [H|[H|[H|H]]]; [done|done| |done]. revert H.
    destruct l as [|y l]; [by intros ?%list_elem_of_singleton|by apply more_lines].
Qed.
End Repr.
