(* ===== verification/Schemas.v ===== *)
(** JSON schemas of object types: their definitions and the references between them ([schemas/objecttype_schema.py],
    [api/v1/objecttype_helpers.py], [api/v1/write_validation.py]).

    Schemas are trees: the code rewrites references in place, and sets a reference to the same text however often it meets
    a shared object. The schemas of members and classes are in [ObjectSchema]. *)

From S2P Require Export Json.

Module Schemas.
Export Json.

(** ** Objects *)

Definition obj_get (k : string) (v : json) : option json := match v with JObj l => items_lookup k l | _ => None end.
Definition obj_set (k : string) (x : json) (v : json) : json := match v with JObj l => JObj (items_insert k x l) | v => v end.

Definition is_obj (v : json) : bool := match v with JObj _ => true | _ => false end.

Definition local_prefix : string := "#/$defs/".

(** The name in a reference to a definition of the same schema. *)
Definition local_ref (v : json) : option string :=
  match v with JStr s => if startswith local_prefix s then Some (str_drop 8 s) else None | _ => None end.

(** ** The registry of definitions *)

Record SchemaRegistry := {
  sr_defs : dict string json;
  sr_definition_by_key : dict string string;
  sr_used_definition_names : list string;
}.

Definition empty_registry : SchemaRegistry := {| sr_defs := ∅; sr_definition_by_key := ∅; sr_used_definition_names := [] |}.

Definition registry_has (key : string) (r : SchemaRegistry) : bool := dict_mem key (sr_definition_by_key r).

(** [None] where the code raises KeyError. *)
Definition definition_name_for (key : string) (r : SchemaRegistry) : option string := sr_definition_by_key r !! key.
Definition ref_for (key : string) (r : SchemaRegistry) : option json :=
  (fun name => JObj [("$ref", JStr (local_prefix +:+ name))]) <$> definition_name_for key r.

Definition reserve (key name : string) (r : SchemaRegistry) : SchemaRegistry :=
  {| sr_defs := sr_defs r; sr_definition_by_key := <[key := name]> (sr_definition_by_key r);
     sr_used_definition_names := name :: sr_used_definition_names r |}.

Definition set_definition (name : string) (schema : json) (r : SchemaRegistry) : SchemaRegistry :=
  {| sr_defs := <[name := schema]> (sr_defs r); sr_definition_by_key := sr_definition_by_key r;
     sr_used_definition_names := sr_used_definition_names r |}.

(** [re.sub(r"_+", "_", s)]. *)
Fixpoint squeeze (l : list ascii) : list ascii :=
  match l with
  | [] => []
  | c :: l' => if (ceqb c "_"%char && match l' with d :: _ => ceqb d "_"%char | [] => false end)%bool then squeeze l' else c :: squeeze l'
  end.

Definition safe_char (c : ascii) : bool := (is_alnum c || ceqb c "_"%char)%bool.

Definition safe_definition_name (raw_name : string) : string :=
  let cleaned := map (fun c => if safe_char c then c else "_"%char) (chars raw_name) in
  let cleaned := strip_chars ["_"%char] (of_chars (squeeze cleaned)) in
  match chars cleaned with
  | [] => "Definition"
  | c :: _ => if is_digit c then "D_" +:+ cleaned else cleaned
  end.

(** The names that are tried: the stem, then with the suffixes 2, 3, ... *)
Definition numbered (stem separator : string) (index : Z) : string := if index <=? 1 then stem else stem +:+ separator +:+ str_of_int index.

Fixpoint first_free (name : Z -> string) (fuel : nat) (index : Z) (used : list string) : option string :=
  match fuel with
  | O => None
  | S fuel' => if bool_decide (name index ∈ used) then first_free name fuel' (index + 1) used else Some (name index)
  end.

Definition candidate (base : string) : Z -> string := numbered base "_".

(** One name more than are used is enough. *)
Definition allocate (key preferred_name : string) (r : SchemaRegistry) : option (SchemaRegistry * string) :=
  match sr_definition_by_key r !! key with
  | Some name => Some (r, name)
  | None =>
      name ← first_free (candidate (safe_definition_name preferred_name)) (S (length (sr_used_definition_names r))) 1 (sr_used_definition_names r);
      Some (reserve key name r, name)
  end.

(** ** Equal definitions *)

(** Sorted at every level; the keys are strings already. *)
Definition normalize_schema_value : json -> json := sort_keys.

Definition schema_fingerprint (v : json) : string := dumps compact_separators (sort_keys (normalize_schema_value v)).

Definition rewrite_ref (alias_by_name : dict string string) (v : json) : json :=
  match local_ref v with
  | Some name => match alias_by_name !! name with Some replacement => JStr (local_prefix +:+ replacement) | None => v end
  | None => v
  end.

Fixpoint rewrite_local_defs_refs (alias_by_name : dict string string) (v : json) : json :=
  match v with
  | JArr l => JArr (map (rewrite_local_defs_refs alias_by_name) l)
  | JObj l =>
      JObj (map (fun p => (p.1, if bool_decide (p.1 = "$ref") then rewrite_ref alias_by_name (rewrite_local_defs_refs alias_by_name p.2)
                               else rewrite_local_defs_refs alias_by_name p.2)) l)
  | v => v
  end.

Record Dedupe := {
  dd_alias_by_name : dict string string;
  dd_name_by_fingerprint : dict string string;
  dd_defs : list (string * json);
}.

Definition dedupe_def (st : Dedupe) (entry : string * json) : Dedupe :=
  let fingerprint := schema_fingerprint entry.2 in
  match dd_name_by_fingerprint st !! fingerprint with
  | None =>
      {| dd_alias_by_name := <[entry.1 := entry.1]> (dd_alias_by_name st);
         dd_name_by_fingerprint := <[fingerprint := entry.1]> (dd_name_by_fingerprint st);
         dd_defs := items_insert entry.1 entry.2 (dd_defs st) |}
  | Some winner =>
      {| dd_alias_by_name := <[entry.1 := winner]> (dd_alias_by_name st);
         dd_name_by_fingerprint := dd_name_by_fingerprint st; dd_defs := dd_defs st |}
  end.

Definition dedupe_defs (defs : list (string * json)) : Dedupe :=
  fold_left dedupe_def defs {| dd_alias_by_name := ∅; dd_name_by_fingerprint := ∅; dd_defs := [] |}.

(** The definitions that stay are the objects that the rewriting has changed in place. *)
Definition dedupe_defs_and_rewrite_local_refs (schema : json) : json :=
  match obj_get "$defs" schema with
  | Some (JObj defs) =>
      let st := dedupe_defs defs in
      if forallb (fun p => bool_decide (p.1 = p.2)) (dict_items (dd_alias_by_name st)) then schema
      else obj_set "$defs" (JObj (map_values (fun _ => rewrite_local_defs_refs (dd_alias_by_name st)) (dd_defs st)))
             (rewrite_local_defs_refs (dd_alias_by_name st) schema)
  | _ => schema
  end.

(** ** Shared fragments *)

(** [{key: f(value) for ...}] and [[f(item) for ...]] with a state. *)
Section Threaded.
Context {S A B : Type} (f : S -> A -> S * B).

Fixpoint map_state (s : S) (l : list A) : S * list B :=
  match l with
  | [] => (s, [])
  | x :: l' => let '(s1, y) := f s x in let '(s2, ys) := map_state s1 l' in (s2, y :: ys)
  end.
End Threaded.

(** The containers seen so far, by their texts. *)
Definition share (pool : dict string json) (candidate : json) : dict string json * json :=
  let key := dumps compact_separators candidate in
  match pool !! key with
  | Some v => (pool, v)
  | None => (<[key := candidate]> pool, candidate)
  end.

Fixpoint intern (pool : dict string json) (v : json) : dict string json * json :=
  match v with
  | JObj l => let '(pool', l') := map_state (fun pool p => let '(pool', x) := intern pool p.2 in (pool', (p.1, x))) pool l in share pool' (JObj l')
  | JArr l => let '(pool', l') := map_state intern pool l in share pool' (JArr l')
  | v => (pool, v)
  end.

Definition deduplicate_schema_fragments (schemas : list json) : list json := (map_state intern ∅ schemas).2.

(** ** Fields of OPC UA *)

Fixpoint remove_opcua_schema_fields (v : json) : json :=
  match v with
  | JObj l => JObj (omap (fun p => if startswith "x-opcua-" p.1 then None else Some (p.1, remove_opcua_schema_fields p.2)) l)
  | JArr l => JArr (map remove_opcua_schema_fields l)
  | v => v
  end.

(** ** Expansion *)

(** [{**target, **the other members of the reference}]. *)
Definition merge_reference (target reference : list (string * json)) : list (string * json) :=
  fold_left (fun acc p => if bool_decide (p.1 = "$ref") then acc else items_insert p.1 p.2 acc) reference target.

Definition inline_registered_reference (schema : json) (r : SchemaRegistry) : json :=
  match schema with
  | JObj l =>
      match items_lookup "$ref" l ≫= local_ref with
      | Some name => match sr_defs r !! name with Some (JObj target) => JObj (merge_reference target l) | _ => schema end
      | None => schema
      end
  | _ => schema
  end.

(** [None] is fuel that has run out. *)
Fixpoint expand_schema_refs (fuel : nat) (defs : dict string json) (stack : list string) (v : json) : option json :=
  match fuel with
  | O => None
  | S fuel' =>
      let children (l : list (string * json)) : option json :=
        JObj <$> mapM (fun p => x ← expand_schema_refs fuel' defs stack p.2; Some (p.1, x)) l in
      match v with
      | JArr l => JArr <$> mapM (expand_schema_refs fuel' defs stack) l
      | JObj l =>
          match items_lookup "$ref" l ≫= local_ref with
          | Some name =>
              if bool_decide (name ∈ stack) then Some v
              else match defs !! name with
                   | Some (JObj target) => expand_schema_refs fuel' defs (stack ++ [name]) (JObj (merge_reference target l))
                   | _ => children l
                   end
          | None => children l
          end
      | v => Some v
      end
  end.

Fixpoint depth (v : json) : nat :=
  match v with
  | JArr l => S (max_list_with depth l)
  | JObj l => S (max_list_with (fun p => depth p.2) l)
  | _ => 0
  end.

(** Enough for the schema and every definition. *)
Definition expand_fuel (schema : json) (defs : dict string json) : nat :=
  S (depth schema + sum_list_with (fun p => S (depth p.2)) (dict_items defs)).

(** ** References that a schema needs *)

Fixpoint iter_local_defs_refs (v : json) : list string :=
  match v with
  | JObj l =>
      match items_lookup "$ref" l ≫= local_ref with Some name => [name] | None => [] end ++ flat_map (fun p => iter_local_defs_refs p.2) l
  | JArr l => flat_map iter_local_defs_refs l
  | _ => []
  end.

(** The stack has its top first. *)
Fixpoint collect_defs (fuel : nat) (defs : dict string json) (seen : list string) (pending : list string) (collected : dict string json) : option (dict string json) :=
  match fuel with
  | O => None
  | S fuel' =>
      match pending with
      | [] => Some collected
      | name :: pending' =>
          if bool_decide (name ∈ seen) then collect_defs fuel' defs seen pending' collected
          else match defs !! name with
               | Some (JObj l as referenced) =>
                   collect_defs fuel' defs (name :: seen) (reverse (iter_local_defs_refs referenced) ++ pending') (<[name := referenced]> collected)
               | _ => collect_defs fuel' defs (name :: seen) pending' collected
               end
      end
  end.

(** Every reference of the schema and of the definitions is taken from the stack at most once. *)
Definition collect_fuel (schema : json) (defs : dict string json) : nat :=
  S (length (iter_local_defs_refs schema) + sum_list_with (fun p => length (iter_local_defs_refs p.2)) (dict_items defs)).

Definition collect_transitive_defs (schema : json) (defs : dict string json) : option (dict string json) :=
  collect_defs (collect_fuel schema defs) defs [] (reverse (iter_local_defs_refs schema)) ∅.

(** [false] where the code raises. *)
Fixpoint check_local_references (v : json) : bool :=
  match v with
  | JObj l =>
      forallb (fun p => (if bool_decide (p.1 ∈ ["$ref"; "$dynamicRef"; "$recursiveRef"])
                         then match p.2 with JStr s => startswith "#" s | _ => false end else true)
                        && check_local_references p.2)%bool l
  | JArr l => forallb check_local_references l
  | _ => true
  end.

End Schemas.
