(* ===== verification/SchemasSpec.v ===== *)
(** What the handling of definitions and references in [Schemas.v] preserves: the meaning of a schema when equal
    definitions are merged, the values when fragments are shared, exactly the definitions that are needed, and the end of
    every expansion. *)

From S2P Require Export Schemas.

Module SchemasSpec.
Export Schemas.

(** ** Shared fragments *)

(** Every container in the pool is filed under its own text. *)
Definition pool_ok (pool : dict string json) : Prop :=
  forall key v, pool !! key = Some v -> json_ok v = true /\ dumps compact_separators v = key.

Lemma share_same pool v : pool_ok pool -> json_ok v = true -> exists pool', share pool v = (pool', v) /\ pool_ok pool'.
Proof.
  intros Hp Hv. unfold share. destruct (pool !! _) as [w|] eqn:E.
  - destruct (Hp _ _ E) as [Hw Hd]. apply dumps_inj in Hd as ->; [by exists pool|apply compact_separators_ok|done|done].
  - eexists. split; [done|]. intros key w. rewrite dict_lookup_insert. case_bool_decide; [|apply Hp]. intros [= <-]. by subst.
Qed.

(** A threaded map that gives every element back. *)
Lemma map_state_same {S A} (f : S -> A -> S * A) (I : S -> Prop) s l :
  I s -> Forall (fun x => forall s, I s -> exists s', f s x = (s', x) /\ I s') l -> exists s', map_state f s l = (s', l) /\ I s'.
Proof.
  intros Hs Hl. revert s Hs. induction Hl as [|x l Hx _ IH]; intros s Hs; cbn [map_state]; [by exists s|].
  destruct (Hx s Hs) as (s1 & -> & H1). destruct (IH s1 H1) as (s2 & -> & H2). by exists s2.
Qed.

Lemma intern_same v pool : pool_ok pool -> json_ok v = true -> exists pool', intern pool v = (pool', v) /\ pool_ok pool'.
Proof.
  revert pool. induction v as [| | | | |l IH|l IH] using json_rect'; intros pool Hp Hv; try (by exists pool).
  - cbn [intern]. edestruct (map_state_same intern pool_ok pool l Hp) as (pool' & -> & Hp').
    { cbn [json_ok] in Hv. rewrite List.forallb_forall in Hv. apply Forall_forall. intros x Hx s Hs.
      eapply Forall_forall in IH; [|exact Hx]. apply IH; [done|]. by apply Hv, list_elem_of_In. }
    by apply share_same.
  - cbn [intern]. edestruct (map_state_same (fun pool p => let '(pool', x) := intern pool p.2 in (pool', (p.1, x))) pool_ok pool l Hp) as (pool' & -> & Hp').
    { cbn [json_ok] in Hv. rewrite List.forallb_forall in Hv. apply Forall_forall. intros [k x] Hx s Hs.
      eapply Forall_forall in IH; [|exact Hx]. cbn [fst snd] in *. edestruct IH as (s' & -> & Hs'); [done| |by exists s'].
      apply list_elem_of_In in Hx. by apply Hv in Hx. }
    by apply share_same.
Qed.

(** Sharing equal fragments changes no schema: texts tell JSON values apart, so a container is only ever replaced by
    one that is equal to it, down to the order of its keys. *)
Theorem fragments_same schemas : forallb json_ok schemas = true -> deduplicate_schema_fragments schemas = schemas.
Proof.
  intros Hok. unfold deduplicate_schema_fragments. destruct (map_state_same intern pool_ok ∅ schemas) as (pool & -> & _); [done| |done].
  rewrite List.forallb_forall in Hok. apply Forall_forall. intros v Hv pool Hp. apply intern_same; [done|]. by apply Hok, list_elem_of_In.
Qed.

(** ** Equal definitions *)

(** The meaning of a schema to a depth: in place of a reference stands what it refers to; a definition that is missing
    leaves its name. *)
Fixpoint unfold_refs (n : nat) (defs : list (string * json)) : json -> json :=
  match n with
  | O => fun _ => JNull
  | S n' =>
      fix go v :=
        match v with
        | JArr l => JArr (map go l)
        | JObj l =>
            JObj (map (fun p => (p.1,
              if bool_decide (p.1 = "$ref") then
                match local_ref p.2 with
                | Some name => match items_lookup name defs with Some d => unfold_refs n' defs d | None => go p.2 end
                | None => go p.2
                end
              else go p.2)) l)
        | v => v
        end
  end.

Definition member_meaning n defs (k : string) (v : json) : json :=
  if bool_decide (k = "$ref") then
    match local_ref v with
    | Some name => match items_lookup name defs with Some d => unfold_refs n defs d | None => unfold_refs (S n) defs v end
    | None => unfold_refs (S n) defs v
    end
  else unfold_refs (S n) defs v.

Lemma unfold_obj n defs l : unfold_refs (S n) defs (JObj l) = JObj (map_values (member_meaning n defs) l).
Proof. reflexivity. Qed.

Lemma unfold_arr n defs l : unfold_refs (S n) defs (JArr l) = JArr (map (unfold_refs (S n) defs) l).
Proof. reflexivity. Qed.

Lemma local_ref_sort v : local_ref (sort_keys v) = local_ref v.
Proof. by destruct v. Qed.

(** Equal schemas mean the same. *)
Lemma unfold_sort n defs v : sort_keys (unfold_refs n defs (sort_keys v)) = sort_keys (unfold_refs n defs v).
Proof.
  destruct n as [|n]; [done|]. induction v as [| | | | |l IH|l IH] using json_rect'; try done.
  - cbn [sort_keys]. rewrite !unfold_arr. cbn [sort_keys]. f_equal. rewrite !List.map_map. apply List.map_ext_in.
    intros x Hx%list_elem_of_In. by eapply Forall_forall in IH.
  - rewrite sort_keys_obj, !unfold_obj, !sort_keys_obj, !sorted_map, sorted_sorted, !map_values_compose. f_equal. apply map_values_ext.
    intros p Hp. apply elem_of_py_sorted in Hp. eapply Forall_forall in IH; [|exact Hp]. unfold member_meaning. rewrite local_ref_sort.
    case_bool_decide; [|done]. destruct (local_ref p.2); [|done]. by destruct (items_lookup _ defs).
Qed.

#[export] Instance unfold_refs_proper n defs : Proper ((≡) ==> (≡)) (unfold_refs n defs).
Proof. intros v w H. unfold equiv, json_equiv in *. by rewrite <-(unfold_sort n defs v), H, unfold_sort. Qed.

Lemma fingerprint_equiv v w : json_ok v = true -> json_ok w = true -> schema_fingerprint v = schema_fingerprint w -> v ≡ w.
Proof.
  intros Hv Hw H. unfold schema_fingerprint, normalize_schema_value in H. apply dumps_sorted in H; [|apply compact_separators_ok|by rewrite json_ok_sort..].
  by rewrite !sort_keys_equiv in H.
Qed.

Lemma equiv_fingerprint v w : v ≡ w -> schema_fingerprint v = schema_fingerprint w.
Proof. intros H. unfold schema_fingerprint, normalize_schema_value. by rewrite !sort_keys_idem, H. Qed.

(** What the merging knows after some of the definitions. *)
Record dedupe_ok (done_ : list (string * json)) (st : Dedupe) : Prop := {
  do_alias : forall name v, (name, v) ∈ done_ ->
    exists winner, dd_alias_by_name st !! name = Some winner /\ dd_name_by_fingerprint st !! schema_fingerprint v = Some winner;
  do_none : forall name, name ∉ done_.*1 -> dd_alias_by_name st !! name = None;
  do_winner : forall fingerprint winner, dd_name_by_fingerprint st !! fingerprint = Some winner ->
    exists w, items_lookup winner (dd_defs st) = Some w /\ schema_fingerprint w = fingerprint;
  do_kept : forall name w, items_lookup name (dd_defs st) = Some w ->
    (name, w) ∈ done_ /\ dd_name_by_fingerprint st !! schema_fingerprint w = Some name;
}.

Lemma dedupe_def_ok done_ st name v : name ∉ done_.*1 -> dedupe_ok done_ st -> dedupe_ok (done_ ++ [(name, v)]) (dedupe_def st (name, v)).
Proof.
  intros Hn [Ha Hno Hw Hk]. assert (Hfresh : items_lookup name (dd_defs st) = None).
  { destruct (items_lookup name (dd_defs st)) as [w|] eqn:E; [|done]. apply Hk in E as [E _]. destruct Hn. apply list_elem_of_fmap. by exists (name, w). }
  assert (Hold : forall n w, (n, w) ∈ done_ -> n ≠ name) by (intros n w Hi ->; apply Hn, list_elem_of_fmap; by exists (name, w)).
  unfold dedupe_def. cbn [fst snd]. destruct (dd_name_by_fingerprint st !! _) as [winner|] eqn:E; split; cbn [dd_alias_by_name dd_name_by_fingerprint dd_defs].
  - intros n w [Hi|[= -> ->]%list_elem_of_singleton]%elem_of_app; rewrite dict_lookup_insert.
    + rewrite bool_decide_false by (intros ->; by eapply Hold). by apply Ha.
    + rewrite bool_decide_true by done. by exists winner.
  - intros n Hi. rewrite fmap_app, not_elem_of_app in Hi. destruct Hi as [Hi Hi1]. rewrite dict_lookup_insert, bool_decide_false; [by apply Hno|].
    intros <-. apply Hi1. by left.
  - done.
  - intros n w [Hi Hf]%Hk. split; [|done]. apply elem_of_app. by left.
  - intros n w [Hi|[= -> ->]%list_elem_of_singleton]%elem_of_app; rewrite !dict_lookup_insert.
    + rewrite (bool_decide_false (name = n)) by (intros ->; by eapply Hold). destruct (Ha _ _ Hi) as (winner & H1 & H2). exists winner.
      rewrite bool_decide_false by congruence. done.
    + rewrite !bool_decide_true by done. by exists name.
  - intros n Hi. rewrite fmap_app, not_elem_of_app in Hi. destruct Hi as [Hi Hi1]. rewrite dict_lookup_insert, bool_decide_false; [by apply Hno|].
    intros <-. apply Hi1. by left.
  - intros f winner. rewrite dict_lookup_insert. case_bool_decide as Hf.
    + intros [= <-]. exists v. by rewrite items_lookup_insert, bool_decide_true.
    + intros (w & H1 & H2)%Hw. exists w. rewrite items_lookup_insert, bool_decide_false; [done|]. intros <-. congruence.
  - intros n w. rewrite items_lookup_insert, dict_lookup_insert. case_bool_decide as Hnn.
    + intros [= <-]. subst n. rewrite bool_decide_true by done. split; [|done]. apply elem_of_app. right. by left.
    + intros [Hi Hf]%Hk. split; [apply elem_of_app; by left|]. by rewrite bool_decide_false by congruence.
Qed.

Lemma dedupe_defs_ok defs : NoDup (defs.*1) -> dedupe_ok defs (dedupe_defs defs).
Proof.
  intros Hnd. unfold dedupe_defs. assert (Hg : forall l done_ st, NoDup ((done_ ++ l).*1) -> dedupe_ok done_ st -> dedupe_ok (done_ ++ l) (fold_left dedupe_def l st)).
  { induction l as [|[name v] l IH]; intros done_ st Hn Hst; [by rewrite app_nil_r|]. cbn [fold_left].
    rewrite (cons_middle (name, v) done_ l), app_assoc in *. apply IH; [done|]. apply dedupe_def_ok; [|done].
    rewrite <-app_assoc, fmap_app in Hn. apply NoDup_app in Hn as (_ & Hx & _). intros Hi%Hx. apply Hi. by left. }
  apply (Hg defs []); [done|]. split; try done. intros n v Hi. by apply elem_of_nil in Hi.
Qed.

Lemma items_lookup_map_values f k l : items_lookup k (map_values f l) = f k <$> items_lookup k l.
Proof. induction l as [|[k' v] l IH]; [done|]. cbn. case_bool_decide as E; [by subst|done]. Qed.

Lemma local_ref_rewrite alias v : local_ref (rewrite_local_defs_refs alias v) = local_ref v.
Proof. by destruct v. Qed.

Lemma local_ref_local name : local_ref (JStr (local_prefix +:+ name)) = Some name.
Proof. cbn. f_equal. unfold str_drop. apply of_chars_chars. Qed.

Lemma rewrite_obj alias l : rewrite_local_defs_refs alias (JObj l) =
  JObj (map_values (fun k v => if bool_decide (k = "$ref") then rewrite_ref alias (rewrite_local_defs_refs alias v) else rewrite_local_defs_refs alias v) l).
Proof. reflexivity. Qed.

Section Meaning.
Context (defs : list (string * json)) (st : Dedupe) (Hst : dedupe_ok defs st).
Context (Hnd : NoDup (defs.*1)) (Hok : forallb (fun p => json_ok p.2) defs = true).

Abbreviation alias := (dd_alias_by_name st).
Abbreviation kept := (map_values (fun _ => rewrite_local_defs_refs alias) (dd_defs st)).

Lemma winner_equiv name v : items_lookup name defs = Some v ->
  exists winner w, alias !! name = Some winner /\ items_lookup winner (dd_defs st) = Some w /\ w ≡ v.
Proof using Hst Hok.
  intros Hi%items_lookup_Some_elem. destruct (do_alias _ _ Hst _ _ Hi) as (winner & Ha & Hf).
  destruct (do_winner _ _ Hst _ _ Hf) as (w & Hw & Hfw). exists winner, w. split_and!; [done|done|].
  rewrite List.forallb_forall in Hok. apply fingerprint_equiv; [|by apply (Hok (name, v)), list_elem_of_In|done].
  apply (do_kept _ _ Hst) in Hw as [Hw _]. by apply (Hok (winner, w)), list_elem_of_In.
Qed.

Lemma member_rewrite n k v :
  (forall v, unfold_refs n kept (rewrite_local_defs_refs alias v) ≡ unfold_refs n defs v) ->
  unfold_refs (S n) kept (rewrite_local_defs_refs alias v) ≡ unfold_refs (S n) defs v ->
  member_meaning n kept k (if bool_decide (k = "$ref") then rewrite_ref alias (rewrite_local_defs_refs alias v) else rewrite_local_defs_refs alias v) ≡
  member_meaning n defs k v.
Proof using Hst Hok.
  intros IHn IHv. unfold member_meaning. case_bool_decide as Hk; [|done]. unfold rewrite_ref. rewrite local_ref_rewrite.
  destruct (local_ref v) as [name|] eqn:E; [|by rewrite local_ref_rewrite, E].
  destruct (items_lookup name defs) as [d|] eqn:Ed.
  - destruct (winner_equiv name d Ed) as (winner & w & Ha & Hw & Hwd). rewrite Ha, local_ref_local, items_lookup_map_values, Hw. cbn [fmap option_fmap option_map].
    by rewrite IHn, Hwd.
  - rewrite (do_none _ _ Hst); [|by rewrite <-items_lookup_elem, Ed; apply is_Some_None]. rewrite local_ref_rewrite, E, items_lookup_map_values.
    destruct (items_lookup name (dd_defs st)) as [w|] eqn:Ew; [|exact IHv]. exfalso.
    apply (do_kept _ _ Hst) in Ew as [Ew _]. assert (Hx : is_Some (items_lookup name defs)); [|rewrite Ed in Hx; by destruct Hx].
    apply items_lookup_elem, list_elem_of_fmap. by exists (name, w).
Qed.

Lemma rewrite_meaning n v : unfold_refs n kept (rewrite_local_defs_refs alias v) ≡ unfold_refs n defs v.
Proof using Hst Hok.
  revert v. induction n as [|n IHn]; intros v; [done|]. induction v as [| | | | |l IH|l IH] using json_rect'; try done.
  - cbn [rewrite_local_defs_refs]. rewrite !unfold_arr. apply JArr_proper. induction IH as [|x l Hx _ IHl]; cbn [map]; by constructor.
  - rewrite rewrite_obj, !unfold_obj, map_values_compose. apply JObj_proper.
    induction IH as [|p l Hp _ IHl]; cbn; constructor; [|done]. split; [done|]. cbn [snd]. by apply member_rewrite.
Qed.
End Meaning.

(** A schema without its definitions. *)
Definition body (schema : json) : json := match schema with JObj l => JObj (List.filter (fun p => negb (bool_decide (p.1 = "$defs"))) l) | v => v end.

Lemma body_set x l : body (obj_set "$defs" x (JObj l)) = body (JObj l).
Proof.
  cbn [obj_set body]. f_equal. induction l as [|[k v] l IH]; [done|]. cbn [items_insert List.filter fst].
  destruct (bool_decide (k = "$defs")) eqn:E; cbn [List.filter fst negb]; [by rewrite bool_decide_true by done|]. by rewrite E, IH.
Qed.

Lemma filter_map_values (p : string -> bool) f l : List.filter (fun q => p q.1) (map_values f l) = map_values f (List.filter (fun q => p q.1) l).
Proof. unfold map_values. induction l as [|q l IH]; [done|]. cbn. rewrite IH. by destruct (p q.1). Qed.

Lemma body_rewrite alias l : body (rewrite_local_defs_refs alias (JObj l)) = rewrite_local_defs_refs alias (body (JObj l)).
Proof.
  cbn [body]. rewrite !rewrite_obj. cbn [body]. f_equal. exact (filter_map_values (fun k : string => negb (bool_decide (k = "$defs"))) _ l).
Qed.

(** Merging equal definitions keeps the meaning of a schema: unfolding its references to any depth gives the same
    value, up to the order of keys, before and after; and no two definitions that stay were equal. *)
Theorem dedupe_meaning schema defs :
  obj_get "$defs" schema = Some (JObj defs) -> NoDup (defs.*1) -> json_ok schema = true ->
  exists defs', obj_get "$defs" (dedupe_defs_and_rewrite_local_refs schema) = Some (JObj defs') /\
    (forall n, unfold_refs n defs' (body (dedupe_defs_and_rewrite_local_refs schema)) ≡ unfold_refs n defs (body schema)) /\
    (forall a b v w, a ∈ defs'.*1 -> b ∈ defs'.*1 -> items_lookup a defs = Some v -> items_lookup b defs = Some w -> v ≡ w -> a = b).
Proof.
  intros Hd Hnd Hok. destruct schema as [| | | | | |l]; try done. cbn [obj_get] in Hd.
  assert (Hdefs : forallb (fun p => json_ok p.2) defs = true).
  { apply items_lookup_Some_elem, list_elem_of_In in Hd. cbn [json_ok] in Hok. rewrite List.forallb_forall in Hok. by apply (Hok _ Hd). }
  pose proof (dedupe_defs_ok defs Hnd) as Hst. set (st := dedupe_defs defs) in *.
  assert (Hsame : forall a b v w, items_lookup a defs = Some v -> items_lookup b defs = Some w -> v ≡ w ->
    dd_alias_by_name st !! a = dd_alias_by_name st !! b).
  { intros a b v w Ha%items_lookup_Some_elem Hb%items_lookup_Some_elem Hvw. destruct (do_alias _ _ Hst _ _ Ha) as (x & -> & Hx).
    destruct (do_alias _ _ Hst _ _ Hb) as (y & -> & Hy). by rewrite (equiv_fingerprint v w Hvw), Hy in Hx. }
  unfold dedupe_defs_and_rewrite_local_refs. cbn [obj_get]. rewrite Hd. fold st. destruct (forallb (fun p => bool_decide (p.1 = p.2)) (dict_items (dd_alias_by_name st))) eqn:E.
  - exists defs. split_and!; [done|done|]. intros a b v w _ _ Ha Hb Hvw. pose proof (Hsame a b v w Ha Hb Hvw) as Hab.
    assert (Hself : forall n x, items_lookup n defs = Some x -> dd_alias_by_name st !! n = Some n).
    { intros n x Hn%items_lookup_Some_elem. destruct (do_alias _ _ Hst _ _ Hn) as (y & Hy & _). rewrite Hy. f_equal.
      rewrite List.forallb_forall in E. apply dict_lookup_items, list_elem_of_In, E in Hy. by apply bool_decide_eq_true in Hy. }
    rewrite (Hself a v Ha), (Hself b w Hb) in Hab. congruence.
  - exists (map_values (fun _ => rewrite_local_defs_refs (dd_alias_by_name st)) (dd_defs st)). split_and!.
    + cbn. by rewrite items_lookup_insert, bool_decide_true.
    + intros n. rewrite rewrite_obj, body_set, <-rewrite_obj, body_rewrite. by apply rewrite_meaning.
    + intros a b v w Ha Hb Hva Hwb Hvw. pose proof (Hsame a b v w Hva Hwb Hvw) as Hab.
      assert (Hself : forall n, n ∈ (map_values (fun _ => rewrite_local_defs_refs (dd_alias_by_name st)) (dd_defs st)).*1 -> dd_alias_by_name st !! n = Some n).
      { intros n Hn. apply items_lookup_elem in Hn as [x Hn]. rewrite items_lookup_map_values in Hn.
        destruct (items_lookup n (dd_defs st)) as [y|] eqn:Ey; [|done]. destruct (do_kept _ _ Hst _ _ Ey) as [Hi Hf].
        destruct (do_alias _ _ Hst _ _ Hi) as (z & -> & Hz). congruence. }
      rewrite (Hself a Ha), (Hself b Hb) in Hab. congruence.
Qed.

(** ** References that a schema needs *)

Section Needed.
Context (defs : dict string json).

(** A reference in the definition of [n]. *)
Definition refers (n m : string) : Prop := exists l, defs !! n = Some (JObj l) /\ m ∈ iter_local_defs_refs (JObj l).

(** The names that the references of a schema lead to. *)
Inductive needed (schema : json) : string -> Prop :=
  | needed_direct name : name ∈ iter_local_defs_refs schema -> needed schema name
  | needed_step n name : needed schema n -> refers n name -> needed schema name.

Record collected_ok (schema : json) (seen pending : list string) (collected : dict string json) : Prop := {
  co_needed : forall n, n ∈ seen \/ n ∈ pending -> needed schema n;
  co_direct : forall n, n ∈ iter_local_defs_refs schema -> n ∈ seen \/ n ∈ pending;
  co_step : forall n m, n ∈ seen -> refers n m -> m ∈ seen \/ m ∈ pending;
  co_collected : forall n v, collected !! n = Some v <-> n ∈ seen /\ defs !! n = Some v /\ is_obj v = true;
}.

Lemma collected_skip schema seen n pending collected :
  collected_ok schema seen (n :: pending) collected -> n ∈ seen -> collected_ok schema seen pending collected.
Proof.
  intros [Hn Hd Hs Hc] Hin. split; [|..|done].
  - intros m Hm. apply Hn. destruct Hm; [by left|]. right. by right.
  - intros m Hm. destruct (Hd m Hm) as [|[->|]%elem_of_cons]; auto.
  - intros m k Hm Hk. destruct (Hs m k Hm Hk) as [|[->|]%elem_of_cons]; auto.
Qed.

Lemma collected_see schema seen n pending collected refs collected' :
  collected_ok schema seen (n :: pending) collected -> n ∉ seen ->
  (forall m, refers n m <-> m ∈ refs) ->
  (forall k v, collected' !! k = Some v <-> collected !! k = Some v \/ k = n /\ defs !! n = Some v /\ is_obj v = true) ->
  collected_ok schema (n :: seen) (reverse refs ++ pending) collected'.
Proof.
  intros [Hn Hd Hs Hc] Hnew Hrefs Hcol. assert (Hmove : forall m, m ∈ seen \/ m ∈ n :: pending -> m ∈ n :: seen \/ m ∈ reverse refs ++ pending).
  { intros m. rewrite elem_of_app, !elem_of_cons. tauto. }
  split.
  - intros m. rewrite elem_of_cons, elem_of_app, elem_of_reverse. intros [[->|Hm]|[Hm|Hm]].
    + apply Hn. right. by left.
    + apply Hn. by left.
    + apply (needed_step _ n); [apply Hn; right; by left|by apply Hrefs].
    + apply Hn. right. by right.
  - intros m Hm. by apply Hmove, Hd.
  - intros m k [->|Hm]%elem_of_cons Hk; [|by eapply Hmove, Hs]. right. rewrite elem_of_app, elem_of_reverse. left. by apply Hrefs.
  - intros k v. rewrite Hcol, Hc, elem_of_cons. split; [|intros [[->|H1] H2]; auto].
    intros [(H1 & H2 & H3)|(-> & H2 & H3)]; auto.
Qed.

Lemma collect_defs_ok schema fuel seen pending collected :
  collected_ok schema seen pending collected ->
  (length pending + unseen_weight (fun v => length (iter_local_defs_refs v)) seen (dict_items defs) < fuel)%nat ->
  exists d seen', collect_defs fuel defs seen pending collected = Some d /\ collected_ok schema seen' [] d.
Proof.
  revert seen pending collected. induction fuel as [|fuel IH]; intros seen pending collected Hok Hf; [lia|].
  destruct pending as [|n pending]; cbn [collect_defs]; [by exists collected, seen|]. cbn [length] in Hf.
  case_bool_decide as Hn. { apply IH; [by eapply collected_skip|lia]. }
  assert (Hno : (forall l, defs !! n ≠ Some (JObj l)) -> collected_ok schema (n :: seen) pending collected).
  { intros Hobj. apply (collected_see schema seen n pending collected [] collected Hok Hn).
    - intros m. split; [intros (l & Hl & _); exfalso; by eapply Hobj|by intros Hx%elem_of_nil].
    - intros k v. split; [by left|]. intros [|(-> & Hv & Ho)]; [done|]. destruct v as [| | | | | |l]; try done. by destruct (Hobj l). }
  pose proof (unseen_weight_seen (fun v => length (iter_local_defs_refs v)) seen n (dict_items defs)) as Hw.
  destruct (defs !! n) as [[| | | | | |l]|] eqn:E; try (apply IH; [apply Hno; intros l'; congruence|lia]).
  pose proof (unseen_weight_take (fun v => length (iter_local_defs_refs v)) seen n (JObj l) (dict_items defs) (dict_lookup_items _ _ _ E) Hn) as Hw'.
  apply IH.
  - apply (collected_see schema seen n pending collected _ _ Hok Hn).
    + intros m. split; [intros (l' & Hl' & Hm); by simplify_eq|]. intros Hm. by exists l.
    + intros k v. rewrite dict_lookup_insert. case_bool_decide as Hk; [subst k|].
      * rewrite E. split; [intros [= <-]; auto|]. intros [Hc|(_ & [= <-] & _)]; [|done]. apply (co_collected _ _ _ _ Hok) in Hc as [Hc _]. done.
      * split; [auto|]. intros [|(-> & _)]; done.
  - rewrite length_app, length_reverse. lia.
Qed.
End Needed.

(** The definitions that a schema takes along are exactly those that its references lead to, through any number of
    definitions and around cycles, and the collection ends. *)
Theorem transitive_defs_exact schema defs :
  exists d, collect_transitive_defs schema defs = Some d /\
    forall name v, d !! name = Some v <-> needed defs schema name /\ defs !! name = Some v /\ is_obj v = true.
Proof.
  destruct (collect_defs_ok defs schema (collect_fuel schema defs) [] (reverse (iter_local_defs_refs schema)) ∅) as (d & seen & Hd & Hok).
  - split.
    + intros n [Hn|Hn]; [by apply elem_of_nil in Hn|]. rewrite elem_of_reverse in Hn. by apply needed_direct.
    + intros n Hn. right. by apply elem_of_reverse.
    + by intros n m Hn%elem_of_nil.
    + intros n v. split; [by rewrite lookup_empty_dict|]. intros [Hn _]. by apply elem_of_nil in Hn.
  - rewrite length_reverse, unseen_weight_all. unfold collect_fuel. lia.
  - exists d. split; [done|]. intros name v. rewrite (co_collected _ _ _ _ _ Hok). split; intros (H1 & H2 & H3); split_and!; try done.
    + apply (co_needed _ _ _ _ _ Hok). by left.
    + clear H2 H3. induction H1 as [n Hn|n m _ IH Hr].
      * destruct (co_direct _ _ _ _ _ Hok _ Hn) as [|Hx]; [done|by apply elem_of_nil in Hx].
      * destruct (co_step _ _ _ _ _ Hok _ _ IH Hr) as [|Hx]; [done|by apply elem_of_nil in Hx].
Qed.

(** ** Expansion *)

Lemma max_list_with_elem {A} (f : A -> nat) l x : x ∈ l -> (f x <= max_list_with f l)%nat.
Proof. intros Hx. induction l as [|y l IH]; [by apply elem_of_nil in Hx|]. apply elem_of_cons in Hx as [->|Hx]; cbn; [lia|specialize (IH Hx); lia]. Qed.

Lemma max_list_with_le {A} (f : A -> nat) l n : (forall x, x ∈ l -> (f x <= n)%nat) -> (max_list_with f l <= n)%nat.
Proof. intros H. induction l as [|y l IH]; cbn; [lia|]. pose proof (H y ltac:(by left)). specialize (IH ltac:(intros x Hx; apply H; by right)). lia. Qed.

Lemma elem_of_items_insert {A} (k : string) (x : A) p l : p ∈ items_insert k x l -> p = (k, x) \/ p ∈ l.
Proof.
  induction l as [|[k' x'] l IH]; cbn; [by intros ?%list_elem_of_singleton; left|]. case_bool_decide.
  - intros [->|Hp]%elem_of_cons; [by left|]. right. by right.
  - intros [->|Hp]%elem_of_cons; [right; by left|]. destruct (IH Hp) as [|Hq]; [by left|]. right. by right.
Qed.

Lemma elem_of_merge target reference p :
  p ∈ merge_reference target reference -> p ∈ target \/ p ∈ reference /\ p.1 ≠ "$ref".
Proof.
  unfold merge_reference. revert target. induction reference as [|q l IH]; intros target Hp; cbn [fold_left] in Hp; [by left|].
  apply IH in Hp as [Hp|[Hp Hr]]; [|right; split; [by right|done]]. case_bool_decide as Hq; [by left|].
  apply elem_of_items_insert in Hp as [->|Hp]; [|by left]. right. split; [destruct q; by left|done].
Qed.

Lemma merge_ref target reference : items_lookup "$ref" (merge_reference target reference) = items_lookup "$ref" target.
Proof.
  unfold merge_reference. revert target. induction reference as [|q l IH]; intros target; cbn [fold_left]; [done|].
  rewrite IH. case_bool_decide as Hq; [done|]. by rewrite items_lookup_insert, bool_decide_false.
Qed.

(** A reference stands alone: what is beside it refers to nothing. *)
Fixpoint pure (v : json) : bool :=
  match v with
  | JArr l => forallb pure l
  | JObj l =>
      forallb (fun p => pure p.2) l &&
      match items_lookup "$ref" l ≫= local_ref with
      | Some _ => forallb (fun p => bool_decide (iter_local_defs_refs p.2 = [])) l
      | None => true
      end
  | _ => true
  end%bool.

Section Expand.
Context (defs : dict string json) (Hdefs : forall n v, defs !! n = Some v -> pure v = true).

Abbreviation weight_left stack := (unseen_weight (fun v => S (depth v)) stack (dict_items defs)).

Lemma mapM_total {A B} (f : A -> option B) l : (forall x, x ∈ l -> is_Some (f x)) -> exists l', mapM f l = Some l' /\ Forall2 (fun x y => f x = Some y) l l'.
Proof using.
  intros H. assert (Hs : is_Some (mapM f l)) by (apply mapM_is_Some, Forall_forall; auto). destruct Hs as [l' Hl']. exists l'. split; [done|by apply mapM_Some].
Qed.

(** What the references of an expanded schema may still be: names of nothing that can be put in their place, or names of
    definitions that lead back to themselves. *)
Definition leads (n m : string) : Prop := tc (refers defs) n m.
Definition left_over (n : string) : Prop := (forall l, defs !! n ≠ Some (JObj l)) \/ leads n n.

Definition stack_ok (stack : list string) (v : json) : Prop := forall n m, n ∈ stack -> m ∈ iter_local_defs_refs v -> leads n m.

Lemma refs_merge target l name : pure (JObj l) = true -> items_lookup "$ref" l ≫= local_ref = Some name ->
  forall m, m ∈ iter_local_defs_refs (JObj (merge_reference target l)) -> m ∈ iter_local_defs_refs (JObj target).
Proof using.
  intros Hp E m. cbn [pure] in Hp. rewrite E in Hp. apply andb_true_iff in Hp as [_ Hp]. rewrite List.forallb_forall in Hp.
  cbn [iter_local_defs_refs]. rewrite merge_ref, !elem_of_app. intros [Hm|Hm]; [by left|]. right.
  apply list_elem_of_In, in_flat_map in Hm as (p & Hp1%list_elem_of_In & Hm). apply elem_of_merge in Hp1 as [Hp1|[Hp1 _]].
  - apply list_elem_of_In, in_flat_map. exists p. split; [by apply list_elem_of_In|done].
  - exfalso. apply list_elem_of_In, Hp, bool_decide_eq_true in Hp1. by rewrite Hp1 in Hm.
Qed.

Lemma pure_merge target l : pure (JObj target) = true -> pure (JObj l) = true -> is_Some (items_lookup "$ref" l ≫= local_ref) ->
  pure (JObj (merge_reference target l)) = true.
Proof using.
  intros Ht Hl [name E]. cbn [pure] in *. rewrite E in Hl. rewrite merge_ref. apply andb_true_iff in Ht as [Ht1 Ht2], Hl as [Hl1 Hl2].
  rewrite List.forallb_forall in Ht1, Hl1, Hl2. apply andb_true_iff. split.
  - apply List.forallb_forall. intros p Hp%list_elem_of_In%elem_of_merge. destruct Hp as [Hp|[Hp _]]; [apply Ht1|apply Hl1]; by apply list_elem_of_In.
  - destruct (items_lookup "$ref" target ≫= local_ref); [|done]. rewrite List.forallb_forall in Ht2.
    apply List.forallb_forall. intros p Hp%list_elem_of_In%elem_of_merge. destruct Hp as [Hp|[Hp _]]; [apply Ht2|apply Hl2]; by apply list_elem_of_In.
Qed.

Lemma depth_merge target l : (depth (JObj (merge_reference target l)) <= Nat.max (depth (JObj target)) (depth (JObj l)))%nat.
Proof using.
  cbn [depth]. rewrite <-Nat.succ_max_distr. apply le_n_S, max_list_with_le. intros p Hp. apply elem_of_merge in Hp as [Hp|[Hp _]];
    pose proof (max_list_with_elem (fun p => depth p.2) _ _ Hp); cbn in *; lia.
Qed.

(** What an expansion gives. *)
Definition expanded (v w : json) : Prop :=
  (forall m, m ∈ iter_local_defs_refs w -> left_over m) /\ match v with JStr s => w = JStr s | _ => forall s, w ≠ JStr s end.

Lemma expanded_ref v w name : expanded v w -> local_ref w = Some name -> local_ref v = Some name.
Proof using. intros [_ H] E. destruct v; try (by subst w); destruct w; try done; by destruct (H s). Qed.

Lemma refs_below_arr x l : x ∈ l -> forall m, m ∈ iter_local_defs_refs x -> m ∈ iter_local_defs_refs (JArr l).
Proof using. intros Hx m Hm. cbn [iter_local_defs_refs]. apply list_elem_of_In, in_flat_map. exists x. by split; apply list_elem_of_In. Qed.

Lemma refs_below_obj p l : p ∈ l -> forall m, m ∈ iter_local_defs_refs p.2 -> m ∈ iter_local_defs_refs (JObj l).
Proof using.
  intros Hx m Hm. cbn [iter_local_defs_refs]. apply elem_of_app. right. apply list_elem_of_In, in_flat_map. exists p. by split; apply list_elem_of_In.
Qed.

(** The members of an object whose own reference, if any, stays. *)
Lemma expanded_members l l' :
  Forall2 (fun p p' => p.1 = p'.1 /\ expanded p.2 p'.2) l l' ->
  (forall name, items_lookup "$ref" l ≫= local_ref = Some name -> left_over name) -> expanded (JObj l) (JObj l').
Proof using.
  intros Hl Href. split; [|done]. cbn [iter_local_defs_refs]. intros m [Hm|Hm]%elem_of_app.
  - destruct (items_lookup "$ref" l' ≫= local_ref) as [name|] eqn:E; [|by apply elem_of_nil in Hm]. apply list_elem_of_singleton in Hm as ->.
    apply Href. destruct (items_lookup "$ref" l') as [x'|] eqn:Ex'; [|done]. cbn in E. clear Href.
    induction Hl as [|[k x] [k' y'] l l' [Hk Hx] _ IH]; [done|]. cbn in *. subst k'. case_bool_decide; [|by apply IH].
    injection Ex' as ->. cbn. by eapply expanded_ref.
  - apply list_elem_of_In, in_flat_map in Hm as (p' & Hp'%list_elem_of_In & Hm). clear Href.
    induction Hl as [|p q' l l' [_ [Hx _]] _ IH]; [by apply elem_of_nil in Hp'|]. apply elem_of_cons in Hp' as [->|Hp']; [|by apply IH].
    by apply Hx, list_elem_of_In.
Qed.

Lemma expanded_items l l' : Forall2 expanded l l' -> expanded (JArr l) (JArr l').
Proof using.
  intros Hl. split; [|done]. cbn [iter_local_defs_refs]. intros m Hm. apply list_elem_of_In, in_flat_map in Hm as (x' & Hx'%list_elem_of_In & Hm).
  induction Hl as [|x y' l l' [Hx _] _ IH]; [by apply elem_of_nil in Hx'|]. apply elem_of_cons in Hx' as [->|Hx']; [|by apply IH].
  by apply Hx, list_elem_of_In.
Qed.

Lemma expansion_spec fuel stack v :
  (depth v + weight_left stack < fuel)%nat -> pure v = true -> stack_ok stack v ->
  exists w, expand_schema_refs fuel defs stack v = Some w /\ expanded v w.
Proof using Hdefs.
  revert stack v. induction fuel as [|fuel IH]; intros stack v Hf Hp Hst; [lia|].
  assert (Hchildren : forall l, v = JObj l -> (forall name, items_lookup "$ref" l ≫= local_ref = Some name -> left_over name) ->
    exists w, JObj <$> mapM (fun p => x ← expand_schema_refs fuel defs stack p.2; Some (p.1, x)) l = Some w /\ expanded v w).
  { intros l -> Href. cbn [pure] in Hp. apply andb_true_iff in Hp as [Hp _]. rewrite List.forallb_forall in Hp.
    assert (Hall : forall p, p ∈ l -> exists w, expand_schema_refs fuel defs stack p.2 = Some w /\ expanded p.2 w).
    { intros p Hpl. apply IH; [|by apply Hp, list_elem_of_In|].
      - pose proof (max_list_with_elem (fun p => depth p.2) _ _ Hpl). cbn [depth] in Hf. cbn in *. lia.
      - intros n m Hn Hm. apply Hst; [done|]. by eapply refs_below_obj. }
    destruct (mapM_total (fun p => x ← expand_schema_refs fuel defs stack p.2; Some (p.1, x)) l) as (l' & -> & Hl').
    { intros p (w & -> & _)%Hall. by eexists. }
    eexists. split; [done|]. apply expanded_members; [|done]. clear Href Hf Hp Hst.
    induction Hl' as [|p p' l l' Hpp _ IHl]; [constructor|]. constructor; [|apply IHl; intros q Hq; apply Hall; by right].
    destruct (Hall p) as (w & Hw & Hx); [by left|]. rewrite Hw in Hpp. cbn in Hpp. by injection Hpp as <-. }
  destruct v as [| | | | |l|l]; cbn [expand_schema_refs]; try (by eexists; split; [done|]; split; [by intros m Hm%elem_of_nil|]).
  - assert (Hall : forall x, x ∈ l -> exists w, expand_schema_refs fuel defs stack x = Some w /\ expanded x w).
    { cbn [pure] in Hp. rewrite List.forallb_forall in Hp. intros x Hx. apply IH; [|by apply Hp, list_elem_of_In|].
      - pose proof (max_list_with_elem depth _ _ Hx). cbn [depth] in Hf. lia.
      - intros n m Hn Hm. apply Hst; [done|]. by eapply refs_below_arr. }
    destruct (mapM_total (expand_schema_refs fuel defs stack) l) as (l' & -> & Hl').
    { intros x (w & -> & _)%Hall. done. }
    eexists. split; [done|]. apply expanded_items. clear Hf Hp Hst Hchildren.
    induction Hl' as [|x x' l l' Hxx _ IHl]; [constructor|]. constructor; [|apply IHl; intros y Hy; apply Hall; by right].
    destruct (Hall x) as (w & Hw & Hx); [by left|]. congruence.
  - destruct (items_lookup "$ref" l ≫= local_ref) as [name|] eqn:E; [|by apply Hchildren; [done|]; congruence].
    assert (Hname : name ∈ iter_local_defs_refs (JObj l)) by (cbn [iter_local_defs_refs]; rewrite E; by left).
    case_bool_decide as Hin.
    + exists (JObj l). split; [done|]. split; [|done]. intros m Hm. cbn [iter_local_defs_refs] in Hm. rewrite E in Hm.
      apply elem_of_cons in Hm as [->|Hm]; [right; by apply Hst|]. exfalso. cbn [pure] in Hp. rewrite E in Hp.
      apply andb_true_iff in Hp as [_ Hp]. rewrite List.forallb_forall in Hp. apply list_elem_of_In, in_flat_map in Hm as (p & Hpl & Hm).
      apply Hp, bool_decide_eq_true in Hpl. by rewrite Hpl in Hm.
    + assert (Hno : (forall t, defs !! name ≠ Some (JObj t)) -> forall n, Some name = Some n -> left_over n) by (intros H n [= <-]; by left).
      destruct (defs !! name) as [[| | | | | |target]|] eqn:Ed; try (apply Hchildren; [done|]; rewrite E; apply Hno; congruence).
      destruct (IH (stack ++ [name]) (JObj (merge_reference target l))) as (w & Hw & Hx1 & Hx2).
      * pose proof (depth_merge target l). pose proof (unseen_weight_take (fun v => S (depth v)) stack name _ _ (dict_lookup_items _ _ _ Ed) Hin) as Hw.
        assert (weight_left (stack ++ [name]) = weight_left (name :: stack)) as ->.
        { apply unseen_weight_ext. intros n. rewrite elem_of_app, list_elem_of_singleton, elem_of_cons. tauto. }
        cbv beta in Hw. lia.
      * apply pure_merge; [by apply (Hdefs name)|done|by exists name].
      * intros n m Hn Hm%(refs_merge target l name); [|done|done]. assert (Hr : refers defs name m) by (by exists target).
        apply elem_of_app in Hn as [Hn|Hn]; [|apply list_elem_of_singleton in Hn as ->; by apply tc_once]. eapply tc_r; [|exact Hr]. by apply Hst.
      * exists w. split; [done|]. by split.
Qed.
End Expand.

(** Expanding the references of a schema ends, whatever cycles its definitions have; afterwards the only references
    are to names without a definition and to definitions that lead back to themselves. *)
Theorem expansion_resolves schema defs :
  (forall n v, defs !! n = Some v -> pure v = true) -> pure schema = true ->
  exists w, expand_schema_refs (expand_fuel schema defs) defs [] schema = Some w /\
    forall name, name ∈ iter_local_defs_refs w -> (forall l, defs !! name ≠ Some (JObj l)) \/ tc (refers defs) name name.
Proof.
  intros Hdefs Hp. destruct (expansion_spec defs Hdefs (expand_fuel schema defs) [] schema) as (w & Hw & Hx & _); [|done| |by exists w].
  - rewrite unseen_weight_all. unfold expand_fuel. lia.
  - by intros n m Hn%elem_of_nil.
Qed.

(** ** Names of definitions *)

Lemma forallb_drop_while {A} (p q : A -> bool) l : forallb p l = true -> forallb p (drop_while q l) = true.
Proof. induction l as [|x l IH]; [done|]. cbn. intros [Hx Hl]%andb_true_iff. destruct (q x); [by apply IH|]. cbn. by rewrite Hx, Hl. Qed.

Lemma forallb_reverse {A} (p : A -> bool) l : forallb p (reverse l) = forallb p l.
Proof. induction l as [|x l IH]; [done|]. rewrite reverse_cons, List.forallb_app, IH. cbn. destruct (p x), (forallb p l); done. Qed.

Lemma forallb_squeeze p l : forallb p l = true -> forallb p (squeeze l) = true.
Proof. induction l as [|c l IH]; [done|]. cbn. intros [Hc Hl]%andb_true_iff. destruct (_ && _)%bool; [by apply IH|]. cbn. by rewrite Hc, IH. Qed.

(** What can stand in a reference as it is. *)
Definition plain_name (name : string) : Prop := forallb safe_char (chars name) = true /\ match chars name with c :: _ => is_digit c = false | [] => False end.

Lemma safe_definition_name_plain raw : plain_name (safe_definition_name raw).
Proof.
  unfold safe_definition_name. set (cleaned := strip_chars _ _).
  assert (Hs : forallb safe_char (chars cleaned) = true).
  { unfold cleaned, strip_chars. rewrite !chars_of_chars. unfold rdrop_while. rewrite forallb_reverse. apply forallb_drop_while. rewrite forallb_reverse.
    apply forallb_drop_while, forallb_squeeze, List.forallb_forall. intros c Hc%list_elem_of_In%elem_of_map. destruct Hc as (d & -> & _).
    by destruct (safe_char d) eqn:E. }
  destruct (chars cleaned) as [|c l] eqn:E; [done|]. destruct (is_digit c) eqn:Ed; [|split; by rewrite E].
  split; [|done]. by rewrite chars_app, E, List.forallb_app, Hs.
Qed.

Lemma candidate_plain base index : 1 <= index -> plain_name base -> plain_name (candidate base index).
Proof.
  intros Hi [Hb Hh]. unfold candidate, numbered. destruct (index <=? 1); [done|]. split.
  - rewrite !chars_app, !List.forallb_app, Hb. cbn [chars]. unfold str_of_int. rewrite chars_of_chars.
    destruct (digits_value_to_digits index) as (_ & Hd & _); [lia|]. cbn [andb]. change (forallb safe_char ["_"%char]) with true. cbn [andb].
    rewrite List.forallb_forall in Hd |- *. intros c Hc. unfold safe_char, is_alnum. by rewrite Hd.
  - rewrite chars_app. by destruct (chars base).
Qed.

Lemma numbered_inj stem separator i j : 1 <= i -> 1 <= j -> numbered stem separator i = numbered stem separator j -> i = j.
Proof.
  intros Hi Hj. assert (Hlen : forall k, 1 < k -> (length (chars stem) < length (chars (numbered stem separator k)))%nat).
  { intros k Hk. unfold numbered. destruct (Z.leb_spec k 1); [lia|]. rewrite !chars_app, !length_app. unfold str_of_int. rewrite chars_of_chars.
    destruct (digits_value_to_digits k) as (_ & _ & Hd); [lia|]. destruct (to_digits 10 k); [done|cbn; lia]. }
  intros E. destruct (Z.leb_spec i 1) as [Hi1|Hi1], (Z.leb_spec j 1) as [Hj1|Hj1]; [lia|..].
  - specialize (Hlen j Hj1). rewrite <-E in Hlen. unfold numbered in Hlen. rewrite (proj2 (Z.leb_le _ _) Hi1) in Hlen. lia.
  - specialize (Hlen i Hi1). rewrite E in Hlen. unfold numbered in Hlen. rewrite (proj2 (Z.leb_le _ _) Hj1) in Hlen. lia.
  - unfold numbered in E. rewrite !(proj2 (Z.leb_gt _ _)) in E by done. apply (f_equal chars) in E. rewrite !chars_app in E. do 2 apply app_inv_head in E.
    unfold str_of_int in E. rewrite !chars_of_chars in E.
    destruct (digits_value_to_digits i) as [Ei _]; [lia|]. destruct (digits_value_to_digits j) as [Ej _]; [lia|]. congruence.
Qed.

Section Free.
Context (name : Z -> string) (Hname : forall i j, 1 <= i -> 1 <= j -> name i = name j -> i = j).

Lemma first_free_spec fuel index used : 1 <= index ->
  match first_free name fuel index used with
  | Some s => exists i, index <= i /\ s = name i /\ s ∉ used
  | None => forall k, (k < fuel)%nat -> name (index + Z.of_nat k) ∈ used
  end.
Proof using.
  revert index. induction fuel as [|fuel IH]; intros index Hi; cbn [first_free]; [intros; lia|].
  case_bool_decide as Hin; [|by exists index]. specialize (IH (index + 1) ltac:(lia)).
  destruct (first_free name fuel (index + 1) used) as [s|].
  - destruct IH as (i & Hle & -> & Hn). exists i. split; [lia|done].
  - intros [|k] Hk; [by rewrite Z.add_0_r|]. replace (index + Z.of_nat (S k)) with (index + 1 + Z.of_nat k) by lia. apply IH. lia.
Qed.

Lemma first_free_total used : exists i, 1 <= i /\ first_free name (S (length used)) 1 used = Some (name i) /\ name i ∉ used.
Proof using Hname.
  pose proof (first_free_spec (S (length used)) 1 used ltac:(lia)) as H. destruct (first_free _ _ _ _) as [s|].
  { destruct H as (i & Hi & -> & Hn). by exists i. }
  exfalso. set (l := map (fun k => name (1 + Z.of_nat k)) (seq 0 (S (length used)))).
  assert (Hnd : NoDup l).
  { apply NoDup_fmap_2_strong; [|apply NoDup_seq]. intros a b _ _ E. apply Hname in E; lia. }
  assert (Hsub : l ⊆+ used).
  { apply NoDup_submseteq; [done|]. intros x Hx. apply elem_of_map in Hx as (k & -> & Hk). apply H. apply elem_of_seq in Hk. lia. }
  apply submseteq_length in Hsub. unfold l in Hsub. rewrite List.length_map, length_seq in Hsub. lia.
Qed.
End Free.

(** The registry always finds a name for a definition: a key keeps the name it has, and a new key gets one that no
    other definition has and that can stand in a reference without escapes. *)
Theorem allocate_fresh key preferred r :
  exists r' name, allocate key preferred r = Some (r', name) /\ ref_for key r' = Some (JObj [("$ref", JStr (local_prefix +:+ name))]) /\
    match sr_definition_by_key r !! key with
    | Some old => r' = r /\ name = old
    | None => name ∉ sr_used_definition_names r /\ plain_name name /\ (forall k, k ≠ key -> sr_definition_by_key r' !! k = sr_definition_by_key r !! k)
    end.
Proof.
  unfold allocate. destruct (sr_definition_by_key r !! key) as [old|] eqn:E.
  - exists r, old. split; [done|]. split; [|done]. unfold ref_for, definition_name_for. by rewrite E.
  - destruct (first_free_total (candidate (safe_definition_name preferred)) (fun i j => numbered_inj _ _ i j) (sr_used_definition_names r)) as (i & Hi & -> & Hn).
    eexists _, _. split; [done|]. split; [|split_and!; [done|by apply candidate_plain, safe_definition_name_plain|]].
    + unfold ref_for, definition_name_for. cbn [reserve sr_definition_by_key]. by rewrite dict_lookup_insert_eq.
    + intros k Hk. cbn [reserve sr_definition_by_key]. by rewrite dict_lookup_insert_ne.
Qed.

(** ** A schema *)

Definition object_of (members : list (string * json)) : json := JObj [("type", JStr "object"); ("properties", JObj members)].
Definition reference (name : string) : json := JObj [("$ref", JStr (local_prefix +:+ name))].

(** Two equal definitions, and one that refers to itself. *)
Definition sample_defs : list (string * json) :=
  [("Point", object_of [("x", JStr "number"); ("y", JFloat "1.5")]); ("Point_2", JObj [("properties", JObj [("y", JFloat "1.5"); ("x", JStr "number")]); ("type", JStr "object")]);
   ("Tree", object_of [("at", reference "Point_2"); ("children", JArr [reference "Tree"; reference "Gone"])])].

Definition sample_schema : json := JObj [("allOf", JArr [reference "Point_2"; reference "Tree"]); ("$defs", JObj sample_defs)].

Example sample_dedupe : dedupe_defs_and_rewrite_local_refs sample_schema =
  JObj [("allOf", JArr [reference "Point"; reference "Tree"]);
        ("$defs", JObj [("Point", object_of [("x", JStr "number"); ("y", JFloat "1.5")]);
                        ("Tree", object_of [("at", reference "Point"); ("children", JArr [reference "Tree"; reference "Gone"])])])].
Proof. vm_compute. reflexivity. Qed.

Example sample_expand : expand_schema_refs (expand_fuel (reference "Tree") (Dict sample_defs)) (Dict sample_defs) [] (reference "Tree") =
  Some (object_of [("at", JObj [("properties", JObj [("y", JFloat "1.5"); ("x", JStr "number")]); ("type", JStr "object")]);
                   ("children", JArr [reference "Tree"; reference "Gone"])]).
Proof. vm_compute. reflexivity. Qed.

Lemma fragments_same_witness : forallb json_ok [sample_schema; sample_schema] = true /\
  deduplicate_schema_fragments [sample_schema; sample_schema] = [sample_schema; sample_schema].
Proof.
  assert (H0 : forallb json_ok [sample_schema; sample_schema] = true) by (vm_compute; reflexivity). split; [exact H0|].
  pose proof (fragments_same [sample_schema; sample_schema] H0) as H. exact H.
Defined.

Lemma dedupe_meaning_witness :
  (obj_get "$defs" sample_schema = Some (JObj sample_defs) /\ NoDup (sample_defs.*1) /\ json_ok sample_schema = true) /\
  exists defs', obj_get "$defs" (dedupe_defs_and_rewrite_local_refs sample_schema) = Some (JObj defs') /\
    (forall n, unfold_refs n defs' (body (dedupe_defs_and_rewrite_local_refs sample_schema)) ≡ unfold_refs n sample_defs (body sample_schema)) /\
    (forall a b v w, a ∈ defs'.*1 -> b ∈ defs'.*1 -> items_lookup a sample_defs = Some v -> items_lookup b sample_defs = Some w -> v ≡ w -> a = b).
Proof.
  assert (H1 : obj_get "$defs" sample_schema = Some (JObj sample_defs)) by reflexivity.
  assert (H2 : NoDup (sample_defs.*1)) by (apply (bool_decide_unpack _); vm_compute; exact I).
  assert (H3 : json_ok sample_schema = true) by (vm_compute; reflexivity).
  split; [done|]. pose proof (dedupe_meaning sample_schema sample_defs H1 H2 H3) as H. exact H.
Defined.

Lemma expansion_resolves_witness :
  ((forall n v, (Dict sample_defs) !! n = Some v -> pure v = true) /\ pure sample_schema = true) /\
  exists w, expand_schema_refs (expand_fuel sample_schema (Dict sample_defs)) (Dict sample_defs) [] sample_schema = Some w /\
    forall name, name ∈ iter_local_defs_refs w ->
      (forall l, (Dict sample_defs) !! name ≠ Some (JObj l)) \/ tc (refers (Dict sample_defs)) name name.
Proof.
  assert (H1 : forall n v, (Dict sample_defs) !! n = Some v -> pure v = true).
  { intros n v Hv%dict_lookup_items. assert (Hall : forallb (fun p => pure p.2) sample_defs = true) by (vm_compute; reflexivity).
    rewrite List.forallb_forall in Hall. apply (Hall (n, v)). by apply list_elem_of_In. }
  assert (H2 : pure sample_schema = true) by (vm_compute; reflexivity).
  split; [done|]. pose proof (expansion_resolves sample_schema (Dict sample_defs) H1 H2) as H. exact H.
Defined.

End SchemasSpec.
