(* ===== verification/OpcuaReads.v ===== *)
(** Reads of the OPC UA client ([infrastructure/opcua/client.py]): batches within the server's limits, fallbacks when a
    batch fails, retries after a lost connection, and the pages of histories and references.

    A method is a program of [Async.v] whose awaits are the requests to the server and to the supervisor of the
    connection (the third-party library asyncua). A node is its id; [asyncio.gather] runs its parts one after another
    and raises the first exception. Logging and durations are left out. *)

From S2P Require Export PyDict PyStr Async.

Module OpcuaReads.
Local Open Scope async_scope.

(** ** Exceptions *)

(** The classes of exceptions that the code distinguishes; a status code has its symbolic name. [NotFinished] is not an
    exception: it says that a loop has not ended within its fuel. *)
Inductive ErrorClass :=
  | UaStatusCodeError (status : string)
  | TimeoutError
  | ConnectionError
  | ValueError
  | OpcUaWriteMetadataUnsupportedError
  | OpcUaWriteMetadataVerificationError
  | OtherError
  | NotFinished.

Record error := Error { er_class : ErrorClass; er_text : string }.

Definition CONNECTION_LOST_STATUS_CODES : list string :=
  ["BadSessionClosed"; "BadSessionIdInvalid"; "BadSessionNotActivated"; "BadSecureChannelClosed"; "BadSecureChannelIdInvalid";
   "BadConnectionClosed"; "BadNotConnected"; "BadServerNotConnected"; "BadCommunicationError"].

Definition CONNECTION_LOST_MARKERS : list string :=
  ["connection is closed"; "connection is not open"; "connection reset"; "broken pipe"; "transport closed";
   "client is disconnected"; "client is disconnecting"; "badsessionclosed"; "badsessionidinvalid"; "badsecurechannelclosed"].

Definition should_retry_after_disconnect (e : error) : bool :=
  match er_class e with
  | UaStatusCodeError status => bool_decide (status ∈ CONNECTION_LOST_STATUS_CODES)
  | TimeoutError => false
  | c =>
      let text := lower (er_text e) in
      if str_in "waiting for client to reconnect" text then false
      else match c with
           | ConnectionError => true
           | _ => existsb (fun marker => str_in marker text) CONNECTION_LOST_MARKERS
           end
  end.

Definition is_transport_read_failure (e : error) : bool :=
  (match er_class e with TimeoutError | ConnectionError => true | _ => false end
   || should_retry_after_disconnect e
   || match er_class e with
      | UaStatusCodeError status => bool_decide (status ∈ ["BadTimeout"; "BadRequestTimeout"; "BadServerTooBusy"])
      | _ => false
      end)%bool.

Definition is_too_many_operations_error (e : error) : bool :=
  let text := lower (er_text e) in (str_in "badtoomanyoperations" text || str_in "too many operations" text)%bool.

Definition is_history_missing_or_unsupported (e : error) : bool :=
  let lowered := lower (er_text e) in
  existsb (fun token => str_in token lowered)
    ["badhistoryoperationunsupported"; "historyoperationunsupported"; "historyread not supported"; "history read not supported";
     "badnodata"; "goodnodata"; "no data exists for the requested time range"].

Definition value_error (text : string) : error := Error ValueError text.
Definition not_finished : error := Error NotFinished ε.
Definition reconnect_timeout : error := Error ConnectionError "OPC UA client did not reconnect".
Definition length_mismatch : error := Error OtherError "results do not match the request".

(** ** Answers of the server *)

(** A status code: its value, and the severity and the name that asyncua tells of it. *)
Inductive Severity := sev_good | sev_uncertain | sev_bad.
Record StatusCode := { sc_value : Z; sc_severity : Severity; sc_name : string }.

Definition is_good (s : StatusCode) : bool := match sc_severity s with sev_good => true | _ => false end.

Definition is_goodish_status (status : option StatusCode) : bool :=
  match status with
  | None => true
  | Some s =>
      match sc_severity s with
      | sev_good | sev_uncertain => true
      | sev_bad =>
          let name := lower (strip (sc_name s)) in
          (truthy name && (str_in "uncertain" name || str_in "good" name || bool_decide (name ∈ ["good"; "uncertain"])))%bool
      end
  end.

Section Client.
Context {V : Type}.

(** Timestamps are microseconds since 1970, in UTC. *)
Record DataValue := {
  dv_status : option StatusCode; dv_value : option V;
  dv_source_timestamp : option Z; dv_server_timestamp : option Z;
}.

Definition extract_attribute_value (d : DataValue) : option V :=
  if match dv_status d with Some s => negb (is_good s) | None => false end then None else dv_value d.

(** [None] as the status is a check that passes; [None] as the data is no list of values. *)
Record HistoryReadResult := { hr_check : option error; hr_data : option (list DataValue); hr_continuation : string }.

Record ReferenceDescription := { rd_node_id : string; rd_reference_type_id : string }.
Record BrowseResult := { br_status : option StatusCode; br_references : list ReferenceDescription; br_continuation : string }.

Inductive AttributeId := att_browse_name | att_value | att_other (id : Z).

Definition ACCESS_LEVEL : AttributeId := att_other 17.
Definition USER_ACCESS_LEVEL : AttributeId := att_other 18.

Record TimeRange := { tr_start : option Z; tr_end : option Z }.

Record BrowseKind := { bk_reference_type : Z; bk_inverse : bool; bk_subtypes : bool }.

(** A value to be written: its variant with its type, if the type is given, and its quality and time. *)
Record WrittenValue := { wv_value : V; wv_variant_type : option string; wv_status : Z; wv_source_timestamp : Z }.

(** What the client asks of asyncua. [ReadBack] is the read that does not raise on a bad status; the answer to a history
    update has a status for the whole and one for each value; a node class is answered by its name. *)
Inductive request : Type -> Type :=
  | ReadValues (nodes : list string) : request (outcome error (list V))
  | ReadAttributes (nodes : list string) (attr : AttributeId) : request (outcome error (list DataValue))
  | ReadPairs (pairs : list (string * AttributeId)) : request (outcome error (list DataValue))
  | ReadDataValue (node : string) : request (outcome error DataValue)
  | ReadNode (node : string) (attrs : list AttributeId) : request (outcome error (list DataValue))
  | ReadVariantType (node : string) : request (outcome error (option string))
  | ReadBack (node : string) : request (outcome error DataValue)
  | WriteNode (node : string) (value : WrittenValue) : request (outcome error unit)
  | HistoryUpdate (node : string) (value : WrittenValue) : request (outcome error (StatusCode * list StatusCode))
  | GetChildren (node : string) : request (outcome error (list string))
  | GetNamespaceArray : request (outcome error (list string))
  | ReadNodeClass (node : string) : request (outcome error string)
  | ReadTypeDefinition (node : string) : request (outcome error string)
  | HistoryRead (range : TimeRange) (nodes : list (string * option string)) : request (outcome error (list HistoryReadResult))
  | Browse (kind : BrowseKind) (nodes : list string) : request (outcome error (list BrowseResult))
  | BrowseNext (points : list string) : request (outcome error (list BrowseResult))
  | IsConnected : request bool
  | NotifyTransportLost : request unit
  | WaitConnected : request bool.

Record OpcUaOperationalLimits := {
  max_nodes_per_browse : option nat;
  max_nodes_per_read : option nat;
  max_nodes_per_history_read_data : option nat;
}.

(** The counters by their names, the cached limits, and whether the server is known to update histories or not to. *)
Record client := { cl_metrics : dict string nat; cl_limits : option OpcUaOperationalLimits; cl_history_update_supported : option bool }.

Abbreviation method A := (prog client request (outcome error A)).

(** A request, and its answer. *)
Definition ask {R} (c : request R) : prog client request R := call c.

Definition add_count (name : string) (n : nat) (c : client) : client :=
  {| cl_metrics := <[name := (default 0%nat (cl_metrics c !! name) + n)%nat]> (cl_metrics c); cl_limits := cl_limits c;
     cl_history_update_supported := cl_history_update_supported c |}.

Definition count (name : string) (n : nat) : prog client request unit := update (add_count name n).

Definition record_read_success : prog client request unit := count "read_count" 1.
Definition record_failed_request : prog client request unit := count "failed_request_count" 1.

Definition record_read_data_values (values : list DataValue) : prog client request unit :=
  match values with
  | [] => record_failed_request
  | _ => if forallb (fun v => is_goodish_status (dv_status v)) values then record_read_success else record_failed_request
  end.

Definition record_browse_results (results : list BrowseResult) : prog client request unit :=
  match results with
  | [] => record_failed_request
  | _ => if forallb (fun r => is_goodish_status (br_status r)) results then count "browse_count" 1 else record_failed_request
  end.

(** ** Batches *)

(** [max(1, n // 2)]. *)
Definition half (n : nat) : nat := Nat.max 1 (n / 2).

(** [limit or default], a limit of 0 being no limit. *)
Definition limit_or (limit : option nat) (n : nat) : nat := match limit with Some (S l) => S l | _ => n end.

(** ** Reconnects *)

Definition wait_for_reconnect (e : error) : method unit :=
  connected <- ask IsConnected;;
  _ <- (if (connected && match er_class e with
                         | UaStatusCodeError status => bool_decide (status ∈ CONNECTION_LOST_STATUS_CODES)
                         | _ => false
                         end)%bool
        then ask NotifyTransportLost else Ret tt);;
  ready <- ask WaitConnected;;
  Ret (if ready then Ok tt else Err reconnect_timeout).

(** A request that is repeated once after the connection was lost and is back. *)
Definition retry_once {A} (e : error) (c : request (outcome error A)) : method A :=
  obind (wait_for_reconnect e) (fun _ => ask c).

(** All parts run; the first exception is raised. *)
Fixpoint gather {A B} (l : list A) (f : A -> method B) : method (list B) :=
  match l with
  | [] => Ret (Ok [])
  | x :: l' => r <- f x;; rs <- gather l' f;; Ret (y ← r; ys ← rs; Ok (y :: ys))
  end.

(** [for x in l: acc.extend(await f(x))], stopping at an exception. *)
Fixpoint extend_all {A B} (l : list A) (f : A -> method (list B)) : method (list B) :=
  match l with
  | [] => Ret (Ok [])
  | x :: l' => obind (f x) (fun y => obind (extend_all l' f) (fun ys => Ret (Ok (y ++ ys))))
  end.

(** ** Attributes *)

Definition read_attribute_batch (nodes : list string) (attr : AttributeId) : method (list DataValue) :=
  match nodes with
  | [] => Ret (Ok [])
  | _ =>
      _ <- count "read_calls" 1;; _ <- count "read_nodes" (length nodes);;
      r <- ask (ReadAttributes nodes attr);;
      match r with
      | Ok values => _ <- record_read_data_values values;; Ret (Ok values)
      | Err e =>
          if should_retry_after_disconnect e then
            obind (retry_once e (ReadAttributes nodes attr)) (fun values => _ <- record_read_data_values values;; Ret (Ok values))
          else _ <- record_failed_request;; Ret (Err e)
      end
  end.

(** [_read_attribute_batch_limited] with its batch size; every recursion at least halves it. *)
Fixpoint read_attribute_batches (fuel : nat) (nodes : list string) (attr : AttributeId) (batch_size : nat) : method (list DataValue) :=
  match fuel with
  | O => Ret (Err not_finished)
  | S fuel' =>
      extend_all (chunked (Nat.max 1 batch_size) nodes) (fun batch =>
        catch (read_attribute_batch batch attr) (fun e =>
          if (negb (is_too_many_operations_error e) || Nat.leb (length batch) 1)%bool then Ret (Err e)
          else read_attribute_batches fuel' batch attr (half (length batch))))
  end.

(** The fuel: a batch that is split has more than one element. *)
Definition read_attribute_batch_sized (nodes : list string) (attr : AttributeId) (batch_size : nat) : method (list DataValue) :=
  match nodes with [] => Ret (Ok []) | _ => read_attribute_batches (S (length nodes)) nodes attr batch_size end.

(** The recursion of [_read_attribute_pairs_batch]; the fuel is the length of the batch. *)
Fixpoint read_pairs (fuel : nat) (pairs : list (string * AttributeId)) : method (list DataValue) :=
  let finish (values : list DataValue) : method (list DataValue) :=
    if negb (Nat.eqb (length values) (length pairs)) then _ <- record_failed_request;; Ret (Err length_mismatch)
    else _ <- record_read_data_values values;; Ret (Ok values) in
  _ <- count "read_calls" 1;; _ <- count "read_nodes" (length pairs);;
  r <- ask (ReadPairs pairs);;
  match r with
  | Ok values => finish values
  | Err e =>
      if should_retry_after_disconnect e then obind (retry_once e (ReadPairs pairs)) finish
      else if (is_too_many_operations_error e && Nat.ltb 1 (length pairs))%bool then
        match fuel with
        | O => Ret (Err not_finished)
        | S fuel' =>
            obind (read_pairs fuel' (take (half (length pairs)) pairs)) (fun left =>
              obind (read_pairs fuel' (drop (half (length pairs)) pairs)) (fun right => Ret (Ok (left ++ right))))
        end
      else _ <- record_failed_request;; Ret (Err e)
  end.

Definition read_attribute_pairs_batch (pairs : list (string * AttributeId)) : method (list DataValue) :=
  read_pairs (length pairs) pairs.

Definition read_attribute_pairs_sized (pairs : list (string * AttributeId)) (batch_size : nat) : method (list DataValue) :=
  match pairs with
  | [] => Ret (Ok [])
  | _ => obind (gather (chunked (Nat.max 1 batch_size) pairs) read_attribute_pairs_batch) (fun batches => Ret (Ok (List.concat batches)))
  end.

(** ** Limits *)

(** What a value is to Python: a qualified name with its text, or an integer. *)
Context (browse_name_of : V -> option string) (int_of : V -> option Z).

Definition no_limits : OpcUaOperationalLimits :=
  {| max_nodes_per_browse := None; max_nodes_per_read := None; max_nodes_per_history_read_data := None |}.

Definition set_limit (limits : OpcUaOperationalLimits) (entry : string * DataValue) : OpcUaOperationalLimits :=
  match extract_attribute_value entry.2 ≫= int_of with
  | Some z =>
      if z <=? 0 then limits
      else if bool_decide (entry.1 = "MaxNodesPerBrowse") then
        {| max_nodes_per_browse := Some (Z.to_nat z); max_nodes_per_read := max_nodes_per_read limits;
           max_nodes_per_history_read_data := max_nodes_per_history_read_data limits |}
      else if bool_decide (entry.1 = "MaxNodesPerRead") then
        {| max_nodes_per_browse := max_nodes_per_browse limits; max_nodes_per_read := Some (Z.to_nat z);
           max_nodes_per_history_read_data := max_nodes_per_history_read_data limits |}
      else if bool_decide (entry.1 = "MaxNodesPerHistoryReadData") then
        {| max_nodes_per_browse := max_nodes_per_browse limits; max_nodes_per_read := max_nodes_per_read limits;
           max_nodes_per_history_read_data := Some (Z.to_nat z) |}
      else limits
  | None => limits
  end.

Definition supported_limits : list string := ["MaxNodesPerBrowse"; "MaxNodesPerRead"; "MaxNodesPerHistoryReadData"].

(** [zip(..., strict=True)]. *)
Definition zip_strict {A B} (l : list A) (l' : list B) : outcome error (list (A * B)) :=
  if Nat.eqb (length l) (length l') then Ok (zip l l') else Err length_mismatch.

Definition load_operational_limits : method OpcUaOperationalLimits :=
  limits <- catch
    (obind (ask (GetChildren "i=11704")) (fun children =>
     obind (read_attribute_batch_sized children att_browse_name (Nat.max 1 (length children))) (fun names =>
     obind (Ret (zip_strict children names)) (fun named =>
       let limit_nodes := omap (fun '(child, value) =>
         match extract_attribute_value value ≫= browse_name_of with
         | Some name => if bool_decide (name ∈ supported_limits) then Some (child, name) else None
         | None => None
         end) named in
       obind (read_attribute_pairs_sized (map (fun n => (n.1, att_value)) limit_nodes) (Nat.max 1 (length limit_nodes))) (fun values =>
       obind (Ret (zip_strict (map snd limit_nodes) values)) (fun entries => Ret (Ok (fold_left set_limit entries no_limits))))))))
    (fun _ => Ret (Ok no_limits));;
  match limits with
  | Ok l => _ <- update (fun c => {| cl_metrics := cl_metrics c; cl_limits := Some l; cl_history_update_supported := cl_history_update_supported c |});; Ret (Ok l)
  | Err e => Ret (Err e)
  end.

Definition get_operational_limits : method OpcUaOperationalLimits :=
  cached <- sect (fun c => (c, cl_limits c));;
  match cached with Some l => Ret (Ok l) | None => load_operational_limits end.

(** [max(1, min(limits.max_nodes_per_read or n, n))]. *)
Definition read_batch_size (limits : OpcUaOperationalLimits) (n : nat) : nat :=
  Nat.max 1 (Nat.min (limit_or (max_nodes_per_read limits) n) n).

Definition read_attribute_batch_limited (nodes : list string) (attr : AttributeId) : method (list DataValue) :=
  match nodes with
  | [] => Ret (Ok [])
  | _ => obind get_operational_limits (fun limits => read_attribute_batch_sized nodes attr (read_batch_size limits (length nodes)))
  end.

Definition read_attribute_pairs (pairs : list (string * AttributeId)) : method (list DataValue) :=
  match pairs with
  | [] => Ret (Ok [])
  | _ => obind get_operational_limits (fun limits => read_attribute_pairs_sized pairs (limit_or (max_nodes_per_read limits) (length pairs)))
  end.

(** ** Values *)

(** The recursion of [_read_values_batch_with_fallback]; the fuel is the length of the batch. *)
Fixpoint read_values_batch (fuel : nat) (nodes : list string) : method (list (option V)) :=
  match fuel, nodes with
  | S fuel', _ :: _ =>
      _ <- count "read_calls" 1;; _ <- count "read_nodes" (length nodes);;
      let split : method (list (option V)) :=
        if Nat.leb (length nodes) 1 then _ <- record_failed_request;; Ret (Ok [None])
        else obind (read_values_batch fuel' (take (half (length nodes)) nodes)) (fun left =>
               obind (read_values_batch fuel' (drop (half (length nodes)) nodes)) (fun right => Ret (Ok (left ++ right)))) in
      r <- ask (ReadValues nodes);;
      match r with
      | Ok values => _ <- record_read_success;; Ret (Ok (map Some values))
      | Err e =>
          if should_retry_after_disconnect e then
            obind (wait_for_reconnect e) (fun _ =>
              r <- ask (ReadValues nodes);;
              match r with
              | Ok values => _ <- record_read_success;; Ret (Ok (map Some values))
              | Err _ => split
              end)
          else split
      end
  | _, _ => Ret (Ok [])
  end.

Definition read_values_batch_with_fallback (nodes : list string) : method (list (option V)) := read_values_batch (length nodes) nodes.

Definition read_values (nodes : list string) : method (list (option V)) :=
  match nodes with
  | [] => Ret (Ok [])
  | _ => obind get_operational_limits (fun limits =>
           extend_all (chunked (read_batch_size limits (length nodes)) nodes) read_values_batch_with_fallback)
  end.

(** The value of a node that cannot be read. *)
Definition bad_value : DataValue := {| dv_status := Some {| sc_value := 2147549184; sc_severity := sev_bad; sc_name := "BadUnexpectedError" |}; dv_value := None;
  dv_source_timestamp := None; dv_server_timestamp := None |}.

Definition read_one (node : string) : method DataValue :=
  let ok (value : DataValue) : method DataValue := _ <- record_read_data_values [value];; Ret (Ok value) in
  catch (obind (ask (ReadDataValue node)) ok) (fun e =>
    if should_retry_after_disconnect e then
      obind (wait_for_reconnect e) (fun _ =>
        catch (obind (ask (ReadDataValue node)) ok) (fun e' => if is_transport_read_failure e' then Ret (Err e') else ok bad_value))
    else if is_transport_read_failure e then Ret (Err e)
    else ok bad_value).

Definition read_data_values_per_node (nodes : list string) : method (list DataValue) :=
  obind get_operational_limits (fun limits =>
  obind (extend_all (chunked (read_batch_size limits (length nodes)) nodes) (fun chunk => gather chunk read_one)) (fun results =>
    _ <- count "read_calls" 1;; _ <- count "read_nodes" (length nodes);; Ret (Ok results))).

Definition read_data_values (nodes : list string) : method (list DataValue) :=
  match nodes with
  | [] => Ret (Ok [])
  | _ =>
      catch
        (obind (read_attribute_batch_limited nodes att_value) (fun values =>
           if negb (Nat.eqb (length values) (length nodes)) then Ret (Err length_mismatch) else Ret (Ok values)))
        (fun e => if is_transport_read_failure e then Ret (Err e) else read_data_values_per_node nodes)
  end.

(** ** Histories *)

(** The recursion of [_read_history_batch]; the fuel is the length of the batch. *)
Fixpoint read_history (fuel : nat) (range : TimeRange) (items : list (string * option string)) : method (list HistoryReadResult) :=
  let finish (results : list HistoryReadResult) : method (list HistoryReadResult) :=
    if negb (Nat.eqb (length results) (length items)) then Ret (Err length_mismatch) else Ret (Ok results) in
  _ <- count "history_read_calls" 1;;
  r <- ask (HistoryRead range items);;
  match r with
  | Ok results => finish results
  | Err e =>
      if should_retry_after_disconnect e then obind (retry_once e (HistoryRead range items)) finish
      else if (is_too_many_operations_error e && Nat.ltb 1 (length items))%bool then
        match fuel with
        | O => Ret (Err not_finished)
        | S fuel' =>
            obind (read_history fuel' range (take (half (length items)) items)) (fun left =>
              obind (read_history fuel' range (drop (half (length items)) items)) (fun right => Ret (Ok (left ++ right))))
        end
      else Ret (Err e)
  end.

Definition read_history_batch (range : TimeRange) (items : list (string * option string)) : method (list HistoryReadResult) :=
  read_history (length items) range items.

(** The values read so far, and the nodes with more of them. *)
Definition HistoryPages : Type := dict string (list DataValue) * list (string * string).

(** What one result adds. *)
Definition history_result (acc : HistoryPages) (entry : string * HistoryReadResult) : outcome error HistoryPages :=
  let '(values, next) := acc in
  let '(node, result) := entry in
  match hr_check result with
  | Some e => if is_history_missing_or_unsupported e then Ok (<[node := []]> values, next) else Err e
  | None =>
      match hr_data result with
      | None => Err (Error OtherError "Incomplete OPC UA history response")
      | Some data =>
          Ok (<[node := default [] (values !! node) ++ data]> values,
              if truthy (hr_continuation result) then next ++ [(node, hr_continuation result)] else next)
      end
  end.

Fixpoint fold_outcome {A B} (f : B -> A -> outcome error B) (l : list A) (acc : B) : outcome error B :=
  match l with [] => Ok acc | x :: l' => acc ← f acc x; fold_outcome f l' acc end.

(** The rounds over the continuation points. *)
Fixpoint history_rounds (fuel : nat) (range : TimeRange) (active : list string) (results : list HistoryReadResult)
    (values : dict string (list DataValue)) : method (dict string (list DataValue)) :=
  match active with
  | [] => Ret (Ok values)
  | _ =>
      obind (Ret (entries ← zip_strict active results; fold_outcome history_result entries (values, []))) (fun '(values, next) =>
        match next with
        | [] => Ret (Ok values)
        | _ =>
            match fuel with
            | O => Ret (Err not_finished)
            | S fuel' =>
                let points := dict_of_list next in
                obind (read_history_batch range (map (fun n => (n.1, points !! n.1)) next)) (fun results =>
                  history_rounds fuel' range (map fst next) results values)
            end
        end)
  end.

Definition read_history_pages (fuel : nat) (range : TimeRange) (batch : list string) : method (dict string (list DataValue)) :=
  obind (read_history_batch range (map (fun n => (n, None)) batch)) (fun results =>
    history_rounds fuel range batch results (dict_of_list (map (fun n => (n, [])) batch))).

Definition read_history_values (fuel : nat) (range : TimeRange) (nodes : list string) : method (dict string (list DataValue)) :=
  match nodes with
  | [] => Ret (Ok ∅)
  | _ =>
      _ <- count "history_read_nodes" (length nodes);;
      obind get_operational_limits (fun limits =>
        r <- gather (chunked (Nat.max 1 (limit_or (max_nodes_per_history_read_data limits) (length nodes))) nodes) (read_history_pages fuel range);;
        match r with
        | Ok batches =>
            let values := fold_left (fun acc batch => dict_update batch acc) batches ∅ in
            _ <- count "history_read_count" (dict_len values);; Ret (Ok values)
        | Err e => _ <- record_failed_request;; Ret (Err e)
        end)
  end.

(** ** References *)

(** [_browse_with_retry] and [_browse_next_with_retry]. *)
Definition browse_with_retry (c : request (outcome error (list BrowseResult))) : method (list BrowseResult) :=
  r <- ask c;;
  match r with
  | Ok results => _ <- record_browse_results results;; Ret (Ok results)
  | Err e =>
      if should_retry_after_disconnect e then
        obind (retry_once e c) (fun results => _ <- record_browse_results results;; Ret (Ok results))
      else _ <- record_failed_request;; Ret (Err e)
  end.

Definition References : Type := list (string * list ReferenceDescription).

(** The place in the results, and the continuation point, of a node with more references. The code keeps the list object
    that the results hold and extends it. *)
Definition Continuation : Type := nat * string.

Definition continue_from (entry : nat * BrowseResult) : option Continuation :=
  if truthy (br_continuation entry.2) then Some (entry.1, br_continuation entry.2) else None.

Definition extend_references (results : References) (entry : nat * BrowseResult) : References :=
  alter (fun r => (r.1, r.2 ++ br_references entry.2)) entry.1 results.

Definition total_references (results : list BrowseResult) : nat := sum_list_with (fun r => length (br_references r)) results.

Fixpoint browse_rounds (fuel : nat) (entries : list Continuation) (results : References) : method References :=
  match entries with
  | [] => Ret (Ok results)
  | _ =>
      match fuel with
      | O => Ret (Err not_finished)
      | S fuel' =>
          obind (browse_with_retry (BrowseNext (map snd entries))) (fun next_results =>
            _ <- count "browse_next_calls" 1;;
            if negb (Nat.eqb (length next_results) (length entries)) then Ret (Err length_mismatch)
            else
              _ <- count "browse_next_references" (total_references next_results);;
              let answered := zip (map fst entries) next_results in
              browse_rounds fuel' (omap continue_from answered) (fold_left extend_references answered results))
      end
  end.

(** One batch of nodes. *)
Definition browse_batch (fuel : nat) (kind : BrowseKind) (batch : list string) : method References :=
  _ <- count "browse_calls" 1;; _ <- count "browse_nodes" (length batch);;
  obind (browse_with_retry (Browse kind batch)) (fun browse_results =>
    _ <- count "browse_initial_references" (total_references browse_results);;
    obind (Ret (zip_strict batch browse_results)) (fun answered =>
      browse_rounds fuel (omap continue_from (imap (fun i r => (i, r.2)) answered)) (map (fun r => (r.1, br_references r.2)) answered))).

Definition browse_references_descriptions (fuel : nat) (nodes : list string) (max_per_browse : nat) (kind : BrowseKind) : method References :=
  extend_all (chunked (Nat.max 1 max_per_browse) nodes) (browse_batch fuel kind).
End Client.
End OpcuaReads.
