(* ===== verification/OpcuaReadsSpec.v ===== *)
(** What the reads of [OpcuaReads.v] return, against every server that keeps a contract: values in the order of the
    request, a failing node alone, all pages of a history and of the references, whatever the limits and the splits. *)

From S2P Require Export OpcuaReads.

Module OpcuaReadsSpec.
Import OpcuaReads.
Local Open Scope async_scope.

(** ** Lemmas: batches *)

Lemma half_bounds n : (1 < n)%nat -> (1 <= half n < n)%nat.
Proof. intros Hn. unfold half. pose proof (Nat.div_lt n 2). lia. Qed.

Lemma read_batch_size_pos limits n : (0 < read_batch_size limits n)%nat.
Proof. unfold read_batch_size. lia. Qed.

(** An exception, and not a loop that has not ended. *)
Definition real (e : error) : Prop := er_class e ≠ NotFinished.

(** ** Lemmas: reasoning on programs *)

Section Rules.
Context {V : Type}.
Context (resp_ok : forall R, request (V := V) R -> R -> Prop).

Abbreviation holds p Q := (Async.holds resp_ok p Q).

Lemma holds_reconnect e : holds (wait_for_reconnect e) (fun r => match r with Ok _ => True | Err e => real e end).
Proof.
  unfold wait_for_reconnect. eapply holds_bind; [apply holds_any|]. intros connected _. apply holds_then.
  eapply holds_bind; [apply holds_any|]. intros [] _; by apply holds_ret.
Qed.

(** An answer that is returned, and is related to each element of the request. *)
Definition all_answered {A B} (R : A -> B -> Prop) (l : list A) (r : outcome error (list B)) : Prop :=
  match r with Ok ys => Forall2 R l ys | Err _ => False end.

(** The same, when the batch may fail. *)
Definition answered {A B} (E : error -> Prop) (R : A -> B -> Prop) (l : list A) (r : outcome error (list B)) : Prop :=
  match r with Ok ys => Forall2 R l ys | Err e => E e end.

Lemma holds_extend_all {A B} (E : error -> Prop) (R : A -> B -> Prop) (l : list (list A)) f :
  (forall x, x ∈ l -> holds (f x) (answered E R x)) -> holds (extend_all l f) (answered E R (List.concat l)).
Proof.
  induction l as [|x l IH]; intros Hf; cbn [extend_all List.concat]; [apply holds_ret; constructor|].
  eapply holds_obind; [apply Hf; by left| |done]. intros ys Hys.
  eapply holds_obind; [apply IH; intros y Hy; apply Hf; by right| |done]. intros zs Hzs.
  apply holds_ret. by apply Forall2_app.
Qed.

Lemma holds_gather {A B} (E : error -> Prop) (R : A -> B -> Prop) (l : list A) f :
  (forall x, x ∈ l -> holds (f x) (fun r => match r with Ok y => R x y | Err e => E e end)) -> holds (gather l f) (answered E R l).
Proof.
  induction l as [|x l IH]; intros Hf; cbn [gather]; [apply holds_ret; constructor|].
  eapply holds_bind; [apply Hf; by left|]. intros r Hr.
  eapply holds_bind; [apply IH; intros y Hy; apply Hf; by right|]. intros rs Hrs. apply holds_ret.
  destruct r as [y|e]; [|done]. destruct rs as [ys|e]; [|done]. by constructor.
Qed.

Lemma holds_limits browse_name_of int_of : holds (get_operational_limits browse_name_of int_of) (fun r => is_ok r = true).
Proof.
  eapply holds_bind; [apply holds_any|]. intros [l|] _; [by apply holds_ret|].
  eapply (holds_bind _ _ _ (fun r => is_ok r = true)).
  - eapply holds_catch; [apply holds_any|done|]. intros e _. by apply holds_ret.
  - intros [l|e] H; [|done]. apply holds_then. by apply holds_ret.
Qed.

Lemma holds_with_limits {B} browse_name_of int_of g (Q : outcome error B -> Prop) :
  (forall limits, holds (g limits) Q) -> holds (obind (get_operational_limits browse_name_of int_of) g) Q.
Proof. intros Hg. eapply holds_obind; [apply holds_limits|by intros|done]. Qed.
End Rules.

Lemma holds_weaken {V A} (resp_ok resp_ok' : forall R, request (V := V) R -> R -> Prop) (p : prog client request A) (Q : A -> Prop) :
  (forall R (c : request R) r, resp_ok' R c r -> resp_ok R c r) ->
  (forall s, wp resp_ok (fun _ _ => True) p (fun a _ => Q a) s) -> forall s, wp resp_ok' (fun _ _ => True) p (fun a _ => Q a) s.
Proof. intros Hc Hp s. by eapply wp_weaken. Qed.

(** ** Values *)

Section Values.
Context {V : Type} (answers : string -> V -> Prop) (bad : string -> Prop).

(** A server that is connected: a batch that it answers has one value per node, in order, and a batch that it refuses
    holds a bad node. *)
Definition values_contract R (c : request (V := V) R) : R -> Prop :=
  match c in request R return R -> Prop with
  | ReadValues nodes => fun r =>
      match r with
      | Ok values => Forall2 answers nodes values
      | Err e => should_retry_after_disconnect e = false /\ Exists bad nodes
      end
  | _ => fun _ => True
  end.

(** A value of the node, or nothing for a bad node. *)
Definition value_or_bad (node : string) (v : option V) : Prop := match v with Some v => answers node v | None => bad node end.

Lemma read_values_batch_ok fuel nodes :
  (length nodes <= fuel)%nat -> holds values_contract (read_values_batch fuel nodes) (answered (fun _ => False) value_or_bad nodes).
Proof.
  revert nodes. induction fuel as [|fuel IH]; intros nodes Hl; destruct nodes as [|n nodes]; [by apply holds_ret; constructor|cbn in Hl; lia|by apply holds_ret; constructor|].
  cbn [read_values_batch]. set (l := n :: nodes) in *.
  apply holds_then, holds_then. eapply holds_bind; [apply holds_ask; intros r Hr; exact Hr|]. intros [values|e]; cbn [values_contract].
  - intros Hv. apply holds_then, holds_ret. cbn. rewrite Forall2_fmap_r. exact Hv.
  - intros [-> Hb]. destruct (Nat.leb_spec (length l) 1) as [H1|H1].
    + apply holds_then, holds_ret. cbn. subst l. destruct nodes; [|cbn in *; lia]. constructor; [|constructor].
      apply Exists_cons in Hb as [Hb|Hb]; [exact Hb|by apply Exists_nil in Hb].
    + pose proof (half_bounds _ H1) as Hh. eapply (holds_mono _ _ (answered (fun _ => False) value_or_bad (take (half (length l)) l ++ drop (half (length l)) l)));
        [|by rewrite take_drop].
      eapply holds_obind; [apply IH; rewrite length_take; lia| |done]. intros left Hleft.
      eapply holds_obind; [apply IH; rewrite length_drop; lia| |done]. intros right Hright.
      apply holds_ret. by apply Forall2_app.
Qed.
End Values.

(** Reading values answers every node, in order, however the batches are cut by the limits and split by failures: if
    a batch is refused only when it holds a bad node, every other node still gets a value that the server gave for it,
    and only bad nodes get none. *)
Theorem read_values_isolates {V} (answers : string -> V -> Prop) (bad : string -> Prop) browse_name_of int_of nodes :
  holds (values_contract answers bad) (read_values browse_name_of int_of nodes)
    (fun r => exists values, r = Ok values /\ Forall2 (value_or_bad answers bad) nodes values).
Proof.
  destruct nodes as [|n nodes]; [apply holds_ret; by exists []|]. cbn [read_values]. remember (n :: nodes) as l.
  apply holds_with_limits. intros limits.
  eapply holds_mono; [apply (holds_extend_all _ (fun _ => False) (value_or_bad answers bad))|].
  - intros batch _. by apply read_values_batch_ok.
  - intros [values|e]; [|done]. rewrite concat_chunked by apply read_batch_size_pos. intros Hv. by exists values.
Qed.

(** ** Attributes *)

Section Attributes.
Context {V : Type} (capacity : nat) (value : string * AttributeId -> DataValue (V := V)).

(** A server that is connected and takes at most [S capacity] nodes at a time. *)
Definition capacity_contract R (c : request (V := V) R) : R -> Prop :=
  let answer {A} (l : list A) (f : A -> DataValue (V := V)) (r : outcome error (list (DataValue (V := V)))) : Prop :=
    if Nat.leb (length l) (S capacity) then r = Ok (map f l)
    else exists e, r = Err e /\ should_retry_after_disconnect e = false /\ is_too_many_operations_error e = true in
  match c in request R return R -> Prop with
  | ReadPairs pairs => answer pairs value
  | ReadAttributes nodes attr => answer nodes (fun n => value (n, attr))
  | _ => fun _ => True
  end.

Abbreviation exactly f := (answered (fun _ : error => False) (fun x y => y = f x)).

Lemma exact_map {A B} (f : A -> B) l : exactly f l (Ok (map f l)).
Proof. cbn. induction l; cbn; by constructor. Qed.

Lemma map_exact {A B} (f : A -> B) l r : exactly f l r -> r = Ok (map f l).
Proof. destruct r as [ys|e]; [|done]. cbn. intros H. f_equal. induction H; cbn; by f_equal. Qed.

Lemma read_pairs_ok fuel pairs : (length pairs <= fuel)%nat -> holds capacity_contract (read_pairs fuel pairs) (exactly value pairs).
Proof.
  revert pairs. induction fuel as [|fuel IH]; intros l Hl; cbn [read_pairs]; apply holds_then, holds_then;
    (eapply holds_bind; [apply holds_ask; intros r Hr; exact Hr|]); intros r; cbn [capacity_contract];
    destruct (Nat.leb_spec (length l) (S capacity)) as [Hc|Hc].
  1, 3: intros ->; rewrite List.length_map, Nat.eqb_refl; apply holds_then, holds_ret, exact_map.
  - lia.
  - intros (e & -> & -> & ->). destruct (Nat.ltb_spec 1 (length l)) as [H1|H1]; [|lia]. cbn [andb]. pose proof (half_bounds _ H1) as Hh.
    eapply (holds_mono _ _ (exactly value (take (half (length l)) l ++ drop (half (length l)) l))); [|by rewrite take_drop].
    eapply holds_obind; [apply IH; rewrite length_take; lia| |done]. intros left Hleft.
    eapply holds_obind; [apply IH; rewrite length_drop; lia| |done]. intros right Hright.
    apply holds_ret. by apply Forall2_app.
Qed.

Lemma read_attribute_batch_ok nodes attr :
  holds capacity_contract (read_attribute_batch nodes attr) (fun r =>
    exactly (fun n => value (n, attr)) nodes r \/
    (S capacity < length nodes)%nat /\ exists e, r = Err e /\ is_too_many_operations_error e = true).
Proof.
  destruct nodes as [|n nodes]; [apply holds_ret; left; constructor|]. cbn [read_attribute_batch]. set (l := n :: nodes).
  apply holds_then, holds_then. eapply holds_bind; [apply holds_ask; intros r Hr; exact Hr|]. intros r. cbn [capacity_contract].
  destruct (Nat.leb_spec (length l) (S capacity)) as [Hc|Hc].
  - intros ->. apply holds_then, holds_ret. left. apply exact_map.
  - intros (e & -> & -> & He). apply holds_then, holds_ret. right. split; [done|]. by exists e.
Qed.

Lemma read_attribute_batches_ok fuel nodes attr size :
  (Nat.min (Nat.max 1 size) (length nodes) < fuel)%nat ->
  holds capacity_contract (read_attribute_batches fuel nodes attr size) (exactly (fun n => value (n, attr)) nodes).
Proof.
  revert nodes size. induction fuel as [|fuel IH]; intros nodes size Hf; [lia|]. cbn [read_attribute_batches].
  eapply (holds_mono _ _ (exactly (fun n => value (n, attr)) (List.concat (chunked (Nat.max 1 size) nodes)))); [|rewrite concat_chunked by lia; done].
  apply holds_extend_all. intros batch Hb.
  assert (Hlen : (length batch <= length nodes)%nat) by (by eapply (proj1 (Forall_forall _ _) (chunks_lengths _ _ _)) in Hb).
  assert (Hsize : (length batch <= Nat.max 1 size)%nat) by (by eapply (proj1 (Forall_forall _ _) (chunks_sizes _ _ _)) in Hb).
  eapply holds_catch; [apply read_attribute_batch_ok| |].
  - intros ys [H|(_ & e & ? & _)]; done.
  - intros e [[]|(Hl & e' & [= <-] & ->)]. cbn [negb orb]. destruct (Nat.leb_spec (length batch) 1) as [|H1]; [lia|].
    apply IH. pose proof (half_bounds _ H1). lia.
Qed.

Lemma read_attribute_batch_limited_ok browse_name_of int_of nodes attr :
  holds capacity_contract (read_attribute_batch_limited browse_name_of int_of nodes attr) (exactly (fun n => value (n, attr)) nodes).
Proof.
  destruct nodes as [|n nodes]; [apply holds_ret; constructor|]. cbn [read_attribute_batch_limited]. apply holds_with_limits. intros limits.
  apply read_attribute_batches_ok. lia.
Qed.

Lemma read_attribute_pairs_ok browse_name_of int_of pairs :
  holds capacity_contract (read_attribute_pairs browse_name_of int_of pairs) (exactly value pairs).
Proof.
  destruct pairs as [|p pairs]; [apply holds_ret; constructor|]. cbn [read_attribute_pairs]. apply holds_with_limits. intros limits.
  set (size := limit_or (max_nodes_per_read limits) _). clearbody size. cbn [read_attribute_pairs_sized]. set (l := p :: pairs).
  eapply holds_obind; [apply (holds_gather _ (fun _ => False) (fun batch ys => ys = map value batch))| |done].
  - intros batch _. eapply holds_mono; [by apply read_pairs_ok|]. intros r ->%map_exact. done.
  - intros batches Hb. apply holds_ret. rewrite <-(concat_chunked (Nat.max 1 size) l) by lia.
    replace (List.concat batches) with (map value (List.concat (chunked (Nat.max 1 size) l))); [apply exact_map|].
    unfold answered in Hb. revert Hb. generalize (chunked (Nat.max 1 size) l). clear. intros batches' Hb.
    induction Hb as [|batch ys bs yss -> _ IH]; [done|]. cbn [List.concat]. by rewrite List.map_app, IH.
Qed.

Lemma read_data_values_ok browse_name_of int_of nodes :
  holds capacity_contract (read_data_values browse_name_of int_of nodes) (fun r => r = Ok (map (fun n => value (n, att_value)) nodes)).
Proof.
  destruct nodes as [|n nodes]; [by apply holds_ret|]. cbn [read_data_values]. set (l := n :: nodes).
  eapply (holds_catch _ _ _ (fun r => r = Ok (map (fun n => value (n, att_value)) l))); [|by intros|done].
  eapply holds_obind; [apply read_attribute_batch_limited_ok| |done]. intros ys Hys%(map_exact (fun n => value (n, att_value))).
  assert (ys = map (fun n => value (n, att_value)) l) as -> by congruence. rewrite List.length_map, Nat.eqb_refl. by apply holds_ret.
Qed.
End Attributes.

(** C18. Reads of attributes adapt to what the server takes at a time, even if it advertises more or nothing: against any
    server that takes at least one node per request, they return the value of every node and attribute, in order. *)
Theorem attribute_reads_adapt {V} capacity (value : string * AttributeId -> DataValue (V := V)) browse_name_of int_of :
  (forall pairs, holds (capacity_contract capacity value) (read_attribute_pairs browse_name_of int_of pairs) (fun r => r = Ok (map value pairs))) /\
  (forall nodes attr, holds (capacity_contract capacity value) (read_attribute_batch_limited browse_name_of int_of nodes attr)
    (fun r => r = Ok (map (fun n => value (n, attr)) nodes))) /\
  (forall nodes, holds (capacity_contract capacity value) (read_data_values browse_name_of int_of nodes)
    (fun r => r = Ok (map (fun n => value (n, att_value)) nodes))).
Proof.
  split_and!.
  - intros pairs. eapply holds_mono; [apply read_attribute_pairs_ok|]. intros r. apply map_exact.
  - intros nodes attr. eapply holds_mono; [apply read_attribute_batch_limited_ok|]. intros r. apply (map_exact (fun n => value (n, attr))).
  - intros nodes. apply read_data_values_ok.
Qed.

(** ** Pages *)

Lemma Forall2_map_l {A B C} (R : B -> C -> Prop) (f : A -> B) l k : Forall2 R (map f l) k <-> Forall2 (fun x => R (f x)) l k.
Proof.
  split.
  - revert k. induction l as [|x l IH]; intros k H; cbn in H; apply Forall2_cons_inv_l in H || apply Forall2_nil_inv_l in H; [by subst|].
    destruct H as (y & k' & Hy & Hk & ->). constructor; auto.
  - induction 1; by constructor.
Qed.

(** A server that cuts what it has for each node into pages; the page that is not the last comes with a token for the next. *)
Section Pages.
Context {D : Type} (pages : string -> list (list D)) (token : string -> nat -> string).

Definition page_at (node : string) (i : nat) (data : list D) (continuation : string) : Prop :=
  pages node !! i = Some data /\ continuation = if Nat.ltb (S i) (length (pages node)) then token node (S i) else ε.

(** What the first [r] pages of a node hold. *)
Definition first_pages (r : nat) (node : string) : list D := List.concat (take r (pages node)).

Definition more (r : nat) (node : string) : bool := Nat.ltb r (length (pages node)).

Record pages_ok : Prop := {
  token_truthy : forall n i, truthy (token n i) = true;
  token_inj : forall n i m j, token n i = token m j -> n = m /\ i = j;
  pages_some : forall n, pages n ≠ [];
}.

Lemma first_pages_step r node data c : page_at node r data c -> first_pages (S r) node = first_pages r node ++ data.
Proof. intros [Hd _]. unfold first_pages. erewrite take_S_r by exact Hd. rewrite List.concat_app. cbn. by rewrite app_nil_r. Qed.

Lemma first_pages_all r node : more r node = false -> first_pages r node = List.concat (pages node).
Proof. unfold more, first_pages. intros H%Nat.ltb_ge. by rewrite take_ge. Qed.

Lemma first_pages_stop r node : more r node = false -> first_pages (S r) node = first_pages r node.
Proof. intros H. rewrite !first_pages_all; [done..|]. unfold more in *. apply Nat.ltb_ge in H. apply Nat.ltb_ge. lia. Qed.

Lemma more_pred r node : more (S r) node = true -> more r node = true.
Proof. unfold more. rewrite !Nat.ltb_lt. lia. Qed.

Lemma page_continues (Hok : pages_ok) node r data c : page_at node r data c -> truthy c = more (S r) node /\ (more (S r) node = true -> c = token node (S r)).
Proof. intros [_ ->]. unfold more. destruct (Nat.ltb _ _); [by rewrite token_truthy|done]. Qed.

Lemma more_first (Hok : pages_ok) node : more 0 node = true.
Proof. unfold more. pose proof (pages_some Hok node). destruct (pages node); done. Qed.
End Pages.

(** ** Histories *)

Section Histories.
Context {V : Type}.
Context (pages : string -> list (list (DataValue (V := V)))) (token : string -> nat -> string) (Hok : pages_ok pages token) (fails : Prop).

(** The page that an item asks for: the first, or the one of its token. *)
Definition history_page (item : string * option string) (r : HistoryReadResult (V := V)) : Prop :=
  hr_check r = None /\ exists i data, (item.2 = None /\ i = 0%nat \/ item.2 = Some (token item.1 i)) /\
    hr_data r = Some data /\ page_at pages token item.1 i data (hr_continuation r).

(** A server with a history. A read of several nodes may be too much for it; it raises something else only if it [fails]. *)
Definition history_contract R (c : request (V := V) R) : R -> Prop :=
  match c in request R return R -> Prop with
  | HistoryRead _ items => fun r =>
      match r with
      | Ok results => Forall2 history_page items results
      | Err e => real e /\ (fails \/ should_retry_after_disconnect e = false /\ is_too_many_operations_error e = true /\ (1 < length items)%nat)
      end
  | _ => fun _ => True
  end.

Abbreviation failed := (fun e : error => real e /\ fails).

Lemma retry_once_ok items range e :
  fails -> holds history_contract (retry_once e (HistoryRead range items)) (answered failed history_page items).
Proof using.
  intros Hf. eapply holds_obind; [apply holds_reconnect| |done].
  intros _ _. apply holds_ask. intros [results|e'] Hr; [exact Hr|]. by destruct Hr.
Qed.

Lemma read_history_ok fuel range items :
  (length items <= fuel)%nat -> holds history_contract (read_history fuel range items) (answered failed history_page items).
Proof using.
  revert items. induction fuel as [|fuel IH]; intros l Hl; cbn [read_history]; apply holds_then;
    (eapply holds_bind; [apply holds_ask; intros r Hr; exact Hr|]); intros [results|e]; cbn [history_contract]; intros Hr.
  1, 3: rewrite (Forall2_length _ _ _ Hr), Nat.eqb_refl; by apply holds_ret.
  all: destruct Hr as [Hreal [Hf|(-> & -> & H1)]].
  2: lia.
  1, 2: destruct (should_retry_after_disconnect e);
    [eapply holds_obind; [by apply retry_once_ok| |done]; intros results Hres; rewrite (Forall2_length _ _ _ Hres), Nat.eqb_refl; by apply holds_ret|].
  1, 2: destruct (is_too_many_operations_error e); cbn [andb]; [|by apply holds_ret].
  3: rewrite (proj2 (Nat.ltb_lt _ _) H1); cbn [andb].
  1, 2: destruct (Nat.ltb_spec 1 (length l)) as [H1|H1]; [|by apply holds_ret].
  1: lia.
  all: pose proof (half_bounds _ H1) as Hh;
    (eapply (holds_mono _ _ (answered failed history_page (take (half (length l)) l ++ drop (half (length l)) l))); [|by rewrite take_drop]);
    (eapply holds_obind; [apply IH; rewrite length_take; lia| |done]); intros left Hleft;
    (eapply holds_obind; [apply IH; rewrite length_drop; lia| |done]); intros right Hright;
    apply holds_ret; by apply Forall2_app.
Qed.

(** What has been read after [r] pages of the nodes. *)
Definition pages_read (nodes : list string) (r : nat) (values : dict string (list (DataValue (V := V)))) : Prop :=
  forall n, values !! n = if bool_decide (n ∈ nodes) then Some (first_pages pages r n) else None.

Lemma history_result_page n (res : HistoryReadResult (V := V)) data values next :
  hr_check res = None -> hr_data res = Some data ->
  history_result (values, next) (n, res) = Ok (<[n := default [] (values !! n) ++ data]> values,
    if truthy (hr_continuation res) then next ++ [(n, hr_continuation res)] else next).
Proof using. intros Hc Hd. unfold history_result. by rewrite Hc, Hd. Qed.

(** One round: the results for the nodes with an [r]th page. *)
Lemma history_fold (nodes : list string) r active results values done_ next :
  NoDup (done_ ++ active) -> (forall n, n ∈ done_ ++ active -> n ∈ nodes) ->
  Forall2 (fun n res => hr_check res = None /\ exists data, hr_data res = Some data /\ page_at pages token n r data (hr_continuation res)) active results ->
  (forall n, values !! n = if bool_decide (n ∈ nodes) then Some (first_pages pages (if bool_decide (n ∈ done_) then S r else r) n) else None) ->
  next = map (fun n => (n, token n (S r))) (List.filter (more pages (S r)) done_) ->
  exists values', fold_outcome history_result (zip active results) (values, next) =
      Ok (values', map (fun n => (n, token n (S r))) (List.filter (more pages (S r)) (done_ ++ active))) /\
    forall n, values' !! n = if bool_decide (n ∈ nodes) then Some (first_pages pages (if bool_decide (n ∈ done_ ++ active) then S r else r) n) else None.
Proof using Hok.
  intros Hnd Hin Hres. revert done_ values next Hnd Hin.
  induction Hres as [|n res active results (Hc & data & Hd & Hp) _ IH]; intros done_ values next Hnd Hin Hv ->; cbn [zip zip_with fold_outcome].
  { exists values. by rewrite app_nil_r. }
  rewrite (history_result_page _ _ data) by done. cbn [mbind outcome_bind].
  rewrite (cons_middle n done_ active), app_assoc in *.
  destruct (page_continues _ _ Hok _ _ _ _ Hp) as [Ht Hm].
  assert (Hn : n ∈ nodes) by (apply Hin; rewrite !elem_of_app; left; right; by left).
  assert (Hnot : n ∉ done_) by (rewrite <-app_assoc in Hnd; apply NoDup_app in Hnd as (_ & H & _); intros Hx%H; apply Hx; by left).
  edestruct (IH (done_ ++ [n])) as (values' & Hf & Hv'); [done|done| |reflexivity|].
  2: { exists values'. split; [|exact Hv']. rewrite <-Hf. f_equal. f_equal. rewrite List.filter_app, List.map_app. cbn [List.filter].
       rewrite Ht. destruct (more pages (S r) n) eqn:Em; cbn [map]; [by rewrite (Hm eq_refl)|by rewrite app_nil_r]. }
  intros m. rewrite dict_lookup_insert. case_bool_decide as E; [subst m|].
  - rewrite (bool_decide_true (n ∈ nodes)), (bool_decide_true (n ∈ done_ ++ [n])) by (try done; apply elem_of_app; right; by left).
    rewrite Hv, bool_decide_true, (bool_decide_false (n ∈ done_)) by done. cbn. f_equal. symmetry. by eapply first_pages_step.
  - rewrite Hv. case_bool_decide; [|done]. do 2 f_equal.
    assert (m ∈ done_ ++ [n] <-> m ∈ done_) as Hiff by (rewrite elem_of_app, list_elem_of_singleton; split; [intros [?|?]; [done|congruence]|by left]). by rewrite (bool_decide_ext _ _ Hiff).
Qed.

Lemma filter_more_more r (l : list string) : List.filter (more pages (S r)) (List.filter (more pages r) l) = List.filter (more pages (S r)) l.
Proof using.
  induction l as [|n l IH]; [done|]. cbn [List.filter]. destruct (more pages r n) eqn:E; cbn [List.filter]; rewrite IH; [done|].
  destruct (more pages (S r) n) eqn:E'; [|done]. apply more_pred in E'. congruence.
Qed.

Lemma token_of (l : list string) r n : n ∈ l -> dict_of_list (map (fun n => (n, token n r)) l) !! n = Some (token n r).
Proof using.
  intros Hn. destruct (dict_of_list _ !! n) as [t|] eqn:E.
  - apply dict_lookup_of_list_Some, elem_of_map in E as (m & [= -> ->] & _). done.
  - exfalso. assert (is_Some (dict_of_list (map (fun n => (n, token n r)) l) !! n)) as [? ?]; [|congruence].
    apply dict_lookup_of_list_is_Some, list_elem_of_fmap. exists (n, token n r). split; [done|]. apply elem_of_map. by exists n.
Qed.

(** What a round for page [r] of the nodes with such a page gets. *)
Definition round_ok (r : nat) (active : list string) (results : list (HistoryReadResult (V := V))) : Prop :=
  Forall2 (fun n res => hr_check res = None /\ exists data, hr_data res = Some data /\ page_at pages token n r data (hr_continuation res)) active results.

Lemma round_of r (items : list (string * option string)) active results :
  items = map (fun n => (n, Some (token n r))) active -> Forall2 history_page items results -> round_ok r active results.
Proof using Hok.
  intros -> H. rewrite Forall2_map_l in H. eapply Forall2_impl; [exact H|]. intros n res (Hc & i & data & Hi & Hd & Hp). split; [done|]. exists data.
  destruct Hi as [[? _]|[= Hi]]; [done|]. cbn in Hi. apply (token_inj _ _ Hok) in Hi as [_ <-]. done.
Qed.

Lemma first_round active results : Forall2 history_page (map (fun n => (n, None)) active) results -> round_ok 0 active results.
Proof using Hok.
  intros H. rewrite Forall2_map_l in H. eapply Forall2_impl; [exact H|]. intros n res (Hc & i & data & Hi & Hd & Hp). split; [done|]. exists data.
  destruct Hi as [[_ ->]|?]; done.
Qed.

Lemma history_rounds_step fuel range active (results : list (HistoryReadResult (V := V))) values values' next :
  length active = length results -> fold_outcome history_result (zip active results) (values, []) = Ok (values', next) ->
  history_rounds fuel range active results values =
    match next with
    | [] => Ret (Ok values')
    | _ =>
        match fuel with
        | O => Ret (Err not_finished)
        | S fuel' =>
            obind (read_history_batch range (map (fun n => (n.1, dict_of_list next !! n.1)) next)) (fun results =>
              history_rounds fuel' range (map fst next) results values')
        end
    end.
Proof using.
  intros Hlen Hf. destruct active as [|n active].
  - cbn in Hf. injection Hf as -> <-. by destruct fuel.
  - destruct fuel; cbn [history_rounds]; unfold zip_strict; rewrite Hlen, Nat.eqb_refl; cbn [mbind outcome_bind]; rewrite Hf; by destruct next.
Qed.

Lemma history_result_wf acc entry acc' : history_result (V := V) acc entry = Ok acc' -> dict_wf acc.1 -> dict_wf acc'.1.
Proof using.
  destruct acc as [values next], entry as [n res]. unfold history_result. intros H Hwf.
  destruct (hr_check res) as [e|]; [destruct (is_history_missing_or_unsupported e); [|done]|destruct (hr_data res); [|done]];
    injection H as <-; by apply dict_wf_insert.
Qed.

Lemma history_fold_wf l acc acc' : fold_outcome (history_result (V := V)) l acc = Ok acc' -> dict_wf acc.1 -> dict_wf acc'.1.
Proof using.
  revert acc. induction l as [|entry l IH]; intros acc Hf Hwf; cbn [fold_outcome] in Hf; [by injection Hf as <-|].
  destruct (history_result acc entry) as [acc1|e] eqn:E; [|done]. apply (IH acc1 Hf). by eapply history_result_wf.
Qed.

Lemma pages_read_next nodes r values :
  (forall n, values !! n = if bool_decide (n ∈ nodes)
     then Some (first_pages pages (if bool_decide (n ∈ List.filter (more pages r) nodes) then S r else r) n) else None) ->
  pages_read nodes (S r) values.
Proof using.
  intros Hv n. rewrite Hv. case_bool_decide as Hn; [|done]. f_equal. case_bool_decide as Hm; [done|]. symmetry. apply first_pages_stop.
  destruct (more pages r n) eqn:E; [|done]. by destruct Hm; apply elem_of_filter_list.
Qed.

Lemma all_pages_read nodes r values : List.filter (more pages r) nodes = [] -> pages_read nodes r values ->
  forall n, values !! n = if bool_decide (n ∈ nodes) then Some (List.concat (pages n)) else None.
Proof using.
  intros E Hv n. rewrite Hv. case_bool_decide as Hn; [|done]. f_equal. apply first_pages_all. destruct (more pages r n) eqn:Em; [|done].
  assert (n ∈ List.filter (more pages r) nodes) as Hx by (by apply elem_of_filter_list). rewrite E in Hx. by apply not_elem_of_nil in Hx.
Qed.

(** Every node has all of its pages, one after another, and there is nothing else. *)
Definition complete (nodes : list string) (values : dict string (list (DataValue (V := V)))) : Prop :=
  dict_wf values /\ forall n, values !! n = if bool_decide (n ∈ nodes) then Some (List.concat (pages n)) else None.

Lemma next_items (l : list string) r :
  map (fun n => (n.1, dict_of_list (map (fun n => (n, token n r)) l) !! n.1)) (map (fun n => (n, token n r)) l) = map (fun n => (n, Some (token n r))) l.
Proof using. rewrite List.map_map. apply List.map_ext_in. intros n Hn%list_elem_of_In. cbn [fst]. by rewrite token_of. Qed.

Lemma next_nodes (l : list string) r : map fst (map (fun n => (n, token n r)) l) = l.
Proof using. rewrite List.map_map. apply List.map_id. Qed.

Lemma history_rounds_ok fuel range nodes r results values :
  NoDup nodes -> (forall n, n ∈ nodes -> (length (pages n) <= S (r + fuel))%nat) ->
  round_ok r (List.filter (more pages r) nodes) results -> pages_read nodes r values -> dict_wf values ->
  holds history_contract (history_rounds fuel range (List.filter (more pages r) nodes) results values)
    (fun o => match o with
     | Ok values => complete nodes values
     | Err e => failed e
     end).
Proof using Hok.
  intros Hnd. revert r results values. induction fuel as [|fuel IH]; intros r results values Hlen Hres Hv Hwf.
  all: set (active := List.filter (more pages r) nodes) in *.
  all: destruct (history_fold nodes r active results values [] []) as (values' & Hfold & Hv');
    [by apply NoDup_list_filter|intros n Hn; by apply elem_of_filter_list in Hn as [? _]|done|done|done|].
  all: rewrite (history_rounds_step _ _ _ _ _ _ _ (Forall2_length _ _ _ Hres) Hfold); cbn [app] in Hv' |- *.
  all: assert (Hwf' : dict_wf values') by exact (history_fold_wf _ _ _ Hfold Hwf).
  all: subst active; rewrite filter_more_more in *.
  all: assert (Hread : pages_read nodes (S r) values') by (by apply pages_read_next).
  all: destruct (List.filter (more pages (S r)) nodes) as [|x l] eqn:E; [apply holds_ret; split; [done|]; by apply (all_pages_read nodes (S r))|].
  { exfalso. assert (x ∈ List.filter (more pages (S r)) nodes) as [Hx Hm]%elem_of_filter_list by (rewrite E; by left).
    specialize (Hlen x Hx). apply Nat.ltb_lt in Hm. lia. }
  change (map _ (x :: l)) with (map (fun n => (n, token n (S r))) (x :: l)). rewrite <-E, next_items, next_nodes.
  destruct (map _ (List.filter (more pages (S r)) nodes)) eqn:E'; [by rewrite E in E'|].
  eapply holds_obind; [by apply read_history_ok| |done]. intros results' Hres'.
  apply IH; [intros n Hn; specialize (Hlen n Hn); lia| |done|done]. by eapply round_of.
Qed.

Lemma more_all (l : list string) : List.filter (more pages 0) l = l.
Proof using Hok. induction l as [|n l IH]; [done|]. cbn [List.filter]. by rewrite (more_first _ _ Hok), IH. Qed.

Lemma no_pages_read l : pages_read l 0 (dict_of_list (map (fun n => (n, [])) l)).
Proof using. intros n. by rewrite (dict_lookup_tabulate (fun _ => [])). Qed.

Lemma read_history_pages_ok fuel range batch :
  NoDup batch -> (forall n, n ∈ batch -> (length (pages n) <= S fuel)%nat) ->
  holds history_contract (read_history_pages fuel range batch) (fun o => match o with Ok values => complete batch values | Err e => failed e end).
Proof using Hok.
  intros Hnd Hlen. unfold read_history_pages. eapply holds_obind; [by apply read_history_ok| |done]. intros results Hres%first_round.
  pose proof (history_rounds_ok fuel range batch 0 results (dict_of_list (map (fun n => (n, [])) batch)) Hnd Hlen) as H. rewrite more_all in H.
  apply H; [done|apply no_pages_read|apply dict_wf_of_list].
Qed.

Lemma part_of_chunks {A} size (l : list A) batch : (0 < size)%nat -> NoDup l -> batch ∈ chunked size l -> NoDup batch /\ forall x, x ∈ batch -> x ∈ l.
Proof using.
  intros Hs Hnd Hb. rewrite <-(concat_chunked size l Hs) in Hnd |- *. revert Hnd Hb. generalize (chunked size l). intros ls Hnd Hb.
  induction Hb as [b ls|b b2 ls _ IH]; cbn [List.concat] in *; apply NoDup_app in Hnd as (H1 & H2 & H3).
  - split; [done|]. intros x Hx. apply elem_of_app. by left.
  - destruct (IH H3) as [Hnd Hin]. split; [done|]. intros x Hx. apply elem_of_app. right. auto.
Qed.

Lemma complete_merge batches ds acc l :
  Forall2 complete batches ds -> complete l acc -> complete (l ++ List.concat batches) (fold_left (fun acc batch => dict_update batch acc) ds acc).
Proof using.
  intros Hd. revert acc l. induction Hd as [|b d batches ds [Hwf Hb] _ IH]; intros acc l [Hacc Hl]; cbn [List.concat fold_left]; [by rewrite app_nil_r|].
  rewrite app_assoc. apply IH. split; [by apply dict_wf_update_list|]. intros n. rewrite dict_lookup_update, Hb, Hl by done.
  repeat case_bool_decide; try done; rewrite elem_of_app in *; tauto.
Qed.
Lemma read_history_values_ok browse_name_of int_of fuel range nodes :
  NoDup nodes -> (forall n, n ∈ nodes -> (length (pages n) <= S fuel)%nat) ->
  holds history_contract (read_history_values browse_name_of int_of fuel range nodes)
    (fun o => match o with
     | Ok values => forall n, values !! n = if bool_decide (n ∈ nodes) then Some (List.concat (pages n)) else None
     | Err e => real e /\ fails
     end).
Proof using Hok.
  intros Hnd Hlen. destruct nodes as [|n0 nodes]; [by apply holds_ret|]. cbn [read_history_values]. set (l := n0 :: nodes) in *.
  apply holds_then, holds_with_limits. intros limits. set (size := Nat.max 1 _). assert (Hs : (0 < size)%nat) by (subst size; lia). clearbody size l.
  eapply holds_bind; [apply (holds_gather _ failed complete)|].
  - intros batch Hb. destruct (part_of_chunks _ _ _ Hs Hnd Hb) as [Hnd' Hin]. apply read_history_pages_ok; auto.
  - intros [ds|e]; [|intros He; by apply holds_then, holds_ret]. intros Hds%(complete_merge _ _ ∅ []). 2: { split; [apply dict_wf_empty|done]. }
    apply holds_then, holds_ret. intros n. rewrite concat_chunked in Hds by done. by destruct Hds as [_ ->].
Qed.

End Histories.

(** C16. Reading histories gets all of them: against a server that cuts the history of each node into any pages, with a
    token for the next one, and that may refuse several nodes at a time as too many, every node gets exactly its values,
    in order, in as many rounds as the longest history has further pages. The read fails only if the server does. *)
Theorem history_complete {V} (pages : string -> list (list (DataValue (V := V)))) token fails browse_name_of int_of fuel range nodes :
  pages_ok pages token -> NoDup nodes -> (forall n, n ∈ nodes -> (length (pages n) <= S fuel)%nat) ->
  holds (history_contract pages token fails) (read_history_values browse_name_of int_of fuel range nodes)
    (fun o => match o with
     | Ok values => forall n, values !! n = if bool_decide (n ∈ nodes) then Some (List.concat (pages n)) else None
     | Err e => real e /\ fails
     end).
Proof. intros Hok. by apply read_history_values_ok. Qed.

(** ** References *)

(** A server with references of every kind; it raises something only if it [fails]. *)
Definition browse_contract {V} (pages : BrowseKind -> string -> list (list ReferenceDescription)) (token : BrowseKind -> string -> nat -> string)
    (fails : Prop) R (c : request (V := V) R) : R -> Prop :=
  let page kind n i r := page_at (pages kind) (token kind) n i (br_references r) (br_continuation r) in
  let answer {A} (page : A -> BrowseResult -> Prop) (l : list A) (r : outcome error (list BrowseResult)) : Prop :=
    match r with Ok results => Forall2 page l results | Err e => real e /\ fails end in
  match c in request R return R -> Prop with
  | Browse kind nodes => answer (fun n => page kind n 0%nat) nodes
  | BrowseNext points => answer (fun t r => forall kind n i, t = token kind n i -> page kind n i r) points
  | _ => fun _ => True
  end.

Section References.
Context {V : Type} (all_pages : BrowseKind -> string -> list (list ReferenceDescription)) (all_tokens : BrowseKind -> string -> nat -> string).
Context (kind : BrowseKind) (fails : Prop).

Abbreviation pages := (all_pages kind).
Abbreviation token := (all_tokens kind).
Abbreviation browse_contract := (browse_contract (V := V) all_pages all_tokens fails).
Context (Hok : pages_ok pages token).

Definition references_page (n : string) (i : nat) (r : BrowseResult) : Prop := page_at pages token n i (br_references r) (br_continuation r).

Abbreviation failed := (fun e : error => real e /\ fails).

Lemma browse_with_retry_ok {A} (c : request (V := V) (outcome error (list BrowseResult))) (page : A -> BrowseResult -> Prop) l :
  (forall r, browse_contract _ c r -> answered failed page l r) -> holds browse_contract (browse_with_retry c) (answered failed page l).
Proof using.
  intros Hc. unfold browse_with_retry. eapply holds_bind; [by apply holds_ask|]. intros [results|e] Hr; cbn [answered] in Hr.
  { by apply holds_then, holds_ret. }
  destruct (should_retry_after_disconnect e); [|by apply holds_then, holds_ret].
  eapply holds_obind; [|intros results Hres; by apply holds_then, holds_ret|done].
  eapply holds_obind; [apply holds_reconnect|intros _ _; by apply holds_ask|]. intros e' He'. by destruct Hr.
Qed.

(** The nodes of a batch with a page [r], by their positions. *)
Definition positions (batch : list string) (r : nat) : list (nat * string) := List.filter (fun p => more pages r p.2) (imap pair batch).
Definition points (l : list (nat * string)) (r : nat) : list Continuation := map (fun p => (p.1, token p.2 r)) l.

(** The references after the first [r] pages. *)
Definition references_read (batch : list string) (r : nat) : References := map (fun n => (n, first_pages pages r n)) batch.

Lemma elem_of_positions batch r p : p ∈ positions batch r -> batch !! p.1 = Some p.2 /\ more pages r p.2 = true.
Proof using.
  unfold positions. rewrite elem_of_filter_list. intros [Hp Hm]. split; [|done].
  apply list_elem_of_lookup in Hp as [k Hk]. rewrite list_lookup_imap in Hk. destruct (batch !! k) eqn:E; [|done]. by injection Hk as <-.
Qed.

Lemma positions_intro batch r i n : batch !! i = Some n -> more pages r n = true -> i ∈ map fst (positions batch r).
Proof using.
  intros Hi Hm. apply elem_of_map. exists (i, n). split; [done|]. apply elem_of_filter_list. split; [|done].
  apply list_elem_of_lookup. exists i. by rewrite list_lookup_imap, Hi.
Qed.

Lemma NoDup_positions batch r : NoDup (map fst (positions batch r)).
Proof using.
  unfold positions. assert (NoDup (map fst (imap pair batch))) as Hnd.
  { replace (map fst (imap pair batch)) with (seq 0 (length batch)); [apply NoDup_seq|]. apply list_eq. intros k.
    rewrite list_lookup_fmap, list_lookup_imap. destruct (batch !! k) as [n|] eqn:E; cbn.
    - apply lookup_seq. split; [done|]. by eapply lookup_lt_Some.
    - apply lookup_seq_ge. by apply lookup_ge_None. }
  revert Hnd. generalize (imap pair batch). intros l. induction l as [|p l IH]; intros Hnd; [done|]. cbn [map List.filter] in *. apply NoDup_cons in Hnd as [Hp Hnd].
  destruct (more pages r p.2); cbn [map]; [|by apply IH]. apply NoDup_cons. split; [|by apply IH].
  intros Hin. apply Hp. apply elem_of_map in Hin as (q & -> & Hq). apply elem_of_filter_list in Hq as [Hq _]. apply elem_of_map. by exists q.
Qed.

(** One round: the results for the positions with page [r]. *)
Lemma browse_fold batch r l results done_ :
  Forall2 (fun p => references_page p.2 r) l results -> (forall p, p ∈ l -> batch !! p.1 = Some p.2) -> NoDup (done_ ++ map fst l) ->
  fold_left extend_references (zip (map fst l) results) (imap (fun i n => (n, first_pages pages (if bool_decide (i ∈ done_) then S r else r) n)) batch) =
  imap (fun i n => (n, first_pages pages (if bool_decide (i ∈ done_ ++ map fst l) then S r else r) n)) batch.
Proof using Hok.
  intros Hres. revert done_. induction Hres as [|p res l results Hp _ IH]; intros done_ Hin Hnd; cbn [map zip zip_with fold_left]; [by rewrite app_nil_r|].
  cbn [map] in Hnd. rewrite (cons_middle p.1 done_ (map fst l)), app_assoc in *.
  rewrite <-IH; [|intros q Hq; apply Hin; by right|done]. f_equal.
  assert (Hnot : p.1 ∉ done_) by (rewrite <-app_assoc in Hnd; apply NoDup_app in Hnd as (_ & H & _); intros Hx%H; apply Hx; by left).
  apply list_eq. intros j. unfold extend_references, References. cbn [fst snd]. destruct (decide (j = p.1)) as [->|Hj].
  - rewrite list_lookup_alter_eq, !list_lookup_imap, (Hin p) by (by left). cbn.
    rewrite (bool_decide_false (p.1 ∈ done_)), (bool_decide_true (p.1 ∈ done_ ++ [p.1])) by (done || (apply elem_of_app; right; by left)).
    do 2 f_equal. symmetry. by eapply first_pages_step.
  - rewrite list_lookup_alter_ne, !list_lookup_imap by done. destruct (batch !! j); [|done]. cbn. do 2 f_equal.
    assert (j ∈ done_ ++ [p.1] <-> j ∈ done_) as Hiff by (rewrite elem_of_app, list_elem_of_singleton; tauto). by rewrite (bool_decide_ext _ _ Hiff).
Qed.

Lemma browse_next_points l r results :
  Forall2 (fun p => references_page p.2 r) l results ->
  omap continue_from (zip (map fst l) results) = points (List.filter (fun p => more pages (S r) p.2) l) (S r).
Proof using Hok.
  induction 1 as [|p res l results Hp _ IH]; [done|]. destruct (page_continues _ _ Hok _ _ _ _ Hp) as [Ht Hm].
  cbn [map zip zip_with omap list_omap List.filter]. unfold continue_from at 1. cbn [fst snd]. rewrite Ht. change (list_omap _ _ continue_from) with (omap (M := list) continue_from).
  destruct (more pages (S r) p.2); rewrite IH; [|done]. by rewrite Hm.
Qed.

Lemma positions_next batch r : List.filter (fun p => more pages (S r) p.2) (positions batch r) = positions batch (S r).
Proof using.
  unfold positions. generalize (imap pair batch). intros l. induction l as [|p l IH]; [done|]. cbn [List.filter].
  destruct (more pages r p.2) eqn:E; cbn [List.filter]; rewrite IH; [done|].
  destruct (more pages (S r) p.2) eqn:E'; [|done]. apply more_pred in E'. congruence.
Qed.

Lemma references_read_imap batch r : references_read batch r = imap (fun _ n => (n, first_pages pages r n)) batch.
Proof using.
  apply list_eq. intros j. unfold references_read. rewrite list_lookup_imap. apply list_lookup_fmap.
Qed.

Lemma references_read_next batch r results :
  Forall2 (fun p => references_page p.2 r) (positions batch r) results ->
  fold_left extend_references (zip (map fst (positions batch r)) results) (references_read batch r) = references_read batch (S r).
Proof using Hok.
  intros Hres. rewrite !references_read_imap. etransitivity; [apply (browse_fold batch r _ _ []); [done|apply elem_of_positions|apply NoDup_positions]|].
  apply imap_ext. intros i n Hi. cbn [app]. f_equal. case_bool_decide as Hn; [done|]. symmetry. apply first_pages_stop.
  destruct (more pages r n) eqn:E; [|done]. by destruct Hn; eapply positions_intro.
Qed.

Lemma references_read_all batch r : positions batch r = [] -> references_read batch r = map (fun n => (n, List.concat (pages n))) batch.
Proof using.
  intros E. apply List.map_ext_in. intros n Hn%list_elem_of_In%list_elem_of_lookup. destruct Hn as [i Hi]. f_equal. apply first_pages_all.
  destruct (more pages r n) eqn:Em; [|done]. pose proof (positions_intro _ _ _ _ Hi Em) as Hx. rewrite E in Hx. by apply not_elem_of_nil in Hx.
Qed.

Lemma points_answered l r results : Forall2 (fun t res => forall kind' n i, t = all_tokens kind' n i -> page_at (all_pages kind') (all_tokens kind') n i (br_references res) (br_continuation res)) (map snd (points l r)) results ->
  Forall2 (fun p => references_page p.2 r) l results.
Proof using Hok.
  unfold points. rewrite List.map_map, Forall2_map_l. intros H. eapply Forall2_impl; [exact H|]. intros p res Hp. by apply Hp.
Qed.

Lemma points_length l r : length (points l r) = length l.
Proof using. apply List.length_map. Qed.

Lemma points_fst l r : map fst (points l r) = map fst l.
Proof using. unfold points. rewrite List.map_map. by apply List.map_ext. Qed.

Lemma browse_rounds_step fuel entries results : entries ≠ [] ->
  browse_rounds (V := V) (S fuel) entries results =
    obind (browse_with_retry (BrowseNext (map snd entries))) (fun next_results =>
      _ <- count "browse_next_calls" 1;;
      if negb (Nat.eqb (length next_results) (length entries)) then Ret (Err length_mismatch)
      else
        _ <- count "browse_next_references" (total_references next_results);;
        browse_rounds fuel (omap continue_from (zip (map fst entries) next_results)) (fold_left extend_references (zip (map fst entries) next_results) results)).
Proof using. by destruct entries. Qed.

Lemma browse_rounds_ok fuel batch r :
  (forall n, n ∈ batch -> (length (pages n) <= r + fuel)%nat) ->
  holds browse_contract (browse_rounds fuel (points (positions batch r) r) (references_read batch r))
    (fun o => match o with Ok refs => refs = map (fun n => (n, List.concat (pages n))) batch | Err e => failed e end).
Proof using Hok.
  revert r. induction fuel as [|fuel IH]; intros r Hlen; (destruct (positions batch r) as [|p l] eqn:E;
    [cbn [points map browse_rounds]; by apply holds_ret, references_read_all|]).
  { exfalso. assert (p ∈ positions batch r) as [Hp Hm]%elem_of_positions by (rewrite E; by left).
    apply Nat.ltb_lt in Hm. assert (p.2 ∈ batch) as Hx by (apply list_elem_of_lookup; by exists p.1). specialize (Hlen _ Hx). lia. }
  rewrite browse_rounds_step, <-E by done.
  eapply holds_obind; [by eapply browse_with_retry_ok| |done]. intros results Hres%points_answered. apply holds_then.
  rewrite points_length, <-(Forall2_length _ _ _ Hres), Nat.eqb_refl. cbn [negb]. apply holds_then. rewrite points_fst.
  rewrite references_read_next, (browse_next_points _ r), positions_next by done. apply IH. intros n Hn. specialize (Hlen n Hn). lia.
Qed.

Lemma positions_all batch : positions batch 0 = imap pair batch.
Proof using Hok.
  unfold positions. generalize (imap pair batch). intros l. induction l as [|p l IH]; [done|]. cbn [List.filter]. by rewrite (more_first _ _ Hok), IH.
Qed.

Lemma imap_pair_snd (batch : list string) : map snd (imap pair batch) = batch.
Proof using. apply list_eq. intros j. rewrite list_lookup_fmap, list_lookup_imap. by destruct (batch !! j). Qed.

Lemma imap_zip_positions (batch : list string) (results : list BrowseResult) :
  length batch = length results -> imap (fun i r => (i, r.2)) (zip batch results) = zip (map fst (imap pair batch)) results.
Proof using.
  intros Hlen. apply list_eq. intros j. rewrite list_lookup_imap, !lookup_zip_with, list_lookup_fmap, list_lookup_imap.
  destruct (batch !! j); [|done]. by destruct (results !! j).
Qed.

Lemma browse_first_points batch results : Forall2 (fun n => references_page n 0) batch results ->
  omap continue_from (imap (fun i r => (i, r.2)) (zip batch results)) = points (positions batch 1) 1.
Proof using Hok.
  intros Hres. rewrite imap_zip_positions by (by eapply Forall2_length). rewrite (browse_next_points (imap pair batch) 0), <-positions_all, positions_next; [done|].
  by rewrite <-(imap_pair_snd batch), Forall2_map_l in Hres.
Qed.

Lemma browse_first_references batch results : Forall2 (fun n => references_page n 0) batch results ->
  map (fun r => (r.1, br_references r.2)) (zip batch results) = references_read batch 1.
Proof using.
  induction 1 as [|n res batch results Hp _ IH]; [done|]. cbn [zip zip_with map references_read]. rewrite IH. cbn [fst snd]. do 2 f_equal.
  symmetry. by apply (first_pages_step pages token 0) in Hp.
Qed.

Lemma browse_batch_ok fuel batch :
  (forall n, n ∈ batch -> (length (pages n) <= S fuel)%nat) ->
  holds browse_contract (browse_batch fuel kind batch)
    (fun o => match o with Ok refs => refs = map (fun n => (n, List.concat (pages n))) batch | Err e => failed e end).
Proof using Hok.
  intros Hlen. unfold browse_batch. apply holds_then, holds_then.
  eapply holds_obind; [apply (browse_with_retry_ok _ (fun n => references_page n 0)); intros o Ho; exact Ho| |done]. intros results Hres. apply holds_then.
  unfold zip_strict. rewrite (Forall2_length _ _ _ Hres), Nat.eqb_refl. cbn [obind pbind].
  rewrite browse_first_points, browse_first_references by done. by apply (browse_rounds_ok fuel batch 1).
Qed.
End References.

(** C17. Browsing gets all references: against a server that cuts the references of each node into any pages, with a
    continuation point for the next one, the answer has every node of the request, in order and as often as it was asked
    for, with exactly its references, in as many rounds as the longest list has further pages, however the limit cuts the
    request. The browse fails only if the server does. *)
Theorem browse_complete {V} pages token fails fuel nodes max_per_browse kind :
  pages_ok (pages kind) (token kind) -> (forall n, n ∈ nodes -> (length (pages kind n) <= S fuel)%nat) ->
  holds (browse_contract (V := V) pages token fails) (browse_references_descriptions fuel nodes max_per_browse kind)
    (fun o => match o with Ok refs => refs = map (fun n => (n, List.concat (pages kind n))) nodes | Err e => real e /\ fails end).
Proof.
  intros Hok Hlen. unfold browse_references_descriptions.
  eapply holds_mono; [apply (holds_extend_all _ (fun e => real e /\ fails) (fun n ref => ref = (n, List.concat (pages kind n))))|].
  - intros batch Hb. eapply holds_mono; [apply (browse_batch_ok _ token kind fails Hok)|].
    + intros n Hn. apply Hlen. eapply (elem_of_chunk (Nat.max 1 max_per_browse)); [lia|done|done].
    + intros [refs|e]; [|done]. intros ->. cbn [answered]. clear. induction batch; cbn [map]; by constructor.
  - rewrite concat_chunked by lia. intros [refs|e]; [|done]. cbn [answered]. intros H. clear -H. induction H as [|n ref ns refs -> _ IH]; [done|].
    cbn [map]. by rewrite <-IH.
Qed.

(** ** A server *)

(** Tokens that name the node and, in unary, the page. *)
Fixpoint sample_token (n : string) (i : nat) : string := match i with O => "-" +:+ n | S i' => "+" +:+ sample_token n i' end.

Definition sample_value (z : Z) : DataValue (V := Z) := {| dv_status := None; dv_value := Some z; dv_source_timestamp := None; dv_server_timestamp := None |}.

Definition sample_history (n : string) : list (list (DataValue (V := Z))) :=
  if bool_decide (n = "a") then [[sample_value 1; sample_value 2]; []; [sample_value 3]] else [[sample_value 4]].

Definition sample_reference (n : string) : ReferenceDescription := {| rd_node_id := n; rd_reference_type_id := "i=47" |}.

Definition sample_references (n : string) : list (list ReferenceDescription) :=
  if bool_decide (n = "a") then [[sample_reference "x"]; [sample_reference "y"; sample_reference "z"]] else [[]].

Lemma sample_token_inj n i m j : sample_token n i = sample_token m j -> n = m /\ i = j.
Proof. revert j. induction i as [|i IH]; intros [|j] H; cbn in H; try done; injection H as H; [done|]. by destruct (IH j H) as [-> ->]. Qed.

Lemma sample_history_ok : pages_ok sample_history sample_token.
Proof. split; [by intros n []|apply sample_token_inj|]. intros n. unfold sample_history. by case_bool_decide. Qed.

Lemma sample_references_ok : pages_ok sample_references sample_token.
Proof. split; [by intros n []|apply sample_token_inj|]. intros n. unfold sample_references. by case_bool_decide. Qed.

Definition sample_page {D R} (mk : list D -> string -> R) (pages : string -> list (list D)) (n : string) (i : nat) : R :=
  mk (default [] (pages n !! i)) (if Nat.ltb (S i) (length (pages n)) then sample_token n (S i) else ε).

(** The page of a token, of the few that there are. *)
Definition sample_decode (t : string) : string * nat :=
  default (ε, 0%nat) (head (List.filter (fun p => bool_decide (sample_token p.1 p.2 = t)) (list_prod ["a"; "b"] [1%nat; 2%nat]))).

Definition sample_too_many : error := Error (UaStatusCodeError "BadTooManyOperations") "BadTooManyOperations".

(** It takes one node per read of histories. *)
Definition sample_env R (c : request (V := Z) R) (w : unit) (s : client) : unit * client * R :=
  (w, s,
   match c in request R return R with
   | HistoryRead _ items =>
       let page n i := sample_page (fun d t => {| hr_check := None; hr_data := Some d; hr_continuation := t |}) sample_history n i in
       if Nat.ltb 1 (length items) then Err sample_too_many
       else Ok (map (fun item => page item.1 (match item.2 with Some t => (sample_decode t).2 | None => 0%nat end)) items)
   | Browse _ nodes =>
       Ok (map (fun n => sample_page (fun d t => {| br_status := None; br_references := d; br_continuation := t |}) sample_references n 0) nodes)
   | BrowseNext points =>
       Ok (map (fun t => sample_page (fun d t => {| br_status := None; br_references := d; br_continuation := t |}) sample_references
         (sample_decode t).1 (sample_decode t).2) points)
   | ReadValues nodes => Err sample_too_many
   | ReadAttributes _ _ => Err sample_too_many
   | ReadPairs _ => Err sample_too_many
   | ReadDataValue _ => Err sample_too_many
   | ReadNode _ _ => Err sample_too_many
   | ReadVariantType _ => Err sample_too_many
   | ReadBack _ => Err sample_too_many
   | WriteNode _ _ => Err sample_too_many
   | HistoryUpdate _ _ => Err sample_too_many
   | GetChildren _ => Err sample_too_many
   | GetNamespaceArray => Err sample_too_many
   | ReadNodeClass _ => Err sample_too_many
   | ReadTypeDefinition _ => Err sample_too_many
   | IsConnected => true
   | NotifyTransportLost => tt
   | WaitConnected => true
   end).

Definition sample_client : client := {| cl_metrics := ∅; cl_limits := None; cl_history_update_supported := None |}.

Example histories_run :
  (run sample_env (read_history_values (fun _ => None) Some 2 {| tr_start := None; tr_end := None |} ["a"; "b"]) tt sample_client).2 =
  Ok (Dict [("a", [sample_value 1; sample_value 2; sample_value 3]); ("b", [sample_value 4])]).
Proof. vm_compute. reflexivity. Qed.

Example references_run :
  (run sample_env (browse_references_descriptions 1 ["a"; "b"; "a"] 2 {| bk_reference_type := 33; bk_inverse := false; bk_subtypes := true |}) tt sample_client).2 =
  Ok [("a", [sample_reference "x"; sample_reference "y"; sample_reference "z"]); ("b", []);
      ("a", [sample_reference "x"; sample_reference "y"; sample_reference "z"])].
Proof. vm_compute. reflexivity. Qed.

Lemma history_complete_witness :
  (pages_ok sample_history sample_token /\ NoDup ["a"; "b"] /\ forall n, n ∈ ["a"; "b"] -> (length (sample_history n) <= 3)%nat) /\
  holds (history_contract sample_history sample_token False) (read_history_values (fun _ => None) Some 2 {| tr_start := None; tr_end := None |} ["a"; "b"])
    (fun o => match o with
     | Ok values => forall n, values !! n = if bool_decide (n ∈ ["a"; "b"]) then Some (List.concat (sample_history n)) else None
     | Err e => real e /\ False
     end).
Proof.
  assert (H1 : NoDup ["a"; "b"]) by (by apply (bool_decide_unpack _); vm_compute).
  assert (H2 : forall n, n ∈ ["a"; "b"] -> (length (sample_history n) <= 3)%nat) by (intros n _; unfold sample_history; case_bool_decide; cbn; lia).
  split; [by split_and!; [apply sample_history_ok|..]|].
  pose proof (history_complete sample_history sample_token False (fun _ => None) Some 2 {| tr_start := None; tr_end := None |} ["a"; "b"] sample_history_ok H1 H2) as H. exact H.
Defined.

Lemma browse_complete_witness :
  (pages_ok sample_references sample_token /\ forall n, n ∈ ["a"; "b"; "a"] -> (length (sample_references n) <= 2)%nat) /\
  holds (browse_contract (V := Z) (fun _ => sample_references) (fun _ => sample_token) False)
    (browse_references_descriptions 1 ["a"; "b"; "a"] 2 {| bk_reference_type := 33; bk_inverse := false; bk_subtypes := true |})
    (fun o => match o with Ok refs => refs = map (fun n => (n, List.concat (sample_references n))) ["a"; "b"; "a"] | Err e => real e /\ False end).
Proof.
  assert (H2 : forall n, n ∈ ["a"; "b"; "a"] -> (length (sample_references n) <= 2)%nat) by (intros n _; unfold sample_references; case_bool_decide; cbn; lia).
  split; [split; [apply sample_references_ok|exact H2]|].
  pose proof (browse_complete (V := Z) (fun _ => sample_references) (fun _ => sample_token) False 1 ["a"; "b"; "a"] 2 {| bk_reference_type := 33; bk_inverse := false; bk_subtypes := true |}
    sample_references_ok H2) as H. exact H.
Defined.
End OpcuaReadsSpec.
