(* ===== verification/UaValues.v ===== *)
(** Values of asyncua as the REST interface shows and takes them: their JSON ([_to_json_safe_value] and
    [_format_utc_timestamp] of [api/v1/common_helpers.py]), base64 both ways, and times.

    A float is the text that [repr] makes of it; a time is a number of microseconds since 1970, in UTC. Base64 and ISO 8601
    are those of the standard library. *)

From S2P Require Export ModelTypes.
From S2P Require Export Json.

Module UaValues.
Export Json.

(** ** Values *)

Inductive ua_value :=
  | UNone
  | UBool (b : bool)
  | UInt (z : Z)
  | UFloat (text : string)
  | UStr (s : string)
  | UDateTime (t : Z)
  | UBytes (l : list Z)
  | UList (l : list ua_value)
  | UExtension (type_id body : ua_value)
  | UDict (items : list (string * ua_value))
  | UStruct (cls : string) (fields : list (string * ua_value)).

Inductive Quality := Good | Uncertain | Bad | GoodNoData.

#[export] Instance Quality_eq_dec : EqDecision Quality.
Proof. solve_decision. Defined.

(** [QualifiedName.Name]. *)
Definition browse_name_of (v : ua_value) : option string :=
  match v with UStruct _ fields => match items_lookup "Name" fields with Some (UStr s) => Some s | _ => None end | _ => None end.

(** [isinstance(v, int)]. *)
Definition int_of (v : ua_value) : option Z := match v with UInt z => Some z | UBool b => Some (if b then 1 else 0) | _ => None end.

(** ** Base64 *)

Definition base64_char (x : Z) : ascii :=
  if x <? 26 then chr (65 + x) else if x <? 52 then chr (71 + x) else if x <? 62 then chr (x - 4) else if x =? 62 then "+"%char else "/"%char.

Fixpoint base64_chars (l : list Z) : list ascii :=
  match l with
  | a :: b :: c :: l' =>
      base64_char (a / 4) :: base64_char (a mod 4 * 16 + b / 16) :: base64_char (b mod 16 * 4 + c / 64) :: base64_char (c mod 64) :: base64_chars l'
  | [a; b] => [base64_char (a / 4); base64_char (a mod 4 * 16 + b / 16); base64_char (b mod 16 * 4); "="%char]
  | [a] => [base64_char (a / 4); base64_char (a mod 4 * 16); "="%char; "="%char]
  | [] => []
  end.

Definition b64encode (l : list Z) : string := of_chars (base64_chars l).

Definition base64_digit (c : ascii) : option Z :=
  let x := code c in
  if between 65 90 x then Some (x - 65) else if between 97 122 x then Some (x - 71) else if between 48 57 x then Some (x + 4)
  else if x =? 43 then Some 62 else if x =? 47 then Some 63 else None.

(** Strict: nothing but digits, and padding at the end only. *)
Fixpoint base64_bytes (l : list ascii) : option (list Z) :=
  match l with
  | [] => Some []
  | a :: b :: c :: d :: l' =>
      x ← base64_digit a; y ← base64_digit b;
      if ceqb d "="%char then
        match l' with
        | [] => if ceqb c "="%char then Some [x * 4 + y / 16] else z ← base64_digit c; Some [x * 4 + y / 16; y mod 16 * 16 + z / 4]
        | _ => None
        end
      else
        z ← base64_digit c; w ← base64_digit d; rest ← base64_bytes l';
        Some (x * 4 + y / 16 :: y mod 16 * 16 + z / 4 :: z mod 4 * 64 + w :: rest)
  | _ => None
  end.

(** [base64.b64decode(s, validate=True)]. *)
Definition b64decode (s : string) : option (list Z) := base64_bytes (chars s).

Example b64_hello : b64encode [72; 101; 108; 108; 111] = "SGVsbG8=". Proof. reflexivity. Qed.
Example b64_hello_back : b64decode "SGVsbG8=" = Some [72; 101; 108; 108; 111]. Proof. reflexivity. Qed.
Example b64_strict : map b64decode ["SGVsbG8"; "SGVs=bG8"; "SGVsbG8=="; "SG Vs"] = [None; None; None; None]. Proof. reflexivity. Qed.

(** ** Dates *)

(** The year, the month and the day of a number of days since 1970-01-01. *)
Definition civil_date (days : Z) : Z * Z * Z :=
  let z := days + 719468 in
  let era := z / 146097 in
  let doe := z mod 146097 in
  let yoe := (doe - doe / 1460 + doe / 36524 - doe / 146096) / 365 in
  let doy := doe - (365 * yoe + yoe / 4 - yoe / 100) in
  let mp := (5 * doy + 2) / 153 in
  let m := if mp <? 10 then mp + 3 else mp - 9 in
  (yoe + era * 400 + (if m <=? 2 then 1 else 0), m, doy - (153 * mp + 2) / 5 + 1).

(** A number with leading zeros. *)
Definition padded (width : nat) (n : Z) : list ascii := let l := to_digits 10 n in List.repeat "0"%char (width - length l) ++ l.

Definition seconds_text (t : Z) : list ascii :=
  let s := t / 1000000 in
  let '(y, m, d) := civil_date (s / 86400) in
  padded 4 y ++ "-"%char :: padded 2 m ++ "-"%char :: padded 2 d ++ "T"%char ::
  padded 2 (s mod 86400 / 3600) ++ ":"%char :: padded 2 (s mod 3600 / 60) ++ ":"%char :: padded 2 (s mod 60).

(** [isoformat] leaves out the microseconds when there are none. *)
Definition format_utc_timestamp (t : Z) : string :=
  of_chars (seconds_text t ++ (if t mod 1000000 =? 0 then [] else "."%char :: padded 6 (t mod 1000000)) ++ ["Z"%char]).

Example format_epoch : format_utc_timestamp 0 = "1970-01-01T00:00:00Z". Proof. reflexivity. Qed.
Example format_leap_day : format_utc_timestamp 1709210096000789 = "2024-02-29T12:34:56.000789Z". Proof. reflexivity. Qed.

(** ** JSON *)

Definition is_filtered_structure_field (name : string) : bool := bool_decide (lower (strip name) = "encoding").

(** [normalize_opcua_value] on a dataclass: a scalar argument has no dimensions. *)
Definition drops_dimensions (cls : string) (fields : list (string * ua_value)) : bool :=
  (bool_decide (cls = "Argument") && match items_lookup "ValueRank" fields with Some (UInt rank) => rank <=? 0 | _ => false end)%bool.

Fixpoint to_json_safe_value (v : ua_value) : json :=
  match v with
  | UNone => JNull
  | UBool b => JBool b
  | UInt z => JInt z
  | UFloat text => JFloat text
  | UStr s => JStr s
  | UDateTime t => JStr (format_utc_timestamp t)
  | UBytes l => JStr (b64encode l)
  | UExtension _ UNone => JNull
  | UExtension type_id body => JObj [("TypeId", to_json_safe_value type_id); ("Body", to_json_safe_value body)]
  | UStruct cls fields =>
      JObj (omap (fun f =>
        if is_filtered_structure_field f.1 then None
        else Some (f.1, if (drops_dimensions cls fields && bool_decide (f.1 = "ArrayDimensions"))%bool then JNull else to_json_safe_value f.2)) fields)
  | UDict items => JObj (map (fun p => (p.1, to_json_safe_value p.2)) items)
  | UList l => JArr (map to_json_safe_value l)
  end.

(** The value that a JSON document is to Python. *)
Fixpoint of_json (v : json) : ua_value :=
  match v with
  | JNull => UNone
  | JBool b => UBool b
  | JInt z => UInt z
  | JFloat text => UFloat text
  | JStr s => UStr s
  | JArr l => UList (map of_json l)
  | JObj l => UDict (map (fun p => (p.1, of_json p.2)) l)
  end.

Lemma json_safe_of_json v : to_json_safe_value (of_json v) = v.
Proof.
  induction v as [| | | | |l IH|l IH] using json_rect'; cbn; try done; f_equal.
  - induction IH as [|x l Hx _ IH]; cbn; by f_equal.
  - induction IH as [|[k x] l Hx _ IH]; cbn in *; by rewrite ?Hx, ?IH.
Qed.

(** ** Base64 both ways *)

Definition byte (x : Z) : Prop := 0 <= x < 256.

Lemma base64_digit_char x : 0 <= x < 64 -> base64_digit (base64_char x) = Some x /\ ceqb (base64_char x) "="%char = false.
Proof.
  intros Hx. assert (H : forall n, (n < 64)%nat -> base64_digit (base64_char (Z.of_nat n)) = Some (Z.of_nat n) /\ ceqb (base64_char (Z.of_nat n)) "="%char = false).
  { intros n Hn. do 64 (destruct n as [|n]; [by vm_compute|]). lia. }
  rewrite <-(Z2Nat.id x) by lia. apply H. lia.
Qed.

Lemma split_digit m h l : 0 <= l < m -> (h * m + l) / m = h /\ (h * m + l) mod m = l.
Proof. intros Hl. rewrite Z.add_comm, Z.div_add, Z.mod_add, Z.div_small, Z.mod_small by lia. lia. Qed.

Lemma parts m k x : 0 < m -> 0 <= x < m * k -> 0 <= x / m < k /\ 0 <= x mod m < m /\ x / m * m + x mod m = x.
Proof.
  intros Hm Hx. pose proof (Z.mod_pos_bound x m Hm). pose proof (Z.div_mod x m ltac:(lia)). split_and!; try lia.
  - apply Z.div_pos; lia.
  - apply Z.div_lt_upper_bound; lia.
Qed.

Ltac digit e := rewrite (proj1 (base64_digit_char e ltac:(lia))); cbn [mbind option_bind].

Lemma base64_chars_bytes l : Forall byte l -> base64_bytes (base64_chars l) = Some l.
Proof.
  remember (length l) as n eqn:En. assert (Hl : (length l <= n)%nat) by lia. clear En. revert l Hl.
  induction n as [|n IH]; intros [|a [|b [|c l]]] Hl Hb; try done; cbn [length] in Hl; try lia.
  - apply Forall_cons in Hb as [Ha _]. unfold byte in *. destruct (parts 4 64 a) as (? & ? & Ea); [lia..|].
    cbn [base64_chars base64_bytes]. digit (a / 4). digit (a mod 4 * 16). change (ceqb "="%char "="%char) with true. cbn iota.
    pose proof (split_digit 16 (a mod 4) 0 ltac:(lia)) as [E _]. rewrite Z.add_0_r in E. by rewrite E, Ea.
  - apply Forall_cons in Hb as [Ha Hb]. apply Forall_cons in Hb as [Hb _]. unfold byte in *.
    destruct (parts 4 64 a) as (? & ? & Ea), (parts 16 16 b) as (? & ? & Eb); [lia..|].
    cbn [base64_chars base64_bytes]. digit (a / 4). digit (a mod 4 * 16 + b / 16). change (ceqb "="%char "="%char) with true. cbn iota.
    rewrite (proj2 (base64_digit_char (b mod 16 * 4) ltac:(lia))). digit (b mod 16 * 4).
    destruct (split_digit 16 (a mod 4) (b / 16)) as [-> ->]; [lia|]. pose proof (split_digit 4 (b mod 16) 0 ltac:(lia)) as [E _]. rewrite Z.add_0_r in E.
    by rewrite E, Ea, Eb.
  - apply Forall_cons in Hb as [Ha Hb]. apply Forall_cons in Hb as [Hb Hc]. apply Forall_cons in Hc as [Hc Hr]. unfold byte in Ha, Hb, Hc.
    destruct (parts 4 64 a) as (? & ? & Ea), (parts 16 16 b) as (? & ? & Eb), (parts 64 4 c) as (? & ? & Ec); [lia..|].
    cbn [base64_chars base64_bytes]. digit (a / 4). digit (a mod 4 * 16 + b / 16). rewrite (proj2 (base64_digit_char (c mod 64) ltac:(lia))). cbn iota.
    digit (b mod 16 * 4 + c / 64). digit (c mod 64). rewrite IH by (done || lia). cbn [mbind option_bind].
    destruct (split_digit 16 (a mod 4) (b / 16)) as [-> ->]; [lia|]. destruct (split_digit 4 (b mod 16) (c / 64)) as [-> ->]; [lia|].
    by rewrite Ea, Eb, Ec.
Qed.

(** The text of a ByteString that a read shows decodes to the same bytes. *)
Lemma b64_roundtrip l : Forall byte l -> b64decode (b64encode l) = Some l.
Proof. intros Hl. unfold b64decode, b64encode. rewrite chars_of_chars. by apply base64_chars_bytes. Qed.
End UaValues.

(** ** The object types that the client reads from the server ([domain/ports/opcua.py]) and those that the interfaces answer
    with ([api/v1/contracts.py]). *)
Module ObjectTypes.
Export UaValues Json.

Record OpcUaObjectTypeMemberInfo := {
  om_node_id : string;
  om_browse_name : string;
  om_display_name : string;
  om_description : option string;
  om_node_class : string;
  om_data_type : option string;
  om_modelling_rule : option string;
  om_value : ua_value;
  om_schema_value : ua_value;
  om_variant_type : option string;
  om_is_array : option bool;
  om_value_rank : option Z;
  om_array_dimensions : option (list Z);
  om_parent_node_id : option string;
  om_type_definition_id : option string;
  om_reference_type_id : option string;
  om_reference_type : option string;
  om_reference_order : option Z;
}.

Record OpcUaObjectTypeInfo := {
  ot_node_id : string;
  ot_parent_node_id : option string;
  ot_browse_name : string;
  ot_display_name : string;
  ot_description : option string;
  ot_is_abstract : option bool;
  ot_properties : dict string (option string);
  ot_members : list OpcUaObjectTypeMemberInfo;
}.

(** A type without members. *)
Definition plain_type (node_id browse_name display_name : string) : OpcUaObjectTypeInfo :=
  {| ot_node_id := node_id; ot_parent_node_id := None; ot_browse_name := browse_name; ot_display_name := display_name; ot_description := None;
     ot_is_abstract := None; ot_properties := ∅; ot_members := [] |}.

Record ObjectTypeResponse := {
  otr_element_id : string;
  otr_display_name : string;
  otr_namespace_uri : string;
  otr_source_type_id : string;
  otr_version : option string;
  otr_schema : json;
  otr_related : option json;
}.
End ObjectTypes.
