(* ===== verification/AddressSpace.v ===== *)
(** The address space of a server as the client browses it ([browse_tree] and the reads below it, in
    [infrastructure/opcua/client.py]): roots, a traversal over hierarchical references in batches, the attributes of every
    node with a fallback to single reads, and its references.

    The stack of the code is worked off from its front, so the traversal is breadth-first. The entries of a batch are
    different nodes, so the tables that the code keys by node ids are lists in their order. A name whose text is [None] is
    the empty text; the builder treats both alike. *)

From S2P Require Export ModelTypes UaValues OpcuaReads.

Module AddressSpace.
Export UaValues OpcuaReads.
Local Open Scope async_scope.

(** [int()], [to_string()] and [str()] of objects of asyncua; [None] for a [TypeError] or [ValueError], and for an object
    without the method. *)
Record UaObjects := { ua_int : ua_value -> option Z; ua_to_string : ua_value -> option string; ua_text : ua_value -> string }.

#[export] Instance AttributeId_eq_dec : EqDecision AttributeId.
Proof. solve_decision. Defined.

Definition NODE_CLASS : AttributeId := att_other 2.
Definition DISPLAY_NAME : AttributeId := att_other 4.
Definition DESCRIPTION : AttributeId := att_other 5.
Definition EVENT_NOTIFIER : AttributeId := att_other 12.
Definition DATA_TYPE : AttributeId := att_other 14.
Definition EXECUTABLE : AttributeId := att_other 21.
Definition USER_EXECUTABLE : AttributeId := att_other 22.

Definition NODE_INFO_ATTRIBUTES : list AttributeId :=
  [att_browse_name; DISPLAY_NAME; NODE_CLASS; DESCRIPTION; DATA_TYPE; ACCESS_LEVEL; USER_ACCESS_LEVEL; EVENT_NOTIFIER; EXECUTABLE; USER_EXECUTABLE].

Definition node_info_class_attributes (node_class : string) : list AttributeId :=
  default [] (items_lookup node_class
    [("Variable", [DATA_TYPE; ACCESS_LEVEL; USER_ACCESS_LEVEL]); ("Object", [EVENT_NOTIFIER]); ("View", [EVENT_NOTIFIER]);
     ("Method", [EXECUTABLE; USER_EXECUTABLE])]).

Definition node_class_names : list (Z * string) :=
  [(0, "Unspecified"); (1, "Object"); (2, "Variable"); (4, "Method"); (8, "ObjectType"); (16, "VariableType"); (32, "ReferenceType"); (64, "DataType");
   (128, "View")].

Definition normalize_type_definition_id (type_definition_id : string) : option string :=
  if negb (truthy type_definition_id) then None
  else
    let normalized := strip type_definition_id in
    if bool_decide (normalized ∈ ["i=0"; "ns=0;i=0"; "nsu=http://opcfoundation.org/UA/;i=0"]) then None else Some normalized.

(** [bool(value)]. *)
Definition truthy_value (v : ua_value) : bool :=
  match v with
  | UNone => false
  | UBool b => b
  | UInt z => negb (z =? 0)
  | UFloat text => negb (bool_decide (text ∈ ["0.0"; "-0.0"]))
  | UStr s => truthy s
  | UBytes l => negb (Nat.eqb (length l) 0)
  | UList l => negb (Nat.eqb (length l) 0)
  | UDict items => negb (Nat.eqb (length items) 0)
  | UDateTime _ | UExtension _ _ | UStruct _ _ => true
  end.

(** An entry: a node, and the node below which it was found. *)
Abbreviation Entry := (string * option string)%type.

Section Client.
Context (ua : UaObjects).
Context (browse_name_of : ua_value -> option string) (int_of : ua_value -> option Z).

Abbreviation method A := (prog client (request (V := ua_value)) (outcome error A)).
Abbreviation DataValue := (DataValue (V := ua_value)).

(** ** Attributes of a node *)

Definition attribute_error : error := Error OtherError "AttributeError".

(** The attributes of a node, in the order of [NODE_INFO_ATTRIBUTES]; an attribute that is [None] is none. *)
Definition node_attribute (values : list DataValue) (attr : AttributeId) : option ua_value :=
  match items_lookup attr (zip NODE_INFO_ATTRIBUTES values) ≫= extract_attribute_value with
  | Some UNone => None
  | v => v
  end.

(** [getattr(value, name, None)]. *)
Definition field (name : string) (v : ua_value) : option ua_value :=
  match v with UStruct _ fields => items_lookup name fields | _ => None end.

Definition str_field (name : string) (v : ua_value) : option string :=
  match field name v with Some (UStr s) => Some s | _ => None end.

Definition int_of_value (v : ua_value) : option Z :=
  match v with UInt z => Some z | UBool b => Some (if b then 1 else 0) | _ => ua_int ua v end.

Definition coerce_node_class (v : option ua_value) : option string :=
  v ← v; z ← int_of_value v; items_lookup z node_class_names.

Definition coerce_access_level (v : option ua_value) : option Z := v ← v; int_of_value v.

Definition extract_class_node_info_attribute (node_class : string) (values : list DataValue) (attr : AttributeId) : option ua_value :=
  if bool_decide (attr ∈ node_info_class_attributes node_class) then node_attribute values attr else None.

Definition bool_of (v : option ua_value) : option bool := match v with Some (UBool b) => Some b | _ => None end.

Definition description_of (values : list DataValue) : option string :=
  d ← node_attribute values DESCRIPTION; text ← str_field "Text" d; if truthy (strip text) then Some text else None.

Definition node_info (node : string) (parent : option string) (browse_name display_name node_class : string) (values : list DataValue)
    (type_definition_id : option string) : OpcUaNodeInfo :=
  let attr := extract_class_node_info_attribute node_class values in
  {| ni_node_id := node; ni_parent_node_id := parent; ni_browse_name := browse_name; ni_display_name := display_name; ni_node_class := node_class;
     ni_data_type := (fun v => default (ua_text ua v) (ua_to_string ua v)) <$> attr DATA_TYPE;
     ni_type_definition_id := type_definition_id;
     ni_event_notifier := match attr EVENT_NOTIFIER with Some v => truthy_value v | None => false end;
     ni_outgoing_references := []; ni_description := description_of values;
     ni_access_level := coerce_access_level (attr ACCESS_LEVEL); ni_user_access_level := coerce_access_level (attr USER_ACCESS_LEVEL);
     ni_executable := bool_of (attr EXECUTABLE); ni_user_executable := bool_of (attr USER_EXECUTABLE) |}.

Definition has_type_definition (node_class : string) : bool := bool_decide (node_class = "Object" \/ node_class = "Variable").

(** [value.Name] and [value.Text]: an exception for a value without the attribute. *)
Definition text_of_name (name : string) (v : ua_value) : outcome error string :=
  match field name v with Some (UStr s) => Ok s | Some UNone => Ok ε | _ => Err attribute_error end.

Definition read_node_info (node : string) (parent : option string) : method OpcUaNodeInfo :=
  obind (read_attribute_pairs browse_name_of int_of (map (pair node) NODE_INFO_ATTRIBUTES)) (fun values =>
  obind (Ret (zip_strict NODE_INFO_ATTRIBUTES values)) (fun _ =>
  match node_attribute values att_browse_name, node_attribute values DISPLAY_NAME with
  | Some browse_name, Some display_name =>
      match coerce_node_class (node_attribute values NODE_CLASS) with
      | None => Ret (Err (value_error ("Cannot read node class for OPC UA node " +:+ node)))
      | Some node_class =>
          type_definition <- (if has_type_definition node_class then
                                r <- ask (ReadTypeDefinition node);;
                                Ret (match r with Ok t => normalize_type_definition_id t | Err _ => None end)
                              else Ret None);;
          Ret (name ← text_of_name "Name" browse_name; text ← text_of_name "Text" display_name;
               Ok (node_info node parent name text node_class values type_definition))
      end
  | _, _ => Ret (Err (value_error ("Cannot read required node names for OPC UA node " +:+ node)))
  end)).

(** A node that cannot be read is skipped. *)
Definition read_node_infos_fallback (entries : list Entry) : method (list OpcUaNodeInfo) :=
  obind (gather entries (fun entry =>
    r <- read_node_info entry.1 entry.2;; Ret (Ok (match r with Ok info => Some info | Err _ => None end)))) (fun raw =>
  Ret (Ok (omap id raw))).

(** The browse of one kind of references, forwards. *)
Definition forward (reference_type : Z) : BrowseKind := {| bk_reference_type := reference_type; bk_inverse := false; bk_subtypes := true |}.
Definition REFERENCES : Z := 31.
Definition HIERARCHICAL_REFERENCES : Z := 33.
Definition HAS_TYPE_DEFINITION : Z := 40.

Definition type_definition_entry (entry : string * list ReferenceDescription) : option (string * option string) :=
  match entry.2 with [] => None | ref :: _ => Some (entry.1, normalize_type_definition_id (rd_node_id ref)) end.

Definition read_type_definitions (pages : nat) (nodes : list string) : method (dict string (option string)) :=
  match nodes with
  | [] => Ret (Ok ∅)
  | _ =>
      obind (get_operational_limits browse_name_of int_of) (fun limits =>
      obind (browse_references_descriptions pages nodes (limit_or (max_nodes_per_browse limits) (length nodes)) (forward HAS_TYPE_DEFINITION)) (fun browsed =>
      Ret (Ok (dict_of_list (omap type_definition_entry browsed)))))
  end.

(** The names and the class of a node, if the batch has them. *)
Definition mandatory (values : list DataValue) : option (string * string * string) :=
  node_class ← coerce_node_class (node_attribute values NODE_CLASS);
  browse_name ← node_attribute values att_browse_name ≫= str_field "Name";
  display_name ← node_attribute values DISPLAY_NAME ≫= str_field "Text";
  Some (browse_name, display_name, node_class).

(** One batch of [_read_node_infos_limited]. *)
Definition read_node_infos_batch (pages : nat) (batch : list Entry) : method (list OpcUaNodeInfo) :=
  r <- read_attribute_pairs browse_name_of int_of (flat_map (fun entry => map (pair entry.1) NODE_INFO_ATTRIBUTES) batch);;
  match r with
  | Err _ => read_node_infos_fallback batch
  | Ok attribute_values =>
      let nodes := zip batch (chunked (length NODE_INFO_ATTRIBUTES) attribute_values) in
      let complete := omap (fun n => m ← mandatory n.2; Some (n, m)) nodes in
      let typed := omap (fun c : Entry * list DataValue * (string * string * string) => if has_type_definition c.2.2 then Some c.1.1.1 else None) complete in
      obind (read_type_definitions pages typed) (fun types =>
        let infos := map (fun c : Entry * list DataValue * (string * string * string) =>
          let '((node, parent), values, (browse_name, display_name, node_class)) := c in
          node_info node parent browse_name display_name node_class values (t ← types !! node; t ≫= normalize_type_definition_id)) complete in
        match omap (fun n => match mandatory n.2 with Some _ => None | None => Some n.1 end) nodes with
        | [] => Ret (Ok infos)
        | fallback_entries => obind (read_node_infos_fallback fallback_entries) (fun fallback => Ret (Ok (infos ++ fallback)))
        end)
  end.

Definition read_node_infos_limited (pages : nat) (entries : list Entry) : method (list OpcUaNodeInfo) :=
  match entries with
  | [] => Ret (Ok [])
  | _ =>
      obind (get_operational_limits browse_name_of int_of) (fun limits =>
        let max_nodes := limit_or (max_nodes_per_read limits) (length entries) in
        let batch_size := Nat.max 1 (Nat.min (max_nodes / length NODE_INFO_ATTRIBUTES) (length entries)) in
        extend_all (chunked batch_size entries) (read_node_infos_batch pages))
  end.

(** ** References of a node *)

Fixpoint set_names (names : dict string string) (l : list (string * DataValue)) : outcome error (dict string string) :=
  match l with
  | [] => Ok names
  | (type_id, value) :: l' =>
      match extract_attribute_value value ≫= str_field "Name" with
      | Some browse_name =>
          if truthy browse_name then set_names (<[type_id := browse_name]> names) l'
          else Err (value_error ("Cannot read BrowseName for reference type " +:+ type_id))
      | None => Err (value_error ("Cannot read BrowseName for reference type " +:+ type_id))
      end
  end.

Definition read_reference_type_browse_names (refs : list ReferenceDescription) (names : dict string string) : method (dict string string) :=
  match py_sorted string_leb (List.filter (fun id => negb (dict_mem id names)) (remove_dups (map rd_reference_type_id refs))) with
  | [] => Ret (Ok names)
  | type_ids =>
      obind (read_attribute_batch_limited browse_name_of int_of type_ids att_browse_name) (fun values =>
      Ret (entries ← zip_strict type_ids values; set_names names entries))
  end.

Fixpoint to_reference_infos (names : dict string string) (refs : list ReferenceDescription) : outcome error (list OpcUaReferenceInfo) :=
  match refs with
  | [] => Ok []
  | ref :: refs' =>
      match names !! rd_reference_type_id ref with
      | None => Err (Error OtherError "KeyError")
      | Some browse_name =>
          infos ← to_reference_infos names refs';
          Ok ({| ri_target_node_id := rd_node_id ref; ri_reference_type_id := rd_reference_type_id ref; ri_reference_browse_name := browse_name |} :: infos)
      end
  end.

Definition set_outgoing_references (info : OpcUaNodeInfo) (refs : list OpcUaReferenceInfo) : OpcUaNodeInfo :=
  {| ni_node_id := ni_node_id info; ni_parent_node_id := ni_parent_node_id info; ni_browse_name := ni_browse_name info;
     ni_display_name := ni_display_name info; ni_node_class := ni_node_class info; ni_data_type := ni_data_type info;
     ni_type_definition_id := ni_type_definition_id info; ni_event_notifier := ni_event_notifier info; ni_outgoing_references := refs;
     ni_description := ni_description info; ni_access_level := ni_access_level info; ni_user_access_level := ni_user_access_level info;
     ni_executable := ni_executable info; ni_user_executable := ni_user_executable info |}.

(** The references of the nodes of a batch go to their infos. *)
Fixpoint attach_references (names : dict string string) (all_refs : dict string (list ReferenceDescription)) (infos : list OpcUaNodeInfo)
    : outcome error (list OpcUaNodeInfo) :=
  match infos with
  | [] => Ok []
  | info :: infos' =>
      info' ← match all_refs !! ni_node_id info with
              | Some refs => refs ← to_reference_infos names refs; Ok (set_outgoing_references info refs)
              | None => Ok info
              end;
      rest ← attach_references names all_refs infos'; Ok (info' :: rest)
  end.

(** ** Roots *)

Section Roots.
(** The namespace of a local [ExpandedNodeId] with a URI, and the node id that it is in the namespace with a given index;
    [NodeId.from_string] may raise. *)
Context (from_string : string -> outcome error (option (string * (nat -> string)))).

Definition index_of_uri (uri : string) (namespaces : list string) : option nat := fst <$> list_find (uri =.) namespaces.

Fixpoint resolve_roots (namespaces : list string) (configured : list string) (roots : dict string unit) : method (list string) :=
  match configured with
  | [] => Ret (Ok (dict_keys roots))
  | configured_id :: configured' =>
      obind (Ret (from_string configured_id)) (fun expanded =>
      match expanded with
      | None => Ret (Err (value_error ("Browse root must be a local URI-based ExpandedNodeId: " +:+ configured_id)))
      | Some (uri, node_id_in) =>
          match index_of_uri uri namespaces with
          | None => Ret (Err (value_error ("Browse root namespace is not available: " +:+ configured_id)))
          | Some namespace_index =>
              let node := node_id_in namespace_index in
              r <- ask (ReadNodeClass node);;
              match r with
              | Err e =>
                  Ret (Err (match er_class e with
                            | UaStatusCodeError _ => value_error ("Cannot read configured OPC UA browse root " +:+ configured_id)
                            | _ => e
                            end))
              | Ok node_class =>
                  if bool_decide (node_class = "Object") then resolve_roots namespaces configured' (<[node := tt]> roots)
                  else Ret (Err (value_error ("Configured OPC UA browse root is not an Object: " +:+ configured_id)))
              end
          end
      end)
  end.

Definition OBJECTS_FOLDER : string := "i=85".

Definition resolve_browse_roots (browse_roots : option (list string)) : method (list string) :=
  match browse_roots with
  | None => Ret (Ok [OBJECTS_FOLDER])
  | Some [] => Ret (Err (value_error "Configured OPC UA browse roots must not be empty"))
  | Some configured => obind (ask GetNamespaceArray) (fun namespaces => resolve_roots namespaces configured ∅)
  end.

(** ** The traversal *)

(** The entries of nodes that were not visited before, each once. *)
Fixpoint filter_entries (visited : list string) (entries : list Entry) : list string * list Entry :=
  match entries with
  | [] => (visited, [])
  | entry :: entries' =>
      if bool_decide (entry.1 ∈ visited) then filter_entries visited entries'
      else let '(visited', filtered) := filter_entries (entry.1 :: visited) entries' in (visited', entry :: filtered)
  end.

Definition children_entries (browsed : References) : list Entry :=
  flat_map (fun entry => map (fun ref => (rd_node_id ref, Some entry.1)) entry.2) browsed.

(** One batch: its infos, and the entries of the children. *)
Definition browse_entries (pages max_nodes : nat) (entries : list Entry) (names : dict string string)
    : method (list OpcUaNodeInfo * dict string string * list Entry) :=
  let nodes := map fst entries in
  infos <- read_node_infos_limited pages entries;;
  refs <- browse_references_descriptions pages nodes max_nodes (forward REFERENCES);;
  browsed <- browse_references_descriptions pages nodes max_nodes (forward HIERARCHICAL_REFERENCES);;
  obind (Ret (node_infos ← infos; all_refs ← refs; children ← browsed; Ok (node_infos, all_refs, children))) (fun r =>
    let '(node_infos, all_refs, children) := r in
    obind (read_reference_type_browse_names (flat_map snd all_refs) names) (fun names =>
    Ret (node_infos ← attach_references names (dict_of_list all_refs) node_infos; Ok (node_infos, names, children_entries children)))).

Fixpoint browse_loop (fuel pages max_nodes : nat) (stack : list Entry) (visited : list string) (names : dict string string) (output : list OpcUaNodeInfo)
    : method (list OpcUaNodeInfo) :=
  match stack with
  | [] => Ret (Ok output)
  | _ =>
      match fuel with
      | O => Ret (Err not_finished)
      | S fuel' =>
          let rest := drop max_nodes stack in
          let '(visited, entries) := filter_entries visited (take max_nodes stack) in
          match entries with
          | [] => browse_loop fuel' pages max_nodes rest visited names output
          | _ =>
              obind (browse_entries pages max_nodes entries names) (fun r =>
                let '(infos, names, children) := r in browse_loop fuel' pages max_nodes (rest ++ children) visited names (output ++ infos))
          end
      end
  end.

Definition set_metric (name : string) (n : nat) : prog client (request (V := ua_value)) unit :=
  update (fun c => {| cl_metrics := <[name := n]> (cl_metrics c); cl_limits := cl_limits c; cl_history_update_supported := cl_history_update_supported c |}).

Definition browse_tree (fuel pages : nat) (browse_roots : option (list string)) : method (list OpcUaNodeInfo) :=
  _ <- count "browse_tree_calls" 1;;
  obind (get_operational_limits browse_name_of int_of) (fun limits =>
  obind (resolve_browse_roots browse_roots) (fun roots =>
  obind (browse_loop fuel pages (limit_or (max_nodes_per_browse limits) 128) (map (fun root => (root, None)) roots) [] ∅ []) (fun output =>
    _ <- set_metric "browse_tree_nodes_last" (length output);; Ret (Ok output)))).
End Roots.
End Client.
End AddressSpace.
