(* ===== verification/AddressSpaceSpec.v ===== *)
(** What [browse_tree] of [AddressSpace.v] returns, against every server with a finite address space: one info for each
    node that hierarchical references lead to from the roots, with the attributes and all references of the node, however
    the server limits, pages and refuses. *)

From S2P Require Export AddressSpace OpcuaReadsSpec.
From stdpp Require Import pretty.

Module AddressSpaceSpec.
Import AddressSpace OpcuaReadsSpec.
Local Open Scope async_scope.

(** ** The server *)

Record Server := {
  sv_capacity : nat;
  sv_value : string * AttributeId -> DataValue (V := ua_value);
  sv_pages : BrowseKind -> string -> list (list ReferenceDescription);
  sv_token : BrowseKind -> string -> nat -> string;
  sv_type_definition : string -> outcome error string;
  sv_namespaces : list string;
  sv_node_class : string -> outcome error string;
  sv_fails : Prop;
}.

(** It reads attributes up to its capacity at a time, pages references, and answers single reads; only browsing raises,
    and only if it [sv_fails]. *)
Definition server_contract (sv : Server) R (c : request (V := ua_value) R) (r : R) : Prop :=
  capacity_contract (sv_capacity sv) (sv_value sv) R c r /\ browse_contract (sv_pages sv) (sv_token sv) (sv_fails sv) R c r /\
  match c in request R return R -> Prop with
  | ReadTypeDefinition node => fun r => r = sv_type_definition sv node
  | ReadNodeClass node => fun r => r = sv_node_class sv node
  | GetNamespaceArray => fun r => r = Ok (sv_namespaces sv)
  | _ => fun _ => True
  end r.

Section Browse.
Context (ua : UaObjects) (browse_name_of : ua_value -> option string) (int_of : ua_value -> option Z) (sv : Server).
Context (Hpages : forall kind, pages_ok (sv_pages sv kind) (sv_token sv kind)).
Context (rounds : nat) (Hrounds : forall kind n, (length (sv_pages sv kind n) <= S rounds)%nat).

Abbreviation answers p Q := (holds (server_contract sv) p Q).

(** ** The address space *)

Definition attributes (n : string) : list (DataValue (V := ua_value)) := map (fun a => sv_value sv (n, a)) NODE_INFO_ATTRIBUTES.
#[local] Arguments attributes _ : simpl never.
Definition references (kind : Z) (n : string) : list ReferenceDescription := List.concat (sv_pages sv (forward kind) n).
Definition children (n : string) : list string := map rd_node_id (references HIERARCHICAL_REFERENCES n).

(** The entries that a batch adds. *)
Definition children_of (entries : list Entry) : list Entry := flat_map (fun e => map (fun c => (c, Some e.1)) (children e.1)) entries.

Definition type_definition (n : string) : option string :=
  match references HAS_TYPE_DEFINITION n with
  | ref :: _ => normalize_type_definition_id (rd_node_id ref) ≫= normalize_type_definition_id
  | [] => None
  end.

Definition if_typed (node_class : string) (t : option string) : option string := if has_type_definition node_class then t else None.

(** The info of a node of which a single read finds the names and the class. *)
Definition single_info (n : string) (parent : option string) : option OpcUaNodeInfo :=
  browse_name ← node_attribute (attributes n) att_browse_name;
  display_name ← node_attribute (attributes n) DISPLAY_NAME;
  node_class ← coerce_node_class ua (node_attribute (attributes n) NODE_CLASS);
  match text_of_name "Name" browse_name, text_of_name "Text" display_name with
  | Ok name, Ok text =>
      Some (node_info ua n parent name text node_class (attributes n)
        (if_typed node_class (match sv_type_definition sv n with Ok t => normalize_type_definition_id t | Err _ => None end)))
  | _, _ => None
  end.

(** The info of a node: from the batch if it has both names and the class, else from a single read. *)
Definition info_of (n : string) (parent : option string) : option OpcUaNodeInfo :=
  match mandatory ua (attributes n) with
  | Some (browse_name, display_name, node_class) =>
      Some (node_info ua n parent browse_name display_name node_class (attributes n) (if_typed node_class (type_definition n)))
  | None => single_info n parent
  end.

Definition reference_type_name (id : string) : option string :=
  name ← extract_attribute_value (sv_value sv (id, att_browse_name)) ≫= str_field "Name"; if truthy name then Some name else None.

Definition reference_infos (n : string) : list OpcUaReferenceInfo :=
  map (fun ref => {| ri_target_node_id := rd_node_id ref; ri_reference_type_id := rd_reference_type_id ref;
                     ri_reference_browse_name := default ε (reference_type_name (rd_reference_type_id ref)) |}) (references REFERENCES n).

Definition complete_info (entry : Entry) : option OpcUaNodeInfo :=
  (fun info => set_outgoing_references info (reference_infos (ni_node_id info))) <$> info_of entry.1 entry.2.

Inductive reachable (roots : list string) : string -> Prop :=
  | reachable_root n : n ∈ roots -> reachable roots n
  | reachable_child p n : reachable roots p -> n ∈ children p -> reachable roots n.

(** Where an entry comes from: it is a root, or a child of a node that was found before. *)
Definition origin (roots before : list string) (e : Entry) : Prop :=
  match e.2 with None => e.1 ∈ roots | Some p => p ∈ before /\ e.1 ∈ children p end.

(** Different nodes in the order in which they were found. *)
Definition in_order (roots : list string) (found : list Entry) : Prop :=
  NoDup (map fst found) /\ forall i e, found !! i = Some e -> origin roots (map fst (take i found)) e.

(** The reason for which the browse of a batch may fail. *)
Definition batch_error (nodes : list string) : Prop :=
  sv_fails sv \/ exists n ref, n ∈ nodes /\ ref ∈ references REFERENCES n /\ reference_type_name (rd_reference_type_id ref) = None.

(** ** Lemmas: attributes *)

Lemma pairs_ok pairs : answers (read_attribute_pairs browse_name_of int_of pairs) (fun r => r = Ok (map (sv_value sv) pairs)).
Proof using.
  eapply holds_weaken; [|eapply (holds_mono _ _ _ _ (read_attribute_pairs_ok (sv_capacity sv) (sv_value sv) _ _ _)); apply map_exact]. by intros R c r [H _].
Qed.

Lemma names_ok nodes attr :
  answers (read_attribute_batch_limited browse_name_of int_of nodes attr) (fun r => r = Ok (map (fun n => sv_value sv (n, attr)) nodes)).
Proof using.
  eapply holds_weaken; [|eapply holds_mono; [apply (read_attribute_batch_limited_ok (sv_capacity sv) (sv_value sv))|intros r; apply (map_exact (fun n => sv_value sv (n, attr)))]].
  by intros R c r [H _].
Qed.

Lemma references_ok kind nodes max :
  answers (browse_references_descriptions rounds nodes max (forward kind))
    (fun r => match r with Ok refs => refs = map (fun n => (n, references kind n)) nodes | Err e => real e /\ sv_fails sv end).
Proof using Hpages Hrounds.
  eapply holds_weaken; [|apply (browse_complete (sv_pages sv) (sv_token sv)); [apply Hpages|intros n _; apply Hrounds]]. by intros R c r (_ & H & _).
Qed.

Lemma zip_strict_map {A B} (f : A -> B) l : zip_strict l (map f l) = Ok (map (fun x => (x, f x)) l).
Proof using. unfold zip_strict. rewrite List.length_map, Nat.eqb_refl. f_equal. induction l as [|x l IH]; [done|]. cbn. by rewrite IH. Qed.

Lemma read_node_info_ok n parent :
  answers (read_node_info ua browse_name_of int_of n parent) (fun r => match r with Ok info => single_info n parent = Some info | Err _ => single_info n parent = None end).
Proof using.
  unfold read_node_info, single_info. eapply holds_obind; [apply pairs_ok| |by intros]. intros values E.
  assert (values = attributes n) as -> by (by injection E). unfold attributes at 1. rewrite zip_strict_map. cbn [obind pbind].
  destruct (node_attribute (attributes n) att_browse_name) as [b|]; [|by apply holds_ret].
  destruct (node_attribute (attributes n) DISPLAY_NAME) as [d|]; [|by apply holds_ret]. cbn [mbind option_bind].
  destruct (coerce_node_class ua _) as [c|]; [|by apply holds_ret]. cbn [mbind option_bind].
  eapply (holds_bind _ _ _ (fun t => t = if_typed c (match sv_type_definition sv n with Ok t => normalize_type_definition_id t | Err _ => None end))).
  - unfold if_typed. destruct (has_type_definition c); [|by apply holds_ret].
    eapply holds_bind; [apply holds_ask; intros r (_ & _ & Hr); exact Hr|]. intros r ->. by apply holds_ret.
  - intros t ->. apply holds_ret. destruct (text_of_name "Name" b); [|done]. by destruct (text_of_name "Text" d).
Qed.

Lemma read_node_infos_fallback_ok entries :
  answers (read_node_infos_fallback ua browse_name_of int_of entries) (fun r => r = Ok (omap (fun e => single_info e.1 e.2) entries)).
Proof using.
  unfold read_node_infos_fallback. eapply holds_obind; [apply (holds_gather _ (fun _ => False) (fun e o => o = single_info e.1 e.2))| |done].
  - intros e _. eapply holds_bind; [apply read_node_info_ok|]. intros r Hr. apply holds_ret. by destruct r.
  - intros raw Hraw. apply holds_ret. f_equal. cbn [answered] in Hraw. induction Hraw as [|e o entries raw -> _ IH]; [done|]. cbn [omap list_omap].
    change (list_omap _ _ id raw) with (omap id raw). rewrite IH. by destruct (single_info _ _).
Qed.

Lemma read_type_definitions_ok nodes :
  answers (read_type_definitions browse_name_of int_of rounds nodes) (fun r =>
    match r with
    | Ok types => forall n, (t ← types !! n; t ≫= normalize_type_definition_id) = if bool_decide (n ∈ nodes) then type_definition n else None
    | Err e => real e /\ sv_fails sv
    end).
Proof using Hpages Hrounds.
  destruct nodes as [|n nodes]; [by apply holds_ret|]. cbn [read_type_definitions]. set (l := n :: nodes). apply holds_with_limits. intros limits.
  eapply holds_obind; [apply references_ok| |done]. intros refs ->. apply holds_ret. clearbody l. clear n nodes. intros n.
  set (f n := match references HAS_TYPE_DEFINITION n with ref :: _ => Some (normalize_type_definition_id (rd_node_id ref)) | [] => None end).
  replace (omap type_definition_entry _) with (omap (fun n => (n,.) <$> f n) l).
  - rewrite dict_lookup_tabulate_some. case_bool_decide; [|done]. unfold f, type_definition. by destruct (references _ n).
  - induction l as [|x l IH]; [done|]. cbn [map omap list_omap]. change (list_omap _ _ ?g ?k) with (omap (M := list) g k) in *. rewrite IH.
    unfold f, type_definition_entry. cbn [fst snd]. by destruct (references _ x).
Qed.

(** ** Lemmas: a batch *)

Lemma chunked_blocks {A} size (blocks : list (list A)) : (0 < size)%nat -> Forall (fun b => length b = size) blocks -> chunked size (List.concat blocks) = blocks.
Proof using.
  intros Hs Hb. unfold chunked. assert (Hf : (length (List.concat blocks) <= length (List.concat blocks))%nat) by done. revert Hf.
  generalize (length (List.concat blocks)) at 2 3. intros fuel. revert fuel. induction Hb as [|b blocks Hlen _ IH]; intros fuel Hf; cbn [List.concat] in *; [by destruct fuel|].
  rewrite length_app in Hf. destruct fuel as [|fuel]; [lia|]. cbn [chunks]. destruct b as [|x b]; [cbn in *; lia|]. cbn [app].
  change (x :: b ++ List.concat blocks) with ((x :: b) ++ List.concat blocks). rewrite <-Hlen, take_app_length, drop_app_length, Hlen, IH; [done|cbn in *; lia].
Qed.

Lemma batch_slices (batch : list Entry) :
  zip batch (chunked (length NODE_INFO_ATTRIBUTES) (map (sv_value sv) (flat_map (fun e => map (pair e.1) NODE_INFO_ATTRIBUTES) batch))) =
  map (fun e => (e, attributes e.1)) batch.
Proof using.
  replace (map _ (flat_map _ batch)) with (List.concat (map (fun e : Entry => attributes e.1) batch)).
  - rewrite chunked_blocks; [|cbn; lia|apply Forall_forall; intros b Hb; apply elem_of_map in Hb as (e & -> & _); apply List.length_map].
    induction batch as [|e batch IH]; [done|]. cbn [map zip zip_with]. by rewrite <-IH.
  - induction batch as [|e batch IH]; [done|]. cbn [map List.concat flat_map]. rewrite List.map_app, IH, List.map_map. done.
Qed.

(** The entries with some [m] first, then the others. *)
Lemma split_perm {A B C} (m : A -> option B) (F : A -> B -> C) (g : A -> option C) l :
  omap (fun e => match m e with Some x => Some (F e x) | None => g e end) l ≡ₚ
  omap (fun e => F e <$> m e) l ++ omap g (omap (fun e => match m e with Some _ => None | None => Some e end) l).
Proof using.
  induction l as [|e l IH]; [done|]. cbn [omap list_omap]. change (list_omap _ _ ?h ?k) with (omap (M := list) h k) in *.
  destruct (m e) as [x|]; cbn [fmap option_map option_fmap]; [by rewrite IH|]. cbn [omap list_omap]. change (list_omap _ _ ?h ?k) with (omap (M := list) h k) in *.
  destruct (g e); [|done]. by rewrite IH, Permutation_middle.
Qed.

(** A node is asked for its type exactly if the batch has its names and it has a class with types. *)
Lemma typed_nodes (batch : list Entry) (e : Entry) m :
  e ∈ batch -> mandatory ua (attributes e.1) = Some m ->
  (e.1 ∈ omap (fun c : Entry * list (DataValue (V := ua_value)) * (string * string * string) => if has_type_definition c.2.2 then Some c.1.1.1 else None)
            (omap (fun e => m ← mandatory ua (attributes e.1); Some ((e, attributes e.1), m)) batch)) <-> has_type_definition m.2 = true.
Proof using.
  intros He Hm. rewrite list_elem_of_omap. split.
  - intros (c & Hc & Hn). apply list_elem_of_omap in Hc as (e' & He' & Hc). destruct (mandatory ua (attributes e'.1)) as [m'|] eqn:E; [|done].
    cbn in Hc. injection Hc as <-. cbn in Hn. destruct (has_type_definition m'.2) eqn:Et; [|done]. injection Hn as En. rewrite En in E. congruence.
  - intros Ht. exists ((e, attributes e.1), m). cbn. rewrite Ht. split; [|done]. apply list_elem_of_omap. exists e. split; [done|]. by rewrite Hm.
Qed.

Lemma read_node_infos_batch_ok batch :
  answers (read_node_infos_batch ua browse_name_of int_of rounds batch) (fun r =>
    match r with Ok infos => infos ≡ₚ omap (fun e => info_of e.1 e.2) batch | Err e => real e /\ sv_fails sv end).
Proof using Hpages Hrounds.
  unfold read_node_infos_batch. eapply holds_bind; [apply pairs_ok|]. intros r ->. rewrite batch_slices. cbv zeta. rewrite !omap_map. cbn [snd fst].
  eapply holds_obind; [apply read_type_definitions_ok| |done]. intros types Htypes.
  set (F e (m : string * string * string) := node_info ua e.1 e.2 m.1.1 m.1.2 m.2 (attributes e.1) (if_typed m.2 (type_definition e.1))).
  replace (map _ (omap _ batch)) with (omap (fun e => F e <$> mandatory ua (attributes e.1)) batch).
  2: { rewrite map_omap. apply omap_ext_in. intros e He. destruct (mandatory ua (attributes e.1)) as [[[b d] c]|] eqn:Em; [|done]. destruct e as [n parent]. cbn in *.
       rewrite Htypes. unfold F, if_typed. cbn. do 2 f_equal. pose proof (typed_nodes batch (n, parent) _ He Em) as Ht. cbn in Ht.
       destruct (has_type_definition c); [by rewrite bool_decide_true by tauto|rewrite bool_decide_false; [done|]]. by rewrite Ht. }
  set (g := fun e : Entry => single_info e.1 e.2).
  assert (Hperm : omap (fun e => info_of e.1 e.2) batch ≡ₚ omap (fun e => F e <$> mandatory ua (attributes e.1)) batch ++
    omap g (omap (fun e => match mandatory ua (attributes e.1) with Some _ => None | None => Some e end) batch)).
  { rewrite <-split_perm. apply reflexive_eq, omap_ext_in. intros e _. unfold info_of, F. by destruct (mandatory ua (attributes e.1)) as [[[b d] c]|]. }
  set (others := omap (fun e => match mandatory ua (attributes e.1) with Some _ => None | None => Some e end) batch) in Hperm.
  match goal with |- context [wp _ _ (match ?l with [] => _ | _ => _ end) _ _] => change l with others end. destruct others as [|x l].
  - apply holds_ret. by rewrite Hperm, app_nil_r.
  - eapply holds_obind; [apply read_node_infos_fallback_ok| |done]. intros fallback [= ->]. apply holds_ret. by rewrite Hperm.
Qed.

Lemma read_node_infos_limited_ok entries :
  answers (read_node_infos_limited ua browse_name_of int_of rounds entries) (fun r =>
    match r with Ok infos => infos ≡ₚ omap (fun e => info_of e.1 e.2) entries | Err e => real e /\ sv_fails sv end).
Proof using Hpages Hrounds.
  destruct entries as [|e entries]; [by apply holds_ret|]. cbn [read_node_infos_limited]. set (l := e :: entries). apply holds_with_limits. intros limits.
  set (size := Nat.max 1 _).
  assert (H : forall batches, answers (extend_all batches (read_node_infos_batch ua browse_name_of int_of rounds)) (fun r =>
    match r with Ok infos => infos ≡ₚ omap (fun e => info_of e.1 e.2) (List.concat batches) | Err e => real e /\ sv_fails sv end)).
  { induction batches as [|b batches IH]; cbn [extend_all List.concat]; [by apply holds_ret|].
    eapply holds_obind; [apply read_node_infos_batch_ok| |done]. intros infos Hi. eapply holds_obind; [exact IH| |done]. intros infos' Hi'. apply holds_ret.
    by rewrite omap_app, Hi, Hi'. }
  specialize (H (chunked size l)). rewrite concat_chunked in H by lia. exact H.
Qed.

(** ** Lemmas: references *)

(** What is known of the names of reference types is true. *)
Definition names_known (names : dict string string) : Prop := forall id name, names !! id = Some name -> reference_type_name id = Some name.

Lemma set_names_cons names id l :
  set_names names ((id, sv_value sv (id, att_browse_name)) :: l) =
    match reference_type_name id with
    | Some name => set_names (<[id := name]> names) l
    | None => Err (value_error ("Cannot read BrowseName for reference type " +:+ id))
    end.
Proof using.
  cbn [set_names]. unfold reference_type_name. destruct (extract_attribute_value _ ≫= str_field "Name") as [name|]; [|done]. cbn. by destruct (truthy name).
Qed.

Lemma set_names_ok ids names :
  names_known names ->
  match set_names names (map (fun id => (id, sv_value sv (id, att_browse_name))) ids) with
  | Ok names' => names_known names' /\ forall id, id ∈ ids \/ is_Some (names !! id) -> is_Some (names' !! id)
  | Err e => real e /\ exists id, id ∈ ids /\ reference_type_name id = None
  end.
Proof using.
  revert names. induction ids as [|id ids IH]; intros names Hn; [split; [done|]; by intros id [H%elem_of_nil|H]|]. cbn [map]. rewrite set_names_cons.
  destruct (reference_type_name id) as [name|] eqn:E; [|split; [done|]; exists id; split; [by left|done]].
  assert (Hn' : names_known (<[id := name]> names)) by (intros id' name'; rewrite dict_lookup_insert; case_bool_decide as Hid; [by subst; intros [= <-]|apply Hn]).
  specialize (IH _ Hn'). destruct (set_names _ _) as [names'|e].
  - destruct IH as [IH1 IH2]. split; [done|]. intros id' H. apply IH2. rewrite dict_lookup_insert. rewrite elem_of_cons in H.
    case_bool_decide; [right; by eexists|]. destruct H as [[->|H]|H]; [done|by left|by right].
  - destruct IH as (Hr & id' & Hin & Hnone). split; [done|]. exists id'. split; [by right|done].
Qed.

Lemma read_names_ok refs names :
  names_known names ->
  answers (read_reference_type_browse_names browse_name_of int_of refs names) (fun r =>
    match r with
    | Ok names' => names_known names' /\ forall ref, ref ∈ refs -> is_Some (names' !! rd_reference_type_id ref)
    | Err e => real e /\ exists ref, ref ∈ refs /\ reference_type_name (rd_reference_type_id ref) = None
    end).
Proof using.
  intros Hn. unfold read_reference_type_browse_names.
  set (ids := py_sorted string_leb _). assert (Hids : forall id, id ∈ ids <-> (exists ref, id = rd_reference_type_id ref /\ ref ∈ refs) /\ names !! id = None).
  { intros id. unfold ids. rewrite elem_of_py_sorted, elem_of_filter_list, negb_true_iff, dict_mem_false, elem_of_remove_dups, elem_of_map. done. }
  assert (Hall : forall names' : dict string string, (forall id, id ∈ ids \/ is_Some (names !! id) -> is_Some (names' !! id)) ->
    forall ref, ref ∈ refs -> is_Some (names' !! rd_reference_type_id ref)).
  { intros names' H ref Href. apply H. destruct (names !! rd_reference_type_id ref) eqn:E; [by right; eexists|left; apply Hids; eauto]. }
  clearbody ids. destruct ids as [|id ids].
  { apply holds_ret. split; [done|]. apply Hall. by intros id [H%elem_of_nil|H]. }
  eapply holds_obind; [apply names_ok| |done]. intros values E. assert (values = map (fun n => sv_value sv (n, att_browse_name)) (id :: ids)) as -> by (by injection E).
  apply holds_ret. rewrite zip_strict_map. cbn [mbind outcome_bind]. pose proof (set_names_ok (id :: ids) names Hn) as H.
  destruct (set_names _ _) as [names'|e]; [destruct H as [H1 H2]; split; [done|]; by apply Hall|].
  destruct H as (Hr & id' & Hin & Hnone). split; [done|]. apply Hids in Hin as [(ref & -> & Href) _]. by exists ref.
Qed.

Lemma to_reference_infos_ok names refs :
  names_known names -> (forall ref, ref ∈ refs -> is_Some (names !! rd_reference_type_id ref)) ->
  to_reference_infos names refs = Ok (map (fun ref =>
    {| ri_target_node_id := rd_node_id ref; ri_reference_type_id := rd_reference_type_id ref;
       ri_reference_browse_name := default ε (reference_type_name (rd_reference_type_id ref)) |}) refs).
Proof using.
  intros Hn. induction refs as [|ref refs IH]; intros H; [done|]. cbn [to_reference_infos map].
  destruct (H ref) as [name Hname]; [by left|]. rewrite Hname, IH by (intros r Hr; apply H; by right). cbn. by rewrite (Hn _ _ Hname).
Qed.

Lemma attach_references_ok names nodes infos :
  names_known names -> (forall n ref, n ∈ nodes -> ref ∈ references REFERENCES n -> is_Some (names !! rd_reference_type_id ref)) ->
  (forall info, info ∈ infos -> ni_node_id info ∈ nodes) ->
  attach_references names (dict_of_list (map (fun n => (n, references REFERENCES n)) nodes)) infos =
    Ok (map (fun info => set_outgoing_references info (reference_infos (ni_node_id info))) infos).
Proof using.
  intros Hn Hrefs. induction infos as [|info infos IH]; intros Hin; [done|]. cbn [attach_references map].
  assert (Hi : ni_node_id info ∈ nodes) by (apply Hin; by left).
  rewrite dict_lookup_tabulate, bool_decide_true, to_reference_infos_ok by (done || by intros ref; apply Hrefs). cbn [mbind outcome_bind].
  rewrite IH by (intros i Hi'; apply Hin; by right). done.
Qed.

Lemma info_of_id n parent info : info_of n parent = Some info -> ni_node_id info = n.
Proof using.
  unfold info_of, single_info. destruct (mandatory _ _) as [[[b d] c]|]; [by intros [= <-]|].
  destruct (node_attribute _ att_browse_name) as [b|]; cbn [mbind option_bind]; [|done].
  destruct (node_attribute _ DISPLAY_NAME) as [d|]; cbn [mbind option_bind]; [|done].
  destruct (coerce_node_class _ _) as [c|]; cbn [mbind option_bind]; [|done].
  destruct (text_of_name _ _); [|done]. destruct (text_of_name _ _); [|done]. by intros [= <-].
Qed.

Lemma browse_entries_ok max entries names :
  names_known names ->
  answers (browse_entries ua browse_name_of int_of rounds max entries names) (fun r =>
    match r with
    | Ok (infos, names', found) =>
        infos ≡ₚ omap complete_info entries /\ names_known names' /\
        found = children_of entries
    | Err e => real e /\ batch_error (map fst entries)
    end).
Proof using Hpages Hrounds.
  intros Hn. unfold browse_entries. cbv zeta. set (nodes := map fst entries).
  eapply holds_bind; [apply read_node_infos_limited_ok|]. intros infos Hinfos.
  eapply holds_bind; [apply references_ok|]. intros refs Hrefs. eapply holds_bind; [apply references_ok|]. intros browsed Hbrowsed.
  eapply (holds_obind _ _ _ (fun r => match r with
    | Ok (infos, refs, browsed) => infos ≡ₚ omap (fun e => info_of e.1 e.2) entries /\ refs = map (fun n => (n, references REFERENCES n)) nodes /\
        browsed = map (fun n => (n, references HIERARCHICAL_REFERENCES n)) nodes
    | Err e => real e /\ sv_fails sv end)).
  - apply holds_ret. destruct infos; [|done]. destruct refs; [|done]. by destruct browsed.
  - clear infos refs browsed Hinfos Hrefs Hbrowsed. intros [[infos refs] browsed] (Hinfos & -> & ->).
    assert (Hflat : flat_map snd (map (fun n => (n, references REFERENCES n)) nodes) = flat_map (references REFERENCES) nodes)
      by (induction nodes as [|n l IH]; [done|]; cbn; by rewrite IH).
    rewrite Hflat. eapply holds_obind; [by apply read_names_ok| |].
    + intros names' [Hn' Hall]. apply holds_ret. rewrite attach_references_ok; [|done| |].
      * cbn. split_and!; [|done|].
        -- rewrite <-(map_omap (fun info => set_outgoing_references info (reference_infos (ni_node_id info))) (fun e : Entry => info_of e.1 e.2)). by apply Permutation_map.
        -- unfold children_entries, nodes, children_of. rewrite List.map_map. clear. induction entries as [|e l IH]; [done|]. cbn [map flat_map]. rewrite <-IH. cbn [fst snd].
           unfold children. by rewrite List.map_map.
      * intros n ref Hnode Href. apply Hall. apply list_elem_of_In, in_flat_map. exists n. by split; apply list_elem_of_In.
      * intros info Hi. rewrite Hinfos in Hi. apply list_elem_of_omap in Hi as (e & He & Hi). apply info_of_id in Hi. rewrite Hi. apply elem_of_map. by exists e.
    + intros e (Hr & ref & Href & Hnone). split; [done|]. right. apply list_elem_of_In, in_flat_map in Href as (n & Hnode & Href).
      exists n, ref. by split_and!; [apply list_elem_of_In..|].
  - intros e [Hr Hf]. split; [done|]. by left.
Qed.

(** ** Lemmas: the traversal *)

Section Loop.
Context (roots space : list string) (Hroots : forall n, n ∈ roots -> n ∈ space) (Hspace : forall n c, n ∈ space -> c ∈ children n -> c ∈ space).

Abbreviation ids l := (map fst (l : list Entry)).
Abbreviation weight visited := (unseen_weight (length (A := string)) visited (map (fun n => (n, children n)) space)).

Lemma elem_of_take_in {A} k (l : list A) x : x ∈ take k l -> x ∈ l.
Proof using. intros Hx. rewrite <-(take_drop k l). apply elem_of_app. by left. Qed.

Lemma filter_entries_ok visited batch :
  let '(visited', entries) := filter_entries visited batch in
  (forall e, e ∈ entries -> e ∈ batch) /\ NoDup (ids entries) /\ (forall n, n ∈ ids entries -> n ∉ visited) /\
  (forall n, n ∈ visited' <-> n ∈ visited \/ n ∈ ids entries) /\ (forall e, e ∈ batch -> e.1 ∈ visited') /\
  ((forall e, e ∈ batch -> e.1 ∈ space) -> (weight visited' + sum_list_with (fun e : Entry => length (children e.1)) entries <= weight visited)%nat).
Proof using.
  revert visited. induction batch as [|e batch IH]; intros visited; cbn [filter_entries].
  { split_and!; [by intros|constructor|by intros n ?%elem_of_nil| |by intros e ?%elem_of_nil|cbn; lia]. intros n. cbn. rewrite elem_of_nil. tauto. }
  case_bool_decide as Hv.
  - specialize (IH visited). destruct (filter_entries visited batch) as [visited' entries]. destruct IH as (H1 & H2 & H3 & H4 & H5 & H6). split_and!; try done.
    + intros e' He'. right. by apply H1.
    + intros e' [->|He']%elem_of_cons; [apply H4; by left|by apply H5].
    + intros H. apply H6. intros e' He'. apply H. by right.
  - specialize (IH (e.1 :: visited)). destruct (filter_entries (e.1 :: visited) batch) as [visited' entries]. destruct IH as (H1 & H2 & H3 & H4 & H5 & H6). cbn [map].
    split_and!.
    + intros e' [->|He']%elem_of_cons; [by left|right; by apply H1].
    + constructor; [|done]. intros He%H3. apply He. by left.
    + intros n [->|Hn]%elem_of_cons; [done|]. apply H3 in Hn. intros Hn'. apply Hn. by right.
    + intros n. rewrite H4, !elem_of_cons. tauto.
    + intros e' [->|He']%elem_of_cons; [apply H4; left; by left|by apply H5].
    + intros H. cbn [sum_list_with]. specialize (H6 (fun e' He' => H e' (list_elem_of_further _ _ _ He'))).
      pose proof (unseen_weight_take (length (A := string)) visited e.1 (children e.1) (map (fun n => (n, children n)) space)) as Hw.
      assert (He : (e.1, children e.1) ∈ map (fun n => (n, children n)) space) by (apply elem_of_map; exists e.1; split; [done|]; apply H; by left).
      specialize (Hw He Hv). lia.
Qed.

(** Between two batches: what was found, and what is left to look at. *)
Record loop_ok (found stack : list Entry) (visited : list string) : Prop := {
  lo_order : in_order roots found;
  lo_visited : forall n, n ∈ visited <-> n ∈ ids found;
  lo_stack : forall e, e ∈ stack -> origin roots (ids found) e;
  lo_roots : forall n, n ∈ roots -> n ∈ ids found \/ n ∈ ids stack;
  lo_children : forall p c, p ∈ ids found -> c ∈ children p -> c ∈ ids found \/ c ∈ ids stack;
}.

Lemma origin_mono before before' e : (forall n, n ∈ before -> n ∈ before') -> origin roots before e -> origin roots before' e.
Proof using. intros H. unfold origin. destruct e.2; [|done]. intros [? ?]. split; [by apply H|done]. Qed.

Lemma in_order_app found entries :
  in_order roots found -> NoDup (ids entries) -> (forall n, n ∈ ids entries -> n ∉ ids found) -> (forall e, e ∈ entries -> origin roots (ids found) e) ->
  in_order roots (found ++ entries).
Proof using.
  intros [Hnd Ho] Hnd' Hdis Ho'. split.
  - rewrite List.map_app. apply NoDup_app. split_and!; [done| |done]. intros n Hn Hn'. by apply (Hdis n).
  - intros i e [Hi|[Hlen Hi]]%lookup_app_Some.
    + rewrite take_app_le by (apply lookup_lt_Some in Hi; lia). by apply Ho.
    + eapply origin_mono; [|apply Ho'; by eapply list_elem_of_lookup_2]. intros n Hn. rewrite take_app_ge, List.map_app by lia. apply elem_of_app. by left.
Qed.

Lemma in_order_reachable found n : in_order roots found -> n ∈ ids found -> reachable roots n.
Proof using.
  intros [_ Ho] (e & -> & (i & Hi)%list_elem_of_lookup)%elem_of_map. revert e Hi. induction (lt_wf i) as [i _ IH]. intros e Hi.
  specialize (Ho i e Hi). unfold origin in Ho. destruct e.2 as [p|]; [|by constructor]. destruct Ho as [Hp Hc].
  apply elem_of_map in Hp as (e' & -> & (j & Hj)%list_elem_of_lookup). pose proof (lookup_lt_Some _ _ _ Hj) as Hlt. rewrite length_take in Hlt.
  rewrite lookup_take_lt in Hj by lia. eapply reachable_child; [|exact Hc]. apply (IH j); [lia|done].
Qed.

Lemma reachable_space n : reachable roots n -> n ∈ space.
Proof using Hroots Hspace. induction 1; eauto. Qed.

Lemma loop_ok_found found visited n : loop_ok found [] visited -> n ∈ ids found <-> reachable roots n.
Proof using.
  intros H. split; [apply in_order_reachable, H|]. induction 1 as [n Hn|p n _ IH Hn].
  - by destruct (lo_roots _ _ _ H n Hn) as [?|?%elem_of_nil].
  - by destruct (lo_children _ _ _ H p n IH Hn) as [?|?%elem_of_nil].
Qed.

(** One batch of the loop. *)
Lemma loop_ok_step found stack visited max visited' entries :
  loop_ok found stack visited -> filter_entries visited (take max stack) = (visited', entries) ->
  loop_ok (found ++ entries) (drop max stack ++ children_of entries) visited'.
Proof using space.
  intros [Ho Hv Hs Hr Hc] E. pose proof (filter_entries_ok visited (take max stack)) as H. rewrite E in H. destruct H as (H1 & H2 & H3 & H4 & H5 & _).
  assert (Hids : forall n, n ∈ ids stack -> n ∈ ids found \/ n ∈ ids entries \/ n ∈ ids (drop max stack)).
  { intros n (e & -> & He)%elem_of_map. rewrite <-(take_drop max stack) in He. apply elem_of_app in He as [He|He].
    - apply H5, H4 in He. rewrite Hv in He. tauto.
    - right; right. apply elem_of_map. by exists e. }
  assert (Hnew : forall n, n ∈ ids found \/ n ∈ ids stack -> forall l, n ∈ ids (found ++ entries) \/ n ∈ ids (drop max stack ++ l)).
  { intros n Hn l. rewrite !List.map_app, !elem_of_app. destruct Hn as [Hn|Hn%Hids]; tauto. }
  split.
  - apply in_order_app; [done|done|intros n Hn; rewrite <-Hv; by apply H3|]. intros e He%H1. apply Hs. rewrite <-(take_drop max stack). apply elem_of_app. by left.
  - intros n. rewrite H4, Hv, List.map_app, elem_of_app. done.
  - intros e [He|He]%elem_of_app.
    + eapply origin_mono; [|apply Hs; rewrite <-(take_drop max stack); apply elem_of_app; by right]. intros n Hn. rewrite List.map_app, elem_of_app. by left.
    + apply list_elem_of_In, in_flat_map in He as (e' & He' & He). apply list_elem_of_In, elem_of_map in He as (c & -> & Hchild). split; [|done]. cbn.
      rewrite List.map_app, elem_of_app. right. apply elem_of_map. exists e'. split; [done|]. by apply list_elem_of_In.
  - intros n Hn. by apply Hnew, Hr.
  - intros p c Hp Hchild. rewrite List.map_app, elem_of_app in Hp. destruct Hp as [Hp|Hp]; [by apply Hnew, (Hc p)|]. right.
    apply elem_of_map in Hp as (e & -> & He). rewrite List.map_app, elem_of_app. right. apply elem_of_map. exists (c, Some e.1). split; [done|].
    apply list_elem_of_In, in_flat_map. exists e. split; [by apply list_elem_of_In|]. apply list_elem_of_In, elem_of_map. by exists c.
Qed.

Lemma children_count entries : length (children_of entries) = sum_list_with (fun e : Entry => length (children e.1)) entries.
Proof using. unfold children_of. induction entries as [|x l IH]; [done|]. cbn [flat_map sum_list_with]. by rewrite length_app, List.length_map, IH. Qed.

Lemma loop_start : loop_ok [] (map (fun root => (root, None)) roots) [].
Proof using.
  split.
  - split; [constructor|by intros i e ?].
  - intros n. cbn. by rewrite elem_of_nil.
  - intros e (n & -> & Hn)%elem_of_map. exact Hn.
  - intros n Hn. right. rewrite List.map_map. cbn. by rewrite List.map_id.
  - by intros p c ?%elem_of_nil.
Qed.

(** The reason for which a browse may fail. *)
Definition browse_error : Prop :=
  sv_fails sv \/ exists n ref, reachable roots n /\ ref ∈ references REFERENCES n /\ reference_type_name (rd_reference_type_id ref) = None.

Lemma browse_loop_ok fuel max stack visited names output found :
  (0 < max)%nat -> loop_ok found stack visited -> names_known names -> output ≡ₚ omap complete_info found ->
  (length stack + weight visited <= fuel)%nat ->
  answers (browse_loop ua browse_name_of int_of fuel rounds max stack visited names output) (fun r =>
    match r with
    | Ok infos => exists found, in_order roots found /\ (forall n, n ∈ ids found <-> reachable roots n) /\ infos ≡ₚ omap complete_info found
    | Err e => real e /\ browse_error
    end).
Proof using Hpages Hrounds Hroots Hspace.
  intros Hmax. revert stack visited names output found. induction fuel as [|fuel IH]; intros stack visited names output found Hl Hn Hout Hf.
  all: destruct stack as [|e stack]; [apply holds_ret; exists found; split_and!; [apply Hl|intros n; by eapply loop_ok_found|done]|].
  { cbn in Hf. lia. }
  cbn [browse_loop]. set (l := e :: stack) in *. cbv zeta. destruct (filter_entries visited (take max l)) as [visited' entries] eqn:E.
  pose proof (loop_ok_step _ _ _ _ _ _ Hl E) as Hl'. pose proof (filter_entries_ok visited (take max l)) as Hfe. rewrite E in Hfe.
  destruct Hfe as (He & _ & _ & _ & _ & Hw).
  assert (Hreach : forall e, e ∈ l -> reachable roots e.1).
  { intros e' He'. pose proof (lo_stack _ _ _ Hl e' He') as Ho. unfold origin in Ho. destruct e'.2 as [p|]; [|by constructor].
    destruct Ho as [Hp Hc]. eapply reachable_child; [|exact Hc]. eapply in_order_reachable; [apply Hl|done]. }
  specialize (Hw (fun e' He' => reachable_space _ (Hreach e' (elem_of_take_in _ _ _ He')))).
  assert (Hdrop : (length (drop max l) < length l)%nat) by (rewrite length_drop; unfold l; cbn; lia).
  destruct entries as [|e' entries].
  { apply IH with (found := found); [|done|done|cbn in Hw; lia]. rewrite app_nil_r in Hl'. cbn in Hl'. by rewrite app_nil_r in Hl'. }
  set (new := e' :: entries) in *. eapply holds_obind; [by apply browse_entries_ok| |].
  - intros [[infos names'] children'] (Hinfos & Hn' & ->). apply IH with (found := found ++ new); [done|done| |].
    + by rewrite omap_app, Hout, Hinfos.
    + rewrite length_app. rewrite children_count. lia.
  - intros err [Hr [Hfail|(n & ref & Hin & Href & Hnone)]]; (split; [done|]); [by left|]. right. exists n, ref. split_and!; [|done|done].
    apply elem_of_map in Hin as (x & -> & Hx). apply Hreach. by apply He, elem_of_take_in in Hx.
Qed.
End Loop.

(** ** Roots *)

Section Roots.
Context (from_string : string -> outcome error (option (string * (nat -> string)))).

(** The object that a configured id stands for. *)
Definition root_of (configured_id n : string) : Prop :=
  exists uri node_id_in i, from_string configured_id = Ok (Some (uri, node_id_in)) /\ index_of_uri uri (sv_namespaces sv) = Some i /\
    n = node_id_in i /\ sv_node_class sv n = Ok "Object".

Definition is_root (browse_roots : option (list string)) (n : string) : Prop :=
  match browse_roots with None => n = OBJECTS_FOLDER | Some configured => exists id, id ∈ configured /\ root_of id n end.

Definition bad_roots (browse_roots : option (list string)) : Prop :=
  match browse_roots with None => False | Some configured => configured = [] \/ exists id, id ∈ configured /\ forall n, ~ root_of id n end.

Lemma resolve_roots_ok configured roots :
  answers (resolve_roots from_string (sv_namespaces sv) configured roots) (fun r =>
    match r with
    | Ok l => (forall n, n ∈ l <-> n ∈ dict_keys roots \/ exists id, id ∈ configured /\ root_of id n) /\
        (length l <= dict_len roots + length configured)%nat
    | Err _ => exists id, id ∈ configured /\ forall n, ~ root_of id n
    end).
Proof using.
  revert roots. induction configured as [|id configured IH]; intros roots; cbn [resolve_roots].
  { apply holds_ret. split; [|unfold dict_len, dict_keys; rewrite length_fmap; cbn; lia]. intros n. split; [by left|]. by intros [?|(id & ?%elem_of_nil & _)]. }
  assert (Hbad : (forall n, ~ root_of id n) -> exists id', id' ∈ id :: configured /\ forall n, ~ root_of id' n) by (intros H; exists id; split; [by left|done]).
  destruct (from_string id) as [[[uri node_id_in]|]|e] eqn:Es; cbn [obind pbind].
  2, 3: apply holds_ret, Hbad; intros n (uri' & f & i & E & _); congruence.
  destruct (index_of_uri uri (sv_namespaces sv)) as [i|] eqn:Ei; [|apply holds_ret, Hbad; intros n (uri' & f & i & E & E' & _); congruence].
  assert (Hroot : forall n, root_of id n <-> n = node_id_in i /\ sv_node_class sv n = Ok "Object").
  { intros n. split; [intros (uri' & f & j & E & E' & -> & Hc)|intros [-> Hc]; by exists uri, node_id_in, i].
    rewrite Es in E. injection E as <- <-. rewrite Ei in E'. injection E' as <-. done. }
  eapply holds_bind; [apply holds_ask; intros r (_ & _ & Hr); exact Hr|]. cbn. intros r Hr. destruct r as [node_class|e].
  2: { apply holds_ret, Hbad. intros n [-> Hc]%Hroot. congruence. }
  case_bool_decide as Hobj; [subst node_class|apply holds_ret, Hbad; intros n [-> Hc]%Hroot; congruence].
  eapply holds_mono; [apply IH|]. intros [l|e].
  - intros [Hl Hlen]. split; [|pose proof (dict_len_insert_le roots (node_id_in i) tt); cbn; lia].
    intros n. rewrite Hl, elem_of_dict_keys, dict_lookup_insert, elem_of_dict_keys. split.
    + intros [H|(id' & Hid & H)]; [|right; exists id'; by split; [right|]]. case_bool_decide as En; [|by left].
      right. exists id. split; [by left|]. apply Hroot. by rewrite <-En.
    + case_bool_decide as En; [by left; eexists|]. intros [H|(id' & [->|Hid]%elem_of_cons & H)]; [by left| |by right; exists id'].
      by apply Hroot in H as [-> _].
  - intros (id' & Hid & H). exists id'. by split; [right|].
Qed.

Lemma resolve_browse_roots_ok browse_roots :
  answers (resolve_browse_roots from_string browse_roots) (fun r =>
    match r with
    | Ok l => (forall n, n ∈ l <-> is_root browse_roots n) /\ (length l <= Nat.max 1 (length (default [] browse_roots)))%nat
    | Err _ => bad_roots browse_roots
    end).
Proof using.
  destruct browse_roots as [[|id configured]|]; cbn [resolve_browse_roots]; [apply holds_ret; by left| |apply holds_ret; split; [|done]; intros n; apply list_elem_of_singleton].
  eapply holds_obind; [apply holds_ask; intros r (_ & _ & Hr); exact Hr| |done]. intros namespaces Hns. injection Hns as ->.
  eapply holds_mono; [apply resolve_roots_ok|]. intros [l|e]; [|by right]. intros [Hl Hlen]. split; [|cbn in *; lia].
  intros n. rewrite Hl. cbn. rewrite elem_of_nil. tauto.
Qed.
End Roots.
End Browse.

(** C23. Browsing the address space is exact and ends, also on cycles: against a server whose hierarchical references lead
    from the roots only into a finite space, with fuel for its references, the answer has one info for each node that
    they lead to and that can be read, and nothing else. Each info has the attributes of its node, all of its references
    with the names of their types, and as its parent none for a root, or else a node that was found before it and has it
    as a child. The browse fails only for roots that stand for no object, a server that fails, or a reference of a reachable node whose
    type has no name. *)
Theorem browse_tree_exact ua browse_name_of int_of sv from_string browse_roots space fuel rounds :
  (forall kind, pages_ok (sv_pages sv kind) (sv_token sv kind)) -> (forall kind n, (length (sv_pages sv kind n) <= S rounds)%nat) ->
  (forall n, is_root sv from_string browse_roots n -> n ∈ space) -> (forall n c, n ∈ space -> c ∈ children sv n -> c ∈ space) ->
  (Nat.max 1 (length (default [] browse_roots)) + sum_list_with (fun n => length (children sv n)) space <= fuel)%nat ->
  holds (server_contract sv) (browse_tree ua browse_name_of int_of from_string fuel rounds browse_roots) (fun r =>
    exists roots, (bad_roots sv from_string browse_roots \/ forall n, n ∈ roots <-> is_root sv from_string browse_roots n) /\
    match r with
    | Ok infos => exists found, in_order sv roots found /\ (forall n, n ∈ map fst found <-> reachable sv roots n) /\ infos ≡ₚ omap (complete_info ua sv) found
    | Err e => bad_roots sv from_string browse_roots \/ real e /\ browse_error sv roots
    end).
Proof.
  intros Hpages Hrounds Hroots Hspace Hfuel. unfold browse_tree. apply holds_then, holds_with_limits. intros limits.
  eapply holds_obind; [apply resolve_browse_roots_ok| |intros e He; exists []; by split; left]. intros roots [Hr Hlen].
  assert (Hmax : (0 < limit_or (max_nodes_per_browse limits) 128)%nat) by (unfold limit_or; destruct (max_nodes_per_browse limits) as [[|?]|]; lia).
  assert (Hweight : (length (map (fun root => (root, None : option string)) roots) +
    unseen_weight (length (A := string)) [] (map (fun n => (n, children sv n)) space) <= fuel)%nat).
  { rewrite List.length_map, unseen_weight_all. etrans; [|exact Hfuel]. apply Nat.add_le_mono; [done|]. apply Nat.eq_le_incl. clear.
    induction space as [|n l IH]; [done|]. cbn. by rewrite IH. }
  assert (Hnames : names_known sv ∅) by (by intros id name).
  eapply holds_obind; [apply (browse_loop_ok ua _ _ _ Hpages _ Hrounds roots space (fun n Hn => Hroots n (proj1 (Hr n) Hn)) Hspace _ _ _ _ _ _ [] Hmax
    (loop_start sv roots) Hnames (Permutation_refl _) Hweight)| |].
  - intros infos H. apply holds_then, holds_ret. exists roots. split; [by right|exact H].
  - intros e H. exists roots. split; [by right|by right].
Qed.

(** ** A server *)

(** A machine below the folder of objects, with a cycle, references on two pages, a node [h] whose name has no text, and a
    node [x] that cannot be read. *)
Definition good_value (v : ua_value) : DataValue (V := ua_value) :=
  {| dv_status := None; dv_value := Some v; dv_source_timestamp := None; dv_server_timestamp := None |}.

Definition no_value : DataValue (V := ua_value) := {| dv_status := None; dv_value := None; dv_source_timestamp := None; dv_server_timestamp := None |}.

Definition name_value (attr : string) (text : ua_value) : DataValue (V := ua_value) := good_value (UStruct "Name" [(attr, text)]).

Definition machine_value (p : string * AttributeId) : DataValue (V := ua_value) :=
  let '(n, attr) := p in
  match attr with
  | att_browse_name => name_value "Name" (UStr (default n (items_lookup n [("i=35", "Organizes"); ("i=47", "HasComponent"); ("i=40", "HasTypeDefinition")])))
  | att_other 4 => name_value "Text" (if bool_decide (n = "h") then UNone else UStr n)
  | att_other 2 => if bool_decide (n = "x") then no_value else good_value (UInt (if bool_decide (n = "v") then 2 else 1))
  | att_other 17 => good_value (UInt 3)
  | _ => no_value
  end.

Definition ref (reference_type target : string) : ReferenceDescription := {| rd_node_id := target; rd_reference_type_id := reference_type |}.

Definition machine_pages (kind : BrowseKind) (n : string) : list (list ReferenceDescription) :=
  let typed := if bool_decide (n = "m" \/ n = "h") then [ref "i=40" "i=58"] else [] in
  let hierarchical :=
    if bool_decide (n = "i=85") then [[ref "i=35" "m"]]
    else if bool_decide (n = "m") then [[ref "i=47" "v"; ref "i=47" "h"]; [ref "i=47" "x"; ref "i=35" "i=85"]]
    else [[]] in
  if Z.eqb (bk_reference_type kind) HAS_TYPE_DEFINITION then [typed]
  else if Z.eqb (bk_reference_type kind) HIERARCHICAL_REFERENCES then hierarchical
  else match hierarchical with page :: pages => (typed ++ page) :: pages | [] => [typed] end.

Definition machine_token (kind : BrowseKind) (n : string) (i : nat) : string := pretty (bk_reference_type kind) +:+ sample_token n i.

Definition machine : Server :=
  {| sv_capacity := 2; sv_value := machine_value; sv_pages := machine_pages; sv_token := machine_token; sv_type_definition := fun _ => Ok "i=58";
     sv_namespaces := ["http://opcfoundation.org/UA/"]; sv_node_class := fun _ => Ok "Object"; sv_fails := False |}.

Definition machine_objects : UaObjects := {| ua_int := fun _ => None; ua_to_string := fun _ => None; ua_text := fun _ => ε |}.

Definition machine_space : list string := ["i=85"; "m"; "v"; "h"; "x"].

Definition machine_page (kind : BrowseKind) (n : string) (i : nat) : BrowseResult :=
  {| br_status := None; br_references := default [] (machine_pages kind n !! i);
     br_continuation := if Nat.ltb (S i) (length (machine_pages kind n)) then machine_token kind n (S i) else ε |}.

Definition machine_answer R (c : request (V := ua_value) R) : R :=
  let read {A} (l : list A) (f : A -> DataValue (V := ua_value)) := if Nat.leb (length l) 3 then Ok (map f l) else Err sample_too_many in
  match c in request R return R with
  | ReadAttributes nodes attr => read nodes (fun n => machine_value (n, attr))
  | ReadPairs pairs => read pairs machine_value
  | Browse kind nodes => Ok (map (fun n => machine_page kind n 0) nodes)
  | BrowseNext points => Ok (map (fun t =>
      match List.filter (fun kn => bool_decide (machine_token (forward kn.1) kn.2 1 = t)) (list_prod [REFERENCES; HIERARCHICAL_REFERENCES; HAS_TYPE_DEFINITION] machine_space) with
      | (kind, n) :: _ => machine_page (forward kind) n 1
      | [] => machine_page (forward REFERENCES) "x" 0
      end) points)
  | ReadTypeDefinition _ => Ok "i=58"
  | GetNamespaceArray => Ok ["http://opcfoundation.org/UA/"]
  | ReadNodeClass _ => Ok "Object"
  | ReadValues _ => Err sample_too_many
  | ReadDataValue _ => Err sample_too_many
  | ReadNode _ _ => Err sample_too_many
  | ReadVariantType _ => Err sample_too_many
  | ReadBack _ => Err sample_too_many
  | WriteNode _ _ => Err sample_too_many
  | HistoryUpdate _ _ => Err sample_too_many
  | GetChildren _ => Ok []
  | HistoryRead _ _ => Err sample_too_many
  | IsConnected => true
  | NotifyTransportLost => tt
  | WaitConnected => true
  end.

Example machine_browsed :
  match (run_log machine_answer sample_client (browse_tree machine_objects (fun _ => None) (fun _ => None) (fun _ => Err not_finished) 6 1 None)).2 with
  | Ok infos => map (fun i => (ni_node_id i, ni_parent_node_id i, ni_display_name i, ni_type_definition_id i, map ri_reference_browse_name (ni_outgoing_references i))) infos
  | Err _ => []
  end =
  [("i=85", None, "i=85", None, ["Organizes"]);
   ("m", Some "i=85", "m", Some "i=58", ["HasTypeDefinition"; "HasComponent"; "HasComponent"; "HasComponent"; "Organizes"]);
   ("v", Some "m", "v", None, []); ("h", Some "m", ε, Some "i=58", ["HasTypeDefinition"])].
Proof. vm_compute. reflexivity. Qed.

Lemma machine_pages_ok kind : pages_ok (machine_pages kind) (machine_token kind).
Proof.
  split.
  - intros n i. unfold machine_token. destruct (pretty (bk_reference_type kind)); [|done]. by destruct i.
  - intros n i m j H. unfold machine_token in H. apply (inj (String.append (pretty (bk_reference_type kind)))) in H. by apply sample_token_inj.
  - intros n. unfold machine_pages. by repeat case_match.
Qed.

Lemma machine_closed n c : n ∈ machine_space -> c ∈ children machine n -> c ∈ machine_space.
Proof.
  intros Hn. revert c. apply Forall_forall. revert n Hn. apply Forall_forall. apply (bool_decide_unpack _). by vm_compute.
Qed.

Lemma browse_tree_exact_witness :
  let is_root := is_root machine (fun _ => Err not_finished) None in
  ((forall kind, pages_ok (machine_pages kind) (machine_token kind)) /\ (forall kind n, (length (machine_pages kind n) <= 2)%nat) /\
   (forall n, is_root n -> n ∈ machine_space) /\ (forall n c, n ∈ machine_space -> c ∈ children machine n -> c ∈ machine_space) /\
   (1 + sum_list_with (fun n => length (children machine n)) machine_space <= 6)%nat) /\
  holds (server_contract machine) (browse_tree machine_objects (fun _ => None) (fun _ => None) (fun _ => Err not_finished) 6 1 None) (fun r =>
    exists roots, (False \/ forall n, n ∈ roots <-> is_root n) /\
    match r with
    | Ok infos => exists found, in_order machine roots found /\ (forall n, n ∈ map fst found <-> reachable machine roots n) /\
        infos ≡ₚ omap (complete_info machine_objects machine) found
    | Err e => False \/ real e /\ browse_error machine roots
    end).
Proof.
  assert (H2 : forall kind n, (length (machine_pages kind n) <= 2)%nat) by (intros kind n; unfold machine_pages; repeat case_match; cbn; simplify_eq; cbn; lia).
  assert (H3 : forall n, is_root machine (fun _ => Err not_finished) None n -> n ∈ machine_space) by (intros n ->; by left).
  assert (H5 : (1 + sum_list_with (fun n => length (children machine n)) machine_space <= 6)%nat) by (apply (bool_decide_unpack _); by vm_compute).
  split; [split_and!; [apply machine_pages_ok|exact H2|exact H3|apply machine_closed|exact H5]|].
  pose proof (browse_tree_exact machine_objects (fun _ => None) (fun _ => None) machine (fun _ => Err not_finished) None machine_space 6 1
    machine_pages_ok H2 H3 machine_closed H5) as H. exact H.
Defined.
End AddressSpaceSpec.
