(* ===== verification/MetadataCache.v ===== *)
(** The metadata that the client caches ([infrastructure/opcua/client.py]): entries with a time to live, which are served
    while one load refreshes them, loads shared by all who ask, and what a reconnect and a disconnect do to them.

    A load is a task of the event loop: it is made, takes its first step, ends, and is taken off the table of loads by its
    callback; anything may run between these. What a load finds on the server is its outcome. [connect] waits for the
    limits and stores them itself when it goes on ([self._limits_cache = await ...]), at any later time. *)

From S2P Require Export PyDict.
Local Open Scope string_scope.
Local Open Scope list_scope.
Local Open Scope Z_scope.

Module MetadataCache.

(** An entry: when it was made ([None]: it was invalidated), and what it holds. *)
Abbreviation Cached A := (option Q * A)%type.

(** [_is_metadata_cache_entry_fresh]. *)
Definition is_metadata_cache_entry_fresh (now : Q) (ttl_seconds : Z) (cached_at : option Q) : bool :=
  match cached_at with
  | None => false
  | Some t => if ttl_seconds =? 0 then true else Qle_bool (now - t) (inject_Z ttl_seconds)
  end.

Section Metadata.
Context {V : Type}.

(** [_invalidate_metadata_entry]. *)
Definition invalidate_metadata_entry (cached : Cached V) : Cached V := (None, cached.2).

(** ** Loads *)

Inductive LoadState :=
  | Scheduled
  | Loading
  | Ended (at_ : Q) (outcome : option V).

Record LoadTask := { lt_key : string; lt_state : LoadState; lt_called_back : bool }.

Record Metadata := {
  md_now : Q;
  md_ttl_seconds : Z;
  md_caches : dict string (Cached V);
  md_tasks : list LoadTask;
  md_metadata_load_tasks : dict string nat;
  md_stale_incidents : dict string (Q * Z);
  md_connects : list nat;
}.

Definition set_now (q : Q) (s : Metadata) : Metadata :=
  {| md_now := q; md_ttl_seconds := md_ttl_seconds s; md_caches := md_caches s; md_tasks := md_tasks s;
     md_metadata_load_tasks := md_metadata_load_tasks s; md_stale_incidents := md_stale_incidents s; md_connects := md_connects s |}.

Definition set_caches (d : dict string (Cached V)) (s : Metadata) : Metadata :=
  {| md_now := md_now s; md_ttl_seconds := md_ttl_seconds s; md_caches := d; md_tasks := md_tasks s;
     md_metadata_load_tasks := md_metadata_load_tasks s; md_stale_incidents := md_stale_incidents s; md_connects := md_connects s |}.

Definition set_tasks (l : list LoadTask) (s : Metadata) : Metadata :=
  {| md_now := md_now s; md_ttl_seconds := md_ttl_seconds s; md_caches := md_caches s; md_tasks := l;
     md_metadata_load_tasks := md_metadata_load_tasks s; md_stale_incidents := md_stale_incidents s; md_connects := md_connects s |}.

Definition set_load_tasks (d : dict string nat) (s : Metadata) : Metadata :=
  {| md_now := md_now s; md_ttl_seconds := md_ttl_seconds s; md_caches := md_caches s; md_tasks := md_tasks s;
     md_metadata_load_tasks := d; md_stale_incidents := md_stale_incidents s; md_connects := md_connects s |}.

Definition set_incidents (d : dict string (Q * Z)) (s : Metadata) : Metadata :=
  {| md_now := md_now s; md_ttl_seconds := md_ttl_seconds s; md_caches := md_caches s; md_tasks := md_tasks s;
     md_metadata_load_tasks := md_metadata_load_tasks s; md_stale_incidents := d; md_connects := md_connects s |}.

(** The loads that a [connect] waits for. *)
Definition set_connects (l : list nat) (s : Metadata) : Metadata :=
  {| md_now := md_now s; md_ttl_seconds := md_ttl_seconds s; md_caches := md_caches s; md_tasks := md_tasks s;
     md_metadata_load_tasks := md_metadata_load_tasks s; md_stale_incidents := md_stale_incidents s; md_connects := l |}.

(** The client before anything was asked of it. *)
Definition new_metadata (ttl_seconds : Z) : Metadata :=
  {| md_now := 0; md_ttl_seconds := Z.max 0 ttl_seconds; md_caches := ∅; md_tasks := []; md_metadata_load_tasks := ∅; md_stale_incidents := ∅; md_connects := [] |}.

Definition fresh (cached : Cached V) (s : Metadata) : bool := is_metadata_cache_entry_fresh (md_now s) (md_ttl_seconds s) cached.1.

Definition set_load (id : nat) (load : LoadState) (called_back : bool) (s : Metadata) : Metadata :=
  match md_tasks s !! id with
  | Some t => set_tasks (<[id := {| lt_key := lt_key t; lt_state := load; lt_called_back := called_back |}]> (md_tasks s)) s
  | None => s
  end.

(** [_start_metadata_load]: the load of the table, or a new one. *)
Definition start_metadata_load (key : string) (s : Metadata) : Metadata * nat :=
  match md_metadata_load_tasks s !! key with
  | Some id => (s, id)
  | None =>
      let id := length (md_tasks s) in
      (set_load_tasks (<[key := id]> (md_metadata_load_tasks s))
         (set_tasks (md_tasks s ++ [{| lt_key := key; lt_state := Scheduled; lt_called_back := false |}]) s), id)
  end.

(** What a call comes to: a value at once, or the outcome of a load. *)
Inductive Answer := Served (v : V) | Awaits (id : nat).

(** [_coalesce_metadata_load]: the load is shielded, so that a caller that is cancelled does not end it. *)
Definition coalesce_metadata_load (key : string) (s : Metadata) : Metadata * Answer :=
  let '(s, id) := start_metadata_load key s in (s, Awaits id).

Definition note_stale (key : string) (s : Metadata) : Metadata :=
  set_incidents (<[key := match md_stale_incidents s !! key with
                          | None => (md_now s, 0)
                          | Some (started_at, suppressed_events) => (started_at, suppressed_events + 1)
                          end]> (md_stale_incidents s)) s.

(** [_get_cached_metadata]. *)
Definition get_cached_metadata (key : string) (s : Metadata) : Metadata * Answer :=
  match md_caches s !! key with
  | None => coalesce_metadata_load key s
  | Some cached => (if fresh cached s then s else (start_metadata_load key (note_stale key s)).1, Served cached.2)
  end.

(** [get_operational_limits] and [get_subscription_capabilities]: an entry is served without a look at its age. *)
Definition get_loaded (key : string) (s : Metadata) : Metadata * Answer :=
  match md_caches s !! key with
  | Some cached => (s, Served cached.2)
  | None => coalesce_metadata_load key s
  end.

Definition REFRESHED : list string := ["namespace_infos"; "object_types"].

Definition refreshed (key : string) : bool := bool_decide (key ∈ REFRESHED).

Definition get_metadata (key : string) (s : Metadata) : Metadata * Answer :=
  if refreshed key then get_cached_metadata key s else get_loaded key s.

(** The first step of a load: [_load_namespace_infos] and [_load_object_types] look at the cache again. *)
Definition begin_load (id : nat) (s : Metadata) : Metadata :=
  match md_tasks s !! id with
  | Some t =>
      match md_caches s !! lt_key t with
      | Some cached =>
          if (refreshed (lt_key t) && fresh cached s)%bool then set_load id (Ended (md_now s) (Some cached.2)) false s
          else set_load id Loading false s
      | None => set_load id Loading false s
      end
  | None => s
  end.

(** The end of a load: what it found goes to the cache; [None]: it raised or was cancelled. *)
Definition end_load (id : nat) (outcome : option V) (s : Metadata) : Metadata :=
  match md_tasks s !! id with
  | Some t =>
      let s := match outcome with Some v => set_caches (<[lt_key t := (Some (md_now s), v)]> (md_caches s)) s | None => s end in
      set_load id (Ended (md_now s) outcome) false s
  | None => s
  end.

(** [_finish_metadata_load]. *)
Definition finish_metadata_load (id : nat) (s : Metadata) : Metadata :=
  match md_tasks s !! id with
  | Some t =>
      let s := if bool_decide (md_metadata_load_tasks s !! lt_key t = Some id) then set_load_tasks (delete (lt_key t) (md_metadata_load_tasks s)) s else s in
      let s := set_load id (lt_state t) true s in
      match lt_state t with
      | Ended _ (Some _) => set_incidents (delete (lt_key t) (md_stale_incidents s)) s
      | _ => s
      end
  | None => s
  end.

(** ** The connection *)

(** [_on_asyncua_reconnected]: limits and capabilities are forgotten, the expensive entries become stale. *)
Definition reconnected (s : Metadata) : Metadata :=
  set_caches (dict_map invalidate_metadata_entry (dict_filter_keys refreshed (md_caches s))) s.

Definition LIMITS : string := "operational_limits".

(** [connect] asks for the limits; what is served at once it stores at once, which changes nothing. *)
Definition connect_limits (s : Metadata) : Metadata :=
  match get_loaded LIMITS s with
  | (s, Awaits id) => set_connects (id :: md_connects s) s
  | (s, Served _) => s
  end.

Fixpoint without (id : nat) (l : list nat) : list nat :=
  match l with [] => [] | x :: l' => if Nat.eqb x id then l' else x :: without id l' end.

(** It goes on after its load has ended with a value, and stores that. *)
Definition connect_stores (id : nat) (s : Metadata) : Metadata :=
  match lt_state <$> md_tasks s !! id with
  | Some (Ended at_ (Some v)) =>
      set_connects (without id (md_connects s)) (set_caches (<[LIMITS := (Some at_, v)]> (md_caches s)) s)
  | _ => s
  end.

(** [disconnect] forgets all entries; loads go on. *)
Definition disconnected (s : Metadata) : Metadata := set_caches ∅ s.

(** ** Steps of the event loop *)

Inductive Event :=
  | Get (key : string)
  | Elapse (seconds : Q)
  | Begin (id : nat)
  | End (id : nat) (outcome : option V)
  | Callback (id : nat)
  | Connect
  | ConnectStores (id : nat)
  | Reconnected
  | Disconnected.

(** What may happen. *)
Definition may_happen (e : Event) (s : Metadata) : bool :=
  match e with
  | Elapse seconds => Qle_bool 0 seconds
  | Begin id => match md_tasks s !! id with Some t => match lt_state t with Scheduled => true | _ => false end | None => false end
  | End id _ => match md_tasks s !! id with Some t => match lt_state t with Loading => true | _ => false end | None => false end
  | Callback id =>
      match md_tasks s !! id with
      | Some t => match lt_state t with Ended _ _ => negb (lt_called_back t) | _ => false end
      | None => false
      end
  | ConnectStores id =>
      (bool_decide (id ∈ md_connects s) && match lt_state <$> md_tasks s !! id with Some (Ended _ (Some _)) => true | _ => false end)%bool
  | _ => true
  end.

Definition happen (e : Event) (s : Metadata) : Metadata :=
  match e with
  | Get key => (get_metadata key s).1
  | Elapse seconds => set_now (md_now s + seconds) s
  | Begin id => begin_load id s
  | End id outcome => end_load id outcome s
  | Callback id => finish_metadata_load id s
  | Connect => connect_limits s
  | ConnectStores id => connect_stores id s
  | Reconnected => reconnected s
  | Disconnected => disconnected s
  end.

Fixpoint happens (l : list Event) (s : Metadata) : option Metadata :=
  match l with
  | [] => Some s
  | e :: l' => if may_happen e s then happens l' (happen e s) else None
  end.
End Metadata.
End MetadataCache.

(** ** What the metadata cache promises: one load of a key at a time, values that the server gave, their age, and which
    loads a reconnect does not reach. *)
Local Open Scope string_scope.
Local Open Scope list_scope.
Local Open Scope Z_scope.

Module MetadataCacheSpec.
Import MetadataCache.

Section Metadata.
Context {V : Type}.
Implicit Types (s : Metadata (V := V)) (l : list (Event (V := V))).

(** ** Loads and the table *)

Definition task s (id : nat) (t : LoadTask (V := V)) : Prop := md_tasks s !! id = Some t.

(** A load of the key that is to begin or is under way. *)
Definition loading s (key : string) (id : nat) : Prop :=
  exists t, task s id t /\ lt_key t = key /\ (lt_state t = Scheduled \/ lt_state t = Loading).

(** The load that the table has for the key: one whose callback has not run. *)
Definition on_table s (key : string) (id : nat) : Prop :=
  exists t, task s id t /\ lt_key t = key /\ lt_called_back t = false.

(** The load gave the value, at that time. *)
Definition gave s (key : string) (id : nat) (q : Q) (v : V) : Prop :=
  exists t, task s id t /\ lt_key t = key /\ lt_state t = Ended q (Some v).

(** The callback runs after the end. *)
Definition task_ok (t : LoadTask (V := V)) : Prop := lt_called_back t = true -> exists q o, lt_state t = Ended q o.

Record good s : Prop := {
  g_table : forall key id, md_metadata_load_tasks s !! key = Some id <-> on_table s key id;
  g_tasks : forall id t, task s id t -> task_ok t;
  g_cached : forall key at_ v, md_caches s !! key = Some (at_, v) ->
    exists id q, gave s key id q v /\ (q <= md_now s)%Q /\ (forall t, at_ = Some t -> t = q);
  g_stale : forall key id cached, loading s key id -> md_caches s !! key = Some cached -> refreshed key = true -> fresh cached s = false;
  g_connects : forall id, id ∈ md_connects s -> exists t, task s id t /\ lt_key t = LIMITS;
  g_ended : forall id t q o, task s id t -> lt_state t = Ended q o -> (q <= md_now s)%Q;
}.

Lemma loading_on_table s key id : good s -> loading s key id -> on_table s key id.
Proof.
  intros Hs (t & Ht & Hk & Hl). exists t. split_and!; [done|done|]. destruct (lt_called_back t) eqn:Hc; [|done].
  destruct (g_tasks s Hs id t Ht Hc) as (q & o & Ho). rewrite Ho in Hl. by destruct Hl.
Qed.

Lemma one_load s key i j : good s -> loading s key i -> loading s key j -> i = j.
Proof.
  intros Hs Hi%loading_on_table Hj%loading_on_table; [|done..]. apply (g_table s Hs) in Hi, Hj. congruence.
Qed.

(** ** Changes of the tasks *)

Lemma task_set_load s id x b j t :
  task (set_load id x b s) j t <->
  (j = id /\ exists t0, task s id t0 /\ t = {| lt_key := lt_key t0; lt_state := x; lt_called_back := b |}) \/ (j <> id /\ task s j t).
Proof.
  unfold task, set_load. destruct (md_tasks s !! id) as [t0|] eqn:E; cbn.
  - destruct (decide (j = id)) as [->|Hne].
    + rewrite list_lookup_insert_eq by (by eapply lookup_lt_Some). naive_solver.
    + rewrite list_lookup_insert_ne by done. naive_solver.
  - destruct (decide (j = id)) as [->|Hne]; [rewrite E|]; naive_solver.
Qed.

Lemma set_load_rest id x b s :
  md_now (set_load id x b s) = md_now s /\ md_ttl_seconds (set_load id x b s) = md_ttl_seconds s /\ md_caches (set_load id x b s) = md_caches s /\
  md_metadata_load_tasks (set_load id x b s) = md_metadata_load_tasks s.
Proof. unfold set_load. by destruct (md_tasks s !! id). Qed.

Lemma set_load_connects id x b s : md_connects (set_load id x b s) = md_connects s.
Proof. unfold set_load. by destruct (md_tasks s !! id). Qed.

Lemma set_load_keys id x b s j t : task s j t -> exists t', task (set_load id x b s) j t' /\ lt_key t' = lt_key t.
Proof.
  intros Ht. destruct (decide (j = id)) as [->|Hne].
  - eexists. split; [apply task_set_load; left; split; [done|by exists t]|done].
  - exists t. split; [by apply task_set_load; right|done].
Qed.

(** What [start_metadata_load] does: nothing, or a new task on the table. *)
Lemma start_spec key s :
  good s ->
  let '(s', id) := start_metadata_load key s in
  md_metadata_load_tasks s' !! key = Some id /\ md_caches s' = md_caches s /\ md_now s' = md_now s /\ md_ttl_seconds s' = md_ttl_seconds s /\
  md_stale_incidents s' = md_stale_incidents s /\
  (s' = s \/ md_metadata_load_tasks s !! key = None /\ id = length (md_tasks s) /\ md_metadata_load_tasks s' = <[key := id]> (md_metadata_load_tasks s) /\
             md_tasks s' = md_tasks s ++ [{| lt_key := key; lt_state := Scheduled; lt_called_back := false |}]).
Proof.
  intros Hs. unfold start_metadata_load. destruct (md_metadata_load_tasks s !! key) as [id|] eqn:E; cbn; [split_and!; auto|].
  split_and!; try done; [by rewrite dict_lookup_insert_eq|by right].
Qed.

Lemma task_snoc s s' t0 id t :
  md_tasks s' = md_tasks s ++ [t0] -> task s' id t <-> task s id t \/ id = length (md_tasks s) /\ t = t0.
Proof.
  intros H. unfold task. rewrite H. split.
  - intros [?|[Hl Hx]]%lookup_app_Some; [by left|right]. apply list_lookup_singleton_Some in Hx as [Hx ->]. split; [lia|done].
  - intros [Hx|[-> ->]]; [by apply lookup_app_l_Some|]. by apply list_lookup_middle.
Qed.

Lemma start_connects key s : md_connects (start_metadata_load key s).1 = md_connects s.
Proof. unfold start_metadata_load. by destruct (md_metadata_load_tasks s !! key). Qed.

Lemma start_good key s :
  good s -> (forall cached, md_caches s !! key = Some cached -> refreshed key = true -> fresh cached s = false) -> good (start_metadata_load key s).1.
Proof.
  intros Hs Hstale. pose proof (start_spec key s Hs) as H. pose proof (start_connects key s) as Hcon. destruct (start_metadata_load key s) as [s' id]. cbn in Hcon |- *.
  destruct H as (Hid & Hc & Hn & Httl & _ & [->|(Hnone & -> & Ht & Htasks)]); [done|].
  pose proof (fun i t => task_snoc s s' _ i t Htasks) as Htask. split.
  - intros k i. rewrite Ht, dict_lookup_insert. unfold on_table. setoid_rewrite Htask. case_bool_decide as Hk.
    + subst k. split; [intros [= <-]; eexists; split_and!; [by right|done|done]|].
      intros (t & [Hx|[-> ->]] & Hkey & Hcb); [|done]. exfalso.
      assert (Hon : on_table s key i) by (by exists t). apply (g_table s Hs) in Hon. congruence.
    + rewrite (g_table s Hs). split; [intros (t & ? & ? & ?); exists t; auto|]. intros (t & [Hx|[-> ->]] & Hkey & Hcb); [by exists t|done].
  - intros i t [Hx|[-> ->]]%Htask; [by eapply g_tasks|done].
  - intros k at_ v Hv. rewrite Hc in Hv. destruct (g_cached s Hs k at_ v Hv) as (i & q & (t & Hx & Hg) & Hq & Hat). exists i, q. split_and!; [|by rewrite Hn|done].
    exists t. split; [by apply Htask; left|done].
  - intros k i cached (t & [Hx|[-> ->]]%Htask & Hk & Hl) Hv; rewrite Hc in Hv; unfold fresh; rewrite Hn, Httl.
    + eapply (g_stale s Hs); [|done]. by exists t.
    + cbn in Hk. subst k. by apply Hstale.
  - intros i Hi. rewrite Hcon in Hi. destruct (g_connects s Hs i Hi) as (t & Hx & Hk). exists t. split; [apply Htask; by left|done].
  - intros i t q o [Hx|[-> ->]]%Htask; [rewrite Hn; by eapply g_ended|done].
Qed.

Lemma incidents_good d s : good s -> good (set_incidents d s).
Proof. intros [H1 H2 H3 H4 H5 H6]. by split. Qed.

Lemma get_metadata_good key s : good s -> good (get_metadata key s).1.
Proof.
  intros Hs. unfold get_metadata, get_cached_metadata, get_loaded, coalesce_metadata_load.
  assert (Hcold : md_caches s !! key = None -> good (let '(s0, id) := start_metadata_load key s in (s0, Awaits (V := V) id)).1).
  { intros Hn. pose proof (start_good key s Hs) as H. destruct (start_metadata_load key s). apply H. congruence. }
  destruct (refreshed key) eqn:Hr, (md_caches s !! key) as [cached|] eqn:E; auto; cbn.
  destruct (fresh cached s) eqn:Hf; [done|]. apply start_good; [by apply incidents_good|]. intros c. cbn. rewrite E. by intros [= <-].
Qed.

Lemma fresh_later q (cached : Cached V) s : (0 <= q)%Q -> fresh cached s = false -> fresh cached (set_now (md_now s + q) s) = false.
Proof.
  unfold fresh, is_metadata_cache_entry_fresh. cbn. destruct cached.1; [|done]. destruct (md_ttl_seconds s =? 0); [done|]. intros Hq H.
  apply not_true_iff_false. apply not_true_iff_false in H. rewrite Qle_bool_iff in *. intros Hle. apply H. eapply Qle_trans; [|exact Hle].
  apply Qplus_le_compat; [|apply Qle_refl]. rewrite <- (Qplus_0_r (md_now s)) at 1. apply Qplus_le_compat; [apply Qle_refl|done].
Qed.

Lemma elapse_good q s : (0 <= q)%Q -> good s -> good (set_now (md_now s + q) s).
Proof.
  intros Hq Hs. split; [apply Hs|apply Hs| | |apply Hs|].
  - intros key at_ v Hv. destruct (g_cached s Hs key at_ v Hv) as (id & e & Hg & He & Hat). exists id, e. split_and!; [done| |done]. cbn.
    eapply Qle_trans; [exact He|]. rewrite <- (Qplus_0_r (md_now s)) at 1. by apply Qplus_le_compat; [apply Qle_refl|].
  - intros key id cached Hl Hv Hr. apply fresh_later; [done|]. by eapply (g_stale s Hs key id).
  - intros id t e o Ht He. cbn. eapply Qle_trans; [by eapply (g_ended s Hs)|]. rewrite <-(Qplus_0_r (md_now s)) at 1. by apply Qplus_le_compat; [apply Qle_refl|].
Qed.

(** A load that begins finds no fresh entry: the first look of the loaders is never a hit. *)
Lemma begin_loads id t s : good s -> task s id t -> lt_state t = Scheduled -> begin_load id s = set_load id Loading false s.
Proof.
  intros Hs Ht Hst. unfold begin_load. rewrite Ht. destruct (md_caches s !! lt_key t) as [cached|] eqn:E; [|done].
  destruct (refreshed (lt_key t)) eqn:Hr; [|done]. rewrite (g_stale s Hs (lt_key t) id cached); [done|exists t; auto|done|done].
Qed.

Lemma gave_set_load id t x b s key j q v :
  task s id t -> (forall e o, lt_state t = Ended e o -> x = lt_state t) -> gave s key j q v -> gave (set_load id x b s) key j q v.
Proof.
  intros Ht Hx (t' & Ht' & Hk & Hg). destruct (decide (j = id)) as [->|Hne].
  - assert (t' = t) as -> by (unfold task in *; congruence). eexists. split; [by apply task_set_load; left; split; [|exists t]|]. cbn.
    split; [done|]. rewrite (Hx _ _ Hg). done.
  - exists t'. split; [by apply task_set_load; right|done].
Qed.

Lemma loading_set_load id t x b s key j :
  task s id t -> (x = Scheduled \/ x = Loading -> lt_state t = Scheduled \/ lt_state t = Loading) -> loading (set_load id x b s) key j -> loading s key j.
Proof.
  intros Ht Hx (t' & [(-> & t0 & Ht0 & ->)|[Hne Ht']]%task_set_load & Hk & Hl); [|by exists t'].
  assert (t0 = t) as -> by (unfold task in *; congruence). exists t. cbn in Hl. auto.
Qed.

(** A step of a load that stays on the table. *)
Lemma set_load_good id t x s :
  good s -> task s id t -> lt_called_back t = false -> (forall e o, lt_state t = Ended e o -> x = lt_state t) ->
  (x = Scheduled \/ x = Loading -> lt_state t = Scheduled \/ lt_state t = Loading) -> (forall q o, x = Ended q o -> (q <= md_now s)%Q) ->
  good (set_load id x false s).
Proof.
  intros Hs Ht Hcb Hended Hl Htime. destruct (set_load_rest id x false s) as (Hn & Httl & Hc & Hm). split.
  - intros key j. rewrite Hm, (g_table s Hs). unfold on_table. setoid_rewrite task_set_load. split.
    + intros (t' & Ht' & Hk & Hcb'). destruct (decide (j = id)) as [->|Hne]; [|by exists t'; auto].
      eexists. split; [left; split; [done|by exists t']|done].
    + intros (t' & [(-> & t0 & Ht0 & ->)|[Hne Ht']] & Hk & Hcb'); [|by exists t']. exists t0. split_and!; [done|done|]. unfold task in *. congruence.
  - intros j t' [(-> & t0 & Ht0 & ->)|[Hne Ht']]%task_set_load; [done|by eapply g_tasks].
  - intros key at_ v Hv. rewrite Hc in Hv. destruct (g_cached s Hs key at_ v Hv) as (j & q & Hg & Hq & Hat). exists j, q.
    split_and!; [by eapply gave_set_load|by rewrite Hn|done].
  - intros key j cached Hload Hv. rewrite Hc in Hv. unfold fresh. rewrite Hn, Httl. eapply (g_stale s Hs); [|done]. by eapply loading_set_load.
  - intros j Hj. rewrite set_load_connects in Hj. destruct (g_connects s Hs j Hj) as (t' & Hx & Hk).
    destruct (set_load_keys id x false s j t' Hx) as (t2 & H2 & Hk2). exists t2. split; [done|congruence].
  - intros j t' q o [(-> & t0 & Ht0 & ->)|[Hne Ht']]%task_set_load Ho; rewrite Hn; [by eapply Htime|by eapply (g_ended s Hs)].
Qed.

Lemma scheduled_open id t s : good s -> task s id t -> (lt_state t = Scheduled \/ lt_state t = Loading) -> lt_called_back t = false.
Proof. intros Hs Ht Hl. destruct (lt_called_back t) eqn:Hcb; [|done]. destruct (g_tasks s Hs id t Ht Hcb) as (q & o & Ho). rewrite Ho in Hl. by destruct Hl. Qed.

Lemma begin_good id t s : good s -> task s id t -> lt_state t = Scheduled -> good (begin_load id s).
Proof.
  intros Hs Ht Hst. rewrite (begin_loads id t) by done. apply (set_load_good id t); auto; [by eapply scheduled_open; auto|congruence|done].
Qed.

(** The end of a load: its key has no other load, so that the new entry makes none superfluous. *)
Lemma end_good id t outcome s : good s -> task s id t -> lt_state t = Loading -> good (end_load id outcome s).
Proof.
  intros Hs Ht Hst.
  assert (Hopen : lt_called_back t = false) by (by eapply scheduled_open; auto).
  assert (Hg : good (set_load id (Ended (md_now s) outcome) false s)) by (apply (set_load_good id t); try done; [congruence|by intros [|]|intros q o [= <- _]; apply Qle_refl]).
  destruct outcome as [v|]; [|unfold end_load; by rewrite Ht]. set (s0 := set_load id (Ended (md_now s) (Some v)) false s) in *.
  assert (Hend : end_load id (Some v) s = set_caches (<[lt_key t:=(Some (md_now s), v)]> (md_caches s0)) s0).
  { unfold end_load, s0, set_load, task in *. rewrite Ht. cbn. by rewrite Ht. }
  rewrite Hend. destruct (set_load_rest id (Ended (md_now s) (Some v)) false s) as (Hn & _ & Hc & _). split; [apply Hg|apply Hg| | |apply Hg|apply Hg].
  - intros key at_ w. cbn. rewrite dict_lookup_insert. case_bool_decide as Hk.
    + intros [= <- <-]. exists id, (md_now s). subst key. unfold s0. rewrite Hn. split_and!; [|apply Qle_refl|congruence].
      eexists. split; [by apply task_set_load; left; split; [|exists t]|done].
    + intros Hv. exact (g_cached s0 Hg key at_ w Hv).
  - intros key j cached Hl. cbn. rewrite dict_lookup_insert. case_bool_decide as Hk; [|intros Hv; exact (g_stale s0 Hg key j cached Hl Hv)].
    exfalso. subst key. assert (Hold : loading s (lt_key t) j).
    { eapply (loading_set_load id t); [done| |exact Hl]. by intros [|]. }
    assert (j = id) as ->. { eapply (one_load s); [done|exact Hold|]. exists t. auto. }
    destruct Hl as (t' & [(_ & t0 & _ & ->)|[? _]]%task_set_load & _ & [|]); done.
Qed.

Lemma callback_good id t q o s : good s -> task s id t -> lt_state t = Ended q o -> lt_called_back t = false -> good (finish_metadata_load id s).
Proof.
  intros Hs Ht Hst Hcb. unfold finish_metadata_load. rewrite Ht, Hst.
  assert (Hon : md_metadata_load_tasks s !! lt_key t = Some id) by (apply (g_table s Hs); by exists t).
  rewrite bool_decide_true by done. set (s1 := set_load_tasks _ s).
  assert (Hgood : good (set_load id (Ended q o) true s1)).
  { assert (Ht1 : task s1 id t) by done. destruct (set_load_rest id (Ended q o) true s1) as (Hn & Httl & Hc & Hm). split.
    - intros key j. rewrite Hm. cbn. rewrite dict_lookup_delete. case_bool_decide as Hk.
      + split; [done|]. subst key. intros (t' & [(-> & t0 & Ht0 & ->)|[Hne Ht']]%task_set_load & Hkey & Hcb'); [done|]. exfalso. apply Hne.
        assert (Hon' : on_table s (lt_key t) j) by (by exists t'). apply (g_table s Hs) in Hon'. congruence.
      + rewrite (g_table s Hs). unfold on_table. setoid_rewrite task_set_load. split.
        * intros (t' & Ht' & Hkey & Hcb'). exists t'. split_and!; [|done|done]. right. split; [|done]. intros ->. unfold task in *. naive_solver.
        * intros (t' & [(-> & t0 & Ht0 & ->)|[Hne Ht']] & Hkey & Hcb'); [done|]. by exists t'.
    - intros j t' [(-> & t0 & Ht0 & ->)|[Hne Ht']]%task_set_load; [intros _; by exists q, o|by apply (g_tasks s Hs) in Ht'].
    - intros key at_ v Hv. rewrite Hc in Hv. destruct (g_cached s Hs key at_ v Hv) as (j & e & Hg & He & Hat). exists j, e.
      split_and!; [|by rewrite Hn|done]. eapply gave_set_load; [exact Ht1|congruence|exact Hg].
    - intros key j cached Hload Hv. rewrite Hc in Hv. unfold fresh. rewrite Hn, Httl. eapply (g_stale s Hs key j); [|done].
      eapply (loading_set_load id t _ _ s1) in Hload; [exact Hload|exact Ht1|]. by intros [|].
    - intros j Hj. rewrite set_load_connects in Hj. destruct (g_connects s Hs j Hj) as (t' & Hx & Hk).
      destruct (set_load_keys id (Ended q o) true s1 j t' Hx) as (t2 & H2 & Hk2). exists t2. split; [done|congruence].
    - intros j t' e e' [(-> & t0 & Ht0 & ->)|[Hne Ht']]%task_set_load Ho; rewrite Hn; [injection Ho as <- _; exact (g_ended s Hs id t q o Ht Hst)|exact (g_ended s Hs j t' _ _ Ht' Ho)]. }
  destruct o; [by apply incidents_good|done].
Qed.

Lemma dict_lookup_filter_map key s cached :
  md_caches (reconnected s) !! key = Some cached -> exists c, md_caches s !! key = Some c /\ cached = (None, c.2) /\ refreshed key = true.
Proof.
  unfold reconnected. cbn. rewrite dict_lookup_map, dict_lookup_filter_keys. destruct (refreshed key) eqn:Hr; [|done].
  destruct (md_caches s !! key) as [c|]; [|done]. intros [= <-]. by exists c.
Qed.

Lemma reconnected_good s : good s -> good (reconnected s).
Proof.
  intros Hs. split; [apply Hs|apply Hs| | |apply Hs|apply Hs].
  - intros key at_ v ([at0 v0] & Hc & [= -> ->] & _)%dict_lookup_filter_map. destruct (g_cached s Hs key at0 v0 Hc) as (id & q & Hg & Hq & _).
    by exists id, q.
  - intros key id cached _ (c & _ & -> & Hr)%dict_lookup_filter_map. done.
Qed.

Lemma disconnected_good s : good s -> good (disconnected s).
Proof. intros Hs. split; [apply Hs|apply Hs|done|done|apply Hs|apply Hs]. Qed.

Lemma connect_good s : good s -> good (connect_limits s).
Proof.
  intros Hs. unfold connect_limits, get_loaded, coalesce_metadata_load. destruct (md_caches s !! LIMITS) as [cached|] eqn:E; [done|].
  assert (Hg : good (start_metadata_load LIMITS s).1) by (apply start_good; [done|congruence]).
  pose proof (start_spec LIMITS s Hs) as Hstart. destruct (start_metadata_load LIMITS s) as [s' id]. cbn in Hg |- *.
  split; [apply Hg|apply Hg|apply Hg|apply Hg| |apply Hg]. intros i [->|Hi]%elem_of_cons; [|by apply (g_connects s' Hg)].
  destruct Hstart as (Hid & _). apply (g_table s' Hg) in Hid as (t & Ht & Hk & _). by exists t.
Qed.

Lemma elem_of_without id (ids : list nat) j : j ∈ without id ids -> j ∈ ids.
Proof. induction ids as [|x ids IH]; cbn; [done|]. destruct (Nat.eqb x id); [by right|]. intros [->|Hj]%elem_of_cons; [by left|right; auto]. Qed.

Lemma stores_good id s : good s -> may_happen (ConnectStores id) s = true -> good (connect_stores id s).
Proof.
  intros Hs [Hid%bool_decide_eq_true He]%andb_true_iff. destruct (g_connects s Hs id Hid) as (t & Ht & Hk). unfold task in Ht.
  unfold connect_stores. rewrite Ht in *. cbn in He |- *. destruct (lt_state t) as [| |q [v|]] eqn:Hst; try done.
  split; [apply Hs|apply Hs| | | |apply Hs].
  - intros key at_ w. cbn. rewrite dict_lookup_insert. case_bool_decide as E; [|apply (g_cached s Hs)]. intros [= <- <-]. subst key.
    pose proof (g_ended s Hs id t q (Some v) Ht Hst) as Hq. exists id, q. split_and!; [by exists t|done|congruence].
  - intros key j cached Hl. cbn. rewrite dict_lookup_insert. case_bool_decide as E; [|apply (g_stale s Hs key j cached Hl)].
    subst key. intros _ Hr. vm_compute in Hr. discriminate Hr.
  - intros j Hj. apply (g_connects s Hs). exact (elem_of_without _ _ _ Hj).
Qed.

Lemma happen_good e s : good s -> may_happen e s = true -> good (happen e s).
Proof.
  intros Hs. destruct e as [key|q|id|id outcome|id| |id| |]; cbn [happen may_happen]; intros He.
  - by apply get_metadata_good.
  - apply elapse_good; [by apply Qle_bool_iff|done].
  - destruct (md_tasks s !! id) as [t|] eqn:Ht; [|done]. destruct (lt_state t) eqn:Hst; try done. by eapply begin_good.
  - destruct (md_tasks s !! id) as [t|] eqn:Ht; [|done]. destruct (lt_state t) eqn:Hst; try done. by eapply end_good.
  - destruct (md_tasks s !! id) as [t|] eqn:Ht; [|done]. destruct (lt_state t) eqn:Hst; try done. eapply callback_good; try done. by apply negb_true_iff.
  - by apply connect_good.
  - by apply stores_good.
  - by apply reconnected_good.
  - by apply disconnected_good.
Qed.
Lemma new_good ttl : good (new_metadata ttl).
Proof.
  split; [|done|done|done|by intros id Hid%elem_of_nil|done]. intros key id. split; [done|]. by intros (t & Ht & _).
Qed.

Lemma happens_snoc l e s s' : happens (l ++ [e]) s = Some s' <-> exists s1, happens l s = Some s1 /\ may_happen e s1 = true /\ s' = happen e s1.
Proof.
  revert s. induction l as [|e0 l IH]; intros s; cbn [app happens].
  - destruct (may_happen e s) eqn:He; split; [intros [= <-]; by exists s|by intros (? & [= <-] & _ & ->)|done|].
    intros (s1 & Hs1 & He1 & _). injection Hs1 as <-. congruence.
  - destruct (may_happen e0 s); [apply IH|]. split; [done|]. by intros (? & ? & _).
Qed.

Lemma happens_good l s s' : good s -> happens l s = Some s' -> good s'.
Proof.
  revert s'. induction l as [|e l IH] using rev_ind; intros s' Hs H; [by injection H as <-|].
  apply happens_snoc in H as (s1 & H & He & ->). apply happen_good; auto.
Qed.

(** ** Entries and their loads *)

Lemma gave_snoc s s' t0 key id q v : md_tasks s' = md_tasks s ++ [t0] -> gave s key id q v -> gave s' key id q v.
Proof. intros H (t & Ht & Hk & Hg). exists t. split; [|done]. by apply (task_snoc s s' t0); [|left]. Qed.

(** What a call does to the state: nothing to the entries, and at most a new load. *)
Lemma get_metadata_state key s :
  good s -> let s' := (get_metadata key s).1 in
  md_caches s' = md_caches s /\ md_now s' = md_now s /\ md_ttl_seconds s' = md_ttl_seconds s /\ forall k id q v, gave s k id q v -> gave s' k id q v.
Proof.
  intros Hs. unfold get_metadata, get_cached_metadata, get_loaded, coalesce_metadata_load.
  assert (Hstart : forall s0, good s0 -> let s' := (start_metadata_load key s0).1 in
    md_caches s' = md_caches s0 /\ md_now s' = md_now s0 /\ md_ttl_seconds s' = md_ttl_seconds s0 /\ forall k id q v, gave s0 k id q v -> gave s' k id q v).
  { intros s0 Hs0. pose proof (start_spec key s0 Hs0) as H. destruct (start_metadata_load key s0) as [s' id]. cbn.
    destruct H as (_ & Hc & Hn & Httl & _ & Htasks). split_and!; try done. intros k i q v. destruct Htasks as [->|(_ & _ & _ & Htasks)]; [done|]. by eapply gave_snoc. }
  destruct (refreshed key), (md_caches s !! key) as [cached|]; cbn; try by split_and!.
  - destruct (fresh cached s); [by split_and!|]. apply (Hstart (note_stale key s)). by apply incidents_good.
  - specialize (Hstart s Hs). by destruct (start_metadata_load key s).
  - specialize (Hstart s Hs). by destruct (start_metadata_load key s).
Qed.

Lemma connect_state s :
  good s -> let s' := connect_limits s in
  md_caches s' = md_caches s /\ md_now s' = md_now s /\ md_ttl_seconds s' = md_ttl_seconds s /\ forall k id q v, gave s k id q v -> gave s' k id q v.
Proof.
  intros Hs. pose proof (get_metadata_state LIMITS s Hs) as H. unfold connect_limits.
  change (get_metadata LIMITS s) with (get_loaded LIMITS s) in H. by destruct (get_loaded LIMITS s) as [s' []].
Qed.

(** The values that loads gave stay. *)
Lemma happen_gave e s key id q v : good s -> may_happen e s = true -> gave s key id q v -> gave (happen e s) key id q v.
Proof.
  intros Hs. destruct e as [k|d|i|i outcome|i| |i| |]; cbn; intros He Hg; try done;
    [by apply get_metadata_state| | | |by apply connect_state|by unfold connect_stores; repeat case_match|..];
    (destruct (md_tasks s !! i) as [t|] eqn:Ht; [|done]); destruct (lt_state t) as [| |e0 o0] eqn:Hst; try done.
  - rewrite (begin_loads i t) by done. eapply gave_set_load; [done|congruence|done].
  - unfold end_load. rewrite Ht. destruct outcome; (eapply gave_set_load; [exact Ht|congruence|exact Hg]).
  - unfold finish_metadata_load. rewrite Ht, Hst. destruct o0; case_bool_decide; (eapply gave_set_load; [exact Ht|congruence|exact Hg]).
Qed.

Lemma happen_ttl e s : good s -> may_happen e s = true -> md_ttl_seconds (happen e s) = md_ttl_seconds s.
Proof.
  intros Hs. destruct e as [k|d|i|i outcome|i| |i| |]; cbn; intros He; try done;
    [by apply get_metadata_state| | | |by apply connect_state|by unfold connect_stores; repeat case_match|..];
    (destruct (md_tasks s !! i) as [t|] eqn:Ht; [|done]); destruct (lt_state t) as [| |e0 o0] eqn:Hst; try done.
  - rewrite (begin_loads i t) by done. apply set_load_rest.
  - unfold end_load. rewrite Ht. destruct outcome; [|apply set_load_rest]. etransitivity; [apply set_load_rest|done].
  - unfold finish_metadata_load. rewrite Ht, Hst. destruct o0; case_bool_decide; (etransitivity; [apply set_load_rest|done]).
Qed.

(** The event happened on the present connection: no reconnect and no disconnect came after it. *)
Definition since_connection l (e : Event (V := V)) : Prop := exists l1 l2, l = l1 ++ e :: l2 /\ Reconnected ∉ l2 /\ Disconnected ∉ l2.

Lemma since_now l e : since_connection (l ++ [e]) e.
Proof. exists l, []. split_and!; [done|by intros ?%elem_of_nil..]. Qed.

Lemma since_keep l e e' : since_connection l e -> e' <> Reconnected -> e' <> Disconnected -> since_connection (l ++ [e']) e.
Proof. intros (l1 & l2 & -> & H1 & H2) Hr Hd. exists l1, (l2 ++ [e']). split_and!; [by rewrite <-app_assoc|set_solver|set_solver]. Qed.

(** Every entry with a time was given by a load that ended on this connection, or stored by a [connect] on it; the others are
    of keys that are refreshed. *)
Definition entries_ok l s : Prop :=
  forall key at_ v, md_caches s !! key = Some (at_, v) ->
    match at_ with
    | Some q => exists id, gave s key id q v /\ (since_connection l (End id (Some v)) \/ key = LIMITS /\ since_connection l (ConnectStores id))
    | None => refreshed key = true
    end.

Lemma entries_keep l e s s' :
  entries_ok l s -> e <> Reconnected -> e <> Disconnected -> md_caches s' = md_caches s -> (forall key id q v, gave s key id q v -> gave s' key id q v) ->
  entries_ok (l ++ [e]) s'.
Proof.
  intros Hs Hr Hd Hc Hg key at_ v Hv. rewrite Hc in Hv. specialize (Hs key at_ v Hv). destruct at_ as [q|]; [|done].
  destruct Hs as (id & H1 & H2). exists id. split; [by apply Hg|]. destruct H2 as [H2|[Hk H2]]; [left|right; split; [done|]]; by apply since_keep.
Qed.

(** A new entry among those that stay. *)
Lemma entries_insert l e s s' k q w id :
  entries_ok l s -> e <> Reconnected -> e <> Disconnected -> md_caches s' = <[k := (Some q, w)]> (md_caches s) ->
  (forall key id q v, gave s key id q v -> gave s' key id q v) ->
  gave s' k id q w -> e = End id (Some w) \/ k = LIMITS /\ e = ConnectStores id -> entries_ok (l ++ [e]) s'.
Proof.
  intros Hs Hr Hd Hc Hg Hgave He key at_ v. rewrite Hc, dict_lookup_insert. case_bool_decide as E.
  - intros [= <- <-]. subst key. exists id. split; [done|]. destruct He as [->|[Hk ->]]; [left|right; split; [done|]]; apply since_now.
  - intros Hv. specialize (Hs key at_ v Hv). destruct at_ as [q'|]; [|done]. destruct Hs as (i & H1 & H2). exists i. split; [by apply Hg|].
    destruct H2 as [H2|[Hk H2]]; [left|right; split; [done|]]; by apply since_keep.
Qed.

Lemma happen_entries l e s : good s -> may_happen e s = true -> entries_ok l s -> entries_ok (l ++ [e]) (happen e s).
Proof.
  intros Hs He Hl. pose proof (fun key id q v => happen_gave e s key id q v Hs He) as Hg.
  destruct e as [k|d|i|i outcome|i| |i| |]; cbn [happen may_happen] in *.
  - eapply entries_keep; try done. by apply get_metadata_state.
  - by eapply entries_keep.
  - destruct (md_tasks s !! i) as [t|] eqn:Ht; [|done]. destruct (lt_state t) eqn:Hst; try done. eapply entries_keep; try done.
    rewrite (begin_loads i t) by done. apply set_load_rest.
  - destruct (md_tasks s !! i) as [t|] eqn:Ht; [|done]. unfold end_load in *. rewrite Ht in *. destruct outcome as [v|]; [|eapply entries_keep; try done; apply set_load_rest].
    eapply (entries_insert l _ s _ (lt_key t) (md_now s) v i); try done; [apply set_load_rest| |by left].
    eexists. split; [by apply task_set_load; left; split; [|exists t]|done].
  - destruct (md_tasks s !! i) as [t|] eqn:Ht; [|done]. eapply entries_keep; try done. unfold finish_metadata_load. rewrite Ht.
    destruct (lt_state t) as [| |q [o|]], (bool_decide (md_metadata_load_tasks s !! lt_key t = Some i)); (etransitivity; [apply set_load_rest|done]).
  - eapply entries_keep; try done. by apply connect_state.
  - apply andb_true_iff in He as [Hid%bool_decide_eq_true He]. destruct (g_connects s Hs i Hid) as (t & Ht & Hk). unfold task in Ht.
    unfold connect_stores in *. rewrite Ht in *. cbn in He, Hg |- *. destruct (lt_state t) as [| |q [v|]] eqn:Hst; try done.
    eapply (entries_insert l _ s _ LIMITS q v i); try done; [|by right]. by exists t.
  - intros key at_ v (c & _ & [= -> ->] & Hr)%dict_lookup_filter_map. exact Hr.
  - by intros key at_ v.
Qed.

Lemma happens_entries l ttl s : happens l (new_metadata ttl) = Some s -> good s /\ entries_ok l s /\ md_ttl_seconds s = Z.max 0 ttl.
Proof.
  revert s. induction l as [|e l IH] using rev_ind; intros s H.
  - injection H as <-. split_and!; [apply new_good|by intros key at_ v|done].
  - apply happens_snoc in H as (s1 & H & He & ->). destruct (IH s1 H) as (Hs & Hl & Httl).
    split_and!; [by apply happen_good|by apply happen_entries|by rewrite happen_ttl].
Qed.

(** The load that the table has has ended, and its callback is about to take it off: until then no other load of the key
    starts. *)
Definition ending s key (id : nat) : Prop := exists t q o, task s id t /\ lt_key t = key /\ lt_state t = Ended q o /\ lt_called_back t = false.

Lemma on_table_cases s key id : on_table s key id -> loading s key id \/ ending s key id.
Proof.
  intros (t & Ht & Hk & Hcb). destruct (lt_state t) as [| |q o] eqn:Hst; [left; exists t; auto..|]. right. by exists t, q, o.
Qed.

(** C32. After any run of the event loop, a call for metadata never waits unless the client has none, and then it shares the
    one load of its key. A value served was given by a load of its key. Of namespaces and object types it is either within
    its time to live, and its load ended on the present connection, or it is stale, and a load of the key is to begin
    or under way, or has ended with its callback still to run (which stands in the way of a new one until then).
    Limits and capabilities have no time to live; they come from a load that ended on the present connection, or, the
    limits, from a [connect] that stored what it had waited for. There is never more than one load of a key. *)
Theorem metadata_served ttl l s key :
  happens l (new_metadata ttl) = Some s ->
  let '(s', answer) := get_metadata key s in
  (forall i j, loading s' key i -> loading s' key j -> i = j) /\
  match answer with
  | Served v => exists id q, gave s key id q v /\ (q <= md_now s)%Q /\
      if refreshed key
      then (ttl <= 0 \/ (md_now s - q <= inject_Z ttl)%Q) /\ since_connection l (End id (Some v)) \/
           (exists i, loading s' key i \/ ending s' key i)
      else since_connection l (End id (Some v)) \/ key = LIMITS /\ since_connection l (ConnectStores id)
  | Awaits id => md_caches s !! key = None /\ (loading s' key id \/ ending s' key id)
  end.
Proof.
  intros H. destruct (happens_entries l ttl s H) as (Hs & Hl & Httl). pose proof (get_metadata_good key s Hs) as Hs'.
  destruct (get_metadata key s) as [s' answer] eqn:E. split; [intros i j; by apply one_load|].
  assert (Hcold : md_caches s !! key = None -> (let '(s0, id) := start_metadata_load key s in (s0, Awaits (V := V) id)) = (s', answer) ->
    match answer with Served v => False | Awaits id => md_caches s !! key = None /\ (loading s' key id \/ ending s' key id) end).
  { intros Hn E'. pose proof (start_spec key s Hs) as Hstart. destruct (start_metadata_load key s) as [s0 id]. injection E' as -> <-. split; [done|].
    apply on_table_cases, (g_table s' Hs'). apply Hstart. }
  unfold get_metadata, get_cached_metadata, get_loaded, coalesce_metadata_load in E.
  destruct (md_caches s !! key) as [[at_ v]|] eqn:Hv.
  2: { assert (Hx := Hcold eq_refl). destruct (refreshed key); specialize (Hx E); by destruct answer. }
  assert (Hage : forall q, at_ = Some q -> exists id, gave s key id q v /\ (q <= md_now s)%Q /\
    (since_connection l (End id (Some v)) \/ key = LIMITS /\ since_connection l (ConnectStores id))).
  { intros q ->. destruct (Hl key _ v Hv) as (id & Hgave & Hsince). exists id. split_and!; [done| |done].
    destruct (g_cached s Hs key _ v Hv) as (i' & q' & _ & Hq & Hat). by rewrite (Hat q). }
  destruct (refreshed key) eqn:Hr.
  - destruct (fresh (at_, v) s) eqn:Hf; injection E as <- <-; cbn.
    + unfold fresh, is_metadata_cache_entry_fresh in Hf. cbn in Hf. destruct at_ as [q|]; [|done]. destruct (Hage q) as (id & Hgave & Hq & Hsince); [done|].
      exists id, q. split_and!; [done|done|]. left. split; [|destruct Hsince as [?|[-> _]]; [done|vm_compute in Hr; discriminate Hr]].
      rewrite Httl in Hf. destruct (Z.eqb_spec (Z.max 0 ttl) 0); [left; lia|]. right. rewrite Z.max_r in Hf by lia. by apply Qle_bool_iff.
    + destruct (g_cached s Hs key at_ v Hv) as (id & q & Hgave & Hq & _). exists id, q. split_and!; [done|done|]. right.
      pose proof (start_spec key (note_stale key s) (incidents_good _ _ Hs)) as Hstart. destruct (start_metadata_load key (note_stale key s)) as [s0 i] eqn:E0.
      exists i. cbn in Hs' |- *. apply on_table_cases, (g_table s0 Hs'). apply Hstart.
  - injection E as <- <-. cbn. destruct at_ as [q|]; [|by specialize (Hl key None v Hv); cbn in Hl; congruence].
    destruct (Hage q) as (id & Hgave & Hq & Hsince); [done|]. by exists id, q.
Qed.
End Metadata.

(** ** Runs *)

Abbreviation read s key := (get_metadata (V := string) key s).2.

(** Two calls while nothing is cached share a load; a value that is out of date is served while one load replaces it; after
    the load the new value is served. *)
Definition shared_load : list (Event (V := string)) :=
  [Get "object_types"; Get "object_types"; Begin 0; End 0 (Some "first"); Callback 0; Elapse 100; Get "object_types"; Begin 1].

Example shared_load_runs :
  match happens shared_load (new_metadata 60) with
  | Some s => read s "object_types" = Served "first" /\ length (md_tasks s) = 2%nat /\ dict_keys (md_stale_incidents s) = ["object_types"] /\
      match happens [End 1 (Some "second"); Callback 1] s with
      | Some s => read s "object_types" = Served "second" /\ length (md_tasks (get_metadata "object_types" s).1) = 2%nat /\ dict_keys (md_stale_incidents s) = []
      | None => False
      end
  | None => False
  end.
Proof. vm_compute. auto 10. Qed.

Lemma metadata_served_witness :
  exists s, happens shared_load (new_metadata 60) = Some s /\ read s "object_types" = Served "first" /\
  let '(s', answer) := get_metadata "object_types" s in
  (forall i j, loading s' "object_types" i -> loading s' "object_types" j -> i = j) /\
  match answer with
  | Served v => exists id q, gave s "object_types" id q v /\ (q <= md_now s)%Q /\
      if refreshed "object_types"
      then (60 <= 0 \/ (md_now s - q <= inject_Z 60)%Q) /\ since_connection shared_load (End id (Some v)) \/
           (exists i, loading s' "object_types" i \/ ending s' "object_types" i)
      else since_connection shared_load (End id (Some v)) \/ "object_types" = LIMITS /\ since_connection shared_load (ConnectStores id)
  | Awaits id => md_caches s !! "object_types" = None /\ (loading s' "object_types" id \/ ending s' "object_types" id)
  end.
Proof.
  eexists. split; [reflexivity|]. split; [reflexivity|]. exact (metadata_served 60 shared_load _ "object_types" eq_refl).
Defined.

(** A [connect] that waited for the limits stores them after a reconnect has cleared them: the limits of before the reconnect
    are served from then on. *)
Example connect_restores :
  match happens [Connect; Begin 0; End 0 (Some "before"); Reconnected; ConnectStores 0; Elapse 1000] (new_metadata 60) with
  | Some s => get_metadata LIMITS s = (s, Served "before")
  | None => False
  end.
Proof. vm_compute. reflexivity. Qed.

(** A load that began before a reconnect ends after it: what it found before is served like new, and nothing replaces it
    until it is out of date. *)
Example loaded_before_reconnect :
  match happens [Get "object_types"; Begin 0; Reconnected; End 0 (Some "before"); Callback 0] (new_metadata 60) with
  | Some s => get_metadata "object_types" s = (s, Served "before")
  | None => False
  end.
Proof. vm_compute. reflexivity. Qed.

(** Likewise a load that a disconnect finds under way fills the cache that the disconnect emptied, for the next connection. *)
Example loaded_before_disconnect :
  match happens [Get "operational_limits"; Begin 0; Disconnected; End 0 (Some "before"); Callback 0; Elapse 1000] (new_metadata 60) with
  | Some s => get_metadata "operational_limits" s = (s, Served "before")
  | None => False
  end.
Proof. vm_compute. reflexivity. Qed.

(** A reconnect between the end of a load and its callback leaves a stale entry that a call does not refresh: the table
    still has the load that has ended. *)
Example reconnect_before_callback :
  match happens [Get "object_types"; Begin 0; End 0 (Some "before"); Reconnected] (new_metadata 60) with
  | Some s => let '(s', answer) := get_metadata "object_types" s in answer = Served "before" /\ md_tasks s' = md_tasks s
  | None => False
  end.
Proof. vm_compute. auto. Qed.

(** A load that failed is replaced by the next call. *)
Example failed_load_replaced :
  match happens [Get "object_types"; Begin 0; End 0 None; Callback 0; Get "object_types"] (new_metadata 60) with
  | Some s => read s "object_types" = Awaits 1
  | None => False
  end.
Proof. vm_compute. reflexivity. Qed.
End MetadataCacheSpec.
