(* ===== verification/TypeHierarchies.v ===== *)
(** The types that the client resolves ([infrastructure/opcua/client.py]): the supertypes of type definitions, level by
    level and in batches, and the names of the supertypes of reference types, one by one; both over caches with a time to
    live.

    [node_text] is [get_node(id).nodeid.to_string()] of asyncua: the canonical text of a node id, or the exception for a
    text that is none. *)

From S2P Require Export AddressSpace MetadataCache.

(** A program on a part of the state. *)
Fixpoint zoom {S S' : Type} {C : Type -> Type} (get : S' -> S) (set : S -> S' -> S') {A} (p : prog S C A) : prog S' C A :=
  match p with
  | Ret a => Ret a
  | Sect f k => Sect (fun s => let '(s1, x) := f (get s) in (set s1 s, x)) (fun x => zoom get set (k x))
  | Await c k => Await c (fun r => zoom get set (k r))
  | Acquire k => Acquire (zoom get set k)
  | Release k => Release (zoom get set k)
  end.

Module TypeHierarchies.
Export AddressSpace MetadataCache.
Local Open Scope async_scope.

(** ** The caches *)

Record TypeCaches := {
  tc_client : client;
  tc_now : Q;
  tc_ttl_seconds : Z;
  tc_type_definition_hierarchies : dict string (Cached (list OpcUaTypeDefinitionInfo));
  tc_reference_type_supertypes : dict string (Cached (list string));
}.

Definition set_client (c : client) (s : TypeCaches) : TypeCaches :=
  {| tc_client := c; tc_now := tc_now s; tc_ttl_seconds := tc_ttl_seconds s;
     tc_type_definition_hierarchies := tc_type_definition_hierarchies s; tc_reference_type_supertypes := tc_reference_type_supertypes s |}.

Definition set_hierarchies (d : dict string (Cached (list OpcUaTypeDefinitionInfo))) (s : TypeCaches) : TypeCaches :=
  {| tc_client := tc_client s; tc_now := tc_now s; tc_ttl_seconds := tc_ttl_seconds s;
     tc_type_definition_hierarchies := d; tc_reference_type_supertypes := tc_reference_type_supertypes s |}.

Definition set_supertypes (d : dict string (Cached (list string))) (s : TypeCaches) : TypeCaches :=
  {| tc_client := tc_client s; tc_now := tc_now s; tc_ttl_seconds := tc_ttl_seconds s;
     tc_type_definition_hierarchies := tc_type_definition_hierarchies s; tc_reference_type_supertypes := d |}.

Definition fresh_entry {A} (d : dict string (Cached A)) (key : string) (s : TypeCaches) : option A :=
  match d !! key with
  | Some (at_, value) => if is_metadata_cache_entry_fresh (tc_now s) (tc_ttl_seconds s) at_ then Some value else None
  | None => None
  end.

Section Types.
Context (browse_name_of : ua_value -> option string) (int_of : ua_value -> option Z).
Context (node_text : string -> outcome error string).

Abbreviation method A := (prog TypeCaches (request (V := ua_value)) (outcome error A)).
Abbreviation DataValue := (DataValue (V := ua_value)).

Definition client_does {A} (p : prog client (request (V := ua_value)) A) : prog TypeCaches (request (V := ua_value)) A :=
  zoom tc_client set_client p.

(** [HasSubtype], from a type to its supertypes. *)
Definition HAS_SUBTYPE : Z := 45.
Definition supertype_references : BrowseKind := {| bk_reference_type := HAS_SUBTYPE; bk_inverse := true; bk_subtypes := false |}.

(** ** Hierarchies of type definitions *)

(** What the resolution has found so far. *)
Record Resolution := {
  rs_cached_chains : dict string (list OpcUaTypeDefinitionInfo);
  rs_type_infos : dict string OpcUaTypeDefinitionInfo;
  rs_parents_by_id : dict string (list string);
}.

Definition known_type (rs : Resolution) (id : string) : bool :=
  (dict_mem id (rs_parents_by_id rs) || dict_mem id (rs_cached_chains rs))%bool.

(** One id of a level: from the cache, or one to ask for. *)
Definition look_up (s : TypeCaches) (acc : Resolution * list string) (type_id : string) : Resolution * list string :=
  let '(rs, unresolved) := acc in
  if known_type rs type_id then (rs, unresolved)
  else
    match fresh_entry (tc_type_definition_hierarchies s) type_id s with
    | Some chain =>
        ({| rs_cached_chains := <[type_id := chain]> (rs_cached_chains rs); rs_type_infos := rs_type_infos rs;
            rs_parents_by_id := rs_parents_by_id rs |}, unresolved)
    | None => (rs, unresolved ++ [type_id])
    end.

Definition qualified_name (v : DataValue) : option string :=
  name ← extract_attribute_value v ≫= str_field "Name"; if truthy name then Some name else None.

(** The names of a batch of nodes. *)
Fixpoint name_types (entries : list (string * DataValue)) (infos : dict string OpcUaTypeDefinitionInfo) :
    outcome error (dict string OpcUaTypeDefinitionInfo) :=
  match entries with
  | [] => Ok infos
  | (type_id, value) :: entries' =>
      match qualified_name value with
      | None => Err (value_error ("Cannot resolve type BrowseName for " +:+ type_id))
      | Some name => name_types entries' (<[type_id := {| ti_node_id := type_id; ti_browse_name := name; ti_namespace_uri := None |}]> infos)
      end
  end.

Fixpoint read_type_names (batches : list (list string)) (infos : dict string OpcUaTypeDefinitionInfo) :
    method (dict string OpcUaTypeDefinitionInfo) :=
  match batches with
  | [] => Ret (Ok infos)
  | batch :: batches' =>
      obind (client_does (read_attribute_batch batch att_browse_name)) (fun values =>
      obind (Ret (entries ← zip_strict batch values; name_types entries infos)) (fun infos => read_type_names batches' infos))
  end.

(** The parents that a browse found, and the next level. *)
Definition add_parents (acc : dict string (list string) * list string) (entry : string * list ReferenceDescription) :
    dict string (list string) * list string :=
  let parents := unique_ids (map rd_node_id entry.2) in (<[entry.1 := parents]> acc.1, acc.2 ++ parents).

(** [self._client.get_node(type_id)] for each id. *)
Fixpoint get_nodes (ids : list string) : outcome error (list string) :=
  match ids with [] => Ok [] | id :: ids' => n ← node_text id; ns ← get_nodes ids'; Ok (n :: ns) end.

(** The limits are asked for once. *)
Definition with_limits {A} (limits : option OpcUaOperationalLimits) (g : OpcUaOperationalLimits -> method A) : method A :=
  match limits with Some l => g l | None => obind (client_does (get_operational_limits browse_name_of int_of)) g end.

Definition resolve_level (pages : nat) (limits : OpcUaOperationalLimits) (unresolved : list string) (rs : Resolution) :
    method (Resolution * list string) :=
  obind (Ret (get_nodes unresolved)) (fun nodes =>
  obind (read_type_names (chunked (limit_or (max_nodes_per_read limits) 128) nodes) (rs_type_infos rs)) (fun infos =>
  obind (client_does (browse_references_descriptions pages nodes (limit_or (max_nodes_per_browse limits) 128) supertype_references)) (fun browsed =>
    let '(parents, pending) := fold_left add_parents browsed (rs_parents_by_id rs, []) in
    Ret (Ok ({| rs_cached_chains := rs_cached_chains rs; rs_type_infos := infos; rs_parents_by_id := parents |}, pending))))).

Fixpoint resolve_levels (fuel pages : nat) (limits : option OpcUaOperationalLimits) (pending : list string) (rs : Resolution) : method Resolution :=
  match fuel with
  | O => Ret (Err not_finished)
  | S fuel =>
      match pending with
      | [] => Ret (Ok rs)
      | _ =>
          looked <- sect (fun s => (s, fold_left (look_up s) (unique_ids pending) (rs, [])));;
          match looked with
          | (rs, []) => Ret (Ok rs)
          | (rs, unresolved) =>
              with_limits limits (fun limits =>
                obind (resolve_level pages limits unresolved rs) (fun r => resolve_levels fuel pages (Some limits) r.2 r.1))
          end
      end
  end.

Definition key_error {A} : outcome error A := Err (Error OtherError "KeyError").

Definition lookup_key {A} (d : dict string A) (key : string) : outcome error A :=
  match d !! key with Some a => Ok a | None => key_error end.

(** A cached chain, without the types that are there. *)
Definition splice (hierarchy : list OpcUaTypeDefinitionInfo) (seen : list string) (chain : list OpcUaTypeDefinitionInfo) :
    list OpcUaTypeDefinitionInfo * list string :=
  fold_left (fun acc info => if bool_decide (ti_node_id info ∈ acc.2) then acc else (acc.1 ++ [info], ti_node_id info :: acc.2)) chain (hierarchy, seen).

(** The traversal from one type; the stack has its top in front. *)
Fixpoint collect_hierarchy (fuel : nat) (rs : Resolution) (stack : list string) (hierarchy : list OpcUaTypeDefinitionInfo) (seen : list string) :
    outcome error (list OpcUaTypeDefinitionInfo) :=
  match fuel with
  | O => Err not_finished
  | S fuel =>
      match stack with
      | [] => Ok hierarchy
      | type_id :: stack =>
          if bool_decide (type_id ∈ seen) then collect_hierarchy fuel rs stack hierarchy seen
          else
            match rs_cached_chains rs !! type_id with
            | Some chain => let '(hierarchy, seen) := splice hierarchy seen chain in collect_hierarchy fuel rs stack hierarchy seen
            | None =>
                info ← lookup_key (rs_type_infos rs) type_id; parents ← lookup_key (rs_parents_by_id rs) type_id;
                collect_hierarchy fuel rs (parents ++ stack) (hierarchy ++ [info]) (type_id :: seen)
            end
      end
  end.

(** Every type is expanded once at most. *)
Definition hierarchy_fuel (rs : Resolution) : nat := (2 + sum_list_with length (dict_values (rs_parents_by_id rs)))%nat.

Fixpoint collect_all (rs : Resolution) (roots : list string) (hierarchies : dict string (list OpcUaTypeDefinitionInfo)) :
    outcome error (dict string (list OpcUaTypeDefinitionInfo)) :=
  match roots with
  | [] => Ok hierarchies
  | root :: roots' =>
      hierarchy ← collect_hierarchy (hierarchy_fuel rs) rs [root] [] [];
      collect_all rs roots' (<[root := hierarchy]> hierarchies)
  end.

(** Each resolved type goes to the cache. *)
Definition remember (roots : list string) (hierarchies : dict string (list OpcUaTypeDefinitionInfo)) (s : TypeCaches) : TypeCaches :=
  set_hierarchies (fold_left (fun d root => match hierarchies !! root with Some h => <[root := (Some (tc_now s), h)]> d | None => d end)
                     roots (tc_type_definition_hierarchies s)) s.

Fixpoint answer_requested (ids : list string) (hierarchies : dict string (list OpcUaTypeDefinitionInfo)) :
    outcome error (list (string * list OpcUaTypeDefinitionInfo)) :=
  match ids with
  | [] => Ok []
  | id :: ids' => h ← lookup_key hierarchies id; l ← answer_requested ids' hierarchies; Ok ((id, h) :: l)
  end.

Definition resolve_type_definition_hierarchies (fuel pages : nat) (type_definition_ids : list string) :
    method (dict string (list OpcUaTypeDefinitionInfo)) :=
  let requested_ids := unique_ids type_definition_ids in
  obind (resolve_levels fuel pages None requested_ids {| rs_cached_chains := ∅; rs_type_infos := ∅; rs_parents_by_id := ∅ |}) (fun rs =>
  obind (Ret (collect_all rs (dict_keys (rs_parents_by_id rs)) (rs_cached_chains rs))) (fun hierarchies =>
    _ <- update (remember (dict_keys (rs_parents_by_id rs)) hierarchies);;
    Ret (l ← answer_requested requested_ids hierarchies; Ok (dict_of_list l)))).

Definition resolve_type_definition_hierarchy (fuel pages : nat) (type_definition_id : string) : method (list OpcUaTypeDefinitionInfo) :=
  if truthy type_definition_id then
    obind (resolve_type_definition_hierarchies fuel pages [type_definition_id]) (fun hierarchies => Ret (lookup_key hierarchies type_definition_id))
  else Ret (Ok []).

(** ** Names of the supertypes of reference types *)

(** The names that are new. *)
Definition add_names (names new : list string) : list string :=
  fold_left (fun names name => if bool_decide (name ∈ names) then names else names ++ [name]) new names.

(** The lookup at the head of the resolution; an entry that is not fresh is removed. *)
Definition cached_supertypes (type_id : string) (s : TypeCaches) : TypeCaches * option (list string) :=
  match tc_reference_type_supertypes s !! type_id with
  | Some (at_, names) =>
      if is_metadata_cache_entry_fresh (tc_now s) (tc_ttl_seconds s) at_ then (s, Some names)
      else (set_supertypes (delete type_id (tc_reference_type_supertypes s)) s, None)
  | None => (s, None)
  end.

Definition remember_supertypes (type_id : string) (names : list string) (s : TypeCaches) : TypeCaches :=
  set_supertypes (<[type_id := (Some (tc_now s), names)]> (tc_reference_type_supertypes s)) s.

(** The types that are being resolved are handed down and back: the code shares the set [in_progress]. *)
Fixpoint resolve_reference_type_chain (fuel pages : nat) (type_id : string) (in_progress : gset string) : method (list string * gset string) :=
  match fuel with
  | O => Ret (Err not_finished)
  | S fuel =>
      cached <- sect (cached_supertypes type_id);;
      match cached with
      | Some names => Ret (Ok (names, in_progress))
      | None =>
          if bool_decide (type_id ∈ in_progress) then Ret (Ok ([], in_progress))
          else
            obind (Ret (node_text type_id)) (fun node =>
            name <- client_does (ask (ReadNode node [att_browse_name]));;
            let own := match name with
                       | Ok [v] => match qualified_name v with Some n => [n] | None => [] end
                       | _ => []
                       end in
            browsed <- client_does (browse_references_descriptions pages [node] 1 supertype_references);;
            let supertypes := match browsed with Ok refs => flat_map (fun entry => List.filter truthy (map rd_node_id entry.2)) refs | Err _ => [] end in
            obind ((fix each (ids : list string) (names : list string) (in_progress : gset string) : method (list string * gset string) :=
                      match ids with
                      | [] => Ret (Ok (names, in_progress))
                      | id :: ids' =>
                          obind (resolve_reference_type_chain fuel pages id in_progress) (fun r => each ids' (add_names names r.1) r.2)
                      end) supertypes own ({[type_id]} ∪ in_progress)) (fun r =>
            _ <- update (remember_supertypes type_id r.1);; Ret (Ok (r.1, r.2 ∖ {[type_id]}))))
      end
  end.

Definition resolve_reference_type_supertype_browse_names (fuel pages : nat) (reference_type_id : string) : method (list string) :=
  if truthy reference_type_id then
    obind (resolve_reference_type_chain fuel pages reference_type_id ∅) (fun r => Ret (Ok r.1))
  else Ret (Ok []).
End Types.

(** A reconnect forgets both caches. *)
Definition on_asyncua_reconnected (s : TypeCaches) : TypeCaches := set_supertypes ∅ (set_hierarchies ∅ s).
End TypeHierarchies.
