(* ===== verification/TypeHierarchiesSpec.v ===== *)
(** What the resolution of types returns, against every server with a finite type system: the supertypes of each type,
    whatever the caches hold of them. *)

From S2P Require Export TypeHierarchies AddressSpaceSpec.

(** ** Programs on a sound state

    [ensures p Q]: started where [Inv] holds, and with [Inv] restored whenever other tasks had the state, [p] restores it
    and returns what [Q] says. *)
Section Ensures.
Context {S : Type} {C : Type -> Type} (resp_ok : forall R, C R -> R -> Prop) (Inv : S -> Prop).

Definition ensures {A} (p : prog S C A) (Q : A -> Prop) : Prop :=
  forall s, Inv s -> wp resp_ok (fun _ s' => Inv s') p (fun a s' => Inv s' /\ Q a) s.

Lemma ensures_ret {A} (a : A) (Q : A -> Prop) : Q a -> ensures (Ret a) Q.
Proof. by intros HQ s Hs. Qed.

Lemma ensures_bind {A B} (p : prog S C A) (g : A -> prog S C B) (P : A -> Prop) (Q : B -> Prop) :
  ensures p P -> (forall a, P a -> ensures (g a) Q) -> ensures (pbind p g) Q.
Proof. intros Hp Hg s Hs. apply wp_bind. eapply wp_mono; [|by apply Hp]. intros a s' [Hs' Ha]. by apply Hg. Qed.

Lemma ensures_mono {A} (p : prog S C A) (P Q : A -> Prop) : ensures p P -> (forall a, P a -> Q a) -> ensures p Q.
Proof. intros Hp HQ s Hs. eapply wp_mono; [|by apply Hp]. intros a s' [? ?]. auto. Qed.

Lemma ensures_obind {E A B} (p : prog S C (outcome E A)) (g : A -> prog S C (outcome E B)) (P : outcome E A -> Prop) (Q : outcome E B -> Prop) :
  ensures p P -> (forall a, P (Ok a) -> ensures (g a) Q) -> (forall e, P (Err e) -> Q (Err e)) -> ensures (obind p g) Q.
Proof. intros Hp Hok Herr. eapply ensures_bind; [exact Hp|]. intros [a|e] HP; [by apply Hok|by apply ensures_ret, Herr]. Qed.

Lemma ensures_read {X A} (f : S -> X) (g : X -> prog S C A) (Q : A -> Prop) :
  (forall s, Inv s -> ensures (g (f s)) Q) -> ensures (pbind (sect (fun s => (s, f s))) g) Q.
Proof. intros Hg s Hs. by apply (Hg s Hs). Qed.

Lemma ensures_update {A} (f : S -> S) (g : unit -> prog S C A) (Q : A -> Prop) :
  (forall s, Inv s -> Inv (f s)) -> ensures (g tt) Q -> ensures (pbind (update f) g) Q.
Proof. intros Hf Hg s Hs. by apply Hg, Hf. Qed.

(** A program on a part of the state that [Inv] does not look at. *)
Lemma ensures_zoom {S0 A} (get : S -> S0) (set : S0 -> S -> S) (p : prog S0 C A) (Q : A -> Prop) :
  (forall x s, get (set x s) = x) -> (forall x s, Inv s -> Inv (set x s)) -> Async.holds resp_ok p Q -> ensures (zoom get set p) Q.
Proof.
  intros Hget Hset Hp s Hs. specialize (Hp (get s)). revert s Hs Hp.
  induction p as [a|X f k IH|R c k IH|k IH|k IH]; intros s Hs Hp; cbn [zoom wp] in *; [done| | |by apply IH|by apply IH].
  - destruct (f (get s)) as [s1 x]. apply IH; [by apply Hset|]. by rewrite Hget.
  - intros r s' Hr Hs'. apply IH; [done|]. by apply Hp.
Qed.
End Ensures.

Module TypeHierarchiesSpec.
Import TypeHierarchies AddressSpaceSpec OpcuaReadsSpec.

Section Types.
Context (node_text : string -> outcome error string) (sv : Server).

(** ** The type system of the server *)

Definition type_references (n : string) : list ReferenceDescription := List.concat (sv_pages sv supertype_references n).
Definition parents (n : string) : list string := unique_ids (map rd_node_id (type_references n)).
Definition type_name (n : string) : option string := qualified_name (sv_value sv (n, att_browse_name)).

Definition info_for (n name : string) : OpcUaTypeDefinitionInfo := {| ti_node_id := n; ti_browse_name := name; ti_namespace_uri := None |}.

(** A type or a supertype of it, direct or indirect. *)
Inductive supertype (n : string) : string -> Prop :=
  | supertype_self : supertype n n
  | supertype_parent m p : supertype n m -> p ∈ parents m -> supertype n p.

Lemma supertype_trans n m k : supertype n m -> supertype m k -> supertype n k.
Proof. intros Hn. induction 1; [done|]. by eapply supertype_parent. Qed.

(** The type, then each of its supertypes once, under their names. *)
Definition right_chain (n : string) (chain : list OpcUaTypeDefinitionInfo) : Prop :=
  head (map ti_node_id chain) = Some n /\ NoDup (map ti_node_id chain) /\ (forall m, m ∈ map ti_node_id chain <-> supertype n m) /\
  forall info, info ∈ chain -> type_name (ti_node_id info) = Some (ti_browse_name info) /\ ti_namespace_uri info = None.

(** Every cached hierarchy is that of its type. *)
Definition caches_right (s : TypeCaches) : Prop :=
  forall id at_ chain, tc_type_definition_hierarchies s !! id = Some (at_, chain) -> right_chain id chain.

(** ** The traversal *)

(** What the resolution may have found of the types [good]. *)
Record rs_right (good : string -> Prop) (rs : Resolution) : Prop := {
  rr_parents : forall n ps, rs_parents_by_id rs !! n = Some ps ->
    ps = parents n /\ good n /\ exists name, type_name n = Some name /\ rs_type_infos rs !! n = Some (info_for n name);
  rr_cached : forall n chain, rs_cached_chains rs !! n = Some chain -> right_chain n chain;
  rr_wf : dict_wf (rs_parents_by_id rs);
}.

(** Each parent of a type whose parents are known is known. *)
Definition rs_closed (rs : Resolution) : Prop :=
  forall n ps p, rs_parents_by_id rs !! n = Some ps -> p ∈ ps -> known_type rs p = true.

Lemma known_cases rs n : known_type rs n = true -> is_Some (rs_parents_by_id rs !! n) \/ is_Some (rs_cached_chains rs !! n).
Proof. unfold known_type. rewrite orb_true_iff, !dict_mem_true. done. Qed.

Section Traversal.
Context (good : string -> Prop) (rs : Resolution) (Hrs : rs_right good rs) (Hclosed : rs_closed rs) (root : string).

(** The state of the traversal: what is collected, and what is to come. *)
Record collected (stack : list string) (hierarchy : list OpcUaTypeDefinitionInfo) (seen : list string) : Prop := {
  co_seen : forall n, n ∈ seen <-> n ∈ map ti_node_id hierarchy;
  co_nodup : NoDup (map ti_node_id hierarchy);
  co_infos : forall info, info ∈ hierarchy -> type_name (ti_node_id info) = Some (ti_browse_name info) /\ ti_namespace_uri info = None;
  co_above : forall n, n ∈ seen \/ n ∈ stack -> supertype root n;
  co_known : forall n, n ∈ stack -> known_type rs n = true;
  co_parents : forall n p, n ∈ seen -> p ∈ parents n -> p ∈ seen \/ p ∈ stack;
  co_head : match hierarchy with info :: _ => ti_node_id info = root | [] => head stack = Some root end;
}.

Lemma splice_spec chain hierarchy seen :
  (forall n, n ∈ seen <-> n ∈ map ti_node_id hierarchy) -> NoDup (map ti_node_id hierarchy) ->
  let r := splice hierarchy seen chain in
  (forall n, n ∈ r.2 <-> n ∈ map ti_node_id r.1) /\ NoDup (map ti_node_id r.1) /\
  (forall n, n ∈ r.2 <-> n ∈ seen \/ n ∈ map ti_node_id chain) /\
  (forall info, info ∈ r.1 -> info ∈ hierarchy \/ info ∈ chain) /\ exists l, r.1 = hierarchy ++ l /\ (hierarchy = [] -> seen = [] -> head l = head chain).
Proof.
  unfold splice. revert hierarchy seen. induction chain as [|info chain IH]; intros hierarchy seen Hseen Hnd; cbn [fold_left fst snd map].
  { split_and!; try done; [intros n; set_solver|auto|exists []; by rewrite app_nil_r]. }
  case_bool_decide as Hin.
  - destruct (IH hierarchy seen Hseen Hnd) as (H1 & H2 & H3 & H4 & l & H5 & H6). split_and!; [done|done| | |].
    + intros n. rewrite H3. set_solver.
    + intros i Hi. destruct (H4 i Hi); set_solver.
    + exists l. split; [done|]. intros -> ->. by apply elem_of_nil in Hin.
  - destruct (IH (hierarchy ++ [info]) (ti_node_id info :: seen)) as (H1 & H2 & H3 & H4 & l & H5 & _).
    { intros n. rewrite map_app, elem_of_app, <-Hseen. cbn. set_solver. }
    { rewrite map_app. apply NoDup_app. split_and!; [done| |apply NoDup_singleton]. intros n Hn%Hseen Hi%list_elem_of_singleton. by subst. }
    split_and!; [done|done| | |].
    + intros n. rewrite H3. set_solver.
    + intros i Hi. destruct (H4 i Hi) as [Hi'|]; set_solver.
    + exists ([info] ++ l). rewrite H5, <-app_assoc. split; [done|]. by intros -> _.
Qed.

Lemma collect_hierarchy_ok fuel stack hierarchy seen :
  collected stack hierarchy seen ->
  (length stack + unseen_weight length seen (dict_items (rs_parents_by_id rs)) < fuel)%nat ->
  exists chain, collect_hierarchy fuel rs stack hierarchy seen = Ok chain /\ right_chain root chain.
Proof.
  revert stack hierarchy seen. induction fuel as [|fuel IH]; intros stack hierarchy seen Hc Hf; [lia|]. cbn [collect_hierarchy].
  destruct stack as [|n stack].
  { exists hierarchy. split; [done|]. destruct Hc as [Hs Hn Hi Ha _ Hp Hh]. destruct hierarchy as [|info hierarchy]; [done|]. split_and!; [by cbn; rewrite Hh|done| |done].
    intros m. split; [intros Hm%Hs; apply Ha; by left|]. intros Hm. apply Hs. induction Hm as [|m p _ IHm Hmp].
    - apply Hs. cbn. rewrite Hh. by left.
    - destruct (Hp m p IHm Hmp) as [|Hx%elem_of_nil]; done. }
  case_bool_decide as Hin.
  { apply IH; [|cbn in Hf; lia]. destruct Hc as [Hs Hn Hi Ha Hk Hp Hh]. constructor; [done|done|done| | | |].
    - intros m Hm. apply Ha. set_solver.
    - intros m Hm. apply Hk. by right.
    - intros m p Hm Hmp. destruct (Hp m p Hm Hmp) as [|Hx]; [by left|]. apply elem_of_cons in Hx as [->|]; [by left|by right].
    - destruct hierarchy; [by apply Hs, elem_of_nil in Hin|done]. }
  destruct (rs_cached_chains rs !! n) as [chain|] eqn:Ec.
  - pose proof (rr_cached _ _ Hrs n chain Ec) as (Hhead & Hnd & Hmem & Hinfos). destruct Hc as [Hs Hn Hi Ha Hk Hp Hh].
    destruct (splice_spec chain hierarchy seen Hs Hn) as (H1 & H2 & H3 & H4 & l & H5 & H6). destruct (splice hierarchy seen chain) as [hierarchy' seen']. cbn [fst snd] in *.
    assert (Hroot : supertype root n) by (apply Ha; right; by left).
    apply IH.
    + constructor; [done|done| | | | |].
      * intros info Hinfo. destruct (H4 info Hinfo); auto.
      * intros m [Hm|Hm]; [|apply Ha; right; by right]. apply H3 in Hm as [Hm|Hm]; [apply Ha; by left|]. apply Hmem in Hm. by eapply supertype_trans.
      * intros m Hm. apply Hk. by right.
      * intros m p Hm Hmp. apply H3 in Hm as [Hm|Hm].
        -- destruct (Hp m p Hm Hmp) as [Hx|Hx]; [left; apply H3; by left|]. apply elem_of_cons in Hx as [->|Hx]; [|by right].
           left. apply H3. right. apply Hmem. constructor.
        -- left. apply H3. right. apply Hmem. apply Hmem in Hm. by eapply supertype_parent.
      * destruct hierarchy as [|info hierarchy]; [|by rewrite H5]. cbn in Hh. injection Hh as ->.
        assert (seen = []) as -> by (destruct seen as [|x seen]; [done|]; exfalso; apply (elem_of_nil (A := string) x), Hs; by left).
        specialize (H6 eq_refl eq_refl). cbn in H5. subst hierarchy'. destruct chain as [|info chain]; [done|]. cbn in Hhead. injection Hhead as Hid.
        destruct l as [|info' l]; [done|]. cbn in H6. injection H6 as ->. done.
    + assert (unseen_weight length seen' (dict_items (rs_parents_by_id rs)) <= unseen_weight length seen (dict_items (rs_parents_by_id rs)))%nat; [|cbn in Hf; lia].
      unfold unseen_weight. clear -H3. induction (dict_items (rs_parents_by_id rs)) as [|p items IHi]; [done|]. cbn. repeat case_bool_decide; try lia. exfalso. set_solver.
  - destruct Hc as [Hs Hn Hi Ha Hk Hp Hh]. assert (known_type rs n = true) as Hkn by (apply Hk; by left).
    destruct (known_cases _ _ Hkn) as [[ps Eps]|[? ?]]; [|congruence]. destruct (rr_parents _ _ Hrs n ps Eps) as (-> & _ & name & Hname & Einfo).
    unfold lookup_key. rewrite Einfo, Eps. cbn [mbind outcome_bind]. assert (Hroot : supertype root n) by (apply Ha; right; by left). apply IH.
    + constructor.
      * intros m. rewrite map_app, elem_of_app, <-Hs. cbn. set_solver.
      * rewrite map_app. apply NoDup_app. split_and!; [done| |apply NoDup_singleton]. intros m Hm%Hs Hx%list_elem_of_singleton. cbn in Hx. by subst.
      * intros info. rewrite elem_of_app, list_elem_of_singleton. intros [Hx| ->]; [by apply Hi|done].
      * intros m Hm. rewrite elem_of_cons, elem_of_app in Hm. destruct Hm as [[->|Hm]|[Hm|Hm]]; [done|apply Ha; by left| |apply Ha; right; by right].
        by eapply supertype_parent.
      * intros m Hm%elem_of_app. destruct Hm as [Hm|Hm]; [by eapply Hclosed|apply Hk; by right].
      * intros m p Hm Hmp. rewrite elem_of_cons, elem_of_app. apply elem_of_cons in Hm as [->|Hm]; [right; by left|].
        destruct (Hp m p Hm Hmp) as [Hx|Hx]; [left; by right|]. apply elem_of_cons in Hx as [->|Hx]; [left; by left|right; by right].
      * destruct hierarchy as [|info hierarchy]; [cbn in Hh; by injection Hh as ->|done].
    + pose proof (unseen_weight_take length seen n (parents n) (dict_items (rs_parents_by_id rs)) (dict_lookup_items _ _ _ Eps) Hin) as Hw.
      rewrite length_app. cbn [length] in Hf. lia.
Qed.
End Traversal.

Lemma collect_root_ok good rs root :
  rs_right good rs -> rs_closed rs -> known_type rs root = true ->
  exists chain, collect_hierarchy (hierarchy_fuel rs) rs [root] [] [] = Ok chain /\ right_chain root chain.
Proof.
  intros Hrs Hclosed Hk. eapply collect_hierarchy_ok; [done|done| |].
  - constructor; cbn.
    + intros n. by rewrite elem_of_nil.
    + constructor.
    + intros info Hx%elem_of_nil. done.
    + intros n [Hx|Hx]; [by apply elem_of_nil in Hx|apply list_elem_of_singleton in Hx; subst; constructor].
    + intros n Hx%list_elem_of_singleton. by subst.
    + intros n p Hx%elem_of_nil. done.
    + done.
  - rewrite unseen_weight_all. unfold hierarchy_fuel, dict_values. cbn [length].
    replace (sum_list_with length ((dict_items (rs_parents_by_id rs)).*2)) with (sum_list_with (fun p => length p.2) (dict_items (rs_parents_by_id rs))); [lia|].
    induction (dict_items (rs_parents_by_id rs)) as [|p items IH]; [done|]. cbn. by rewrite IH.
Qed.

(** ** The levels *)

Section Resolution.
Context (browse_name_of : ua_value -> option string) (int_of : ua_value -> option Z) (pages : nat).
Context (Hok : pages_ok (sv_pages sv supertype_references) (sv_token sv supertype_references)).
Context (Hrounds : forall n, (length (sv_pages sv supertype_references n) <= S pages)%nat).
Context (ids types : list string).
Context (Htypes : forall id n, id ∈ ids -> supertype id n -> n ∈ types).
Context (Htext : forall n, n ∈ types -> node_text n = Ok n).

Abbreviation ensures p Q := (ensures (server_contract sv) caches_right p Q).

Definition asked_for (n : string) : Prop := exists id, id ∈ ids /\ supertype id n.

(** The reasons for which the resolution may fail: the server fails, a type has no name, or the server takes fewer nodes at
    a time than there are types. *)
Definition types_error : Prop :=
  sv_fails sv \/ (exists n, asked_for n /\ type_name n = None) \/ (S (sv_capacity sv) < length types)%nat.

Lemma asked_for_type n : asked_for n -> n ∈ types.
Proof. intros (id & Hid & Hn). by eapply Htypes. Qed.

Lemma ensures_client {A} (p : prog client (request (V := ua_value)) A) (Q : A -> Prop) :
  Async.holds (server_contract sv) p Q -> ensures (client_does p) Q.
Proof. intros Hp. apply ensures_zoom; [done|done|exact Hp]. Qed.

Lemma name_types_ok entries infos :
  match name_types (map (fun n => (n, sv_value sv (n, att_browse_name))) entries) infos with
  | Ok infos' => (forall n, n ∈ entries -> is_Some (type_name n)) /\
      forall n, infos' !! n = if bool_decide (n ∈ entries) then info_for n <$> type_name n else infos !! n
  | Err _ => exists n, n ∈ entries /\ type_name n = None
  end.
Proof.
  revert infos. induction entries as [|n entries IH]; intros infos; cbn [map name_types].
  { split; [by intros n Hn%elem_of_nil|]. done. }
  change (qualified_name (sv_value sv (n, att_browse_name))) with (type_name n). destruct (type_name n) as [name|] eqn:En; [|exists n; split; [by left|done]].
  specialize (IH (<[n := info_for n name]> infos)). unfold info_for in IH at 1. destruct (name_types _ _) as [infos'|e].
  - destruct IH as [H1 H2]. split; [intros m [->|Hm]%elem_of_cons; [by rewrite En|by apply H1]|]. intros m. rewrite H2, dict_lookup_insert.
    destruct (decide (m ∈ entries)) as [Hm|Hm]; [rewrite !bool_decide_true by (by right || done); done|]. rewrite (bool_decide_false (m ∈ entries)) by done.
    destruct (decide (n = m)) as [->|Hne].
    + rewrite !bool_decide_true by (by left || done). by rewrite En.
    + rewrite !bool_decide_false by set_solver. done.
  - destruct IH as (m & Hm & Hnone). exists m. split; [by right|done].
Qed.

Lemma read_type_names_ok batches infos :
  Forall (fun batch => NoDup batch /\ forall n, n ∈ batch -> asked_for n) batches ->
  ensures (read_type_names batches infos) (fun r =>
    match r with
    | Ok infos' => (forall n, n ∈ List.concat batches -> is_Some (type_name n)) /\
        forall n, infos' !! n = if bool_decide (n ∈ List.concat batches) then info_for n <$> type_name n else infos !! n
    | Err _ => types_error
    end).
Proof using Hok Hrounds Htext Htypes.
  intros Hb. revert infos. induction Hb as [|batch batches [Hnd Hgood] _ IH]; intros infos; cbn [read_type_names List.concat].
  { apply ensures_ret. split; [by intros n Hn%elem_of_nil|done]. }
  eapply ensures_obind.
  - apply ensures_client. eapply holds_weaken; [|apply (read_attribute_batch_ok (sv_capacity sv) (sv_value sv))]. by intros R c r [H _].
  - intros values [Hv|(_ & e & [=] & _)]. apply (map_exact (fun n => sv_value sv (n, att_browse_name))) in Hv as [= ->]. rewrite zip_strict_map. cbn [mbind outcome_bind].
    pose proof (name_types_ok batch infos) as Hn. destruct (name_types _ infos) as [infos1|e]; cbn [obind pbind].
    + destruct Hn as [Hn1 Hn2]. eapply ensures_mono; [apply IH|]. intros [infos2|e]; [|done]. intros [H1 H2]. split.
      * intros n [Hn|Hn]%elem_of_app; auto.
      * intros n. rewrite H2, Hn2. destruct (decide (n ∈ List.concat batches)) as [Hc|Hc].
        -- rewrite !bool_decide_true; [done|set_solver|done].
        -- rewrite (bool_decide_false (n ∈ List.concat batches)) by done. apply (f_equal (fun b : bool => if b then _ else _)). apply bool_decide_ext. set_solver.
    + apply ensures_ret. destruct Hn as (n & Hn & Hnone). right. left. exists n. by split; [apply Hgood|].
  - intros e [H|(Hlen & _)]; [done|]. right. right. eapply Nat.lt_le_trans; [exact Hlen|].
    apply NoDup_incl_length; [by apply NoDup_ListNoDup|]. intros n Hn%list_elem_of_In. apply list_elem_of_In, asked_for_type, Hgood, Hn.
Qed.

Lemma add_parents_fold nodes (d : dict string (list string)) l :
  let r := fold_left add_parents (map (fun n => (n, type_references n)) nodes) (d, l) in
  (forall n, r.1 !! n = if bool_decide (n ∈ nodes) then Some (parents n) else d !! n) /\ r.2 = l ++ flat_map parents nodes /\
  (dict_wf d -> dict_wf r.1).
Proof.
  revert d l. induction nodes as [|n nodes IH]; intros d l; cbn [map fold_left flat_map]; [by rewrite app_nil_r|].
  change (add_parents (d, l) (n, type_references n)) with (<[n := parents n]> d, l ++ parents n).
  destruct (IH (<[n := parents n]> d) (l ++ parents n)) as (H1 & H2 & H3). split_and!; [|by rewrite H2, app_assoc|auto with i3x].
  intros m. rewrite H1, dict_lookup_insert. destruct (decide (m ∈ nodes)) as [Hm|Hm]; [rewrite !bool_decide_true by (by right || done); done|].
  rewrite (bool_decide_false (m ∈ nodes)) by done. destruct (decide (n = m)) as [->|Hne].
  - rewrite !bool_decide_true by (by left || done). done.
  - rewrite !bool_decide_false by set_solver. done.
Qed.

Lemma get_nodes_ok l : (forall n, n ∈ l -> n ∈ types) -> get_nodes node_text l = Ok l.
Proof using Htext.
  induction l as [|n l IH]; intros Hl; [done|]. cbn [get_nodes]. rewrite Htext by (apply Hl; by left). cbn [mbind outcome_bind].
  rewrite IH by (intros m Hm; apply Hl; by right). done.
Qed.

(** What a level adds. *)
Definition level_done (rs : Resolution) (unresolved : list string) (r : Resolution * list string) : Prop :=
  rs_right asked_for r.1 /\ r.2 = flat_map parents unresolved /\ rs_cached_chains r.1 = rs_cached_chains rs /\
  forall n, rs_parents_by_id r.1 !! n = if bool_decide (n ∈ unresolved) then Some (parents n) else rs_parents_by_id rs !! n.

Lemma resolve_level_ok limits unresolved rs :
  rs_right asked_for rs -> NoDup unresolved -> (forall n, n ∈ unresolved -> asked_for n) ->
  ensures (resolve_level node_text pages limits unresolved rs) (fun r => match r with Ok r => level_done rs unresolved r | Err _ => types_error end).
Proof using Hok Hrounds Htypes Htext.
  intros Hrs Hnd Hgood. unfold resolve_level. rewrite get_nodes_ok by (intros n Hn; by apply asked_for_type, Hgood). cbn [obind pbind].
  set (size := limit_or (max_nodes_per_read limits) 128).
  assert (Hsize : (0 < size)%nat) by (unfold size, limit_or; destruct (max_nodes_per_read limits) as [[|]|]; lia).
  eapply ensures_obind; [apply read_type_names_ok| |done].
  { apply Forall_forall. intros batch Hb%list_elem_of_In. destruct (part_of_chunks size unresolved batch Hsize Hnd) as [Hb1 Hb2]; [by apply list_elem_of_In|].
    split; [done|]. intros n Hn. by apply Hgood, Hb2. }
  rewrite concat_chunked by done. intros infos [Hnames Hinfos]. eapply ensures_obind.
  - apply ensures_client. eapply holds_weaken; [|apply (browse_complete (sv_pages sv) (sv_token sv) (sv_fails sv) pages unresolved _ _ Hok)]; [by intros R c r (_ & H & _)|].
    intros n _. apply Hrounds.
  - intros browsed ->. change (map _ unresolved) with (map (fun n => (n, type_references n)) unresolved).
    destruct (add_parents_fold unresolved (rs_parents_by_id rs) []) as (H1 & H2 & H3). destruct (fold_left _ _ _) as [ps pending]. cbn [fst snd] in *.
    apply ensures_ret. unfold level_done. cbn. split_and!; [|done|done|done]. destruct Hrs as [Hp Hc Hw]. constructor; cbn; [|done|auto].
    intros n ps' Hn. rewrite H1 in Hn. rewrite Hinfos. destruct (decide (n ∈ unresolved)) as [Hin|Hin].
    + rewrite bool_decide_true in Hn |- * by done. injection Hn as <-. split_and!; [done|by apply Hgood|]. destruct (Hnames n Hin) as [name Hname]. exists name. by rewrite Hname.
    + rewrite bool_decide_false in Hn |- * by done. by apply Hp.
  - intros e [_ Hf]. by left.
Qed.

Lemma in_unique_ids (l : list string) n : n ∈ unique_ids l -> n ∈ l.
Proof. apply elem_of_unique_ids. Qed.

Lemma in_ids_unique (l : list string) n : n ∈ l -> n ∈ unique_ids l.
Proof. apply elem_of_unique_ids. Qed.

(** What a level finds in the cache. *)
Definition looked_up (rs : Resolution) (l : list string) (r : Resolution * list string) : Prop :=
  rs_right asked_for r.1 /\ rs_parents_by_id r.1 = rs_parents_by_id rs /\ NoDup r.2 /\
  (forall n, n ∈ r.2 -> n ∈ l /\ rs_parents_by_id rs !! n = None) /\
  (forall n, known_type rs n = true -> known_type r.1 n = true) /\ (forall n, n ∈ l -> known_type r.1 n = true \/ n ∈ r.2).

Lemma look_up_fold s l rs :
  caches_right s -> rs_right asked_for rs -> NoDup l -> looked_up rs l (fold_left (look_up s) l (rs, [])).
Proof.
  intros Hs Hrs. induction l as [|n l IH] using rev_ind; intros Hnd.
  { unfold looked_up. cbn [fold_left fst snd]. split_and!; try done; intros m Hm; by apply elem_of_nil in Hm. }
  apply NoDup_app in Hnd as (Hnd & Hn & _). assert (Hnl : n ∉ l) by (intros Hx; apply (Hn n Hx); by left).
  rewrite fold_left_app. cbn [fold_left]. destruct (IH Hnd) as (H1 & H2 & H3 & H4 & H5 & H6). destruct (fold_left _ l _) as [rs1 un]. cbn [fst snd] in *.
  unfold look_up. destruct (known_type rs1 n) eqn:Ek.
  { split_and!; try done; cbn [fst snd].
    - intros m Hm. destruct (H4 m Hm). split; [set_solver|done].
    - intros m [Hm|Hm%list_elem_of_singleton]%elem_of_app; [by apply H6|subst; by left]. }
  pose proof Ek as Ek'. unfold known_type in Ek'. apply orb_false_iff in Ek' as [Ep _]. apply dict_mem_false in Ep. rewrite H2 in Ep.
  unfold fresh_entry. destruct (tc_type_definition_hierarchies s !! n) as [[at_ chain]|] eqn:Ec; [destruct (is_metadata_cache_entry_fresh (tc_now s) (tc_ttl_seconds s) at_)|].
  2, 3: split_and!; cbn [fst snd]; try done;
    [apply NoDup_app; split_and!; [done| |apply NoDup_singleton]; intros m Hm Hx%list_elem_of_singleton; subst; by apply Hnl, (proj1 (H4 n Hm))
    |intros m [Hm|Hm%list_elem_of_singleton]%elem_of_app; [destruct (H4 m Hm); split; [set_solver|done]|subst; split; [set_solver|done]]
    |intros m [Hm|Hm%list_elem_of_singleton]%elem_of_app; [destruct (H6 m Hm); [by left|right; set_solver]|subst; right; set_solver]].
  assert (Hmono : forall m, known_type rs1 m = true -> known_type {| rs_cached_chains := <[n := chain]> (rs_cached_chains rs1); rs_type_infos := rs_type_infos rs1;
                                                        rs_parents_by_id := rs_parents_by_id rs1 |} m = true).
  { intros m. unfold known_type. cbn. rewrite !orb_true_iff, !dict_mem_true. rewrite dict_lookup_insert. intros [|Hm]; [by left|right]. by case_bool_decide. }
  split_and!; cbn [fst snd]; [|done|done| |auto|].
  - destruct H1 as [Hp Hc Hw]. constructor; cbn; [done| |done]. intros m chain'. rewrite dict_lookup_insert. case_bool_decide as Hm; [|apply Hc].
    intros [= <-]. subst m. by eapply Hs.
  - intros m Hm. destruct (H4 m Hm). split; [set_solver|done].
  - intros m [Hm|Hm%list_elem_of_singleton]%elem_of_app; [destruct (H6 m Hm); auto|]. subst m. left. unfold known_type. cbn.
    apply orb_true_iff. right. apply dict_mem_true. rewrite dict_lookup_insert_eq. by eexists.
Qed.

(** The types that have not been browsed. *)
Definition unbrowsed (keys : list string) : nat := unseen_weight (fun _ : unit => 1%nat) keys (map (fun n => (n, tt)) types).

Lemma unbrowsed_less keys new n :
  n ∈ new -> n ∈ types -> n ∉ keys -> (unbrowsed (new ++ keys) < unbrowsed keys)%nat.
Proof.
  intros Hn Ht Hk. assert (Hle : forall l, (unbrowsed (l ++ n :: keys) <= unbrowsed (n :: keys))%nat).
  { induction l as [|m l IH]; [done|]. etrans; [apply (unseen_weight_seen _ (l ++ n :: keys) m)|exact IH]. }
  unfold unbrowsed in *. rewrite (unseen_weight_ext _ (new ++ keys) (new ++ n :: keys)) by set_solver.
  pose proof (unseen_weight_take (fun _ : unit => 1%nat) keys n tt (map (fun n => (n, tt)) types)) as Hw.
  assert ((n, tt) ∈ map (fun n => (n, tt)) types) as Hin by (apply elem_of_map; by exists n). specialize (Hw Hin Hk). specialize (Hle new). cbn beta in Hw. lia.
Qed.

Definition levels_ok (rs : Resolution) (pending : list string) : Prop :=
  rs_right asked_for rs /\ (forall n, n ∈ pending -> asked_for n) /\
  (forall n ps p, rs_parents_by_id rs !! n = Some ps -> p ∈ ps -> known_type rs p = true \/ p ∈ pending) /\
  (forall id, id ∈ ids -> known_type rs id = true \/ id ∈ pending).

Lemma known_parents rs n : is_Some (rs_parents_by_id rs !! n) -> known_type rs n = true.
Proof. intros H. unfold known_type. apply orb_true_iff. left. by apply dict_mem_true. Qed.

Lemma level_known rs unresolved r n : level_done rs unresolved r -> known_type rs n = true \/ n ∈ unresolved -> known_type r.1 n = true.
Proof.
  intros (_ & _ & Hc & Hp) Hn. unfold known_type. rewrite orb_true_iff, !dict_mem_true, Hc, Hp.
  destruct Hn as [Hn%known_cases|Hn]; [|left; by rewrite bool_decide_true]. destruct Hn; [left; by case_bool_decide|by right].
Qed.

Lemma levels_next rs pending rs1 unresolved r :
  levels_ok rs pending -> looked_up rs (unique_ids pending) (rs1, unresolved) -> level_done rs1 unresolved r -> levels_ok r.1 r.2.
Proof.
  intros (_ & Hgood & Hclosed & Hids) (_ & L2 & _ & L4 & L5 & L6) Hd. cbn [fst snd] in *. pose proof Hd as (D1 & D2 & D3 & D4).
  assert (Hstill : forall p, known_type rs p = true \/ p ∈ pending -> known_type r.1 p = true).
  { intros p Hp. eapply level_known; [exact Hd|]. destruct Hp as [Hp|Hp%in_ids_unique]; auto. }
  split_and!; [done| | |].
  - intros n Hn. rewrite D2 in Hn. apply list_elem_of_In, in_flat_map in Hn as (m & Hm%list_elem_of_In & Hn%list_elem_of_In).
    destruct (L4 m Hm) as [Hm'%in_unique_ids _]. destruct (Hgood m Hm') as (id & Hid & Hsup). exists id. split; [done|]. by eapply supertype_parent.
  - intros n ps p. rewrite D4. case_bool_decide as Hn.
    + intros [= <-] Hp. right. rewrite D2. apply list_elem_of_In, in_flat_map. exists n. by split; apply list_elem_of_In.
    + rewrite L2. intros Hps Hp. left. apply Hstill. by eapply Hclosed.
  - intros id Hid. left. by apply Hstill, Hids.
Qed.

Lemma resolve_levels_ok fuel limits pending rs :
  levels_ok rs pending -> (unbrowsed (dict_keys (rs_parents_by_id rs)) < fuel)%nat ->
  ensures (resolve_levels browse_name_of int_of node_text fuel pages limits pending rs) (fun r =>
    match r with
    | Ok rs' => rs_right asked_for rs' /\ rs_closed rs' /\ forall id, id ∈ ids -> known_type rs' id = true
    | Err _ => types_error
    end).
Proof using Hok Hrounds Htypes Htext.
  revert limits pending rs. induction fuel as [|fuel IH]; intros limits pending rs Hl Hf; [lia|]. cbn [resolve_levels].
  destruct pending as [|n0 pending0].
  { apply ensures_ret. destruct Hl as (H1 & _ & H3 & H4). split_and!; [done| |].
    - intros n ps p Hn Hp. destruct (H3 n ps p Hn Hp) as [|Hx%elem_of_nil]; done.
    - intros id Hid. destruct (H4 id Hid) as [|Hx%elem_of_nil]; done. }
  set (pending := n0 :: pending0) in *. clearbody pending. clear n0 pending0.
  apply ensures_read. intros s Hs. pose proof Hl as (Hrs & Hgood & Hclosed & Hids).
  pose proof (look_up_fold s (unique_ids pending) rs Hs Hrs (NoDup_unique_ids _)) as Hlook. destruct (fold_left _ _ _) as [rs1 unresolved].
  pose proof Hlook as (L1 & L2 & L3 & L4 & L5 & L6). cbn [fst snd] in *.
  destruct unresolved as [|n unresolved0].
  { apply ensures_ret. assert (Hstill : forall p, known_type rs p = true \/ p ∈ pending -> known_type rs1 p = true).
    { intros p [Hp|Hp%in_ids_unique]; [auto|]. destruct (L6 p Hp) as [|Hx%elem_of_nil]; done. }
    split_and!; [done| |].
    - intros n ps p. rewrite L2. intros Hn Hp. apply Hstill. by eapply Hclosed.
    - intros id Hid. by apply Hstill, Hids. }
  assert (Hgood' : forall m, m ∈ n :: unresolved0 -> asked_for m).
  { intros m Hm. destruct (L4 m Hm) as [Hm'%in_unique_ids _]. by apply Hgood. }
  set (unresolved := n :: unresolved0) in *.
  assert (Hgo : forall limits, ensures (obind (resolve_level node_text pages limits unresolved rs1) (fun r =>
      resolve_levels browse_name_of int_of node_text fuel pages (Some limits) r.2 r.1)) (fun r =>
    match r with
    | Ok rs' => rs_right asked_for rs' /\ rs_closed rs' /\ forall id, id ∈ ids -> known_type rs' id = true
    | Err _ => types_error
    end)).
  { intros limits'. eapply ensures_obind; [by apply resolve_level_ok| |done]. intros r Hd. apply IH; [by eapply levels_next|].
    assert (Hless : (unbrowsed (unresolved ++ dict_keys (rs_parents_by_id rs)) < unbrowsed (dict_keys (rs_parents_by_id rs)))%nat).
    { apply (unbrowsed_less _ _ n); [by left|by apply asked_for_type, Hgood'; left|]. intros [ps Hps]%elem_of_dict_keys.
      destruct (L4 n) as [_ Hnone]; [by left|]. congruence. }
    destruct Hd as (_ & _ & _ & D4). unfold unbrowsed in *. erewrite unseen_weight_ext; [|shelve].
    eapply Nat.lt_le_trans; [exact Hless|lia]. Unshelve. intros m. rewrite elem_of_dict_keys, D4, elem_of_app, elem_of_dict_keys, L2.
    case_bool_decide; [split; [by left|by eexists]|]. split; [by right|]. by intros [?|?]. }
  unfold with_limits. destruct limits as [limits|]; [apply Hgo|].
  eapply ensures_obind; [apply ensures_client, holds_limits|intros limits _; apply Hgo|by intros e].
Qed.

Lemma collect_all_ok rs roots hierarchies :
  rs_right asked_for rs -> rs_closed rs -> (forall root, root ∈ roots -> known_type rs root = true) ->
  exists hierarchies', collect_all rs roots hierarchies = Ok hierarchies' /\
    forall n, (n ∈ roots -> exists chain, hierarchies' !! n = Some chain /\ right_chain n chain) /\ (n ∉ roots -> hierarchies' !! n = hierarchies !! n).
Proof.
  intros Hrs Hclosed. revert hierarchies. induction roots as [|root roots IH]; intros hierarchies Hk; cbn [collect_all].
  { exists hierarchies. split; [done|]. intros n. split; [by intros Hn%elem_of_nil|done]. }
  destruct (collect_root_ok asked_for rs root Hrs Hclosed) as (chain & -> & Hchain); [apply Hk; by left|]. cbn [mbind outcome_bind].
  destruct (IH (<[root := chain]> hierarchies)) as (h' & -> & H'); [intros m Hm; apply Hk; by right|]. exists h'. split; [done|]. intros n.
  destruct (H' n) as [H1 H2]. split.
  - intros Hn. destruct (decide (n ∈ roots)) as [Hin|Hin]; [by apply H1|]. apply elem_of_cons in Hn as [->|]; [|done].
    exists chain. rewrite H2 by done. split; [apply dict_lookup_insert_eq|done].
  - intros Hn. rewrite H2 by set_solver. apply dict_lookup_insert_ne. set_solver.
Qed.

Lemma remember_right roots hierarchies s :
  (forall n, n ∈ roots -> exists chain, hierarchies !! n = Some chain /\ right_chain n chain) -> caches_right s -> caches_right (remember roots hierarchies s).
Proof.
  intros Hr Hs. unfold remember, caches_right. cbn. set (now := Some (tc_now s)). clearbody now. unfold caches_right in Hs.
  revert Hs. generalize (tc_type_definition_hierarchies s). induction roots as [|root roots IH]; intros d Hd; cbn [fold_left]; [exact Hd|].
  apply IH; [intros n Hn; apply Hr; by right|]. destruct (Hr root) as (chain & -> & Hchain); [by left|]. intros id at_ chain'. rewrite dict_lookup_insert.
  case_bool_decide as Hid; [|apply Hd]. intros [= <- <-]. by subst.
Qed.

Lemma requested_ok l hierarchies :
  (forall id, id ∈ l -> exists chain, hierarchies !! id = Some chain /\ right_chain id chain) ->
  exists k, answer_requested l hierarchies = Ok k /\ k.*1 = l /\ forall id chain, (id, chain) ∈ k -> right_chain id chain.
Proof.
  induction l as [|id l IH]; intros Hl; cbn [answer_requested]; [exists []; split_and!; try done; by intros id chain Hx%elem_of_nil|].
  destruct (Hl id) as (chain & Hc & Hr); [by left|]. unfold lookup_key. rewrite Hc. cbn [mbind outcome_bind].
  destruct IH as (k & -> & Hk & Hright); [intros i Hi; apply Hl; by right|]. exists ((id, chain) :: k). split_and!; [done|by cbn; rewrite Hk|].
  intros i c [[= -> ->]|Hx]%elem_of_cons; auto.
Qed.
End Resolution.

(** C31. The resolution of type definitions ends, for ids in the canonical text of their nodes, the text that asyncua makes of a
    node id and that its references come in ([node_text n = Ok n] for the types below; an id in another spelling, such as
    ns=0;i=58, makes it raise KeyError: [other_text_raises]). It returns the hierarchy of exactly the types asked for: each
    type first, then every supertype once, direct or indirect, under its name, also over cycles and several supertypes,
    whatever fresh or stale hierarchies the cache holds, so long as they are right, and what it leaves there is right
    again. It raises only if the server does, a type has no name, or the server takes fewer nodes at a time than
    there are types. *)
Theorem hierarchies_exact browse_name_of int_of fuel pages ids types s :
  pages_ok (sv_pages sv supertype_references) (sv_token sv supertype_references) ->
  (forall n, (length (sv_pages sv supertype_references n) <= S pages)%nat) ->
  (forall id n, id ∈ ids -> supertype id n -> n ∈ types) -> (forall n, n ∈ types -> node_text n = Ok n) ->
  (length types < fuel)%nat -> caches_right s ->
  wp (server_contract sv) (fun _ s' => caches_right s')
    (resolve_type_definition_hierarchies browse_name_of int_of node_text fuel pages ids) (fun r s' =>
      caches_right s' /\
      match r with
      | Ok hierarchies => forall id, (is_Some (hierarchies !! id) <-> id ∈ ids) /\ forall chain, hierarchies !! id = Some chain -> right_chain id chain
      | Err _ => types_error ids types
      end) s.
Proof.
  intros Hok Hrounds Htypes Htext Hfuel Hs. revert s Hs.
  change (ensures (server_contract sv) caches_right (resolve_type_definition_hierarchies browse_name_of int_of node_text fuel pages ids) (fun r =>
    match r with
    | Ok hierarchies => forall id, (is_Some (hierarchies !! id) <-> id ∈ ids) /\ forall chain, hierarchies !! id = Some chain -> right_chain id chain
    | Err _ => types_error ids types
    end)).
  eapply ensures_obind; [apply (resolve_levels_ok browse_name_of int_of pages Hok Hrounds ids types Htypes Htext)| |done].
  - split_and!; [constructor; cbn; [done|done|apply dict_wf_empty]| |by cbn|].
    + intros n Hn%in_unique_ids. exists n. split; [done|constructor].
    + intros id Hid. right. by apply elem_of_unique_ids.
  - unfold unbrowsed. cbn [rs_parents_by_id]. change (dict_keys (∅ : dict string (list string))) with (@nil string). rewrite unseen_weight_all. eapply Nat.le_lt_trans; [|exact Hfuel]. clear. induction types as [|n types IH]; cbn in *; lia.
  - intros rs (Hrs & Hclosed & Hknown).
    assert (Hroots : forall root, root ∈ dict_keys (rs_parents_by_id rs) -> known_type rs root = true) by (intros root Hroot%elem_of_dict_keys; by apply known_parents).
    edestruct collect_all_ok as (h & Hcollect & Hh); [..|exact Hrs|exact Hclosed|exact Hroots|rewrite Hcollect]; try done.
    cbn [obind pbind]. apply ensures_update; [intros s; eapply remember_right; try done; intros n; apply Hh|].
    assert (Hall : forall id, id ∈ unique_ids ids -> exists chain, h !! id = Some chain /\ right_chain id chain).
    { intros id Hid%in_unique_ids. destruct (Hh id) as [H1 H2]. destruct (decide (id ∈ dict_keys (rs_parents_by_id rs))) as [Hin|Hin]; [auto|].
      rewrite H2 by done. destruct (known_cases rs id (Hknown id Hid)) as [Hx%elem_of_dict_keys|[chain Hc]]; [done|]. exists chain. split; [done|]. by eapply rr_cached. }
    edestruct requested_ok as (k & Hreq & Hk & Hright); [..|exact Hall|rewrite Hreq]; try done. cbn [mbind outcome_bind]. apply ensures_ret. intros id. split.
    + rewrite dict_lookup_of_list_is_Some, Hk. apply elem_of_unique_ids.
    + intros chain Hc%dict_lookup_of_list_Some. by apply Hright.
Qed.
End Types.
(** ** A type server *)

(** [t] below [a] and [b], both below [base], which names itself; the references of [t] come on two pages. *)
Definition server_parents (n : string) : list (list string) :=
  if bool_decide (n = "t") then [["a"]; ["b"; "a"]]
  else if bool_decide (n = "a" \/ n = "b" \/ n = "base") then [["base"]] else [[]].

Definition type_pages (kind : BrowseKind) (n : string) : list (list ReferenceDescription) := map (map (ref "i=45")) (server_parents n).

Definition type_value (p : string * AttributeId) : DataValue (V := ua_value) := name_value "Name" (UStr (p.1 +:+ "Type")).

Definition type_server : Server :=
  {| sv_capacity := 10; sv_value := type_value; sv_pages := type_pages; sv_token := fun _ => sample_token; sv_type_definition := fun _ => Ok "i=58";
     sv_namespaces := []; sv_node_class := fun _ => Ok "ObjectType"; sv_fails := False |}.

Definition type_page (n : string) (i : nat) : BrowseResult :=
  {| br_status := None; br_references := default [] (type_pages supertype_references n !! i);
     br_continuation := if Nat.ltb (S i) (length (server_parents n)) then sample_token n (S i) else ε |}.

(** What the server answers; [browsable]: whether it answers the browse of a node. *)
Definition type_answer (browsable : string -> bool) R (c : request (V := ua_value) R) : R :=
  match c in request R return R with
  | Browse kind nodes => if forallb browsable nodes then Ok (map (fun n => type_page n 0) nodes) else Err sample_too_many
  | BrowseNext points => Ok (map (fun _ => type_page "t" 1) points)
  | ReadNode node attrs => Ok (map (fun attr => type_value (node, attr)) attrs)
  | ReadAttributes nodes attr => if Nat.leb (length nodes) 10 then Ok (map (fun n => type_value (n, attr)) nodes) else Err sample_too_many
  | c => machine_answer _ c
  end.

Definition cached_chain : list OpcUaTypeDefinitionInfo := [info_for "b" "bType"; info_for "base" "baseType"].

Definition type_caches : TypeCaches :=
  {| tc_client := sample_client; tc_now := 100; tc_ttl_seconds := 60; tc_type_definition_hierarchies := <["b" := (Some 50%Q, cached_chain)]> ∅;
     tc_reference_type_supertypes := ∅ |}.

Abbreviation same_text := (fun n : string => Ok n : outcome error string).

Example hierarchies_of_t :
  match (run_log (type_answer (fun _ => true)) type_caches (resolve_type_definition_hierarchies (fun _ => None) (fun _ => None) same_text 6 1 ["t"; "base"; "t"])).2 with
  | Ok hierarchies => map (fun h => (h.1, map ti_browse_name h.2)) (dict_items hierarchies)
  | Err _ => []
  end = [("t", ["tType"; "aType"; "baseType"; "bType"]); ("base", ["baseType"])].
Proof. vm_compute. reflexivity. Qed.

Lemma type_pages_ok : pages_ok (type_pages supertype_references) (sample_token).
Proof.
  split; [intros n i; by destruct i|apply sample_token_inj|].
  intros n. unfold type_pages, server_parents. by repeat case_bool_decide.
Qed.

Lemma type_closed (l : list string) n m :
  n ∈ l -> forallb (fun n => bool_decide (Forall (fun p => p ∈ l) (parents type_server n))) l = true -> supertype type_server n m -> m ∈ l.
Proof.
  intros Hn Hl. rewrite forallb_forall in Hl. induction 1 as [|m p Hm IH Hp]; [done|]. specialize (Hl m (proj1 (list_elem_of_In _ _) IH)).
  apply bool_decide_eq_true_1 in Hl. rewrite Forall_forall in Hl. by apply Hl.
Qed.

Lemma cached_chain_right : right_chain type_server "b" cached_chain.
Proof.
  split_and!; [done|apply (bool_decide_unpack _); by vm_compute| |].
  - intros m. split; [|by apply (type_closed ["b"; "base"]); [left|vm_compute]].
    intros Hm. repeat apply elem_of_cons in Hm as [->|Hm]; [constructor| |by apply elem_of_nil in Hm].
    eapply supertype_parent; [constructor|]. apply (bool_decide_unpack _). by vm_compute.
  - apply Forall_forall. repeat constructor.
Qed.

Lemma hierarchies_exact_witness :
  (pages_ok (type_pages supertype_references) (sample_token) /\ caches_right type_server type_caches /\
   (forall n, (length (type_pages supertype_references n) <= 2)%nat) /\
   forall id n, id ∈ ["t"; "base"] -> supertype type_server id n -> n ∈ ["t"; "a"; "b"; "base"]) /\
  wp (server_contract type_server) (fun _ s' => caches_right type_server s')
    (resolve_type_definition_hierarchies (fun _ => None) (fun _ => None) same_text 5 1 ["t"; "base"]) (fun r s' =>
      caches_right type_server s' /\
      match r with
      | Ok hierarchies => forall id, (is_Some (hierarchies !! id) <-> id ∈ ["t"; "base"]) /\
          forall chain, hierarchies !! id = Some chain -> right_chain type_server id chain
      | Err _ => types_error type_server ["t"; "base"] ["t"; "a"; "b"; "base"]
      end) type_caches.
Proof.
  assert (Hs : caches_right type_server type_caches).
  { intros id at_ chain. cbn [type_caches tc_type_definition_hierarchies]. rewrite dict_lookup_insert. case_bool_decide as Hid; [|done].
    intros [= <- <-]. subst id. apply cached_chain_right. }
  assert (H2 : forall n, (length (type_pages supertype_references n) <= 2)%nat) by (intros n; unfold type_pages, server_parents; repeat case_bool_decide; cbn; lia).
  assert (H3 : forall id n, id ∈ ["t"; "base"] -> supertype type_server id n -> n ∈ ["t"; "a"; "b"; "base"]).
  { intros id n Hid. apply type_closed; [set_solver|by vm_compute]. }
  split; [split_and!; [apply type_pages_ok|exact Hs|exact H2|exact H3]|].
  apply (hierarchies_exact same_text type_server (fun _ => None) (fun _ => None) 5 1 ["t"; "base"] ["t"; "a"; "b"; "base"] type_caches type_pages_ok H2 H3);
    [done|cbn; lia|exact Hs].
Defined.

(** ** Ids that are not canonical *)

(** An id whose node has another text is resolved under that text, and its own hierarchy is never found. *)
Example other_text_raises :
  (run_log (type_answer (fun _ => true)) type_caches
     (resolve_type_definition_hierarchies (fun _ => None) (fun _ => None) (fun n => Ok (if bool_decide (n = "ns=0;s=t") then "t" else n)) 6 1 ["ns=0;s=t"])).2 =
  Err (Error OtherError "KeyError").
Proof. vm_compute. reflexivity. Qed.

(** ** Names of the supertypes of reference types *)

(** A browse that fails is taken for one that found nothing, and what was found without it goes to the cache, of the type
    asked for and of those below it. *)
Example failed_browse_cached :
  let caches s := map (fun e => (e.1, e.2.2)) (dict_items (tc_reference_type_supertypes s)) in
  let resolve browsable s := (run (fun R c (w : unit) s => (w, s, type_answer browsable R c)) (resolve_reference_type_supertype_browse_names same_text 6 1 "t") tt s) in
  let first := resolve (fun n => negb (bool_decide (n = "a" \/ n = "b"))) type_caches in
  first.2 = Ok ["tType"; "aType"; "bType"] /\ caches first.1.2 = [("a", ["aType"]); ("b", ["bType"]); ("t", ["tType"; "aType"; "bType"])] /\
  (resolve (fun _ => true) first.1.2).2 = Ok ["tType"; "aType"; "bType"] /\ (resolve (fun _ => true) type_caches).2 = Ok ["tType"; "aType"; "baseType"; "bType"].
Proof. vm_compute. auto. Qed.
End TypeHierarchiesSpec.
