(* ===== verification/Values.v ===== *)
(** Current values and histories over the REST interface ([api/v1/object_value_routes.py], [api/v1/monolithic.py],
    [api/v1/common_helpers.py]): from the elements of a request to nodes of the server, through the reads of
    [OpcuaReads], to values with quality and timestamp (VQT). A request reads the clock once. *)

From S2P Require Export UaValues ModelTypes OpcuaReads.

Module Values.
Export Json UaValues OpcuaReads.
Local Open Scope async_scope.

(** ** Values with quality and timestamp *)

Definition normalize_quality (status : option StatusCode) : Quality :=
  match status with
  | None => Good
  | Some s =>
      match sc_severity s with
      | sev_uncertain => Uncertain
      | sev => if str_in "uncertain" (lower (sc_name s)) then Uncertain else match sev with sev_good => Good | _ => Bad end
      end
  end.

Record VQT := { vqt_value : json; vqt_quality : Quality; vqt_timestamp : string }.

Section Clock.
Context (now : Z).

Definition normalize_timestamp (t : option Z) : string := format_utc_timestamp (default now t).

Definition good_no_data_vqt : VQT := {| vqt_value := JNull; vqt_quality := GoodNoData; vqt_timestamp := format_utc_timestamp now |}.

Definition first_timestamp {V} (d : DataValue (V := V)) : option Z :=
  match dv_source_timestamp d with Some t => Some t | None => dv_server_timestamp d end.

Definition vqt_from_data_value (d : DataValue (V := ua_value)) : VQT :=
  let quality := normalize_quality (dv_status d) in
  let safe_value := to_json_safe_value (default UNone (dv_value d)) in
  {| vqt_value := safe_value;
     vqt_quality := match safe_value with JNull => if bool_decide (quality = Bad \/ quality = GoodNoData) then quality else GoodNoData | _ => quality end;
     vqt_timestamp := normalize_timestamp (first_timestamp d) |}.

(** For the values of asyncua, which have the same attributes. *)
Definition to_vqt_from_history_value : DataValue (V := ua_value) -> VQT := vqt_from_data_value.

(** [values.sort(key=lambda item: item.timestamp)]. *)
Definition by_timestamp (a b : VQT) : bool := string_leb (vqt_timestamp a) (vqt_timestamp b).
Definition sort_vqts : list VQT -> list VQT := py_sorted by_timestamp.

(** ** Elements *)

Definition matches_node (element_id : string) (n : ModelNode) : bool :=
  (bool_decide (n_name n = element_id) || bool_decide (n_type n = Some element_id) || bool_decide (n_source_node_id n = element_id)
   || bool_decide (lower (n_source_node_id n) = lower element_id))%bool.

Definition find_model_node (model : BuildResult) (element_id : string) : option ModelNode :=
  match nodes_by_id model !! element_id with
  | Some n => Some n
  | None =>
      match node_id_by_name model !! element_id ≫= (fun id => nodes_by_id model !! id) with
      | Some n => Some n
      | None =>
          match node_id_by_type model !! element_id ≫= (fun id => nodes_by_id model !! id) with
          | Some n => Some n
          | None => List.find (matches_node element_id) (dict_values (nodes_by_id model))
          end
      end
  end.

Definition composition_children_for_node (model : BuildResult) (node : ModelNode) : list string :=
  match composition_children_by_id model !! n_id node with
  | Some children => children
  | None =>
      List.filter (fun child => match nodes_by_id model !! child with Some c => bool_decide (n_kind c = property) | None => false end)
        (default [] (children_by_id model !! n_id node))
  end.

(** The children of a node in the walk: properties are components, other elements are visited later. *)
Definition component_children (model : BuildResult) (node : ModelNode) : list ModelNode :=
  omap (fun child => nodes_by_id model !! child) (composition_children_for_node model node).

Definition is_property (n : ModelNode) : bool := bool_decide (n_kind n = property).

Fixpoint collect_components (fuel : nat) (model : BuildResult) (max_depth : Z) (queue : list (string * Z)) (visited : list string) (components : list ModelNode)
    : option (list ModelNode) :=
  match fuel with
  | O => None
  | S fuel' =>
      match queue with
      | [] => Some components
      | (node_id, depth) :: queue' =>
          if bool_decide (node_id ∈ visited) then collect_components fuel' model max_depth queue' visited components
          else if ((0 <? max_depth) && (max_depth <=? depth))%bool then collect_components fuel' model max_depth queue' (node_id :: visited) components
          else match nodes_by_id model !! node_id with
               | None => collect_components fuel' model max_depth queue' (node_id :: visited) components
               | Some node =>
                   let children := component_children model node in
                   collect_components fuel' model max_depth
                     (queue' ++ map (fun c => (n_id c, depth + 1)) (List.filter (fun c => negb (is_property c)) children))
                     (node_id :: visited) (components ++ List.filter is_property children)
               end
      end
  end.

(** Every element puts its children into the queue at most once. *)
Definition components_fuel (model : BuildResult) : nat :=
  S (S (sum_list_with (fun p => length (component_children model p.2)) (dict_items (nodes_by_id model)))).

Definition collect_value_component_nodes (model : BuildResult) (root : ModelNode) (max_depth : Z) : list ModelNode :=
  if max_depth =? 1 then [] else default [] (collect_components (components_fuel model) model max_depth [(n_id root, 0)] [] []).

(** ** Answers *)

Record BulkResultItem (R : Type) := { bi_element_id : string; bi_result : option R; bi_error : option (Z * string) }.
#[global] Arguments bi_element_id {R} _.
#[global] Arguments bi_result {R} _.
#[global] Arguments bi_error {R} _.

Definition bulk_result_success {R} (element_id : string) (result : R) : BulkResultItem R :=
  {| bi_element_id := element_id; bi_result := Some result; bi_error := None |}.
Definition bulk_result_error {R} (element_id message : string) (code : Z) : BulkResultItem R :=
  {| bi_element_id := element_id; bi_result := None; bi_error := Some (code, message) |}.

(** [BulkResponse]: whether every item succeeded, and the items. *)
Record BulkResponse (I : Type) := { br_success : bool; br_results : list I }.
#[global] Arguments Build_BulkResponse {I} _ _.
#[global] Arguments br_success {I} _.
#[global] Arguments br_results {I} _.

Definition bulk_response {I} (success : I -> bool) (results : list I) : BulkResponse I :=
  {| br_success := forallb success results; br_results := results |}.

Definition item_succeeded {R} (item : BulkResultItem R) : bool := bool_decide (bi_error item = None).

Definition opcua_error (operation : string) : http_error := HttpError 502 "OpcUaError" ("Failed to " +:+ operation).

Abbreviation answer A := (prog client (request (V := ua_value)) (outcome http_error A)).

(** The client's exceptions become the error of the request. *)
Definition or_opcua_error {A} (operation : string) (p : prog client (request (V := ua_value)) (outcome error A)) : answer A :=
  pbind p (fun r => Ret (match r with Ok a => Ok a | Err _ => Err (opcua_error operation) end)).

(** ** Current values *)

Record CurrentValueResult := { cv_is_composition : bool; cv_root : VQT; cv_components : dict string VQT }.

(** The nodes that an element stands for. *)
Definition value_node_ids (model : BuildResult) (max_depth : Z) (node : ModelNode) : list string :=
  (if is_property node then [n_source_node_id node] else []) ++ map n_source_node_id (collect_value_component_nodes model node max_depth).

Definition is_composition (model : BuildResult) (node : ModelNode) : bool := negb (bool_decide (composition_children_for_node model node = [])).

Definition vqt_or_no_data (values : dict string (DataValue (V := ua_value))) (node_id : string) : VQT :=
  match values !! node_id with Some d => vqt_from_data_value d | None => good_no_data_vqt end.

Definition current_value_result (model : BuildResult) (max_depth : Z) (values : dict string (DataValue (V := ua_value))) (node : ModelNode) : CurrentValueResult :=
  {| cv_is_composition := is_composition model node;
     cv_root := vqt_or_no_data values (n_source_node_id node);
     cv_components := dict_of_list (map (fun c => (n_id c, vqt_or_no_data values (n_source_node_id c))) (collect_value_component_nodes model node max_depth)) |}.

Definition current_value_item (model : BuildResult) (max_depth : Z) (values : dict string (DataValue (V := ua_value))) (element_id : string)
    : BulkResultItem CurrentValueResult :=
  match find_model_node model element_id with
  | None => bulk_result_error element_id ("Element not found: " +:+ element_id) 404
  | Some node => bulk_result_success element_id (current_value_result model max_depth values node)
  end.

Definition requested_nodes (model : BuildResult) (max_depth : Z) (element_ids : list string) : list string :=
  flat_map (fun e => match find_model_node model e with Some node => value_node_ids model max_depth node | None => [] end) element_ids.

Definition query_last_known_values (model : BuildResult) (element_ids : list string) (max_depth : Z) : answer (list (BulkResultItem CurrentValueResult)) :=
  let node_ids := requested_nodes model max_depth element_ids in
  values <- match node_ids with
            | [] => Ret (Ok ∅)
            | _ => or_opcua_error "read values"
                     (obind (read_data_values browse_name_of int_of node_ids) (fun ds => Ret (ps ← zip_strict node_ids ds; Ok (dict_of_list ps))))
            end;;
  Ret (vs ← values; Ok (map (current_value_item model max_depth vs) element_ids)).

(** ** Histories *)

Record HistoricalComponent := { hc_is_composition : bool; hc_values : list VQT }.
Record HistoricalValueResult := { hv_is_composition : bool; hv_values : list VQT; hv_components : dict string HistoricalComponent }.

Definition history_vqts (values : dict string (list (DataValue (V := ua_value)))) (node_id : string) : list VQT :=
  map to_vqt_from_history_value (default [] (values !! node_id)).

Definition build_historical_value_result (model : BuildResult) (max_depth : Z) (values : dict string (list (DataValue (V := ua_value)))) (node : ModelNode)
    : HistoricalValueResult :=
  {| hv_is_composition := is_composition model node;
     hv_values := sort_vqts (if is_property node then history_vqts values (n_source_node_id node) else []);
     hv_components := dict_of_list (map (fun c =>
       (n_id c, {| hc_is_composition := is_composition model c; hc_values := sort_vqts (history_vqts values (n_source_node_id c)) |}))
       (collect_value_component_nodes model node max_depth)) |}.

Definition historical_value_item (model : BuildResult) (max_depth : Z) (values : dict string (list (DataValue (V := ua_value)))) (element_id : string)
    : BulkResultItem HistoricalValueResult :=
  match find_model_node model element_id with
  | None => bulk_result_error element_id "Object not found" 404
  | Some node =>
      if (negb (is_property node) && bool_decide (collect_value_component_nodes model node max_depth = []))%bool
      then bulk_result_error element_id "Object history not found" 404
      else bulk_result_success element_id (build_historical_value_result model max_depth values node)
  end.

(** The times of the request, parsed. *)
Definition query_historical_values (fuel : nat) (model : BuildResult) (element_ids : list string) (start_time end_time : Z) (max_depth : Z)
    : answer (list (BulkResultItem HistoricalValueResult)) :=
  if end_time <? start_time then
    Ret (Err (HttpError 400 "InvalidArgument" "startTime must be less than or equal to endTime"))
  else
    let node_ids := requested_nodes model max_depth element_ids in
    values <- match node_ids with
              | [] => Ret (Ok ∅)
              | _ => or_opcua_error "read historical values"
                       (read_history_values browse_name_of int_of fuel {| tr_start := Some start_time; tr_end := Some end_time |} (unique_ids node_ids))
              end;;
    Ret (vs ← values; Ok (map (historical_value_item model max_depth vs) element_ids)).
End Clock.
End Values.
