(* ===== verification/ValuesSpec.v ===== *)
(** What the REST interface answers to queries of values and histories: the components of an element, the values of
    exactly these nodes, and the order of a history. *)

From S2P Require Export Values OpcuaReadsSpec.

Module ValuesSpec.
Import Values OpcuaReadsSpec.
Local Open Scope async_scope.

(** ** Components *)

Section Components.
Context (model : BuildResult) (root : ModelNode) (max_depth : Z).

(** Whether the walk looks at the children of an element [k] levels down. *)
Definition looks_below (k : nat) : Prop := max_depth <= 0 \/ Z.of_nat k < max_depth.

(** The element is [k] levels below the root, through elements that are not properties. *)
Inductive level : nat -> string -> Prop :=
  | level_root : level 0 (n_id root)
  | level_down k x node c :
      level k x -> looks_below k -> nodes_by_id model !! x = Some node -> c ∈ component_children model node -> is_property c = false ->
      level (S k) (n_id c).

(** A property directly below one of these elements. *)
Definition component (c : ModelNode) : Prop :=
  exists k x node, level k x /\ looks_below k /\ nodes_by_id model !! x = Some node /\ c ∈ component_children model node /\ is_property c = true.

(** [seen] has the depths at which the elements were visited, and the next entries are at depth [d] or one more. *)
Record walk_ok (d : nat) (seen : list (string * nat)) (now next : list string) (components : list ModelNode) : Prop := {
  wk_seen : forall x k, (x, k) ∈ seen -> (k <= d)%nat /\ level k x;
  wk_now : forall x, x ∈ now -> level d x;
  wk_next : forall x, x ∈ next -> level (S d) x;
  wk_root : (n_id root, 0%nat) ∈ seen \/ d = 0%nat /\ n_id root ∈ now;
  wk_below : forall x k node c, (x, k) ∈ seen -> looks_below k -> nodes_by_id model !! x = Some node -> c ∈ component_children model node ->
    if is_property c then c ∈ components
    else (exists k', (n_id c, k') ∈ seen /\ (k' <= S k)%nat) \/ n_id c ∈ now /\ (d <= S k)%nat \/ n_id c ∈ next /\ k = d;
  wk_components : forall c, c ∈ components -> component c;
}.

Definition entries (d : nat) (now next : list string) : list (string * Z) :=
  map (fun x => (x, Z.of_nat d)) now ++ map (fun x => (x, Z.of_nat (S d))) next.

(** The entries of one depth are done. *)
Lemma walk_deeper d seen next components : walk_ok d seen [] next components -> walk_ok (S d) seen next [] components.
Proof.
  intros [Hs Hn Hx Hr Hb Hc]. split; try done.
  - intros x k H. destruct (Hs x k H). split; [lia|done].
  - intros x H. by apply elem_of_nil in H.
  - destruct Hr as [?|[_ Hr]]; [by left|by apply elem_of_nil in Hr].
  - intros x k node c H1 H2 H3 H4. specialize (Hb x k node c H1 H2 H3 H4). destruct (is_property c); [done|].
    destruct Hb as [?|[[Hb _]|[Hb ->]]]; [by left|by apply elem_of_nil in Hb|right; left; split; [done|lia]].
Qed.

(** An entry that was seen before. *)
Lemma walk_again d seen x now next components : walk_ok d seen (x :: now) next components -> x ∈ map fst seen -> walk_ok d seen now next components.
Proof.
  intros [Hs Hn Hx Hr Hb Hc] Hin. apply elem_of_map in Hin as ([x' k0] & -> & Hk). cbn [fst] in *. destruct (Hs x' k0 Hk) as [Hle _]. split; try done.
  - intros y Hy. apply Hn. by right.
  - destruct Hr as [?|[-> Hr]]; [by left|]. apply elem_of_cons in Hr as [->|Hr]; [|by right]. left. assert (k0 = 0%nat) as -> by lia. done.
  - intros y k node c H1 H2 H3 H4. specialize (Hb y k node c H1 H2 H3 H4). destruct (is_property c); [done|].
    destruct Hb as [?|[[Hb Hd]|?]]; [by left| |by right; right]. apply elem_of_cons in Hb as [->|Hb]; [left; exists k0; split; [done|lia]|right; left; done].
Qed.

(** A new entry without children to look at. *)
Lemma walk_stop d seen x now next components :
  walk_ok d seen (x :: now) next components -> (looks_below d -> nodes_by_id model !! x = None) -> walk_ok d ((x, d) :: seen) now next components.
Proof.
  intros [Hs Hn Hx Hr Hb Hc] Hno. split; try done.
  - intros y k [[= -> ->]|H]%elem_of_cons; [split; [lia|apply Hn; by left]|by apply Hs].
  - intros y Hy. apply Hn. by right.
  - destruct Hr as [?|[-> Hr]]; [left; by right|]. apply elem_of_cons in Hr as [->|Hr]; [left; by left|by right].
  - intros y k node c [[= -> ->]|H1]%elem_of_cons H2 H3 H4; [specialize (Hno H2); congruence|]. specialize (Hb y k node c H1 H2 H3 H4).
    destruct (is_property c); [done|]. destruct Hb as [(k' & Hk & Hle)|[[Hb Hd]|?]]; [left; exists k'; split; [by right|done]| |by right; right].
    apply elem_of_cons in Hb as [->|Hb]; [left; exists d; split; [by left|done]|right; left; done].
Qed.

(** A new entry with its children. *)
Lemma walk_expand d seen x node now next components :
  walk_ok d seen (x :: now) next components -> looks_below d -> nodes_by_id model !! x = Some node ->
  walk_ok d ((x, d) :: seen) now (next ++ map n_id (List.filter (fun c => negb (is_property c)) (component_children model node)))
    (components ++ List.filter is_property (component_children model node)).
Proof.
  intros [Hs Hn Hx Hr Hb Hc] Hd Hnode. assert (Hl : level d x) by (apply Hn; by left). split.
  - intros y k [[= -> ->]|H]%elem_of_cons; [by split; [lia|]|by apply Hs].
  - intros y Hy. apply Hn. by right.
  - intros y [Hy|Hy]%elem_of_app; [by apply Hx|]. apply elem_of_map in Hy as (c & -> & Hy). apply elem_of_filter_list in Hy as [Hy Hp%negb_true_iff].
    by eapply level_down.
  - destruct Hr as [?|[-> Hr]]; [left; by right|]. apply elem_of_cons in Hr as [->|Hr]; [left; by left|by right].
  - intros y k node' c [[= -> ->]|H1]%elem_of_cons H2 H3 H4.
    + assert (node' = node) as -> by congruence. destruct (is_property c) eqn:Ep.
      * apply elem_of_app. right. by apply elem_of_filter_list.
      * right. right. split; [|done]. apply elem_of_app. right. apply elem_of_map. exists c. split; [done|]. apply elem_of_filter_list. by rewrite Ep.
    + specialize (Hb y k node' c H1 H2 H3 H4). destruct (is_property c); [apply elem_of_app; by left|].
      destruct Hb as [(k' & Hk & Hle)|[[Hb Hk]|[Hb ->]]]; [left; exists k'; split; [by right|done]| |right; right; split; [apply elem_of_app; by left|done]].
      apply elem_of_cons in Hb as [->|Hb]; [left; exists d; split; [by left|done]|right; left; done].
  - intros c [Hy|Hy]%elem_of_app; [by apply Hc|]. apply elem_of_filter_list in Hy as [Hy Hp]. by exists d, x, node.
Qed.

Lemma walk_end d seen components : walk_ok d seen [] [] components -> forall c, c ∈ components <-> component c.
Proof.
  intros [Hs Hn Hx Hr Hb Hc] c. split; [apply Hc|]. intros (k & x & node & Hl & Hk & Hnode & Hin & Hp).
  assert (Hreach : forall k x, level k x -> exists k', (x, k') ∈ seen /\ (k' <= k)%nat).
  { clear c k x node Hl Hk Hnode Hin Hp. intros k x. induction 1 as [|k x node c Hl (k' & Hk' & Hle) Hk Hnode Hin Hp].
    - destruct Hr as [?|[_ Hr]]; [by exists 0%nat|by apply elem_of_nil in Hr].
    - assert (Hbelow : looks_below k') by (destruct Hk; [by left|right; lia]).
      pose proof (Hb x k' node c Hk' Hbelow Hnode Hin) as H. rewrite Hp in H.
      destruct H as [(k'' & H & ?)|[[H _]|[H _]]]; [exists k''; split; [done|lia]|by apply elem_of_nil in H|by apply elem_of_nil in H]. }
  destruct (Hreach k x Hl) as (k' & Hk' & Hle). assert (Hbelow : looks_below k') by (destruct Hk; [by left|right; lia]).
  pose proof (Hb x k' node c Hk' Hbelow Hnode Hin) as H. by rewrite Hp in H.
Qed.

Abbreviation unseen seen := (unseen_weight (fun node => length (component_children model node)) (map fst seen) (dict_items (nodes_by_id model))).

Lemma limit_spec d : ((0 <? max_depth) && (max_depth <=? Z.of_nat d))%bool = false <-> looks_below d.
Proof. unfold looks_below. rewrite andb_false_iff, Z.ltb_ge, Z.leb_gt. done. Qed.

Lemma entries_next d next : entries d [] next = entries (S d) next [].
Proof. unfold entries. cbn [map app]. by rewrite app_nil_r. Qed.

Lemma component_entries_push d now next l : entries d now next ++ map (fun c => (n_id c, Z.of_nat d + 1)) l = entries d now (next ++ map n_id l).
Proof. unfold entries. rewrite List.map_app, app_assoc, List.map_map. f_equal. apply List.map_ext. intros c. f_equal. lia. Qed.

Lemma collect_components_ok fuel d seen now next components :
  walk_ok d seen now next components -> (length now + length next + unseen seen < fuel)%nat ->
  exists res, collect_components fuel model max_depth (entries d now next) (map fst seen) components = Some res /\ forall c, c ∈ res <-> component c.
Proof.
  revert d seen now next components. induction fuel as [|fuel IH]; intros d seen now next components Hok Hf; [lia|].
  assert (Hcons : forall d x now next, walk_ok d seen (x :: now) next components -> (length (x :: now) + length next + unseen seen < S fuel)%nat ->
    exists res, collect_components (S fuel) model max_depth (entries d (x :: now) next) (map fst seen) components = Some res /\ forall c, c ∈ res <-> component c).
  { clear d now next Hok Hf. intros d x now next Hok Hf. cbn [length] in Hf. unfold entries. cbn [map app collect_components]. fold (entries d now next).
    case_bool_decide as Hseen; [apply IH; [by eapply walk_again|lia]|].
    pose proof (unseen_weight_seen (fun node => length (component_children model node)) (map fst seen) x (dict_items (nodes_by_id model))) as Hw.
    destruct (_ && _)%bool eqn:El.
    { apply (IH d ((x, d) :: seen)); [|cbn [map fst]; lia]. eapply walk_stop; [done|]. intros Hl%limit_spec. congruence. }
    apply limit_spec in El. destruct (nodes_by_id model !! x) as [node|] eqn:En.
    - rewrite component_entries_push. apply (IH d ((x, d) :: seen)); [by apply walk_expand|]. cbn [map fst].
      pose proof (unseen_weight_take (fun node => length (component_children model node)) _ x node _ (dict_lookup_items _ _ _ En) Hseen).
      rewrite length_app, List.length_map. pose proof (List.filter_length_le (fun c => negb (is_property c)) (component_children model node)). lia.
    - apply (IH d ((x, d) :: seen)); [by eapply walk_stop|cbn [map fst]; lia]. }
  destruct now as [|x now]; [|by apply Hcons]. destruct next as [|y next]; [exists components; split; [done|by eapply walk_end]|].
  rewrite entries_next. apply Hcons; [by apply walk_deeper|cbn [length] in *; lia].
Qed.

(** The walk ends, on any model and for any depth, with exactly the components. *)
Lemma collect_value_components_exact c : c ∈ collect_value_component_nodes model root max_depth <-> max_depth ≠ 1 /\ component c.
Proof.
  unfold collect_value_component_nodes. destruct (Z.eqb_spec max_depth 1) as [->|Hne].
  { split; [intros H; by apply elem_of_nil in H|by intros [? _]]. }
  destruct (collect_components_ok (components_fuel model) 0 [] [n_id root] [] []) as (res & Hres & Hc).
  - split; try (intros; by match goal with H : _ ∈ [] |- _ => apply elem_of_nil in H end).
    + intros x ->%list_elem_of_singleton. constructor.
    + right. split; [done|by left].
  - cbn [map length]. rewrite unseen_weight_all. unfold components_fuel. lia.
  - change (entries 0 [n_id root] []) with [(n_id root, 0)] in Hres. cbn [map] in Hres. rewrite Hres. cbn. rewrite Hc. tauto.
Qed.
End Components.

(** ** Current values *)

Lemma Forall2_answers {A B} (R : A -> B -> Prop) (f : A -> B) l : (forall x, x ∈ l -> R x (f x)) -> Forall2 R l (map f l).
Proof. induction l as [|x l IH]; intros H; cbn [map]; constructor; [apply H; by left|]. apply IH. intros y Hy. apply H. by right. Qed.

Section Queries.
Context (now : Z) (model : BuildResult) (max_depth : Z).

(** The components of an element that a request with this depth includes. *)
Definition included (node c : ModelNode) : Prop := max_depth ≠ 1 /\ component model node max_depth c.

(** A node that a request for [element_ids] stands for. *)
Definition asked (element_ids : list string) (n : string) : Prop :=
  exists e node, e ∈ element_ids /\ find_model_node model e = Some node /\
    (is_property node = true /\ n = n_source_node_id node \/ exists c, included node c /\ n = n_source_node_id c).

Lemma elem_of_requested_nodes element_ids n : n ∈ requested_nodes model max_depth element_ids <-> asked element_ids n.
Proof.
  unfold requested_nodes. rewrite list_elem_of_In, in_flat_map. split.
  - intros (e & He%list_elem_of_In & Hn%list_elem_of_In). destruct (find_model_node model e) as [node|] eqn:Ef; [|by apply elem_of_nil in Hn].
    exists e, node. split_and!; [done..|]. apply elem_of_app in Hn as [Hn|Hn].
    + left. destruct (is_property node); [|by apply elem_of_nil in Hn]. by apply list_elem_of_singleton in Hn.
    + right. apply elem_of_map in Hn as (c & -> & Hc%collect_value_components_exact). by exists c.
  - intros (e & node & He & Hf & Hn). exists e. rewrite Hf, <-!list_elem_of_In. split; [done|]. apply elem_of_app. destruct Hn as [[Hp ->]|(c & Hc & ->)].
    + left. rewrite Hp. by left.
    + right. apply elem_of_map. exists c. split; [done|]. by apply collect_value_components_exact.
Qed.

(** What an element gets when the server has [value] for each node. *)
Definition current_answer (value : string -> DataValue (V := ua_value)) (element_ids : list string) (e : string) (item : BulkResultItem CurrentValueResult) : Prop :=
  match find_model_node model e with
  | None => item = bulk_result_error e ("Element not found: " +:+ e) 404
  | Some node => exists r, item = bulk_result_success e r /\
      let vqt n := vqt_from_data_value now (value n) in
      cv_is_composition r = negb (bool_decide (composition_children_for_node model node = [])) /\
      (asked element_ids (n_source_node_id node) -> cv_root r = vqt (n_source_node_id node)) /\
      (~ asked element_ids (n_source_node_id node) -> cv_root r = good_no_data_vqt now) /\
      (forall id v, cv_components r !! id = Some v -> exists c, included node c /\ n_id c = id /\ v = vqt (n_source_node_id c)) /\
      (forall c, included node c -> is_Some (cv_components r !! n_id c))
  end.

Lemma dict_of_nodes {A} (f : string -> A) nodes n :
  dict_of_list (zip nodes (map f nodes)) !! n = if bool_decide (n ∈ nodes) then Some (f n) else None.
Proof.
  replace (zip nodes (map f nodes)) with (map (fun x => (x, f x)) nodes) by (induction nodes as [|x nodes IH]; [done|]; cbn; by rewrite IH).
  apply dict_lookup_tabulate.
Qed.

Lemma dict_of_components {A} (f : ModelNode -> A) node :
  let components := dict_of_list (map (fun c => (n_id c, f c)) (collect_value_component_nodes model node max_depth)) in
  (forall id v, components !! id = Some v -> exists c, included node c /\ n_id c = id /\ v = f c) /\
  (forall c, included node c -> is_Some (components !! n_id c)).
Proof.
  split.
  - intros id v H. apply dict_lookup_of_list_Some, elem_of_map in H as (c & [= -> ->] & Hc). apply collect_value_components_exact in Hc. by exists c.
  - intros c Hc. apply dict_lookup_of_list_is_Some, elem_of_map. exists (n_id c, f c). split; [done|]. apply elem_of_map. exists c. split; [done|].
    by apply collect_value_components_exact.
Qed.

(** With no node to read there is nothing that an element stands for. *)
Lemma current_value_answer value element_ids values e : e ∈ element_ids ->
  (forall n, values !! n = if bool_decide (n ∈ requested_nodes model max_depth element_ids) then Some (value n) else None) ->
  current_answer value element_ids e (current_value_item now model max_depth values e).
Proof.
  intros He Hv. unfold current_answer, current_value_item. destruct (find_model_node model e) as [node|] eqn:Ef; [|done].
  eexists. split; [done|]. cbn zeta. unfold current_value_result, is_composition. cbn [cv_is_composition cv_root cv_components].
  assert (Hread : forall n, asked element_ids n -> vqt_or_no_data now values n = vqt_from_data_value now (value n)).
  { intros n Hn%elem_of_requested_nodes. unfold vqt_or_no_data. by rewrite Hv, bool_decide_true. }
  split_and!; [done|by apply Hread| | |].
  - intros Hn. unfold vqt_or_no_data. rewrite Hv, bool_decide_false; [done|]. by rewrite elem_of_requested_nodes.
  - intros id v H. apply dict_of_components in H as (c & Hc & <- & ->). exists c. split_and!; [done..|]. apply Hread.
    exists e, node. split_and!; [done..|]. right. by exists c.
  - intros c Hc. by apply dict_of_components.
Qed.

(** ** The depth of a request, as it is documented *)

(** The element is [k] composition steps below [node], through elements that are not properties. *)
Inductive path (node : ModelNode) : nat -> string -> Prop :=
  | path_root : path node 0 (n_id node)
  | path_down k x parent c :
      path node k x -> nodes_by_id model !! x = Some parent -> c ∈ component_children model parent -> is_property c = false ->
      path node (S k) (n_id c).

(** A property that is [k] composition steps below [node]. *)
Definition property_below (node : ModelNode) (k : nat) (c : ModelNode) : Prop :=
  exists j x parent, k = S j /\ path node j x /\ nodes_by_id model !! x = Some parent /\ c ∈ component_children model parent /\ is_property c = true.

(** The properties that a depth promises: with 1 the element alone, with [n] the descendants down to [n - 1] steps, with 0 all. *)
Definition promised (node c : ModelNode) : Prop := exists k, property_below node k c /\ (max_depth <= 0 \/ Z.of_nat k < max_depth).

(** What may come along: properties of promised elements, one step further down. *)
Definition tolerated (node c : ModelNode) : Prop :=
  exists k, property_below node k c /\ (max_depth <= 0 \/ 1 < max_depth /\ Z.of_nat k <= max_depth).

Lemma path_level node k x : path node k x -> max_depth <= 0 \/ Z.of_nat k <= max_depth -> level model node max_depth k x.
Proof.
  induction 1 as [|k x parent c Hp IH Hn Hc Hf]; intros Hk; [constructor|].
  apply (level_down _ _ _ k x parent); [apply IH|red| | |]; try done; lia.
Qed.

Lemma level_path node k x : level model node max_depth k x -> path node k x.
Proof. induction 1; [constructor|by eapply path_down]. Qed.

Lemma promised_included node c : promised node c -> included node c.
Proof.
  intros (k & (j & x & parent & -> & Hp & Hn & Hc & Ht) & Hk). split; [lia|].
  exists j, x, parent. split_and!; [apply path_level; [done|lia]|red; lia|done..].
Qed.

Lemma included_tolerated node c : included node c -> tolerated node c.
Proof.
  intros [Hne (k & x & parent & Hl%level_path & Hk & Hn & Hc & Ht)]. exists (S k). split; [by exists k, x, parent|].
  destruct Hk as [Hk|Hk]; [by left|]. destruct (decide (max_depth <= 0)); [by left|]. right. lia.
Qed.

(** Whether the value of a node may be read for another element of the request. *)
Definition tolerated_node (element_ids : list string) (n : string) : Prop :=
  exists e node, e ∈ element_ids /\ find_model_node model e = Some node /\
    (is_property node = true /\ n = n_source_node_id node \/ exists c, tolerated node c /\ n = n_source_node_id c).

(** What an element gets when the server has [value] for each node. *)
Definition value_answer (value : string -> DataValue (V := ua_value)) (element_ids : list string) (e : string) (item : BulkResultItem CurrentValueResult) : Prop :=
  match find_model_node model e with
  | None => item = bulk_result_error e ("Element not found: " +:+ e) 404
  | Some node => exists r, item = bulk_result_success e r /\
      let vqt n := vqt_from_data_value now (value n) in
      cv_is_composition r = negb (bool_decide (composition_children_for_node model node = [])) /\
      (is_property node = true -> cv_root r = vqt (n_source_node_id node)) /\
      (is_property node = false -> cv_root r = good_no_data_vqt now \/
         tolerated_node element_ids (n_source_node_id node) /\ cv_root r = vqt (n_source_node_id node)) /\
      (forall id v, cv_components r !! id = Some v -> exists c, tolerated node c /\ n_id c = id /\ v = vqt (n_source_node_id c)) /\
      (forall c, promised node c -> is_Some (cv_components r !! n_id c))
  end.

Lemma current_value_meaning value element_ids e item :
  e ∈ element_ids -> current_answer value element_ids e item -> value_answer value element_ids e item.
Proof.
  intros He. unfold current_answer, value_answer. destruct (find_model_node model e) as [node|] eqn:Ef; [|done].
  intros (r & -> & Hcomp & Hroot & Hnone & Hin & Hall). exists r. split; [done|]. cbn zeta in *. split_and!; [done| | | |].
  - intros Hp. apply Hroot. exists e, node. split_and!; [done..|]. by left.
  - intros _. destruct (decide (n_source_node_id node ∈ requested_nodes model max_depth element_ids)) as [Ha|Ha]; rewrite elem_of_requested_nodes in Ha.
    + right. split; [|by apply Hroot]. destruct Ha as (e' & node' & He' & Hf' & Ha). exists e', node'. split_and!; [done..|].
      destruct Ha as [?|(c & Hc%included_tolerated & E)]; [by left|right; by exists c].
    + left. by apply Hnone.
  - intros id v H. destruct (Hin id v H) as (c & Hc%included_tolerated & ? & ?). by exists c.
  - intros c Hc%promised_included. by apply Hall.
Qed.
End Queries.

(** C19. A query of current values answers every requested element, in order, whatever limits the server has and however
    the elements overlap: an unknown one with an error of its own, any other with a value or no value of its own (a
    property always with its value) and with components. Every property that the depth of the request promises
    ([promised]: with 1 none, with [n] those down to [n - 1] composition steps through elements that are not properties,
    with 0 all) is among them, each has the value of its own node, and beyond the promised ones there are at most the
    properties of promised elements, one step further down ([tolerated]; none for the depths 0 and 1). *)
Theorem current_values_exact capacity (value : string * AttributeId -> DataValue (V := ua_value)) now model element_ids max_depth :
  holds (capacity_contract capacity value) (query_last_known_values now model element_ids max_depth)
    (fun r => exists items, r = Ok items /\ Forall2 (value_answer now model max_depth (fun n => value (n, att_value)) element_ids) element_ids items).
Proof.
  unfold query_last_known_values. set (f := fun n => value (n, att_value)). set (nodes := requested_nodes model max_depth element_ids).
  eapply (holds_bind _ _ _ (fun r => exists values, r = Ok values /\ forall n, values !! n = if bool_decide (n ∈ nodes) then Some (f n) else None)).
  - destruct nodes as [|n nodes'] eqn:E; [apply holds_ret; by exists ∅|]. rewrite <-E. clear E n nodes'.
    eapply (holds_bind _ _ _ (fun r => r = Ok (dict_of_list (zip nodes (map f nodes))))).
    + eapply holds_obind; [apply (read_data_values_ok capacity value)| |done]. intros ds [= ->]. apply holds_ret. unfold zip_strict. by rewrite length_map, Nat.eqb_refl.
    + intros r ->. apply holds_ret. eexists. split; [done|]. apply dict_of_nodes.
  - intros r (values & -> & Hv). apply holds_ret. eexists. split; [done|].
    apply Forall2_answers. intros e He. apply current_value_meaning; [done|]. by apply current_value_answer.
Qed.

(** ** Histories *)

Lemma by_timestamp_total x y : by_timestamp x y = true \/ by_timestamp y x = true.
Proof. apply string_leb_total. Qed.

Lemma by_timestamp_trans x y z : by_timestamp x y = true -> by_timestamp y z = true -> by_timestamp x z = true.
Proof. apply string_leb_trans. Qed.

(** The values in the order of the texts of their timestamps. *)
Definition in_text_order (given l : list VQT) : Prop := l ≡ₚ given /\ StronglySorted (fun a b => by_timestamp a b = true) l.

Lemma sort_vqts_ok l : in_text_order l (sort_vqts l).
Proof. split; [apply py_sorted_perm|]. apply py_sorted_sorted; [apply by_timestamp_total|apply by_timestamp_trans]. Qed.

Section HistoryQueries.
Context (now : Z) (model : BuildResult) (max_depth : Z) (history : string -> list (DataValue (V := ua_value))).

Abbreviation vqts n := (map (to_vqt_from_history_value now) (history n)).

(** What an element gets when the server has [history] for each node. *)
Definition history_answer (e : string) (item : BulkResultItem HistoricalValueResult) : Prop :=
  match find_model_node model e with
  | None => item = bulk_result_error e "Object not found" 404
  | Some node =>
      (is_property node = false /\ (forall c, ~ included model max_depth node c) /\ item = bulk_result_error e "Object history not found" 404) \/
      exists r, item = bulk_result_success e r /\
        hv_is_composition r = negb (bool_decide (composition_children_for_node model node = [])) /\
        in_text_order (if is_property node then vqts (n_source_node_id node) else []) (hv_values r) /\
        (forall id v, hv_components r !! id = Some v -> exists c, included model max_depth node c /\ n_id c = id /\
          hc_is_composition v = negb (bool_decide (composition_children_for_node model c = [])) /\ in_text_order (vqts (n_source_node_id c)) (hc_values v)) /\
        (forall c, included model max_depth node c -> is_Some (hv_components r !! n_id c))
  end.

Lemma history_value_answer element_ids values e : e ∈ element_ids ->
  (forall n, values !! n = if bool_decide (n ∈ requested_nodes model max_depth element_ids) then Some (history n) else None) ->
  history_answer e (historical_value_item now model max_depth values e).
Proof.
  intros He Hv. unfold history_answer, historical_value_item. destruct (find_model_node model e) as [node|] eqn:Ef; [|done].
  destruct (negb _ && _)%bool eqn:Eh.
  { left. apply andb_true_iff in Eh as [Hp%negb_true_iff Hc%bool_decide_eq_true]. split_and!; [done| |done].
    intros c Hin%collect_value_components_exact. rewrite Hc in Hin. by apply elem_of_nil in Hin. }
  right. eexists. split; [done|]. unfold build_historical_value_result, is_composition. cbn [hv_is_composition hv_values hv_components].
  assert (Hread : forall n, asked model max_depth element_ids n -> history_vqts now values n = vqts n).
  { intros n Hn%elem_of_requested_nodes. unfold history_vqts. by rewrite Hv, bool_decide_true. }
  split_and!; [done| | |].
  - destruct (is_property node) eqn:Ep; [|apply sort_vqts_ok]. rewrite Hread; [apply sort_vqts_ok|]. exists e, node. by split_and!; [..|left].
  - intros id v H. apply (dict_of_components model max_depth (fun c => {| hc_is_composition := is_composition model c; hc_values := sort_vqts (history_vqts now values (n_source_node_id c)) |})) in H
      as (c & Hc & <- & ->). exists c. split_and!; [done..|]. cbn [hc_values]. rewrite Hread; [apply sort_vqts_ok|].
    exists e, node. split_and!; [done..|]. right. by exists c.
  - intros c Hc. by apply (dict_of_components model max_depth (fun c => {| hc_is_composition := is_composition model c; hc_values := sort_vqts (history_vqts now values (n_source_node_id c)) |})).
Qed.
End HistoryQueries.

(** A query of histories refuses an interval that ends before it starts, and fails otherwise only if the server does.
    It answers every requested element, in order, with all values that the server has for it, its pages put together,
    and with those of its components, and sorts them by the texts of their timestamps. *)
Theorem histories_exact pages token fails now fuel model element_ids start_time end_time max_depth :
  pages_ok pages token -> (forall n, asked model max_depth element_ids n -> (length (pages n) <= S fuel)%nat) ->
  holds (history_contract (V := ua_value) pages token fails) (query_historical_values now fuel model element_ids start_time end_time max_depth)
    (fun r => match r with
     | Ok items => start_time <= end_time /\ Forall2 (history_answer now model max_depth (fun n => List.concat (pages n))) element_ids items
     | Err e => end_time < start_time /\ he_status e = 400 \/ start_time <= end_time /\ he_status e = 502 /\ fails
     end).
Proof.
  intros Hok Hlen. unfold query_historical_values. destruct (Z.ltb_spec end_time start_time) as [Ht|Ht]; [by apply holds_ret; left|].
  set (history := fun n => List.concat (pages n)). set (nodes := requested_nodes model max_depth element_ids).
  eapply (holds_bind _ _ _ (fun r => match r with
    | Ok values => forall n, values !! n = if bool_decide (n ∈ nodes) then Some (history n) else None
    | Err e => he_status e = 502 /\ fails
    end)).
  - destruct nodes as [|n nodes'] eqn:E; [by apply holds_ret|]. rewrite <-E. clear E n nodes'.
    eapply holds_bind; [apply (read_history_values_ok pages token Hok fails)|].
    + apply NoDup_unique_ids.
    + intros n Hn. apply Hlen. by apply elem_of_requested_nodes, elem_of_unique_ids.
    + intros [values|e] H; apply holds_ret; [|by destruct H]. intros n. rewrite H. by rewrite (bool_decide_ext _ _ (elem_of_unique_ids nodes n)).
  - intros [values|e] Hv; apply holds_ret; [|by right]. split; [done|].
    apply Forall2_answers. intros e He. by eapply history_value_answer.
Qed.

(** ** The order of a history *)

Lemma string_leb_app p a b : string_leb (of_chars (p ++ a)) (of_chars (p ++ b)) = string_leb (of_chars a) (of_chars b).
Proof.
  induction p as [|c p IH]; [done|]. cbn [app of_chars] in *. unfold string_leb, String.leb in *. cbn [String.compare].
  assert (Ascii.compare c c = Eq) as -> by (unfold Ascii.compare; apply N.compare_refl). exact IH.
Qed.

Lemma whole_second t : t mod 1000000 = 0 -> format_utc_timestamp t = of_chars (seconds_text t ++ ["Z"%char]).
Proof. intros Ht. unfold format_utc_timestamp. by rewrite Ht. Qed.

Lemma within_second t d : t mod 1000000 = 0 -> 0 < d < 1000000 ->
  format_utc_timestamp (t + d) = of_chars (seconds_text t ++ "."%char :: padded 6 d ++ ["Z"%char]).
Proof.
  intros Ht Hd. unfold format_utc_timestamp. rewrite (Z.add_mod t d), Ht, Z.add_0_l, Z.mod_mod, Z.mod_small by lia.
  rewrite (proj2 (Z.eqb_neq d 0)) by lia. unfold seconds_text.
  replace ((t + d) / 1000000) with (t / 1000000); [reflexivity|].
  pose proof (Z.div_mod t 1000000 ltac:(lia)). apply (Z.div_unique _ _ _ d); lia.
Qed.

(** A later value of the same second comes first: the text of a whole second has no fraction, and ['.'] is before ['Z']. *)
Lemma same_second_reversed t d : t mod 1000000 = 0 -> 0 < d < 1000000 ->
  string_leb (format_utc_timestamp (t + d)) (format_utc_timestamp t) = true /\ string_leb (format_utc_timestamp t) (format_utc_timestamp (t + d)) = false.
Proof. intros Ht Hd. rewrite (whole_second t Ht), (within_second t d Ht Hd), !string_leb_app. done. Qed.

(** The values of a history are not always in the order of their times: of two values within a second, the first of
    which is of the whole second, the later one is put first, whatever order the server gives them in. *)
Theorem history_order_reversed now model max_depth values node (a b : DataValue (V := ua_value)) t d :
  is_property node = true -> values !! n_source_node_id node = Some [a; b] -> dv_source_timestamp a = Some t -> dv_source_timestamp b = Some (t + d) ->
  t mod 1000000 = 0 -> 0 < d < 1000000 ->
  hv_values (build_historical_value_result now model max_depth values node) = [vqt_from_data_value now b; vqt_from_data_value now a].
Proof.
  intros Hp Hv Ha Hb Ht Hd. unfold build_historical_value_result, history_vqts. cbn [hv_values]. rewrite Hp, Hv.
  change (sort_vqts (map (to_vqt_from_history_value now) (default [] (Some [a; b])))) with
    (if by_timestamp (vqt_from_data_value now a) (vqt_from_data_value now b) then [vqt_from_data_value now a; vqt_from_data_value now b]
     else [vqt_from_data_value now b; vqt_from_data_value now a]).
  unfold by_timestamp at 1, vqt_from_data_value at 1 2. cbn [vqt_timestamp]. unfold normalize_timestamp, first_timestamp. rewrite Ha, Hb.
  change (default now (Some t)) with t. change (default now (Some (t + d))) with (t + d). by destruct (same_second_reversed t d Ht Hd) as [_ ->].
Qed.

(** ** A machine *)

(** A machine with a property and a part, which has a property too. *)
Definition machine : BuildResult :=
  two_plane_model
    [simple_node "m" "Machine" asset "i=1"; simple_node "t" "Temperature" property "a";
     simple_node "p" "Part" asset "i=3"; simple_node "v" "Voltage" property "b"]
    ["m"] [("m", ["t"; "p"]); ("p", ["v"])] [("m", ["t"; "p"]); ("p", ["v"])].

Definition reading (t : Z) (v : ua_value) : DataValue (V := ua_value) :=
  {| dv_status := None; dv_value := Some v; dv_source_timestamp := Some t; dv_server_timestamp := None |}.

(** A depth of 2 is not only the machine and its direct components. *)
Example depth_two_reads_grandchildren :
  match nodes_by_id machine !! "m" with
  | Some m => composition_children_for_node machine m = ["t"; "p"] /\ map n_id (collect_value_component_nodes machine m 2) = ["t"; "v"]
  | None => False
  end.
Proof. vm_compute. done. Qed.

Lemma history_order_reversed_witness :
  (bool_decide (n_kind (simple_node "t" "Temperature" property "a") = property) = true /\ 0 mod 1000000 = 0 /\ 0 < 500000 < 1000000) /\
  hv_values (build_historical_value_result 0 machine 1 (<["a" := [reading 0 (UInt 1); reading (0 + 500000) (UInt 2)]]> ∅) (simple_node "t" "Temperature" property "a")) =
    [vqt_from_data_value 0 (reading (0 + 500000) (UInt 2)); vqt_from_data_value 0 (reading 0 (UInt 1))].
Proof.
  split; [by split_and!|].
  pose proof (history_order_reversed 0 machine 1 (<["a" := [reading 0 (UInt 1); reading (0 + 500000) (UInt 2)]]> ∅) (simple_node "t" "Temperature" property "a")
    (reading 0 (UInt 1)) (reading (0 + 500000) (UInt 2)) 0 500000 eq_refl eq_refl eq_refl eq_refl eq_refl ltac:(lia)) as H. exact H.
Defined.

(** Two pages for one node and one for the other. *)
Definition machine_history (n : string) : list (list (DataValue (V := ua_value))) :=
  if bool_decide (n = "a") then [[reading 0 (UInt 1)]; [reading 2000000 (UInt 2)]] else [[reading 1000000 (UInt 3)]].

Lemma machine_history_ok : pages_ok machine_history sample_token.
Proof. split; [by intros n []|apply sample_token_inj|]. intros n. unfold machine_history. by case_bool_decide. Qed.

Lemma histories_exact_witness :
  (pages_ok machine_history sample_token /\ forall n, asked machine 0 ["m"; "t"; "x"] n -> (length (machine_history n) <= 2)%nat) /\
  holds (history_contract machine_history sample_token False) (query_historical_values 0 1 machine ["m"; "t"; "x"] 0 3000000 0)
    (fun r => match r with
     | Ok items => 0 <= 3000000 /\ Forall2 (history_answer 0 machine 0 (fun n => List.concat (machine_history n))) ["m"; "t"; "x"] items
     | Err e => 3000000 < 0 /\ he_status e = 400 \/ 0 <= 3000000 /\ he_status e = 502 /\ False
     end).
Proof.
  assert (H : forall n, asked machine 0 ["m"; "t"; "x"] n -> (length (machine_history n) <= 2)%nat) by (intros n _; unfold machine_history; case_bool_decide; cbn; lia).
  split; [by split; [apply machine_history_ok|]|].
  pose proof (histories_exact machine_history sample_token False 0 1 machine ["m"; "t"; "x"] 0 3000000 0 machine_history_ok H) as H'. exact H'.
Defined.
End ValuesSpec.
