(* ===== verification/ObjectHelpers.v ===== *)
(** Objects over the REST interface ([api/v1/object_helpers.py], [api/v1/object_routes.py], [api/v1/object_value_routes.py]):
    ids of object types, the type, the parent and the relationships of an object, listings and related objects.

    The tables of a model are dictionaries of the types that [BuildResult] declares, so the checks with [isinstance] do not
    fail. The index of parents that a model caches is computed anew. *)

From S2P Require Export NodeIds Values UaValues.

Module ObjectHelpers.
Export NodeIds Values ObjectTypes.

(** ** Ids of object types *)

(** [re.sub(r"[^a-z0-9]+", "-", s)]; [inside] a run of such characters. *)
Fixpoint dash_runs (inside : bool) (l : list ascii) : list ascii :=
  match l with
  | [] => []
  | c :: l' => if (is_lower c || is_digit c)%bool then c :: dash_runs false l' else if inside then dash_runs true l' else dash :: dash_runs true l'
  end.

Definition to_urn_token (value : string) : string := or_str (strip_chars [dash] (of_chars (dash_runs false (chars (lower value))))) "unknown".

Fixpoint server_uri_for_namespace_infos (infos : list OpcUaNamespaceInfo) : string :=
  match infos with
  | [] => "unknown-server"
  | item :: infos' =>
      match nsi_server_uri item with
      | Some uri => if truthy (strip uri) then strip uri else server_uri_for_namespace_infos infos'
      | None => server_uri_for_namespace_infos infos'
      end
  end.

Fixpoint namespace_version_for_uri (uri : string) (infos : list OpcUaNamespaceInfo) : string :=
  match infos with
  | [] => "unknown-version"
  | item :: infos' =>
      if bool_decide (normalize_namespace_uri (nsi_uri item) = normalize_namespace_uri uri) then
        match nsi_namespace_version item with Some v => if truthy (strip v) then strip v else "unknown-version" | None => "unknown-version" end
      else namespace_version_for_uri uri infos'
  end.

Definition server_uri_token (server_uri : string) : string :=
  let s := strip server_uri in to_urn_token (if startswith "urn:" (lower s) then str_drop 4 s else s).

(** [s.split(";", 1)[-1]]. *)
Definition after_semicolon (s : string) : string :=
  match partition_at semicolon (chars s) with (_, true, rest) => of_chars rest | _ => s end.

Definition type_urn (namespace_uri name source_type_id server_uri namespace_version : string) : string :=
  PyStr.join ":"
    ["urn"; server_uri_token server_uri; "objecttype"; to_urn_token namespace_uri; "v-" +:+ to_urn_token namespace_version; to_urn_token name;
     to_urn_token (after_semicolon source_type_id)].

Definition object_type_element_id (item : OpcUaObjectTypeInfo) (namespace_uri server_uri namespace_version : string) : string :=
  type_urn namespace_uri (ot_browse_name item) (ot_node_id item) server_uri namespace_version.

Definition virtual_object_type_element_id (namespace_uri display_name source_type_id server_uri namespace_version : string) : string :=
  type_urn namespace_uri display_name source_type_id server_uri namespace_version.

Definition object_type_element_ids_by_node_id (object_types : list OpcUaObjectTypeInfo) (infos : list OpcUaNamespaceInfo) : dict string string :=
  dict_of_list (map (fun item =>
    let uri := namespace_uri_for_node_id (ot_node_id item) infos in
    (ot_node_id item, object_type_element_id item uri (server_uri_for_namespace_infos infos) (namespace_version_for_uri uri infos))) object_types).

(** [re.match(..., flags=re.IGNORECASE)]. *)
Definition is_opcua_node_id (value : string) : bool :=
  (startswith "nsu=" value || bool_decide (is_Some (match_identifier 1 (match_index_prefix (chars (lower value))).2)))%bool.

Definition unknown_type_element_id (infos : list OpcUaNamespaceInfo) : string :=
  let uri := match infos with item :: _ => canonical_namespace_uri (nsi_uri item) infos | [] => "https://cesmii.org/i3x/unknown" end in
  virtual_object_type_element_id uri "UnknownType" "nsu=http://opcfoundation.org/UA/;i=0" (server_uri_for_namespace_infos infos)
    (namespace_version_for_uri uri infos).

(** ** The type of an object *)

Section Objects.
Context (model : BuildResult) (infos : list OpcUaNamespaceInfo) (ids_by_node_id ids_by_source_type : dict string string).

Definition resolved_type_element_id_for_node (node : ModelNode) : string :=
  match n_kind node with
  | property =>
      let type_element_id := expanded_node_id (if truthy_opt (n_type node) then default ε (n_type node) else "unknown-type") infos in
      if is_null_opcua_type_node_id type_element_id then unknown_type_element_id infos
      else default type_element_id (ids_by_source_type !! lower type_element_id)
  | _ =>
      match n_source_type_id node with
      | Some source_type_id =>
          if truthy source_type_id then
            let expanded := expanded_node_id source_type_id infos in
            if is_null_opcua_type_node_id expanded then unknown_type_element_id infos
            else match ids_by_node_id !! source_type_id with
                 | Some resolved => resolved
                 | None => default expanded (ids_by_source_type !! lower expanded)
                 end
          else unknown_type_element_id infos
      | None => unknown_type_element_id infos
      end
  end.

Definition resolve_type_namespace_uri (type_element_id source_type_id_expanded : string) : option string :=
  let uri := namespace_uri_from_expanded_node_id type_element_id in
  let uri := match uri with
             | Some _ => uri
             | None =>
                 if is_opcua_node_id type_element_id then
                   let resolved := namespace_uri_for_node_id type_element_id infos in if truthy resolved then Some resolved else None
                 else None
             end in
  let uri := match uri with Some _ => uri | None => namespace_uri_from_expanded_node_id source_type_id_expanded end in
  (fun uri => canonical_namespace_uri uri infos) <$> uri.

(** ** Parents and relationships *)

Definition index_children (index : dict string string) (entry : string * list string) : dict string string :=
  fold_left (fun index child => dict_setdefault child entry.1 index) entry.2 index.

(** The first parent that lists a child, hierarchy children first. *)
Definition reverse_parent_index : dict string string :=
  fold_left index_children (dict_items (children_by_id model)) (fold_left index_children (dict_items (hierarchy_children_by_id model)) ∅).

Definition parent_id_for_node (node_id : string) : option string :=
  if bool_decide (node_id ∈ root_ids model) then None
  else
    match hierarchy_parent_by_id model !! node_id with
    | Some parent => Some parent
    | None =>
        if match nodes_by_id model !! node_id with Some node => bool_decide (n_kind node = asset \/ n_kind node = eventSource) | None => false end then None
        else match parent_by_id model !! node_id with
             | Some parent => Some parent
             | None => reverse_parent_index !! node_id
             end
    end.

Definition hierarchy_children_for_node (node : ModelNode) : list string :=
  match hierarchy_children_by_id model !! n_id node with
  | Some children => children
  | None =>
      List.filter (fun child => match nodes_by_id model !! child with Some c => negb (bool_decide (n_kind c = property)) | None => false end)
        (default [] (children_by_id model !! n_id node))
  end.

Definition nonempty_entries (relationships : dict string (list string)) : dict string (list string) :=
  Dict (List.filter (fun entry => match entry.2 with [] => false | _ => true end) (dict_items relationships)).

Definition relationships_for_node (node : ModelNode) : dict string (list string) :=
  let normalized := nonempty_entries (default ∅ (relationships_by_id model !! n_id node)) in
  match dict_items normalized with
  | _ :: _ => normalized
  | [] =>
      let relationships := match parent_id_for_node (n_id node) with Some parent => <["HasParent" := [parent]]> ∅ | None => ∅ end in
      let relationships := match hierarchy_children_for_node node with [] => relationships | l => <["HasChildren" := l]> relationships end in
      match composition_children_for_node model node with [] => relationships | l => <["HasComponent" := l]> relationships end
  end.

Record RelationshipType := { rt_element_id : string; rt_display_name : string; rt_reverse_of : string }.

Definition relationship_type_to_parent (node : ModelNode) : RelationshipType :=
  match n_kind node with
  | property => {| rt_element_id := "ComponentOf"; rt_display_name := "ComponentOf"; rt_reverse_of := "HasComponent" |}
  | _ => {| rt_element_id := "HasParent"; rt_display_name := "HasParent"; rt_reverse_of := "HasChildren" |}
  end.

Definition relationship_type_for_name (name : string) (node : ModelNode) : RelationshipType :=
  if bool_decide (name = "HasChildren") then {| rt_element_id := "HasChildren"; rt_display_name := "HasChildren"; rt_reverse_of := "HasParent" |}
  else if bool_decide (name = "HasParent") then relationship_type_to_parent node
  else if bool_decide (name = "HasComponent") then {| rt_element_id := "HasComponent"; rt_display_name := "HasComponent"; rt_reverse_of := "ComponentOf" |}
  else if bool_decide (name = "ComponentOf") then {| rt_element_id := "ComponentOf"; rt_display_name := "ComponentOf"; rt_reverse_of := "HasComponent" |}
  else {| rt_element_id := name; rt_display_name := name; rt_reverse_of := ε |}.

(** ** Objects *)

Inductive RelationshipTargets := OneTarget (target : string) | Targets (targets : list string).

Record ObjectInstanceMetadata := {
  om_type_namespace_uri : option string; om_source_type_id : string; om_description : string; om_composition_parent_id : option string;
  om_relationships : list (string * RelationshipTargets);
}.

Record ObjectInstanceResponse := {
  oi_element_id : string; oi_display_name : string; oi_type_element_id : string; oi_parent_id : option string; oi_is_composition : bool;
  oi_metadata : option ObjectInstanceMetadata;
}.

Definition metadata_relationship (entry : string * list string) : string * RelationshipTargets :=
  (entry.1, if bool_decide (entry.1 = "HasParent") then match entry.2 with target :: _ => OneTarget target | [] => Targets [] end else Targets entry.2).

Definition build_object_instance_metadata (node : ModelNode) (type_namespace_uri : option string) (source_type_id_expanded : string) : ObjectInstanceMetadata :=
  {| om_type_namespace_uri := type_namespace_uri; om_source_type_id := source_type_id_expanded;
     om_description := match meta_str (n_metadata node !! "description") with
                       | Some d => if truthy (strip d) then d else "Derived from model node " +:+ n_name node
                       | None => "Derived from model node " +:+ n_name node
                       end;
     om_composition_parent_id := composition_parent_by_id model !! n_id node;
     om_relationships := map metadata_relationship (dict_items (relationships_for_node node)) |}.

Definition to_object_instance (include_metadata : bool) (node : ModelNode) : ObjectInstanceResponse :=
  let source_type_id := if truthy_opt (n_source_type_id node) then default ε (n_source_type_id node) else n_source_node_id node in
  let expanded := expanded_node_id source_type_id infos in
  let type_element_id := resolved_type_element_id_for_node node in
  {| oi_element_id := n_id node; oi_display_name := n_name node; oi_type_element_id := type_element_id; oi_parent_id := parent_id_for_node (n_id node);
     oi_is_composition := is_composition model node;
     oi_metadata := if include_metadata then Some (build_object_instance_metadata node (resolve_type_namespace_uri type_element_id expanded) expanded) else None |}.

Definition object_type_related_instances (type_node_id : string) : list ObjectInstanceResponse :=
  omap (fun id => to_object_instance true <$> nodes_by_id model !! id) (default [] (instances_by_type_id model !! type_node_id)).

(** The source relationship and the object. *)
Definition RelatedObjectResult : Type := string * ObjectInstanceResponse.

Definition build_related_objects_for_node (node : ModelNode) (filter : option string) (include_metadata : bool) : list RelatedObjectResult :=
  flat_map (fun entry : string * list string =>
    let relationship := relationship_type_for_name entry.1 node in
    if match filter with Some f => negb (bool_decide (rt_element_id relationship = f)) | None => false end then []
    else omap (fun id => target ← nodes_by_id model !! id; Some (rt_display_name relationship, to_object_instance include_metadata target)) entry.2)
    (dict_items (relationships_for_node node)).

(** ** Routes *)

(** [GET /objects]. *)
Definition list_objects (type_element_id : option string) (root include_metadata : bool) : list ObjectInstanceResponse :=
  let nodes := dict_values (nodes_by_id model) in
  let nodes :=
    if root then
      match List.filter (fun node => negb (dict_mem (n_id node) (hierarchy_parent_by_id model)) && negb (dict_mem (n_id node) (composition_parent_by_id model))
                                     && bool_decide (n_kind node = asset \/ n_kind node = eventSource))%bool nodes with
      | [] => omap (fun id => nodes_by_id model !! id) (root_ids model)
      | l => l
      end
    else nodes in
  let nodes :=
    match type_element_id with
    | None => nodes
    | Some t => List.filter (fun node => bool_decide (n_type node = Some t) || bool_decide (kind_str (n_kind node) = t)
                                         || bool_decide (resolved_type_element_id_for_node node = t))%bool nodes
    end in
  map (to_object_instance include_metadata) nodes.

(** [POST /objects/list]. *)
Definition list_objects_by_id (element_ids : list string) (include_metadata : bool) : list (BulkResultItem ObjectInstanceResponse) :=
  map (fun e => match find_model_node model e with
                | None => bulk_result_error e "Object not found" 404
                | Some node => bulk_result_success e (to_object_instance include_metadata node)
                end) element_ids.

(** [POST /objects/related]. *)
Definition query_related_objects (element_ids : list string) (relationship_type : option string) (include_metadata : bool)
    : list (BulkResultItem (list RelatedObjectResult)) :=
  map (fun e => match find_model_node model e with
                | None => bulk_result_error e "Object not found" 404
                | Some node => bulk_result_success e (build_related_objects_for_node node relationship_type include_metadata)
                end) element_ids.
End Objects.

Example type_id_example :
  object_type_element_id (plain_type "ns=2;i=1001" "PumpType" "Pump") "http://acme.com/UA/" "urn:srv-1" "1.0" =
  "urn:srv-1:objecttype:http-acme-com-ua:v-1-0:pumptype:i-1001".
Proof. reflexivity. Qed.
End ObjectHelpers.
