(* ===== verification/ObjectHelpersSpec.v ===== *)
(** What the REST interface shows of the objects of a built model: related objects come in pairs and none is left out,
    parents are those of the hierarchy, and when ids of object types differ. *)

From S2P Require Export BuilderSpec ObjectHelpers.

Module ObjectHelpersSpec.
Import Mapper Builder BuilderLemmas BuilderSpec ObjectHelpers.

(** ** Related objects *)

(** The two names of a relationship, seen from its ends. *)
Inductive inverse : string -> string -> Prop :=
  | inverse_hierarchy : inverse "HasChildren" "HasParent"
  | inverse_composition : inverse "HasComponent" "ComponentOf"
  | inverse_graph id : inverse id ("inverseOf_" +:+ id)
  | inverse_sym n n' : inverse n n' -> inverse n' n.

Lemma related_cases_inverse H C G s n t : related_cases H C G s n t -> exists n', inverse n n' /\ related_cases H C G t n' s.
Proof.
  unfold related_cases. intros [[-> Hx]|[[-> Hx]|[[-> Hx]|[[-> Hx]|[Hx|(rel & -> & Hx)]]]]].
  - exists "HasParent". split; [apply inverse_hierarchy|]. right; left. done.
  - exists "HasChildren". split; [apply inverse_sym, inverse_hierarchy|]. by left.
  - exists "ComponentOf". split; [apply inverse_composition|]. do 3 right; left. done.
  - exists "HasComponent". split; [apply inverse_sym, inverse_composition|]. do 2 right; left. done.
  - exists ("inverseOf_" +:+ n). split; [apply inverse_graph|]. do 5 right. by exists n.
  - exists rel. split; [apply inverse_sym, inverse_graph|]. do 4 right; left. done.
Qed.

Section Related.
Context (r : BuildResult) (infos : list OpcUaNamespaceInfo) (ids_by_node_id ids_by_source_type : dict string string) (include_metadata : bool).

Abbreviation instance := (to_object_instance r infos ids_by_node_id ids_by_source_type include_metadata).
Abbreviation related_objects n := (build_related_objects_for_node r infos ids_by_node_id ids_by_source_type n None include_metadata).

(** The name under which a relationship of a node is shown. *)
Definition shown (rel : string) (n : ModelNode) : string := rt_display_name (relationship_type_for_name rel n).

Lemma related_items s rel t :
  dict_wf (default ∅ (relationships_by_id r !! s)) ->
  related (relationships_by_id r) s rel t <-> exists l, (rel, l) ∈ dict_items (nonempty_entries (default ∅ (relationships_by_id r !! s))) /\ t ∈ l.
Proof.
  intros Hw. unfold related, nonempty_entries. change (dict_items (Dict ?l)) with l. split.
  - destruct (_ !! rel) as [l|] eqn:E; [|by intros ?%not_elem_of_nil]. intros Ht. exists l. split; [|done].
    apply elem_of_filter_list. split; [by apply dict_lookup_items|]. by destruct l; [apply not_elem_of_nil in Ht|].
  - intros (l & Hl & Ht). apply elem_of_filter_list in Hl as [Hl _]. by rewrite (dict_items_lookup _ _ _ Hw Hl).
Qed.

Lemma elem_of_related_objects n x :
  dict_wf (default ∅ (relationships_by_id r !! n_id n)) -> (exists rel t, related (relationships_by_id r) (n_id n) rel t) ->
  x ∈ related_objects n <->
  exists rel t nt, related (relationships_by_id r) (n_id n) rel t /\ nodes_by_id r !! t = Some nt /\ x = (shown rel n, instance nt).
Proof.
  intros Hw (rel0 & t0 & Hrel0). unfold build_related_objects_for_node.
  replace (relationships_for_node r n) with (nonempty_entries (default ∅ (relationships_by_id r !! n_id n))).
  2: { apply (related_items _ _ _ Hw) in Hrel0 as (l & Hl & _). unfold relationships_for_node. cbn zeta.
       destruct (dict_items (nonempty_entries _)) eqn:E; [by apply not_elem_of_nil in Hl|done]. }
  rewrite list_elem_of_In, in_flat_map. setoid_rewrite <-list_elem_of_In. split.
  - intros ([rel l] & Hl & Hx). cbn [fst snd] in Hx. apply list_elem_of_omap in Hx as (t & Ht & Hx).
    destruct (nodes_by_id r !! t) as [nt|] eqn:En; [|done]. cbn in Hx. injection Hx as <-. exists rel, t, nt. split_and!; [|done..].
    apply (related_items _ _ _ Hw). by exists l.
  - intros (rel & t & nt & Hrel & Hn & ->). apply (related_items _ _ _ Hw) in Hrel as (l & Hl & Ht). exists (rel, l). split; [done|].
    cbn [fst snd]. apply list_elem_of_omap. exists t. split; [done|]. by rewrite Hn.
Qed.
End Related.

(** The ends of a relationship of a built model are elements of it. *)
Lemma related_present sha1_hex client r s n t :
  build sha1_hex client = Ok r -> related (relationships_by_id r) s n t -> is_Some (nodes_by_id r !! t).
Proof.
  intros Hr Hrel. destruct (result_closed _ _ _ Hr) as (_ & _ & Hh & Hc & Hg & _). destruct (result_children _ _ _ Hr) as (Hch & Hcc & _).
  destruct (result_relationships _ _ _ Hr) as (Hrels & _). apply Hrels in Hrel.
  destruct Hrel as [[-> Hx]|[[-> Hx]|[[-> Hx]|[[-> Hx]|[Hx|(rel & -> & Hx)]]]]].
  - apply Hch, Hh in Hx. tauto.
  - apply Hch, Hh in Hx. tauto.
  - apply Hcc, Hc in Hx. tauto.
  - apply Hcc, Hc in Hx. tauto.
  - apply Hg in Hx. tauto.
  - apply Hg in Hx. tauto.
Qed.

(** The related objects of an element of a built model are exactly the other ends of its relationships, each under the
    name of its relationship: no target is missing in the model, and each of them lists the element back under the
    inverse relationship. *)
Theorem related_objects_paired sha1_hex client r infos ids_by_node_id ids_by_source_type include_metadata s n :
  build sha1_hex client = Ok r -> nodes_by_id r !! s = Some n -> (exists rel t, related (relationships_by_id r) s rel t) ->
  let instance := to_object_instance r infos ids_by_node_id ids_by_source_type include_metadata in
  let related_objects n := build_related_objects_for_node r infos ids_by_node_id ids_by_source_type n None include_metadata in
  (forall x, x ∈ related_objects n ->
     exists rel t nt, related (relationships_by_id r) s rel t /\ nodes_by_id r !! t = Some nt /\ x = (shown rel n, instance nt)) /\
  (forall rel t, related (relationships_by_id r) s rel t ->
     exists nt rel', nodes_by_id r !! t = Some nt /\ (shown rel n, instance nt) ∈ related_objects n /\
       inverse rel rel' /\ (shown rel' nt, instance n) ∈ related_objects nt).
Proof.
  intros Hr Hn Hsome. cbv zeta. destruct (result_relationships _ _ _ Hr) as (Hrels & _ & Hw).
  assert (Hid : forall id m, nodes_by_id r !! id = Some m -> n_id m = id) by (by eapply result_nodes_ok).
  pose proof (Hid _ _ Hn) as Es. subst s. split.
  - intros x Hx. by apply elem_of_related_objects in Hx.
  - intros rel t Hrel. destruct (related_present _ _ _ _ _ _ Hr Hrel) as [nt Hnt]. pose proof (Hid _ _ Hnt) as Et. subst t.
    pose proof Hrel as Hinv. apply Hrels in Hinv. apply related_cases_inverse in Hinv as (rel' & Hinv & Hback). apply Hrels in Hback.
    exists nt, rel'. split_and!; [done| |done|].
    + apply elem_of_related_objects; [done|done|]. by exists rel, (n_id nt), nt.
    + apply elem_of_related_objects; [done|by exists rel', (n_id n)|]. by exists rel', (n_id n), n.
Qed.

(** ** Ids of object types *)

Definition colon : ascii := ":"%char.

Lemma join_cons2 x y l : chars (PyStr.join ":" (x :: y :: l)) = chars x ++ colon :: chars (PyStr.join ":" (y :: l)).
Proof. change (PyStr.join ":" (x :: y :: l)) with (x +:+ ":" +:+ PyStr.join ":" (y :: l)). by rewrite !chars_app. Qed.

Lemma join_inj l l' : length l = length l' -> Forall (fun s => colon ∉ chars s) l -> Forall (fun s => colon ∉ chars s) l' ->
  PyStr.join ":" l = PyStr.join ":" l' -> l = l'.
Proof.
  revert l'. induction l as [|x [|y l] IH]; intros [|x' [|y' l']] Hlen Hf Hf' H; try done; [cbn in H; by subst|].
  apply (f_equal chars) in H. rewrite !join_cons2 in H. apply Forall_cons in Hf as [Hx Hf]. apply Forall_cons in Hf' as [Hx' Hf'].
  pose proof (f_equal (partition_at colon) H) as E. rewrite !partition_at_app in E by done. injection E as Ex Er.
  apply (f_equal of_chars) in Ex, Er. rewrite !of_chars_chars in Ex, Er. subst x'. f_equal. apply IH; [cbn in *; lia|done..].
Qed.

Lemma dash_runs_chars inside l c : c ∈ dash_runs inside l -> c = dash \/ (is_lower c || is_digit c)%bool = true.
Proof.
  revert inside. induction l as [|x l IH]; intros inside; cbn [dash_runs]; [by intros ?%not_elem_of_nil|].
  destruct (is_lower x || is_digit x)%bool eqn:E; [|destruct inside; [by apply IH|]]; intros [->|H]%elem_of_cons; eauto.
Qed.

Lemma elem_of_drop_while {A} (p : A -> bool) l x : x ∈ drop_while p l -> x ∈ l.
Proof. induction l as [|y l IH]; cbn; [done|]. destruct (p y); [right; auto|done]. Qed.

Lemma elem_of_strip_chars cs s c : c ∈ chars (strip_chars cs s) -> c ∈ chars s.
Proof.
  unfold strip_chars, rdrop_while. rewrite chars_of_chars. intros H. apply elem_of_reverse, elem_of_drop_while, elem_of_reverse, elem_of_drop_while in H. done.
Qed.

(** A token has no separator. *)
Lemma token_no_colon s : colon ∉ chars (to_urn_token s).
Proof.
  unfold to_urn_token, or_str. destruct (truthy _); [|by apply (bool_decide_unpack _)].
  intros H%elem_of_strip_chars. rewrite chars_of_chars in H. by apply dash_runs_chars in H as [H|H].
Qed.

Lemma v_token_no_colon s : colon ∉ chars ("v-" +:+ to_urn_token s).
Proof. rewrite chars_app. intros [H|H]%elem_of_app; [by apply (bool_decide_unpack (colon ∉ chars "v-")) in H|by apply token_no_colon in H]. Qed.

Lemma type_urn_inj uri name id server version uri' name' id' server' version' :
  type_urn uri name id server version = type_urn uri' name' id' server' version' ->
  to_urn_token name = to_urn_token name' /\ to_urn_token (after_semicolon id) = to_urn_token (after_semicolon id').
Proof.
  unfold type_urn. intros H. apply join_inj in H; [by injection H|done|..].
  all: repeat (apply Forall_cons; split); try apply Forall_nil; try done; try apply token_no_colon; try apply v_token_no_colon; by apply (bool_decide_unpack _).
Qed.

Lemma dash_runs_digits inside l : forallb is_digit l = true -> dash_runs inside l = l.
Proof.
  revert inside. induction l as [|c l IH]; intros inside H; [done|]. cbn in H. apply andb_true_iff in H as [Hc Hl]. cbn [dash_runs].
  by rewrite Hc, orb_true_r, (IH false Hl).
Qed.

Lemma lower_digit c : is_digit c = true -> lower_char c = c.
Proof.
  unfold is_digit, lower_char, is_upper, PyStr.between. rewrite andb_true_iff, !Z.leb_le. intros Hc.
  destruct (65 <=? code c) eqn:E; [apply Z.leb_le in E; lia|done].
Qed.

Lemma numeric_token n : 0 <= n -> to_urn_token ("i=" +:+ str_of_int n) = "i-" +:+ str_of_int n.
Proof.
  intros Hn. pose proof (base_digits_is_digit _ (to_digits_chars 10 n ltac:(lia) Hn)) as Hd.
  assert (Hl : map lower_char (to_digits 10 n) = to_digits 10 n).
  { rewrite <-(List.map_id (to_digits 10 n)) at 2. apply List.map_ext_in. intros c Hc. rewrite List.forallb_forall in Hd. by apply lower_digit, Hd. }
  unfold to_urn_token, lower, str_of_int. rewrite !chars_of_chars, chars_app, chars_of_chars, List.map_app, Hl.
  change (map lower_char (chars "i=")) with ["i"%char; "="%char]. cbn [app].
  change (dash_runs false ("i"%char :: "="%char :: to_digits 10 n)) with ("i"%char :: dash :: dash_runs true (to_digits 10 n)).
  rewrite (dash_runs_digits _ _ Hd). unfold strip_chars. rewrite chars_of_chars. rewrite drop_while_id by done.
  assert (exists l x, to_digits 10 n = l ++ [x]) as (l & x & E).
  { destruct (exists_last (to_digits_fuel_nonempty _ _ _ _ : to_digits 10 n ≠ [])) as (l & x & E). by exists l, x. }
  assert (Hx : is_digit x = true) by (rewrite E, List.forallb_app in Hd; cbn in Hd; by rewrite andb_true_r in Hd; apply andb_true_iff in Hd as [_ ?]).
  rewrite E. change ("i"%char :: dash :: l ++ [x]) with (("i"%char :: dash :: l) ++ [x]). rewrite rdrop_while_snoc_false.
  - unfold or_str. assert (truthy (of_chars (("i"%char :: dash :: l) ++ [x])) = true) as -> by done.
    rewrite <-(of_chars_chars ("i-" +:+ of_chars (l ++ [x]))). f_equal. rewrite chars_app, chars_of_chars. done.
  - cbn [existsb]. rewrite orb_false_r. unfold ceqb. apply bool_decide_eq_false. by intros ->.
Qed.

Lemma str_of_int_inj n m : 0 <= n -> 0 <= m -> str_of_int n = str_of_int m -> n = m.
Proof.
  intros Hn Hm H%of_chars_inj. destruct (digits_value_to_digits n Hn) as [<- _]. destruct (digits_value_to_digits m Hm) as [<- _]. by rewrite H.
Qed.

(** The id of an object type tells exactly the tokens of its name and of its identifier apart, within a namespace of a
    server: types with different numeric identifiers get different ids. *)
Theorem type_ids_exact a b namespace_uri server_uri namespace_version :
  let id item := object_type_element_id item namespace_uri server_uri namespace_version in
  let token item := to_urn_token (after_semicolon (ot_node_id item)) in
  (id a = id b <-> to_urn_token (ot_browse_name a) = to_urn_token (ot_browse_name b) /\ token a = token b) /\
  (forall n m, 0 <= n -> 0 <= m -> after_semicolon (ot_node_id a) = "i=" +:+ str_of_int n -> after_semicolon (ot_node_id b) = "i=" +:+ str_of_int m ->
     n ≠ m -> id a ≠ id b).
Proof.
  cbv zeta. unfold object_type_element_id. split; [split|].
  - apply type_urn_inj.
  - intros [En Ei]. unfold type_urn. by rewrite En, Ei.
  - intros n m Hn Hm Ha Hb Hne [_ Ei]%type_urn_inj. rewrite Ha, Hb, !numeric_token in Ei by done. apply Hne.
    apply (inj (String.append "i-")) in Ei. by apply str_of_int_inj.
Qed.

(** Types whose names and identifiers differ in case or in punctuation only share an id. *)
Example types_share_an_id :
  let pump s := plain_type ("ns=2;s=" +:+ s) s s in
  object_type_element_id (pump "Pump_A") "urn:x" "urn:srv" "1" = object_type_element_id (pump "PumP.a") "urn:x" "urn:srv" "1".
Proof. reflexivity. Qed.

(** A variable that a folder organizes is a component of the folder, seen from the variable, and its child, seen from the
    folder; asking for its parent under the name of that relationship finds none. *)
Definition folder_client : OpcUaClient :=
  {| browse_tree := [demo_node "ns=1;s=F" None "F" "Object" [demo_ref "ns=1;s=V" "i=35" "Organizes"]; demo_node "ns=1;s=V" (Some "ns=1;s=F") "V" "Variable" []];
     get_namespace_infos := Some (Ok demo_infos); resolve_reference_type_supertype_browse_names := None;
     resolve_type_definition_hierarchies := None; resolve_type_definition_hierarchy := None |}.

Example organized_property_mislabelled :
  match build demo_hash folder_client with
  | Ok r =>
      let names id filter := map (fun x => (x.1, oi_element_id x.2))
        (match nodes_by_id r !! id with Some n => build_related_objects_for_node r [] ∅ ∅ n filter false | None => [] end) in
      names "asset-urn:x;s=F" None = [("HasChildren", "property-urn:x;s=V")] /\
      names "property-urn:x;s=V" None = [("ComponentOf", "asset-urn:x;s=F")] /\
      names "property-urn:x;s=V" (Some "HasParent") = []
  | Err _ => False
  end.
Proof. vm_compute. done. Qed.

Lemma related_objects_paired_witness :
  let instance := to_object_instance demo_result [] ∅ ∅ false in
  let related_objects n := build_related_objects_for_node demo_result [] ∅ ∅ n None false in
  exists m a, nodes_by_id demo_result !! "asset-urn:x;s=M" = Some m /\ nodes_by_id demo_result !! "asset-urn:x;s=A" = Some a /\
    (shown "HasParent" m, instance a) ∈ related_objects m.
Proof.
  cbv zeta. destruct (nodes_by_id demo_result !! "asset-urn:x;s=M") as [m|] eqn:Em; [|by vm_compute in Em].
  assert (Hrel : related (relationships_by_id demo_result) "asset-urn:x;s=M" "HasParent" "asset-urn:x;s=A") by (unfold related; apply (bool_decide_unpack _); vm_compute; exact I).
  pose proof (proj2 (related_objects_paired demo_hash demo_client demo_result [] ∅ ∅ false "asset-urn:x;s=M" m demo_builds Em (ex_intro _ _ (ex_intro _ _ Hrel))) _ _ Hrel) as H.
  destruct H as (a & rel' & Ha & Hin & _). exists m, a. split_and!; [done|exact Ha|exact Hin].
Defined.
End ObjectHelpersSpec.
