(* ===== verification/OpcuaWrites.v ===== *)
(** Writes of the OPC UA client ([infrastructure/opcua/client.py], [infrastructure/opcua/history.py]): access rights, the
    write of a current value with its verification, and the update of a history with the conversion of the value to the
    type and the shape of its node.

    What asyncua and the Python runtime tell of a value are parameters: the texts of status codes and objects, [int()] of
    an object that is no number, [repr(float(z))], [datetime.fromisoformat] and [UUID]. *)

From S2P Require Export UaValues OpcuaReads.

Module OpcuaWrites.
Export UaValues OpcuaReads.
Local Open Scope async_scope.

Definition quality_status_code (q : Quality) : Z :=
  match q with Good => 0 | Uncertain => 1073741824 | Bad => 2147483648 | GoodNoData => 10813440 end.

(** The severity is the two highest bits. *)
Definition quality_from_status_code (s : option StatusCode) : option Quality :=
  match s with
  | None => None
  | Some s =>
      if sc_value s =? 10813440 then Some GoodNoData
      else
        let severity := Z.land (sc_value s) 3221225472 in
        if severity =? 0 then Some Good else if severity =? 1073741824 then Some Uncertain else if severity =? 2147483648 then Some Bad else None
  end.

Record PyObjects := {
  status_text : StatusCode -> string;
  int_of_object : ua_value -> outcome error Z;
  text_of_object : ua_value -> string;
  text_of_data_value : DataValue (V := ua_value) -> string;
  is_variant_type : string -> bool;
  float_of_int : Z -> option string;
  fromisoformat : string -> option (Z * bool);
  uuid : string -> option ua_value;
}.

Section Writes.
Context (py : PyObjects).

Abbreviation method A := (prog client (request (V := ua_value)) (outcome error A)).
Abbreviation DataValue := (DataValue (V := ua_value)).

Definition type_error : error := Error OtherError "TypeError".
Definition ua_error (text : string) : error := Error OtherError text.

(** [StatusCode.check]. *)
Definition check (s : StatusCode) : outcome error unit := if is_good s then Ok tt else Err (Error (UaStatusCodeError (sc_name s)) (status_text py s)).

Definition has_status (codes : list string) (e : error) : bool :=
  match er_class e with UaStatusCodeError status => bool_decide (status ∈ codes) | _ => false end.

(** ** Access rights *)

Definition VALUE_RANK : AttributeId := att_other 15.
Definition ARRAY_DIMENSIONS : AttributeId := att_other 16.

(** [_is_write_access_allowed] of [_attribute_scalar_value]; a data value without a variant stands for itself. *)
Definition is_write_access_allowed (d : DataValue) : bool :=
  match dv_value d with
  | None => str_in "write" (lower (text_of_data_value py d))
  | Some UNone => false
  | Some (UBool b) => b
  | Some (UInt z) => Z.testbit z 1
  | Some v => match int_of_object py v with Ok z => Z.testbit z 1 | Err _ => str_in "write" (lower (text_of_object py v)) end
  end.

Definition write_access (values : list DataValue) : bool * bool :=
  (match values !! 0%nat with Some d => is_write_access_allowed d | None => false end,
   match values !! 1%nat with Some d => is_write_access_allowed d | None => false end).

Definition read_write_access (node : string) : method (bool * bool) :=
  let attributes := ReadNode node [ACCESS_LEVEL; USER_ACCESS_LEVEL] in
  r <- ask attributes;;
  match r with
  | Ok values => Ret (Ok (write_access values))
  | Err e =>
      if should_retry_after_disconnect e then obind (retry_once e attributes) (fun values => Ret (Ok (write_access values)))
      else _ <- record_failed_request;; Ret (Err e)
  end.

(** [int(_attribute_scalar_value(...))]. *)
Definition scalar_int (d : DataValue) : outcome error Z :=
  match dv_value d with
  | None => Err type_error
  | Some (UBool b) => Ok (if b then 1 else 0)
  | Some (UInt z) => Ok z
  | Some v => int_of_object py v
  end.

Definition checked (missing : string) (d : DataValue) : outcome error unit :=
  match dv_status d with None => Err (ua_error missing) | Some s => check s end.

Definition history_write_access (values : list DataValue) : outcome error (bool * bool) :=
  match values with
  | [access; user_access] =>
      _ ← checked "Missing OPC UA history access status" access;
      _ ← checked "Missing OPC UA history access status" user_access;
      a ← scalar_int access; u ← scalar_int user_access; Ok (Z.testbit a 3, Z.testbit u 3)
  | _ => Err (ua_error "Incomplete OPC UA history access response")
  end.

(** [except Exception: self._record_failed_request(); raise]. *)
Definition or_record_failed {A} (p : method A) : method A := catch p (fun e => _ <- record_failed_request;; Ret (Err e)).

Definition read_history_write_access (node : string) : method (bool * bool) :=
  or_record_failed (obind (ask (ReadNode node [ACCESS_LEVEL; USER_ACCESS_LEVEL])) (fun values => Ret (history_write_access values))).

(** ** Current values *)

Definition read_variant_type (node : string) : method (option string) :=
  catch (ask (ReadVariantType node)) (fun e =>
    if should_retry_after_disconnect e then retry_once e (ReadVariantType node) else Ret (Ok None)).

(** The type of the variant that is written, if the code gives one. *)
Definition explicit_variant_type (value : ua_value) (variant_type : option string) : option string :=
  match value with
  | UNone => Some "Null"
  | _ =>
      match variant_type with
      | None => None
      | Some t => let normalized := strip t in if (truthy normalized && is_variant_type py normalized)%bool then Some normalized else None
      end
  end.

Definition written_value (value : ua_value) (variant_type : option string) (quality : Quality) (timestamp : Z) : WrittenValue (V := ua_value) :=
  {| wv_value := value; wv_variant_type := explicit_variant_type value variant_type; wv_status := quality_status_code quality;
     wv_source_timestamp := timestamp |}.

Definition unverified : error := Error OpcUaWriteMetadataVerificationError
  "OPC UA server accepted the current-value write, but the requested quality and source timestamp could not be verified; write outcome is uncertain".
Definition not_preserved : error := Error OpcUaWriteMetadataUnsupportedError
  "OPC UA server did not preserve the requested quality and source timestamp; current-value VQT writes are unsupported by this server".

Definition preserved (d : DataValue) (quality : Quality) (timestamp : Z) : bool :=
  (bool_decide (quality_from_status_code (dv_status d) = Some quality) && bool_decide (dv_source_timestamp d = Some timestamp))%bool.

(** A write is not repeated after a lost connection: the server may have applied it. *)
Definition write_value (node : string) (value : ua_value) (variant_type : option string) (quality : Quality) (timestamp : Z) : method unit :=
  obind (or_record_failed (ask (WriteNode node (written_value value variant_type quality timestamp)))) (fun _ =>
    _ <- count "write_count" 1;;
    obind (catch (ask (ReadBack node)) (fun _ => _ <- record_failed_request;; Ret (Err unverified))) (fun d =>
      if preserved d quality timestamp then Ret (Ok tt) else _ <- record_failed_request;; Ret (Err not_preserved))).

(** ** Historical values *)

(** The bits of an integer type, and whether it is signed. *)
Definition integer_bits (t : string) : option (Z * bool) :=
  items_lookup t
    [("SByte", (8, true)); ("Byte", (8, false)); ("Int16", (16, true)); ("UInt16", (16, false)); ("Int32", (32, true)); ("UInt32", (32, false));
     ("Int64", (64, true)); ("UInt64", (64, false))].

Definition other_types : list string := ["Boolean"; "Float"; "Double"; "String"; "DateTime"; "Guid"; "ByteString"].

Definition supported_type (t : string) : bool := (bool_decide (is_Some (integer_bits t)) || bool_decide (t ∈ other_types))%bool.

(** The number that the text of a float stands for, as a mantissa and an exponent of 10; infinities and NaN stand for none. *)
Definition float_parts (text : string) : option (Z * Z) :=
  let unsigned := match chars text with c :: l => if ceqb c "-"%char then l else c :: l | [] => [] end in
  let '(number, _, exponent) := partition_at "e"%char unsigned in
  let '(whole, _, fraction) := partition_at "."%char number in
  let power := match exponent with
               | c :: l => if ceqb c "-"%char then - digits_value l else if ceqb c "+"%char then digits_value l else digits_value (c :: l)
               | [] => 0
               end in
  if forallb is_digit (whole ++ fraction) then Some (digits_value (whole ++ fraction), power - Z.of_nat (length fraction)) else None.

(** [abs(number) <= 3.4028234663852886e38]. *)
Definition fits_float (parts : Z * Z) : bool :=
  let limit := 34028234663852886 * 10 ^ 22 in
  if 0 <=? parts.2 then parts.1 * 10 ^ parts.2 <=? limit else parts.1 <=? limit * 10 ^ (- parts.2).

(** [float(value)] of a number that is no bool. *)
Definition to_float (v : json) : option (outcome error string) :=
  match v with
  | JInt z => Some (match float_of_int py z with Some text => Ok text | None => Err (value_error "Numeric value is out of range") end)
  | JFloat text => Some (Ok text)
  | _ => None
  end.

Definition does_not_conform (t : string) : error := value_error ("Value does not conform to OPC UA " +:+ t).

(** A [Z] in the text of a time is replaced by the offset zero. *)
Definition convert_scalar (v : json) (t : string) : outcome error ua_value :=
  match integer_bits t with
  | Some (bits, signed) =>
      let minimum := if signed then - 2 ^ (bits - 1) else 0 in
      let maximum := 2 ^ (bits - (if signed then 1 else 0)) - 1 in
      match v with JInt z => if PyStr.between minimum maximum z then Ok (UInt z) else Err (does_not_conform t) | _ => Err (does_not_conform t) end
  | None =>
      if bool_decide (t = "Float" \/ t = "Double") then
        match to_float v with
        | None => Err (does_not_conform t)
        | Some r =>
            text ← r;
            match float_parts text with
            | Some parts => if (bool_decide (t = "Double") || fits_float parts)%bool then Ok (UFloat text) else Err (does_not_conform t)
            | None => Err (does_not_conform t)
            end
        end
      else if bool_decide (t = "Boolean") then match v with JBool b => Ok (UBool b) | _ => Err (does_not_conform t) end
      else if bool_decide (t = "String") then match v with JStr s => Ok (UStr s) | _ => Err (does_not_conform t) end
      else if bool_decide (t = "DateTime") then
        match v with
        | JStr s =>
            match fromisoformat py (PyStr.join "+00:00" (str_split "Z"%char s)) with
            | None => Err (value_error "Invalid isoformat string")
            | Some (time, true) => Ok (UDateTime time)
            | Some (_, false) => Err (does_not_conform t)
            end
        | _ => Err (does_not_conform t)
        end
      else if bool_decide (t = "Guid") then
        match v with JStr s => match uuid py s with Some u => Ok u | None => Err (value_error "badly formed hexadecimal UUID string") end | _ => Err (does_not_conform t) end
      else if bool_decide (t = "ByteString") then
        match v with JStr s => match b64decode s with Some l => Ok (UBytes l) | None => Err (value_error "Invalid base64 ByteString") end | _ => Err (does_not_conform t) end
      else Err (value_error ("Historical writes for " +:+ t +:+ " values are not supported"))
  end.

(** The converted value, and its shape: the lengths of the lists, from the outermost. *)
Fixpoint convert_value (v : json) (t : string) : outcome error (ua_value * list Z) :=
  match v with
  | JArr l =>
      converted ← (fix go l := match l with [] => Ok [] | x :: l' => y ← convert_value x t; ys ← go l'; Ok (y :: ys) end) l;
      let child_shape := match converted with c :: _ => c.2 | [] => [] end in
      if existsb (fun c : ua_value * list Z => negb (bool_decide (c.2 = child_shape))) converted
      then Err (value_error "Arrays must be rectangular and contain values of the declared type")
      else Ok (UList (map fst converted), Z.of_nat (length l) :: child_shape)
  | _ => c ← convert_scalar v t; Ok (c, [])
  end.

Definition rank_conforms (value_rank : Z) (dimensions : Z) : bool :=
  negb ((value_rank =? -1) && negb (dimensions =? 0) || (value_rank =? -3) && (1 <? dimensions) || (value_rank =? 0) && (dimensions =? 0)
        || (0 <? value_rank) && negb (dimensions =? value_rank) || (value_rank <? -3))%bool.

(** [array_dimensions] is a list of numbers, or null. *)
Definition dimensions_conform (shape : list Z) (array_dimensions : option (list Z)) : bool :=
  match shape, array_dimensions with
  | _ :: _, Some (d :: ds) =>
      (Nat.eqb (length shape) (length (d :: ds)) && forallb (fun p => (p.2 =? 0) || (p.1 <=? p.2))%bool (zip shape (d :: ds)))%bool
  | _, _ => true
  end.

Definition historical_data_value (value : json) (quality : Quality) (timestamp : Z) (t : string) (value_rank : Z) (array_dimensions : option (list Z))
    : outcome error (WrittenValue (V := ua_value)) :=
  let data_value v vt := {| wv_value := v; wv_variant_type := Some vt; wv_status := quality_status_code quality; wv_source_timestamp := timestamp |} in
  match value with
  | JNull =>
      if bool_decide (quality = Bad \/ quality = GoodNoData) then Ok (data_value UNone "Null")
      else Err (value_error "A null value requires Bad or GoodNoData quality")
  | _ =>
      if bool_decide (quality = Bad \/ quality = GoodNoData) then Err (value_error "Bad and GoodNoData quality require a null value")
      else if negb (supported_type t) then Err (value_error ("Historical writes for " +:+ t +:+ " values are not supported"))
      else
        '(converted, shape) ← convert_value value t;
        if negb (rank_conforms value_rank (Z.of_nat (length shape))) then Err (value_error "Value does not conform to the OPC UA ValueRank")
        else if negb (dimensions_conform shape array_dimensions) then Err (value_error "Value does not conform to OPC UA ArrayDimensions")
        else Ok (data_value converted t)
  end.

Definition BAD_ATTRIBUTE_ID_INVALID : Z := 2150957056.

Definition ints_of (v : ua_value) : outcome error (option (list Z)) :=
  match v with
  | UNone => Ok None
  | UList l => match mapM int_of l with Some dims => Ok (Some dims) | None => Err type_error end
  | _ => Err type_error
  end.

(** The type, the rank and the dimensions of the node, and the value to write; asyncua reports a type for every variable. *)
Definition prepare_history_value (value : json) (quality : Quality) (timestamp : Z) (variant_type : option string) (attributes : list DataValue)
    : outcome error (WrittenValue (V := ua_value)) :=
  match attributes with
  | [rank; dimensions] =>
      match dv_status rank, dv_status dimensions with
      | Some rank_status, Some dimensions_status =>
          _ ← check rank_status;
          dims ← (if sc_value dimensions_status =? BAD_ATTRIBUTE_ID_INVALID then Ok None
                  else _ ← check dimensions_status; match dv_value dimensions with None => Err type_error | Some v => ints_of v end);
          value_rank ← scalar_int rank;
          match variant_type with
          | Some t => historical_data_value value quality timestamp t value_rank dims
          | None => Err type_error
          end
      | _, _ => Err (ua_error "Missing OPC UA history type status")
      end
  | _ => Err (ua_error "Incomplete OPC UA history type response")
  end.

Definition check_history_update (r : StatusCode * list StatusCode) : outcome error unit :=
  _ ← check r.1;
  match r.2 with [s] => check s | _ => Err (ua_error "Incomplete OPC UA HistoryUpdate operation results") end.

Definition set_history_update_supported (b : bool) (c : client) : client :=
  {| cl_metrics := cl_metrics c; cl_limits := cl_limits c; cl_history_update_supported := Some b |}.

Definition history_update_supported : prog client (request (V := ua_value)) (option bool) := sect (fun c => (c, cl_history_update_supported c)).

Definition write_history_value (node : string) (value : json) (quality : Quality) (timestamp : Z) : method unit :=
  obind
    (catch
      (obind (ask (ReadVariantType node)) (fun variant_type =>
       obind (ask (ReadNode node [VALUE_RANK; ARRAY_DIMENSIONS])) (fun attributes =>
       obind (Ret (prepare_history_value value quality timestamp variant_type attributes)) (fun written =>
       obind (ask (HistoryUpdate node written)) (fun result => Ret (check_history_update result))))))
      (fun e =>
        _ <- (if has_status ["BadServiceUnsupported"] e then update (set_history_update_supported false) else Ret tt);;
        _ <- record_failed_request;; Ret (Err e)))
    (fun _ => _ <- update (set_history_update_supported true);; _ <- count "history_write_count" 1;; Ret (Ok tt)).
End Writes.
End OpcuaWrites.
