(* ===== verification/OpcuaWritesSpec.v ===== *)
(** The conversion of historical values ([infrastructure/opcua/history.py]): what is written fits the type, the rank and the
    dimensions of its node; what the server gave is converted back to itself; qualities survive their codes. *)

From S2P Require Export OpcuaWrites.

Module OpcuaWritesSpec.
Import OpcuaWrites.

Lemma quality_roundtrip q s : sc_value s = quality_status_code q -> quality_from_status_code (Some s) = Some q.
Proof. intros Hs. unfold quality_from_status_code. rewrite Hs. by destruct q. Qed.

Section Conversion.
Context (py : PyObjects).

(** [v] is a value of the type [t]. *)
Definition fits (t : string) (v : ua_value) : Prop :=
  match integer_bits t with
  | Some (bits, true) => exists z, v = UInt z /\ - 2 ^ (bits - 1) <= z < 2 ^ (bits - 1)
  | Some (bits, false) => exists z, v = UInt z /\ 0 <= z < 2 ^ bits
  | None =>
      (t = "Float" /\ exists text parts, v = UFloat text /\ float_parts text = Some parts /\ fits_float parts = true) \/
      (t = "Double" /\ exists text parts, v = UFloat text /\ float_parts text = Some parts) \/
      (t = "Boolean" /\ exists b, v = UBool b) \/ (t = "String" /\ exists s, v = UStr s) \/
      (t = "DateTime" /\ exists time, v = UDateTime time) \/ (t = "Guid" /\ exists s, uuid py s = Some v) \/
      (t = "ByteString" /\ exists l, v = UBytes l)
  end.

(** Lists of this shape, of values with [P]. *)
Inductive shaped (P : ua_value -> Prop) : list Z -> ua_value -> Prop :=
  | shaped_scalar v : P v -> shaped P [] v
  | shaped_empty : shaped P [0] (UList [])
  | shaped_list n s l : l ≠ [] -> n = Z.of_nat (length l) -> Forall (shaped P s) l -> shaped P (n :: s) (UList l).

Lemma convert_scalar_fits v t u : convert_scalar py v t = Ok u -> fits t u.
Proof.
  unfold convert_scalar, fits. destruct (integer_bits t) as [[bits signed]|].
  - destruct v; try done. destruct (PyStr.between _ _ z) eqn:E; [|done]. intros [= <-].
    apply andb_true_iff in E as [H1%Z.leb_le H2%Z.leb_le]. destruct signed; exists z; (split; [done|]); rewrite ?Z.sub_0_r in *; lia.
  - case_bool_decide as Hf.
    { destruct (to_float py v) as [[text|e]|]; [|done..]. cbn [mbind outcome_bind]. destruct (float_parts text) as [parts|] eqn:Ep; [|done].
      case_bool_decide as Hd; cbn [orb]; [intros [= <-]; right; left; by split; [|exists text, parts]|].
      destruct (fits_float parts) eqn:Efit; [|done]. intros [= <-]. left. split; [|by exists text, parts]. tauto. }
    case_bool_decide; [destruct v; try done; intros [= <-]; do 2 right; left; eauto|].
    case_bool_decide; [destruct v; try done; intros [= <-]; do 3 right; left; eauto|].
    case_bool_decide; [destruct v; try done; destruct (fromisoformat py _) as [[time []]|]; [|done..]; intros [= <-]; do 4 right; left; eauto|].
    case_bool_decide; [destruct v; try done; destruct (uuid py s) eqn:Eu; [|done]; intros [= <-]; do 5 right; left; eauto|].
    case_bool_decide; [destruct v; try done; destruct (b64decode s) eqn:Eu; [|done]; intros [= <-]; do 6 right; eauto|done].
Qed.

Definition convert_all (t : string) : list json -> outcome error (list (ua_value * list Z)) :=
  fix go l := match l with [] => Ok [] | x :: l' => y ← convert_value py x t; ys ← go l'; Ok (y :: ys) end.

Lemma convert_list l t : convert_value py (JArr l) t =
  (converted ← convert_all t l;
   let child_shape := match converted with c :: _ => c.2 | [] => [] end in
   if existsb (fun c : ua_value * list Z => negb (bool_decide (c.2 = child_shape))) converted
   then Err (value_error "Arrays must be rectangular and contain values of the declared type")
   else Ok (UList (map fst converted), Z.of_nat (length l) :: child_shape)).
Proof. done. Qed.

Lemma convert_all_inv l t converted : convert_all t l = Ok converted -> Forall2 (fun x c => convert_value py x t = Ok c) l converted.
Proof.
  revert converted. induction l as [|x l IH]; intros converted; cbn [convert_all]; [intros [= <-]; constructor|].
  destruct (convert_value py x t) as [y|e] eqn:Ex; [|done]. cbn [mbind outcome_bind]. destruct (convert_all t l) as [ys|e]; [|done]. cbn [mbind outcome_bind].
  intros [= <-]. constructor; [done|]. by apply IH.
Qed.

Lemma same_shapes (c : ua_value * list Z) cs :
  existsb (fun d : ua_value * list Z => negb (bool_decide (d.2 = c.2))) (c :: cs) = false -> forall d, d ∈ c :: cs -> d.2 = c.2.
Proof.
  intros H d Hd. destruct (decide (d.2 = c.2)) as [|Hne]; [done|]. exfalso. assert (existsb (fun d : ua_value * list Z => negb (bool_decide (d.2 = c.2))) (c :: cs) = true) as E; [|congruence].
  apply existsb_exists. exists d. split; [by apply list_elem_of_In|]. by rewrite bool_decide_false.
Qed.

Lemma convert_value_shaped v t u shape : convert_value py v t = Ok (u, shape) -> shaped (fits t) shape u.
Proof.
  revert u shape. induction v as [| | | | |l IH|l] using json_rect'; intros u shape.
  6: { rewrite convert_list. destruct (convert_all t l) as [converted|e] eqn:Ec; [|done]. cbn [mbind outcome_bind]. cbv zeta.
       apply convert_all_inv in Ec. destruct (existsb _ converted) eqn:Es; [done|]. intros [= <- <-].
       destruct Ec as [|x c l cs Hx Hl]; [apply shaped_empty|]. apply shaped_list; [done| |].
       - rewrite List.length_map. cbn [length]. by rewrite (Forall2_length _ _ _ Hl).
       - pose proof (same_shapes _ _ Es) as Hs. apply Forall_forall. intros y Hy. apply elem_of_map in Hy as (d & -> & Hd).
         rewrite <-(Hs d Hd). apply list_elem_of_lookup in Hd as [i Hd].
         assert (Hall : Forall2 (fun x c => convert_value py x t = Ok c) (x :: l) (c :: cs)) by (by constructor).
         destruct (Forall2_lookup_r _ _ _ _ _ Hall Hd) as (x' & Hx'%list_elem_of_lookup_2 & Hc). eapply (proj1 (Forall_forall _ _) IH x' Hx'). by destruct d. }
  all: cbn [convert_value]; destruct (convert_scalar py _ t) eqn:E; [|done]; cbn [mbind outcome_bind]; intros [= <- <-]; apply shaped_scalar; by eapply convert_scalar_fits.
Qed.

Lemma rank_conforms_spec rank n : rank_conforms rank n = true ->
  (rank = -1 -> n = 0) /\ (rank = -3 -> n <= 1) /\ (rank = 0 -> n ≠ 0) /\ (0 < rank -> n = rank) /\ -3 <= rank.
Proof. unfold rank_conforms. rewrite negb_true_iff, !orb_false_iff, !andb_false_iff, !negb_false_iff, !Z.eqb_neq, !Z.eqb_eq, !Z.ltb_ge. lia. Qed.

Lemma dimensions_conform_spec shape ds : dimensions_conform shape (Some ds) = true -> ds ≠ [] -> shape ≠ [] ->
  Forall2 (fun actual expected => expected ≠ 0 -> actual <= expected) shape ds.
Proof.
  intros H Hd Hs. assert (length shape = length ds /\ forallb (fun p => (p.2 =? 0) || (p.1 <=? p.2))%bool (zip shape ds) = true) as [Hlen Hall].
  { destruct shape as [|x shape]; [done|]. destruct ds as [|d ds]; [done|]. cbn [dimensions_conform] in H. by apply andb_true_iff in H as [?%Nat.eqb_eq ?]. }
  clear H Hd Hs. revert ds Hlen Hall. induction shape as [|x shape IH]; intros [|d ds] Hlen Hall; try done; constructor; cbn in Hall; apply andb_true_iff in Hall as [Hx Hall].
  - intros Hd. apply orb_true_iff in Hx as [?%Z.eqb_eq|?%Z.leb_le]; done.
  - apply IH; [cbn in Hlen; lia|done].
Qed.
End Conversion.

(** C20. A historical value that is written fits its node: it has the requested quality and time, it is null exactly for the
    qualities without a value, and else it consists of values of the type of the node, integers within the bits of the
    type, in rectangular lists of as many levels as the rank of the node asks for and within its dimensions. *)
Theorem historical_value_fits py value q timestamp t rank dimensions w :
  historical_data_value py value q timestamp t rank dimensions = Ok w ->
  wv_status w = quality_status_code q /\ wv_source_timestamp w = timestamp /\
  if bool_decide (q = Bad \/ q = GoodNoData) then value = JNull /\ wv_value w = UNone
  else value ≠ JNull /\ exists shape, shaped (fits py t) shape (wv_value w) /\
    let n := Z.of_nat (length shape) in
    (rank = -1 -> n = 0) /\ (rank = -3 -> n <= 1) /\ (rank = 0 -> n ≠ 0) /\ (0 < rank -> n = rank) /\
    (forall ds, dimensions = Some ds -> ds ≠ [] -> shape ≠ [] -> Forall2 (fun actual expected => expected ≠ 0 -> actual <= expected) shape ds).
Proof.
  unfold historical_data_value. destruct value; case_bool_decide; try done; [intros [= <-]; by split_and!|..].
  all: destruct (supported_type t); [|done]; cbn [negb].
  all: destruct (convert_value py _ t) as [[u shape]|e] eqn:E; [|done]; cbn [mbind outcome_bind]; apply convert_value_shaped in E.
  all: destruct (rank_conforms rank _) eqn:Er; [|done]; apply rank_conforms_spec in Er; cbn [negb].
  all: destruct (dimensions_conform shape dimensions) eqn:Ed; [|done]; intros [= <-]; cbn [wv_status wv_source_timestamp wv_value].
  all: split_and!; [done..|]; exists shape; split; [done|]; cbv zeta; split_and!; try apply Er.
  all: intros ds ->; by apply dimensions_conform_spec.
Qed.

(** ** Written back *)

Section Back.
Context (py : PyObjects).

(** A value of the type [t] whose JSON has the whole of it; a time is one that the text of it is parsed to. *)
Definition told (t : string) (v : ua_value) : Prop :=
  fits py t v /\ t ≠ "Guid" /\
  match v with
  | UDateTime time => fromisoformat py (PyStr.join "+00:00" (str_split "Z"%char (format_utc_timestamp time))) = Some (time, true)
  | UBytes l => Forall byte l
  | _ => True
  end.

Lemma convert_scalar_back t v : told t v -> convert_scalar py (to_json_safe_value v) t = Ok v /\ (forall l, to_json_safe_value v ≠ JArr l).
Proof.
  intros (Hf & Hg & Ht). unfold fits in Hf. unfold convert_scalar. destruct (integer_bits t) as [[bits signed]|] eqn:Eb.
  - destruct signed; destruct Hf as (z & -> & Hz); cbn [to_json_safe_value]; (split; [|done]); unfold PyStr.between;
      rewrite ?Z.sub_0_r, (proj2 (Z.leb_le _ _)), (proj2 (Z.leb_le _ _)) by lia; done.
  - destruct Hf as [(-> & text & parts & -> & Hp & Hfit)|[(-> & text & parts & -> & Hp)|[(-> & b & ->)|[(-> & s & ->)|[(-> & time & ->)|[[-> _]|(-> & l & ->)]]]]]];
      [| | | | |done|]; cbn [to_json_safe_value]; (split; [|done]).
    + rewrite bool_decide_true by (by left). cbn [to_float mbind outcome_bind]. by rewrite Hp, Hfit.
    + rewrite bool_decide_true by (by right). cbn [to_float mbind outcome_bind]. by rewrite Hp, bool_decide_true.
    + reflexivity.
    + reflexivity.
    + change (convert_scalar py (JStr (format_utc_timestamp time)) "DateTime" = Ok (UDateTime time)). unfold convert_scalar. cbn -[PyStr.join str_split format_utc_timestamp]. by rewrite Ht.
    + cbn. by rewrite b64_roundtrip.
Qed.

Lemma convert_all_back t s l : Forall (fun v => convert_value py (to_json_safe_value v) t = Ok (v, s)) l ->
  convert_all py t (map to_json_safe_value l) = Ok (map (fun v => (v, s)) l).
Proof. induction 1 as [|v l Hv _ IH]; [done|]. cbn [map convert_all]. rewrite Hv. cbn [mbind outcome_bind]. cbn [convert_all] in IH. by rewrite IH. Qed.

Lemma convert_value_back t shape v : shaped (told t) shape v -> convert_value py (to_json_safe_value v) t = Ok (v, shape).
Proof.
  revert v. induction shape as [|n s IH]; intros v H; inversion H as [v' Hv E1 E2|E1 E2|n' s' l Hne Hn Hl E1 E2]; subst; clear H.
  - destruct (convert_scalar_back _ _ Hv) as [Hc Hno]. destruct (to_json_safe_value v); try (cbn [convert_value]; rewrite Hc; done). by destruct (Hno l).
  - reflexivity.
  - cbn [to_json_safe_value]. rewrite convert_list, (convert_all_back _ s).
    2: { eapply Forall_impl; [exact Hl|]. exact IH. }
    cbn [mbind outcome_bind]. cbv zeta. destruct l as [|x l]; [done|]. cbn [map].
    destruct (existsb _ _) eqn:E.
    { exfalso. apply existsb_exists in E as (c & Hc & Hs). change ((x, s) :: map (fun v => (v, s)) l) with (map (fun v => (v, s)) (x :: l)) in Hc.
      apply List.in_map_iff in Hc as (y & <- & _). cbn in Hs. by rewrite bool_decide_true in Hs. }
    cbn [fst snd length]. by rewrite List.map_map, List.map_id, List.length_map.
Qed.
End Back.

(** C21. What was read can be written back: a value of the server, or rectangular lists of values, turned to JSON as reads
    do and given to an update of a history, converts to the same value with its shape. This is for the types of which
    histories are written except Guid, whose text is made by third-party code, and for times whose own text is parsed to
    them. The quality read from a status is the one whose code it is. (The other direction does not hold literally: a time
    given with another offset is read in UTC.) *)
Theorem written_back py t shape v q s :
  shaped (told py t) shape v -> sc_value s = quality_status_code q ->
  convert_value py (to_json_safe_value v) t = Ok (v, shape) /\ quality_from_status_code (Some s) = Some q.
Proof. intros Hv Hs. split; [by apply convert_value_back|by apply quality_roundtrip]. Qed.

(** ** Examples *)

Definition sample_py : PyObjects :=
  {| status_text := sc_name; int_of_object := fun _ => Err (Error OtherError "TypeError"); text_of_object := fun _ => ε; text_of_data_value := fun _ => ε;
     is_variant_type := fun t => bool_decide (t ∈ ["Int32"; "Double"; "ByteString"]); float_of_int := fun _ => None; fromisoformat := fun _ => None;
     uuid := fun _ => None |}.

Definition sample_matrix : json := JArr [JArr [JInt 1; JInt 255]; JArr [JInt 0; JInt 16]].

Lemma historical_value_fits_witness :
  exists w, historical_data_value sample_py sample_matrix Good 5 "Byte" 2 (Some [2; 0]) = Ok w /\ wv_source_timestamp w = 5.
Proof.
  eexists. split; [vm_compute; reflexivity|].
  pose proof (historical_value_fits sample_py sample_matrix Good 5 "Byte" 2 (Some [2; 0]) _ eq_refl) as (_ & H & _). exact H.
Defined.

Example out_of_range : map (fun z => is_ok (historical_data_value sample_py (JInt z) Good 5 "SByte" (-1) None)) [-129; -128; 127; 128] = [false; true; true; false].
Proof. reflexivity. Qed.

Example ragged : is_ok (historical_data_value sample_py (JArr [JArr [JInt 1]; JArr []]) Good 5 "Int32" 2 None) = false.
Proof. reflexivity. Qed.

Lemma written_back_witness :
  convert_value sample_py (to_json_safe_value (UList [UBytes [1; 2; 3]; UBytes [255]])) "ByteString" = Ok (UList [UBytes [1; 2; 3]; UBytes [255]], [2]) /\
  quality_from_status_code (Some {| sc_value := 1073741824; sc_severity := sev_uncertain; sc_name := "Uncertain" |}) = Some Uncertain.
Proof.
  assert (Ht : forall l, Forall byte l -> told sample_py "ByteString" (UBytes l)).
  { intros l Hl. split_and!; [|done|done]. unfold fits. cbn. do 6 right. split; [done|]. by exists l. }
  assert (H : shaped (told sample_py "ByteString") [2] (UList [UBytes [1; 2; 3]; UBytes [255]])).
  { apply shaped_list; [done..|]. repeat apply Forall_cons_2; try apply Forall_nil_2; apply shaped_scalar, Ht; repeat apply Forall_cons_2; try apply Forall_nil_2; unfold byte; lia. }
  pose proof (written_back sample_py "ByteString" [2] _ Uncertain {| sc_value := 1073741824; sc_severity := sev_uncertain; sc_name := "Uncertain" |} H eq_refl) as H'.
  exact H'.
Defined.
End OpcuaWritesSpec.
