(* ===== verification/Writes.v ===== *)
(** Updates of values and histories over the REST interface ([api/v1/object_value_routes.py], [api/v1/monolithic.py],
    [api/v1/write_validation.py]): checks of the element, of the value against the schema of its type, of access rights and
    of the OPC UA type, and then at most one write per update.

    The context of object types is discovered once per request: it is a value, or the discovery failed. JSON Schema is the
    third-party library [jsonschema]. The routes' log messages and the diagnostics that go with them are left out. *)

From S2P Require Export OpcuaWrites ObjectHelpers Schemas.

Module Writes.
Export OpcuaWrites ObjectHelpers Schemas.
Local Open Scope async_scope.

(** ** Requests *)

Record VQTRequest := { vr_value : json; vr_quality : Quality; vr_timestamp : Z }.
Record UpdateItem := { up_element_id : string; up_value : VQTRequest }.

(** [_validate_null_quality]: a request with a value that fails it is refused as a whole. *)
Definition validate_null_quality (v : VQTRequest) : bool :=
  let no_value := bool_decide (vr_quality v = Bad \/ vr_quality v = GoodNoData) in
  match vr_value v with JNull => no_value | _ => negb no_value end.

(** [str.isprintable], for code points up to 255. *)
Definition is_printable (c : ascii) : bool := (PyStr.between 32 126 (code c) || PyStr.between 161 172 (code c) || PyStr.between 174 255 (code c))%bool.

Definition valid_write_element_id (s : string) : bool := (truthy s && bool_decide (s = strip s) && forallb is_printable (chars s))%bool.

(** ** Values *)

Definition vtype (t : string) : string := lower (strip t).

Definition is_valid_write_type (value : ua_value) (variant_type : option string) : bool :=
  match variant_type with
  | None => true
  | Some t =>
      let normalized := vtype t in
      if bool_decide (normalized = "boolean") then match value with UBool _ => true | _ => false end
      else if bool_decide (normalized ∈ ["sbyte"; "byte"; "int16"; "uint16"; "int32"; "uint32"; "int64"; "uint64"]) then
        match value with UInt _ => true | _ => false end
      else if bool_decide (normalized ∈ ["float"; "double"]) then match value with UInt _ | UFloat _ => true | _ => false end
      else if bool_decide (normalized ∈ ["string"; "localizedtext"; "qualifiedname"]) then match value with UStr _ => true | _ => false end
      else if bool_decide (normalized = "bytestring") then match value with UBytes _ => true | _ => false end
      else if bool_decide (normalized = "datetime") then match value with UStr _ | UDateTime _ => true | _ => false end
      else if bool_decide (normalized = "guid") then match value with UStr _ => true | _ => false end
      else true
  end.

(** [None] for an error. *)
Definition decode_bytestring_write_value (value : ua_value) (variant_type : option string) : option ua_value :=
  match variant_type, value with
  | Some t, UStr s => if bool_decide (vtype t = "bytestring") then UBytes <$> b64decode s else Some value
  | _, _ => Some value
  end.

Definition classify_write_error (e : error) : Z * string :=
  let text := lower (er_text e) in
  let has := existsb (fun marker => str_in marker text) in
  if has ["baduseraccessdenied"; "access denied"; "permission"] then (403, "unauthorized_by_opcua_server")
  else if has ["badnotwritable"; "not writable"] then (403, "target_not_writable")
  else if has ["badtype"; "mismatch"; "outofrange"] then (400, "bad_type_or_range")
  else (502, "session_or_transport_failure").

Definition normalize_write_payload (payload : json) : json :=
  match payload with
  | JObj l =>
      match items_lookup "value" l with
      | Some v => if forallb (fun p => bool_decide (p.1 ∈ ["value"; "quality"; "timestamp"])) l then v else payload
      | None => payload
      end
  | _ => payload
  end.

(** [json.dumps(..., sort_keys=True)] of both. *)
Definition json_equivalent (left right : ua_value) : bool :=
  let text v := dumps default_separators (sort_keys (to_json_safe_value v)) in bool_decide (text left = text right).

(** ** Validation against the schema *)

Record ObjectTypeResponse := { otr_element_id : string; otr_schema : json }.

Record ObjectTypeContext := {
  oc_namespace_infos : list OpcUaNamespaceInfo; oc_items : list ObjectTypeResponse;
  oc_element_ids_by_node_id : dict string string; oc_source_type_to_element_id : dict string string;
}.

(** What [jsonschema] says of a value: the place and the message of a violation, or that the schema is no schema. *)
Inductive Conformance := Conforms | Violates (path message : string) | InvalidSchema | NotEvaluated.

Section Updates.
Context (py : PyObjects) (now : Z) (model : BuildResult) (type_context : option ObjectTypeContext) (jsonschema : json -> json -> Conformance).

Abbreviation program A := (prog client (request (V := ua_value)) A).

(** The status and the message of [WriteValidationError]. *)
Definition validate (node : ModelNode) (value : json) : outcome (Z * string) unit :=
  match type_context with
  | None => Err (502, "Unable to resolve ObjectType schema for writes")
  | Some context =>
      let type_id := resolved_type_element_id_for_node (oc_namespace_infos context) (oc_element_ids_by_node_id context) (oc_source_type_to_element_id context) node in
      match List.find (fun item => bool_decide (otr_element_id item = type_id)) (oc_items context) with
      | None => Err (502, "ObjectType schema unavailable: " +:+ type_id)
      | Some object_type =>
          if negb (check_local_references (otr_schema object_type)) then Err (502, "ObjectType schema contains an unsupported external reference")
          else match jsonschema (otr_schema object_type) value with
               | Conforms => Ok tt
               | Violates path message =>
                   Err (400, "Value does not conform to ObjectType " +:+ type_id +:+ " at " +:+ or_str path "<value>" +:+ ": " +:+ message)
               | InvalidSchema => Err (502, "Invalid ObjectType schema: " +:+ type_id)
               | NotEvaluated => Err (502, "Unable to evaluate ObjectType schema: " +:+ type_id)
               end
      end
  end.

(** ** Current values *)

Definition is_noop_write (node_id : string) (requested_value : ua_value) (quality : Quality) (timestamp : Z) : program bool :=
  r <- read_data_values browse_name_of int_of [node_id];;
  Ret (match r with
       | Ok (d :: _) =>
           let current := vqt_from_data_value now d in
           (json_equivalent (of_json (vqt_value current)) requested_value && bool_decide (vqt_quality current = quality)
            && bool_decide (dv_source_timestamp d = Some timestamp))%bool
       | _ => false
       end).

(** Whether the update succeeded, its status and its message. *)
Definition Decision : Type := bool * Z * string.

Definition denied (status : Z * string) : program Decision := Ret (false, status.1, status.2).

Definition write_error (e : error) : Z * string :=
  match er_class e with
  | OpcUaWriteMetadataUnsupportedError => (501, er_text e)
  | OpcUaWriteMetadataVerificationError => (502, er_text e)
  | _ => classify_write_error e
  end.

(** The write, once the target is known to be writable. *)
Definition write_checked_value (node_id : string) (value : json) (quality : Quality) (timestamp : Z) : program Decision :=
  r <- read_variant_type node_id;;
  match r with
  | Err e => denied (classify_write_error e)
  | Ok variant_type =>
      match decode_bytestring_write_value (of_json value) variant_type with
      | None => denied (400, "bad_type_or_range")
      | Some written =>
          if negb (match written with UNone => true | _ => is_valid_write_type written variant_type end) then denied (400, "bad_type_or_range")
          else
            r <- write_value py node_id written variant_type quality timestamp;;
            match r with Ok _ => Ret (true, 200, "ok") | Err e => denied (write_error e) end
      end
  end.

Definition write_object_value_by_element_id (element_id : string) (payload : json) (quality : Quality) (timestamp : Z) : program Decision :=
  let value := normalize_write_payload payload in
  if negb (valid_write_element_id element_id) then denied (400, "elementId must be non-empty, printable, and have no surrounding whitespace")
  else match find_model_node model element_id with
  | None => denied (404, "Element not found: " +:+ element_id)
  | Some node =>
      if negb (is_property node) then denied (400, "bad_type_or_range")
      else match validate node value with
      | Err e => denied e
      | Ok _ =>
          let node_id := n_source_node_id node in
          r <- read_write_access py node_id;;
          match r with
          | Err e => denied (classify_write_error e)
          | Ok (writable, user_writable) =>
              if (writable && user_writable)%bool then write_checked_value node_id value quality timestamp
              else
                noop <- is_noop_write node_id (of_json value) quality timestamp;;
                if noop then Ret (true, 200, "ok") else denied (403, "target_not_writable")
          end
      end
  end.

Definition not_implemented (feature : string) : http_error := HttpError 501 "NotImplemented" (feature +:+ " is not implemented in this server").

Definition update_result (element_id : string) (ok : bool) (status : Z) (message : string) : BulkResultItem unit :=
  if ok then bulk_result_success element_id tt else bulk_result_error element_id message status.

Definition update_object_value (u : UpdateItem) : program (BulkResultItem unit) :=
  d <- write_object_value_by_element_id (up_element_id u) (vr_value (up_value u)) (vr_quality (up_value u)) (vr_timestamp (up_value u));;
  let '(ok, status, message) := d in Ret (update_result (up_element_id u) ok status message).

(** A loop over the updates, with a state. *)
Fixpoint for_updates {S A} (f : S -> UpdateItem -> program (S * A)) (s : S) (l : list UpdateItem) : program (S * list A) :=
  match l with
  | [] => Ret (s, [])
  | u :: l' => sa <- f s u;; rest <- for_updates f sa.1 l';; Ret (rest.1, sa.2 :: rest.2)
  end.

Definition update_object_values (writes_enabled : bool) (updates : list UpdateItem) : program (outcome http_error (list (BulkResultItem unit))) :=
  if negb writes_enabled then Ret (Err (not_implemented "Current value updates"))
  else r <- for_updates (fun s u => item <- update_object_value u;; Ret (s, item)) tt updates;; Ret (Ok r.2).

(** ** Histories *)

(** Whether the service is known to be missing, the status and the message of an update whose reads or update raised. *)
Definition history_write_error (service_unsupported attempted : bool) (e : error) : bool * Z * string :=
  let classified := let c := classify_write_error e in (service_unsupported, c.1, c.2 +:+ ": " +:+ er_text e) in
  match er_class e with
  | ValueError => (service_unsupported, 400, er_text e)
  | UaStatusCodeError _ =>
      if (has_status ["BadHistoryOperationUnsupported"; "BadNotImplemented"] e || has_status ["BadServiceUnsupported"] e && attempted)%bool then
        ((service_unsupported || has_status ["BadServiceUnsupported"] e)%bool, 501, "OPC UA historical writes unsupported: " +:+ er_text e)
      else if has_status ["BadNodeIdUnknown"] e then (service_unsupported, 404, er_text e)
      else if has_status ["BadHistoryOperationInvalid"; "BadInvalidArgument"; "BadTimestampNotSupported"] e then (service_unsupported, 400, er_text e)
      else classified
  | _ => classified
  end.

Definition history_decision (service_unsupported : bool) (u : UpdateItem) : program (bool * Z * string) :=
  match find_model_node model (up_element_id u) with
  | None => Ret (service_unsupported, 404, "Element not found: " +:+ up_element_id u)
  | Some node =>
      if negb (is_property node) then Ret (service_unsupported, 400, "Historical writes require a Variable-backed property element")
      else
        let v := up_value u in
        match validate node (vr_value v) with
        | Err (status, message) => Ret (service_unsupported, status, message)
        | Ok _ =>
            if service_unsupported then Ret (service_unsupported, 501, "OPC UA HistoryUpdate service is unavailable")
            else
              access <- read_history_write_access py (n_source_node_id node);;
              match access with
              | Err e => Ret (history_write_error service_unsupported false e)
              | Ok (writable, user_writable) =>
                  if negb (writable && user_writable)%bool then Ret (service_unsupported, 403, "Target does not permit historical writes")
                  else
                    r <- write_history_value py (n_source_node_id node) (vr_value v) (vr_quality v) (vr_timestamp v);;
                    match r with Ok _ => Ret (service_unsupported, 200, "ok") | Err e => Ret (history_write_error service_unsupported true e) end
              end
        end
  end.

Definition update_historical_value (service_unsupported : bool) (u : UpdateItem) : program (bool * BulkResultItem unit) :=
  d <- history_decision service_unsupported u;;
  let '(service_unsupported, status, message) := d in Ret (service_unsupported, update_result (up_element_id u) (status =? 200) status message).

Definition succeeded {A} (item : BulkResultItem A) : bool := match bi_error item with None => true | Some _ => false end.

(** The results, and whether the whole answer has the status 501. *)
Definition update_historical_values (writes_enabled : bool) (updates : list UpdateItem)
    : program (outcome http_error (list (BulkResultItem unit) * bool)) :=
  if negb writes_enabled then Ret (Err (not_implemented "Historical value updates"))
  else
    supported <- history_update_supported;;
    r <- for_updates update_historical_value (bool_decide (supported = Some false)) updates;;
    Ret (Ok (r.2, (r.1 && negb (existsb succeeded r.2))%bool)).
End Updates.
End Writes.
