(* ===== verification/WritesSpec.v ===== *)
(** What the updates of [Writes.v] may do to the server: every write is of a known property with a value that conforms to
    its schema and its type, after the server has granted access; an update makes one write at most and reports success
    only for a write that was verified or was not needed; what is read can be written back. *)

From S2P Require Export Writes OpcuaReadsSpec OpcuaWritesSpec.

Module WritesSpec.
Import Writes OpcuaReadsSpec OpcuaWritesSpec.
Local Open Scope async_scope.

(** ** Programs that only read *)

Definition reading R (c : request (V := ua_value) R) : Prop := match c with WriteNode _ _ | HistoryUpdate _ _ => False | _ => True end.

Abbreviation program A := (prog client (request (V := ua_value)) A).
Abbreviation reads p := (only reading p).

Lemma reads_ask {R} (c : request (V := ua_value) R) : reading R c -> reads (ask c).
Proof. intros Hc. by split. Qed.

Lemma reads_obind {A B} (p : program (outcome error A)) (g : A -> program (outcome error B)) : reads p -> (forall a, reads (g a)) -> reads (obind p g).
Proof. intros Hp Hg. apply only_bind; [done|]. by intros [a|e]. Qed.

Lemma reads_catch {A} (p : program (outcome error A)) (h : error -> program (outcome error A)) : reads p -> (forall e, reads (h e)) -> reads (catch p h).
Proof. intros Hp Hh. apply only_bind; [done|]. by intros [a|e]. Qed.

Lemma reads_update (f : client -> client) : reads (update f).
Proof. by intros s. Qed.

Lemma reads_gather {A B} (l : list A) (f : A -> program (outcome error B)) : (forall x, reads (f x)) -> reads (gather l f).
Proof. intros Hf. induction l as [|x l IH]; [done|]. cbn [gather]. apply only_bind; [done|]. intros r. apply only_bind; [done|]. by intros rs. Qed.

Lemma reads_extend_all {A B} (l : list A) (f : A -> program (outcome error (list B))) : (forall x, reads (f x)) -> reads (extend_all l f).
Proof. intros Hf. induction l as [|x l IH]; [done|]. cbn [extend_all]. apply reads_obind; [done|]. intros y. by apply reads_obind. Qed.
Create HintDb reads discriminated.
#[local] Hint Resolve reads_update reads_ask : reads.
#[local] Hint Extern 1 (reading _ _) => exact I : reads.

(** Goes through a program; what the database does not know is left. *)
Ltac reads_step :=
  first [ assumption | exact I | solve [auto with reads nocore]
        | apply reads_obind; [|intros ?] | apply reads_catch; [|intros ?] | apply only_bind; [|intros ?]
        | apply reads_gather; intros ? | apply reads_extend_all; intros ? | apply reads_ask; exact I
        | case_match ].
Ltac reads_all := repeat reads_step.

Lemma reads_values (values : list (DataValue (V := ua_value))) : reads (record_read_data_values values).
Proof. unfold record_read_data_values, record_failed_request, record_read_success, count. reads_all. Qed.
#[local] Hint Resolve reads_values : reads.

Lemma reads_reconnect e : reads (wait_for_reconnect (V := ua_value) e).
Proof. unfold wait_for_reconnect. reads_all. Qed.
#[local] Hint Resolve reads_reconnect : reads.

Lemma reads_retry {A} e (c : request (V := ua_value) (outcome error A)) : reading _ c -> reads (retry_once e c).
Proof. intros Hc. apply reads_obind; [apply reads_reconnect|]. intros _. by apply reads_ask. Qed.
#[local] Hint Resolve reads_retry : reads.

Lemma reads_attribute_batch nodes attr : reads (read_attribute_batch (V := ua_value) nodes attr).
Proof. unfold read_attribute_batch, record_failed_request, count. reads_all. Qed.
#[local] Hint Resolve reads_attribute_batch : reads.

Lemma reads_attribute_batches fuel nodes attr size : reads (read_attribute_batches (V := ua_value) fuel nodes attr size).
Proof. revert nodes size. induction fuel as [|fuel IH]; intros nodes size; cbn [read_attribute_batches]; reads_all; apply IH. Qed.
#[local] Hint Resolve reads_attribute_batches : reads.

Lemma reads_attribute_batch_sized nodes attr size : reads (read_attribute_batch_sized (V := ua_value) nodes attr size).
Proof. unfold read_attribute_batch_sized. reads_all. Qed.
#[local] Hint Resolve reads_attribute_batch_sized : reads.

Lemma reads_pairs fuel pairs : reads (read_pairs (V := ua_value) fuel pairs).
Proof.
  revert pairs. induction fuel as [|fuel IH]; intros pairs; cbn [read_pairs]; unfold record_failed_request, count; cbv zeta; reads_all; apply IH.
Qed.
#[local] Hint Resolve reads_pairs : reads.

Lemma reads_pairs_sized pairs size : reads (read_attribute_pairs_sized (V := ua_value) pairs size).
Proof. unfold read_attribute_pairs_sized, read_attribute_pairs_batch. reads_all. Qed.
#[local] Hint Resolve reads_pairs_sized : reads.

Lemma reads_limits : reads (get_operational_limits (V := ua_value) browse_name_of int_of).
Proof. apply only_bind; [by intros s|]. intros limits. unfold load_operational_limits. reads_all. Qed.
#[local] Hint Resolve reads_limits : reads.

Lemma reads_one node : reads (read_one (V := ua_value) node).
Proof. unfold read_one. cbv zeta. reads_all. Qed.
#[local] Hint Resolve reads_one : reads.

Lemma reads_data_values nodes : reads (read_data_values browse_name_of int_of nodes).
Proof. unfold read_data_values, read_attribute_batch_limited, read_data_values_per_node, count. reads_all. Qed.

Section Access.
Context (py : PyObjects).

Lemma reads_write_access node : reads (read_write_access py node).
Proof. unfold read_write_access, record_failed_request, count. cbv zeta. reads_all. Qed.

Lemma reads_history_write_access node : reads (read_history_write_access py node).
Proof. unfold read_history_write_access, or_record_failed, record_failed_request, count. reads_all. Qed.

Lemma reads_variant_type node : reads (read_variant_type node).
Proof. unfold read_variant_type. reads_all. Qed.
End Access.

(** ** Writes in a trace *)

Abbreviation event := (event (request (V := ua_value))).

(** The nodes and values that a call writes. *)
Definition changes (e : event) : list (string * WrittenValue (V := ua_value)) :=
  match ev_call e with WriteNode n w => [(n, w)] | HistoryUpdate n w => [(n, w)] | _ => [] end.

Definition changed (l : list event) : list (string * WrittenValue (V := ua_value)) := flat_map changes l.

Lemma changed_app l l' : changed (l ++ l') = changed l ++ changed l'.
Proof. apply flat_map_app. Qed.

Lemma reads_changed {A} (p : program A) l a : reads p -> trace p l a -> changed l = [].
Proof.
  intros Hp H. apply (only_trace _ _ _ _ Hp) in H. induction H as [|[R c r] l Hc _ IH]; [done|]. unfold changed in *. cbn [flat_map]. rewrite IH.
  by destruct c.
Qed.

(** A trace of an [obind]: the first part failed, or its result went on. *)
Lemma trace_obind {A B} (p : program (outcome error A)) (g : A -> program (outcome error B)) l b :
  trace (obind p g) l b -> (exists e, b = Err e /\ trace p l (Err e)) \/ exists l1 l2 a, l = l1 ++ l2 /\ trace p l1 (Ok a) /\ trace (g a) l2 b.
Proof.
  intros (l1 & l2 & [a|e] & -> & H1 & H2)%trace_bind; [right; by exists l1, l2, a|]. left. destruct H2 as [-> ->]. exists e. by rewrite app_nil_r.
Qed.

Section Current.
Context (py : PyObjects).

(** Access is granted only by an answer of the server. *)
Lemma write_access_trace node l rights :
  trace (read_write_access py node) l (Ok rights) ->
  exists values, Event (ReadNode node [ACCESS_LEVEL; USER_ACCESS_LEVEL]) (Ok values) ∈ l /\ rights = write_access py values.
Proof.
  unfold read_write_access. cbv zeta. intros (l1 & l2 & r & -> & (r' & l' & -> & -> & ->) & H)%trace_bind. destruct r' as [values|e].
  - destruct H as [-> [= ->]]. exists values. split; [by left|done].
  - destruct (should_retry_after_disconnect e).
    + apply trace_obind in H as [(e' & [=] & _)|(l3 & l4 & values & -> & H & -> & [= ->])].
      apply trace_obind in H as [(e' & [=] & _)|(l5 & l6 & u & -> & _ & (r & l' & -> & -> & <-))].
      exists values. split; [|done]. rewrite !elem_of_app. right; left; right. by left.
    + apply trace_bind in H as (? & ? & ? & _ & _ & [_ [=]]).
Qed.

(** The type is the server's, or unknown. *)
Lemma variant_type_trace node l t :
  trace (read_variant_type node) l (Ok (Some t)) -> Event (ReadVariantType node) (Ok (Some t)) ∈ l.
Proof.
  intros (l1 & l2 & r & -> & (r' & l' & -> & -> & ->) & H)%trace_bind. destruct r' as [vt|e].
  - destruct H as [-> [= ->]]. by left.
  - destruct (should_retry_after_disconnect e); [|by destruct H as [_ [=]]].
    apply trace_obind in H as [(e' & [=] & _)|(l3 & l4 & u & -> & _ & (r & l' & -> & -> & <-))]. rewrite !elem_of_app. right; right. by left.
Qed.

(** A write comes first, and is read back if it was accepted. *)
Lemma write_value_trace node value vt q t l r :
  trace (write_value py node value vt q t) l r ->
  exists answer after, l = Event (WriteNode node (written_value py value vt q t)) answer :: after /\ changed after = [] /\
    (r = Ok tt -> answer = Ok tt /\ exists d, after = [Event (ReadBack node) (Ok d)] /\ preserved d q t = true).
Proof.
  intros [(e & -> & H)|(l1 & l2 & u & -> & H & H')]%trace_obind.
  - apply trace_bind in H as (l1 & l2 & a & -> & (answer & l' & -> & -> & ->) & H).
    exists answer, l2. split_and!; [done| |done]. destruct answer; destruct H as [? H]; [done|]. by destruct H as [-> _].
  - apply trace_bind in H as (l3 & l4 & a & -> & (answer & l' & -> & -> & ->) & H).
    assert (answer = Ok tt /\ l4 = []) as [-> ->]. { destruct answer as [[]|e]; [by destruct H as [-> _]|]. by destruct H as (s & _ & [=]). }
    exists (Ok tt), l2. split; [done|]. destruct H' as [s H'].
    apply trace_obind in H' as [(e & -> & H')|(l5 & l6 & d & -> & H' & H'')].
    + split; [|by intros [=]]. apply trace_bind in H' as (l5 & l6 & a & -> & (back & l' & -> & -> & ->) & H').
      destruct back; [by destruct H' as [_ [=]]|]. by destruct H' as (s' & -> & _).
    + apply trace_bind in H' as (l7 & l8 & a & -> & (back & l' & -> & -> & ->) & H').
      assert (back = Ok d /\ l8 = []) as [-> ->]. { destruct back as [d'|e]; [by destruct H' as [-> [= ->]]|]. by destruct H' as (s' & _ & [=]). }
      destruct (preserved d q t) eqn:Ep.
      * destruct H'' as [-> ->]. split; [done|]. intros _. split; [done|]. by exists d.
      * destruct H'' as (s' & -> & ->). split; [done|by intros [=]].
Qed.

Context (now : Z) (model : BuildResult) (type_context : option ObjectTypeContext) (jsonschema : json -> json -> Conformance).

(** A value that may be written to a node of this type, and how it is. *)
Definition typed_value (value : json) (q : Quality) (t : Z) (vt : option string) (w : WrittenValue) : Prop :=
  exists written, decode_bytestring_write_value (of_json value) vt = Some written /\ (written = UNone \/ is_valid_write_type written vt = true) /\
    w = written_value py written vt q t.

(** What [l] does with [value], when access was granted before. *)
Lemma write_checked_trace node value q t l d :
  trace (write_checked_value py node value q t) l d ->
  (changed l = [] /\ d.1.1 = false) \/
  exists before vt w answer after, l = before ++ Event (WriteNode node w) answer :: after /\ changed before = [] /\ changed after = [] /\
    (forall s, vt = Some s -> Event (ReadVariantType node) (Ok (Some s)) ∈ before) /\ typed_value value q t vt w /\
    (d.1.1 = true -> answer = Ok tt /\ exists b, after = [Event (ReadBack node) (Ok b)] /\ preserved b q t = true).
Proof.
  intros (l1 & l2 & r & -> & H1 & H2)%trace_bind. pose proof (reads_changed _ _ _ (reads_variant_type node) H1) as Hc.
  destruct r as [vt|e]; [|left; destruct H2 as [-> ->]; by rewrite app_nil_r].
  destruct (decode_bytestring_write_value (of_json value) vt) as [written|] eqn:Ed; [|left; destruct H2 as [-> ->]; by rewrite app_nil_r].
  destruct (negb _) eqn:Ev; [left; destruct H2 as [-> ->]; by rewrite app_nil_r|]. right.
  apply trace_bind in H2 as (l3 & l4 & r & -> & H2 & H3). apply write_value_trace in H2 as (answer & after & -> & Ha & Hok).
  assert (l4 = []) as -> by (destruct r; by destruct H3). rewrite app_nil_r.
  exists l1, vt, (written_value py written vt q t), answer, after. split_and!; [done|done|done| | |].
  - intros s ->. by apply variant_type_trace.
  - exists written. split_and!; [done| |done]. apply negb_false_iff in Ev. destruct written; [by left|by right..].
  - destruct r as [[]|e]; destruct H3 as [_ ->]; [by intros _; apply Hok|done].
Qed.

(** The requested value of an update. *)
Definition requested (u : UpdateItem) : json := normalize_write_payload (vr_value (up_value u)).

(** The element of an update is a property whose schema takes the value. *)
Definition accepts (u : UpdateItem) (value : json) (node : ModelNode) : Prop :=
  find_model_node model (up_element_id u) = Some node /\ is_property node = true /\ validate type_context jsonschema node value = Ok tt.

(** The server has granted [node] write access. *)
Definition granted (before : list event) (node : string) : Prop :=
  exists values, Event (ReadNode node [ACCESS_LEVEL; USER_ACCESS_LEVEL]) (Ok values) ∈ before /\ write_access py values = (true, true).

(** The node has the requested value, quality and timestamp already. *)
Definition unneeded (u : UpdateItem) (l : list event) : Prop :=
  exists node d ds before after, accepts u (requested u) node /\ l = before ++ after /\
    trace (read_data_values browse_name_of int_of [n_source_node_id node]) after (Ok (d :: ds)) /\
    json_equivalent (of_json (vqt_value (vqt_from_data_value now d))) (of_json (requested u)) = true /\
    vqt_quality (vqt_from_data_value now d) = vr_quality (up_value u) /\ dv_source_timestamp d = Some (vr_timestamp (up_value u)).

(** What an update with these calls and this result has done. *)
Definition update_ok (u : UpdateItem) (l : list event) (item : BulkResultItem unit) : Prop :=
  bi_element_id item = up_element_id u /\
  (changed l = [] /\ (succeeded item = true -> unneeded u l) \/
   exists before node vt w answer after, l = before ++ Event (WriteNode (n_source_node_id node) w) answer :: after /\
     changed before = [] /\ changed after = [] /\
     accepts u (requested u) node /\ granted before (n_source_node_id node) /\
     (forall s, vt = Some s -> Event (ReadVariantType (n_source_node_id node)) (Ok (Some s)) ∈ before) /\
     typed_value (requested u) (vr_quality (up_value u)) (vr_timestamp (up_value u)) vt w /\
     (succeeded item = true -> answer = Ok tt /\ exists b, after = [Event (ReadBack (n_source_node_id node)) (Ok b)] /\
        preserved b (vr_quality (up_value u)) (vr_timestamp (up_value u)) = true)).

Lemma update_result_ok id ok status message :
  bi_element_id (update_result id ok status message) = id /\ succeeded (update_result id ok status message) = ok.
Proof. by destruct ok. Qed.

Lemma noop_trace node value q t l :
  trace (is_noop_write now node value q t) l true ->
  exists d ds, trace (read_data_values browse_name_of int_of [node]) l (Ok (d :: ds)) /\
    json_equivalent (of_json (vqt_value (vqt_from_data_value now d))) value = true /\
    vqt_quality (vqt_from_data_value now d) = q /\ dv_source_timestamp d = Some t.
Proof.
  intros (l1 & l2 & r & -> & H & -> & Hn)%trace_bind. rewrite app_nil_r. destruct r as [[|d ds]|e]; [done| |done].
  symmetry in Hn. apply andb_true_iff in Hn as [[H1 H2%bool_decide_eq_true]%andb_true_iff H3%bool_decide_eq_true]. by exists d, ds.
Qed.

Lemma noop_reads node value q t : reads (is_noop_write now node value q t).
Proof. apply only_bind; [apply reads_data_values|done]. Qed.

Lemma update_trace u l item : trace (update_object_value py now model type_context jsonschema u) l item -> update_ok u l item.
Proof.
  intros (l1 & l2 & [[ok status] message] & -> & H & -> & ->)%trace_bind. rewrite app_nil_r.
  destruct (update_result_ok (up_element_id u) ok status message) as [Hid Hs]. split; [done|]. rewrite Hs. clear Hid Hs.
  unfold write_object_value_by_element_id in H. cbv zeta in H. fold (requested u) in H.
  destruct (negb (valid_write_element_id _)); [by left; destruct H as [-> [= -> _ _]]|].
  destruct (find_model_node model (up_element_id u)) as [node|] eqn:Ef; [|by left; destruct H as [-> [= -> _ _]]].
  destruct (is_property node) eqn:Ep; [|by left; destruct H as [-> [= -> _ _]]]. cbn [negb] in H.
  destruct (validate _ _ node (requested u)) as [[]|e] eqn:Ev; [|by left; destruct H as [-> [= -> _ _]]].
  apply trace_bind in H as (l3 & l4 & r & -> & H3 & H4). pose proof (reads_changed _ _ _ (reads_write_access py _) H3) as Hc.
  destruct r as [[w u']|e]; [|by left; destruct H4 as [-> [= -> _ _]]; rewrite app_nil_r].
  destruct (w && u')%bool eqn:Ew.
  - apply andb_true_iff in Ew as [-> ->]. apply write_access_trace in H3 as (values & Hin & Hv).
    apply write_checked_trace in H4 as [[H4 Hok]|(before & vt & wv & answer & after & -> & Hb & Ha & Ht & Hw & Hok)].
    + left. rewrite changed_app, Hc, H4. split; [done|]. cbn in Hok. by rewrite Hok.
    + right. exists (l3 ++ before), node, vt, wv, answer, after. split_and!; [by rewrite app_assoc|by rewrite changed_app, Hc, Hb|done|by split_and!| | |done|done].
      * exists values. split; [|done]. apply elem_of_app. by left.
      * intros s Hs. apply elem_of_app. right. by apply Ht.
  - left. apply trace_bind in H4 as (l5 & l6 & noop & -> & H5 & H6). rewrite !changed_app, Hc, (reads_changed _ _ _ (noop_reads _ _ _ _) H5).
    destruct noop; destruct H6 as [-> [= -> _ _]]; (split; [done|]); [|done]. intros _. rewrite app_nil_r.
    apply noop_trace in H5 as (d & ds & Ht & Hd). exists node, d, ds, l3, l5. split_and!; try apply Hd; done.
Qed.

(** The calls of a loop are those of its steps, in order. *)
Lemma for_updates_trace {S A} (f : S -> UpdateItem -> program (S * A)) s us l r :
  trace (for_updates f s us) l r ->
  exists states parts, l = List.concat parts /\ states !! 0%nat = Some s /\ last states = Some r.1 /\ length states = Datatypes.S (length us) /\
    length parts = length us /\ length r.2 = length us /\
    forall i u s0 s1 part item, us !! i = Some u -> states !! i = Some s0 -> states !! Datatypes.S i = Some s1 -> parts !! i = Some part -> r.2 !! i = Some item ->
      trace (f s0 u) part (s1, item).
Proof.
  revert s l r. induction us as [|u us IH]; intros s l r; cbn [for_updates].
  - intros [-> ->]. exists [s], []. by split_and!.
  - intros (l1 & l2 & [s1 item] & -> & H1 & (l3 & l4 & rest & -> & H2 & -> & ->)%trace_bind)%trace_bind.
    cbn [fst snd] in *. apply IH in H2 as (states & parts & -> & H0 & Hlast & Hs & Hp & Hr & Hsteps). rewrite app_nil_r.
    exists (s :: states), (l1 :: parts). cbn [fst snd]. split_and!; [done|done| |cbn; lia|cbn; lia|cbn; lia|].
    + destruct states; [by destruct us|]. exact Hlast.
    + intros [|i] u' s0 s2 part item' Hu Hs0 Hs1 Hpart Hitem; cbn in *; [|by eapply Hsteps].
      pose proof (eq_trans (eq_sym H0) Hs1). by simplify_eq.
Qed.
End Current.

(** C22. Updates of current values are safe. Without the setting nothing is asked of the server. With it, every update is
    answered, in order, and makes one write at most: of the node of a known property, with the requested value as the
    schema of its type and its OPC UA type take it, after the server has granted access to the node. An update succeeds
    only if the write was accepted and its quality and timestamp were read back, or if no write was needed. *)
Theorem updates_safe py now model type_context jsonschema writes_enabled updates l r :
  trace (update_object_values py now model type_context jsonschema writes_enabled updates) l r ->
  if writes_enabled then
    exists items parts, r = Ok items /\ l = List.concat parts /\ length parts = length updates /\ length items = length updates /\
      forall i u part item, updates !! i = Some u -> parts !! i = Some part -> items !! i = Some item ->
        update_ok py now model type_context jsonschema u part item
  else l = [] /\ r = Err (not_implemented "Current value updates").
Proof.
  unfold update_object_values. destruct writes_enabled; cbn [negb]; [|done].
  intros (l1 & l2 & res & -> & H & -> & ->)%trace_bind. apply for_updates_trace in H as (states & parts & -> & _ & _ & Hs & Hp & Hr & Hsteps).
  exists res.2, parts. rewrite app_nil_r. split_and!; [done..|]. intros i u part item Hu Hpart Hitem.
  assert (is_Some (states !! i)) as [[] Hs0] by (apply lookup_lt_is_Some; apply lookup_lt_Some in Hu; lia).
  assert (is_Some (states !! S i)) as [[] Hs1] by (apply lookup_lt_is_Some; apply lookup_lt_Some in Hu; lia).
  specialize (Hsteps i u tt tt part item Hu Hs0 Hs1 Hpart Hitem). apply trace_bind in Hsteps as (l1 & l2 & it & -> & H & -> & [= ->]).
  rewrite app_nil_r. by apply update_trace.
Qed.

(** ** Histories *)

Section History.
Context (py : PyObjects) (model : BuildResult) (type_context : option ObjectTypeContext) (jsonschema : json -> json -> Conformance).

Lemma history_access_trace node l rights :
  trace (read_history_write_access py node) l (Ok rights) ->
  exists values, Event (ReadNode node [ACCESS_LEVEL; USER_ACCESS_LEVEL]) (Ok values) ∈ l /\ history_write_access py values = Ok rights.
Proof.
  intros (l1 & l2 & r & -> & H & H')%trace_bind. assert (r = Ok rights) as ->. { destruct r; [by destruct H' as [_ ->]|]. by destruct H' as (s & _ & [=]). }
  apply trace_obind in H as [(e & [=] & _)|(l3 & l4 & values & -> & (r & l' & -> & -> & <-) & -> & E)].
  exists values. split; [|done]. rewrite !elem_of_app. left; left. by left.
Qed.

(** The value that is written, and where its type and shape come from. *)
Definition prepared (u : UpdateItem) (before : list event) (node : string) (w : WrittenValue) : Prop :=
  exists vt attributes, Event (ReadVariantType node) (Ok vt) ∈ before /\ Event (ReadNode node [VALUE_RANK; ARRAY_DIMENSIONS]) (Ok attributes) ∈ before /\
    prepare_history_value py (vr_value (up_value u)) (vr_quality (up_value u)) (vr_timestamp (up_value u)) vt attributes = Ok w.

Lemma write_history_trace u node l r :
  trace (write_history_value py node (vr_value (up_value u)) (vr_quality (up_value u)) (vr_timestamp (up_value u))) l r ->
  (changed l = [] /\ exists e, r = Err e) \/
  exists before w answer, l = before ++ [Event (HistoryUpdate node w) answer] /\ changed before = [] /\ prepared u before node w /\
    (r = Ok tt <-> exists result, answer = Ok result /\ check_history_update py result = Ok tt).
Proof.
  intros H. assert (exists p, trace (obind (ask (ReadVariantType node)) (fun variant_type =>
       obind (ask (ReadNode node [VALUE_RANK; ARRAY_DIMENSIONS])) (fun attributes =>
       obind (Ret (prepare_history_value py (vr_value (up_value u)) (vr_quality (up_value u)) (vr_timestamp (up_value u)) variant_type attributes)) (fun written =>
       obind (ask (HistoryUpdate node written)) (fun result => Ret (check_history_update py result)))))) l p /\ (p = Ok tt <-> r = Ok tt) /\ (r = Ok tt \/ exists e, r = Err e))
    as (p & Hp & Hpr & Hr).
  { apply trace_obind in H as [(e & -> & H)|(l1 & l2 & [] & -> & H & (s & s' & -> & ->))].
    - apply trace_bind in H as (l1 & l2 & [[]|e'] & -> & H & H'); [by destruct H' as [_ [=]]|]. exists (Err e').
      assert (l2 = []) as -> by (destruct (has_status _ _); [destruct H' as (? & ? & ? & _)|destruct H' as (? & ? & _)]; done).
      rewrite app_nil_r. split_and!; [done|split; intros [=]|right; by exists e].
    - apply trace_bind in H as (l3 & l4 & [[]|e'] & -> & H & H').
      + destruct H' as [-> _]. exists (Ok tt). rewrite !app_nil_r. split_and!; [done..|by left].
      + destruct (has_status _ _); [destruct H' as (? & ? & _ & [=])|destruct H' as (? & _ & [=])]. }
  clear H. assert (forall e, p = Err e -> exists e', r = Err e') as Herr.
  { intros e ->. destruct Hr as [->|?]; [|done]. discriminate (proj2 Hpr eq_refl). }
  apply trace_obind in Hp as [(e & -> & (a & l' & -> & -> & <-))|(l1 & l2 & vt & -> & (a & l' & -> & -> & <-) & Hp)]; [left; split; [done|by eapply Herr]|].
  apply trace_obind in Hp as [(e & -> & (a & l' & -> & -> & <-))|(l3 & l4 & attributes & -> & (a & l' & -> & -> & <-) & Hp)]; [left; split; [done|by eapply Herr]|].
  destruct (prepare_history_value _ _ _ _ _ _) as [w|e] eqn:Ew; [|left; destruct Hp as [-> ->]; split; [done|by eapply Herr]].
  right. exists [Event (ReadVariantType node) (Ok vt); Event (ReadNode node [VALUE_RANK; ARRAY_DIMENSIONS]) (Ok attributes)], w.
  destruct Hp as (answer & l5 & -> & Hp). exists answer.
  assert (l5 = [] /\ (p = Ok tt <-> exists result, answer = Ok result /\ check_history_update py result = Ok tt)) as [-> Hans].
  { destruct answer as [result|e]; destruct Hp as [-> ->]; (split; [done|]); [|naive_solver]. split; [intros E; by exists result|by intros (? & [= <-] & ?)]. }
  split_and!; [done|done| |by rewrite <-Hpr]. exists vt, attributes. split_and!; [by left|right; by left|done].
Qed.
Lemma validate_status node value status message : validate type_context jsonschema node value = Err (status, message) -> (status =? 200) = false.
Proof.
  unfold validate. destruct type_context; [|by intros [= <- <-]]. cbv zeta. destruct (List.find _ _); [|by intros [= <- <-]].
  destruct (negb _); [by intros [= <- <-]|]. destruct (jsonschema _ _); try done; by intros [= <- <-].
Qed.

Lemma history_error_status known attempted e : ((history_write_error known attempted e).1.2 =? 200) = false.
Proof.
  unfold history_write_error. cbv zeta. assert (Hc : ((classify_write_error e).1 =? 200) = false).
  { unfold classify_write_error. cbv zeta. by repeat case_match. }
  destruct (er_class e); try done. by repeat case_match.
Qed.

Lemma history_error_known known attempted e : known = true -> (history_write_error known attempted e).1.1 = true.
Proof. intros ->. unfold history_write_error. cbv zeta. destruct (er_class e); try done. by repeat case_match. Qed.

(** What an update of a history with these calls and this result has done; [known] tells whether the service is known to
    be missing before, and [known'] after it. *)
Definition history_ok (known : bool) (u : UpdateItem) (l : list event) (known' : bool) (item : BulkResultItem unit) : Prop :=
  bi_element_id item = up_element_id u /\ (known = true -> l = [] /\ known' = true) /\ (known' = true -> succeeded item = false) /\
  (changed l = [] /\ succeeded item = false \/
   exists before node w answer, l = before ++ [Event (HistoryUpdate (n_source_node_id node) w) answer] /\ changed before = [] /\
     accepts model type_context jsonschema u (vr_value (up_value u)) node /\
     (exists values, Event (ReadNode (n_source_node_id node) [ACCESS_LEVEL; USER_ACCESS_LEVEL]) (Ok values) ∈ before /\
        history_write_access py values = Ok (true, true)) /\
     prepared u before (n_source_node_id node) w /\
     (succeeded item = true <-> exists result, answer = Ok result /\ check_history_update py result = Ok tt)).

Lemma history_trace known u l known' item :
  trace (update_historical_value py model type_context jsonschema known u) l (known', item) -> history_ok known u l known' item.
Proof.
  intros (l1 & l2 & [[k status] message] & -> & H & -> & [= -> ->])%trace_bind. rewrite app_nil_r.
  destruct (update_result_ok (up_element_id u) (status =? 200) status message) as [Hid Hs]. unfold history_ok. rewrite Hid, Hs. clear Hid Hs. split; [done|].
  unfold history_decision in H. destruct (find_model_node model (up_element_id u)) as [node|] eqn:Ef.
  2: { destruct H as [-> [= -> -> ->]]. split_and!; [done..|by left]. }
  destruct (is_property node) eqn:Ep; cbn [negb] in H. 2: { destruct H as [-> [= -> -> ->]]. split_and!; [done..|by left]. }
  cbv zeta in H. destruct (validate _ _ node _) as [[]|[st m]] eqn:Ev.
  2: { destruct H as [-> [= -> -> ->]]. apply validate_status in Ev. split_and!; [done..|by left]. }
  destruct known. { destruct H as [-> [= -> -> ->]]. split_and!; [done..|by left]. }
  split; [done|]. apply trace_bind in H as (l3 & l4 & access & -> & H3 & H4).
  pose proof (reads_changed _ _ _ (reads_history_write_access py _) H3) as Hc.
  destruct access as [[a b]|e].
  2: { destruct H4 as [-> E]. pose proof (history_error_status false false e) as Hst. rewrite <-E in Hst. cbn in Hst. rewrite app_nil_r. split; [done|by left]. }
  destruct (a && b)%bool eqn:Eab; cbn [negb] in H4. 2: { destruct H4 as [-> [= -> -> ->]]. rewrite app_nil_r. split; [done|by left]. }
  apply andb_true_iff in Eab as [-> ->]. apply history_access_trace in H3 as (values & Hin & Hv).
  apply trace_bind in H4 as (l5 & l6 & r & -> & H5 & H6). assert (l6 = []) as -> by (destruct r; by destruct H6 as [? _]). rewrite app_nil_r.
  assert (((status =? 200) = true <-> r = Ok tt) /\ (k = true -> (status =? 200) = false)) as [Hst Hk].
  { destruct r as [[]|e]; destruct H6 as [_ E]; [by injection E as -> -> ->|].
    pose proof (history_error_status false true e) as Hst. rewrite <-E in Hst. cbn in Hst. rewrite Hst. by split. }
  split; [done|]. apply write_history_trace in H5 as [[H5 [e ->]]|(before & w & answer & -> & Hb & Hp & Hr)].
  - left. rewrite changed_app, Hc, H5. split; [done|]. apply not_true_is_false. by rewrite Hst.
  - right. exists (l3 ++ before), node, w, answer. split_and!; [by rewrite app_assoc|by rewrite changed_app, Hc, Hb|by split_and!| | |].
    + exists values. split; [|done]. apply elem_of_app. by left.
    + destruct Hp as (vt & attributes & H1 & H2 & H3). exists vt, attributes. split_and!; [apply elem_of_app; by right..|done].
    + by rewrite Hst.
Qed.
End History.

(** Updates of histories are safe. Without the setting nothing is asked of the server. With it, every update is answered,
    in order, and makes one update of the history at most: of the node of a known property, with a value that the schema
    of its type takes and that is converted to the type and the shape of the node, after the server has granted access to
    its history; it succeeds exactly if the server confirms it. Once the service is known to be missing nothing is asked
    any more; the answer as a whole says so only if no update succeeded. *)
Theorem history_updates_safe py model type_context jsonschema writes_enabled updates l r :
  trace (update_historical_values py model type_context jsonschema writes_enabled updates) l r ->
  if writes_enabled then
    exists items unsupported known parts, r = Ok (items, unsupported) /\ l = List.concat parts /\ length parts = length updates /\ length items = length updates /\
      length known = S (length updates) /\
      (forall i u part item k k', updates !! i = Some u -> parts !! i = Some part -> items !! i = Some item -> known !! i = Some k -> known !! S i = Some k' ->
        history_ok py model type_context jsonschema k u part k' item) /\
      (unsupported = true <-> last known = Some true /\ forallb (fun item => negb (succeeded item)) items = true)
  else l = [] /\ r = Err (not_implemented "Historical value updates").
Proof.
  unfold update_historical_values. destruct writes_enabled; cbn [negb]; [|done].
  intros (l1 & l2 & supported & -> & [s [-> ->]] & (l3 & l4 & res & -> & H & -> & ->)%trace_bind)%trace_bind.
  apply for_updates_trace in H as (known & parts & -> & _ & Hlast & Hs & Hp & Hr & Hsteps).
  eexists _, _, known, parts. rewrite app_nil_r. split_and!; [done..| |].
  - intros i u part item k k' Hu Hpart Hitem Hk Hk'. apply history_trace. by eapply Hsteps.
  - rewrite Hlast, andb_true_iff, negb_true_iff.
    assert (existsb succeeded res.2 = false <-> forallb (fun item => negb (succeeded item)) res.2 = true) as ->.
    2: { split; intros [Hk Hs']; (split; [|exact Hs']); [by rewrite Hk|by injection Hk]. }
    clear. induction (res.2) as [|x items IH]; [done|]. cbn. rewrite orb_false_iff, andb_true_iff, negb_true_iff, IH. done.
Qed.

(** ** A server that takes writes *)

Definition good_status : StatusCode := {| sc_value := 0; sc_severity := sev_good; sc_name := "Good" |}.

Definition data (v : ua_value) : DataValue (V := ua_value) :=
  {| dv_status := Some good_status; dv_value := Some v; dv_source_timestamp := Some 5; dv_server_timestamp := None |}.

Definition sample_answer R (c : request (V := ua_value) R) : R :=
  match c in request R return R with
  | ReadNode _ attrs => Ok (map (fun a => data (match a with att_other 15 => UInt (-1) | att_other 16 => UNone | _ => UInt 15 end)) attrs)
  | ReadVariantType _ => Ok (Some "Int32")
  | WriteNode _ _ => Ok tt
  | ReadBack _ => Ok (data (UInt 7))
  | HistoryUpdate _ _ => Ok (good_status, [good_status])
  | ReadValues _ => Ok []
  | ReadAttributes nodes _ => Ok (map (fun _ => data (UInt 7)) nodes)
  | ReadPairs _ => Ok []
  | ReadDataValue _ => Ok (data (UInt 7))
  | GetChildren _ => Ok []
  | GetNamespaceArray => Ok []
  | ReadNodeClass _ => Ok "Variable"
  | ReadTypeDefinition _ => Ok "i=63"
  | HistoryRead _ _ => Ok []
  | Browse _ _ => Ok []
  | BrowseNext _ => Ok []
  | IsConnected => true
  | NotifyTransportLost => tt
  | WaitConnected => true
  end.

Definition sample_type : ObjectTypeContext :=
  {| oc_namespace_infos := []; oc_items := [{| otr_element_id := "unknown-type"; otr_schema := JObj [] |}]; oc_element_ids_by_node_id := ∅;
     oc_source_type_to_element_id := ∅ |}.

Definition sample_model : BuildResult := small_model [simple_node "t" "Temperature" property "i=7"] [] [].

Definition sample_update (id : string) (v : json) : UpdateItem :=
  {| up_element_id := id; up_value := {| vr_value := v; vr_quality := Good; vr_timestamp := 5 |} |}.

(** An update that is written, one of an unknown element, and one of another type. *)
Definition sample_updates : list UpdateItem := [sample_update "t" (JInt 7); sample_update "x" (JInt 7); sample_update "t" (JStr "7")].

Definition sample_program := update_object_values sample_py 0 sample_model (Some sample_type) (fun _ _ => Conforms) true sample_updates.
Definition sample_run := run_log sample_answer sample_client sample_program.

(** A null that is wrapped as [{"value": null}] passes the check of the quality and is written as a null of quality [Good];
    a bare one is refused. *)
Example wrapped_null_is_written :
  let update v := sample_update "t" v in
  let run v := run_log sample_answer sample_client (update_object_values sample_py 0 sample_model (Some sample_type) (fun _ _ => Conforms) true [update v]) in
  let wrapped := JObj [("value", JNull)] in
  (validate_null_quality (up_value (update JNull)), validate_null_quality (up_value (update wrapped)), changed (run wrapped).1) =
  (false, true, [("i=7", {| wv_value := UNone; wv_variant_type := Some "Null"; wv_status := 0; wv_source_timestamp := 5 |})]).
Proof. vm_compute. reflexivity. Qed.

(** No list is a valid value for a built-in scalar type, whatever the schema of the object says of arrays. *)
Example arrays_are_refused l t :
  vtype t ∈ ["boolean"; "sbyte"; "byte"; "int16"; "uint16"; "int32"; "uint32"; "int64"; "uint64"; "float"; "double"; "string"] ->
  is_valid_write_type (UList l) (Some t) = false.
Proof.
  intros Ht. unfold is_valid_write_type. cbv zeta. generalize dependent (vtype t). intros n Hn.
  rewrite !elem_of_cons in Hn. by destruct_or! Hn; [subst n; vm_compute..|apply elem_of_nil in Hn].
Qed.

Example sample_writes :
  (changed sample_run.1, match sample_run.2 with Ok items => map succeeded items | Err _ => [] end) =
  ([("i=7", {| wv_value := UInt 7; wv_variant_type := Some "Int32"; wv_status := 0; wv_source_timestamp := 5 |})], [true; false; false]).
Proof. vm_compute. reflexivity. Qed.

Lemma updates_safe_witness :
  trace sample_program sample_run.1 sample_run.2 /\
  exists items parts, sample_run.2 = Ok items /\ sample_run.1 = List.concat parts /\ length parts = length sample_updates /\ length items = length sample_updates /\
    forall i u part item, sample_updates !! i = Some u -> parts !! i = Some part -> items !! i = Some item ->
      update_ok sample_py 0 sample_model (Some sample_type) (fun _ _ => Conforms) u part item.
Proof.
  assert (H : trace sample_program sample_run.1 sample_run.2) by apply run_log_trace. split; [exact H|].
  pose proof (updates_safe sample_py 0 sample_model (Some sample_type) (fun _ _ => Conforms) true sample_updates sample_run.1 sample_run.2 H) as H'. exact H'.
Defined.

(** ** ... and updates of histories *)

Definition history_program := update_historical_values sample_py sample_model (Some sample_type) (fun _ _ => Conforms) true sample_updates.
Definition history_run := run_log sample_answer sample_client history_program.

Example sample_history_updates :
  (changed history_run.1, match history_run.2 with Ok (items, unsupported) => Some (map succeeded items, unsupported) | Err _ => None end) =
  ([("i=7", {| wv_value := UInt 7; wv_variant_type := Some "Int32"; wv_status := 0; wv_source_timestamp := 5 |})], Some ([true; false; false], false)).
Proof. vm_compute. reflexivity. Qed.

Lemma history_updates_safe_witness :
  trace history_program history_run.1 history_run.2 /\
  exists items unsupported known parts, history_run.2 = Ok (items, unsupported) /\ history_run.1 = List.concat parts /\
    length parts = length sample_updates /\ length items = length sample_updates /\ length known = S (length sample_updates) /\
    (forall i u part item k k', sample_updates !! i = Some u -> parts !! i = Some part -> items !! i = Some item -> known !! i = Some k -> known !! S i = Some k' ->
      history_ok sample_py sample_model (Some sample_type) (fun _ _ => Conforms) k u part k' item) /\
    (unsupported = true <-> last known = Some true /\ forallb (fun item => negb (succeeded item)) items = true).
Proof.
  assert (H : trace history_program history_run.1 history_run.2) by apply run_log_trace. split; [exact H|].
  pose proof (history_updates_safe sample_py sample_model (Some sample_type) (fun _ _ => Conforms) true sample_updates history_run.1 history_run.2 H) as H'. exact H'.
Defined.
End WritesSpec.
