(* ===== verification/SubApp.v ===== *)
(** The application service of subscriptions ([application/services/subscription.py]) and its answers
    ([application/services/subscription_mapper.py]), on top of the coroutines of [SubRuntime].

    [iter_stream_events] is a generator: each [yield] is a call to its consumer, which asks for the next event or
    abandons the generator. The task that runs it may be cancelled wherever it is suspended. *)

From S2P Require Export SubRuntime.

(** A program whose calls are among those of a larger program. *)
Fixpoint inject {S : Type} {C C' : Type -> Type} (f : forall R, C R -> C' R) {A} (p : prog S C A) : prog S C' A :=
  match p with
  | Ret a => Ret a
  | Sect g k => Sect g (fun x => inject f (k x))
  | Await c k => Await (f _ c) (fun r => inject f (k r))
  | Acquire k => Acquire (inject f k)
  | Release k => Release (inject f k)
  end.

Module SubApp.
Import SubQueue SubResolve SubRuntime.

(** ** Answers *)

Record CreateSubscriptionDto := { cs_subscriptionId : string; cs_clientId : string; cs_displayName : option string }.

Definition map_create_subscription (created : SubscriptionDetail) (client_id : string) (display_name : option string) : CreateSubscriptionDto :=
  {| cs_subscriptionId := sd_subscription_id created; cs_clientId := client_id; cs_displayName := display_name |}.

Record RegisterMonitoredItemsDto := { rm_subscriptionId : string; rm_monitoredItems : list string; rm_registered : Z }.

Definition map_register_monitored_items (subscription_id : string) (element_ids : list string) : RegisterMonitoredItemsDto :=
  {| rm_subscriptionId := subscription_id; rm_monitoredItems := element_ids; rm_registered := Z.of_nat (length element_ids) |}.

Record PendingUpdatesDto (V : Type) := {
  pu_updates : list (SubscriptionUpdate V);
  pu_queueOverflow : bool;
  pu_droppedFromSequence : option Z;
  pu_droppedToSequence : option Z;
}.
#[global] Arguments Build_PendingUpdatesDto {V} _ _ _ _.
#[global] Arguments pu_updates {V} _.
#[global] Arguments pu_queueOverflow {V} _.
#[global] Arguments pu_droppedFromSequence {V} _.
#[global] Arguments pu_droppedToSequence {V} _.

Record SubscriptionBulkItem (R : Type) := {
  sb_success : bool;
  sb_elementId : string;
  sb_subscriptionId : string;
  sb_result : option R;
  sb_error : option (Z * string);
}.
#[global] Arguments Build_SubscriptionBulkItem {R} _ _ _ _ _.
#[global] Arguments sb_success {R} _.
#[global] Arguments sb_elementId {R} _.
#[global] Arguments sb_subscriptionId {R} _.
#[global] Arguments sb_result {R} _.
#[global] Arguments sb_error {R} _.

Definition subscription_bulk_success {R} (element_id subscription_id : string) (result : option R) : SubscriptionBulkItem R :=
  {| sb_success := true; sb_elementId := element_id; sb_subscriptionId := subscription_id; sb_result := result; sb_error := None |}.

Definition subscription_bulk_error {R} (element_id subscription_id : string) (error : option (Z * string)) : SubscriptionBulkItem R :=
  {| sb_success := false; sb_elementId := element_id; sb_subscriptionId := subscription_id; sb_result := None; sb_error := error |}.

(** [SubscriptionDeleteResult.error]: the service knows one failure. *)
Definition delete_error (item : delete_result) : option (Z * string) :=
  if dr_success item then None else Some (404, "Subscription not found").

Definition map_delete_subscription_items (delete_results : list delete_result) : list (SubscriptionBulkItem unit) :=
  map (fun item => if dr_success item
                   then subscription_bulk_success (dr_subscription_id item) (dr_subscription_id item) None
                   else subscription_bulk_error (dr_subscription_id item) (dr_subscription_id item) (delete_error item)) delete_results.

(** The number deleted and the number requested. *)
Definition map_delete_subscriptions (delete_results : list delete_result) (requested : Z) : Z * Z :=
  (Z.of_nat (length (List.filter dr_success delete_results)), requested).

Definition map_subscription_detail (map_element_id : string -> string) (item : SubscriptionDetail) : SubscriptionDetail :=
  {| sd_subscription_id := sd_subscription_id item; sd_client_id := sd_client_id item; sd_display_name := sd_display_name item;
     sd_monitored_objects := map (fun p => (map_element_id p.1, p.2)) (sd_monitored_objects item); sd_mode := sd_mode item |}.

Definition map_list_subscriptions (map_element_id : string -> string) (subscriptions : list SubscriptionDetail) : list SubscriptionDetail :=
  map (map_subscription_detail map_element_id) subscriptions.

Definition map_subscription_detail_bulk_items (map_element_id : string -> string) (subscriptions : list SubscriptionDetail)
    (requested_ids : option (list string)) : list (SubscriptionBulkItem SubscriptionDetail) :=
  let details := map (map_subscription_detail map_element_id) subscriptions in
  let detail_by_id := dict_of_list (map (fun item => (sd_subscription_id item, item)) details) in
  match requested_ids with
  | None => map (fun item => subscription_bulk_success (sd_subscription_id item) (sd_subscription_id item) (Some item)) details
  | Some ids =>
      map (fun id => match detail_by_id !! id with
                     | None => subscription_bulk_error id id (Some (404, "Subscription not found: " +:+ id))
                     | Some detail => subscription_bulk_success id id (Some detail)
                     end) ids
  end.

Section Service.
Context {V : Type} `{PyValue V} (cfg : config).
Abbreviation service := (service (V := V)).
Abbreviation ua_call := (ua_call (V := V)).
Local Open Scope async_scope.
Local Open Scope Z_scope.

Definition map_pending_updates (sync_result : SubscriptionSyncResult V) : PendingUpdatesDto V :=
  {| pu_updates := sr_updates sync_result; pu_queueOverflow := sr_queue_overflow sync_result;
     pu_droppedFromSequence := sr_dropped_from_sequence sync_result; pu_droppedToSequence := sr_dropped_to_sequence sync_result |}.

(** ** Errors *)

(** What the body of a [try] raises. *)
Inductive failure := HttpFailure (e : http_error) | OtherFailure.

(** [_raise_or_wrap_subscription_error]. *)
Definition raise_or_wrap_subscription_error (message : string) (exc : failure) : http_error :=
  match exc with HttpFailure e => e | OtherFailure => HttpError 502 "SubscriptionError" message end.

Definition wrapping {A} (message : string) (p : prog service ua_call (outcome failure A)) : prog service ua_call (outcome http_error A) :=
  r <- p;; Ret (match r with Ok a => Ok a | Err exc => Err (raise_or_wrap_subscription_error message exc) end).

Definition raises {A} (e : http_error) : prog service ua_call (outcome failure A) := Ret (Err (HttpFailure e)).

Definition subscription_not_found : http_error := HttpError 404 "NotFound" "Subscription not found".
Definition client_id_required (endpoint : string) : http_error :=
  HttpError 400 "InvalidArgument" ("'" +:+ endpoint +:+ "' requires a non-empty clientId").

(** [not client_id or not client_id.strip()]. *)
Definition blank_client (client_id : option string) : bool :=
  match client_id with Some c => negb (truthy (strip c)) | None => true end.

(** ** Subscriptions and their objects *)

Definition create_subscription_app (client_id : string) (display_name : option string) :
    prog service ua_call (outcome http_error CreateSubscriptionDto) :=
  wrapping "Failed to create subscription" (
    subscription <- create_subscription (Some client_id) display_name;;
    Ret (Ok (map_create_subscription subscription client_id display_name))).

(** An omitted depth monitors all descendants. *)
Definition effective_max_depth (max_depth : option Z) : Z := match max_depth with None => 0 | Some d => Z.max 0 d end.

(** What follows the call of the service in [register_monitored_items] and [unregister_monitored_items]; [None]: the call
    never returns. *)
Definition changed_items (subscription_id : string) (element_ids : list string) (r : option (exc bool)) :
    option (outcome failure RegisterMonitoredItemsDto) :=
  match r with
  | None => None
  | Some Raise => Some (Err OtherFailure)
  | Some (Val false) => Some (Err (HttpFailure subscription_not_found))
  | Some (Val true) => Some (Ok (map_register_monitored_items subscription_id element_ids))
  end.

Definition wrapped_change (message : string) (p : prog service ua_call (option (outcome failure RegisterMonitoredItemsDto))) :
    prog service ua_call (option (outcome http_error RegisterMonitoredItemsDto)) :=
  r <- p;; Ret (match r with
                | Some (Ok a) => Some (Ok a)
                | Some (Err exc) => Some (Err (raise_or_wrap_subscription_error message exc))
                | None => None
                end).

Definition register_monitored_items (has_request : bool) (model : BuildResult) (subscription_id : string) (client_id : option string)
    (element_ids : list string) (max_depth : option Z) : prog service ua_call (option (outcome http_error RegisterMonitoredItemsDto)) :=
  wrapped_change "Failed to register monitored items" (
    if (blank_client client_id && has_request)%bool then Ret (Some (Err (HttpFailure (client_id_required "/subscriptions/items"))))
    else
      registered <- register_items cfg client_id subscription_id element_ids (effective_max_depth max_depth) model;;
      Ret (changed_items subscription_id element_ids registered)).

Definition unregister_monitored_items (has_request : bool) (model : BuildResult) (subscription_id : string) (client_id : option string)
    (element_ids : list string) : prog service ua_call (option (outcome http_error RegisterMonitoredItemsDto)) :=
  wrapped_change "Failed to unregister monitored items" (
    if (blank_client client_id && has_request)%bool then Ret (Some (Err (HttpFailure (client_id_required "/subscriptions/unregister"))))
    else
      unregistered <- unregister_items cfg client_id subscription_id element_ids model;;
      Ret (changed_items subscription_id element_ids unregistered)).

Definition delete_subscriptions_app (subscription_ids : list string) (client_id : option string) :
    prog service ua_call (outcome http_error (Z * Z)) :=
  wrapping "Failed to delete subscriptions" (
    delete_results <- delete_subscriptions client_id subscription_ids;;
    Ret (Ok (map_delete_subscriptions delete_results (Z.of_nat (length subscription_ids))))).

Definition delete_subscription_items (subscription_ids : list string) (client_id : option string) :
    prog service ua_call (outcome http_error (list (SubscriptionBulkItem unit))) :=
  wrapping "Failed to delete subscriptions" (
    delete_results <- delete_subscriptions client_id subscription_ids;; Ret (Ok (map_delete_subscription_items delete_results))).

Definition list_subscriptions_app (client_id : option string) (subscription_ids : option (list string)) :
    prog service ua_call (outcome http_error (list SubscriptionDetail)) :=
  wrapping "Failed to list subscriptions" (
    subscriptions <- sect (fun s => (s, list_subscriptions client_id subscription_ids s));;
    Ret (Ok (map_list_subscriptions id subscriptions))).

Definition list_subscription_items (client_id : option string) (subscription_ids : option (list string)) :
    prog service ua_call (outcome http_error (list (SubscriptionBulkItem SubscriptionDetail))) :=
  wrapping "Failed to list subscriptions" (
    subscriptions <- sect (fun s => (s, list_subscriptions client_id subscription_ids s));;
    Ret (Ok (map_subscription_detail_bulk_items id subscriptions subscription_ids))).

(** ** Polling *)

Definition get_pending_updates (subscription_id : string) (client_id : option string) (acknowledge_sequence : option Z) :
    prog service ua_call (outcome http_error (PendingUpdatesDto V)) :=
  wrapping "Failed to retrieve subscription updates" (
    if blank_client client_id then raises (client_id_required "/subscriptions/sync")
    else
      sync_result <- sync cfg client_id subscription_id acknowledge_sequence false;;
      match sync_result with
      | None => raises subscription_not_found
      | Some sync_result =>
          if sr_stream_active sync_result then raises (HttpError 400 "InvalidState" "Subscription stream is active")
          else Ret (Ok (map_pending_updates sync_result))
      end).

(** ** Streams *)

Record StreamSession := {
  ss_clientId : string;
  ss_subscriptionId : string;
  ss_streamGeneration : Z;
  ss_scopeRelaxed : bool;
  ss_acknowledged : SubscriptionSyncResult V;
}.

(** The stream is opened under the client's name, or under none when the subscription is not the client's. *)
Definition begin_stream_session (subscription_id : string) (client_id : option string) (acknowledge_sequence : option Z) :
    prog service ua_call (outcome http_error StreamSession) :=
  wrapping "Failed to open subscription stream" (
    if blank_client client_id then raises (client_id_required "/subscriptions/stream")
    else
      let normalized_client_id := strip (default ε client_id) in
      own <- sect (activate_stream (Some normalized_client_id) subscription_id);;
      activated <- match own with
                   | Some generation => Ret (Some (generation, false))
                   | None =>
                       other <- sect (activate_stream None subscription_id);;
                       Ret (match other with Some generation => Some (generation, true) | None => None end)
                   end;;
      match activated with
      | None => raises subscription_not_found
      | Some (stream_generation, scope_relaxed) =>
          acknowledged <- sync cfg (if (scope_relaxed : bool) then None else Some normalized_client_id) subscription_id acknowledge_sequence true;;
          match acknowledged with
          | None => raises subscription_not_found
          | Some acknowledged =>
              Ret (Ok {| ss_clientId := normalized_client_id; ss_subscriptionId := subscription_id; ss_streamGeneration := stream_generation;
                         ss_scopeRelaxed := scope_relaxed; ss_acknowledged := acknowledged |})
          end
      end).

Inductive StreamEvent := Connected | Keepalive | Closing | Updates (updates : list (SubscriptionUpdate V)).

(** The calls of a task that streams: those of the service, at which it may be cancelled ([None]), the wait for a lock
    (whether it got it), and the [yield]s (whether the consumer asks for more). *)
Inductive stream_call : Type -> Type :=
  | Uses {R : Type} (c : ua_call R) : stream_call (option R)
  | TakeLock : stream_call bool
  | YieldEvent (e : StreamEvent) : stream_call bool.

(** A coroutine of the service in a task that may be cancelled: [None] when it was. (No coroutine that a stream uses
    holds the admission lock.) *)
Fixpoint cancellable {A} (p : prog service ua_call A) : prog service stream_call (option A) :=
  match p with
  | Ret a => Ret (Some a)
  | Sect f k => Await TakeLock (fun locked => if (locked : bool) then Sect f (fun x => cancellable (k x)) else Ret None)
  | Await c k => Await (Uses c) (fun r => match r with Some r => cancellable (k r) | None => Ret None end)
  | Acquire k => Acquire (cancellable k)
  | Release k => Release (cancellable k)
  end.

(** How a stream ends: it closed the connection itself, its consumer or its task was abandoned, or it goes on. *)
Inductive stream_end := Finished | Abandoned | Streaming (last_sequence : Z).

Definition last_update_sequence (last_sequence : Z) (us : list (SubscriptionUpdate V)) : Z :=
  match last us with Some u => su_sequence_number u | None => last_sequence end.

(** [yield event], then what follows if the consumer asks for more. *)
Definition yielding (e : StreamEvent) (p : prog service stream_call stream_end) : prog service stream_call stream_end :=
  more <- call (YieldEvent e);; if (more : bool) then p else Ret Abandoned.

Definition closing : prog service stream_call stream_end := yielding Closing (Ret Finished).

(** One round of the loop. *)
Definition stream_round (subscription_id client_id : string) (stream_generation timeout_seconds last_sequence : Z) :
    prog service stream_call stream_end :=
  active <- cancellable (sect (fun s => (s, is_stream_active subscription_id stream_generation s)));;
  match active with
  | None => Ret Abandoned
  | Some false => closing
  | Some true =>
      updates <- cancellable (wait_for_updates cfg (Some client_id) subscription_id last_sequence timeout_seconds);;
      match updates with
      | None => Ret Abandoned
      | Some None => closing
      | Some (Some []) => yielding Keepalive (Ret (Streaming last_sequence))
      | Some (Some us) => yielding (Updates us) (Ret (Streaming (last_update_sequence last_sequence us)))
      end
  end.

Fixpoint stream_loop (fuel : nat) (subscription_id client_id : string) (stream_generation timeout_seconds last_sequence : Z) :
    prog service stream_call stream_end :=
  match fuel with
  | O => Ret (Streaming last_sequence)
  | S fuel =>
      r <- stream_round subscription_id client_id stream_generation timeout_seconds last_sequence;;
      match r with
      | Streaming last_sequence => stream_loop fuel subscription_id client_id stream_generation timeout_seconds last_sequence
      | r => Ret r
      end
  end.

(** The body of [iter_stream_events] before its loop. *)
Definition stream_opening (acknowledged_updates : list (SubscriptionUpdate V)) (acknowledge_sequence : option Z) :
    prog service stream_call stream_end :=
  let last_sequence := default 0 acknowledge_sequence in
  yielding Connected
    (match acknowledged_updates with
     | [] => Ret (Streaming last_sequence)
     | us => yielding (Updates us) (Ret (Streaming (last_update_sequence last_sequence us)))
     end).

(** The [finally] clause, if the task is not cancelled again while it waits for the lock. *)
Definition stream_finally (subscription_id : string) (stream_generation : Z) : prog service stream_call (option unit) :=
  cancellable (update (deactivate_stream subscription_id stream_generation)).

(** The first [fuel] rounds; a stream that has not ended does not run its [finally] clause. *)
Definition iter_stream_events (fuel : nat) (subscription_id client_id : string) (stream_generation : Z)
    (acknowledged_updates : list (SubscriptionUpdate V)) (acknowledge_sequence : option Z) (timeout_seconds : Z) :
    prog service stream_call stream_end :=
  opened <- stream_opening acknowledged_updates acknowledge_sequence;;
  ended <- match opened with
           | Streaming last_sequence => stream_loop fuel subscription_id client_id stream_generation timeout_seconds last_sequence
           | r => Ret r
           end;;
  match ended with
  | Streaming last_sequence => Ret (Streaming last_sequence)
  | r => _ <- stream_finally subscription_id stream_generation;; Ret r
  end.
End Service.
End SubApp.
