(* ===== verification/SubRoutes.v ===== *)
(** The REST routes of subscriptions ([api/v1/subscription_routes.py]) and their helpers in [api/v1/common_helpers.py].

    [to_json_safe_value] is [_to_json_safe_value] on the values that the queue carries ([UaValues] has it for the values of
    asyncua), [dumps_text] is [json.dumps]. *)

From S2P Require Export SubApp NodeIds Values.

Module SubRoutes.
Import SubQueue SubResolve SubRuntime SubApp.
Import Values NodeIds.

Record SyncUpdate := { su_sequence : Z; su_element : string; su_json : json; su_quality_text : string; su_time : string }.
Record SyncBatch := { sb_sequence : Z; sb_updates : list SyncUpdate }.

(** [_validate_subscription_element_ids]. *)
Definition validate_subscription_element_ids (model : BuildResult) (element_ids : list string) : list string * list (BulkResultItem unit) :=
  (List.filter (fun id => bool_decide (is_Some (find_model_node model id))) element_ids,
   map (fun id => match find_model_node model id with
                  | None => bulk_result_error id ("Element not found: " +:+ id) 404
                  | Some _ => bulk_result_success id tt
                  end) element_ids).

(** [_require_client_id]. *)
Definition require_client_id (client_id : option string) (endpoint : string) : outcome http_error string :=
  let normalized := strip (default ε client_id) in
  if truthy normalized then Ok normalized else Err (client_id_required endpoint).

(** [_expand_subscription_bulk_item_element_ids]. *)
Definition expand_subscription_bulk_item (infos : list OpcUaNamespaceInfo) (item : SubscriptionBulkItem SubscriptionDetail) :
    SubscriptionBulkItem SubscriptionDetail :=
  {| sb_success := sb_success item; sb_elementId := sb_elementId item; sb_subscriptionId := sb_subscriptionId item;
     sb_result := map_subscription_detail (fun id => expanded_node_id id infos) <$> sb_result item; sb_error := sb_error item |}.

Definition optional_int_text (z : option Z) : string := match z with Some z => str_of_int z | None => "None" end.

(** The body of a sync answer: 206 with the lost range, or 200. *)
Record SyncAnswer := { sa_status : Z; sa_result : list SyncBatch; sa_detail : option string }.

Section Routes.
Context {V : Type} `{PyValue V} (cfg : config) (to_json_safe_value : V -> json) (dumps_text : json -> string).
Abbreviation service := (service (V := V)).
Abbreviation ua_call := (ua_call (V := V)).
Local Open Scope async_scope.
Local Open Scope Z_scope.

(** The calls of a request: those of the service, and the client's table of namespaces. *)
Inductive web_call : Type -> Type :=
  | Serves {R : Type} (c : ua_call R) : web_call R
  | GetNamespaceInfos : web_call (exc (list OpcUaNamespaceInfo)).

Definition serving {A} (p : prog service ua_call A) : prog service web_call A := inject (fun R c => Serves c) p.

(** [_fetch_namespace_infos]. *)
Definition fetch_namespace_infos : prog service web_call (list OpcUaNamespaceInfo) :=
  r <- call GetNamespaceInfos;; Ret (match r with Val infos => infos | Raise => [] end).

Definition public_update (infos : list OpcUaNamespaceInfo) (item : SubscriptionUpdate V) : SyncUpdate :=
  {| su_sequence := su_sequence_number item; su_element := expanded_node_id (su_element_id item) infos;
     su_json := to_json_safe_value (su_value item); su_quality_text := su_quality item; su_time := su_timestamp item |}.

(** [map_public_subscription_updates]. *)
Definition map_public_subscription_updates (infos : list OpcUaNamespaceInfo) (updates : list (SubscriptionUpdate V)) : list SyncUpdate :=
  map (public_update infos) updates.

Definition create_subscription_v1 (clientId : string) (displayName : option string) :
    prog service web_call (outcome http_error CreateSubscriptionDto) :=
  serving (create_subscription_app clientId displayName).

(** What [register_monitored_items_v1] and [remove_monitored_items_v1] answer; [None]: the request never ends. *)
Definition after_change (results : list (BulkResultItem unit)) (r : option (outcome http_error RegisterMonitoredItemsDto)) :
    option (outcome http_error (BulkResponse (BulkResultItem unit))) :=
  match r with
  | Some (Ok _) => Some (Ok (bulk_response item_succeeded results))
  | Some (Err e) => Some (Err e)
  | None => None
  end.

Definition register_monitored_items_v1 (model : BuildResult) (clientId subscriptionId : string) (elementIds : list string) (maxDepth : Z) :
    prog service web_call (option (outcome http_error (BulkResponse (BulkResultItem unit)))) :=
  let '(known_ids, results) := validate_subscription_element_ids model elementIds in
  r <- serving (register_monitored_items cfg true model subscriptionId (Some clientId) known_ids (Some maxDepth));;
  Ret (after_change results r).

Definition remove_monitored_items_v1 (model : BuildResult) (clientId subscriptionId : string) (elementIds : list string) :
    prog service web_call (option (outcome http_error (BulkResponse (BulkResultItem unit)))) :=
  let '(known_ids, results) := validate_subscription_element_ids model elementIds in
  r <- serving (unregister_monitored_items cfg true model subscriptionId (Some clientId) known_ids);;
  Ret (after_change results r).

Definition loss_detail (synced : PendingUpdatesDto V) : string :=
  "Updates were dropped from the subscription queue. Dropped sequence numbers " +:+ optional_int_text (pu_droppedFromSequence synced) +:+
  " through " +:+ optional_int_text (pu_droppedToSequence synced) +:+ ".".

Definition sync_answer (infos : list OpcUaNamespaceInfo) (synced : PendingUpdatesDto V) : SyncAnswer :=
  let public_updates := map (public_update infos) (pu_updates synced) in
  let batches := match last public_updates with
                 | None => []
                 | Some u => [{| sb_sequence := su_sequence u; sb_updates := public_updates |}]
                 end in
  if pu_queueOverflow synced then {| sa_status := 206; sa_result := batches; sa_detail := Some (loss_detail synced) |}
  else {| sa_status := 200; sa_result := batches; sa_detail := None |}.

Definition sync_subscription_v1 (clientId subscriptionId : string) (lastSequenceNumber : option Z) :
    prog service web_call (outcome http_error SyncAnswer) :=
  infos <- fetch_namespace_infos;;
  synced <- serving (get_pending_updates cfg subscriptionId (Some clientId) lastSequenceNumber);;
  Ret (sync_answer infos <$> synced).

Definition delete_subscriptions_v1 (clientId : string) (subscriptionIds : list string) :
    prog service web_call (outcome http_error (BulkResponse (SubscriptionBulkItem unit))) :=
  match require_client_id (Some clientId) "/subscriptions/delete" with
  | Err e => Ret (Err e)
  | Ok client_id =>
      items <- serving (delete_subscription_items subscriptionIds (Some client_id));;
      Ret (bulk_response sb_success <$> items)
  end.

(** [body.subscriptionIds or None]. *)
Definition some_ids (ids : list string) : option (list string) := match ids with [] => None | _ => Some ids end.

Definition list_subscriptions_v1 (clientId : string) (subscriptionIds : list string) :
    prog service web_call (outcome http_error (BulkResponse (SubscriptionBulkItem SubscriptionDetail))) :=
  match require_client_id (Some clientId) "/subscriptions/list" with
  | Err e => Ret (Err e)
  | Ok client_id =>
      infos <- fetch_namespace_infos;;
      items <- serving (list_subscription_items (Some client_id) (some_ids subscriptionIds));;
      Ret ((fun items => bulk_response sb_success (map (expand_subscription_bulk_item infos) items)) <$> items)
  end.

(** ** Event streams *)

Definition line_end : string := of_chars [chr 10].

Definition update_json (u : SyncUpdate) : json :=
  JObj [("sequenceNumber", JInt (su_sequence u)); ("elementId", JStr (su_element u)); ("value", su_json u);
        ("quality", JStr (su_quality_text u)); ("timestamp", JStr (su_time u))].

(** What [event_stream] sends for an event. *)
Definition event_chunk (infos : list OpcUaNamespaceInfo) (event : StreamEvent (V := V)) : string :=
  match event with
  | Connected => ": connected" +:+ line_end +:+ line_end
  | Keepalive => ": keepalive" +:+ line_end +:+ line_end
  | Closing => "event: close" +:+ line_end +:+ "data: {}" +:+ line_end +:+ line_end
  | Updates updates =>
      "data: " +:+ dumps_text (JArr (map update_json (map_public_subscription_updates infos updates))) +:+ line_end +:+ line_end
  end.

(** What happens before the response starts. *)
Definition stream_subscription_v1 (clientId subscriptionId : string) :
    prog service web_call (outcome http_error (list OpcUaNamespaceInfo * StreamSession (V := V))) :=
  infos <- fetch_namespace_infos;;
  session <- serving (begin_stream_session cfg subscriptionId (Some clientId) None);;
  Ret ((fun session => (infos, session)) <$> session).

(** The generator that the response of a session iterates. *)
Definition session_events (fuel : nat) (session : StreamSession (V := V)) : prog service (stream_call (V := V)) (stream_end) :=
  iter_stream_events cfg fuel (ss_subscriptionId session) (ss_clientId session) (ss_streamGeneration session)
    (sr_updates (ss_acknowledged session)) None 2.
End Routes.
End SubRoutes.
