(* ===== verification/SubRoutesSpec.v ===== *)
(** What the REST routes of subscriptions promise: the order and the completeness of event streams under concurrency,
    the answer of a sync, the answers for subscriptions of other clients, and where the client's name is not what the
    other routes take it for. *)

From S2P Require Export SubBehaviour SubRoutes.

Module SubRoutesSpec.
Import SubQueue SubResolve SubRuntime SubRegistry SubPool SubBehaviour SubApp SubRoutes.
Import NodeIds Values.

#[local] Set Default Proof Using "Type".

(** ** Programs inside larger programs *)

Section Inject.
Context {S : Type} {C C' : Type -> Type} (f : forall R, C R -> C' R).
Context (resp_ok : forall R, C R -> R -> Prop) (resp_ok' : forall R, C' R -> R -> Prop) (tick : S -> S -> Prop).
Context (answers : forall R (c : C R) r, resp_ok' R (f R c) r -> resp_ok R c r).

Lemma wp_inject {A} (p : prog S C A) Q s : wp resp_ok tick p Q s -> wp resp_ok' tick (inject f p) Q s.
Proof using answers.
  revert s. induction p as [a|X g k IH|R c k IH|k IH|k IH]; intros s; cbn [wp inject]; [done| | |by apply IH|by apply IH].
  - destruct (g s) as [s' x]. apply IH.
  - intros Hp r s' Hr Ht. apply IH, Hp; auto.
Qed.
End Inject.

(** ** Streams *)

Section Streams.
Context {V : Type} `{PyValue V} (cfg : config).
Abbreviation service := (service (V := V)).
Abbreviation ua_call := (ua_call (V := V)).
Abbreviation stream_call := (stream_call (V := V)).
Abbreviation StreamEvent := (StreamEvent (V := V)).

(** What [interleaved_invariants] has of every state that the service can be in. *)
Definition queues_consecutive (s : service) : Prop :=
  forall sid st, sv_subscriptions s !! sid = Some st ->
    seqs st = seqZ (sequence_number st - Z.of_nat (length (updates st)) + 1) (Z.of_nat (length (updates st))).

Abbreviation traced p l a := (trace_in queues_consecutive p l a).

(** The events that a stream yielded. *)
Definition yielded_by (e : event stream_call) : option StreamEvent :=
  match ev_call e with YieldEvent ev => Some ev | _ => None end.
Definition yielded (l : list (event stream_call)) : list StreamEvent := omap yielded_by l.

Definition event_updates (e : StreamEvent) : list (SubscriptionUpdate V) := match e with Updates us => us | _ => [] end.
Definition sent_updates (events : list StreamEvent) : list (SubscriptionUpdate V) := List.concat (map event_updates events).

(** The pending updates of a subscription after a sequence number, at some moment. *)
Definition pending_after (sid : string) (after : Z) (us : list (SubscriptionUpdate V)) : Prop :=
  exists s st, queues_consecutive s /\ sv_subscriptions s !! sid = Some st /\ us = updates_above after st.

(** What a stream sends after its opening: each batch is all that is pending after the last update sent. *)
Inductive follows (sid : string) : Z -> list StreamEvent -> Prop :=
  | follows_end after : follows sid after []
  | follows_keepalive after events : follows sid after events -> follows sid after (Keepalive :: events)
  | follows_updates after us events :
      us ≠ [] -> pending_after sid after us -> follows sid (last_update_sequence after us) events ->
      follows sid after (Updates us :: events)
  | follows_closing after : follows sid after [Closing].

Definition opening_events (acknowledged : list (SubscriptionUpdate V)) : list StreamEvent :=
  Connected :: match acknowledged with [] => [] | us => [Updates us] end.

Lemma yielded_app l1 l2 : yielded (l1 ++ l2) = yielded l1 ++ yielded l2.
Proof. apply omap_app. Qed.

(** A coroutine of the service yields nothing, and when it is not cancelled it returns what it returns on its own. *)
Lemma cancellable_only {A} (p : prog service ua_call A) :
  only (fun R c => match c with YieldEvent _ => False | _ => True end) (cancellable p).
Proof.
  induction p as [a|X f k IH|R c k IH|k IH|k IH]; cbn [cancellable only]; [done| | |done|done].
  - split; [done|]. intros [|]; [|done]. intros s. apply IH.
  - split; [done|]. intros [r|]; [apply IH|done].
Qed.

Lemma cancellable_yields Inv {A} (p : prog service ua_call A) l r : trace_in Inv (cancellable p) l r -> yielded l = [].
Proof.
  intros Ht%trace_in_trace%(only_trace _ _ _ _ (cancellable_only p)). induction Ht as [|[R c x] l Hc _ IH]; [done|].
  unfold yielded in *. cbn [omap list_omap]. rewrite IH. unfold yielded_by. cbn in *. by destruct c.
Qed.

Lemma cancellable_trace Inv {A} (p : prog service ua_call A) l a :
  trace_in Inv (cancellable p) l (Some a) -> exists l', trace_in Inv p l' a.
Proof.
  revert l. induction p as [b|X f k IH|R c k IH|k IH|k IH]; intros l; cbn [cancellable trace_in].
  - intros [_ [= ->]]. by exists [].
  - intros (locked & l' & _ & Hk). destruct locked; [|by destruct Hk]. destruct Hk as (s & Hs & [l2 Hl]%IH). by exists l2, s.
  - intros (r & l' & _ & Hk). destruct r as [r|]; [|by destruct Hk]. apply IH in Hk as [l2 Hl]. by exists (Event c r :: l2), r, l2.
  - apply IH.
  - apply IH.
Qed.

Lemma read_pending reset client sid after s us :
  queues_consecutive s -> (read_block reset client sid after s).2 = Some us -> pending_after sid after us.
Proof.
  intros Hs. unfold read_block. destruct (find_sub client sid s) as [st|] eqn:E; [|done]. intros [= <-]. exists s, st.
  split_and!; [done| |done]. by apply find_sub_Some in E.
Qed.

Lemma sect_read_pending reset client sid after l us :
  traced (sect (C := ua_call) (read_block reset client sid after)) l (Some us) -> pending_after sid after us.
Proof. intros (s & Hs & _ & Hr). by eapply read_pending. Qed.

(** What a wait returns was pending when it was read. *)
Lemma wait_pending client sid after timeout l us :
  traced (wait_for_updates cfg client sid after timeout) l (Some us) -> pending_after sid after us.
Proof.
  intros (s & Hs & Hw)%trace_in_sect. unfold wait_block in Hw.
  destruct (find_sub client sid s) as [st|] eqn:E; [|by destruct Hw as [_ [=]]]. apply find_sub_Some in E.
  destruct (updates_above after st) as [|u us'] eqn:Eu; cbn [snd] in Hw; [|destruct Hw as [_ [= ->]]; by exists s, st].
  destruct Hw as (woken & l1 & _ & s1 & Hs1 & Hw). cbn [snd] in Hw. destruct (sv_shutdown s1); [by destruct Hw as [_ [=]]|].
  destruct woken; [by eapply sect_read_pending|]. apply trace_in_sect in Hw as (s2 & Hs2 & Hw).
  destruct (timeout_block _ _ _ _ _ _) as [s3 [[]|]]; cbn [snd] in Hw; [|by eapply sect_read_pending|by destruct Hw as [_ [=]]].
  apply trace_in_sect in Hw as (s4 & Hs4 & Hw). destruct (reset_timeouts_block _ _ _) as [s5 []]; cbn [snd] in Hw; [|by destruct Hw as [_ [=]]].
  apply trace_in_bind in Hw as (l2 & l3 & [] & _ & _ & Hw). by eapply sect_read_pending.
Qed.

(** [yield event], when the rest of the program is as expected. *)
Lemma traced_yielding Inv e p l r :
  trace_in Inv (yielding e p) l r ->
  exists l', yielded l = e :: yielded l' /\ ((l' = [] /\ r = Abandoned) \/ trace_in Inv p l' r).
Proof. intros (more & l' & -> & Hp). exists l'. split; [done|]. destruct more; [by right|]. left. by destruct Hp. Qed.

Lemma traced_closing Inv l r : trace_in Inv closing l r -> yielded l = [Closing] /\ forall after, r ≠ Streaming after.
Proof. intros (l' & -> & [[-> ->]|[-> ->]])%traced_yielding; done. Qed.

Lemma round_follows sid client generation timeout after l r events :
  traced (stream_round cfg sid client generation timeout after) l r ->
  (forall after', r = Streaming after' -> follows sid after' events) -> (r = Finished \/ r = Abandoned -> events = []) ->
  follows sid after (yielded l ++ events).
Proof.
  intros Ht Hgo Hend. apply trace_in_bind in Ht as (l1 & l2 & active & -> & H1%cancellable_yields & Ht). rewrite yielded_app, H1. cbn [app].
  destruct active as [[|]|]; [| |destruct Ht as [-> ->]; rewrite Hend by auto; constructor].
  - apply trace_in_bind in Ht as (l3 & l4 & waited & -> & Hw & Ht). rewrite yielded_app, (cancellable_yields _ _ _ _ Hw). cbn [app].
    destruct waited as [[us|]|]; [| |destruct Ht as [-> ->]; rewrite Hend by auto; constructor].
    + apply cancellable_trace in Hw as [l' Hp%wait_pending]. destruct us as [|u us]; cbn beta iota in Ht.
      * apply traced_yielding in Ht as (l5 & -> & [[-> ->]|[-> ->]]); apply follows_keepalive; [rewrite Hend by auto; constructor|by apply Hgo].
      * apply traced_yielding in Ht as (l5 & -> & [[-> ->]|[-> ->]]); apply follows_updates; try done; [rewrite Hend by auto; constructor|by apply Hgo].
    + apply traced_closing in Ht as [-> Hr]. rewrite Hend by (destruct r; naive_solver). constructor.
  - apply traced_closing in Ht as [-> Hr]. rewrite Hend by (destruct r; naive_solver). constructor.
Qed.

Lemma loop_follows fuel sid client generation timeout after l r :
  traced (stream_loop cfg fuel sid client generation timeout after) l r -> follows sid after (yielded l).
Proof.
  revert after l. induction fuel as [|fuel IH]; intros after l; [intros [-> _]; constructor|].
  intros (l1 & l2 & r1 & -> & H1 & H2)%trace_in_bind. rewrite yielded_app. eapply round_follows; [exact H1| |].
  - intros after' ->. by eapply IH.
  - intros [-> | ->]; destruct H2 as [-> _]; done.
Qed.

Lemma last_update_app after us vs :
  last_update_sequence (V := V) after (us ++ vs) = last_update_sequence (last_update_sequence after us) vs.
Proof. unfold last_update_sequence. rewrite last_app. by destruct (last vs). Qed.

(** What follows the last event yields nothing. *)
Lemma finally_yields Inv sid generation ended l r :
  trace_in Inv (match ended with Streaming z => Ret (Streaming z) | e => pbind (stream_finally sid generation) (fun _ => Ret e) end) l r ->
  yielded l = [].
Proof.
  intros Ht. destruct ended; try (by destruct Ht as [-> _]);
    apply trace_in_bind in Ht as (l1 & l2 & u & -> & H1%cancellable_yields & H2); destruct H2 as [-> _]; by rewrite yielded_app, H1.
Qed.

(** The opening, and where the loop starts. *)
Lemma opening_yields Inv acked l r :
  trace_in Inv (stream_opening acked None) l r ->
  (r = Abandoned /\ yielded l `prefix_of` opening_events acked) \/
  (r = Streaming (last_update_sequence 0 acked) /\ yielded l = opening_events acked).
Proof.
  unfold stream_opening, opening_events. intros (l1 & -> & [[-> ->]|Ht])%traced_yielding.
  { left. split; [done|]. apply prefix_cons, prefix_nil. }
  destruct acked as [|u us]; [destruct Ht as [-> ->]; by right|].
  apply traced_yielding in Ht as (l2 & -> & [[-> ->]|[-> ->]]); [by left|by right].
Qed.

(** ** Order *)

Lemma sorted_seqZ_app k after m l :
  after < m -> StronglySorted Z.lt (m + Z.of_nat k :: l) -> StronglySorted Z.lt (after :: seqZ m (Z.of_nat (S k)) ++ l).
Proof.
  revert after m. induction k as [|k IH]; intros after m Hm Hl; rewrite seqZ_cons by lia; cbn [app].
  - rewrite seqZ_nil by lia. cbn [app]. replace (m + Z.of_nat 0) with m in Hl by lia. apply StronglySorted_inv in Hl as [Hl Hall].
    repeat constructor; try done. eapply Forall_impl; [exact Hall|]. lia.
  - replace (Z.pred (Z.of_nat (S (S k)))) with (Z.of_nat (S k)) by lia.
    assert (StronglySorted Z.lt (m :: seqZ (Z.succ m) (Z.of_nat (S k)) ++ l)) as Hs.
    { apply IH; [lia|]. by replace (Z.succ m + Z.of_nat k) with (m + Z.of_nat (S k)) by lia. }
    constructor; [done|]. apply StronglySorted_inv in Hs as [_ Hall]. constructor; [done|]. eapply Forall_impl; [exact Hall|]. lia.
Qed.

(** A nonempty run of updates: its last number. *)
Lemma run_last (us : list (SubscriptionUpdate V)) m n after :
  map su_sequence_number us = seqZ m n -> us ≠ [] ->
  exists k, n = Z.of_nat (S k) /\ last_update_sequence after us = m + Z.of_nat k.
Proof.
  intros Hus Hne. destruct (decide (0 < n)) as [Hn|Hn]; [|rewrite seqZ_nil in Hus by lia; by apply map_eq_nil in Hus].
  exists (Z.to_nat (n - 1)). split; [lia|]. destruct us as [|u us _] using rev_ind; [done|]. unfold last_update_sequence. rewrite last_snoc.
  rewrite map_app in Hus. replace n with ((n - 1) + 1) in Hus by lia. rewrite seqZ_snoc in Hus by lia.
  apply app_inj_tail in Hus as [_ Hu]. cbn in Hu. lia.
Qed.

(** A nonempty part of a queue: consecutive, after [after], up to its last update. *)
Lemma pending_run sid after us :
  pending_after sid after us -> us ≠ [] ->
  exists m k, after < m /\ map su_sequence_number us = seqZ m (Z.of_nat (S k)) /\ last_update_sequence after us = m + Z.of_nat k.
Proof.
  intros (s & st & Hs & Hst & ->) Hne. pose proof (updates_above_seqs after st) as Hus. rewrite (Hs sid st Hst), filter_seqZ in Hus.
  destruct (run_last _ _ _ after Hus Hne) as (k & Hn & Hlast). rewrite Hn in Hus. eexists _, k. split_and!; [|exact Hus|exact Hlast]. lia.
Qed.

Lemma follows_later sid after events :
  follows sid after events -> StronglySorted Z.lt (after :: map su_sequence_number (sent_updates events)).
Proof.
  induction 1 as [after|after events _ IH|after us events Hne Hp _ IH|after]; [by repeat constructor|exact IH| |by repeat constructor].
  unfold sent_updates in *. cbn [map event_updates List.concat]. destruct (pending_run sid after us Hp Hne) as (m & k & Hm & Hus & Hlast).
  rewrite map_app, Hus. rewrite Hlast in IH. by apply sorted_seqZ_app.
Qed.

(** The updates that open a stream are the queue of the subscription at some moment. *)
Lemma session_acknowledged sid client l session :
  traced (begin_stream_session cfg sid client None) l (Ok session) ->
  ss_subscriptionId session = sid /\ exists s st, queues_consecutive s /\ sv_subscriptions s !! sid = Some st /\ sr_updates (ss_acknowledged session) = updates st.
Proof.
  unfold begin_stream_session, wrapping. intros (l1 & l2 & r & -> & Ht & Hr)%trace_in_bind.
  destruct Hr as [_ Hr]. destruct r as [session'|]; [injection Hr as <-|done]. clear l2.
  destruct (blank_client client); [by destruct Ht|]. apply trace_in_sect in Ht as (s1 & _ & Ht).
  apply trace_in_bind in Ht as (l3 & l4 & activated & -> & _ & Ht). destruct activated as [[generation relaxed]|]; [|by destruct Ht].
  apply trace_in_bind in Ht as (l5 & l6 & acknowledged & -> & Hsync & Ht). destruct acknowledged as [result|]; [|by destruct Ht].
  destruct Ht as [_ [= ->]]. split; [done|]. cbn [ss_acknowledged]. apply trace_in_sect in Hsync as (s2 & _ & Hsync).
  unfold sync_block in Hsync. destruct (find_sub _ sid s2) as [st|]; cbn [negb] in Hsync; rewrite ?andb_false_r in Hsync; cbn [snd] in Hsync;
    [|by destruct Hsync as [_ [=]]].
  apply trace_in_bind in Hsync as (l7 & l8 & [] & -> & _ & s3 & Hs3 & _ & Hc). unfold collect_block in Hc.
  destruct (find_sub _ sid s3) as [st3|] eqn:E3; [|done]. apply find_sub_Some in E3. injection Hc as ->. by exists s3, st3.
Qed.

Lemma prefix_sorted (l1 l2 : list Z) : l1 `prefix_of` l2 -> StronglySorted Z.lt l2 -> StronglySorted Z.lt l1.
Proof.
  intros [k ->]. induction l1 as [|x l1 IH]; intros Hs; [constructor|]. apply StronglySorted_inv in Hs as [Hs Hall].
  constructor; [by apply IH|]. by apply Forall_app in Hall as [? _].
Qed.

Lemma sent_updates_app events1 events2 : sent_updates (events1 ++ events2) = sent_updates events1 ++ sent_updates events2.
Proof. unfold sent_updates. by rewrite map_app, concat_app. Qed.

Lemma sent_opening acked : sent_updates (opening_events acked) = acked.
Proof. destruct acked as [|u us]; [done|]. unfold sent_updates. cbn. by rewrite app_nil_r. Qed.

Lemma opened_sorted sid acked events m n :
  map su_sequence_number acked = seqZ m n -> follows sid (last_update_sequence 0 acked) events ->
  StronglySorted Z.lt (map su_sequence_number (sent_updates (opening_events acked ++ events))).
Proof.
  intros Hseq Hf%follows_later. rewrite sent_updates_app, sent_opening, map_app, Hseq.
  destruct acked as [|u us]; [destruct (seqZ m n); [|done]; by apply StronglySorted_inv in Hf as [? _]|].
  destruct (run_last _ _ _ 0 Hseq) as (k & -> & Hlast); [done|]. rewrite Hlast in Hf.
  apply (sorted_seqZ_app k (m - 1)) in Hf; [|lia]. by apply StronglySorted_inv in Hf as [? _].
Qed.

(** C30. A stream sends every update at most once and in the order of the queue, whatever other requests and the server do
    meanwhile and wherever it is interrupted: it opens with all that is pending, and each later batch is all that is pending
    after the last update it sent. *)
Theorem stream_ordered sid client fuel l0 session l r :
  traced (begin_stream_session cfg sid client None) l0 (Ok session) ->
  traced (session_events cfg fuel session) l r ->
  let acked := sr_updates (ss_acknowledged session) in
  StronglySorted Z.lt (map su_sequence_number (sent_updates (yielded l))) /\
  (exists s st, queues_consecutive s /\ sv_subscriptions s !! sid = Some st /\ acked = updates st) /\
  exists events, follows sid (last_update_sequence 0 acked) events /\
    (yielded l = opening_events acked ++ events \/ (events = [] /\ yielded l `prefix_of` opening_events acked)).
Proof.
  intros (Hsid & s & st & Hs & Hst & Hacked)%session_acknowledged Ht acked. unfold session_events, iter_stream_events in Ht. rewrite Hsid in Ht.
  assert (exists events, follows sid (last_update_sequence 0 acked) events /\
    (yielded l = opening_events acked ++ events \/ (events = [] /\ yielded l `prefix_of` opening_events acked))) as Hevents.
  { apply trace_in_bind in Ht as (l1 & l2 & opened & -> & Hopen%opening_yields & Ht). rewrite yielded_app.
    apply trace_in_bind in Ht as (l3 & l4 & ended & -> & Hloop & Hend). rewrite yielded_app, (finally_yields _ _ _ _ _ _ Hend), app_nil_r.
    destruct Hopen as [[-> Hpre]|[-> Ho]].
    - destruct Hloop as [-> _]. exists []. split; [constructor|]. right. by rewrite app_nil_r.
    - exists (yielded l3). split; [by eapply loop_follows|]. left. by rewrite Ho. }
  split_and!; [|by exists s, st|done]. destruct Hevents as (events & Hf & Hl).
  pose proof (opened_sorted sid acked events _ _ ltac:(unfold acked; rewrite Hacked; exact (Hs sid st Hst)) Hf) as Hsorted.
  destruct Hl as [->|[-> Hpre]]; [done|]. eapply prefix_sorted; [|exact Hsorted]. destruct Hpre as [k Hk].
  rewrite app_nil_r, Hk, sent_updates_app, map_app. by eexists.
Qed.

(** ** Streams of other clients' subscriptions *)

Lemma wait_refused client sid after timeout l r :
  trace_in (fun s => find_sub client sid s = None) (wait_for_updates cfg client sid after timeout) l r -> r = None.
Proof.
  intros (s & Hs & Hw)%trace_in_sect. unfold wait_block in Hw. rewrite Hs in Hw. by destruct Hw.
Qed.

(** A stream under a name that is not the subscription's sends its opening and closes. *)
Theorem relaxed_stream_closes client sid generation acked fuel timeout l r :
  trace_in (fun s => find_sub (Some client) sid s = None) (iter_stream_events cfg fuel sid client generation acked None timeout) l r ->
  yielded l `prefix_of` opening_events acked ++ [Closing].
Proof.
  unfold iter_stream_events. intros (l1 & l2 & opened & -> & Hopen%opening_yields & Ht)%trace_in_bind.
  apply trace_in_bind in Ht as (l3 & l4 & ended & -> & Hloop & Hend). rewrite !yielded_app.
  rewrite (finally_yields _ _ _ _ _ _ Hend), app_nil_r. destruct Hopen as [[-> Hpre]|[-> ->]].
  { destruct Hloop as [-> _]. rewrite app_nil_r. etrans; [exact Hpre|]. by apply prefix_app_r. }
  apply prefix_app. clear -Hloop. destruct fuel as [|fuel]; [destruct Hloop as [-> _]; apply prefix_nil|].
  cbn [stream_loop] in Hloop. apply trace_in_bind in Hloop as (l5 & l6 & r5 & -> & Hround & Hrest). rewrite yielded_app.
  assert (yielded l5 `prefix_of` [Closing] /\ forall z, r5 <> Streaming z) as [Hl5 Hr5].
  { apply trace_in_bind in Hround as (l7 & l8 & active & -> & H7%cancellable_yields & Ht). rewrite yielded_app, H7. cbn [app].
    destruct active as [[|]|]; [|by apply traced_closing in Ht as [-> ?]|destruct Ht as [-> ->]; split; [apply prefix_nil|done]].
    apply trace_in_bind in Ht as (l9 & l10 & waited & -> & Hw & Ht). rewrite yielded_app, (cancellable_yields _ _ _ _ Hw). cbn [app].
    destruct waited as [waited|]; [|destruct Ht as [-> ->]; split; [apply prefix_nil|done]].
    apply cancellable_trace in Hw as [l' ->%wait_refused]. by apply traced_closing in Ht as [-> ?]. }
  destruct r5 as [| |z]; [| |by destruct (Hr5 z)]; destruct Hrest as [-> _]; by rewrite app_nil_r.
Qed.
End Streams.

(** ** Requests *)

Section Requests.
Context {V : Type} `{PyValue V} (cfg : config) (caps_ok : OpcUaSubscriptionCapabilities -> Prop) (to_json_safe_value : V -> json).
Abbreviation service := (service (V := V)).

(** The answers that the service gets from the server; the table of namespaces may be any, or not come. *)
Definition web_resp_ok (R : Type) (c : web_call (V := V) R) : R -> Prop :=
  match c in web_call R return R -> Prop with
  | Serves c => ua_resp_ok caps_ok _ c
  | GetNamespaceInfos => fun _ => True
  end.

Abbreviation wp p Q s := (wp web_resp_ok clock_tick p Q s).

Lemma wp_serving {A} (p : prog service (ua_call (V := V)) A) Q s : Async.wp (ua_resp_ok caps_ok) clock_tick p Q s -> wp (serving p) Q s.
Proof. by apply wp_inject. Qed.

Lemma wp_fetch_namespace_infos {A} (g : list OpcUaNamespaceInfo -> prog service (web_call (V := V)) A) Q s :
  (forall infos s', clock_tick s s' -> wp (g infos) Q s') -> wp (pbind fetch_namespace_infos g) Q s.
Proof. intros Hg [infos|] s' _ Ht; by apply Hg. Qed.

Lemma wp_ret {C A} (a : A) (resp_ok : forall R, C R -> R -> Prop) Q (s : service) : Q a s -> Async.wp resp_ok clock_tick (Ret a) Q s.
Proof. done. Qed.

Lemma find_sub_tick client sid (s s' : service) : clock_tick s s' -> find_sub client sid s' = find_sub client sid s.
Proof. by intros (now & utc & _ & ->). Qed.

Lemma subs_tick (s s' : service) : clock_tick s s' -> sv_subscriptions s' = sv_subscriptions s.
Proof. by intros (now & utc & _ & ->). Qed.

(** The batch that a sync answers: none when nothing is pending. *)
Definition public_batches (infos : list OpcUaNamespaceInfo) (us : list (SubscriptionUpdate V)) : list SyncBatch :=
  match last us with
  | None => []
  | Some u => [{| sb_sequence := su_sequence_number u; sb_updates := map (public_update to_json_safe_value infos) us |}]
  end.

Lemma sync_answer_batches infos synced :
  sync_answer to_json_safe_value infos synced =
  {| sa_status := if pu_queueOverflow synced then 206 else 200; sa_result := public_batches infos (pu_updates synced);
     sa_detail := if pu_queueOverflow synced then Some (loss_detail synced) else None |}.
Proof.
  unfold sync_answer, public_batches. rewrite fmap_last. destruct (last (pu_updates synced)), (pu_queueOverflow synced); done.
Qed.

(** A sync that acknowledges a number answers the pending updates after it, all of them and in order, in one batch that
    carries the last of their numbers, under expanded element ids; it answers 206 and names the lost range exactly when
    updates were dropped since the last sync, and the subscription then keeps just what was answered and no lost range. *)
Theorem sync_route_exact client sid a s st :
  find_sub (Some client) sid s = Some st -> truthy (strip client) = true -> stream_connected st = false -> 0 <= a <= sequence_number st ->
  wp (sync_subscription_v1 cfg to_json_safe_value client sid (Some a)) (fun r s' =>
    (exists infos, r = Ok {|
       sa_status := if bool_decide (is_Some (dropped_from_sequence st)) then 206 else 200;
       sa_result := public_batches infos (updates_above a st);
       sa_detail := match dropped_from_sequence st with
                    | Some first => Some ("Updates were dropped from the subscription queue. Dropped sequence numbers " +:+ str_of_int first +:+
                                          " through " +:+ optional_int_text (dropped_to_sequence st) +:+ ".")
                    | None => None
                    end |}) /\
    exists st', sv_subscriptions s' !! sid = Some st' /\ updates st' = updates_above a st /\ dropped_from_sequence st' = None) s.
Proof.
  intros Hfind Hclient Hstream Ha. apply wp_fetch_namespace_infos. intros infos s1 Ht. rewrite <-(find_sub_tick _ _ _ _ Ht) in Hfind. clear Ht.
  apply wp_bind, wp_serving. unfold get_pending_updates, wrapping, blank_client. rewrite Hclient. cbn [negb]. apply wp_bind, wp_bind.
  eapply wp_mono; [|exact (sync_acknowledged cfg caps_ok (Some client) sid a false s1 st Hfind Ha (or_introl Hstream))].
  intros r s2 [-> (st' & Hst' & Hu & Hd & _)]. cbn [sr_stream_active Async.wp fmap outcome_fmap]. split; [|by exists st'].
  exists infos. rewrite sync_answer_batches. unfold loss_detail. cbn. by destruct (dropped_from_sequence st).
Qed.

(** Any client opens a stream on any subscription: it gets the pending updates, and the stream of the subscription's own
    client is superseded. *)
Theorem stream_ignores_scope client sid s st :
  truthy (strip client) = true -> find_sub (Some (strip client)) sid s = None -> sv_subscriptions s !! sid = Some st -> updates st <> [] ->
  wp (stream_subscription_v1 cfg client sid) (fun r s' =>
    is_stream_active sid (active_stream_generation st) s' = false /\
    exists infos session, r = Ok (infos, session) /\ ss_scopeRelaxed session = true /\ sr_updates (ss_acknowledged session) = updates st) s.
Proof.
  intros Hclient Hno Hst Hne. apply wp_fetch_namespace_infos. intros infos s1 Ht. rewrite <-(find_sub_tick _ _ _ _ Ht) in Hno.
  rewrite <-(subs_tick _ _ Ht) in Hst. clear Ht. apply wp_bind, wp_serving. unfold begin_stream_session, wrapping, blank_client. rewrite Hclient.
  cbn [negb default from_option id].
  assert (activate_stream (Some (strip client)) sid s1 = (s1, None)) as Ea1 by (unfold activate_stream; by rewrite Hno).
  assert (activate_stream None sid s1 = (update_sub sid (activate (sv_now s1)) s1, Some (active_stream_generation st + 1))) as Ea2
    by (unfold activate_stream, find_sub; by rewrite Hst).
  pose proof (update_sub_lookup sid (activate (sv_now s1)) s1 st Hst) as H1. set (s2 := update_sub sid (activate (sv_now s1)) s1) in *.
  pose proof (update_sub_lookup sid (fun st => touch (sv_now s2) (acknowledge None st)) _ _ H1) as H2. set (s3 := update_sub sid _ s2) in *.
  assert (sync_block None sid None true s2 = (s3, SyncGo false)) as Eb.
  { unfold sync_block, find_sub. rewrite H1, andb_false_r. f_equal. unfold should_refresh. f_equal.
    rewrite (bool_decide_false (updates _ = [])) by done. by rewrite andb_false_r. }
  apply wp_bind, wp_sect_bind. rewrite Ea1. cbn [fst snd]. apply wp_bind, wp_sect_bind. rewrite Ea2. apply wp_ret. cbn [fst snd].
  apply wp_bind, wp_sect_bind. rewrite Eb. cbn [fst snd]. apply wp_bind, wp_ret, wp_sect. unfold collect_block, find_sub. rewrite H2.
  cbn [fst snd collect]. apply wp_ret, wp_ret. cbn [fmap outcome_fmap].
  split; [|eexists infos, _; split_and!; [reflexivity|done|done]].
  unfold is_stream_active. erewrite update_sub_lookup by exact H2. cbn. apply Z.eqb_neq. lia.
Qed.

(** A client whose name is stripped by the route that deletes but not by the one that creates cannot delete what it created. *)
Theorem padded_client_never_deletes client sid s st :
  find_sub (Some client) sid s = Some st -> strip client <> client ->
  wp (delete_subscriptions_v1 client [sid]) (fun r s' =>
    sv_subscriptions s' = sv_subscriptions s /\ (truthy (strip client) = true -> exists item, r = Ok (bulk_response sb_success [item]) /\ sb_success item = false)) s.
Proof.
  intros Hfind Hpad. unfold delete_subscriptions_v1, require_client_id. cbn [default from_option id].
  destruct (truthy (strip client)) eqn:E; [|done]. apply wp_bind, wp_serving. unfold delete_subscription_items, wrapping. apply wp_bind, wp_bind.
  unfold delete_subscriptions. apply wp_sect_bind. unfold delete_block. cbn [fold_left].
  assert (find_sub (Some (strip client)) sid s = None) as Hno.
  { unfold find_sub in *. destruct (sv_subscriptions s !! sid) as [st'|]; [|done]. repeat case_bool_decide; try done. congruence. }
  unfold delete_one. rewrite Hno. cbn. split; [done|]. intros _. by eexists.
Qed.
End Requests.

(** ** Examples *)

(** The demonstration of [SubRegistry], streamed: two updates arrive after the stream was opened. *)
Definition demo_answer (R : Type) (c : ua_call (V := pyval) R) : R := (demo_env R c 1 demo_final).2.

Definition demo_session : outcome http_error (StreamSession (V := pyval)) :=
  (run_log demo_answer demo_final (begin_stream_session demo_config "sub-u" (Some " c ") None)).2.

Definition demo_opened : service (V := pyval) :=
  update_sub "sub-u" (fun st => append_update 100 "t2" "ns=1;i=3" (PInt 9) (append_update 100 "t1" "ns=1;i=3" (PInt 8) st))
    (activate_stream (Some "c") "sub-u" demo_final).1.

(** The consumer leaves at the first keepalive. *)
Definition demo_stream_answer (R : Type) (c : stream_call (V := pyval) R) : R :=
  match c in stream_call R return R with
  | Uses c => Some (demo_answer _ c)
  | TakeLock => true
  | YieldEvent Keepalive => false
  | YieldEvent _ => true
  end.

Definition demo_stream (session : StreamSession (V := pyval)) : list (event (stream_call (V := pyval))) * stream_end :=
  run_log demo_stream_answer demo_opened (session_events demo_config 5 session).

Lemma one_subscription_consecutive (s : service (V := pyval)) st :
  dict_items (sv_subscriptions s) = [("sub-u", st)] ->
  seqs st = seqZ (sequence_number st - Z.of_nat (length (updates st)) + 1) (Z.of_nat (length (updates st))) ->
  queues_consecutive s.
Proof.
  intros Hitems Hst sid st' Hl%dict_lookup_items. rewrite Hitems in Hl. by apply list_elem_of_singleton in Hl as [= -> ->].
Qed.

Lemma demo_final_consecutive : queues_consecutive demo_final.
Proof. eapply one_subscription_consecutive; vm_compute; reflexivity. Qed.

Lemma demo_opened_consecutive : queues_consecutive demo_opened.
Proof. eapply one_subscription_consecutive; vm_compute; reflexivity. Qed.

Lemma stream_ordered_witness :
  match demo_session with
  | Ok session =>
      let '(l, r) := demo_stream session in
      map (fun e => map su_sequence_number (event_updates e)) (yielded l) = [[]; [1; 2; 3; 4; 5]; [6; 7]; []] /\ r = Abandoned /\
      StronglySorted Z.lt (map su_sequence_number (sent_updates (yielded l)))
  | Err _ => False
  end.
Proof.
  pose proof (run_log_trace_in queues_consecutive demo_answer demo_final (begin_stream_session demo_config "sub-u" (Some " c ") None)
                demo_final_consecutive) as H1. fold demo_session in H1.
  destruct demo_session as [session|e] eqn:E; [|vm_compute in E; discriminate].
  pose proof (run_log_trace_in queues_consecutive demo_stream_answer demo_opened (session_events demo_config 5 session) demo_opened_consecutive) as H2.
  fold (demo_stream session) in H2. pose proof (stream_ordered demo_config "sub-u" (Some " c ") 5 _ session _ _ H1 H2) as [Hsorted _].
  destruct (demo_stream session) as [l r] eqn:El. split_and!; [| |exact Hsorted].
  - replace l with (demo_stream session).1 by by rewrite El. clear -E. vm_compute in E. injection E as <-. vm_compute. reflexivity.
  - replace r with (demo_stream session).2 by by rewrite El. clear -E. vm_compute in E. injection E as <-. vm_compute. reflexivity.
Defined.

Lemma sync_route_exact_witness :
  find_sub (Some "c") "sub-u" demo_final = Some demo_sub /\ stream_connected demo_sub = false /\ 0 <= 3 <= sequence_number demo_sub /\
  map su_sequence_number (updates_above 3 demo_sub) = [4; 5] /\
  wp (web_resp_ok (eq demo_caps)) clock_tick (sync_subscription_v1 demo_config (fun _ => JNull) "c" "sub-u" (Some 3)) (fun r s' =>
    exists answer, r = Ok answer /\ sa_status answer = 200 /\ sa_detail answer = None) demo_final.
Proof.
  assert (Hs : find_sub (Some "c") "sub-u" demo_final = Some demo_sub) by (vm_compute; reflexivity).
  assert (Hc : stream_connected demo_sub = false) by (vm_compute; reflexivity).
  assert (Hn : 0 <= 3 <= sequence_number demo_sub) by (vm_compute; split; discriminate).
  split; [exact Hs|]. split; [exact Hc|]. split; [exact Hn|]. split; [vm_compute; reflexivity|].
  eapply wp_mono; [|exact (sync_route_exact demo_config (eq demo_caps) (fun _ => JNull) "c" "sub-u" 3 demo_final demo_sub Hs eq_refl Hc Hn)].
  intros r s' [[infos ->] _]. eexists. split; [reflexivity|]. split; vm_compute; reflexivity.
Defined.
End SubRoutesSpec.
