(* ===== verification/Urls.v ===== *)
(** URLs and POSIX paths of Python's standard library, as far as the program uses them: [urllib.parse.urlsplit] and
    [quote], [posixpath.normpath], [str.replace].

    A text is the list of its characters; the laws at the end are those that paths of requests are built on: a normal path
    is what [normpath] makes, replacement stays within the segments, and a quoted text is one segment that reads back. *)

From S2P Require Export PyStr.

Module Urls.

Abbreviation text := (list ascii).

Definition slash : ascii := "/"%char.

(** ** Texts *)

Definition is_alpha (c : ascii) : bool := (is_upper c || is_lower c)%bool.

Fixpoint join_at (c : ascii) (l : list text) : text :=
  match l with
  | [] => []
  | [x] => x
  | x :: l' => x ++ c :: join_at c l'
  end.

(** [s.replace(old, new)] for a nonempty [old]; [skip] characters belong to a match that was replaced. *)
Fixpoint replace_from (old new : text) (skip : nat) (s : text) : text :=
  match s with
  | [] => []
  | c :: s' =>
      match skip with
      | S skip' => replace_from old new skip' s'
      | O => if starts_with old s then new ++ replace_from old new (pred (length old)) s' else c :: replace_from old new 0 s'
      end
  end.
Definition replace (old new s : text) : text := replace_from old new 0 s.

(** ** [urlsplit] *)

Record SplitResult := { sr_scheme : text; sr_netloc : text; sr_path : text; sr_query : text; sr_fragment : text }.

Definition scheme_char (c : ascii) : bool := (is_alnum c || existsb (ceqb c) ["+"; "-"; "."]%char)%bool.
Definition unsafe_url_byte (c : ascii) : bool := existsb (ceqb c) [chr 9; chr 13; chr 10].
Definition ends_netloc (c : ascii) : bool := existsb (ceqb c) ["/"; "?"; "#"]%char.

Definition split_scheme (url : text) : text * text :=
  match partition_at ":"%char url with
  | ((c :: _) as scheme, true, rest) =>
      if (is_alpha c && forallb scheme_char scheme)%bool then (map lower_char scheme, rest) else ([], url)
  | _ => ([], url)
  end.

Definition split_netloc (url : text) : text * text :=
  if starts_with [slash; slash] url then
    let rest := drop 2 url in
    (take_while (fun c => negb (ends_netloc c)) rest, drop_while (fun c => negb (ends_netloc c)) rest)
  else ([], url).

Section Split.
(** Whether a network location with brackets holds an address that [ipaddress] reads. *)
Context (bracketed_netloc_ok : text -> bool).

Definition netloc_ok (netloc : text) : bool :=
  match existsb (ceqb "["%char) netloc, existsb (ceqb "]"%char) netloc with
  | true, true => bracketed_netloc_ok netloc
  | false, false => true
  | _, _ => false
  end.

(** [None] is the [ValueError]. *)
Definition urlsplit (url : text) : option SplitResult :=
  let url := List.filter (fun c => negb (unsafe_url_byte c)) (drop_while (fun c => code c <=? 32) url) in
  let '(scheme, url) := split_scheme url in
  let '(netloc, url) := split_netloc url in
  if negb (netloc_ok netloc) then None
  else
    let '(url, _, fragment) := partition_at "#"%char url in
    let '(path, _, query) := partition_at "?"%char url in
    Some {| sr_scheme := scheme; sr_netloc := netloc; sr_path := path; sr_query := query; sr_fragment := fragment |}.
End Split.

(** ** [normpath] *)

Definition dot : text := ["."%char].
Definition dotdot : text := ["."; "."]%char.

(** The components so far, the last one first. *)
Definition push_component (absolute : bool) (comps : list text) (comp : text) : list text :=
  if bool_decide (comp = [] \/ comp = dot) then comps
  else if (negb (bool_decide (comp = dotdot)) || (negb absolute && bool_decide (comps = [])) || bool_decide (head comps = Some dotdot))%bool
  then comp :: comps
  else tail comps.

Definition initial_slashes (path : text) : nat :=
  if starts_with [slash; slash; slash] path then 1 else if starts_with [slash; slash] path then 2 else if starts_with [slash] path then 1 else 0.

Definition normpath (path : text) : text :=
  match path with
  | [] => dot
  | _ =>
      let slashes := initial_slashes path in
      let comps := fold_left (push_component (negb (Nat.eqb slashes 0))) (split_at slash path) [] in
      match repeat slash slashes ++ join_at slash (reverse comps) with
      | [] => dot
      | normalized => normalized
      end
  end.

(** ** [quote] with [safe=''] *)

Definition unreserved (c : ascii) : bool := (is_alnum c || existsb (ceqb c) ["_"; "."; "-"; "~"]%char)%bool.

Definition hex_char (d : Z) : ascii := if d <? 10 then chr (48 + d) else chr (55 + d).
Definition percent (x : Z) : text := ["%"%char; hex_char (x / 16); hex_char (x mod 16)].

(** The bytes of a character in UTF-8. *)
Definition utf8 (c : ascii) : list Z := if code c <? 128 then [code c] else [192 + code c / 64; 128 + code c mod 64].

Definition quote_char (c : ascii) : text := if unreserved c then [c] else flat_map percent (utf8 c).
Definition quote_url (s : text) : text := flat_map quote_char s.

(** ** Normal paths *)

Definition normal_segment (s : text) : Prop := s ≠ [] /\ s ≠ dot /\ s ≠ dotdot /\ slash ∉ s.

Definition path_of (segs : list text) : text := slash :: join_at slash segs.

Lemma join_at_cons c x l : join_at c (x :: l) = x ++ match l with [] => [] | _ => c :: join_at c l end.
Proof. destruct l; [cbn; by rewrite app_nil_r|done]. Qed.

Lemma split_at_app c a b : c ∉ a -> split_at c (a ++ c :: b) = a :: split_at c b.
Proof.
  induction a as [|x a IH]; intros H; cbn; unfold ceqb.
  - by rewrite bool_decide_true.
  - apply not_elem_of_cons in H as [Hx H]. by rewrite bool_decide_false, IH.
Qed.

Lemma split_at_none c a : c ∉ a -> split_at c a = [a].
Proof. induction a as [|x a IH]; intros H; [done|]. apply not_elem_of_cons in H as [Hx H]. cbn. unfold ceqb. by rewrite bool_decide_false, IH. Qed.

Lemma split_join c segs : segs ≠ [] -> Forall (fun s => c ∉ s) segs -> split_at c (join_at c segs) = segs.
Proof.
  intros Hne H. induction H as [|x l Hx H IH]; [done|]. rewrite join_at_cons. destruct l as [|y l].
  - rewrite app_nil_r. by apply split_at_none.
  - rewrite split_at_app, IH by done. done.
Qed.

Lemma split_at_parts c l : Forall (fun s => (c ∉ s) /\ (forall x, x ∈ s -> x ∈ l)) (split_at c l).
Proof.
  induction l as [|x l IH]; cbn; [repeat constructor; set_solver|]. unfold ceqb. case_bool_decide as Hx.
  - constructor; [set_solver|]. eapply Forall_impl; [exact IH|]. cbn. set_solver.
  - destruct (split_at c l) as [|w ws]; [apply Forall_singleton; split; [set_solver|]; intros y; set_solver|]. apply Forall_cons in IH as [Hw IH]. constructor; [set_solver|].
    eapply Forall_impl; [exact IH|]. cbn. set_solver.
Qed.

Lemma elem_of_join c x segs : x ∈ join_at c segs -> x = c \/ exists s, s ∈ segs /\ x ∈ s.
Proof.
  induction segs as [|s l IH]; [by intros ?%elem_of_nil|]. rewrite join_at_cons. intros [H|H]%elem_of_app; [right; exists s; set_solver|].
  destruct l as [|s' l]; [by apply elem_of_nil in H|]. apply elem_of_cons in H as [->|H]; [by left|]. destruct (IH H) as [->|(t & Ht & Hx)]; [by left|].
  right. exists t. set_solver.
Qed.

Lemma normal_no_slash segs : Forall normal_segment segs -> Forall (fun s => slash ∉ s) segs.
Proof. intros H. eapply Forall_impl; [exact H|]. intros s (_ & _ & _ & Hs). exact Hs. Qed.

Lemma push_normal comps comp : Forall normal_segment comps -> slash ∉ comp -> Forall normal_segment (push_component true comps comp).
Proof.
  intros H Hs. unfold push_component. case_bool_decide as E; [done|]. apply Decidable.not_or in E as [E1 E2].
  destruct (bool_decide (comp = dotdot)) eqn:Ed; cbn.
  - destruct comps as [|s comps]; [done|]. apply Forall_cons in H as [Hn H]. rewrite bool_decide_false by (intros [= ->]; by destruct Hn as (_ & _ & ? & _)). done.
  - apply bool_decide_eq_false in Ed. by constructor.
Qed.

Lemma push_chars (P : ascii -> Prop) absolute comps comp : Forall (Forall P) comps -> Forall P comp -> Forall (Forall P) (push_component absolute comps comp).
Proof.
  intros H Hc. unfold push_component. case_bool_decide; [done|]. case_match; [by constructor|]. destruct comps; [done|]. by apply Forall_cons in H as [_ H].
Qed.

Lemma push_same comps comp : normal_segment comp -> push_component true comps comp = comp :: comps.
Proof. intros (H1 & H2 & H3 & _). unfold push_component. rewrite bool_decide_false by (by intros []). by rewrite bool_decide_false. Qed.

Lemma fold_push_normal segs comps : Forall normal_segment segs -> fold_left (push_component true) segs comps = reverse segs ++ comps.
Proof.
  intros H. revert comps. induction H as [|s segs Hs _ IH]; intros comps; [done|]. rewrite reverse_cons, <-app_assoc, <-IH. cbn [fold_left].
  by rewrite push_same.
Qed.

Lemma double_slash_path_of segs : Forall normal_segment segs -> starts_with [slash; slash] (path_of segs) = false.
Proof.
  intros H. unfold path_of. destruct segs as [|s segs]; [done|]. apply Forall_cons in H as [(Hne & _ & _ & Hs) _]. rewrite join_at_cons.
  destruct s as [|c s]; [done|]. cbn. unfold ceqb. rewrite (bool_decide_false (slash = c)); [done|]. set_solver.
Qed.

Lemma initial_slashes_single p : starts_with [slash] p = true -> starts_with [slash; slash] p = false -> initial_slashes p = 1%nat.
Proof.
  intros H1 H2. unfold initial_slashes. rewrite H2, H1. destruct p as [|c [|c' p]]; [done|cbn; by rewrite andb_false_r|].
  cbn [starts_with] in *. by destruct (ceqb slash c), (ceqb slash c').
Qed.

Lemma normpath_single p : starts_with [slash] p = true -> starts_with [slash; slash] p = false ->
  normpath p = path_of (reverse (fold_left (push_component true) (split_at slash p) [])).
Proof. intros H1 H2. unfold normpath. rewrite initial_slashes_single by done. destruct p; [done|]. done. Qed.

Lemma normpath_path_of segs : Forall normal_segment segs -> normpath (path_of segs) = path_of segs.
Proof.
  intros H. rewrite normpath_single by (done || by apply double_slash_path_of). assert (split_at slash (path_of segs) = [] :: split_at slash (join_at slash segs)) as -> by done.
  destruct segs as [|s segs]; [done|]. rewrite split_join by (done || by apply normal_no_slash).
  change (path_of (reverse (fold_left (push_component true) (s :: segs) [])) = path_of (s :: segs)).
  by rewrite fold_push_normal, app_nil_r, reverse_involutive by done.
Qed.

(** An absolute path becomes a normal one, of its own characters. *)
Lemma normpath_normal p : starts_with [slash] p = true -> starts_with [slash; slash] p = false ->
  exists segs, Forall normal_segment segs /\ normpath p = path_of segs /\ (forall x, x ∈ path_of segs -> x ∈ p).
Proof.
  intros H1 H2. rewrite normpath_single by done. pose proof (split_at_parts slash p) as Hp.
  assert (Hf : forall l comps, Forall (fun s => (slash ∉ s) /\ (forall x, x ∈ s -> x ∈ p)) l -> Forall normal_segment comps -> Forall (Forall (.∈ p)) comps ->
    Forall normal_segment (fold_left (push_component true) l comps) /\ Forall (Forall (.∈ p)) (fold_left (push_component true) l comps)).
  { induction l as [|s l IH]; intros comps Hl Hn Hc; [done|]. apply Forall_cons in Hl as [[Hs Hx] Hl]. cbn. apply IH; [done|by apply push_normal|].
    apply push_chars; [done|]. by apply Forall_forall. }
  destruct (Hf _ [] Hp) as [Hn Hc]; [constructor..|]. eexists. split; [by apply Forall_reverse|]. split; [done|]. intros x Hx.
  assert (Hslash : slash ∈ p) by (destruct p as [|c p]; [done|]; cbn in H1; unfold ceqb in H1; bool_hyps; subst; by left).
  apply elem_of_cons in Hx as [->|Hx]; [done|]. apply elem_of_join in Hx as [->|(s & Hs & Hx)]; [done|].
  rewrite elem_of_reverse in Hs. rewrite Forall_forall in Hc. specialize (Hc s Hs). rewrite Forall_forall in Hc. by apply Hc.
Qed.

Lemma path_of_inj segs segs' : Forall normal_segment segs -> Forall normal_segment segs' -> path_of segs = path_of segs' -> segs = segs'.
Proof.
  intros H H' [= E]. assert (Hn : forall l, Forall normal_segment l -> l = [] \/ Forall (fun s => slash ∉ s) l /\ l ≠ []).
  { intros [|s l] Hl; [by left|]. right. split; [by apply normal_no_slash|done]. }
  assert (Hempty : forall s l, Forall normal_segment (s :: l) -> join_at slash (s :: l) ≠ []).
  { intros s l [(Hs & _) _]%Forall_cons. rewrite join_at_cons. by destruct s. }
  destruct (Hn _ H) as [->|[Hs Hne]], (Hn _ H') as [->|[Hs' Hne']]; [done|destruct segs'; [done|]; by destruct (Hempty _ _ H')|
    destruct segs; [done|]; by destruct (Hempty _ _ H)|].
  by rewrite <-(split_join slash segs), E, split_join.
Qed.

(** ** Replacement within segments *)

Section Replace.
Context (old new : text) (Hold : old ≠ []) (Hslash : slash ∉ old).

Lemma starts_with_length p l : starts_with p l = true -> (length p <= length l)%nat.
Proof. revert l. induction p as [|x p IH]; intros [|y l] H; cbn in *; try lia; try done. apply andb_true_iff in H as [_ H]. apply IH in H. lia. Qed.

Lemma starts_with_stop a b : starts_with old (a ++ slash :: b) = starts_with old a.
Proof using Hslash.
  clear Hold. revert a. induction old as [|x p IH]; intros [|y a]; try done; apply not_elem_of_cons in Hslash as [Hx Hp]; cbn.
  - unfold ceqb. by rewrite bool_decide_false by congruence.
  - by rewrite IH.
Qed.

Lemma replace_stop k a b : (k <= length a)%nat -> replace_from old new k (a ++ slash :: b) = replace_from old new k a ++ slash :: replace_from old new 0 b.
Proof using Hold Hslash.
  revert k. induction a as [|c a IH]; intros k Hk.
  - assert (k = 0%nat) as -> by (cbn in Hk; lia). cbn [app replace_from]. change (slash :: b) with ([] ++ slash :: b) at 1. rewrite starts_with_stop.
    destruct old as [|x p]; [done|]. done.
  - destruct k as [|k]; [|apply IH; cbn in Hk; lia]. cbn [app replace_from]. change (c :: a ++ slash :: b) with ((c :: a) ++ slash :: b)%list.
    rewrite starts_with_stop. destruct (starts_with old (c :: a)) eqn:E.
    + apply starts_with_length in E. cbn in E. rewrite IH by lia. by rewrite app_assoc.
    + by rewrite IH by lia.
Qed.

Lemma replace_join segs : segs ≠ [] -> replace old new (join_at slash segs) = join_at slash (map (replace old new) segs).
Proof using Hold Hslash.
  intros Hne. induction segs as [|s segs IH]; [done|]. cbn [map]. rewrite !join_at_cons. destruct segs as [|s' segs].
  - by rewrite !app_nil_r.
  - unfold replace at 1. rewrite replace_stop by lia. fold (replace old new (join_at slash (s' :: segs))). by rewrite IH.
Qed.

Lemma replace_path_of segs : replace old new (path_of segs) = path_of (map (replace old new) segs).
Proof using Hold Hslash.
  unfold path_of. change (slash :: join_at slash segs) with ([] ++ slash :: join_at slash segs). unfold replace at 1. rewrite replace_stop by (cbn; lia).
  destruct segs as [|s segs]; [done|]. fold (replace old new (join_at slash (s :: segs))). by rewrite replace_join.
Qed.

Lemma contains_stop a b : contains old (a ++ slash :: b) = (contains old a || contains old b)%bool.
Proof using Hold Hslash.
  induction a as [|c a IH]; cbn [app contains].
  - change (slash :: b) with ([] ++ slash :: b)%list. rewrite starts_with_stop. by destruct old.
  - change (c :: a ++ slash :: b) with ((c :: a) ++ slash :: b)%list. by rewrite starts_with_stop, IH, orb_assoc.
Qed.

Lemma contains_path_of segs : contains old (path_of segs) = existsb (contains old) segs.
Proof using Hold Hslash.
  assert (Hnil : contains old [] = false) by (by destruct old). unfold path_of. change (slash :: join_at slash segs) with ([] ++ slash :: join_at slash segs)%list.
  rewrite contains_stop, Hnil. cbn [orb]. induction segs as [|s segs IH]; [done|]. rewrite join_at_cons. cbn [existsb]. destruct segs as [|s' segs].
  - by rewrite app_nil_r, orb_false_r.
  - by rewrite contains_stop, IH.
Qed.

Lemma replace_absent s : contains old s = false -> replace old new s = s.
Proof using.
  unfold replace. induction s as [|c s IH]; [done|]. cbn [contains replace_from]. intros [-> H]%orb_false_iff. by rewrite IH.
Qed.

Lemma replace_skip p k s : (length s <= k)%nat -> replace_from p new k s = [].
Proof using. revert k. induction s as [|c s IH]; intros [|k] Hk; cbn in *; try done; [lia|]. apply IH. lia. Qed.

Lemma replace_self : replace old new old = new.
Proof using Hold.
  clear Hslash. assert (Hs : forall l, starts_with l l = true) by (induction l as [|x l IH]; [done|]; cbn; unfold ceqb; by rewrite bool_decide_true).
  unfold replace. destruct old as [|x p]; [done|]. cbn [replace_from]. rewrite Hs, replace_skip by done. by rewrite app_nil_r.
Qed.
End Replace.

Lemma contains_self p : contains p p = true.
Proof.
  assert (Hs : starts_with p p = true) by (induction p as [|x p IH]; [done|]; cbn; unfold ceqb; by rewrite bool_decide_true). destruct p; [done|]. cbn [contains]. by rewrite Hs.
Qed.

Lemma contains_elem p s x : contains p s = true -> x ∈ p -> x ∈ s.
Proof.
  assert (Hs : forall p l, starts_with p l = true -> x ∈ p -> x ∈ l).
  { intros q. induction q as [|y q IH]; intros [|z l] H Hx; cbn in *; try done; [by apply elem_of_nil in Hx|].
    apply andb_true_iff in H as [Hy%bool_decide_eq_true H]. subst z. apply elem_of_cons in Hx as [->|Hx]; [by left|]. right. by apply IH. }
  induction s as [|c s IH]; cbn; intros [H|H]%orb_true_iff Hx; [by apply (Hs _ _ H)|done|by apply (Hs _ _ H)|right; by apply IH].
Qed.

(** ** Quoted texts *)

Lemma percent_chars x c : 0 <= x < 256 -> c ∈ percent x -> is_alnum c = true \/ c = "%"%char.
Proof.
  intros Hx. assert (Hh : forall d, 0 <= d < 16 -> is_alnum (hex_char d) = true).
  { intros d Hd. assert (d ∈ seqZ 0 16) as H by (apply elem_of_seqZ; lia). clear Hd. revert d H. apply Forall_forall. repeat constructor. }
  intros H. assert (0 <= x / 16 < 16) by (split; [apply Z.div_pos; lia|apply Z.div_lt_upper_bound; lia]). pose proof (Z.mod_pos_bound x 16).
  apply elem_of_cons in H as [->|H]; [by right|]. left. apply elem_of_cons in H as [->|H]; [by apply Hh|]. apply list_elem_of_singleton in H as ->. apply Hh. lia.
Qed.

Lemma code_range c : 0 <= code c < 256.
Proof. destruct c as [[] [] [] [] [] [] [] []]; vm_compute; split; congruence. Qed.

(** The characters of a quoted text. *)
Definition quoted (c : ascii) : bool := (unreserved c || ceqb c "%"%char)%bool.

Lemma quote_chars s c : c ∈ quote_url s -> quoted c = true.
Proof.
  intros H. apply list_elem_of_In, List.in_flat_map in H as (d & _ & H%list_elem_of_In). unfold quote_char in H.
  assert (Hu : forall x, 0 <= x < 256 -> c ∈ percent x -> quoted c = true).
  { intros x Hx [E| ->]%percent_chars; [|done|done]. unfold quoted, unreserved. by rewrite E. }
  destruct (unreserved d) eqn:E; [apply list_elem_of_singleton in H as ->; unfold quoted; by rewrite E|].
  pose proof (code_range d) as Hd. unfold utf8 in H. destruct (Z.ltb_spec (code d) 128); cbn [flat_map app] in H; rewrite ?app_nil_r in H; [by apply (Hu (code d))|].
  assert (0 <= code d / 64 < 4) by (split; [apply Z.div_pos; lia|apply Z.div_lt_upper_bound; lia]). pose proof (Z.mod_pos_bound (code d) 64).
  apply elem_of_app in H as [H|H]; [apply (Hu (192 + code d / 64))|apply (Hu (128 + code d mod 64))]; (lia || done).
Qed.

Lemma quote_no_slash s : slash ∉ quote_url s.
Proof. by intros H%quote_chars. Qed.

(** Reads one character back. *)
Definition unquote_char (s : text) : option (ascii * text) :=
  match s with
  | [] => None
  | "%"%char :: a :: b :: s' =>
      let x := 16 * dval a + dval b in
      if x <? 128 then Some (chr x, s')
      else match s' with
           | _ :: c :: d :: s'' => Some (chr (64 * (x - 192) + (16 * dval c + dval d - 128)), s'')
           | _ => None
           end
  | c :: s' => Some (c, s')
  end.

Lemma unquote_quote c r : unquote_char (quote_char c ++ r) = Some (c, r).
Proof. destruct c as [[] [] [] [] [] [] [] []]; reflexivity. Qed.

Lemma quote_char_nonempty c : quote_char c ≠ [].
Proof. intros E. pose proof (unquote_quote c []) as H. by rewrite E in H. Qed.

(** Different texts are quoted differently. *)
Lemma quote_inj s s' : quote_url s = quote_url s' -> s = s'.
Proof.
  unfold quote_url. revert s'. induction s as [|c s IH]; intros [|d s'] H; cbn [flat_map] in H; [done| | |].
  - symmetry in H. apply app_nil in H as [H _]. by destruct (quote_char_nonempty d).
  - apply app_nil in H as [H _]. by destruct (quote_char_nonempty c).
  - pose proof (unquote_quote c (flat_map quote_char s)) as Hc. rewrite H, unquote_quote in Hc. injection Hc as -> Hc. by rewrite (IH s').
Qed.

(** A quoted text is a segment of a normal path, unless the text is empty or consists of dots. *)
Lemma quote_normal s : s ≠ [] -> s ≠ dot -> s ≠ dotdot -> normal_segment (quote_url s).
Proof.
  assert (Hd : quote_url dot = dot) by (vm_compute; reflexivity). assert (Hdd : quote_url dotdot = dotdot) by (vm_compute; reflexivity).
  intros H1 H2 H3. split_and!; [..|apply quote_no_slash]; intros E.
  - apply H1, quote_inj, E.
  - rewrite <-Hd in E. apply H2, quote_inj, E.
  - rewrite <-Hdd in E. apply H3, quote_inj, E.
Qed.

End Urls.
