(* ===== verification/HttpCaching.v ===== *)
(** Revisions and conditional requests ([http_caching.py], [model/revision.py]): what handlers record, the entity tag that
    stands for it, the comparison with [If-None-Match], and the middleware that answers 304.

    [sha256_hex] is [hashlib.sha256(text.encode()).hexdigest()]. The headers of a message are starlette's
    [MutableHeaders]: a class states their operations, with the laws in [HttpCachingSpec]. *)

From S2P Require Export Repr ModelTypes.

Module HttpCaching.
Export Repr.

Definition MODEL_REVISION_HEADER : string := "I3X-Model-Revision".
Definition MODEL_PART : string := "model".
Definition NAMESPACES_PART : string := "namespaces".
Definition OBJECT_TYPES_PART : string := "objecttypes".
Definition ETAG_ENABLED : string := "_etag".
Definition NOT_CACHEABLE : string := "_not_cacheable".
Definition BODY_HEADERS : list string := ["content-length"; "content-type"; "content-encoding"].

(** ** What handlers record *)

(** The parts in the scope of the request; [None]: the scope has none. *)
Abbreviation Parts := (dict string string).

Definition record_revision (name revision : string) (parts : option Parts) : option Parts :=
  if truthy revision then insert name revision <$> parts else parts.

Definition mark_not_cacheable : option Parts -> option Parts := record_revision NOT_CACHEABLE "1".
Definition enable_etag : option Parts -> option Parts := record_revision ETAG_ENABLED "1".

(** ** Digests and tags *)

Section Digest.
Context (sha256_hex : string -> string).

(** The text under the digest: a line for each value. *)
Definition digest_text (values : list pyval) : list ascii := flat_map (fun v => repr_chars v ++ [chr 10]) values.

Definition hexdigest32 (text : list ascii) : string := of_chars (take 32 (chars (sha256_hex (of_chars text)))).

Definition content_revision (values : list pyval) : string := hexdigest32 (digest_text values).

(** The order of pairs of strings. *)
Definition pair_leb (p q : string * string) : bool :=
  if bool_decide (p.1 = q.1) then string_leb p.2 q.2 else string_leb p.1 q.1.

Definition pair_value (p : string * string) : pyval := PTuple [PStr p.1; PStr p.2].

Definition is_revision (p : string * string) : bool := negb (startswith "_" p.1).

Definition revisions (parts : Parts) : list (string * string) := py_sorted pair_leb (List.filter is_revision (dict_items parts)).

Definition tag (text : string) : string := of_chars (chars "W/" ++ quote :: chars text ++ [quote]).

Definition representation_etag (parts : Parts) : option string :=
  if (negb (dict_mem ETAG_ENABLED parts) || dict_mem NOT_CACHEABLE parts)%bool then None
  else match revisions parts with
       | [] => None
       | l => Some (tag (content_revision (map pair_value l)))
       end.

(** ** Comparison *)

Definition opaque_tag (tag : string) : string := let tag := strip tag in if startswith "W/" tag then str_drop 2 tag else tag.

Definition etag_matches (if_none_match : option string) (etag : string) : bool :=
  match if_none_match with
  | None => false
  | Some text =>
      if truthy text then
        if bool_decide (strip text = "*") then true
        else existsb (fun candidate => bool_decide (opaque_tag candidate = opaque_tag etag)) (str_split ","%char text)
      else false
  end.

Definition is_read (method : string) : bool := bool_decide (method ∈ ["GET"; "HEAD"]).

(** [raise_if_not_modified]: whether it raises. *)
Definition not_modified (method : string) (if_none_match : option string) (parts : option Parts) : bool :=
  if is_read method then
    match parts with
    | Some parts => match representation_etag parts with Some etag => etag_matches if_none_match etag | None => false end
    | None => false
    end
  else false.

(** ** The middleware *)

Class MutableHeaders (H : Type) := {
  header_get : string -> H -> option string;
  header_set : string -> string -> H -> H;
  header_del : string -> H -> H;
}.

Context {H : Type} `{MutableHeaders H}.

Inductive Message :=
  | ResponseStart (status : Z) (headers : H)
  | ResponseBody (body : string) (more_body : bool)
  | OtherMessage (type : string).

(** [if name in headers: del headers[name]]. *)
Definition drop_header (headers : H) (name : string) : H :=
  match header_get name headers with Some _ => header_del name headers | None => headers end.

(** [send_with_revision]: the flag [drop_body], and what is sent on. *)
Definition send_with_revision (method : string) (if_none_match : option string) (parts : Parts) (drop_body : bool) (message : Message) :
    bool * list Message :=
  match message with
  | ResponseStart status headers =>
      let headers := match parts !! MODEL_PART with
                     | Some revision => if truthy revision then header_set MODEL_REVISION_HEADER revision headers else headers
                     | None => headers
                     end in
      match (if is_read method then representation_etag parts else None) with
      | Some etag =>
          if bool_decide (status ∈ [200; 304]) then
            let headers := header_set "Cache-Control" "no-cache" (header_set "ETag" etag headers) in
            let matching := ((status =? 200) && etag_matches if_none_match etag)%bool in
            let status := if matching then 304 else status in
            let headers := if status =? 304 then fold_left drop_header BODY_HEADERS headers else headers in
            ((drop_body || matching)%bool, [ResponseStart status headers])
          else (drop_body, [ResponseStart status headers])
      | None => (drop_body, [ResponseStart status headers])
      end
  | ResponseBody _ more_body =>
      if drop_body then (drop_body, if more_body then [] else [ResponseBody ε false]) else (drop_body, [message])
  | OtherMessage _ => (drop_body, [message])
  end.

(** What the application does in a request. *)
Inductive AppStep :=
  | Record (name revision : string)
  | Send (message : Message).

Record Request := { rq_type : string; rq_method : string; rq_if_none_match : option string }.

Fixpoint respond (rq : Request) (steps : list AppStep) (parts : Parts) (drop_body : bool) : list Message :=
  match steps with
  | [] => []
  | Record name revision :: steps' => respond rq steps' (default parts (record_revision name revision (Some parts))) drop_body
  | Send message :: steps' =>
      let '(drop_body, sent) := send_with_revision (rq_method rq) (rq_if_none_match rq) parts drop_body message in
      sent ++ respond rq steps' parts drop_body
  end.

(** [ModelRevisionMiddleware.__call__]; without HTTP, the messages pass through. *)
Definition model_revision_middleware (rq : Request) (steps : list AppStep) : list Message :=
  if bool_decide (rq_type rq = "http") then respond rq steps ∅ false
  else omap (fun step => match step with Send message => Some message | Record _ _ => None end) steps.

(** ** The revision of a model *)

(** [model_dump_json] of a node is pydantic's. *)
Context (model_dump_json : ModelNode -> string).

Definition names_json (d : dict string string) : json := JObj (map (fun p => (p.1, JStr p.2)) (dict_items d)).

Definition extra (model : BuildResult) : json :=
  JObj [("root_ids", JArr (map JStr (root_ids model)));
        ("action_to_method", JObj (map (fun p => (p.1, JArr [JStr p.2.1; JStr p.2.2])) (dict_items (action_to_method model))));
        ("node_id_by_name", names_json (node_id_by_name model)); ("node_id_by_type", names_json (node_id_by_type model));
        ("graph_relationship_names", JArr (map JStr (py_sorted string_leb (elements (graph_relationship_names model)))));
        ("graph_relationship_namespace_by_id", names_json (graph_relationship_namespace_by_id model));
        ("graph_relationship_display_name_by_id", names_json (graph_relationship_display_name_by_id model))].

Definition node_lines (model : BuildResult) : list ascii :=
  flat_map (fun id => match nodes_by_id model !! id with Some node => chars (model_dump_json node) ++ [chr 10] | None => [] end)
    (py_sorted string_leb (dict_keys (nodes_by_id model))).

Definition compute_model_revision (model : BuildResult) : string :=
  hexdigest32 (node_lines model ++ dumps_chars compact_separators (sort_keys (extra model))).

(** [model_revision]: the stored revision, computed once. *)
Definition model_revision (model : BuildResult) (stored : string) : string := if truthy stored then stored else compute_model_revision model.
End Digest.
End HttpCaching.
