(* ===== verification/HttpCachingSpec.v ===== *)
(** What conditional requests promise: tags tell the recorded revisions apart, a client that sends a tag back gets 304
    exactly as long as they stay, and no answer is cut otherwise; the revision of a model stands for its content. *)

From S2P Require Export HttpCaching Urls.

Module HttpCachingSpec.
Import HttpCaching Urls.

(** ** Lines under a digest *)

Definition lines (l : list (list ascii)) : list ascii := flat_map (fun x => x ++ [chr 10]) l.

Lemma lines_split l r : Forall (fun x => chr 10 ∉ x) l -> chr 10 ∉ r -> split_at (chr 10) (lines l ++ r) = l ++ [r].
Proof.
  intros Hl Hr. induction Hl as [|x l Hx Hl IH]; [by apply split_at_none|]. change (lines (x :: l)) with ((x ++ [chr 10]) ++ lines l).
  rewrite <-!app_assoc. cbn [app]. by rewrite split_at_app, IH.
Qed.

Lemma lines_inj l l' r r' :
  Forall (fun x => chr 10 ∉ x) l -> Forall (fun x => chr 10 ∉ x) l' -> chr 10 ∉ r -> chr 10 ∉ r' -> lines l ++ r = lines l' ++ r' -> l = l' /\ r = r'.
Proof.
  intros Hl Hl' Hr Hr' H. pose proof (lines_split l r Hl Hr) as H1. rewrite H, (lines_split l' r' Hl' Hr') in H1. by apply app_inj_tail in H1 as [-> ->].
Qed.

Lemma digest_text_lines values : digest_text values = lines (map repr_chars values).
Proof. unfold digest_text, lines. by rewrite flat_map_concat_map, (flat_map_concat_map _ (map _ _)), List.map_map. Qed.

Lemma repr_chars_injective v w : repr_chars v = repr_chars w -> v = w.
Proof. intros H. apply (repr_chars_inj v w [] []); [done|done|by rewrite H]. Qed.

Lemma digest_text_inj values values' : digest_text values = digest_text values' -> values = values'.
Proof.
  rewrite !digest_text_lines, <-(app_nil_r (lines (map repr_chars values))), <-(app_nil_r (lines (map repr_chars values'))). intros H.
  apply lines_inj in H as [H _].
  - revert values' H. induction values as [|v values IH]; intros [|w values'] H; try done. injection H as Hv H. by rewrite (repr_chars_injective v w Hv), (IH values' H).
  - apply List.Forall_map, Forall_true. intros v. apply repr_lines.
  - apply List.Forall_map, Forall_true. intros v. apply repr_lines.
  - by intros ?%elem_of_nil.
  - by intros ?%elem_of_nil.
Qed.

(** ** The order of revisions *)

Lemma pair_leb_total p q : pair_leb p q = true \/ pair_leb q p = true.
Proof.
  unfold pair_leb. destruct (decide (p.1 = q.1)) as [E|E].
  - rewrite !bool_decide_true by done. apply string_leb_total.
  - rewrite !bool_decide_false by congruence. apply string_leb_total.
Qed.

Lemma pair_leb_trans p q r : pair_leb p q = true -> pair_leb q r = true -> pair_leb p r = true.
Proof.
  unfold pair_leb. repeat case_bool_decide; try congruence; intros Hpq Hqr.
  - by eapply string_leb_trans.
  - exfalso. destruct p, q, r. cbn in *. subst. match goal with H : ?a <> ?b |- _ => apply H, string_leb_antisym; done end.
  - by eapply string_leb_trans.
Qed.

Lemma pair_leb_antisym p q : pair_leb p q = true -> pair_leb q p = true -> p = q.
Proof.
  unfold pair_leb. destruct p as [a b], q as [c d]. cbn. destruct (decide (a = c)) as [->|E].
  - rewrite !bool_decide_true by done. intros H1 H2. f_equal. by apply string_leb_antisym.
  - rewrite !bool_decide_false by congruence. intros H1 H2. destruct E. by apply string_leb_antisym.
Qed.

Lemma revisions_perm parts parts' :
  revisions parts = revisions parts' <-> List.filter is_revision (dict_items parts) ≡ₚ List.filter is_revision (dict_items parts').
Proof.
  unfold revisions. split.
  - intros H. by rewrite <-(py_sorted_perm pair_leb (List.filter is_revision (dict_items parts))), H, py_sorted_perm.
  - intros H. apply (StronglySorted_unique_strong (fun p q => pair_leb p q = true)).
    + intros p q _ _. apply pair_leb_antisym.
    + apply py_sorted_sorted; [apply pair_leb_total|intros ? ? ?; apply pair_leb_trans].
    + apply py_sorted_sorted; [apply pair_leb_total|intros ? ? ?; apply pair_leb_trans].
    + by rewrite !py_sorted_perm.
Qed.

Section Digest.
Context (sha256_hex : string -> string).

Definition is_hex (c : ascii) : bool := (is_digit c || between 97 102 (code c))%bool.

(** A digest is 64 hexadecimal digits. *)
Definition hex_digest : Prop := forall text, length (chars (sha256_hex text)) = 64%nat /\ forallb is_hex (chars (sha256_hex text)) = true.

(** The digests of these two texts, as far as they are used, do not collide. *)
Definition no_collision (text text' : list ascii) : Prop := hexdigest32 sha256_hex text = hexdigest32 sha256_hex text' -> text = text'.

Definition part_text (parts : Parts) : list ascii := digest_text (map pair_value (revisions parts)).

(** The request opted in, and something was recorded. *)
Definition tagged (parts : Parts) : bool := bool_decide (is_Some (representation_etag sha256_hex parts)).

Lemma etag_eq parts etag :
  representation_etag sha256_hex parts = Some etag -> etag = tag (hexdigest32 sha256_hex (part_text parts)).
Proof. unfold representation_etag, part_text. destruct (_ || _)%bool; [done|]. destruct (revisions parts); [done|]. by intros [= <-]. Qed.

Lemma tag_inj text text' : tag text = tag text' -> text = text'.
Proof.
  unfold tag. intros H%of_chars_inj. apply app_inv_head in H. injection H as H. apply app_inj_tail in H as [H _].
  by rewrite <-(of_chars_chars text), H, of_chars_chars.
Qed.

Lemma pair_values_inj l l' : map pair_value l = map pair_value l' -> l = l'.
Proof.
  revert l'. induction l as [|[a b] l IH]; intros [|[c d] l'] H; try done. injection H as -> -> H. by rewrite (IH l' H).
Qed.

(** Two tags are equal exactly if the same revisions were recorded. *)
Lemma etag_identifies parts parts' etag etag' :
  no_collision (part_text parts) (part_text parts') ->
  representation_etag sha256_hex parts = Some etag -> representation_etag sha256_hex parts' = Some etag' ->
  etag = etag' <-> revisions parts = revisions parts'.
Proof.
  intros Hn ->%etag_eq ->%etag_eq. split.
  - intros H%tag_inj%Hn%digest_text_inj. by apply pair_values_inj.
  - intros H. unfold part_text. by rewrite H.
Qed.

(** ** Comparison with the tag that was sent *)

Context (Hhex : hex_digest).

Lemma tag_chars text : chars (tag (hexdigest32 sha256_hex text)) = chars "W/" ++ quote :: take 32 (chars (sha256_hex (of_chars text))) ++ [quote].
Proof. unfold tag, hexdigest32. by rewrite !chars_of_chars. Qed.

Lemma digest_hex text c : c ∈ take 32 (chars (sha256_hex (of_chars text))) -> is_hex c = true.
Proof.
  intros Hc. destruct (Hhex (of_chars text)) as [_ H]. rewrite forallb_forall in H. apply H. apply list_elem_of_In.
  rewrite <-(take_drop 32). apply elem_of_app. by left.
Qed.

Lemma hex_digits_plain c : is_hex c = true -> is_space c = false /\ c <> ","%char /\ c <> "*"%char.
Proof. intros Hc. split_and!; [|intros -> ..]; [|by vm_compute in Hc..]. destruct c as [[] [] [] [] [] [] [] []]; (discriminate Hc || reflexivity). Qed.

Lemma tag_plain text c : c ∈ chars (tag (hexdigest32 sha256_hex text)) -> is_space c = false /\ c <> ","%char /\ c <> "*"%char.
Proof using Hhex.
  rewrite tag_chars. intros Hc. apply elem_of_app in Hc as [Hc|Hc].
  { repeat apply elem_of_cons in Hc as [-> |Hc]; [done..|]. by apply elem_of_nil in Hc. }
  apply elem_of_cons in Hc as [-> |Hc]; [done|]. apply elem_of_app in Hc as [Hc|Hc]; [by eapply hex_digits_plain, digest_hex|].
  by apply list_elem_of_singleton in Hc as ->.
Qed.

Lemma tag_matches text text' :
  etag_matches (Some (tag (hexdigest32 sha256_hex text))) (tag (hexdigest32 sha256_hex text')) =
  bool_decide (hexdigest32 sha256_hex text = hexdigest32 sha256_hex text').
Proof using Hhex.
  assert (Hstrip : forall t, strip (tag (hexdigest32 sha256_hex t)) = tag (hexdigest32 sha256_hex t)).
  { intros t. apply strip_none, Forall_forall. intros c Hc. by apply (tag_plain t). }
  unfold etag_matches. assert (Ht : truthy (tag (hexdigest32 sha256_hex text)) = true) by done. rewrite Ht, Hstrip.
  rewrite bool_decide_false by (intros H; apply (f_equal chars) in H; rewrite tag_chars in H; discriminate).
  unfold str_split. rewrite split_at_none by (intros Hc; by apply (tag_plain text) in Hc as (_ & Hc & _)).
  cbn [map existsb]. rewrite of_chars_chars, orb_false_r. unfold opaque_tag. rewrite !Hstrip.
  assert (Hw : forall t, startswith "W/" (tag t) = true) by done. rewrite !Hw.
  assert (Hd : forall t, chars (str_drop 2 (tag t)) = quote :: chars t ++ [quote]) by (intros t; unfold str_drop, tag; by rewrite !chars_of_chars).
  apply bool_decide_ext. split; [|by intros ->]. intros H. apply (f_equal chars) in H. rewrite !Hd in H. injection H as H.
  apply app_inj_tail in H as [H _]. by rewrite <-(of_chars_chars (hexdigest32 sha256_hex text)), H, of_chars_chars.
Qed.

(** ** Responses *)

Class HeaderLaws (H : Type) `{MutableHeaders H} := {
  header_get_lower : forall n m (h : H), lower n = lower m -> header_get n h = header_get m h;
  header_get_set_eq : forall n m v (h : H), lower n = lower m -> header_get n (header_set m v h) = Some v;
  header_get_set_ne : forall n m v (h : H), lower n <> lower m -> header_get n (header_set m v h) = header_get n h;
  header_get_del_eq : forall n m (h : H), lower n = lower m -> header_get n (header_del m h) = None;
  header_get_del_ne : forall n m (h : H), lower n <> lower m -> header_get n (header_del m h) = header_get n h;
}.

Context {H : Type} `{HeaderLaws H}.
Implicit Types (h : H).

Abbreviation respond := (respond sha256_hex).
Abbreviation middleware := (model_revision_middleware sha256_hex).
Abbreviation etag_of := (representation_etag sha256_hex).

(** What a handler recorded before it answered. *)
Definition recorded (records : list (string * string)) (parts : Parts) : Parts :=
  fold_left (fun parts r => default parts (record_revision r.1 r.2 (Some parts))) records parts.

Definition bodies (chunks : list string) (last : string) : list (Message (H := H)) :=
  map (fun chunk => ResponseBody chunk true) chunks ++ [ResponseBody last false].

(** An answer: the head, then the body in chunks, the last of which ends it. *)
Definition answer (records : list (string * string)) (status : Z) h (chunks : list string) (last : string) : list AppStep :=
  map (fun r => Record r.1 r.2) records ++ Send (ResponseStart status h) :: map Send (bodies chunks last).

Lemma respond_records rq records steps parts drop :
  respond rq (map (fun r => Record r.1 r.2) records ++ steps) parts drop = respond rq steps (recorded records parts) drop.
Proof. revert parts. induction records as [|r records IH]; intros parts; [done|]. cbn [map app HttpCaching.respond recorded fold_left]. apply IH. Qed.

Lemma respond_bodies rq chunks last parts drop :
  respond rq (map Send (bodies chunks last)) parts drop = if drop then [ResponseBody ε false] else bodies chunks last.
Proof. unfold bodies. induction chunks as [|chunk chunks IH]; destruct drop; cbn in *; by rewrite ?IH. Qed.

Lemma drop_header_get n m h : header_get n (drop_header h m) = if bool_decide (lower n = lower m) then None else header_get n h.
Proof using All.
  unfold drop_header. case_bool_decide as E.
  - destruct (header_get m h) eqn:Hm; [by apply header_get_del_eq|]. by rewrite (header_get_lower n m).
  - destruct (header_get m h); [by apply header_get_del_ne|done].
Qed.

Lemma drop_headers_get l n h :
  header_get n (fold_left drop_header l h) = if existsb (fun m => bool_decide (lower n = lower m)) l then None else header_get n h.
Proof using All.
  revert h. induction l as [|m l IH]; intros h; [done|]. cbn [fold_left existsb]. rewrite IH, drop_header_get.
  by destruct (bool_decide (lower n = lower m)), (existsb _ l).
Qed.

Lemma respond_answer rq records status h chunks last :
  exists h',
    let parts := recorded records ∅ in
    let etag := if is_read (rq_method rq) then etag_of parts else None in
    let matching := match etag with Some e => ((status =? 200) && etag_matches (rq_if_none_match rq) e)%bool | None => false end in
    let status' := if matching then 304 else status in
    respond rq (answer records status h chunks last) ∅ false =
      ResponseStart status' h' :: (if matching then [ResponseBody ε false] else bodies chunks last) /\
    (bool_decide (status ∈ [200; 304]) = true -> forall e, etag = Some e -> header_get "ETag" h' = Some e) /\
    (status' = 304 -> is_Some etag -> forall n, n ∈ BODY_HEADERS -> header_get n h' = None).
Proof using All.
  unfold answer. rewrite respond_records. cbn [HttpCaching.respond].
  set (parts := recorded records ∅). cbn zeta. unfold send_with_revision.
  set (h0 := match parts !! MODEL_PART with Some revision => if truthy revision then _ else h | None => h end).
  destruct (if is_read (rq_method rq) then etag_of parts else None) as [e|] eqn:He.
  2: { rewrite respond_bodies. exists h0. split_and!; [done|done|]. by intros _ [? ?]. }
  destruct (bool_decide (status ∈ [200; 304])) eqn:Hs.
  2: { rewrite respond_bodies. exists h0. assert ((status =? 200) = false) as ->.
    { apply Z.eqb_neq. intros ->. by vm_compute in Hs. }
    cbn [andb]. split_and!; [done|done|]. intros ->. by vm_compute in Hs. }
  cbn [orb]. set (matching := ((status =? 200) && etag_matches (rq_if_none_match rq) e)%bool). rewrite respond_bodies.
  set (h1 := header_set "Cache-Control" "no-cache" (header_set "ETag" e h0)). assert (Hetag : header_get "ETag" h1 = Some e).
  { unfold h1. rewrite header_get_set_ne by done. by apply header_get_set_eq. }
  eexists. split; [reflexivity|]. split.
  - intros _ e' [= <-]. destruct (_ =? 304); [|done]. by rewrite drop_headers_get.
  - intros -> _ n Hn. cbn [Z.eqb Pos.eqb]. rewrite drop_headers_get. assert (existsb (fun m => bool_decide (lower n = lower m)) BODY_HEADERS = true) as ->; [|done].
    apply existsb_exists. exists n. split; [by apply list_elem_of_In|by apply bool_decide_eq_true].
Qed.

(** The handler raises the short cut exactly when the middleware would cut its answer. *)
Lemma short_cut_agrees rq records h chunks last :
  exists status h' rest, respond rq (answer records 200 h chunks last) ∅ false = ResponseStart status h' :: rest /\
    (not_modified sha256_hex (rq_method rq) (rq_if_none_match rq) (Some (recorded records ∅)) = true <-> status = 304).
Proof using All.
  destruct (respond_answer rq records 200 h chunks last) as (h' & Hsent & _). eexists _, h', _. split; [exact Hsent|]. unfold not_modified.
  destruct (is_read (rq_method rq)); [|done]. destruct (etag_of (recorded records ∅)) as [e|]; [|done]. cbn. by destruct (etag_matches _ e).
Qed.

(** The request that brings a tag back. *)
Definition same_revisions (parts parts' : Parts) : bool := (tagged parts' && bool_decide (revisions parts = revisions parts'))%bool.

(** C33. A first answer with a tag comes complete, with that tag. A later request for the resource that brings the tag back
    gets 304, without a body or headers of one, exactly if the handler recorded the same revisions again; otherwise it gets
    the complete answer, chunk by chunk. So long as the two digests do not collide. *)
Theorem revalidation_exact first later records1 h1 chunks1 last1 records2 h2 chunks2 last2 etag :
  rq_type first = "http" -> rq_type later = "http" -> is_read (rq_method first) = true -> is_read (rq_method later) = true ->
  rq_if_none_match first = None -> rq_if_none_match later = Some etag ->
  no_collision (part_text (recorded records1 ∅)) (part_text (recorded records2 ∅)) ->
  representation_etag sha256_hex (recorded records1 ∅) = Some etag ->
  exists h1' h2',
    middleware first (answer records1 200 h1 chunks1 last1) = ResponseStart 200 h1' :: bodies chunks1 last1 /\
    header_get "ETag" h1' = Some etag /\
    middleware later (answer records2 200 h2 chunks2 last2) =
      (if same_revisions (recorded records1 ∅) (recorded records2 ∅) then [ResponseStart 304 h2'; ResponseBody ε false]
       else ResponseStart 200 h2' :: bodies chunks2 last2) /\
    (same_revisions (recorded records1 ∅) (recorded records2 ∅) = true ->
     header_get "ETag" h2' = Some etag /\ forall n, n ∈ BODY_HEADERS -> header_get n h2' = None).
Proof using All.
  intros Hf Hl Hrf Hrl Hnf Hnl Hcol Hetag. unfold middleware. rewrite !bool_decide_true by done.
  destruct (respond_answer first records1 200 h1 chunks1 last1) as (h1' & Hs1 & Ht1 & _). rewrite Hrf, Hnf, Hetag in *.
  destruct (respond_answer later records2 200 h2 chunks2 last2) as (h2' & Hs2 & Ht2 & Hb2). rewrite Hrl, Hnl in *.
  exists h1', h2'. split; [exact Hs1|]. split; [by apply Ht1|]. rewrite Hs2. unfold same_revisions, tagged in *.
  destruct (etag_of (recorded records2 ∅)) as [etag2|] eqn:Hetag2; [|by rewrite bool_decide_false by (by intros [? ?])].
  rewrite bool_decide_true by done. cbn [andb] in *.
  assert (Hm : etag_matches (Some etag) etag2 = bool_decide (revisions (recorded records1 ∅) = revisions (recorded records2 ∅))).
  { rewrite (etag_eq _ _ Hetag), (etag_eq _ _ Hetag2), tag_matches. apply bool_decide_ext.
    rewrite <-(etag_identifies _ _ etag etag2) by done. rewrite (etag_eq _ _ Hetag), (etag_eq _ _ Hetag2). split; [by intros ->|apply tag_inj]. }
  rewrite Hm in *. cbn [Z.eqb Pos.eqb andb] in *. case_bool_decide as Hrev; [|done]. split; [done|]. intros _. split.
  - rewrite (Ht2 eq_refl etag2) by done. f_equal. symmetry. by apply (etag_identifies (recorded records1 ∅) (recorded records2 ∅)).
  - by apply Hb2.
Qed.
End Digest.

(** ** A conditional request *)

Definition hex_pair (c : ascii) : list ascii := [digit_char (code c / 16); digit_char (code c mod 16)].

Lemma hex_pair_hex c : forallb is_hex (hex_pair c) = true.
Proof. destruct c as [[] [] [] [] [] [] [] []]; reflexivity. Qed.

(** A digest for examples: the first 32 characters of the text. *)
Definition sample_hex (text : string) : string := of_chars (take 64 (flat_map hex_pair (chars text) ++ replicate 64 "0"%char)).

Lemma sample_hex_digest : hex_digest sample_hex.
Proof.
  intros text. unfold sample_hex. rewrite chars_of_chars. split; [rewrite length_take, length_app, length_replicate; lia|].
  apply forallb_forall. intros c Hc%list_elem_of_In. assert (Hin : c ∈ flat_map hex_pair (chars text) ++ replicate 64 "0"%char).
  { rewrite <-(take_drop 64). apply elem_of_app. by left. }
  apply elem_of_app in Hin as [Hin|Hin]; [|by apply elem_of_replicate in Hin as [-> _]].
  apply list_elem_of_In, in_flat_map in Hin as (d & _ & Hin). pose proof (hex_pair_hex d) as Hd. rewrite forallb_forall in Hd. by apply Hd.
Qed.

(** Headers for examples: names with values, compared in lower case. *)
Definition same_name (n : string) (p : string * string) : bool := bool_decide (lower n = lower p.1).

#[export] Instance list_headers : MutableHeaders (list (string * string)) := {
  header_get n h := snd <$> find (same_name n) h;
  header_set n v h := (n, v) :: List.filter (fun p => negb (same_name n p)) h;
  header_del n h := List.filter (fun p => negb (same_name n p)) h;
}.

Lemma find_filter n m (h : list (string * string)) :
  find (same_name n) (List.filter (fun p => negb (same_name m p)) h) = if bool_decide (lower n = lower m) then None else find (same_name n) h.
Proof.
  induction h as [|p h IH]; cbn; [by case_bool_decide|]. unfold same_name in *. destruct (bool_decide (lower m = lower p.1)) eqn:E1; cbn; rewrite IH.
  - apply bool_decide_eq_true in E1. case_bool_decide as E2; [done|]. by rewrite bool_decide_false by congruence.
  - apply bool_decide_eq_false in E1. destruct (bool_decide (lower n = lower p.1)) eqn:E2; [|by case_bool_decide].
    apply bool_decide_eq_true in E2. by rewrite bool_decide_false by congruence.
Qed.

#[export] Instance list_header_laws : HeaderLaws (list (string * string)).
Proof.
  split; cbn; intros.
  - unfold same_name. by rewrite H.
  - unfold same_name at 1. cbn. by rewrite bool_decide_true.
  - unfold same_name at 1. cbn. rewrite bool_decide_false by done. by rewrite find_filter, bool_decide_false.
  - by rewrite find_filter, bool_decide_true.
  - by rewrite find_filter, bool_decide_false.
Qed.

Definition sample_headers : list (string * string) := [("content-type", "application/json"); ("content-length", "2")].

Definition sample_request (if_none_match : option string) : Request :=
  {| rq_type := "http"; rq_method := "GET"; rq_if_none_match := if_none_match |}.

Definition sample_answer (revision : string) : list (AppStep (H := list (string * string))) :=
  answer [(ETAG_ENABLED, "1"); (MODEL_PART, revision)] 200 sample_headers ["{"] "}".

Definition sample_tag (revision : string) : string :=
  default ε (representation_etag sample_hex (recorded [(ETAG_ENABLED, "1"); (MODEL_PART, revision)] ∅)).

Example conditional_requests :
  let send := model_revision_middleware sample_hex in
  send (sample_request None) (sample_answer "a") =
    [ResponseStart 200 [("Cache-Control", "no-cache"); ("ETag", sample_tag "a"); (MODEL_REVISION_HEADER, "a"); ("content-type", "application/json"); ("content-length", "2")];
     ResponseBody "{" true; ResponseBody "}" false] /\
  send (sample_request (Some (sample_tag "a"))) (sample_answer "a") =
    [ResponseStart 304 [("Cache-Control", "no-cache"); ("ETag", sample_tag "a"); (MODEL_REVISION_HEADER, "a")]; ResponseBody ε false] /\
  length (send (sample_request (Some (sample_tag "a"))) (sample_answer "b")) = 3%nat.
Proof. vm_compute. auto. Qed.

Lemma revalidation_exact_witness :
  let records := [(ETAG_ENABLED, "1"); (MODEL_PART, "a")] in let records' := [(NAMESPACES_PART, ε); (MODEL_PART, "a"); (ETAG_ENABLED, "1")] in
  hex_digest sample_hex /\ representation_etag sample_hex (recorded records ∅) = Some (sample_tag "a") /\
  exists h1' h2',
    model_revision_middleware sample_hex (sample_request None) (answer records 200 sample_headers ["{"] "}") = ResponseStart 200 h1' :: bodies ["{"] "}" /\
    header_get "ETag" h1' = Some (sample_tag "a") /\
    model_revision_middleware sample_hex (sample_request (Some (sample_tag "a"))) (answer records' 200 sample_headers [] "{}") =
      (if same_revisions sample_hex (recorded records ∅) (recorded records' ∅) then [ResponseStart 304 h2'; ResponseBody ε false]
       else ResponseStart 200 h2' :: bodies [] "{}") /\
    (same_revisions sample_hex (recorded records ∅) (recorded records' ∅) = true ->
     header_get "ETag" h2' = Some (sample_tag "a") /\ forall n, n ∈ BODY_HEADERS -> header_get n h2' = None).
Proof.
  split; [apply sample_hex_digest|]. split; [by vm_compute|].
  apply (revalidation_exact sample_hex sample_hex_digest (sample_request None) (sample_request (Some (sample_tag "a"))) _ sample_headers ["{"] "}" _ sample_headers [] "{}");
    done.
Defined.

(** ** The revision of a model *)

Lemma escape_lines c : chr 10 ∉ escape_char c.
Proof. apply (bool_decide_unpack _). destruct c as [[] [] [] [] [] [] [] []]; vm_compute; exact I. Qed.

Lemma token_lines l : forallb token_char l = true -> chr 10 ∉ l.
Proof. intros Hl H. rewrite forallb_forall in Hl. specialize (Hl _ (proj1 (list_elem_of_In _ _) H)). by vm_compute in Hl. Qed.

Lemma string_lines s : chr 10 ∉ string_text s.
Proof.
  unfold string_text. rewrite elem_of_cons, elem_of_app, list_elem_of_singleton. intros [H|[H|H]]; [done| |done].
  apply list_elem_of_In, in_flat_map in H as (c & _ & H). by apply list_elem_of_In, escape_lines in H.
Qed.

Lemma flat_lines {A} (f : A -> list ascii) l : Forall (fun x => chr 10 ∉ f x) l -> chr 10 ∉ flat_map f l.
Proof. intros Hl H. apply list_elem_of_In, in_flat_map in H as (x & Hx & H). rewrite Forall_forall in Hl. eapply Hl; by apply list_elem_of_In. Qed.

(** The text of a JSON value is one line. *)
Lemma dumps_lines v : json_ok v = true -> chr 10 ∉ dumps_chars compact_separators v.
Proof.
  assert (Hconst : forall l : list ascii, bool_decide (chr 10 ∉ l) = true -> chr 10 ∉ l) by (intros l Hl; by apply bool_decide_eq_true in Hl).
  induction v as [|[]|z|t|s|l IH|l IH] using json_rect'; intros Hok; cbn [dumps_chars json_ok] in *; try (by apply Hconst).
  - apply token_lines, int_text_token.
  - apply token_lines. by apply andb_true_iff in Hok as [[? _]%andb_true_iff _].
  - apply string_lines.
  - destruct l as [|x l]; [by apply Hconst|]. cbn [forallb] in Hok. apply andb_true_iff in Hok as [Hx Hl]. apply Forall_cons in IH as [IHx IHl].
    rewrite elem_of_cons, !elem_of_app, list_elem_of_singleton. intros [H|[H|[H|H]]]; [done|by apply IHx| |done]. revert H. apply flat_lines.
    rewrite Forall_forall in *. rewrite forallb_forall in Hl. intros y Hy. rewrite elem_of_app. intros [H|H]; [revert H; by apply Hconst|].
    revert H. apply IHl; [done|]. by apply Hl, list_elem_of_In.
  - destruct l as [|x l]; [by apply Hconst|]. cbn [forallb] in Hok. apply andb_true_iff in Hok as [Hx Hl]. apply Forall_cons in IH as [IHx IHl].
    rewrite elem_of_cons, !elem_of_app, list_elem_of_singleton. intros [H|[H|[H|[H|[H|H]]]]]; [done|by apply string_lines in H|revert H; by apply Hconst|by apply IHx| |done].
    revert H. apply flat_lines. rewrite Forall_forall in *. rewrite forallb_forall in Hl. intros y Hy. rewrite !elem_of_app.
    intros [H|[H|[H|H]]]; [revert H; by apply Hconst|by apply string_lines in H|revert H; by apply Hconst|]. revert H. apply IHl; [done|]. by apply Hl, list_elem_of_In.
Qed.

Lemma extra_ok model : json_ok (extra model) = true.
Proof.
  assert (Hnames : forall d, forallb (fun p => json_ok p.2) (map (fun p : string * string => (p.1, JStr p.2)) (dict_items d)) = true) by (intros d; by apply forallb_forall; intros q (p & <- & _)%in_map_iff).
  assert (Hstrs : forall l, forallb json_ok (map JStr l) = true) by (intros l; by apply forallb_forall; intros q (p & <- & _)%in_map_iff).
  unfold extra, names_json. cbn [json_ok forallb snd]. rewrite !Hnames, !Hstrs. rewrite !andb_true_l, ?andb_true_r.
  apply forallb_forall. by intros q (p & <- & _)%in_map_iff.
Qed.

Section Revision.
Context (sha256_hex : string -> string) (model_dump_json : ModelNode -> string).

Definition sorted_nodes (model : BuildResult) : list ModelNode :=
  omap (fun id => nodes_by_id model !! id) (py_sorted string_leb (dict_keys (nodes_by_id model))).

Lemma node_lines_eq model : node_lines model_dump_json model = lines (map (fun n => chars (model_dump_json n)) (sorted_nodes model)).
Proof.
  unfold node_lines, sorted_nodes. induction (py_sorted string_leb (dict_keys (nodes_by_id model))) as [|id l IH]; [done|].
  cbn [flat_map omap list_omap]. rewrite IH. by destruct (nodes_by_id model !! id).
Qed.

Lemma elem_of_sorted_nodes model n : model_nodes_ok model -> n ∈ sorted_nodes model <-> nodes_by_id model !! n_id n = Some n.
Proof.
  intros [_ Hid]. unfold sorted_nodes. rewrite list_elem_of_omap. split.
  - intros (id & _ & Hn). by rewrite (Hid id n Hn).
  - intros Hn. exists (n_id n). split; [|done]. rewrite elem_of_py_sorted. apply elem_of_dict_keys. by exists n.
Qed.

Lemma sorted_nodes_eq m m' : model_nodes_ok m -> model_nodes_ok m' -> sorted_nodes m = sorted_nodes m' <-> nodes_by_id m ≡ nodes_by_id m'.
Proof.
  intros Hm Hm'. split.
  - intros H. assert (Hin : forall n, nodes_by_id m !! n_id n = Some n <-> nodes_by_id m' !! n_id n = Some n) by (intros n; by rewrite <-!elem_of_sorted_nodes, H).
    intros id. destruct (nodes_by_id m !! id) as [n|] eqn:E.
    + pose proof (proj2 Hm id n E) as <-. symmetry. by apply Hin.
    + destruct (nodes_by_id m' !! id) as [n|] eqn:E'; [|done]. pose proof (proj2 Hm' id n E') as <-. apply Hin in E'. congruence.
  - intros H. assert (Hk : py_sorted string_leb (dict_keys (nodes_by_id m)) = py_sorted string_leb (dict_keys (nodes_by_id m'))).
    { apply (StronglySorted_unique_strong (fun a b => string_leb a b = true)); [intros ? ? _ _; apply string_leb_antisym|..].
      - apply py_sorted_sorted; [apply string_leb_total|intros ? ? ?; apply string_leb_trans].
      - apply py_sorted_sorted; [apply string_leb_total|intros ? ? ?; apply string_leb_trans].
      - rewrite !py_sorted_perm. apply NoDup_Permutation; [apply Hm|apply Hm'|]. intros id. rewrite !elem_of_dict_keys. by rewrite (H id). }
    unfold sorted_nodes. rewrite Hk. apply omap_ext_in. intros id _. apply H.
Qed.

(** *** What is not in the nodes *)
Lemma map_perm_inj {A B} (f : A -> B) (l l' : list A) : Inj (=) (=) f -> map f l ≡ₚ map f l' -> l ≡ₚ l'.
Proof. intros Hf (l'' & E & Hp)%Permutation_map_inv. assert (l = l'') as -> by (eapply list_fmap_eq_inj; [exact Hf|exact E]). by symmetry. Qed.

Lemma dict_json_equiv {V} (f : V -> json) (d d' : dict string V) :
  (forall v w, f v ≡ f w -> v = w) -> dict_wf d -> dict_wf d' ->
  JObj (map (fun p => (p.1, f p.2)) (dict_items d)) ≡ JObj (map (fun p => (p.1, f p.2)) (dict_items d')) <-> d ≡ d'.
Proof.
  intros Hf Hd Hd'. rewrite (dict_equiv_items d d') by done. split.
  - unfold equiv at 1, json_equiv. cbn [sort_keys]. intros [= H]. eapply map_perm_inj with (f := fun p => (p.1, sort_keys (f p.2))).
    { intros [k v] [k' v'] [= -> E]. f_equal. by apply Hf. }
    rewrite !List.map_map in H. cbn in H. rewrite <-(py_sorted_perm key_leb (map _ (dict_items d))), H. apply py_sorted_perm.
  - intros H. apply JObj_perm; [|by rewrite H]. rewrite <-list_fmap_compose. exact Hd.
Qed.

(** The parts of a model whose keys are told apart. *)
Record names_wf (m : BuildResult) : Prop := {
  nw_methods : dict_wf (action_to_method m);
  nw_names : dict_wf (node_id_by_name m);
  nw_types : dict_wf (node_id_by_type m);
  nw_namespaces : dict_wf (graph_relationship_namespace_by_id m);
  nw_display_names : dict_wf (graph_relationship_display_name_by_id m);
}.

(** The same content: a lookup in one model answers what it answers in the other. *)
Record same_content (m m' : BuildResult) : Prop := {
  sc_nodes : nodes_by_id m ≡ nodes_by_id m';
  sc_roots : root_ids m = root_ids m';
  sc_methods : action_to_method m ≡ action_to_method m';
  sc_names : node_id_by_name m ≡ node_id_by_name m';
  sc_types : node_id_by_type m ≡ node_id_by_type m';
  sc_relationships : graph_relationship_names m = graph_relationship_names m';
  sc_namespaces : graph_relationship_namespace_by_id m ≡ graph_relationship_namespace_by_id m';
  sc_display_names : graph_relationship_display_name_by_id m ≡ graph_relationship_display_name_by_id m';
}.

Lemma sorted_elements (s s' : gset string) : py_sorted string_leb (elements s) = py_sorted string_leb (elements s') <-> s = s'.
Proof. split; [|by intros ->]. intros H. apply set_eq. intros x. rewrite <-(elem_of_elements s), <-(elem_of_elements s'), <-(elem_of_py_sorted string_leb), H. by rewrite (elem_of_py_sorted string_leb). Qed.

Lemma strings_json (l l' : list string) : JArr (map JStr l) ≡ JArr (map JStr l') <-> l = l'.
Proof.
  split; [|by intros ->]. unfold equiv, json_equiv. cbn [sort_keys]. intros [= H]. revert l' H.
  induction l as [|x l IH]; intros [|y l']; try done. cbn. intros [= -> H]. f_equal. by apply IH.
Qed.

Lemma extra_equiv m m' : names_wf m -> names_wf m' ->
  extra m ≡ extra m' <->
  root_ids m = root_ids m' /\ action_to_method m ≡ action_to_method m' /\ node_id_by_name m ≡ node_id_by_name m' /\
  node_id_by_type m ≡ node_id_by_type m' /\ graph_relationship_names m = graph_relationship_names m' /\
  graph_relationship_namespace_by_id m ≡ graph_relationship_namespace_by_id m' /\
  graph_relationship_display_name_by_id m ≡ graph_relationship_display_name_by_id m'.
Proof.
  intros Hm Hm'. assert (Hnames : forall d d' : dict string string, dict_wf d -> dict_wf d' -> names_json d ≡ names_json d' <-> d ≡ d').
  { intros d d' Hd Hd'. apply (dict_json_equiv JStr); [|done..]. by intros v w [= ->]. }
  assert (Hmeth : JObj (map (fun p => (p.1, JArr [JStr p.2.1; JStr p.2.2])) (dict_items (action_to_method m))) ≡
    JObj (map (fun p => (p.1, JArr [JStr p.2.1; JStr p.2.2])) (dict_items (action_to_method m'))) <-> action_to_method m ≡ action_to_method m').
  { apply (dict_json_equiv (fun v => JArr [JStr v.1; JStr v.2])); [by intros [v1 v2] [w1 w2] [= -> ->]|apply Hm|apply Hm']. }
  rewrite <-(Hnames (node_id_by_name m)), <-(Hnames (node_id_by_type m)), <-(Hnames (graph_relationship_namespace_by_id m)),
    <-(Hnames (graph_relationship_display_name_by_id m)), <-Hmeth, <-(strings_json (root_ids m)), <-(sorted_elements (graph_relationship_names m)),
    <-(strings_json (py_sorted _ _)) by (apply Hm || apply Hm').
  unfold extra. split.
  - intros H. match type of H with _ ≡ JObj ?l => assert (Hkeys : NoDup (l.*1)) by (apply (bool_decide_unpack _); by vm_compute) end.
    pose proof (fun k v w => JObj_values _ _ k v w H Hkeys) as Hat.
    split_and!; [apply (Hat "root_ids")|apply (Hat "action_to_method")|apply (Hat "node_id_by_name")|apply (Hat "node_id_by_type")
      |apply (Hat "graph_relationship_names")|apply (Hat "graph_relationship_namespace_by_id")|apply (Hat "graph_relationship_display_name_by_id")];
      repeat (apply list_elem_of_here || apply list_elem_of_further).
  - intros (H1 & H2 & H3 & H4 & H5 & H6 & H7). apply JObj_proper. by repeat constructor.
Qed.

Lemma same_content_extra m m' : names_wf m -> names_wf m' -> same_content m m' <-> nodes_by_id m ≡ nodes_by_id m' /\ extra m ≡ extra m'.
Proof.
  intros Hw Hw'. rewrite (extra_equiv m m') by done. split.
  - intros []. by split_and!.
  - intros (? & ? & ? & ? & ? & ? & ? & ?). by split.
Qed.

(** The texts of these nodes are single lines that tell them apart. *)
Record dump_faithful (l : list ModelNode) : Prop := {
  df_line : forall n, n ∈ l -> chr 10 ∉ chars (model_dump_json n);
  df_inj : forall n n', n ∈ l -> n' ∈ l -> model_dump_json n = model_dump_json n' -> n = n';
}.

Lemma dump_lists_inj all l l' :
  dump_faithful all -> (forall n, n ∈ l -> n ∈ all) -> (forall n, n ∈ l' -> n ∈ all) ->
  map (fun n => chars (model_dump_json n)) l = map (fun n => chars (model_dump_json n)) l' -> l = l'.
Proof.
  intros Hdump. revert l'. induction l as [|n l IH]; intros [|n' l'] Hl Hl' H; try done. injection H as Hn H. f_equal.
  - apply (df_inj all Hdump); [apply Hl; by left|apply Hl'; by left|]. by rewrite <-(of_chars_chars (model_dump_json n)), Hn, of_chars_chars.
  - apply IH; [intros m Hm; apply Hl; by right|intros m Hm; apply Hl'; by right|done].
Qed.

(** C34. Two models have the same revision exactly if they have the same content: the same nodes, names, types, methods and
    relationships in whatever order, and the same list of roots. A rebuild that changes nothing keeps the revision, and every change of the
    content gives a new one, so long as the two digests do not collide. *)
Theorem model_revision_exact m m' :
  dump_faithful (sorted_nodes m ++ sorted_nodes m') -> model_nodes_ok m -> model_nodes_ok m' -> names_wf m -> names_wf m' ->
  no_collision sha256_hex (node_lines model_dump_json m ++ dumps_chars compact_separators (sort_keys (extra m)))
    (node_lines model_dump_json m' ++ dumps_chars compact_separators (sort_keys (extra m'))) ->
  compute_model_revision sha256_hex model_dump_json m = compute_model_revision sha256_hex model_dump_json m' <-> same_content m m'.
Proof.
  intros Hdump Hm Hm' Hw Hw' Hcol. rewrite same_content_extra, <-sorted_nodes_eq by done. unfold compute_model_revision. split.
  - intros H%Hcol. rewrite !node_lines_eq in H.
    assert (Hline : forall l, (forall n, n ∈ l -> n ∈ sorted_nodes m ++ sorted_nodes m') -> Forall (fun x => chr 10 ∉ x) (map (fun n => chars (model_dump_json n)) l)).
    { intros l Hl. apply List.Forall_map, Forall_forall. intros n Hn. by eapply df_line, Hl. }
    assert (Hl : forall n, n ∈ sorted_nodes m -> n ∈ sorted_nodes m ++ sorted_nodes m') by (intros n Hn; apply elem_of_app; by left).
    assert (Hl' : forall n, n ∈ sorted_nodes m' -> n ∈ sorted_nodes m ++ sorted_nodes m') by (intros n Hn; apply elem_of_app; by right).
    apply lines_inj in H as [Hn Hx]; [|by apply Hline..|apply dumps_lines; rewrite json_ok_sort; apply extra_ok|apply dumps_lines; rewrite json_ok_sort; apply extra_ok].
    split.
    + by eapply dump_lists_inj.
    + apply (dumps_sorted compact_separators); [apply compact_separators_ok|apply extra_ok..|]. unfold dumps. by rewrite Hx.
  - intros [Hn Hx]. rewrite !node_lines_eq, Hn. do 2 f_equal. exact (f_equal (dumps_chars compact_separators) Hx).
Qed.
End Revision.

Definition sample_dump (n : ModelNode) : string := n_id n +:+ "|" +:+ n_name n.

(** Two builds of one model, in different orders. *)
Definition sample_model (ids : list string) : BuildResult :=
  small_model (map (fun id => simple_node id (id +:+ "Name") asset ("ns=1;s=" +:+ id)) ids) ["a"] [("a", ["b"])].

Lemma model_revision_exact_witness :
  let m := sample_model ["a"; "b"; "c"] in let m' := sample_model ["c"; "a"; "b"] in
  (dump_faithful sample_dump (sorted_nodes m ++ sorted_nodes m') /\ model_nodes_ok m /\ model_nodes_ok m' /\ names_wf m /\ names_wf m') /\
  compute_model_revision sample_hex sample_dump m = compute_model_revision sample_hex sample_dump m' /\
  (compute_model_revision sample_hex sample_dump m = compute_model_revision sample_hex sample_dump m' <-> same_content m m').
Proof.
  assert (Hd : dump_faithful sample_dump (sorted_nodes (sample_model ["a"; "b"; "c"]) ++ sorted_nodes (sample_model ["c"; "a"; "b"]))).
  { split; [apply Forall_forall; apply (bool_decide_unpack _); by vm_compute|].
    intros n n' Hn Hn' H. repeat (apply elem_of_cons in Hn as [->|Hn]); try by apply elem_of_nil in Hn.
    all: repeat (apply elem_of_cons in Hn' as [->|Hn']); try by apply elem_of_nil in Hn'. all: first [reflexivity|by vm_compute in H]. }
  assert (Hm : model_nodes_ok (sample_model ["a"; "b"; "c"])) by (apply model_nodes_ok_check; by vm_compute).
  assert (Hm' : model_nodes_ok (sample_model ["c"; "a"; "b"])) by (apply model_nodes_ok_check; by vm_compute).
  assert (Hw : forall ids, names_wf (sample_model ids)) by (intros ids; split; constructor).
  split; [by split_and!|]. split; [by vm_compute|]. apply (model_revision_exact sample_hex sample_dump _ _ Hd Hm Hm' (Hw _) (Hw _)). intros _. by vm_compute.
Defined.

(** A rebuild may be given a new node. *)
Example model_revision_changes :
  compute_model_revision sample_hex sample_dump (sample_model ["a"; "b"]) <> compute_model_revision sample_hex sample_dump (sample_model ["a"; "c"]).
Proof. by vm_compute. Qed.
End HttpCachingSpec.
