(* ===== verification/PyClasses.v ===== *)
(** The classes that describe structures and enumerations to [schemas/objecttype_schema.py], and what the code asks of them.

    asyncua makes these classes, also from the definitions that a server sends at run_job time; the code reads their names,
    annotations and fields by reflection. A [Universe] is what it can see of them: the classes by an id, the attributes of
    [asyncua.ua] and of modules, the registries of extension objects, the names of standard ids, and what [eval] makes of a
    generated annotation. *)

From S2P Require Export UaValues.
Local Open Scope string_scope.
Local Open Scope list_scope.

Module PyClasses.
Export ObjectTypes.

Abbreviation class_id := string.

(** What a type annotation is to [get_origin], [get_args] and [isinstance]. *)
Inductive annotation :=
  | AnnText (s : string)
  | AnnForward (s : string)
  | AnnSequence (item : option annotation)
  | AnnGeneric (args : list (option annotation))  (* [None]: [type(None)] *)
  | AnnClass (c : class_id)
  | AnnOther.

(** What a field is given as metadata or default: a text, a class, or another object with its [__name__] and its class. *)
Inductive hint :=
  | HintText (s : string)
  | HintClass (c : class_id)
  | HintObject (name : option string) (cls : class_id).

Record Field := {
  fl_name : string;
  fl_type : annotation;
  fl_metadata : list hint;
  fl_default : option hint;
  fl_default_factory : option (hint * option ua_value);  (* with what a call produces *)
}.

Inductive base := base_str | base_bool | base_int | base_float | base_object.

#[export] Instance base_eq_dec : EqDecision base.
Proof. solve_decision. Defined.

(** [pc_fields]: of a dataclass; [pc_members]: of an enumeration, with the values that are integers and not booleans;
    [pc_ua_types]: the pairs of strings in the attribute of that name. *)
Record PyClass := {
  pc_name : string;
  pc_module : string;
  pc_base : base;
  pc_members : option (list (string * option Z));
  pc_fields : option (list Field);
  pc_annotations : list (string * annotation);
  pc_is_argument : bool;
  pc_ua_types : list (string * string);
  pc_doc : string;
}.

(** [un_registry]: the registries of extension objects one after the other, with their keys as texts; an entry that is no class
    has none. [un_structures]: the attributes of the loaded structure modules. [un_module_types]: the classes that a module
    has, by name in the order of [dir]. [un_class_of]: the class of the values with that name. [un_extension_dataclass]: whether
    extension objects are dataclasses. [un_node_text]: [to_string()] or [str()] of a value that is no string. *)
Record Universe := {
  un_classes : dict class_id PyClass;
  un_ua : string -> option class_id;
  un_registry : list (string * option class_id);
  un_structures : list (string * option class_id);
  un_import : string -> option (list (string * class_id));
  un_module_types : string -> list class_id;
  un_object_id_names : Z -> option string;
  un_class_of : string -> class_id;
  un_node_text : ua_value -> string;
  un_extension_dataclass : bool;
  un_eval : class_id -> string -> option class_id -> option annotation;
}.

(** ** Texts *)

(** [s.split(c)[-1]]. *)
Definition last_part (c : ascii) (s : string) : string := of_chars (after_last c (chars s)).

Definition endswith (suffix s : string) : bool := starts_with (reverse (chars suffix)) (reverse (chars s)).

(** [s[: -n]]. *)
Definition str_drop_end (n : nat) (s : string) : string := of_chars (take (length (chars s) - n) (chars s)).

Definition apostrophes : list ascii := ["'"%char; chr 34].

(** [re.match(r"^(?:ns=0;|nsu=http://opcfoundation.org/UA/;)i=(\d+)$", s, flags=re.IGNORECASE)], with the prefixes as given. A
    dot of the pattern stands for any character; [$] also matches before a newline at the end. *)
Definition any_dot (p c : ascii) : bool := (ceqb p "."%char && negb (ceqb c (chr 10)) || ceqb (lower_char p) (lower_char c))%bool.

Fixpoint match_prefix (p l : list ascii) : option (list ascii) :=
  match p, l with
  | [], _ => Some l
  | a :: p', c :: l' => if any_dot a c then match_prefix p' l' else None
  | _ :: _, [] => None
  end.

Definition digits_to_end (newline_ok : bool) (l : list ascii) : option Z :=
  let digits := take_while is_digit l in
  match digits with
  | [] => None
  | _ => match drop (length digits) l with
         | [] => Some (digits_value digits)
         | [c] => if (newline_ok && ceqb c (chr 10))%bool then Some (digits_value digits) else None
         | _ => None
         end
  end.

Definition numeric_id (prefixes : list string) (newline_ok : bool) (s : string) : option Z :=
  head (omap (fun p => match_prefix (chars p ++ chars "i=") (chars s) ≫= digits_to_end newline_ok) prefixes).

Definition ua_prefixes : list string := ["ns=0;"; "nsu=http://opcfoundation.org/UA/;"].

(** ** Names of classes *)

Section Universe.
Context (u : Universe).

Definition node_id_to_string (v : ua_value) : option string :=
  match v with UNone => None | UStr s => Some s | v => Some (un_node_text u v) end.

Definition ua_object_id_name (identifier : Z) : option string :=
  match un_object_id_names u identifier with Some name => if truthy name then Some name else None | None => None end.

Definition class_of (c : class_id) : option PyClass := un_classes u !! c.

Definition class_name (c : class_id) : string := match class_of c with Some k => pc_name k | None => ε end.

(** The spellings of a name that are tried. *)
Definition type_name_candidates (type_name : string) : list string :=
  let first := strip (strip_chars ["'"%char] type_name) in
  first :: (if str_in "." first then [last_part "."%char first] else []) ++ (if startswith "ua." (lower first) then [str_drop 3 first] else []).

(** [_resolve_structure_type_by_name]. *)
Definition resolve_structure_type_by_name (type_name : string) : option class_id :=
  let candidates := type_name_candidates type_name in
  let lowered := map lower candidates in
  match omap (un_ua u) candidates with
  | c :: _ => Some c
  | [] =>
      match List.filter (fun c => bool_decide (lower (class_name c) ∈ lowered)) (omap snd (un_registry u)) with
      | c :: _ => Some c
      | [] => head (omap (fun p => if bool_decide (lower p.1 ∈ lowered) then p.2 else None) (un_structures u))
      end
  end.

(** [_resolve_type_from_module_path]. *)
Definition resolve_type_from_module_path (type_name : string) : option class_id :=
  let normalized := strip (strip_chars (apostrophes ++ [" "%char]) type_name) in
  if str_in "." normalized then
    let attr_name := last_part "."%char normalized in
    let module_name := str_drop_end (S (length (chars attr_name))) normalized in
    types ← un_import u module_name;
    match items_lookup attr_name types with
    | Some c => Some c
    | None => head (omap (fun p => if bool_decide (lower p.1 = lower attr_name) then Some p.2 else None) types)
    end
  else None.

(** [_resolve_structure_type]: by name, or by the key of a registry. *)
Definition resolve_structure_type (data_type : string) : option class_id :=
  let symbolic_name := numeric_id ua_prefixes true data_type ≫= ua_object_id_name in
  match resolve_structure_type_by_name (or_str (default ε symbolic_name) data_type) with
  | Some c => Some c
  | None => match List.filter (fun p => bool_decide (p.1 = data_type)) (un_registry u) with (_, c) :: _ => c | [] => None end
  end.

Definition is_structured_class (c : class_id) : bool :=
  match class_of c with
  | Some k => match pc_fields k with Some _ => true | None => negb (bool_decide (pc_annotations k = [])) end
  | None => false
  end.

(** ** Kinds of classes *)

Definition is_integer_class (k : PyClass) : bool :=
  match pc_base k with
  | base_bool => false
  | base_int => true
  | _ => bool_decide (lower (pc_name k) ∈ ["byte"; "sbyte"; "int16"; "int32"; "int64"; "uint16"; "uint32"; "uint64"; "uint128"])
  end.

Definition is_number_class (k : PyClass) : bool :=
  (is_integer_class k || bool_decide (pc_base k = base_float) ||
   bool_decide (lower (pc_name k) ∈ ["float"; "double"; "decimal"; "decimalstring"]))%bool.

Definition is_string_class (k : PyClass) : bool :=
  (bool_decide (pc_base k = base_str) ||
   bool_decide (lower (pc_name k) ∈ ["string"; "chararray"; "bytestring"; "xmlelement"; "qualifiedname"]))%bool.

Definition is_datetime_class (k : PyClass) : bool := bool_decide (lower (pc_name k) ∈ ["datetime"; "utctime"]).
Definition is_variant_class (k : PyClass) : bool := bool_decide (lower (pc_name k) ∈ ["variant"; "basedatatype"]).

(** [_structure_core_name]. *)
Definition structure_core_name (type_name : string) : string :=
  let lowered := lower type_name in
  let lowered := if startswith "isa95" lowered then str_drop 5 lowered else lowered in
  if endswith "datatype" lowered then str_drop_end 8 lowered else lowered.
End Universe.
End PyClasses.

(** ** Hints for the fields of generated classes ([schemas/objecttype_schema.py]): the types that the documentation of a class
    names, and the class that a placeholder in a generated annotation stands for. *)
Local Open Scope string_scope.
Local Open Scope list_scope.

Module PyClassHints.
Export PyClasses.

(** ** [:vartype name: type] *)

Definition ident_char (c : ascii) : bool := (is_alnum c || ceqb c "_"%char)%bool.
Definition line_char (c : ascii) : bool := negb (ceqb c (chr 10) || ceqb c (chr 13)).

(** A [:vartype] at the start: the name, what follows the colon on its line, and the rest. *)
Definition match_vartype (l : list ascii) : option (list ascii * list ascii * list ascii) :=
  if starts_with (chars ":vartype") l then
    let l1 := drop 8 l in
    let l2 := drop_while is_space l1 in
    let name := take_while ident_char l2 in
    match name with
    | c :: _ =>
        if (is_digit c || bool_decide (length l2 = length l1))%bool then None
        else
          match drop_while is_space (drop (length name) l2) with
          | ":"%char :: l3 =>
              let l4 := drop_while is_space l3 in
              match take_while line_char l4 with [] => None | token => Some (name, token, drop (length token) l4) end
          | _ => None
          end
    | [] => None
    end
  else None.

Fixpoint find_vartypes (fuel : nat) (l : list ascii) : list (string * string) :=
  match fuel with
  | O => []
  | S fuel' =>
      match match_vartype l with
      | Some (name, token, rest) => (of_chars name, of_chars token) :: find_vartypes fuel' rest
      | None => match l with [] => [] | _ :: l' => find_vartypes fuel' l' end
      end
  end.

(** Without spaces and apostrophes around it, and kept if something is left. *)
Definition override_tokens (l : list (string * string)) : dict string string :=
  dict_of_list (omap (fun p => let token := strip_chars apostrophes (strip p.2) in if truthy token then Some (p.1, token) else None) l).

Definition vartype_overrides (k : PyClass) : dict string string :=
  override_tokens (find_vartypes (S (length (chars (pc_doc k)))) (chars (pc_doc k))).

Definition ua_type_overrides (k : PyClass) : dict string string := override_tokens (pc_ua_types k).

(** ** Stems of a name *)

(** [re.findall] of [A-Z]+(?=[A-Z][a-z]|\b), [A-Z]?[a-z]+ and \d+: capitals up to the one that begins a word or up to the
    end of the word, a word with its capital, or a number. *)
Definition word_char (c : ascii) : bool := ident_char c.

(** How many of the capitals match: backwards from all of them. *)
Fixpoint capitals (n : nat) (l : list ascii) : option nat :=
  match n with
  | O => None
  | S n' =>
      let ok := match drop n l with
                | [] => true
                | c :: rest => (negb (word_char c) || (is_upper c && match rest with d :: _ => is_lower d | [] => false end))%bool
                end in
      if ok then Some n else capitals n' l
  end.

Definition name_part (l : list ascii) : option nat :=
  match capitals (length (take_while is_upper l)) l with
  | Some n => Some n
  | None =>
      match l with
      | c :: l' =>
          let lowers := length (take_while is_lower (if is_upper c then l' else l)) in
          if (0 <? lowers)%nat then Some (if is_upper c then S lowers else lowers)
          else match length (take_while is_digit l) with O => None | n => Some n end
      | [] => None
      end
  end.

Fixpoint name_parts (fuel : nat) (l : list ascii) : list string :=
  match fuel, l with
  | S fuel', c :: l' =>
      match name_part l with
      | Some n => lower (of_chars (take n l)) :: name_parts fuel' (drop n l)
      | None => name_parts fuel' l'
      end
  | _, _ => []
  end.

Definition field_parts (field_name : string) : list string := name_parts (S (length (chars field_name))) (chars field_name).

Definition stem_suffixes : list string := ["id"; "ids"; "requirements"; "requirement"; "parameters"; "parameter"; "properties"; "property"].

(** [_candidate_field_stems], as a set. *)
Definition candidate_field_stems (field_name : string) : list string :=
  let parts := field_parts field_name in
  let joined := PyStr.join ε parts in
  remove_dups (joined :: parts ++
    omap (fun suffix => if endswith suffix joined
                        then let trimmed := str_drop_end (length (chars suffix)) joined in if truthy trimmed then Some trimmed else None
                        else None) stem_suffixes ++
    (if endswith "ies" joined then [str_drop_end 3 joined +:+ "y"] else []) ++
    (if (endswith "s" joined && (1 <? length (chars joined))%nat)%bool then [str_drop_end 1 joined] else [])).

Definition singular (s : string) : string := if endswith "s" s then str_drop_end 1 s else s.

Definition singular_map : list (string * option string) :=
  [("parameters", Some "parameter"); ("parameter", Some "parameter"); ("properties", Some "property"); ("property", Some "property");
   ("requirements", None); ("requirement", None); ("ids", None); ("id", None); ("states", Some "state"); ("state", Some "state")].

(** [_preferred_field_stems]. *)
Definition preferred_field_stems (field_name : string) : list string :=
  let parts := field_parts field_name in
  match last parts with
  | None => []
  | Some l =>
      match items_lookup l singular_map with
      | Some (Some value) => [value]
      | _ =>
          if (bool_decide (l ∈ ["requirements"; "requirement"; "ids"; "id"]) && (2 <=? length parts)%nat)%bool then
            let prefix := PyStr.join ε (take (length parts - 1) parts) in [prefix; singular prefix]
          else let joined := PyStr.join ε parts in [joined; singular joined]
      end
  end.

(** ** The class of a placeholder *)

Section Universe.
Context (u : Universe).

(** [_available_generated_structure_types]: each class where it comes first. *)
Definition available_generated_structure_types (module_name : string) : list class_id :=
  unique_ids (List.filter (is_structured_class u) (un_module_types u module_name) ++
    List.filter (fun c => match class_of u c with
                          | Some k => (bool_decide (pc_module k = module_name) || startswith "asyncua.common.structures" (pc_module k))%bool
                          | None => false
                          end) (omap snd (un_registry u))).

Definition stem_score (equal in_stem in_core : Z) (core stem : string) : Z :=
  if bool_decide (stem = core) then equal else if str_in core stem then in_stem else if str_in stem core then in_core else 0.

Definition class_score (field_name : string) (c : class_id) : Z :=
  let core := structure_core_name (class_name u c) in
  fold_left Z.max (map (stem_score 100 80 60 core) (candidate_field_stems field_name))
    (fold_left Z.max (map (stem_score 200 150 120 core) (preferred_field_stems field_name)) 0).

(** The first class with the highest score. *)
Definition better (field_name : string) (best : option (class_id * Z)) (c : class_id) : option (class_id * Z) :=
  match best with
  | Some (_, score) => if class_score field_name c >? score then Some (c, class_score field_name c) else best
  | None => Some (c, class_score field_name c)
  end.

(** [_guess_generated_dependency_type]. *)
Definition guess_generated_dependency_type (field_name module_name : string) : option class_id :=
  match fold_left (better field_name) (available_generated_structure_types module_name) None with
  | Some (c, score) => if score >=? 60 then Some c else None
  | None => None
  end.

(** [_evaluate_generated_annotation]: only texts are evaluated; a guess stands in for the placeholders. *)
Definition evaluate_generated_annotation (a : annotation) (owner : class_id) (k : PyClass) (field_name : string) : option annotation :=
  match a with
  | AnnText s =>
      un_eval u owner s (if (truthy field_name && str_in "_dep_" s)%bool then guess_generated_dependency_type field_name (pc_module k) else None)
  | _ => None
  end.
End Universe.

Example parts_of_names :
  field_parts "EngineeringUnits" = ["engineering"; "units"] /\ field_parts "HTTPServerID2" = ["http"; "server"; "2"] /\
  candidate_field_stems "ParameterIds" = ["parameterids"; "ids"; "parameter"; "parameterid"] /\
  preferred_field_stems "WorkParameters" = ["parameter"].
Proof. vm_compute. auto. Qed.
End PyClassHints.
