(* ===== verification/ObjectSchema.v ===== *)
(** The JSON schemas of data types and object types ([schemas/objecttype_schema.py]): of annotations, classes, values and
    members, with the definitions that they register, and of a type with its ancestors.

    The functions call each other without a structure to follow: classes refer to classes. Each is a definition over the
    calls it makes ([rec] on a [job]); [run_job] ties them with fuel, and [ObjectSchemaRuns] proves how much is enough. *)

From S2P Require Export PyClasses Schemas NodeIds.
Local Open Scope string_scope.
Local Open Scope list_scope.
Local Open Scope Z_scope.

Module ObjectSchema.
Export PyClassHints Schemas NodeIds.

(** ** Schemas without definitions *)

Definition typed (t : string) : json := JObj [("type", JStr t)].
Definition text_schema : json := typed "string".
Definition base64_schema : json := JObj [("type", JStr "string"); ("contentEncoding", JStr "base64")].
Definition datetime_schema : json := JObj [("type", JStr "string"); ("format", JStr "date-time")].
Definition empty_schema : json := JObj [].
Definition array_of (items : json) : json := JObj [("type", JStr "array"); ("items", items)].

(** What a schema is with null: only the member [type] changes. *)
Definition nullable (nested : json) : json :=
  match obj_get "type" nested with
  | Some (JStr t) => obj_set "type" (JArr [JStr t; JStr "null"]) nested
  | Some (JArr l) => if existsb (fun x => match x with JStr s => bool_decide (s = "null") | _ => false end) l then nested
                     else obj_set "type" (JArr (l ++ [JStr "null"])) nested
  | _ => nested
  end.

Definition stringish_type (x : json) : bool := match x with JStr s => (bool_decide (s = "string") || bool_decide (s = "null"))%bool | _ => false end.

Definition stringish (t : option json) : bool :=
  match t with Some (JStr s) => bool_decide (s = "string") | Some (JArr l) => forallb stringish_type l | _ => false end.

(** [_is_stringish_schema]. *)
Definition is_stringish_schema (schema : json) : bool :=
  (stringish (obj_get "type" schema) ||
   match obj_get "type" schema, obj_get "items" schema with
   | Some (JStr t), Some (JObj _ as items) => (bool_decide (t = "array") && stringish (obj_get "type" items))%bool
   | _, _ => false
   end)%bool.

Definition scalar_map : list (string * json) :=
  [("ua.string", text_schema); ("string", text_schema); ("ua.euinformation", typed "object"); ("euinformation", typed "object");
   ("ua.basedatatype", empty_schema); ("basedatatype", empty_schema); ("ua.boolean", typed "boolean"); ("boolean", typed "boolean");
   ("bool", typed "boolean"); ("ua.byte", typed "integer"); ("ua.sbyte", typed "integer"); ("ua.int16", typed "integer");
   ("ua.int32", typed "integer"); ("ua.int64", typed "integer"); ("ua.uint16", typed "integer"); ("ua.uint32", typed "integer");
   ("ua.uint64", typed "integer"); ("ua.double", typed "number"); ("ua.float", typed "number"); ("ua.datetime", datetime_schema);
   ("datetime", datetime_schema)].

(** [_nodeid_identifier_branches]. *)
Definition identifier_branch (id_type : Z) (identifier : list (string * json)) : json :=
  JObj [("properties", JObj [("NodeIdType", JObj [("const", JInt id_type)]); ("Identifier", JObj identifier)]);
        ("required", JArr [JStr "NodeIdType"; JStr "Identifier"])].

Definition nodeid_identifier_branches : list json :=
  [identifier_branch 0 [("type", JStr "integer"); ("minimum", JInt 0); ("maximum", JInt 255)];
   identifier_branch 1 [("type", JStr "integer"); ("minimum", JInt 0); ("maximum", JInt 4294967295)];
   identifier_branch 2 [("type", JStr "integer")]; identifier_branch 3 [("type", JStr "string")];
   identifier_branch 4 [("type", JStr "string"); ("format", JStr "uuid")]; identifier_branch 5 [("type", JStr "string"); ("contentEncoding", JStr "base64")]].

(** ** Values *)

(** [type(value).__name__]. *)
Definition value_type_name (v : ua_value) : string :=
  match v with
  | UNone => "NoneType" | UBool _ => "bool" | UInt _ => "int" | UFloat _ => "float" | UStr _ => "str" | UDateTime _ => "datetime"
  | UBytes _ => "bytes" | UList _ => "list" | UExtension _ _ => "ExtensionObject" | UDict _ => "dict" | UStruct cls _ => cls
  end.

(** [_primitive_schema_for_value]; the classes of structures are not the builtin ones. *)
Fixpoint primitive_schema_for_value (v : ua_value) : json :=
  match v with
  | UNone => JObj [("type", JArr [JStr "null"; JStr "string"])]
  | UBool _ => typed "boolean"
  | UInt _ => typed "integer"
  | UFloat _ => typed "number"
  | UStr _ => text_schema
  | UBytes _ => base64_schema
  | UList [] => array_of text_schema
  | UList (x :: _) => array_of (primitive_schema_for_value x)
  | UDict _ | UStruct _ _ | UExtension _ _ => typed "object"
  | UDateTime _ => text_schema
  end.

Definition is_extension_variant (variant_type : option string) : bool :=
  match variant_type with Some t => str_in "extensionobject" (lower t) | None => false end.

(** ** Keys of definitions *)

Definition canonical_structure_core_keys : list (string * string) :=
  [("nodeid", "canonical-structure:nodeid"); ("expandednodeid", "canonical-structure:expandednodeid");
   ("localizedtext", "canonical-structure:localizedtext")].

Definition canonical_structure_key_for_core_name (core_name : string) : option string := items_lookup core_name canonical_structure_core_keys.

(** [_canonical_schema_key_for_type], with the one rule of [_CANONICAL_TYPE_NAME_RULES]. *)
Definition canonical_schema_key_for_type (name : string) : option string :=
  match canonical_structure_key_for_core_name (structure_core_name name) with
  | Some key => Some key
  | None =>
      if (startswith "ISA95" name && endswith "DataType" name)%bool then Some ("canonical-structure:isa95-datatype:" +:+ structure_core_name name) else None
  end.

(** [_canonical_schema_key_for_structure_value]: mappings of a locale and a text are localized texts. *)
Definition canonical_schema_key_for_structure_value (v : ua_value) : option string :=
  match canonical_structure_key_for_core_name (structure_core_name (value_type_name v)) with
  | Some key => Some key
  | None =>
      match v with
      | UDict items =>
          let keys := map (fun p => lower p.1) items in
          if (forallb (fun key => bool_decide (key ∈ ["encoding"; "locale"; "text"])) keys && bool_decide ("locale" ∈ keys) && bool_decide ("text" ∈ keys))%bool
          then Some "canonical-structure:localizedtext" else None
      | _ => None
      end
  end.

Definition class_key (prefix : string) (k : PyClass) : string := prefix +:+ lower (pc_module k) +:+ "." +:+ lower (pc_name k).

(** ** Node ids *)

(** [_indexed_node_id]. *)
Definition same_namespace (uri : string) (item : OpcUaNamespaceInfo) : bool := bool_decide (nsi_uri item = uri).

Fixpoint index_from (uri : string) (index : Z) (infos : list OpcUaNamespaceInfo) : option Z :=
  match infos with [] => None | item :: infos' => if same_namespace uri item then Some index else index_from uri (index + 1) infos' end.

Definition indexed_node_id (value : string) (infos : list OpcUaNamespaceInfo) : option string :=
  if startswith "nsu=" value then
    match partition_at semicolon (drop 4 (chars value)) with
    | (uri, true, rest) =>
        if bool_decide (uri = []) then None
        else
          match match_identifier 1 rest with
          | Some (kind, id) =>
              let identifier := of_chars (kind :: "="%char :: id) in
              if bool_decide (lower (rstrip_char slash (of_chars uri)) = "http://opcfoundation.org/ua") then Some ("ns=0;" +:+ identifier)
              else (fun index => "ns=" +:+ str_of_int index +:+ ";" +:+ identifier) <$> index_from (of_chars uri) 0 infos
          | None => None
          end
    | _ => None
    end
  else None.

(** [isoformat] of a time in UTC. *)
Definition isoformat (t : Z) : string :=
  of_chars (seconds_text t ++ (if t mod 1000000 =? 0 then [] else "."%char :: padded 6 (t mod 1000000)) ++ chars "+00:00").

Section Schemas_.
Context (u : Universe).

(** [_expanded_if_node_id(_node_id_to_string(value))]. *)
Definition expanded_if_node_id (v : ua_value) (infos : list OpcUaNamespaceInfo) : option string :=
  (fun id => expanded_node_id id infos) <$> node_id_to_string u v.

(** [json_schema_for_opcua_type]. *)
Definition any_in (tokens : list string) (s : string) : bool := existsb (fun token => str_in token s) tokens.

(** [re.match(r"^(?:ns=|nsu=|[isgb]=)", s, flags=re.IGNORECASE)]. *)
Definition looks_like_node_id (s : string) : bool := existsb (fun p => startswith p (lower s)) ["ns="; "nsu="; "i="; "s="; "g="; "b="].

Definition schema_for_type_name (token : string) : json :=
  let normalized := lower token in
  if bool_decide (normalized = "bytestring") then base64_schema
  else if bool_decide (normalized ∈ ["string"; "guid"; "xmlelement"]) then text_schema
  else if str_in "boolean" normalized then typed "boolean"
  else if (bool_decide (normalized = "number") || any_in ["double"; "float"] normalized)%bool then typed "number"
  else if (bool_decide (normalized ∈ ["integer"; "uinteger"]) ||
           any_in ["sbyte"; "byte"; "int16"; "int32"; "int64"; "uint16"; "uint32"; "uint64"] normalized)%bool then typed "integer"
  else if str_in "datetime" normalized then datetime_schema
  else
    match resolve_structure_type_by_name u token ≫= class_of u with
    | Some k =>
        if bool_decide (pc_base k = base_bool) then typed "boolean"
        else if bool_decide (lower (pc_name k) = "number") then typed "number"
        else if is_integer_class k then typed "integer"
        else if is_number_class k then typed "number"
        else if is_datetime_class k then datetime_schema else empty_schema
    | None => empty_schema
    end.

Definition json_schema_for_opcua_type (data_type : option string) : json :=
  match data_type with
  | None => empty_schema
  | Some data_type =>
      match numeric_id ("" :: ua_prefixes) false data_type with
      | Some identifier => schema_for_type_name (default data_type (ua_object_id_name u identifier))
      | None => if looks_like_node_id data_type then empty_schema else schema_for_type_name data_type
      end
  end.

(** ** Values of classes *)

Definition class_of_value (cls : string) : option PyClass := class_of u (un_class_of u cls).

Definition is_dataclass (k : option PyClass) : bool := match k with Some k => bool_decide (is_Some (pc_fields k)) | None => false end.

Definition module_of (k : option PyClass) : string := match k with Some k => pc_module k | None => ε end.

(** What [vars] of an object that is no dataclass shows. *)
Definition public_field (cls : string) (p : string * ua_value) : bool := (is_dataclass (class_of_value cls) || negb (startswith "_" p.1))%bool.

(** [_is_structure_value]; extension objects are told apart before. *)
Definition is_structure_value (v : ua_value) : bool :=
  match v with
  | UDict _ => true
  | UStruct cls _ => (is_dataclass (class_of_value cls) || negb (bool_decide (module_of (class_of_value cls) = "builtins")))%bool
  | _ => false
  end.

(** [_structure_fields]. *)
Definition structure_fields (v : ua_value) : list (string * ua_value) :=
  List.filter (fun p => negb (is_filtered_structure_field p.1))
    match v with
    | UDict items => items
    | UStruct cls fields => List.filter (public_field cls) fields
    | UExtension type_id body => [("TypeId", type_id); ("Body", body)]
    | _ => []
    end.

(** [_structure_schema_key]. *)
Definition structure_schema_key (v : ua_value) : string :=
  match v with
  | UDict items => "map-structure:" +:+ or_str (join "," (py_sorted string_leb (map fst items))) "empty"
  | UStruct cls _ => "py-structure:" +:+ lower (module_of (class_of_value cls)) +:+ "." +:+ lower cls
  | v => "py-structure:builtins." +:+ lower (value_type_name v)
  end.

(** [_to_json_metadata_value]. *)
Fixpoint to_json_metadata_value (infos : list OpcUaNamespaceInfo) (v : ua_value) : json :=
  match v with
  | UNone => JNull
  | UBool b => JBool b
  | UInt z => JInt z
  | UFloat text => JFloat text
  | UStr s => JStr s
  | UDateTime t => JStr (isoformat t)
  | UBytes l => JObj [("encoding", JStr "base64"); ("length", JInt (Z.of_nat (length l)))]
  | UList l => JArr (map (to_json_metadata_value infos) l)
  | UDict items => JObj (map (fun p => (p.1, to_json_metadata_value infos p.2)) items)
  | UStruct cls fields =>
      JObj (omap (fun p => if public_field cls p then Some (p.1, to_json_metadata_value infos p.2) else None) fields)
  | UExtension type_id body =>
      JObj [("TypeId", if un_extension_dataclass u then to_json_metadata_value infos type_id
                       else match expanded_if_node_id type_id infos with Some id => JStr id | None => JNull end);
            ("Body", to_json_metadata_value infos body)]
  end.

(** ** What an annotation says *)

(** The parts between separators that are not empty. *)
Definition split_parts (c : ascii) (s : string) : list string := List.filter truthy (map strip (str_split c s)).

Definition remove_prefix (p s : string) : string := if startswith p s then str_drop (length (chars p)) s else s.

Definition normalized_annotation (s : string) : string :=
  remove_prefix "collections.abc." (remove_prefix "typing." (strip (strip_chars (apostrophes ++ [" "%char]) s))).

Definition is_none_name (s : string) : bool := bool_decide (lower s ∈ ["none"; "nonetype"]).

Inductive text_shape :=
  | TextNullable (s : string)
  | TextAnyOf (parts : list string)
  | TextArray (s : string)
  | TextSchema (schema : json)
  | TextEnum (c : class_id)
  | TextClass (prefix : string) (c : class_id) (k : PyClass).

(** The parts of a union; one of them besides none makes it nullable. *)
Definition union_shape (parts : list string) : text_shape :=
  match List.filter (fun p => negb (is_none_name p)) parts with
  | [s] => if (1 <? length parts)%nat then TextNullable s else TextAnyOf parts
  | _ => TextAnyOf parts
  end.

Definition unresolved_shape (normalized : string) : text_shape :=
  let simple_name := last_part "."%char normalized in
  TextSchema (if endswith "datatype" (lower simple_name) then JObj [("type", JStr "object"); ("title", JStr simple_name)] else text_schema).

Definition imported_shape (normalized : string) : text_shape :=
  match resolve_type_from_module_path u normalized with
  | Some c =>
      match class_of u c with
      | Some k => if is_structured_class u c then TextClass "module-annotation:" c k else unresolved_shape normalized
      | None => unresolved_shape normalized
      end
  | None => unresolved_shape normalized
  end.

Definition named_shape (normalized : string) : text_shape :=
  match resolve_structure_type_by_name u normalized with
  | Some c =>
      match class_of u c with
      | Some k =>
          if bool_decide (is_Some (pc_members k)) then TextEnum c
          else if is_structured_class u c then TextClass "ua-annotation:" c k else imported_shape normalized
      | None => imported_shape normalized
      end
  | None => imported_shape normalized
  end.

(** [s[n:-1]] of a text that begins so and ends with a bracket. *)
Definition bracketed (prefix s : string) : option string :=
  if (startswith prefix (lower s) && endswith "]" (lower s))%bool then Some (str_drop_end 1 (str_drop (length (chars prefix)) s)) else None.

Definition plain_shape (normalized : string) : text_shape :=
  if endswith "[]" (lower normalized) then TextArray (str_drop_end 2 normalized)
  else
    match bracketed "list[" normalized, bracketed "sequence[" normalized with
    | Some s, _ | None, Some s => TextArray s
    | None, None => match items_lookup (lower normalized) scalar_map with Some schema => TextSchema schema | None => named_shape normalized end
    end.

(** [_schema_for_annotation_string] up to its calls. *)
Definition text_shape_of (annotation : string) : text_shape :=
  let normalized := normalized_annotation annotation in
  match (if str_in "|" normalized then split_parts "|"%char normalized else []) with
  | (_ :: _) as parts => union_shape parts
  | [] =>
      match bracketed "optional[" normalized with
      | Some s => TextNullable s
      | None =>
          match default [] (split_parts ","%char <$> bracketed "union[" normalized) with
          | (_ :: _) as parts => TextAnyOf parts
          | [] => plain_shape normalized
          end
      end
  end.

Inductive annotation_shape :=
  | AnnotationText (s : string)
  | AnnotationArray (item : annotation)
  | AnnotationNullable (a : annotation)
  | AnnotationSchema (schema : json)
  | AnnotationClass (c : class_id) (k : PyClass).

Definition enumeration_schema (members : list (string * option Z)) : json :=
  let names := JArr (map (fun p => JStr p.1) members) in
  match members, mapM snd members with
  | _ :: _, Some values => JObj [("type", JStr "integer"); ("enum", JArr (map JInt values)); ("x-opcua-enumNames", names)]
  | _, _ => JObj [("type", JStr "string"); ("enum", names)]
  end.

Definition class_shape (c : class_id) (k : PyClass) : annotation_shape :=
  if is_string_class k then AnnotationSchema text_schema
  else if bool_decide (pc_base k = base_bool) then AnnotationSchema (typed "boolean")
  else
    match pc_members k with
    | Some members => AnnotationSchema (enumeration_schema members)
    | None =>
        if is_integer_class k then AnnotationSchema (typed "integer")
        else if is_number_class k then AnnotationSchema (typed "number")
        else if is_datetime_class k then AnnotationSchema datetime_schema
        else if is_variant_class k then AnnotationSchema empty_schema
        else if is_structured_class u c then AnnotationClass c k else AnnotationSchema text_schema
    end.

(** [_schema_for_annotation] up to its calls. *)
Definition annotation_shape_of (a : annotation) : annotation_shape :=
  match a with
  | AnnForward s => if truthy (strip s) then AnnotationText s else AnnotationSchema text_schema
  | AnnSequence item => AnnotationArray (default AnnOther item)
  | AnnGeneric args =>
      match omap id args with
      | [a] => if (1 <? length args)%nat then AnnotationNullable a else AnnotationSchema text_schema
      | _ => AnnotationSchema text_schema
      end
  | AnnText s => AnnotationText s
  | AnnClass c => match class_of u c with Some k => class_shape c k | None => AnnotationSchema text_schema end
  | AnnOther => AnnotationSchema text_schema
  end.

(** ** The functions over their calls *)

(** A computation on the registry: [KeyMissing] is the exception of a key that is not there. *)
Inductive computed (A : Type) :=
  | Got (r : SchemaRegistry) (x : A)
  | KeyMissing
  | NoFuel.
#[global] Arguments Got {A} r x.
#[global] Arguments KeyMissing {A}.
#[global] Arguments NoFuel {A}.

Definition M (A : Type) : Type := SchemaRegistry -> computed A.
Definition ret {A} (x : A) : M A := fun r => Got r x.
Definition bind {A B} (m : M A) (f : A -> M B) : M B :=
  fun r => match m r with Got r' x => f x r' | KeyMissing => KeyMissing | NoFuel => NoFuel end.
Definition gets {A} (f : SchemaRegistry -> A) : M A := fun r => Got r (f r).
Definition modify (f : SchemaRegistry -> SchemaRegistry) : M unit := fun r => Got (f r) tt.
Definition key_of {A} (x : option A) : M A := fun r => match x with Some x => Got r x | None => KeyMissing end.

Fixpoint mmap {A B} (f : A -> M B) (l : list A) : M (list B) :=
  match l with [] => ret [] | x :: l' => bind (f x) (fun y => bind (mmap f l') (fun ys => ret (y :: ys))) end.

Inductive job : Type -> Type :=
  | TAnnotation (a : annotation) : job json
  | TText (s : string) : job json
  | TType (key : string) (c : class_id) (metadata : list (string * json)) : job json
  | TClass (c : class_id) : job json
  | TValue (v : ua_value) (data_type variant_type : option string) (is_array : option bool) (infos : list OpcUaNamespaceInfo) : job (option json).

Definition reference_to (key : string) : M json := fun r => key_of (ref_for key r) r.

Definition allocate_name (key preferred_name : string) : M string :=
  fun r => match allocate key preferred_name r with Some (r', name) => Got r' name | None => NoFuel end.

(** [for key, value in metadata.items(): schema[key] = value]. *)
Definition with_metadata (metadata : list (string * json)) (schema : json) : json := fold_left (fun schema p => obj_set p.1 p.2 schema) metadata schema.

(** [_merge_metadata_into_registered_definition]. *)
Definition merge_metadata (key : string) (metadata : list (string * json)) (r : SchemaRegistry) : SchemaRegistry :=
  match definition_name_for key r with
  | Some name =>
      match sr_defs r !! name with
      | Some (JObj _ as definition) =>
          match metadata with
          | [] => r
          | _ => set_definition name (fold_left (fun schema p => match obj_get p.1 schema with Some _ => schema | None => obj_set p.1 p.2 schema end) metadata definition) r
          end
      | _ => r
      end
  | None => r
  end.

(** The canonical key stands for the same definition, unless it has one. *)
Definition reserve_canonical (canonical_key : option string) (name : string) (r : SchemaRegistry) : SchemaRegistry :=
  match canonical_key with Some key => if registry_has key r then r else reserve key name r | None => r end.

Definition object_schema (title : string) (properties : list (string * json)) : json :=
  JObj [("type", JStr "object"); ("title", JStr title); ("properties", JObj (dict_items (dict_of_list properties))); ("additionalProperties", JBool false)].

Section Calls.
Context (rec : forall A, job A -> M A).

Definition schema_for_annotation (a : annotation) : M json := rec _ (TAnnotation a).
Definition schema_for_annotation_string (s : string) : M json := rec _ (TText s).

(** [_schema_for_annotation_string]. *)
Definition text_step (s : string) : M json :=
  match text_shape_of s with
  | TextNullable s' => bind (schema_for_annotation_string s') (fun nested => ret (nullable nested))
  | TextAnyOf parts => bind (mmap schema_for_annotation_string parts) (fun l => ret (JObj [("anyOf", JArr l)]))
  | TextArray s' => bind (schema_for_annotation_string s') (fun items => ret (array_of items))
  | TextSchema schema => ret schema
  | TextEnum c => schema_for_annotation (AnnClass c)
  | TextClass prefix c k => rec _ (TType (class_key prefix k) c [])
  end.

(** [_schema_for_annotation]. *)
Definition annotation_step (a : annotation) : M json :=
  match annotation_shape_of a with
  | AnnotationText s => schema_for_annotation_string s
  | AnnotationArray item => bind (schema_for_annotation item) (fun items => ret (array_of items))
  | AnnotationNullable a' => bind (schema_for_annotation a') (fun nested => ret (nullable nested))
  | AnnotationSchema schema => ret schema
  | AnnotationClass c k => rec _ (TType (class_key "py-annotation:" k) c [])
  end.

(** A new definition under the key, and under the canonical key if that is free; its schema is made while its name is taken. *)
Definition register (key preferred_name : string) (canonical_key : option string) (metadata : list (string * json)) (schema : M json) : M json :=
  bind (allocate_name key preferred_name) (fun name =>
  bind (modify (reserve_canonical canonical_key name)) (fun _ =>
  bind schema (fun schema =>
  bind (modify (set_definition name (with_metadata metadata schema))) (fun _ => reference_to key)))).

(** What stands under a key already: its own definition ([inl]), or that of the canonical key. *)
Definition known_definition (key : string) (canonical_key : option string) (r : SchemaRegistry) : option (unit + string) :=
  if registry_has key r then Some (inl tt)
  else match canonical_key ≫= fun k => definition_name_for k r with Some name => Some (inr name) | None => None end.

(** [_reference_or_register_structure_from_type]. *)
Definition type_step (key : string) (c : class_id) (metadata : list (string * json)) : M json :=
  bind (key_of (class_of u c)) (fun k =>
  let canonical_key := canonical_schema_key_for_type (pc_name k) in
  bind (gets (known_definition key canonical_key)) (fun known =>
    match known with
    | Some (inl _) => bind (modify (merge_metadata key metadata)) (fun _ => reference_to key)
    | Some (inr name) =>
        bind (modify (reserve key name)) (fun _ => bind (modify (merge_metadata key metadata)) (fun _ => reference_to key))
    | None => register key (pc_name k) canonical_key metadata (rec _ (TClass c))
    end)).

(** The expanded id of a data type, and its key. *)
Definition normalized_data_type (data_type : string) (infos : list OpcUaNamespaceInfo) : string :=
  or_str (default ε (expanded_if_node_id (UStr data_type) infos)) data_type.

Definition data_type_key (data_type : string) (infos : list OpcUaNamespaceInfo) : string := "opcua-datatype:" +:+ lower (normalized_data_type data_type infos).

(** The structured class of a data type, under its expanded id or under the indexed one. *)
Definition structured_data_type (data_type : string) (infos : list OpcUaNamespaceInfo) : option class_id :=
  let normalized := normalized_data_type data_type infos in
  match (match resolve_structure_type u normalized with
         | Some c => Some c
         | None => indexed_node_id normalized infos ≫= resolve_structure_type u
         end) with
  | Some c => if is_structured_class u c then Some c else None
  | None => None
  end.

(** [_schema_from_data_type]. *)
Definition schema_from_data_type (data_type : option string) (infos : list OpcUaNamespaceInfo) : M (option json) :=
  match data_type with
  | None => ret None
  | Some data_type =>
      if truthy data_type then
        match structured_data_type data_type infos with
        | Some c =>
            bind (rec _ (TType (data_type_key data_type infos) c [("x-opcua-structureDataType", JStr (normalized_data_type data_type infos))]))
              (fun schema => ret (Some schema))
        | None => ret None
        end
      else ret None
  end.

Definition extension_key (type_id : option string) (body : ua_value) : string := "opcua-structure:" +:+ or_str (default ε type_id) (lower (value_type_name body)).

(** [_structure_object_schema]. *)
Definition structure_object_schema (v : ua_value) : M json :=
  let field (p : string * ua_value) : M (string * json) :=
    bind (rec _ (TValue p.2 None None None [])) (fun nested => ret (p.1, default (primitive_schema_for_value p.2) nested)) in
  let object := bind (mmap field (structure_fields v)) (fun properties => ret (object_schema (value_type_name v) properties)) in
  match v with
  | UStruct cls _ =>
      match class_of_value cls with
      | Some k => if pc_is_argument k then rec _ (TClass (un_class_of u cls)) else object
      | None => object
      end
  | _ => object
  end.

(** What is registered of a structure: the schema of its class if it has a canonical one, else that of its fields. *)
Definition structure_schema (canonical_key : option string) (v : ua_value) : M json :=
  match canonical_key, v with
  | Some _, UStruct cls _ => if is_structured_class u (un_class_of u cls) then rec _ (TClass (un_class_of u cls)) else structure_object_schema v
  | _, _ => structure_object_schema v
  end.

(** [_reference_or_register_structure]. *)
Definition reference_or_register_structure (key : string) (v : ua_value) (metadata : list (string * json)) : M json :=
  let canonical_key := canonical_schema_key_for_structure_value v in
  bind (gets (known_definition key canonical_key)) (fun known =>
    match known with
    | Some (inl _) => reference_to key
    | Some (inr name) => bind (modify (reserve key name)) (fun _ => reference_to key)
    | None => register key (match v with UDict _ => "MappedStructure" | _ => value_type_name v end) canonical_key metadata (structure_schema canonical_key v)
    end).

(** The schema of the data type, or any object. *)
Definition data_type_or_object (data_type : option string) (metadata : list (string * json)) (infos : list OpcUaNamespaceInfo) : M json :=
  bind (schema_from_data_type data_type infos) (fun schema => ret (with_metadata metadata (default (typed "object") schema))).

(** [_schema_for_array_items]. *)
Definition schema_for_array_items (v : ua_value) (data_type variant_type : option string) (infos : list OpcUaNamespaceInfo) : M json :=
  match v with
  | UList (x :: _) =>
      bind (rec _ (TValue x data_type variant_type (Some false) infos)) (fun inferred =>
        match inferred with
        | Some schema => ret schema
        | None => if is_extension_variant variant_type then data_type_or_object data_type [] infos else ret (primitive_schema_for_value x)
        end)
  | _ => if is_extension_variant variant_type then data_type_or_object data_type [] infos else ret (json_schema_for_opcua_type data_type)
  end.

Definition structure_metadata (type_id : option string) : list (string * json) :=
  match type_id with
  | Some id => if (truthy id && negb (is_null_opcua_type_node_id id))%bool then [("x-opcua-structureTypeId", JStr id)] else []
  | None => []
  end.

Definition is_list (v : ua_value) : bool := match v with UList _ => true | _ => false end.

(** [_schema_for_structured_value]. *)
Definition value_step (v : ua_value) (data_type variant_type : option string) (is_array : option bool) (infos : list OpcUaNamespaceInfo) : M (option json) :=
  let some (m : M json) : M (option json) := bind m (fun schema => ret (Some schema)) in
  if (is_list v || bool_decide (is_array = Some true))%bool then
    some (bind (schema_for_array_items v data_type variant_type infos) (fun items => ret (array_of items)))
  else
    match v with
    | UExtension type_id body =>
        let type_id := expanded_if_node_id type_id infos in
        match body with
        | UNone => some (data_type_or_object (if truthy_opt data_type then data_type else type_id) (structure_metadata type_id) infos)
        | _ =>
            some (reference_or_register_structure (extension_key type_id body) body (structure_metadata type_id))
        end
    | _ =>
        if is_structure_value v then some (reference_or_register_structure (structure_schema_key v) v [])
        else if is_extension_variant variant_type then some (data_type_or_object data_type [] infos)
        else ret None
    end.

(** ** Schemas of classes *)

(** [_schema_from_hint_token]. *)
Definition schema_from_hint_token (h : hint) : M (option json) :=
  let of_class (c : class_id) := bind (schema_for_annotation (AnnClass c)) (fun schema => ret (Some schema)) in
  match h with
  | HintText s => bind (schema_for_annotation_string s) (fun schema => ret (Some schema))
  | HintClass c => of_class c
  | HintObject name cls =>
      match name ≫= resolve_structure_type_by_name u with
      | Some c => of_class c
      | None => if is_structured_class u cls then of_class cls else ret None
      end
  end.

(** The first schema that is more than a string. *)
Definition telling (schema : option json) : option json := match schema with Some s => if is_stringish_schema s then None else Some s | None => None end.

Fixpoint first_telling (l : list (M (option json))) : M (option json) :=
  match l with
  | [] => ret None
  | m :: l' => bind m (fun schema => match telling schema with Some s => ret (Some s) | None => first_telling l' end)
  end.

(** [_schema_from_field_runtime_hints]. *)
Definition schema_from_field_runtime_hints (f : Field) : M (option json) :=
  first_telling
    (map schema_from_hint_token (fl_metadata f) ++
     match fl_default f with Some h => [schema_from_hint_token h] | None => [] end ++
     match fl_default_factory f with
     | Some (h, produced) =>
         schema_from_hint_token h :: match produced with None | Some UNone => [] | Some v => [rec _ (TValue v None None None [])] end
     | None => []
     end).

(** A schema that is only a string gives way. *)
Definition refined (override : option string) (schema : json) : M json :=
  match override with
  | Some token => if is_stringish_schema schema then schema_for_annotation_string token else ret schema
  | None => ret schema
  end.

Definition field_annotation (c : class_id) (k : PyClass) (f : Field) : annotation :=
  default (fl_type f) (evaluate_generated_annotation u (fl_type f) c k (fl_name f)).

(** The schema of a field of a dataclass. *)
Definition field_schema (c : class_id) (k : PyClass) (f : Field) : M json :=
  bind (schema_for_annotation (field_annotation c k f)) (fun schema =>
  bind (refined (ua_type_overrides k !! fl_name f) schema) (fun schema =>
  bind (refined (vartype_overrides k !! fl_name f) schema) (fun schema =>
    if is_stringish_schema schema then bind (schema_from_field_runtime_hints f) (fun hinted => ret (default schema hinted)) else ret schema))).

Definition is_nodeid_structure_type (k : PyClass) : bool := bool_decide (pc_name k ∈ ["NodeId"; "ExpandedNodeId"]).

Definition annotated (k : PyClass) : list (string * annotation) := List.filter (fun p => negb (is_filtered_structure_field p.1)) (pc_annotations k).

(** [_nodeid_discriminated_schema_for_type]. *)
Definition nodeid_schema (k : PyClass) : M json :=
  let property (p : string * annotation) : M (string * json) :=
    if bool_decide (p.1 = "Identifier") then ret (p.1, empty_schema) else bind (schema_for_annotation p.2) (fun schema => ret (p.1, schema)) in
  bind (mmap property (annotated k)) (fun properties =>
    ret (JObj [("type", JStr "object"); ("title", JStr (pc_name k)); ("properties", JObj (dict_items (dict_of_list properties)));
               ("required", JArr (map (fun p => JStr p.1) (annotated k))); ("additionalProperties", JBool false); ("oneOf", JArr nodeid_identifier_branches)])).

(** The dimensions of an argument may be null. *)
Definition argument_schema (schema : json) : M json :=
  match obj_get "properties" schema with
  | Some properties =>
      bind (key_of (obj_get "ArrayDimensions" properties)) (fun dimensions =>
        ret (obj_set "properties" (obj_set "ArrayDimensions" (obj_set "type" (JArr [JStr "array"; JStr "null"]) dimensions) properties) schema))
  | None => key_of None
  end.

(** [_structure_schema_for_type]. *)
Definition class_step (c : class_id) : M json :=
  bind (key_of (class_of u c)) (fun k =>
    if is_nodeid_structure_type k then nodeid_schema k
    else
      bind (match pc_fields k with
            | Some fields =>
                mmap (fun f => bind (field_schema c k f) (fun schema => ret (fl_name f, schema)))
                  (List.filter (fun f => negb (is_filtered_structure_field (fl_name f))) fields)
            | None => mmap (fun p => bind (schema_for_annotation p.2) (fun schema => ret (p.1, schema))) (annotated k)
            end) (fun properties =>
        let schema := object_schema (pc_name k) properties in
        if pc_is_argument k then argument_schema schema else ret schema)).

Definition step A (t : job A) : M A :=
  match t in job A return M A with
  | TAnnotation a => annotation_step a
  | TText s => text_step s
  | TType key c metadata => type_step key c metadata
  | TClass c => class_step c
  | TValue v data_type variant_type is_array infos => value_step v data_type variant_type is_array infos
  end.
End Calls.

Fixpoint run_job (fuel : nat) A (t : job A) : M A :=
  match fuel with O => fun _ => NoFuel | S fuel' => step (run_job fuel') A t end.

(** ** How much fuel is enough

    A call for a smaller text, annotation or value needs less. A class is only looked into for a key that was not registered
    before, and there are finitely many keys. *)

Definition text_size (s : string) : nat := (3 + length (chars s))%nat.

Fixpoint annotation_size (a : annotation) : nat :=
  match a with
  | AnnText s | AnnForward s => S (text_size s)
  | AnnSequence item => S match item with Some a => annotation_size a | None => 1 end
  | AnnGeneric args => S (sum_list_with (fun o => match o with Some a => annotation_size a | None => O end) args)
  | AnnClass _ => 2
  | AnnOther => 1
  end.

Fixpoint value_size (v : ua_value) : nat :=
  match v with
  | UList l => S (sum_list_with value_size l)
  | UExtension type_id body => S (value_size type_id + value_size body)
  | UDict items | UStruct _ items => S (sum_list_with (fun p => value_size p.2) items)
  | _ => 1
  end.

Definition hint_size (h : hint) : nat := match h with HintText s => text_size s | _ => 2 end.
Definition opt_size {A} (f : A -> nat) (o : option A) : nat := match o with Some x => f x | None => O end.

Definition produced_of (f : Field) : option ua_value := fl_default_factory f ≫= snd.

Definition field_size (c : class_id) (k : PyClass) (f : Field) : nat :=
  (annotation_size (field_annotation c k f) + opt_size text_size (ua_type_overrides k !! fl_name f) + opt_size text_size (vartype_overrides k !! fl_name f) +
   sum_list_with hint_size (fl_metadata f) + opt_size hint_size (fl_default f) + opt_size (fun p => hint_size p.1) (fl_default_factory f) +
   opt_size (fun v => S (value_size v)) (produced_of f))%nat.

Definition class_size (c : class_id) : nat :=
  match class_of u c with
  | Some k => S (sum_list_with (field_size c k) (default [] (pc_fields k)) + sum_list_with (fun p => annotation_size p.2) (pc_annotations k))
  | None => 1
  end.

Definition job_size {A} (t : job A) : nat :=
  match t with
  | TAnnotation a => annotation_size a
  | TText s => text_size s
  | TType _ _ _ => 1
  | TClass c => class_size c
  | TValue v _ _ _ _ => S (value_size v)
  end.

(** The keys that a value may be registered under, and those of its data types. *)
Definition data_type_keys (data_type : option string) (infos : list OpcUaNamespaceInfo) : list string :=
  match data_type with Some d => [data_type_key d infos] | None => [] end.

Fixpoint value_keys (data_type : option string) (infos : list OpcUaNamespaceInfo) (v : ua_value) : list string :=
  data_type_keys data_type infos ++
  match v with
  | UList l => flat_map (value_keys data_type infos) l
  | UExtension type_id body =>
      let id := expanded_if_node_id type_id infos in
      extension_key id body :: data_type_keys id infos ++ value_keys None [] type_id ++ value_keys None [] body
  | UDict items => flat_map (fun p => value_keys None [] p.2) items
  | UStruct _ items => structure_schema_key v :: flat_map (fun p => value_keys None [] p.2) items
  | _ => []
  end.

Definition produced_keys (f : Field) : list string := match produced_of f with Some v => value_keys None [] v | None => [] end.

Definition class_keys (k : PyClass) : list string :=
  map (fun prefix => class_key prefix k) ["py-annotation:"; "ua-annotation:"; "module-annotation:"] ++ flat_map produced_keys (default [] (pc_fields k)).

Definition universe_keys : list string := flat_map class_keys (dict_values (un_classes u)).

(** More than any class takes. *)
Definition class_weight : nat := S (sum_list_with class_size (dict_keys (un_classes u))).

Definition enough_fuel (keys : list string) (size : nat) : nat := (length keys * class_weight + size)%nat.

(** ** Members *)

(** [_member_is_array]. *)
Definition member_is_array (m : OpcUaObjectTypeMemberInfo) : option bool :=
  if (bool_decide (om_is_array m = Some true) || match om_value_rank m with Some rank => 1 <=? rank | None => false end)%bool then Some true else om_is_array m.

(** The expanded id, or the id. *)
Definition expanded_or (id : string) (infos : list OpcUaNamespaceInfo) : string := or_str (expanded_node_id id infos) id.

(** A member that is set if there is a value. *)
Definition set_some (key : string) (x : option json) (schema : json) : json := match x with Some x => obj_set key x schema | None => schema end.

Definition truthy_text (s : option string) : option string := match s with Some s => if truthy s then Some s else None | None => None end.

(** [_references_for_member]. *)
Definition references_for_member (m : OpcUaObjectTypeMemberInfo) (infos : list OpcUaNamespaceInfo) : list json :=
  match truthy_text (om_parent_node_id m) with
  | None => []
  | Some parent =>
      [set_some "order" (JInt <$> om_reference_order m)
        (set_some "referenceTypeId" ((fun id => JStr (expanded_or id infos)) <$> truthy_text (om_reference_type_id m))
        (set_some "referenceType" (JStr <$> truthy_text (om_reference_type m))
          (JObj [("sourceNodeId", JStr (expanded_node_id parent infos)); ("targetNodeId", JStr (expanded_node_id (om_node_id m) infos))])))]
  end.

Definition nonempty_arr (l : list json) : option json := match l with [] => None | _ => Some (JArr l) end.

(** What [_schema_for_member] adds to the schema of a value. *)
Definition member_metadata (m : OpcUaObjectTypeMemberInfo) (infos : list OpcUaNamespaceInfo) (schema : json) : json :=
  let set key (s : option string) := set_some key (JStr <$> truthy_text s) in
  let set_id key (s : option string) := set_some key ((fun id => JStr (expanded_or id infos)) <$> truthy_text s) in
  let schema := match obj_get "$ref" schema with Some _ => JObj [("allOf", JArr [schema])] | None => schema end in
  let schema := set "x-opcua-modellingRule" (om_modelling_rule m) schema in
  let schema := set_id "x-opcua-dataTypeId" (om_data_type m) schema in
  let schema := set_some "x-opcua-valueRank" (JInt <$> om_value_rank m) schema in
  let schema := set_some "x-opcua-arrayDimensions" (nonempty_arr (map JInt (default [] (om_array_dimensions m)))) schema in
  let schema := set_id "x-opcua-typeDefinition" (om_type_definition_id m) schema in
  let schema := obj_set "x-opcua-nodeId" (JStr (expanded_node_id (om_node_id m) infos)) schema in
  let schema := obj_set "x-opcua-displayName" (JStr (om_display_name m)) schema in
  let schema := set_id "x-opcua-referenceTypeId" (om_reference_type_id m) schema in
  let schema := set "x-opcua-referenceType" (om_reference_type m) schema in
  let schema := set_some "x-opcua-referenceOrder" (JInt <$> om_reference_order m) schema in
  let schema := set_some "x-opcua-references" (nonempty_arr (references_for_member m infos)) schema in
  let schema := set "description" (om_description m) schema in
  let schema := match om_value m with UNone => schema | v => obj_set "x-opcua-value" (to_json_metadata_value infos v) schema end in
  if bool_decide (om_display_name m = om_browse_name m) then schema else set "title" (Some (om_display_name m)) schema.

Section Types.
Context (fuel : nat) (infos : list OpcUaNamespaceInfo) (resolved_data_type_schemas : dict string json).

Definition schema_for_structured_value : ua_value -> option string -> option string -> option bool -> M (option json) :=
  fun v data_type variant_type is_array => run_job fuel _ (TValue v data_type variant_type is_array infos).

(** The schema that is known of the data type of a member. *)
Definition resolved_schema (m : OpcUaObjectTypeMemberInfo) : option json :=
  id ← truthy_text (om_data_type m);
  let expanded := expanded_node_id id infos in
  if truthy expanded then resolved_data_type_schemas !! lower expanded else None.

(** [_schema_for_member]. *)
Definition schema_for_member (m : OpcUaObjectTypeMemberInfo) : M json :=
  bind (schema_for_structured_value (om_schema_value m) (om_data_type m) (om_variant_type m) (member_is_array m)) (fun structured =>
  ret (member_metadata m infos
    (if bool_decide (lower (om_node_class m) = "object") then typed "object"
     else match resolved_schema m, structured with
          | Some schema, _ => if bool_decide (member_is_array m = Some true) then array_of schema else schema
          | None, Some schema => schema
          | None, None => json_schema_for_opcua_type (om_data_type m)
          end))).

Definition is_mandatory (m : OpcUaObjectTypeMemberInfo) : bool :=
  bool_decide (lower (strip (default ε (om_modelling_rule m))) ∈ ["mandatory"; "mandatoryplaceholder"]).

(** [_references_for_type]. *)
Definition references_for_type (item : OpcUaObjectTypeInfo) : list json :=
  match truthy_text (ot_parent_node_id item) with
  | Some parent => [JObj [("referenceType", JStr "HasSubtype"); ("targetNodeId", JStr (expanded_node_id parent infos))]]
  | None => []
  end.

(** The names of the mandatory members, once each. *)
Definition required_members (item : OpcUaObjectTypeInfo) : list string := unique_ids (map om_browse_name (List.filter is_mandatory (ot_members item))).

Definition parent_id_schema (item : OpcUaObjectTypeInfo) : option json := (fun parent => JStr (expanded_node_id parent infos)) <$> truthy_text (ot_parent_node_id item).

(** [_schema_for_single_type], with its properties apart. *)
Definition schema_for_single_type (item : OpcUaObjectTypeInfo) : M (json * dict string json) :=
  bind (mmap (fun m => bind (schema_for_member m) (fun schema => ret (om_browse_name m, schema))) (ot_members item)) (fun properties =>
  let properties := dict_of_list properties in
  ret
    (set_some "x-opcua-references" (nonempty_arr (references_for_type item))
    (set_some "required" (nonempty_arr (map JStr (required_members item)))
    (set_some "x-opcua-isAbstract" (JBool <$> ot_is_abstract item)
    (set_some "description" (JStr <$> truthy_text (ot_description item))
    (set_some "x-opcua-superTypeNodeId" (parent_id_schema item)
      (JObj [("type", JStr "object"); ("title", JStr (ot_display_name item)); ("x-opcua-nodeId", JStr (expanded_node_id (ot_node_id item) infos));
             ("x-opcua-displayName", JStr (ot_display_name item)); ("properties", JObj (dict_items properties))]))))), properties)).

(** [_def_key] of [_definition_name]: with the escapes of a JSON pointer. *)
Definition def_key (node_id : string) : string :=
  of_chars (flat_map (fun c => if ceqb c "~"%char then chars "~0" else if ceqb c slash then chars "~1" else [c]) (chars node_id)).

Definition definition_name (element_ids_by_node_id : dict string string) (item : OpcUaObjectTypeInfo) : string :=
  dict_get_default ("unresolved-objecttype:" +:+ lower (ot_browse_name item)) (ot_node_id item) element_ids_by_node_id.

(** [_lineage], the type itself first; [seen]: the types before. *)
Fixpoint ancestors (n : nat) (object_types_by_node_id : dict string OpcUaObjectTypeInfo) (seen : list string) (item : OpcUaObjectTypeInfo) : list OpcUaObjectTypeInfo :=
  match n with
  | O => []
  | S n' =>
      if bool_decide (ot_node_id item ∈ seen) then []
      else item :: match truthy_text (ot_parent_node_id item) ≫= fun parent => object_types_by_node_id !! parent with
                   | Some parent => ancestors n' object_types_by_node_id (ot_node_id item :: seen) parent
                   | None => []
                   end
  end.

Definition lineage (item : OpcUaObjectTypeInfo) (object_types_by_node_id : dict string OpcUaObjectTypeInfo) : list OpcUaObjectTypeInfo :=
  reverse (ancestors (S (S (dict_len object_types_by_node_id))) object_types_by_node_id [] item).

(** What the loop over the lineage collects: references, properties and the names of mandatory members. *)
Record Collected := { co_all_of : list json; co_properties : dict string json; co_required : list string }.

Definition reference_json (name : string) : json := JObj [("$ref", JStr (local_prefix +:+ name))].

Definition collect_ancestor (element_ids_by_node_id : dict string string) (co : Collected) (ancestor : OpcUaObjectTypeInfo) : M Collected :=
  let definition_key := def_key (definition_name element_ids_by_node_id ancestor) in
  bind (schema_for_single_type ancestor) (fun '(schema, properties) =>
  bind (modify (set_definition definition_key schema)) (fun _ =>
  ret {| co_all_of := co_all_of co ++ [reference_json definition_key];
         co_properties := dict_update properties (co_properties co);
         co_required := unique_ids (co_required co ++ required_members ancestor) |})).

Fixpoint collect_lineage (element_ids_by_node_id : dict string string) (co : Collected) (l : list OpcUaObjectTypeInfo) : M Collected :=
  match l with [] => ret co | ancestor :: l' => bind (collect_ancestor element_ids_by_node_id co ancestor) (fun co' => collect_lineage element_ids_by_node_id co' l') end.

(** [build_object_type_schema] before equal definitions are merged. *)
Definition assembled_schema (item : OpcUaObjectTypeInfo) (defs : dict string json) (co : Collected) : json :=
  set_some "required" (nonempty_arr (map JStr (co_required co)))
  (set_some "x-opcua-isAbstract" (JBool <$> ot_is_abstract item)
  (set_some "description" (JStr <$> truthy_text (ot_description item))
  (set_some "x-opcua-references" (nonempty_arr (references_for_type item))
  (set_some "x-opcua-typeDefinition" (parent_id_schema item)
  (set_some "x-opcua-superTypeNodeId" (parent_id_schema item)
    (JObj [("$schema", JStr "https://json-schema.org/draft/2020-12/schema"); ("type", JStr "object"); ("title", JStr (ot_display_name item));
           ("x-opcua-nodeId", JStr (expanded_node_id (ot_node_id item) infos)); ("x-opcua-displayName", JStr (ot_display_name item));
           ("properties", JObj (dict_items (co_properties co))); ("$defs", JObj (dict_items defs)); ("allOf", JArr (co_all_of co))])))))).

(** [build_object_type_schema]. *)
Definition build_with_fuel (include_opcua_fields : bool) (item : OpcUaObjectTypeInfo) (object_types_by_node_id : dict string OpcUaObjectTypeInfo)
    (element_ids_by_node_id : dict string string) : computed json :=
  match collect_lineage element_ids_by_node_id {| co_all_of := []; co_properties := ∅; co_required := [] |} (lineage item object_types_by_node_id) empty_registry with
  | Got r co =>
      let schema := dedupe_defs_and_rewrite_local_refs (assembled_schema item (sr_defs r) co) in
      Got r (if include_opcua_fields then schema else remove_opcua_schema_fields schema)
  | KeyMissing => KeyMissing
  | NoFuel => NoFuel
  end.

(** [build_data_type_schema]. *)
Definition data_type_with_fuel (include_opcua_fields : bool) (data_type : string) : computed (option json) :=
  match schema_from_data_type (run_job fuel) (Some data_type) infos empty_registry with
  | Got r (Some schema) =>
      match expand_schema_refs (expand_fuel (inline_registered_reference schema r) (sr_defs r)) (sr_defs r) [] (inline_registered_reference schema r) with
      | Some expanded => Got r (if is_obj expanded then Some (if include_opcua_fields then expanded else remove_opcua_schema_fields expanded) else None)
      | None => NoFuel
      end
  | Got r None => Got r None
  | KeyMissing => KeyMissing
  | NoFuel => NoFuel
  end.
End Types.

(** The keys of the values of members. *)
Definition member_keys (infos : list OpcUaNamespaceInfo) (m : OpcUaObjectTypeMemberInfo) : list string := value_keys (om_data_type m) infos (om_schema_value m).

Definition members_of (l : list OpcUaObjectTypeInfo) : list OpcUaObjectTypeMemberInfo := flat_map ot_members l.

Definition schema_fuel (infos : list OpcUaNamespaceInfo) (l : list OpcUaObjectTypeInfo) : nat :=
  enough_fuel (universe_keys ++ flat_map (member_keys infos) (members_of l)) (S (sum_list_with (fun m => value_size (om_schema_value m)) (members_of l))).

Definition build_object_type_schema (infos : list OpcUaNamespaceInfo) (resolved_data_type_schemas : dict string json) (include_opcua_fields : bool)
    (item : OpcUaObjectTypeInfo) (object_types_by_node_id : dict string OpcUaObjectTypeInfo) (element_ids_by_node_id : dict string string) : computed json :=
  build_with_fuel (schema_fuel infos (lineage item object_types_by_node_id)) infos resolved_data_type_schemas include_opcua_fields item object_types_by_node_id
    element_ids_by_node_id.

Definition build_data_type_schema (infos : list OpcUaNamespaceInfo) (include_opcua_fields : bool) (data_type : string) : computed (option json) :=
  data_type_with_fuel (enough_fuel (universe_keys ++ data_type_keys (Some data_type) infos) 1) infos include_opcua_fields data_type.
End Schemas_.
End ObjectSchema.
