(* ===== verification/ObjectSchemaRuns.v ===== *)
(** The calls of [ObjectSchema]: with the fuel that a job needs they end, with a good registry and a schema that refers to
    reserved names only. [step_ends] is the step of one call, [run_ends] its induction over the fuel. *)

From S2P Require Import ObjectSchema SchemasSpec.
Local Open Scope string_scope.
Local Open Scope list_scope.
Local Open Scope nat_scope.

Module ObjectSchemaRuns.
Export ObjectSchema.
Import SchemasSpec.

(** ** Parts of a text are shorter *)

Lemma drop_while_length {A} (p : A -> bool) l : length (drop_while p l) <= length l.
Proof. induction l as [|x l IH]; cbn; [done|]. destruct (p x); cbn; lia. Qed.

Lemma rdrop_while_length {A} (p : A -> bool) l : length (rdrop_while p l) <= length l.
Proof. unfold rdrop_while. rewrite length_reverse. etrans; [apply drop_while_length|]. by rewrite length_reverse. Qed.

Abbreviation size s := (length (chars s)).

Lemma strip_size s : size (strip s) <= size s.
Proof. unfold strip. rewrite chars_of_chars. etrans; [apply rdrop_while_length|apply drop_while_length]. Qed.

Lemma strip_chars_size cs s : size (strip_chars cs s) <= size s.
Proof. unfold strip_chars. rewrite chars_of_chars. etrans; [apply rdrop_while_length|apply drop_while_length]. Qed.

Lemma str_drop_size n s : size (str_drop n s) = size s - n.
Proof. unfold str_drop. by rewrite chars_of_chars, length_drop. Qed.

Lemma str_drop_end_size n s : size (str_drop_end n s) = size s - n.
Proof. unfold str_drop_end. rewrite chars_of_chars, length_take. lia. Qed.

Lemma remove_prefix_size p s : size (remove_prefix p s) <= size s.
Proof. unfold remove_prefix. destruct (startswith p s); [|done]. rewrite str_drop_size. lia. Qed.

Lemma normalized_size s : size (normalized_annotation s) <= size s.
Proof.
  unfold normalized_annotation. etrans; [apply remove_prefix_size|]. etrans; [apply remove_prefix_size|].
  etrans; [apply strip_size|apply strip_chars_size].
Qed.

Lemma split_at_length c l x : x ∈ split_at c l -> length x <= length l.
Proof.
  revert x. induction l as [|a l IH]; cbn [split_at]; intros x Hx; [apply list_elem_of_singleton in Hx as ->; done|].
  destruct (ceqb a c); [apply elem_of_cons in Hx as [->|Hx]; cbn; [lia|]; apply IH in Hx; lia|].
  destruct (split_at c l) as [|w ws]; [apply list_elem_of_singleton in Hx as ->; cbn; lia|].
  apply elem_of_cons in Hx as [->|Hx]; cbn; [|pose proof (IH x ltac:(by right)); lia]. pose proof (IH w ltac:(by left)). lia.
Qed.

Lemma split_at_shorter c l x : c ∈ l -> x ∈ split_at c l -> length x < length l.
Proof.
  revert x. induction l as [|a l IH]; cbn [split_at]; intros x Hc Hx; [by apply elem_of_nil in Hc|]. unfold ceqb in Hx. case_bool_decide as Ha.
  - apply elem_of_cons in Hx as [->|Hx]; cbn; [lia|]. apply split_at_length in Hx. lia.
  - assert (Hc' : c ∈ l) by (apply elem_of_cons in Hc as [->|Hc]; [by contradict Ha|done]).
    destruct (split_at c l) as [|w ws]; [apply list_elem_of_singleton in Hx as ->; cbn; destruct l; [by apply elem_of_nil in Hc'|cbn; lia]|].
    apply elem_of_cons in Hx as [->|Hx]; cbn; [pose proof (IH w Hc' ltac:(by left)); lia|]. pose proof (IH x Hc' ltac:(by right)). lia.
Qed.

Lemma split_parts_size c s p : p ∈ split_parts c s -> size p <= size s /\ (c ∈ chars s -> size p < size s).
Proof.
  unfold split_parts. intros [Hp _]%elem_of_filter_list. apply elem_of_map in Hp as (q & -> & Hq). unfold str_split in Hq.
  apply elem_of_map in Hq as (l & -> & Hl). pose proof (strip_size (of_chars l)) as H. rewrite chars_of_chars in H.
  pose proof (split_at_length _ _ _ Hl). split; [lia|]. intros Hc. pose proof (split_at_shorter _ _ _ Hc Hl). lia.
Qed.

Lemma str_in_char (c : ascii) s : str_in (of_chars [c]) s = true -> c ∈ chars s.
Proof.
  unfold str_in. rewrite chars_of_chars. induction (chars s) as [|a l IH]; [done|]. cbn [contains starts_with].
  rewrite andb_true_r, orb_true_iff. unfold ceqb. intros [->%bool_decide_eq_true|H]; [by left|right; by apply IH].
Qed.

Lemma prefix_length p l : starts_with p l = true -> length p <= length l.
Proof. intros [r ->]%starts_with_spec. rewrite length_app. lia. Qed.

Lemma lower_size s : size (lower s) = size s.
Proof. unfold lower. rewrite chars_of_chars. apply List.length_map. Qed.

Lemma startswith_size p s : startswith p s = true -> size p <= size s.
Proof. apply prefix_length. Qed.

Lemma endswith_size p s : endswith p s = true -> size p <= size s.
Proof. unfold endswith. intros H%prefix_length. by rewrite !length_reverse in H. Qed.

Lemma bracketed_size prefix s x : 0 < size prefix -> bracketed prefix s = Some x -> size x < size s.
Proof.
  unfold bracketed. intros Hp. destruct (_ && _)%bool eqn:E; [|done]. intros [= <-]. apply andb_true_iff in E as [E _].
  apply startswith_size in E. rewrite lower_size in E. rewrite str_drop_end_size, str_drop_size. lia.
Qed.

(** The texts that a text leads to. *)
Definition subtexts (shape : text_shape) : list string :=
  match shape with TextNullable s | TextArray s => [s] | TextAnyOf parts => parts | _ => [] end.

Lemma union_subtexts parts : subtexts (union_shape parts) ⊆ parts.
Proof.
  unfold union_shape. destruct (List.filter _ parts) as [|s [|]] eqn:E; [done| |done]. destruct (1 <? length parts); [|done].
  intros x ->%list_elem_of_singleton. assert (H : s ∈ List.filter (fun p => negb (is_none_name p)) parts) by (rewrite E; by left).
  by apply elem_of_filter_list in H as [H _].
Qed.

Lemma plain_subtexts u s x : x ∈ subtexts (plain_shape u s) -> size x < size s.
Proof.
  unfold plain_shape. destruct (endswith "[]" (lower s)) eqn:E.
  - apply endswith_size in E. rewrite lower_size in E. cbn in E. intros ->%list_elem_of_singleton. rewrite str_drop_end_size. lia.
  - destruct (bracketed "list[" s) as [y|] eqn:E1; [intros ->%list_elem_of_singleton; by apply bracketed_size in E1; [|cbn; lia]|].
    destruct (bracketed "sequence[" s) as [y|] eqn:E2; [intros ->%list_elem_of_singleton; by apply bracketed_size in E2; [|cbn; lia]|].
    assert (Hnil : forall y, x ∈ subtexts (unresolved_shape y) -> size x < size s) by (intros y Hx; by apply elem_of_nil in Hx).
    assert (Himp : x ∈ subtexts (imported_shape u s) -> size x < size s).
    { unfold imported_shape. repeat case_match; try apply Hnil; cbn; by intros Hx%elem_of_nil. }
    destruct (items_lookup _ scalar_map); [cbn; by intros Hx%elem_of_nil|]. unfold named_shape.
    repeat case_match; try exact Himp; cbn; by intros Hx%elem_of_nil.
Qed.

Lemma text_subtexts u s x : x ∈ subtexts (text_shape_of u s) -> size x < size s.
Proof.
  intros Hx. eapply Nat.lt_le_trans; [|apply (normalized_size s)]. revert Hx. unfold text_shape_of. set (n := normalized_annotation s).
  destruct (if str_in "|" n then _ else []) as [|p ps] eqn:E.
  - destruct (bracketed "optional[" n) as [y|] eqn:E1; [intros ->%list_elem_of_singleton; by apply bracketed_size in E1; [|cbn; lia]|].
    destruct (bracketed "union[" n) as [body|] eqn:E3; [|apply plain_subtexts]. cbn [fmap option_fmap option_map default from_option id].
    pose proof (fun y => split_parts_size ","%char body y) as Hparts. destruct (split_parts ","%char body) as [|q qs]; [apply plain_subtexts|].
    intros [Hx _]%Hparts. apply bracketed_size in E3; [|cbn; lia]. lia.
  - destruct (str_in "|" n) eqn:Eb; [|done]. intros Hx%union_subtexts. rewrite <-E in Hx. apply split_parts_size in Hx as [_ Hx].
    apply Hx. by apply str_in_char.
Qed.

Lemma sum_elem {A} (f : A -> nat) l x : x ∈ l -> f x <= sum_list_with f l.
Proof. induction 1 as [|y l H IH]; cbn; lia. Qed.

(** The annotation that an annotation leads to. *)
Lemma annotation_shape_size u a :
  match annotation_shape_of u a with
  | AnnotationText s => text_size s < annotation_size a
  | AnnotationArray b | AnnotationNullable b => annotation_size b < annotation_size a
  | AnnotationClass c k => class_of u c = Some k /\ is_structured_class u c = true /\ 1 < annotation_size a
  | AnnotationSchema _ => True
  end.
Proof.
  destruct a as [s|s|item|args|c|]; cbn [annotation_shape_of]; [cbn; lia|destruct (truthy (strip s)); [cbn; lia|done]|destruct item; cbn; lia| | |done].
  - destruct (omap id args) as [|b [|]] eqn:E; [done| |done]. destruct (1 <? length args); [|done]. cbn [annotation_size].
    assert (Hb : Some b ∈ args) by (assert (H : b ∈ omap id args) by (rewrite E; by left); apply list_elem_of_omap in H as (o & Ho & Heq); cbn in Heq; by rewrite Heq in Ho).
    apply (sum_elem (fun o => match o with Some a => annotation_size a | None => 0 end)) in Hb. cbn beta iota in Hb. lia.
  - destruct (class_of u c) as [k|] eqn:E; [|done]. unfold class_shape. repeat case_match; try done; (split_and!; [congruence|congruence|cbn; lia]).
Qed.

(** ** References of schemas *)

Abbreviation refs := iter_local_defs_refs.

Lemma refs_arr l m : m ∈ refs (JArr l) <-> exists x, x ∈ l /\ m ∈ refs x.
Proof.
  cbn [refs]. rewrite list_elem_of_In, in_flat_map. split; intros (x & Hx & Hm); exists x; by rewrite ?list_elem_of_In in *.
Qed.

Lemma refs_obj l m : m ∈ refs (JObj l) <-> items_lookup "$ref" l ≫= local_ref = Some m \/ exists p, p ∈ l /\ m ∈ refs p.2.
Proof.
  cbn [refs]. rewrite elem_of_app. split; intros [H|H].
  - left. destruct (items_lookup "$ref" l ≫= local_ref); [by apply list_elem_of_singleton in H as ->|by apply elem_of_nil in H].
  - right. apply list_elem_of_In, in_flat_map in H as (p & Hp & Hm). exists p. by rewrite ?list_elem_of_In in *.
  - left. rewrite H. by left.
  - right. destruct H as (p & Hp & Hm). apply list_elem_of_In, in_flat_map. exists p. by rewrite ?list_elem_of_In in *.
Qed.

Lemma no_refs_pure v : refs v = [] -> pure v = true.
Proof.
  induction v as [| | | | |l IH|l IH] using json_rect'; try done; rewrite Forall_forall in IH; intros Hv.
  - cbn [pure]. apply List.forallb_forall. intros x Hx%list_elem_of_In. apply IH; [done|]. apply elem_of_nil_inv. intros m Hm.
    apply (elem_of_nil m). rewrite <-Hv. apply refs_arr. by exists x.
  - assert (Hm : forall p, p ∈ l -> refs p.2 = []).
    { intros p Hp. apply elem_of_nil_inv. intros m Hm. apply (elem_of_nil m). rewrite <-Hv. apply refs_obj. right. by exists p. }
    cbn [pure]. apply andb_true_iff. split; [apply List.forallb_forall; intros p Hp%list_elem_of_In; by apply IH, Hm|].
    destruct (items_lookup "$ref" l ≫= local_ref); [|done]. apply List.forallb_forall. intros p Hp%list_elem_of_In. apply bool_decide_eq_true. by apply Hm.
Qed.

(** The schema refers to names with the property only, and its references stand alone. *)
Definition schema_ok (P : string -> Prop) (v : json) : Prop := pure v = true /\ forall m, m ∈ refs v -> P m.

Lemma ok_mono (P Q : string -> Prop) v : (forall m, P m -> Q m) -> schema_ok P v -> schema_ok Q v.
Proof. intros H [Hp Hr]. split; [done|]. intros m Hm. by apply H, Hr. Qed.

Lemma ok_plain P v : refs v = [] -> schema_ok P v.
Proof. intros H. split; [by apply no_refs_pure|]. rewrite H. by intros m Hm%elem_of_nil. Qed.

Section Ok.
Context (P : string -> Prop).
Abbreviation ok := (schema_ok P).

Lemma ok_arr l : ok (JArr l) <-> Forall ok l.
Proof using.
  rewrite Forall_forall. unfold schema_ok. cbn [pure]. rewrite List.forallb_forall. split.
  - intros [Hp Hr] x Hx. split; [by apply Hp, list_elem_of_In|]. intros m Hm. apply Hr, refs_arr. by exists x.
  - intros H. split; [intros x Hx%list_elem_of_In; by apply H|]. intros m (x & Hx & Hm)%refs_arr. by apply (H x).
Qed.

Lemma ok_obj l : items_lookup "$ref" l ≫= local_ref = None -> Forall (fun p => ok p.2) l -> ok (JObj l).
Proof using.
  rewrite Forall_forall. intros E H. split.
  - cbn [pure]. rewrite E, andb_true_r. apply List.forallb_forall. intros p Hp%list_elem_of_In. by apply H.
  - intros m [Hm|(p & Hp & Hm)]%refs_obj; [congruence|]. by apply (H p).
Qed.

Lemma ok_obj_elem l p : ok (JObj l) -> p ∈ l -> ok p.2.
Proof using.
  intros [Hp Hr] Hin. cbn [pure] in Hp. apply andb_true_iff in Hp as [Hp _]. rewrite List.forallb_forall in Hp.
  split; [by apply Hp, list_elem_of_In|]. intros m Hm. apply Hr, refs_obj. right. by exists p.
Qed.

Lemma ok_reference name : P name -> ok (JObj [("$ref", JStr (local_prefix +:+ name))]).
Proof using.
  intros HP. split.
  - cbn [pure items_lookup]. rewrite bool_decide_true by done. cbn [mbind option_bind]. rewrite local_ref_local. done.
  - intros m [Hm|(p & ->%list_elem_of_singleton & Hm)]%refs_obj; [|by apply elem_of_nil in Hm].
    cbn [items_lookup] in Hm. rewrite bool_decide_true in Hm by done. cbn [mbind option_bind] in Hm. rewrite local_ref_local in Hm. by injection Hm as <-.
Qed.

Lemma lookup_insert_ref k x (l : list (string * json)) : k ≠ "$ref" -> items_lookup "$ref" (items_insert k x l) = items_lookup "$ref" l.
Proof using. intros Hk. rewrite items_lookup_insert. by rewrite bool_decide_false. Qed.

(** A member without references may stand beside a reference, any other member elsewhere. *)
Lemma ok_set k x v : k ≠ "$ref" -> (refs x = [] \/ ok x /\ obj_get "$ref" v ≫= local_ref = None) -> ok v -> ok (obj_set k x v).
Proof using.
  intros Hk Hx Hv. destruct v as [| | | | | |l]; try done. cbn [obj_set obj_get] in *.
  assert (Hok : ok x) by (destruct Hx as [Hx|[Hx _]]; [by apply ok_plain|done]).
  destruct (items_lookup "$ref" l ≫= local_ref) as [name|] eqn:E.
  - destruct Hx as [Hx|[_ ?]]; [|done]. split.
    + pose proof (proj1 Hv) as Hp. cbn [pure] in *. rewrite lookup_insert_ref by done. rewrite E in *. apply andb_true_iff in Hp as [Hp1 Hp2].
      rewrite List.forallb_forall in Hp1, Hp2. apply andb_true_iff.
      split; apply List.forallb_forall; intros p [->|Hp]%list_elem_of_In%elem_of_items_insert;
        [apply Hok|by apply Hp1, list_elem_of_In|by apply bool_decide_eq_true|by apply Hp2, list_elem_of_In].
    + intros m [Hm|(p & [->|Hp]%elem_of_items_insert & Hm)]%refs_obj; [|by cbn [snd] in Hm; rewrite Hx in Hm; apply elem_of_nil in Hm|by apply (ok_obj_elem l p)].
      rewrite lookup_insert_ref in Hm by done. apply Hv, refs_obj. by left.
  - apply ok_obj; [by rewrite lookup_insert_ref|]. apply Forall_forall. intros p [->|Hp]%elem_of_items_insert; [done|by apply (ok_obj_elem l)].
Qed.

Lemma is_obj_set k x v : is_obj v = true -> is_obj (obj_set k x v) = true.
Proof using. by destruct v. Qed.

Lemma ok_nullable v : ok v -> ok (nullable v).
Proof using.
  intros Hv. unfold nullable. destruct (obj_get "type" v) as [[| | | |t|l|]|] eqn:E; try done; [apply ok_set; [done|by left|done]|].
  destruct (existsb _ _); [done|]. destruct v as [| | | | | |m]; try done. cbn [obj_get] in E. apply items_lookup_Some_elem in E.
  destruct (obj_get "$ref" (JObj m) ≫= local_ref) as [name|] eqn:Er.
  - apply ok_set; [done| |done]. left. pose proof (proj1 Hv) as Hp. cbn [pure] in Hp. cbn [obj_get] in Er. rewrite Er in Hp.
    apply andb_true_iff in Hp as [_ Hp]. rewrite List.forallb_forall in Hp. apply list_elem_of_In, Hp, bool_decide_eq_true in E. cbn in E |- *.
    by rewrite flat_map_app, E.
  - apply ok_set; [done| |done]. right. split; [|done]. apply (ok_obj_elem m ("type", JArr l)) in E; [|done]. apply ok_arr. apply ok_arr in E.
    apply Forall_app. split; [done|]. constructor; [by apply ok_plain|done].
Qed.

Lemma is_obj_nullable v : is_obj v = true -> is_obj (nullable v) = true.
Proof using. destruct v; try done. intros _. unfold nullable. by repeat case_match. Qed.

Lemma ok_array_of items : ok items -> ok (array_of items).
Proof using. intros H. apply ok_obj; [done|]. apply Forall_cons; split; [by apply ok_plain|]. by apply Forall_singleton. Qed.

(** Additional members without references. *)
Definition plain_members (l : list (string * json)) : Prop := Forall (fun p => p.1 ≠ "$ref" /\ refs p.2 = []) l.

Lemma ok_with_metadata metadata v : plain_members metadata -> ok v -> ok (with_metadata metadata v).
Proof using.
  unfold with_metadata. intros Hm. revert v. induction Hm as [|[k x] l [Hk Hx] Hm IH]; intros v Hv; [done|]. cbn [fold_left]. apply IH, ok_set; [done|by left|done].
Qed.

Lemma is_obj_with_metadata metadata v : is_obj v = true -> is_obj (with_metadata metadata v) = true.
Proof using. unfold with_metadata. revert v. induction metadata as [|p l IH]; intros v Hv; [done|]. by apply IH, is_obj_set. Qed.

Lemma elem_of_dict_of_list {A} (l : list (string * A)) p : p ∈ dict_items (dict_of_list l) -> p ∈ l.
Proof using.
  destruct p as [k x]. intros Hp. apply dict_lookup_of_list_Some. apply dict_items_lookup; [apply dict_wf_of_list|done].
Qed.
End Ok.

(** ** Schemas without references *)

Definition plain (v : json) : Prop := is_obj v = true /\ refs v = [].

Lemma plain_type_name u token : plain (schema_for_type_name u token).
Proof. unfold schema_for_type_name. repeat case_match; by split. Qed.

Lemma plain_opcua_type u data_type : plain (json_schema_for_opcua_type u data_type).
Proof. unfold json_schema_for_opcua_type. repeat case_match; try apply plain_type_name; by split. Qed.

Lemma plain_primitive v : plain (primitive_schema_for_value v).
Proof.
  assert (H : forall n v, value_size v <= n -> plain (primitive_schema_for_value v)); [|by apply (H (value_size v))].
  clear v. induction n as [|n IH]; intros v Hv; [destruct v; cbn in Hv; lia|].
  destruct v as [|b|z|t|s|t|l|l|t b|items|cls fields]; try by split. destruct l as [|x l]; [by split|]. cbn in Hv.
  destruct (IH x ltac:(lia)) as [_ Hr]. split; [done|]. cbn. by rewrite Hr.
Qed.

Lemma plain_scalar name schema : items_lookup name scalar_map = Some schema -> plain schema.
Proof.
  intros H%items_lookup_Some_elem. assert (Hall : Forall (fun p => plain p.2) scalar_map) by (repeat constructor).
  rewrite Forall_forall in Hall. by apply Hall in H.
Qed.

Lemma refs_strings l : refs (JArr (map (fun p : string * option Z => JStr p.1) l)) = [].
Proof. cbn. by induction l. Qed.

Lemma plain_enum members : plain (enumeration_schema members).
Proof.
  unfold enumeration_schema. destruct members as [|p l]; [by split|]. destruct (mapM snd (p :: l)) as [values|]; split; try done; cbn; rewrite ?app_nil_r; cycle 1.
  { by induction l. }
  assert (Hv : forall v : list Z, flat_map refs (map JInt v) = []) by (by induction v). assert (Hl : flat_map refs (map (fun p => JStr p.1) l) = []) by (by induction l).
  by rewrite Hv, Hl.
Qed.

Lemma plain_text u s schema : text_shape_of u s = TextSchema schema -> plain schema.
Proof.
  assert (Hun : forall n schema, unresolved_shape n = TextSchema schema -> plain schema) by (intros n sch [= <-]; by case_match).
  assert (Him : forall n schema, imported_shape u n = TextSchema schema -> plain schema).
  { intros n sch. unfold imported_shape. repeat case_match; try done; apply Hun. }
  assert (Hna : forall n schema, named_shape u n = TextSchema schema -> plain schema).
  { intros n sch. unfold named_shape. repeat case_match; try done; apply Him. }
  assert (Hpl : forall n schema, plain_shape u n = TextSchema schema -> plain schema).
  { intros n sch. unfold plain_shape. destruct (endswith _ _); [done|]. destruct (bracketed _ _); [done|]. destruct (bracketed _ _); [done|].
    destruct (items_lookup _ scalar_map) eqn:E; [|apply Hna]. intros [= <-]. by eapply plain_scalar. }
  unfold text_shape_of. destruct (if str_in _ _ then _ else _) as [|q qs].
  - destruct (bracketed "optional[" _); [done|]. destruct (default [] _); [apply Hpl|done].
  - unfold union_shape. by repeat case_match.
Qed.

Lemma plain_annotation u a schema : annotation_shape_of u a = AnnotationSchema schema -> plain schema.
Proof.
  assert (Hc : forall c k schema, class_shape u c k = AnnotationSchema schema -> plain schema).
  { intros c k sch. unfold class_shape. repeat case_match; intros [= <-]; try (by split); apply plain_enum. }
  unfold annotation_shape_of. repeat case_match; try done; try (intros [= <-]; by split); apply Hc.
Qed.

Lemma text_shape_class u s prefix c k : text_shape_of u s = TextClass prefix c k ->
  class_of u c = Some k /\ prefix ∈ ["ua-annotation:"; "module-annotation:"].
Proof.
  assert (Him : forall n, imported_shape u n = TextClass prefix c k -> class_of u c = Some k /\ prefix ∈ ["ua-annotation:"; "module-annotation:"]).
  { intros n. unfold imported_shape. repeat case_match; try done. intros [= <- <- <-]. split; [done|]. right. by left. }
  assert (Hna : forall n, named_shape u n = TextClass prefix c k -> class_of u c = Some k /\ prefix ∈ ["ua-annotation:"; "module-annotation:"]).
  { intros n. unfold named_shape. repeat case_match; try done; try apply Him. intros [= <- <- <-]. split; [done|]. by left. }
  assert (Hpl : forall n, plain_shape u n = TextClass prefix c k -> class_of u c = Some k /\ prefix ∈ ["ua-annotation:"; "module-annotation:"]).
  { intros n. unfold plain_shape. destruct (endswith _ _); [done|]. destruct (bracketed _ _); [done|]. destruct (bracketed _ _); [done|].
    destruct (items_lookup _ scalar_map) eqn:E; [done|apply Hna]. }
  unfold text_shape_of. destruct (if str_in _ _ then _ else _) as [|q qs].
  - destruct (bracketed "optional[" _); [done|]. destruct (default [] _); [apply Hpl|done].
  - unfold union_shape. by repeat case_match.
Qed.

(** ** The registry *)

Definition named (r : SchemaRegistry) (name : string) : Prop := exists key, sr_definition_by_key r !! key = Some name.

Abbreviation ok r := (schema_ok (named r)).

Abbreviation good_schema := (fun (r : SchemaRegistry) (schema : json) => ok r schema /\ is_obj schema = true).

(** Names that definitions may have: the names that a registry gives, and possibly more. *)
Class SafeNames := { safe_name : string -> Prop; plain_safe : forall name, plain_name name -> safe_name name }.

Section Registries.
Context {safe_names : SafeNames}.

(** Between calls, every definition is an object that refers to reserved names only, and names are safe. *)
Record registry_ok (r : SchemaRegistry) : Prop := {
  ro_used : forall name, named r name -> name ∈ sr_used_definition_names r;
  ro_names : forall name, named r name -> safe_name name;
  ro_keys : forall name, is_Some (sr_defs r !! name) -> safe_name name;
  ro_defs : forall name v, sr_defs r !! name = Some v -> is_obj v = true /\ ok r v;
  ro_wf : dict_wf (sr_defs r);
}.

(** What a call may change: names stay, definitions stay definitions, and each new name has its definition in the end. *)
Record extends (r r' : SchemaRegistry) : Prop := {
  ex_keys : forall key name, sr_definition_by_key r !! key = Some name -> sr_definition_by_key r' !! key = Some name;
  ex_defs : forall name, is_Some (sr_defs r !! name) -> is_Some (sr_defs r' !! name);
  ex_new : forall name, named r' name -> named r name \/ is_Some (sr_defs r' !! name);
}.

Lemma extends_refl r : extends r r.
Proof. split; auto. Qed.

Lemma extends_trans r1 r2 r3 : extends r1 r2 -> extends r2 r3 -> extends r1 r3.
Proof.
  intros [k1 d1 n1] [k2 d2 n2]. split; [auto|auto|]. intros name [H|H]%n2; [|by right]. apply n1 in H as [H|H]; [by left|right; auto].
Qed.

Lemma extends_named r r' name : extends r r' -> named r name -> named r' name.
Proof. intros H [key E]. exists key. by apply (ex_keys _ _ H). Qed.

Lemma extends_ok r r' v : extends r r' -> ok r v -> ok r' v.
Proof. intros H. apply ok_mono. intros m. by apply extends_named. Qed.

(** A computation that ends in a good registry with a good result. *)
Definition succeeds {A} (good : SchemaRegistry -> A -> Prop) (m : M A) (r : SchemaRegistry) : Prop :=
  match m r with Got r' x => registry_ok r' /\ extends r r' /\ good r' x | _ => False end.

Lemma ends_ret {A} (good : SchemaRegistry -> A -> Prop) x r : registry_ok r -> good r x -> succeeds good (ret x) r.
Proof. intros Hr Hx. split_and!; [done|apply extends_refl|done]. Qed.

Lemma ends_bind {A B} (good : SchemaRegistry -> A -> Prop) (good' : SchemaRegistry -> B -> Prop) m f r :
  succeeds good m r -> (forall r' x, registry_ok r' -> extends r r' -> good r' x -> succeeds good' (f x) r') -> succeeds good' (bind m f) r.
Proof.
  unfold succeeds, bind. destruct (m r) as [r' x| |]; [|done..]. intros (Hr & He & Hx) Hf. specialize (Hf r' x Hr He Hx).
  destruct (f x r') as [r'' y| |]; [|done..]. destruct Hf as (Hr' & He' & Hy). split_and!; [done|by eapply extends_trans|done].
Qed.

Lemma ends_weaken {A} (good good' : SchemaRegistry -> A -> Prop) m r : (forall r' x, good r' x -> good' r' x) -> succeeds good m r -> succeeds good' m r.
Proof. unfold succeeds. destruct (m r); [|done..]. intros H (? & ? & ?). split_and!; auto. Qed.

Lemma ends_get {A B} (good : SchemaRegistry -> B -> Prop) (g : SchemaRegistry -> A) f r : succeeds good (f (g r)) r -> succeeds good (bind (gets g) f) r.
Proof. done. Qed.

Lemma ends_mmap {A B} (good : A -> SchemaRegistry -> B -> Prop) (f : A -> M B) l r :
  (forall x r r' y, extends r r' -> good x r y -> good x r' y) -> registry_ok r ->
  (forall x r', x ∈ l -> registry_ok r' -> extends r r' -> succeeds (good x) (f x) r') -> succeeds (fun r' => Forall2 (fun x => good x r') l) (mmap f l) r.
Proof.
  intros Hmono. revert r. induction l as [|x l IH]; intros r Hr Hf; [by apply ends_ret|]. cbn [mmap].
  eapply ends_bind; [apply Hf; [by left|done|apply extends_refl]|]. intros r1 y Hr1 He1 Hy.
  eapply ends_bind; [apply IH; [done|]|].
  - intros x' r' Hx' Hr' He'. apply Hf; [by right|done|by eapply extends_trans].
  - intros r2 ys Hr2 He2 Hys. apply ends_ret; [done|]. constructor; [by eapply Hmono|done].
Qed.

(** ** Operations of the registry *)

Lemma named_reserve key name r m : named (reserve key name r) m -> m = name \/ named r m.
Proof.
  intros [k E]. cbn in E. rewrite dict_lookup_insert in E. case_bool_decide; [injection E as ->; by left|]. right. by exists k.
Qed.

Lemma named_reserved key name r : named (reserve key name r) name.
Proof. exists key. cbn. apply dict_lookup_insert_eq. Qed.

Lemma keys_reserve key name r k m : sr_definition_by_key r !! key = None -> sr_definition_by_key r !! k = Some m -> sr_definition_by_key (reserve key name r) !! k = Some m.
Proof. intros Hn E. cbn. rewrite dict_lookup_insert_ne; [done|]. intros ->. congruence. Qed.

Lemma reserve_named_ok key name r : sr_definition_by_key r !! key = None -> safe_name name -> registry_ok r -> registry_ok (reserve key name r).
Proof.
  intros Hn Hs [Hu Hnames Hk Hd Hw]. split; [| |done|intros m v E; destruct (Hd m v E) as [Ho Hv]; split; [done|]|done].
  - intros m [->|Hm]%named_reserve; cbn; [by left|right; by apply Hu].
  - intros m [->|Hm]%named_reserve; [done|by apply Hnames].
  - eapply ok_mono; [|exact Hv]. intros x [k Ek]. exists k. by apply keys_reserve.
Qed.

Lemma has_false key r : registry_has key r = false <-> sr_definition_by_key r !! key = None.
Proof. apply dict_mem_false. Qed.

Lemma has_true key r : registry_has key r = true <-> is_Some (sr_definition_by_key r !! key).
Proof. apply dict_mem_true. Qed.

(** Another key for a name that is there. *)
Lemma reserve_known key name r : sr_definition_by_key r !! key = None -> named r name -> registry_ok r ->
  registry_ok (reserve key name r) /\ extends r (reserve key name r).
Proof.
  intros Hn Hm Hr. split; [by apply reserve_named_ok; [|eapply ro_names|]|]. split; [intros k m; by apply keys_reserve|done|].
  intros m [->|H]%named_reserve; by left.
Qed.

Lemma set_definition_ok name v r : registry_ok r -> safe_name name -> is_obj v = true -> ok r v -> registry_ok (set_definition name v r).
Proof.
  intros [Hu Hn Hk Hd Hw] Hs Ho Hv. split; [done|done| | |by apply dict_wf_insert]; intros m.
  - cbn. rewrite dict_lookup_insert. case_bool_decide as Hm; [by subst|apply Hk].
  - intros w. cbn. rewrite dict_lookup_insert. case_bool_decide; [by intros [= <-]|apply Hd].
Qed.

Lemma set_definition_extends name v r : extends r (set_definition name v r).
Proof.
  split; [done| |by left]. intros m Hm. cbn. rewrite dict_lookup_insert. by case_bool_decide.
Qed.

Lemma ends_reference key r : registry_ok r -> registry_has key r = true ->
  succeeds (fun r' x => ok r' x /\ is_obj x = true) (reference_to key) r.
Proof.
  intros Hr [name Hk]%has_true. unfold succeeds, reference_to, ref_for, definition_name_for. rewrite Hk. cbn.
  split_and!; [done|apply extends_refl|apply ok_reference; by exists key|done].
Qed.

Lemma merge_metadata_ends key metadata r : plain_members metadata -> registry_ok r ->
  registry_ok (merge_metadata key metadata r) /\ extends r (merge_metadata key metadata r) /\
  sr_definition_by_key (merge_metadata key metadata r) = sr_definition_by_key r.
Proof.
  intros Hm Hr. unfold merge_metadata. destruct (definition_name_for key r) as [name|]; [|by split_and!; [|apply extends_refl|]].
  destruct (sr_defs r !! name) as [d|] eqn:E; [|by split_and!; [|apply extends_refl|]].
  assert (Hd : is_obj d = true /\ ok r d) by by eapply ro_defs. destruct d as [| | | | | |l]; try by split_and!; [|apply extends_refl|].
  destruct metadata as [|p ps]; [by split_and!; [|apply extends_refl|]|]. split_and!; [|apply set_definition_extends|done].
  revert Hd. generalize (JObj l). induction Hm as [|q qs [Hq1 Hq2] Hm IH]; intros v [Ho Hv]; [by apply set_definition_ok; [|eapply ro_keys; [|by eexists]|..]|].
  cbn [fold_left]. destruct (obj_get q.1 v); apply IH; [done|]. split; [by apply is_obj_set|]. apply ok_set; [done|by left|done].
Qed.

(** The keys that are not in use yet. *)
Definition left_over_keys (keys : list string) (r : SchemaRegistry) : nat := length (List.filter (fun k => negb (registry_has k r)) keys).

Lemma filter_length_le {A} (p q : A -> bool) l : (forall x, p x = true -> q x = true) -> length (List.filter p l) <= length (List.filter q l).
Proof.
  intros H. induction l as [|x l IH]; [done|]. cbn. destruct (p x) eqn:E; [rewrite (H x E); cbn; lia|]. destruct (q x); cbn; lia.
Qed.

Lemma filter_length_lt {A} (p q : A -> bool) l x : (forall x, p x = true -> q x = true) -> x ∈ l -> p x = false -> q x = true ->
  length (List.filter p l) < length (List.filter q l).
Proof.
  intros H Hx Hp Hq. induction Hx as [x l|x y l Hx IH]; cbn.
  - rewrite Hp, Hq. cbn. pose proof (filter_length_le p q l H). lia.
  - specialize (IH Hp Hq). destruct (p y) eqn:E; [rewrite (H y E); cbn; lia|]. destruct (q y); cbn; lia.
Qed.

Lemma left_over_le keys r r' : (forall k, registry_has k r = true -> registry_has k r' = true) -> left_over_keys keys r' <= left_over_keys keys r.
Proof.
  intros H. apply filter_length_le. intros k Hk. apply negb_true_iff in Hk. apply negb_true_iff. destruct (registry_has k r) eqn:E; [|done].
  apply H in E. congruence.
Qed.

Lemma left_over_lt keys r r' key : (forall k, registry_has k r = true -> registry_has k r' = true) -> key ∈ keys ->
  registry_has key r = false -> registry_has key r' = true -> left_over_keys keys r' < left_over_keys keys r.
Proof.
  intros H Hk Hr Hr'. apply filter_length_lt with key; [|done|by rewrite Hr'|by rewrite Hr].
  intros k Hn. apply negb_true_iff in Hn. apply negb_true_iff. destruct (registry_has k r) eqn:E; [|done]. apply H in E. congruence.
Qed.

Lemma extends_has r r' k : extends r r' -> registry_has k r = true -> registry_has k r' = true.
Proof. intros H [name E]%has_true. apply has_true. exists name. by eapply ex_keys. Qed.

Definition grows (r r' : SchemaRegistry) : Prop := forall k, registry_has k r = true -> registry_has k r' = true.

Lemma good_mono r r' schema : extends r r' -> good_schema r schema -> good_schema r' schema.
Proof. intros He [H Ho]. split; [by eapply extends_ok|done]. Qed.

Lemma plain_good r schema : plain schema -> good_schema r schema.
Proof. intros [Ho H]. split; [by apply ok_plain|done]. Qed.

(** The registry in which the schema of a new definition is made. *)
Lemma reserved_ok key name canonical_key r : registry_ok r -> safe_name name -> registry_has key r = false -> (canonical_key ≫= fun k => definition_name_for k r) = None ->
  let r' := reserve_canonical canonical_key name (reserve key name r) in
  registry_ok r' /\ grows r r' /\ sr_definition_by_key r' !! key = Some name /\ sr_defs r' = sr_defs r /\
  (forall k m, sr_definition_by_key r !! k = Some m -> sr_definition_by_key r' !! k = Some m) /\
  (forall m, named r' m -> m = name \/ named r m).
Proof.
  intros Hr Hs Hk Hc. apply has_false in Hk. pose proof (reserve_named_ok key name r Hk Hs Hr) as Hr1.
  assert (H1 : let r' := reserve key name r in registry_ok r' /\ grows r r' /\ sr_definition_by_key r' !! key = Some name /\ sr_defs r' = sr_defs r /\
    (forall k m, sr_definition_by_key r !! k = Some m -> sr_definition_by_key r' !! k = Some m) /\ (forall m, named r' m -> m = name \/ named r m)).
  { cbn zeta. split_and!; [done| |apply dict_lookup_insert_eq|done|intros k m; by apply keys_reserve|intros m; apply named_reserve].
    intros k [m E]%has_true. apply has_true. exists m. by apply keys_reserve. }
  cbn zeta. unfold reserve_canonical. destruct canonical_key as [ck|]; [|exact H1]. destruct (registry_has ck (reserve key name r)) eqn:E; [exact H1|].
  apply has_false in E. destruct H1 as (_ & Hg & Hkey & Hd & Hkeys & Hn). split_and!; [by apply reserve_named_ok| |by apply keys_reserve|done| |].
  - intros k Hh%Hg. apply has_true in Hh as [m Em]. apply has_true. exists m. by apply keys_reserve.
  - intros k m Hm%Hkeys. by apply keys_reserve.
  - intros m [->|Hm]%named_reserve; [by left|]. by apply Hn.
Qed.

Lemma register_ends key preferred canonical_key metadata schema r :
  registry_ok r -> plain_members metadata -> registry_has key r = false -> (canonical_key ≫= fun k => definition_name_for k r) = None ->
  (forall r', registry_ok r' -> grows r r' -> registry_has key r' = true -> succeeds good_schema schema r') ->
  succeeds good_schema (register key preferred canonical_key metadata schema) r.
Proof.
  intros Hr Hm Hk Hc Hs. pose proof (proj1 (has_false _ _) Hk) as Hk'.
  destruct (first_free_total (candidate (safe_definition_name preferred)) (fun i j => numbered_inj _ _ i j) (sr_used_definition_names r)) as (i & Hi & Hfree & _). set (name := candidate _ i) in Hfree.
  assert (Hsafe : safe_name name) by (by apply plain_safe, candidate_plain; [|apply safe_definition_name_plain]).
  assert (Ha : allocate key preferred r = Some (reserve key name r, name)) by (unfold allocate; by rewrite Hk', Hfree).
  destruct (reserved_ok key name canonical_key r Hr Hsafe Hk Hc) as (Hr2 & Hg & Hkey & Hdefs & Hkeys & Hn). set (r2 := reserve_canonical _ _ _) in *.
  specialize (Hs r2 Hr2 Hg ltac:(apply has_true; by exists name)). unfold succeeds in Hs.
  unfold succeeds, register, bind, allocate_name. rewrite Ha. cbn [modify]. fold r2. destruct (schema r2) as [r3 x| |]; [|done..].
  destruct Hs as (Hr3 & He & Hx & Ho). set (r4 := set_definition name (with_metadata metadata x) r3).
  assert (Hr4 : registry_ok r4) by (apply set_definition_ok; [done|done|by apply is_obj_with_metadata|by apply ok_with_metadata]).
  assert (He4 : extends r r4).
  { split.
    - intros k m Hkm. cbn. by apply (ex_keys _ _ He), Hkeys.
    - intros m Hd. apply (ex_defs _ _ (set_definition_extends name _ r3)), (ex_defs _ _ He). by rewrite Hdefs.
    - intros m Hm4. change (named r3 m) in Hm4. apply (ex_new _ _ He) in Hm4 as [[->|Hm4]%Hn|Hd]; [|by left|right].
      + right. exists (with_metadata metadata x). apply dict_lookup_insert_eq.
      + by apply (ex_defs _ _ (set_definition_extends name _ r3)). }
  assert (Hh : registry_has key r4 = true) by (apply has_true; exists name; by apply (ex_keys _ _ He)).
  pose proof (ends_reference key r4 Hr4 Hh) as Hend. unfold succeeds in Hend. change (match reference_to key r4 with Got r' y => registry_ok r' /\ extends r r' /\ good_schema r' y | _ => False end).
  destruct (reference_to key r4) as [r5 y| |]; [|done..]. destruct Hend as (Hr5 & He5 & Hy).
  split; [done|]. split; [by eapply extends_trans|exact Hy].
Qed.

Lemma merge_nothing key r : merge_metadata key [] r = r.
Proof. unfold merge_metadata. by repeat case_match. Qed.

(** Names that are known already. *)
Lemma known_ends key canonical_key metadata r known (then_ : unit + string -> M json) :
  (forall x, then_ x = match x with
                       | inl _ => bind (modify (merge_metadata key metadata)) (fun _ => reference_to key)
                       | inr name => bind (modify (reserve key name)) (fun _ => bind (modify (merge_metadata key metadata)) (fun _ => reference_to key))
                       end) ->
  registry_ok r -> plain_members metadata -> known_definition key canonical_key r = Some known -> succeeds good_schema (then_ known) r.
Proof.
  intros -> Hr Hm Hk. unfold known_definition in Hk.
  assert (Hmerge : forall r, registry_ok r -> registry_has key r = true -> succeeds good_schema (bind (modify (merge_metadata key metadata)) (fun _ => reference_to key)) r).
  { clear r Hr Hk. intros r Hr Hk. destruct (merge_metadata_ends key metadata r Hm Hr) as (Hr1 & He & Hkeys).
    eapply (ends_bind (fun r' _ => r' = merge_metadata key metadata r)); [by split_and!|]. intros r' [] Hr' He' ->. apply ends_reference; [done|].
    unfold registry_has. by rewrite Hkeys. }
  destruct (registry_has key r) eqn:E; [injection Hk as <-; by apply Hmerge|].
  destruct (canonical_key ≫= _) as [name|] eqn:Ec; [|done]. injection Hk as <-. apply has_false in E.
  assert (Hn : named r name) by (destruct canonical_key as [ck|]; [by exists ck|done]).
  destruct (reserve_known key name r E Hn Hr) as [Hr1 He1]. eapply (ends_bind (fun r' _ => r' = reserve key name r)); [by split_and!|].
  intros r' [] Hr' He' ->. apply Hmerge; [done|]. apply has_true. exists name. apply dict_lookup_insert_eq.
Qed.

Lemma unknown_definition key canonical_key r : known_definition key canonical_key r = None ->
  registry_has key r = false /\ (canonical_key ≫= fun k => definition_name_for k r) = None.
Proof. unfold known_definition. destruct (registry_has key r); [done|]. by destruct (canonical_key ≫= _). Qed.

(** ** One call *)

(** The members that a class has in its schema. *)
Definition property_names (k : PyClass) : list string :=
  match pc_fields k with Some fields => map fl_name fields | None => map fst (pc_annotations k) end.

(** Arguments have dimensions. *)
Definition arguments_ok (u : Universe) : Prop :=
  forall c k, class_of u c = Some k -> pc_is_argument k = true -> "ArrayDimensions" ∈ property_names k.

Section Runs.
Context (u : Universe) (keys : list string) (Hkeys : universe_keys u ⊆ keys) (Harg : arguments_ok u).

Definition need {A} (t : job A) (r : SchemaRegistry) : nat := left_over_keys keys r * class_weight u + job_size u t.

(** The keys of the job are among those that are counted. *)
Definition known {A} (t : job A) : Prop :=
  match t with
  | TType key c metadata => key ∈ keys /\ is_Some (class_of u c) /\ plain_members metadata
  | TClass c => is_Some (class_of u c)
  | TValue v data_type _ _ infos => value_keys u data_type infos v ⊆ keys
  | _ => True
  end.

Definition good_value (r : SchemaRegistry) (x : option json) : Prop := match x with Some schema => good_schema r schema | None => True end.

Definition good {A} (t : job A) : SchemaRegistry -> A -> Prop :=
  match t in job A return SchemaRegistry -> A -> Prop with
  | TAnnotation _ => good_schema
  | TText _ => good_schema
  | TType _ _ _ => good_schema
  | TClass _ => good_schema
  | TValue _ _ _ _ _ => good_value
  end.

Lemma class_known c k : class_of u c = Some k -> class_size u c < class_weight u /\ class_keys u k ⊆ keys.
Proof using Hkeys.
  intros H. split.
  - unfold class_weight. apply Nat.lt_succ_r, (sum_elem (class_size u)), elem_of_dict_keys. by exists k.
  - etrans; [|exact Hkeys]. intros x Hx. apply list_elem_of_In, in_flat_map. exists k. rewrite <-!list_elem_of_In. split; [|done]. by eapply dict_lookup_values.
Qed.

Lemma prefix_known c k prefix : class_of u c = Some k -> prefix ∈ ["py-annotation:"; "ua-annotation:"; "module-annotation:"] -> class_key prefix k ∈ keys.
Proof using Hkeys.
  intros [_ H]%class_known Hp. apply H. unfold class_keys. apply elem_of_app. left. apply elem_of_map. by exists prefix.
Qed.

Lemma produced_known c k f : class_of u c = Some k -> f ∈ default [] (pc_fields k) -> produced_keys u f ⊆ keys.
Proof using Hkeys.
  intros [_ H]%class_known Hf. etrans; [|exact H]. intros x Hx. unfold class_keys. apply elem_of_app. right.
  apply list_elem_of_In, in_flat_map. exists f. by rewrite <-!list_elem_of_In.
Qed.

Context (fuel : nat) (rec : forall A, job A -> M A).
Context (Hrec : forall A (t : job A) r, registry_ok r -> known t -> need t r <= fuel -> succeeds (good t) (rec A t) r).

(** The bound on what is left for calls of less than [n]. *)
Definition affordable (n : nat) (r : SchemaRegistry) : Prop := left_over_keys keys r * class_weight u + n <= S fuel.

Lemma affordable_grows n r r' : grows r r' -> affordable n r -> affordable n r'.
Proof using. unfold affordable. intros H%(left_over_le keys). pose proof (Nat.mul_le_mono_r _ _ (class_weight u) H). lia. Qed.

Lemma affordable_extends n r r' : extends r r' -> affordable n r -> affordable n r'.
Proof using. intros He. apply affordable_grows. intros k. by apply extends_has. Qed.

Lemma affordable_le m n r : m <= n -> affordable n r -> affordable m r.
Proof using. unfold affordable. lia. Qed.

Lemma call_smaller {A} (t : job A) n r : registry_ok r -> known t -> affordable n r -> job_size u t < n -> succeeds (good t) (rec A t) r.
Proof using Hrec. unfold affordable. intros Hr Hk Hb Hs. apply Hrec; [done..|]. unfold need. lia. Qed.

(** A class is looked into after its key was registered. *)
Lemma call_class c n key r r' : affordable n r -> grows r r' -> key ∈ keys -> registry_has key r = false -> registry_has key r' = true ->
  registry_ok r' -> is_Some (class_of u c) -> succeeds good_schema (rec _ (TClass c)) r'.
Proof using Hkeys Hrec.
  intros Hb Hg Hk Hn Hy Hr' [k Hc]. apply (Hrec _ (TClass c)); [done|by exists k|]. unfold need, affordable in *. cbn [job_size].
  pose proof (left_over_lt keys r r' key Hg Hk Hn Hy) as Hlt. destruct (class_known c k Hc) as [Hw _].
  assert (Hm : S (left_over_keys keys r') * class_weight u <= left_over_keys keys r * class_weight u) by (apply Nat.mul_le_mono_r; lia). lia.
Qed.

Lemma annotation_call a n r : registry_ok r -> affordable n r -> annotation_size a < n -> succeeds good_schema (schema_for_annotation rec a) r.
Proof using Hrec. intros Hr Hb Hs. by apply (call_smaller (TAnnotation a) n). Qed.

Lemma text_call s n r : registry_ok r -> affordable n r -> text_size s < n -> succeeds good_schema (schema_for_annotation_string rec s) r.
Proof using Hrec. intros Hr Hb Hs. by apply (call_smaller (TText s) n). Qed.

Lemma ok_any_of r l : Forall (good_schema r) l -> good_schema r (JObj [("anyOf", JArr l)]).
Proof using.
  intros Hl. split; [|done]. apply ok_obj; [done|]. apply Forall_singleton, ok_arr. eapply Forall_impl; [exact Hl|]. by intros x [Hx _].
Qed.

Lemma Forall2_right {A B} (P : B -> Prop) (l : list A) k : Forall2 (fun _ => P) l k -> Forall P k.
Proof using. induction 1; by constructor. Qed.

Lemma text_ends s r : registry_ok r -> affordable (text_size s) r -> succeeds good_schema (text_step u rec s) r.
Proof using Hkeys Hrec.
  intros Hr Hb. unfold text_step. pose proof (text_subtexts u s) as Hsub. destruct (text_shape_of u s) as [s'|parts|s'|schema|c|prefix c k] eqn:E.
  - eapply ends_bind; [eapply text_call; [done|exact Hb|]; pose proof (Hsub s' ltac:(by left)); unfold text_size; lia|].
    intros r' x Hr' He [Hx Ho]. apply ends_ret; [done|]. split; [by apply ok_nullable|by apply is_obj_nullable].
  - eapply ends_bind; [apply (ends_mmap (fun _ => good_schema)); [intros _; apply good_mono|done|]|].
    + intros p r' Hp Hr' He. eapply text_call; [done|eapply affordable_extends; [exact He|exact Hb]|]. pose proof (Hsub p Hp). unfold text_size. lia.
    + intros r' l Hr' He Hl. apply ends_ret; [done|]. apply ok_any_of. exact (Forall2_right (good_schema r') _ _ Hl).
  - eapply ends_bind; [eapply text_call; [done|exact Hb|]; pose proof (Hsub s' ltac:(by left)); unfold text_size; lia|].
    intros r' x Hr' He [Hx Ho]. apply ends_ret; [done|]. split; [by apply ok_array_of|done].
  - apply ends_ret; [done|]. by eapply plain_good, plain_text.
  - eapply annotation_call; [done|exact Hb|]. unfold text_size. cbn. lia.
  - apply text_shape_class in E as [Hc Hp]. apply (call_smaller (TType _ c []) (text_size s)); [done| |done|unfold text_size; cbn; lia].
    split_and!; [eapply prefix_known; [done|by right]|by exists k|constructor].
Qed.

Lemma annotation_ends a r : registry_ok r -> affordable (annotation_size a) r -> succeeds good_schema (annotation_step u rec a) r.
Proof using Hkeys Hrec.
  intros Hr Hb. unfold annotation_step. pose proof (annotation_shape_size u a) as Hs. destruct (annotation_shape_of u a) as [s|b|b|schema|c k] eqn:E.
  - by eapply text_call.
  - eapply ends_bind; [by eapply annotation_call|]. intros r' x Hr' He [Hx Ho]. apply ends_ret; [done|]. split; [by apply ok_array_of|done].
  - eapply ends_bind; [by eapply annotation_call|]. intros r' x Hr' He [Hx Ho]. apply ends_ret; [done|]. split; [by apply ok_nullable|by apply is_obj_nullable].
  - apply ends_ret; [done|]. by eapply plain_good, plain_annotation.
  - destruct Hs as (Hc & _ & Hs). apply (call_smaller (TType _ c []) (annotation_size a)); [done| |done|done].
    split_and!; [eapply prefix_known; [done|by left]|by exists k|constructor].
Qed.

Lemma type_ends key c metadata r : registry_ok r -> known (TType key c metadata) -> affordable 1 r -> succeeds good_schema (type_step u rec key c metadata) r.
Proof using Hkeys Hrec.
  intros Hr (Hk & [k Hc] & Hm) Hb. unfold type_step. rewrite Hc. eapply (ends_bind (fun r' x => r' = r /\ x = k)); [by apply (ends_ret (fun r' x => r' = r /\ x = k))|].
  intros r' k' Hr' He [-> ->]. apply ends_get. destruct (known_definition _ _ r) as [kn|] eqn:E.
  - pose proof (known_ends key (canonical_schema_key_for_type (pc_name k)) metadata r kn
      (fun x => match x with inl _ => _ | inr name => _ end) ltac:(intros [|]; reflexivity) Hr Hm E) as H. by destruct kn.
  - apply unknown_definition in E as [E1 E2]. apply register_ends; [done..|]. intros r2 Hr2 Hg Hh. by eapply (call_class c 1 key r r2).
Qed.

(** ** Classes *)

Abbreviation good_property := (fun (name : string) (r : SchemaRegistry) (p : string * json) => p.1 = name /\ good_schema r p.2).

Lemma properties_ok r l : Forall (fun p : string * json => good_schema r p.2) l -> ok r (JObj (dict_items (dict_of_list l))).
Proof using.
  rewrite Forall_forall. intros Hl. apply ok_obj.
  - destruct (items_lookup "$ref" _) as [v|] eqn:E; [|done]. apply items_lookup_Some_elem, elem_of_dict_of_list, Hl in E as [_ Ho].
    cbn [mbind option_bind snd] in *. by destruct v.
  - apply Forall_forall. intros p Hp%elem_of_dict_of_list. by apply Hl.
Qed.

Lemma object_ok r title l : Forall (fun p : string * json => good_schema r p.2) l -> good_schema r (object_schema title l).
Proof using.
  intros Hl. split; [|done]. apply ok_obj; [done|].
  repeat (apply Forall_cons; split); try (by apply ok_plain); [by apply properties_ok|done].
Qed.

Lemma argument_ends r title l : registry_ok r -> Forall (fun p : string * json => good_schema r p.2) l -> "ArrayDimensions" ∈ map fst l ->
  succeeds good_schema (argument_schema (object_schema title l)) r.
Proof using.
  intros Hr Hl Hin. unfold argument_schema.
  assert (Hps : obj_get "properties" (object_schema title l) = Some (JObj (dict_items (dict_of_list l)))) by reflexivity. rewrite Hps. cbn beta iota.
  assert (Hs : is_Some (items_lookup "ArrayDimensions" (dict_items (dict_of_list l)))) by by apply dict_lookup_of_list_is_Some.
  destruct Hs as [d Hd]. change (obj_get "ArrayDimensions" (JObj (dict_items (dict_of_list l)))) with (items_lookup "ArrayDimensions" (dict_items (dict_of_list l))).
  rewrite Hd. eapply (ends_bind (fun r' x => r' = r /\ x = d)); [by apply (ends_ret (fun r' x => r' = r /\ x = d))|]. intros r' x Hr' He [-> ->].
  apply ends_ret; [done|]. pose proof (object_ok r title l Hl) as [Ho _]. split; [|done].
  pose proof (properties_ok r l Hl) as Hp. pose proof (ok_obj_elem _ _ _ Hp (items_lookup_Some_elem _ _ _ Hd)) as Hdok. cbn [snd] in Hdok.
  apply ok_set; [done| |done]. right. split; [|done]. apply ok_set; [done| |done]. right. split; [by apply ok_set; [|left|]|].
  cbn [obj_get]. destruct (items_lookup "$ref" _) as [v|] eqn:E; [|done]. apply items_lookup_Some_elem, elem_of_dict_of_list in E.
  rewrite Forall_forall in Hl. apply Hl in E as [_ Hv]. cbn [mbind option_bind snd] in *. by destruct v.
Qed.

Lemma refined_ends override schema n r : registry_ok r -> affordable n r -> opt_size text_size override < n -> good_schema r schema ->
  succeeds good_schema (refined rec override schema) r.
Proof using Hrec.
  intros Hr Hb Hs Hg. unfold refined. destruct override as [token|]; [|by apply ends_ret]. destruct (is_stringish_schema schema); [|by apply ends_ret].
  by eapply text_call.
Qed.

Lemma some_ends {A} (f : A -> M json) x r : succeeds good_schema (f x) r -> succeeds good_value (bind (f x) (fun schema => ret (Some schema))) r.
Proof using. intros H. eapply ends_bind; [exact H|]. intros r' s Hr' He Hs. by apply ends_ret. Qed.

Lemma hint_ends h n r : registry_ok r -> affordable n r -> hint_size h < n -> succeeds good_value (schema_from_hint_token u rec h) r.
Proof using Hrec.
  intros Hr Hb Hs. assert (Hc : forall c, 2 < n -> succeeds good_value (bind (schema_for_annotation rec (AnnClass c)) (fun schema => ret (Some schema))) r).
  { intros c Hn. apply (some_ends (schema_for_annotation rec)). by eapply annotation_call. }
  destruct h as [s|c|name cls]; cbn [schema_from_hint_token hint_size] in *; [|by apply Hc|].
  - apply (some_ends (schema_for_annotation_string rec)). by eapply text_call.
  - destruct (name ≫= _); [by apply Hc|]. destruct (is_structured_class u cls); [by apply Hc|]. by apply ends_ret.
Qed.

Lemma telling_ends l r : registry_ok r -> (forall m r', m ∈ l -> registry_ok r' -> extends r r' -> succeeds good_value m r') -> succeeds good_value (first_telling l) r.
Proof using.
  revert r. induction l as [|m l IH]; intros r Hr Hl; [by apply ends_ret|]. cbn [first_telling].
  eapply ends_bind; [apply Hl; [by left|done|apply extends_refl]|]. intros r' x Hr' He Hx.
  destruct (telling x) as [s|] eqn:E.
  - apply ends_ret; [done|]. unfold telling in E. destruct x as [v|]; [|done]. destruct (is_stringish_schema v); [done|]. by injection E as <-.
  - apply IH; [done|]. intros m' r2 Hm' Hr2 He2. apply Hl; [by right|done|by eapply extends_trans].
Qed.

Lemma hints_ends c k f n r : class_of u c = Some k -> f ∈ default [] (pc_fields k) -> registry_ok r -> affordable n r -> field_size u c k f < n ->
  succeeds good_value (schema_from_field_runtime_hints u rec f) r.
Proof using Hkeys Hrec.
  intros Hc Hf Hr Hb Hs. unfold field_size in Hs. apply telling_ends; [done|]. intros m r' Hm Hr' He.
  pose proof (affordable_extends _ _ _ He Hb) as Hb'. rewrite !elem_of_app in Hm. destruct Hm as [Hm|[Hm|Hm]].
  - apply elem_of_map in Hm as (h & -> & Hh). eapply hint_ends; [done..|]. pose proof (sum_elem hint_size _ _ Hh). lia.
  - destruct (fl_default f) as [h|]; [|by apply elem_of_nil in Hm]. apply list_elem_of_singleton in Hm as ->. eapply hint_ends; [done..|]. cbn in Hs. lia.
  - pose proof (produced_known c k f Hc Hf) as Hk. unfold produced_keys, produced_of in *.
    destruct (fl_default_factory f) as [[h produced]|]; [|by apply elem_of_nil in Hm]. cbn [mbind option_bind snd opt_size fst] in *.
    apply elem_of_cons in Hm as [->|Hm]; [eapply hint_ends; [done..|]; lia|]. destruct produced as [v|]; [|by apply elem_of_nil in Hm].
    assert (Hm' : m = rec _ (TValue v None None None [])) by (destruct v; first [by apply list_elem_of_singleton in Hm|by apply elem_of_nil in Hm]). subst m.
    eapply (call_smaller (TValue v None None None [])); [done|exact Hk|exact Hb'|]. cbn [job_size opt_size] in *. lia.
Qed.

Lemma field_ends c k f n r : class_of u c = Some k -> f ∈ default [] (pc_fields k) -> registry_ok r -> affordable n r -> field_size u c k f < n ->
  succeeds good_schema (field_schema u rec c k f) r.
Proof using Hkeys Hrec.
  intros Hc Hf Hr Hb Hs. pose proof Hs as Hs'. unfold field_size in Hs'. unfold field_schema.
  eapply ends_bind; [eapply annotation_call; [done|exact Hb|lia]|]. intros r1 x1 Hr1 He1 Hx1. pose proof (affordable_extends _ _ _ He1 Hb) as Hb1.
  eapply ends_bind; [eapply refined_ends; [done|exact Hb1|lia|done]|]. intros r2 x2 Hr2 He2 Hx2. pose proof (affordable_extends _ _ _ He2 Hb1) as Hb2.
  eapply ends_bind; [eapply refined_ends; [done|exact Hb2|lia|done]|]. intros r3 x3 Hr3 He3 Hx3. pose proof (affordable_extends _ _ _ He3 Hb2) as Hb3.
  destruct (is_stringish_schema x3); [|by apply ends_ret]. eapply ends_bind; [by eapply hints_ends|].
  intros r4 x4 Hr4 He4 Hx4. apply ends_ret; [done|]. destruct x4; [done|]. by eapply good_mono.
Qed.

Lemma property_ends {X} (name : X -> string) (schema : X -> M json) x r : succeeds good_schema (schema x) r ->
  succeeds (good_property (name x)) (bind (schema x) (fun s => ret (name x, s))) r.
Proof using. intros H. eapply ends_bind; [exact H|]. intros r' s Hr' He Hs. by apply ends_ret. Qed.

Lemma properties_names {X} (name : X -> string) (l : list X) properties r :
  Forall2 (fun x p => good_property (name x) r p) l properties -> Forall (fun p : string * json => good_schema r p.2) properties /\ map fst properties = map name l.
Proof using.
  induction 1 as [|x p l ps [Hn Hg] H [IH1 IH2]]; [done|]. split; [by constructor|]. cbn. by rewrite Hn, IH2.
Qed.

Lemma property_mono name r r' p : extends r r' -> good_property name r p -> good_property name r' p.
Proof using. intros He [Hn Hg]. split; [done|]. by eapply good_mono. Qed.

Lemma annotated_size c k p : class_of u c = Some k -> p ∈ annotated k -> annotation_size p.2 < class_size u c.
Proof using.
  intros Hc [Hp _]%elem_of_filter_list. unfold class_size. rewrite Hc. pose proof (sum_elem (fun p => annotation_size p.2) _ _ Hp) as H. cbn in H. lia.
Qed.

Lemma nodeid_ends c k r : class_of u c = Some k -> registry_ok r -> affordable (class_size u c) r -> succeeds good_schema (nodeid_schema rec k) r.
Proof using Hrec.
  intros Hc Hr Hb. unfold nodeid_schema.
  eapply ends_bind; [apply (ends_mmap (fun p => good_property p.1)); [intros p; apply property_mono|done|]|].
  - intros p r' Hp Hr' He. case_bool_decide.
    + apply ends_ret; [done|]. by split; [|apply plain_good].
    + apply (property_ends fst (fun p => schema_for_annotation rec p.2)). eapply annotation_call; [done|eapply affordable_extends; [exact He|exact Hb]|].
      by eapply annotated_size.
  - intros r' ps Hr' He [Hps _]%properties_names. apply ends_ret; [done|]. split; [|done]. apply ok_obj; [done|].
    repeat (apply Forall_cons; split); try (by apply ok_plain); [by apply properties_ok| |done].
    apply ok_plain. cbn [snd refs]. generalize (annotated k). by intros l; induction l.
Qed.

Lemma fields_ends c k r : class_of u c = Some k -> registry_ok r -> affordable (class_size u c) r ->
  succeeds (fun r' ps => Forall (fun p : string * json => good_schema r' p.2) ps /\
          ("ArrayDimensions" ∈ property_names k -> "ArrayDimensions" ∈ map fst ps))
    (match pc_fields k with
     | Some fields => mmap (fun f => bind (field_schema u rec c k f) (fun schema => ret (fl_name f, schema)))
                        (List.filter (fun f => negb (is_filtered_structure_field (fl_name f))) fields)
     | None => mmap (fun p => bind (schema_for_annotation rec p.2) (fun schema => ret (p.1, schema))) (annotated k)
     end) r.
Proof using Hkeys Hrec.
  intros Hc Hr Hb. unfold property_names. destruct (pc_fields k) as [fields|] eqn:E.
  - eapply ends_weaken; [|apply (ends_mmap (fun f => good_property (fl_name f))); [intros f; apply property_mono|done|]].
    + intros r' ps [Hps Hn]%properties_names. split; [done|]. rewrite Hn. intros (f & Hn' & Hf)%elem_of_map. apply elem_of_map. exists f. split; [done|].
      apply elem_of_filter_list. by rewrite <-Hn'.
    + intros f r' [Hf _]%elem_of_filter_list Hr' He. apply (property_ends fl_name (field_schema u rec c k)).
      eapply field_ends; [done|by rewrite E|done|eapply affordable_extends; [exact He|exact Hb]|]. unfold class_size. rewrite Hc, E.
      pose proof (sum_elem (field_size u c k) _ _ Hf). cbn. lia.
  - eapply ends_weaken; [|apply (ends_mmap (fun p => good_property p.1)); [intros p; apply property_mono|done|]].
    + intros r' ps [Hps Hn]%properties_names. split; [done|]. rewrite Hn. intros (p & Hn' & Hf)%elem_of_map. apply elem_of_map. exists p. split; [done|].
      apply elem_of_filter_list. by rewrite <-Hn'.
    + intros p r' Hp Hr' He. apply (property_ends fst (fun p => schema_for_annotation rec p.2)).
      eapply annotation_call; [done|eapply affordable_extends; [exact He|exact Hb]|]. by eapply annotated_size.
Qed.

Lemma class_ends c r : registry_ok r -> is_Some (class_of u c) -> affordable (class_size u c) r -> succeeds good_schema (class_step u rec c) r.
Proof using Hkeys Harg Hrec.
  intros Hr [k Hc] Hb. unfold class_step. rewrite Hc.
  eapply (ends_bind (fun r' x => r' = r /\ x = k)); [by apply (ends_ret (fun r' x => r' = r /\ x = k))|]. intros r1 k1 Hr1 He1 [-> ->].
  destruct (is_nodeid_structure_type k); [by eapply nodeid_ends|].
  eapply ends_bind; [by apply fields_ends|]. intros r' ps Hr' He [Hps Hn].
  destruct (pc_is_argument k) eqn:Ea; [|by apply ends_ret; [|apply object_ok]]. apply argument_ends; [done..|]. by eapply Hn, Harg.
Qed.

(** ** Values *)

Lemma is_structured_known c : is_structured_class u c = true -> is_Some (class_of u c).
Proof using. unfold is_structured_class. destruct (class_of u c); [by exists p|done]. Qed.

Lemma structured_known d infos c : structured_data_type u d infos = Some c -> is_Some (class_of u c).
Proof using.
  unfold structured_data_type. cbn zeta. destruct (match resolve_structure_type u _ with Some c => Some c | None => _ end) as [c'|]; [|done].
  destruct (is_structured_class u c') eqn:E; [|done]. intros [= <-]. by apply is_structured_known.
Qed.

Lemma data_type_ends data_type infos n r : registry_ok r -> affordable n r -> 1 < n -> data_type_keys u data_type infos ⊆ keys ->
  succeeds good_value (schema_from_data_type u rec data_type infos) r.
Proof using Hrec.
  intros Hr Hb Hn Hk. unfold schema_from_data_type. destruct data_type as [d|]; [|by apply ends_ret]. destruct (truthy d); [|by apply ends_ret].
  destruct (structured_data_type u d infos) as [c|] eqn:Ec; [|by apply ends_ret]. apply structured_known in Ec.
  apply (some_ends (fun md => rec _ (TType (data_type_key u d infos) c md)) [("x-opcua-structureDataType", JStr (normalized_data_type u d infos))]).
  apply (call_smaller (TType (data_type_key u d infos) c [("x-opcua-structureDataType", JStr (normalized_data_type u d infos))]) n); [done| |done|done].
  split_and!; [by apply Hk; left|done|by repeat constructor].
Qed.

Lemma object_ends data_type metadata infos n r : registry_ok r -> affordable n r -> 1 < n -> data_type_keys u data_type infos ⊆ keys -> plain_members metadata ->
  succeeds good_schema (data_type_or_object u rec data_type metadata infos) r.
Proof using Hrec.
  intros Hr Hb Hn Hk Hm. eapply ends_bind; [by eapply data_type_ends|]. intros r' x Hr' He Hx. apply ends_ret; [done|].
  assert (Hg : good_schema r' (default (typed "object") x)) by (destruct x; [done|by apply plain_good]).
  destruct Hg as [H1 H2]. split; [by apply ok_with_metadata|by apply is_obj_with_metadata].
Qed.

Lemma structure_fields_smaller v p : p ∈ structure_fields u v ->
  value_size p.2 < value_size v /\ forall data_type infos, value_keys u None [] p.2 ⊆ value_keys u data_type infos v.
Proof using.
  intros [Hp _]%elem_of_filter_list.
  assert (Hsub : forall (l : list (string * ua_value)), p ∈ l -> value_size p.2 <= sum_list_with (fun p => value_size p.2) l /\
    value_keys u None [] p.2 ⊆ flat_map (fun p => value_keys u None [] p.2) l).
  { intros l Hl. split; [exact (sum_elem (fun p => value_size p.2) l p Hl)|]. intros x Hx. apply list_elem_of_In, in_flat_map. exists p. by rewrite <-!list_elem_of_In. }
  destruct v as [| | | | | | | |type_id body|items|cls items]; try by apply elem_of_nil in Hp.
  - apply elem_of_cons in Hp as [-> | ->%list_elem_of_singleton]; cbn [snd value_size]; (split; [lia|]); intros dt infos x Hx; cbn [value_keys];
      rewrite !elem_of_app, elem_of_cons, !elem_of_app; auto.
  - destruct (Hsub _ Hp) as [Hs Hk]. cbn [value_size]. split; [lia|]. intros dt infos x Hx. cbn [value_keys]. apply elem_of_app. right. by apply Hk.
  - apply elem_of_filter_list in Hp as [Hp _]. destruct (Hsub _ Hp) as [Hs Hk]. cbn [value_size]. split; [lia|]. intros dt infos x Hx. cbn [value_keys].
    apply elem_of_app. right. apply elem_of_cons. right. by apply Hk.
Qed.

(** A value whose parts are counted, as it is registered under a key. *)
Lemma structure_ends key v metadata n r : registry_ok r -> affordable n r -> value_size v < n -> value_keys u None [] v ⊆ keys ->
  match v with UStruct _ _ => key ∈ keys | _ => True end -> plain_members metadata ->
  succeeds good_schema (reference_or_register_structure u rec key v metadata) r.
Proof using Hkeys Hrec.
  intros Hr Hb Hs Hk Hkey Hm. unfold reference_or_register_structure. apply ends_get.
  destruct (known_definition key (canonical_schema_key_for_structure_value v) r) as [kn|] eqn:E.
  - pose proof (known_ends key _ [] r kn (fun x => match x with inl _ => _ | inr name => _ end) ltac:(intros [|]; reflexivity) Hr ltac:(constructor) E) as H.
    destruct kn as [[]|name]; unfold succeeds, bind, modify in *; by rewrite merge_nothing in H.
  - apply unknown_definition in E as [E1 E2]. apply register_ends; [done..|]. intros r2 Hr2 Hg Hh.
    pose proof (affordable_grows _ _ _ Hg Hb) as Hb2.
    assert (Hobj : succeeds good_schema (bind (mmap (fun p => bind (rec _ (TValue p.2 None None None [])) (fun nested => ret (p.1, default (primitive_schema_for_value p.2) nested)))
      (structure_fields u v)) (fun properties => ret (object_schema (value_type_name v) properties))) r2).
    { eapply ends_bind; [apply (ends_mmap (fun p => good_property p.1)); [intros p; apply property_mono|done|]|].
      - intros p r' Hp Hr' He. destruct (structure_fields_smaller v p Hp) as [Hps Hpk].
        eapply ends_bind; [apply (call_smaller (TValue p.2 None None None []) n); [done| |by eapply affordable_extends|cbn [job_size]; lia]|].
        + cbn [known]. etrans; [apply (Hpk None [])|done].
        + intros r3 x Hr3 He3 Hx. apply ends_ret; [done|]. split; [done|]. destruct x; [done|]. apply plain_good, plain_primitive.
      - intros r' ps Hr' He [Hps _]%properties_names. apply ends_ret; [done|]. by apply object_ok. }
    assert (Hsos : succeeds good_schema (structure_object_schema u rec v) r2).
    { unfold structure_object_schema. destruct v; try exact Hobj. destruct (class_of_value u cls) as [k|] eqn:Ek; [|exact Hobj].
      destruct (pc_is_argument k); [|exact Hobj]. eapply (call_class _ n key r r2); [done..|]. by exists k. }
    unfold structure_schema. destruct (canonical_schema_key_for_structure_value v); [|done]. destruct v; try done.
    destruct (is_structured_class u (un_class_of u cls)) eqn:Es; [|done]. eapply (call_class _ n key r r2); [done..|]. by apply is_structured_known.
Qed.

Lemma structure_metadata_plain type_id : plain_members (structure_metadata type_id).
Proof using. unfold structure_metadata. destruct type_id as [id|]; [|constructor]. destruct (_ && _)%bool; by repeat constructor. Qed.

Lemma array_ends v data_type variant_type infos r : registry_ok r -> affordable (S (value_size v)) r -> value_keys u data_type infos v ⊆ keys ->
  succeeds good_schema (schema_for_array_items u rec v data_type variant_type infos) r.
Proof using Hkeys Harg Hrec.
  intros Hr Hb Hk. assert (Hd : data_type_keys u data_type infos ⊆ keys).
  { etrans; [|exact Hk]. intros x Hx. destruct v; cbn [value_keys]; apply elem_of_app; by left. }
  assert (Hn : 1 < S (value_size v)) by (destruct v; cbn; lia).
  assert (Helse : forall r', registry_ok r' -> extends r r' -> forall schema, plain schema ->
    succeeds good_schema (if is_extension_variant variant_type then data_type_or_object u rec data_type [] infos else ret schema) r').
  { intros r' Hr' He schema Hp. destruct (is_extension_variant variant_type); [|by apply ends_ret; [|apply plain_good]].
    eapply object_ends; [done|eapply affordable_extends; [exact He|exact Hb]|done|done|constructor]. }
  unfold schema_for_array_items. destruct v as [| | | | | | |[|x l]| | |]; try (by apply Helse; [|apply extends_refl|apply plain_opcua_type]).
  eapply ends_bind; [apply (call_smaller (TValue x data_type variant_type (Some false) infos) (S (value_size (UList (x :: l)))));
    [done| |done|cbn; lia]|].
  - cbn [known]. etrans; [|exact Hk]. cbn [value_keys flat_map]. set_solver.
  - intros r' i Hr' He Hi. destruct i; [by apply ends_ret|]. apply Helse; [done..|]. apply plain_primitive.
Qed.

Lemma value_ends v data_type variant_type is_array infos r : registry_ok r -> value_keys u data_type infos v ⊆ keys -> affordable (S (value_size v)) r ->
  succeeds good_value (value_step u rec v data_type variant_type is_array infos) r.
Proof using Hkeys Harg Hrec.
  intros Hr Hk Hb. assert (Hd : data_type_keys u data_type infos ⊆ keys).
  { etrans; [|exact Hk]. intros x Hx. destruct v; cbn [value_keys]; apply elem_of_app; by left. }
  assert (Hn : 1 < S (value_size v)) by (destruct v; cbn; lia).
  unfold value_step. destruct (_ || _)%bool.
  { apply (some_ends (fun _ : unit => _) tt). eapply ends_bind; [by apply array_ends|]. intros r' x Hr' He [Hx Ho]. apply ends_ret; [done|].
    split; [by apply ok_array_of|done]. }
  assert (Hstruct : forall v', v' = v -> (match v with UExtension _ _ => False | _ => True end) -> succeeds good_value
    (if is_structure_value u v' then bind (reference_or_register_structure u rec (structure_schema_key u v') v' []) (fun schema => ret (Some schema))
     else if is_extension_variant variant_type then bind (data_type_or_object u rec data_type [] infos) (fun schema => ret (Some schema)) else ret None) r).
  { intros v' -> Hv. destruct (is_structure_value u v) eqn:Es.
    - apply (some_ends (fun _ : unit => _) tt). eapply structure_ends; [done|exact Hb|lia| | |constructor]; destruct v; try done.
      + etrans; [|exact Hk]. cbn [value_keys data_type_keys]. set_solver.
      + etrans; [|exact Hk]. cbn [value_keys data_type_keys]. set_solver.
      + apply Hk. cbn [value_keys]. set_solver.
    - destruct (is_extension_variant variant_type); [|by apply ends_ret]. apply (some_ends (fun _ : unit => _) tt). eapply object_ends; [done|exact Hb|done|done|constructor]. }
  destruct v as [| | | | | | | |type_id body| |] eqn:Ev; try (by apply Hstruct). cbn zeta.
  set (id := expanded_if_node_id u type_id infos). assert (Hid : extension_key id body ∈ keys /\ data_type_keys u id infos ⊆ keys /\ value_keys u None [] body ⊆ keys).
  { cbn [value_keys] in Hk. fold id in Hk. split_and!; [apply Hk; set_solver|set_solver|set_solver]. }
  destruct Hid as (Hid1 & Hid2 & Hid3).
  destruct body eqn:Eb; try (apply (some_ends (fun _ : unit => _) tt); eapply structure_ends; [done|exact Hb|cbn [value_size]; lia|exact Hid3|done|apply structure_metadata_plain]).
  apply (some_ends (fun _ : unit => _) tt). eapply object_ends; [done|exact Hb|done| |apply structure_metadata_plain]. by destruct (truthy_opt data_type).
Qed.

Lemma step_ends A (t : job A) r : registry_ok r -> known t -> need t r <= S fuel -> succeeds (good t) (step u rec A t) r.
Proof using Hkeys Harg Hrec.
  intros Hr Hk Hb. destruct t as [a|s|key c md|c|v dt vt arr infos]; cbn [step good].
  - by apply annotation_ends.
  - by apply text_ends.
  - by apply type_ends.
  - by apply class_ends.
  - by apply value_ends.
Qed.
End Runs.

(** With the fuel it needs, every call ends. *)
Lemma run_ends u keys : universe_keys u ⊆ keys -> arguments_ok u ->
  forall fuel A (t : job A) r, registry_ok r -> known u keys t -> need u keys t r <= fuel -> succeeds (good t) (run_job u fuel A t) r.
Proof.
  intros Hkeys Harg fuel. induction fuel as [|fuel IH]; intros A t r Hr Hk Hn.
  - exfalso. unfold need in Hn. destruct t as [a|s|key c md|c|v dt vt arr infos]; cbn [job_size] in Hn; [destruct a|..]; unfold text_size, class_size in Hn; cbn in Hn;
      repeat case_match; lia.
  - cbn [run_job]. by apply step_ends with keys fuel.
Qed.

End Registries.
End ObjectSchemaRuns.
