(* ===== verification/ObjectSchemaSpec.v ===== *)
(** What the schemas of [ObjectSchema] promise: they are made, for every set of classes and whatever values and hints it has;
    each reference in a schema of an object type leads to a definition beside it, unless an id needs escapes; and a schema of a data type refers to nothing
    but definitions that lead back to themselves. *)

From S2P Require Import ObjectSchema SchemasSpec ObjectSchemaRuns.
Local Open Scope string_scope.
Local Open Scope list_scope.
Local Open Scope nat_scope.

Module ObjectSchemaSpec.
Import SchemasSpec.
Export ObjectSchemaRuns.

(** ** References as pointers *)

(** The escapes of a URI fragment, and then those of a token of a JSON pointer. *)
Definition hex_val (c : ascii) : option Z := x ← digit_val c; if (x <? 16)%Z then Some x else None.

Fixpoint percent_decoded (l : list ascii) : list ascii :=
  match l with
  | c :: l' =>
      match l' with
      | a :: b :: r =>
          match (if ceqb c "%"%char then hex_val a else None), hex_val b with
          | Some x, Some y => chr (x * 16 + y)%Z :: percent_decoded r
          | _, _ => c :: percent_decoded l'
          end
      | _ => c :: percent_decoded l'
      end
  | [] => []
  end.

Fixpoint tilde_decoded (l : list ascii) : list ascii :=
  match l with
  | c :: l' =>
      match l' with
      | d :: r =>
          if (ceqb c "~" && ceqb d "0")%char%bool then "~"%char :: tilde_decoded r
          else if (ceqb c "~" && ceqb d "1")%char%bool then slash :: tilde_decoded r
          else c :: tilde_decoded l'
      | [] => [c]
      end
  | [] => []
  end.

(** The definition that the reference [#/$defs/name] leads to; a slash leads on, into the definition. *)
Definition pointer_key (name : string) : option string :=
  let token := percent_decoded (chars name) in
  if existsb (ceqb slash) token then None else Some (of_chars (tilde_decoded token)).

Definition pointer_char (c : ascii) : bool := negb (ceqb c "%"%char || ceqb c "~"%char || ceqb c slash).

(** A name without a character that the escapes are for. *)
Definition pointer_plain (name : string) : Prop := forallb pointer_char (chars name) = true.

Lemma pointer_char_ne c : pointer_char c = true -> ceqb c "%"%char = false /\ ceqb c "~"%char = false /\ ceqb c slash = false.
Proof. unfold pointer_char. destruct (ceqb c "%"), (ceqb c "~"), (ceqb c slash); done. Qed.

Lemma plain_decoded l : forallb pointer_char l = true -> percent_decoded l = l /\ tilde_decoded l = l /\ existsb (ceqb slash) l = false.
Proof.
  induction l as [|c l IH]; [done|]. cbn [forallb]. intros [Hc Hl]%andb_true_iff.
  destruct (pointer_char_ne c Hc) as (Hp & Ht & Hs). destruct (IH Hl) as (H1 & H2 & H3). cbn [percent_decoded tilde_decoded existsb]. rewrite Hp, Ht, H1, H2, H3.
  split_and!; [by destruct l as [|a [|b r]]|by destruct l|]. rewrite orb_false_r.
  unfold ceqb in *. rewrite bool_decide_eq_false in Hs. apply bool_decide_eq_false. congruence.
Qed.

Lemma plain_pointer name : pointer_plain name -> pointer_key name = Some name.
Proof. intros H. unfold pointer_key. destruct (plain_decoded _ H) as (-> & -> & ->). by rewrite of_chars_chars. Qed.

Lemma plain_def_key name : pointer_plain name -> def_key name = name.
Proof.
  unfold pointer_plain, def_key. intros H. rewrite <-(of_chars_chars name) at 2. f_equal. induction (chars name) as [|c l IH]; [done|].
  cbn [forallb flat_map] in *. apply andb_true_iff in H as [Hc Hl]. destruct (pointer_char_ne c Hc) as (_ & -> & ->).
  cbn [app]. f_equal. by apply IH.
Qed.

(** What a registry allocates needs no escapes. *)
Lemma plain_name_pointer name : plain_name name -> pointer_plain name.
Proof.
  intros [H _]. unfold pointer_plain. rewrite List.forallb_forall in *. intros c Hc%H. destruct c as [[] [] [] [] [] [] [] []]; done.
Qed.

Definition pointer_names : SafeNames := {| safe_name := pointer_plain; plain_safe := plain_name_pointer |}.

Definition any_names : SafeNames := {| safe_name := fun _ => True; plain_safe := fun _ _ => I |}.

(** ** Schemas of data types *)

Lemma registry_empty_ok {safe_names : SafeNames} : registry_ok empty_registry.
Proof.
  split; [by intros name [key E]|by intros name [key E]|by intros name []|by intros name v E|apply dict_wf_empty].
Qed.

Lemma left_over_length keys r : left_over_keys keys r <= length keys.
Proof. unfold left_over_keys. induction keys as [|k l IH]; [done|]. cbn. destruct (registry_has k r); cbn; lia. Qed.

(** What is named in the end is defined, as an object. *)
Lemma named_defined {safe_names : SafeNames} r name : registry_ok r -> extends empty_registry r -> named r name -> exists l, sr_defs r !! name = Some (JObj l).
Proof.
  intros Hr He Hn. apply (ex_new _ _ He) in Hn as [[key E]|[v Hv]]; [done|]. destruct (ro_defs r Hr name v Hv) as [Ho _].
  destruct v as [| | | | | |l]; try done. by exists l.
Qed.

Lemma refs_merge_elem target l m : m ∈ refs (JObj (merge_reference target l)) -> m ∈ refs (JObj target) \/ m ∈ refs (JObj l).
Proof.
  intros [Hm|(p & Hp & Hm)]%refs_obj; [left; apply refs_obj; left; by rewrite merge_ref in Hm|].
  apply elem_of_merge in Hp as [Hp|[Hp _]]; [left|right]; apply refs_obj; right; by exists p.
Qed.

Lemma lookup_members {A B} (R : A -> B -> Prop) k (l : list (string * A)) (l' : list (string * B)) :
  Forall2 (fun p q => p.1 = q.1 /\ R p.2 q.2) l l' -> forall y, items_lookup k l' = Some y -> exists x, items_lookup k l = Some x /\ R x y.
Proof.
  induction 1 as [|[k1 x] [k2 y] l l' [Hk HR] H IH]; intros z; cbn in *; [done|]. subst k2. case_bool_decide; [|apply IH].
  intros [= <-]. by exists x.
Qed.

Lemma Forall2_impl_in {A B} (P Q : A -> B -> Prop) l k : Forall2 P l k -> (forall x y, x ∈ l -> P x y -> Q x y) -> Forall2 Q l k.
Proof.
  induction 1 as [|x y l k Hxy H IH]; intros Hi; [done|]. constructor; [apply Hi; [by left|done]|]. apply IH. intros x' y' Hx'. apply Hi. by right.
Qed.

(** An expansion refers to what the schema and the definitions refer to. *)
Lemma expand_refs (P : string -> Prop) defs : (forall name v m, defs !! name = Some v -> m ∈ refs v -> P m) ->
  forall fuel stack v w, expand_schema_refs fuel defs stack v = Some w -> (forall m, m ∈ refs v -> P m) ->
    is_obj w = is_obj v /\ (forall m, m ∈ refs w -> P m) /\ (forall s, w = JStr s -> v = JStr s).
Proof.
  intros Hd. induction fuel as [|fuel IH]; intros stack v w Hw Hv; [done|]. cbn [expand_schema_refs] in Hw. cbv zeta in Hw.
  assert (Hchildren : forall l, (forall m, m ∈ refs (JObj l) -> P m) ->
    JObj <$> mapM (fun p => x ← expand_schema_refs fuel defs stack p.2; Some (p.1, x)) l = Some w -> is_obj w = true /\ (forall m, m ∈ refs w -> P m) /\ forall s, w ≠ JStr s).
  { intros l Hl E. destruct (mapM _ l) as [l'|] eqn:El; [|done]. injection E as <-. split; [done|]. split; [|done]. apply mapM_Some in El.
    assert (Hmem : Forall2 (fun p q => p.1 = q.1 /\ (forall m, m ∈ refs q.2 -> P m) /\ forall s, q.2 = JStr s -> p.2 = JStr s) l l').
    { eapply Forall2_impl_in; [exact El|]. intros p q Hp E. cbn in E. destruct (expand_schema_refs fuel defs stack p.2) as [x|] eqn:Ex; [|done]. injection E as <-.
      split; [done|]. apply (IH stack p.2 x Ex). intros m Hm. apply Hl, refs_obj. right. by exists p. }
    intros m [Hm|(q & Hq & Hm)]%refs_obj.
    - destruct (items_lookup "$ref" l') as [y|] eqn:Ey; [|done]. destruct (lookup_members (fun x y => (forall m, m ∈ refs y -> P m) /\ forall s, y = JStr s -> x = JStr s) "$ref" l l' Hmem y Ey) as (x & Ex & _ & Hxy).
      cbn [mbind option_bind] in Hm. apply Hl, refs_obj. left. rewrite Ex. cbn [mbind option_bind]. destruct y; try done. by rewrite (Hxy s eq_refl).
    - apply list_elem_of_lookup in Hq as [i Hi]. destruct (Forall2_lookup_r _ _ _ _ _ Hmem Hi) as (p & _ & _ & Hpq & _). by apply Hpq. }
  destruct v as [|b|z|t|s|l|l]; try (injection Hw as <-; by split_and!).
  - destruct (mapM _ l) as [l'|] eqn:El; [|done]. injection Hw as <-. split; [done|]. split; [|done]. apply mapM_Some in El.
    intros m (x & Hx & Hm)%refs_arr. apply list_elem_of_lookup in Hx as [i Hi]. destruct (Forall2_lookup_r _ _ _ _ _ El Hi) as (y & Hy & Ey).
    destruct (IH stack y x Ey) as (_ & Hr & _); [|by apply Hr]. intros m' Hm'. apply Hv, refs_arr. exists y. split; [by eapply list_elem_of_lookup_2|done].
  - destruct (items_lookup "$ref" l ≫= local_ref) as [name|] eqn:E.
    + case_bool_decide; [injection Hw as <-; by split_and!|]. destruct (defs !! name) as [d|] eqn:Ed.
      * destruct d as [| | | | | |target]; try (destruct (Hchildren l Hv Hw) as (H1 & H2 & H3); split_and!; [done|done|by intros ? Hs; destruct (H3 _ Hs)]).
        destruct (IH _ _ _ Hw) as (H1 & H2 & H3).
        { intros m [Hm|Hm]%refs_merge_elem; [by eapply Hd|by apply Hv]. }
        split_and!; [done|done|by intros ? Hs; specialize (H3 _ Hs)].
      * destruct (Hchildren l Hv Hw) as (H1 & H2 & H3); split_and!; [done|done|by intros ? Hs; destruct (H3 _ Hs)].
    + destruct (Hchildren l Hv Hw) as (H1 & H2 & H3); split_and!; [done|done|by intros ? Hs; destruct (H3 _ Hs)].
Qed.

Lemma remove_refs v m : m ∈ refs (remove_opcua_schema_fields v) -> m ∈ refs v.
Proof.
  revert m. induction v as [| | | | |l IH|l IH] using json_rect'; try done; rewrite Forall_forall in IH; intros m; cbn [remove_opcua_schema_fields].
  - intros (x & (y & -> & Hy)%elem_of_map & Hm)%refs_arr. apply refs_arr. exists y. split; [done|by apply IH].
  - intros [Hm|(q & (p & Hp & Hq)%list_elem_of_omap & Hm)]%refs_obj; apply refs_obj.
    + left. clear IH. induction l as [|[k x] l IHl]; [done|]. cbn [omap list_omap fst snd] in Hm. destruct (startswith "x-opcua-" k) eqn:Ek.
      * cbn [items_lookup]. rewrite bool_decide_false by (intros ->; done). by apply IHl.
      * cbn [items_lookup] in *. case_bool_decide; [|by apply IHl]. cbn [mbind option_bind] in *. by destruct x.
    + right. destruct (startswith _ _); [done|]. injection Hq as <-. exists p. split; [done|]. by apply IH.
Qed.

(** What is left in the schema of a data type. *)
Lemma data_type_schema_spec u infos include_opcua_fields data_type : arguments_ok u -> truthy data_type = true ->
  exists r schema, build_data_type_schema u infos include_opcua_fields data_type = Got r schema /\
    (is_Some schema <-> is_Some (structured_data_type u data_type infos)) /\
    forall v name, schema = Some v -> name ∈ refs v -> tc (refers (sr_defs r)) name name.
Proof.
  intros Harg Ht. pose proof any_names as safe. unfold build_data_type_schema. set (keys := (universe_keys u ++ data_type_keys u (Some data_type) infos)).
  set (fuel := enough_fuel u keys 1). unfold data_type_with_fuel.
  assert (Hsub : universe_keys u ⊆ keys) by (intros x Hx; apply elem_of_app; by left).
  assert (Hends : succeeds good_value (schema_from_data_type u (run_job u fuel) (Some data_type) infos) empty_registry).
  { eapply (data_type_ends u keys fuel (run_job u fuel)) with (n := 2);
      [intros A t r; by apply run_ends|apply registry_empty_ok| |lia|intros x Hx; apply elem_of_app; by right].
    unfold affordable, fuel, enough_fuel. pose proof (Nat.mul_le_mono_r _ _ (class_weight u) (left_over_length keys empty_registry)). lia. }
  unfold schema_from_data_type in *. rewrite Ht in *. destruct (structured_data_type u data_type infos) as [c|] eqn:Ec; cycle 1.
  { exists empty_registry, None. split; [done|]. split; [by split; intros []|done]. }
  unfold succeeds in Hends. destruct (bind _ _ empty_registry) as [r x| |] eqn:Eb; [|done..]. destruct Hends as (Hr & He & Hx).
  destruct x as [schema|]; [|unfold bind in Eb; by destruct (run_job u fuel _ _ _)]. destruct Hx as [Hok Ho].
  assert (Hdefs : forall n v, sr_defs r !! n = Some v -> pure v = true) by (intros n v Hv; by apply (ro_defs r Hr n v Hv)).
  assert (Hrefs : forall n v m, sr_defs r !! n = Some v -> m ∈ refs v -> named r m) by (intros n v m Hv; apply (ro_defs r Hr n v Hv)).
  assert (Hin : pure (inline_registered_reference schema r) = true /\ is_obj (inline_registered_reference schema r) = true /\
    forall m, m ∈ refs (inline_registered_reference schema r) -> named r m).
  { destruct schema as [| | | | | |l]; try done. cbn [inline_registered_reference]. destruct (items_lookup "$ref" l ≫= local_ref) as [name|] eqn:E; [|by destruct Hok].
    destruct (sr_defs r !! name) as [d|] eqn:Ed; [|by destruct Hok]. destruct d as [| | | | | |target]; try by destruct Hok.
    split_and!; [|done|]; [apply pure_merge; [by eapply Hdefs|by destruct Hok|by exists name]|].
    intros m [Hm|Hm]%refs_merge_elem; [by eapply Hrefs|by apply Hok]. }
  destruct Hin as (Hin1 & Hin2 & Hin3).
  destruct (expansion_resolves (inline_registered_reference schema r) (sr_defs r) Hdefs Hin1) as (w & Hw & Hleft). rewrite Hw.
  destruct (expand_refs (named r) (sr_defs r) Hrefs _ _ _ _ Hw Hin3) as (Hwo & Hwr & _). rewrite Hin2 in Hwo. rewrite Hwo.
  eexists r, _. split; [done|]. split; [by split; intros _; eexists|]. intros v name [= <-] Hn.
  assert (Hn' : name ∈ refs w) by (destruct include_opcua_fields; [done|by apply remove_refs]).
  destruct (Hleft name Hn') as [Hno|]; [|done]. destruct (named_defined r name Hr He (Hwr _ Hn')) as [l Hl]. by destruct (Hno l).
Qed.

(** C39. For every set of classes, however they refer to each other, the schema of a data type is made exactly if the data type
    is structured; all that it still refers to are definitions that lead back to themselves, so that it has no references at
    all if no structure contains itself. *)
Theorem data_type_schema_made u infos include_opcua_fields data_type : arguments_ok u -> truthy data_type = true ->
  exists r schema, build_data_type_schema u infos include_opcua_fields data_type = Got r schema /\
    (is_Some schema <-> is_Some (structured_data_type u data_type infos)) /\
    forall v name, schema = Some v -> name ∈ refs v -> tc (refers (sr_defs r)) name name.
Proof. apply data_type_schema_spec. Qed.

(** Whatever the id is. *)
Lemma data_type_schema_ends u infos include_opcua_fields data_type : arguments_ok u ->
  exists r schema, build_data_type_schema u infos include_opcua_fields data_type = Got r schema.
Proof.
  intros Harg. destruct (truthy data_type) eqn:Ht.
  - destruct (data_type_schema_spec u infos include_opcua_fields data_type Harg Ht) as (r & schema & E & _). by exists r, schema.
  - exists empty_registry, None. unfold build_data_type_schema, data_type_with_fuel, schema_from_data_type. by rewrite Ht.
Qed.

(** ** Schemas of object types *)

Lemma refs_rewrite alias v m : m ∈ refs (rewrite_local_defs_refs alias v) -> exists m0, m0 ∈ refs v /\ m = default m0 (alias !! m0).
Proof.
  revert m. induction v as [| | | | |l IH|l IH] using json_rect'; intros m; try (intros Hm; by apply elem_of_nil in Hm); rewrite Forall_forall in IH; cbn [rewrite_local_defs_refs].
  - intros (x & (y & -> & Hy)%elem_of_map & Hm)%refs_arr. destruct (IH y Hy m Hm) as (m0 & Hm0 & ->). exists m0. split; [|done]. apply refs_arr. by exists y.
  - intros [Hm|(q & (p & -> & Hp)%elem_of_map & Hm)]%refs_obj.
    + destruct (items_lookup "$ref" l) as [v|] eqn:E; cycle 1.
      { exfalso. clear IH. induction l as [|[k x] l IHl]; [done|]. cbn [items_lookup map fst snd] in *. case_bool_decide; [done|]. by apply IHl. }
      assert (E' : items_lookup "$ref" (map (fun p => (p.1, if bool_decide (p.1 = "$ref") then rewrite_ref alias (rewrite_local_defs_refs alias p.2)
        else rewrite_local_defs_refs alias p.2)) l) = Some (rewrite_ref alias (rewrite_local_defs_refs alias v))).
      { clear IH Hm. induction l as [|[k x] l IHl]; [done|]. cbn [items_lookup map fst snd] in *. case_bool_decide as Hk; [|by apply IHl]. injection E as ->. done. }
      rewrite E' in Hm. cbn [mbind option_bind] in Hm. destruct v as [| | | |s| |]; try done. cbn [rewrite_local_defs_refs] in Hm. unfold rewrite_ref in Hm.
      destruct (local_ref (JStr s)) as [name|] eqn:El; [|by rewrite El in Hm]. exists name. split; [apply refs_obj; left; by rewrite E|].
      destruct (alias !! name); [by rewrite local_ref_local in Hm; injection Hm as <-|]. rewrite El in Hm. by injection Hm as <-.
    + cbn [snd] in Hm. case_bool_decide.
      * unfold rewrite_ref in Hm. destruct (local_ref _) eqn:El.
        { destruct (alias !! s); [by apply elem_of_nil in Hm|]. destruct (rewrite_local_defs_refs alias p.2); try done; by apply elem_of_nil in Hm. }
        destruct (IH p Hp m Hm) as (m0 & Hm0 & ->). exists m0. split; [|done]. apply refs_obj. right. by exists p.
      * destruct (IH p Hp m Hm) as (m0 & Hm0 & ->). exists m0. split; [|done]. apply refs_obj. right. by exists p.
Qed.

(** Every local reference of a schema leads to an object among its definitions. *)
Definition closed (schema : json) : Prop :=
  exists defs, obj_get "$defs" schema = Some (JObj defs) /\ forall m, m ∈ refs schema -> exists l, items_lookup m defs = Some (JObj l).

Lemma kept_elem defs p : p ∈ dd_defs (dedupe_defs defs) -> p ∈ defs.
Proof.
  unfold dedupe_defs. assert (H : forall l st, p ∈ dd_defs (fold_left dedupe_def l st) -> p ∈ dd_defs st \/ p ∈ l).
  { induction l as [|[name v] l IH]; intros st Hp; [by left|]. cbn [fold_left] in Hp. apply IH in Hp as [Hp|Hp]; [|right; by right].
    unfold dedupe_def in Hp. cbn [fst snd] in Hp. destruct (dd_name_by_fingerprint st !! _); [by left|]. cbn [dd_defs] in Hp.
    apply elem_of_items_insert in Hp as [-> |Hp]; [right; by left|by left]. }
  intros [Hp|Hp]%H; [by apply elem_of_nil in Hp|done].
Qed.

Lemma dedupe_closed members defs : items_lookup "$defs" members = Some (JObj defs) -> NoDup (defs.*1) ->
  (forall name v, (name, v) ∈ defs -> is_obj v = true) -> closed (JObj members) -> closed (dedupe_defs_and_rewrite_local_refs (JObj members)).
Proof.
  intros Hd Hnd Hobj (defs' & Hd' & Hc). cbn [obj_get] in Hd'. rewrite Hd in Hd'. injection Hd' as <-.
  unfold dedupe_defs_and_rewrite_local_refs. cbn [obj_get]. rewrite Hd. set (st := dedupe_defs defs). pose proof (dedupe_defs_ok defs Hnd) as Hst. fold st in Hst.
  destruct (forallb _ _); [by exists defs|].
  set (kept := map_values (fun _ => rewrite_local_defs_refs (dd_alias_by_name st)) (dd_defs st)).
  assert (Hwin : forall m0, (exists l, items_lookup m0 defs = Some (JObj l)) ->
    exists l, items_lookup (default m0 (dd_alias_by_name st !! m0)) kept = Some (JObj l)).
  { intros m0 (l & Hl%items_lookup_Some_elem). destruct (do_alias _ _ Hst _ _ Hl) as (winner & -> & Hf). destruct (do_winner _ _ Hst _ _ Hf) as (w & Hw & _).
    cbn [default from_option id]. unfold kept. rewrite items_lookup_map_values, Hw. apply (do_kept _ _ Hst) in Hw as [Hw _]. apply Hobj in Hw.
    destruct w as [| | | | | |l']; try done. by eexists. }
  exists kept. cbn [rewrite_local_defs_refs obj_set obj_get]. rewrite items_lookup_insert, bool_decide_true by done. split; [done|].
  intros m [Hm|(p & [->|Hp]%elem_of_items_insert & Hm)]%refs_obj.
  - rewrite items_lookup_insert, bool_decide_false in Hm by done.
    destruct (refs_rewrite (dd_alias_by_name st) (JObj members) m) as (m0 & Hm0 & ->); [apply refs_obj; by left|]. by apply Hwin, Hc.
  - cbn [snd] in Hm. apply refs_obj in Hm as [Hm|(p & Hp & Hm)].
    + destruct (items_lookup "$ref" kept) as [v|] eqn:E; [|done]. unfold kept in E. rewrite items_lookup_map_values in E.
      destruct (items_lookup "$ref" (dd_defs st)) as [w|] eqn:Ew; [|done]. injection E as <-. apply (do_kept _ _ Hst) in Ew as [Ew _]. apply Hobj in Ew. by destruct w.
    + apply elem_of_map in Hp as ((name, w) & -> & Hp). cbn [fst snd] in Hm. destruct (refs_rewrite _ _ _ Hm) as (m0 & Hm0 & ->). apply Hwin, Hc.
      apply refs_obj. right. exists ("$defs", JObj defs). split; [by apply items_lookup_Some_elem|]. apply refs_obj. right. exists (name, w). split; [|done].
      by apply kept_elem.
  - destruct (refs_rewrite (dd_alias_by_name st) (JObj members) m) as (m0 & Hm0 & ->); [apply refs_obj; right; by exists p|]. by apply Hwin, Hc.
Qed.

(** Merging definitions leaves some of them. *)
Lemma dedupe_names members defs defs' name v : items_lookup "$defs" members = Some (JObj defs) ->
  obj_get "$defs" (dedupe_defs_and_rewrite_local_refs (JObj members)) = Some (JObj defs') -> items_lookup name defs' = Some v -> exists w, (name, w) ∈ defs.
Proof.
  intros Hd. unfold dedupe_defs_and_rewrite_local_refs. cbn [obj_get]. rewrite Hd.
  destruct (forallb _ _); [cbn [obj_get]; rewrite Hd; intros [= <-] H; exists v; by apply items_lookup_Some_elem|].
  cbn [rewrite_local_defs_refs obj_set obj_get]. rewrite items_lookup_insert, bool_decide_true by done. intros [= <-].
  rewrite items_lookup_map_values. destruct (items_lookup name _) as [w|] eqn:E; [|done]. intros _. exists w. by apply kept_elem, items_lookup_Some_elem.
Qed.

(** Every local reference of a schema, read as a URI fragment with a JSON pointer, leads to an object among its definitions. *)
Definition resolvable (schema : json) : Prop :=
  exists defs, obj_get "$defs" schema = Some (JObj defs) /\
    forall m, m ∈ refs schema -> exists key l, pointer_key m = Some key /\ items_lookup key defs = Some (JObj l).

Lemma closed_resolvable schema : closed schema ->
  (forall defs name v, obj_get "$defs" schema = Some (JObj defs) -> items_lookup name defs = Some v -> pointer_plain name) -> resolvable schema.
Proof.
  intros (defs & Hd & Hc) Hn. exists defs. split; [done|]. intros m Hm. destruct (Hc m Hm) as [l Hl]. exists m, l. split; [|done].
  by eapply plain_pointer, Hn.
Qed.

Lemma refs_set k x v m : k ≠ "$ref" -> refs x = [] -> m ∈ refs (obj_set k x v) -> m ∈ refs v.
Proof.
  intros Hk Hx. destruct v as [| | | | | |l]; try done. cbn [obj_set]. intros [Hm|(p & [-> |Hp]%elem_of_items_insert & Hm)]%refs_obj.
  - rewrite lookup_insert_ref in Hm by done. apply refs_obj. by left.
  - cbn [snd] in Hm. rewrite Hx in Hm. by apply elem_of_nil in Hm.
  - apply refs_obj. right. by exists p.
Qed.

Definition plain_value (x : option json) : Prop := match x with Some x => refs x = [] | None => True end.

Lemma refs_set_some k x v m : k ≠ "$ref" -> plain_value x -> m ∈ refs (set_some k x v) -> m ∈ refs v.
Proof. destruct x as [x|]; [apply refs_set|done]. Qed.

Lemma good_set r k x v : k ≠ "$ref" -> refs x = [] -> good_schema r v -> good_schema r (obj_set k x v).
Proof. intros Hk Hx [Hv Ho]. split; [apply ok_set; [done|by left|done]|by apply is_obj_set]. Qed.

Lemma good_set_some r k x v : k ≠ "$ref" -> plain_value x -> good_schema r v -> good_schema r (set_some k x v).
Proof. destruct x as [x|]; [apply good_set|done]. Qed.

Lemma plain_text_value (f : string -> string) (o : option string) : plain_value ((fun s => JStr (f s)) <$> o).
Proof. by destruct o. Qed.

Lemma plain_texts (o : option string) : plain_value (JStr <$> o).
Proof. by destruct o. Qed.

Lemma plain_int (o : option Z) : plain_value (JInt <$> o).
Proof. by destruct o. Qed.

Lemma plain_bool (o : option bool) : plain_value (JBool <$> o).
Proof. by destruct o. Qed.

Lemma plain_arr l : Forall (fun x => refs x = []) l -> plain_value (nonempty_arr l).
Proof. intros H. unfold nonempty_arr. destruct l as [|x l]; [done|]. cbn [plain_value refs]. induction H as [|y k Hy H IH]; [done|]. cbn. by rewrite Hy. Qed.

Lemma no_refs v : (forall m, m ∉ refs v) -> refs v = [].
Proof. apply elem_of_nil_inv. Qed.

Lemma references_plain m infos : Forall (fun x => refs x = []) (references_for_member m infos).
Proof.
  unfold references_for_member. destruct (truthy_text (om_parent_node_id m)) as [parent|]; [|constructor]. constructor; [|constructor].
  apply no_refs. intros x Hx. apply refs_set_some in Hx; [|done|apply plain_int]. apply refs_set_some in Hx; [|done|apply plain_text_value].
  apply refs_set_some in Hx; [|done|apply plain_texts]. by apply elem_of_nil in Hx.
Qed.

Lemma metadata_good u m infos schema r : refs (to_json_metadata_value u infos (om_value m)) = [] -> good_schema r schema ->
  good_schema r (member_metadata u m infos schema).
Proof.
  intros Hv Hg. unfold member_metadata. cbv zeta.
  assert (H0 : good_schema r (match obj_get "$ref" schema with Some _ => JObj [("allOf", JArr [schema])] | None => schema end)).
  { destruct (obj_get "$ref" schema); [|done]. split; [|done]. apply ok_obj; [done|]. apply Forall_singleton, ok_arr, Forall_singleton. apply Hg. }
  assert (Hlast : forall v, good_schema r v -> good_schema r (if bool_decide (om_display_name m = om_browse_name m) then v
    else set_some "title" (JStr <$> truthy_text (Some (om_display_name m))) v)).
  { intros v H. case_bool_decide; [done|]. by apply good_set_some; [|apply plain_texts|]. }
  apply Hlast. assert (Hval : forall v, good_schema r v -> good_schema r match om_value m with UNone => v | x => obj_set "x-opcua-value" (to_json_metadata_value u infos x) v end).
  { intros v H. destruct (om_value m); [done|by apply good_set..]. }
  apply Hval. repeat first [apply good_set_some; [done|first [apply plain_texts|apply plain_int|apply plain_text_value]|]
                           |apply good_set_some; [done|by apply plain_arr, references_plain|]
                           |apply good_set_some; [done|apply plain_arr; by induction (default [] (om_array_dimensions m)); constructor|]
                           |apply good_set; [done|done|]]. exact H0.
Qed.

(** The members that are known to end: their values have no references, and there is fuel for them. *)
Section Assemble.
Context {safe_names : SafeNames}.
Context (u : Universe) (keys : list string) (Hkeys : universe_keys u ⊆ keys) (Harg : arguments_ok u).
Context (fuel : nat) (infos : list OpcUaNamespaceInfo) (resolved : dict string json).
Context (Hresolved : forall id schema, resolved !! id = Some schema -> plain schema).

Definition member_fits (m : OpcUaObjectTypeMemberInfo) : Prop :=
  member_keys u infos m ⊆ keys /\ enough_fuel u keys (S (value_size (om_schema_value m))) <= fuel /\ refs (to_json_metadata_value u infos (om_value m)) = [].

Lemma member_ends m r : registry_ok r -> member_fits m -> succeeds good_schema (schema_for_member u fuel infos resolved m) r.
Proof using Hkeys Harg Hresolved.
  intros Hr (Hk & Hf & Hv). unfold schema_for_member. eapply ends_bind.
  - apply (run_ends u keys Hkeys Harg fuel _ (TValue (om_schema_value m) (om_data_type m) (om_variant_type m) (member_is_array m) infos)); [done|exact Hk|].
    unfold need, enough_fuel in *. cbn [job_size]. pose proof (Nat.mul_le_mono_r _ _ (class_weight u) (left_over_length keys r)). lia.
  - intros r' x Hr' He Hx. apply ends_ret; [done|]. apply metadata_good; [done|]. case_bool_decide; [by apply plain_good|].
    destruct (resolved_schema infos resolved m) as [schema|] eqn:E.
    + assert (Hp : plain schema).
      { unfold resolved_schema in E. destruct (truthy_text (om_data_type m)) as [id|]; [|done]. cbn [mbind option_bind] in E.
        destruct (truthy (expanded_node_id id infos)); [by eapply Hresolved|done]. }
      case_bool_decide; [|by apply plain_good]. split; [|done]. apply ok_array_of. by apply plain_good.
    + destruct x; [done|]. apply plain_good, plain_opcua_type.
Qed.

Definition good_properties (r : SchemaRegistry) (properties : dict string json) : Prop :=
  dict_wf properties /\ Forall (fun p : string * json => good_schema r p.2) (dict_items properties).

Lemma good_properties_mono r r' d : extends r r' -> good_properties r d -> good_properties r' d.
Proof using. intros He [Hw Hg]. split; [done|]. eapply Forall_impl; [exact Hg|]. intros p. by apply good_mono. Qed.

Lemma single_ends item r : registry_ok r -> Forall member_fits (ot_members item) ->
  succeeds (fun r' x => good_schema r' x.1 /\ good_properties r' x.2 /\ forall name, is_Some (x.2 !! name) <-> name ∈ map om_browse_name (ot_members item))
    (schema_for_single_type u fuel infos resolved item) r.
Proof using Hkeys Harg Hresolved.
  intros Hr Hm. rewrite Forall_forall in Hm. unfold schema_for_single_type.
  eapply ends_bind; [apply (ends_mmap (fun m r p => p.1 = om_browse_name m /\ good_schema r p.2)); [intros m; apply property_mono|done|]|].
  - intros m r' Hin Hr' He. apply (property_ends om_browse_name (schema_for_member u fuel infos resolved)). apply member_ends; [done|by apply Hm].
  - intros r' ps Hr' He [Hps Hn]%properties_names. apply ends_ret; [done|]. cbn [fst snd]. cbv zeta. split; [|split; [split|]].
    + repeat first [apply good_set_some; [done|first [apply plain_texts|apply plain_bool|apply plain_text_value]|]|apply good_set_some; [done|apply plain_arr|]].
      * unfold references_for_type. destruct (truthy_text _); repeat constructor.
      * generalize (required_members item). intros l. by induction l; constructor.
      * split; [|done]. apply ok_obj; [done|]. repeat (apply Forall_cons; split); try (by apply ok_plain); [by apply properties_ok|done].
    + apply dict_wf_of_list.
    + rewrite Forall_forall in *. intros p Hp%elem_of_dict_of_list. by apply Hps.
    + intros name. rewrite dict_lookup_of_list_is_Some. change (ps.*1) with (map fst ps). by rewrite Hn.
Qed.

(** What was collected of some types. *)
Record collected_ok (r : SchemaRegistry) (co : Collected) (types : list OpcUaObjectTypeInfo) : Prop := {
  cl_all_of : Forall (fun v => exists key, v = reference_json key /\ is_Some (sr_defs r !! key)) (co_all_of co);
  cl_properties : good_properties r (co_properties co);
  cl_names : forall name, is_Some (co_properties co !! name) <-> name ∈ map om_browse_name (members_of types);
  cl_required : forall name, name ∈ co_required co <-> name ∈ map om_browse_name (List.filter is_mandatory (members_of types));
}.

Lemma all_of_mono r r' l : extends r r' -> Forall (fun v => exists key, v = reference_json key /\ is_Some (sr_defs r !! key)) l ->
  Forall (fun v => exists key, v = reference_json key /\ is_Some (sr_defs r' !! key)) l.
Proof using. intros He H. eapply Forall_impl; [exact H|]. intros v (key & -> & Hd). exists key. split; [done|by apply (ex_defs _ _ He)]. Qed.

Lemma members_snoc types t : members_of (types ++ [t]) = members_of types ++ ot_members t.
Proof using. unfold members_of. rewrite flat_map_app. cbn. by rewrite app_nil_r. Qed.

Lemma ancestor_ends ids co types t r : registry_ok r -> safe_name (def_key (definition_name ids t)) -> Forall member_fits (ot_members t) -> collected_ok r co types ->
  succeeds (fun r' co' => collected_ok r' co' (types ++ [t])) (collect_ancestor u fuel infos resolved ids co t) r.
Proof using Hkeys Harg Hresolved.
  intros Hr Hsafe Hm Hco. unfold collect_ancestor. cbv zeta. eapply ends_bind; [by apply single_ends|].
  intros r1 [schema ps] Hr1 He1 (Hschema & Hps & Hnames). cbn [fst snd] in *. set (key := def_key (definition_name ids t)).
  eapply (ends_bind (fun r' _ => r' = set_definition key schema r1)).
  { split; [by apply set_definition_ok; [| |apply Hschema|apply Hschema]|]. split; [apply set_definition_extends|done]. }
  intros r2 [] Hr2 He2 ->. apply ends_ret; [done|]. pose proof (extends_trans _ _ _ He1 He2) as He.
  destruct Hco as [Hall Hprops Hn Hreq]. split; cbn [co_all_of co_properties co_required].
  - apply Forall_app. split; [by eapply all_of_mono|]. apply Forall_singleton. exists key. split; [done|]. exists schema. apply dict_lookup_insert_eq.
  - destruct (good_properties_mono _ _ _ He Hprops) as [Hw1 Hg1]. destruct (good_properties_mono _ _ _ He2 Hps) as [Hw2 Hg2].
    split; [by apply dict_wf_update_list|]. rewrite Forall_forall in *. intros [name v] Hp.
    apply dict_items_lookup in Hp; [|by apply dict_wf_update_list]. rewrite dict_lookup_update in Hp by done.
    destruct (ps !! name) as [v'|] eqn:E; [injection Hp as ->; by apply dict_lookup_items, Hg2 in E|by apply dict_lookup_items, Hg1 in Hp].
  - intros name. rewrite members_snoc, List.map_app, elem_of_app, <-Hn, <-Hnames, dict_lookup_update by apply Hps.
    destruct (ps !! name) as [v|]; [|by split; [left|intros [|[]]]]. split; [intros _; right; by eexists|intros _; by eexists].
  - intros name. rewrite members_snoc, List.filter_app, List.map_app, elem_of_app, <-Hreq, elem_of_unique_ids, elem_of_app.
    unfold required_members. by rewrite elem_of_unique_ids.
Qed.

Lemma lineage_ends ids l co types r : registry_ok r ->
  Forall (fun t => safe_name (def_key (definition_name ids t)) /\ Forall member_fits (ot_members t)) l -> collected_ok r co types ->
  succeeds (fun r' co' => collected_ok r' co' (types ++ l)) (collect_lineage u fuel infos resolved ids co l) r.
Proof using Hkeys Harg Hresolved.
  revert co types r. induction l as [|t l IH]; intros co types r Hr Hl Hco; cbn [collect_lineage]; [rewrite app_nil_r; by apply ends_ret|].
  apply Forall_cons in Hl as [[Hsafe Ht] Hl]. eapply ends_bind; [by eapply ancestor_ends|]. intros r' co' Hr' He Hco'.
  eapply ends_weaken; [|apply (IH co' (types ++ [t]) r' Hr' Hl Hco')]. intros r2 co2 H. rewrite <-app_assoc in H. exact H.
Qed.
End Assemble.

(** A member of an object that a later one does not replace. *)
Lemma get_set_some k k' x v : k ≠ k' -> obj_get k (set_some k' x v) = obj_get k v.
Proof.
  intros Hk. destruct x as [x|]; [|done]. destruct v as [| | | | | |l]; try done. cbn [set_some obj_set obj_get]. rewrite items_lookup_insert.
  by rewrite bool_decide_false by congruence.
Qed.

Lemma is_obj_set_some k x v : is_obj v = true -> is_obj (set_some k x v) = true.
Proof. destruct x; [apply is_obj_set|done]. Qed.

Section Assembled.
Context {safe_names : SafeNames}.
Context (infos : list OpcUaNamespaceInfo) (item : OpcUaObjectTypeInfo) (r : SchemaRegistry) (co : Collected) (types : list OpcUaObjectTypeInfo).
Context (Hr : registry_ok r) (He : extends empty_registry r) (Hco : collected_ok r co types).

Abbreviation assembled := (assembled_schema infos item (sr_defs r) co).

Lemma assembled_members : is_obj assembled = true /\ obj_get "$defs" assembled = Some (JObj (dict_items (sr_defs r))) /\
  obj_get "properties" assembled = Some (JObj (dict_items (co_properties co))) /\
  obj_get "required" assembled = nonempty_arr (map JStr (co_required co)).
Proof using.
  unfold assembled_schema. split; [by repeat apply is_obj_set_some|]. split; [by rewrite !get_set_some|]. split; [by rewrite !get_set_some|].
  destruct (nonempty_arr (map JStr (co_required co))) as [x|]; [|cbn [set_some]; by rewrite !get_set_some].
  cbn [set_some]. set (v := set_some "x-opcua-isAbstract" _ _). assert (Hv : is_obj v = true) by by repeat apply is_obj_set_some.
  destruct v as [| | | | | |l]; try done. cbn [obj_set obj_get]. by rewrite items_lookup_insert, bool_decide_true.
Qed.

Lemma assembled_closed : closed assembled.
Proof using Hr He Hco.
  destruct assembled_members as (_ & Hd & _). eexists. split; [exact Hd|]. intros m Hm.
  assert (Hdef : is_Some (sr_defs r !! m) -> exists l, items_lookup m (dict_items (sr_defs r)) = Some (JObj l)).
  { intros [v Hv]. destruct (ro_defs r Hr m v Hv) as [Ho _]. destruct v as [| | | | | |l]; try done. by exists l. }
  assert (Hnamed : named r m -> exists l, items_lookup m (dict_items (sr_defs r)) = Some (JObj l)) by by apply named_defined.
  unfold assembled_schema in Hm. apply refs_set_some in Hm; [|done|apply plain_arr; generalize (co_required co); intros l; by induction l; constructor].
  apply refs_set_some in Hm; [|done|apply plain_bool]. apply refs_set_some in Hm; [|done|apply plain_texts].
  apply refs_set_some in Hm; [|done|apply plain_arr; unfold references_for_type; destruct (truthy_text _); repeat constructor].
  apply refs_set_some in Hm; [|done|apply plain_text_value]. apply refs_set_some in Hm; [|done|apply plain_text_value].
  apply refs_obj in Hm as [Hm|(p & Hp & Hm)]; [done|]. repeat (apply elem_of_cons in Hp as [-> |Hp]; [cbn [snd] in Hm; try by apply elem_of_nil in Hm|]); [| | |by apply elem_of_nil in Hp].
  - apply refs_obj in Hm as [Hm|(q & Hq & Hm)].
    + destruct (items_lookup "$ref" _) as [v|] eqn:E; [|done]. apply items_lookup_Some_elem in E. destruct (cl_properties _ _ _ Hco) as [_ Hg].
      rewrite Forall_forall in Hg. apply Hg in E as [_ Ho]. cbn [snd] in Ho. by destruct v.
    + destruct (cl_properties _ _ _ Hco) as [_ Hg]. rewrite Forall_forall in Hg. by apply Hnamed, (Hg q).
  - apply refs_obj in Hm as [Hm|((name, v) & Hq & Hm)].
    + destruct (items_lookup "$ref" _) as [v|] eqn:E; [|done]. destruct (ro_defs r Hr "$ref" v E) as [Ho _]. by destruct v.
    + apply Hnamed. apply dict_items_lookup in Hq; [|apply (ro_wf r Hr)]. by apply (ro_defs r Hr name v).
  - apply refs_arr in Hm as (x & Hx & Hm). pose proof (cl_all_of _ _ _ Hco) as Hall. rewrite Forall_forall in Hall. apply Hall in Hx as (key & -> & Hk).
    apply refs_obj in Hm as [Hm|(q & ->%list_elem_of_singleton & Hm)]; [|by apply elem_of_nil in Hm].
    cbn [items_lookup] in Hm. rewrite bool_decide_true in Hm by done. cbn [mbind option_bind] in Hm. rewrite local_ref_local in Hm. injection Hm as <-. by apply Hdef.
Qed.
End Assembled.

(** Merging definitions changes no other member but for the references in it. *)
Lemma dedupe_get k schema : k ≠ "$ref" -> k ≠ "$defs" -> is_obj schema = true ->
  exists alias, obj_get k (dedupe_defs_and_rewrite_local_refs schema) = rewrite_local_defs_refs alias <$> obj_get k schema \/
  obj_get k (dedupe_defs_and_rewrite_local_refs schema) = obj_get k schema.
Proof.
  intros Hk Hk' Ho. destruct schema as [| | | | | |l]; try done. unfold dedupe_defs_and_rewrite_local_refs.
  destruct (obj_get "$defs" (JObj l)) as [[| | | | | |defs]|]; try (exists ∅; by right). destruct (forallb _ _); [exists ∅; by right|].
  exists (dd_alias_by_name (dedupe_defs defs)). left. rewrite rewrite_obj. cbn [obj_set obj_get]. rewrite items_lookup_insert, bool_decide_false by congruence.
  rewrite items_lookup_map_values. by rewrite bool_decide_false.
Qed.

(** The schema of an object type, with its references, properties and requirements. *)
Lemma object_type_schema_spec {safe_names : SafeNames} u infos resolved item types ids : arguments_ok u ->
  (forall t, t ∈ lineage item types -> safe_name (def_key (definition_name ids t))) ->
  (forall id schema, resolved !! id = Some schema -> plain schema) ->
  (forall m, m ∈ members_of (lineage item types) -> refs (to_json_metadata_value u infos (om_value m)) = []) ->
  exists r schema, build_object_type_schema u infos resolved true item types ids = Got r schema /\ closed schema /\
    (forall defs name v, obj_get "$defs" schema = Some (JObj defs) -> items_lookup name defs = Some v -> safe_name name) /\
    (exists properties, obj_get "properties" schema = Some (JObj properties) /\
      forall name, name ∈ map fst properties <-> name ∈ map om_browse_name (members_of (lineage item types))) /\
    (forall name, (exists l, obj_get "required" schema = Some (JArr l) /\ JStr name ∈ l) <->
      name ∈ map om_browse_name (List.filter is_mandatory (members_of (lineage item types)))).
Proof.
  intros Harg Hsafe Hres Hvals. set (l := lineage item types). fold l in Hvals, Hsafe. unfold build_object_type_schema, build_with_fuel. fold l.
  set (keys := universe_keys u ++ flat_map (member_keys u infos) (members_of l)). set (fuel := schema_fuel u infos l).
  assert (Hsub : universe_keys u ⊆ keys) by (intros x Hx; apply elem_of_app; by left).
  assert (Hfits : Forall (fun t => safe_name (def_key (definition_name ids t)) /\ Forall (member_fits u keys fuel infos) (ot_members t)) l).
  { apply Forall_forall. intros t Ht. split; [by apply Hsafe|]. apply Forall_forall. intros m Hm. assert (Hin : m ∈ members_of l).
    { apply list_elem_of_In, in_flat_map. exists t. by rewrite <-!list_elem_of_In. }
    split_and!; [|unfold fuel, schema_fuel, enough_fuel; fold keys; pose proof (sum_elem (fun m => value_size (om_schema_value m)) _ _ Hin); lia|by apply Hvals].
    intros x Hx. apply elem_of_app. right. apply list_elem_of_In, in_flat_map. exists m. by rewrite <-!list_elem_of_In. }
  assert (Hstart : collected_ok empty_registry {| co_all_of := []; co_properties := ∅; co_required := [] |} []).
  { split; cbn; [constructor|split; [apply dict_wf_empty|constructor]| |]; intros name; [|done]. split; [by intros []|by intros H%elem_of_nil]. }
  pose proof (lineage_ends u keys Hsub Harg fuel infos resolved Hres ids l _ [] empty_registry registry_empty_ok Hfits Hstart) as Hends.
  unfold succeeds in Hends. destruct (collect_lineage u fuel infos resolved ids _ l empty_registry) as [r co| |]; [|done..].
  destruct Hends as (Hr & He & Hco). cbn [app] in Hco. cbv zeta. eexists r, _. split; [done|].
  destruct (assembled_members infos item r co) as (Ho & Hd & Hp & Hq). pose proof (assembled_closed infos item r co l Hr He Hco) as Hclosed.
  set (schema := assembled_schema infos item (sr_defs r) co) in *. split_and!.
  - destruct schema as [| | | | | |members]; try done. eapply dedupe_closed; [exact Hd|apply (ro_wf r Hr)| |done].
    intros name v Hv. apply dict_items_lookup in Hv; [|apply (ro_wf r Hr)]. by apply (ro_defs r Hr name v).
  - intros defs name v Hdefs Hname. destruct schema as [| | | | | |members]; try done. destruct (dedupe_names _ _ _ _ _ Hd Hdefs Hname) as [w Hw].
    apply dict_items_lookup in Hw; [|apply (ro_wf r Hr)]. apply (ro_keys r Hr). by exists w.
  - assert (Hnames : forall name, name ∈ map fst (dict_items (co_properties co)) <-> name ∈ map om_browse_name (members_of l)).
    { intros name. rewrite <-(cl_names _ _ _ Hco). apply elem_of_dict_keys. }
    destruct (dedupe_get "properties" schema) as (alias & [E|E]); [done..| |]; rewrite E, Hp.
    + cbn [fmap option_fmap option_map]. rewrite rewrite_obj. eexists. split; [done|]. intros name. rewrite <-Hnames. unfold map_values. rewrite List.map_map. done.
    + eexists. split; [done|exact Hnames].
  - intros name. rewrite <-(cl_required _ _ _ Hco).
    assert (Hl : (exists l, nonempty_arr (map JStr (co_required co)) = Some (JArr l) /\ JStr name ∈ l) <-> name ∈ co_required co).
    { unfold nonempty_arr. destruct (co_required co) as [|n ns]; cbn [map].
      - split; [by intros (? & ? & _)|by intros H%elem_of_nil].
      - split; [intros (? & [= <-] & Hin)|intros Hin; eexists; (split; [done|])].
        + change (JStr n :: map JStr ns) with (map JStr (n :: ns)) in Hin. apply elem_of_map in Hin as (x & [= ->] & Hx). done.
        + change (JStr n :: map JStr ns) with (map JStr (n :: ns)). apply elem_of_map. by exists name. }
    destruct (dedupe_get "required" schema) as (alias & [E|E]); [done..| |]; rewrite E, Hq; [|exact Hl].
    rewrite <-Hl. unfold nonempty_arr. destruct (map JStr (co_required co)) as [|v vs] eqn:Ev; [done|]. rewrite <-Ev. cbn [fmap option_fmap option_map rewrite_local_defs_refs].
    rewrite List.map_map. done.
Qed.

(** C38. The schema of an object type with its OPC UA members is made for every set of classes in which [Argument] has its
    [ArrayDimensions], for all hints, for all values without [$ref] members, and for schemas of data types that refer to
    nothing. Every local reference in it names one of its definitions, an object. If no element id of the type and of its
    ancestors has a slash, a tilde or a percent sign, every local reference leads to an object as a JSON pointer in a URI
    fragment. The schema has a property for each member of the type and of its ancestors, and requires the mandatory ones. *)
Theorem object_type_schema_closed u infos resolved item types ids : arguments_ok u ->
  (forall id schema, resolved !! id = Some schema -> plain schema) ->
  (forall m, m ∈ members_of (lineage item types) -> refs (to_json_metadata_value u infos (om_value m)) = []) ->
  exists r schema, build_object_type_schema u infos resolved true item types ids = Got r schema /\ closed schema /\
    ((forall t, t ∈ lineage item types -> pointer_plain (definition_name ids t)) -> resolvable schema) /\
    (exists properties, obj_get "properties" schema = Some (JObj properties) /\
      forall name, name ∈ map fst properties <-> name ∈ map om_browse_name (members_of (lineage item types))) /\
    (forall name, (exists l, obj_get "required" schema = Some (JArr l) /\ JStr name ∈ l) <->
      name ∈ map om_browse_name (List.filter is_mandatory (members_of (lineage item types)))).
Proof.
  intros Harg Hres Hvals. destruct (@object_type_schema_spec any_names u infos resolved item types ids Harg (fun _ _ => I) Hres Hvals)
    as (r & schema & E & Hc & _ & Hrest). exists r, schema. split; [done|]. split; [done|]. split; [|done]. intros Hplain.
  destruct (@object_type_schema_spec pointer_names u infos resolved item types ids Harg) as (r' & schema' & E' & _ & Hn & _); [|done..|].
  - intros t Ht. cbn. rewrite plain_def_key by by apply Hplain. by apply Hplain.
  - rewrite E in E'. injection E' as <- <-. by apply closed_resolvable.
Qed.

(** ** Ancestors *)

Section Lineage.
Context (types : dict string OpcUaObjectTypeInfo) (Hids : forall id t, types !! id = Some t -> ot_node_id t = id).

(** The type that is listed under the parent of a type. *)
Definition parent_of (s t : OpcUaObjectTypeInfo) : Prop := exists id, truthy_text (ot_parent_node_id s) = Some id /\ types !! id = Some t.

Definition listed (t : OpcUaObjectTypeInfo) : Prop := types !! ot_node_id t = Some t.

Lemma parent_listed s t : parent_of s t -> listed t.
Proof using Hids. intros (id & _ & H). unfold listed. by rewrite (Hids id t H). Qed.

Definition unseen (seen : list string) : nat := length (List.filter (fun id => negb (bool_decide (id ∈ seen))) (dict_keys types)).

Lemma unseen_lt seen t : listed t -> ot_node_id t ∉ seen -> unseen (ot_node_id t :: seen) < unseen seen.
Proof using.
  intros Hl Hn. apply filter_length_lt with (ot_node_id t).
  - intros x. rewrite !negb_true_iff, !bool_decide_eq_false. intros H Hx. apply H. by right.
  - apply elem_of_dict_keys. by exists t.
  - rewrite negb_false_iff, bool_decide_eq_true. by left.
  - by rewrite negb_true_iff, bool_decide_eq_false.
Qed.

Lemma ancestors_head n seen t : unseen seen < n -> ot_node_id t ∉ seen -> t ∈ ancestors n types seen t.
Proof using. intros Hn Hs. destruct n; [lia|]. cbn [ancestors]. rewrite bool_decide_false by done. by left. Qed.

Lemma ancestors_sound n seen s t : t ∈ ancestors n types seen s -> rtc parent_of s t.
Proof using.
  revert seen s. induction n as [|n IH]; intros seen s; cbn [ancestors]; [by intros H%elem_of_nil|]. case_bool_decide; [by intros Hx%elem_of_nil|].
  intros [-> |Ht]%elem_of_cons; [done|]. destruct (truthy_text (ot_parent_node_id s)) as [id|] eqn:E; [|by apply elem_of_nil in Ht].
  cbn [mbind option_bind] in Ht. destruct (types !! id) as [p|] eqn:Ep; [|by apply elem_of_nil in Ht]. eapply rtc_l; [by exists id|]. by eapply IH.
Qed.

(** The ancestors are closed under parents, but for what was seen before. *)
Lemma ancestors_closed n seen s x y : unseen seen < n -> listed s -> x ∈ ancestors n types seen s -> parent_of x y ->
  y ∈ ancestors n types seen s \/ ot_node_id y ∈ seen.
Proof using Hids.
  revert seen s. induction n as [|n IH]; intros seen s Hn Hs; [lia|]. cbn [ancestors]. case_bool_decide as Hseen; [by intros Hx%elem_of_nil|].
  intros Hx Hxy. pose proof (unseen_lt seen s Hs Hseen) as Hlt. pose proof (parent_listed x y Hxy) as Hy.
  assert (Hback : ot_node_id y ∈ ot_node_id s :: seen -> (exists tail, y ∈ s :: tail) \/ ot_node_id y ∈ seen).
  { intros [E|H]%elem_of_cons; [left; exists []|by right]. unfold listed in *. rewrite E in Hy. assert (y = s) as -> by congruence. by left. }
  apply elem_of_cons in Hx as [-> |Hx].
  - destruct Hxy as (id & Hid & Hp). rewrite Hid. cbn [mbind option_bind]. rewrite Hp.
    destruct (decide (ot_node_id y ∈ ot_node_id s :: seen)) as [Hin|Hin]; [|left; right; apply ancestors_head; [lia|done]].
    apply elem_of_cons in Hin as [E|Hin]; [|by right]. left. unfold listed in *. rewrite E in Hy. assert (y = s) as -> by congruence. by left.
  - destruct (truthy_text (ot_parent_node_id s)) as [id|] eqn:E; [|by apply elem_of_nil in Hx]. cbn [mbind option_bind] in *.
    destruct (types !! id) as [p|] eqn:Ep; [|by apply elem_of_nil in Hx].
    destruct (IH (ot_node_id s :: seen) p ltac:(lia)) as [H|H]; [unfold listed; by rewrite (Hids id p Ep)|done|done|left; by right|].
    apply elem_of_cons in H as [H|H]; [|by right]. left. unfold listed in *. rewrite H in Hy. assert (y = s) as -> by congruence. by left.
Qed.

(** The lineage of a type has the type and everything that its parents lead to, cycles or not. *)
Theorem lineage_exact item t : listed item -> t ∈ lineage item types <-> rtc parent_of item t.
Proof using Hids.
  intros Hi. unfold lineage. rewrite elem_of_reverse. set (n := S (S (dict_len types))).
  assert (Hn : unseen [] < n).
  { unfold n, unseen, dict_len. assert (H : length (List.filter (fun id => negb (bool_decide (id ∈ []))) (dict_keys types)) <= length (dict_keys types)).
    { etrans; [apply (filter_length_le _ (fun _ => true)); done|]. induction (dict_keys types); cbn; lia. }
    unfold dict_keys in H at 2. rewrite length_fmap in H. lia. }
  split; [apply ancestors_sound|]. intros H. assert (Hg : forall s, rtc parent_of s t -> s ∈ ancestors n types [] item -> t ∈ ancestors n types [] item).
  { clear H. intros s H. induction H as [s|s p t Hp H IH]; [done|]. intros Hs. apply IH.
    destruct (ancestors_closed n [] item s p Hn Hi Hs Hp) as [|Hin]; [done|by apply elem_of_nil in Hin]. }
  apply (Hg item H). apply ancestors_head; [done|by intros Hin%elem_of_nil].
Qed.
End Lineage.

(** ** Samples *)

Definition sample_class (name : string) (fields : list Field) (argument : bool) : PyClass :=
  {| pc_name := name; pc_module := "sample.types"; pc_base := base_object; pc_members := None; pc_fields := Some fields; pc_annotations := [];
     pc_is_argument := argument; pc_ua_types := []; pc_doc := ε |}.

Definition sample_field (name : string) (a : annotation) : Field :=
  {| fl_name := name; fl_type := a; fl_metadata := []; fl_default := None; fl_default_factory := None |}.

Definition kind_class : PyClass :=
  {| pc_name := "Kind"; pc_module := "sample.types"; pc_base := base_int; pc_members := Some [("Leaf", Some 0%Z); ("Inner", Some 1%Z)]; pc_fields := None;
     pc_annotations := []; pc_is_argument := false; pc_ua_types := []; pc_doc := ε |}.

(** A tree whose nodes have nodes below them, an enumeration, and arguments. *)
Definition tree_class : PyClass :=
  sample_class "TreeNode" [sample_field "Label" (AnnText "ua.String"); sample_field "Kind" (AnnClass "kind");
    sample_field "Children" (AnnSequence (Some (AnnForward "TreeNode"))); sample_field "Weight" (AnnText "Optional[ua.Double]")] false.

Definition argument_class : PyClass := sample_class "Argument" [sample_field "Name" (AnnText "ua.String"); sample_field "ArrayDimensions" (AnnText "list[ua.UInt32]")] true.

Definition sample_universe : Universe :=
  {| un_classes := Dict [("tree", tree_class); ("kind", kind_class); ("argument", argument_class)];
     un_ua := fun name => if bool_decide (name = "TreeNode") then Some "tree" else None;
     un_registry := [("ns=1;i=3001", Some "tree")]; un_structures := []; un_import := fun _ => None; un_module_types := fun _ => [];
     un_object_id_names := fun _ => None; un_class_of := fun name => if bool_decide (name = "TreeNode") then "tree" else "argument";
     un_node_text := fun _ => ε; un_extension_dataclass := true; un_eval := fun _ _ _ => None |}.

Lemma sample_arguments : arguments_ok sample_universe.
Proof.
  intros c k Hk%dict_lookup_items Ha. cbn [un_classes sample_universe dict_items] in Hk.
  repeat (apply elem_of_cons in Hk as [[= -> ->]|Hk]; [first [discriminate Ha|right; by left]|]). by apply elem_of_nil in Hk.
Qed.

Definition sample_infos : list OpcUaNamespaceInfo := [Build_OpcUaNamespaceInfo UA_NAMESPACE ε None None; Build_OpcUaNamespaceInfo "urn:x" ε None None].

Definition schema_of (a : computed (option json)) : option json := match a with Got _ x => x | _ => None end.
Definition type_schema_of (a : computed json) : option json := match a with Got _ x => Some x | _ => None end.

(** The schema of the tree says what its nodes are down to the first node below, and then refers to a definition that it
    does not have. *)
Example recursive_reference_left :
  match schema_of (build_data_type_schema sample_universe sample_infos false "ns=1;i=3001") with
  | Some schema => refs schema = ["TreeNode_2"] /\ obj_get "$defs" schema = None /\ obj_get "title" schema = Some (JStr "TreeNode")
  | None => False
  end.
Proof. vm_compute. auto. Qed.

(** A name that has double in it is taken for a number, though it is that of a structure. *)
Example complex_number_is_number : json_schema_for_opcua_type sample_universe (Some "DoubleComplexNumberType") = typed "number".
Proof. reflexivity. Qed.

(** A definition whose id has a slash stands under its escaped id, where no JSON pointer finds it. *)
Example escaped_twice : def_key "unresolved-objecttype:pump/drive" = "unresolved-objecttype:pump~1drive" /\
  pointer_key (def_key "unresolved-objecttype:pump/drive") = Some "unresolved-objecttype:pump/drive".
Proof. split; vm_compute; reflexivity. Qed.

Lemma data_type_schema_made_witness :
  (arguments_ok sample_universe /\ truthy "ns=1;i=3001" = true) /\
  exists r schema, build_data_type_schema sample_universe sample_infos true "ns=1;i=3001" = Got r schema /\
    (is_Some schema <-> is_Some (structured_data_type sample_universe "ns=1;i=3001" sample_infos)) /\
    forall v name, schema = Some v -> name ∈ refs v -> tc (refers (sr_defs r)) name name.
Proof.
  split; [split; [exact sample_arguments|reflexivity]|]. apply (data_type_schema_made sample_universe sample_infos true "ns=1;i=3001"); [exact sample_arguments|reflexivity].
Defined.

Definition sample_member (name : string) (data_type : option string) (rule : string) (v : ua_value) : OpcUaObjectTypeMemberInfo :=
  {| om_node_id := "ns=1;s=" +:+ name; om_browse_name := name; om_display_name := name; om_description := None; om_node_class := "Variable";
     om_data_type := data_type; om_modelling_rule := Some rule; om_value := UNone; om_schema_value := v; om_variant_type := None; om_is_array := None;
     om_value_rank := Some (-1)%Z; om_array_dimensions := None; om_parent_node_id := None; om_type_definition_id := None; om_reference_type_id := None;
     om_reference_type := None; om_reference_order := None |}.

Definition sample_type (id : string) (parent : option string) (members : list OpcUaObjectTypeMemberInfo) : OpcUaObjectTypeInfo :=
  {| ot_node_id := id; ot_parent_node_id := parent; ot_browse_name := id; ot_display_name := id; ot_description := None; ot_is_abstract := None;
     ot_properties := ∅; ot_members := members |}.

Definition a_tree : ua_value := UStruct "TreeNode" [("Label", UStr "root"); ("Kind", UInt 1); ("Children", UList [])].

Definition base_type : OpcUaObjectTypeInfo := sample_type "ns=1;i=1" (Some "ns=1;i=2") [sample_member "Speed" (Some "i=11") "Mandatory" UNone].
Definition pump_type : OpcUaObjectTypeInfo := sample_type "ns=1;i=2" (Some "ns=1;i=1") [sample_member "Plan" (Some "ns=1;i=3001") "Optional" a_tree].

(** Two types that are each the parent of the other. *)
Definition sample_types : dict string OpcUaObjectTypeInfo := Dict [("ns=1;i=1", base_type); ("ns=1;i=2", pump_type)].

Example sample_schema_names :
  match type_schema_of (build_object_type_schema sample_universe sample_infos ∅ true pump_type sample_types ∅) with
  | Some schema => refs schema = ["TreeNode"; "TreeNode"; "unresolved-objecttype:ns=1;i=1"; "unresolved-objecttype:ns=1;i=2"] /\
                   obj_get "required" schema = Some (JArr [JStr "Speed"])
  | None => False
  end.
Proof. vm_compute. auto. Qed.

(** The escapes of pointers. *)
Example escaped_pointers : map pointer_key ["a~1b"; "a~0b"; "a%2Fb"; "a%7E1b"; "a b"; "~2%zz"] = [Some "a/b"; Some "a~b"; None; Some "a/b"; Some "a b"; Some "~2%zz"].
Proof. vm_compute. reflexivity. Qed.

Lemma object_type_schema_closed_witness :
  (arguments_ok sample_universe /\ lineage pump_type sample_types = [base_type; pump_type] /\
   forall m, m ∈ members_of (lineage pump_type sample_types) -> refs (to_json_metadata_value sample_universe sample_infos (om_value m)) = []) /\
  exists r schema, build_object_type_schema sample_universe sample_infos ∅ true pump_type sample_types ∅ = Got r schema /\ closed schema /\ resolvable schema /\
    (exists properties, obj_get "properties" schema = Some (JObj properties) /\
      forall name, name ∈ map fst properties <-> name ∈ map om_browse_name (members_of (lineage pump_type sample_types))) /\
    (forall name, (exists l, obj_get "required" schema = Some (JArr l) /\ JStr name ∈ l) <->
      name ∈ map om_browse_name (List.filter is_mandatory (members_of (lineage pump_type sample_types)))).
Proof.
  assert (Hl : lineage pump_type sample_types = [base_type; pump_type]) by (vm_compute; reflexivity).
  assert (Hm : forall m, m ∈ members_of (lineage pump_type sample_types) -> refs (to_json_metadata_value sample_universe sample_infos (om_value m)) = []).
  { rewrite Hl. intros m Hin. cbn [members_of flat_map ot_members base_type pump_type sample_type app] in Hin.
    repeat (apply elem_of_cons in Hin as [-> |Hin]; [reflexivity|]). by apply elem_of_nil in Hin. }
  assert (Hp : forall t, t ∈ lineage pump_type sample_types -> pointer_plain (definition_name ∅ t)).
  { rewrite Hl. intros t Hin. repeat (apply elem_of_cons in Hin as [-> |Hin]; [vm_compute; reflexivity|]). by apply elem_of_nil in Hin. }
  split; [split; [exact sample_arguments|split; [exact Hl|exact Hm]]|].
  destruct (object_type_schema_closed sample_universe sample_infos ∅ pump_type sample_types ∅) as (r & schema & E & Hc & Hr & Hrest);
    [exact sample_arguments|done|exact Hm|]. exists r, schema. split; [exact E|]. split; [exact Hc|]. split; [exact (Hr Hp)|exact Hrest].
Defined.
End ObjectSchemaSpec.
