(* ===== verification/TypeContext.v ===== *)
(** The context of object types that the routes share ([api/v1/objecttype_helpers.py]): one cached context with the tokens of
    what it was built from, served while another is built in the background, and the revision that each response records.

    The server keeps one list of object types until its metadata are loaded again, and a memo remembers the token of the
    list by its identity, here a number. The construction of a context ([_build_object_type_context]) is a call, [model_token]
    is [model_revision], and [model_dump_json] of an item is pydantic's. *)

From S2P Require Export HttpCaching UaValues OpcuaReads.
Local Open Scope Z_scope.

Module TypeContext.
Export HttpCaching ObjectTypes OpcuaReads.
Local Open Scope async_scope.

#[export] Instance OpcUaNamespaceInfo_eq_dec : EqDecision OpcUaNamespaceInfo.
Proof. solve_decision. Defined.

Record ObjectTypeContext := {
  oc_namespace_infos : list OpcUaNamespaceInfo;
  oc_object_types : list OpcUaObjectTypeInfo;
  oc_element_ids_by_node_id : dict string string;
  oc_items : list ObjectTypeResponse;
  oc_source_type_to_element_id : dict string string;
  oc_revision : string;
}.

Definition set_revision (r : string) (c : ObjectTypeContext) : ObjectTypeContext :=
  {| oc_namespace_infos := oc_namespace_infos c; oc_object_types := oc_object_types c; oc_element_ids_by_node_id := oc_element_ids_by_node_id c;
     oc_items := oc_items c; oc_source_type_to_element_id := oc_source_type_to_element_id c; oc_revision := r |}.

(** ** Tokens *)

Definition opt {A} (f : A -> pyval) (o : option A) : pyval := match o with Some a => f a | None => PNone end.

Definition OBJECT_TYPE_KEY_FIELDS (item : OpcUaObjectTypeInfo) : list pyval :=
  [PStr (ot_node_id item); opt PStr (ot_parent_node_id item); PStr (ot_browse_name item); PStr (ot_display_name item);
   opt PStr (ot_description item); opt PBool (ot_is_abstract item)].

Definition OBJECT_TYPE_MEMBER_KEY_FIELDS (m : OpcUaObjectTypeMemberInfo) : list pyval :=
  [PStr (om_node_id m); PStr (om_browse_name m); PStr (om_display_name m); opt PStr (om_description m); PStr (om_node_class m);
   opt PStr (om_data_type m); opt PStr (om_modelling_rule m); opt PStr (om_variant_type m); opt PBool (om_is_array m); opt PInt (om_value_rank m);
   opt (fun l => PList (map PInt l)) (om_array_dimensions m); opt PStr (om_parent_node_id m); opt PStr (om_type_definition_id m);
   opt PStr (om_reference_type_id m); opt PStr (om_reference_type m); opt PInt (om_reference_order m)].

Definition key_order {A} (p q : string * A) : bool := string_leb p.1 q.1.

(** [tuple(sorted(d.items()))]; the keys of a dictionary differ, so that values are not compared. *)
Definition sorted_items {A} (f : A -> pyval) (d : dict string A) : pyval :=
  PTuple (map (fun p => PTuple [PStr p.1; f p.2]) (py_sorted key_order (dict_items d))).

Definition type_key (item : OpcUaObjectTypeInfo) : pyval :=
  PTuple [PTuple (OBJECT_TYPE_KEY_FIELDS item); sorted_items (opt PStr) (ot_properties item);
          PTuple (map (fun m => PTuple (OBJECT_TYPE_MEMBER_KEY_FIELDS m)) (ot_members item))].

(** [(info.uri, info.display_name, info.namespace_version, info.server_uri)]. *)
Definition info_key (info : OpcUaNamespaceInfo) : pyval :=
  PTuple [PStr (nsi_uri info); PStr (nsi_display_name info); opt PStr (nsi_namespace_version info); opt PStr (nsi_server_uri info)].

Section Context_.
Context (sha256_hex : string -> string) (model_token : BuildResult -> string) (model_dump_json : ObjectTypeResponse -> string).

Definition object_types_token (object_types : list OpcUaObjectTypeInfo) : string := content_revision sha256_hex (map type_key object_types).

Definition context_values (c : ObjectTypeContext) : list pyval :=
  [PTuple (map info_key (oc_namespace_infos c)); PStr (object_types_token (oc_object_types c));
   PTuple (map (fun item => PStr (model_dump_json item)) (oc_items c)); sorted_items PStr (oc_element_ids_by_node_id c);
   sorted_items PStr (oc_source_type_to_element_id c)].

Definition object_type_context_revision (c : ObjectTypeContext) : string := content_revision sha256_hex (context_values c).

(** ** The state of the application *)

Record CachedContext := {
  cc_model_token : string;
  cc_namespace_token : list OpcUaNamespaceInfo;
  cc_object_types_token : string;
  cc_context : ObjectTypeContext;
}.

Record TypeState := {
  ts_model_cache : option BuildResult;
  ts_memo : option (nat * string);
  ts_object_type_context_cache : option CachedContext;
  ts_refreshing : bool;
}.

Definition set_memo (m : option (nat * string)) (s : TypeState) : TypeState :=
  {| ts_model_cache := ts_model_cache s; ts_memo := m; ts_object_type_context_cache := ts_object_type_context_cache s; ts_refreshing := ts_refreshing s |}.

Definition set_context_cache (c : option CachedContext) (s : TypeState) : TypeState :=
  {| ts_model_cache := ts_model_cache s; ts_memo := ts_memo s; ts_object_type_context_cache := c; ts_refreshing := ts_refreshing s |}.

Definition set_refreshing (b : bool) (s : TypeState) : TypeState :=
  {| ts_model_cache := ts_model_cache s; ts_memo := ts_memo s; ts_object_type_context_cache := ts_object_type_context_cache s; ts_refreshing := b |}.

(** [_memoized_object_types_token]. *)
Definition memoized_object_types_token (types : nat * list OpcUaObjectTypeInfo) (s : TypeState) : TypeState * string :=
  let fresh := let token := object_types_token types.2 in (set_memo (Some (types.1, token)) s, token) in
  match ts_memo s with
  | Some (id, token) => if Nat.eqb id types.1 then (s, token) else fresh
  | None => fresh
  end.

(** [_cached_object_type_context]. *)
Definition cached_object_type_context (model_token : string) (infos : list OpcUaNamespaceInfo) (types_token : string) (s : TypeState) : option ObjectTypeContext :=
  match ts_object_type_context_cache s with
  | Some c =>
      if (bool_decide (cc_model_token c = model_token) && bool_decide (cc_namespace_token c = infos) &&
          bool_decide (cc_object_types_token c = types_token))%bool
      then Some (cc_context c) else None
  | None => None
  end.

(** [_stale_object_type_context]. *)
Definition stale_object_type_context (s : TypeState) : option ObjectTypeContext := cc_context <$> ts_object_type_context_cache s.

(** [_schedule_object_type_context_refresh]: a refresh is started unless one runs. *)
Definition schedule_object_type_context_refresh (s : TypeState) : TypeState := if ts_refreshing s then s else set_refreshing true s.

(** ** Calls *)

Inductive type_call : Type -> Type :=
  | GetNamespaceInfos : type_call (outcome error (list OpcUaNamespaceInfo))
  | GetObjectTypes : type_call (outcome error (nat * list OpcUaObjectTypeInfo))
  | BuildContext (model : BuildResult) (infos : list OpcUaNamespaceInfo) (object_types : list OpcUaObjectTypeInfo) : type_call (outcome error ObjectTypeContext).

Abbreviation method A := (prog TypeState type_call (outcome error A)).

(** The first look at the cache: a context to serve, or the token to build for. *)
Definition look (allow_stale : bool) (model : BuildResult) (infos : list OpcUaNamespaceInfo) (types : nat * list OpcUaObjectTypeInfo) (s : TypeState) :
    TypeState * (ObjectTypeContext + string) :=
  let '(s, token) := memoized_object_types_token types s in
  match cached_object_type_context (model_token model) infos token s with
  | Some c => (s, inl c)
  | None =>
      match (if allow_stale then stale_object_type_context s else None) with
      | Some c => (schedule_object_type_context_refresh s, inl c)
      | None => (s, inr token)
      end
  end.

Definition store (model : BuildResult) (infos : list OpcUaNamespaceInfo) (types_token : string) (c : ObjectTypeContext) : TypeState -> TypeState :=
  set_context_cache (Some {| cc_model_token := model_token model; cc_namespace_token := infos; cc_object_types_token := types_token; cc_context := c |}).

(** Under the lock: another look, and the construction. *)
Definition build_locked (model : BuildResult) (infos : list OpcUaNamespaceInfo) (types : nat * list OpcUaObjectTypeInfo) (token : string) : method ObjectTypeContext :=
  cached <- sect (fun s => (s, cached_object_type_context (model_token model) infos token s));;
  match cached with
  | Some c => Ret (Ok c)
  | None =>
      obind (call (BuildContext model infos types.2)) (fun built =>
        let c := set_revision (object_type_context_revision built) built in
        _ <- update (store model infos token c);; Ret (Ok c))
  end.

Definition resolve_object_type_context (model : BuildResult) (namespace_infos : option (list OpcUaNamespaceInfo)) (allow_stale : bool) : method ObjectTypeContext :=
  obind (match namespace_infos with Some infos => Ret (Ok infos) | None => call GetNamespaceInfos end) (fun infos =>
  obind (call GetObjectTypes) (fun types =>
    looked <- sect (look allow_stale model infos types);;
    match looked with
    | inl c => Ret (Ok c)
    | inr token => with_lock (build_locked model infos types token)
    end)).

(** [_get_object_type_context]: with what the request has recorded. *)
Definition get_object_type_context (parts : option Parts) (model : BuildResult) (namespace_infos : option (list OpcUaNamespaceInfo)) (allow_stale : bool) :
    method (ObjectTypeContext * option Parts) :=
  obind (resolve_object_type_context model namespace_infos allow_stale) (fun c => Ret (Ok (c, record_revision OBJECT_TYPES_PART (oc_revision c) parts))).

(** [_refresh_object_type_context], the task that a stale context starts; for the newest model, whatever fails. *)
Definition refresh_object_type_context (model : BuildResult) : prog TypeState type_call unit :=
  target <- sect (fun s => (s, default model (ts_model_cache s)));;
  _ <- get_object_type_context None target None false;;
  update (set_refreshing false).

(** [warm_object_type_context]. *)
Definition warm_object_type_context (model : BuildResult) : method (ObjectTypeContext * option Parts) := get_object_type_context None model None false.

(** [_get_object_endpoint_context]: without the types if they cannot be had, and then without a tag. *)
Definition get_object_endpoint_context (parts : option Parts) (model : BuildResult) :
    prog TypeState type_call (outcome http_error (list OpcUaNamespaceInfo * dict string string * dict string string * option Parts)) :=
  infos <- call GetNamespaceInfos;;
  match infos with
  | Err _ => Ret (Err (HttpError 502 "OpcUaNamespaceError" "Failed to read OPC UA namespaces"))
  | Ok infos =>
      context <- get_object_type_context parts model (Some infos) true;;
      let '(by_node_id, by_source_type, parts) :=
        match context with
        | Ok (c, parts) => (oc_element_ids_by_node_id c, oc_source_type_to_element_id c, parts)
        | Err _ => (∅, ∅, mark_not_cacheable parts)
        end in
      Ret (Ok (infos, by_node_id, by_source_type, record_revision NAMESPACES_PART (content_revision sha256_hex (map info_key infos)) parts))
  end.
End Context_.
End TypeContext.
