(* ===== verification/TypeContextSpec.v ===== *)
(** What the shared context of object types promises, however requests, refreshes and reloads interleave: what is served was
    built, carries the revision of its own content, and is current unless a stale one may be served. *)

From S2P Require Export TypeContext HttpCachingSpec.
Local Open Scope Z_scope.

(** ** Programs among others

    [sound p Q]: each section of [p], run in whatever state the others leave with [Inv], restores [Inv], and [p] returns
    what [Q] says. *)
Section Sound.
Context {S : Type} {C : Type -> Type} (resp_ok : forall R, C R -> R -> Prop) (Inv : S -> Prop).

Fixpoint sound {A} (p : prog S C A) (Q : A -> Prop) : Prop :=
  match p with
  | Ret a => Q a
  | Sect f k => forall s, Inv s -> Inv (f s).1 /\ sound (k (f s).2) Q
  | Await c k => forall r, resp_ok _ c r -> sound (k r) Q
  | Acquire k => sound k Q
  | Release k => sound k Q
  end.

Lemma sound_mono {A} (p : prog S C A) (P Q : A -> Prop) : sound p P -> (forall a, P a -> Q a) -> sound p Q.
Proof. intros Hp HQ. induction p as [a|X f k IH|R c k IH|k IH|k IH]; cbn in *; try naive_solver. Qed.

Lemma sound_bind {A B} (p : prog S C A) (g : A -> prog S C B) (P : A -> Prop) (Q : B -> Prop) :
  sound p P -> (forall a, P a -> sound (g a) Q) -> sound (pbind p g) Q.
Proof. intros Hp Hg. induction p as [a|X f k IH|R c k IH|k IH|k IH]; cbn in *; try naive_solver. Qed.

Lemma sound_obind {E A B} (p : prog S C (outcome E A)) (g : A -> prog S C (outcome E B)) (P : outcome E A -> Prop) (Q : outcome E B -> Prop) :
  sound p P -> (forall a, P (Ok a) -> sound (g a) Q) -> (forall e, P (Err e) -> Q (Err e)) -> sound (obind p g) Q.
Proof. intros Hp Hok Herr. eapply sound_bind; [exact Hp|]. intros [a|e] HP; [by apply Hok|by apply Herr]. Qed.

Lemma sound_call {R A} (c : C R) (g : R -> prog S C A) (Q : A -> Prop) : (forall r, resp_ok _ c r -> sound (g r) Q) -> sound (pbind (call c) g) Q.
Proof. done. Qed.

Lemma sound_sect {X A} (f : S -> S * X) (g : X -> prog S C A) (Q : A -> Prop) :
  (forall s, Inv s -> Inv (f s).1 /\ sound (g (f s).2) Q) -> sound (pbind (sect f) g) Q.
Proof. done. Qed.

Lemma sound_with_lock {A} (p : prog S C A) (Q : A -> Prop) : sound p Q -> sound (with_lock p) Q.
Proof. intros Hp. cbn. by eapply sound_bind. Qed.

(** Tasks that are sound keep the invariant together. *)
Lemma sound_pool (entry : prog S C unit -> Prop) s pl :
  (forall p, entry p -> sound p (fun _ => True)) -> Inv s ->
  pool_steps resp_ok (fun s s' => Inv s -> Inv s') entry (Pool s None []) pl -> Inv (pl_state pl).
Proof.
  intros Hentry Hs Hsteps.
  assert (H : Inv (pl_state pl) /\ Forall (fun p => sound p (fun _ => True)) (pl_tasks pl)); [|by apply H].
  remember (Pool s None []) as pl0 eqn:E. assert (H0 : Inv (pl_state pl0) /\ Forall (fun p => sound p (fun _ => True)) (pl_tasks pl0)) by by rewrite E.
  clear E. induction Hsteps as [pl|pl1 pl2 pl3 Hstep _ IH]; [done|]. apply IH. clear IH pl3 s Hs. destruct H0 as [Hs Hts].
  destruct Hstep as [s o ts p Hp|s s' o ts Ht|s o ts i X f k s' x Hi Hf|s o ts i X c k r Hi Hr|s ts i k Hi|s ts i k Hi]; cbn in *.
  - split; [done|]. apply Forall_app. auto.
  - auto.
  - pose proof (Forall_lookup_1 _ _ _ _ Hts Hi) as H. specialize (H s Hs). rewrite Hf in H. destruct H as [Hs' Hk]. split; [done|]. by apply Forall_insert.
  - pose proof (Forall_lookup_1 _ _ _ _ Hts Hi) as H. split; [done|]. apply Forall_insert; [done|]. by apply H.
  - pose proof (Forall_lookup_1 _ _ _ _ Hts Hi) as H. split; [done|]. by apply Forall_insert.
  - pose proof (Forall_lookup_1 _ _ _ _ Hts Hi) as H. split; [done|]. by apply Forall_insert.
Qed.
End Sound.

Module TypeContextSpec.
Import TypeContext HttpCachingSpec.

Section Contexts.
Context (sha256_hex : string -> string) (model_token : BuildResult -> string) (model_dump_json : ObjectTypeResponse -> string).

Abbreviation token_of := (object_types_token sha256_hex).
Abbreviation revision_of := (object_type_context_revision sha256_hex model_dump_json).

(** The lists that the client serves, by identity, and what a construction may make of its inputs. *)
Context (lists : nat -> list OpcUaObjectTypeInfo).
Context (builds : BuildResult -> list OpcUaNamespaceInfo -> list OpcUaObjectTypeInfo -> ObjectTypeContext -> Prop).

(** The context that is made of these inputs, with its revision. *)
Definition built_from (model : BuildResult) (infos : list OpcUaNamespaceInfo) (types : list OpcUaObjectTypeInfo) (c : ObjectTypeContext) : Prop :=
  exists built, builds model infos types built /\ c = set_revision (revision_of built) built.

(** The memo is right, and the cached context was built from what its tokens say. *)
Definition type_ok (s : TypeState) : Prop :=
  (forall id token, ts_memo s = Some (id, token) -> token = token_of (lists id)) /\
  (forall c, ts_object_type_context_cache s = Some c -> exists model types,
     built_from model (cc_namespace_token c) types (cc_context c) /\ cc_model_token c = model_token model /\ cc_object_types_token c = token_of types).

(** The client serves these, and nothing else, while the request runs; a construction makes what it may. *)
Definition client_serves (infos : list OpcUaNamespaceInfo) (id : nat) R (c : type_call R) : R -> Prop :=
  match c in type_call R return R -> Prop with
  | GetNamespaceInfos => fun r => match r with Ok i => i = infos | Err _ => True end
  | GetObjectTypes => fun r => match r with Ok t => t = (id, lists id) | Err _ => True end
  | BuildContext model i t => fun r => match r with Ok c => builds model i t c | Err _ => True end
  end.

(** The client serves one of its lists. *)
Definition client_ok R (c : type_call R) : R -> Prop :=
  match c in type_call R return R -> Prop with
  | GetNamespaceInfos => fun r => True
  | GetObjectTypes => fun r => match r with Ok t => t.2 = lists t.1 | Err _ => True end
  | BuildContext model i t => fun r => match r with Ok c => builds model i t c | Err _ => True end
  end.

Lemma revision_set r c : revision_of (set_revision r c) = revision_of c.
Proof. done. Qed.

Lemma memo_ok id s : type_ok s -> let '(s', token) := memoized_object_types_token sha256_hex (id, lists id) s in type_ok s' /\ token = token_of (lists id).
Proof.
  intros [Hm Hc]. unfold memoized_object_types_token.
  assert (Hfresh : type_ok (set_memo (Some (id, token_of (lists id))) s)).
  { split; [by intros i t [= <- <-]|done]. }
  destruct (ts_memo s) as [[i token]|] eqn:E; cbn [fst snd]; [|done]. destruct (Nat.eqb_spec i id) as [->|]; [|done].
  split; [split|]; [|done|]; [intros j t Ht; apply Hm; congruence|by apply Hm].
Qed.

(** What a look at the cache serves. *)
Definition current (model : BuildResult) (infos : list OpcUaNamespaceInfo) (types : list OpcUaObjectTypeInfo) (c : ObjectTypeContext) : Prop :=
  exists model' types', built_from model' infos types' c /\ model_token model' = model_token model /\ token_of types' = token_of types.

Definition once_built (c : ObjectTypeContext) : Prop := exists model infos types, built_from model infos types c.

Lemma cached_current model infos types s c :
  type_ok s -> cached_object_type_context (model_token model) infos (token_of types) s = Some c -> current model infos types c.
Proof.
  intros [_ Hs]. unfold cached_object_type_context. destruct (ts_object_type_context_cache s) as [cc|] eqn:E; [|done].
  destruct (Hs cc eq_refl) as (model' & types' & Hb & Hm & Ht). destruct (_ && _ && _)%bool eqn:Htok; [|done]. intros [= <-].
  apply andb_true_iff in Htok as [[H1 H2]%andb_true_iff H3]. apply bool_decide_eq_true in H1, H2, H3.
  exists model', types'. rewrite H2 in Hb. split_and!; congruence.
Qed.

Lemma current_once_built model infos types c : current model infos types c -> once_built c.
Proof. intros (model' & types' & Hb & _). by exists model', infos, types'. Qed.

Lemma look_ok allow_stale model infos id s :
  type_ok s ->
  let '(s', r) := look sha256_hex model_token allow_stale model infos (id, lists id) s in
  type_ok s' /\ match r with
                | inl c => current model infos (lists id) c \/ allow_stale = true /\ once_built c /\ ts_refreshing s' = true
                | inr token => token = token_of (lists id)
                end.
Proof.
  intros Hs. unfold look. pose proof (memo_ok id s Hs) as Hmemo. destruct (memoized_object_types_token sha256_hex (id, lists id) s) as [s1 token].
  destruct Hmemo as [Hs1 ->]. destruct (cached_object_type_context _ _ _ s1) as [c|] eqn:Hc.
  { split; [done|]. left. by eapply cached_current. }
  destruct allow_stale; [|by split]. unfold stale_object_type_context. destruct (ts_object_type_context_cache s1) as [cc|] eqn:E; [|by split]. cbn [fmap option_fmap option_map].
  unfold schedule_object_type_context_refresh. destruct (proj2 Hs1 cc E) as (model' & types' & Hb & _ & _).
  split; [by destruct (ts_refreshing s1)|]. right. split; [done|]. split; [by exists model', (cc_namespace_token cc), types'|]. by destruct (ts_refreshing s1) eqn:Er.
Qed.

Lemma store_ok model infos types c s : type_ok s -> built_from model infos types c -> type_ok (store model_token model infos (token_of types) c s).
Proof. intros [Hm _] Hb. split; [done|]. intros cc [= <-]. by exists model, types. Qed.

Section Client.
Context (resp_ok : forall R, type_call R -> R -> Prop).
Context (Hbuilds : forall m i t c, resp_ok _ (BuildContext m i t) (Ok c) -> builds m i t c).
Context (infos : list OpcUaNamespaceInfo) (id : nat).
Context (Htypes : forall t, resp_ok _ GetObjectTypes (Ok t) -> t = (id, lists id)).

Definition served (allow_stale : bool) (model : BuildResult) (infos : list OpcUaNamespaceInfo) (c : ObjectTypeContext) : Prop :=
  current model infos (lists id) c \/ allow_stale = true /\ once_built c.

Lemma build_locked_ok model :
  sound resp_ok type_ok (build_locked sha256_hex model_token model_dump_json model infos (id, lists id) (token_of (lists id))) (fun r =>
    match r with Ok c => current model infos (lists id) c | Err _ => True end).
Proof using Hbuilds.
  unfold build_locked. apply sound_sect. intros s Hs. split; [done|]. cbn [snd]. destruct (cached_object_type_context _ _ _ s) as [c|] eqn:E; [by eapply cached_current|].
  apply sound_call. intros [built|e] Hr; [|done]. cbn [snd] in Hr. assert (Hb : built_from model infos (lists id) (set_revision (revision_of built) built)).
  { exists built. split; [by apply Hbuilds|done]. }
  intros s1 Hs1. split; [by apply store_ok|]. cbn. by exists model, (lists id).
Qed.

Lemma resolve_ok model namespace_infos allow_stale :
  (namespace_infos = None -> forall i, resp_ok _ GetNamespaceInfos (Ok i) -> i = infos) -> (forall i, namespace_infos = Some i -> i = infos) ->
  sound resp_ok type_ok (resolve_object_type_context sha256_hex model_token model_dump_json model namespace_infos allow_stale) (fun r =>
    match r with Ok c => served allow_stale model infos c | Err _ => True end).
Proof using Hbuilds Htypes.
  intros Hcall Hgiven. unfold resolve_object_type_context.
  eapply sound_obind with (P := fun r => match r with Ok i => i = infos | Err _ => True end); [| |done].
  { destruct namespace_infos as [i|]; [by apply Hgiven|]. intros [i|e] Hr; [by apply Hcall|done]. }
  intros i ->. eapply sound_obind with (P := fun r => match r with Ok t => t = (id, lists id) | Err _ => True end); [| |done].
  { intros [t|e] Hr; [by apply Htypes|done]. }
  intros t ->. apply sound_sect. intros s Hs. pose proof (look_ok allow_stale model infos id s Hs) as Hlook.
  destruct (look sha256_hex model_token allow_stale model infos (id, lists id) s) as [s' [c|token]]; destruct Hlook as [Hs' Hr]; (split; [done|]); cbn [snd].
  - destruct Hr as [Hr|(Ha & Hb & _)]; [by left|by right].
  - subst token. apply sound_with_lock. eapply sound_mono; [apply build_locked_ok|]. intros [c|e] H; [by left|done].
Qed.
End Client.

(** However requests, refreshes and reloads of metadata interleave, the context that a request gets was built by the
    construction and carries the revision of its own content, which is what the response records; it is the one of the
    current model, namespaces and types, unless stale ones are allowed. Every step keeps the cache and the memo right. *)
Theorem context_served parts model namespace_infos allow_stale infos id :
  (forall i, namespace_infos = Some i -> i = infos) ->
  sound (client_serves infos id) type_ok
    (get_object_type_context sha256_hex model_token model_dump_json parts model namespace_infos allow_stale) (fun r =>
    match r with
    | Ok (c, parts') =>
        oc_revision c = revision_of c /\ parts' = record_revision OBJECT_TYPES_PART (revision_of c) parts /\
        ((exists model' types', built_from model' infos types' c /\ model_token model' = model_token model /\ token_of types' = token_of (lists id)) \/
         allow_stale = true /\ exists model' infos' types', built_from model' infos' types' c)
    | Err _ => True
    end).
Proof.
  intros Hgiven. unfold get_object_type_context.
  eapply sound_obind; [apply (resolve_ok (client_serves infos id) (fun m i t c H => H) infos id (fun t H => H)); [by intros _|exact Hgiven]| |done].
  intros c Hc. cbn. assert (Hrev : oc_revision c = revision_of c).
  { destruct Hc as [(m & t & (built & _ & ->) & _)|(_ & m & i & t & built & _ & ->)]; done. }
  rewrite Hrev. split_and!; [done|done|]. destruct Hc as [H|[Ha H]]; [by left|by right].
Qed.

(** ** Requests and refreshes together *)

Inductive entry : prog TypeState type_call unit -> Prop :=
  | entry_request parts model infos allow_stale :
      entry (pbind (get_object_type_context sha256_hex model_token model_dump_json parts model infos allow_stale) (fun _ => Ret tt))
  | entry_endpoint parts model : entry (pbind (get_object_endpoint_context sha256_hex model_token model_dump_json parts model) (fun _ => Ret tt))
  | entry_refresh model : entry (refresh_object_type_context sha256_hex model_token model_dump_json model)
  | entry_warm model : entry (pbind (warm_object_type_context sha256_hex model_token model_dump_json model) (fun _ => Ret tt)).

Lemma resolve_built (resp_ok : forall R, type_call R -> R -> Prop) model namespace_infos allow_stale :
  (forall m i t c, resp_ok _ (BuildContext m i t) (Ok c) -> builds m i t c) -> (forall t, resp_ok _ GetObjectTypes (Ok t) -> t.2 = lists t.1) ->
  sound resp_ok type_ok (resolve_object_type_context sha256_hex model_token model_dump_json model namespace_infos allow_stale) (fun r =>
    match r with Ok c => once_built c | Err _ => True end).
Proof.
  intros Hb Ht. unfold resolve_object_type_context. eapply sound_obind with (P := fun _ => True); [by destruct namespace_infos| |done]. intros infos _.
  apply sound_call. intros [t|e] Hr; [|done]. apply Ht in Hr. destruct t as [id types]. cbn in Hr. subst types. cbn [obind].
  apply sound_sect. intros s Hs. pose proof (look_ok allow_stale model infos id s Hs) as Hlook.
  destruct (look sha256_hex model_token allow_stale model infos (id, lists id) s) as [s' [c|token]]; destruct Hlook as [Hs' Hx]; (split; [done|]); cbn [snd].
  - destruct Hx as [Hx|(_ & Hx & _)]; [by eapply current_once_built|done].
  - subst token. apply sound_with_lock. eapply sound_mono; [by eapply build_locked_ok|]. intros [c|e] H; [by eapply current_once_built|done].
Qed.

Lemma once_built_revision c : once_built c -> oc_revision c = revision_of c.
Proof. by intros (m & i & t & built & _ & ->). Qed.

(** A request is served a context that was built, and records its revision. *)
Lemma sound_types (resp_ok : forall R, type_call R -> R -> Prop) parts model namespace_infos allow_stale :
  (forall m i t c, resp_ok _ (BuildContext m i t) (Ok c) -> builds m i t c) -> (forall t, resp_ok _ GetObjectTypes (Ok t) -> t.2 = lists t.1) ->
  sound resp_ok type_ok (get_object_type_context sha256_hex model_token model_dump_json parts model namespace_infos allow_stale) (fun r =>
    match r with Ok (c, now) => once_built c /\ now = record_revision OBJECT_TYPES_PART (revision_of c) parts | Err _ => True end).
Proof.
  intros Hb Ht. unfold get_object_type_context. eapply sound_obind; [by apply resolve_built| |done].
  intros c Hc. split; [done|]. by rewrite (once_built_revision c Hc).
Qed.

(** Whatever runs together, the memo and the cache stay right. *)
Theorem contexts_stay_right s pl :
  type_ok s -> pool_steps client_ok (fun s s' => type_ok s -> type_ok s') entry (Pool s None []) pl -> type_ok (pl_state pl).
Proof.
  intros Hs Hsteps. eapply sound_pool; [|exact Hs|exact Hsteps]. intros p [parts model infos allow_stale|parts model|model|model].
  - eapply sound_bind; [by apply sound_types|done].
  - eapply sound_bind with (P := fun _ => True); [|done]. unfold get_object_endpoint_context. apply sound_call. intros [infos|e] _; [|done].
    eapply sound_bind; [by apply sound_types|]. by intros [[c parts']|e] _.
  - unfold refresh_object_type_context. apply sound_sect. intros s0 Hs0. split; [done|]. eapply sound_bind; [by apply sound_types|].
    intros _ _ s1 [Hm Hc]. split; [by split|done].
  - eapply sound_bind; [by apply sound_types|done].
Qed.

(** Equal revisions: the same namespaces, the same items, and the same ids, so long as the digests do not collide. *)
Theorem revision_identifies_context c c' :
  no_collision sha256_hex (digest_text (context_values sha256_hex model_dump_json c)) (digest_text (context_values sha256_hex model_dump_json c')) ->
  revision_of c = revision_of c' ->
  oc_namespace_infos c = oc_namespace_infos c' /\ map model_dump_json (oc_items c) = map model_dump_json (oc_items c') /\
  dict_items (oc_element_ids_by_node_id c) ≡ₚ dict_items (oc_element_ids_by_node_id c') /\
  dict_items (oc_source_type_to_element_id c) ≡ₚ dict_items (oc_source_type_to_element_id c').
Proof.
  intros Hcol H%Hcol%digest_text_inj. injection H as Hi _ Hd He Hs.
  assert (Hsorted : forall d d' : dict string string, map (fun p => PTuple [PStr p.1; PStr p.2]) (py_sorted key_order (dict_items d)) =
    map (fun p => PTuple [PStr p.1; PStr p.2]) (py_sorted key_order (dict_items d')) -> dict_items d ≡ₚ dict_items d').
  { intros d d' E. apply (pair_values_inj (py_sorted key_order (dict_items d))) in E.
    by rewrite <-(py_sorted_perm key_order (dict_items d)), E, py_sorted_perm. }
  split_and!; [| |by apply Hsorted|by apply Hsorted].
  - revert Hi. generalize (oc_namespace_infos c) (oc_namespace_infos c'). intros l. induction l as [|i l IH]; intros [|i' l'] E; try done.
    injection E as H1 H2 H3 H4 E. f_equal; [|by apply IH]. destruct i as [u d v x], i' as [u' d' v' x']. cbn in *.
    assert (Hopt : forall o o' : option string, opt PStr o = opt PStr o' -> o = o') by (intros [?|] [?|]; cbn; congruence).
    f_equal; [done|done|by apply Hopt|by apply Hopt].
  - revert Hd. generalize (oc_items c) (oc_items c'). intros l. induction l as [|i l IH]; intros [|i' l'] E; try done.
    injection E as H1 E. cbn. rewrite H1. f_equal. by apply IH.
Qed.
End Contexts.

(** ** Requests to a server *)

(** The server: its namespaces, and the identity of its list of types. *)
Definition sample_lists (id : nat) : list OpcUaObjectTypeInfo := [plain_type ("ns=1;i=" +:+ (if Nat.eqb id 0 then "1" else "2")) "Pump" "Pump"].

Definition sample_build (m : BuildResult) (i : list OpcUaNamespaceInfo) (t : list OpcUaObjectTypeInfo) : ObjectTypeContext :=
  {| oc_namespace_infos := i; oc_object_types := t; oc_element_ids_by_node_id := ∅;
     oc_items := map (fun x => Build_ObjectTypeResponse (ot_node_id x) (ot_display_name x) "urn:a" (ot_node_id x) None JNull None) t;
     oc_source_type_to_element_id := ∅; oc_revision := ε |}.

Definition sample_infos : list OpcUaNamespaceInfo := [Build_OpcUaNamespaceInfo "urn:a" "A" None None].

Definition sample_client_answer R (c : type_call R) (id : nat) (s : TypeState) : nat * TypeState * R :=
  match c in type_call R return nat * TypeState * R with
  | GetNamespaceInfos => (id, s, Ok sample_infos)
  | GetObjectTypes => (id, s, Ok (id, sample_lists id))
  | BuildContext m i t => (id, s, Ok (sample_build m i t))
  end.

Definition sample_token (m : BuildResult) : string := join "," (root_ids m).
Definition sample_item (i : ObjectTypeResponse) : string := otr_element_id i.
Definition empty_types : TypeState := {| ts_model_cache := None; ts_memo := None; ts_object_type_context_cache := None; ts_refreshing := false |}.
Definition rooted (roots : list string) : BuildResult := small_model [] roots [].

Abbreviation sample_get parts m stale := (get_object_type_context sample_hex sample_token sample_item parts m None stale).
Abbreviation sample_refresh m := (refresh_object_type_context sample_hex sample_token sample_item m).
Definition ids_of (r : outcome error (ObjectTypeContext * option Parts)) : list string := match r with Ok (c, _) => map otr_element_id (oc_items c) | Err _ => [] end.

(** The first request builds; after a change of the types the next one is served what there is, and the refresh that it
    starts brings the new types. *)
Example stale_then_fresh :
  let m := rooted ["a"] in
  let '(_, s1, r1) := run sample_client_answer (sample_get None m true) 0%nat empty_types in
  let '(_, s2, r2) := run sample_client_answer (sample_get None m true) 1%nat s1 in
  let '(_, s3, _) := run sample_client_answer (sample_refresh m) 1%nat s2 in
  let '(_, s4, r4) := run sample_client_answer (sample_get None m true) 1%nat s3 in
  (ids_of r1, ids_of r2, ids_of r4) = (["ns=1;i=1"], ["ns=1;i=1"], ["ns=1;i=2"]) /\
  (ts_refreshing s1, ts_refreshing s2, ts_refreshing s3, ts_refreshing s4) = (false, true, false, false).
Proof. vm_compute. auto. Qed.

Lemma sample_builds_ok : type_ok sample_hex sample_token sample_item sample_lists (fun m i t c => c = sample_build m i t) empty_types.
Proof. by split. Qed.

Lemma context_served_witness :
  (type_ok sample_hex sample_token sample_item sample_lists (fun m i t c => c = sample_build m i t) empty_types /\
   forall i, Some sample_infos = Some i -> i = sample_infos) /\
  sound (client_serves sample_lists (fun m i t c => c = sample_build m i t) sample_infos 1)
    (type_ok sample_hex sample_token sample_item sample_lists (fun m i t c => c = sample_build m i t))
    (get_object_type_context sample_hex sample_token sample_item (Some ∅) (rooted ["a"]) (Some sample_infos) true) (fun r =>
    match r with
    | Ok (c, parts') =>
        oc_revision c = object_type_context_revision sample_hex sample_item c /\
        parts' = record_revision OBJECT_TYPES_PART (object_type_context_revision sample_hex sample_item c) (Some ∅) /\
        ((exists model' types', built_from sample_hex sample_item (fun m i t c => c = sample_build m i t) model' sample_infos types' c /\
            sample_token model' = sample_token (rooted ["a"]) /\ object_types_token sample_hex types' = object_types_token sample_hex (sample_lists 1)) \/
         true = true /\ exists model' infos' types', built_from sample_hex sample_item (fun m i t c => c = sample_build m i t) model' infos' types' c)
    | Err _ => True
    end).
Proof.
  assert (Hg : forall i, Some sample_infos = Some i -> i = sample_infos) by (intros i [= <-]; reflexivity).
  split; [split; [exact sample_builds_ok|exact Hg]|].
  exact (context_served sample_hex sample_token sample_item sample_lists (fun m i t c => c = sample_build m i t) (Some ∅) (rooted ["a"]) (Some sample_infos) true sample_infos 1 Hg).
Defined.

(** A request that waited with an older model replaces the context of the newer one: the next request is served a stale
    context although a current one had been built. *)
Example older_replaces_newer :
  let task m := pbind (sample_get None m false) (fun _ => Ret tt) in
  let pl := (run_schedule sample_client_answer [0; 0; 0; 1; 1; 1; 0; 0; 0; 0; 0; 1; 1; 1; 1; 1]%nat (0%nat, Pool empty_types None [task (rooted ["new"]); task (rooted ["old"])])).2 in
  pl_tasks pl = [Ret tt; Ret tt] /\ (cc_model_token <$> ts_object_type_context_cache (pl_state pl)) = Some "old" /\
  ts_refreshing (run sample_client_answer (sample_get None (rooted ["new"]) true) 0%nat (pl_state pl)).1.2 = true.
Proof. vm_compute. auto. Qed.
End TypeContextSpec.
