(* ===== verification/TypeBuild.v ===== *)
(** The construction of the context of object types ([api/v1/objecttype_helpers.py]): a type for each one of the server, for
    each structure in their schemas, and for each id that an element of the model has as its type.

    [Universe] is what is seen of the classes ([PyClasses]). The hierarchies of data types and the names of types are asked of
    the server, which may fail or answer anything; the timeout of a name is one of its failures, and the pauses between chunks
    of types leave no trace. [dump_instance] is pydantic's JSON of an instance. Texts of numbers have fewer digits than CPython
    converts. *)

From S2P Require Export ObjectHelpers ObjectSchema TypeContext.
Local Open Scope string_scope.
Local Open Scope list_scope.
Local Open Scope Z_scope.

Module TypeBuild.
Export ObjectHelpers ObjectSchema TypeContext.
Local Open Scope async_scope.

(** What the settings say. *)
Record TypeSettings := {
  mcp_include_opcua_metadata : bool;
  enable_type_browsename_lookup : bool;
  type_browsename_lookup_max : Z;
}.

(** ** Node ids *)

(** [re.match(r"^nsu=([^;]+);", s, flags=re.IGNORECASE)]: the URI and what follows. *)
Definition match_nsu (s : string) : option (string * list ascii) :=
  if startswith "nsu=" (lower s) then
    match partition_at semicolon (drop 4 (chars s)) with
    | (uri, true, rest) => if bool_decide (uri = []) then None else Some (of_chars uri, rest)
    | _ => None
    end
  else None.

(** [re.match(r"^nsu=([^;]+);([isgb])=(.+)$", s, flags=re.IGNORECASE)], the kind in lower case. *)
Definition match_nsu_identifier (s : string) : option (string * ascii * list ascii) :=
  match match_nsu s with
  | Some (uri, k :: rest) => (fun p => (uri, p.1, p.2)) <$> match_identifier 1 (lower_char k :: rest)
  | _ => None
  end.

(** [re.match(r"^nsu=([^;]+);i=(\d+)$", s, flags=re.IGNORECASE)], with the text of the number. *)
Definition match_nsu_numeric (s : string) : option (string * list ascii) :=
  match match_nsu_identifier s with
  | Some (uri, kind, digits) => if (ceqb kind "i"%char && forallb is_digit digits)%bool then Some (uri, digits) else None
  | None => None
  end.

Definition numeric_identifier (s : string) : option Z := (fun p => digits_value p.2) <$> match_nsu_numeric s.

Definition is_ua_namespace (uri : string) : bool := bool_decide (lower (rstrip_char slash uri) = "http://opcfoundation.org/ua").

Definition is_builtin_ua_datatype_node_id (element_id : string) : bool :=
  match match_nsu_numeric element_id with
  | Some (uri, digits) => (is_ua_namespace uri && (1 <=? digits_value digits) && (digits_value digits <=? 25))%bool
  | None => false
  end.

Definition is_standard_ua_namespace_node_id (element_id : string) : bool :=
  match match_nsu element_id with
  | Some (uri, _) => is_ua_namespace uri
  | None => match (match_index_prefix (chars (lower element_id))).1 with Some digits => digits_value digits =? 0 | None => false end
  end.

(** [re.match(r"^(?:nsu=[^;]+;|ns=\d+;)?[isgb]=.+$", s, flags=re.IGNORECASE)]. *)
Definition is_type_id (s : string) : bool :=
  let rest := match match_nsu s with Some (_, rest) => map lower_char rest | None => (match_index_prefix (chars (lower s))).2 end in
  bool_decide (is_Some (match_identifier 1 rest)).

Definition indexed_node_id_for_hierarchy_lookup (infos : list OpcUaNamespaceInfo) (expanded_node_id : string) : string :=
  match match_nsu expanded_node_id with
  | Some (uri, rest) =>
      match match_line 1 rest, index_from (canonical_namespace_uri uri infos) 0 infos with
      | Some identifier, Some index => "ns=" +:+ str_of_int index +:+ ";" +:+ of_chars identifier
      | _, _ => expanded_node_id
      end
  | None => expanded_node_id
  end.

(** ** Schemas of data types *)

Definition UA_BUILTIN_DATATYPE_NAMES : list (Z * string) :=
  [(1, "Boolean"); (2, "SByte"); (3, "Byte"); (4, "Int16"); (5, "UInt16"); (6, "Int32"); (7, "UInt32"); (8, "Int64"); (9, "UInt64"); (10, "Float");
   (11, "Double"); (12, "String"); (13, "DateTime"); (14, "Guid"); (15, "ByteString"); (16, "XmlElement"); (17, "NodeId"); (18, "ExpandedNodeId");
   (19, "StatusCode"); (20, "QualifiedName"); (21, "LocalizedText"); (22, "ExtensionObject"); (23, "DataValue"); (24, "Variant"); (25, "DiagnosticInfo")].

Definition NULLABLE_BUILTIN_SCALAR_IDS : list Z := [12; 15; 16].

Definition array_items_schema_for_builtin_data_type (source_type_id : string) (scalar_schema : json) : json :=
  match numeric_identifier source_type_id, obj_get "type" scalar_schema with
  | Some id, Some (JStr t) =>
      if (bool_decide (id ∈ NULLABLE_BUILTIN_SCALAR_IDS) && bool_decide (t = "string"))%bool
      then obj_set "type" (JArr [JStr "string"; JStr "null"]) scalar_schema else scalar_schema
  | _, _ => scalar_schema
  end.

Definition null_schema : json := typed "null".

(** A value, null or a list of values. *)
Definition nullable_or_list (source_type_id : string) (scalar_schema : json) : json :=
  JObj [("oneOf", JArr [null_schema; scalar_schema; array_of (array_items_schema_for_builtin_data_type source_type_id scalar_schema)])].

Definition WRAPPER_METADATA_KEYS : list string :=
  ["$defs"; "description"; "title"; "x-opcua-displayName"; "x-opcua-nodeId"; "x-opcua-structureDataType"; "x-opcua-structureTypeId"].

(** [schema.get(key)] that is not None. *)
Definition not_null (x : option json) : option json := match x with Some JNull => None | x => x end.

Definition is_empty_schema (schema : json) : bool := match schema with JObj [] => true | _ => false end.

(** [schema == {"type": "string"}]. *)
Definition is_text_schema (schema : json) : bool :=
  match schema with JObj [(k, JStr t)] => (bool_decide (k = "type") && bool_decide (t = "string"))%bool | _ => false end.

(** [schema.setdefault(key, x)]. *)
Definition set_default (key : string) (x : json) (schema : json) : json :=
  match obj_get key schema with Some _ => schema | None => obj_set key x schema end.

(** The names that are tried: without a number, then from 2 on. *)
Definition value_def_key (base : string) : Z -> string := numbered (base +:+ "Value") ε.

(** [_wrapped_value_schema]; one name more than there are definitions is enough. *)
Definition wrapped_value_schema (display_name source_type_id : string) (schema : json) : option json :=
  let copy (key : string) := set_some key (not_null (obj_get key schema)) in
  let wrapper := copy "x-opcua-structureTypeId" (copy "x-opcua-structureDataType" (copy "description"
    (JObj [("title", JStr display_name); ("x-opcua-nodeId", JStr source_type_id); ("x-opcua-displayName", JStr display_name)]))) in
  let defs := match obj_get "$defs" schema with Some (JObj l) => l | _ => [] end in
  match List.filter (fun p => negb (bool_decide (p.1 ∈ WRAPPER_METADATA_KEYS))) match schema with JObj l => l | _ => [] end with
  | [] => Some wrapper
  | value_schema =>
      key ← first_free (value_def_key (or_str (of_chars (List.filter is_alnum (chars display_name))) "Value")) (S (length (map fst defs))) 1 (map fst defs);
      Some (obj_set "oneOf" (JArr [null_schema; reference_json key; array_of (reference_json key)])
        (obj_set "$defs" (JObj (items_insert key (JObj value_schema) defs)) wrapper))
  end.

Definition UA_STANDARD_NON_DATATYPE_TYPE_NAMES : list string :=
  ["BaseObjectType"; "FolderType"; "BaseVariableType"; "BaseDataVariableType"; "PropertyType"; "DataTypeDescriptionType"; "DataTypeDictionaryType";
   "DataTypeSystemType"; "DataTypeEncodingType"; "ModellingRuleType"; "NamingRuleType"].

Definition UA_STANDARD_INTEGER_OPTIONSET_TYPE_NAMES : list string := ["PermissionType"; "AccessRestrictionType"].
Definition UA_STANDARD_OBJECT_FALLBACK_TYPE_NAMES : list string := ["Range"; "EUInformation"; "Annotation"; "RolePermissionType"].
Definition ABSTRACT_BUILTIN_DATATYPE_NAMES : list string := ["BaseDataType"; "Number"; "Integer"; "UInteger"; "Enumeration"].

Definition INTEGER_RANGES_BY_BUILTIN_ID (id : Z) : option (Z * Z) :=
  match id with
  | 2 => Some (- 2 ^ 7, 2 ^ 7 - 1) | 3 => Some (0, 2 ^ 8 - 1) | 4 => Some (- 2 ^ 15, 2 ^ 15 - 1) | 5 => Some (0, 2 ^ 16 - 1)
  | 6 => Some (- 2 ^ 31, 2 ^ 31 - 1) | 7 => Some (0, 2 ^ 32 - 1) | 8 => Some (- 2 ^ 63, 2 ^ 63 - 1) | 9 => Some (0, 2 ^ 64 - 1)
  | _ => None
  end.

Record ResolvedCustomDataType := { rd_scalar_schema : json; rd_browse_name : option string }.

Section Build.
Context (u : Universe) (settings : TypeSettings) (dump_instance : ObjectInstanceResponse -> json) (infos : list OpcUaNamespaceInfo).

(** [_standard_ua_type_name], whatever the namespace. *)
Definition standard_ua_type_name (element_id : string) : option string := numeric_identifier element_id ≫= ua_object_id_name u.

Definition ends_in (suffixes : list string) (name : string) : bool := existsb (fun suffix => endswith suffix name) suffixes.

Definition schema_for_standard_name (name : string) : option json :=
  if bool_decide (name ∈ UA_STANDARD_NON_DATATYPE_TYPE_NAMES) then None
  else if bool_decide (name ∈ UA_STANDARD_INTEGER_OPTIONSET_TYPE_NAMES) then Some (typed "integer")
  else if bool_decide (name ∈ UA_STANDARD_OBJECT_FALLBACK_TYPE_NAMES) then Some (typed "object")
  else if ends_in ["DataType"; "Type"] name then Some (typed "object")
  else if ends_in ["State"; "Enumeration"; "Enum"] name then Some (typed "integer")
  else if str_in "_" name then None
  else if ends_in ["ObjectType"; "VariableType"; "ReferenceType"] name then None
  else let inferred := json_schema_for_opcua_type u (Some name) in
       if (is_empty_schema inferred || is_text_schema inferred)%bool then None else Some inferred.

Definition scalar_schema_for_standard_ua_datatype_node_id (element_id : string) : option json :=
  if is_standard_ua_namespace_node_id element_id then standard_ua_type_name element_id ≫= schema_for_standard_name else None.

(** The supertypes of a data type; [abstract]: the schema of the first abstract one. *)
Fixpoint scalar_schema_of_supertypes (abstract : option json) (l : list OpcUaTypeDefinitionInfo) : option json :=
  match l with
  | [] => abstract
  | type_info :: l' =>
      let id := expanded_node_id (ti_node_id type_info) infos in
      match (if is_standard_ua_namespace_node_id id then standard_ua_type_name id else None) with
      | None => scalar_schema_of_supertypes abstract l'
      | Some name =>
          let schema := json_schema_for_opcua_type u (Some id) in
          if is_empty_schema schema then scalar_schema_of_supertypes abstract l'
          else if bool_decide (name ∈ ABSTRACT_BUILTIN_DATATYPE_NAMES) then
            scalar_schema_of_supertypes (match abstract with Some _ => abstract | None => Some schema end) l'
          else match numeric_identifier id ≫= INTEGER_RANGES_BY_BUILTIN_ID with
               | Some (minimum, maximum) => Some (obj_set "maximum" (JInt maximum) (obj_set "minimum" (JInt minimum) schema))
               | None => Some schema
               end
      end
  end.

Definition scalar_schema_from_type_hierarchy (hierarchy : list OpcUaTypeDefinitionInfo) : option json := scalar_schema_of_supertypes None (drop 1 hierarchy).

(** ** Calls of the server *)

Inductive build_call : Type -> Type :=
  | ResolveHierarchies (ids : list string) : build_call (exc (dict string (list OpcUaTypeDefinitionInfo)))
  | ResolveHierarchy (id : string) : build_call (exc (list OpcUaTypeDefinitionInfo))
  | ReadBrowseName (id : string) : build_call (exc (option string)).

Abbreviation building A := (prog unit build_call A).

(** What the construction fails with: an exception for a key, or fuel that has run out. *)
Inductive construction_error := MissingKey | Unfinished.

Definition finished {A} (x : option A) : outcome construction_error A := match x with Some x => Ok x | None => Err Unfinished end.
Definition result_of {A} (x : computed A) : outcome construction_error A :=
  match x with Got _ x => Ok x | KeyMissing => Err MissingKey | NoFuel => Err Unfinished end.

(** [for x in l: state = f(state, x)]. *)
Fixpoint each {A B} (f : B -> A -> outcome construction_error B) (b : B) (l : list A) : outcome construction_error B :=
  match l with [] => Ok b | x :: l' => b' ← f b x; each f b' l' end.

(** ** Custom data types *)

Definition candidates_of (source_type_ids : list string) : list string :=
  py_sorted string_leb (unique_ids (List.filter (fun id => is_type_id id && negb (is_standard_ua_namespace_node_id id))%bool
    (map (fun id => expanded_node_id id infos) (List.filter truthy source_type_ids)))).

(** The answer for many ids, by the candidates that they stand for. *)
Definition hierarchies_answered (lookup_ids : dict string string) (answer : dict string (list OpcUaTypeDefinitionInfo)) :
    dict string (list OpcUaTypeDefinitionInfo) :=
  fold_left (fun hierarchies p => match lookup_ids !! p.1 with Some candidate => <[candidate := p.2]> hierarchies | None => hierarchies end)
    (dict_items answer) ∅.

(** Those that are left, one by one. *)
Fixpoint resolve_each (l : list string) (hierarchies : dict string (list OpcUaTypeDefinitionInfo)) : building (dict string (list OpcUaTypeDefinitionInfo)) :=
  match l with
  | [] => Ret hierarchies
  | id :: l' =>
      if dict_mem id hierarchies then resolve_each l' hierarchies
      else answer <- call (ResolveHierarchy (indexed_node_id_for_hierarchy_lookup infos id));;
           resolve_each l' (match answer with Val hierarchy => <[id := hierarchy]> hierarchies | Raise => hierarchies end)
  end.

(** The name of the type itself, which comes first. *)
Definition root_browse_name (type_id : string) (hierarchy : list OpcUaTypeDefinitionInfo) : option string :=
  match hierarchy with
  | root :: _ =>
      if (bool_decide (lower (expanded_node_id (ti_node_id root) infos) = lower type_id) && truthy (strip (ti_browse_name root)))%bool
      then Some (strip (ti_browse_name root)) else None
  | [] => None
  end.

Definition resolved_custom (hierarchies : dict string (list OpcUaTypeDefinitionInfo)) (resolved : dict string ResolvedCustomDataType) (type_id : string) :
    dict string ResolvedCustomDataType :=
  match hierarchies !! type_id with
  | Some hierarchy =>
      match scalar_schema_from_type_hierarchy hierarchy with
      | Some schema => <[lower type_id := {| rd_scalar_schema := schema; rd_browse_name := root_browse_name type_id hierarchy |}]> resolved
      | None => resolved
      end
  | None => resolved
  end.

Definition resolve_custom_scalar_datatype_schemas (source_type_ids : list string) : building (dict string ResolvedCustomDataType) :=
  match candidates_of source_type_ids with
  | [] => Ret ∅
  | candidates =>
      let lookup_ids := dict_of_list (map (fun id => (indexed_node_id_for_hierarchy_lookup infos id, id)) candidates) in
      answer <- call (ResolveHierarchies (py_sorted string_leb (dict_keys lookup_ids)));;
      hierarchies <- resolve_each candidates (match answer with Val answer => hierarchies_answered lookup_ids answer | Raise => ∅ end);;
      Ret (fold_left (resolved_custom hierarchies) candidates ∅)
  end.

(** ** Items *)

(** The namespace that a node id states. *)
Definition stated_namespace (node_id : string) : string := default (namespace_uri_for_node_id node_id infos) (namespace_uri_from_expanded_node_id node_id).

Definition virtual_element_id (namespace_uri display_name source_type_id : string) : string :=
  virtual_object_type_element_id namespace_uri display_name source_type_id (server_uri_for_namespace_infos infos) (namespace_version_for_uri namespace_uri infos).

Definition served_schema (schema : json) : json := if mcp_include_opcua_metadata settings then schema else remove_opcua_schema_fields schema.

(** An item with an id of its own. *)
Definition virtual_item (namespace_uri display_name source_type_id : string) (schema : json) : ObjectTypeResponse :=
  {| otr_element_id := virtual_element_id namespace_uri display_name source_type_id; otr_display_name := display_name;
     otr_namespace_uri := namespace_uri; otr_source_type_id := source_type_id; otr_version := None; otr_schema := served_schema schema; otr_related := None |}.

Definition titled (source_type_id display_name : string) (schema : json) : json :=
  set_default "x-opcua-displayName" (JStr display_name) (set_default "x-opcua-nodeId" (JStr source_type_id) schema).

(** [_to_object_type]. *)
Definition to_object_type (model : BuildResult) (object_types_by_node_id : dict string OpcUaObjectTypeInfo) (element_ids_by_node_id : dict string string)
    (resolved_data_type_schemas : dict string json) (item : OpcUaObjectTypeInfo) : outcome construction_error ObjectTypeResponse :=
  let namespace_uri := namespace_uri_for_node_id (ot_node_id item) infos in
  schema ← result_of (build_object_type_schema u infos resolved_data_type_schemas true item object_types_by_node_id element_ids_by_node_id);
  Ok {| otr_element_id := object_type_element_id item namespace_uri (server_uri_for_namespace_infos infos) (namespace_version_for_uri namespace_uri infos);
        otr_display_name := ot_display_name item; otr_namespace_uri := namespace_uri; otr_source_type_id := expanded_node_id (ot_node_id item) infos;
        otr_version := None; otr_schema := schema;
        otr_related := match object_type_related_instances model infos element_ids_by_node_id ∅ (ot_node_id item) with
                       | [] => None
                       | l => Some (JObj [("instances", JArr (map dump_instance l))])
                       end |}.

(** The data type of a definition. *)
Definition source_hint (raw_def : json) : option string :=
  let data_type := obj_get "x-opcua-structureDataType" raw_def in
  match (if match data_type with Some v => json_truthy v | None => false end then data_type else obj_get "x-opcua-structureTypeId" raw_def) with
  | Some (JStr s) => if truthy s then Some s else None
  | _ => None
  end.

Definition structure_item (item : ObjectTypeResponse) (defs : list (string * json)) (raw_def : json) (source_type_id : string) : option ObjectTypeResponse :=
  let namespace_uri := canonical_namespace_uri (or_str (stated_namespace source_type_id) (otr_namespace_uri item)) infos in
  let display_name := match obj_get "title" raw_def with Some (JStr s) => or_str s "StructureType" | _ => "StructureType" end in
  required_defs ← collect_transitive_defs raw_def (Dict defs);
  let schema := match dict_items required_defs with [] => raw_def | l => obj_set "$defs" (JObj l) raw_def end in
  virtual_item namespace_uri display_name source_type_id <$> wrapped_value_schema display_name source_type_id (titled source_type_id display_name schema).

Definition synthetic_of_def (item : ObjectTypeResponse) (defs : list (string * json)) (synthetic_by_source_type_id : dict string ObjectTypeResponse)
    (raw_def : json) : outcome construction_error (dict string ObjectTypeResponse) :=
  match source_hint raw_def with
  | Some hint =>
      let source_type_id := expanded_node_id hint infos in
      if dict_mem (lower source_type_id) synthetic_by_source_type_id then Ok synthetic_by_source_type_id
      else entry ← finished (structure_item item defs raw_def source_type_id); Ok (<[lower source_type_id := entry]> synthetic_by_source_type_id)
  | None => Ok synthetic_by_source_type_id
  end.

Definition synthetic_of_item (synthetic_by_source_type_id : dict string ObjectTypeResponse) (item : ObjectTypeResponse) :
    outcome construction_error (dict string ObjectTypeResponse) :=
  match obj_get "$defs" (otr_schema item) with
  | Some (JObj defs) => each (synthetic_of_def item defs) synthetic_by_source_type_id (map snd defs)
  | _ => Ok synthetic_by_source_type_id
  end.

Definition synthetic_object_types_from_structure_defs (listed_object_types : list ObjectTypeResponse) : outcome construction_error (list ObjectTypeResponse) :=
  dict_values <$> each synthetic_of_item ∅ listed_object_types.

(** The schema of a data type: of the resolved one, of its class, or of what is known of standard ids. *)
Definition data_type_schema (source_type_id : string) (resolved_scalar_schema : option json) : outcome construction_error (option json) :=
  match resolved_scalar_schema with
  | Some schema => Ok (Some (nullable_or_list source_type_id schema))
  | None =>
      schema ← result_of (build_data_type_schema u infos true source_type_id);
      match schema with
      | Some schema => Ok (Some schema)
      | None =>
          Ok ((fun schema => if is_empty_schema schema then empty_schema else nullable_or_list source_type_id schema) <$>
            (if is_builtin_ua_datatype_node_id source_type_id then Some (json_schema_for_opcua_type u (Some source_type_id))
             else scalar_schema_for_standard_ua_datatype_node_id source_type_id))
      end
  end.

Definition data_type_display_name (source_type_id : string) (schema : json) (is_resolved : bool) (resolved_browse_name : option string) : string :=
  let name := match obj_get "title" schema with Some (JStr s) => or_str s "StructureType" | _ => "StructureType" end in
  let name := match match_nsu_numeric source_type_id with
              | Some (_, digits) => if (is_resolved && bool_decide (name = "StructureType"))%bool then "DataType_i_" +:+ of_chars digits else name
              | None => name
              end in
  let name := or_str (default ε resolved_browse_name) name in
  if is_builtin_ua_datatype_node_id source_type_id then
    match List.find (fun p => bool_decide (Some p.1 = numeric_identifier source_type_id)) UA_BUILTIN_DATATYPE_NAMES with Some p => p.2 | None => name end
  else if is_standard_ua_namespace_node_id source_type_id then default name (standard_ua_type_name source_type_id) else name.

Definition datatype_object_type_from_source_type_id (source_type_id : string) (resolved : option ResolvedCustomDataType) :
    outcome construction_error (option ObjectTypeResponse) :=
  schema ← data_type_schema source_type_id (rd_scalar_schema <$> resolved);
  match schema with
  | None => Ok None
  | Some schema =>
      if truthy (stated_namespace source_type_id) then
        let display_name := data_type_display_name source_type_id schema (bool_decide (is_Some resolved)) (resolved ≫= rd_browse_name) in
        schema ← finished (match obj_get "oneOf" schema with Some _ => Some schema | None => wrapped_value_schema display_name source_type_id schema end);
        Ok (Some (virtual_item (canonical_namespace_uri (stated_namespace source_type_id) infos) display_name source_type_id
          (titled source_type_id display_name (set_default "title" (JStr display_name) schema))))
      else Ok None
  end.

Definition opaque_datatype_object_type_from_source_type_id (source_type_id : string) : option ObjectTypeResponse :=
  if truthy (stated_namespace source_type_id) then
    let display_name := match standard_ua_type_name source_type_id, match_nsu_numeric source_type_id with
                        | Some name, _ => name
                        | None, Some (_, digits) => "DataType_i_" +:+ of_chars digits
                        | None, None => "DataType"
                        end in
    Some (virtual_item (canonical_namespace_uri (stated_namespace source_type_id) infos) display_name source_type_id
      (JObj [("title", JStr display_name); ("description", JStr "Fallback schema for unresolved OPC UA DataType");
             ("oneOf", JArr [typed "object"; array_of (typed "object"); typed "number"; text_schema; typed "boolean"]);
             ("x-opcua-nodeId", JStr source_type_id); ("x-opcua-displayName", JStr display_name)]))
  else None.

(** ** Names from the server *)

(** The names that were asked for, and how many more may be. *)
Record Lookups := { lk_browse_name_cache : dict string (option string); lk_remaining : Z }.

Definition inferred_prefix : string := "InferredType_".

Definition inferred_display_name (source_type_id : string) (kind : ascii) (identifier : list ascii) : string :=
  let name := if ceqb kind "i"%char then match standard_ua_type_name source_type_id with Some name => if str_in "_" name then ε else name | None => ε end
              else if ceqb kind "s"%char then strip (last_part "."%char (last_part slash (of_chars identifier))) else ε in
  or_str name (inferred_prefix +:+ of_chars [kind] +:+ "_" +:+ of_chars identifier).

(** The name under which the server knows the id, from the cache or by a call. *)
Definition server_browse_name (lookup_node_id : string) (lookups : Lookups) : building (Lookups * option string) :=
  match lk_browse_name_cache lookups !! lookup_node_id with
  | Some (Some name) => Ret (lookups, Some name)
  | _ =>
      answer <- call (ReadBrowseName lookup_node_id);;
      let name := match answer with Val name => name | Raise => None end in
      Ret ({| lk_browse_name_cache := <[lookup_node_id := name]> (lk_browse_name_cache lookups); lk_remaining := Z.max 0 (lk_remaining lookups - 1) |}, name)
  end.

Definition live_display_name (source_type_id display_name : string) (kind : ascii) (identifier : list ascii) (lookups : Lookups) : building (Lookups * string) :=
  if (enable_type_browsename_lookup settings && startswith inferred_prefix display_name && ceqb kind "i"%char && (0 <? lk_remaining lookups))%bool then
    let lookup_node_id := if is_standard_ua_namespace_node_id source_type_id then "ns=0;i=" +:+ of_chars identifier else source_type_id in
    answer <- server_browse_name lookup_node_id lookups;;
    Ret (answer.1, or_str (strip (default ε answer.2)) display_name)
  else Ret (lookups, display_name).

Definition generic_object_type_from_source_type_id (source_type_id : string) (lookups : Lookups) : building (Lookups * option ObjectTypeResponse) :=
  match match_nsu_identifier source_type_id with
  | None => Ret (lookups, None)
  | Some (namespace_uri, kind, identifier) =>
      named <- live_display_name source_type_id (inferred_display_name source_type_id kind identifier) kind identifier lookups;;
      let '(lookups, display_name) := named in
      Ret (lookups, Some (virtual_item (canonical_namespace_uri namespace_uri infos) display_name source_type_id
        (JObj [("type", JStr "object"); ("title", JStr display_name); ("description", JStr "Generic placeholder schema inferred from source type ID");
               ("x-opcua-nodeId", JStr source_type_id); ("x-opcua-displayName", JStr display_name)])))
  end.

(** [_unknown_type_placeholder]: its id is the one that was looked for. *)
Definition unknown_type_placeholder (element_id : string) : ObjectTypeResponse :=
  let uri := or_str (stated_namespace element_id) match infos with info :: _ => nsi_uri info | [] => "https://cesmii.org/i3x/unknown" end in
  {| otr_element_id := element_id; otr_display_name := "UnknownType"; otr_namespace_uri := canonical_namespace_uri uri infos; otr_source_type_id := element_id;
     otr_version := None;
     otr_schema := JObj [("title", JStr "UnknownType"); ("description", JStr "Placeholder type generated for unresolved source type IDs")]; otr_related := None |}.

(** ** What the model refers to *)

(** The id that a node adds, if it is none of those that stand for nothing. *)
Definition referenced_type_element_id (object_type_element_ids_by_node_id : dict string string) (node : ModelNode) : option string :=
  match n_kind node with
  | property =>
      let id := expanded_node_id (if truthy_opt (n_type node) then default ε (n_type node) else "unknown-type") infos in
      Some (if is_null_opcua_type_node_id id then unknown_type_element_id infos else id)
  | _ =>
      match truthy_text (n_source_type_id node) with
      | None => Some (unknown_type_element_id infos)
      | Some source_type_id =>
          let id := default (expanded_node_id source_type_id infos) (object_type_element_ids_by_node_id !! source_type_id) in
          if is_null_opcua_type_node_id id then None else Some id
      end
  end.

Definition collect_referenced_type_element_ids (model : BuildResult) (object_type_element_ids_by_node_id : dict string string) : list string :=
  unique_ids (omap (referenced_type_element_id object_type_element_ids_by_node_id) (dict_values (nodes_by_id model))).

Definition property_type_element_id (node : ModelNode) : option string :=
  match n_kind node with
  | property =>
      let expanded := expanded_node_id (default ε (n_type node)) infos in
      if (negb (truthy expanded) || is_null_opcua_type_node_id expanded)%bool then None else Some expanded
  | _ => None
  end.

Definition collect_property_type_element_ids (model : BuildResult) : list string := unique_ids (omap property_type_element_id (dict_values (nodes_by_id model))).

(** The data types of the variables among the members. *)
Definition member_data_type (member : OpcUaObjectTypeMemberInfo) : option string :=
  if bool_decide (lower (om_node_class member) = "variable") then (fun id => expanded_node_id id infos) <$> truthy_text (om_data_type member) else None.

(** ** The context *)

(** The items so far and the one that stands for each source type. *)
Record Listing := { ls_items : list ObjectTypeResponse; ls_by_source_type_id : dict string ObjectTypeResponse; ls_lookups : Lookups }.

Definition list_item (key : string) (item : ObjectTypeResponse) (lookups : Lookups) (b : Listing) : Listing :=
  {| ls_items := ls_items b ++ [item]; ls_by_source_type_id := <[key := item]> (ls_by_source_type_id b); ls_lookups := lookups |}.

(** An id that no item has. *)
Definition list_unresolved (property_types : list string) (resolved : dict string ResolvedCustomDataType) (unresolved_id : string) (b : Listing) :
    building (outcome construction_error Listing) :=
  let key := lower unresolved_id in
  if dict_mem key (ls_by_source_type_id b) then Ret (Ok b)
  else match datatype_object_type_from_source_type_id unresolved_id (resolved !! key) with
       | Err e => Ret (Err e)
       | Ok (Some item) => Ret (Ok (list_item key item (ls_lookups b) b))
       | Ok None =>
           match (if bool_decide (unresolved_id ∈ property_types) then opaque_datatype_object_type_from_source_type_id unresolved_id else None) with
           | Some item => Ret (Ok (list_item key item (ls_lookups b) b))
           | None =>
               generic <- generic_object_type_from_source_type_id unresolved_id (ls_lookups b);;
               Ret (Ok (list_item key (default (unknown_type_placeholder unresolved_id) generic.2) generic.1 b))
           end
       end.

Fixpoint list_all (property_types : list string) (resolved : dict string ResolvedCustomDataType) (l : list string) (b : Listing) :
    building (outcome construction_error Listing) :=
  match l with
  | [] => Ret (Ok b)
  | id :: l' => obind (list_unresolved property_types resolved id b) (list_all property_types resolved l')
  end.

(** The items as they are served. *)
Definition canonical_item (item : ObjectTypeResponse) : ObjectTypeResponse :=
  {| otr_element_id := otr_element_id item; otr_display_name := otr_display_name item; otr_namespace_uri := canonical_namespace_uri (otr_namespace_uri item) infos;
     otr_source_type_id := otr_source_type_id item; otr_version := otr_version item; otr_schema := served_schema (otr_schema item);
     otr_related := otr_related item |}.

Definition with_schema (item : ObjectTypeResponse) (schema : json) : ObjectTypeResponse :=
  {| otr_element_id := otr_element_id item; otr_display_name := otr_display_name item; otr_namespace_uri := otr_namespace_uri item;
     otr_source_type_id := otr_source_type_id item; otr_version := otr_version item; otr_schema := schema; otr_related := otr_related item |}.

Definition served_items (items : list ObjectTypeResponse) : list ObjectTypeResponse :=
  let canonical := map canonical_item items in zip_with with_schema canonical (deduplicate_schema_fragments (map otr_schema canonical)).

(** What is listed before the ids of the model are looked at. *)
Definition listed_types (model : BuildResult) (object_types : list OpcUaObjectTypeInfo) (resolved : dict string ResolvedCustomDataType) :
    outcome construction_error (list ObjectTypeResponse) :=
  let by_node_id := dict_of_list (map (fun item => (ot_node_id item, item)) object_types) in
  let to_item := to_object_type model by_node_id (object_type_element_ids_by_node_id object_types infos) (dict_map rd_scalar_schema resolved) in
  items ← each (fun items item => item' ← to_item item; Ok (items ++ [item'])) [] object_types;
  synthetic ← synthetic_object_types_from_structure_defs items;
  Ok (items ++ synthetic).

Definition build_object_type_context (model : BuildResult) (object_types : list OpcUaObjectTypeInfo) : building (outcome construction_error ObjectTypeContext) :=
  let element_ids_by_node_id := object_type_element_ids_by_node_id object_types infos in
  let property_types := collect_property_type_element_ids model ++ omap member_data_type (flat_map ot_members object_types) in
  resolved <- resolve_custom_scalar_datatype_schemas property_types;;
  obind (Ret (listed_types model object_types resolved)) (fun items =>
    let referenced := collect_referenced_type_element_ids model element_ids_by_node_id in
    let unresolved := py_sorted string_leb (List.filter (fun id => negb (bool_decide (id ∈ map otr_element_id items))) referenced) in
    let start := {| ls_items := items; ls_by_source_type_id := dict_of_list (map (fun item => (lower (otr_source_type_id item), item)) items);
                    ls_lookups := {| lk_browse_name_cache := ∅; lk_remaining := type_browsename_lookup_max settings |} |} in
    obind (list_all property_types resolved unresolved start) (fun b =>
      Ret (Ok {| oc_namespace_infos := infos; oc_object_types := object_types; oc_element_ids_by_node_id := element_ids_by_node_id;
                 oc_items := served_items (ls_items b);
                 oc_source_type_to_element_id := dict_map otr_element_id (ls_by_source_type_id b); oc_revision := ε |}))).
End Build.
End TypeBuild.
