(* ===== verification/TypeBuildSpec.v ===== *)
(** What the construction of the context of object types promises, however the server answers: it ends with a context, in which
    the types of the server come first, and the type that an object is served with is among those that are listed, unless it is
    given as the null id. *)

From S2P Require Import TypeBuild SchemasSpec ObjectSchemaSpec TypeContextSpec.
Local Open Scope string_scope.
Local Open Scope list_scope.

Module TypeBuildSpec.
Import TypeBuild SchemasSpec ObjectSchemaSpec.

(** ** Parts that always end *)

Lemma each_total {A B} (f : B -> A -> outcome construction_error B) l : (forall b x, x ∈ l -> exists b', f b x = Ok b') -> forall b, exists b', each f b l = Ok b'.
Proof.
  induction l as [|x l IH]; intros Hf b; [by exists b|]. cbn [each]. destruct (Hf b x ltac:(by left)) as [b1 ->]. apply IH. intros b' y Hy. apply Hf. by right.
Qed.

Lemma each_map {A B} (f : A -> outcome construction_error B) (P : A -> B -> Prop) l : (forall x, x ∈ l -> exists y, f x = Ok y /\ P x y) ->
  forall acc, exists ys, each (fun items x => y ← f x; Ok (items ++ [y])) acc l = Ok (acc ++ ys) /\ Forall2 P l ys.
Proof.
  induction l as [|x l IH]; intros Hf acc; cbn [each]; [exists []; by rewrite app_nil_r|]. destruct (Hf x ltac:(by left)) as (y & -> & HP). cbn [mbind outcome_bind].
  destruct (IH ltac:(intros z Hz; apply Hf; by right) (acc ++ [y])) as (ys & E & Hys). exists (y :: ys). rewrite <-app_assoc in E. split; [exact E|by constructor].
Qed.

Lemma wrapped_made display_name source_type_id schema : exists wrapped, wrapped_value_schema display_name source_type_id schema = Some wrapped.
Proof.
  unfold wrapped_value_schema. cbv zeta. destruct (List.filter _ _) as [|p l]; [by eexists|]. set (defs := match obj_get "$defs" schema with Some (JObj l) => l | _ => [] end).
  set (base := or_str _ _). destruct (first_free_total (value_def_key base) (fun i j => numbered_inj _ _ i j) (map fst defs)) as (i & _ & -> & _). by eexists.
Qed.

Section Parts.
Context (u : Universe) (settings : TypeSettings) (dump_instance : ObjectInstanceResponse -> json) (infos : list OpcUaNamespaceInfo).
Context (Harg : arguments_ok u).

Lemma structure_item_made item defs raw source_type_id : exists entry, structure_item settings infos item defs raw source_type_id = Some entry.
Proof using.
  unfold structure_item. cbv zeta. destruct (transitive_defs_exact raw (Dict defs)) as (required & -> & _). cbn [mbind option_bind].
  set (schema := titled _ _ _). destruct (wrapped_made (match obj_get "title" raw with Some (JStr s) => or_str s "StructureType" | _ => "StructureType" end) source_type_id schema) as [w ->].
  by eexists.
Qed.

Lemma synthetic_made items : exists l, synthetic_object_types_from_structure_defs settings infos items = Ok l.
Proof using.
  unfold synthetic_object_types_from_structure_defs. edestruct (each_total (synthetic_of_item settings infos) items) as [d ->]; [|by eexists].
  intros acc item _. unfold synthetic_of_item. destruct (obj_get "$defs" (otr_schema item)) as [[| | | | | |defs]|]; try by eexists.
  apply each_total. clear acc. intros acc raw _. unfold synthetic_of_def. destruct (source_hint raw) as [hint|]; [|by eexists]. cbv zeta. destruct (dict_mem _ _); [by eexists|].
  destruct (structure_item_made item defs raw (expanded_node_id hint infos)) as [entry ->]. by eexists.
Qed.

Lemma data_type_schema_total source_type_id resolved : exists schema, data_type_schema u infos source_type_id resolved = Ok schema.
Proof using Harg.
  unfold data_type_schema. destruct resolved as [s|]; [by eexists|]. destruct (data_type_schema_ends u infos true source_type_id Harg) as (r & schema & ->).
  cbn. destruct schema; by eexists.
Qed.

(** A data type is an item of its own id, or none. *)
Lemma datatype_item_made source_type_id resolved : exists entry, datatype_object_type_from_source_type_id u settings infos source_type_id resolved = Ok entry /\
  forall item, entry = Some item -> otr_source_type_id item = source_type_id.
Proof using Harg.
  unfold datatype_object_type_from_source_type_id. destruct (data_type_schema_total source_type_id (rd_scalar_schema <$> resolved)) as [schema ->]. cbn [mbind outcome_bind].
  destruct schema as [schema|]; [|by eexists]. destruct (truthy _); [|by eexists]. cbv zeta. set (name := data_type_display_name _ _ _ _ _).
  assert (H : exists s, match obj_get "oneOf" schema with Some _ => Some schema | None => wrapped_value_schema name source_type_id schema end = Some s).
  { destruct (obj_get "oneOf" schema); [by eexists|apply wrapped_made]. }
  destruct H as [s ->]. eexists. split; [done|]. by intros item [= <-].
Qed.

Lemma opaque_source source_type_id item : opaque_datatype_object_type_from_source_type_id u settings infos source_type_id = Some item ->
  otr_source_type_id item = source_type_id.
Proof using. unfold opaque_datatype_object_type_from_source_type_id. destruct (truthy _); [|done]. by intros [= <-]. Qed.

(** The element id of a type of the server. *)
Definition type_id_of (t : OpcUaObjectTypeInfo) : string :=
  let uri := namespace_uri_for_node_id (ot_node_id t) infos in
  object_type_element_id t uri (server_uri_for_namespace_infos infos) (namespace_version_for_uri uri infos).

(** The item of a type has its ids. *)
Definition item_of (t : OpcUaObjectTypeInfo) (item : ObjectTypeResponse) : Prop :=
  otr_element_id item = type_id_of t /\ otr_source_type_id item = expanded_node_id (ot_node_id t) infos.

Definition values_plain (types : list OpcUaObjectTypeInfo) : Prop :=
  forall t m, t ∈ types -> m ∈ ot_members t -> refs (to_json_metadata_value u infos (om_value m)) = [].

Lemma ancestors_known n types seen s t : t ∈ ancestors n types seen s -> t = s \/ exists id, types !! id = Some t.
Proof using.
  revert seen s. induction n as [|n IH]; intros seen s; cbn [ancestors]; [by intros H%elem_of_nil|]. case_bool_decide; [by intros Hx%elem_of_nil|].
  intros [-> |Ht]%elem_of_cons; [by left|]. destruct (truthy_text (ot_parent_node_id s)) as [id|] eqn:E; [|by apply elem_of_nil in Ht].
  cbn [mbind option_bind] in Ht. destruct (types !! id) as [p|] eqn:Ep; [|by apply elem_of_nil in Ht]. right. destruct (IH _ _ Ht) as [-> |]; [by exists id|done].
Qed.

Lemma object_items_made model object_types resolved : values_plain object_types -> (forall id schema, resolved !! id = Some schema -> plain schema) ->
  forall t, t ∈ object_types -> exists item,
    to_object_type u dump_instance infos model (dict_of_list (map (fun item => (ot_node_id item, item)) object_types))
      (object_type_element_ids_by_node_id object_types infos) resolved t = Ok item /\ item_of t item.
Proof using Harg.
  intros Hvals Hres t Ht. unfold to_object_type. cbv zeta. set (types := dict_of_list _). set (ids := object_type_element_ids_by_node_id object_types infos).
  destruct (@object_type_schema_spec any_names u infos resolved t types ids Harg (fun _ _ => I) Hres) as (r & schema & -> & _).
  { intros m (t' & Ht' & Hm)%list_elem_of_In%in_flat_map. apply list_elem_of_In in Ht', Hm. apply (Hvals t'); [|done]. unfold lineage in Ht'. rewrite elem_of_reverse in Ht'.
    apply ancestors_known in Ht' as [-> |[id Hid]]; [done|]. apply dict_lookup_of_list_Some in Hid. apply elem_of_map in Hid as (x & [= -> ->] & Hx). done. }
  by eexists.
Qed.

Lemma listed_types_made model object_types resolved : values_plain object_types -> (forall id schema, resolved !! id = Some schema -> plain (rd_scalar_schema schema)) ->
  exists items synthetic, listed_types u settings dump_instance infos model object_types resolved = Ok (items ++ synthetic) /\ Forall2 item_of object_types items.
Proof using Harg.
  intros Hvals Hres. unfold listed_types. cbv zeta.
  assert (Hres' : forall id schema, dict_map rd_scalar_schema resolved !! id = Some schema -> plain schema).
  { intros id schema. rewrite dict_lookup_map. destruct (resolved !! id) as [x|] eqn:E; [|done]. intros [= <-]. by eapply Hres. }
  destruct (each_map _ item_of object_types (object_items_made model object_types _ Hvals Hres') []) as (items & -> & Hitems). cbn [mbind outcome_bind app].
  destruct (synthetic_made items) as [synthetic ->]. by exists items, synthetic.
Qed.

(** ** Custom data types *)

Lemma plain_set key z schema : key ≠ "$ref" -> plain schema -> plain (obj_set key (JInt z) schema).
Proof using. intros Hk [Ho Hr]. split; [by apply is_obj_set|]. apply no_refs. intros m Hm%refs_set; [|done..]. rewrite Hr in Hm. by apply elem_of_nil in Hm. Qed.

Lemma supertypes_plain l : forall abstract schema, (forall a, abstract = Some a -> plain a) -> scalar_schema_of_supertypes u infos abstract l = Some schema -> plain schema.
Proof using.
  induction l as [|t l IH]; intros abstract schema Ha; cbn [scalar_schema_of_supertypes]; [apply Ha|]. cbv zeta. destruct (if is_standard_ua_namespace_node_id _ then _ else _); [|by apply IH].
  pose proof (plain_opcua_type u (Some (expanded_node_id (ti_node_id t) infos))) as Hp. destruct (is_empty_schema _); [by apply IH|].
  case_bool_decide.
  - apply IH. intros a. destruct abstract; [apply Ha|]. by intros [= <-].
  - destruct (numeric_identifier _ ≫= _) as [[lo hi]|]; intros [= <-]; [|done]. by repeat apply plain_set.
Qed.

Abbreviation returns p Q := (sound (fun _ _ _ => True) (fun _ : unit => True) p Q).

Lemma resolve_each_returns l hierarchies : returns (resolve_each infos l hierarchies) (fun _ => True).
Proof using.
  revert hierarchies. induction l as [|id l IH]; intros hierarchies; cbn [resolve_each]; [done|]. destruct (dict_mem id hierarchies); [apply IH|].
  apply sound_call. intros answer _. apply IH.
Qed.

Lemma resolve_custom_returns ids : returns (resolve_custom_scalar_datatype_schemas u infos ids)
  (fun resolved => forall id schema, resolved !! id = Some schema -> plain (rd_scalar_schema schema)).
Proof using.
  unfold resolve_custom_scalar_datatype_schemas. destruct (candidates_of infos ids) as [|id l] eqn:E; [done|]. rewrite <-E. cbv zeta. apply sound_call. intros answer _.
  eapply sound_bind; [apply resolve_each_returns|]. intros hierarchies _. cbn [sound]. generalize (candidates_of infos ids). clear E id l. intros l.
  assert (H : forall l resolved, (forall id schema, resolved !! id = Some schema -> plain (rd_scalar_schema schema)) ->
    forall id schema, fold_left (resolved_custom u infos hierarchies) l resolved !! id = Some schema -> plain (rd_scalar_schema schema)); [|by apply H].
  clear l. induction l as [|x l IH]; intros resolved Hr; [done|]. cbn [fold_left]. apply IH. unfold resolved_custom.
  destruct (hierarchies !! x) as [hierarchy|]; [|done]. destruct (scalar_schema_from_type_hierarchy u infos hierarchy) as [s|] eqn:Es; [|done].
  intros id schema. rewrite dict_lookup_insert. case_bool_decide; [|by apply Hr]. intros [= <-]. by apply supertypes_plain in Es.
Qed.

(** ** The listing *)

(** What stands for a source type is an item of that source type. *)
Record listing_ok (b : Listing) : Prop := {
  lo_listed : forall key item, ls_by_source_type_id b !! key = Some item -> item ∈ ls_items b /\ lower (otr_source_type_id item) = key;
}.

(** Items are only added, and what stands for a source type stays. *)
Record listing_grows (b b' : Listing) : Prop := {
  lg_items : exists l, ls_items b' = ls_items b ++ l;
  lg_sources : forall key, is_Some (ls_by_source_type_id b !! key) -> is_Some (ls_by_source_type_id b' !! key);
}.

Lemma listing_grows_refl b : listing_grows b b.
Proof using. split; [exists []; by rewrite app_nil_r|done]. Qed.

Lemma listing_grows_trans b1 b2 b3 : listing_grows b1 b2 -> listing_grows b2 b3 -> listing_grows b1 b3.
Proof using. intros [[l1 E1] H1] [[l2 E2] H2]. split; [exists (l1 ++ l2); by rewrite E2, E1, app_assoc|auto]. Qed.

(** The id has an item, by its source type. *)
Definition resolved_in (id : string) (b : Listing) : Prop := is_Some (ls_by_source_type_id b !! lower id).

Lemma list_item_ok id item lookups b : otr_source_type_id item = id -> listing_ok b ->
  listing_ok (list_item (lower id) item lookups b) /\ listing_grows b (list_item (lower id) item lookups b) /\ resolved_in id (list_item (lower id) item lookups b).
Proof using.
  intros Hid [Hb]. split_and!.
  - split. intros key x. cbn [list_item ls_by_source_type_id ls_items]. rewrite dict_lookup_insert, elem_of_app. case_bool_decide as Hk.
    + intros [= <-]. split; [right; by left|by rewrite Hid].
    + intros Hx. destruct (Hb _ _ Hx). auto.
  - split; [by eexists|]. intros key. cbn [list_item ls_by_source_type_id]. rewrite dict_lookup_insert. by case_bool_decide.
  - unfold resolved_in. cbn [list_item ls_by_source_type_id]. by rewrite dict_lookup_insert_eq.
Qed.

Definition listed_after (ids : list string) (b : Listing) (r : outcome construction_error Listing) : Prop :=
  exists b', r = Ok b' /\ listing_ok b' /\ listing_grows b b' /\ forall id, id ∈ ids -> resolved_in id b'.

Lemma browse_name_returns id lookups : returns (server_browse_name id lookups) (fun _ => True).
Proof using. unfold server_browse_name. destruct (lk_browse_name_cache lookups !! id) as [[name|]|]; done. Qed.

Lemma generic_returns id lookups : returns (generic_object_type_from_source_type_id u settings infos id lookups)
  (fun generic => forall item, generic.2 = Some item -> otr_source_type_id item = id).
Proof using.
  unfold generic_object_type_from_source_type_id. destruct (match_nsu_identifier id) as [[[uri kind] identifier]|]; [|done].
  eapply sound_bind with (P := fun _ => True); [|intros [lookups' name] _; cbn; by intros item [= <-]]. unfold live_display_name. destruct (_ && _)%bool; [|done]. cbv zeta.
  eapply sound_bind with (P := fun _ => True); [apply browse_name_returns|done].
Qed.

Lemma list_unresolved_returns property_types resolved id b : listing_ok b ->
  returns (list_unresolved u settings infos property_types resolved id b) (listed_after [id] b).
Proof using Harg.
  intros Hb. assert (Hdone : forall item lookups, otr_source_type_id item = id -> listed_after [id] b (Ok (list_item (lower id) item lookups b))).
  { intros item lookups Hid. destruct (list_item_ok id item lookups b Hid Hb) as (H1 & H2 & H3). eexists. split_and!; [done..|]. by intros x ->%list_elem_of_singleton. }
  unfold list_unresolved. cbv zeta. destruct (dict_mem (lower id) (ls_by_source_type_id b)) eqn:Em.
  { exists b. split_and!; [done|done|apply listing_grows_refl|]. intros x ->%list_elem_of_singleton. by apply dict_mem_true. }
  destruct (datatype_item_made id (resolved !! lower id)) as (entry & -> & Hentry). destruct entry as [item|]; [by apply Hdone, Hentry|].
  destruct (if bool_decide (id ∈ property_types) then _ else _) as [item|] eqn:Eo.
  { apply Hdone. case_bool_decide; [|done]. by eapply opaque_source. }
  eapply sound_bind; [apply generic_returns|]. intros [lookups generic] Hg. cbn [fst snd sound] in *. apply Hdone. destruct generic as [item|]; [by apply Hg|done].
Qed.

Lemma list_all_returns property_types resolved ids b : listing_ok b -> returns (list_all u settings infos property_types resolved ids b) (listed_after ids b).
Proof using Harg.
  revert b. induction ids as [|id ids IH]; intros b Hb; cbn [list_all].
  { exists b. split_and!; [done|done|apply listing_grows_refl|]. by intros x Hx%elem_of_nil. }
  eapply sound_obind; [by apply list_unresolved_returns| |by intros e (b' & ? & _)]. intros b1 (b1' & [= <-] & Hb1 & Hg1 & Hr1).
  eapply sound_mono; [by apply IH|]. intros r (b2 & -> & Hb2 & Hg2 & Hr2). exists b2. split_and!; [done|done|by eapply listing_grows_trans|].
  intros x [-> |Hx]%elem_of_cons; [|by apply Hr2]. apply (lg_sources _ _ Hg2), Hr1. by left.
Qed.

(** ** The context *)

(** Serving an item changes neither of its ids. *)
Lemma served_ids (f : ObjectTypeResponse -> string) items :
  (forall item schema, f (with_schema (canonical_item settings infos item) schema) = f item) -> map f (served_items settings infos items) = map f items.
Proof using.
  intros Hf. unfold served_items. cbv zeta. set (canonical := map (canonical_item settings infos) items).
  assert (Hl : length (deduplicate_schema_fragments (map otr_schema canonical)) = length items).
  { unfold deduplicate_schema_fragments. transitivity (length (map otr_schema canonical)); [|unfold canonical; by rewrite !List.length_map].
    generalize (map otr_schema canonical). generalize (∅ : dict string json). intros pool l. revert pool.
    induction l as [|x l IH]; intros pool; [done|]. cbn [map_state]. destruct (intern pool x) as [pool1 y]. specialize (IH pool1). destruct (map_state intern pool1 l). cbn in *. by rewrite IH. }
  revert Hl. generalize (deduplicate_schema_fragments (map otr_schema canonical)). subst canonical.
  induction items as [|x items IH]; intros [|s l] Hl; try done. cbn. rewrite Hf. f_equal. apply IH. by injection Hl.
Qed.

(** The id has no item, unless it is one. *)
Definition is_listed (c : ObjectTypeContext) (id : string) : Prop := id ∈ map otr_element_id (oc_items c).

(** The type of an object is given as a null id, which is none. *)
Definition null_type (node : ModelNode) : Prop :=
  n_kind node ≠ property /\ exists id, truthy_text (n_source_type_id node) = Some id /\ is_null_opcua_type_node_id (expanded_node_id id infos) = true.

(** No other item names the unknown type as its source type. *)
Definition unknown_free (c : ObjectTypeContext) : Prop :=
  forall item, item ∈ oc_items c -> lower (otr_source_type_id item) = lower (unknown_type_element_id infos) -> otr_element_id item = unknown_type_element_id infos.

Definition ids_of_item (item : ObjectTypeResponse) : string * string := (otr_element_id item, otr_source_type_id item).

(** What is known of a context in terms of the listing. *)
Record context_ok (referenced : list string) (c : ObjectTypeContext) : Prop := {
  ct_sources : forall key id, oc_source_type_to_element_id c !! key = Some id ->
    exists item, item ∈ oc_items c /\ otr_element_id item = id /\ lower (otr_source_type_id item) = key;
  ct_referenced : forall id, id ∈ referenced -> is_listed c id \/ is_Some (oc_source_type_to_element_id c !! lower id);
  ct_types : forall t, t ∈ oc_object_types c -> is_listed c (type_id_of t);
}.

(** The id that the tables of a context give for a referenced one is listed. *)
Lemma looked_up_listed referenced c id : context_ok referenced c -> id ∈ referenced -> is_listed c (default id (oc_source_type_to_element_id c !! lower id)).
Proof using.
  intros [Hs Hr _] Hid. destruct (oc_source_type_to_element_id c !! lower id) as [x|] eqn:E; cbn [default from_option].
  - destruct (Hs _ _ E) as (item & Hi & <- & _). apply elem_of_map. by exists item.
  - destruct (Hr id Hid) as [|[? ?]]; [done|]. by rewrite E in *.
Qed.

Lemma unknown_listed referenced c : context_ok referenced c -> unknown_free c -> unknown_type_element_id infos ∈ referenced -> is_listed c (unknown_type_element_id infos).
Proof using.
  intros Hc Hu Hin. pose proof (looked_up_listed _ _ _ Hc Hin) as H. destruct (oc_source_type_to_element_id c !! _) as [x|] eqn:E; [|done].
  destruct (ct_sources _ _ Hc _ _ E) as (item & Hi & <- & Hk). cbn [default from_option] in H. by rewrite (Hu item Hi Hk) in H.
Qed.

Lemma node_referenced model ids id node x : nodes_by_id model !! id = Some node -> referenced_type_element_id infos ids node = Some x ->
  x ∈ collect_referenced_type_element_ids infos model ids.
Proof using.
  intros Hn Hx. unfold collect_referenced_type_element_ids. rewrite elem_of_unique_ids. apply list_elem_of_omap. exists node. split; [by eapply dict_lookup_values|done].
Qed.

(** The type of an object that is no property, by its type definition. *)
Lemma resolved_by_definition ids sources node : n_kind node ≠ property ->
  resolved_type_element_id_for_node infos ids sources node =
    match truthy_text (n_source_type_id node) with
    | None => unknown_type_element_id infos
    | Some s => let expanded := expanded_node_id s infos in
        if is_null_opcua_type_node_id expanded then unknown_type_element_id infos
        else match ids !! s with Some x => x | None => default expanded (sources !! lower expanded) end
    end /\
  referenced_type_element_id infos ids node =
    match truthy_text (n_source_type_id node) with
    | None => Some (unknown_type_element_id infos)
    | Some s => let id := default (expanded_node_id s infos) (ids !! s) in if is_null_opcua_type_node_id id then None else Some id
    end.
Proof using.
  intros Hk. unfold resolved_type_element_id_for_node, referenced_type_element_id, truthy_text.
  destruct (n_kind node); [|done|..]; (split; [|done]); destruct (n_source_type_id node) as [s|]; try done; by destruct (truthy s).
Qed.

Lemma null_type_unknown ids sources node : null_type node -> resolved_type_element_id_for_node infos ids sources node = unknown_type_element_id infos.
Proof using. intros (Hk & s & Hs & Hnull). destruct (resolved_by_definition ids sources node Hk) as [-> _]. rewrite Hs. cbv zeta. by rewrite Hnull. Qed.

Lemma type_listed model object_types c id node :
  oc_object_types c = object_types -> oc_element_ids_by_node_id c = object_type_element_ids_by_node_id object_types infos ->
  context_ok (collect_referenced_type_element_ids infos model (oc_element_ids_by_node_id c)) c ->
  nodes_by_id model !! id = Some node -> ~ null_type node ->
  (resolved_type_element_id_for_node infos (oc_element_ids_by_node_id c) (oc_source_type_to_element_id c) node = unknown_type_element_id infos -> unknown_free c) ->
  is_listed c (resolved_type_element_id_for_node infos (oc_element_ids_by_node_id c) (oc_source_type_to_element_id c) node).
Proof using.
  intros Hot Hids Hc Hn Hnull. pose proof (fun x => node_referenced model (oc_element_ids_by_node_id c) id node x Hn) as Href.
  destruct (decide (n_kind node = property)) as [Ek|Ek].
  - unfold resolved_type_element_id_for_node, referenced_type_element_id in *. rewrite Ek in *. cbv zeta in *. specialize (Href _ eq_refl).
    destruct (is_null_opcua_type_node_id _); intros Hu; [|by eapply looked_up_listed]. eapply unknown_listed; [done|by apply Hu|done].
  - destruct (resolved_by_definition (oc_element_ids_by_node_id c) (oc_source_type_to_element_id c) node Ek) as [-> E]. rewrite E in Href. clear E.
    destruct (truthy_text (n_source_type_id node)) as [s|] eqn:Es; cbv zeta in *.
    2: { intros Hu. eapply unknown_listed; [done|by apply Hu|by apply Href]. }
    destruct (is_null_opcua_type_node_id (expanded_node_id s infos)) eqn:En; [by destruct Hnull; split; [|exists s]|]. intros _.
    destruct (oc_element_ids_by_node_id c !! s) as [x|] eqn:Ex; cbn [default from_option] in *.
    + rewrite Hids in Ex. apply dict_lookup_of_list_Some in Ex. apply elem_of_map in Ex as (t & [= -> ->] & Ht). apply (ct_types _ _ Hc). by rewrite Hot.
    + rewrite En in Href. eapply looked_up_listed; [exact Hc|by apply Href].
Qed.

(** What the whole construction leaves. *)
Definition construction_ok (model : BuildResult) (object_types : list OpcUaObjectTypeInfo) (c : ObjectTypeContext) : Prop :=
  oc_object_types c = object_types /\ oc_element_ids_by_node_id c = object_type_element_ids_by_node_id object_types infos /\
  context_ok (collect_referenced_type_element_ids infos model (oc_element_ids_by_node_id c)) c /\
  exists rest, map ids_of_item (oc_items c) = map (fun t => (type_id_of t, expanded_node_id (ot_node_id t) infos)) object_types ++ rest.

Lemma construction_returns model object_types : values_plain object_types ->
  returns (build_object_type_context u settings dump_instance infos model object_types) (fun r => exists c, r = Ok c /\ construction_ok model object_types c).
Proof using Harg.
  intros Hvals. unfold build_object_type_context. cbv zeta. eapply sound_bind; [apply resolve_custom_returns|]. intros resolved Hres.
  destruct (listed_types_made model object_types resolved Hvals Hres) as (items & synthetic & -> & Hitems). cbn [obind pbind].
  set (property_types := _ ++ _). set (referenced := collect_referenced_type_element_ids _ _ _). set (unresolved := py_sorted _ _). set (start := {| ls_items := items ++ synthetic |}).
  assert (Hstart : listing_ok start).
  { split. intros key item H. apply dict_lookup_of_list_Some, elem_of_map in H as (x & [= -> ->] & Hx). done. }
  eapply sound_obind; [by apply list_all_returns| |by intros e (b & ? & _)]. intros b (b' & [= <-] & Hb & Hg & Hr). cbn [sound].
  eexists. split; [done|]. destruct (lg_items _ _ Hg) as [added Hadded]. cbn [start ls_items] in Hadded.
  assert (Hids : map ids_of_item (served_items settings infos (ls_items b)) = map ids_of_item (ls_items b)).
  { unfold ids_of_item. pose proof (served_ids otr_element_id (ls_items b) (fun _ _ => eq_refl)) as H1. pose proof (served_ids otr_source_type_id (ls_items b) (fun _ _ => eq_refl)) as H2.
    revert H1 H2. generalize (served_items settings infos (ls_items b)). generalize (ls_items b). intros l k. revert k.
    induction l as [|x l IH]; intros [|y k] H1 H2; try done. cbn in *. injection H1 as -> H1. injection H2 as -> H2. f_equal. by apply IH. }
  assert (Hlisted : forall item, item ∈ ls_items b -> exists item', item' ∈ served_items settings infos (ls_items b) /\ ids_of_item item' = ids_of_item item).
  { intros item Hi. assert (H : ids_of_item item ∈ map ids_of_item (ls_items b)) by (apply elem_of_map; by exists item).
    rewrite <-Hids in H. apply elem_of_map in H as (item' & E & Hi'). by exists item'. }
  split_and!; [done|done| |].
  - split; cbn [oc_source_type_to_element_id oc_items oc_object_types].
    + intros key id. rewrite dict_lookup_map. destruct (ls_by_source_type_id b !! key) as [item|] eqn:E; [|done]. intros [= <-].
      destruct (lo_listed _ Hb _ _ E) as [Hi <-]. destruct (Hlisted _ Hi) as (item' & Hi' & [= <- <-]). by exists item'.
    + intros id Hid. destruct (decide (id ∈ map otr_element_id (items ++ synthetic))) as [Hk|Hk].
      * left. unfold is_listed. cbn [oc_items]. rewrite served_ids by done. rewrite Hadded, List.map_app. apply elem_of_app. by left.
      * right. rewrite dict_lookup_map. destruct (Hr id) as [item ->]; [|by eexists]. unfold unresolved. apply elem_of_py_sorted, elem_of_filter_list. split; [done|].
        by rewrite bool_decide_false.
    + intros t Ht. unfold is_listed. cbn [oc_items]. rewrite served_ids by done. rewrite Hadded, !List.map_app, !elem_of_app. left. left.
      apply list_elem_of_lookup in Ht as [i Hi]. destruct (Forall2_lookup_l _ _ _ _ _ Hitems Hi) as (item & Hitem & <- & _). apply elem_of_map. exists item. split; [done|].
      by eapply list_elem_of_lookup_2.
  - cbn [oc_items]. rewrite Hids, Hadded, !List.map_app, <-app_assoc. eexists. f_equal. clear -Hitems. unfold ids_of_item.
    induction Hitems as [|t item ts its [H1 H2] _ IH]; [done|]. cbn. by rewrite H1, H2, IH.
Qed.
End Parts.

(** C40. If [Argument] has its [ArrayDimensions], and the values of the members of the types have no [$ref] members of their
    own, the construction of the context of object types ends with a context, whatever the server answers. Its items begin with
    the types of the server. Every element of the model is served with one of the items as its type, with two exceptions: an
    object whose type is given as the null id is served with the unknown type, for which no item is made on its account; and
    where the type is the unknown type, its item can be missing if another item claims its id as a source type. *)
Theorem types_listed u settings dump_instance infos model object_types : arguments_ok u -> values_plain u infos object_types ->
  sound (fun _ _ _ => True) (fun _ => True) (build_object_type_context u settings dump_instance infos model object_types) (fun r => exists c, r = Ok c /\
    (exists rest, map ids_of_item (oc_items c) = map (fun t => (type_id_of infos t, expanded_node_id (ot_node_id t) infos)) object_types ++ rest) /\
    forall id node, nodes_by_id model !! id = Some node ->
      let type_id := resolved_type_element_id_for_node infos (oc_element_ids_by_node_id c) (oc_source_type_to_element_id c) node in
      (null_type infos node -> type_id = unknown_type_element_id infos) /\
      (~ null_type infos node -> (type_id = unknown_type_element_id infos -> unknown_free infos c) -> is_listed c type_id)).
Proof.
  intros Harg Hvals. eapply sound_mono; [by apply construction_returns|]. intros r (c & -> & Hot & Hids & Hc & Hrest). exists c. split_and!; [done|done|].
  intros id node Hn. cbv zeta. split; [apply null_type_unknown|]. intros Hnull. by eapply type_listed.
Qed.

(** ** Samples *)

Definition typed_node (id : string) (kind : NodeKind) (data_type type_definition : option string) : ModelNode :=
  {| n_id := id; n_name := id; n_kind := kind; n_type := data_type; n_children := []; n_source_node_id := id; n_source_type_id := type_definition;
     n_parent_id := None; n_is_composition := false; n_semantic_role := role_unknown; n_mapping_confidence := conf_low; n_relationships := ∅; n_metadata := ∅ |}.

(** The sample classes, with the names of two standard ids. *)
Definition named_universe : Universe :=
  {| un_classes := un_classes sample_universe; un_ua := un_ua sample_universe; un_registry := un_registry sample_universe;
     un_structures := []; un_import := fun _ => None; un_module_types := fun _ => [];
     un_object_id_names := fun id => if Z.eqb id 11 then Some "Double" else if Z.eqb id 58 then Some "BaseObjectType" else None;
     un_class_of := un_class_of sample_universe; un_node_text := fun _ => ε; un_extension_dataclass := true; un_eval := fun _ _ _ => None |}.

Definition sample_settings : TypeSettings := {| mcp_include_opcua_metadata := true; enable_type_browsename_lookup := true; type_browsename_lookup_max := 5 |}.

Definition sample_objects : BuildResult :=
  small_model [typed_node "pump" asset None (Some "ns=1;i=2"); typed_node "speed" property (Some "i=11") None; typed_node "plan" property (Some "ns=1;i=3001") None;
               typed_node "vendor" asset None (Some "ns=1;i=58"); typed_node "untyped" asset None None] [] [].

(** A server that answers no call. *)
Definition silent R (c : build_call R) (w : unit) (s : unit) : unit * unit * R :=
  match c in build_call R return unit * unit * R with
  | ResolveHierarchies _ => (w, s, Raise) | ResolveHierarchy _ => (w, s, Raise) | ReadBrowseName _ => (w, s, Raise)
  end.

Definition built_context (model : BuildResult) (object_types : list OpcUaObjectTypeInfo) : option ObjectTypeContext :=
  match run silent (build_object_type_context named_universe sample_settings (fun _ => JNull) sample_infos model object_types) tt tt with
  | (_, _, Ok c) => Some c
  | _ => None
  end.

Definition resolved_id (c : ObjectTypeContext) (node : ModelNode) : string :=
  resolved_type_element_id_for_node sample_infos (oc_element_ids_by_node_id c) (oc_source_type_to_element_id c) node.

Definition summary (model : BuildResult) (object_types : list OpcUaObjectTypeInfo) : option (list string * list (string * bool)) :=
  c ← built_context model object_types;
  Some (map otr_display_name (oc_items c),
        map (fun node => (n_id node, bool_decide (resolved_id c node ∈ map otr_element_id (oc_items c)))) (dict_values (nodes_by_id model))).

(** The types of the server, and one item for each id that is left; a type of another namespace
    is shown under the name of the standard type with its number. *)
Example objects_have_types :
  summary sample_objects [base_type; pump_type] =
    Some (["ns=1;i=1"; "ns=1;i=2"; "Double"; "TreeNode"; "BaseObjectType"; "UnknownType"],
          [("pump", true); ("speed", true); ("plan", true); ("vendor", true); ("untyped", true)]).
Proof. vm_compute. reflexivity. Qed.

(** An object whose type is given as the null id is served with the unknown type, which nobody lists. *)
Example null_type_not_listed : summary (small_model [typed_node "odd" asset None (Some "i=0")] [] []) [] = Some ([], [("odd", false)]).
Proof. vm_compute. reflexivity. Qed.

(** Types of objects, variables and references end in Type, and are taken for data types before they are told apart. *)
Example variable_types_are_data_types : schema_for_standard_name named_universe "StateVariableType" = Some (typed "object").
Proof. reflexivity. Qed.

Lemma sample_values_plain : values_plain named_universe sample_infos [base_type; pump_type].
Proof.
  intros t m Ht Hm. repeat (apply elem_of_cons in Ht as [-> |Ht]; [cbn [ot_members base_type pump_type sample_type] in Hm;
    repeat (apply elem_of_cons in Hm as [-> |Hm]; [reflexivity|]); by apply elem_of_nil in Hm|]). by apply elem_of_nil in Ht.
Qed.

Lemma types_listed_witness :
  (arguments_ok named_universe /\ values_plain named_universe sample_infos [base_type; pump_type] /\ dict_len (nodes_by_id sample_objects) = 5%nat) /\
  sound (fun _ _ _ => True) (fun _ => True)
    (build_object_type_context named_universe sample_settings (fun _ => JNull) sample_infos sample_objects [base_type; pump_type]) (fun r => exists c, r = Ok c /\
    (exists rest, map ids_of_item (oc_items c) =
      map (fun t => (type_id_of sample_infos t, expanded_node_id (ot_node_id t) sample_infos)) [base_type; pump_type] ++ rest) /\
    forall id node, nodes_by_id sample_objects !! id = Some node ->
      let type_id := resolved_type_element_id_for_node sample_infos (oc_element_ids_by_node_id c) (oc_source_type_to_element_id c) node in
      (null_type sample_infos node -> type_id = unknown_type_element_id sample_infos) /\
      (~ null_type sample_infos node -> (type_id = unknown_type_element_id sample_infos -> unknown_free sample_infos c) -> is_listed c type_id)).
Proof.
  split; [split_and!; [exact sample_arguments|exact sample_values_plain|reflexivity]|].
  apply (types_listed named_universe sample_settings (fun _ => JNull) sample_infos sample_objects [base_type; pump_type]); [exact sample_arguments|exact sample_values_plain].
Defined.
End TypeBuildSpec.
