(* ===== verification/ModelQuery.v ===== *)
(** The queries behind the routes of types, namespaces and diagnostics ([application/services/model_query.py],
    [api/v1/core_routes.py], [api/v1/objecttype_routes.py], [api/v1/model_routes.py] and the metrics of
    [api/v1/monolithic.py]).

    A service belongs to one request; its cache of namespaces is the state of its programs. The counters of
    [_increment_counter] are dictionaries of natural numbers. *)

From S2P Require Import ModelTools.
From S2P Require Export Values TypeContext.

Module ModelQuery.
Export NodeIds Values TypeContext.
Local Open Scope async_scope.

Definition I3X_NAMESPACE : string := "https://cesmii.org/i3x".

(** ** Answers of [contracts.py] *)

Record Namespace := { nsp_uri : string; nsp_display_name : string }.

Record RelationshipType := {
  rtp_element_id : string; rtp_display_name : string; rtp_namespace_uri : string; rtp_relationship_id : string; rtp_reverse_of : string;
}.

#[export] Instance RelationshipType_eq_dec : EqDecision RelationshipType.
Proof. solve_decision. Defined.

Record ServerCapabilities := { sc_query_history : bool; sc_update_current : bool; sc_update_history : bool; sc_subscribe_stream : bool }.

Record ServerInfo := { si_spec_version : string; si_server_version : string; si_server_name : string; si_capabilities : ServerCapabilities }.

(** [_map_lookup_bulk_result_items]. *)
Definition map_lookup_bulk_result_items {T} (element_ids : list string) (indexed_items : dict string T) (not_found_message : string) : list (BulkResultItem T) :=
  map (fun id => match indexed_items !! id with
                 | None => bulk_result_error id not_found_message 404
                 | Some item => bulk_result_success id item
                 end) element_ids.

(** ** The model query service *)

Definition to_namespace (item : OpcUaNamespaceInfo) : Namespace :=
  {| nsp_uri := nsi_uri item; nsp_display_name := or_str (nsi_display_name item) (display_name_for_uri (nsi_uri item)) |}.

(** [history_update_supported]: what the client knows of the server; [None] before it was tried. *)
Definition build_server_info (writes_enabled : bool) (server_version server_name : string) (history_update_supported : option bool) : ServerInfo :=
  {| si_spec_version := "1.0"; si_server_version := server_version; si_server_name := server_name;
     si_capabilities := {| sc_query_history := true; sc_update_current := writes_enabled;
                           sc_update_history := (writes_enabled && negb (bool_decide (history_update_supported = Some false)))%bool;
                           sc_subscribe_stream := true |} |}.

(** [re.sub(r"[^A-Za-z0-9]+", "-", s)]; [inside] a run of such characters. *)
Fixpoint other_runs (inside : bool) (l : list ascii) : list ascii :=
  match l with
  | [] => []
  | c :: l' =>
      if (is_upper c || is_lower c || is_digit c)%bool then c :: other_runs false l' else if inside then other_runs true l' else dash :: other_runs true l'
  end.

Definition element_id_from_node_id (prefix node_id : string) : string :=
  let cleaned := strip_chars [dash] (of_chars (other_runs false (chars node_id))) in
  if truthy cleaned then prefix +:+ "-" +:+ lower cleaned else prefix +:+ "-unknown".

(** A relationship and its reverse, the four that are always there. *)
Definition i3x_relationship (id reverse : string) : RelationshipType :=
  {| rtp_element_id := id; rtp_display_name := id; rtp_namespace_uri := I3X_NAMESPACE; rtp_relationship_id := id; rtp_reverse_of := reverse |}.

Definition builtin_relationship_types : list RelationshipType :=
  [i3x_relationship "HasParent" "HasChildren"; i3x_relationship "HasChildren" "HasParent";
   i3x_relationship "HasComponent" "ComponentOf"; i3x_relationship "ComponentOf" "HasComponent"].

Definition graph_relationship_types (name namespace_uri display_name : string) : list RelationshipType :=
  let reverse_name := "inverseOf_" +:+ name in
  [{| rtp_element_id := name; rtp_display_name := display_name; rtp_namespace_uri := namespace_uri; rtp_relationship_id := name; rtp_reverse_of := reverse_name |};
   {| rtp_element_id := reverse_name; rtp_display_name := "inverseOf_" +:+ display_name; rtp_namespace_uri := namespace_uri;
      rtp_relationship_id := reverse_name; rtp_reverse_of := name |}].

Definition existing_relationships : list string := map rtp_element_id builtin_relationship_types.

(** The loop over the sorted names; [None] is the [KeyError] of a name without namespace. *)
Fixpoint relationship_types_of (model : BuildResult) (names : list string) : option (list RelationshipType) :=
  match names with
  | [] => Some []
  | name :: names' =>
      if bool_decide (name ∈ existing_relationships) then relationship_types_of model names'
      else
        namespace_uri ← graph_relationship_namespace_by_id model !! name;
        rest ← relationship_types_of model names';
        Some (graph_relationship_types name namespace_uri (dict_get_default name name (graph_relationship_display_name_by_id model)) ++ rest)
  end.

(** [_relationship_type_items]. *)
Definition relationship_type_items (model : BuildResult) : option (list RelationshipType) :=
  app builtin_relationship_types <$> relationship_types_of model (py_sorted string_leb (elements (graph_relationship_names model))).

(** [ModelQueryService.get_relationship_types]. *)
Definition get_relationship_types (model : BuildResult) (namespace_uri : option string) : option (list RelationshipType) :=
  items ← relationship_type_items model;
  Some match namespace_uri with
       | None => items
       | Some uri => List.filter (fun item => bool_decide (rtp_namespace_uri item = uri)) items
       end.

(** [str()] of a value of the metadata. *)
Definition metadata_text (v : meta_value) : string :=
  match v with
  | MNone => "None"
  | MStr s => s
  | MInt z => if z <? 0 then "-" +:+ str_of_int (- z) else str_of_int z
  | MBool b => if b then "True" else "False"
  | MStrs l => repr (PList (map PStr l))
  end.

Record ObjectMetadata := {
  omd_source_type_id : option string; omd_description : option string; omd_relationships : dict string (list string);
  omd_extended_attributes : dict string meta_value;
}.

Record ObjectInstance := {
  obi_element_id : string; obi_display_name : string; obi_type_element_id : string; obi_parent_id : option string;
  obi_is_composition : bool; obi_is_extended : bool; obi_metadata : option ObjectMetadata;
}.

Definition to_object_instance (include_metadata : bool) (node : ModelNode) : ObjectInstance :=
  {| obi_element_id := n_id node; obi_display_name := n_name node;
     obi_type_element_id := or_str (default ε (n_type node)) (or_str (default ε (n_source_type_id node)) (kind_str (n_kind node)));
     obi_parent_id := n_parent_id node; obi_is_composition := n_is_composition node;
     obi_is_extended := match dict_items (n_metadata node) with [] => false | _ => true end;
     obi_metadata :=
       if include_metadata then
         Some {| omd_source_type_id := n_source_type_id node; omd_description := metadata_text <$> n_metadata node !! "description";
                 omd_relationships := n_relationships node; omd_extended_attributes := n_metadata node |}
       else None |}.

(** [ModelQueryService.get_objects]. *)
Definition get_objects (model : BuildResult) (element_ids : option (list string)) (include_metadata : bool) : list ObjectInstance :=
  let nodes := dict_values (nodes_by_id model) in
  let nodes := match element_ids with None => nodes | Some ids => List.filter (fun node => bool_decide (n_id node ∈ ids)) nodes end in
  map (to_object_instance include_metadata) nodes.

(** *** What it asks of the client *)

(** [_namespace_cache]. *)
Abbreviation query A := (prog (option (list OpcUaNamespaceInfo)) type_call A).

(** [get_namespace_infos]. *)
Definition get_namespace_infos : query (outcome error (list OpcUaNamespaceInfo)) :=
  cached <- sect (fun s => (s, s));;
  match cached with
  | Some infos => Ret (Ok infos)
  | None => obind (call GetNamespaceInfos) (fun infos => _ <- update (fun _ => Some infos);; Ret (Ok infos))
  end.

Definition application_error (code message : string) : http_error := HttpError 502 code message.

(** [ModelQueryService.get_namespaces]. *)
Definition get_namespaces : query (outcome http_error (list Namespace)) :=
  pbind get_namespace_infos (fun r =>
    Ret match r with
        | Ok infos => Ok (map to_namespace infos)
        | Err _ => Err (application_error "OpcUaNamespaceError" "Failed to read OPC UA namespaces")
        end).

Record ObjectTypeItem := { oti_element_id : string; oti_display_name : string; oti_namespace_uri : string; oti_source_type_id : string }.

Definition object_type_items (namespace_uri : option string) (infos : list OpcUaNamespaceInfo) (object_types : list OpcUaObjectTypeInfo) : list ObjectTypeItem :=
  let effective_namespace_uri := (fun uri => canonical_namespace_uri uri infos) <$> namespace_uri in
  omap (fun item =>
    let item_namespace_uri := namespace_uri_for_node_id (ot_node_id item) infos in
    if match effective_namespace_uri with Some uri => bool_decide (item_namespace_uri = uri) | None => true end
    then Some {| oti_element_id := element_id_from_node_id "objecttype" (ot_node_id item); oti_display_name := ot_display_name item;
                 oti_namespace_uri := item_namespace_uri; oti_source_type_id := ot_node_id item |}
    else None) object_types.

(** [ModelQueryService.get_object_types]. *)
Definition get_object_types (namespace_uri : option string) : query (outcome http_error (list ObjectTypeItem)) :=
  pbind (obind (call GetObjectTypes) (fun types => obind get_namespace_infos (fun infos => Ret (Ok (types.2, infos))))) (fun r =>
    Ret match r with
        | Ok (object_types, infos) => Ok (object_type_items namespace_uri infos object_types)
        | Err _ => Err (application_error "OpcUaObjectTypeError" "Failed to read OPC UA object types")
        end).

(** ** The routes

    An [option] that is [None] is an exception that the application answers with 500. *)
Section Routes.
Context (sha256_hex : string -> string) (model_token : BuildResult -> string) (model_dump_json : ObjectTypeResponse -> string).

(** [GET /namespaces]: with what the request has recorded. *)
Definition get_namespaces_v1 (parts : option Parts) : query (outcome http_error (list Namespace) * option Parts) :=
  pbind get_namespaces (fun r =>
    Ret match r with
        | Ok payload =>
            (Ok payload, record_revision NAMESPACES_PART (content_revision sha256_hex (map (fun item => PTuple [PStr (nsp_uri item); PStr (nsp_display_name item)]) payload)) parts)
        | Err e => (Err e, parts)
        end).

(** [GET /relationshiptypes]. *)
Definition get_relationship_types_v1 (model : BuildResult) (namespace_uri : option string) : option (list RelationshipType) := get_relationship_types model namespace_uri.

(** [POST /relationshiptypes/query]. *)
Definition query_relationship_types_v1 (model : BuildResult) (element_ids : list string) : option (BulkResponse (BulkResultItem RelationshipType)) :=
  items ← get_relationship_types model None;
  Some (bulk_response item_succeeded
    (map_lookup_bulk_result_items element_ids (dict_of_list (map (fun item => (rtp_element_id item, item)) items)) "Relationship type not found")).

(** Handlers that [raise_if_not_modified] answer without a body. *)
Inductive Reply (A : Type) := NotModified | Answered (a : A).
#[global] Arguments NotModified {A}.
#[global] Arguments Answered {A} a.

(** What is listed of a context. *)
Definition listing (namespace_uri : option string) (c : ObjectTypeContext) : list ObjectTypeResponse :=
  if truthy_opt namespace_uri
  then let canonical := canonical_namespace_uri (default ε namespace_uri) (oc_namespace_infos c) in
       List.filter (fun item => bool_decide (otr_namespace_uri item = canonical)) (oc_items c)
  else oc_items c.

(** [GET /objecttypes]. *)
Definition get_object_types_v1 (method : string) (if_none_match : option string) (parts : option Parts) (model : BuildResult) (namespace_uri : option string) :
    prog TypeState type_call (outcome http_error (Reply (list ObjectTypeResponse)) * option Parts) :=
  context <- get_object_type_context sha256_hex model_token model_dump_json parts model None true;;
  Ret match context with
      | Err _ => (Err (opcua_error "read object types"), parts)
      | Ok (c, parts) =>
          if not_modified sha256_hex method if_none_match parts then (Ok NotModified, parts)
          else (Ok (Answered (listing namespace_uri c)), parts)
      end.

(** [POST /objecttypes/query]. *)
Definition query_object_types_v1 (parts : option Parts) (model : BuildResult) (element_ids : list string) :
    prog TypeState type_call (outcome http_error (BulkResponse (BulkResultItem ObjectTypeResponse))) :=
  context <- get_object_type_context sha256_hex model_token model_dump_json parts model None true;;
  Ret match context with
      | Err _ => Err (opcua_error "query object types")
      | Ok (c, _) =>
          Ok (bulk_response item_succeeded
            (map_lookup_bulk_result_items element_ids (dict_of_list (map (fun item => (otr_element_id item, item)) (oc_items c))) "Object type not found"))
      end.
End Routes.
End ModelQuery.
