(* ===== verification/ModelQuerySpec.v ===== *)
(** What the queries of [ModelQuery] promise: every relationship of a built model has a listed type, whose reverse is listed
    too; and a client that is told that nothing changed holds the list that it would be sent. *)

From S2P Require Export ModelQuery BuilderSpec TypeContextSpec.
Local Open Scope Z_scope.

Module ModelQuerySpec.
Import Builder BuilderLemmas BuilderSpec TypeContextSpec HttpCachingSpec ModelQuery.

(** ** Relationship types *)

(** A relationship of the model that gets types of its own: its namespace and its name for display. *)
Definition graph_relationship (model : BuildResult) (name namespace_uri display_name : string) : Prop :=
  name ∈ graph_relationship_names model /\ name ∉ existing_relationships /\
  graph_relationship_namespace_by_id model !! name = Some namespace_uri /\
  display_name = dict_get_default name name (graph_relationship_display_name_by_id model).

Lemma types_of_elem model names items item :
  relationship_types_of model names = Some items ->
  item ∈ items <-> exists name uri display, name ∈ names /\ name ∉ existing_relationships /\
    graph_relationship_namespace_by_id model !! name = Some uri /\ display = dict_get_default name name (graph_relationship_display_name_by_id model) /\
    item ∈ graph_relationship_types name uri display.
Proof.
  revert items. induction names as [|name names IH]; intros items.
  { intros [= <-]. split; [by intros H%elem_of_nil|]. by intros (? & ? & ? & H%elem_of_nil & _). }
  cbn [relationship_types_of]. case_bool_decide as Hin.
  - intros H. rewrite (IH _ H). split; intros (n & uri & d & Hn & Hrest).
    + exists n, uri, d. split; [by right|done].
    + apply elem_of_cons in Hn as [-> |Hn]; [by destruct Hrest|]. by exists n, uri, d.
  - destruct (graph_relationship_namespace_by_id model !! name) as [uri|] eqn:Huri; [|done]. cbn.
    destruct (relationship_types_of model names) as [rest|] eqn:Hrest; [|done]. cbn. intros [= <-].
    change (_ :: _ :: rest) with (graph_relationship_types name uri (dict_get_default name name (graph_relationship_display_name_by_id model)) ++ rest).
    rewrite elem_of_app, (IH _ eq_refl). split.
    + intros [H|(n & u & d & Hn & Hx)]; [|exists n, u, d; split; [by right|done]]. exists name, uri, (dict_get_default name name (graph_relationship_display_name_by_id model)). split_and!; [by left|done..].
    + intros (n & u & d & Hn & Hne & Hu & -> & H). apply elem_of_cons in Hn as [-> |Hn]; [left; congruence|right]. eexists n, u, _. by split_and!.
Qed.

Lemma types_of_total model names :
  (forall name, name ∈ names -> is_Some (graph_relationship_namespace_by_id model !! name)) -> is_Some (relationship_types_of model names).
Proof.
  induction names as [|name names IH]; intros H; [by eexists|]. cbn [relationship_types_of].
  destruct IH as [rest Hrest]; [intros n Hn; apply H; by right|]. case_bool_decide; [by eexists|].
  destruct (H name ltac:(by left)) as [uri ->]. rewrite Hrest. by eexists.
Qed.

Lemma items_elem model items item :
  relationship_type_items model = Some items ->
  item ∈ items <-> item ∈ builtin_relationship_types \/
    exists name uri display, graph_relationship model name uri display /\ item ∈ graph_relationship_types name uri display.
Proof.
  unfold relationship_type_items. destruct (relationship_types_of model _) as [l|] eqn:E; [|done]. intros Hsome.
  assert (items = builtin_relationship_types ++ l) as -> by (by injection Hsome).
  rewrite elem_of_app, (types_of_elem _ _ _ _ E). apply or_iff_compat_l. split; intros (name & uri & d & H).
  - exists name, uri, d. rewrite (elem_of_py_sorted string_leb), elem_of_elements in H. unfold graph_relationship. tauto.
  - exists name, uri, d. rewrite (elem_of_py_sorted string_leb), elem_of_elements. unfold graph_relationship in H. tauto.
Qed.

(** The ids of a list of types, in its order. *)
Lemma types_of_ids model names items :
  relationship_types_of model names = Some items ->
  map rtp_element_id items = flat_map (fun name => [name; "inverseOf_" +:+ name]) (List.filter (fun name => negb (bool_decide (name ∈ existing_relationships))) names).
Proof.
  revert items. induction names as [|name names IH]; intros items; [by intros [= <-]|]. cbn [relationship_types_of List.filter].
  case_bool_decide; cbn [negb]; [apply IH|]. destruct (_ !! name) as [uri|]; [|done]. cbn.
  destruct (relationship_types_of model names) as [rest|]; [|done]. cbn. intros [= <-]. cbn. by rewrite (IH rest eq_refl).
Qed.

Lemma ids_nodup names :
  NoDup names -> (forall name, name ∈ names -> startswith "inverseOf_" name = false) ->
  NoDup (flat_map (fun name => [name; "inverseOf_" +:+ name]) names).
Proof.
  intros Hnd. induction Hnd as [|name names Hn Hnd IH]; intros Hinv; [constructor|]. cbn.
  assert (Hmem : forall x, x ∈ flat_map (fun name => [name; "inverseOf_" +:+ name]) names -> x ∈ names \/ exists n, n ∈ names /\ x = "inverseOf_" +:+ n).
  { intros x Hx%list_elem_of_In. apply in_flat_map in Hx as (n & Hin%list_elem_of_In & [<- |[<- |[]]]); [by left|right; by exists n]. }
  constructor; [|constructor; [|apply IH; intros n Hin; apply Hinv; by right]].
  - intros [E|Hx%Hmem]%elem_of_cons.
    + pose proof (Hinv name ltac:(by left)) as H. rewrite E, inverse_startswith in H. discriminate.
    + destruct Hx as [Hx|(n & _ & E)]; [done|]. pose proof (Hinv name ltac:(by left)) as H. rewrite E, inverse_startswith in H. discriminate.
  - intros Hx%Hmem. destruct Hx as [Hx|(n & Hin & E)].
    + pose proof (Hinv _ ltac:(by right)) as H. rewrite inverse_startswith in H. discriminate.
    + apply (inj (String.append "inverseOf_")) in E as ->. done.
Qed.

(** The names of a built model are those that have a namespace. *)
Lemma result_names sha1_hex client r name :
  build sha1_hex client = Ok r -> name ∈ graph_relationship_names r <-> is_Some (graph_relationship_namespace_by_id r !! name).
Proof.
  intros (t & ids & _ & _ & ->)%build_browsed_inv. cbn [build_result graph_relationship_names graph_relationship_namespace_by_id].
  rewrite elem_of_list_to_set. apply elem_of_dict_keys.
Qed.

Lemma existing_reserved : existing_relationships ≡ₚ reserved.
Proof. apply (bool_decide_unpack _). by vm_compute. Qed.

(** The ids of graph relationships are none of the four, and not inverses while no namespace begins like one. *)
Lemma result_ids sha1_hex client r name :
  build sha1_hex client = Ok r -> is_Some (graph_relationship_namespace_by_id r !! name) ->
  name ∉ existing_relationships /\
  ((forall id ns, graph_relationship_namespace_by_id r !! id = Some ns -> startswith "inverseOf_" ns = false) -> startswith "inverseOf_" name = false).
Proof.
  intros Hr [ns Hns]. destruct (result_graph _ _ _ Hr) as (t & ids & names & _ & Hids & Ens & _). rewrite Ens in Hns |- *.
  destruct (ids_onto _ _ Hids _ _ Hns) as (rel & Hrel & _). rewrite (ids_shape _ _ Hids _ _ _ Hrel). split.
  - rewrite existing_reserved. apply relationship_id_reserved.
  - intros Hinv. apply relationship_id_not_inverse. by eapply Hinv.
Qed.

Lemma dict_get_equiv {V} (d d' : dict string V) : d ≡ d' -> forall x k, dict_get_default x k d = dict_get_default x k d'.
Proof. intros H x k. unfold dict_get_default. by rewrite (H k). Qed.

Lemma builtin_reverse item :
  item ∈ builtin_relationship_types ->
  exists item', item' ∈ builtin_relationship_types /\ rtp_element_id item' = rtp_reverse_of item /\ rtp_reverse_of item' = rtp_element_id item.
Proof.
  intros Hin. assert (Hall : Forall (fun i => exists i', i' ∈ builtin_relationship_types /\ rtp_element_id i' = rtp_reverse_of i /\ rtp_reverse_of i' = rtp_element_id i)
    builtin_relationship_types); [|by eapply Forall_forall in Hall].
  repeat constructor; (eexists (i3x_relationship _ _); (split; [|by split]); apply (bool_decide_unpack _); by vm_compute).
Qed.

(** C35. For every model that a build returns, the relationship types are listed without an exception. Each type is listed with
    its reverse; every relationship of an element has a type, whose reverse leads back; each graph relationship is listed
    under its namespace; and no id is listed twice as long as no namespace begins like an inverse. *)
Theorem relationship_types_exact sha1_hex client r :
  build sha1_hex client = Ok r ->
  exists items, get_relationship_types_v1 r None = Some items /\
    (forall item, item ∈ items -> exists item', item' ∈ items /\ rtp_element_id item' = rtp_reverse_of item /\ rtp_reverse_of item' = rtp_element_id item) /\
    (forall s n t, related (relationships_by_id r) s n t ->
       exists item, item ∈ items /\ rtp_element_id item = n /\ related (relationships_by_id r) t (rtp_reverse_of item) s) /\
    (forall name uri, graph_relationship_namespace_by_id r !! name = Some uri ->
       exists item, item ∈ items /\ rtp_element_id item = name /\ rtp_namespace_uri item = uri) /\
    ((forall id ns, graph_relationship_namespace_by_id r !! id = Some ns -> startswith "inverseOf_" ns = false) -> NoDup (map rtp_element_id items)).
Proof.
  intros Hr. set (names := py_sorted string_leb (elements (graph_relationship_names r))).
  assert (Hnames : forall name, name ∈ names <-> is_Some (graph_relationship_namespace_by_id r !! name)).
  { intros name. unfold names. rewrite (elem_of_py_sorted string_leb), elem_of_elements. by eapply result_names. }
  destruct (types_of_total r names) as [l Hl]; [by intros name; rewrite Hnames|].
  assert (Hitems : relationship_type_items r = Some (builtin_relationship_types ++ l)) by (unfold relationship_type_items; fold names; by rewrite Hl).
  exists (builtin_relationship_types ++ l). unfold get_relationship_types_v1, get_relationship_types. rewrite Hitems. split; [done|].
  pose proof (fun item => items_elem r _ item Hitems) as Helem.
  assert (Hgraph : forall name uri, graph_relationship_namespace_by_id r !! name = Some uri ->
    graph_relationship r name uri (dict_get_default name name (graph_relationship_display_name_by_id r))).
  { intros name uri Huri. split; [by apply (result_names sha1_hex client)|]. split; [|done]. exact (proj1 (result_ids _ _ _ _ Hr (mk_is_Some _ _ Huri))). }
  destruct (result_relationships _ _ _ Hr) as (Hrel & _ & _). destruct (result_graph _ _ _ Hr) as (t & ids & ns & _ & Hids & Ens & _ & _ & Hg & Hall).
  split_and!.
  - intros item Hin. apply Helem in Hin as [Hin|(name & uri & d & Hn & Hin)].
    + destruct (builtin_reverse item Hin) as (item' & Hin' & H). exists item'. split; [apply elem_of_app; by left|done].
    + assert (Hboth : forall i, i ∈ graph_relationship_types name uri d -> i ∈ builtin_relationship_types ++ l) by (intros i Hi; apply Helem; right; eauto 10).
      apply elem_of_cons in Hin as [-> |Hin]; [eexists; split; [apply Hboth; right; by left|by split]|].
      apply elem_of_cons in Hin as [-> |Hin]; [eexists; split; [apply Hboth; by left|by split]|by apply elem_of_nil in Hin].
  - intros s n tgt. rewrite Hrel. intros Hc. assert (Hback : forall back, related_cases (fun x y => y ∈ default [] (hierarchy_children_by_id r !! x))
      (fun x y => y ∈ default [] (composition_children_by_id r !! x)) (fun x n y => (n, y) ∈ default [] (graph_related_by_id r !! x)) tgt back s ->
      related (relationships_by_id r) tgt back s) by (intros back; by rewrite Hrel).
    assert (Hpair : forall x y rel, (rel, y) ∈ default [] (graph_related_by_id r !! x) ->
      forall i, i ∈ graph_relationship_types rel (default ε (graph_relationship_namespace_by_id r !! rel)) (dict_get_default rel rel (graph_relationship_display_name_by_id r)) ->
      i ∈ builtin_relationship_types ++ l).
    { intros x y rel Hin i Hi. rewrite Hg, (relation_names _ _ _ _ _ _ _ _ Hids Hall) in Hin. destruct Hin as (nm & u & Hu & _).
      rewrite <-Ens in Hu. apply Helem. right. exists rel, u, (dict_get_default rel rel (graph_relationship_display_name_by_id r)). split; [by apply Hgraph|]. by rewrite Hu in Hi. }
    destruct Hc as [[-> H]|[[-> H]|[[-> H]|[[-> H]|[H|(rel & -> & H)]]]]].
    + exists (i3x_relationship "HasChildren" "HasParent"). split_and!; [apply elem_of_app; left; right; by left|done|]. apply Hback. right. by left.
    + exists (i3x_relationship "HasParent" "HasChildren"). split_and!; [apply elem_of_app; left; by left|done|]. apply Hback. by left.
    + exists (i3x_relationship "HasComponent" "ComponentOf"). split_and!; [apply elem_of_app; left; do 2 right; by left|done|]. apply Hback. do 3 right. by left.
    + exists (i3x_relationship "ComponentOf" "HasComponent"). split_and!; [apply elem_of_app; left; do 3 right; by left|done|]. apply Hback. do 2 right. by left.
    + eexists. split_and!; [eapply (Hpair s tgt n H); by left|done|]. apply Hback. do 5 right. by exists n.
    + eexists. split_and!; [eapply (Hpair tgt s rel H); right; by left|done|]. apply Hback. do 4 right. by left.
  - intros name uri Huri. eexists. split_and!; [apply Helem; right; eexists name, uri, _; split; [by apply Hgraph|by left]|done|done].
  - intros Hinv. rewrite List.map_app, (types_of_ids _ _ _ Hl).
    assert (Hok : forall name, name ∈ names -> name ∉ existing_relationships /\ startswith "inverseOf_" name = false).
    { intros name Hn%Hnames. destruct (result_ids _ _ _ _ Hr Hn) as [H1 H2]. split; [done|by apply H2]. }
    assert (Hfilter : forall l, (forall name, name ∈ l -> name ∈ names) -> List.filter (fun name => negb (bool_decide (name ∈ existing_relationships))) l = l).
    { intros l0. induction l0 as [|x l0 IH]; intros Hl0; [done|]. cbn [List.filter]. rewrite bool_decide_false by (apply Hok, Hl0; by left). cbn [negb]. f_equal. apply IH. intros y Hy. apply Hl0. by right. }
    rewrite Hfilter by done. apply NoDup_app. split_and!.
    + apply (bool_decide_unpack _). by vm_compute.
    + intros x Hx Hy%list_elem_of_In. apply in_flat_map in Hy as (n & Hn%list_elem_of_In & Hy). destruct (Hok n Hn) as [Hne _].
      destruct Hy as [<- |[<- |[]]]; [done|]. change (map rtp_element_id builtin_relationship_types) with existing_relationships in Hx.
      rewrite existing_reserved in Hx. exact (reserved_not_inverse _ n Hx eq_refl).
    + apply ids_nodup; [|intros n Hn; by apply Hok]. unfold names. rewrite py_sorted_perm. apply NoDup_elements.
Qed.

Lemma relationship_types_exact_witness :
  build demo_hash demo_client = Ok demo_result /\
  exists items, get_relationship_types_v1 demo_result None = Some items /\
    map rtp_element_id items = ["HasParent"; "HasChildren"; "HasComponent"; "ComponentOf"; "Feeds"; "inverseOf_Feeds"; "OrganizedBy"; "inverseOf_OrganizedBy"] /\
    exists item, item ∈ items /\ rtp_element_id item = "inverseOf_Feeds" /\
      related (relationships_by_id demo_result) "asset-urn:x;s=M" (rtp_reverse_of item) "asset-urn:x;s=B".
Proof.
  split; [exact demo_builds|]. destruct (relationship_types_exact demo_hash demo_client demo_result demo_builds) as (items & Hitems & _ & Hrel & _ & _).
  exists items. split; [exact Hitems|]. split.
  - assert (H : map rtp_element_id <$> get_relationship_types_v1 demo_result None =
      Some ["HasParent"; "HasChildren"; "HasComponent"; "ComponentOf"; "Feeds"; "inverseOf_Feeds"; "OrganizedBy"; "inverseOf_OrganizedBy"]) by (vm_compute; reflexivity).
    rewrite Hitems in H. by injection H.
  - apply (Hrel "asset-urn:x;s=B" "inverseOf_Feeds" "asset-urn:x;s=M"). unfold related. refine (bool_decide_unpack _ _). vm_compute. exact I.
Defined.

(** Models with the same content have the same relationship types: the revision of the model tags the list rightly. *)
Theorem relationship_types_stable m m' uri :
  same_content m m' -> get_relationship_types_v1 m uri = get_relationship_types_v1 m' uri.
Proof.
  intros [_ _ _ _ _ Hnames Hns Hdisplay]. unfold get_relationship_types_v1, get_relationship_types, relationship_type_items. rewrite Hnames.
  enough (forall names, relationship_types_of m names = relationship_types_of m' names) as H by by rewrite H.
  intros names. induction names as [|name names IH]; [done|]. cbn [relationship_types_of]. by rewrite IH, (Hns name), (dict_get_equiv _ _ Hdisplay).
Qed.

(** ** Listings that are not sent again *)

Section Listings.
Context (sha256_hex : string -> string) (model_token : BuildResult -> string) (model_dump_json : ObjectTypeResponse -> string).
Context (lists : nat -> list OpcUaObjectTypeInfo) (builds : BuildResult -> list OpcUaNamespaceInfo -> list OpcUaObjectTypeInfo -> ObjectTypeContext -> Prop).
Context (Hhex : hex_digest sha256_hex).

Abbreviation revision_of := (object_type_context_revision sha256_hex model_dump_json).
Abbreviation was_built := (once_built sha256_hex model_dump_json builds).

Lemma revisions_lookup parts parts' name :
  is_revision (name, ε) = true -> dict_wf parts -> dict_wf parts' -> revisions parts = revisions parts' -> parts !! name = parts' !! name.
Proof.
  intros Hname Hw Hw' H%revisions_perm. apply option_eq. intros v.
  assert (Hin : forall d : Parts, dict_wf d -> d !! name = Some v <-> (name, v) ∈ List.filter is_revision (dict_items d)).
  { intros d Hd. rewrite elem_of_filter_list. split; [intros Hv; split; [by apply dict_lookup_items|exact Hname]|intros [Hv _]; by apply dict_items_lookup]. }
  rewrite !Hin by done. by rewrite H.
Qed.

Lemma hexdigest_truthy text : truthy (hexdigest32 sha256_hex text) = true.
Proof using Hhex.
  destruct (Hhex (of_chars text)) as [Hlen _]. unfold hexdigest32. by destruct (chars (sha256_hex (of_chars text))).
Qed.

(** What a request that was given this context has recorded. *)
Definition parts_with (c : ObjectTypeContext) (parts : Parts) : Parts := <[OBJECT_TYPES_PART := revision_of c]> parts.

(** Two contexts that the digests tell apart, and whose items the texts tell apart. *)
Record distinguishable (parts parts' : Parts) (c c' : ObjectTypeContext) : Prop := {
  ds_parts : no_collision sha256_hex (part_text (parts_with c parts)) (part_text (parts_with c' parts'));
  ds_contexts : no_collision sha256_hex (digest_text (context_values sha256_hex model_dump_json c)) (digest_text (context_values sha256_hex model_dump_json c'));
  ds_items : forall i i', i ∈ oc_items c -> i' ∈ oc_items c' -> model_dump_json i = model_dump_json i' -> i = i';
}.

Lemma dump_texts_inj (l l' : list ObjectTypeResponse) :
  (forall i i', i ∈ l -> i' ∈ l' -> model_dump_json i = model_dump_json i' -> i = i') -> map model_dump_json l = map model_dump_json l' -> l = l'.
Proof.
  revert l'. induction l as [|i l IH]; intros [|i' l'] Hinj H; try done. injection H as Hi H. f_equal.
  - apply Hinj; [by left|by left|done].
  - apply IH; [intros j j' Hj Hj'; apply Hinj; by right|done].
Qed.

(** The tag of one answer matches another: the lists are the same. *)
Lemma matching_listings method etag parts parts' c c' namespace_uri :
  dict_wf parts -> dict_wf parts' -> distinguishable parts parts' c c' ->
  representation_etag sha256_hex (parts_with c parts) = Some etag ->
  not_modified sha256_hex method (Some etag) (Some (parts_with c' parts')) = true ->
  listing namespace_uri c = listing namespace_uri c'.
Proof using Hhex.
  intros Hw Hw' [Hparts Hctx Hitems] Hetag. unfold not_modified. destruct (is_read method); [|done].
  destruct (representation_etag sha256_hex (parts_with c' parts')) as [etag'|] eqn:Hetag'; [|done].
  rewrite (etag_eq _ _ _ Hetag) at 1. rewrite (etag_eq _ _ _ Hetag'), (tag_matches _ Hhex). intros H%bool_decide_eq_true.
  assert (Heq : etag = etag') by (rewrite (etag_eq _ _ _ Hetag), (etag_eq _ _ _ Hetag'); by rewrite H).
  apply (etag_identifies sha256_hex _ _ _ _ Hparts Hetag Hetag') in Heq.
  apply (revisions_lookup _ _ OBJECT_TYPES_PART eq_refl) in Heq; [|by apply dict_wf_insert..].
  unfold parts_with in Heq. rewrite !dict_lookup_insert_eq in Heq. injection Heq as Heq.
  destruct (revision_identifies_context _ _ _ _ Hctx Heq) as (Hinfos & Hdumps & _).
  assert (oc_items c = oc_items c') as Hl by (by apply dump_texts_inj). unfold listing. by rewrite Hinfos, Hl.
Qed.

Lemma record_types c parts : record_revision OBJECT_TYPES_PART (revision_of c) (Some parts) = Some (parts_with c parts).
Proof using Hhex. unfold record_revision, object_type_context_revision, content_revision. by rewrite hexdigest_truthy. Qed.

(** C36. A client asks for the object types again with the tag that came with its list. If it is told that nothing changed, the
    list is the one that it would have been sent now, whatever requests, refreshes and reloads ran in between and whether or
    not the contexts were current; otherwise it is sent the list of a context that was built. So long as the digests do not
    collide on the contexts in question. *)
Theorem object_types_revalidated method namespace_uri c parts parts' model etag :
  dict_wf parts -> dict_wf parts' -> representation_etag sha256_hex (parts_with c parts) = Some etag ->
  (forall c', was_built c' -> distinguishable parts parts' c c') ->
  sound (client_ok lists builds) (type_ok sha256_hex model_token model_dump_json lists builds)
    (get_object_types_v1 sha256_hex model_token model_dump_json method (Some etag) (Some parts') model namespace_uri) (fun r =>
    match r with
    | (Ok NotModified, now) => exists c', was_built c' /\ now = Some (parts_with c' parts') /\ listing namespace_uri c = listing namespace_uri c'
    | (Ok (Answered l), now) => exists c', was_built c' /\ now = Some (parts_with c' parts') /\ l = listing namespace_uri c'
    | (Err e, now) => e = opcua_error "read object types" /\ now = Some parts'
    end).
Proof using Hhex.
  intros Hw Hw' Hetag Hds. unfold get_object_types_v1. eapply sound_bind; [by eapply sound_types|]. intros [[c' now]|e] H; [|by cbn].
  destruct H as [Hb ->]. rewrite record_types. cbn [sound]. destruct (not_modified _ _ _ _) eqn:Hn; exists c'; (split_and!; [done|done|]); [|done].
  eapply matching_listings; [exact Hw|exact Hw'|by apply Hds|exact Hetag|exact Hn].
Qed.
End Listings.

(** *** Two versions of the types *)

(** A digest for examples that tells these texts apart. *)
Definition checksum (text : string) : Z := fold_left (fun h c => (h * 131 + code c) mod 2 ^ 128) (chars text) 7.
Definition checksum_hex (text : string) : string := of_chars (hex32 (checksum text) ++ replicate 32 "0"%char).

Lemma checksum_bound text : 0 <= checksum text < 2 ^ 128.
Proof.
  unfold checksum. generalize (chars text). intros l. rewrite <-(reverse_involutive l). generalize (reverse l). clear. intros l.
  induction l as [|c l IH]; [done|]. rewrite reverse_cons, fold_left_app. cbn [fold_left]. apply Z.mod_pos_bound. lia.
Qed.

Lemma checksum_hex_digest : hex_digest checksum_hex.
Proof.
  intros text. pose proof (checksum_bound text) as Hb. unfold checksum_hex. rewrite chars_of_chars. split.
  - by rewrite length_app, length_replicate, hex32_length.
  - apply forallb_forall. intros c Hc%list_elem_of_In. apply elem_of_app in Hc as [Hc|Hc]; [|by apply elem_of_replicate in Hc as [-> _]].
    pose proof (hex32_digits (checksum text) (proj1 Hb)) as Hd. rewrite Forall_forall in Hd. eapply base_digit_all; [|reflexivity|by apply Hd]. by vm_compute.
Qed.

Definition sample_version (id : nat) : ObjectTypeContext :=
  let built := sample_build (rooted []) sample_infos (sample_lists id) in set_revision (object_type_context_revision checksum_hex sample_item built) built.

(** The constructions of either version. *)
Definition sample_versions (m : BuildResult) (i : list OpcUaNamespaceInfo) (t : list OpcUaObjectTypeInfo) (c : ObjectTypeContext) : Prop :=
  exists id, (id = 0 \/ id = 1)%nat /\ c = sample_build (rooted []) sample_infos (sample_lists id).

Lemma sample_distinguishable parts id id' :
  (id = 0 \/ id = 1)%nat -> (id' = 0 \/ id' = 1)%nat -> parts = <[ETAG_ENABLED := "1"]> ∅ ->
  distinguishable checksum_hex sample_item parts parts (sample_version id) (sample_version id').
Proof.
  intros Hid Hid' ->. split.
  - destruct Hid as [-> | ->], Hid' as [-> | ->]; intros H; [reflexivity|exfalso; by vm_compute in H..|reflexivity].
  - destruct Hid as [-> | ->], Hid' as [-> | ->]; intros H; [reflexivity|exfalso; by vm_compute in H..|reflexivity].
  - destruct Hid as [-> | ->], Hid' as [-> | ->]; intros i i' ->%list_elem_of_singleton ->%list_elem_of_singleton H; [reflexivity|exfalso; by vm_compute in H..|reflexivity].
Qed.

Definition opted_in : Parts := <[ETAG_ENABLED := "1"]> ∅.

Definition version_tag (id : nat) : string := default ε (representation_etag checksum_hex (parts_with checksum_hex sample_item (sample_version id) opted_in)).

(** The client holds the first version: it is told so while the server has it, and is sent the second one after a reload. *)
Example revalidated_listing :
  let ask id := run sample_client_answer (get_object_types_v1 checksum_hex sample_token sample_item "GET" (Some (version_tag 0)) (Some opted_in) (rooted []) None) id empty_types in
  (ask 0%nat).2.1 = Ok NotModified /\
  match (ask 1%nat).2.1 with Ok (Answered l) => map otr_element_id l = ["ns=1;i=2"] | _ => False end.
Proof. by vm_compute. Qed.

Lemma object_types_revalidated_witness :
  (dict_wf opted_in /\ representation_etag checksum_hex (parts_with checksum_hex sample_item (sample_version 0) opted_in) = Some (version_tag 0)) /\
  sound (client_ok sample_lists sample_versions) (type_ok checksum_hex sample_token sample_item sample_lists sample_versions)
    (get_object_types_v1 checksum_hex sample_token sample_item "GET" (Some (version_tag 0)) (Some opted_in) (rooted []) None) (fun r =>
    match r with
    | (Ok NotModified, now) => exists c', once_built checksum_hex sample_item sample_versions c' /\
        now = Some (parts_with checksum_hex sample_item c' opted_in) /\ listing None (sample_version 0) = listing None c'
    | (Ok (Answered l), now) => exists c', once_built checksum_hex sample_item sample_versions c' /\
        now = Some (parts_with checksum_hex sample_item c' opted_in) /\ l = listing None c'
    | (Err e, now) => e = opcua_error "read object types" /\ now = Some opted_in
    end).
Proof.
  assert (Hw : dict_wf opted_in) by (apply (bool_decide_unpack _); by vm_compute).
  assert (Ht : representation_etag checksum_hex (parts_with checksum_hex sample_item (sample_version 0) opted_in) = Some (version_tag 0)) by (vm_compute; reflexivity).
  split; [by split|]. apply (object_types_revalidated checksum_hex sample_token sample_item sample_lists sample_versions checksum_hex_digest
    "GET" None (sample_version 0) opted_in opted_in (rooted []) (version_tag 0) Hw Hw Ht).
  intros c' (m & i & t & built & (id & Hid & ->) & ->). apply (sample_distinguishable opted_in 0 id); [by left|exact Hid|reflexivity].
Defined.
End ModelQuerySpec.
