(* ===== verification/ModelMetrics.v ===== *)
(** Diagnostics of the model ([api/v1/model_routes.py], [_build_model_metrics] and [_namespace_index_from_node_id] of
    [api/v1/monolithic.py]): what the routes count.

    The durations and the time of the build are numbers that the builder measured; they are passed on and left out. *)

From S2P Require Import ModelTools.
From S2P Require Export NodeIds ModelTypes.

Module ModelMetrics.
Export NodeIds.
Import ModelTools.
Local Open Scope nat_scope.

Abbreviation Counter := (dict string nat).

(** [counter[key] = counter.get(key, 0) + n]. *)
Definition add_counted (counter : Counter) (key : string) (n : nat) : Counter := <[key := default 0 (counter !! key) + n]> counter.

(** [_increment_counter]. *)
Definition increment_counter (counter : Counter) (key : string) : Counter := add_counted counter key 1.

(** The counter of a loop that counts one key per element. *)
Definition count_keys (keys : list string) : Counter := fold_left increment_counter keys ∅.

Record ModelVolumeMetrics := { vm_total_nodes : nat; vm_root_nodes : nat; vm_by_kind : Counter }.

Record ModelRelationshipMetrics := {
  rm_hierarchy_edges : nat; rm_composition_edges : nat; rm_graph_edges : nat; rm_unique_graph_relationship_names : nat; rm_by_relationship_name : Counter;
}.

Record ModelQualityMetrics := { qm_confidence : Counter; qm_semantic_role : Counter; qm_low_confidence_nodes : nat; qm_unknown_semantic_role_nodes : nat }.

Record ModelCoverageMetrics := { cm_readable_properties : nat; cm_invokable_actions : nat; cm_typed_instance_groups : nat; cm_typed_instances : nat }.

Record ModelContextMetrics := {
  xm_namespace_counts : Counter; xm_nodes_without_namespace : nat; xm_applied_profile_counts : Counter; xm_nodes_without_profiles : nat;
}.

Record ModelMetricsResponse := {
  mm_volume : ModelVolumeMetrics; mm_relationships : ModelRelationshipMetrics; mm_quality : ModelQualityMetrics;
  mm_coverage : ModelCoverageMetrics; mm_context : ModelContextMetrics;
}.

Section Metrics.
Context (model : BuildResult).

Definition node_confidence (entry : string * ModelNode) : string :=
  confidence_str (default (n_mapping_confidence entry.2) (mapping_confidence_by_id model !! entry.1)).

Definition node_semantic_role (entry : string * ModelNode) : string :=
  role_str (default (n_semantic_role entry.2) (semantic_role_by_id model !! entry.1)).

(** [isinstance(uri, str) and uri.strip()]. *)
Definition known_namespace (id : string) : option string :=
  match namespace_uri_by_id model !! id with
  | Some (Some uri) => if truthy (strip uri) then Some uri else None
  | _ => None
  end.

(** The profiles of an element that count, each once. *)
Definition profiles_of (id : string) : list string := remove_dups (List.filter truthy (default [] (applied_profile_ids_by_id model !! id))).

Definition count_relationships (counter : Counter) (per_source : dict string (list string)) : Counter :=
  fold_left (fun counter entry => if truthy entry.1 then add_counted counter entry.1 (length entry.2) else counter) (dict_items per_source) counter.

Definition total_length {A} (d : dict string (list A)) : nat := sum_list_with length (dict_values d).

(** [_build_model_metrics]. *)
Definition build_model_metrics : ModelMetricsResponse :=
  let entries := dict_items (nodes_by_id model) in
  let ids := dict_keys (nodes_by_id model) in
  let confidence_counts := count_keys (map node_confidence entries) in
  let semantic_role_counts := count_keys (map node_semantic_role entries) in
  {| mm_volume :=
       {| vm_total_nodes := dict_len (nodes_by_id model); vm_root_nodes := length (root_ids model);
          vm_by_kind := count_keys (map (fun node => kind_str (n_kind node)) (dict_values (nodes_by_id model))) |};
     mm_relationships :=
       {| rm_hierarchy_edges := total_length (hierarchy_children_by_id model); rm_composition_edges := total_length (composition_children_by_id model);
          rm_graph_edges := total_length (graph_related_by_id model);
          rm_unique_graph_relationship_names := size (graph_relationship_names model);
          rm_by_relationship_name := fold_left count_relationships (dict_values (relationships_by_id model)) ∅ |};
     mm_quality :=
       {| qm_confidence := confidence_counts; qm_semantic_role := semantic_role_counts;
          qm_low_confidence_nodes := default 0 (confidence_counts !! "low"); qm_unknown_semantic_role_nodes := default 0 (semantic_role_counts !! "unknown") |};
     mm_coverage :=
       {| cm_readable_properties := dict_len (property_to_node model); cm_invokable_actions := dict_len (action_to_method model);
          cm_typed_instance_groups := dict_len (instances_by_type_id model); cm_typed_instances := total_length (instances_by_type_id model) |};
     mm_context :=
       {| xm_namespace_counts := count_keys (omap known_namespace ids);
          xm_nodes_without_namespace := length (List.filter (fun id => bool_decide (known_namespace id = None)) ids);
          xm_applied_profile_counts := fold_left (fun counter id => fold_left increment_counter (profiles_of id) counter) ids ∅;
          xm_nodes_without_profiles := length (List.filter (fun id => bool_decide (profiles_of id = [])) ids) |} |}.

(** ** Nodes without a namespace *)

Record ModelNamespaceGapItem := {
  gi_element_id : string; gi_display_name : string; gi_kind : NodeKind; gi_source_node_id : string; gi_source_namespace_index : option Z;
}.

Record ModelNamespaceGapResponse := { gr_total_missing : nat; gr_by_kind : Counter; gr_by_namespace_index : Counter; gr_items : list ModelNamespaceGapItem }.

(** [_namespace_index_from_node_id]: [^ns=(\d+);], or the standard namespace before [^[isgb]=]. *)
Definition namespace_index_from_node_id (node_id : string) : option Z :=
  match match_index_prefix (chars node_id) with
  | (Some digits, _) => Some (digits_value digits)
  | (None, c :: e :: _) => if (bool_decide (c ∈ chars "isgb") && ceqb e "="%char)%bool then Some 0%Z else None
  | (None, _) => None
  end.

Definition gap_item (node : ModelNode) : ModelNamespaceGapItem :=
  {| gi_element_id := n_id node; gi_display_name := n_name node; gi_kind := n_kind node; gi_source_node_id := n_source_node_id node;
     gi_source_namespace_index := namespace_index_from_node_id (n_source_node_id node) |}.

Definition namespace_key (node : ModelNode) : string :=
  match namespace_index_from_node_id (n_source_node_id node) with Some index => str_of_int index | None => "unknown" end.

(** [key=lambda item: (item.kind, item.displayName, item.elementId)]. *)
Definition gap_leb (i j : ModelNamespaceGapItem) : bool :=
  if bool_decide (gi_kind i = gi_kind j) then
    if bool_decide (gi_display_name i = gi_display_name j) then string_leb (gi_element_id i) (gi_element_id j)
    else string_leb (gi_display_name i) (gi_display_name j)
  else string_leb (kind_str (gi_kind i)) (kind_str (gi_kind j)).

(** The nodes that the loop does not skip. *)
Definition nodes_without_namespace : list ModelNode :=
  omap (fun entry => if bool_decide (known_namespace entry.1 = None) then Some entry.2 else None) (dict_items (nodes_by_id model)).

(** [GET /model/namespace-gaps]. *)
Definition get_model_namespace_gaps (limit : nat) : ModelNamespaceGapResponse :=
  let missing := map gap_item nodes_without_namespace in
  {| gr_total_missing := length missing;
     gr_by_kind := count_keys (map (fun node => kind_str (n_kind node)) nodes_without_namespace);
     gr_by_namespace_index := count_keys (map namespace_key nodes_without_namespace);
     gr_items := take limit (py_sorted gap_leb missing) |}.
End Metrics.
End ModelMetrics.

(** ** What the diagnostics of a model mean: every count is the number of the elements that it names, the counts of one kind add
    up to the elements, and the gaps that one route lists are those that the other counts. *)
Local Open Scope nat_scope.

Module ModelMetricsSpec.
Import ModelTools ModelMetrics.

(** ** Counters *)

(** How often [x] satisfies [p] in a list. *)
Definition number {A} (p : A -> bool) (l : list A) : nat := length (List.filter p l).

Lemma number_cons {A} (p : A -> bool) x l : number p (x :: l) = (if p x then 1 else 0) + number p l.
Proof. unfold number. cbn. by destruct (p x). Qed.

Lemma number_app {A} (p : A -> bool) l l' : number p (l ++ l') = number p l + number p l'.
Proof. unfold number. by rewrite List.filter_app, length_app. Qed.

Lemma number_map {A B} (f : A -> B) (p : B -> bool) l : number p (map f l) = number (fun x => p (f x)) l.
Proof. induction l as [|x l IH]; [done|]. cbn [map]. by rewrite !number_cons, IH. Qed.

Lemma number_ext {A} (p q : A -> bool) l : (forall x, p x = q x) -> number p l = number q l.
Proof. intros H. induction l as [|x l IH]; [done|]. by rewrite !number_cons, H, IH. Qed.

Definition count_of (counter : Counter) (key : string) : nat := default 0 (counter !! key).
Definition total (counter : Counter) : nat := sum_list (dict_values counter).

Lemma count_add counter key n k : count_of (add_counted counter key n) k = (if bool_decide (key = k) then n else 0) + count_of counter k.
Proof. unfold count_of, add_counted. rewrite dict_lookup_insert. case_decide; case_bool_decide; subst; cbn; (done || lia). Qed.

Lemma total_items (counter : list (string * nat)) (key : string) n :
  sum_list (items_insert key (default 0 (items_lookup key counter) + n) counter).*2 = n + sum_list counter.*2.
Proof.
  induction counter as [|[k v] counter IH]; cbn; [lia|]. case_bool_decide; cbn; [lia|]. rewrite IH. lia.
Qed.

Lemma total_add counter key n : total (add_counted counter key n) = n + total counter.
Proof. destruct counter as [l]. apply total_items. Qed.

Lemma count_fold keys counter k :
  count_of (fold_left increment_counter keys counter) k = number (fun x => bool_decide (x = k)) keys + count_of counter k.
Proof.
  revert counter. induction keys as [|x keys IH]; intros counter; [done|]. cbn [fold_left]. rewrite IH, number_cons. unfold increment_counter.
  rewrite count_add. lia.
Qed.

Lemma total_fold keys counter : total (fold_left increment_counter keys counter) = length keys + total counter.
Proof. revert counter. induction keys as [|x keys IH]; intros counter; [done|]. cbn [fold_left length]. rewrite IH. unfold increment_counter. rewrite total_add. lia. Qed.

Lemma count_keys_exact keys k : count_of (count_keys keys) k = number (fun x => bool_decide (x = k)) keys.
Proof. unfold count_keys. rewrite count_fold. change (count_of ∅ k) with 0. lia. Qed.

Lemma count_keys_total keys : total (count_keys keys) = length keys.
Proof. unfold count_keys. rewrite total_fold. change (total ∅) with 0. lia. Qed.

(** Each element of [l] counts the keys [f] of it, each once. *)
Lemma count_nested {A} (f : A -> list string) l counter k :
  (forall x, NoDup (f x)) ->
  count_of (fold_left (fun counter x => fold_left increment_counter (f x) counter) l counter) k =
  number (fun x => bool_decide (k ∈ f x)) l + count_of counter k.
Proof.
  intros Hnd. revert counter. induction l as [|x l IH]; intros counter; [done|]. cbn [fold_left]. rewrite IH, count_fold, number_cons.
  enough (number (fun y => bool_decide (y = k)) (f x) = if bool_decide (k ∈ f x) then 1 else 0) by lia.
  specialize (Hnd x). induction Hnd as [|y keys Hy Hnd IHk]; [done|]. rewrite number_cons, IHk. case_bool_decide as E1; case_bool_decide as E2; case_bool_decide as E3; try done; set_solver.
Qed.

Lemma count_relationships_exact per_source counter name :
  truthy name = true ->
  count_of (count_relationships counter per_source) name =
  sum_list_with (fun entry => if bool_decide (entry.1 = name) then length entry.2 else 0) (dict_items per_source) + count_of counter name.
Proof.
  intros Hname. unfold count_relationships. revert counter. induction (dict_items per_source) as [|[n targets] l IH]; intros counter; [done|].
  cbn [fold_left sum_list_with fst snd]. rewrite IH. destruct (truthy n) eqn:Hn; [rewrite count_add; lia|].
  rewrite bool_decide_false by congruence. lia.
Qed.

Lemma count_all_relationships (sources : list (dict string (list string))) counter name :
  truthy name = true ->
  count_of (fold_left count_relationships sources counter) name =
  sum_list_with (fun per_source => sum_list_with (fun entry => if bool_decide (entry.1 = name) then length entry.2 else 0) (dict_items per_source)) sources + count_of counter name.
Proof.
  intros Hname. revert counter. induction sources as [|d sources IH]; intros counter; [done|]. cbn [fold_left sum_list_with].
  rewrite IH, (count_relationships_exact d counter name Hname). lia.
Qed.

Lemma with_and_without {A} (f : A -> option string) (l : list A) :
  length (omap f l) + number (fun x => bool_decide (f x = None)) l = length l.
Proof. induction l as [|x l IH]; [done|]. rewrite number_cons. cbn. destruct (f x); cbn; lia. Qed.

Lemma number_omap {A B} (f : A -> option B) (p : B -> bool) l :
  number p (omap f l) = number (fun x => match f x with Some y => p y | None => false end) l.
Proof. induction l as [|x l IH]; [done|]. rewrite number_cons. change (omap f (x :: l)) with (match f x with Some y => y :: omap f l | None => omap f l end).
  destruct (f x); [rewrite number_cons|]; by rewrite IH.
Qed.

(** ** The order of gaps *)

Lemma kind_str_inj k k' : kind_str k = kind_str k' -> k = k'.
Proof. by destruct k, k'. Qed.

Lemma gap_leb_total i j : gap_leb i j = true \/ gap_leb j i = true.
Proof.
  unfold gap_leb. destruct (decide (gi_kind i = gi_kind j)) as [Hk|Hk].
  - rewrite !(bool_decide_true (gi_kind _ = gi_kind _)) by congruence. destruct (decide (gi_display_name i = gi_display_name j)).
    + rewrite !bool_decide_true by congruence. apply string_leb_total.
    + rewrite !bool_decide_false by congruence. apply string_leb_total.
  - rewrite !(bool_decide_false (gi_kind _ = gi_kind _)) by congruence. apply string_leb_total.
Qed.

Lemma gap_leb_trans i j k : gap_leb i j = true -> gap_leb j k = true -> gap_leb i k = true.
Proof.
  unfold gap_leb. repeat case_bool_decide; try congruence; intros Hij Hjk; try (by eapply string_leb_trans).
  all: exfalso; match goal with
       | Hn : gi_kind _ <> gi_kind _ |- _ => apply Hn, kind_str_inj, string_leb_antisym; congruence
       | Hn : gi_display_name _ <> gi_display_name _ |- _ => apply Hn, string_leb_antisym; congruence
       end.
Qed.

(** ** Metrics and gaps *)

Section Model.
Context (model : BuildResult).

Definition entries : list (string * ModelNode) := dict_items (nodes_by_id model).

Lemma gaps_number : length (nodes_without_namespace model) = number (fun id => bool_decide (known_namespace model id = None)) (dict_keys (nodes_by_id model)).
Proof.
  unfold nodes_without_namespace, dict_keys. change ((dict_items (nodes_by_id model)).*1) with (map fst (dict_items (nodes_by_id model))). rewrite number_map.
  induction (dict_items (nodes_by_id model)) as [|e l IH]; [done|]. rewrite number_cons, <-IH. cbn [omap list_omap]. by case_bool_decide.
Qed.

(** The metrics count what they name: the nodes by kind, by confidence, by role and by namespace add up to all nodes, each
    count is the number of the nodes in question, a relationship is counted with all its targets and a profile once per node.
    The gaps are the nodes that the metrics count without namespace: by kind and by index they add up to all of them, and the
    answer lists the first ones in the order of kind, name and id. *)
Theorem metrics_exact limit :
  let m := build_model_metrics model in
  let gaps := get_model_namespace_gaps model limit in
  let all := vm_total_nodes (mm_volume m) in
  (all = length entries /\ total (vm_by_kind (mm_volume m)) = all /\ total (qm_confidence (mm_quality m)) = all /\
   total (qm_semantic_role (mm_quality m)) = all /\
   total (xm_namespace_counts (mm_context m)) + xm_nodes_without_namespace (mm_context m) = all) /\
  (forall k, count_of (vm_by_kind (mm_volume m)) (kind_str k) = number (fun e => bool_decide (n_kind e.2 = k)) entries) /\
  (forall uri, count_of (xm_namespace_counts (mm_context m)) uri = number (fun e => bool_decide (known_namespace model e.1 = Some uri)) entries) /\
  (forall p, count_of (xm_applied_profile_counts (mm_context m)) p = number (fun e => bool_decide (p ∈ profiles_of model e.1)) entries) /\
  qm_low_confidence_nodes (mm_quality m) = number (fun e => bool_decide (node_confidence model e = "low")) entries /\
  qm_unknown_semantic_role_nodes (mm_quality m) = number (fun e => bool_decide (node_semantic_role model e = "unknown")) entries /\
  (forall name, truthy name = true -> count_of (rm_by_relationship_name (mm_relationships m)) name =
     sum_list_with (fun d => sum_list_with (fun e => if bool_decide (e.1 = name) then length e.2 else 0) (dict_items d)) (dict_values (relationships_by_id model))) /\
  (gr_total_missing gaps = xm_nodes_without_namespace (mm_context m) /\ total (gr_by_kind gaps) = gr_total_missing gaps /\
   total (gr_by_namespace_index gaps) = gr_total_missing gaps) /\
  (length (gr_items gaps) = limit `min` gr_total_missing gaps /\
   exists rest, gr_items gaps ++ rest ≡ₚ map gap_item (nodes_without_namespace model) /\
     StronglySorted (fun i j => gap_leb i j = true) (gr_items gaps ++ rest)).
Proof.
  cbn zeta. cbn [build_model_metrics mm_volume mm_quality mm_context mm_relationships vm_total_nodes vm_by_kind qm_confidence qm_semantic_role
    xm_namespace_counts xm_nodes_without_namespace xm_applied_profile_counts qm_low_confidence_nodes qm_unknown_semantic_role_nodes rm_by_relationship_name
    get_model_namespace_gaps gr_total_missing gr_by_kind gr_by_namespace_index gr_items].
  rewrite !count_keys_total, !length_map. unfold dict_len, dict_keys, dict_values. rewrite !length_fmap. split_and!; try done.
  - pose proof (with_and_without (known_namespace model) (dict_items (nodes_by_id model)).*1) as Hw. rewrite length_fmap in Hw. exact Hw.
  - intros k. rewrite count_keys_exact, !number_map. apply number_ext. intros e. apply bool_decide_ext. split; [apply kind_str_inj|congruence].
  - intros uri. rewrite count_keys_exact, number_omap, number_map. apply number_ext. intros e. destruct (known_namespace model e.1) as [u|]; [|done].
    apply bool_decide_ext. split; congruence.
  - intros p. rewrite count_nested by (intros id; apply NoDup_remove_dups). change (count_of ∅ p) with 0. rewrite Nat.add_0_r. apply number_map.
  - etrans; [apply (count_keys_exact _ "low")|apply number_map].
  - etrans; [apply (count_keys_exact _ "unknown")|apply number_map].
  - intros name Hname. rewrite count_all_relationships by done. change (count_of ∅ name) with 0. lia.
  - apply gaps_number.
  - rewrite length_take, py_sorted_perm, length_map. lia.
  - exists (drop limit (py_sorted gap_leb (map gap_item (nodes_without_namespace model)))). rewrite take_drop. split; [apply py_sorted_perm|].
    apply py_sorted_sorted; [apply gap_leb_total|intros ? ? ?; apply gap_leb_trans].
Qed.
End Model.
End ModelMetricsSpec.
