(* ===== verification/ModelCache.v ===== *)
(** The model that all requests share ([application/dependencies.py], [bootstrap/app_factory.py]): built on the first request
    or before it by the preload task, and built again by the periodic refresh.

    The lock of [Async] is [model_lock]. The builds and what warms the context of object types ([TypeContext]) are calls; that
    an await of the preload task returns says nothing but that. What the functions log is part of the state. *)

From S2P Require Export HttpCaching Async.
From S2P Require Export TypeContextSpec.

Module ModelCache.
Export HttpCaching.
Local Open Scope async_scope.

(** The messages of the log that tell of a build, with the model. *)
Inductive log_entry := BuildStarted | BuildFinished (m : BuildResult) | PreloadFinished (m : BuildResult) | RefreshFinished (m : BuildResult).

Inductive preload_task := NoPreload | PreloadRunning | PreloadDone.

(** [app.state], newest message first; [as_contexts]: whether there is a cached context of object types. *)
Record AppState := {
  as_model_cache : option BuildResult;
  as_contexts : bool;
  as_preload : preload_task;
  as_builder : bool;
  as_log : list log_entry;
}.

Definition set_model (m : BuildResult) (contexts : bool) (e : log_entry) (s : AppState) : AppState :=
  {| as_model_cache := Some m; as_contexts := contexts; as_preload := as_preload s; as_builder := as_builder s; as_log := e :: as_log s |}.

Definition add_log (e : log_entry) (s : AppState) : AppState :=
  {| as_model_cache := as_model_cache s; as_contexts := as_contexts s; as_preload := as_preload s; as_builder := as_builder s; as_log := e :: as_log s |}.

Definition preload_done (s : AppState) : AppState :=
  {| as_model_cache := as_model_cache s; as_contexts := as_contexts s; as_preload := PreloadDone; as_builder := as_builder s; as_log := as_log s |}.

Inductive model_error := NotInitialized | BuildFailed.

Inductive model_call : Type -> Type :=
  | Build : model_call (outcome unit BuildResult)
  | AwaitPreload : model_call (outcome unit unit)
  | WarmTypes (m : BuildResult) : model_call (outcome unit unit)
  | StartWarming (m : BuildResult) : model_call unit.

Abbreviation method A := (prog AppState model_call A).

Definition preload_running (s : AppState) : bool := match as_preload s with PreloadRunning => true | _ => false end.

(** [await preload_task] if there is one that runs, whatever comes of it. *)
Definition wait_for_preload : method unit :=
  running <- sect (fun s => (s, preload_running s));;
  if running then _ <- call AwaitPreload;; Ret tt else Ret tt.

(** Under the lock: another look, and the build. *)
Definition build_under_lock : method (outcome model_error BuildResult) :=
  cached <- sect (fun s => (s, as_model_cache s));;
  match cached with
  | Some m => Ret (Ok m)
  | None =>
      ready <- sect (fun s => if as_builder s then (add_log BuildStarted s, true) else (s, false));;
      if ready then
        built <- call Build;;
        match built with
        | Ok m => _ <- update (set_model m false (BuildFinished m));; Ret (Ok m)
        | Err _ => Ret (Err BuildFailed)
        end
      else Ret (Err NotInitialized)
  end.

(** [_get_or_build_model]. *)
Definition get_or_build_model' : method (outcome model_error BuildResult) :=
  _ <- wait_for_preload;;
  cached <- sect (fun s => (s, as_model_cache s));;
  match cached with
  | Some m => Ret (Ok m)
  | None => with_lock build_under_lock
  end.

Section Model.
Context (model_revision : BuildResult -> string).

(** [get_or_build_model]: with what the request has recorded. *)
Definition get_or_build_model (parts : option Parts) : method (outcome model_error (BuildResult * option Parts)) :=
  pbind get_or_build_model' (fun r =>
    Ret match r with Ok m => Ok (m, record_revision MODEL_PART (model_revision m) parts) | Err e => Err e end).
End Model.

(** [_run_model_preload]: [false] if the startup fails. The context of object types is warmed here or by a task of its own. *)
Definition run_model_preload (blocking fail_startup : bool) : method bool :=
  built <- call Build;;
  match built with
  | Ok m =>
      _ <- sect (fun s => (set_model m (as_contexts s) (PreloadFinished m) s, tt));;
      _ <- (if blocking then _ <- call (WarmTypes m);; Ret tt else call (StartWarming m));;
      _ <- update preload_done;; Ret true
  | Err _ => _ <- update preload_done;; Ret (negb (fail_startup && blocking))
  end.

(** One round of [_run_periodic_model_refresh]; the old context stays until its tokens differ. *)
Definition refresh_round : method unit :=
  _ <- wait_for_preload;;
  built <- with_lock (
    built <- call Build;;
    match built with
    | Ok m => _ <- sect (fun s => (set_model m (as_contexts s) (RefreshFinished m) s, tt));; Ret (Some m)
    | Err _ => Ret None
    end);;
  match built with
  | Some m => _ <- call (WarmTypes m);; Ret tt
  | None => Ret tt
  end.

Fixpoint refresh_rounds (rounds : nat) : method unit :=
  match rounds with O => Ret tt | S rounds' => _ <- refresh_round;; refresh_rounds rounds' end.
End ModelCache.

(** ** What the shared model promises: requests alone build one model and keep it, and with the preload and the refresh the cache
    is always the newest model that was built. *)
Module ModelCacheSpec.
Import ModelCache.

Definition started (e : log_entry) : Prop := e = BuildStarted.

Definition model_of (e : log_entry) : option BuildResult :=
  match e with BuildStarted => None | BuildFinished m | PreloadFinished m | RefreshFinished m => Some m end.

(** The newest model that the log tells of. *)
Fixpoint newest (log : list log_entry) : option BuildResult :=
  match log with [] => None | e :: log' => match model_of e with Some m => Some m | None => newest log' end end.

Section Model.
Context (model_revision : BuildResult -> string).

(** ** Requests alone *)

Inductive request : method unit -> Prop :=
  | request_model parts : request (pbind (get_or_build_model model_revision parts) (fun _ => Ret tt)).

(** Either nothing was finished, or one build, after which none was started. *)
Definition built_at_most_once (s : AppState) : Prop :=
  match as_model_cache s with
  | None => Forall started (as_log s)
  | Some m => exists log, as_log s = BuildFinished m :: log /\ Forall started log
  end.

(** What a request that does not hold the lock leaves alone. *)
Definition quiet (s s' : AppState) : Prop := s' = s.

Context (resp_ok : forall R, model_call R -> R -> Prop).

Abbreviation steps := (pool_steps resp_ok eq request).

Lemma wait_calm : calm resp_ok built_at_most_once quiet wait_for_preload.
Proof.
  apply calm_sect_bind; [by intros s Hs|]. intros []; [|apply calm_ret]. apply calm_call_bind. intros r _. apply calm_ret.
Qed.

Lemma build_safe : safe resp_ok built_at_most_once quiet true (fun _ => True) build_under_lock (fun h _ _ => h = true).
Proof.
  unfold build_under_lock. apply safe_sect with (Q := fun x s => x = as_model_cache s).
  { intros s s' x Hs _ [= <- <-]. by split_and!. }
  { intros x s s' _ _ Hx Hq. rewrite (Hq eq_refl). done. }
  intros [m|]; [done|]. apply safe_sect with (Q := fun _ s => as_model_cache s = None).
  { intros s s' x Hs Hnone E. symmetry in Hnone. unfold built_at_most_once in *. rewrite Hnone in Hs.
    destruct (as_builder s); injection E as <- <-; cbn; rewrite Hnone; (split_and!; [|done|done]); [by constructor|done]. }
  { intros x s s' _ _ Hx Hq. by rewrite (Hq eq_refl). }
  intros []; [|done]. intros [m|e] _; [|done]. apply safe_sect with (Q := fun _ _ => True); [|done|done].
  intros s s' x Hs Hnone [= <- _]. unfold built_at_most_once in Hs. rewrite Hnone in Hs. split_and!; [|done|done]. by exists (as_log s).
Qed.

Lemma request_safe p : request p -> safe_task resp_ok built_at_most_once quiet p.
Proof.
  intros [parts]. unfold safe_task. assert (Hcalm : calm resp_ok built_at_most_once quiet (pbind (get_or_build_model model_revision parts) (fun _ => Ret tt))); [|apply Hcalm].
  apply calm_bind; [|intros r; apply calm_ret]. apply calm_bind; [|intros r; apply calm_ret]. unfold get_or_build_model'.
  apply calm_bind; [apply wait_calm|]. intros _. apply calm_sect_bind; [by intros s Hs|]. intros [m|]; [apply calm_ret|].
  apply calm_with_lock, build_safe.
Qed.

(** The log only grows. *)
Definition log_grows (s s' : AppState) : Prop := as_log s `suffix_of` as_log s'.

Lemma grows_refl s : log_grows s s.
Proof. unfold log_grows. reflexivity. Qed.

Lemma grows_trans s1 s2 s3 : log_grows s1 s2 -> log_grows s2 s3 -> log_grows s1 s3.
Proof. unfold log_grows. intros H. by etrans. Qed.

#[local] Hint Resolve grows_refl : core.

Lemma request_grows p : request p -> keeps resp_ok log_grows p.
Proof.
  intros [parts]. apply keeps_bind; [|done]. apply keeps_bind; [|done]. apply keeps_bind.
  - apply keeps_sect_bind; [by intros s|]. by intros [].
  - intros _. apply keeps_sect_bind; [by intros s|]. intros [m|]; [done|]. apply keeps_with_lock. unfold build_under_lock.
    apply keeps_sect_bind; [by intros s|]. intros [m|]; [done|].
    apply keeps_sect_bind; [intros s; cbn; destruct (as_builder s); cbn; [by exists [BuildStarted]|apply grows_refl]|].
    intros []; [|done]. intros [m|e] _; [|done]. apply keeps_update_bind; [|done]. intros s. by exists [BuildFinished m].
Qed.

(** C37. However many requests come and interleave, one build is finished at most and none is started after it; the model that
    is then in the cache is the one that was built, and it stays. *)
Theorem model_built_once s pl pl' :
  as_model_cache s = None -> as_log s = [] -> steps (Pool s None []) pl -> steps pl pl' ->
  built_at_most_once (pl_state pl) /\ forall m, as_model_cache (pl_state pl) = Some m -> as_model_cache (pl_state pl') = Some m.
Proof.
  intros Hnone Hlog Hsteps Hsteps'.
  assert (Hinv : forall pl, steps (Pool s None []) pl -> built_at_most_once (pl_state pl)).
  { intros pl0. apply pool_steps_inv with (quiet := quiet); [exact request_safe|by intros s0|by intros s0 s1 ->|]. unfold built_at_most_once. by rewrite Hnone, Hlog. }
  assert (Hgrow : Forall (keeps resp_ok log_grows) (pl_tasks pl)).
  { eapply (pool_steps_keeps resp_ok eq request log_grows (Pool s None []) pl); [by intros s0|exact grows_trans|by intros s0 s1 ->|exact request_grows|constructor|done]. }
  pose proof (Hinv _ Hsteps) as H. split; [exact H|]. intros m Hm.
  destruct (pool_steps_keeps resp_ok eq request log_grows pl pl') as [Hsuffix _];
    [by intros s0|exact grows_trans|by intros s0 s1 ->|exact request_grows|done|done|].
  pose proof (Hinv pl' ltac:(unfold pool_steps; by etrans)) as H'. unfold built_at_most_once in H, H'. rewrite Hm in H.
  destruct H as (log & E & _). destruct Hsuffix as [l Hl]. rewrite E in Hl.
  assert (Hin : BuildFinished m ∈ as_log (pl_state pl')) by (rewrite Hl; apply elem_of_app; right; by left).
  destruct (as_model_cache (pl_state pl')) as [m'|].
  - destruct H' as (log' & E' & Hs'). rewrite E' in Hin. apply elem_of_cons in Hin as [[= ->]|Hin]; [done|].
    rewrite Forall_forall in Hs'. by apply Hs' in Hin.
  - rewrite Forall_forall in H'. by apply H' in Hin.
Qed.

(** ** With the preload and the refresh *)

Context (was_built : BuildResult -> Prop) (Hbuild : forall m, resp_ok _ Build (Ok m) -> was_built m).

(** The cache is the newest model of the log, and every model of the log was built. *)
Definition newest_built (s : AppState) : Prop :=
  as_model_cache s = newest (as_log s) /\ forall e m, e ∈ as_log s -> model_of e = Some m -> was_built m.

Lemma newest_elem log m : newest log = Some m -> exists e, e ∈ log /\ model_of e = Some m.
Proof.
  induction log as [|e log IH]; [done|]. cbn. destruct (model_of e) as [m'|] eqn:E.
  - intros [= ->]. exists e. split; [by left|done].
  - intros (e' & He & Hm)%IH. exists e'. split; [by right|done].
Qed.

Lemma newest_cached s m : newest_built s -> as_model_cache s = Some m -> was_built m.
Proof. intros [Hc Hl] Hm. rewrite Hc in Hm. apply newest_elem in Hm as (e & He & Hm). by eapply Hl. Qed.

Lemma set_model_newest m contexts e s : was_built m -> model_of e = Some m -> newest_built s -> newest_built (set_model m contexts e s).
Proof.
  intros Hm He [_ Hl]. split; cbn; [by rewrite He|]. intros e' m' [-> |Hin]%elem_of_cons H'; [congruence|by eapply Hl].
Qed.

Lemma log_started_newest s : newest_built s -> newest_built (add_log BuildStarted s).
Proof. intros [Hc Hl]. split; [done|]. cbn. intros e m [-> |He]%elem_of_cons Hm; [done|by eapply Hl]. Qed.

Abbreviation sound := (sound resp_ok newest_built).

Lemma wait_sound : sound wait_for_preload (fun _ => True).
Proof. apply sound_sect. intros s Hs. split; [done|]. by destruct (preload_running s). Qed.

Lemma build_sound : sound build_under_lock (fun r => match r with Ok m => was_built m | Err _ => True end).
Proof using Hbuild.
  apply sound_sect. intros s Hs. split; [done|]. cbn [snd]. destruct (as_model_cache s) as [m|] eqn:E; [by eapply newest_cached|].
  apply sound_sect. intros s1 Hs1. destruct (as_builder s1); (split; [by try apply log_started_newest|]); [|done].
  apply sound_call. intros [m|e] Hr; [|done]. apply sound_sect. intros s2 Hs2. split; [by apply set_model_newest; [apply Hbuild|..]|by apply Hbuild].
Qed.

(** Every request gets a model that was built, and records its revision. *)
Theorem model_served parts :
  sound (get_or_build_model model_revision parts) (fun r =>
    match r with Ok (m, parts') => was_built m /\ parts' = record_revision MODEL_PART (model_revision m) parts | Err _ => True end).
Proof using Hbuild.
  eapply sound_bind with (P := fun r => match r with Ok m => was_built m | Err _ => True end); [|by intros [m|e] H].
  unfold get_or_build_model'. eapply sound_bind; [apply wait_sound|]. intros _ _. apply sound_sect. intros s Hs. split; [done|]. cbn [snd].
  destruct (as_model_cache s) as [m|] eqn:E; [by eapply newest_cached|]. apply sound_with_lock, build_sound.
Qed.

Inductive task : method unit -> Prop :=
  | task_request parts : task (pbind (get_or_build_model model_revision parts) (fun _ => Ret tt))
  | task_preload blocking fail_startup : task (pbind (run_model_preload blocking fail_startup) (fun _ => Ret tt))
  | task_refresh rounds : task (refresh_rounds rounds).

Lemma preload_sound blocking fail_startup : sound (run_model_preload blocking fail_startup) (fun _ => True).
Proof using Hbuild.
  apply sound_call. intros [m|e] Hr; [|by intros s [Hc Hl]]. apply sound_sect. intros s Hs. split; [by apply set_model_newest; [apply Hbuild|..]|].
  destruct blocking; intros r _ s1 [Hc Hl]; done.
Qed.

Lemma refresh_sound rounds : sound (refresh_rounds rounds) (fun _ => True).
Proof using Hbuild.
  induction rounds as [|rounds IH]; [done|]. cbn [refresh_rounds]. eapply sound_bind with (P := fun _ => True); [|done].
  unfold refresh_round. eapply sound_bind; [apply wait_sound|]. intros _ _. eapply sound_bind with (P := fun _ => True); [|by intros [m|]].
  apply sound_with_lock. apply sound_call. intros [m|e] Hr; [|done]. apply sound_sect. intros s Hs. split; [by apply set_model_newest; [apply Hbuild|..]|done].
Qed.

(** Whatever runs together, the cache is the newest model that was built. *)
Theorem newest_model_cached s pl :
  newest_built s -> pool_steps resp_ok eq task (Pool s None []) pl -> newest_built (pl_state pl).
Proof using Hbuild.
  intros Hs Hsteps. eapply (sound_pool resp_ok newest_built task s); [|exact Hs|].
  - intros p [parts|blocking fail_startup|rounds].
    + eapply sound_bind; [apply model_served|done].
    + eapply sound_bind; [apply preload_sound|done].
    + apply refresh_sound.
  - induction Hsteps as [|pl1 pl2 pl3 Hstep _ IH]; [apply rtc_refl|]. eapply rtc_l; [|exact IH].
    destruct Hstep; econstructor; (done || naive_solver).
Qed.
End Model.

(** ** Two requests *)

Definition fresh_app : AppState := {| as_model_cache := None; as_contexts := false; as_preload := NoPreload; as_builder := true; as_log := [] |}.

(** The server answers each build with another model. *)
Definition build_answer R (c : model_call R) (n : nat) (s : AppState) : nat * AppState * R :=
  match c in model_call R return nat * AppState * R with
  | Build => (S n, s, Ok (TypeContextSpec.rooted [str_of_int (Z.of_nat n)]))
  | AwaitPreload => (n, s, Ok tt)
  | WarmTypes m => (n, s, Ok tt)
  | StartWarming m => (n, s, tt)
  end.

Definition ask_model : method unit := pbind (get_or_build_model (fun m => join "," (root_ids m)) None) (fun _ => Ret tt).

(** The first request waits for the build, the second one for the lock; both are served the one model. *)
Definition two_requests (schedule : list nat) : pool AppState model_call := (run_schedule build_answer schedule (0%nat, Pool fresh_app None [ask_model; ask_model])).2.

Example one_build :
  let pl := two_requests [0; 1; 0; 1; 0; 0; 0; 1; 0; 0; 0; 1; 1; 1]%nat in
  pl_tasks pl = [Ret tt; Ret tt] /\ as_log (pl_state pl) = [BuildFinished (TypeContextSpec.rooted ["0"]); BuildStarted].
Proof. by vm_compute. Qed.

Definition any_answer R (c : model_call R) (r : R) : Prop := True.

Abbreviation requests := (request (fun m => join "," (root_ids m))).

Lemma two_requests_steps schedule : pool_steps any_answer eq requests (Pool fresh_app None []) (two_requests schedule).
Proof.
  eapply rtc_l; [apply (step_spawn any_answer eq requests fresh_app None [] ask_model); constructor|].
  eapply rtc_l; [apply (step_spawn any_answer eq requests fresh_app None [ask_model] ask_model); constructor|].
  apply run_schedule_steps. by intros R [] n s.
Qed.

Lemma later_steps schedule schedule' :
  pool_steps any_answer eq requests (two_requests schedule) (two_requests (schedule ++ schedule')).
Proof.
  assert (H : forall w pl, run_schedule build_answer (schedule ++ schedule') (w, pl) = run_schedule build_answer schedule' (run_schedule build_answer schedule (w, pl))).
  { induction schedule as [|i l IH]; intros w pl; [done|]. cbn [app run_schedule]. destruct (move build_answer i (w, pl)) as [w' pl']. apply IH. }
  unfold two_requests. rewrite H. destruct (run_schedule build_answer schedule _) as [w pl]. apply run_schedule_steps. by intros R [] n s.
Qed.

Lemma model_built_once_witness :
  let first := [0; 1; 0; 1; 0; 0; 0; 0; 0; 0]%nat in let rest := [0; 1; 1; 1; 1]%nat in
  (as_model_cache fresh_app = None /\ as_log fresh_app = []) /\
  as_model_cache (pl_state (two_requests first)) = Some (TypeContextSpec.rooted ["0"]) /\
  built_at_most_once (pl_state (two_requests first)) /\
  as_model_cache (pl_state (two_requests (first ++ rest))) = Some (TypeContextSpec.rooted ["0"]).
Proof.
  assert (Hm : as_model_cache (pl_state (two_requests [0; 1; 0; 1; 0; 0; 0; 0; 0; 0]%nat)) = Some (TypeContextSpec.rooted ["0"])) by (vm_compute; reflexivity).
  destruct (model_built_once (fun m => join "," (root_ids m)) any_answer fresh_app _ _ eq_refl eq_refl
    (two_requests_steps [0; 1; 0; 1; 0; 0; 0; 0; 0; 0]%nat) (later_steps [0; 1; 0; 1; 0; 0; 0; 0; 0; 0]%nat [0; 1; 1; 1; 1]%nat)) as [Hinv Hstays].
  split; [by split|]. split; [exact Hm|]. split; [exact Hinv|]. apply Hstays. exact Hm.
Defined.
End ModelCacheSpec.
