(* ===== verification/McpPaths.v ===== *)
(** Where the MCP tools send their requests ([mcp/invocation.py]): the prefix of the API, the path of a tool and the
    parameters that the caller fills in. *)

From S2P Require Export Json Urls.

(** An exception of the MCP code: the [HTTPException] of [i3x_http_error], or one of Python's own. *)
Inductive exn :=
  | HttpException (e : http_error)
  | OtherException (name : string).

Module McpPaths.
Export Json Urls.

Definition http_exception {A} (status : Z) (code message : string) : outcome exn A := Err (HttpException (HttpError status code message)).
Definition invalid_prefix {A} : outcome exn A := http_exception 500 "Internal Error" "Invalid MCP API prefix".
Definition invalid_request_path {A} : outcome exn A := http_exception 500 "Internal Error" "Invalid MCP request path".

(** [urlsplit(url)] in code that does not catch its [ValueError]. *)
Definition split_url (bracketed_netloc_ok : text -> bool) (url : text) : outcome exn SplitResult :=
  match urlsplit bracketed_netloc_ok url with Some r => Ok r | None => Err (OtherException "ValueError") end.

Definition has_text (t : text) : bool := negb (bool_decide (t = [])).
Definition double_slash (t : text) : bool := starts_with [slash; slash] t.
Definition has (c : ascii) (t : text) : bool := existsb (ceqb c) t.
Definition strip_text (t : text) : text := rdrop_while is_space (drop_while is_space t).

Section Paths.
Context (bracketed_netloc_ok : text -> bool).

Definition safe_api_prefix (api_prefix : text) : outcome exn text :=
  parsed ← split_url bracketed_netloc_ok api_prefix;
  let api_prefix := if (has_text (sr_scheme parsed) || has_text (sr_netloc parsed))%bool then sr_path parsed else api_prefix in
  match strip_text api_prefix with
  | [] => Ok []
  | prefix =>
      let prefix := if starts_with [slash] prefix then prefix else slash :: prefix in
      if double_slash prefix then invalid_prefix
      else
        let normalized := normpath prefix in
        if bool_decide (normalized ∈ [dot; [slash]; []]) then Ok []
        else if (negb (starts_with [slash] normalized) || double_slash normalized)%bool then invalid_prefix
        else Ok (rdrop_while (ceqb slash) normalized)
  end.

Definition safe_request_path (api_prefix tool_path : text) : outcome exn text :=
  prefix ← safe_api_prefix api_prefix;
  if negb (starts_with [slash] tool_path) then http_exception 500 "Internal Error" "Invalid MCP tool path"
  else
    parsed ← split_url bracketed_netloc_ok (prefix ++ tool_path);
    if (has_text (sr_scheme parsed) || has_text (sr_netloc parsed) || has_text (sr_query parsed) || has_text (sr_fragment parsed))%bool
    then invalid_request_path
    else if (negb (starts_with [slash] (sr_path parsed)) || double_slash (sr_path parsed))%bool then invalid_request_path
    else
      let normalized := normpath (sr_path parsed) in
      if (negb (starts_with [slash] normalized) || double_slash normalized)%bool then invalid_request_path
      else if (bool_decide (normalized = slash :: dotdot) || starts_with (slash :: dotdot ++ [slash]) normalized)%bool then invalid_request_path
      else Ok normalized.

(** [str(value)]; the texts of lists and dictionaries are those of [repr]. *)
Definition str_of (repr : json -> text) (value : json) : text :=
  match value with
  | JNull => chars "None"
  | JBool true => chars "True"
  | JBool false => chars "False"
  | JInt z => int_text z
  | JFloat t => chars t
  | JStr s => chars s
  | v => repr v
  end.

Definition safe_path_parameter_value (repr : json -> text) (parameter_name : string) (value : json) : outcome exn text :=
  let value_str := str_of repr value in
  parsed ← split_url bracketed_netloc_ok value_str;
  if (has_text (sr_scheme parsed) || has_text (sr_netloc parsed) || has slash value_str || has backslash value_str ||
      contains dotdot value_str || has "?"%char value_str || has "#"%char value_str || negb (bool_decide (strip_text value_str = value_str)))%bool
  then http_exception 400 "Bad Request" ("Invalid path parameter: " +:+ parameter_name)
  else Ok value_str.

Definition placeholder (parameter_name : string) : text := "{"%char :: chars parameter_name ++ ["}"%char].

(** The loop over the path parameters in [invoke_mcp_tool]. [arguments] has every parameter. *)
Fixpoint fill_parameters (repr : json -> text) (path_parameters : list string) (arguments : dict string json) (resolved_path : text) : outcome exn text :=
  match path_parameters with
  | [] => Ok resolved_path
  | parameter_name :: path_parameters' =>
      if negb (contains (placeholder parameter_name) resolved_path)
      then http_exception 500 "Internal Error" ("Path placeholder not found for " +:+ parameter_name)
      else match arguments !! parameter_name with
           | None => Err (OtherException "KeyError")
           | Some value =>
               safe_value ← safe_path_parameter_value repr parameter_name value;
               fill_parameters repr path_parameters' arguments (replace (placeholder parameter_name) (quote_url safe_value) resolved_path)
           end
  end.

(** From the prefix and the path of a tool to the path of the request. *)
Definition resolve_request_target (repr : json -> text) (effective_prefix tool_path : text) (path_parameters : list string)
    (arguments : dict string json) : outcome exn text :=
  resolved_path ← safe_request_path effective_prefix tool_path;
  resolved_path ← fill_parameters repr path_parameters arguments resolved_path;
  safe_request_path [] resolved_path.

(** [get_api_prefix(openapi_spec)]. *)
Fixpoint first_server_prefix (servers : list json) : outcome exn text :=
  match servers with
  | [] => Ok []
  | JObj server :: servers' =>
      match items_lookup "url" server with
      | Some (JStr url) => if truthy url then safe_api_prefix (chars url) else first_server_prefix servers'
      | _ => first_server_prefix servers'
      end
  | _ :: servers' => first_server_prefix servers'
  end.

Definition get_api_prefix (openapi_spec : list (string * json)) : outcome exn text :=
  match items_lookup "servers" openapi_spec with
  | Some (JArr servers) => first_server_prefix servers
  | _ => Ok []
  end.
End Paths.

Section Examples.
Let ok (_ : text) : bool := true.
Let request (tool_path : string) (id : string) : outcome exn string :=
  match resolve_request_target ok (fun _ => []) (chars "/api") (chars tool_path) ["elementId"] (dict_of_list [("elementId", JStr id)]) with
  | Ok t => Ok (of_chars t)
  | Err e => Err e
  end.

Example parameter_filled : request "/v1/objects/{elementId}/value" "pump 1;a" = Ok "/api/v1/objects/pump%201%3Ba/value".
Proof. vm_compute. reflexivity. Qed.

Example parent_rejected : is_ok (request "/v1/objects/{elementId}/value" "..") = false.
Proof. vm_compute. reflexivity. Qed.

(** The parameter "." is let through, and the request goes to another path. *)
Example dot_changes_the_path : request "/v1/objects/{elementId}/value" "." = Ok "/api/v1/objects/value".
Proof. vm_compute. reflexivity. Qed.

Example empty_changes_the_path : request "/v1/objects/{elementId}/value" "" = Ok "/api/v1/objects/value".
Proof. vm_compute. reflexivity. Qed.
End Examples.

(** ** Paths of requests are normal *)

#[local] Arguments normpath : simpl never.
#[local] Arguments path_of : simpl never.
#[local] Arguments unsafe_url_byte : simpl never.

(** A character that [urlsplit] leaves in a path. *)
Definition clean (c : ascii) : bool := negb (unsafe_url_byte c || ceqb c "?"%char || ceqb c "#"%char).

Lemma partition_before c l : (c ∉ (partition_at c l).1.1) /\ (forall x, x ∈ (partition_at c l).1.1 -> x ∈ l).
Proof.
  induction l as [|x l IH]; cbn; [set_solver|]. unfold ceqb. case_bool_decide as Hx; [cbn; set_solver|].
  destruct (partition_at c l) as [[a b] d]. cbn in *. set_solver.
Qed.

Lemma partition_none c l : c ∉ l -> partition_at c l = (l, false, []).
Proof. induction l as [|x l IH]; intros H; [done|]. apply not_elem_of_cons in H as [Hx H]. cbn. unfold ceqb. by rewrite bool_decide_false, IH by congruence. Qed.

Section Proofs.
Context (bracketed_netloc_ok : text -> bool) (repr : json -> text).

Lemma urlsplit_path url r c : urlsplit bracketed_netloc_ok url = Some r -> c ∈ sr_path r -> clean c = true.
Proof.
  unfold urlsplit. set (u := List.filter _ _). intros H Hc.
  assert (Hu : forall x, x ∈ u -> unsafe_url_byte x = false).
  { intros x Hx%list_elem_of_In%List.filter_In. destruct Hx as [_ Hx]. by apply negb_true_iff in Hx. }
  destruct (split_scheme u) as [scheme u1] eqn:E1.
  assert (H1 : forall x, x ∈ u1 -> x ∈ u).
  { intros x Hx. unfold split_scheme in E1. destruct (partition_at ":" u) as [[a b] d] eqn:Ep. destruct a as [|y a]; [by simplify_eq|]. destruct b; [|by simplify_eq].
    apply partition_at_found in Ep as [Ep _]. destruct (_ && _)%bool; simplify_eq; [|done]. rewrite Ep. set_solver. }
  destruct (split_netloc u1) as [netloc u2] eqn:E2.
  assert (H2 : forall x, x ∈ u2 -> x ∈ u1).
  { intros x Hx. unfold split_netloc in E2. destruct (starts_with _ u1); simplify_eq; [|done].
    assert (Hd : forall (p : ascii -> bool) l, x ∈ drop_while p l -> x ∈ l) by (induction l as [|y l IH]; cbn; [done|]; destruct (p y); set_solver).
    apply Hd in Hx. rewrite <-(take_drop 2 u1). by apply elem_of_app; right. }
  destruct (negb (netloc_ok _ netloc)); [done|]. pose proof (partition_before "#" u2) as [H3 H3'].
  destruct (partition_at "#" u2) as [[u3 b] fragment]. pose proof (partition_before "?" u3) as [H4 H4']. destruct (partition_at "?" u3) as [[path b'] query].
  simplify_eq. cbn in *. unfold clean. rewrite Hu by auto. unfold ceqb. rewrite !bool_decide_false; [done|intros ->; auto..].
Qed.

Lemma urlsplit_clean p : starts_with [slash] p = true -> double_slash p = false -> Forall (fun c => clean c = true) p ->
  urlsplit bracketed_netloc_ok p = Some {| sr_scheme := []; sr_netloc := []; sr_path := p; sr_query := []; sr_fragment := [] |}.
Proof.
  intros H1 H2 Hc. destruct p as [|c p]; [done|]. cbn in H1. rewrite andb_true_r in H1. apply bool_decide_eq_true in H1 as <-.
  assert (Hf : List.filter (fun c => negb (unsafe_url_byte c)) (slash :: p) = slash :: p).
  { clear H2. induction Hc as [|x l Hx _ IH]; [done|]. cbn. unfold clean in Hx. bool_hyps. rewrite IH. by destruct (unsafe_url_byte x). }
  assert (Hs : split_scheme (slash :: p) = ([], slash :: p)).
  { unfold split_scheme. cbn. destruct (partition_at ":" p) as [[a b] d]. by destruct b. }
  assert (Hno : forall x, clean x = false -> x ∉ slash :: p) by (intros x Hx Hin; rewrite Forall_forall in Hc; apply Hc in Hin; congruence).
  unfold urlsplit. change (drop_while _ (slash :: p)) with (slash :: p). rewrite Hf, Hs. unfold split_netloc. unfold double_slash in H2. rewrite H2. cbn [netloc_ok existsb negb].
  by rewrite !partition_none by (by apply Hno).
Qed.

Lemma safe_request_path_normal prefix tool_path t : safe_request_path bracketed_netloc_ok prefix tool_path = Ok t ->
  exists segs, t = path_of segs /\ Forall normal_segment segs /\ Forall (fun c => clean c = true) t.
Proof.
  unfold safe_request_path. destruct (safe_api_prefix _ _) as [p|e]; [|done]. cbn [mbind outcome_bind]. case_goal; [done|].
  unfold split_url. destruct (urlsplit _ _) as [parsed|] eqn:E; [|done]. cbn [mbind outcome_bind]. case_goal; [done|]. case_goal; [done|].
  case_goal; [done|]. case_goal; [done|]. intros [= <-]. bool_hyps.
  destruct (normpath_normal (sr_path parsed)) as (segs & Hn & -> & Hin); [done..|]. exists segs. split_and!; [done..|].
  apply Forall_forall. intros c Hc. by eapply urlsplit_path, Hin.
Qed.

Lemma path_not_up segs : Forall normal_segment segs ->
  path_of segs ≠ slash :: dotdot /\ starts_with (slash :: dotdot ++ [slash]) (path_of segs) = false.
Proof.
  intros H. unfold path_of. destruct H as [|s segs (H1 & H2 & H3 & H4) H]; [done|]. rewrite join_at_cons.
  set (r := match segs with [] => [] | _ => _ end). assert (Hr : r = [] \/ exists r', r = slash :: r') by (subst r; destruct segs; eauto).
  split.
  - intros [= E]. destruct s as [|a [|b [|c s]]]; [done|..]; cbn in E.
    + injection E as -> E. destruct Hr as [Hr|[r' Hr]]; rewrite Hr in E; [done|]. by injection E.
    + injection E as -> -> E. by apply H3.
    + by injection E.
  - apply not_true_iff_false. intros E. destruct s as [|a [|b [|c s]]]; [done|..]; cbn in E; unfold ceqb in E; bool_hyps; subst.
    + by destruct Hr as [Hr|[r' Hr]]; rewrite Hr in *.
    + by apply H3.
    + apply H4. set_solver.
Qed.

(** A segment that stays in a normalised path. *)
Definition kept (seg : text) : bool := negb (bool_decide (seg = [] \/ seg = dot)).

Lemma kept_normal seg : slash ∉ seg -> seg ≠ dotdot -> kept seg = true -> normal_segment seg.
Proof. intros Hs Hd Hk%negb_true_iff%bool_decide_eq_false. split_and!; [| |done|done]; intros ->; apply Hk; auto. Qed.

Lemma fold_push_kept segs comps : Forall (fun s => slash ∉ s /\ s ≠ dotdot) segs ->
  fold_left (push_component true) segs comps = reverse (List.filter kept segs) ++ comps.
Proof.
  intros H. revert comps. induction H as [|s segs [Hs Hd] _ IH]; intros comps; [done|]. cbn [fold_left List.filter].
  destruct (kept s) eqn:Ek.
  - rewrite push_same by (by apply kept_normal). by rewrite IH, reverse_cons, <-app_assoc.
  - assert (push_component true comps s = comps) as ->; [|done].
    unfold push_component. rewrite bool_decide_true; [done|]. by apply negb_false_iff, bool_decide_eq_true in Ek.
Qed.

Lemma normpath_kept segs : Forall (fun s => slash ∉ s /\ s ≠ dotdot) segs -> double_slash (path_of segs) = false ->
  normpath (path_of segs) = path_of (List.filter kept segs).
Proof.
  intros H Hd. rewrite normpath_single by done.
  assert (split_at slash (path_of segs) = [] :: split_at slash (join_at slash segs)) as -> by done.
  destruct segs as [|s segs]; [done|].
  rewrite split_join; [|discriminate|eapply Forall_impl; [exact H|by intros x [Hx _]]].
  change (path_of (reverse (fold_left (push_component true) (s :: segs) [])) = path_of (List.filter kept (s :: segs))).
  by rewrite fold_push_kept, app_nil_r, reverse_involutive.
Qed.

(** Empty segments and single dots disappear. *)
Lemma safe_request_path_kept segs : Forall (fun s => slash ∉ s /\ s ≠ dotdot) segs -> head segs ≠ Some [] ->
  Forall (fun c => clean c = true) (path_of segs) ->
  safe_request_path bracketed_netloc_ok [] (path_of segs) = Ok (path_of (List.filter kept segs)).
Proof.
  intros Hs Hh Hc. assert (Hn : Forall normal_segment (List.filter kept segs)).
  { apply Forall_forall. intros s [Hin Hk]%elem_of_filter_list. rewrite Forall_forall in Hs. destruct (Hs s Hin). by apply kept_normal. }
  assert (Hd : double_slash (path_of segs) = false).
  { destruct segs as [|[|c s] segs]; [done|done|]. apply Forall_cons in Hs as [[Hs _] _]. unfold path_of. rewrite join_at_cons.
    unfold double_slash. cbn. unfold ceqb. rewrite (bool_decide_false (slash = c)); [done|]. set_solver. }
  unfold safe_request_path. change (safe_api_prefix _ []) with (@Ok exn _ (@nil ascii)). cbn [mbind outcome_bind app].
  unfold split_url. rewrite urlsplit_clean by done. cbn [mbind outcome_bind sr_scheme sr_netloc sr_path sr_query sr_fragment has_text negb orb].
  rewrite Hd, normpath_kept by done. pose proof (double_slash_path_of _ Hn) as Hd'. pose proof (path_not_up _ Hn) as [Hu Hu'].
  unfold double_slash. by rewrite Hd', Hu', bool_decide_false.
Qed.

(** ** Parameters stay in their segments *)

(** A segment with its parameter filled in. *)
Definition fill_segment (arguments : dict string json) (names : list string) (seg : text) : text :=
  match List.find (fun n => bool_decide (placeholder n = seg)) names with
  | Some n => match arguments !! n with Some v => quote_url (str_of repr v) | None => seg end
  | None => seg
  end.

(** Every parameter is a segment of its own. *)
Definition whole_placeholders (names : list string) (route : list text) : Prop :=
  forall n, n ∈ names -> slash ∉ chars n /\ (forall seg, seg ∈ route -> seg = placeholder n \/ contains (placeholder n) seg = false).

(** Why a parameter cannot be filled in. *)
Definition unfilled (route : list text) (arguments : dict string json) (e : exn) (n : string) : Prop :=
  placeholder n ∉ route \/ arguments !! n = None \/ exists v, arguments !! n = Some v /\ safe_path_parameter_value bracketed_netloc_ok repr n v = Err e.

Lemma placeholder_inj n n' : placeholder n = placeholder n' -> n = n'.
Proof. intros [= H]. apply app_inj_tail in H as [H _]. by rewrite <-(of_chars_chars n), H, of_chars_chars. Qed.

Lemma quote_no_placeholder n s : contains (placeholder n) (quote_url s) = false.
Proof. apply not_true_iff_false. intros H. apply (contains_elem _ _ "{"%char) in H; [|by left]. by apply quote_chars in H. Qed.

Lemma safe_value n v t : safe_path_parameter_value bracketed_netloc_ok repr n v = Ok t -> t = str_of repr v /\ t ≠ dotdot.
Proof.
  unfold safe_path_parameter_value. destruct (split_url _ _) as [parsed|e]; [|done]. cbn [mbind outcome_bind]. case_goal; [done|]. intros [= <-]. split; [done|].
  intros E. rewrite E in *. bool_hyps. by match goal with H : contains dotdot dotdot = false |- _ => rewrite contains_self in H end.
Qed.

(** One replacement. *)
Lemma replace_segment n v route seg : whole_placeholders [n] route -> seg ∈ route ->
  replace (placeholder n) v seg = if bool_decide (placeholder n = seg) then v else seg.
Proof.
  intros Hw Hs. destruct (Hw n) as [_ H]; [by left|]. case_bool_decide as E; [subst; by apply replace_self|].
  destruct (H seg Hs) as [->|Hc]; [done|]. by apply replace_absent.
Qed.

Lemma fill_parameters_path names arguments route : NoDup names -> whole_placeholders names route ->
  match fill_parameters bracketed_netloc_ok repr names arguments (path_of route) with
  | Ok t => t = path_of (map (fill_segment arguments names) route) /\
            (forall n, n ∈ names -> exists v, arguments !! n = Some v /\ str_of repr v ≠ dotdot)
  | Err e => exists n, n ∈ names /\ unfilled route arguments e n
  end.
Proof.
  intros Hnd. revert route. induction Hnd as [|n names Hn Hnd IH]; intros route Hw; cbn [fill_parameters].
  { split; [|by intros n ?%elem_of_nil]. f_equal. symmetry. apply map_id. }
  destruct (Hw n) as [Hslash Hwn]; [by left|].
  assert (Hph : slash ∉ placeholder n) by (unfold placeholder; set_solver).
  rewrite contains_path_of by done. destruct (negb _) eqn:Ec.
  { exists n. split; [by left|]. left. intros H. apply negb_true_iff, not_true_iff_false in Ec. apply Ec, existsb_exists. exists (placeholder n).
    split; [by apply list_elem_of_In|apply contains_self]. }
  destruct (arguments !! n) as [v|] eqn:Ev; [|exists n; split; [by left|]; by right; left].
  destruct (safe_path_parameter_value _ _ n v) as [t|e] eqn:Es; cbn [mbind outcome_bind]; [|exists n; split; [by left|]; right; right; by exists v].
  apply safe_value in Es as [-> Hdd]. rewrite replace_path_of by done. set (route' := map _ route).
  assert (Hr : route' = map (fun seg => if bool_decide (placeholder n = seg) then quote_url (str_of repr v) else seg) route).
  { apply List.map_ext_in. intros seg Hseg%list_elem_of_In. apply (replace_segment n _ route); [|done]. by intros m ->%list_elem_of_singleton. }
  assert (Hw' : whole_placeholders names route').
  { intros m Hm. destruct (Hw m) as [Hsm Hwm]; [by right|]. split; [done|]. rewrite Hr. intros seg (seg0 & -> & H0)%elem_of_map.
    case_bool_decide; [right; apply quote_no_placeholder|by apply Hwm]. }
  specialize (IH route' Hw'). destruct (fill_parameters _ _ names arguments (path_of route')) as [t|e].
  - destruct IH as [-> Hok]. split; [|intros m [->|Hm]%elem_of_cons; [by exists v|by apply Hok]]. f_equal. rewrite Hr, List.map_map. apply List.map_ext_in.
    intros seg _. unfold fill_segment. cbn [List.find]. case_bool_decide as E; [|done]. rewrite Ev.
    destruct (List.find _ names) as [m|] eqn:Ef; [|done]. apply List.find_some in Ef as [_ Ef%bool_decide_eq_true]. exfalso.
    pose proof (quote_no_placeholder m (str_of repr v)) as H. by rewrite <-Ef, contains_self in H.
  - destruct IH as (m & Hm & Hu). exists m. split; [by right|]. destruct Hu as [Hu|Hu]; [left|by right]. intros H. apply Hu. rewrite Hr.
    apply elem_of_map. exists (placeholder m). split; [|done]. rewrite bool_decide_false; [done|]. intros E%placeholder_inj. by subst.
Qed.

Lemma quoted_clean c : quoted c = true -> clean c = true.
Proof. destruct c as [[] [] [] [] [] [] [] []]; vm_compute; congruence. Qed.

(** What is filled in is the quoted value of a parameter, the rest is as it was. *)
Lemma fill_segment_cases arguments names seg :
  (forall n, n ∈ names -> is_Some (arguments !! n)) ->
  (exists n v, n ∈ names /\ arguments !! n = Some v /\ fill_segment arguments names seg = quote_url (str_of repr v)) \/
  fill_segment arguments names seg = seg.
Proof.
  intros Hall. unfold fill_segment. destruct (List.find _ names) as [n|] eqn:Ef; [|by right].
  apply List.find_some in Ef as [Hn%list_elem_of_In _]. destruct (Hall n Hn) as [v Ev]. left. exists n, v. by rewrite Ev.
Qed.

Lemma filled_segments arguments names route :
  (forall n, n ∈ names -> exists v, arguments !! n = Some v /\ str_of repr v ≠ dotdot) -> Forall normal_segment route ->
  Forall (fun s => slash ∉ s /\ s ≠ dotdot) (map (fill_segment arguments names) route).
Proof.
  intros Hok Hn. apply Forall_forall. intros s (seg & -> & Hs)%elem_of_map.
  destruct (fill_segment_cases arguments names seg) as [(n & v & Hin & Ev & ->)| ->].
  - intros n Hin. destruct (Hok n Hin) as (v & -> & _). eauto.
  - split; [apply quote_no_slash|]. destruct (Hok n Hin) as (v' & Ev' & Hdd). assert (v' = v) as -> by congruence. intros E. apply Hdd, quote_inj. by rewrite E.
  - rewrite Forall_forall in Hn. by destruct (Hn seg Hs) as (_ & _ & ? & ?).
Qed.

Lemma filled_kept arguments names route :
  (forall n, n ∈ names -> is_Some (arguments !! n)) -> Forall normal_segment route ->
  (forall n v, n ∈ names -> arguments !! n = Some v -> str_of repr v ≠ [] /\ str_of repr v ≠ dot) ->
  List.filter kept (map (fill_segment arguments names) route) = map (fill_segment arguments names) route.
Proof.
  intros Hall Hn Hv. induction Hn as [|seg route (H1 & H2 & _) _ IH]; [done|]. cbn [map List.filter].
  assert (kept (fill_segment arguments names seg) = true) as ->; [|by rewrite IH].
  apply negb_true_iff, bool_decide_eq_false.
  destruct (fill_segment_cases arguments names seg Hall) as [(n & v & Hin & Ev & ->)| ->]; [|by intros [?|?]].
  destruct (Hv n v Hin Ev) as [Hv1 Hv2]. intros [E|E]; [apply Hv1|apply Hv2]; apply quote_inj; by rewrite E.
Qed.

Lemma path_clean segs : Forall (fun c => clean c = true) (path_of segs) <-> (forall seg c, seg ∈ segs -> c ∈ seg -> clean c = true).
Proof.
  rewrite Forall_forall. split.
  - intros H seg c Hs Hc. apply H. right. clear H. induction segs as [|s segs IH]; [by apply elem_of_nil in Hs|]. rewrite join_at_cons.
    apply elem_of_cons in Hs as [->|Hs]; [set_solver|]. destruct segs; [by apply elem_of_nil in Hs|]. apply elem_of_app. right. right. by apply IH.
  - intros H c [->|Hc]%elem_of_cons; [done|]. apply elem_of_join in Hc as [->|(s & Hs & Hc)]; [done|]. by eapply H.
Qed.

Lemma filled_head arguments names route : Forall normal_segment route -> (forall n, n ∈ names -> head route ≠ Some (placeholder n)) ->
  head (map (fill_segment arguments names) route) ≠ Some [].
Proof.
  intros Hn Hh. destruct Hn as [|seg route (Hseg & _) _]; [done|]. cbn. unfold fill_segment.
  destruct (List.find _ names) as [n|] eqn:Ef; [|congruence]. apply List.find_some in Ef as [Hin%list_elem_of_In E%bool_decide_eq_true].
  exfalso. apply (Hh n Hin). cbn. by rewrite E.
Qed.

Lemma filled_clean arguments names route :
  (forall n, n ∈ names -> is_Some (arguments !! n)) -> Forall (fun c => clean c = true) (path_of route) ->
  Forall (fun c => clean c = true) (path_of (map (fill_segment arguments names) route)).
Proof.
  intros Hall Hc. apply path_clean. intros seg c (seg0 & -> & H0)%elem_of_map Hin.
  destruct (fill_segment_cases arguments names seg0 Hall) as [(n & v & _ & _ & E)|E]; rewrite E in Hin.
  - by apply quote_chars, quoted_clean in Hin.
  - rewrite path_clean in Hc. by eapply Hc.
Qed.

(** C24. The request of a tool goes where its path says, whatever the caller gives as parameters. A request is only sent
    to a normal absolute path without query, fragment or upward segments. For a tool whose parameters are whole segments
    of its path after the first, it is the path with each parameter replaced by its quoted value, and without the segments that
    became empty or a single dot ([kept]; these values are let through, and the route changes with them:
    [dot_changes_the_path]): if no value is one of these two, it has exactly the segments of the path of the tool. The
    call fails only for a parameter that is missing or refused. *)
Theorem request_target_exact prefix tool_path names arguments :
  let result := resolve_request_target bracketed_netloc_ok repr prefix tool_path names arguments in
  (forall t, result = Ok t -> exists segs, t = path_of segs /\ Forall normal_segment segs /\ Forall (fun c => clean c = true) t) /\
  (forall route, safe_request_path bracketed_netloc_ok prefix tool_path = Ok (path_of route) -> Forall normal_segment route ->
    NoDup names -> whole_placeholders names route -> (forall n, n ∈ names -> head route ≠ Some (placeholder n)) ->
    let filled := map (fill_segment arguments names) route in
    match result with
    | Ok t => t = path_of (List.filter kept filled) /\
        ((forall n v, n ∈ names -> arguments !! n = Some v -> str_of repr v ≠ [] /\ str_of repr v ≠ dot) -> t = path_of filled)
    | Err e => exists n, n ∈ names /\ unfilled route arguments e n
    end).
Proof.
  cbn zeta. unfold resolve_request_target. split.
  - intros t. destruct (safe_request_path _ prefix tool_path) as [p|]; [|done]. cbn [mbind outcome_bind].
    destruct (fill_parameters _ _ _ _ p) as [p'|]; [|done]. cbn [mbind outcome_bind]. apply safe_request_path_normal.
  - intros route Hroute Hnormal Hnd Hw Hhead. rewrite Hroute. cbn [mbind outcome_bind]. pose proof (fill_parameters_path names arguments route Hnd Hw) as H.
    destruct (fill_parameters _ _ _ _ _) as [t|e]; cbn [mbind outcome_bind]; [|done]. destruct H as [-> Hok].
    assert (Hall : forall n, n ∈ names -> is_Some (arguments !! n)) by (intros n (v & -> & _)%Hok; eauto).
    apply safe_request_path_normal in Hroute as (segs & E & Hsegs & Hclean).
    rewrite safe_request_path_kept; [|by apply filled_segments|by apply filled_head|by apply filled_clean].
    split; [done|]. intros Hv. by rewrite filled_kept.
Qed.
End Proofs.

(** A tool with a parameter of several characters that have to be quoted. *)
Lemma request_target_exact_witness :
  let arguments := dict_of_list [("elementId", JStr "pump 1;a")] in
  let route := map chars ["api"; "v1"; "objects"; "{elementId}"; "value"] in
  match resolve_request_target (fun _ => true) (fun _ => []) (chars "/api") (chars "/v1/objects/{elementId}/value") ["elementId"] arguments with
  | Ok t => t = path_of (List.filter kept (map (fill_segment (fun _ => []) arguments ["elementId"]) route)) /\
      ((forall n v, n ∈ ["elementId"] -> arguments !! n = Some v -> str_of (fun _ => []) v ≠ [] /\ str_of (fun _ => []) v ≠ dot) ->
       t = path_of (map (fill_segment (fun _ => []) arguments ["elementId"]) route))
  | Err e => exists n, n ∈ ["elementId"] /\ unfilled (fun _ => true) (fun _ => []) route arguments e n
  end.
Proof.
  cbv zeta. pose proof (request_target_exact (fun _ => true) (fun _ => []) (chars "/api") (chars "/v1/objects/{elementId}/value") ["elementId"]
    (dict_of_list [("elementId", JStr "pump 1;a")])) as [_ H]. apply H.
  - vm_compute. reflexivity.
  - apply Forall_forall. intros seg Hs. repeat (apply elem_of_cons in Hs as [->|Hs]); try (by apply elem_of_nil in Hs);
      split_and!; (apply (bool_decide_unpack _); vm_compute; exact I).
  - apply (bool_decide_unpack _). vm_compute. exact I.
  - intros n ->%list_elem_of_singleton. split; [apply (bool_decide_unpack _); vm_compute; exact I|]. intros seg Hs.
    repeat (apply elem_of_cons in Hs as [->|Hs]); try (by apply elem_of_nil in Hs); (by left) || (right; vm_compute; reflexivity).
  - intros n ->%list_elem_of_singleton. discriminate.
Defined.
End McpPaths.
