(* ===== verification/McpPages.v ===== *)
(** Pages of the answers that MCP tools give ([mcp/invocation.py]): lists of objects and types, related objects per
    element, histories with their components; and the parts of a JSON value that they are made of.

    An answer is cut by [offset] and [limit], and says where the next page begins unless it is the last. Following
    [nextOffset] from the beginning gives back every list of the answer. *)

From S2P Require Export Json McpPaths.

Module McpPages.
Export Json McpPaths.

Definition items := list (string * json).

Definition json_strings (l : list string) : json := JArr (map JStr l).

(** [{**v, key: x}] and [v[key] = x]. *)
Definition with_item (key : string) (x : json) (v : items) : items := items_insert key x v.

(** [values[offset : offset + limit]] for numbers that are not negative. *)
Definition slice {A} (limit offset : Z) (values : list A) : list A := take (Z.to_nat limit) (drop (Z.to_nat offset) values).

Definition len {A} (l : list A) : Z := Z.of_nat (length l).

Definition pagination (total returned offset : Z) : items :=
  [("total", JInt total); ("returned", JInt returned); ("offset", JInt offset)] ++
  (if offset + returned <? total then [("nextOffset", JInt (offset + returned))] else []).

Definition paginate_mcp_list (limit offset : Z) (body : json) : json :=
  match body with
  | JObj l =>
      match items_lookup "result" l with
      | Some (JArr values) =>
          let page := slice limit offset values in
          JObj (with_item "pagination" (JObj (pagination (len values) (len page) offset)) (with_item "result" (JArr page) l))
      | _ => body
      end
  | _ => body
  end.

(** [1 <= limit <= 500] and [0 <= offset]. *)
Definition validate_mcp_page (limit offset : json) : outcome exn (Z * Z) :=
  match limit, offset with
  | JInt limit, JInt offset =>
      if negb (between 1 500 limit) then http_exception 400 "Bad Request" "limit must be an integer from 1 to 500"
      else if offset <? 0 then http_exception 400 "Bad Request" "offset must be a non-negative integer"
      else Ok (limit, offset)
  | JInt limit, _ =>
      if negb (between 1 500 limit) then http_exception 400 "Bad Request" "limit must be an integer from 1 to 500"
      else http_exception 400 "Bad Request" "offset must be a non-negative integer"
  | _, _ => http_exception 400 "Bad Request" "limit must be an integer from 1 to 500"
  end.

(** The items of [body["results"]], each changed by [f]. *)
Definition map_results (f : json -> json) (body : json) : json :=
  match body with
  | JObj l => match items_lookup "results" l with Some (JArr results) => JObj (with_item "results" (JArr (map f results)) l) | _ => body end
  | _ => body
  end.

Definition paginate_related_item (limit offset : Z) (item : json) : json :=
  match item with
  | JObj l =>
      match items_lookup "success" l, items_lookup "result" l with
      | Some success, Some (JArr related) =>
          if json_truthy success then
            let page := slice limit offset related in
            JObj (with_item "pagination" (JObj (pagination (len related) (len page) offset)) (with_item "result" (JArr page) l))
          else item
      | _, _ => item
      end
  | _ => item
  end.

Definition paginate_mcp_related (limit offset : Z) : json -> json := map_results (paginate_related_item limit offset).

(** The page of the values that an object has itself. *)
Definition paginate_values (limit offset : Z) (l : items) : items :=
  match items_lookup "values" l with
  | Some (JArr values) =>
      let selected := slice limit offset values in
      with_item "pagination" (JObj (pagination (len values) (len selected) offset)) (with_item "values" (JArr selected) l)
  | _ => l
  end.

(** What becomes of an entry: the components get their own pages. *)
Definition page_components (f : json -> json) (key : string) (v : json) : json :=
  if bool_decide (key = "components") then match v with JObj components => JObj (map (fun q => (q.1, f q.2)) components) | v => v end else v.

Fixpoint paginate_history_result (limit offset : Z) (result : json) : json :=
  match result with
  | JObj l => JObj (paginate_values limit offset (map (fun p => (p.1, page_components (paginate_history_result limit offset) p.1 p.2)) l))
  | _ => result
  end.

Definition paginate_history_item (limit offset : Z) (item : json) : json :=
  match item with
  | JObj l =>
      match items_lookup "success" l, items_lookup "result" l with
      | Some success, Some (JObj result) =>
          if json_truthy success then JObj (with_item "result" (paginate_history_result limit offset (JObj result)) l) else item
      | _, _ => item
      end
  | _ => item
  end.

Definition paginate_mcp_history (limit offset : Z) : json -> json := map_results (paginate_history_item limit offset).

(** ** What a client finds in an answer *)

Definition json_field (key : string) (v : json) : option json := match v with JObj l => items_lookup key l | _ => None end.

(** The item of an element, if it succeeded. *)
Definition result_at (i : nat) (body : json) : option json :=
  results ← json_field "results" body;
  match results with
  | JArr l => item ← l !! i; success ← json_field "success" item; if json_truthy success then Some item else None
  | _ => None
  end.

(** A component of a component of ... a history. *)
Fixpoint component (path : list string) (v : json) : option json :=
  match path with
  | [] => Some v
  | key :: path' => components ← json_field "components" v; v' ← json_field key components; component path' v'
  end.

(** Where a list stands in the answer of a tool. *)
Inductive Place := whole_list | related_of (i : nat) | history_of (i : nat) (path : list string).

Definition paginate (place : Place) : Z -> Z -> json -> json :=
  match place with whole_list => paginate_mcp_list | related_of _ => paginate_mcp_related | history_of _ _ => paginate_mcp_history end.

(** The object that has the list, and under which key. *)
Definition holder (place : Place) (body : json) : option json :=
  match place with
  | whole_list => Some body
  | related_of i => result_at i body
  | history_of i path => item ← result_at i body; result ← json_field "result" item; component path result
  end.
Definition list_key (place : Place) : string := match place with history_of _ _ => "values" | _ => "result" end.

Definition elements (place : Place) (body : json) : option (list json) :=
  v ← holder place body; l ← json_field (list_key place) v; match l with JArr l => Some l | _ => None end.

Definition next_offset (place : Place) (body : json) : option Z :=
  v ← holder place body; p ← json_field "pagination" v; next ← json_field "nextOffset" p; match next with JInt z => Some z | _ => None end.

(** A client that follows [nextOffset]. *)
Fixpoint follow (fuel : nat) (place : Place) (call : Z -> json) (offset : Z) : option (list json) :=
  match fuel with
  | O => None
  | S fuel' =>
      l ← elements place (call offset);
      match next_offset place (call offset) with
      | Some offset' => app l <$> follow fuel' place call offset'
      | None => Some l
      end
  end.

(** ** Pages *)

#[local] Arguments len : simpl never.
#[local] Arguments slice : simpl never.
#[local] Arguments Z.add : simpl never.

Lemma items_lookup_map {A B} (f : string -> A -> B) (l : list (string * A)) k :
  items_lookup k (map (fun p => (p.1, f p.1 p.2)) l) = f k <$> items_lookup k l.
Proof. induction l as [|[k' v] l IH]; [done|]. cbn. case_bool_decide; [by subst|done]. Qed.

Lemma with_item_eq key x l : items_lookup key (with_item key x l) = Some x.
Proof. unfold with_item. rewrite items_lookup_insert. by rewrite bool_decide_true. Qed.

Lemma with_item_ne key key' x l : key ≠ key' -> items_lookup key' (with_item key x l) = items_lookup key' l.
Proof. intros H. unfold with_item. rewrite items_lookup_insert. by rewrite bool_decide_false. Qed.

Lemma pagination_next total returned offset :
  items_lookup "nextOffset" (pagination total returned offset) = if offset + returned <? total then Some (JInt (offset + returned)) else None.
Proof. unfold pagination. by destruct (offset + returned <? total). Qed.

(** An object with a page of a list. *)
Definition paged (limit offset : Z) (key : string) (l : list json) (v : json) : Prop :=
  json_field key v = Some (JArr (slice limit offset l)) /\ json_field "pagination" v = Some (JObj (pagination (len l) (len (slice limit offset l)) offset)).

Lemma paged_with_items limit offset key l o : key ≠ "pagination" ->
  paged limit offset key l (JObj (with_item "pagination" (JObj (pagination (len l) (len (slice limit offset l)) offset)) (with_item key (JArr (slice limit offset l)) o))).
Proof. intros H. split; cbn [json_field]; [rewrite with_item_ne by done|]; apply with_item_eq. Qed.

Lemma result_at_success i body item : result_at i body = Some item -> exists s, json_field "success" item = Some s /\ json_truthy s = true.
Proof.
  unfold result_at. destruct (json_field "results" body) as [[]|]; try done. cbn. destruct (_ !! i) as [x|]; [|done]. cbn.
  destruct (json_field "success" x) as [s|] eqn:Es; [|done]. cbn. destruct (json_truthy s) eqn:Et; [|done]. intros [= ->]. rewrite Es. eauto.
Qed.

Lemma map_results_at f i body item : result_at i body = Some item -> json_field "success" (f item) = json_field "success" item ->
  result_at i (map_results f body) = Some (f item).
Proof.
  unfold result_at, map_results. destruct body as [| | | | | |l]; try done. cbn [json_field]. destruct (items_lookup "results" l) as [v|] eqn:E; [|done].
  cbn [mbind option_bind]. destruct v as [| | | | |results|]; try done. cbn [json_field]. rewrite with_item_eq. cbn [mbind option_bind].
  rewrite list_lookup_fmap. destruct (results !! i) as [x|]; [|done]. cbn. intros H Hs. destruct (json_field "success" x) as [s|] eqn:Ex; [|done]. cbn in H.
  destruct (json_truthy s) eqn:Et; [|done]. injection H as ->. rewrite Hs, Ex. cbn. by rewrite Et.
Qed.

Lemma history_component limit offset path v w l : component path v = Some w -> json_field "values" w = Some (JArr l) ->
  exists w', component path (paginate_history_result limit offset v) = Some w' /\ paged limit offset "values" l w'.
Proof.
  revert v. induction path as [|key path IH]; intros v; cbn [component].
  - intros [= ->] H. eexists. split; [done|]. destruct w as [| | | | | |o]; try done. cbn [json_field] in H. cbn [paginate_history_result].
    set (o' := map _ o). assert (items_lookup "values" o' = Some (JArr l)) as Ho.
    { subst o'. rewrite (items_lookup_map (page_components (paginate_history_result limit offset))). by rewrite H. }
    unfold paginate_values. rewrite Ho. by apply paged_with_items.
  - destruct v as [| | | | | |o]; try done. cbn [json_field]. destruct (items_lookup "components" o) as [c|] eqn:E; [|done]. cbn [mbind option_bind].
    destruct c as [| | | | | |components]; try done. cbn [json_field]. destruct (items_lookup key components) as [v'|] eqn:Ek; [|done]. cbn [mbind option_bind]. intros Hp Hl.
    destruct (IH v' Hp Hl) as (w' & Hw & Hpaged). exists w'. split; [|done]. cbn [paginate_history_result json_field]. set (o' := map _ o).
    assert (items_lookup "components" o' = Some (JObj (map (fun q => (q.1, paginate_history_result limit offset q.2)) components))) as Ho.
    { subst o'. rewrite (items_lookup_map (page_components (paginate_history_result limit offset))). by rewrite E. }
    assert (items_lookup "components" (paginate_values limit offset o') = items_lookup "components" o') as ->.
    { unfold paginate_values. destruct (items_lookup "values" o') as [[]|]; try done. by rewrite !with_item_ne. }
    rewrite Ho. cbn [mbind option_bind json_field]. rewrite (items_lookup_map (fun _ => paginate_history_result limit offset)), Ek. exact Hw.
Qed.

(** A page has its part of the list, wherever it stands. *)
Lemma page_at place limit offset body l : elements place body = Some l ->
  exists v, holder place (paginate place limit offset body) = Some v /\ paged limit offset (list_key place) l v.
Proof.
  unfold elements. destruct (holder place body) as [v|] eqn:Eh; [|done]. cbn [mbind option_bind].
  destruct (json_field (list_key place) v) as [lv|] eqn:El; [|done]. cbn [mbind option_bind]. destruct lv as [| | | | |l0|]; try done. intros [= ->].
  destruct place as [|i|i path]; cbn [holder list_key paginate] in *.
  - injection Eh as <-. eexists. split; [done|]. destruct body as [| | | | | |o]; try done. cbn [json_field] in El. cbn [paginate_mcp_list]. rewrite El. by apply paged_with_items.
  - exists (paginate_related_item limit offset v). destruct (result_at_success _ _ _ Eh) as (s & Hs & Ht). destruct v as [| | | | | |o]; try done. cbn [json_field] in *.
    assert (Hp : paginate_related_item limit offset (JObj o) = JObj (with_item "pagination" (JObj (pagination (len l) (len (slice limit offset l)) offset)) (with_item "result" (JArr (slice limit offset l)) o))).
    { unfold paginate_related_item. by rewrite Hs, El, Ht. }
    split; [apply map_results_at; [done|]|]; rewrite Hp; [cbn [json_field]; by rewrite !with_item_ne|by apply paged_with_items].
  - destruct (result_at i body) as [item|] eqn:Er; [|done]. cbn [mbind option_bind] in Eh. destruct (json_field "result" item) as [result|] eqn:Ef; [|done]. cbn [mbind option_bind] in Eh.
    destruct (history_component limit offset path result v l Eh El) as (w' & Hw & Hpaged). exists w'. split; [|done].
    destruct (result_at_success _ _ _ Er) as (s & Hs & Ht). destruct item as [| | | | | |o]; try done. cbn [json_field] in *.
    assert (Hobj : exists ro, result = JObj ro).
    { destruct result; [| | | | | |by eexists]; exfalso; by destruct path; cbn in Eh; simplify_eq. }
    destruct Hobj as [ro ->].
    assert (Hp : paginate_history_item limit offset (JObj o) = JObj (with_item "result" (paginate_history_result limit offset (JObj ro)) o)).
    { unfold paginate_history_item. by rewrite Hs, Ef, Ht. }
    unfold paginate_mcp_history. rewrite (map_results_at _ i body (JObj o)); [|done|rewrite Hp; cbn [json_field]; by rewrite with_item_ne].
    rewrite Hp. cbn [mbind option_bind json_field]. by rewrite with_item_eq.
Qed.

Lemma slice_drop {A} limit offset (l : list A) : 0 < limit -> 0 <= offset ->
  slice limit offset l ++ drop (Z.to_nat (offset + len (slice limit offset l))) l = drop (Z.to_nat offset) l.
Proof.
  intros Hl Ho. unfold slice, len. rewrite length_take, length_drop. rewrite <-(take_drop (Z.to_nat limit) (drop (Z.to_nat offset) l)) at 2. f_equal.
  rewrite drop_drop. destruct (decide (Z.to_nat limit <= length l - Z.to_nat offset)%nat).
  - f_equal. lia.
  - rewrite !drop_ge by lia. done.
Qed.

(** C25. Paging through an answer is complete: a client that calls a tool from offset 0 on, with any limit, and follows
    [nextOffset] at a list of the answer (the objects or types, the objects related to one element, the values of one
    element or of any of its components) comes to an end, and has then got exactly that list, in order. *)
Theorem mcp_pages_complete place limit body l :
  0 < limit -> elements place body = Some l -> follow (S (length l)) place (fun offset => paginate place limit offset body) 0 = Some l.
Proof.
  intros Hlimit Hl. assert (H : forall fuel offset, 0 <= offset -> (length l < fuel + Z.to_nat offset)%nat ->
    follow fuel place (fun offset => paginate place limit offset body) offset = Some (drop (Z.to_nat offset) l) \/ (fuel = 0%nat)).
  { induction fuel as [|fuel IH]; intros offset Ho Hf; [by right|]. left. cbn [follow].
    destruct (page_at place limit offset body l Hl) as (v & Hv & Hk & Hp). unfold elements at 1, next_offset at 1. rewrite Hv. cbn [mbind option_bind].
    rewrite Hk, Hp. cbn [mbind option_bind json_field]. pose proof (slice_drop limit offset l Hlimit Ho) as Hs. rewrite pagination_next.
    destruct (Z.ltb_spec (offset + len (slice limit offset l)) (len l)) as [Hn|Hn]; cbn [mbind option_bind].
    - assert (Hpos : 0 < len (slice limit offset l)) by (unfold slice, len in *; rewrite length_take, length_drop in *; lia).
      destruct (IH (offset + len (slice limit offset l))) as [-> | ->]; [lia|lia| |].
      + cbn. by rewrite Hs.
      + exfalso. unfold len in *. lia.
    - rewrite <-Hs. rewrite (drop_ge l) by (unfold len in *; lia). by rewrite app_nil_r. }
  destruct (H (S (length l)) 0) as [->|?]; [lia|lia|done|done].
Qed.

Definition history_page : json :=
  JObj [("success", JBool true); ("results", JArr [JObj [("success", JBool true); ("elementId", JStr "pump"); ("result",
    JObj [("values", JArr [JInt 1; JInt 2; JInt 3]); ("components", JObj [("rpm", JObj [("values", JArr [JInt 4; JInt 5; JInt 6; JInt 7])])])])]])].

(** Pages of two values at a component of an element. *)
Lemma mcp_pages_complete_witness :
  0 < 2 /\ follow 5 (history_of 0 ["rpm"]) (fun offset => paginate_mcp_history 2 offset history_page) 0 = Some [JInt 4; JInt 5; JInt 6; JInt 7].
Proof. split; [lia|]. apply (mcp_pages_complete (history_of 0 ["rpm"]) 2 history_page [JInt 4; JInt 5; JInt 6; JInt 7]); [lia|reflexivity]. Defined.

End McpPages.
