(* ===== verification/McpContainer.v ===== *)
(** The MCP tool [readContainerValues] ([mcp/invocation.py]): the properties below an element, a page of them, and their
    values from the REST route, in batches; and the calls that the MCP server makes within the process. *)

From S2P Require Export ModelTypes Async McpPages.

Module McpContainer.
Export ModelTypes McpPages.
Local Open Scope async_scope.

Definition MCP_CONTAINER_VALUES_BATCH_SIZE : nat := 10.
Definition MCP_CONTAINER_VALUES_MAX_NODES : nat := 5000.
Definition MCP_CONTAINER_VALUES_MAX_DEPTH : nat := 32.

(** ** Calls within the process *)

(** A body: what [json.dumps] makes of a value, or bytes from elsewhere. *)
Inductive Body := Dumped (v : json) | Raw (bytes : string).

Record InternalASGIResponse := { rs_status_code : Z; rs_headers : dict string string; rs_body : Body }.

(** What the application gets of a request. *)
Record Scope := { sc_method : string; sc_path : string; sc_query_params : dict string json; sc_body : option json }.

Inductive asgi_message :=
  | ResponseStart (status : option Z) (headers : list (string * string))
  | ResponseBody (body : option string)
  | OtherMessage.

(** [await model_provider(request)] and [await app(scope, receive, send)], with the messages that were sent. *)
Inductive mcp_request : Type -> Type :=
  | ProvideModel : mcp_request (outcome exn BuildResult)
  | CallApp (scope : Scope) : mcp_request (outcome exn (list asgi_message)).

Fixpoint collect_response (messages : list asgi_message) (status_code : Z) (headers : dict string string) (chunks : string) : InternalASGIResponse :=
  match messages with
  | [] => {| rs_status_code := status_code; rs_headers := headers; rs_body := Raw chunks |}
  | ResponseStart status raw_headers :: messages' =>
      collect_response messages' (default 500 status) (dict_update_list (map (fun h => (lower h.1, h.2)) raw_headers) headers) chunks
  | ResponseBody body :: messages' => collect_response messages' status_code headers (chunks +:+ default ε body)
  | OtherMessage :: messages' => collect_response messages' status_code headers chunks
  end.

Definition upper (s : string) : string := of_chars (map upper_char (chars s)).

(** A method of the MCP server, over whatever state the server keeps. *)
Abbreviation method S A := (prog S mcp_request (outcome exn A)).

Definition invoke_internal_asgi {S} (http_method path : string) (query_params : dict string json) (request_body : option json) : method S InternalASGIResponse :=
  obind (call (CallApp {| sc_method := upper http_method; sc_path := path; sc_query_params := query_params; sc_body := request_body |})) (fun messages =>
  Ret (Ok (collect_response messages 500 ∅ ε))).

Definition json_response (body : json) : InternalASGIResponse :=
  {| rs_status_code := 200; rs_headers := dict_of_list [("content-type", "application/json")]; rs_body := Dumped body |}.

(** What start-up leaves in [app.state]: whether there is a model provider, and the prefix of the API if it is a string. *)
Record McpConfig := { mcp_model_provider : bool; mcp_api_prefix : option string }.

(** ** The walk *)

Definition too_many_nodes {A} : outcome exn A := http_exception 413 "Content Too Large" "Container subtree exceeds 5000 nodes".
Definition too_deep {A} : outcome exn A := http_exception 413 "Content Too Large" "Container subtree exceeds depth 32".

(** The end of [pending] is its head. Without fuel the walk has not ended. *)
Fixpoint container_walk (fuel : nat) (model : BuildResult) (visited : list string) (pending : list (string * nat)) (properties : list ModelNode)
    : option (outcome exn (list ModelNode)) :=
  match pending with
  | [] => Some (Ok properties)
  | (element_id, depth) :: pending =>
      match fuel with
      | O => None
      | S fuel' =>
          if bool_decide (element_id ∈ visited) then container_walk fuel' model visited pending properties
          else
            let visited := element_id :: visited in
            if Nat.ltb MCP_CONTAINER_VALUES_MAX_NODES (length visited) then Some too_many_nodes
            else if Nat.ltb MCP_CONTAINER_VALUES_MAX_DEPTH depth then Some too_deep
            else match nodes_by_id model !! element_id with
                 | None => container_walk fuel' model visited pending properties
                 | Some node =>
                     if bool_decide (n_kind node = property) then container_walk fuel' model visited pending (properties ++ [node])
                     else container_walk fuel' model visited
                            (map (fun child_id => (child_id, S depth)) (default [] (children_by_id model !! element_id)) ++ pending) properties
                 end
      end
  end.

(** ** The values *)

(** The results of a batch, by their elements. *)
Fixpoint add_results (results : list json) (values_by_id : dict string items) : dict string items :=
  match results with
  | [] => values_by_id
  | JObj result :: results' =>
      match items_lookup "elementId" result with
      | Some (JStr id) => add_results results' (<[id := result]> values_by_id)
      | _ => add_results results' values_by_id
      end
  | _ :: results' => add_results results' values_by_id
  end.

(** [result.get(key)]. *)
Definition get (key : string) (v : items) : json := default JNull (items_lookup key v).

Definition compact_vqt (vqt : json) : json :=
  match vqt with
  | JObj l => JObj (omap (fun key => (key,.) <$> items_lookup key l) ["value"; "quality"; "timestamp"])
  | v => v
  end.

(** An item of the answer, and whether it succeeded. *)
Definition container_item (values_by_id : dict string items) (node : ModelNode) : bool * json :=
  let named (success : bool) (rest : items) := (success, JObj (("id", JStr (n_id node)) :: ("name", JStr (n_name node)) :: ("success", JBool success) :: rest)) in
  match values_by_id !! n_id node with
  | None => named false [("error", JObj [("message", JStr "Value endpoint returned no result for this property")])]
  | Some result =>
      match items_lookup "success" result with
      | Some (JBool true) => named true [("value", compact_vqt (get "result" result))]
      | _ => named false [("error", get "error" result); ("responseDetail", get "responseDetail" result)]
      end
  end.

Definition container_body (container_id : string) (total offset : Z) (page : list ModelNode) (values_by_id : dict string items) : json :=
  let items := map (container_item values_by_id) page in
  JObj ([("success", JBool (forallb fst items)); ("containerId", JStr container_id); ("total", JInt total); ("returned", JInt (len items));
         ("offset", JInt offset); ("items", JArr (map snd items))] ++
        (if offset + len page <? total then [("nextOffset", JInt (offset + len page))] else [])).

Section Container.
(** [json.loads] of bytes; [None] where they are no UTF-8 or no JSON. *)
Context (loads : string -> option json) (bracketed_netloc_ok : text -> bool).

Definition loads_body (body : Body) : option json := match body with Dumped v => Some v | Raw bytes => loads bytes end.

(** The values of the batches, or the response of the route where it refuses a batch. *)
Fixpoint read_batches {S} (value_path : string) (batches : list (list ModelNode)) (values_by_id : dict string items)
    : method S (InternalASGIResponse + dict string items) :=
  match batches with
  | [] => Ret (Ok (inr values_by_id))
  | batch :: batches' =>
      obind (invoke_internal_asgi "POST" value_path ∅
        (Some (JObj [("elementIds", JArr (map (fun node => JStr (n_id node)) batch)); ("maxDepth", JInt 1)]))) (fun response =>
      if 400 <=? rs_status_code response then Ret (Ok (inl response))
      else match loads_body (rs_body response) with
           | None => Ret (http_exception 502 "Bad Gateway" "Value endpoint returned invalid JSON")
           | Some body =>
               match body with
               | JObj l =>
                   match items_lookup "results" l with
                   | Some (JArr results) => read_batches value_path batches' (add_results results values_by_id)
                   | _ => Ret (http_exception 502 "Bad Gateway" "Value endpoint returned an invalid result")
                   end
               | _ => Ret (http_exception 502 "Bad Gateway" "Value endpoint returned an invalid result")
               end
           end)
  end.

(** The checks of the arguments. *)
Definition container_arguments (container_id limit offset : json) : outcome exn (string * Z * Z) :=
  match container_id with
  | JStr id =>
      if negb (truthy (strip id)) then http_exception 400 "Bad Request" "containerId must not be empty"
      else match limit with
           | JInt limit =>
               if negb (between 1 50 limit) then http_exception 400 "Bad Request" "limit must be an integer from 1 to 50"
               else match offset with
                    | JInt offset => if offset <? 0 then http_exception 400 "Bad Request" "offset must be a non-negative integer" else Ok (id, limit, offset)
                    | _ => http_exception 400 "Bad Request" "offset must be a non-negative integer"
                    end
           | _ => http_exception 400 "Bad Request" "limit must be an integer from 1 to 50"
           end
  | _ => http_exception 400 "Bad Request" "containerId must not be empty"
  end.

Definition provide_model {S} (config : McpConfig) : method S BuildResult :=
  if mcp_model_provider config then call ProvideModel else Ret (http_exception 500 "Internal Error" "MCP model provider is not initialized").

(** The steps that the walk can take: every element is expanded once. *)
Definition container_fuel (model : BuildResult) : nat := S (sum_list_with (fun p => length p.2) (dict_items (children_by_id model))).

Definition walk_not_finished : exn := OtherException "not finished".

Definition invoke_container_values {S} (config : McpConfig) (container_id limit offset : json) : method S InternalASGIResponse :=
  obind (Ret (container_arguments container_id limit offset)) (fun arguments =>
  let '(container_id, limit, offset) := arguments in
  obind (provide_model config) (fun model =>
  match nodes_by_id model !! container_id with
  | None => Ret (http_exception 404 "Not Found" ("Container not found: " +:+ container_id))
  | Some container =>
      if bool_decide (n_kind container = property) then Ret (http_exception 400 "Bad Request" "containerId must identify an object, not a property")
      else
        obind (Ret (default (Err walk_not_finished) (container_walk (container_fuel model) model [] [(container_id, 0%nat)] []))) (fun properties =>
        let page := slice limit offset properties in
        obind (Ret (safe_request_path bracketed_netloc_ok (chars (default ε (mcp_api_prefix config))) (chars "/v1/objects/value"))) (fun value_path =>
        obind (read_batches (of_chars value_path) (chunked MCP_CONTAINER_VALUES_BATCH_SIZE page) ∅) (fun values =>
        Ret (Ok (match values with
                 | inl response => response
                 | inr values_by_id => json_response (container_body container_id (len properties) offset page values_by_id)
                 end)))))
  end)).
End Container.

End McpContainer.

(** ** What [readContainerValues] answers: the walk finds every property below the container once, or says that the subtree is
    too large; each property of the page comes with the result that the value route gives for it. *)
Module McpContainerSpec.
Import McpContainer.
Local Open Scope async_scope.

(** ** The elements below a container *)

Section Walk.
Context (model : BuildResult).

(** [b] is a child of [a], which is no property. *)
Definition edge (a b : string) : Prop :=
  exists node, nodes_by_id model !! a = Some node /\ n_kind node ≠ property /\ b ∈ default [] (children_by_id model !! a).

Definition below : string -> string -> Prop := rtc edge.

(** The property with this id. *)
Definition property_of (id : string) : option ModelNode :=
  node ← nodes_by_id model !! id; if bool_decide (n_kind node = property) then Some node else None.

(** The elements on the way from [root] to an element, the nearest one first. *)
Inductive trail (root : string) : string -> list string -> Prop :=
  | trail_root : trail root root []
  | trail_step a b path : trail root a path -> edge a b -> trail root b (a :: path).

Lemma trail_below root id path : trail root id path -> below root id.
Proof. induction 1 as [|a b path _ IH He]; [constructor|]. by eapply rtc_r. Qed.

Definition too_large (root : string) : Prop :=
  exists ids, NoDup ids /\ length ids = S MCP_CONTAINER_VALUES_MAX_NODES /\ (forall id, id ∈ ids -> below root id).

Definition too_high (root : string) : Prop :=
  exists id path, trail root id path /\ NoDup (id :: path) /\ (MCP_CONTAINER_VALUES_MAX_DEPTH < length path)%nat.

(** Every child of a visited element is visited or waits. *)
Definition closed (visited waiting : list string) : Prop := forall a b, a ∈ visited -> edge a b -> b ∈ visited \/ b ∈ waiting.

(** A waiting element can be reached by visited ones. *)
Definition reached (root : string) (visited : list string) (entry : string * nat) : Prop :=
  exists path, trail root entry.1 path /\ NoDup path /\ length path = entry.2 /\ path ⊆ visited.

(** What has been found since [visited]. *)
Definition found (root : string) (visited waiting : list string) (before after : list ModelNode) : Prop :=
  exists new, after = before ++ omap property_of new /\ NoDup (new ++ visited) /\ (forall x, x ∈ new -> below root x) /\
    closed (new ++ visited) [] /\ waiting ⊆ new ++ visited /\ (length (new ++ visited) <= MCP_CONTAINER_VALUES_MAX_NODES)%nat.

Lemma found_visit root id visited waiting waiting' before middle after :
  below root id -> middle = before ++ omap property_of [id] -> waiting ⊆ waiting' ->
  found root (id :: visited) waiting' middle after -> found root visited (id :: waiting) before after.
Proof.
  intros Hb -> Hw (new & -> & Hnd & Hr & Hc & Hin & Hlen). exists (id :: new).
  assert (Hp : (id :: new) ++ visited ≡ₚ new ++ id :: visited) by (cbn; by rewrite Permutation_middle). split_and!.
  - cbn. rewrite <-app_assoc. f_equal. by destruct (property_of id).
  - by rewrite Hp.
  - intros x [->|Hx]%elem_of_cons; [done|by apply Hr].
  - intros a b Ha He. rewrite Hp in Ha. rewrite Hp. by apply (Hc a b).
  - intros x Hx. rewrite Hp. set_solver.
  - by rewrite Hp.
Qed.

Lemma container_walk_found root fuel visited pending before :
  (length pending + unseen_weight length visited (dict_items (children_by_id model)) <= fuel)%nat ->
  NoDup visited -> (length visited <= MCP_CONTAINER_VALUES_MAX_NODES)%nat -> (forall x, x ∈ visited -> below root x) ->
  (forall entry, entry ∈ pending -> reached root visited entry) -> closed visited (pending.*1) ->
  match container_walk fuel model visited pending before with
  | None => False
  | Some (Ok after) => found root visited (pending.*1) before after
  | Some (Err e) => Err e = too_many_nodes (A := unit) /\ too_large root \/ Err e = too_deep (A := unit) /\ too_high root
  end.
Proof.
  revert visited pending before. induction fuel as [|fuel IH]; intros visited pending before Hfuel Hnd Hlen Hvis Hpend Hcl;
    destruct pending as [|[id depth] pending]; cbn [container_walk].
  1, 3: exists []; rewrite app_nil_r; by split_and!; try set_solver.
  { cbn in Hfuel. lia. }
  assert (Hpend' : forall visited', visited ⊆ visited' -> forall entry, entry ∈ pending -> reached root visited' entry).
  { intros visited' Hsub entry He. destruct (Hpend entry) as (path & ? & ? & ? & ?); [by right|]. exists path. split_and!; [done..|]. set_solver. }
  destruct (Hpend (id, depth)) as (path & Ht & Hpnd & Hpl & Hps); [by left|]. cbn [fst snd] in *. pose proof (trail_below _ _ _ Ht) as Hb.
  case_bool_decide as Hid.
  { specialize (IH visited pending before). cbn [length] in Hfuel.
    assert (Hcl' : closed visited (pending.*1)) by (intros a b Ha He; destruct (Hcl a b Ha He); set_solver).
    specialize (IH ltac:(lia) Hnd Hlen Hvis (Hpend' visited ltac:(done)) Hcl'). destruct (container_walk _ _ _ _ _) as [[after|e]|]; [|done..].
    destruct IH as (new & ? & ? & ? & ? & Hin & ?). exists new. split_and!; try done. cbn. set_solver. }
  assert (Hnd' : NoDup (id :: visited)) by by constructor.
  assert (Hvis' : forall x, x ∈ id :: visited -> below root x) by (intros x [->|Hx]%elem_of_cons; auto).
  destruct (Nat.ltb_spec MCP_CONTAINER_VALUES_MAX_NODES (length (id :: visited))) as [Hmany|Hmany].
  { left. split; [done|]. exists (id :: visited). split_and!; try done. cbn [length] in *. lia. }
  destruct (Nat.ltb_spec MCP_CONTAINER_VALUES_MAX_DEPTH depth) as [Hdeep|Hdeep].
  { right. split; [done|]. exists id, path. split_and!; [done| |lia]. constructor; [set_solver|done]. }
  assert (Hweight : (unseen_weight length (id :: visited) (dict_items (children_by_id model)) <= unseen_weight length visited (dict_items (children_by_id model)))%nat)
    by apply unseen_weight_seen.
  (* An element without children to visit. *)
  assert (Hleaf : (forall b, ~ edge id b) -> closed (id :: visited) (pending.*1)).
  { intros Hno a b [->|Ha]%elem_of_cons He; [by destruct (Hno b)|]. destruct (Hcl a b Ha He); set_solver. }
  cbn [length] in Hfuel. destruct (nodes_by_id model !! id) as [node|] eqn:En.
  2: { specialize (IH (id :: visited) pending before ltac:(lia) Hnd' Hmany Hvis' (Hpend' (id :: visited) ltac:(set_solver)) ltac:(apply Hleaf; intros b (n & E & _); congruence)).
    destruct (container_walk _ _ _ _ _) as [[after|e]|]; [|done..]. change (((id, depth) :: pending).*1) with (id :: pending.*1). eapply (found_visit _ id _ (pending.*1) (pending.*1)); [done| |done|exact IH]. cbn. unfold property_of. by rewrite En, app_nil_r. }
  case_bool_decide as Ek.
  { specialize (IH (id :: visited) pending (before ++ [node]) ltac:(lia) Hnd' Hmany Hvis' (Hpend' (id :: visited) ltac:(set_solver)) ltac:(apply Hleaf; intros b (n & E & E' & _); congruence)).
    destruct (container_walk _ _ _ _ _) as [[after|e]|]; [|done..]. change (((id, depth) :: pending).*1) with (id :: pending.*1). eapply (found_visit _ id _ (pending.*1) (pending.*1)); [done| |done|exact IH]. cbn. unfold property_of. rewrite En. cbn.
    by rewrite bool_decide_true. }
  set (children := default [] (children_by_id model !! id)). set (entries := map _ children).
  assert (Hentries : entries.*1 = children) by (unfold entries; clear; induction children as [|c l IH]; [done|]; cbn; by f_equal).
  assert (Hchild : forall b, edge id b <-> b ∈ children).
  { intros b. split; [intros (n & _ & _ & H); exact H|]. intros H. by exists node. }
  assert (Hw : (length children + unseen_weight length (id :: visited) (dict_items (children_by_id model)) <= unseen_weight length visited (dict_items (children_by_id model)))%nat).
  { subst children. destruct (children_by_id model !! id) as [l|] eqn:El; [|exact Hweight]. cbn [default]. rewrite Nat.add_comm.
    apply unseen_weight_take; [by apply dict_lookup_items|done]. }
  assert (Hlen' : length entries = length children) by (by rewrite <-Hentries, length_fmap).
  specialize (IH (id :: visited) (entries ++ pending) before). rewrite length_app, Hlen', fmap_app, Hentries in IH.
  specialize (IH ltac:(lia) Hnd' Hmany Hvis').
  assert (Hreach : forall entry, entry ∈ entries ++ pending -> reached root (id :: visited) entry).
  { intros entry [He|He]%elem_of_app; [|by apply Hpend'; [set_solver|]]. apply elem_of_map in He as (c & -> & Hc). exists (id :: path). cbn.
    split_and!; [by apply trail_step; [|apply Hchild]|constructor; [set_solver|done]|by f_equal|set_solver]. }
  assert (Hclosed : closed (id :: visited) (children ++ pending.*1)).
  { intros a b [->|Ha]%elem_of_cons He; [right; apply elem_of_app; left; by apply Hchild|]. destruct (Hcl a b Ha He); set_solver. }
  specialize (IH Hreach Hclosed). destruct (container_walk _ _ _ _ _) as [[after|e]|]; [|done..].
  change (((id, depth) :: pending).*1) with (id :: pending.*1). eapply (found_visit _ id _ (pending.*1) (children ++ pending.*1)); [done| |set_solver|exact IH]. cbn. unfold property_of. rewrite En. cbn. rewrite bool_decide_false by done. by rewrite app_nil_r.
Qed.

(** The walk of a container. *)
Lemma container_walk_exact root :
  match container_walk (container_fuel model) model [] [(root, 0%nat)] [] with
  | None => False
  | Some (Ok properties) => exists ids, NoDup ids /\ (forall id, id ∈ ids <-> below root id) /\ properties = omap property_of ids /\
      (length ids <= MCP_CONTAINER_VALUES_MAX_NODES)%nat
  | Some (Err e) => Err e = too_many_nodes (A := unit) /\ too_large root \/ Err e = too_deep (A := unit) /\ too_high root
  end.
Proof.
  assert (Hfuel : (length [(root, 0%nat)] + unseen_weight length [] (dict_items (children_by_id model)) <= container_fuel model)%nat)
    by (unfold container_fuel; rewrite unseen_weight_all; cbn; lia).
  assert (Hstart : forall entry, entry ∈ [(root, 0%nat)] -> reached root [] entry).
  { intros entry ->%list_elem_of_singleton. exists []. split_and!; [constructor|constructor|done|done]. }
  pose proof (container_walk_found root _ [] _ [] Hfuel (NoDup_nil_2) (Nat.le_0_l _) ltac:(by intros x ?%elem_of_nil) Hstart
    ltac:(by intros a b ?%elem_of_nil)) as H.
  destruct (container_walk _ _ _ _ _) as [[after|e]|]; [|done..]. destruct H as (new & -> & Hnd & Hr & Hc & Hin & Hlen).
  rewrite app_nil_r in *. exists new. split_and!; [done| |done|done]. intros id. split; [apply Hr|]. intros Hb.
  assert (Hroot : root ∈ new) by (apply Hin; by left). clear - Hb Hroot Hc. revert Hroot. induction Hb as [|a b c He _ IH]; [done|]. intros Ha. apply IH.
  by destruct (Hc a b Ha He) as [|?%elem_of_nil].
Qed.
End Walk.

(** ** The answer *)

Section Answer.
Context (loads : string -> option json) (bracketed_netloc_ok : text -> bool).

(** A value route that answers each element of a batch with an object of its own, and a model that is there. *)
Definition value_contract (model : BuildResult) (value_path : string) (answer : string -> items) R (c : mcp_request R) : R -> Prop :=
  match c in mcp_request R return R -> Prop with
  | ProvideModel => fun r => r = Ok model
  | CallApp scope => fun r =>
      forall ids, sc_method scope = "POST" -> sc_path scope = value_path ->
        sc_body scope = Some (JObj [("elementIds", JArr (map JStr ids)); ("maxDepth", JInt 1)]) ->
        exists messages response l, r = Ok messages /\ response = collect_response messages 500 ∅ ε /\ rs_status_code response < 400 /\
          loads_body loads (rs_body response) = Some (JObj l) /\ items_lookup "results" l = Some (JArr (map (fun id => JObj (answer id)) ids))
  end.

Context (model : BuildResult) (value_path : string) (answer : string -> items) (Hanswer : forall id, items_lookup "elementId" (answer id) = Some (JStr id)).

Lemma add_results_answers ids values_by_id id :
  add_results (map (fun id => JObj (answer id)) ids) values_by_id !! id = if bool_decide (id ∈ ids) then Some (answer id) else values_by_id !! id.
Proof using Hanswer.
  clear value_path model loads. revert values_by_id. induction ids as [|x ids IH]; intros values_by_id; [done|]. cbn [map add_results]. rewrite Hanswer, IH, dict_lookup_insert.
  repeat case_bool_decide; try done; subst; set_solver.
Qed.

Lemma read_batches_answers {S} batches values_by_id :
  holds (value_contract model value_path answer) (read_batches (S := S) loads value_path batches values_by_id)
    (fun r => exists values, r = Ok (inr values) /\
       forall id, values !! id = if bool_decide (id ∈ map n_id (List.concat batches)) then Some (answer id) else values_by_id !! id).
Proof using Hanswer.
  revert values_by_id. induction batches as [|batch batches IH]; intros values_by_id; cbn [read_batches]; [apply holds_ret; by exists values_by_id|].
  unfold invoke_internal_asgi. eapply (holds_obind _ _ _ (fun r => exists response l, r = Ok response /\ rs_status_code response < 400 /\
    loads_body loads (rs_body response) = Some (JObj l) /\ items_lookup "results" l = Some (JArr (map (fun id => JObj (answer id)) (map n_id batch))))).
  - eapply holds_obind; [apply holds_ask; intros r Hr; exact Hr| |].
    + intros messages Hm. apply holds_ret. destruct (Hm (map n_id batch)) as (messages' & response & l & [= ->] & -> & H); [done|done|by rewrite List.map_map|].
      eexists _, l. by split.
    + intros e Hm. destruct (Hm (map n_id batch)) as (? & ? & ? & ? & _); [done|done|by rewrite List.map_map|done].
  - intros response (response' & l & [= <-] & Hs & Hl & Hr). destruct (Z.leb_spec 400 (rs_status_code response)); [lia|]. rewrite Hl, Hr.
    eapply holds_mono; [apply IH|]. intros r (values & -> & Hv). exists values. split; [done|]. intros id. rewrite Hv, add_results_answers. cbn [List.concat].
    rewrite List.map_app. repeat case_bool_decide; set_solver.
  - by intros e (? & ? & ? & _).
Qed.
End Answer.

(** The item of a property whose result is known. *)
Definition expected_item (answer : string -> items) (node : ModelNode) : bool * json :=
  container_item (dict_of_list [(n_id node, answer (n_id node))]) node.

(** The page of the properties below a container with their results, or the reason why the subtree is too large. *)
Definition container_answer (model : BuildResult) (answer : string -> items) (container_id : string) (limit offset : Z)
    (r : outcome exn InternalASGIResponse) : Prop :=
  match r with
  | Ok response => exists ids properties values_by_id, NoDup ids /\ (forall id, id ∈ ids <-> below model container_id id) /\
      properties = omap (property_of model) ids /\
      let page := slice limit offset properties in
      response = json_response (container_body container_id (len properties) offset page values_by_id) /\
      map (container_item values_by_id) page = map (expected_item answer) page
  | Err e => Err e = too_many_nodes (A := unit) /\ too_large model container_id \/ Err e = too_deep (A := unit) /\ too_high model container_id
  end.

(** Reading the values of a container is exact. On any model, also one with cycles, and against a value route that answers every
    element it is asked for, the tool ends; it answers with a page of the properties that can be reached below the container,
    each of them once among the pages, with the result of the value route for that very property; or it refuses,
    and then there really are more than 5000 elements, or one that was found more than 32 levels below the container. *)
Theorem container_values_exact {S} loads bracketed_netloc_ok config model value_path answer container_id container limit offset :
  mcp_model_provider config = true ->
  (forall id, items_lookup "elementId" (answer id) = Some (JStr id)) ->
  safe_request_path bracketed_netloc_ok (chars (default ε (mcp_api_prefix config))) (chars "/v1/objects/value") = Ok value_path ->
  nodes_by_id model !! container_id = Some container -> n_kind container ≠ property -> truthy (strip container_id) = true ->
  1 <= limit <= 50 -> 0 <= offset ->
  holds (value_contract loads model (of_chars value_path) answer)
    (invoke_container_values (S := S) loads bracketed_netloc_ok config (JStr container_id) (JInt limit) (JInt offset))
    (container_answer model answer container_id limit offset).
Proof.
  intros Hst Hanswer Hpath Hc Hk Hid Hlimit Hoffset. unfold invoke_container_values, container_arguments, provide_model. rewrite Hid. cbn [negb].
  assert (between 1 50 limit = true) as -> by (unfold between; apply andb_true_iff; split; apply Z.leb_le; lia). cbn [negb].
  destruct (Z.ltb_spec offset 0) as [|_]; [lia|]. cbn [obind pbind]. rewrite Hst.
  eapply holds_obind; [apply holds_ask; intros r Hr; exact Hr| |done]. intros model' Hm. injection Hm as ->. rewrite Hc, bool_decide_false by done.
  pose proof (container_walk_exact model container_id) as Hw. destruct (container_walk _ _ _ _ _) as [[properties|e]|]; [|cbn; by intros s|done].
  destruct Hw as (ids & Hnd & Hbelow & -> & _). cbn [default obind pbind]. rewrite Hpath. cbn [pbind].
  set (properties := omap _ ids). set (page := slice limit offset properties).
  eapply holds_obind; [by apply read_batches_answers| |by intros e (? & ? & _)]. intros v (values & [= ->] & Hv). apply holds_ret.
  exists ids, properties, values. split_and!; [done..|]. cbv zeta. split; [done|]. apply List.map_ext_in. intros node Hn%list_elem_of_In.
  unfold expected_item, container_item. rewrite Hv, concat_chunked by (unfold MCP_CONTAINER_VALUES_BATCH_SIZE; lia).
  rewrite bool_decide_true by (apply elem_of_map; by exists node). unfold dict_of_list, dict_update_list. cbn [fold_left]. by rewrite dict_lookup_insert_eq.
Qed.

(** A boiler with two sensors, one of them in a circuit that leads back to the boiler. *)
Definition boiler : BuildResult :=
  two_plane_model [simple_node "boiler" "Boiler" asset "ns=2;i=1"; simple_node "loop" "Loop" asset "ns=2;i=2"; simple_node "temp" "Temp" property "ns=2;i=3";
                   simple_node "flow" "Flow" property "ns=2;i=4"] ["boiler"] [("boiler", ["loop"; "temp"]); ("loop", ["flow"; "boiler"])] [].

Definition boiler_answer (id : string) : items :=
  [("elementId", JStr id); ("success", JBool (bool_decide (id = "temp"))); ("result", JObj [("value", JInt 7); ("isComposition", JBool false)])].

(** A route that answers with the ids, and a reader that makes the results of them. *)
Definition boiler_loads (bytes : string) : option json := Some (JObj [("results", JArr (map (fun id => JObj (boiler_answer id)) (str_split "," bytes)))]).

Definition boiler_app R (c : mcp_request R) (w : unit) (s : unit) : unit * unit * R :=
  match c in mcp_request R return unit * unit * R with
  | ProvideModel => (tt, tt, Ok boiler)
  | CallApp scope =>
      (tt, tt, Ok [ResponseStart (Some 200) [];
                   ResponseBody (match sc_body scope with
                                 | Some (JObj (("elementIds", JArr ids) :: _)) => Some (join "," (omap (fun v => match v with JStr s => Some s | _ => None end) ids))
                                 | _ => None
                                 end)])
  end.

Definition boiler_config : McpConfig := {| mcp_model_provider := true; mcp_api_prefix := Some "/api" |}.

Example boiler_values :
  (run boiler_app (invoke_container_values (S := unit) boiler_loads (fun _ => true) boiler_config (JStr "boiler") (JInt 50) (JInt 0)) tt tt).2 =
  Ok (json_response (JObj [("success", JBool false); ("containerId", JStr "boiler"); ("total", JInt 2); ("returned", JInt 2); ("offset", JInt 0);
    ("items", JArr [JObj [("id", JStr "flow"); ("name", JStr "Flow"); ("success", JBool false); ("error", JNull); ("responseDetail", JNull)];
                    JObj [("id", JStr "temp"); ("name", JStr "Temp"); ("success", JBool true); ("value", JObj [("value", JInt 7)])]])])).
Proof. vm_compute. reflexivity. Qed.

Lemma container_values_exact_witness :
  0 < 50 <= 250 /\
  holds (value_contract boiler_loads boiler "/api/v1/objects/value" boiler_answer)
    (invoke_container_values (S := unit) boiler_loads (fun _ => true) boiler_config (JStr "boiler") (JInt 50) (JInt 0))
    (container_answer boiler boiler_answer "boiler" 50 0).
Proof.
  split; [lia|]. pose proof (container_values_exact (S := unit) boiler_loads (fun _ => true) boiler_config boiler (chars "/api/v1/objects/value") boiler_answer "boiler"
    (simple_node "boiler" "Boiler" asset "ns=2;i=1") 50 0) as H.
  apply H; try (vm_compute; reflexivity); try lia; done.
Defined.
End McpContainerSpec.
