(* ===== verification/McpJson.v ===== *)
(** The model tools of the MCP server as it calls them ([mcp/model_tools.py], [mcp/model_access.py]): the schemas of their
    arguments, the checks of the arguments, and the JSON that goes in and comes out of [ModelTools] and [ModelAccess].

    The validator of JSON Schema is a parameter. Arguments that pass the checks always have the types that the tools
    expect ([McpJsonSpec]). *)

From S2P Require Export ModelAccess ModelTools McpPages.

Module McpJson.
Export McpPages.
Import NodeIds Profiles ModelTools.

(** ** Schemas *)

Definition _ID : json := JObj [("type", JStr "string"); ("minLength", JInt 1); ("pattern", JStr "\S")].
Definition _PAGE : items :=
  [("offset", JObj [("type", JStr "integer"); ("minimum", JInt 0); ("default", JInt 0)]);
   ("limit", JObj [("type", JStr "integer"); ("minimum", JInt 1); ("maximum", JInt 100); ("default", JInt 50)])].
Definition _ROLES : list string := ["asset"; "group"; "component"; "datapoint"; "property"; "unknown"].

Definition _schema (properties : items) (required : list string) : items :=
  [("type", JStr "object"); ("properties", JObj properties); ("required", json_strings required); ("additionalProperties", JBool false)].

Definition id_list (bounds : items) : json := JObj ([("type", JStr "array"); ("items", _ID); ("minItems", JInt 1)] ++ bounds).

Definition MCP_MODEL_ACCESS_SCHEMAS : list (string * items) :=
  [("resolveBrowsePath",
      _schema [("path", JObj [("type", JStr "string"); ("minLength", JInt 1); ("pattern", JStr "\S");
                              ("description", JStr "Exact slash-separated cached display names, including the root.")]);
               ("segments", id_list [])] [] ++
      [("oneOf", JArr [JObj [("required", json_strings ["path"])]; JObj [("required", json_strings ["segments"])]])]);
   ("getBrowsePath", _schema [("elementId", _ID)] ["elementId"]);
   ("getInstancesOfType",
      _schema ([("typeElementId", _ID); ("typeContextRevision", _ID); ("includeSubtypes", JObj [("type", JStr "boolean"); ("default", JBool true)])] ++ _PAGE)
        ["typeElementId"] ++
      [("allOf", JArr [JObj [("if", JObj [("properties", JObj [("offset", JObj [("type", JStr "integer"); ("minimum", JInt 1)])]);
                                          ("required", json_strings ["offset"])]);
                             ("then", JObj [("required", json_strings ["typeContextRevision"])])]])]);
   ("getChildren",
      _schema ([("elementId", _ID);
                ("plane", JObj [("type", JStr "string"); ("enum", json_strings ["hierarchy"; "composition"; "graph"]); ("default", JStr "hierarchy")])] ++ _PAGE)
        ["elementId"]);
   ("getCompositionProperties", _schema (("elementIds", id_list [("maxItems", JInt 50)]) :: _PAGE) ["elementIds"]);
   ("findElementsByName", _schema (("text", _ID) :: _PAGE) ["text"]);
   ("findElementsByNamespace", _schema (("namespaceUri", _ID) :: _PAGE) ["namespaceUri"]);
   ("findElementsByRole", _schema (("semanticRole", JObj [("type", JStr "string"); ("enum", json_strings _ROLES)]) :: _PAGE) ["semanticRole"])].

Definition integer_schema (minimum : Z) (maximum : option Z) (default : Z) : json :=
  JObj ([("type", JStr "integer"); ("minimum", JInt minimum)] ++ match maximum with Some m => [("maximum", JInt m)] | None => [] end ++ [("default", JInt default)]).
Definition flag_schema : json := JObj [("type", JStr "boolean"); ("default", JBool true)].
Definition name_schema : json := JObj [("type", JStr "string"); ("minLength", JInt 1)].
Definition string_schema : json := JObj [("type", JStr "string")].
Definition enum_schema (values : list string) (rest : items) : json := JObj ([("type", JStr "string"); ("enum", json_strings values)] ++ rest).
Definition batch_schema : json :=
  JObj [("type", JStr "array"); ("items", string_schema); ("minItems", JInt 1); ("maxItems", JInt (Z.of_nat MCP_ID_RESOLUTION_MAX_ITEMS))].

Definition PLANES : list string := ["hierarchy"; "composition"; "graph"].
Definition KINDS : list string := ["asset"; "property"; "action"; "eventSource"].
Definition CONFIDENCES : list string := ["high"; "medium"; "low"].
Definition DIRECTIONS : list string := ["outgoing"; "incoming"; "either"].

(** The descriptions of three arguments of the search are left out. *)
Definition MCP_MODEL_TOOL_SCHEMAS : list (string * items) :=
  MCP_MODEL_ACCESS_SCHEMAS ++
  [("resolveElementIdsToNodeIds", _schema [("elementIds", batch_schema)] ["elementIds"]);
   ("resolveNodeIdsToElementIds", _schema [("nodeIds", batch_schema)] ["nodeIds"]);
   ("searchModelElements",
      _schema [("text", _ID); ("kind", enum_schema KINDS []); ("semanticRole", enum_schema _ROLES []); ("namespaceUri", string_schema);
               ("typeElementId", string_schema); ("mappingConfidence", enum_schema CONFIDENCES []); ("appliedProfileId", string_schema);
               ("relationshipType", string_schema); ("limit", integer_schema 1 (Some 100) 25); ("offset", integer_schema 0 None 0)] ["text"]);
   ("getElementContext",
      _schema [("elementId", name_schema); ("ancestorDepth", integer_schema 0 (Some 32) 3); ("childLimit", integer_schema 1 (Some 500) 100);
               ("relationshipLimit", integer_schema 1 (Some 500) 100); ("includeChildren", flag_schema); ("includeRelationships", flag_schema);
               ("includeTypeAndMetadata", flag_schema)] ["elementId"]);
   ("summarizeSubtree",
      _schema [("rootElementId", name_schema); ("maxDepth", integer_schema 0 (Some 32) 4); ("includeHierarchy", flag_schema);
               ("includeComposition", flag_schema); ("includeProperties", flag_schema); ("includeActions", flag_schema);
               ("maxNodes", integer_schema 1 (Some 500) 200)] ["rootElementId"]);
   ("traceRelationshipPath",
      _schema [("sourceElementId", name_schema); ("targetElementId", name_schema);
               ("relationshipPlanes", JObj [("type", JStr "array"); ("items", enum_schema PLANES []); ("default", json_strings PLANES)]);
               ("direction", enum_schema DIRECTIONS [("default", JStr "either")]); ("maxDepth", integer_schema 0 (Some 32) 8)]
        ["sourceElementId"; "targetElementId"])].

(** ** Checks of the arguments *)

Definition bad_argument {A} (message : string) : outcome exn A := http_exception 400 "Bad Request" message.

(** [for field in fields: if field in arguments and not ok(arguments[field]): raise]. *)
Fixpoint check_fields (fields : list string) (ok : json -> bool) (message : string -> string) (arguments : items) : outcome exn unit :=
  match fields with
  | [] => Ok tt
  | field :: fields' =>
      match items_lookup field arguments with
      | Some v => if ok v then check_fields fields' ok message arguments else bad_argument (message field)
      | None => check_fields fields' ok message arguments
      end
  end.

Definition is_string (v : json) : bool := match v with JStr _ => true | _ => false end.
Definition is_bool (v : json) : bool := match v with JBool _ => true | _ => false end.
Definition is_int (v : json) : bool := match v with JInt _ => true | _ => false end.
Definition is_member (l : list string) (v : json) : bool := match v with JStr s => mem s l | _ => false end.
Definition nonblank (v : json) : bool := match v with JStr s => truthy (strip s) | _ => false end.
Definition has_key (key : string) (arguments : items) : bool := bool_decide (is_Some (items_lookup key arguments)).

Definition in_bounds (bound : Z * option Z) (v : json) : bool :=
  match v with JInt z => ((bound.1 <=? z) && match bound.2 with Some m => z <=? m | None => true end)%bool | _ => false end.

Definition bound_text (bound : Z * option Z) : string :=
  match bound.2 with
  | Some m => of_chars (int_text bound.1) +:+ " to " +:+ of_chars (int_text m)
  | None => "at least " +:+ of_chars (int_text bound.1)
  end.

Fixpoint check_bounds (l : list (string * (Z * option Z))) (arguments : items) : outcome exn unit :=
  match l with
  | [] => Ok tt
  | (field, bound) :: l' =>
      _ ← check_fields [field] (in_bounds bound) (fun field => field +:+ " must be an integer from " +:+ bound_text bound) arguments;
      check_bounds l' arguments
  end.

Definition enum_values : list (string * list string) := [("kind", KINDS); ("semanticRole", _ROLES); ("mappingConfidence", CONFIDENCES)].

Fixpoint check_enums (l : list (string * list string)) (arguments : items) : outcome exn unit :=
  match l with
  | [] => Ok tt
  | (field, values) :: l' =>
      match items_lookup field arguments with
      | Some (JStr s) => if mem s values then check_enums l' arguments else bad_argument ("Invalid " +:+ field +:+ ": " +:+ s)
      | Some _ => bad_argument ("Invalid " +:+ field)
      | None => check_enums l' arguments
      end
  end.

Definition required_of (schema : items) : list string :=
  match items_lookup "required" schema with Some (JArr l) => omap (fun v => match v with JStr s => Some s | _ => None end) l | _ => [] end.

Definition batch_field (tool_name : string) : option string :=
  items_lookup tool_name [("resolveElementIdsToNodeIds", "elementIds"); ("resolveNodeIdsToElementIds", "nodeIds")].

Section Validator.
(** The message of the first error of [Draft202012Validator(schema).iter_errors(arguments)]. *)
Context (first_error : json -> json -> option string).

Definition validate_model_access_arguments (schema : items) (tool_name : string) (arguments : items) : outcome exn unit :=
  match first_error (JObj schema) (JObj arguments) with
  | Some message => bad_argument message
  | None =>
      _ ← check_fields ["offset"; "limit"] is_int (fun name => name +:+ " must be an integer") arguments;
      if bool_decide (tool_name = "resolveBrowsePath") then
        check_fields ["path"] (fun v => match v with JStr s => forallb (fun segment => truthy (strip segment)) (str_split "/"%char s) | _ => false end)
          (fun _ => "path must contain non-empty slash-separated segments") arguments
      else Ok tt
  end.

Definition validate_model_tool_arguments (tool_name : string) (arguments : items) : outcome exn unit :=
  match items_lookup tool_name MCP_MODEL_ACCESS_SCHEMAS with
  | Some schema => validate_model_access_arguments schema tool_name arguments
  | None =>
      match List.filter (fun field => negb (has_key field arguments)) (required_of (default [] (items_lookup tool_name MCP_MODEL_TOOL_SCHEMAS))) with
      | (_ :: _) as missing => bad_argument ("Missing required arguments: " +:+ join ", " missing)
      | [] =>
          match batch_field tool_name with
          | Some field =>
              match items_lookup field arguments with
              | Some (JArr values) => if batch_ok values then Ok tt else bad_argument (field +:+ " must contain between 1 and 500 items")
              | _ => bad_argument (field +:+ " must contain between 1 and 500 items")
              end
          | None =>
              _ ← check_fields ["elementId"; "rootElementId"; "sourceElementId"; "targetElementId"] nonblank (fun field => field +:+ " must be a non-empty string") arguments;
              _ ← check_fields ["text"; "kind"; "semanticRole"; "namespaceUri"; "typeElementId"; "mappingConfidence"; "appliedProfileId"; "relationshipType"]
                    is_string (fun field => field +:+ " must be a string") arguments;
              _ ← (if bool_decide (tool_name = "searchModelElements") then
                     check_fields ["text"] nonblank (fun _ => "text must be a non-empty targeted search term") arguments
                   else Ok tt);
              _ ← check_fields ["includeChildren"; "includeRelationships"; "includeTypeAndMetadata"; "includeHierarchy"; "includeComposition"; "includeProperties";
                                "includeActions"] is_bool (fun field => field +:+ " must be a boolean") arguments;
              _ ← check_bounds argument_bounds arguments;
              _ ← check_fields ["relationshipPlanes"] (fun v => match v with JArr l => forallb (is_member PLANES) l | _ => false end)
                    (fun _ => "relationshipPlanes must contain hierarchy, composition, or graph") arguments;
              _ ← check_fields ["direction"] (is_member DIRECTIONS) (fun _ => "direction must be outgoing, incoming, or either") arguments;
              check_enums enum_values arguments
          end
      end
  end.
End Validator.

(** ** Arguments *)

Definition str_arg (key : string) (arguments : items) : option string := match items_lookup key arguments with Some (JStr s) => Some s | _ => None end.
Definition nat_arg (key : string) (d : nat) (arguments : items) : nat := match items_lookup key arguments with Some (JInt z) => Z.to_nat z | _ => d end.
Definition bool_arg (key : string) (arguments : items) : bool := match items_lookup key arguments with Some (JBool b) => b | _ => true end.

(** A list of strings; [None] if another value is in it. *)
Definition strings_of (v : json) : option (list string) :=
  match v with JArr l => mapM (fun v => match v with JStr s => Some s | _ => None end) l | _ => None end.

Definition role_of_str (s : string) : option SemanticRole :=
  items_lookup s (map (fun r => (role_str r, r)) [role_asset; role_group; role_component; role_datapoint; role_property; role_unknown]).
Definition kind_of_str (s : string) : option NodeKind := items_lookup s (map (fun k => (kind_str k, k)) [asset; property; action; eventSource]).
Definition confidence_of_str (s : string) : option MappingConfidence :=
  items_lookup s (map (fun c => (confidence_str c, c)) [conf_high; conf_medium; conf_low]).
Definition plane_of_str (s : string) : option ModelAccess.Plane :=
  items_lookup s [("hierarchy", ModelAccess.plane_hierarchy); ("composition", ModelAccess.plane_composition); ("graph", ModelAccess.plane_graph)].
Definition relationship_plane_of_str (s : string) : option RelationshipPlane :=
  items_lookup s [("hierarchy", hierarchy_plane); ("composition", composition_plane); ("graph", graph_plane)].
Definition direction_of_str (s : string) : option Direction := items_lookup s [("outgoing", outgoing); ("incoming", incoming); ("either", either)].

(** An argument that may be absent; [None] if it has a value that [f] does not take. *)
Definition optional {A} (f : string -> option A) (key : string) (arguments : items) : option (option A) :=
  match items_lookup key arguments with
  | None => Some None
  | Some (JStr s) => Some <$> f s
  | Some _ => None
  end.

Definition page_args (arguments : items) : ModelAccess.PageArgs :=
  {| ModelAccess.pa_offset := nat_arg "offset" 0 arguments; ModelAccess.pa_limit := nat_arg "limit" 50 arguments |}.

(** What [invoke_model_access_tool] reads of its arguments. *)
Definition access_call (tool_name : string) (arguments : items) : option ModelAccess.ToolCall :=
  if bool_decide (tool_name = "resolveBrowsePath") then
    match items_lookup "segments" arguments with
    | Some v => segments ← strings_of v; Some (ModelAccess.resolveBrowsePath (ModelAccess.by_segments segments))
    | None => path ← str_arg "path" arguments; Some (ModelAccess.resolveBrowsePath (ModelAccess.by_path path))
    end
  else if bool_decide (tool_name = "getBrowsePath") then ModelAccess.getBrowsePath <$> str_arg "elementId" arguments
  else if bool_decide (tool_name = "getInstancesOfType") then
    id ← str_arg "typeElementId" arguments;
    Some (ModelAccess.getInstancesOfType id (str_arg "typeContextRevision" arguments) (bool_arg "includeSubtypes" arguments) (page_args arguments))
  else if bool_decide (tool_name = "getChildren") then
    id ← str_arg "elementId" arguments; plane ← optional plane_of_str "plane" arguments;
    Some (ModelAccess.getChildren id (default ModelAccess.plane_hierarchy plane) (page_args arguments))
  else if bool_decide (tool_name = "getCompositionProperties") then
    v ← items_lookup "elementIds" arguments; ids ← strings_of v; Some (ModelAccess.getCompositionProperties ids (page_args arguments))
  else if bool_decide (tool_name = "findElementsByName") then text ← str_arg "text" arguments; Some (ModelAccess.findElementsByName text (page_args arguments))
  else if bool_decide (tool_name = "findElementsByNamespace") then
    uri ← str_arg "namespaceUri" arguments; Some (ModelAccess.findElementsByNamespace uri (page_args arguments))
  else if bool_decide (tool_name = "findElementsByRole") then
    role ← str_arg "semanticRole" arguments ≫= role_of_str; Some (ModelAccess.findElementsByRole role (page_args arguments))
  else None.

Definition search_args (arguments : items) : option SearchArgs :=
  text ← str_arg "text" arguments; kind ← optional kind_of_str "kind" arguments; role ← optional role_of_str "semanticRole" arguments;
  namespace ← optional Some "namespaceUri" arguments; type ← optional Some "typeElementId" arguments;
  confidence ← optional confidence_of_str "mappingConfidence" arguments; profile ← optional Some "appliedProfileId" arguments;
  relationship ← optional Some "relationshipType" arguments;
  Some {| sa_text := text; sa_kind := kind; sa_role := role; sa_namespace := namespace; sa_type := type; sa_confidence := confidence;
          sa_profile := profile; sa_relationship := relationship; sa_limit := nat_arg "limit" 25 arguments; sa_offset := nat_arg "offset" 0 arguments |}.

Definition context_args (arguments : items) : option ContextArgs :=
  id ← str_arg "elementId" arguments;
  Some {| ca_element := id; ca_ancestor_depth := nat_arg "ancestorDepth" 3 arguments; ca_child_limit := nat_arg "childLimit" 100 arguments;
          ca_relationship_limit := nat_arg "relationshipLimit" 100 arguments; ca_include_children := bool_arg "includeChildren" arguments;
          ca_include_relationships := bool_arg "includeRelationships" arguments; ca_include_type := bool_arg "includeTypeAndMetadata" arguments |}.

Definition subtree_args (arguments : items) : option SubtreeArgs :=
  id ← str_arg "rootElementId" arguments;
  Some {| st_root := id; st_max_depth := nat_arg "maxDepth" 4 arguments; st_max_nodes := nat_arg "maxNodes" 200 arguments;
          st_include_hierarchy := bool_arg "includeHierarchy" arguments; st_include_composition := bool_arg "includeComposition" arguments;
          st_include_properties := bool_arg "includeProperties" arguments; st_include_actions := bool_arg "includeActions" arguments |}.

Definition trace_args (arguments : items) : option TraceArgs :=
  source ← str_arg "sourceElementId" arguments; target ← str_arg "targetElementId" arguments;
  planes ← match items_lookup "relationshipPlanes" arguments with
           | None => Some [hierarchy_plane; composition_plane; graph_plane]
           | Some v => l ← strings_of v; mapM relationship_plane_of_str l
           end;
  direction ← optional direction_of_str "direction" arguments;
  Some {| ta_source := source; ta_target := target; ta_planes := planes; ta_direction := default either direction; ta_max_depth := nat_arg "maxDepth" 8 arguments |}.

(** The ids of a batch, as they come. *)
Definition batch_of (field : string) (arguments : items) : option (list json) := match items_lookup field arguments with Some (JArr l) => Some l | _ => None end.

(** ** Results *)

Definition jnat (n : nat) : json := JInt (Z.of_nat n).
Definition jopt (o : option string) : json := match o with Some s => JStr s | None => JNull end.
Definition jmeta (v : meta_value) : json :=
  match v with MNone => JNull | MStr s => JStr s | MInt z => JInt z | MBool b => JBool b | MStrs l => json_strings l end.
Definition jmeta_opt (v : option meta_value) : json := default JNull (jmeta <$> v).

Definition page_items (page : ModelAccess.Page) (key : string) : items :=
  [("total", jnat (ModelAccess.pg_total page)); ("returned", jnat (ModelAccess.pg_returned page)); ("offset", jnat (ModelAccess.pg_offset page))] ++
  match ModelAccess.pg_next page with Some n => [("nextOffset", jnat n)] | None => [] end ++
  [(key, JArr (map (fun i => json_strings [i.1; i.2]) (ModelAccess.pg_items page)))].

(** The order of [properties] behind the other keys of a page is that of the code. *)
Definition access_result (r : ModelAccess.ToolResult) : items :=
  match r with
  | ModelAccess.PathResult path segments => [("path", JStr path); ("segments", json_strings segments)]
  | ModelAccess.ResolveResult None => [("found", JBool false)]
  | ModelAccess.ResolveResult (Some (id, name, kind)) =>
      [("found", JBool true); ("elementId", JStr id); ("displayName", JStr name); ("kind", JStr (kind_str kind))]
  | ModelAccess.PageResult page => page_items page "items"
  | ModelAccess.TypePageResult page revision => page_items page "items" ++ [("typeContextRevision", JStr revision)]
  | ModelAccess.ItemsResult l => [("items", JArr (map (fun i => JObj (("elementId", JStr i.1) :: page_items i.2 "properties")) l))]
  end.

Definition summary_items (s : Summary) : items :=
  [("elementId", JStr (su_id s)); ("displayName", JStr (su_name s)); ("kind", JStr (kind_str (su_kind s))); ("semanticRole", JStr (role_str (su_role s)));
   ("mappingConfidence", JStr (confidence_str (su_confidence s))); ("typeElementId", JStr (su_type s)); ("namespaceUri", jmeta_opt (su_namespace s));
   ("appliedProfileIds", json_strings (su_profiles s)); ("parentId", jopt (su_parent s))] ++
  match su_writable s with Some b => [("writable", JBool b)] | None => [] end ++
  match su_executable s with Some b => [("executable", JBool b)] | None => [] end.
Definition summary_json (s : Summary) : json := JObj (summary_items s).

Definition resolve_error (e : ResolveError) (malformed : string) : json :=
  let error (code : Z) (message : string) := JObj [("code", JInt code); ("message", JStr message)] in
  match e with
  | malformed_id => error 400 malformed
  | invalid_node_id => error 400 "Invalid OPC UA NodeId format"
  | element_not_found => error 404 "ElementId not found"
  | node_id_unavailable => error 404 "OPC UA NodeId is not available in the cached model"
  | node_id_not_found => error 404 "NodeId not found in the cached model"
  end.

Definition element_node_item (input : json) (r : outcome ResolveError ElementNode) : json :=
  match r with
  | Err e => JObj [("success", JBool false); ("elementId", input); ("error", resolve_error e "ElementId must be a non-empty string")]
  | Ok n => JObj ([("success", JBool true); ("elementId", JStr (en_element n)); ("nodeId", JStr (en_node n)); ("name", JStr (en_name n));
                   ("kind", JStr (kind_str (en_kind n)))] ++ match en_expanded n with Some e => [("expandedNodeId", JStr e)] | None => [] end)
  end.

Definition node_element_item (input : json) (r : outcome ResolveError (string * string * NodeKind)) : json :=
  match r with
  | Err e => JObj [("success", JBool false); ("inputNodeId", input); ("error", resolve_error e "NodeId must be a non-empty string")]
  | Ok (id, name, kind) =>
      JObj [("success", JBool true); ("inputNodeId", input); ("elementId", JStr id); ("name", JStr name); ("kind", JStr (kind_str kind))]
  end.

Definition id_text (v : json) : option string := match v with JStr s => Some s | _ => None end.

Definition resolve_element_ids_json (model : BuildResult) (values : list json) : json :=
  let '(success, results) := resolve_element_ids_to_node_ids model (map id_text values) in
  JObj [("success", JBool success); ("items", JArr (zip_with element_node_item values results))].

Definition resolve_node_ids_json (model : BuildResult) (values : list json) : json :=
  let '(success, results) := resolve_node_ids_to_element_ids model (map id_text values) in
  JObj [("success", JBool success); ("items", JArr (zip_with node_element_item values results))].

Definition search_json (revision : string) (r : SearchResult) : json :=
  JObj ([("modelRevision", JStr revision); ("total", jnat (ModelTools.sr_total r)); ("returned", jnat (ModelTools.sr_returned r)); ("offset", jnat (ModelTools.sr_offset r));
         ("items", JArr (map summary_json (ModelTools.sr_items r)))] ++ match ModelTools.sr_next r with Some n => [("nextOffset", jnat n)] | None => [] end).

Definition plane_str (p : RelationshipPlane) : string := match p with hierarchy_plane => "hierarchy" | composition_plane => "composition" | graph_plane => "graph" end.

Definition bounded_json {A} (f : A -> json) (b : Bounded A) : json :=
  JObj [("total", jnat (bo_total _ b)); ("returned", jnat (bo_returned _ b)); ("truncated", JBool (bo_truncated _ b)); ("items", JArr (map f (bo_items _ b)))].

Definition context_entry (type : string) (plane : RelationshipPlane) (node : Summary) : json :=
  JObj [("relationshipType", JStr type); ("plane", JStr (plane_str plane)); ("node", summary_json node)].

Definition related_json (r : Related) : json :=
  JObj [("relationshipType", JStr (re_type r)); ("plane", JStr (plane_str (re_plane r)));
        ("target", match (re_target r).2 with Some s => summary_json s | None => JObj [("elementId", JStr (re_target r).1)] end)].

Definition source_json (s : Source) : json :=
  JObj [("sourceNodeId", JStr (so_node s)); ("sourceTypeId", jopt (so_type s)); ("description", jmeta_opt (so_description s));
        ("namespaceUri", jmeta_opt (so_namespace s)); ("appliedProfileIds", json_strings (so_profiles s));
        ("extendedAttributes", JObj (map (fun p => (p.1, jmeta p.2)) (dict_items (so_metadata s))))].

Definition context_json (revision : string) (c : ElementContext) : json :=
  JObj ([("modelRevision", JStr revision); ("element", summary_json (ec_element c));
         ("ancestors", JArr (map (context_entry "HasParent" hierarchy_plane) (ec_ancestors c)))] ++
        match ec_parents c with [] => [] | l => [("parents", JArr (map (fun p => context_entry p.1.1 p.1.2 p.2) l))] end ++
        match ec_children c with
        | Some (h, c) => [("children", JObj [("hierarchy", bounded_json summary_json h); ("composition", bounded_json summary_json c)])]
        | None => []
        end ++
        match ec_relationships c with Some b => [("relationships", bounded_json related_json b)] | None => [] end ++
        match ec_source c with Some s => [("source", source_json s)] | None => [] end).

Fixpoint tree_json (t : Tree) : json :=
  match t with
  | Node summary children =>
      JObj (summary_items summary ++
            [("children", JArr (map (fun c => JObj [("relationshipType", JStr c.1); ("node", tree_json c.2)]) children))])
  end.

Definition counts_json {K} (text : K -> string) (d : dict K nat) : json := JObj (map (fun p => (text p.1, jnat p.2)) (dict_items d)).

Definition subtree_json (revision : string) (s : SubtreeSummary) : json :=
  JObj [("modelRevision", JStr revision); ("rootElementId", JStr (sm_root s)); ("totalNodes", jnat (sm_total s)); ("truncated", JBool (sm_truncated s));
        ("tree", tree_json (sm_tree s)); ("counts", JObj [("byKind", counts_json kind_str (sm_by_kind s)); ("bySemanticRole", counts_json role_str (sm_by_role s))])].

Definition path_item_json (i : PathItem) : json :=
  match i with
  | PathElement s => JObj [("element", default JNull (summary_json <$> s))]
  | PathRelationship type plane direction =>
      JObj [("relationship", JObj [("relationshipType", JStr type); ("plane", JStr (plane_str plane)); ("direction", JStr (direction_str direction))])]
  end.

Definition trace_json (revision : string) (r : TraceResult) : json :=
  JObj [("modelRevision", JStr revision); ("found", JBool (tr_found r)); ("truncated", JBool (tr_truncated r));
        ("pathLength", match tr_length r with Some n => jnat n | None => JNull end); ("path", JArr (map path_item_json (tr_path r)))].

(** ** The tools *)

Definition argument_type_error {A} : outcome exn A := Err (OtherException "TypeError").
Definition http_outcome {A} (r : outcome http_error A) : outcome exn A := match r with Ok a => Ok a | Err e => Err (HttpException e) end.

(** The handlers of [_invoke_model_tool]. *)
Definition model_tool_body (revision : string) (model : BuildResult) (tool_name : string) (arguments : items) : outcome exn json :=
  match batch_field tool_name with
  | Some field =>
      match batch_of field arguments with
      | Some values =>
          Ok (if bool_decide (tool_name = "resolveElementIdsToNodeIds") then resolve_element_ids_json model values else resolve_node_ids_json model values)
      | None => argument_type_error
      end
  | None =>
      if bool_decide (tool_name = "searchModelElements") then
        match search_args arguments with Some args => Ok (search_json revision (search_model_elements model args)) | None => argument_type_error end
      else if bool_decide (tool_name = "getElementContext") then
        match context_args arguments with Some args => context_json revision <$> http_outcome (get_element_context model args) | None => argument_type_error end
      else if bool_decide (tool_name = "summarizeSubtree") then
        match subtree_args arguments with Some args => subtree_json revision <$> http_outcome (summarize_subtree model args) | None => argument_type_error end
      else if bool_decide (tool_name = "traceRelationshipPath") then
        match trace_args arguments with
        | Some args =>
            match trace_relationship_path model args with
            | Some r => trace_json revision <$> http_outcome r
            | None => Err (OtherException "not finished")
            end
        | None => argument_type_error
        end
      else Err (OtherException "KeyError")
  end.

End McpJson.
