(* ===== verification/McpJsonSpec.v ===== *)
(** Arguments of the model tools that pass their checks are read by the tools without a type error, and keep the page size
    within its bounds. *)

From S2P Require Export McpJson ModelToolsSpec.

Module McpJsonSpec.
Import NodeIds Profiles ModelTools McpJson.

(** ** Checked arguments have the types of the tools *)

(** The keywords of JSON Schema that the schemas use; a value may conform and still break a keyword that is not listed. *)
Fixpoint conforms (schema : json) (v : json) : bool :=
  match schema with
  | JObj keywords =>
      forallb (fun kw =>
        match kw.1, kw.2 with
        | "type", JStr type =>
            match v with
            | JStr _ => bool_decide (type = "string")
            | JInt _ | JFloat _ => bool_decide (type = "integer")
            | JBool _ => bool_decide (type = "boolean")
            | JArr _ => bool_decide (type = "array")
            | JObj _ => bool_decide (type = "object")
            | JNull => false
            end
        | "properties", JObj properties =>
            forallb (fun p => match v with JObj l => match items_lookup p.1 l with Some x => conforms p.2 x | None => true end | _ => true end) properties
        | "required", JArr names => forallb (fun n => match n, v with JStr s, JObj l => has_key s l | _, _ => true end) names
        | "additionalProperties", JBool false =>
            match v, items_lookup "properties" keywords with JObj l, Some (JObj properties) => forallb (fun p => has_key p.1 properties) l | _, _ => true end
        | "items", item => match v with JArr l => forallb (conforms item) l | _ => true end
        | "enum", JArr values => existsb (fun x => match x, v with JStr s, JStr s' => bool_decide (s = s') | _, _ => false end) values
        | "pattern", JStr pattern => match v with JStr s => (negb (bool_decide (pattern = "\S")) || truthy (strip s))%bool | _ => true end
        | "minimum", JInt minimum => match v with JInt z => minimum <=? z | _ => true end
        | "maximum", JInt maximum => match v with JInt z => z <=? maximum | _ => true end
        | "oneOf", JArr alternatives => Nat.eqb (length (List.filter id (map (fun s => conforms s v) alternatives))) 1
        | _, _ => true
        end) keywords
  | _ => true
  end.

Lemma conforms_property keywords properties arguments key schema v :
  conforms (JObj keywords) (JObj arguments) = true -> ("properties", JObj properties) ∈ keywords -> items_lookup key properties = Some schema ->
  items_lookup key arguments = Some v -> conforms schema v = true.
Proof.
  cbn [conforms]. rewrite List.forallb_forall. intros H Hk%list_elem_of_In Hp Hv. specialize (H _ Hk). cbn in H. rewrite List.forallb_forall in H.
  apply items_lookup_Some_elem, list_elem_of_In, H in Hp. cbn in Hp. by rewrite Hv in Hp.
Qed.

Lemma conforms_required keywords names arguments key :
  conforms (JObj keywords) (JObj arguments) = true -> ("required", json_strings names) ∈ keywords -> key ∈ names -> is_Some (items_lookup key arguments).
Proof.
  cbn [conforms]. rewrite List.forallb_forall. intros H Hk%list_elem_of_In Hn. specialize (H _ Hk). cbn in H. rewrite List.forallb_forall in H.
  specialize (H (JStr key)). cbn in H. eapply bool_decide_eq_true, H, List.in_map, list_elem_of_In, Hn.
Qed.

Lemma conforms_known keywords properties arguments key v :
  conforms (JObj keywords) (JObj arguments) = true -> ("additionalProperties", JBool false) ∈ keywords -> items_lookup "properties" keywords = Some (JObj properties) ->
  items_lookup key arguments = Some v -> is_Some (items_lookup key properties).
Proof.
  cbn [conforms]. rewrite List.forallb_forall. intros H Hk%list_elem_of_In Hp Hv. specialize (H _ Hk). cbn in H. rewrite Hp, List.forallb_forall in H.
  apply items_lookup_Some_elem, list_elem_of_In, H in Hv. by apply bool_decide_eq_true in Hv.
Qed.

Lemma check_fields_ok fields ok message arguments key v :
  check_fields fields ok message arguments = Ok tt -> key ∈ fields -> items_lookup key arguments = Some v -> ok v = true.
Proof.
  induction fields as [|field fields IH]; [by intros _ ?%elem_of_nil|]. cbn [check_fields]. intros H [->|Hk]%elem_of_cons Hv.
  - rewrite Hv in H. by destruct (ok v).
  - destruct (items_lookup field arguments) as [w|]; [destruct (ok w); [|done]|]; by apply IH.
Qed.

Lemma check_bounds_ok l arguments key bound v :
  check_bounds l arguments = Ok tt -> (key, bound) ∈ l -> items_lookup key arguments = Some v -> in_bounds bound v = true.
Proof.
  induction l as [|[field b] l IH]; [by intros _ ?%elem_of_nil|]. cbn [check_bounds]. destruct (check_fields [field] _ _ _) as [[]|] eqn:E; [|done].
  intros H [[= -> ->]|Hk]%elem_of_cons Hv; [|by apply IH]. eapply check_fields_ok; [exact E|by left|done].
Qed.

Lemma check_enums_ok l arguments key values v :
  check_enums l arguments = Ok tt -> (key, values) ∈ l -> items_lookup key arguments = Some v -> is_member values v = true.
Proof.
  induction l as [|[field vs] l IH]; [by intros _ ?%elem_of_nil|]. cbn [check_enums]. intros H [[= -> ->]|Hk]%elem_of_cons Hv.
  - rewrite Hv in H. destruct v; try done. cbn. by destruct (mem _ _).
  - destruct (items_lookup field arguments) as [w|]; [destruct w; try done; destruct (mem _ _); [|done]|]; by apply IH.
Qed.

Lemma optional_ok {A} (f : string -> option A) (ok : json -> bool) key arguments :
  (forall s, ok (JStr s) = true -> is_Some (f s)) -> (forall v, ok v = true -> is_string v = true) ->
  (forall v, items_lookup key arguments = Some v -> ok v = true) -> is_Some (optional f key arguments).
Proof.
  intros Hf Hs Hv. unfold optional. destruct (items_lookup key arguments) as [v|]; [|by eexists]. specialize (Hv _ eq_refl). pose proof (Hs _ Hv) as Hstr.
  destruct v; try done. destruct (Hf _ Hv) as [x ->]. by eexists.
Qed.

Lemma optional_string key arguments : (forall v, items_lookup key arguments = Some v -> is_string v = true) -> is_Some (optional Some key arguments).
Proof. apply optional_ok; [by eexists|done]. Qed.

(** A function on strings that takes every one of a list. *)
Lemma optional_member {A} (f : string -> option A) l key arguments :
  forallb (fun s => match f s with Some _ => true | None => false end) l = true ->
  (forall v, items_lookup key arguments = Some v -> is_member l v = true) -> is_Some (optional f key arguments).
Proof.
  intros Hf. apply (optional_ok f (is_member l)); [|by intros []]. intros s Hs%List.existsb_exists. destruct Hs as (x & Hx & ->%bool_decide_eq_true).
  rewrite List.forallb_forall in Hf. specialize (Hf _ Hx). by destruct (f s).
Qed.

Lemma strings_of_ok l : (forall v, v ∈ l -> is_string v = true) -> is_Some (strings_of (JArr l)).
Proof.
  intros H. cbn. induction l as [|v l IH]; [by eexists|]. cbn. pose proof (H v ltac:(by left)) as Hv. destruct v; try done. cbn.
  destruct IH as [x ->]; [intros w Hw; apply H; by right|]. by eexists.
Qed.

Lemma str_arg_ok key arguments : is_Some (items_lookup key arguments) -> (forall v, items_lookup key arguments = Some v -> is_string v = true) ->
  is_Some (str_arg key arguments).
Proof. intros [v Hv] H. unfold str_arg. rewrite Hv. specialize (H _ Hv). by destruct v. Qed.

Lemma conforms_id v : conforms _ID v = true -> is_string v = true.
Proof. destruct v; cbn; try done. Qed.

Lemma conforms_enum l rest v : conforms (JObj ([("type", JStr "string"); ("enum", json_strings l)] ++ rest)) v = true -> is_member l v = true.
Proof.
  cbn [conforms app forallb fst snd]. intros [Ht [He _]%andb_true_iff]%andb_true_iff. destruct v; try done. cbn in *. apply List.existsb_exists in He as (x & Hx & Hs).
  apply in_map_iff in Hx as (y & <- & Hy). apply bool_decide_eq_true in Hs as ->. apply List.existsb_exists. exists s. split; [done|]. by apply bool_decide_eq_true.
Qed.

Lemma conforms_ids bounds v : conforms (id_list bounds) v = true -> exists l, v = JArr l /\ is_Some (strings_of v).
Proof.
  unfold id_list. cbn [conforms app forallb fst snd]. intros [Ht [Hi _]%andb_true_iff]%andb_true_iff. destruct v as [| | | | |l|]; try done. exists l. split; [done|].
  apply strings_of_ok. intros v Hv%list_elem_of_In. rewrite List.forallb_forall in Hi. by apply conforms_id, Hi.
Qed.


#[local] Arguments conforms : simpl never.

Section Decode.
Context (first_error : json -> json -> option string) (Hvalidator : forall name schema v,
  items_lookup name MCP_MODEL_ACCESS_SCHEMAS = Some schema -> first_error (JObj schema) v = None -> conforms (JObj schema) v = true).

(** What the checks of an indexed tool come to. *)
Lemma access_checked tool_name schema arguments : items_lookup tool_name MCP_MODEL_ACCESS_SCHEMAS = Some schema ->
  validate_model_tool_arguments first_error tool_name arguments = Ok tt ->
  conforms (JObj schema) (JObj arguments) = true /\ (forall key v, key ∈ ["offset"; "limit"] -> items_lookup key arguments = Some v -> is_int v = true).
Proof using Hvalidator.
  unfold validate_model_tool_arguments. intros Hs. rewrite Hs. unfold validate_model_access_arguments. destruct (first_error _ _) eqn:E; [done|]. eapply Hvalidator in E; [|eassumption].
  destruct (check_fields ["offset"; "limit"] _ _ _) as [[]|] eqn:Ec; [|by cbn]. intros _. split; [done|]. intros key v Hk Hv. by eapply check_fields_ok.
Qed.

(** The branch of a tool, and a required string. *)
Ltac this_tool := cbn [fst]; unfold access_call; rewrite ?bool_decide_false by done; rewrite bool_decide_true by done.
Ltac required H := eapply (conforms_required _ _ _ _ H); [do 2 right; by left|by left].
Ltac property H E := eapply (conforms_property _ _ _ _ _ _ H); [| |exact E]; [by (right; left)|reflexivity].
Ltac string_arg H := apply str_arg_ok; [required H|]; let v := fresh in let E := fresh in intros v E; apply conforms_id; property H E.

Lemma access_decodes tool_name arguments : tool_name ∈ map fst MCP_MODEL_ACCESS_SCHEMAS ->
  validate_model_tool_arguments first_error tool_name arguments = Ok tt -> is_Some (access_call tool_name arguments).
Proof using Hvalidator.
  intros Hin Hv. destruct (proj2 (items_lookup_elem MCP_MODEL_ACCESS_SCHEMAS tool_name) Hin) as [schema Hs].
  pose proof (access_checked _ _ _ Hs Hv) as [Hc _].
  repeat (apply elem_of_cons in Hin as [->|Hin]; [cbn in Hs; injection Hs as <-|]); [..|by apply elem_of_nil in Hin]; this_tool.
  - destruct (items_lookup "segments" arguments) as [v|] eqn:Es.
    + assert (H : conforms (id_list []) v = true) by property Hc Es. apply conforms_ids in H as (l & -> & [x Hx]). rewrite Hx. by eexists.
    + assert (Hp : is_Some (items_lookup "path" arguments)).
      { unfold conforms in Hc; fold conforms in Hc. rewrite List.forallb_forall in Hc. specialize (Hc _ ltac:(do 4 right; by left)). cbn in Hc.
        unfold conforms in Hc. cbn in Hc. unfold has_key in Hc. rewrite Es in Hc. cbn in Hc. by destruct (items_lookup "path" arguments). }
      assert (Hpath : is_Some (str_arg "path" arguments)).
      { apply str_arg_ok; [done|]. intros v E. assert (H : conforms (JObj [("type", JStr "string"); ("minLength", JInt 1); ("pattern", JStr "\S");
          ("description", JStr "Exact slash-separated cached display names, including the root.")]) v = true) by property Hc E. by destruct v. }
      destruct Hpath as [x ->]. by eexists.
  - assert (H : is_Some (str_arg "elementId" arguments)) by string_arg Hc. destruct H as [x ->]. by eexists.
  - assert (H : is_Some (str_arg "typeElementId" arguments)) by string_arg Hc. destruct H as [x ->]. by eexists.
  - assert (H : is_Some (str_arg "elementId" arguments)) by string_arg Hc. destruct H as [x ->].
    assert (Hp : is_Some (optional plane_of_str "plane" arguments)).
    { eapply (optional_member _ PLANES); [reflexivity|]. intros v E. eapply conforms_enum. property Hc E. }
    destruct Hp as [y ->]. by eexists.
  - assert (Hr : is_Some (items_lookup "elementIds" arguments)) by required Hc. destruct Hr as [v Hv']. rewrite Hv'.
    assert (H : conforms (id_list [("maxItems", JInt 50)]) v = true) by property Hc Hv'. apply conforms_ids in H as (l & -> & [x Hx]).
    cbn [mbind option_bind]. rewrite Hx. by eexists.
  - assert (H : is_Some (str_arg "text" arguments)) by string_arg Hc. destruct H as [x ->]. by eexists.
  - assert (H : is_Some (str_arg "namespaceUri" arguments)) by string_arg Hc. destruct H as [x ->]. by eexists.
  - assert (Hr : is_Some (items_lookup "semanticRole" arguments)) by required Hc. destruct Hr as [v Hv']. unfold str_arg. rewrite Hv'.
    assert (Hm : is_member _ROLES v = true) by (eapply conforms_enum; property Hc Hv'). destruct v; try done.
    assert (Ho : is_Some (optional role_of_str "semanticRole" arguments)).
    { apply (optional_member _ _ROLES); [reflexivity|]. intros w Hw. rewrite Hv' in Hw. by injection Hw as <-. }
    unfold optional in Ho. rewrite Hv' in Ho. cbn [mbind option_bind]. destruct (role_of_str s); [by eexists|]. by destruct Ho.
Qed.

(** What the checks of the other tools come to. *)
Record Checked (required : list string) (arguments : items) : Prop := {
  ck_required : forall key, key ∈ required -> is_Some (items_lookup key arguments);
  ck_ids : forall key v, key ∈ ["elementId"; "rootElementId"; "sourceElementId"; "targetElementId"] -> items_lookup key arguments = Some v -> nonblank v = true;
  ck_strings : forall key v, key ∈ ["text"; "kind"; "semanticRole"; "namespaceUri"; "typeElementId"; "mappingConfidence"; "appliedProfileId"; "relationshipType"] ->
    items_lookup key arguments = Some v -> is_string v = true;
  ck_bounds : forall key bound v, (key, bound) ∈ argument_bounds -> items_lookup key arguments = Some v -> in_bounds bound v = true;
  ck_planes : forall v, items_lookup "relationshipPlanes" arguments = Some v -> exists l, v = JArr l /\ forallb (is_member PLANES) l = true;
  ck_direction : forall v, items_lookup "direction" arguments = Some v -> is_member DIRECTIONS v = true;
  ck_enums : forall key values v, (key, values) ∈ enum_values -> items_lookup key arguments = Some v -> is_member values v = true;
}.

Lemma tool_checked tool_name arguments : items_lookup tool_name MCP_MODEL_ACCESS_SCHEMAS = None -> batch_field tool_name = None ->
  validate_model_tool_arguments first_error tool_name arguments = Ok tt ->
  Checked (required_of (default [] (items_lookup tool_name MCP_MODEL_TOOL_SCHEMAS))) arguments.
Proof using.
  unfold validate_model_tool_arguments. intros -> ->. set (required := required_of _). destruct (List.filter _ required) as [|x l] eqn:Er; [|done].
  destruct (check_fields ["elementId"; _; _; _] _ _ _) as [[]|] eqn:E1; [|done]. cbn [mbind outcome_bind].
  destruct (check_fields ["text"; _; _; _; _; _; _; _] _ _ _) as [[]|] eqn:E2; [|done]. cbn [mbind outcome_bind].
  destruct (if bool_decide _ then _ else _) as [[]|]; [|done]. cbn [mbind outcome_bind].
  destruct (check_fields ["includeChildren"; _; _; _; _; _; _] _ _ _) as [[]|]; [|done]. cbn [mbind outcome_bind].
  destruct (check_bounds _ _) as [[]|] eqn:E3; [|done]. cbn [mbind outcome_bind].
  destruct (check_fields ["relationshipPlanes"] _ _ _) as [[]|] eqn:E4; [|done]. cbn [mbind outcome_bind].
  destruct (check_fields ["direction"] _ _ _) as [[]|] eqn:E5; [|done]. cbn [mbind outcome_bind]. intros E6. split.
  - intros key Hk. destruct (has_key key arguments) eqn:E; [by apply bool_decide_eq_true in E|]. exfalso.
    assert (H : key ∈ List.filter (fun field => negb (has_key field arguments)) required) by (apply list_elem_of_In, List.filter_In; split; [by apply list_elem_of_In|by rewrite E]).
    rewrite Er in H. by apply elem_of_nil in H.
  - intros key v Hk Hv. by eapply check_fields_ok.
  - intros key v Hk Hv. by eapply check_fields_ok.
  - intros key bound v Hk Hv. by eapply check_bounds_ok.
  - intros v Hv. eapply check_fields_ok in E4; [|by left|exact Hv]. destruct v as [| | | | |l|]; try done. by exists l.
  - intros v Hv. eapply check_fields_ok in E5; [done|by left|done].
  - intros key values v Hk Hv. by eapply check_enums_ok.
Qed.
End Decode.

Lemma nonblank_string v : nonblank v = true -> is_string v = true.
Proof using. by destruct v. Qed.

Lemma search_decodes arguments : Checked ["text"] arguments -> is_Some (search_args arguments).
Proof using.
  intros C. assert (Ht : is_Some (str_arg "text" arguments)) by (apply str_arg_ok; [apply C; by left|intros v Hv; by eapply (ck_strings _ _ C); [|exact Hv]; left]).
  assert (Hs : forall key, key ∈ ["namespaceUri"; "typeElementId"; "appliedProfileId"; "relationshipType"] -> is_Some (optional Some key arguments)).
  { intros key Hk. apply optional_string. intros v Hv. eapply (ck_strings _ _ C); [|exact Hv]. set_solver. }
  assert (He : forall A (f : string -> option A) key values, (key, values) ∈ enum_values -> forallb (fun s => match f s with Some _ => true | None => false end) values = true ->
    is_Some (optional f key arguments)) by (intros A f key values Hk Hf; eapply optional_member; [exact Hf|]; intros v Hv; by eapply (ck_enums _ _ C)).
  unfold search_args. destruct Ht as [x ->]. cbn [mbind option_bind].
  destruct (He _ kind_of_str "kind" KINDS) as [k ->]; [by left|done|]. cbn [mbind option_bind].
  destruct (He _ role_of_str "semanticRole" _ROLES) as [r ->]; [by right; left|done|]. cbn [mbind option_bind].
  destruct (Hs "namespaceUri") as [n ->]; [set_solver|]. cbn [mbind option_bind]. destruct (Hs "typeElementId") as [t ->]; [set_solver|]. cbn [mbind option_bind].
  destruct (He _ confidence_of_str "mappingConfidence" CONFIDENCES) as [c ->]; [by right; right; left|done|]. cbn [mbind option_bind].
  destruct (Hs "appliedProfileId") as [p ->]; [set_solver|]. cbn [mbind option_bind]. destruct (Hs "relationshipType") as [q ->]; [set_solver|]. by eexists.
Qed.

Lemma id_decodes required key arguments : Checked required arguments -> key ∈ required -> key ∈ ["elementId"; "rootElementId"; "sourceElementId"; "targetElementId"] ->
  is_Some (str_arg key arguments).
Proof using. intros C Hr Hk. apply str_arg_ok; [by apply C|]. intros v Hv. eapply nonblank_string, (ck_ids _ _ C); [exact Hk|exact Hv]. Qed.

Lemma planes_decode l : forallb (is_member PLANES) l = true -> is_Some (strings_of (JArr l) ≫= mapM relationship_plane_of_str).
Proof using.
  cbn. intros H. assert (Hl : exists strs, mapM (fun v => match v with JStr s => Some s | _ => None end) l = Some strs /\ is_Some (mapM relationship_plane_of_str strs)).
  { induction l as [|v l IH]; [by exists []|]. cbn [forallb] in H. apply andb_true_iff in H as [Hv H]. destruct (IH H) as (strs & E & [ps Ep]). destruct v as [| | | |s| |]; try done.
    exists (s :: strs). cbn. rewrite E. split; [done|]. cbn in Hv.
    do 3 (apply orb_true_iff in Hv as [<-%bool_decide_eq_true|Hv]; [cbn; rewrite Ep; by eexists|]). done. }
  destruct Hl as (strs & -> & Hs). exact Hs.
Qed.

Lemma trace_decodes arguments : Checked ["sourceElementId"; "targetElementId"] arguments -> is_Some (trace_args arguments).
Proof using.
  intros C. destruct (id_decodes _ "sourceElementId" _ C) as [s Hs]; [set_solver..|]. destruct (id_decodes _ "targetElementId" _ C) as [t Ht]; [set_solver..|].
  unfold trace_args. rewrite Hs, Ht. cbn [mbind option_bind].
  assert (Hd : is_Some (optional direction_of_str "direction" arguments)) by (apply (optional_member _ DIRECTIONS); [reflexivity|apply C]). destruct Hd as [d ->].
  destruct (items_lookup "relationshipPlanes" arguments) as [v|] eqn:Ev; [|by eexists]. apply (ck_planes _ _ C) in Ev as (l & -> & Hl). apply planes_decode in Hl as [p Hp].
  destruct (strings_of (JArr l)) as [strs|]; [|done]. cbn [mbind option_bind] in Hp |- *. rewrite Hp. by eexists.
Qed.

(** A tool that is not indexed answers or raises an [HTTPException]. *)
Definition no_exception (r : outcome exn json) : Prop := match r with Err (OtherException _) => False | _ => True end.

Lemma http_no_exception {A} (f : A -> json) (r : outcome http_error A) : no_exception (f <$> http_outcome r).
Proof. by destruct r. Qed.

(** The branch of a tool. *)
Ltac that_tool := unfold model_tool_body; cbn [batch_field items_lookup]; rewrite ?bool_decide_false by done; rewrite bool_decide_true by done.

Lemma batch_no_exception first_error tool_name field revision model arguments : batch_field tool_name = Some field ->
  validate_model_tool_arguments first_error tool_name arguments = Ok tt -> items_lookup tool_name MCP_MODEL_ACCESS_SCHEMAS = None ->
  no_exception (model_tool_body revision model tool_name arguments).
Proof.
  unfold validate_model_tool_arguments, model_tool_body. intros E H Ha. rewrite Ha, E in H. rewrite E. destruct (List.filter _ _); [|done]. unfold batch_of.
  destruct (items_lookup field arguments) as [v|]; [|done]. by destruct v.
Qed.

Lemma tool_no_exception first_error tool_name revision model arguments : tool_name ∈ map fst (drop 8 MCP_MODEL_TOOL_SCHEMAS) ->
  validate_model_tool_arguments first_error tool_name arguments = Ok tt -> no_exception (model_tool_body revision model tool_name arguments).
Proof.
  intros Hin Hv. repeat (apply elem_of_cons in Hin as [->|Hin]); [..|by apply elem_of_nil in Hin]; cbn [fst] in *.
  1,2: by eapply batch_no_exception.
  all: apply tool_checked in Hv; [|reflexivity..]; that_tool.
  - destruct (search_decodes _ Hv) as [a ->]. done.
  - destruct (id_decodes _ "elementId" _ Hv) as [id E]; [set_solver..|]. unfold context_args. rewrite E. apply http_no_exception.
  - destruct (id_decodes _ "rootElementId" _ Hv) as [id E]; [set_solver..|]. unfold subtree_args. rewrite E. apply http_no_exception.
  - destruct (trace_decodes _ Hv) as [a ->]. destruct (ModelToolsSpec.trace_answers model a) as (r & -> & _). apply http_no_exception.
Qed.

Section DecodeAll.
Context (first_error : json -> json -> option string) (Hvalidator : forall name schema v,
  items_lookup name MCP_MODEL_ACCESS_SCHEMAS = Some schema -> first_error (JObj schema) v = None -> conforms (JObj schema) v = true).

(** C26. Checked arguments fit the tools: given a validator that accepts only what conforms to these schemas, the arguments that
    pass the checks of a model tool are read without an error: an indexed tool gets a call to answer, and any other tool
    answers or refuses with a status, on every model; and no page is longer than 100 items. *)
Theorem arguments_decode tool_name arguments :
  tool_name ∈ map fst MCP_MODEL_TOOL_SCHEMAS -> validate_model_tool_arguments first_error tool_name arguments = Ok tt ->
  (if bool_decide (tool_name ∈ map fst MCP_MODEL_ACCESS_SCHEMAS) then is_Some (access_call tool_name arguments)
   else forall revision model, no_exception (model_tool_body revision model tool_name arguments)) /\
  (batch_field tool_name = None -> forall v, items_lookup "limit" arguments = Some v -> in_bounds (1, Some 100) v = true).
Proof using Hvalidator.
  intros Hin Hv. case_bool_decide as Ha.
  - split; [by eapply access_decodes|]. intros _ v E. destruct (proj2 (items_lookup_elem MCP_MODEL_ACCESS_SCHEMAS tool_name) Ha) as [schema Hs].
    pose proof (access_checked _ Hvalidator _ _ _ Hs Hv) as [Hc Hi]. assert (Hint := Hi "limit" v ltac:(right; by left) E). destruct v as [| |z| | | |]; try done.
    assert (Hl : forall properties, ("properties", JObj properties) ∈ schema -> items_lookup "limit" properties = items_lookup "limit" _PAGE -> in_bounds (1, Some 100) (JInt z) = true).
    { intros properties Hp Hl. pose proof (conforms_property _ _ _ _ _ _ Hc Hp Hl E) as H. unfold conforms in H. cbn in H. by rewrite andb_true_r in H. }
    assert (Hn : ("additionalProperties", JBool false) ∈ schema -> forall properties, items_lookup "properties" schema = Some (JObj properties) -> items_lookup "limit" properties = None -> False).
    { intros Hf properties Hp Hl'. destruct (conforms_known _ _ _ _ _ Hc Hf Hp E) as [s Hs']. congruence. }
    repeat (apply elem_of_cons in Ha as [->|Ha]); [..|by apply elem_of_nil in Ha]; cbn in Hs; injection Hs as <-;
      ((eapply Hl; [right; by left|reflexivity]) || (exfalso; eapply Hn; [do 3 right; by left|reflexivity..])).
  - split.
    + intros revision model. apply (tool_no_exception first_error); [|done].
      change (map fst MCP_MODEL_TOOL_SCHEMAS) with (map fst MCP_MODEL_ACCESS_SCHEMAS ++ map fst (drop 8 MCP_MODEL_TOOL_SCHEMAS)) in Hin.
      by apply elem_of_app in Hin as [Hin|Hin].
    + intros Hb v E. apply tool_checked in Hv; [|apply eq_None_not_Some; by rewrite items_lookup_elem|done].
      eapply (ck_bounds _ _ Hv); [by left|done].
Qed.
End DecodeAll.

(** The validator that knows the keywords of [conforms]. *)
Definition plain_validator (schema v : json) : option string := if conforms schema v then None else Some "invalid arguments".

Lemma arguments_decode_witness :
  let arguments := [("elementId", JStr "pump"); ("plane", JStr "graph"); ("limit", JInt 20)] in
  validate_model_tool_arguments plain_validator "getChildren" arguments = Ok tt /\ is_Some (access_call "getChildren" arguments).
Proof.
  cbv zeta. split; [vm_compute; reflexivity|].
  pose proof (arguments_decode plain_validator) as H. specialize (H ltac:(intros name schema v _; unfold plain_validator; by destruct (conforms (JObj schema) v)) "getChildren"
    [("elementId", JStr "pump"); ("plane", JStr "graph"); ("limit", JInt 20)] ltac:(apply (bool_decide_unpack _); vm_compute; exact I) ltac:(vm_compute; reflexivity)).
  destruct H as [H _]. rewrite bool_decide_true in H by (apply (bool_decide_unpack _); vm_compute; exact I). exact H.
Defined.
End McpJsonSpec.
