(* ===== verification/McpTools.v ===== *)
(** The tools of the MCP server ([mcp/tool_definitions.py]): one for every operation of the OpenAPI document that does not
    write, one that reads the values of a container, and the tools on the model; and their schemas.

    The document and the overrides are JSON values; reading the overrides from their files is left out. A schema whose
    references do not end makes Python give up with a RecursionError, which is fuel running out. *)

From S2P Require Export McpJson McpContainer.

Module McpTools.
Export McpJson McpContainer.
Import NodeIds Profiles.

Definition MCP_EXCLUDED_OPERATION_IDS : list string := ["streamSubscription"].
Definition MCP_PAGINATED_LIST_TOOLS : list string := ["getObjectsV1"; "getObjectTypesV1"; "getRelationshipTypesV1"].
Definition MCP_DEFAULT_PAGE_SIZE : Z := 50.
Definition MCP_BODY_PAGINATED_TOOLS : list (string * Z) := [("queryRelatedObjectsV1", 50); ("queryHistoricalValuesV1", 100)].
Definition MCP_CONTAINER_VALUES_TOOL : string := "readContainerValues".

Record McpToolDefinition := {
  t_name : string;
  t_description : string;
  t_method : string;
  t_path : string;
  t_input_schema : items;
  t_path_parameters : list string;
  t_query_parameters : list string;
  t_body_required : bool;
  t_priority : string;
  t_keywords : list string;
  t_server_url_override : option string;
}.

Definition str_endswith (suffix s : string) : bool := starts_with (reverse (chars suffix)) (reverse (chars s)).

(** [tool.output_schema] and [tool.annotations]. *)
Definition output_schema : json :=
  JObj [("type", JStr "object");
        ("properties", JObj [("statusCode", JObj [("type", JStr "integer")]); ("body", JObj [("type", JStr "object"); ("additionalProperties", JBool true)])]);
        ("required", json_strings ["statusCode"; "body"]); ("additionalProperties", JBool false)].

Definition READ_ONLY_POSTS : list string :=
  ["/objects/list"; "/objects/related"; "/objects/value"; "/objects/history"; "/objecttypes/query"; "/relationshiptypes/query"; "/subscriptions/list"].

Definition read_only (tool : McpToolDefinition) : bool :=
  (bool_decide (t_method tool = "GET") || existsb (fun suffix => str_endswith suffix (t_path tool)) READ_ONLY_POSTS && bool_decide (t_method tool = "POST"))%bool.

Definition annotations (tool : McpToolDefinition) : json :=
  let subscription_mutation := (str_in "/subscriptions" (t_path tool) && negb (read_only tool))%bool in
  JObj [("readOnlyHint", JBool (read_only tool));
        ("destructiveHint", JBool (negb (read_only tool) &&
           negb (subscription_mutation && (str_endswith "/subscriptions" (t_path tool) || str_endswith "/register" (t_path tool)))));
        ("idempotentHint", JBool (read_only tool));
        ("openWorldHint", JBool (negb (mem (t_name tool) (map fst MCP_MODEL_ACCESS_SCHEMAS))))].

Definition to_dict (tool : McpToolDefinition) : items :=
  [("name", JStr (t_name tool)); ("description", JStr (t_description tool)); ("method", JStr (t_method tool)); ("path", JStr (t_path tool));
   ("input_schema", JObj (t_input_schema tool)); ("path_parameters", json_strings (t_path_parameters tool));
   ("query_parameters", json_strings (t_query_parameters tool)); ("body_required", JBool (t_body_required tool)); ("priority", JStr (t_priority tool));
   ("keywords", json_strings (t_keywords tool)); ("server_url_override", jopt (t_server_url_override tool)); ("outputSchema", output_schema);
   ("annotations", annotations tool)].

(** ** References in schemas *)

Definition mapping (v : option json) : items := match v with Some (JObj l) => l | _ => [] end.

Definition resolve_ref (ref : string) (components : items) : json :=
  let prefix := "#/components/schemas/" in
  if negb (startswith prefix ref) then JObj [("$ref", JStr ref)]
  else match items_lookup (str_drop (String.length prefix) ref) (mapping (items_lookup "schemas" components)) with
       | Some schema => schema
       | None => JObj [("$ref", JStr ref)]
       end.

(** [{key: f(value)}], if [f] succeeds for all. *)
Definition map_items (f : json -> option json) (l : items) : option items := mapM (fun p => v ← f p.2; Some (p.1, v)) l.

Fixpoint resolve_schema (fuel : nat) (components : items) (schema : json) : option json :=
  match fuel with
  | O => None
  | S fuel' =>
      match schema with
      | JObj l =>
          match items_lookup "$ref" l with
          | Some (JStr ref) => resolve_schema fuel' components (resolve_ref ref components)
          | Some _ => Some schema
          | None =>
              JObj <$> mapM (fun p : string * json =>
                v ← (if bool_decide (p.1 ∈ ["allOf"; "anyOf"; "oneOf"]) then
                       match p.2 with JArr alternatives => JArr <$> mapM (resolve_schema fuel' components) alternatives | v => Some v end
                     else if bool_decide (p.1 = "properties") then
                       match p.2 with JObj properties => JObj <$> map_items (resolve_schema fuel' components) properties | v => Some v end
                     else if bool_decide (p.1 = "items") then
                       match p.2 with JNull => Some JNull | v => resolve_schema fuel' components v end
                     else Some p.2);
                Some (p.1, v)) l
          end
      | v => Some v
      end
  end.

(** [None] where Python gives up, [Some None] where there is no schema. *)
Definition resolve_request_body_schema (fuel : nat) (request_body components : items) : option (option items) :=
  match items_lookup "content" request_body with
  | Some (JObj content) =>
      match items_lookup "application/json" content with
      | Some (JObj json_content) =>
          match items_lookup "schema" json_content with
          | None | Some JNull => Some None
          | Some schema => resolved ← resolve_schema fuel components schema; Some (match resolved with JObj l => Some l | _ => None end)
          end
      | _ => Some None
      end
  | _ => Some None
  end.

(** ** Tools of the OpenAPI document *)

Definition page_schemas (maximum : Z) : items :=
  [("limit", JObj [("type", JStr "integer"); ("minimum", JInt 1); ("maximum", JInt maximum)]); ("offset", JObj [("type", JStr "integer"); ("minimum", JInt 0)])].

(** [d.update(d')]. *)
Definition update_items (l' l : items) : items := fold_left (fun acc p => items_insert p.1 p.2 acc) l' l.

(** What the parameters of an operation come to: schemas, required names, names in the path and in the query. *)
Record Inputs := { in_properties : items; in_required : list string; in_path : list string; in_query : list string }.
Definition no_inputs : Inputs := {| in_properties := []; in_required := []; in_path := []; in_query := [] |}.

Definition add_parameter (fuel : nat) (components : items) (parameter : json) (i : Inputs) : option Inputs :=
  match parameter with
  | JObj l =>
      match items_lookup "name" l, items_lookup "in" l with
      | Some (JStr name), Some (JStr location) =>
          if negb (bool_decide (location ∈ ["path"; "query"])) then Some i
          else
            schema ← resolve_schema fuel components (default (JObj [("type", JStr "string")]) (items_lookup "schema" l));
            Some {| in_properties := items_insert name schema (in_properties i);
                    in_required := in_required i ++ (if json_truthy (get "required" l) then [name] else []);
                    in_path := in_path i ++ (if bool_decide (location = "path") then [name] else []);
                    in_query := in_query i ++ (if bool_decide (location = "query") then [name] else []) |}
      | _, _ => Some i
      end
  | _ => Some i
  end.

Fixpoint add_parameters (fuel : nat) (components : items) (parameters : list json) (i : Inputs) : option Inputs :=
  match parameters with
  | [] => Some i
  | parameter :: parameters' => i ← add_parameter fuel components parameter i; add_parameters fuel components parameters' i
  end.

(** The schema of the body, with a page where the tool has one. *)
Definition body_schema_of (operation_id : string) (body_schema : items) : json :=
  match items_lookup operation_id MCP_BODY_PAGINATED_TOOLS, items_lookup "properties" body_schema with
  | Some _, Some (JObj properties) => JObj (items_insert "properties" (JObj (update_items (page_schemas 500) properties)) body_schema)
  | _, _ => JObj body_schema
  end.

Definition add_body (fuel : nat) (components : items) (operation_id : string) (request_body : option json) (i : Inputs) : option (Inputs * bool) :=
  match request_body with
  | Some (JObj l) =>
      let body_required := json_truthy (get "required" l) in
      body_schema ← resolve_request_body_schema fuel l components;
      Some (match body_schema with
            | None => i
            | Some s => {| in_properties := items_insert "body" (body_schema_of operation_id s) (in_properties i);
                           in_required := in_required i ++ (if body_required then ["body"] else []); in_path := in_path i; in_query := in_query i |}
            end, body_required)
  | _ => Some (i, false)
  end.

(** [a or b or c] on JSON values; the last one may be anything. *)
Fixpoint or_chain (l : list (option json)) (last : json) : json :=
  match l with
  | [] => last
  | v :: l' => if json_truthy (default JNull v) then default JNull v else or_chain l' last
  end.

Definition keywords_of (override : items) : list string :=
  match items_lookup "keywords" override with Some (JArr l) => omap id_text l | _ => [] end.

Section Build.
(** Fuel for schemas, and [str()] of lists and dictionaries. *)
Context (fuel : nat) (repr : json -> text).

Definition str_text (v : json) : string := of_chars (str_of repr v).

Definition override_of (name : string) (overrides : option items) : items := mapping (items_lookup name (default [] overrides)).

Definition operation_schema (i : Inputs) : items :=
  [("type", JStr "object"); ("properties", JObj (in_properties i)); ("required", json_strings (in_required i)); ("additionalProperties", JBool false)].

(** The tool of one operation; [Some None] where there is none. *)
Definition operation_tool (components : items) (overrides : option items) (path : string) (path_server_override : option string) (method : string) (details : json)
    : option (option McpToolDefinition) :=
  match details with
  | JObj l =>
      if bool_decide (upper method = "PUT") then Some None
      else match items_lookup "operationId" l with
           | Some (JStr operation_id) =>
               if bool_decide (operation_id ∈ MCP_EXCLUDED_OPERATION_IDS) then Some None
               else if str_endswith "/subscriptions/stream" path then Some None
               else
                 parameters ← match items_lookup "parameters" l with None => Some [] | Some (JArr ps) => Some ps | Some (JObj _ | JStr _) => Some [] | Some _ => None end;
                 i ← add_parameters fuel components parameters no_inputs;
                 ib ← add_body fuel components operation_id (items_lookup "requestBody" l) i;
                 let '(i, body_required) := ib in
                 let i := if bool_decide (operation_id ∈ MCP_PAGINATED_LIST_TOOLS)
                          then {| in_properties := update_items (page_schemas 500) (in_properties i); in_required := in_required i; in_path := in_path i; in_query := in_query i |}
                          else i in
                 let override := override_of operation_id overrides in
                 Some (Some {|
                   t_name := operation_id;
                   t_description := str_text (or_chain [items_lookup "description" override; items_lookup "summary" l; items_lookup "description" l] (JStr ε));
                   t_method := upper method; t_path := path; t_input_schema := operation_schema i;
                   t_path_parameters := in_path i; t_query_parameters := in_query i; t_body_required := body_required;
                   t_priority := str_text (or_chain [items_lookup "priority" override] (JStr "normal"));
                   t_keywords := keywords_of override; t_server_url_override := path_server_override |})
           | _ => Some None
           end
  | _ => Some None
  end.

Definition server_override (methods : items) : option string :=
  match items_lookup "servers" methods with
  | Some (JArr servers) => head (omap (fun server => match server with JObj l => str_arg "url" l | _ => None end) servers)
  | _ => None
  end.

Fixpoint add_operations (components : items) (overrides : option items) (path : string) (server : option string) (methods : items)
    (tools : dict string McpToolDefinition) : option (dict string McpToolDefinition) :=
  match methods with
  | [] => Some tools
  | (method, details) :: methods' =>
      tool ← operation_tool components overrides path server method details;
      add_operations components overrides path server methods' (match tool with Some t => <[t_name t := t]> tools | None => tools end)
  end.

Fixpoint add_paths (components : items) (overrides : option items) (paths : items) (tools : dict string McpToolDefinition) : option (dict string McpToolDefinition) :=
  match paths with
  | [] => Some tools
  | (path, JObj methods) :: paths' =>
      tools ← (if startswith "/mcp" path then Some tools else add_operations components overrides path (server_override methods) methods tools);
      add_paths components overrides paths' tools
  | _ :: paths' => add_paths components overrides paths' tools
  end.

(** ** The tools of the server itself *)

Definition container_tool (overrides : option items) : McpToolDefinition :=
  let override := override_of MCP_CONTAINER_VALUES_TOOL overrides in
  {| t_name := MCP_CONTAINER_VALUES_TOOL;
     t_description := str_text (or_chain [items_lookup "description" override]
       (JStr "Read current values for properties under one discovered container. Pass its elementId; do not build a long elementIds array."));
     t_method := "POST"; t_path := "/v1/objects/value";
     t_input_schema :=
       _schema [("containerId", JObj [("type", JStr "string"); ("minLength", JInt 1)]); ("limit", integer_schema 1 (Some 50) 50); ("offset", integer_schema 0 None 0)] ["containerId"];
     t_path_parameters := []; t_query_parameters := []; t_body_required := false;
     t_priority := str_text (or_chain [items_lookup "priority" override] (JStr "high")); t_keywords := keywords_of override; t_server_url_override := None |}.

Definition model_tool_descriptions : list (string * string) :=
  [("resolveBrowsePath",
    "Resolve an exact root-inclusive path of cached display names to one element. Pass path or segments (for names containing '/'). Duplicate paths return 409. No live OPC UA calls.");
   ("getBrowsePath",
    "Get an element's canonical root-inclusive path and segments from cached hierarchy/composition parents. No live OPC UA calls.");
   ("getInstancesOfType",
    "List cached object instances of a typeElementId, including subtypes by default. Requires the revision-matched cached type context; never browses OPC UA. Paginated [elementId, name] pairs.");
   ("getChildren",
    "List direct cached children on hierarchy (default), composition, or outgoing graph plane. Paginated [elementId, name] pairs without metadata or values; no live OPC UA calls.");
   ("getCompositionProperties",
    "List all recursive composition properties beneath up to 50 cached objects, without values. offset/limit apply independently to each object's properties. No hierarchy traversal or live OPC UA calls.");
   ("findElementsByName",
    "NOT FOR MODEL DISCOVERY OR INVENTORY. Use only as a last-resort lookup for a specific likely name after searchModelElements or focused path/child traversal fails. Matches cached display-name substrings only, not metadata. Results are paginated cache matches; do not page through broad results. No live OPC UA calls.");
   ("findElementsByNamespace",
    "NOT FOR MODEL DISCOVERY OR INVENTORY. Use only as a last-resort lookup for a specific target when the exact namespace URI is known and focused searchModelElements or path/child traversal fails. Results are paginated cache matches; do not page through broad results. No live OPC UA calls.");
   ("findElementsByRole",
    "NOT FOR MODEL DISCOVERY OR INVENTORY. Use only as a last-resort lookup for a specific target when its semantic role is known and focused searchModelElements or path/child traversal fails. Results are paginated cache matches; do not page through broad results. No live OPC UA calls.");
   ("resolveElementIdsToNodeIds",
    "Resolve cached i3X ElementIds to their OPC UA NodeIds and ExpandedNodeIds. Uses only the current cached model and never contacts the OPC UA server.");
   ("resolveNodeIdsToElementIds",
    "Resolve standard or expanded OPC UA NodeIds to cached i3X ElementIds. Uses only the current cached model and never contacts the OPC UA server.");
   ("searchModelElements",
    "TARGETED LOOKUP ONLY; NOT FOR MODEL DISCOVERY OR INVENTORY. Requires specific non-empty text; filter-only or empty-text listing is rejected. Search cached names and metadata for a likely target. Filters narrow results and classification fields (kind/semanticRole) do not represent every capability; for example, an asset may also support events. A filtered miss does not prove absence. Results are paginated; do not page through broad matches.");
   ("getElementContext",
    "Get one cached model element with bounded hierarchy ancestors, direct children, semantic metadata, and direct relationships.");
   ("summarizeSubtree",
    "Return a bounded tree and kind/role counts for one cached model branch, keeping hierarchy and composition distinct.");
   ("traceRelationshipPath",
    "Find a shortest bounded path between two cached model elements across selected relationship planes.")].

Definition HIGH_PRIORITY : list string :=
  ["resolveElementIdsToNodeIds"; "resolveNodeIdsToElementIds"; "searchModelElements"; "getElementContext"; "resolveBrowsePath"; "getBrowsePath"; "getInstancesOfType"].

Definition model_tool (overrides : option items) (name : string) (input_schema : items) : McpToolDefinition :=
  let override := override_of name overrides in
  {| t_name := name;
     t_description := str_text (or_chain [items_lookup "description" override] (jopt (items_lookup name model_tool_descriptions)));
     t_method := "GET"; t_path := "/mcp/model/" +:+ name; t_input_schema := input_schema;
     t_path_parameters := []; t_query_parameters := []; t_body_required := false;
     t_priority := str_text (or_chain [items_lookup "priority" override] (JStr (if bool_decide (name ∈ HIGH_PRIORITY) then "high" else "normal")));
     t_keywords := keywords_of override; t_server_url_override := None |}.

(** [configuration] is what [load_overrides] gives; it is only read if there are no [overrides]. *)
Definition build_mcp_tools (openapi_spec configuration : items) (overrides : option items) : option (dict string McpToolDefinition) :=
  let '(overrides, excluded_tools) :=
    match overrides with
    | Some o => (Some o, [])
    | None => (Some (mapping (items_lookup "tools" configuration)), match items_lookup "excluded_tools" configuration with Some (JArr l) => omap id_text l | _ => [] end)
    end in
  match items_lookup "paths" openapi_spec with
  | Some (JObj paths) =>
      tools ← add_paths (mapping (items_lookup "components" openapi_spec)) overrides paths ∅;
      let tools := <[MCP_CONTAINER_VALUES_TOOL := container_tool overrides]> tools in
      let tools := dict_update_list (map (fun s => (s.1, model_tool overrides s.1 s.2)) MCP_MODEL_TOOL_SCHEMAS) tools in
      Some (dict_filter_keys (fun name => negb (mem name excluded_tools)) tools)
  | _ => Some ∅
  end.
End Build.
End McpTools.
