(* ===== verification/Prompts.v ===== *)
(** The prompts of the MCP server ([prompts/registry.py], [prompts/renderer.py], [prompts/api.py]): templates with named
    placeholders, loaded from the overrides, listed, and rendered with the values that a client gives. *)

From S2P Require Export Json McpPaths McpPages.

Module Prompts.
Export Json McpPaths McpPages.

Record PromptDefinition := { p_name : string; p_description : string; p_inputs : list string; p_template : string }.
Definition PromptRegistry := dict string PromptDefinition.

Definition to_metadata (prompt : PromptDefinition) : items := [("name", JStr (p_name prompt)); ("description", JStr (p_description prompt))].
Definition prompt_to_dict (prompt : PromptDefinition) : items :=
  [("name", JStr (p_name prompt)); ("description", JStr (p_description prompt)); ("inputs", json_strings (p_inputs prompt)); ("template", JStr (p_template prompt))].

(** ** Loading *)

Definition invalid_prompt {A} : outcome exn A := Err (OtherException "ValueError").

(** [isinstance(item, str) and item]. *)
Definition input_name (v : json) : option string := match v with JStr s => if truthy s then Some s else None | _ => None end.

Definition prompt_from_mapping (name : string) (data : items) : outcome exn PromptDefinition :=
  match items_lookup "description" data, items_lookup "inputs" data, items_lookup "template" data with
  | Some (JStr description), Some (JArr inputs), Some (JStr template) =>
      match mapM input_name inputs with
      | Some inputs => Ok {| p_name := name; p_description := description; p_inputs := inputs; p_template := template |}
      | None => invalid_prompt
      end
  | _, _, _ => invalid_prompt
  end.

Definition as_mapping (v : json) : items := match v with JObj l => l | _ => [] end.

Fixpoint load_prompts (prompts : list (string * json)) (prompt_map : PromptRegistry) : outcome exn PromptRegistry :=
  match prompts with
  | [] => Ok prompt_map
  | (prompt_name, prompt_data) :: prompts' =>
      if negb (truthy (strip prompt_name)) then invalid_prompt
      else prompt ← prompt_from_mapping prompt_name (as_mapping prompt_data); load_prompts prompts' (<[p_name prompt := prompt]> prompt_map)
  end.

Definition item_leb {A} (p q : string * A) : bool := string_leb p.1 q.1.

Definition load_from_overrides (overrides : json) : outcome exn PromptRegistry := load_prompts (py_sorted item_leb (as_mapping overrides)) ∅.

Definition list_metadata (registry : PromptRegistry) : list items := map (fun p => to_metadata p.2) (py_sorted item_leb (dict_items registry)).

(** ** Rendering *)

Definition open_brace : ascii := "{"%char.
Definition close_brace : ascii := "}"%char.
Definition name_start (c : ascii) : bool := (is_upper c || is_lower c || ceqb c "_"%char)%bool.
Definition name_char (c : ascii) : bool := (is_alnum c || ceqb c "_"%char)%bool.

(** A placeholder at the beginning of the text: its name, and what follows. *)
Definition match_placeholder (t : text) : option (string * text) :=
  match t with
  | a :: b :: t =>
      if negb (ceqb a open_brace && ceqb b open_brace) then None
      else
        let t := drop_while is_space t in
        let name := take_while name_char t in
        match name with
        | c :: _ =>
            if negb (name_start c) then None
            else match drop_while is_space (drop_while name_char t) with
                 | a :: b :: rest => if (ceqb a close_brace && ceqb b close_brace)%bool then Some (of_chars name, rest) else None
                 | _ => None
                 end
        | [] => None
        end
  | _ => None
  end.

(** The value of every placeholder, from left to right; the error names the first one that has none. *)
Fixpoint render_text (fuel : nat) (parameters : string -> option text) (t : text) : option (outcome string text) :=
  match fuel with
  | O => None
  | S fuel' =>
      match match_placeholder t with
      | Some (name, rest) =>
          match parameters name with
          | None => Some (Err name)
          | Some value => r ← render_text fuel' parameters rest; Some (rest ← r; Ok (value ++ rest))
          end
      | None =>
          match t with
          | [] => Some (Ok [])
          | c :: t' => r ← render_text fuel' parameters t'; Some (rest ← r; Ok (c :: rest))
          end
      end
  end.

Section Render.
(** [str()] of lists and dictionaries. *)
Context (repr : json -> text).

Definition render_template (template : string) (parameters : items) : outcome string string :=
  match render_text (S (length (chars template))) (fun name => str_of repr <$> items_lookup name parameters) (chars template) with
  | Some (Ok t) => Ok (of_chars t)
  | Some (Err name) => Err name
  | None => Err ε
  end.

(** ** Requests *)

Definition unknown_prompt {A} (name : string) : outcome exn A := http_exception 404 "Not Found" ("Unknown prompt " +:+ name).

Definition list_prompt_metadata (registry : option PromptRegistry) : list items := match registry with Some r => list_metadata r | None => [] end.

Definition get_prompt (registry : option PromptRegistry) (name : string) : outcome exn items :=
  match registry ≫= lookup name with
  | Some prompt => Ok (prompt_to_dict prompt)
  | None => unknown_prompt name
  end.

Definition execute_prompt (registry : option PromptRegistry) (name : string) (parameters : items) : outcome exn items :=
  match registry ≫= lookup name with
  | None => unknown_prompt name
  | Some prompt =>
      match List.filter (fun input => negb (bool_decide (is_Some (items_lookup input parameters)))) (p_inputs prompt) with
      | (_ :: _) as missing_inputs => http_exception 400 "Bad Request" ("Missing prompt inputs: " +:+ join ", " missing_inputs)
      | [] =>
          match render_template (p_template prompt) parameters with
          | Err variable_name => http_exception 400 "Bad Request" ("Missing template variable: " +:+ variable_name)
          | Ok rendered => Ok (prompt_to_dict prompt ++ [("rendered", JStr rendered)])
          end
      end
  end.
End Render.

Example render_values :
  render_template (fun _ => []) "Read {{ elementId }} for {{hours}} h: {{{x}}." [("elementId", JStr "{{hours}}"); ("hours", JInt 24); ("x", JStr "y")] =
  Ok "Read {{hours}} for 24 h: {y.".
Proof. vm_compute. reflexivity. Qed.
End Prompts.

(** ** The texts that the MCP server gives to clients as they are ([api/mcp/monolithic.py]). *)
Module McpGuides.

Definition MCP_MAPPING_GUIDE : string := "# OPC UA to i3X mapping guide

i3x2ua converts the connected OPC UA address space into an i3X graph. Treat
`elementId` and relationship IDs as opaque identifiers; use the IDs returned by
the server rather than deriving or guessing them.

## Nodes and types

- OPC UA instance nodes are exposed as i3X objects. Variables represent values
  and properties in the model; ObjectTypes describe the schema of those objects.
- `elementId` is generated deterministically from the expanded OPC UA NodeId,
  using the namespace URI rather than a session-specific namespace index.
- `typeElementId` links an object to its i3X ObjectType. OPC UA type-definition
  and DataType identities are preserved in metadata such as `sourceTypeId`,
  `uaTypeNodeId`, and `namespaceUri`.
- A missing type is synthesized from available DataType metadata when possible;
  otherwise an `UnknownType` placeholder preserves the unresolved reference.

## References become three relationship planes

- **Hierarchy** represents structural parent/child organization, such as
  `Plant -> Line -> Pump`. `Organizes` and hierarchical references generally
  map here. Parent selection is deterministic.
- **Composition** represents parts or properties belonging to an object, such
  as `Pump -> Temperature`. `HasProperty` maps here. `HasComponent` and
  `HasOrderedComponent` map Variable targets to composition; non-Variable
  targets map to hierarchy.
- **Graph** preserves non-hierarchical links between objects. OPC UA
  `NonHierarchicalReferences` and their subtypes map here; graph links do not
  determine object parents.

Reference classification follows the OPC UA reference type's supertype chain.
If a reference type cannot be classified, it is retained as a graph
relationship. `HasTypeDefinition` and `HasSubtype` describe type metadata, not
instance-to-instance edges. Built-in i3X relationships express hierarchy and
composition; discovered graph relationship names come from OPC UA
ReferenceType BrowseNames.

## Reading the graph

Start with `getObjectsV1` to discover real object IDs, then use
`queryRelatedObjectsV1` to navigate hierarchy, composition, and graph links.
Value and history reads recurse through composition only: hierarchy navigation
does not implicitly read values from descendants. Use `maxDepth=1` for the
selected object, `maxDepth=2` for direct composition children, and `maxDepth=0`
for unlimited composition traversal.
".

Definition MCP_IDENTITY_GUIDE : string := "# i3X ElementId and type identifiers

## Keep the identifiers distinct

- **`elementId`** identifies one i3X element (an object instance or an
  ObjectType). For an object instance, use it to fetch or navigate that exact
  node. It is an i3X identifier, not the OPC UA NodeId.
- **`typeElementId`** on an object identifies the i3X type associated with that
  instance. Use it to find the corresponding ObjectType in the i3X type
  catalog. It is a reference to an i3X type, not a second ID for the instance.
- **`sourceTypeId`** is OPC UA provenance metadata, not an i3X type identifier.
  For Objects it normally records the OPC UA TypeDefinition NodeId; for
  Variables, the mapped `typeElementId` is based on the OPC UA DataType.
  `uaTypeNodeId` also records the source TypeDefinition when present.
- **OPC UA `NodeId` / `ExpandedNodeId`** identifies the source node in the OPC
  UA address space. The raw NodeId is retained as `metadata.uaNodeId`; its
  expanded form is retained as `metadata.expandedNodeId`.

ObjectTypes also have their own i3X `elementId`. An object's `typeElementId`
refers to that ID. A type's OPC UA identity is exposed separately as its
`sourceTypeId` and OPC UA schema metadata; do not substitute that provenance
value for the i3X `typeElementId`.

## How object instance elementIds are generated

The mapper first converts the source NodeId to an ExpandedNodeId using the
server's OPC UA namespace table:

1. Replace `ns=N` with the namespace URI, yielding `nsu=<namespace-uri>`.
   Namespace index zero uses `http://opcfoundation.org/UA/`. For example,
   `ns=2;s=Pump-17` becomes
   `nsu=urn:example:plant;s=Pump-17` when namespace index 2 resolves to
   `urn:example:plant`.
2. Keep the identifier type and value (`i=` numeric, `s=` string, `g=` GUID,
   or `b=` ByteString) as part of the expanded string.
3. Compute SHA-1 over the UTF-8 bytes of that expanded string and take the
   first 16 lowercase hexadecimal characters.
4. Prefix the digest with the i3X kind and a hyphen:
   `<kind>-<digest>`. OPC UA Objects map to `asset`, Variables to `property`,
   Methods to `action`, and event-notifier nodes to `eventSource`.

Thus the example ID is `asset-<first-16-hex-digits-of-SHA1-of-the-expanded-string>`.
The hash input is the expanded NodeId string, not the BrowseName, DisplayName,
TypeDefinition, or raw namespace-index NodeId. Resolving the namespace URI
before hashing keeps the ID stable when OPC UA namespace indexes change
between connections. If a namespace index cannot be resolved, the mapper
retains the original NodeId string, so that stability guarantee cannot be
made for that unresolved namespace.

Use IDs returned by the server rather than calculating or guessing them.
Type IDs may be synthesized from OPC UA type metadata and are not necessarily
generated by the same instance-node hashing rule.
".

Definition MCP_INSTRUCTIONS : string :=
  "Discover elementIds before querying values. Value/history maxDepth traverses composition only, " +:+
  "not hierarchy: 1 reads only the object, 2 includes direct components, 0 is unlimited. " +:+
  "For many values below one known container, call readContainerValues with its exact containerId " +:+
  "instead of generating a long elementIds array. " +:+
  "Preserve value, quality, and source timestamp; latest known values need not be fresh. " +:+
  "Inspect per-item failures even when HTTP succeeds. PUT/write operations are REST-only. " +:+
  "Subscription tools change monitoring state; acknowledge only updates already processed. " +:+
  "Plant roots are available using getObjectsV1(root=true), not MCP filesystem roots.".
End McpGuides.
