(* ===== verification/McpInvoke.v ===== *)
(** Calls of MCP tools ([invoke_mcp_tool] in [mcp/invocation.py]): the checks of the arguments, the request to the REST
    route of the tool or the tool on the cached model, and the page of the answer.

    A call runs over the state that the application keeps for the MCP server; other calls run while it awaits the
    application. Logging, tracing and metrics are left out. *)

From S2P Require Export McpTools.

Module McpInvoke.
Export McpTools.
Import NodeIds Profiles.
Local Open Scope async_scope.

(** What the tools use of [app.state]: the model with the index that the tools left with it, and the context of the object
    types with the revision it was made for. *)
Record ModelState := {
  model_cache : option (BuildResult * option ModelAccess.ModelAccessIndex);
  object_type_context_cache : option (string * ModelAccess.ObjectTypeContext);
}.

(** ** Arguments *)

Definition schema_properties (schema : items) : items := match items_lookup "properties" schema with Some (JObj l) => l | _ => [] end.

Definition allowed_arguments (tool : McpToolDefinition) : list string :=
  t_path_parameters tool ++ t_query_parameters tool ++
  (if bool_decide (t_name tool ∈ MCP_PAGINATED_LIST_TOOLS) then ["limit"; "offset"] else []) ++
  (if bool_decide (t_name tool = MCP_CONTAINER_VALUES_TOOL) then ["containerId"; "limit"; "offset"] else []) ++
  match items_lookup (t_name tool) MCP_MODEL_TOOL_SCHEMAS with Some schema => map fst (schema_properties schema) | None => [] end ++
  (if (t_body_required tool || has_key "body" (schema_properties (t_input_schema tool)))%bool then ["body"] else []).

(** The names of [arguments] that the tool does not know, and those it needs for the path and the query. *)
Definition check_names (tool : McpToolDefinition) (arguments : items) : outcome exn unit :=
  match py_sorted string_leb (List.filter (fun name => negb (mem name (allowed_arguments tool))) (map fst arguments)) with
  | (_ :: _) as unexpected => bad_argument ("Unexpected arguments: " +:+ join ", " unexpected)
  | [] =>
      let required := required_of (t_input_schema tool) in
      match List.filter (fun name => negb (has_key name arguments)) (t_path_parameters tool) ++
            List.filter (fun name => mem name required && negb (has_key name arguments))%bool (t_query_parameters tool) with
      | (_ :: _) as missing => bad_argument ("Missing required arguments: " +:+ join ", " missing)
      | [] => Ok tt
      end
  end.

(** The page of a list. *)
Definition list_page (tool : McpToolDefinition) (arguments : items) : outcome exn (option (Z * Z)) :=
  if bool_decide (t_name tool ∈ MCP_PAGINATED_LIST_TOOLS) then
    Some <$> validate_mcp_page (default (JInt MCP_DEFAULT_PAGE_SIZE) (items_lookup "limit" arguments)) (default (JInt 0) (items_lookup "offset" arguments))
  else Ok None.

(** ** Requests *)

Definition set_query (arguments : items) (params : dict string json) (parameter_name : string) : dict string json :=
  match items_lookup parameter_name arguments with
  | None | Some JNull => params
  | Some v => <[parameter_name := v]> params
  end.

Definition query_params (tool : McpToolDefinition) (arguments : items) : dict string json :=
  let params := fold_left (set_query arguments) (t_query_parameters tool) ∅ in
  if (bool_decide (t_name tool = "getObjectsV1") && mem "root" (t_query_parameters tool))%bool then dict_setdefault "root" (JBool true) params else params.

(** The body to send, and the page of the answer where the tool cuts it. *)
Definition request_body (tool : McpToolDefinition) (arguments : items) : outcome exn (option json * option (Z * Z)) :=
  let body := match items_lookup "body" arguments with None | Some JNull => None | Some v => Some v end in
  bp ← match items_lookup (t_name tool) MCP_BODY_PAGINATED_TOOLS, body with
       | Some default_limit, Some (JObj l) =>
           let rest := List.filter (fun p => negb (bool_decide (p.1 ∈ ["limit"; "offset"]))) l in
           page ← validate_mcp_page (default (JInt default_limit) (items_lookup "limit" l)) (default (JInt 0) (items_lookup "offset" l));
           Ok (Some (JObj rest), Some page)
       | _, _ => Ok (body, None)
       end;
  match bp.1 with
  | None => if t_body_required tool then http_exception 400 "Bad Request" "Missing required body" else Ok bp
  | Some _ => Ok bp
  end.

Record Payload := { pl_status_code : Z; pl_body : json }.

Section Invoke.
(** [urlsplit]'s check of hosts in brackets, [str()] of lists and dictionaries, [json.loads], [decode] with replacements, the
    errors of the validator of JSON Schema, and the revision of a model. *)
Context (bracketed_netloc_ok : text -> bool) (repr : json -> text) (loads : string -> option json) (decode_replace : string -> string)
        (first_error : json -> json -> option string) (model_revision : BuildResult -> string).

Definition effective_prefix (config : McpConfig) (tool : McpToolDefinition) : outcome exn text :=
  match t_server_url_override tool with
  | Some url => safe_api_prefix bracketed_netloc_ok (chars url)
  | None => Ok (chars (default ε (mcp_api_prefix config)))
  end.

(** ** Tools on the model *)

(** The methods need a part of the state only. *)
Context {S : Type} (model_state : S -> ModelState) (set_model_state : ModelState -> S -> S).

Definition no_cached_model {A} : outcome exn A := http_exception 503 "Service Unavailable" "Cached model is not available".

Definition invoke_model_tool (config : McpConfig) (tool_name : string) (arguments : items) : method S InternalASGIResponse :=
  obind (Ret (validate_model_tool_arguments first_error tool_name arguments)) (fun _ =>
  obind (provide_model config) (fun model =>
  Ret (body ← model_tool_body (model_revision model) model tool_name arguments; Ok (json_response body)))).

Definition identity_tool (tool_name : string) (arguments : items) (s : ModelState) : outcome exn InternalASGIResponse :=
  match model_cache s with
  | None => no_cached_model
  | Some (model, _) => body ← model_tool_body (model_revision model) model tool_name arguments; Ok (json_response body)
  end.

Definition invoke_cached_identity_tool (tool_name : string) (arguments : items) : method S InternalASGIResponse :=
  obind (Ret (validate_model_tool_arguments first_error tool_name arguments)) (fun _ =>
  sect (fun s => (s, identity_tool tool_name arguments (model_state s)))).

(** The context of the object types, if it was made for this revision. *)
Definition current_context (tool_name revision : string) (s : ModelState) : option ModelAccess.ObjectTypeContext :=
  if bool_decide (tool_name = "getInstancesOfType") then
    match object_type_context_cache s with
    | Some (model_token, context) => if bool_decide (model_token = revision) then Some context else None
    | None => None
    end
  else None.

(** The call leaves its index with the model. *)
Definition access_tool (tool_name : string) (arguments : items) (s : ModelState) : ModelState * outcome exn InternalASGIResponse :=
  match model_cache s with
  | None => (s, no_cached_model)
  | Some (model, index) =>
      let revision := model_revision model in
      match access_call tool_name arguments with
      | None => (s, argument_type_error)
      | Some call =>
          match ModelAccess.invoke_model_access_tool model revision index (current_context tool_name revision s) call with
          | None => (s, Err (OtherException "not finished"))
          | Some (index, result) =>
              ({| model_cache := Some (model, index); object_type_context_cache := object_type_context_cache s |},
               result ← http_outcome result; Ok (json_response (JObj (("modelRevision", JStr revision) :: access_result result))))
          end
      end
  end.

Definition invoke_cached_model_access_tool (tool_name : string) (arguments : items) : method S InternalASGIResponse :=
  sect (fun s => let '(m, r) := access_tool tool_name arguments (model_state s) in (set_model_state m s, r)).

(** ** The call *)

(** How the tool gets its answer. *)
Definition dispatch (config : McpConfig) (tool : McpToolDefinition) (arguments : items) (request_target : text) (params : dict string json) (body : option json)
    : method S InternalASGIResponse :=
  let name := t_name tool in
  if bool_decide (name = MCP_CONTAINER_VALUES_TOOL) then
    invoke_container_values loads bracketed_netloc_ok config (default (JStr ε) (items_lookup "containerId" arguments))
      (default (JInt 50) (items_lookup "limit" arguments)) (default (JInt 0) (items_lookup "offset" arguments))
  else if bool_decide (name ∈ ["resolveElementIdsToNodeIds"; "resolveNodeIdsToElementIds"]) then invoke_cached_identity_tool name arguments
  else if mem name (map fst MCP_MODEL_ACCESS_SCHEMAS) then invoke_cached_model_access_tool name arguments
  else if mem name (map fst MCP_MODEL_TOOL_SCHEMAS) then invoke_model_tool config name arguments
  else invoke_internal_asgi (t_method tool) (of_chars request_target) params body.

Definition decode_body (response : InternalASGIResponse) : outcome exn json :=
  let content_type := rs_headers response !! "content-type" in
  if startswith "application/json" (default ε content_type) then
    match loads_body loads (rs_body response) with
    | Some body => Ok body
    | None => http_exception 502 "Bad Gateway" "Upstream response was not valid JSON"
    end
  else
    let bytes := match rs_body response with Raw bytes => bytes | Dumped v => dumps default_separators v end in
    Ok (JObj [("text", JStr (decode_replace bytes)); ("content_type", jopt content_type)]).

Definition page_body (tool : McpToolDefinition) (list_page body_page : option (Z * Z)) (body : json) : json :=
  match list_page with
  | Some (limit, offset) => paginate_mcp_list limit offset body
  | None =>
      match body_page with
      | Some (limit, offset) =>
          if bool_decide (t_name tool = "queryRelatedObjectsV1") then paginate_mcp_related limit offset body
          else if bool_decide (t_name tool = "queryHistoricalValuesV1") then paginate_mcp_history limit offset body
          else body
      | None => body
      end
  end.

(** What is known of a call before anything is sent. *)
Record Prepared := { pr_target : text; pr_params : dict string json; pr_body : option json; pr_list_page : option (Z * Z); pr_body_page : option (Z * Z) }.

Definition prepare (config : McpConfig) (tool : McpToolDefinition) (arguments : items) : outcome exn Prepared :=
  _ ← check_names tool arguments;
  _ ← (if mem (t_name tool) (map fst MCP_MODEL_TOOL_SCHEMAS) then validate_model_tool_arguments first_error (t_name tool) arguments else Ok tt);
  page ← list_page tool arguments;
  prefix ← effective_prefix config tool;
  target ← resolve_request_target bracketed_netloc_ok repr prefix (chars (t_path tool)) (t_path_parameters tool) (dict_of_list arguments);
  body ← request_body tool arguments;
  Ok {| pr_target := target; pr_params := query_params tool arguments; pr_body := body.1; pr_list_page := page; pr_body_page := body.2 |}.

Definition invoke_mcp_tool (config : McpConfig) (tool : McpToolDefinition) (arguments : items) : method S Payload :=
  obind (Ret (prepare config tool arguments)) (fun p =>
  obind (dispatch config tool arguments (pr_target p) (pr_params p) (pr_body p)) (fun response =>
  Ret (body ← decode_body response;
       Ok {| pl_status_code := rs_status_code response; pl_body := page_body tool (pr_list_page p) (pr_body_page p) body |}))).
End Invoke.

End McpInvoke.
