(* ===== verification/McpCompact.v ===== *)
(** What MCP tools answer to a model ([_tool_result], [_compact_tool_body] in [api/mcp/monolithic.py]): lists of objects and
    types come without what a model does not need, and the answer says whether anything failed. *)

From S2P Require Export McpTools.

Module McpCompact.
Export McpTools.
Import NodeIds Profiles.

(** [{key: item[key] for key in keys if key in item}]. *)
Definition pick (keys : list string) (l : items) : items := omap (fun key => (key,.) <$> items_lookup key l) keys.

Definition compact_object (item : json) : json := match item with JObj l => JObj (pick ["elementId"; "displayName"] l) | _ => item end.

Definition compact_bulk_item (project_result : json -> json) (item : json) : json :=
  match item with
  | JObj l =>
      match items_lookup "result" l with
      | Some result => if json_truthy (get "success" l) then JObj (with_item "result" (project_result result) l) else item
      | None => item
      end
  | _ => item
  end.

Definition compact_bulk_results (project_result : json -> json) (body : items) : items :=
  match items_lookup "results" body with
  | Some (JArr results) => with_item "results" (JArr (map (compact_bulk_item project_result) results)) body
  | _ => body
  end.

Definition compact_related (result : json) : json :=
  match result with
  | JArr l =>
      JArr (map (fun related =>
        match related with
        | JObj r => match items_lookup "object" r with Some o => JObj (with_item "object" (compact_object o) r) | None => related end
        | _ => related
        end) l)
  | _ => result
  end.

Definition compact_type (item : json) : json :=
  match item with JObj l => JObj (pick ["elementId"; "displayName"; "namespaceUri"; "version"] l) | _ => item end.

Definition without_related (result : json) : json :=
  match result with JObj l => JObj (List.filter (fun p => negb (bool_decide (p.1 = "related"))) l) | _ => result end.

Definition is_null (v : json) : bool := match v with JNull => true | _ => false end.

(** [compact_current] and [compact_history]. *)
Definition compact_value (result : json) : json :=
  match result with
  | JObj l => JObj (List.filter (fun p => negb (bool_decide (p.1 = "isComposition")) && negb (bool_decide (p.1 = "components") && is_null p.2))%bool l)
  | _ => result
  end.

(** [compacted["result"] = [f(item) for item in body["result"]]], if that is a list. *)
Definition compact_list (f : json -> json) (body : items) : items :=
  match items_lookup "result" body with
  | Some (JArr l) => with_item "result" (JArr (map f l)) body
  | _ => body
  end.

Definition compact_tool_body (tool_name : string) (body : json) : json :=
  match body with
  | JObj l =>
      JObj (if bool_decide (tool_name = "getObjectsV1") then compact_list compact_object l
            else if bool_decide (tool_name = "listObjectsByIdV1") then compact_bulk_results compact_object l
            else if bool_decide (tool_name = "queryRelatedObjectsV1") then compact_bulk_results compact_related l
            else if bool_decide (tool_name = "getObjectTypesV1") then compact_list compact_type l
            else if bool_decide (tool_name = "queryObjectTypesV1") then compact_bulk_results without_related l
            else if bool_decide (tool_name = "getRelationshipTypesV1") then compact_list compact_object l
            else if bool_decide (tool_name = "queryRelationshipTypesV1") then compact_bulk_results compact_object l
            else if bool_decide (tool_name = "queryLastKnownValuesV1") then compact_bulk_results compact_value l
            else if bool_decide (tool_name = "queryHistoricalValuesV1") then compact_bulk_results compact_value l
            else l)
  | _ => body
  end.

(** [v is False]. *)
Definition is_false (v : json) : bool := match v with JBool false => true | _ => false end.

Definition item_failed (item : json) : bool := match item with JObj l => is_false (get "success" l) | _ => false end.

Definition body_failed (body : json) : bool :=
  match body with
  | JObj l => (is_false (get "success" l) || existsb item_failed (match items_lookup "results" l with Some (JArr results) => results | _ => [] end))%bool
  | _ => false
  end.

(** ** Texts *)

(** [json.dumps(v, ensure_ascii=False)]. *)
Definition unicode_char (c : ascii) : text := if 127 <=? code c then [c] else escape_char c.
Definition unicode_string (s : string) : text := Json.quote :: flat_map unicode_char (chars s) ++ [Json.quote].

Fixpoint unicode_chars (v : json) : text :=
  match v with
  | JStr s => unicode_string s
  | JArr (x :: l) => "["%char :: unicode_chars x ++ flat_map (fun y => chars ", " ++ unicode_chars y) l ++ ["]"%char]
  | JObj (p :: l) =>
      "{"%char :: unicode_string p.1 ++ chars ": " ++ unicode_chars p.2 ++
        flat_map (fun q => chars ", " ++ unicode_string q.1 ++ chars ": " ++ unicode_chars q.2) l ++ ["}"%char]
  | _ => dumps_chars default_separators v
  end.

Definition dumps_unicode (v : json) : string := of_chars (unicode_chars v).

Definition tool_result (body : json) (status_code : Z) (tool_name : option string) : items :=
  let body := match tool_name with Some name => compact_tool_body name body | None => body end in
  [("content", JArr [JObj [("type", JStr "text"); ("text", JStr (dumps_unicode body))]]);
   ("structuredContent", JObj [("statusCode", JInt status_code); ("body", body)]);
   ("isError", JBool ((400 <=? status_code) || body_failed body))].

(** ** Errors as answers ([errors.py]) *)

(** [http.HTTPStatus(status_code).phrase] for the codes that the MCP server uses. *)
Definition phrase (code : string) (status_code : Z) : string :=
  default code (items_lookup status_code
    [(400, "Bad Request"); (404, "Not Found"); (409, "Conflict"); (413, "Content Too Large"); (422, "Unprocessable Content");
     (500, "Internal Server Error"); (502, "Bad Gateway"); (503, "Service Unavailable")]).

Definition error_detail (e : http_error) : json :=
  let '(HttpError status code message) := e in
  JObj [("success", JBool false); ("error", JObj [("code", JInt status); ("message", JStr message)]);
        ("responseDetail", JObj [("title", JStr (phrase code status)); ("status", JInt status); ("detail", JStr message)])].
End McpCompact.
