(* ===== verification/McpCatalogs.v ===== *)
(** What the MCP server lists and lets clients read ([api/mcp/monolithic.py]): tools, resources, the roots of the model and
    their summaries. *)

From S2P Require Export McpInvoke McpCompact Prompts.

Module McpCatalogs.
Export McpInvoke McpCompact McpGuides Prompts.
Import NodeIds Profiles ModelTools.

Definition MCP_MAPPING_GUIDE_URI : string := "i3x://opcua-to-i3x-mapping".
Definition MCP_IDENTITY_GUIDE_URI : string := "i3x://element-id-and-type-id".
Definition MCP_MODEL_OVERVIEW_URI : string := "i3x://model/overview".
Definition MCP_ROOT_RESOURCE_PREFIX : string := "i3x://roots/".
Definition PROMPT_PREFIX : string := "i3x://prompts/".

(** [app.state] and the files that the server reads, as start-up leaves them. *)
Record ServerConfig := {
  mcp_config : McpConfig;
  mcp_tools : dict string McpToolDefinition;
  mcp_prompts : option PromptRegistry;
  mcp_allowed_origins : list string;
  openapi_document : json;
  overrides_file : option string;
  server_version : string;
}.

Definition tool_catalog (config : ServerConfig) : list json :=
  map (fun tool => JObj [("name", JStr (t_name tool)); ("description", JStr (t_description tool)); ("inputSchema", JObj (t_input_schema tool));
                         ("outputSchema", output_schema); ("annotations", annotations tool)]) (dict_values (mcp_tools config)).

Definition resource (uri name description mime_type : string) : json :=
  JObj [("uri", JStr uri); ("name", JStr name); ("description", JStr description); ("mimeType", JStr mime_type)].

Definition fixed_resources : list json :=
  [resource MCP_MODEL_OVERVIEW_URI "i3X model overview" "Current model summary, element counts, relationship counts, and navigation guidance." "application/json";
   resource MCP_MAPPING_GUIDE_URI "OPC UA to i3X mapping guide"
     "Short guide to how OPC UA nodes and references map into i3X objects, types, Hierarchy, Composition, and Graph relationships." "text/markdown";
   resource MCP_IDENTITY_GUIDE_URI "i3X ElementId and type IDs"
     "Explains elementId, typeElementId, and sourceTypeId, including how OPC UA NodeIds become stable i3X instance IDs." "text/markdown";
   resource "i3x://openapi" "OpenAPI specification" "Server OpenAPI JSON document" "application/json";
   resource "i3x://mcp-overrides" "MCP overrides" "Runtime MCP tool, prompt, and feature overrides" "application/json"].

(** The roots of the model, by their names where the model has them. *)
Definition roots_catalog (s : ModelState) : list (string * string) :=
  match model_cache s with
  | None => []
  | Some (model, _) => map (fun root_id => (root_id, match nodes_by_id model !! root_id with Some node => n_name node | None => root_id end)) (root_ids model)
  end.

Definition root_uri (root_id : string) : string := MCP_ROOT_RESOURCE_PREFIX +:+ root_id.

Definition text_item (key : string) (l : items) : string := match items_lookup key l with Some (JStr s) => s | _ => ε end.

Definition resource_catalog (config : ServerConfig) (s : ModelState) : list json :=
  let known root_id := match model_cache s with Some (model, _) => dict_mem root_id (nodes_by_id model) | None => false end in
  fixed_resources ++
  map (fun root => resource (root_uri root.1) root.2 "Top-level i3X model element. Read this resource for a summary and navigation hints." "application/json")
    (List.filter (fun root => known root.1) (roots_catalog s)) ++
  map (fun prompt => resource (PROMPT_PREFIX +:+ text_item "name" prompt) ("Prompt: " +:+ text_item "name" prompt) (text_item "description" prompt) "application/json")
    (list_prompt_metadata (mcp_prompts config)).

(** ** Contents *)

Definition content (uri mime_type text : string) : items := [("uri", JStr uri); ("mimeType", JStr mime_type); ("text", JStr text)].

Definition type_element_id (node : ModelNode) : string :=
  default (kind_str (n_kind node)) (or_opt (or_opt (n_type node) (n_source_type_id node)) (Some (kind_str (n_kind node)))).

Definition namespace_json (model : BuildResult) (id : string) : json := jopt (mjoin (namespace_uri_by_id model !! id)).

Definition kind_counts (model : BuildResult) : dict string nat :=
  fold_left (fun counts node => <[kind_str (n_kind node) := S (default 0%nat (counts !! kind_str (n_kind node)))]> counts) (dict_values (nodes_by_id model)) ∅.

(** [sum(len(edges) for edges in edges_by_id.values())]. *)
Definition edge_count {A} (edges_by_id : dict string (list A)) : nat := sum_list_with length (dict_values edges_by_id).

Definition root_summary (model : BuildResult) (root_id : string) : option json :=
  node ← nodes_by_id model !! root_id;
  Some (JObj [("uri", JStr (root_uri root_id)); ("elementId", JStr root_id); ("displayName", JStr (n_name node)); ("kind", JStr (kind_str (n_kind node)));
              ("typeElementId", JStr (type_element_id node)); ("namespaceUri", namespace_json model root_id)]).

Section Contents.
(** [model.revision] and [model.build_completed_at_utc]. *)
Context (stored_revision : BuildResult -> string) (build_completed_at_utc : BuildResult -> json).

Definition model_overview (s : ModelState) : json :=
  match model_cache s with
  | None =>
      JObj [("modelAvailable", JBool false); ("message", JStr "The i3X model has not been built or loaded yet.");
            ("navigation", JStr "Use getObjectsV1(root=true) to discover model roots, then queryRelatedObjectsV1 or getChildren to navigate the model.")]
  | Some (model, _) =>
      let roots := omap (root_summary model) (root_ids model) in
      JObj [("modelAvailable", JBool true); ("revision", JStr (stored_revision model)); ("buildCompletedAtUtc", build_completed_at_utc model);
            ("summary", JObj [("totalElements", jnat (dict_len (nodes_by_id model))); ("rootCount", jnat (length roots));
                              ("elementsByKind", JObj (map (fun p => (p.1, jnat p.2)) (py_sorted item_leb (dict_items (kind_counts model)))));
                              ("relationshipEdges", JObj [("hierarchy", jnat (edge_count (hierarchy_children_by_id model)));
                                                          ("composition", jnat (edge_count (composition_children_by_id model)));
                                                          ("graph", jnat (edge_count (graph_related_by_id model)))])]);
            ("roots", JArr roots);
            ("navigation", JStr "Start from a listed root or read its i3x://roots/{elementId} resource for a summary. Use getChildren or queryRelatedObjectsV1 to navigate relevant branches. Use searchModelElements or findElementsByName when the target is unknown. Read values only after discovering the exact property elementId; value/history maxDepth traverses composition, not hierarchy.")]
  end.

Definition invalid_resource {A} (uri : string) : outcome exn A := http_exception 404 "Not Found" ("Unknown resource " +:+ uri).

Definition root_resource_content (uri : string) (s : ModelState) : outcome exn items :=
  let root_id := str_drop (String.length MCP_ROOT_RESOURCE_PREFIX) uri in
  match model_cache s with
  | None => invalid_resource uri
  | Some (model, _) =>
      if (negb (truthy root_id) || negb (mem root_id (root_ids model)))%bool then invalid_resource uri
      else match nodes_by_id model !! root_id with
           | None => invalid_resource uri
           | Some node =>
               Ok (content uri "application/json" (dumps_unicode (JObj [
                 ("elementId", JStr root_id); ("displayName", JStr (n_name node)); ("kind", JStr (kind_str (n_kind node)));
                 ("semanticRole", JStr (role_str (default (n_semantic_role node) (semantic_role_by_id model !! root_id))));
                 ("typeElementId", JStr (type_element_id node)); ("namespaceUri", namespace_json model root_id);
                 ("relationshipCounts", JObj [("hierarchyChildren", jnat (length (default [] (hierarchy_children_by_id model !! root_id))));
                                              ("compositionChildren", jnat (length (default [] (composition_children_by_id model !! root_id))));
                                              ("graphRelations", jnat (length (default [] (graph_related_by_id model !! root_id))))]);
                 ("navigation", JStr "Use getChildren or queryRelatedObjectsV1 with this elementId to explore connected elements. For values, discover exact property elementIds first; hierarchy traversal does not imply value/history traversal.")])))
           end
  end.

Definition read_resource_content (config : ServerConfig) (uri : string) (s : ModelState) : outcome exn items :=
  if bool_decide (uri = MCP_MODEL_OVERVIEW_URI) then Ok (content uri "application/json" (dumps_unicode (model_overview s)))
  else if startswith MCP_ROOT_RESOURCE_PREFIX uri then root_resource_content uri s
  else if bool_decide (uri = MCP_MAPPING_GUIDE_URI) then Ok (content uri "text/markdown" MCP_MAPPING_GUIDE)
  else if bool_decide (uri = MCP_IDENTITY_GUIDE_URI) then Ok (content uri "text/markdown" MCP_IDENTITY_GUIDE)
  else if bool_decide (uri = "i3x://openapi") then Ok (content uri "application/json" (dumps_unicode (openapi_document config)))
  else if bool_decide (uri = "i3x://mcp-overrides") then
    match overrides_file config with
    | Some text => Ok (content uri "application/json" text)
    | None => invalid_resource uri
    end
  else if startswith PROMPT_PREFIX uri then
    prompt ← get_prompt (mcp_prompts config) (str_drop (String.length PROMPT_PREFIX) uri);
    Ok (content uri "application/json" (dumps_unicode (JObj prompt)))
  else invalid_resource uri.
End Contents.
End McpCatalogs.
