(* ===== verification/McpStreams.v ===== *)
(** The sessions and event streams of the MCP transport ([api/mcp/monolithic.py]).

    A session holds the queues of the streams that clients opened for it; a queue lives as long as its stream. Sessions and
    queues are shared objects: streams keep their session after it has been removed. The steps are those between two
    awaits: requests, notifications of the server, and the rounds of the loop in [event_stream]. *)

From S2P Require Export Json McpPages.

Module McpStreams.
Export Json McpPages.

Definition MCP_LEGACY_PROTOCOL_VERSION : string := "2025-11-25".

Record McpTransportSession := { protocol_version : string; streams : list nat }.

(** The loop of a stream: its session, and what it has yielded, the latest last. *)
Record EventStream := { es_session : nat; es_sent : list string; es_open : bool }.

(** [app.state.mcp_transport_sessions] and the objects it leads to. *)
Record Transport := {
  mcp_transport_sessions : dict string nat;
  session_objects : list McpTransportSession;
  queues : list (list (option json));
  event_streams : list EventStream;
}.

Definition no_transport : Transport := {| mcp_transport_sessions := ∅; session_objects := []; queues := []; event_streams := [] |}.

Definition set_sessions (d : dict string nat) (t : Transport) : Transport :=
  {| mcp_transport_sessions := d; session_objects := session_objects t; queues := queues t; event_streams := event_streams t |}.
Definition set_objects (l : list McpTransportSession) (t : Transport) : Transport :=
  {| mcp_transport_sessions := mcp_transport_sessions t; session_objects := l; queues := queues t; event_streams := event_streams t |}.
Definition set_queues (l : list (list (option json))) (t : Transport) : Transport :=
  {| mcp_transport_sessions := mcp_transport_sessions t; session_objects := session_objects t; queues := l; event_streams := event_streams t |}.
Definition set_event_streams (l : list EventStream) (t : Transport) : Transport :=
  {| mcp_transport_sessions := mcp_transport_sessions t; session_objects := session_objects t; queues := queues t; event_streams := l |}.

(** [stream.put_nowait(message)] for all these streams. *)
Definition put_all (message : option json) (ids : list nat) (t : Transport) : Transport :=
  set_queues (fold_left (fun q id => alter (fun l => l ++ [message]) id q) ids (queues t)) t.

Definition streams_of (session : nat) (t : Transport) : list nat := default [] (streams <$> session_objects t !! session).

Definition new_session (session_id version : string) (t : Transport) : Transport :=
  set_sessions (<[session_id := length (session_objects t)]> (mcp_transport_sessions t))
    (set_objects (session_objects t ++ [{| protocol_version := version; streams := [] |}]) t).

(** ** Notifications *)

Definition notification_prefix : string := "notifications/".

Definition notification (method : string) (params : option items) : json :=
  JObj ([("jsonrpc", JStr "2.0"); ("method", JStr method)] ++ match params with Some l => [("params", JObj l)] | None => [] end).

Definition publish_mcp_notification (session_id method : string) (params : option items) (t : Transport) : Transport * outcome exn Z :=
  if (negb (startswith notification_prefix method) || bool_decide (method = notification_prefix))%bool then (t, Err (OtherException "ValueError"))
  else match mcp_transport_sessions t !! session_id with
       | None => (t, Ok 0)
       | Some session => (put_all (Some (notification method params)) (streams_of session t) t, Ok (len (streams_of session t)))
       end.

(** Every stream is told to end, and the sessions are forgotten. *)
Definition shutdown_mcp_transport (t : Transport) : Transport :=
  set_sessions ∅ (fold_left (fun t session => put_all None (streams_of session t) t) (dict_values (mcp_transport_sessions t)) t).

(** ** Streams *)

(** [stream = asyncio.Queue(); session.streams.add(stream)]. *)
Definition open_stream (session : nat) (t : Transport) : Transport :=
  let id := length (queues t) in
  set_event_streams (event_streams t ++ [{| es_session := session; es_sent := []; es_open := true |}])
    (set_objects (alter (fun s => {| protocol_version := protocol_version s; streams := streams s ++ [id] |}) session (session_objects t))
      (set_queues (queues t ++ [[]]) t)).

(** [session.streams.discard(stream)], and the loop is over. *)
Definition end_stream (id : nat) (t : Transport) : Transport :=
  match event_streams t !! id with
  | Some es =>
      set_event_streams (<[id := {| es_session := es_session es; es_sent := es_sent es; es_open := false |}]> (event_streams t))
        (set_objects (alter (fun s => {| protocol_version := protocol_version s; streams := List.filter (fun i => negb (Nat.eqb i id)) (streams s) |}) (es_session es)
          (session_objects t)) t)
  | None => t
  end.

Section Texts.
(** [json.dumps(v, ensure_ascii=False)]. *)
Context (dumps_text : json -> string).

Definition line_break : string := of_chars [chr 10].
Definition event_text (message : json) : string := "event: message" +:+ line_break +:+ "data: " +:+ dumps_text message +:+ line_break +:+ line_break.
Definition keepalive_text : string := ": keepalive" +:+ line_break +:+ line_break.

(** How a round of the loop can come out of its await: there is something in the queue, or the time is over, and then the
    client may be gone. At any time the server may close the loop. *)
Inductive stream_input := Ready | TimedOut (disconnected : bool) | Closed.

Definition send (id : nat) (text : string) (t : Transport) : Transport :=
  match event_streams t !! id with
  | Some es => set_event_streams (<[id := {| es_session := es_session es; es_sent := es_sent es ++ [text]; es_open := es_open es |}]> (event_streams t)) t
  | None => t
  end.

(** One round of the loop of an open stream; [None] where it cannot happen. *)
Definition event_stream_round (id : nat) (input : stream_input) (t : Transport) : option Transport :=
  match event_streams t !! id, queues t !! id with
  | Some es, Some queue =>
      if negb (es_open es) then None
      else match input with
           | Ready =>
               match queue with
               | [] => None
               | message :: rest =>
                   let t := set_queues (<[id := rest]> (queues t)) t in
                   Some (match message with Some m => send id (event_text m) t | None => end_stream id t end)
               end
           | TimedOut disconnected => Some (if disconnected then end_stream id t else send id keepalive_text t)
           | Closed => Some (end_stream id t)
           end
  | _, _ => None
  end.

(** ** Removing a session *)

(** [sessions.pop(session_id, None)], and its streams are told to end; whether there was one. *)
Definition delete_session (session_id : string) (t : Transport) : Transport * bool :=
  match mcp_transport_sessions t !! session_id with
  | None => (t, false)
  | Some session => (put_all None (streams_of session t) (set_sessions (delete session_id (mcp_transport_sessions t)) t), true)
  end.

(** ** Runs *)

(** The steps of the transport, in the order in which they happen. *)
Inductive transport_event :=
  | Initialize (session_id version : string)
  | Publish (session_id method : string) (params : option items)
  | Shutdown
  | OpenStream (session_id : string)
  | Round (id : nat) (input : stream_input)
  | DeleteSession (session_id : string).

(** [None] where the step cannot happen: a new session has a fresh identifier, and a stream needs a session. *)
Definition transport_step (e : transport_event) (t : Transport) : option Transport :=
  match e with
  | Initialize session_id version => if dict_mem session_id (mcp_transport_sessions t) then None else Some (new_session session_id version t)
  | Publish session_id method params => Some (publish_mcp_notification session_id method params t).1
  | Shutdown => Some (shutdown_mcp_transport t)
  | OpenStream session_id => session ← mcp_transport_sessions t !! session_id; Some (open_stream session t)
  | Round id input => event_stream_round id input t
  | DeleteSession session_id => Some (delete_session session_id t).1
  end.

Fixpoint transport_run (events : list transport_event) (t : Transport) : option Transport :=
  match events with
  | [] => Some t
  | e :: events' => t ← transport_step e t; transport_run events' t
  end.

End Texts.
End McpStreams.
