(* ===== verification/McpStreamsSpec.v ===== *)
(** What the streams of the MCP transport deliver: every stream gets the notifications that its session gets from then on,
    in their order and once, until it is told to end; and a session knows just its open streams. *)

From S2P Require Export McpStreams.

Module McpStreamsSpec.
Import McpStreams.

(** For examples: the texts that compare values. *)
Definition dumps_plain (v : json) : string := dumps default_separators v.

(** ** The specification *)

(** A stream as its session sees it: what was published since it opened, and whether it was told to end. *)
Record StreamLog := { sl_session : nat; sl_log : list json; sl_ended : bool }.

(** The sessions that there are, by their numbers, the number of the next one, and the streams. *)
Record Board := { bd_sessions : dict string nat; bd_next : nat; bd_streams : list StreamLog }.

Definition log_message (session : nat) (message : json) (s : StreamLog) : StreamLog :=
  if Nat.eqb (sl_session s) session then {| sl_session := sl_session s; sl_log := sl_log s ++ [message]; sl_ended := sl_ended s |} else s.
Definition log_end (sessions : list nat) (s : StreamLog) : StreamLog :=
  if existsb (Nat.eqb (sl_session s)) sessions then {| sl_session := sl_session s; sl_log := sl_log s; sl_ended := true |} else s.

Definition valid_method (method : string) : bool := (startswith notification_prefix method && negb (bool_decide (method = notification_prefix)))%bool.

Definition board_step (e : transport_event) (b : Board) : Board :=
  match e with
  | Initialize session_id _ => {| bd_sessions := <[session_id := bd_next b]> (bd_sessions b); bd_next := S (bd_next b); bd_streams := bd_streams b |}
  | Publish session_id method params =>
      match bd_sessions b !! session_id with
      | Some session =>
          if valid_method method
          then {| bd_sessions := bd_sessions b; bd_next := bd_next b; bd_streams := map (log_message session (notification method params)) (bd_streams b) |}
          else b
      | None => b
      end
  | Shutdown => {| bd_sessions := ∅; bd_next := bd_next b; bd_streams := map (log_end (dict_values (bd_sessions b))) (bd_streams b) |}
  | OpenStream session_id =>
      match bd_sessions b !! session_id with
      | Some session =>
          {| bd_sessions := bd_sessions b; bd_next := bd_next b; bd_streams := bd_streams b ++ [{| sl_session := session; sl_log := []; sl_ended := false |}] |}
      | None => b
      end
  | Round _ _ => b
  | DeleteSession session_id =>
      match bd_sessions b !! session_id with
      | Some session => {| bd_sessions := delete session_id (bd_sessions b); bd_next := bd_next b; bd_streams := map (log_end [session]) (bd_streams b) |}
      | None => b
      end
  end.

Definition board (events : list transport_event) : Board := fold_left (fun b e => board_step e b) events {| bd_sessions := ∅; bd_next := 0; bd_streams := [] |}.

Section Delivery.
Context (dumps_text : json -> string).

(** What a stream has sent apart from the signs of life. *)
Definition events_sent (es : EventStream) : list string := List.filter (fun text => negb (bool_decide (text = keepalive_text))) (es_sent es).

Definition end_mark (ended : bool) : list (option json) := if ended then [None] else [].

(** An open stream has sent the beginning of its log, and the rest is in its queue; a stream that is over has sent a
    beginning, and everything if it was not cut short. *)
Definition delivers (s : StreamLog) (es : EventStream) (queue : list (option json)) : Prop :=
  sl_session s = es_session es /\
  exists sent pending, sl_log s = sent ++ pending /\ events_sent es = map (event_text dumps_text) sent /\
    (es_open es = true -> queue = map Some pending ++ end_mark (sl_ended s)).

(** ** The correspondence *)

Record inv (b : Board) (t : Transport) : Prop := {
  inv_dict : mcp_transport_sessions t = bd_sessions b;
  inv_next : bd_next b = length (session_objects t);
  inv_wf : dict_wf (bd_sessions b);
  inv_fresh : forall k n, bd_sessions b !! k = Some n -> (n < bd_next b)%nat;
  inv_inj : forall k k' n, bd_sessions b !! k = Some n -> bd_sessions b !! k' = Some n -> k = k';
  inv_logs : length (bd_streams b) = length (event_streams t);
  inv_queues : length (queues t) = length (event_streams t);
  inv_delivers : forall id s es q, bd_streams b !! id = Some s -> event_streams t !! id = Some es -> queues t !! id = Some q -> delivers s es q;
  inv_live : forall id s, bd_streams b !! id = Some s -> sl_ended s = false <-> exists k, bd_sessions b !! k = Some (sl_session s);
  inv_session : forall id es, event_streams t !! id = Some es -> (es_session es < bd_next b)%nat;
  inv_member : forall n obj, session_objects t !! n = Some obj -> NoDup (streams obj) /\
    forall id, id ∈ streams obj <-> exists es, event_streams t !! id = Some es /\ es_open es = true /\ es_session es = n;
}.

Lemma put_all_lookup message ids t id : NoDup ids ->
  queues (put_all message ids t) !! id = (fun q => if bool_decide (id ∈ ids) then q ++ [message] else q) <$> queues t !! id.
Proof.
  unfold put_all. cbn [queues set_queues]. generalize (queues t). intros q Hnd. revert q. induction Hnd as [|i ids Hi Hnd IH]; intros q; cbn [fold_left].
  - destruct (q !! id); [|done]. cbn. by rewrite bool_decide_false by (by intros ?%elem_of_nil).
  - rewrite IH. destruct (decide (id = i)) as [->|Hne].
    + rewrite list_lookup_alter_eq. destruct (q !! i); [|done]. cbn. rewrite (bool_decide_false (i ∈ ids)) by done. by rewrite bool_decide_true by (by left).
    + rewrite list_lookup_alter_ne by done. destruct (q !! id); [|done]. cbn. f_equal.
      rewrite (bool_decide_ext (id ∈ i :: ids) (id ∈ ids)); [done|]. set_solver.
Qed.

Lemma put_all_length message ids t : length (queues (put_all message ids t)) = length (queues t).
Proof. unfold put_all. cbn. generalize (queues t). induction ids as [|i ids IH]; intros q; cbn; [done|]. by rewrite IH, length_alter. Qed.

(** The streams of some sessions that are open. *)
Definition open_in (t : Transport) (sessions : list nat) (id : nat) : Prop :=
  exists es, event_streams t !! id = Some es /\ es_open es = true /\ es_session es ∈ sessions.

Lemma streams_of_open b t n id : inv b t -> (n < bd_next b)%nat -> NoDup (streams_of n t) /\ (id ∈ streams_of n t <-> open_in t [n] id).
Proof.
  intros H Hn. rewrite (inv_next _ _ H) in Hn. apply lookup_lt_is_Some in Hn as [obj Ho]. unfold streams_of, open_in. rewrite Ho. cbn.
  destruct (inv_member _ _ H _ _ Ho) as [Hnd Hin]. split; [done|]. rewrite Hin. setoid_rewrite list_elem_of_singleton. done.
Qed.

(** What a stream of these sessions gets with [message]. *)
Definition log_put (message : option json) (sessions : list nat) (s : StreamLog) : StreamLog :=
  if existsb (Nat.eqb (sl_session s)) sessions
  then match message with
       | Some m => {| sl_session := sl_session s; sl_log := sl_log s ++ [m]; sl_ended := sl_ended s |}
       | None => {| sl_session := sl_session s; sl_log := sl_log s; sl_ended := true |}
       end
  else s.

Lemma existsb_elem n l : existsb (Nat.eqb n) l = bool_decide (n ∈ l).
Proof. apply eq_true_iff_eq. rewrite existsb_exists, bool_decide_eq_true. setoid_rewrite Nat.eqb_eq. setoid_rewrite <-list_elem_of_In. naive_solver. Qed.

Lemma log_put_session message sessions s : sl_session (log_put message sessions s) = sl_session s.
Proof. unfold log_put. destruct (existsb _ _); [|done]. by destruct message. Qed.

Lemma delivers_put message sessions ids b t id s es q :
  inv b t -> NoDup ids -> (forall id, id ∈ ids <-> open_in t sessions id) -> (forall s, sl_session s ∈ sessions -> s ∈ bd_streams b -> sl_ended s = false) ->
  bd_streams b !! id = Some s -> event_streams t !! id = Some es -> queues (put_all message ids t) !! id = Some q -> delivers (log_put message sessions s) es q.
Proof.
  intros H Hnd Hids Hlive Hs He Hq. rewrite put_all_lookup in Hq by done. destruct (queues t !! id) as [q0|] eqn:Eq; [|done]. cbn in Hq. injection Hq as <-.
  destruct (inv_delivers _ _ H _ _ _ _ Hs He Eq) as (E & sent & pending & El & Es & Eo). unfold delivers. rewrite log_put_session. split; [done|].
  unfold log_put. rewrite existsb_elem. case_bool_decide as Hin.
  - assert (Hne : sl_ended s = false) by (apply Hlive; [done|by eapply list_elem_of_lookup_2]).
    destruct message as [m|]; cbn [sl_log sl_ended].
    + exists sent, (pending ++ [m]). rewrite El, app_assoc. split_and!; [done..|]. intros Ho. rewrite Eo, Hne, !app_nil_r by done.
      rewrite bool_decide_true; [by rewrite map_app|]. apply Hids. exists es. by rewrite <-E.
    + exists sent, pending. split_and!; [done..|]. intros Ho. rewrite Eo, Hne, app_nil_r by done. rewrite bool_decide_true; [done|]. apply Hids. exists es. by rewrite <-E.
  - exists sent, pending. split_and!; [done..|]. intros Ho. rewrite Eo by done. rewrite bool_decide_false; [done|]. rewrite Hids. intros (es' & He' & _ & Hs'). congruence.
Qed.

(** A message for the streams of live sessions, some of which end with it. *)
Lemma inv_put message ended sessions ids b t d :
  inv b t -> NoDup ids -> (forall id, id ∈ ids <-> open_in t sessions id) ->
  (forall n, n ∈ sessions -> exists k, bd_sessions b !! k = Some n) ->
  dict_wf d -> (forall k n, d !! k = Some n <-> bd_sessions b !! k = Some n /\ (ended = true -> n ∉ sessions)) -> message = None <-> ended = true ->
  inv {| bd_sessions := d; bd_next := bd_next b; bd_streams := map (log_put message sessions) (bd_streams b) |} (set_sessions d (put_all message ids t)).
Proof.
  intros H Hnd Hids Hsess Hwf Hd Hm. assert (Hlive : forall s, sl_session s ∈ sessions -> s ∈ bd_streams b -> sl_ended s = false).
  { intros s Hs Hin. apply list_elem_of_lookup_1 in Hin as [i Hi]. by apply (inv_live _ _ H _ _ Hi), Hsess. }
  split; cbn; [done|apply H|done|..].
  - intros k n [Hk _]%Hd. by eapply inv_fresh.
  - intros k k' n [Hk _]%Hd [Hk' _]%Hd. by eapply inv_inj.
  - rewrite length_map. apply H.
  - etrans; [exact (put_all_length message ids t)|apply H].
  - intros id s es q Hs He Hq. rewrite list_lookup_fmap in Hs. destruct (bd_streams b !! id) as [s0|] eqn:E; [|done]. injection Hs as <-. by eapply delivers_put.
  - intros id s Hs. rewrite list_lookup_fmap in Hs. destruct (bd_streams b !! id) as [s0|] eqn:E; [|done]. injection Hs as <-. rewrite log_put_session.
    pose proof (inv_live _ _ H _ _ E) as Hl. setoid_rewrite Hd. unfold log_put. rewrite existsb_elem. case_bool_decide as Hin.
    + destruct message as [m|]; cbn.
      * rewrite Hl. assert (ended ≠ true) by naive_solver. naive_solver.
      * assert (ended = true) by naive_solver. naive_solver.
    + rewrite Hl. naive_solver.
  - apply H.
  - apply H.
Qed.

(** ** The steps keep it *)

Lemma publish_step b t session_id method params :
  inv b t -> inv (board_step (Publish session_id method params) b) (publish_mcp_notification session_id method params t).1.
Proof.
  intros H. unfold publish_mcp_notification. cbn [board_step]. rewrite (inv_dict _ _ H). unfold valid_method.
  destruct (startswith notification_prefix method) eqn:E1; cbn [negb orb andb]; [|by destruct (bd_sessions b !! session_id)].
  case_bool_decide; cbn [negb]; [by destruct (bd_sessions b !! session_id)|]. destruct (bd_sessions b !! session_id) as [n|] eqn:E; [|done]. cbn [fst].
  pose proof (inv_fresh _ _ H _ _ E) as Hn. set (m := notification method params).
  assert (Hi : inv {| bd_sessions := bd_sessions b; bd_next := bd_next b; bd_streams := map (log_put (Some m) [n]) (bd_streams b) |}
    (set_sessions (bd_sessions b) (put_all (Some m) (streams_of n t) t))).
  { apply (inv_put _ false); [done|by eapply (streams_of_open b t n 0)|intros id; by eapply streams_of_open| |by eapply inv_wf|naive_solver|done].
    intros n' ->%list_elem_of_singleton. by exists session_id. }
  replace (map (log_message n m) (bd_streams b)) with (map (log_put (Some m) [n]) (bd_streams b)).
  - by rewrite <-(inv_dict _ _ H) in Hi at 2.
  - apply map_ext. intros s. unfold log_put, log_message. cbn. by rewrite orb_false_r.
Qed.

Lemma delete_step b t session_id : inv b t -> inv (board_step (DeleteSession session_id) b) (delete_session session_id t).1.
Proof.
  intros H. unfold delete_session. cbn [board_step]. rewrite (inv_dict _ _ H). destruct (bd_sessions b !! session_id) as [n|] eqn:E; [|done].
  pose proof (inv_fresh _ _ H _ _ E) as Hn. cbn [fst].
  change (put_all None _ _) with (set_sessions (delete session_id (bd_sessions b)) (put_all None (streams_of n t) t)).
  apply (inv_put None true); [done|by eapply (streams_of_open b t n 0)|intros id; by eapply streams_of_open| |by apply dict_wf_delete, H| |done].
  - intros n' ->%list_elem_of_singleton. by exists session_id.
  - intros k m. rewrite dict_lookup_delete. case_bool_decide as Ek.
    + subst k. split; [done|]. intros [Hk Hm]. rewrite E in Hk. injection Hk as <-. exfalso. by apply Hm; [|left].
    + split; [|naive_solver]. intros Hk. split; [done|]. intros _ ->%list_elem_of_singleton. apply Ek. by eapply inv_inj.
Qed.

Lemma put_all_app message ids ids' t : put_all message (ids ++ ids') t = put_all message ids' (put_all message ids t).
Proof. unfold put_all, set_queues. cbn. by rewrite fold_left_app. Qed.

Lemma shutdown_puts sessions t :
  fold_left (fun t session => put_all None (streams_of session t) t) sessions t = put_all None (sessions ≫= (fun n => streams_of n t)) t.
Proof.
  revert t. induction sessions as [|n sessions IH]; intros t; cbn [fold_left]; [by destruct t|]. rewrite IH.
  by rewrite bind_cons, put_all_app.
Qed.

Lemma shutdown_step b t : inv b t -> inv (board_step Shutdown b) (shutdown_mcp_transport t).
Proof.
  intros H. unfold shutdown_mcp_transport. rewrite shutdown_puts, (inv_dict _ _ H). cbn [board_step].
  assert (Hv : forall n, n ∈ dict_values (bd_sessions b) <-> exists k, bd_sessions b !! k = Some n).
  { intros n. by apply elem_of_dict_values, H. }
  assert (Hopen : forall n, n ∈ dict_values (bd_sessions b) -> NoDup (streams_of n t) /\ forall id, id ∈ streams_of n t <-> open_in t [n] id).
  { intros n [k Hk]%Hv. pose proof (inv_fresh _ _ H _ _ Hk) as Hn. split; [by eapply (streams_of_open b t n 0)|]. intros id. by eapply streams_of_open. }
  replace (map (log_end _) (bd_streams b)) with (map (log_put None (dict_values (bd_sessions b))) (bd_streams b)); [|done].
  apply (inv_put None true); [done| | |by intros n Hn; apply Hv|apply dict_wf_empty| |done].
  - apply NoDup_bind; [|by intros n Hn; apply Hopen|].
    + intros n n' id Hn Hn' Hi Hi'. apply (Hopen _ Hn) in Hi as (es & He & _ & Hs0%list_elem_of_singleton). apply (Hopen _ Hn') in Hi' as (es' & He' & _ & Hs).
      apply list_elem_of_singleton in Hs. congruence.
    + pose proof (inv_wf _ _ H) as Hwf. unfold dict_wf, dict_keys in Hwf. unfold dict_values. assert (Hinj := inv_inj _ _ H). apply NoDup_fmap_2_strong.
      * intros [k n] [k' n'] Hp Hp' E. cbn in E. subst n'. f_equal. eapply Hinj; (apply dict_items_lookup; [apply H|done]).
      * by apply NoDup_fmap_1 in Hwf.
  - intros id. rewrite list_elem_of_bind. unfold open_in. split.
    + intros (n & Hi & Hn). apply (Hopen _ Hn) in Hi as (es & He & Ho & <-%list_elem_of_singleton). by exists es.
    + intros (es & He & Ho & Hs). exists (es_session es). split; [|done]. apply (Hopen _ Hs). exists es. split_and!; [done..|]. by left.
  - intros k n. rewrite lookup_empty_dict. split; [done|]. intros [Hk Hn]. exfalso. apply Hn; [done|]. apply Hv. by exists k.
Qed.

Lemma initialize_step b t session_id version t' :
  inv b t -> transport_step dumps_text (Initialize session_id version) t = Some t' -> inv (board_step (Initialize session_id version) b) t'.
Proof.
  intros H. cbn [transport_step board_step]. destruct (dict_mem _ _) eqn:E; [done|]. intros [= <-]. apply dict_mem_false in E. rewrite (inv_dict _ _ H) in E.
  pose proof (inv_next _ _ H) as Hlen. split; cbn.
  - rewrite (inv_dict _ _ H), <-Hlen. done.
  - rewrite length_app. cbn. lia.
  - apply dict_wf_insert, H.
  - intros k n. rewrite dict_lookup_insert. case_bool_decide; [intros [= <-]; lia|]. intros Hk%(inv_fresh _ _ H). lia.
  - intros k k' n. rewrite !dict_lookup_insert. do 2 case_bool_decide; intros Ha Hb; simplify_eq; try done.
    + by apply (inv_fresh _ _ H), Nat.lt_irrefl in Hb.
    + by apply (inv_fresh _ _ H), Nat.lt_irrefl in Ha.
    + by eapply (inv_inj _ _ H).
  - apply H.
  - apply H.
  - intros *. apply (inv_delivers _ _ H).
  - intros id s Hs. rewrite (inv_live _ _ H _ _ Hs). split; intros [k Hk].
    + exists k. rewrite dict_lookup_insert_ne; [done|]. congruence.
    + rewrite dict_lookup_insert in Hk. case_bool_decide; [|by exists k]. injection Hk as Hk. exfalso.
      assert (Hi : is_Some (event_streams t !! id)) by (apply lookup_lt_is_Some; rewrite <-(inv_logs _ _ H); by eapply lookup_lt_Some).
      assert (Hq : is_Some (queues t !! id)) by (apply lookup_lt_is_Some; rewrite (inv_queues _ _ H), <-(inv_logs _ _ H); by eapply lookup_lt_Some).
      destruct Hi as [es He]. destruct Hq as [q Hq]. destruct (inv_delivers _ _ H _ _ _ _ Hs He Hq) as [Es _]. pose proof (inv_session _ _ H _ _ He). lia.
  - intros id es He. pose proof (inv_session _ _ H _ _ He). lia.
  - intros n obj Ho. apply lookup_app_Some in Ho as [Ho|[Hle Ho]]; [by apply (inv_member _ _ H)|]. apply list_lookup_singleton_Some in Ho as [Hn <-].
    split; [constructor|]. intros id. split; [by intros ?%elem_of_nil|]. intros (es & He & _ & Hs). pose proof (inv_session _ _ H _ _ He). lia.
Qed.

Lemma open_step b t session_id t' :
  inv b t -> transport_step dumps_text (OpenStream session_id) t = Some t' -> inv (board_step (OpenStream session_id) b) t'.
Proof.
  intros H. cbn [transport_step board_step]. rewrite (inv_dict _ _ H). destruct (bd_sessions b !! session_id) as [n|] eqn:E; [|done]. intros [= <-].
  pose proof (inv_next _ _ H) as Hnext. pose proof (inv_fresh _ _ H _ _ E) as Hn. pose proof (inv_queues _ _ H) as Hq. pose proof (inv_logs _ _ H) as Hl.
  split; cbn; [apply H|by rewrite length_alter|apply H..| | | | | |].
  - rewrite !length_app. cbn. lia.
  - rewrite !length_app. cbn. lia.
  - intros id s es q. rewrite !lookup_snoc_Some. intros [[? Hs]|[? <-]] [[? He]|[? <-]] [[? Hi]|[? <-]]; try lia; [by eapply inv_delivers|].
    split; [done|]. by exists [], [].
  - intros id s [[_ Hs]|[_ <-]]%lookup_snoc_Some; [by eapply inv_live|]. cbn. split; [by exists session_id|done].
  - intros id es [[_ He]|[_ <-]]%lookup_snoc_Some; [by eapply inv_session|done].
  - intros m obj Ho. destruct (decide (m = n)) as [->|Hne].
    + rewrite list_lookup_alter_eq in Ho. destruct (session_objects t !! n) as [obj0|] eqn:E0; [|done]. cbn in Ho. injection Ho as <-. cbn.
      destruct (inv_member _ _ H _ _ E0) as [Hnd Hin]. split.
      * apply NoDup_app. split_and!; [done| |apply NoDup_singleton]. intros id (es & He & _)%Hin ->%list_elem_of_singleton. apply lookup_lt_Some in He. lia.
      * intros id. rewrite elem_of_app, list_elem_of_singleton, Hin. setoid_rewrite lookup_snoc_Some. split.
        -- intros [(es & He & Ho & Hs)| ->].
           ++ exists es. split_and!; [|done..]. left. split; [by eapply lookup_lt_Some|done].
           ++ eexists. split; [right; split; [exact Hq|done]|done].
        -- intros (es & [[_ He]|[-> <-]] & Ho & Hs); [left; by exists es|]. by right.
    + rewrite list_lookup_alter_ne in Ho by done. destruct (inv_member _ _ H _ _ Ho) as [Hnd Hin]. split; [done|]. intros id. rewrite Hin.
      setoid_rewrite lookup_snoc_Some. split; [intros (es & He & Hr); exists es; split; [left; split; [by eapply lookup_lt_Some|done]|done]|].
      intros (es & [[_ He]|[-> <-]] & Ho' & Hs); [by exists es|]. cbn in Hs. congruence.
Qed.

(** A round of an open stream that sends something. *)
Lemma inv_sends b t id es q es' q' :
  inv b t -> event_streams t !! id = Some es -> queues t !! id = Some q -> es_session es' = es_session es -> es_open es' = es_open es ->
  (forall s, delivers s es q -> delivers s es' q') ->
  inv b (set_event_streams (<[id := es']> (event_streams t)) (set_queues (<[id := q']> (queues t)) t)).
Proof.
  intros H He Hq Hs Ho Hd. assert (Hlook : forall i x, <[id := es']> (event_streams t) !! i = Some x ->
    exists y, event_streams t !! i = Some y /\ es_session x = es_session y /\ es_open x = es_open y).
  { intros i x [(<- & <- & _)|[_ Hx]]%list_lookup_insert_Some; [by exists es|by exists x]. }
  assert (Hlook' : forall i y, event_streams t !! i = Some y ->
    exists x, <[id := es']> (event_streams t) !! i = Some x /\ es_session x = es_session y /\ es_open x = es_open y).
  { intros i y Hy. destruct (decide (id = i)) as [<-|Hne].
    - exists es'. rewrite list_lookup_insert_eq by (by eapply lookup_lt_Some). split; [done|]. by simplify_eq.
    - exists y. by rewrite list_lookup_insert_ne. }
  split; cbn; try apply H.
  - rewrite length_insert. apply H.
  - rewrite !length_insert. apply H.
  - intros i s x y Hi [(<- & <- & _)|[Hne Hx]]%list_lookup_insert_Some Hy.
    + rewrite list_lookup_insert_eq in Hy by (by eapply lookup_lt_Some). injection Hy as <-. apply Hd. by eapply inv_delivers.
    + rewrite list_lookup_insert_ne in Hy by done. by eapply inv_delivers.
  - intros i x (y & Hy & -> & _)%Hlook. by eapply inv_session.
  - intros n obj Hobj. destruct (inv_member _ _ H _ _ Hobj) as [Hnd Hin]. split; [done|]. intros i. rewrite Hin. split.
    + intros (y & Hy & Hoy & Hsy). destruct (Hlook' i y Hy) as (x & Hx & E1 & E2). exists x. by rewrite E1, E2.
    + intros (x & Hx & Hox & Hsx). destruct (Hlook i x Hx) as (y & Hy & E1 & E2). exists y. by rewrite <-E1, <-E2.
Qed.

Lemma inv_end b t id : inv b t -> inv b (end_stream id t).
Proof.
  intros H. unfold end_stream. destruct (event_streams t !! id) as [es|] eqn:E; [|done]. pose proof (lookup_lt_Some _ _ _ E) as Hlt. split; cbn; try apply H.
  - rewrite length_alter. apply H.
  - rewrite length_insert. apply H.
  - rewrite length_insert. apply H.
  - intros i s x q Hs [(<- & <- & _)|[Hne Hx]]%list_lookup_insert_Some Hq; [|by eapply inv_delivers].
    destruct (inv_delivers _ _ H _ _ _ _ Hs E Hq) as (Es & sent & pending & E1 & E2 & _). split; [done|]. by exists sent, pending.
  - intros i x [(<- & <- & _)|[Hne Hx]]%list_lookup_insert_Some; [exact (inv_session _ _ H _ _ E)|by eapply inv_session].
  - assert (Hopen : forall n i, i ≠ id \/ n ≠ es_session es ->
      (exists x, <[id := {| es_session := es_session es; es_sent := es_sent es; es_open := false |}]> (event_streams t) !! i = Some x /\ es_open x = true /\ es_session x = n) <->
      (exists x, event_streams t !! i = Some x /\ es_open x = true /\ es_session x = n)).
    { intros n i Hor. destruct (decide (i = id)) as [->|Hne]; [|by rewrite list_lookup_insert_ne]. rewrite list_lookup_insert_eq by done.
      destruct Hor as [?|Hn]; [done|].
      split; intros (x & Hx & Ho & Hs); exfalso; [injection Hx as <-; done|]. rewrite E in Hx. injection Hx as <-. by apply Hn. }
    intros n obj Ho. destruct (decide (n = es_session es)) as [->|Hne].
    + rewrite list_lookup_alter_eq in Ho. destruct (session_objects t !! es_session es) as [obj0|] eqn:E0; [|done]. cbn in Ho. injection Ho as <-. cbn.
      destruct (inv_member _ _ H _ _ E0) as [Hnd Hin]. split; [by apply NoDup_list_filter|]. intros i. rewrite list_elem_of_In, filter_In, <-list_elem_of_In, Hin.
      destruct (Nat.eqb_spec i id) as [->|Hi]; cbn.
      * split; [by intros [_ ?]|]. intros (x & Hx & Hox & _). rewrite list_lookup_insert_eq in Hx by done. by injection Hx as <-.
      * rewrite Hopen by (by left). naive_solver.
    + rewrite list_lookup_alter_ne in Ho by done. destruct (inv_member _ _ H _ _ Ho) as [Hnd Hin]. split; [done|]. intros i. rewrite Hin, Hopen by (by right). done.
Qed.

Lemma events_sent_keepalive es s : es_sent s = es_sent es ++ [keepalive_text] -> events_sent s = events_sent es.
Proof. unfold events_sent. intros ->. rewrite List.filter_app. cbn -[bool_decide]. rewrite bool_decide_true by done. by rewrite app_nil_r. Qed.

Lemma events_sent_event es s m : es_sent s = es_sent es ++ [event_text dumps_text m] -> events_sent s = events_sent es ++ [event_text dumps_text m].
Proof. unfold events_sent. intros ->. rewrite List.filter_app. cbn -[bool_decide]. by rewrite bool_decide_false by done. Qed.

Lemma round_step b t id input t' : inv b t -> event_stream_round dumps_text id input t = Some t' -> inv b t'.
Proof.
  intros H. unfold event_stream_round. destruct (event_streams t !! id) as [es|] eqn:E; [|done]. destruct (queues t !! id) as [q|] eqn:Eq; [|done].
  destruct (es_open es) eqn:Eo; [|done]. cbn [negb]. destruct input as [|[]|]; [|intros [= <-]; by apply inv_end| |intros [= <-]; by apply inv_end].
  - destruct q as [|message rest]; [done|]. destruct message as [m|]; intros [= <-].
    + unfold send. cbn [event_streams set_queues]. rewrite E. apply inv_sends with es (Some m :: rest); try done.
      intros s (Es & sent & pending & E1 & E2 & E3). split; [done|]. specialize (E3 Eo). destruct pending as [|m' pending]; [by destruct (sl_ended s)|].
      cbn in E3. injection E3 as <- E3. exists (sent ++ [m]), pending. split_and!; [by rewrite <-app_assoc| |done].
      rewrite map_app, <-E2. by apply events_sent_event.
    + replace (end_stream id _) with (set_queues (<[id := rest]> (queues t)) (end_stream id t)) by (unfold end_stream; cbn; by rewrite E).
      pose proof (inv_end _ _ id H) as H'. assert (E' : event_streams (end_stream id t) !! id = Some {| es_session := es_session es; es_sent := es_sent es; es_open := false |}).
      { unfold end_stream. rewrite E. cbn. by rewrite list_lookup_insert_eq by (by eapply lookup_lt_Some). }
      assert (Hqs : queues (end_stream id t) = queues t) by (unfold end_stream; by rewrite E).
      eapply (inv_sends b (end_stream id t) id _ _ _ rest) in H'; [|exact E'|by rewrite Hqs|done..|].
      * rewrite Hqs in H'. rewrite list_insert_id in H' by done. by destruct (end_stream id t).
      * intros s (Es & sent & pending & E1 & E2 & _). split; [done|]. by exists sent, pending.
  - intros [= <-]. unfold send. rewrite E. pose proof (inv_sends b t id es q {| es_session := es_session es; es_sent := es_sent es ++ [keepalive_text]; es_open := es_open es |} q H E Eq) as H'.
    rewrite (list_insert_id (queues t)) in H' by done. replace (set_queues (queues t) t) with t in H' by (by destruct t). apply H'; [done..|].
    intros s (Es & sent & pending & E1 & E2 & E3). split; [done|]. exists sent, pending. split_and!; [done| |done]. rewrite <-E2. by apply events_sent_keepalive.
Qed.

Lemma step_inv e b t t' : inv b t -> transport_step dumps_text e t = Some t' -> inv (board_step e b) t'.
Proof.
  intros H. destruct e; try (cbn [transport_step]; intros [= <-]).
  - by apply initialize_step.
  - by apply publish_step.
  - by apply shutdown_step.
  - by apply open_step.
  - by apply round_step.
  - by apply delete_step.
Qed.

Lemma run_inv events b t t' : inv b t -> transport_run dumps_text events t = Some t' -> inv (fold_left (fun b e => board_step e b) events b) t'.
Proof.
  revert b t. induction events as [|e events IH]; intros b t H; cbn [transport_run fold_left]; [by intros [= <-]|].
  destruct (transport_step dumps_text e t) as [t1|] eqn:E; [|done]. cbn. intros Hr. eapply IH; [|exact Hr]. by eapply step_inv.
Qed.

Lemma inv_start : inv {| bd_sessions := ∅; bd_next := 0; bd_streams := [] |} no_transport.
Proof. split; cbn; try done; try apply dict_wf_empty. Qed.

(** ** Emptying a queue *)

Lemma drain pending b t id s es :
  inv b t -> bd_streams b !! id = Some s -> event_streams t !! id = Some es -> es_open es = true ->
  queues t !! id = Some (map Some pending ++ end_mark (sl_ended s)) ->
  exists t' es', transport_run dumps_text (replicate (length pending + length (end_mark (sl_ended s))) (Round id Ready)) t = Some t' /\
    event_streams t' !! id = Some es' /\ events_sent es' = map (event_text dumps_text) (sl_log s) /\ es_open es' = negb (sl_ended s).
Proof.
  revert t es. induction pending as [|m pending IH]; intros t es H Hs He Ho Hq.
  - cbn [length Nat.add map app] in *. destruct (inv_delivers _ _ H _ _ _ _ Hs He Hq) as (Es & sent & pending & E1 & E2 & E3). specialize (E3 Ho).
    assert (pending = []) as ->.
    { apply (f_equal length) in E3. rewrite length_app, length_map in E3. destruct pending; [done|]. cbn in E3. lia. }
    rewrite app_nil_r in E1. destruct (sl_ended s); cbn [end_mark length replicate transport_run].
    + cbn [transport_step]. unfold event_stream_round. rewrite He, Hq, Ho. cbn [negb mbind option_bind]. unfold end_stream. cbn [event_streams set_queues]. rewrite He.
      eexists _, _. split; [done|]. cbn. rewrite list_lookup_insert_eq by (by eapply lookup_lt_Some). split; [done|]. split; [|done]. by rewrite E1, <-E2.
    + exists t, es. by rewrite E1.
  - destruct (event_stream_round dumps_text id Ready t) as [t1|] eqn:Er; [|by unfold event_stream_round in Er; rewrite He, Hq, Ho in Er].
    pose proof (round_step _ _ _ _ _ H Er) as H1. cbn [length Nat.add replicate transport_run transport_step]. rewrite Er. cbn [mbind option_bind].
    unfold event_stream_round in Er. rewrite He, Hq, Ho in Er. cbn [negb map app] in Er. unfold send in Er. cbn [event_streams set_queues] in Er. rewrite He in Er. injection Er as <-.
    eapply IH; [done..| | |].
    + cbn. by rewrite list_lookup_insert_eq by (by eapply lookup_lt_Some).
    + done.
    + cbn. by rewrite list_lookup_insert_eq by (by eapply lookup_lt_Some).
Qed.

(** C27. A stream delivers what its session is told. In every run of the transport, each stream has sent, apart from signs of
    life, a beginning of the notifications that were published to its session since it opened, in their order and
    without repetition; as long as it is open, the messages in its queue complete it to all of them, each round of the loop
    sends one, and the loop ends after the last one just if the session has been removed; and every session knows
    exactly its open streams. *)
Theorem streams_deliver events t : transport_run dumps_text events no_transport = Some t ->
  length (event_streams t) = length (bd_streams (board events)) /\
  (forall id s es, bd_streams (board events) !! id = Some s -> event_streams t !! id = Some es ->
    es_session es = sl_session s /\
    (exists rest, map (event_text dumps_text) (sl_log s) = events_sent es ++ rest) /\
    (es_open es = true ->
      exists queue t' es', queues t !! id = Some queue /\ transport_run dumps_text (replicate (length queue) (Round id Ready)) t = Some t' /\
        event_streams t' !! id = Some es' /\ events_sent es' = map (event_text dumps_text) (sl_log s) /\ es_open es' = negb (sl_ended s))) /\
  (forall session_id n, mcp_transport_sessions t !! session_id = Some n -> NoDup (streams_of n t) /\
    forall id, id ∈ streams_of n t <-> exists es, event_streams t !! id = Some es /\ es_open es = true /\ es_session es = n).
Proof.
  intros Hrun. assert (H : inv (board events) t) by (eapply run_inv; [exact inv_start|done]). split_and!.
  - symmetry. apply H.
  - intros id s es Hs He. assert (Hq : is_Some (queues t !! id)) by (apply lookup_lt_is_Some; rewrite (inv_queues _ _ H); by eapply lookup_lt_Some).
    destruct Hq as [q Hq]. destruct (inv_delivers _ _ H _ _ _ _ Hs He Hq) as (Es & sent & pending & E1 & E2 & E3). split_and!; [done| |].
    + exists (map (event_text dumps_text) pending). by rewrite E1, map_app, E2.
    + intros Ho. rewrite (E3 Ho) in Hq. destruct (drain pending _ _ _ _ _ H Hs He Ho Hq) as (t' & es' & Hr & Hrest). exists (map Some pending ++ end_mark (sl_ended s)), t', es'.
      split; [done|]. by rewrite length_app, length_map.
  - intros session_id n Hn. rewrite (inv_dict _ _ H) in Hn. apply (inv_fresh _ _ H) in Hn. split; [by eapply (streams_of_open _ _ _ 0)|]. intros id.
    rewrite (proj2 (streams_of_open _ _ _ id H Hn)). unfold open_in. setoid_rewrite list_elem_of_singleton. done.
Qed.
End Delivery.

(** Two streams of a session that is removed while one of them is slow. *)
Definition two_streams : list transport_event :=
  [Initialize "s1" "2025-11-25"; OpenStream "s1"; Publish "s1" "notifications/a" None; OpenStream "s1"; Round 0 Ready; Round 0 (TimedOut false);
   Publish "s1" "notifications/b" None; Publish "s1" "other" None; DeleteSession "s1"; Publish "s1" "notifications/c" None; Round 1 (TimedOut true)].

Lemma streams_deliver_witness :
  match transport_run dumps_plain two_streams no_transport with
  | Some t =>
      (exists es, event_streams t !! 0%nat = Some es /\ es_open es = true) /\
      (forall es s, event_streams t !! 0%nat = Some es -> bd_streams (board two_streams) !! 0%nat = Some s ->
        exists rest, map (event_text dumps_plain) (sl_log s) = events_sent es ++ rest)
  | None => False
  end.
Proof.
  destruct (transport_run dumps_plain two_streams no_transport) as [t|] eqn:E; [|vm_compute in E; discriminate]. split.
  - vm_compute in E. injection E as <-. eexists. split; reflexivity.
  - intros es s He Hs. destruct (streams_deliver dumps_plain two_streams t E) as (_ & H & _). destruct (H 0%nat s es Hs He) as (_ & Hr & _). exact Hr.
Defined.

End McpStreamsSpec.
