(* ===== verification/McpServer.v ===== *)
(** The requests to the MCP server ([api/mcp/monolithic.py]): JSON-RPC messages over HTTP with their sessions, the event
    streams, and the helper routes. *)

From S2P Require Export UaValues McpCatalogs McpStreams.

Module McpServer.
Export McpCatalogs McpStreams.
Import NodeIds Profiles UaValues.
Local Open Scope async_scope.

Definition MCP_PROTOCOL_VERSION : string := "2026-07-28".
Definition MCP_LEGACY_PROTOCOL_VERSIONS : list string := ["2025-11-25"; "2025-06-18"; "2025-03-26"].
Definition MCP_SUPPORTED_MODERN_PROTOCOL_VERSIONS : list string := [MCP_PROTOCOL_VERSION].
Definition MCP_SUPPORTED_PROTOCOL_VERSIONS : list string := MCP_PROTOCOL_VERSION :: MCP_LEGACY_PROTOCOL_VERSIONS.
Definition MCP_META_PROTOCOL_VERSION : string := "io.modelcontextprotocol/protocolVersion".
Definition MCP_META_CLIENT_CAPABILITIES : string := "io.modelcontextprotocol/clientCapabilities".
Definition MCP_CACHEABLE_RESULT_METHODS : list string := ["tools/list"; "prompts/list"; "resources/list"; "resources/templates/list"; "resources/read"].
Definition MCP_SESSION_HEADER : string := "Mcp-Session-Id".

Record ServerState := { sv_models : ModelState; sv_transport : Transport; sv_uuids : nat }.

Definition set_models (m : ModelState) (s : ServerState) : ServerState := {| sv_models := m; sv_transport := sv_transport s; sv_uuids := sv_uuids s |}.
Definition set_transport (t : Transport) (s : ServerState) : ServerState := {| sv_models := sv_models s; sv_transport := t; sv_uuids := sv_uuids s |}.

(** ** Messages *)

Definition jsonrpc_response (result_id result : json) : items := [("jsonrpc", JStr "2.0"); ("id", result_id); ("result", result)].

(** [None] and [null] are no data. *)
Definition jsonrpc_error (result_id : json) (code : Z) (message : string) (data : option json) : items :=
  [("jsonrpc", JStr "2.0"); ("id", result_id);
   ("error", JObj ([("code", JInt code); ("message", JStr message)] ++ match data with None | Some JNull => [] | Some v => [("data", v)] end))].

Definition id_of (message : items) : json := get "id" message.

(** [type(message_id) in (str, int)]. *)
Definition valid_id (v : json) : bool := match v with JStr _ | JInt _ => true | _ => false end.

(** [isinstance(v, dict)], and what it holds. *)
Definition dict_of (v : json) : option items := match v with JObj l => Some l | _ => None end.

(** [l.get(key)] if that is a dictionary. *)
Definition dict_item (key : string) (l : items) : option items := items_lookup key l ≫= dict_of.

Definition setdefault (key : string) (v : json) (l : items) : items := if has_key key l then l else l ++ [(key, v)].

(** ** Requests of the new protocol *)

(** Header names are in lower case. *)
Record HttpRequest := { rq_headers : list (string * string); rq_base_url : string; rq_json : option json }.
Definition header (name : string) (request : HttpRequest) : option string := items_lookup name (rq_headers request).

Section Modern.
(** UTF-8, which may fail. *)
Context (decode_utf8 : list Z -> option string).

(** [b64decode] raises [binascii.Error] for a text that is no base64, which is caught, and [ValueError] for one that is not
    ASCII, which is not. *)
Definition decode_modern_header_value (value : string) : outcome exn (option string) :=
  let prefix := "=?base64?" in
  if negb (startswith prefix value && str_endswith "?=" value) then Ok (Some value)
  else
    let encoded := take (length (chars value) - 2 - String.length prefix) (drop (String.length prefix) (chars value)) in
    if existsb (fun c => 128 <=? code c) encoded then Err (OtherException "ValueError")
    else Ok (b64decode (of_chars encoded) ≫= decode_utf8).

Definition modern_request_error (request : HttpRequest) (message : items) : outcome exn (option items) :=
  let params := dict_item "params" message in
  let metadata := default [] (params ≫= dict_item "_meta") in
  let method_header := header "mcp-method" request in
  let name_header := header "mcp-name" request in
  let request_id := id_of message in
  let header_mismatch detail := Ok (Some (jsonrpc_error request_id (-32020) ("HeaderMismatch: " +:+ detail) None)) in
  match items_lookup MCP_META_PROTOCOL_VERSION metadata, items_lookup MCP_META_CLIENT_CAPABILITIES metadata with
  | Some (JStr protocol_version), Some (JObj _) =>
      if negb (bool_decide (header "mcp-protocol-version" request = Some protocol_version))
      then header_mismatch "MCP-Protocol-Version does not match request metadata"
      else match items_lookup "method" message with
           | Some (JStr method) =>
               if negb (bool_decide (method_header = Some method)) then header_mismatch "Mcp-Method does not match request method"
               else
                 let expected_name :=
                   if bool_decide (method ∈ ["tools/call"; "prompts/get"]) then params ≫= items_lookup "name"
                   else if bool_decide (method = "resources/read") then params ≫= items_lookup "uri"
                   else None in
                 mismatch ← match expected_name with
                   | Some (JStr name) =>
                       decoded_name ← match name_header with Some value => decode_modern_header_value value | None => Ok None end;
                       if bool_decide (decoded_name = Some name) then Ok None
                       else header_mismatch "Mcp-Name does not match request name"
                   | _ => match name_header with Some _ => header_mismatch "Mcp-Name is not applicable to this method" | None => Ok None end
                   end;
                 match mismatch with
                 | Some error => Ok (Some error)
                 | None =>
                     if bool_decide (protocol_version ∈ MCP_SUPPORTED_MODERN_PROTOCOL_VERSIONS) then Ok None
                     else Ok (Some (jsonrpc_error request_id (-32022) "Unsupported protocol version"
                            (Some (JObj [("supported", json_strings MCP_SUPPORTED_PROTOCOL_VERSIONS); ("requested", JStr protocol_version)]))))
                 end
           | _ => header_mismatch "Mcp-Method does not match request method"
           end
  | _, _ => Ok (Some (jsonrpc_error request_id (-32602) "Missing or invalid per-request MCP metadata" None))
  end.
End Modern.

Definition add_modern_response_metadata (response : items) (method : string) : items :=
  match items_lookup "result" response with
  | Some (JObj result) =>
      let result := setdefault "resultType" (JStr "complete") result in
      let result := if bool_decide (method ∈ MCP_CACHEABLE_RESULT_METHODS)
                    then setdefault "cacheScope" (JStr "private") (setdefault "ttlMs" (JInt 0) result) else result in
      let metadata := match items_lookup "_meta" result with Some (JObj l) => l | _ => [] end in
      with_item "result" (JObj (with_item "_meta" (JObj (with_item MCP_META_PROTOCOL_VERSION (JStr MCP_PROTOCOL_VERSION) metadata)) result)) response
  | _ => response
  end.

(** ** The methods *)

Definition initialize_result (config : ServerConfig) (requested_version : string) : json :=
  JObj [("protocolVersion", JStr (if mem requested_version MCP_LEGACY_PROTOCOL_VERSIONS then requested_version else MCP_LEGACY_PROTOCOL_VERSION));
        ("serverInfo", JObj [("name", JStr "i3x"); ("version", JStr (server_version config))]);
        ("capabilities", JObj (map (fun name => (name, JObj [("listChanged", JBool false)])) ["tools"; "prompts"; "resources"]));
        ("instructions", JStr MCP_INSTRUCTIONS)].

Definition discover_result (config : ServerConfig) : json :=
  JObj [("supportedVersions", json_strings MCP_SUPPORTED_PROTOCOL_VERSIONS);
        ("capabilities", JObj (map (fun name => (name, JObj [])) ["tools"; "prompts"; "resources"]));
        ("_meta", JObj [("io.modelcontextprotocol/serverInfo", JObj [("name", JStr "i3x"); ("version", JStr (server_version config))])]);
        ("instructions", JStr MCP_INSTRUCTIONS); ("ttlMs", JInt 3600000); ("cacheScope", JStr "public")].

(** The prompts with their arguments. *)
Definition prompt_catalog (config : ServerConfig) : list json :=
  map (fun metadata =>
    JObj (metadata ++ match mcp_prompts config ≫= lookup (text_item "name" metadata) with
                      | Some prompt => [("arguments", JArr (map (fun name => JObj [("name", JStr name); ("required", JBool true)]) (p_inputs prompt)))]
                      | None => []
                      end)) (list_prompt_metadata (mcp_prompts config)).

(** [try: f(value) except HTTPException as exc: error(code, message, exc.detail)]. *)
Definition http_guarded {A} (message_id : json) (code : Z) (message : string) (r : outcome exn A) (f : A -> items) : outcome exn items :=
  match r with
  | Ok a => Ok (f a)
  | Err (HttpException e) => Ok (jsonrpc_error message_id code message (Some (error_detail e)))
  | Err e => Err e
  end.

Section Server.
Context (bracketed_netloc_ok : text -> bool) (repr : json -> text) (loads : string -> option json) (decode_replace : string -> string)
        (decode_utf8 : list Z -> option string) (first_error : json -> json -> option string) (model_revision stored_revision : BuildResult -> string)
        (build_completed_at_utc : BuildResult -> json) (uuid_hex : nat -> string).

Definition invoke_tool (config : ServerConfig) (tool : McpToolDefinition) (arguments : items) : method ServerState Payload :=
  invoke_mcp_tool bracketed_netloc_ok repr loads decode_replace first_error model_revision sv_models set_models (mcp_config config) tool arguments.

Definition call_result (config : ServerConfig) (message_id : json) (tool_name : string) (tool : McpToolDefinition) (arguments : items) : method ServerState items :=
  match first_error (JObj (t_input_schema tool)) (JObj arguments) with
  | Some message => Ret (Ok (jsonrpc_error message_id (-32602) ("Invalid tool arguments: " +:+ message) None))
  | None =>
      pbind (invoke_tool config tool arguments) (fun r => Ret (
        match r with
        | Ok payload => Ok (jsonrpc_response message_id (JObj (tool_result (pl_body payload) (pl_status_code payload) (Some tool_name))))
        | Err (HttpException (HttpError status code message as e)) =>
            if bool_decide (status ∈ [400; 422]) then Ok (jsonrpc_error message_id (-32602) "Invalid tool arguments" (Some (error_detail e)))
            else Ok (jsonrpc_response message_id (JObj (tool_result (error_detail e) status None)))
        | Err e => Err e
        end))
  end.

(** [params.get(key, {})] where it has to be a dictionary. *)
Definition dict_param (key : string) (params : items) : option items :=
  match items_lookup key params with None => Some [] | Some v => dict_of v end.

Definition read_state {A} (f : ServerState -> outcome exn A) : method ServerState A := sect (fun s => (s, f s)).

Definition handle_method (config : ServerConfig) (message_id : json) (rpc_method : string) (params : option items) : method ServerState items :=
  let respond result := Ret (Ok (jsonrpc_response message_id result)) in
  let invalid_params := Ret (Ok (jsonrpc_error message_id (-32602) "Invalid params" None)) in
  if bool_decide (rpc_method = "initialize") then
    match params ≫= items_lookup "protocolVersion" with
    | Some (JStr requested_version) => respond (initialize_result config requested_version)
    | _ => Ret (Ok (jsonrpc_error message_id (-32602) "protocolVersion must be a string" None))
    end
  else if bool_decide (rpc_method = "server/discover") then respond (discover_result config)
  else if bool_decide (rpc_method = "resources/templates/list") then respond (JObj [("resourceTemplates", JArr [])])
  else if bool_decide (rpc_method = "ping") then respond (JObj [])
  else if bool_decide (rpc_method = "tools/list") then respond (JObj [("tools", JArr (tool_catalog config))])
  else if bool_decide (rpc_method = "tools/call") then
    match params with
    | None => invalid_params
    | Some params =>
        match items_lookup "name" params, dict_param "arguments" params with
        | Some (JStr tool_name), Some arguments =>
            match mcp_tools config !! tool_name with
            | Some tool => call_result config message_id tool_name tool arguments
            | None => Ret (Ok (jsonrpc_error message_id (-32602) ("Unknown tool " +:+ tool_name) None))
            end
        | _, _ => invalid_params
        end
    end
  else if bool_decide (rpc_method = "prompts/list") then respond (JObj [("prompts", JArr (prompt_catalog config))])
  else if bool_decide (rpc_method = "prompts/get") then
    match params with
    | None => invalid_params
    | Some params =>
        match items_lookup "name" params, dict_param "arguments" params with
        | Some (JStr prompt_name), Some arguments =>
            if (truthy prompt_name && forallb (fun p => is_string p.2) arguments)%bool then
              Ret (http_guarded message_id (-32602) "Invalid prompt request" (execute_prompt repr (mcp_prompts config) prompt_name arguments) (fun rendered =>
                jsonrpc_response message_id (JObj [("description", get "description" rendered);
                  ("messages", JArr [JObj [("role", JStr "user"); ("content", JObj [("type", JStr "text"); ("text", get "rendered" rendered)])]])])))
            else invalid_params
        | _, _ => invalid_params
        end
    end
  else if bool_decide (rpc_method = "prompts/execute") then
    match params with
    | None => invalid_params
    | Some params =>
        match items_lookup "name" params, dict_param "parameters" params with
        | Some (JStr prompt_name), Some parameters =>
            Ret (http_guarded message_id (-32602) "Invalid prompt request" (execute_prompt repr (mcp_prompts config) prompt_name parameters) (fun result =>
              jsonrpc_response message_id (JObj result)))
        | _, _ => invalid_params
        end
    end
  else if bool_decide (rpc_method = "resources/list") then
    read_state (fun s => Ok (jsonrpc_response message_id (JObj [("resources", JArr (resource_catalog config (sv_models s)))])))
  else if bool_decide (rpc_method = "resources/read") then
    match params ≫= items_lookup "uri" with
    | Some (JStr resource_uri) =>
        if negb (truthy resource_uri) then invalid_params
        else read_state (fun s => http_guarded message_id (-32002) "Resource not found"
               (read_resource_content stored_revision build_completed_at_utc config resource_uri (sv_models s)) (fun content =>
                 jsonrpc_response message_id (JObj [("contents", JArr [JObj content])])))
    | _ => invalid_params
    end
  else Ret (Ok (jsonrpc_error message_id (-32601) ("Method not found: " +:+ rpc_method) None)).

Definition handle_jsonrpc (config : ServerConfig) (message : items) : method ServerState (option items) :=
  let message_id := id_of message in
  let invalid_request message_id : method ServerState (option items) := Ret (Ok (Some (jsonrpc_error message_id (-32600) "Invalid Request" None))) in
  if (has_key "id" message && negb (valid_id message_id))%bool then invalid_request JNull
  else if negb (bool_decide (str_arg "jsonrpc" message = Some "2.0")) then invalid_request message_id
  else match items_lookup "method" message with
       | Some (JStr rpc_method) =>
           match message_id with
           | JNull => Ret (Ok None)
           | _ =>
               match get "params" message with
               | JNull => obind (handle_method config message_id rpc_method None) (fun r => Ret (Ok (Some r)))
               | JObj params => obind (handle_method config message_id rpc_method (Some params)) (fun r => Ret (Ok (Some r)))
               | _ => Ret (Ok (Some (jsonrpc_error message_id (-32602) "Invalid params" None)))
               end
           end
       | _ => invalid_request message_id
       end.

(** ** Routes of the protocol *)

Inductive Response :=
  | JsonResponse (status : Z) (content : json) (headers : list (string * string))
  | TextResponse (status : Z) (text : string) (media_type : option string)
  | EmptyResponse (status : Z) (headers : list (string * string))
  | StreamResponse (stream : nat) (headers : list (string * string)).

Definition rejected (status : Z) (message : string) : Response := JsonResponse status (JObj (jsonrpc_error JNull (-32600) message None)) [].

(** [urlsplit(url).hostname]. *)
Definition hostname (netloc : text) : text :=
  let hostinfo := after_last "@" netloc in
  let '(before, open, bracketed) := partition_at "[" hostinfo in
  let host := if (open : bool) then (partition_at "]" bracketed).1.1 else (partition_at ":" hostinfo).1.1 in
  let '(name, percent, zone) := partition_at "%" host in
  map lower_char name ++ (if (percent : bool) then "%"%char :: zone else []).

Definition local_hosts : list text := map chars ["localhost"; "127.0.0.1"; "::1"].

Definition origin_is_allowed (config : ServerConfig) (request : HttpRequest) : outcome exn bool :=
  match header "origin" request with
  | None => Ok true
  | Some origin =>
      same_local_origin ← (if bool_decide (origin = rstrip_char "/"%char (rq_base_url request)) then
                             parsed ← split_url bracketed_netloc_ok (chars origin); Ok (bool_decide (hostname (sr_netloc parsed) ∈ local_hosts))
                           else Ok false);
      Ok (same_local_origin || negb (bool_decide (origin = "*")) && mem origin (mcp_allowed_origins config))%bool
  end.

(** [f], unless the origin of the request is not allowed. *)
Definition from_allowed_origin (config : ServerConfig) (request : HttpRequest) (f : method ServerState Response) : method ServerState Response :=
  obind (Ret (origin_is_allowed config request)) (fun allowed => if (allowed : bool) then f else Ret (Ok (rejected 403 "Origin not allowed"))).

Definition method_is (method : string) (message : items) : bool := bool_decide (str_arg "method" message = Some method).

Definition is_modern (request : HttpRequest) (message : items) : bool :=
  let protocol_version := header "mcp-protocol-version" request in
  let metadata := default [] (dict_item "params" message ≫= dict_item "_meta") in
  (bool_decide (protocol_version = Some MCP_PROTOCOL_VERSION) || has_key MCP_META_PROTOCOL_VERSION metadata || method_is "server/discover" message ||
   match protocol_version with Some v => negb (mem v MCP_LEGACY_PROTOCOL_VERSIONS) | None => false end)%bool.

(** The answer to a request that is refused before it is handled; otherwise its session. *)
Definition admit_request (request : HttpRequest) (message : items) (t : Transport) : outcome exn (Response + option string) :=
  if is_modern request message then
    error ← modern_request_error decode_utf8 request message;
    match error with
    | Some error => Ok (inl (JsonResponse 400 (JObj error) []))
    | None =>
        if method_is "initialize" message
        then Ok (inl (JsonResponse 400 (JObj (jsonrpc_error (id_of message) (-32601) "Method not found: initialize" None)) []))
        else Ok (inr None)
    end
  else
    match header "mcp-session-id" request with
    | None => Ok (inr None)
    | Some session_id =>
        match mcp_transport_sessions t !! session_id ≫= (fun n => session_objects t !! n) with
        | None => Ok (inl (rejected 404 "Unknown MCP session"))
        | Some session =>
            match header "mcp-protocol-version" request with
            | Some v => if bool_decide (v = protocol_version session) then Ok (inr (Some session_id)) else Ok (inl (rejected 400 "MCP protocol version does not match session"))
            | None => Ok (inr (Some session_id))
            end
        end
    end.

(** The answer that goes out, and the session that an [initialize] opens. *)
Definition finish_request (modern : bool) (session_id : option string) (message : items) (response : option items) (s : ServerState) : ServerState * Response :=
  let response := match response with
                  | Some r => if (modern && has_key "result" r)%bool
                              then Some (add_modern_response_metadata r (match items_lookup "method" message with Some (JStr m) => m | _ => ε end)) else Some r
                  | None => None
                  end in
  let initialized := match response with
                     | Some r => if (negb modern && method_is "initialize" message && has_key "result" r)%bool
                                 then Some (match dict_item "result" r ≫= items_lookup "protocolVersion" with Some (JStr v) => v | _ => MCP_LEGACY_PROTOCOL_VERSION end)
                                 else None
                     | None => None
                     end in
  let '(s, headers) :=
    match initialized with
    | Some version =>
        ({| sv_models := sv_models s; sv_transport := new_session (uuid_hex (sv_uuids s)) version (sv_transport s); sv_uuids := S (sv_uuids s) |},
         [(MCP_SESSION_HEADER, uuid_hex (sv_uuids s))])
    | None =>
        (s, match session_id with
            | Some id => if method_is "notifications/initialized" message then [(MCP_SESSION_HEADER, id)] else []
            | None => []
            end)
    end in
  (s, match response with None => EmptyResponse 202 headers | Some r => JsonResponse 200 (JObj r) headers end).

(** What the client gets when the method fails in another way. *)
Definition internal_error (message : items) : option items :=
  if has_key "id" message then Some (jsonrpc_error (id_of message) (-32603) "Internal error" None) else None.

Definition mcp_post (config : ServerConfig) (request : HttpRequest) : method ServerState Response :=
  from_allowed_origin config request (
    match rq_json request with
    | None => Ret (Ok (JsonResponse 200 (JObj (jsonrpc_error JNull (-32700) "Parse error" None)) []))
    | Some (JObj message) =>
        obind (read_state (fun s => admit_request request message (sv_transport s))) (fun admitted =>
        match admitted with
        | inl response => Ret (Ok response)
        | inr session_id =>
            pbind (handle_jsonrpc config message) (fun r =>
            let response := match r with Ok response => response | Err _ => internal_error message end in
            sect (fun s => let '(s, response) := finish_request (is_modern request message) session_id message response s in (s, Ok response)))
        end)
    | Some _ => Ret (Ok (JsonResponse 200 (JObj (jsonrpc_error JNull (-32600) "Invalid Request" None)) []))
    end).

Definition accepted_types (request : HttpRequest) : list string :=
  map (fun item => lower (strip (default ε (head (str_split ";"%char item))))) (str_split ","%char (default ε (header "accept" request))).

Definition mcp_get (config : ServerConfig) (request : HttpRequest) : method ServerState Response :=
  from_allowed_origin config request (
    if negb (mem "text/event-stream" (accepted_types request)) then Ret (Ok (rejected 406 "Accept: text/event-stream required"))
    else match header "mcp-session-id" request with
         | Some session_id =>
             if negb (truthy session_id) then Ret (Ok (rejected 400 "Mcp-Session-Id required"))
             else sect (fun s =>
               match mcp_transport_sessions (sv_transport s) !! session_id with
               | None => (s, Ok (rejected 404 "Unknown MCP session"))
               | Some session =>
                   (set_transport (open_stream session (sv_transport s)) s,
                    Ok (StreamResponse (length (queues (sv_transport s)))
                      [("Cache-Control", "no-cache, no-transform"); ("X-Accel-Buffering", "no"); (MCP_SESSION_HEADER, session_id)]))
               end)
         | None => Ret (Ok (rejected 400 "Mcp-Session-Id required"))
         end).

Definition mcp_delete (config : ServerConfig) (request : HttpRequest) : method ServerState Response :=
  from_allowed_origin config request (
    match header "mcp-session-id" request with
    | Some session_id =>
        if negb (truthy session_id) then Ret (Ok (rejected 400 "Mcp-Session-Id required"))
        else sect (fun s =>
          let '(t, found) := delete_session session_id (sv_transport s) in
          (set_transport t s, Ok (if (found : bool) then EmptyResponse 200 [] else rejected 404 "Unknown MCP session")))
    | None => Ret (Ok (rejected 400 "Mcp-Session-Id required"))
    end).

(** ** Helper routes *)

Definition payload_to_response (payload : Payload) : Response :=
  match pl_body payload with
  | JObj l =>
      match items_lookup "text" l, items_lookup "content_type" l with
      | Some text, Some content_type => TextResponse (pl_status_code payload) (of_chars (str_of repr text)) (id_text content_type)
      | _, _ => JsonResponse (pl_status_code payload) (JObj l) []
      end
  | body => JsonResponse (pl_status_code payload) body []
  end.

Definition list_tools (config : ServerConfig) : json :=
  let camel_case (tool : McpToolDefinition) :=
    JObj (to_dict tool ++ [("inputSchema", JObj (t_input_schema tool)); ("pathParameters", json_strings (t_path_parameters tool));
                           ("queryParameters", json_strings (t_query_parameters tool)); ("bodyRequired", JBool (t_body_required tool))]) in
  JObj [("tools", JObj (map (fun p => (p.1, camel_case p.2)) (dict_items (mcp_tools config))))].

Definition call_tool (config : ServerConfig) (tool : string) (arguments : items) : method ServerState Response :=
  match mcp_tools config !! tool with
  | None => Ret (http_exception 400 "Bad Request" ("Unknown tool " +:+ tool))
  | Some definition => obind (invoke_tool config definition arguments) (fun payload => Ret (Ok (payload_to_response payload)))
  end.

Definition list_prompts (config : ServerConfig) : json := JObj [("prompts", JArr (map JObj (list_prompt_metadata (mcp_prompts config))))].
Definition get_prompt_definition (config : ServerConfig) (name : string) : outcome exn items := get_prompt (mcp_prompts config) name.
Definition execute_prompt_template (config : ServerConfig) (name : string) (parameters : items) : outcome exn items := execute_prompt repr (mcp_prompts config) name parameters.

Definition list_resources (config : ServerConfig) : method ServerState json :=
  read_state (fun s => Ok (JObj [("resources", JArr (resource_catalog config (sv_models s)))])).
Definition read_resource (config : ServerConfig) (uri : string) : method ServerState json :=
  read_state (fun s => content ← read_resource_content stored_revision build_completed_at_utc config uri (sv_models s); Ok (JObj [("contents", JArr [JObj content])])).
Definition list_roots : method ServerState json :=
  read_state (fun s => Ok (JObj [("roots", JArr (map (fun root => JObj [("uri", JStr (root_uri root.1)); ("name", JStr root.2)]) (roots_catalog (sv_models s))))])).
End Server.

End McpServer.
