(* ===== verification/McpInvokeSpec.v ===== *)
(** Calls of MCP tools: which tools there are, what their schemas admit, and where their requests go. No tool writes. *)

From S2P Require Export McpInvoke.

Module McpInvokeSpec.
Import NodeIds Profiles McpInvoke.
Local Open Scope async_scope.

#[local] Arguments upper : simpl never.
#[local] Arguments resolve_schema : simpl never.

(** ** The tools *)

Lemma upper_char_idem c : upper_char (upper_char c) = upper_char c.
Proof. destruct c as [[] [] [] [] [] [] [] []]; vm_compute; reflexivity. Qed.

Lemma upper_upper s : upper (upper s) = upper s.
Proof. unfold upper. rewrite chars_of_chars, List.map_map. f_equal. apply map_ext, upper_char_idem. Qed.

(** [l] has the names of [names] and no others. *)
Definition named (l : items) (names : list string) : Prop := forall n, is_Some (items_lookup n l) <-> n ∈ names.

Lemma named_insert k v l names names' : named l names -> (forall n, n ∈ names' <-> n = k \/ n ∈ names) -> named (items_insert k v l) names'.
Proof. intros H Hn n. rewrite items_lookup_insert, Hn, <-(H n). case_bool_decide; [subst; naive_solver|]. naive_solver. Qed.

Lemma named_update l' l names : named l names -> named (update_items l' l) (map fst l' ++ names).
Proof.
  revert l names. induction l' as [|[k v] l' IH]; intros l names H; [done|]. intros n.
  etrans; [refine (IH (items_insert k v l) (k :: names) _ n)|cbn; set_solver]. eapply named_insert; [exact H|]. set_solver.
Qed.

Definition inputs_named (i : Inputs) : Prop := named (in_properties i) (in_path i ++ in_query i).

Lemma add_parameter_named fuel components parameter i i' : add_parameter fuel components parameter i = Some i' -> inputs_named i -> inputs_named i'.
Proof.
  unfold add_parameter. destruct parameter as [| | | | | |l]; try (by intros [= <-]). destruct (items_lookup "name" l) as [[| | | |name| |]|]; try (by intros [= <-]).
  destruct (items_lookup "in" l) as [[| | | |location| |]|]; try (by intros [= <-]). case_bool_decide as Hl; cbn [negb]; [|by intros [= <-]].
  destruct (resolve_schema _ _ _) as [schema|]; [|done]. cbn [mbind option_bind]. intros [= <-] H. unfold inputs_named. cbn.
  eapply named_insert; [exact H|]. intros n. apply elem_of_cons in Hl as [->|[->|[]%elem_of_nil]%elem_of_cons].
  - rewrite bool_decide_true, bool_decide_false, app_nil_r by done. set_solver.
  - rewrite bool_decide_false, bool_decide_true, app_nil_r by done. set_solver.
Qed.

Lemma add_parameters_named fuel components parameters i i' : add_parameters fuel components parameters i = Some i' -> inputs_named i -> inputs_named i'.
Proof.
  revert i. induction parameters as [|p parameters IH]; intros i; cbn [add_parameters]; [by intros [= <-]|].
  destruct (add_parameter _ _ p i) as [i1|] eqn:E; [|done]. cbn [mbind option_bind]. intros Hr Hi. eapply IH; [done|]. by eapply add_parameter_named.
Qed.

(** The arguments that a tool takes are the properties of its schema; only a required body can be missing there. *)
Definition arguments_named (tool : McpToolDefinition) : Prop :=
  forall n, n ∈ allowed_arguments tool <-> is_Some (items_lookup n (schema_properties (t_input_schema tool))) \/ n = "body" /\ t_body_required tool = true.

(** The schema of a tool names its arguments, and excludes others. *)
Definition closed_schema (tool : McpToolDefinition) : Prop :=
  exists properties required, t_input_schema tool !! 0%nat = Some ("type", JStr "object") /\
    t_input_schema tool !! 1%nat = Some ("properties", JObj properties) /\ t_input_schema tool !! 2%nat = Some ("required", json_strings required) /\
    ("additionalProperties", JBool false) ∈ t_input_schema tool.

Record tool_ok (tool : McpToolDefinition) : Prop := {
  ok_method : upper (t_method tool) ≠ "PUT";
  ok_schema : closed_schema tool;
  ok_arguments : arguments_named tool;
}.

(** A tool of an operation. *)
Definition operation_ok (tool : McpToolDefinition) : Prop :=
  t_name tool ≠ MCP_CONTAINER_VALUES_TOOL -> t_name tool ∉ map fst MCP_MODEL_TOOL_SCHEMAS -> tool_ok tool.

Lemma add_body_named fuel components operation_id request_body i i' body_required :
  add_body fuel components operation_id request_body i = Some (i', body_required) -> inputs_named i ->
  in_path i' = in_path i /\ in_query i' = in_query i /\
  (in_properties i' = in_properties i \/ named (in_properties i') ("body" :: in_path i ++ in_query i)).
Proof.
  unfold add_body. destruct request_body as [[| | | | | |l]|]; try (intros [= <- <-]; by auto).
  destruct (resolve_request_body_schema _ _ _) as [[s|]|]; [| |done]; cbn [mbind option_bind]; intros [= <- <-] H; [|by auto]. cbn. split_and!; [done..|].
  right. eapply named_insert; [exact H|]. set_solver.
Qed.

Lemma operation_tool_ok fuel repr components overrides path server method details tool :
  operation_tool fuel repr components overrides path server method details = Some (Some tool) -> operation_ok tool.
Proof.
  unfold operation_tool. destruct details as [| | | | | |l]; try done. case_bool_decide as Hput; [done|].
  destruct (items_lookup "operationId" l) as [[| | | |id| |]|]; try done. case_bool_decide; [done|]. destruct (str_endswith _ path); [done|].
  destruct (match items_lookup "parameters" l with None => _ | Some _ => _ end) as [parameters|]; [|done]. cbn [mbind option_bind].
  destruct (add_parameters _ _ parameters no_inputs) as [i|] eqn:Ei; [|done]. cbn [mbind option_bind].
  destruct (add_body _ _ id _ i) as [[i' body_required]|] eqn:Eb; [|done]. cbn [mbind option_bind]. intros [= <-] Hc Hm. cbn [t_name] in Hc, Hm.
  assert (Hi : inputs_named i) by (eapply add_parameters_named; [done|]; intros n; cbn; split; [by intros []|set_solver]).
  destruct (add_body_named _ _ _ _ _ _ _ Eb Hi) as (Hp & Hq & Hprops). split.
  - cbn. by rewrite upper_upper.
  - eexists _, _. cbn. split_and!; [done..|]. do 3 right. by left.
  - intros n. unfold allowed_arguments. cbn [t_name t_path_parameters t_query_parameters t_body_required t_input_schema].
    rewrite (bool_decide_false (id = MCP_CONTAINER_VALUES_TOOL)) by done.
    assert (items_lookup id MCP_MODEL_TOOL_SCHEMAS = None) as -> by (apply eq_None_not_Some; by rewrite items_lookup_elem).
    change (schema_properties (operation_schema ?i)) with (in_properties i). unfold has_key. cbn [app].
    set (page := if bool_decide (id ∈ MCP_PAGINATED_LIST_TOOLS) then ["limit"; "offset"] else []).
    set (i'' := if bool_decide (id ∈ MCP_PAGINATED_LIST_TOOLS) then _ else i').
    assert (Hall : in_path i'' = in_path i /\ in_query i'' = in_query i /\
      (named (in_properties i'') (page ++ in_path i ++ in_query i) \/ named (in_properties i'') (page ++ "body" :: in_path i ++ in_query i))).
    { subst i'' page. case_bool_decide; cbn; rewrite ?Hp, ?Hq; (split_and!; [done..|]).
      - destruct Hprops as [->|Hn]; [left; exact (named_update (page_schemas 500) _ _ Hi)|right; exact (named_update (page_schemas 500) _ _ Hn)].
      - destruct Hprops as [->|Hn]; [by left|by right]. }
    destruct Hall as (-> & -> & Hall). clearbody page i''. destruct Hall as [HI|HI]; rewrite (HI n).
    + case_bool_decide as Hb; [rewrite orb_true_r|rewrite orb_false_r]; [|destruct body_required; set_solver].
      rewrite (HI "body") in Hb. set_solver.
    + rewrite bool_decide_true by (rewrite (HI "body"); set_solver). rewrite orb_true_r. set_solver.
Qed.

(** A tool has its own name as its key. *)
Definition tools_ok (P : McpToolDefinition -> Prop) (tools : dict string McpToolDefinition) : Prop := forall name tool, tools !! name = Some tool -> t_name tool = name /\ P tool.

Lemma tools_ok_insert P tool tools : tools_ok P tools -> P tool -> tools_ok P (<[t_name tool := tool]> tools).
Proof. intros H Ht name t. rewrite dict_lookup_insert. case_bool_decide; [intros [= <-]; by subst|by apply H]. Qed.

Lemma add_operations_ok fuel repr components overrides path server methods tools tools' :
  add_operations fuel repr components overrides path server methods tools = Some tools' -> tools_ok operation_ok tools -> tools_ok operation_ok tools'.
Proof.
  revert tools. induction methods as [|[method details] methods IH]; intros tools; cbn [add_operations]; [by intros [= <-]|].
  destruct (operation_tool _ _ _ _ _ _ _ _) as [tool|] eqn:E; [|done]. cbn [mbind option_bind]. intros H Ht. eapply IH; [exact H|].
  destruct tool as [tool|]; [|done]. apply tools_ok_insert; [done|]. by eapply operation_tool_ok.
Qed.

Lemma add_paths_ok fuel repr components overrides paths tools tools' :
  add_paths fuel repr components overrides paths tools = Some tools' -> tools_ok operation_ok tools -> tools_ok operation_ok tools'.
Proof.
  revert tools. induction paths as [|[path methods] paths IH]; intros tools; cbn [add_paths]; [by intros [= <-]|].
  destruct methods as [| | | | | |methods]; try by apply IH. destruct (startswith "/mcp" path); cbn [mbind option_bind]; [by apply IH|].
  destruct (add_operations _ _ _ _ _ _ _ _) as [t1|] eqn:E; [|done]. cbn [mbind option_bind]. intros H Ht. eapply IH; [exact H|]. by eapply add_operations_ok.
Qed.

Lemma container_tool_ok repr overrides : tool_ok (container_tool repr overrides).
Proof.
  split; [vm_compute; discriminate|eexists _, _; cbn; (split_and!; [reflexivity..|]); do 3 right; by left|].
  intros n. unfold arguments_named, allowed_arguments. cbn [container_tool t_name t_path_parameters t_query_parameters t_body_required t_input_schema].
  rewrite (bool_decide_true (MCP_CONTAINER_VALUES_TOOL = _)) by done. rewrite (bool_decide_false (_ ∈ MCP_PAGINATED_LIST_TOOLS)) by (apply (bool_decide_unpack _); vm_compute; exact I).
  change (items_lookup MCP_CONTAINER_VALUES_TOOL MCP_MODEL_TOOL_SCHEMAS) with (@None items). cbn [app orb]. unfold schema_properties. cbn [_schema items_lookup].
  change (match items_lookup "properties" _ with Some (JObj l) => l | _ => [] end) with
    ([("containerId", JObj [("type", JStr "string"); ("minLength", JInt 1)]); ("limit", integer_schema 1 (Some 50) 50); ("offset", integer_schema 0 None 0)]).
  rewrite items_lookup_elem. cbn. set_solver.
Qed.

(** The schema of a model tool. *)
Definition schema_shape (schema : items) : Prop :=
  exists properties required rest, schema = _schema properties required ++ rest.

Lemma model_schema_shape name schema : items_lookup name MCP_MODEL_TOOL_SCHEMAS = Some schema -> schema_shape schema /\ has_key "body" (schema_properties schema) = false.
Proof.
  intros H%items_lookup_Some_elem. repeat (apply elem_of_cons in H as [[= -> ->]|H]; [split; [eexists _, _, _; (symmetry; apply app_nil_r) || reflexivity|reflexivity]|]).
  by apply elem_of_nil in H.
Qed.

Lemma model_tool_ok repr overrides name schema : items_lookup name MCP_MODEL_TOOL_SCHEMAS = Some schema -> tool_ok (model_tool repr overrides name schema).
Proof.
  intros H. destruct (model_schema_shape _ _ H) as [(properties & required & rest & E) Hb]. split; [vm_compute; discriminate| |].
  - exists properties, required. cbn. rewrite E. split_and!; [done..|]. do 3 right. by left.
  - assert (Hp : name ∉ MCP_PAGINATED_LIST_TOOLS /\ name ≠ MCP_CONTAINER_VALUES_TOOL).
    { apply items_lookup_Some_elem in H. clear -H. repeat (apply elem_of_cons in H as [[= -> _]|H]; [by split; apply (bool_decide_unpack _); vm_compute|]). by apply elem_of_nil in H. }
    destruct Hp as [Hp Hc]. intros n. unfold allowed_arguments. cbn [model_tool t_name t_path_parameters t_query_parameters t_body_required t_input_schema].
    rewrite (bool_decide_false (_ ∈ MCP_PAGINATED_LIST_TOOLS)), (bool_decide_false (_ = MCP_CONTAINER_VALUES_TOOL)), H, Hb by done. cbn [app orb]. rewrite app_nil_r, items_lookup_elem.
    split; [by left|]. by intros [?|[_ ?]].
Qed.

(** Every tool has a method that does not write, and a schema that names its arguments. *)
Lemma build_tools_ok fuel repr spec configuration overrides tools :
  build_mcp_tools fuel repr spec configuration overrides = Some tools -> tools_ok tool_ok tools.
Proof.
  unfold build_mcp_tools. set (model_tools o := map (fun s => (s.1, model_tool repr o s.1 s.2)) MCP_MODEL_TOOL_SCHEMAS). destruct (match overrides with Some o => _ | None => _ end) as [o excluded].
  assert (Hempty : tools_ok tool_ok ∅) by (intros name tool; by rewrite lookup_empty_dict).
  destruct (items_lookup "paths" spec) as [[| | | | | |paths]|]; try (by intros [= <-]).
  destruct (add_paths _ _ _ _ _ _) as [t1|] eqn:E; [|done]. cbn [mbind option_bind]. change (map _ MCP_MODEL_TOOL_SCHEMAS) with (model_tools o). intros H%(inj Some). subst tools.
  assert (H1 : tools_ok operation_ok t1) by (eapply add_paths_ok; [exact E|intros name tool; by rewrite lookup_empty_dict]).
  intros name tool. rewrite dict_lookup_filter_keys. destruct (negb (mem name excluded)); [|done]. rewrite dict_lookup_update_list.
  destruct (items_lookup name (reverse _)) as [t|] eqn:Em.
  - intros [= ->]. apply items_lookup_Some_elem in Em. rewrite elem_of_reverse in Em. apply elem_of_map in Em as ([name' schema] & [= -> ->] & Hin). split; [done|].
    apply model_tool_ok. clear -Hin. repeat (apply elem_of_cons in Hin as [[= -> ->]|Hin]; [reflexivity|]). by apply elem_of_nil in Hin.
  - assert (Hm : name ∉ map fst MCP_MODEL_TOOL_SCHEMAS).
    { intros Hin. apply eq_None_not_Some in Em. apply Em, items_lookup_elem, list_elem_of_fmap. apply elem_of_map in Hin as ([k schema] & -> & Hin).
      exists (k, model_tool repr o k schema). split; [done|]. apply elem_of_reverse, elem_of_map. by exists (k, schema). }
    rewrite dict_lookup_insert. case_bool_decide as Ec.
    + intros [= <-]. split; [done|]. apply container_tool_ok.
    + intros [Hn Hok]%H1. split; [done|]. apply Hok; congruence.
Qed.

(** ** What a schema admits *)

(** [arguments] have the names that the schema requires, and no others if it is closed: a part of what a validator checks. *)
Definition admits (schema arguments : items) : Prop :=
  (forall n, n ∈ required_of schema -> is_Some (items_lookup n arguments)) /\
  (("additionalProperties", JBool false) ∈ schema -> forall n, n ∈ map fst arguments -> is_Some (items_lookup n (schema_properties schema))).

Lemma filter_nil {A} (p : A -> bool) (l : list A) : List.filter p l = [] <-> forall x, x ∈ l -> p x = false.
Proof.
  induction l as [|x l IH]; cbn; [split; [by intros _ x ?%elem_of_nil|done]|]. destruct (p x) eqn:E.
  - split; [done|]. intros H. rewrite (H x) in E by (by left). done.
  - rewrite IH. split; [|intros H y Hy; apply H; by right]. intros H y [->|Hy]%elem_of_cons; [done|by apply H].
Qed.

Lemma check_names_ok tool arguments : check_names tool arguments = Ok tt <->
  (forall n, n ∈ map fst arguments -> n ∈ allowed_arguments tool) /\
  (forall n, n ∈ t_path_parameters tool \/ n ∈ t_query_parameters tool /\ n ∈ required_of (t_input_schema tool) -> is_Some (items_lookup n arguments)).
Proof.
  unfold check_names. pose proof mem_spec as Hmem.
  assert (Hu : py_sorted string_leb (List.filter (fun name => negb (mem name (allowed_arguments tool))) (map fst arguments)) = [] <->
    forall n, n ∈ map fst arguments -> n ∈ allowed_arguments tool).
  { set (l := List.filter _ _). assert (Hl : py_sorted string_leb l = [] <-> l = []).
    { pose proof (py_sorted_perm string_leb l) as Hp. split; intros E; rewrite E in *; [by apply Permutation_nil_l in Hp|done]. }
    rewrite Hl. subst l. rewrite filter_nil. setoid_rewrite negb_false_iff. by setoid_rewrite Hmem. }
  destruct (py_sorted _ _) as [|x l].
  - set (missing := _ ++ _). assert (Hmiss : missing = [] <-> forall n, n ∈ t_path_parameters tool \/ n ∈ t_query_parameters tool /\ n ∈ required_of (t_input_schema tool) -> is_Some (items_lookup n arguments)).
    { subst missing. rewrite app_nil, !filter_nil. setoid_rewrite andb_false_iff. setoid_rewrite negb_false_iff. unfold has_key. setoid_rewrite bool_decide_eq_true.
      split; [intros [Ha Hb] n [Hn|[Hn Hr]]; [by apply Ha|]; destruct (Hb n Hn) as [Hf|]; [|done]; apply not_true_iff_false in Hf; by rewrite Hmem in Hf|].
      intros H. split; [intros n Hn; apply H; by left|]. intros n Hn. destruct (mem n (required_of (t_input_schema tool))) eqn:E; [right|by left].
      apply Hmem in E. apply H. by right. }
    destruct missing as [|x l]; [naive_solver|]. split; [done|]. intros [_ H]. by apply Hmiss in H.
  - split; [done|]. intros [H _]. by apply Hu in H.
Qed.

(** Clients can trust the listed schemas. Of the tools that the server builds from an OpenAPI document, whatever the overrides
    are: a call whose arguments have the required names of the schema and no others passes the tool's own check of names,
    provided that the document marks the path parameters as required; and a call that passes it has only names of the
    schema, apart from a required body that has no JSON schema. *)
Theorem schema_admits fuel repr spec configuration overrides tools name tool arguments :
  build_mcp_tools fuel repr spec configuration overrides = Some tools -> tools !! name = Some tool ->
  (admits (t_input_schema tool) arguments -> (forall n, n ∈ t_path_parameters tool -> n ∈ required_of (t_input_schema tool)) -> check_names tool arguments = Ok tt) /\
  (check_names tool arguments = Ok tt -> forall n, n ∈ map fst arguments ->
    is_Some (items_lookup n (schema_properties (t_input_schema tool))) \/ n = "body" /\ t_body_required tool = true).
Proof.
  intros Hb Ht. destruct (build_tools_ok _ _ _ _ _ _ Hb _ _ Ht) as [_ [_ (properties & required & _ & _ & _ & Hclosed) Hargs]]. split.
  - intros [Hr Hn] Hp. apply check_names_ok. split.
    + intros n Hin. apply Hargs. left. by apply Hn.
    + intros n [Hin|[_ Hin]]; apply Hr; [by apply Hp|done].
  - intros [Hall _]%check_names_ok n Hn. by apply Hargs, Hall.
Qed.

(** An API with a parameter in a path, one in a query, and a route that writes. *)
Definition tiny_api : items :=
  let parameter (name location : string) (required : bool) := JObj [("name", JStr name); ("in", JStr location); ("required", JBool required)] in
  let operation (id : string) (parameters : list json) := JObj [("operationId", JStr id); ("parameters", JArr parameters)] in
  [("paths", JObj [("/v1/objects", JObj [("get", operation "getObjectsV1" [parameter "root" "query" false])]);
                   ("/v1/objects/{elementId}/value", JObj [("get", operation "readValueV1" [parameter "elementId" "path" true]);
                                                           ("put", operation "writeValueV1" [parameter "elementId" "path" true])])])].

Example tiny_tools :
  map fst (take 2 (default [] (dict_items <$> build_mcp_tools 5 (fun _ => []) tiny_api [] (Some [])))) = ["getObjectsV1"; "readValueV1"].
Proof. vm_compute. reflexivity. Qed.

Lemma schema_admits_witness :
  match build_mcp_tools 5 (fun _ => []) tiny_api [] (Some []) with
  | Some tools => exists tool, tools !! "readValueV1" = Some tool /\ check_names tool [("elementId", JStr "pump")] = Ok tt
  | None => False
  end.
Proof.
  destruct (build_mcp_tools 5 (fun _ => []) tiny_api [] (Some [])) as [tools|] eqn:E; [|vm_compute in E; discriminate].
  assert (H : exists tool, tools !! "readValueV1" = Some tool /\ t_path_parameters tool = ["elementId"] /\ required_of (t_input_schema tool) = ["elementId"] /\
    is_Some (items_lookup "elementId" (schema_properties (t_input_schema tool)))).
  { vm_compute in E. injection E as <-. eexists. split; [reflexivity|]. split; [reflexivity|]. split; [reflexivity|]. by eexists. }
  destruct H as (tool & Ht & Hp & Hr & Hn). exists tool. split; [exact Ht|].
  apply (proj1 (schema_admits 5 (fun _ => []) tiny_api [] (Some []) tools "readValueV1" tool [("elementId", JStr "pump")] E Ht)).
  - split; [intros n Hin; rewrite Hr in Hin; apply list_elem_of_singleton in Hin as ->; by eexists|]. intros _ n Hin. cbn in Hin. by apply list_elem_of_singleton in Hin as ->.
  - intros n Hin. by rewrite Hp in Hin; rewrite Hr.
Defined.

(** A schema with a reference to nothing never ends: [_resolve_ref] gives the reference back, and it is resolved again. *)
Lemma unknown_reference_diverges fuel components ref :
  items_lookup ref (mapping (items_lookup "schemas" components)) = None -> resolve_schema fuel components (JObj [("$ref", JStr ("#/components/schemas/" +:+ ref))]) = None.
Proof.
  intros H. induction fuel as [|fuel IH]; [done|].
  assert (E : resolve_ref ("#/components/schemas/" +:+ ref) components = JObj [("$ref", JStr ("#/components/schemas/" +:+ ref))]).
  { unfold resolve_ref. assert (startswith "#/components/schemas/" ("#/components/schemas/" +:+ ref) = true) as -> by reflexivity. cbn [negb].
    assert (str_drop (String.length "#/components/schemas/") ("#/components/schemas/" +:+ ref) = ref) as ->; [|by rewrite H].
    unfold str_drop. rewrite chars_app. etrans; [|apply of_chars_chars]. reflexivity. }
  change (resolve_schema (S fuel) components (JObj [("$ref", JStr ("#/components/schemas/" +:+ ref))])) with
    (resolve_schema fuel components (resolve_ref ("#/components/schemas/" +:+ ref) components)). by rewrite E.
Qed.

(** ** Requests *)

(** The calls of a tool: the model, or a request that writes nothing and goes to a normal path. *)
Definition harmless (R : Type) (c : mcp_request R) : Prop :=
  match c with
  | ProvideModel => True
  | CallApp scope => sc_method scope ≠ "PUT" /\ exists segs, chars (sc_path scope) = path_of segs /\ Forall normal_segment segs
  end.

Lemma only_ret {S C A} (P : forall R, C R -> Prop) (a : A) : only (S := S) P (Ret a).
Proof. exact I. Qed.

Lemma only_obind {S C E A B} (P : forall R, C R -> Prop) (p : prog S C (outcome E A)) (g : A -> prog S C (outcome E B)) :
  only P p -> (forall a, only P (g a)) -> only P (obind p g).
Proof. intros Hp Hg. apply only_bind; [done|]. by intros [a|e]; [apply Hg|]. Qed.

(** What follows a computation that asks nothing may use its result. *)
Lemma only_obind_ret {S C E A B} (P : forall R, C R -> Prop) (r : outcome E A) (g : A -> prog S C (outcome E B)) :
  (forall a, r = Ok a -> only P (g a)) -> only P (obind (Ret r) g).
Proof. intros Hg. cbn. destruct r as [a|e]; [by apply Hg|done]. Qed.

Section Requests.
Context (bracketed_netloc_ok : text -> bool) (repr : json -> text) (loads : string -> option json) (decode_replace : string -> string)
        (first_error : json -> json -> option string) (model_revision : BuildResult -> string) {S : Type} (model_state : S -> ModelState)
        (set_model_state : ModelState -> S -> S).

Lemma asgi_harmless http_method path params body :
  upper http_method ≠ "PUT" -> (exists segs, chars path = path_of segs /\ Forall normal_segment segs) ->
  only (S := S) harmless (invoke_internal_asgi http_method path params body).
Proof. intros Hm Hp. apply only_obind; [|done]. cbn. by split. Qed.

Lemma read_batches_harmless path batches values : (exists segs, chars path = path_of segs /\ Forall normal_segment segs) ->
  only (S := S) harmless (read_batches loads path batches values).
Proof.
  intros Hp. revert values. induction batches as [|batch batches IH]; intros values; cbn [read_batches]; [done|].
  apply only_obind; [by apply asgi_harmless|]. intros response. case_goal; [done|]. destruct (loads_body _ _) as [[| | | | | |l]|]; try done.
  by destruct (items_lookup "results" l) as [[]|].
Qed.

Lemma container_harmless config container_id limit offset :
  only (S := S) harmless (invoke_container_values loads bracketed_netloc_ok config container_id limit offset).
Proof.
  apply only_obind_ret. intros [[id l] o] _. apply only_obind; [unfold provide_model; by destruct (mcp_model_provider config)|]. intros model.
  destruct (nodes_by_id model !! id) as [container|]; [|done]. case_bool_decide; [done|]. apply only_obind_ret. intros properties _.
  apply only_obind_ret. intros path Hpath. apply safe_request_path_normal in Hpath as (segs & -> & Hs & _).
  apply only_obind; [|done]. apply read_batches_harmless. exists segs. by rewrite chars_of_chars.
Qed.

Lemma dispatch_harmless config tool arguments target params body :
  upper (t_method tool) ≠ "PUT" -> (exists segs, target = path_of segs /\ Forall normal_segment segs) ->
  only harmless (dispatch bracketed_netloc_ok loads first_error model_revision model_state set_model_state config tool arguments target params body).
Proof.
  intros Hm Ht. unfold dispatch. case_bool_decide; [apply container_harmless|]. case_bool_decide; [by apply only_obind_ret|].
  case_goal; [done|]. case_goal.
  - apply only_obind_ret. intros _ _. apply only_obind; [unfold provide_model; by destruct (mcp_model_provider config)|done].
  - apply asgi_harmless; [done|]. by rewrite chars_of_chars.
Qed.

Lemma invoke_harmless config tool arguments : upper (t_method tool) ≠ "PUT" ->
  only harmless (invoke_mcp_tool bracketed_netloc_ok repr loads decode_replace first_error model_revision model_state set_model_state config tool arguments).
Proof.
  intros Hm. apply only_obind_ret. intros p Hp. apply only_obind; [|done]. apply dispatch_harmless; [done|].
  unfold prepare in Hp. destruct (check_names _ _) as [[]|]; [|done]. cbn [mbind outcome_bind] in Hp. destruct (if mem _ _ then _ else _) as [[]|]; [|done].
  cbn [mbind outcome_bind] in Hp. destruct (list_page _ _) as [page|]; [|done]. cbn [mbind outcome_bind] in Hp.
  destruct (effective_prefix _ _ _) as [prefix|]; [|done]. cbn [mbind outcome_bind] in Hp. destruct (resolve_request_target _ _ _ _ _ _) as [target|] eqn:E; [|done].
  cbn [mbind outcome_bind] in Hp. destruct (request_body _ _) as [body|]; [|done]. injection Hp as <-. cbn.
  unfold resolve_request_target in E. destruct (safe_request_path _ prefix _) as [t1|]; [|done]. cbn [mbind outcome_bind] in E.
  destruct (fill_parameters _ _ _ _ t1) as [t2|]; [|done]. apply safe_request_path_normal in E as (segs & -> & Hs & _). by exists segs.
Qed.
End Requests.
End McpInvokeSpec.
