(* ===== verification/McpCatalogsSpec.v ===== *)
(** What the MCP server lists can be read, and what it leaves out of an answer is no failure. *)

From S2P Require Export McpCatalogs.

Module McpCatalogsSpec.
Import NodeIds Profiles McpCatalogs.

(** ** Compact answers *)

#[local] Arguments items_lookup : simpl never.

(** The same outcome: a failure is untouched, and only the result of a success differs. *)
Definition same_outcome (item item' : json) : Prop :=
  (item_failed item = true -> item' = item) /\
  match item, item' with
  | JObj l, JObj l' => forall key, key ≠ "result" -> items_lookup key l' = items_lookup key l
  | _, _ => item' = item
  end.

(** The same object, by its id and its name. *)
Definition same_object (item item' : json) : Prop :=
  match item, item' with
  | JObj l, JObj l' => forall key, key ∈ ["elementId"; "displayName"] -> items_lookup key l' = items_lookup key l
  | _, _ => item' = item
  end.

Lemma with_item_lookup key v l key' : items_lookup key' (with_item key v l) = if bool_decide (key = key') then Some v else items_lookup key' l.
Proof. apply items_lookup_insert. Qed.

Lemma lookup_cons (k key : string) (v : json) (l : items) : items_lookup key ((k, v) :: l) = if bool_decide (k = key) then Some v else items_lookup key l.
Proof. done. Qed.

Lemma pick_lookup keys l key : items_lookup key (pick keys l) = if bool_decide (key ∈ keys) then items_lookup key l else None.
Proof.
  unfold pick. induction keys as [|k keys IH]; [done|]. cbn [omap list_omap]. destruct (items_lookup k l) as [v|] eqn:E; cbn [fmap option_fmap option_map].
  - rewrite lookup_cons, IH. destruct (decide (k = key)) as [<-|Ek]; [rewrite (bool_decide_true (k = k)) by done|rewrite (bool_decide_false (k = key)) by done].
    + rewrite (bool_decide_true (k ∈ k :: keys)) by (by left). by rewrite E.
    + rewrite (bool_decide_ext (key ∈ k :: keys) (key ∈ keys)); [done|]. rewrite elem_of_cons. naive_solver.
  - rewrite IH. destruct (decide (key = k)) as [->|Hne].
    + rewrite E. by repeat case_bool_decide.
    + rewrite (bool_decide_ext (key ∈ k :: keys) (key ∈ keys)); [done|]. rewrite elem_of_cons. naive_solver.
Qed.

Lemma compact_object_same item : same_object item (compact_object item).
Proof. destruct item as [| | | | | |l]; try done. intros key Hk. rewrite pick_lookup. by rewrite bool_decide_true. Qed.

Lemma compact_type_same item : same_object item (compact_type item).
Proof. destruct item as [| | | | | |l]; try done. intros key Hk. rewrite pick_lookup. rewrite bool_decide_true; [done|]. set_solver. Qed.

Lemma bulk_item_outcome f item : same_outcome item (compact_bulk_item f item).
Proof.
  destruct item as [| | | | | |l]; try done. unfold same_outcome, compact_bulk_item. destruct (items_lookup "result" l) as [result|]; [|done].
  destruct (json_truthy (get "success" l)) eqn:E; [|done]. split.
  - unfold item_failed. destruct (get "success" l) as [|[]| | | | |]; done.
  - intros key Hk. rewrite with_item_lookup. by rewrite bool_decide_false by congruence.
Qed.

Lemma same_outcome_failed item item' : same_outcome item item' -> item_failed item' = item_failed item.
Proof.
  intros [_ H]. destruct item as [| | | | | |l]; try (by rewrite H). destruct item' as [| | | | | |l']; try (by rewrite H). unfold item_failed, get. by rewrite H.
Qed.

Lemma same_outcomes_failed items items' : Forall2 same_outcome items items' -> existsb item_failed items' = existsb item_failed items.
Proof. induction 1 as [|x y l l' Hx _ IH]; cbn; [done|]. by rewrite IH, (same_outcome_failed x y). Qed.

Lemma same_outcome_refl item : same_outcome item item.
Proof. split; [done|]. by destruct item. Qed.

Lemma same_object_refl item : same_object item item.
Proof. by destruct item. Qed.

(** A list stays a list with the items in relation [R], and anything else stays the same. *)
Definition same_list (R : json -> json -> Prop) (v v' : option json) : Prop :=
  match v with Some (JArr l) => exists l', v' = Some (JArr l') /\ Forall2 R l l' | _ => v' = v end.

(** What [l'] keeps of [l]. *)
Definition keeps (l l' : items) : Prop :=
  (forall key, key ≠ "result" -> key ≠ "results" -> items_lookup key l' = items_lookup key l) /\
  same_list same_outcome (items_lookup "results" l) (items_lookup "results" l') /\
  same_list same_object (items_lookup "result" l) (items_lookup "result" l').

Lemma same_list_refl (R : json -> json -> Prop) v : (forall x, R x x) -> same_list R v v.
Proof. intros HR. destruct v as [[| | | | |l|]|]; try done. exists l. split; [done|]. induction l; by constructor. Qed.

Lemma same_list_map (R : json -> json -> Prop) f l : (forall x, R x (f x)) -> same_list R (Some (JArr l)) (Some (JArr (map f l))).
Proof. intros Hf. eexists. split; [done|]. induction l; cbn; by constructor. Qed.

Lemma keeps_refl l : keeps l l.
Proof. split_and!; [done|apply same_list_refl, same_outcome_refl|apply same_list_refl, same_object_refl]. Qed.

Lemma compact_list_keeps f l : (forall x, same_object x (f x)) -> keeps l (compact_list f l).
Proof.
  intros Hf. unfold compact_list. destruct (items_lookup "result" l) as [[| | | | |result|]|] eqn:E; try apply keeps_refl. unfold keeps. rewrite !with_item_lookup, E. split_and!.
  - intros key Hk _. rewrite with_item_lookup. by rewrite bool_decide_false by congruence.
  - rewrite bool_decide_false by done. apply same_list_refl, same_outcome_refl.
  - rewrite bool_decide_true by done. by apply same_list_map.
Qed.

Lemma compact_bulk_keeps f l : keeps l (compact_bulk_results f l).
Proof.
  unfold compact_bulk_results. destruct (items_lookup "results" l) as [[| | | | |results|]|] eqn:E; try apply keeps_refl. unfold keeps. rewrite !with_item_lookup, E. split_and!.
  - intros key _ Hk. rewrite with_item_lookup. by rewrite bool_decide_false by congruence.
  - rewrite bool_decide_true by done. apply same_list_map, bulk_item_outcome.
  - rewrite bool_decide_false by done. apply same_list_refl, same_object_refl.
Qed.

Lemma compact_keeps tool_name l : exists l', compact_tool_body tool_name (JObj l) = JObj l' /\ keeps l l'.
Proof.
  eexists. split; [reflexivity|]. repeat (case_bool_decide; [by first [apply compact_bulk_keeps|apply compact_list_keeps; first [apply compact_object_same|apply compact_type_same]]|]).
  apply keeps_refl.
Qed.

Lemma keeps_failed l l' : keeps l l' -> body_failed (JObj l') = body_failed (JObj l).
Proof.
  intros (Hk & Hr & _). unfold body_failed, get. rewrite (Hk "success") by done. f_equal. destruct (items_lookup "results" l) as [[| | | | |results|]|]; cbn in Hr; try (by rewrite Hr).
  destruct Hr as (results' & -> & H). by apply same_outcomes_failed.
Qed.

(** Compact answers keep every failure. Whatever a tool answers, leaving out what a model does not need keeps the number and
    the order of the items, leaves items that failed as they are, changes of the others only the result, keeps the ids and
    the names of objects and types, and whether the call is an error is the same as for the full answer. *)
Theorem compaction_keeps_failures tool_name l status_code :
  exists l', compact_tool_body tool_name (JObj l) = JObj l' /\ keeps l l' /\
    items_lookup "isError" (tool_result (JObj l) status_code (Some tool_name)) = Some (JBool ((400 <=? status_code) || body_failed (JObj l))%bool) /\
    items_lookup "structuredContent" (tool_result (JObj l) status_code (Some tool_name)) = Some (JObj [("statusCode", JInt status_code); ("body", JObj l')]).
Proof.
  destruct (compact_keeps tool_name l) as (l' & E & Hk). exists l'. split_and!; [done..| |]; unfold tool_result; rewrite E; [|done].
  change (items_lookup "isError" _) with (Some (JBool ((400 <=? status_code) || body_failed (JObj l'))%bool)). by rewrite (keeps_failed l l').
Qed.

(** ** Resources *)

#[local] Arguments startswith : simpl never.

Definition resource_uri (r : json) : string := match r with JObj l => text_item "uri" l | _ => ε end.

(** Prompts are kept by their names, and no element of the model has an empty id. *)
Definition prompts_named (config : ServerConfig) : Prop :=
  forall registry, mcp_prompts config = Some registry -> dict_wf registry /\ forall name prompt, registry !! name = Some prompt -> p_name prompt = name.
Definition ids_nonempty (s : ModelState) : Prop := forall model index, model_cache s = Some (model, index) -> nodes_by_id model !! ε = None.

Lemma elem_of_sorted_items {A} (x : string * A) l : x ∈ py_sorted item_leb l <-> x ∈ l.
Proof. apply elem_of_py_sorted. Qed.

(** A root that is listed is one of the model that exists. *)
Lemma root_listed s root_id :
  (exists name, (root_id, name) ∈ roots_catalog s /\ match model_cache s with Some (model, _) => dict_mem root_id (nodes_by_id model) | None => false end = true) <->
  exists model index node, model_cache s = Some (model, index) /\ root_id ∈ root_ids model /\ nodes_by_id model !! root_id = Some node.
Proof.
  unfold roots_catalog. destruct (model_cache s) as [[model index]|]; [|split; [intros (name & H & _); by apply elem_of_nil in H|naive_solver]]. split.
  - intros (name & (id & [= -> _] & Hin)%elem_of_map & [node Hn]%dict_mem_true). by exists model, index, node.
  - intros (model' & index' & node & [= <- <-] & Hin & Hn). eexists. split; [apply elem_of_map; by exists root_id|]. apply dict_mem_true. by exists node.
Qed.

Section Readable.
Context (stored_revision : BuildResult -> string) (build_completed_at_utc : BuildResult -> json) (config : ServerConfig) (s : ModelState).

Abbreviation read uri := (read_resource_content stored_revision build_completed_at_utc config uri s).

Definition listed (uri : string) : Prop := uri ∈ map resource_uri (resource_catalog config s).

Definition fixed_uris : list string := [MCP_MODEL_OVERVIEW_URI; MCP_MAPPING_GUIDE_URI; MCP_IDENTITY_GUIDE_URI; "i3x://openapi"; "i3x://mcp-overrides"].

Lemma listed_spec uri : prompts_named config ->
  listed uri <-> uri ∈ fixed_uris \/
    (exists root_id model index node, uri = root_uri root_id /\ model_cache s = Some (model, index) /\ root_id ∈ root_ids model /\ nodes_by_id model !! root_id = Some node) \/
    (exists name prompt, uri = PROMPT_PREFIX +:+ name /\ mcp_prompts config ≫= lookup name = Some prompt).
Proof.
  intros Hp. unfold listed, resource_catalog. rewrite !map_app, !elem_of_app. change (map resource_uri fixed_resources) with fixed_uris. rewrite !List.map_map.
  assert (Hr : uri ∈ map (fun root => resource_uri (resource (root_uri root.1) root.2 "Top-level i3X model element. Read this resource for a summary and navigation hints." "application/json"))
      (List.filter (fun root => match model_cache s with Some (model, _) => dict_mem root.1 (nodes_by_id model) | None => false end) (roots_catalog s)) <->
    exists root_id model index node, uri = root_uri root_id /\ model_cache s = Some (model, index) /\ root_id ∈ root_ids model /\ nodes_by_id model !! root_id = Some node).
  { rewrite elem_of_map. split.
    - intros ([id name] & -> & Hin). rewrite list_elem_of_In, filter_In, <-list_elem_of_In in Hin. cbn [fst snd] in Hin. destruct (proj1 (root_listed s id)) as (model & index & node & H); [by exists name|].
      by exists id, model, index, node.
    - intros (id & model & index & node & -> & H). destruct (proj2 (root_listed s id)) as (name & Hin & Hd); [by exists model, index, node|].
      exists (id, name). split; [done|]. by rewrite list_elem_of_In, filter_In, <-list_elem_of_In. }
  rewrite Hr. apply or_iff_compat_l. assert (Hq : uri ∈ map (fun prompt => resource_uri (resource (PROMPT_PREFIX +:+ text_item "name" prompt) ("Prompt: " +:+ text_item "name" prompt) (text_item "description" prompt) "application/json"))
      (list_prompt_metadata (mcp_prompts config)) <-> exists name prompt, uri = PROMPT_PREFIX +:+ name /\ mcp_prompts config ≫= lookup name = Some prompt); [|by rewrite Hq].
  rewrite elem_of_map. unfold list_prompt_metadata, list_metadata. destruct (mcp_prompts config) as [registry|] eqn:Er.
  - destruct (Hp registry Er) as [Hwf Hname]. split.
    + intros (l & -> & ([name prompt] & -> & Hin)%elem_of_map). rewrite elem_of_sorted_items in Hin. apply dict_items_lookup in Hin; [|done].
      exists name, prompt. split; [|done]. by rewrite <-(Hname _ _ Hin).
    + intros (name & prompt & -> & Hl). exists (to_metadata prompt). split; [by rewrite <-(Hname _ _ Hl)|]. apply elem_of_map. exists (name, prompt). split; [done|].
      rewrite elem_of_sorted_items. by apply dict_lookup_items.
  - split; [by intros (l & _ & ?%elem_of_nil)|]. by intros (name & prompt & _ & ?).
Qed.

Lemma not_prefixed p uri : uri ∈ fixed_uris -> p ∈ [MCP_ROOT_RESOURCE_PREFIX; PROMPT_PREFIX] -> startswith p uri = false.
Proof.
  intros Hu Hp. repeat (apply elem_of_cons in Hu as [->|Hu]); [..|by apply elem_of_nil in Hu];
    (repeat (apply elem_of_cons in Hp as [->|Hp]); [..|by apply elem_of_nil in Hp]); reflexivity.
Qed.

(** What can be read, by the form of the identifier. *)
Lemma read_root root_id : ids_nonempty s ->
  is_ok (read (root_uri root_id)) = true <->
  exists model index node, model_cache s = Some (model, index) /\ root_id ∈ root_ids model /\ nodes_by_id model !! root_id = Some node.
Proof.
  intros Hne. unfold read_resource_content. assert (Hs : startswith MCP_ROOT_RESOURCE_PREFIX (root_uri root_id) = true) by (apply startswith_spec; by exists root_id).
  rewrite bool_decide_false by (intros E; rewrite E in Hs; by vm_compute in Hs). rewrite Hs. unfold root_resource_content, root_uri. rewrite str_drop_app.
  destruct (model_cache s) as [[model index]|] eqn:E; [|split; [done|naive_solver]]. split.
  - case_goal; [done|]. destruct (nodes_by_id model !! root_id) as [node|] eqn:En; [|done]. intros _. apply orb_false_iff in Heqb as [_ Hm].
    apply negb_false_iff, mem_spec in Hm. by exists model, index, node.
  - intros (model' & index' & node & [= <- <-] & Hin & Hn). rewrite (proj2 (mem_spec root_id (root_ids model))) by done. cbn [negb]. rewrite orb_false_r.
    assert (Ht : truthy root_id = true) by (unfold truthy; apply negb_true_iff, bool_decide_eq_false; intros ->; rewrite (Hne _ _ E) in Hn; done).
    by rewrite Ht, Hn.
Qed.

Lemma read_prompt name : is_ok (read (PROMPT_PREFIX +:+ name)) = true <-> exists prompt, mcp_prompts config ≫= lookup name = Some prompt.
Proof.
  unfold read_resource_content. assert (Hs : startswith PROMPT_PREFIX (PROMPT_PREFIX +:+ name) = true) by (apply startswith_spec; by exists name).
  assert (Hnot : forall uri, uri ∈ fixed_uris -> PROMPT_PREFIX +:+ name ≠ uri) by (intros uri Hu E; by rewrite E, not_prefixed in Hs by set_solver).
  rewrite (bool_decide_false (_ = MCP_MODEL_OVERVIEW_URI)) by (apply Hnot; set_solver).
  assert (startswith MCP_ROOT_RESOURCE_PREFIX (PROMPT_PREFIX +:+ name) = false) as -> by reflexivity.
  rewrite !bool_decide_false by (apply Hnot; set_solver). rewrite Hs. rewrite str_drop_app. unfold get_prompt.
  destruct (mcp_prompts config ≫= lookup name) as [prompt|]; cbn; [split; [by exists prompt|done]|]. by split; [|intros []].
Qed.

Lemma read_fixed uri : uri ∈ fixed_uris -> is_ok (read uri) = true <-> uri ≠ "i3x://mcp-overrides" \/ is_Some (overrides_file config).
Proof.
  intros Hu. unfold fixed_uris in Hu. do 4 (apply elem_of_cons in Hu as [->|Hu]; [split; [intros _; by left|reflexivity]|]). apply list_elem_of_singleton in Hu as ->.
  change (read "i3x://mcp-overrides") with (match overrides_file config with Some text => Ok (content "i3x://mcp-overrides" "application/json" text) | None => invalid_resource "i3x://mcp-overrides" end).
  destruct (overrides_file config) as [text|]; cbn; [split; [intros _; right; by eexists|done]|]. split; [done|]. by intros [?|[]].
Qed.

(** The resources that are listed are those that can be read: in every state, reading an identifier succeeds just if the
    catalog of that state lists it, except that the overrides are listed even where there is no file with them. *)
Theorem resources_readable uri : prompts_named config -> ids_nonempty s ->
  is_ok (read uri) = true <-> listed uri /\ (uri = "i3x://mcp-overrides" -> is_Some (overrides_file config)).
Proof.
  intros Hp Hne. rewrite listed_spec by done. destruct (startswith MCP_ROOT_RESOURCE_PREFIX uri) eqn:Er.
  { apply startswith_spec in Er as [root_id ->]. change (_ +:+ root_id) with (root_uri root_id). rewrite read_root by done. split.
    - intros (model & index & node & H). split; [right; left; by exists root_id, model, index, node|done].
    - intros [[Hu|[(id & model & index & node & E & H)|(name & prompt & E & _)]] _]; [|apply (inj _) in E as <-; by exists model, index, node|done].
      apply (not_prefixed MCP_ROOT_RESOURCE_PREFIX) in Hu; [|by left]. by rewrite (proj2 (startswith_spec _ _)) in Hu by by exists root_id. }
  destruct (startswith PROMPT_PREFIX uri) eqn:Eq.
  { apply startswith_spec in Eq as [name ->]. rewrite read_prompt. split.
    - intros [prompt H]. split; [right; right; by exists name, prompt|done].
    - intros [[Hu|[(id & _ & _ & _ & E & _)|(name' & prompt & E & H)]] _]; [|done|apply (inj _) in E as <-; by exists prompt].
      apply (not_prefixed PROMPT_PREFIX) in Hu; [|set_solver]. by rewrite (proj2 (startswith_spec _ _)) in Hu by by exists name. }
  assert (Hother : (exists root_id model index node, uri = root_uri root_id /\ model_cache s = Some (model, index) /\ root_id ∈ root_ids model /\ nodes_by_id model !! root_id = Some node) \/
    (exists name prompt, uri = PROMPT_PREFIX +:+ name /\ mcp_prompts config ≫= lookup name = Some prompt) -> False).
  { intros [(id & _ & _ & _ & -> & _)|(name & _ & -> & _)]; [by rewrite (proj2 (startswith_spec _ _)) in Er by by exists id|by rewrite (proj2 (startswith_spec _ _)) in Eq by by exists name]. }
  destruct (decide (uri ∈ fixed_uris)) as [Hu|Hu].
  - rewrite read_fixed by done. destruct (decide (uri = "i3x://mcp-overrides")); naive_solver.
  - split; [|naive_solver]. unfold read_resource_content. rewrite Er, Eq. unfold fixed_uris in Hu. rewrite !bool_decide_false by set_solver. done.
Qed.
End Readable.

(** A server with the model of the example, one prompt and no overrides. *)
Definition example_prompts : dict string PromptDefinition := <["tour" := {| p_name := "tour"; p_description := "Tour"; p_inputs := ["area"]; p_template := "Show {{area}}." |}]> ∅.
Definition example_config : ServerConfig :=
  {| mcp_config := {| mcp_model_provider := true; mcp_api_prefix := Some "/api" |}; mcp_tools := ∅;
     mcp_prompts := Some example_prompts;
     mcp_allowed_origins := []; openapi_document := JObj []; overrides_file := None; server_version := "1.0" |}.
Definition example_models : ModelState := {| model_cache := Some (ModelAccess.plant, None); object_type_context_cache := None |}.

Lemma resources_readable_witness :
  let read uri := is_ok (read_resource_content (fun _ => ε) (fun _ => JNull) example_config uri example_models) in
  read "i3x://prompts/tour" = true /\ listed example_config example_models "i3x://prompts/tour" /\ read "i3x://mcp-overrides" = false.
Proof.
  cbv zeta. assert (Hp : prompts_named example_config).
  { intros registry H%(inj Some). subst registry. split; [apply dict_wf_insert, dict_wf_empty|]. intros name prompt H. unfold example_prompts in H. change (@lookup _ _ PromptRegistry _) with (@lookup string PromptDefinition (dict string PromptDefinition) _) in H. rewrite dict_lookup_insert in H. case_bool_decide; [|by rewrite lookup_empty_dict in H]. by injection H as <-. }
  assert (Hne : ids_nonempty example_models) by (intros model index [= <- _]; vm_compute; reflexivity).
  assert (Hr : is_ok (read_resource_content (fun _ => ε) (fun _ => JNull) example_config "i3x://prompts/tour" example_models) = true) by (vm_compute; reflexivity).
  split; [exact Hr|]. split.
  - exact (proj1 (proj1 (resources_readable (fun _ => ε) (fun _ => JNull) example_config example_models "i3x://prompts/tour" Hp Hne) Hr)).
  - vm_compute. reflexivity.
Defined.
End McpCatalogsSpec.
