(* ===== verification/McpServerSpec.v ===== *)
(** What clients of the MCP server can rely on: no request writes, every JSON-RPC request gets one answer with its id and no
    notification gets one, the resources that are listed are those that can be read, and answers that leave things out
    keep every failure. *)

From S2P Require Export McpServer McpInvokeSpec.

Module McpServerSpec.
Import NodeIds Profiles McpServer McpInvokeSpec.
Local Open Scope async_scope.

#[local] Arguments invoke_tool : simpl never.
#[local] Arguments items_lookup : simpl never.

Section Server.
Context (bracketed_netloc_ok : text -> bool) (repr : json -> text) (loads : string -> option json) (decode_replace : string -> string)
        (decode_utf8 : list Z -> option string) (first_error : json -> json -> option string) (model_revision stored_revision : BuildResult -> string)
        (build_completed_at_utc : BuildResult -> json) (uuid_hex : nat -> string).

Abbreviation post := (mcp_post bracketed_netloc_ok repr loads decode_replace decode_utf8 first_error model_revision stored_revision build_completed_at_utc uuid_hex).
Abbreviation handle := (handle_jsonrpc bracketed_netloc_ok repr loads decode_replace first_error model_revision stored_revision build_completed_at_utc).
Abbreviation handle_one := (handle_method bracketed_netloc_ok repr loads decode_replace first_error model_revision stored_revision build_completed_at_utc).
Abbreviation invoke := (invoke_tool bracketed_netloc_ok repr loads decode_replace first_error model_revision).

(** ** No request writes *)

Section Harmless.
Context (config : ServerConfig) (Htools : forall name tool, mcp_tools config !! name = Some tool -> upper (t_method tool) ≠ "PUT").

Lemma handle_one_harmless message_id rpc_method params : only harmless (handle_one config message_id rpc_method params).
Proof using Htools.
  unfold handle_method. case_bool_decide; [by destruct (params ≫= items_lookup "protocolVersion") as [[]|]|]. do 4 (case_bool_decide; [done|]). case_bool_decide.
  { destruct params as [params|]; [|done]. destruct (items_lookup "name" params) as [[| | | |name| |]|]; try done.
    destruct (dict_param "arguments" params) as [arguments|]; [|done]. destruct (mcp_tools config !! name) as [tool|] eqn:E; [|done].
    unfold call_result. destruct (first_error _ _); [done|]. apply only_bind; [|done]. apply invoke_harmless. by eapply Htools. }
  case_bool_decide; [done|]. case_bool_decide.
  { destruct params as [params|]; [|done]. destruct (items_lookup "name" params) as [[| | | |name| |]|]; try done.
    destruct (dict_param "arguments" params) as [arguments|]; [|done]. by case_goal. }
  case_bool_decide.
  { destruct params as [params|]; [|done]. destruct (items_lookup "name" params) as [[| | | |name| |]|]; try done. by destruct (dict_param "parameters" params). }
  case_bool_decide; [done|]. case_bool_decide; [|done]. destruct (params ≫= items_lookup "uri") as [[]|]; try done. by case_goal.
Qed.

Lemma handle_harmless message : only harmless (handle config message).
Proof using Htools.
  unfold handle_jsonrpc. case_goal; [done|]. case_goal; [done|]. destruct (items_lookup "method" message) as [[| | | |rpc_method| |]|]; try done.
  destruct (id_of message); try done; destruct (get "params" message); try done; (apply only_obind; [apply handle_one_harmless|done]).
Qed.

Lemma post_harmless request : only harmless (post config request).
Proof using Htools.
  apply only_obind_ret. intros [] _; [|done]. destruct (rq_json request) as [[| | | | | |message]|]; try done.
  apply only_obind; [done|]. intros [refused|session_id]; [done|]. apply only_bind; [apply handle_harmless|]. intros r s. by destruct (finish_request _ _ _ _ _).
Qed.
End Harmless.

(** C28. MCP never writes. With the tools that the server builds from any OpenAPI document, whatever a client sends, over JSON-RPC
    or the helper route, and whatever the application answers, no request within the process is a PUT, and every one goes
    to a normal absolute path. *)
Theorem mcp_never_writes fuel spec configuration overrides config request tool arguments :
  build_mcp_tools fuel repr spec configuration overrides = Some (mcp_tools config) ->
  only harmless (post config request) /\
  only harmless (call_tool bracketed_netloc_ok repr loads decode_replace first_error model_revision config tool arguments).
Proof.
  intros Hb. assert (Htools : forall name tool, mcp_tools config !! name = Some tool -> upper (t_method tool) ≠ "PUT").
  { intros name t Ht. by destruct (build_tools_ok _ _ _ _ _ _ Hb _ _ Ht) as [_ []]. }
  split; [by apply post_harmless|]. unfold call_tool. destruct (mcp_tools config !! tool) as [t|] eqn:E; [|done].
  apply only_obind; [|done]. apply invoke_harmless. by eapply Htools.
Qed.

(** ** Every request gets its answer *)

(** An answer to the request [id]: a result or an error, not both. *)
Definition answers (id : json) (r : items) : Prop :=
  (exists result, r = jsonrpc_response id result) \/ (exists code message data, r = jsonrpc_error id code message data).

(** The id of a request, or [null] where that is no id. *)
Definition answer_id (message : items) : json := if valid_id (id_of message) then id_of message else JNull.

(** A notification has no id. *)
Definition is_notification (message : items) : bool :=
  (negb (has_key "id" message) && bool_decide (str_arg "jsonrpc" message = Some "2.0") && bool_decide (is_Some (str_arg "method" message)))%bool.

(** The protocol version that a modern answer names. *)
Definition version_of (result : items) : option string := dict_item "_meta" result ≫= str_arg MCP_META_PROTOCOL_VERSION.

Section Answers.
Context (resp_ok : forall R, mcp_request R -> R -> Prop) (tick : ServerState -> ServerState -> Prop) (config : ServerConfig).

Abbreviation wp_any := (wp resp_ok tick).

Lemma wp_post {A} (p : prog ServerState mcp_request A) s : wp_any p (fun _ _ => True) s.
Proof.
  revert s. induction p as [a|X f k IH|R c k IH|k IH|k IH]; intros s; cbn; [done| |by intros; apply IH|by apply IH|by apply IH].
  destruct (f s). apply IH.
Qed.

Lemma answers_ok id result : answers id (jsonrpc_response id result).
Proof. left. by eexists. Qed.

Lemma answers_error id code message data : answers id (jsonrpc_error id code message data).
Proof. right. by eexists _, _, _. Qed.

Hint Resolve answers_ok answers_error : core.

(** Only a call of a tool lets other tasks run. *)
Definition answered (id : json) (rpc_method : string) (s : ServerState) (r : outcome exn items) (s' : ServerState) : Prop :=
  (rpc_method ≠ "tools/call" -> s' = s) /\ match r with Ok c => answers id c | Err _ => True end.

Lemma guarded_answers {A} id code message (r : outcome exn A) f : (forall a, answers id (f a)) ->
  match http_guarded id code message r f with Ok c => answers id c | Err _ => True end.
Proof. intros Hf. destruct r as [a|[e|e]]; cbn; [done|apply answers_error|done]. Qed.

Lemma handle_one_answers id rpc_method params s : wp_any (handle_one config id rpc_method params) (answered id rpc_method s) s.
Proof.
  unfold handle_method, answered. case_bool_decide as E; [destruct (params ≫= items_lookup "protocolVersion") as [[]|]; by split; auto|]. clear E.
  do 4 (case_bool_decide as E; [by split; auto|clear E]). case_bool_decide as E.
  { destruct params as [params|]; [|by split; auto]. destruct (items_lookup "name" params) as [[| | | |name| |]|]; try (by split; auto).
    destruct (dict_param "arguments" params) as [arguments|]; [|by split; auto]. destruct (mcp_tools config !! name) as [tool|]; [|by split; auto].
    unfold call_result. destruct (first_error _ _); [by split; auto|]. apply wp_bind. eapply wp_mono; [|apply wp_post].
    intros r s' _. split; [done|]. destruct r as [payload|[[status code message]|e]]; [auto| |done]. case_bool_decide; auto. }
  case_bool_decide as E'; [by split; auto|clear E']. case_bool_decide as E'.
  { destruct params as [params|]; [|by split; auto]. destruct (items_lookup "name" params) as [[| | | |name| |]|]; try (by split; auto).
    destruct (dict_param "arguments" params) as [arguments|]; [|by split; auto]. case_goal; [|by split; auto]. split; [done|]. by apply guarded_answers. }
  clear E'. case_bool_decide as E'.
  { destruct params as [params|]; [|by split; auto]. destruct (items_lookup "name" params) as [[| | | |name| |]|]; try (by split; auto).
    destruct (dict_param "parameters" params); [|by split; auto]. split; [done|]. by apply guarded_answers. }
  clear E'. case_bool_decide as E'; [by split; auto|clear E']. case_bool_decide as E'; [|by split; auto].
  destruct (params ≫= items_lookup "uri") as [[]|]; try (by split; auto). case_goal; [by split; auto|]. split; [done|]. by apply guarded_answers.
Qed.

(** A message is answered, or it is a notification and nothing happens, or the method raises. *)
Definition handled (message : items) (s : ServerState) (r : outcome exn (option items)) (s' : ServerState) : Prop :=
  (str_arg "method" message ≠ Some "tools/call" \/ is_notification message = true -> s' = s) /\
  if is_notification message then r = Ok None
  else match r with Ok c => exists content, c = Some content /\ answers (answer_id message) content | Err _ => valid_id (id_of message) = true end.

Lemma handle_answers message s : wp_any (handle config message) (handled message s) s.
Proof.
  unfold handle_jsonrpc, handled, is_notification, answer_id. destruct (has_key "id" message) eqn:Ei; cbn [negb andb].
  - destruct (valid_id (id_of message)) eqn:Ev; cbn [negb]; [|split; [done|]; eexists; split; [done|auto]].
    case_bool_decide as Ej; cbn [negb]; [|split; [done|]; eexists; split; [done|auto]]. unfold str_arg at 1.
    destruct (items_lookup "method" message) as [[| | | |m| |]|] eqn:Em; try (split; [done|]; eexists; split; [done|by auto]).
    assert (Hm : forall params, wp_any (obind (handle_one config (id_of message) m params) (fun r => Ret (Ok (Some r)))) (handled message s) s).
    { intros params. apply wp_bind. eapply wp_mono; [|apply handle_one_answers]. unfold answered, handled, is_notification, answer_id, str_arg. rewrite Em, Ei, Ev. cbn [negb andb].
      intros [c|e] s' [Hs Hr]; cbn; (split; [intros [Hm|?]; [apply Hs; congruence|done]|]); [by exists c|done]. }
    unfold handled, is_notification, answer_id, str_arg in Hm. rewrite Em, Ei, Ev in Hm. cbn [negb andb] in Hm.
    destruct (id_of message); try done; destruct (get "params" message); try apply Hm; (split; [done|]; eexists; split; [done|by auto]).
  - assert (Hid : id_of message = JNull).
    { unfold id_of, get. unfold has_key in Ei. apply bool_decide_eq_false, eq_None_not_Some in Ei. by rewrite Ei. }
    rewrite Hid. cbn [valid_id]. unfold str_arg. case_bool_decide as Ej; cbn [negb andb]; [|split; [done|]; eexists; split; [done|by auto]].
    by destruct (items_lookup "method" message) as [[| | | |m| |]|]; cbn; (split; [done|]); try (eexists; split; [done|by auto]).
Qed.

(** A session that has just been opened. *)
Definition opened (session_id version : string) (t : Transport) : Prop :=
  exists n, mcp_transport_sessions t !! session_id = Some n /\ session_objects t !! n = Some {| protocol_version := version; streams := [] |}.

Lemma new_session_opened session_id version t : opened session_id version (new_session session_id version t).
Proof. exists (length (session_objects t)). cbn. by rewrite dict_lookup_insert_eq, list_lookup_middle. Qed.

(** What an [initialize] of the old protocol does. *)
Definition session_opened (s : ServerState) (content : items) (headers : list (string * string)) (s' : ServerState) : Prop :=
  if has_key "result" content
  then headers = [(MCP_SESSION_HEADER, uuid_hex (sv_uuids s))] /\ sv_uuids s' = S (sv_uuids s) /\
       opened (uuid_hex (sv_uuids s)) (default MCP_LEGACY_PROTOCOL_VERSION (dict_item "result" content ≫= str_arg "protocolVersion")) (sv_transport s')
  else s' = s.

Lemma add_metadata_answers id c rpc_method : answers id c ->
  answers id (add_modern_response_metadata c rpc_method) /\
  (has_key "result" c = true -> forall result, items_lookup "result" (add_modern_response_metadata c rpc_method) = Some (JObj result) ->
    version_of result = Some MCP_PROTOCOL_VERSION).
Proof.
  intros [[result ->]|(code & message & data & ->)].
  - unfold add_modern_response_metadata. change (items_lookup "result" (jsonrpc_response id result)) with (Some result).
    destruct result as [| | | | | |l]; try (split; [by left; eexists|]; intros _ r; by intros [=]). cbv zeta.
    set (l1 := if bool_decide _ then _ else _). set (m := match items_lookup "_meta" l1 with Some (JObj _) => _ | _ => _ end).
    change (with_item "result" ?v (jsonrpc_response id _)) with (jsonrpc_response id v). split; [by left; eexists|]. intros _ r [= <-].
    unfold version_of, dict_item, with_item, str_arg. rewrite items_lookup_insert, bool_decide_true by done. cbn [mbind option_bind dict_of].
    by rewrite items_lookup_insert, bool_decide_true by done.
  - unfold add_modern_response_metadata. change (items_lookup "result" (jsonrpc_error id code message data)) with (@None json). split; [by right; eexists _, _, _|done].
Qed.

Lemma finish_answers modern session_id message id content s : answers id content ->
  let '(s', r) := finish_request uuid_hex modern session_id message (Some content) s in
  exists content' headers, r = JsonResponse 200 (JObj content') headers /\ answers id content' /\
    (modern = true -> forall result, items_lookup "result" content' = Some (JObj result) -> version_of result = Some MCP_PROTOCOL_VERSION) /\
    (modern = false -> method_is "initialize" message = true -> session_opened s content' headers s').
Proof.
  intros Ha. unfold finish_request. set (rpc_method := match items_lookup "method" message with Some (JStr m) => m | _ => _ end).
  destruct modern; cbn [andb negb].
  - destruct (has_key "result" content) eqn:Er.
    + destruct (add_metadata_answers id content rpc_method Ha) as [Ha' Hv]. eexists _, _. split_and!; [done..|intros _; by apply Hv|done].
    + eexists _, _. split; [done|]. split; [done|]. split; [|done]. intros _ result Hr. unfold has_key in Er. by rewrite Hr in Er.
  - destruct (method_is "initialize" message) eqn:Em; cbn [andb].
    + unfold session_opened. destruct (has_key "result" content) eqn:Er; (eexists _, _; split; [done|]; split; [done|]; split; [done|]; intros _ _); rewrite Er.
      * split; [done|]. split; [done|]. cbn. unfold str_arg. destruct (dict_item "result" content) as [l|]; cbn; [|by apply new_session_opened].
        destruct (items_lookup "protocolVersion" l) as [[]|]; by apply new_session_opened.
      * by destruct session_id; [destruct (method_is _ _)|].
    + eexists _, _. by split_and!.
Qed.

(** A header with the name of a request that claims to be base64 and is not even ASCII. *)
Definition raising_name (request : HttpRequest) : Prop :=
  exists value, header "mcp-name" request = Some value /\ startswith "=?base64?" value = true /\ exists c, c ∈ chars value /\ 128 <= code c.

Lemma decode_raises value e : decode_modern_header_value decode_utf8 value = Err e ->
  startswith "=?base64?" value = true /\ exists c, c ∈ chars value /\ 128 <= code c.
Proof.
  unfold decode_modern_header_value. destruct (negb _) eqn:En; [done|]. apply negb_false_iff, andb_true_iff in En as [Hs _].
  destruct (existsb _ _) eqn:Ex; [|done]. intros _. split; [done|]. apply existsb_exists in Ex as (c & Hc & Hle%Z.leb_le). exists c. split; [|done].
  apply list_elem_of_In, elem_of_take in Hc as (k & Hk & _). rewrite lookup_drop in Hk. by eapply list_elem_of_lookup_2.
Qed.

(** Nothing else makes the checks raise. *)
Lemma admit_raises request message t e : admit_request decode_utf8 request message t = Err e -> raising_name request.
Proof.
  unfold admit_request. destruct (is_modern request message).
  - destruct (modern_request_error decode_utf8 request message) as [error|e'] eqn:E; cbn [mbind outcome_bind]; [destruct error; [done|by case_match]|].
    intros _. unfold modern_request_error in E. repeat (case_match; try done).
    all: match type of E with context [decode_modern_header_value decode_utf8 ?value] =>
           destruct (decode_modern_header_value decode_utf8 value) as [decoded|e''] eqn:Ed; cbn [mbind outcome_bind] in E;
             [by repeat case_match|apply decode_raises in Ed as [? ?]; by exists value]
         | _ => cbn [mbind outcome_bind] in E; by repeat case_match
         end.
  - by repeat case_match.
Qed.

(** C29. Every JSON-RPC request gets its answer. A request from an allowed origin is refused before anything happens, or it is
    handled: a notification then changes nothing and gets no content, and any other message gets one answer, a result or
    an error and not both, with the id of the request, or without one where the request has no proper id, however the
    tool or the application behind it fails. An answer of the new protocol names its version, and an [initialize] of
    the old one opens a session with the negotiated version just if it succeeds. The one exception: if the header
    Mcp-Name claims to be base64 and is not ASCII, the check of the request may raise ([raising_name]), and then
    nothing has happened, and there is no JSON-RPC answer. *)
Theorem jsonrpc_answers request message s :
  rq_json request = Some (JObj message) -> origin_is_allowed bracketed_netloc_ok config request = Ok true ->
  wp resp_ok tick (post config request) (fun r s' =>
    match admit_request decode_utf8 request message (sv_transport s) with
    | Err e => r = Err e /\ s' = s /\ raising_name request
    | Ok (inl refusal) => r = Ok refusal /\ s' = s
    | Ok (inr _) =>
        if is_notification message then s' = s /\ exists headers, r = Ok (EmptyResponse 202 headers)
        else exists content headers, r = Ok (JsonResponse 200 (JObj content) headers) /\ answers (answer_id message) content /\
          (is_modern request message = true -> forall result, items_lookup "result" content = Some (JObj result) -> version_of result = Some MCP_PROTOCOL_VERSION) /\
          (is_modern request message = false -> method_is "initialize" message = true -> session_opened s content headers s')
    end) s.
Proof.
  intros Hj Ho. unfold mcp_post, from_allowed_origin. rewrite Ho. cbn [obind pbind]. rewrite Hj. unfold read_state, obind. cbn [sect pbind wp].
  destruct (admit_request _ _ _ _) as [[refusal|session_id]|e] eqn:Ea; [done| |by apply admit_raises in Ea]. apply wp_bind. eapply wp_mono; [|apply (handle_answers message)].
  intros r s1 [Hs Hr]. cbn [sect wp]. destruct (is_notification message) eqn:En.
  - rewrite Hr, Hs by auto. unfold finish_request. destruct session_id; cbn -[method_is]; (split; [done|by eexists]).
  - assert (Hc : exists content, (match r with Ok response => response | Err _ => internal_error message end) = Some content /\ answers (answer_id message) content).
    { destruct r as [c|e]; [done|]. unfold internal_error, answer_id. rewrite Hr. unfold id_of, get, has_key in *. destruct (items_lookup "id" message) as [v|]; [|done].
      rewrite bool_decide_true by by eexists. eexists. split; [done|apply answers_error]. }
    destruct Hc as (content & -> & Hc). pose proof (finish_answers (is_modern request message) session_id message _ content s1 Hc) as Hf.
    destruct (finish_request _ _ _ _ _ s1) as [s2 response]. destruct Hf as (content' & headers & -> & H1 & H2 & H3). exists content', headers. split_and!; try done.
    intros Hm Hi. assert (s1 = s) as <-; [|by apply H3]. apply Hs. left. unfold method_is in Hi. apply bool_decide_eq_true in Hi. by rewrite Hi.
Qed.
End Answers.
End Server.

(** A server with the tools of a small API. *)
Definition tiny_config : ServerConfig :=
  {| mcp_config := {| mcp_model_provider := true; mcp_api_prefix := Some "/api" |};
     mcp_tools := default ∅ (build_mcp_tools 5 (fun _ => []) tiny_api [] (Some [])); mcp_prompts := None; mcp_allowed_origins := [];
     openapi_document := JObj tiny_api; overrides_file := None; server_version := "1.0" |}.

Definition ping (id : json) : HttpRequest :=
  {| rq_headers := []; rq_base_url := "http://localhost:8000/"; rq_json := Some (JObj [("jsonrpc", JStr "2.0"); ("id", id); ("method", JStr "ping")]) |}.

Abbreviation post_to config request :=
  (mcp_post (fun _ => true) (fun _ => []) (fun _ => None) id (fun _ => None) (fun _ _ => None) (fun _ => "r1") (fun _ => "r1") (fun _ => JNull) (fun n => str_of_int (Z.of_nat n)) (config : ServerConfig) (request : HttpRequest)).

Lemma mcp_never_writes_witness :
  is_Some (build_mcp_tools 5 (fun _ => []) tiny_api [] (Some [])) /\ only harmless (post_to tiny_config (ping (JInt 7))).
Proof.
  assert (E : build_mcp_tools 5 (fun _ => []) tiny_api [] (Some []) = Some (mcp_tools tiny_config)) by (vm_compute; reflexivity).
  split; [rewrite E; by eexists|].
  exact (proj1 (mcp_never_writes (fun _ => true) (fun _ => []) (fun _ => None) id (fun _ => None) (fun _ _ => None) (fun _ => "r1") (fun _ => "r1") (fun _ => JNull) (fun n => str_of_int (Z.of_nat n))
    5 tiny_api [] (Some []) tiny_config (ping (JInt 7)) "getObjectsV1" [] E)).
Defined.

(** A request whose name is given as base64 with a character that is not ASCII. *)
Definition accented : HttpRequest :=
  let metadata := JObj [(MCP_META_PROTOCOL_VERSION, JStr MCP_PROTOCOL_VERSION); (MCP_META_CLIENT_CAPABILITIES, JObj [])] in
  {| rq_headers := [("mcp-protocol-version", MCP_PROTOCOL_VERSION); ("mcp-method", "tools/call");
                    ("mcp-name", "=?base64?" +:+ of_chars [ascii_of_nat 233] +:+ "?=")];
     rq_base_url := "http://localhost:8000/";
     rq_json := Some (JObj [("jsonrpc", JStr "2.0"); ("id", JInt 7); ("method", JStr "tools/call");
                            ("params", JObj [("name", JStr "getInfoV1"); ("_meta", metadata)])]) |}.

(** It gets no answer: the exception leaves the route. *)
Example accented_name_raises :
  let s := {| sv_models := {| model_cache := None; object_type_context_cache := None |}; sv_transport := no_transport; sv_uuids := 0 |} in
  wp (fun _ _ _ => True) (fun _ _ => True) (post_to tiny_config accented) (fun r s' => r = Err (OtherException "ValueError") /\ s' = s) s.
Proof. vm_compute. done. Qed.

Lemma jsonrpc_answers_witness :
  let s := {| sv_models := {| model_cache := None; object_type_context_cache := None |}; sv_transport := no_transport; sv_uuids := 0 |} in
  wp (fun _ _ _ => True) (fun _ _ => True) (post_to tiny_config (ping (JInt 7)))
    (fun r _ => exists content headers, r = Ok (JsonResponse 200 (JObj content) headers) /\ answers (JInt 7) content) s.
Proof.
  cbv zeta. eapply wp_mono; [|apply (jsonrpc_answers (fun _ => true) (fun _ => []) (fun _ => None) id (fun _ => None) (fun _ _ => None) (fun _ => "r1") (fun _ => "r1")
    (fun _ => JNull) (fun n => str_of_int (Z.of_nat n)) (fun _ _ _ => True) (fun _ _ => True) tiny_config (ping (JInt 7)) [("jsonrpc", JStr "2.0"); ("id", JInt 7); ("method", JStr "ping")]); reflexivity].
  intros r s' H. assert (Ea : admit_request (fun _ => None) (ping (JInt 7)) [("jsonrpc", JStr "2.0"); ("id", JInt 7); ("method", JStr "ping")] no_transport = Ok (inr None)) by (vm_compute; reflexivity).
  cbn [sv_transport] in H. rewrite Ea in H. assert (En : is_notification [("jsonrpc", JStr "2.0"); ("id", JInt 7); ("method", JStr "ping")] = false) by (vm_compute; reflexivity).
  rewrite En in H. destruct H as (content & headers & Hr & Hc & _). exists content, headers. by split.
Defined.
End McpServerSpec.
